(* ===== verification/_CoqProject ===== *)
-Q . S2P
Prelude.v
Bits.v
Ctype.v
StringLib.v
Kfifo.v
Strtol.v
Vsprintf.v
Vsscanf.v
FindBit.v
Bitmap.v
Resource.v
Time.v
HeapOrder.v
Sort.v
PrioHeap.v
Crc.v
Rbtree.v
RwSem.v
Timer.v
RadixTree.v
RadixInsert.v
RadixTags.v
RadixDelete.v
RadixGang.v
TextSearch.v
BoyerMoore.v
TsFsm.v
Cmdline.v
ArgvSplit.v
OptParser.v
ListHead.v
Plist.v
Mutex.v
Params.v
Chain.v
Notifier.v
Nls.v
GenAlloc.v
Groups.v
PosixAcl.v
Ext2Acl.v
Ext2World.v
