(* ===== verification/Prelude.v ===== *)
(** * Verification of the core library of the Linux 2.6.24 YP-R0 kernel

    The repository is the kernel of a music player: Linux 2.6.24 for a 32-bit
    little-endian ARM processor (i.MX37), configured for one processor (.config:
    no CONFIG_SMP, CONFIG_RWSEM_GENERIC_SPINLOCK, HZ=100).  Its file systems,
    drivers and network run on a small core: containers, allocators of bits and
    address ranges, text formatting, checksums, time arithmetic, locks.  This
    development models that core, file by file, and proves it correct; above it,
    it models who may use which file: groups and access control lists.  File
    names below are relative to src/linux-2.6.24-2.4.2-base/.

    ** How the code is modelled

    - A C function is a Rocq function of the same name.  Loops are fixpoints,
      structural ones where the code walks a list or counts down, otherwise with
      a fuel argument; running out of fuel, leaving an object, reading an
      uninitialised or NULL pointer and BUG_ON all give [None].  The theorems say
      that the result is [Some], so they include termination and memory safety,
      for a stated fuel: the length of the buffer or list walked, the number of
      objects of the heap, the bits of a word, or, for red-black trees,
      [2 log2 (n + 1) + 1].  Loops whose length is an integer of the machine are
      [run d step] below, at most [2 ^ d] turns counted in binary, with the rule
      [run_rule] (an invariant and a measure that falls).
    - Integers are [Z]; where C wraps or truncates, [u8] ... [s64] below are
      written out.  [unsigned long] and pointers have 32 bits.
    - Memory is a list of cells per object ([rd], [wr], [memcpy] below), or a
      finite map from addresses to records where objects point to each other
      (Resource.v, Rbtree.v, RadixTree.v, ListHead.v, Params.v, Groups.v,
      PosixAcl.v).  Two pointers into one object share its list.
    - Code that the functions call through pointers (comparisons, alignment
      callbacks) is a parameter with the documented laws as hypotheses; kmalloc's
      answer is an argument.  Each such theorem has a witness with a concrete one.
    - Locks that make an operation atomic disappear into "one operation is one
      function"; where code runs without a lock or sleeps, the interleavings are
      an inductive step relation (Kfifo.v, RwSem.v, Mutex.v,
      the reader of Notifier.v).
    - Shared objects with a reference count are in a store by address; a call that
      uses an object that is gone gives [None] (Groups.v, PosixAcl.v, Ext2Acl.v).

    ** The parts

    - Prelude.v: this file; wrapped integers, cells of objects, the option monad
      notation, bit and list lemmas, the tactics [word_lia] and its relatives.
    - Bits.v: lib/hweight.c, bitrev.c, int_sqrt.c, div64.c, reciprocal_div.c and
      include/asm-generic/bitops.  Population count, bit reversal, the integer
      square root and the 64 by 32 bit division equal their specifications.
    - Ctype.v, StringLib.v: lib/ctype.c, lib/string.c.  Every function of
      string.c; memmove with overlap, strlcpy and strlcat truncation, comparison,
      search and tokenising.
    - Kfifo.v: kernel/kfifo.c.  Refinement of a bounded queue for sequences of
      operations, and the lock-free case of one reader and one writer, byte by
      byte, as a step relation with an invariant.
    - Strtol.v, Vsprintf.v, Vsscanf.v: lib/vsprintf.c.  vsnprintf writes the
      prefix of one text that fits, as long as its 32-bit pointer does not wrap
      around; printed numbers are read back; vsscanf stays in its strings.
    - FindBit.v, Bitmap.v: lib/find_next_bit.c, lib/bitmap.c.  Bits set, shifted,
      searched, remapped, parsed and printed; regions allocated first fit.
      Bitmap.v rests on FindBit.v for its searches and on Strtol.v and Vsprintf.v
      for its text formats.
    - Resource.v: kernel/resource.c.  Address ranges in a tree of siblings in a
      heap: requesting, releasing, allocating.
    - Time.v: kernel/time.c, include/linux/time.h, jiffies.h.  Dates, normal
      forms, and the conversions between jiffies and other units.
    - HeapOrder.v, Sort.v, PrioHeap.v: binary heaps shared by lib/sort.c (heap
      sort of bytes in memory) and lib/prio_heap.c (the smallest of a stream).
    - Crc.v: lib/crc16.c, crc-ccitt.c, crc-itu-t.c, crc7.c, libcrc32c.c, crc32.c
      and its table generator.  Every table equals the bitwise polynomial
      register, the word-wise variants equal the bitwise one, bursts are found.
    - Rbtree.v: lib/rbtree.c.  Nodes in a heap with parent and colour in one word;
      insertion and removal keep a red-black tree with the order of its nodes,
      walks follow the order.
    - RwSem.v: lib/rwsem-spinlock.c.  Tasks that take, sleep on and release a
      reader-writer semaphore: exclusion, and no starvation.
    - Mutex.v: kernel/mutex.c with asm-generic/mutex-dec.h, one step per atomic
      access: the fast path on the counter, the slow path with its queue,
      interrupted waits and trylock.  One owner at a time, and every waiter gets
      the mutex when owners release it.
    - Timer.v: kernel/timer.c.  The wheel of five levels refines a queue ordered by
      expiry, whatever the handlers do to other timers; a timer runs once, on time.
    - ListHead.v: include/linux/list.h.  Circular lists in a memory of pointers;
      any number of them in one memory implement sequences.  Plist.v rests on it:
      lib/plist.c, two lists per head, is a queue ordered by priority.
    - RadixTree.v (data and lookup), RadixInsert.v, RadixTags.v, RadixDelete.v,
      RadixGang.v: lib/radix-tree.c.  Trees of 64-slot nodes in a heap with an
      allocator that may fail; a tree is a finite map from indices to items with
      tagged indices, the shape invariant is kept by insertion, deletion and
      shrinking, a tag of a slot says that an item below has it, and the gang
      lookups list the items in order.
    - TextSearch.v, BoyerMoore.v, TsFsm.v: lib/textsearch.c, ts_kmp.c, ts_bm.c,
      ts_fsm.c.  The core with its registered algorithms; the class [Serves] is
      what a callback promises that gives the text in blocks, [Finds] what an
      algorithm promises over any such callback.  Knuth-Morris-Pratt is an
      instance, Boyer-Moore is proved for one linear block of text.  The automaton
      of ts_fsm.c runs over any callback; its tokens are a regular expression,
      and what it reports matches that.
    - Cmdline.v, ArgvSplit.v, OptParser.v: lib/cmdline.c, argv_split.c, parser.c.
      Integer lists and sizes, words of a string as separate allocations, and
      options matched against a table of patterns.
    - Chain.v: lists through a next field that are walked with a pointer to the
      pointer looked at; two files rest on it.  Notifier.v: kernel/notifier.c,
      chains ordered by priority, called in order, and called without the lock,
      turn by turn of the loop of notifier_call_chain ([call_turn]), while others
      register and unregister.  Nls.v: fs/nls/nls_base.c and nls.h,
      UTF-8 to 16-bit characters and back, and the registered character sets.
    - GenAlloc.v: lib/genalloc.c.  Chunks of addresses with a bitmap of granules,
      over FindBit.v: allocations never overlap, in any history.
    - Params.v: kernel/params.c.  The command line cut into names and values in
      place, the setters and getters of each type, arrays and strings.
    - Groups.v: the supplementary groups of kernel/sys.c, in pages: reading from
      and writing to the user, the shell sort, the search, membership.
    - PosixAcl.v: fs/posix_acl.c, xattr_acl.c.  An access list is valid exactly if
      it is [to_entries] of a [shape] (owner, named users, group, named groups,
      mask, others, in order), and every operation is a function of the shape:
      the decision, the agreement with the mode, chmod and creation, the format
      of the attribute.
    - Ext2Acl.v, Ext2World.v: fs/ext2/acl.c, generic_permission of fs/namei.c and
      ext2_clear_inode.  Inodes with two cached lists over the class [Xattrs]
      (what fs/ext2/xattr.c offers: get and set) with the laws [XattrLaws]: a read
      may fail, and a store that fails may have taken effect, after which the
      cached list may be another than the one on the disk.  The lists are objects
      with counts.  Ext2Acl.v has the operations, the format on
      the disk and the decision on a file; Ext2World.v any sequence of calls on
      any number of inodes, and what a new file inherits.
    Components use each other through their lemmas: a file states for each
    operation what it does to the abstract value (the bits of a bitmap, the text
    printed, the order of a tree), and the files above it use only that.

    ** What the theorems show

    Invariants (red-black trees, resource trees, the semaphore, heaps), functional
    correctness on every branch with the error results, refinement of abstract
    specifications (the bounded queue, the kept multiset of a priority heap),
    equivalence with reference definitions (polynomial registers, calendar days,
    the floor of the square root, the first occurrence of a pattern), round trips
    (print and scan, request and release, options written and matched), bounds and
    saturation on machine integers, safety of concurrent steps, and progress.  Where the code misses what it documents the theorem
    states what it does, and a lemma proves the deviation: strcmp on bytes above
    127, %zd of negative numbers, regions at the end of a bitmap, one-unit gaps of
    a resource, saturation of usecs_to_jiffies, a node pool of the radix tree that
    is too small for a path of a tall tree, Boyer-Moore at offset 0 and over block
    boundaries, patterns of the automaton that leave it a choice or occur before
    the end of the text, get_options beyond its array, a sign alone as an integer option,
    list_splice_init_rcu, the getter of byte parameters, int parameters beyond
    32 bits, a quoted name without a value, groups whose numbers are 2^31 apart,
    ASCII text and the room given to utf8_wcstombs, characters beyond 16 bits, the
    end of a chunk of a pool, lists with an empty mask, a mode that changes
    although the list could not be stored, a cached list that stays when a failed
    store has changed the attribute, a text that passes the top of the address
    space.

    ** Not modelled

    - Side effects on devices, the console, /proc and sysfs; the drivers, file
      systems (but for access control), network, memory management, scheduler and
      machine code, which rest on hardware state and preemption.
    - The character tables of fs/nls: data.
    - Third-party code under lib/ (zlib, lzo, Reed-Solomon).
    - Digests and random numbers (sha1.c, halfmd4.c, random32.c), whose only
      specification is the code.
    - Lock debugging and statistics that .config leaves out; big-endian and SMP
      variants of the code.
    - The wrap of the two counters of notifier_call_chain, which takes 2^31 calls,
      more than there is room for blocks.
    - Memory ordering: barriers are taken to order the accesses they separate.

    ** What could follow

    The remaining containers (idr.c, prio_tree.c, klist.c), hexdump.c,
    the operations of resource.c, timer.c and list.h that are not listed here,
    pid.c, storing attributes in blocks (fs/ext2/xattr.c, below the
    class [Xattrs]). *)








From Stdlib Require Export ZArith Lia Bool.
From Stdlib Require Import Ascii String.
From stdpp Require Export base tactics list list_numbers option gmap.

#[global] Open Scope Z_scope.

(** ** Machine integers

    A [w]-bit unsigned integer is a [Z] in [0, 2^w); arithmetic that C does
    modulo [2^w] is written out with the wrappers below. *)

Definition u8 (z : Z) : Z := z mod 2 ^ 8.
Definition u16 (z : Z) : Z := z mod 2 ^ 16.
Definition u32 (z : Z) : Z := z mod 2 ^ 32.
Definition u64 (z : Z) : Z := z mod 2 ^ 64.
(** Two's complement reinterpretation, as gcc converts to a signed type. *)
Definition s8 (z : Z) : Z := (z + 2 ^ 7) mod 2 ^ 8 - 2 ^ 7.
Definition s16 (z : Z) : Z := (z + 2 ^ 15) mod 2 ^ 16 - 2 ^ 15.
Definition s32 (z : Z) : Z := (z + 2 ^ 31) mod 2 ^ 32 - 2 ^ 31.
Definition s64 (z : Z) : Z := (z + 2 ^ 63) mod 2 ^ 64 - 2 ^ 63.

Definition is_u8 (z : Z) : Prop := 0 <= z < 2 ^ 8.
Definition is_u16 (z : Z) : Prop := 0 <= z < 2 ^ 16.
Definition is_u32 (z : Z) : Prop := 0 <= z < 2 ^ 32.
Definition is_u64 (z : Z) : Prop := 0 <= z < 2 ^ 64.

(** Bitwise complement of a 32-bit word. *)
Definition not32 (z : Z) : Z := u32 (Z.lnot z).

(** ** Objects in memory

    An object is the list of its cells; an access outside of it is undefined
    behaviour, which the models report as [None]. *)

Definition rd {A} (b : list A) (i : Z) : option A :=
  if i <? 0 then None else b !! Z.to_nat i.
Definition wr {A} (b : list A) (i : Z) (v : A) : option (list A) :=
  if (0 <=? i) && (i <? Z.of_nat (length b)) then Some (<[Z.to_nat i := v]> b) else None.

Abbreviation zlen l := (Z.of_nat (length l)).

(** The sub-list of [n] cells from offset [i]. *)
Definition slice {A} (i n : Z) (b : list A) : list A :=
  take (Z.to_nat n) (drop (Z.to_nat i) b).

(** What copying [n] cells from offset [soff] of [src] to offset [doff] of
    [dst] leaves in [dst], when the source cells are those of [src]. *)
Definition blit {A} (dst : list A) (doff : Z) (src : list A) (soff n : Z) : list A :=
  take (Z.to_nat doff) dst ++ slice soff n src ++ drop (Z.to_nat (doff + n)) dst.

(** ** Characters

    The code of a character, and the bytes of a literal without its terminator. *)
Definition ch (a : Ascii.ascii) : Z := Z.of_N (Ascii.N_of_ascii a).
Definition text (s : String.string) : list Z := map ch (String.list_ascii_of_string s).

(** The object a string literal denotes. *)
Definition cstr (s : String.string) : list Z := text s ++ [0].

(** [*p], for a pointer given by the bytes from it on. *)
Definition deref (p : list Z) : option Z := head p.

(** ** Long loops

    A loop body gives the next state, or the result; [run d f s] takes at most
    2^d rounds, without a unary counter. *)

Fixpoint rounds {A B} (d : nat) (f : A -> option (A + B)) (s : A) : option (A + B) :=
  match d with
  | O => f s
  | S d =>
    o ← rounds d f s;
    match o with inl s => rounds d f s | inr r => Some (inr r) end
  end.
Definition run {A B} (d : nat) (f : A -> option (A + B)) (s : A) : option B :=
  o ← rounds d f s;
  match o with inl _ => None | inr r => Some r end.

(** ** Error numbers (include/asm-generic/errno-base.h) *)

Definition ENOMEM : Z := 12.
Definition EBUSY : Z := 16.
Definition EEXIST : Z := 17.
Definition EINVAL : Z := 22.
Definition ERANGE : Z := 34.
Definition EOVERFLOW : Z := 75.

(** ** Automation *)

Create Rewrite HintDb kernel.
Create HintDb kernel.
Create Rewrite HintDb kbits.

(** Case analysis on the boolean comparisons of the goal. *)
Ltac zcases :=
  repeat match goal with
  | |- context [?a <? ?b] => destruct (Z.ltb_spec a b)
  | |- context [?a <=? ?b] => destruct (Z.leb_spec a b)
  | |- context [?a =? ?b] => destruct (Z.eqb_spec a b)
  end.

(** The same on a named hypothesis. *)
Ltac zcases_in H :=
  repeat match type of H with
  | context [?a <? ?b] => destruct (Z.ltb_spec a b)
  | context [?a <=? ?b] => destruct (Z.leb_spec a b)
  | context [?a =? ?b] => destruct (Z.eqb_spec a b)
  end.

Ltac unfold_words :=
  unfold is_u8, is_u16, is_u32, is_u64, u8, u16, u32, u64, s8, s16, s32, s64 in *.

(** Linear arithmetic with the constant divisions of machine words. *)
Ltac word_lia := unfold_words; Z.to_euclidean_division_equations; lia.

(** Turn boolean comparisons in the context into propositions. *)
Ltac bool_to_prop :=
  repeat match goal with
  | H : (_ && _) = true |- _ => apply andb_true_iff in H as [? ?]
  | H : (_ || _) = false |- _ => apply orb_false_iff in H as [? ?]
  | H : negb _ = true |- _ => apply negb_true_iff in H
  | H : negb _ = false |- _ => apply negb_false_iff in H
  | H : (_ <? _) = true |- _ => apply Z.ltb_lt in H
  | H : (_ <? _) = false |- _ => apply Z.ltb_ge in H
  | H : (_ <=? _) = true |- _ => apply Z.leb_le in H
  | H : (_ <=? _) = false |- _ => apply Z.leb_gt in H
  | H : (_ =? _) = true |- _ => apply Z.eqb_eq in H
  | H : (_ =? _) = false |- _ => apply Z.eqb_neq in H
  end.

(** ** Words: lemmas *)

Lemma u32_small z : is_u32 z -> u32 z = z.
Proof. intros. apply Z.mod_small. exact H. Qed.

Lemma u32_range z : is_u32 (u32 z).
Proof. word_lia. Qed.

Lemma u8_small z : is_u8 z -> u8 z = z.
Proof. intros. apply Z.mod_small. exact H. Qed.

Lemma u8_range z : is_u8 (u8 z).
Proof. word_lia. Qed.

Lemma u64_small z : is_u64 z -> u64 z = z.
Proof. intros. apply Z.mod_small. exact H. Qed.

Lemma u32_u32 z : u32 (u32 z) = u32 z.
Proof. apply Z.mod_mod. lia. Qed.

Lemma s32_small z : - 2 ^ 31 <= z < 2 ^ 31 -> s32 z = z.
Proof. intros. word_lia. Qed.

Lemma s32_range z : - 2 ^ 31 <= s32 z < 2 ^ 31.
Proof. word_lia. Qed.

Lemma s32_s32 z : s32 (s32 z) = s32 z.
Proof. apply s32_small, s32_range. Qed.

Lemma u32_add_l a b : u32 (u32 a + b) = u32 (a + b).
Proof. apply Zplus_mod_idemp_l. Qed.

Lemma u32_add_r a b : u32 (a + u32 b) = u32 (a + b).
Proof. apply Zplus_mod_idemp_r. Qed.

Lemma u32_sub_l a b : u32 (u32 a - b) = u32 (a - b).
Proof. apply Zminus_mod_idemp_l. Qed.

Lemma u32_sub_r a b : u32 (a - u32 b) = u32 (a - b).
Proof. apply Zminus_mod_idemp_r. Qed.

#[export] Hint Rewrite u32_u32 u32_add_l u32_add_r u32_sub_l u32_sub_r : kernel.
#[export] Hint Resolve u32_range u8_range : kernel.

(** Reading a bit of a wrapped word. *)
Lemma u32_testbit z i : Z.testbit (u32 z) i = (i <? 32) && Z.testbit z i.
Proof. apply Z.testbit_mod_pow2. lia. Qed.

Lemma u8_testbit z i : Z.testbit (u8 z) i = (i <? 8) && Z.testbit z i.
Proof. apply Z.testbit_mod_pow2. lia. Qed.

Lemma u16_testbit z i : Z.testbit (u16 z) i = (i <? 16) && Z.testbit z i.
Proof. apply Z.testbit_mod_pow2. lia. Qed.

Lemma testbit_high z n i : 0 <= z < 2 ^ n -> n <= i -> Z.testbit z i = false.
Proof.
  intros Hz Hi. destruct (Z.ltb_spec n 0) as [Hn|Hn].
  { rewrite Z.pow_neg_r in Hz; lia. }
  rewrite <- (Z.mod_small z (2 ^ n)) by done. by apply Z.mod_pow2_bits_high.
Qed.

Lemma shiftl_testbit a n i :
  Z.testbit (Z.shiftl a n) i = (0 <=? i) && Z.testbit a (i - n).
Proof.
  destruct (Z.leb_spec 0 i); simpl.
  - by apply Z.shiftl_spec.
  - by apply Z.testbit_neg_r.
Qed.

Lemma shiftr_testbit a n i :
  Z.testbit (Z.shiftr a n) i = (0 <=? i) && Z.testbit a (i + n).
Proof.
  destruct (Z.leb_spec 0 i); simpl.
  - by apply Z.shiftr_spec.
  - by apply Z.testbit_neg_r.
Qed.

Lemma lnot_testbit a i : Z.testbit (Z.lnot a) i = (0 <=? i) && negb (Z.testbit a i).
Proof.
  destruct (Z.leb_spec 0 i); simpl.
  - by apply Z.lnot_spec.
  - by apply Z.testbit_neg_r.
Qed.

Lemma ones_testbit n i : 0 <= n -> Z.testbit (Z.ones n) i = (0 <=? i) && (i <? n).
Proof.
  intros. destruct (Z.leb_spec 0 i); simpl.
  - by apply Z.testbit_ones_nonneg.
  - by apply Z.testbit_neg_r.
Qed.

Lemma not32_testbit z i :
  Z.testbit (not32 z) i = (i <? 32) && (0 <=? i) && negb (Z.testbit z i).
Proof. unfold not32. by rewrite u32_testbit, lnot_testbit, andb_assoc. Qed.

#[export] Hint Rewrite u32_testbit u8_testbit u16_testbit shiftl_testbit
  shiftr_testbit lnot_testbit not32_testbit Z.land_spec Z.lor_spec Z.lxor_spec
  Z.ldiff_spec Z.bits_0 : kbits.
#[export] Hint Rewrite ones_testbit using lia : kbits.

(** Extensionality of words, bit by bit. *)
Ltac bitwise_as i Hi := apply Z.bits_inj'; intros i Hi; autorewrite with kbits.

Lemma land_mask z n : 0 <= n -> Z.land z (2 ^ n - 1) = z mod 2 ^ n.
Proof.
  intros. rewrite <- Z.land_ones by done. f_equal. rewrite Z.ones_equiv. lia.
Qed.

Lemma lor_add_disjoint a b : Z.land a b = 0 -> Z.lor a b = a + b.
Proof.
  intros. rewrite <- Z.lxor_lor by done. symmetry. by apply Z.add_nocarry_lxor.
Qed.

(** Numbers below [2^n] from their high bits. *)
Lemma bounded_of_bits z n :
  0 <= n -> 0 <= z -> (forall i, n <= i -> Z.testbit z i = false) -> z < 2 ^ n.
Proof.
  intros Hn Hz Hb. destruct (Z.eq_dec z 0) as [->|]; [lia|].
  apply Z.log2_lt_pow2; [lia|].
  destruct (Z.ltb_spec (Z.log2 z) n); [done|].
  specialize (Hb (Z.log2 z) ltac:(lia)). rewrite Z.bit_log2 in Hb; [done|lia].
Qed.

(** ** Objects: lemmas *)

Lemma rd_Some {A} (b : list A) i v :
  rd b i = Some v <-> 0 <= i /\ b !! Z.to_nat i = Some v.
Proof. unfold rd. zcases; naive_solver lia. Qed.

Lemma rd_lt {A} (b : list A) i v : rd b i = Some v -> 0 <= i < zlen b.
Proof.
  intros [? H]%rd_Some. apply lookup_lt_Some in H. lia.
Qed.

Lemma rd_is_Some {A} (b : list A) i : 0 <= i < zlen b -> exists v, rd b i = Some v.
Proof.
  intros. destruct (lookup_lt_is_Some_2 b (Z.to_nat i)) as [v Hv]; [lia|].
  exists v. apply rd_Some. split; [lia|done].
Qed.

Lemma rd_ge {A} (b : list A) i : zlen b <= i -> rd b i = None.
Proof. intros. unfold rd. zcases; [done|]. apply lookup_ge_None. lia. Qed.

Lemma rd_map {A B} (f : A -> B) (b : list A) i : rd (map f b) i = f <$> rd b i.
Proof. unfold rd. destruct (_ <? _); [done|]. apply list_lookup_fmap. Qed.

Lemma rd_nat {A} (b : list A) (n : nat) : rd b (Z.of_nat n) = b !! n.
Proof. unfold rd. zcases; [lia|]. by rewrite Nat2Z.id. Qed.

Lemma wr_Some {A} (b : list A) i v :
  0 <= i < zlen b -> wr b i v = Some (<[Z.to_nat i := v]> b).
Proof. intros. unfold wr. zcases; simpl; (done || lia). Qed.

Lemma wr_inv {A} (b b' : list A) i v :
  wr b i v = Some b' -> 0 <= i < zlen b /\ b' = <[Z.to_nat i := v]> b.
Proof. unfold wr. zcases; simpl; intros; simplify_eq; split; (done || lia). Qed.

Lemma rd_wr_eq {A} (b b' : list A) i v : wr b i v = Some b' -> rd b' i = Some v.
Proof.
  intros [? ->]%wr_inv. apply rd_Some. split; [lia|].
  apply list_lookup_insert_eq. lia.
Qed.

Lemma rd_wr_ne {A} (b b' : list A) i j v : i <> j -> wr b i v = Some b' -> rd b' j = rd b j.
Proof.
  intros ? [? ->]%wr_inv. unfold rd. zcases; [done|].
  apply list_lookup_insert_ne. lia.
Qed.

Lemma wr_length {A} (b b' : list A) i v : wr b i v = Some b' -> length b' = length b.
Proof. intros [? ->]%wr_inv. apply length_insert. Qed.

Lemma length_slice {A} i n (b : list A) :
  0 <= i -> 0 <= n -> i + n <= zlen b -> zlen (slice i n b) = n.
Proof. intros. unfold slice. rewrite length_take, length_drop. lia. Qed.

Lemma lookup_slice {A} i n (b : list A) k :
  0 <= i -> Z.of_nat k < n -> slice i n b !! k = b !! (Z.to_nat i + k)%nat.
Proof. intros. unfold slice. rewrite lookup_take_lt by lia. by rewrite lookup_drop. Qed.

Lemma length_blit {A} (dst : list A) doff src soff n :
  0 <= doff -> 0 <= n -> doff + n <= zlen dst -> 0 <= soff -> soff + n <= zlen src ->
  length (blit dst doff src soff n) = length dst.
Proof.
  intros. unfold blit. rewrite !length_app, length_take, length_drop.
  pose proof (length_slice soff n src). lia.
Qed.

Lemma lookup_blit_in {A} (dst : list A) doff src soff n k :
  0 <= doff -> doff + n <= zlen dst -> 0 <= soff -> soff + n <= zlen src -> 0 <= k < n ->
  blit dst doff src soff n !! Z.to_nat (doff + k) = src !! Z.to_nat (soff + k).
Proof.
  intros. pose proof (length_slice soff n src). unfold blit.
  rewrite lookup_app_r, length_take, lookup_app_l by (rewrite ?length_take; lia).
  rewrite lookup_slice by lia. f_equal. lia.
Qed.

Lemma lookup_blit_out {A} (dst : list A) doff src soff n k :
  0 <= doff -> 0 <= n -> doff + n <= zlen dst -> 0 <= soff -> soff + n <= zlen src ->
  0 <= k -> k < doff \/ doff + n <= k ->
  blit dst doff src soff n !! Z.to_nat k = dst !! Z.to_nat k.
Proof.
  intros ?????? [Hk|Hk]; unfold blit; pose proof (length_slice soff n src).
  - rewrite lookup_app_l by (rewrite length_take; lia). rewrite lookup_take_lt by lia. done.
  - rewrite lookup_app_r by (rewrite length_take; lia).
    rewrite length_take, lookup_app_r, lookup_drop by lia. f_equal. lia.
Qed.

Lemma blit_0 {A} (dst : list A) doff src soff : 0 <= doff -> blit dst doff src soff 0 = dst.
Proof.
  intros. unfold blit, slice. simpl. rewrite Z.add_0_r. apply take_drop.
Qed.

(** ** Finite checks

    A boolean property checked on all of [0..n-1] holds for every value of
    that range. *)
Lemma forall_range (n : Z) (P : Z -> bool) :
  forallb P (seqZ 0 n) = true -> forall z, 0 <= z < n -> P z = true.
Proof.
  intros H z Hz. rewrite forallb_forall in H. apply H.
  apply list_elem_of_In, elem_of_seqZ. lia.
Qed.

(** ** The option monad: lemmas *)

Lemma some_bind {A B} (x : A) (f : A -> option B) : (Some x ≫= f) = f x.
Proof. done. Qed.

Lemma none_bind {A B} (f : A -> option B) : (None ≫= f) = None.
Proof. done. Qed.

#[export] Hint Rewrite @some_bind @none_bind : kernel.

(** ** Long loops: lemmas *)

(** A loop that keeps [Inv] and decreases [m] ends with [Post]. *)
Lemma rounds_rule {A B} (Inv : A -> Prop) (Post : B -> Prop) (m : A -> Z) (f : A -> option (A + B)) d :
  (forall s, Inv s -> exists o, f s = Some o /\
     match o with inl s' => Inv s' /\ 0 <= m s' < m s | inr r => Post r end) ->
  forall s, Inv s -> exists o, rounds d f s = Some o /\
     match o with inl s' => Inv s' /\ 0 <= m s' <= m s - 2 ^ Z.of_nat d | inr r => Post r end.
Proof.
  intros Hf. induction d as [|d IH]; intros s Hs; cbn [rounds].
  - destruct (Hf s Hs) as (o & -> & Ho). exists o. split; [done|].
    destruct o; [|done]. change (2 ^ Z.of_nat 0) with 1. split; [apply Ho | lia].
  - destruct (IH s Hs) as ([s1|r] & -> & Ho); rewrite some_bind; [|by exists (inr r)].
    destruct Ho as [H1 Hm]. destruct (IH s1 H1) as ([s2|r] & -> & Ho); [|by exists (inr r)].
    exists (inl s2). split; [done|]. split; [apply Ho|].
    rewrite Nat2Z.inj_succ, Z.pow_succ_r by lia. lia.
Qed.

Lemma run_rule {A B} (Inv : A -> Prop) (Post : B -> Prop) (m : A -> Z) (f : A -> option (A + B)) d s :
  (forall s, Inv s -> exists o, f s = Some o /\
     match o with inl s' => Inv s' /\ 0 <= m s' < m s | inr r => Post r end) ->
  Inv s -> m s < 2 ^ Z.of_nat d -> exists r, run d f s = Some r /\ Post r.
Proof.
  intros Hf Hs Hm. destruct (rounds_rule Inv Post m f d Hf s Hs) as ([s1|r] & E & Ho); unfold run; rewrite E.
  - lia.
  - by exists r.
Qed.
