(* ===== verification/Bits.v ===== *)
(** * Bit operations and exact arithmetic

    Models lib/hweight.c, lib/bitrev.c, lib/int_sqrt.c, lib/div64.c,
    lib/reciprocal_div.c and the helpers of include/asm-generic/bitops,
    include/asm-generic/div64.h and include/linux/log2.h they rest on, for a
    machine with 32-bit [unsigned long]. *)

From S2P Require Import Prelude.

(** ** Population count (lib/hweight.c) *)

Definition hweight32 (w : Z) : Z :=
  let res := u32 (w - Z.land (Z.shiftr w 1) 0x55555555) in
  let res := u32 (Z.land res 0x33333333 + Z.land (Z.shiftr res 2) 0x33333333) in
  let res := Z.land (u32 (res + Z.shiftr res 4)) 0x0F0F0F0F in
  let res := u32 (res + Z.shiftr res 8) in
  Z.land (u32 (res + Z.shiftr res 16)) 0x000000FF.

Definition hweight16 (w : Z) : Z :=
  let res := u32 (w - Z.land (Z.shiftr w 1) 0x5555) in
  let res := u32 (Z.land res 0x3333 + Z.land (Z.shiftr res 2) 0x3333) in
  let res := Z.land (u32 (res + Z.shiftr res 4)) 0x0F0F in
  Z.land (u32 (res + Z.shiftr res 8)) 0x00FF.

Definition hweight8 (w : Z) : Z :=
  let res := u32 (w - Z.land (Z.shiftr w 1) 0x55) in
  let res := u32 (Z.land res 0x33 + Z.land (Z.shiftr res 2) 0x33) in
  Z.land (u32 (res + Z.shiftr res 4)) 0x0F.

(** The [BITS_PER_LONG == 32] branch. *)
Definition hweight64 (w : Z) : Z :=
  u32 (hweight32 (u32 (Z.shiftr w 32)) + hweight32 (u32 w)).

Definition hweight_long (w : Z) : Z := hweight32 w.

(** Reference: the number of one bits of a number. *)
Fixpoint pos_popcount (p : positive) : Z :=
  match p with
  | xH => 1
  | xO q => pos_popcount q
  | xI q => 1 + pos_popcount q
  end.
Definition popcount (z : Z) : Z :=
  match z with Zpos p => pos_popcount p | _ => 0 end.

(** ** Bit reversal (lib/bitrev.c) *)

Definition byte_rev_table : list Z := [
  0x00; 0x80; 0x40; 0xc0; 0x20; 0xa0; 0x60; 0xe0;
  0x10; 0x90; 0x50; 0xd0; 0x30; 0xb0; 0x70; 0xf0;
  0x08; 0x88; 0x48; 0xc8; 0x28; 0xa8; 0x68; 0xe8;
  0x18; 0x98; 0x58; 0xd8; 0x38; 0xb8; 0x78; 0xf8;
  0x04; 0x84; 0x44; 0xc4; 0x24; 0xa4; 0x64; 0xe4;
  0x14; 0x94; 0x54; 0xd4; 0x34; 0xb4; 0x74; 0xf4;
  0x0c; 0x8c; 0x4c; 0xcc; 0x2c; 0xac; 0x6c; 0xec;
  0x1c; 0x9c; 0x5c; 0xdc; 0x3c; 0xbc; 0x7c; 0xfc;
  0x02; 0x82; 0x42; 0xc2; 0x22; 0xa2; 0x62; 0xe2;
  0x12; 0x92; 0x52; 0xd2; 0x32; 0xb2; 0x72; 0xf2;
  0x0a; 0x8a; 0x4a; 0xca; 0x2a; 0xaa; 0x6a; 0xea;
  0x1a; 0x9a; 0x5a; 0xda; 0x3a; 0xba; 0x7a; 0xfa;
  0x06; 0x86; 0x46; 0xc6; 0x26; 0xa6; 0x66; 0xe6;
  0x16; 0x96; 0x56; 0xd6; 0x36; 0xb6; 0x76; 0xf6;
  0x0e; 0x8e; 0x4e; 0xce; 0x2e; 0xae; 0x6e; 0xee;
  0x1e; 0x9e; 0x5e; 0xde; 0x3e; 0xbe; 0x7e; 0xfe;
  0x01; 0x81; 0x41; 0xc1; 0x21; 0xa1; 0x61; 0xe1;
  0x11; 0x91; 0x51; 0xd1; 0x31; 0xb1; 0x71; 0xf1;
  0x09; 0x89; 0x49; 0xc9; 0x29; 0xa9; 0x69; 0xe9;
  0x19; 0x99; 0x59; 0xd9; 0x39; 0xb9; 0x79; 0xf9;
  0x05; 0x85; 0x45; 0xc5; 0x25; 0xa5; 0x65; 0xe5;
  0x15; 0x95; 0x55; 0xd5; 0x35; 0xb5; 0x75; 0xf5;
  0x0d; 0x8d; 0x4d; 0xcd; 0x2d; 0xad; 0x6d; 0xed;
  0x1d; 0x9d; 0x5d; 0xdd; 0x3d; 0xbd; 0x7d; 0xfd;
  0x03; 0x83; 0x43; 0xc3; 0x23; 0xa3; 0x63; 0xe3;
  0x13; 0x93; 0x53; 0xd3; 0x33; 0xb3; 0x73; 0xf3;
  0x0b; 0x8b; 0x4b; 0xcb; 0x2b; 0xab; 0x6b; 0xeb;
  0x1b; 0x9b; 0x5b; 0xdb; 0x3b; 0xbb; 0x7b; 0xfb;
  0x07; 0x87; 0x47; 0xc7; 0x27; 0xa7; 0x67; 0xe7;
  0x17; 0x97; 0x57; 0xd7; 0x37; 0xb7; 0x77; 0xf7;
  0x0f; 0x8f; 0x4f; 0xcf; 0x2f; 0xaf; 0x6f; 0xef;
  0x1f; 0x9f; 0x5f; 0xdf; 0x3f; 0xbf; 0x7f; 0xff
].

Definition bitrev8 (byte : Z) : Z := nth (Z.to_nat byte) byte_rev_table 0.
Definition bitrev16 (x : Z) : Z :=
  u16 (Z.lor (Z.shiftl (bitrev8 (Z.land x 0xff)) 8) (bitrev8 (Z.shiftr x 8))).
Definition bitrev32 (x : Z) : Z :=
  u32 (Z.lor (Z.shiftl (bitrev16 (Z.land x 0xffff)) 16) (bitrev16 (Z.shiftr x 16))).

(** ** Finding bits (include/asm-generic/bitops) *)

Definition fls (x : Z) : Z :=
  if x =? 0 then 0 else
  let '(x, r) := (x, 32) in
  let '(x, r) := if Z.land x 0xffff0000 =? 0 then (u32 (Z.shiftl x 16), r - 16) else (x, r) in
  let '(x, r) := if Z.land x 0xff000000 =? 0 then (u32 (Z.shiftl x 8), r - 8) else (x, r) in
  let '(x, r) := if Z.land x 0xf0000000 =? 0 then (u32 (Z.shiftl x 4), r - 4) else (x, r) in
  let '(x, r) := if Z.land x 0xc0000000 =? 0 then (u32 (Z.shiftl x 2), r - 2) else (x, r) in
  let '(x, r) := if Z.land x 0x80000000 =? 0 then (u32 (Z.shiftl x 1), r - 1) else (x, r) in
  r.

Definition __ffs (word : Z) : Z :=
  let '(word, num) := (word, 0) in
  let '(word, num) := if Z.land word 0xffff =? 0 then (Z.shiftr word 16, num + 16) else (word, num) in
  let '(word, num) := if Z.land word 0xff =? 0 then (Z.shiftr word 8, num + 8) else (word, num) in
  let '(word, num) := if Z.land word 0xf =? 0 then (Z.shiftr word 4, num + 4) else (word, num) in
  let '(word, num) := if Z.land word 0x3 =? 0 then (Z.shiftr word 2, num + 2) else (word, num) in
  if Z.land word 0x1 =? 0 then num + 1 else num.

Definition ffz (x : Z) : Z := __ffs (not32 x).

(** ** Powers of two (include/linux/log2.h) *)

Definition is_power_of_2 (n : Z) : bool :=
  negb (n =? 0) && (Z.land n (u32 (n - 1)) =? 0).
Definition __roundup_pow_of_two (n : Z) : Z := u32 (Z.shiftl 1 (fls (u32 (n - 1)))).
Definition __rounddown_pow_of_two (n : Z) : Z := u32 (Z.shiftl 1 (fls n - 1)).
Definition __ilog2_u32 (n : Z) : Z := fls n - 1.
(** include/linux/bitops.h *)
Definition get_bitmask_order (count : Z) : Z := fls count.
Definition get_count_order (count : Z) : Z :=
  let order := fls count - 1 in
  if negb (Z.land count (u32 (count - 1)) =? 0) then order + 1 else order.
Definition rol32 (word shift : Z) : Z :=
  u32 (Z.lor (Z.shiftl word shift) (Z.shiftr word (32 - shift))).
Definition ror32 (word shift : Z) : Z :=
  u32 (Z.lor (Z.shiftr word shift) (Z.shiftl word (32 - shift))).

(** ** Integer square root (lib/int_sqrt.c) *)

(** [while (one > op) one >>= 2;] *)
Fixpoint int_sqrt_start (fuel : nat) (op one : Z) : option Z :=
  match fuel with
  | O => None
  | S fuel => if one >? op then int_sqrt_start fuel op (Z.shiftr one 2) else Some one
  end.

(** [while (one != 0) { ... }] *)
Fixpoint int_sqrt_loop (fuel : nat) (op res one : Z) : option Z :=
  match fuel with
  | O => None
  | S fuel =>
    if one =? 0 then Some res else
    let '(op, res) :=
      if op >=? u32 (res + one) then (u32 (op - u32 (res + one)), u32 (res + u32 (2 * one)))
      else (op, res) in
    int_sqrt_loop fuel op (res / 2) (one / 4)
  end.

(** [one] starts at [1 << 30] and loses two bits per turn: 17 turns end each loop. *)
Definition int_sqrt (x : Z) : option Z :=
  one ← int_sqrt_start 17 x (Z.shiftl 1 30);
  int_sqrt_loop 17 x 0 one.

(** ** 64 by 32 bit division (lib/div64.c, include/asm-generic/div64.h) *)

(** [while ((int64_t)b > 0 && b < rem) { b = b+b; d = d+d; }] *)
Fixpoint div64_scale (fuel : nat) (rem b d : Z) : option (Z * Z) :=
  match fuel with
  | O => None
  | S fuel =>
    if (s64 b >? 0) && (b <? rem) then div64_scale fuel rem (u64 (b + b)) (u64 (d + d))
    else Some (b, d)
  end.

(** [do { ... } while (d);] returning [(res, rem)] *)
Fixpoint div64_loop (fuel : nat) (rem b d res : Z) : option (Z * Z) :=
  match fuel with
  | O => None
  | S fuel =>
    let '(rem, res) := if rem >=? b then (u64 (rem - b), u64 (res + d)) else (rem, res) in
    let b := Z.shiftr b 1 in
    let d := Z.shiftr d 1 in
    if d =? 0 then Some (res, rem) else div64_loop fuel rem b d res
  end.

(** The quotient stored in [*n] and the returned remainder. *)
Definition __div64_32 (n base : Z) : option (Z * Z) :=
  let rem := n in
  let b := base in
  let high := u32 (Z.shiftr rem 32) in
  let '(res, rem) :=
    if high >=? base then
      let high := high / base in
      (u64 (Z.shiftl high 32), u64 (rem - u64 (Z.shiftl (u32 (high * base)) 32)))
    else (0, rem) in
  '(b, d) ← div64_scale 65 rem b 1;
  '(res, rem) ← div64_loop 65 rem b d res;
  Some (res, u32 rem).

(** do_div: quotient and remainder. *)
Definition do_div (n base : Z) : option (Z * Z) :=
  if Z.shiftr n 32 =? 0 then Some (u32 n / base, u32 n mod base)
  else __div64_32 n base.

Definition div64_64 (dividend divisor : Z) : option Z :=
  let high := u32 (Z.shiftr divisor 32) in
  let '(d, dividend) :=
    if negb (high =? 0) then
      let shift := fls high in
      (u32 (Z.shiftr divisor shift), Z.shiftr dividend shift)
    else (u32 divisor, dividend) in
  fst <$> do_div dividend d.

(** ** Reciprocal division (lib/reciprocal_div.c, include/linux/reciprocal_div.h) *)

Definition reciprocal_value (k : Z) : option Z :=
  let val := u64 (2 ^ 32 + u32 (k - 1)) in
  '(val, _) ← do_div val k;
  Some (u32 val).

Definition reciprocal_divide (A R : Z) : Z := u32 (Z.shiftr (u64 (A * R)) 32).

(** ** Population count: lemmas *)

Lemma popcount_double z : 0 <= z -> popcount (2 * z) = popcount z.
Proof. by destruct z. Qed.

Lemma popcount_succ_double z : 0 <= z -> popcount (2 * z + 1) = 1 + popcount z.
Proof. by destruct z. Qed.

Lemma popcount_step z : 0 <= z -> popcount z = popcount (z / 2) + z mod 2.
Proof.
  intros. rewrite (Z.div_mod z 2) at 1 by lia.
  assert (z mod 2 = 0 \/ z mod 2 = 1) as [-> | ->] by (Z.to_euclidean_division_equations; lia).
  - rewrite Z.add_0_r, popcount_double; Z.to_euclidean_division_equations; lia.
  - rewrite popcount_succ_double; Z.to_euclidean_division_equations; lia.
Qed.

(** The bits of a hexadecimal digit on top of a smaller number add up. *)
Lemma popcount_hex a b : 0 <= a < 16 -> 0 <= b ->
  popcount (a + 16 * b) = popcount a + popcount b.
Proof.
  intros Ha Hb.
  rewrite (popcount_step (a + 16 * b)), (popcount_step ((a + 16 * b) / 2)),
    (popcount_step ((a + 16 * b) / 2 / 2)), (popcount_step ((a + 16 * b) / 2 / 2 / 2)),
    (popcount_step a), (popcount_step (a / 2)), (popcount_step (a / 2 / 2)),
    (popcount_step (a / 2 / 2 / 2))
    by (repeat apply Z.div_pos; lia).
  replace ((a + 16 * b) / 2 / 2 / 2 / 2) with b by (Z.to_euclidean_division_equations; lia).
  replace (a / 2 / 2 / 2 / 2) with 0 by (Z.to_euclidean_division_equations; lia).
  change (popcount 0) with 0. Z.to_euclidean_division_equations; lia.
Qed.

(** [Z.land] works digit by digit. *)
Lemma land_hex a b c d : 0 <= a < 16 -> 0 <= c < 16 ->
  Z.land (a + 16 * b) (c + 16 * d) = Z.land a c + 16 * Z.land b d.
Proof.
  intros Ha Hc.
  assert (Hlor : forall x y, 0 <= x < 16 -> x + 16 * y = Z.lor x (Z.shiftl y 4)).
  { intros x y Hx. rewrite lor_add_disjoint; [rewrite Z.shiftl_mul_pow2 by lia; lia|].
    bitwise_as i Hi. destruct (Z.ltb_spec i 4).
    - rewrite (Z.testbit_neg_r _ (i - 4)) by lia. by rewrite !andb_false_r.
    - by rewrite (testbit_high x 4) by lia. }
  assert (0 <= Z.land a c < 16).
  { split; [apply Z.land_nonneg; lia|]. apply (bounded_of_bits _ 4);
      [lia|apply Z.land_nonneg; lia|].
    intros i Hi. by rewrite Z.land_spec, (testbit_high a 4) by lia. }
  rewrite !Hlor by done. bitwise_as i Hi.
  destruct (Z.ltb_spec i 4).
  - rewrite !(Z.testbit_neg_r _ (i - 4)) by lia. by rewrite !andb_false_r, !orb_false_r.
  - rewrite (testbit_high a 4), (testbit_high c 4) by lia. simpl.
    by destruct (0 <=? i).
Qed.

(** The first two steps of the count, on one hexadecimal digit. *)
Lemma hweight_digit a : 0 <= a < 16 ->
  Z.land (a - Z.land (a / 2) 5) 3 + Z.land ((a - Z.land (a / 2) 5) / 4) 3 = popcount a /\
  0 <= popcount a <= 4 /\ 0 <= Z.land (a / 2) 5 <= a.
Proof.
  intros Ha.
  assert (H : forall z, 0 <= z < 16 ->
    (fun a => (Z.land (a - Z.land (a / 2) 5) 3 + Z.land ((a - Z.land (a / 2) 5) / 4) 3 =? popcount a)
      && (0 <=? popcount a) && (popcount a <=? 4)
      && (0 <=? Z.land (a / 2) 5) && (Z.land (a / 2) 5 <=? a)) z = true)
    by (apply forall_range; reflexivity).
  specialize (H a Ha). cbv beta in H. bool_to_prop. lia.
Qed.

(** A word as eight hexadecimal digits. *)
Lemma u32_digits w : is_u32 w -> exists a0 a1 a2 a3 a4 a5 a6 a7,
  w = a0 + 16 * (a1 + 16 * (a2 + 16 * (a3 + 16 * (a4 + 16 * (a5 + 16 * (a6 + 16 * (a7 + 16 * 0)))))))
  /\ Forall (fun a => 0 <= a < 16) [a0; a1; a2; a3; a4; a5; a6; a7].
Proof.
  intros Hw.
  exists (w mod 16), (w / 16 mod 16), (w / 16 / 16 mod 16), (w / 16 / 16 / 16 mod 16),
    (w / 16 / 16 / 16 / 16 mod 16), (w / 16 / 16 / 16 / 16 / 16 mod 16),
    (w / 16 / 16 / 16 / 16 / 16 / 16 mod 16), (w / 16 / 16 / 16 / 16 / 16 / 16 / 16 mod 16).
  split; [|repeat constructor; apply Z.mod_pos_bound; lia].
  unfold is_u32 in Hw. Z.to_euclidean_division_equations; lia.
Qed.

(** Shifting then masking the bits that crossed a digit boundary away. *)
Lemma half_mask_hex a b M : 0 <= a < 16 -> 0 <= b ->
  Z.land ((a + 16 * b) / 2) (5 + 16 * M) = Z.land (a / 2) 5 + 16 * Z.land (b / 2) M.
Proof.
  intros Ha Hb.
  replace ((a + 16 * b) / 2) with ((a / 2 + 8 * (b mod 2)) + 16 * (b / 2))
    by (Z.to_euclidean_division_equations; lia).
  rewrite land_hex by (Z.to_euclidean_division_equations; lia). f_equal.
  assert (H : forall z, 0 <= z < 16 -> (fun a => (Z.land (a / 2 + 8 * 0) 5 =? Z.land (a / 2) 5)
    && (Z.land (a / 2 + 8 * 1) 5 =? Z.land (a / 2) 5)) z = true)
    by (apply forall_range; reflexivity).
  specialize (H a Ha). cbv beta in H. bool_to_prop.
  assert (b mod 2 = 0 \/ b mod 2 = 1) as [-> | ->]
    by (Z.to_euclidean_division_equations; lia); done.
Qed.

Lemma quarter_mask_hex a b M : 0 <= a < 16 -> 0 <= b ->
  Z.land ((a + 16 * b) / 4) (3 + 16 * M) = Z.land (a / 4) 3 + 16 * Z.land (b / 4) M.
Proof.
  intros Ha Hb.
  replace ((a + 16 * b) / 4) with ((a / 4 + 4 * (b mod 4)) + 16 * (b / 4))
    by (Z.to_euclidean_division_equations; lia).
  rewrite land_hex by (Z.to_euclidean_division_equations; lia). f_equal.
  change 3 with (2 ^ 2 - 1). rewrite !land_mask by lia.
  Z.to_euclidean_division_equations; lia.
Qed.

(** The state of the count after its first two steps: eight digits, each the
    population count of a digit of the word. *)
Lemma hweight_pairs w : is_u32 w ->
  let r1 := u32 (w - Z.land (Z.shiftr w 1) 0x55555555) in
  exists n0 n1 n2 n3 n4 n5 n6 n7,
    u32 (Z.land r1 0x33333333 + Z.land (Z.shiftr r1 2) 0x33333333) =
      n0 + 16 * (n1 + 16 * (n2 + 16 * (n3 + 16 * (n4 + 16 * (n5 + 16 * (n6 + 16 * n7)))))) /\
    popcount w = n0 + n1 + n2 + n3 + n4 + n5 + n6 + n7 /\
    Forall (fun n => 0 <= n <= 4) [n0; n1; n2; n3; n4; n5; n6; n7].
Proof.
  intros Hw r1. destruct (u32_digits w Hw) as (a0&a1&a2&a3&a4&a5&a6&a7&E&HF).
  repeat (apply Forall_cons_1 in HF as [? HF]). subst w.
  exists (popcount a0), (popcount a1), (popcount a2), (popcount a3), (popcount a4),
    (popcount a5), (popcount a6), (popcount a7).
  destruct (hweight_digit a0) as (D0&?&?), (hweight_digit a1) as (D1&?&?),
    (hweight_digit a2) as (D2&?&?), (hweight_digit a3) as (D3&?&?),
    (hweight_digit a4) as (D4&?&?), (hweight_digit a5) as (D5&?&?),
    (hweight_digit a6) as (D6&?&?), (hweight_digit a7) as (D7&?&?); try done.
  split; [|split; [|repeat (apply Forall_cons_2; [done|]); apply Forall_nil_2]].
  2:{ rewrite !popcount_hex by lia. change (popcount 0) with 0. lia. }
  subst r1. rewrite !Z.shiftr_div_pow2 by lia.
  change (2 ^ 1) with 2. change (2 ^ 2) with 4.
  change 0x55555555 with (5 + 16 * (5 + 16 * (5 + 16 * (5 + 16 * (5 + 16 * (5 + 16 *
    (5 + 16 * (5 + 16 * 0)))))))).
  rewrite !half_mask_hex by lia. rewrite (Z.land_0_r (0 / 2)).
  match goal with |- context [u32 (?w - ?m)] => replace (u32 (w - m)) with
    ((a0 - Z.land (a0 / 2) 5) + 16 * ((a1 - Z.land (a1 / 2) 5) + 16 * ((a2 - Z.land (a2 / 2) 5)
    + 16 * ((a3 - Z.land (a3 / 2) 5) + 16 * ((a4 - Z.land (a4 / 2) 5) + 16 * ((a5 - Z.land (a5 / 2) 5)
    + 16 * ((a6 - Z.land (a6 / 2) 5) + 16 * ((a7 - Z.land (a7 / 2) 5) + 16 * 0))))))))
    by (unfold_words; rewrite Z.mod_small; lia) end.
  change 0x33333333 with (3 + 16 * (3 + 16 * (3 + 16 * (3 + 16 * (3 + 16 * (3 + 16 *
    (3 + 16 * (3 + 16 * 0)))))))).
  rewrite !quarter_mask_hex, !land_hex by lia. rewrite (Z.land_0_r (0 / 4)), Z.land_0_r.
  unfold_words; rewrite Z.mod_small; lia.
Qed.

(** The last two steps add the four byte counts. *)
Lemma hweight_sum s0 s1 s2 s3 :
  0 <= s0 <= 8 -> 0 <= s1 <= 8 -> 0 <= s2 <= 8 -> 0 <= s3 <= 8 ->
  let r := s0 + 256 * (s1 + 256 * (s2 + 256 * s3)) in
  let r4 := u32 (r + r / 2 ^ 8) in
  u32 (r4 + r4 / 2 ^ 16) mod 2 ^ 8 = s0 + s1 + s2 + s3.
Proof.
  intros ???? r r4.
  assert (Hr4 : r4 = (s0 + s1) + 256 * ((s1 + s2) + 256 * ((s2 + s3) + 256 * s3))).
  { unfold r4. rewrite u32_small; unfold is_u32;
      rewrite <- (Z.div_unique_pos r (2 ^ 8) (s1 + 256 * (s2 + 256 * s3)) s0); lia. }
  rewrite Hr4. clearbody r4. subst r4.
  rewrite <- (Z.div_unique_pos _ (2 ^ 16) (s2 + s3 + 256 * s3) (s0 + s1 + 256 * (s1 + s2))) by lia.
  rewrite u32_small by (unfold is_u32; lia).
  symmetry. apply (Z.mod_unique_pos _ _ (s1 + s2 + s3 + 256 * (s2 + s3 + 256 * s3))); lia.
Qed.

Lemma hweight32_popcount w : is_u32 w -> hweight32 w = popcount w.
Proof.
  intros Hw. unfold hweight32.
  destruct (hweight_pairs w Hw) as (n0&n1&n2&n3&n4&n5&n6&n7&E&->&HF).
  repeat (apply Forall_cons_1 in HF as [? HF]). cbv zeta in E. rewrite E. clear E Hw HF.
  rewrite !Z.shiftr_div_pow2 by lia.
  match goal with |- context [u32 (?x + ?x / 2 ^ 4)] => replace (u32 (x + x / 2 ^ 4)) with
    ((n0 + n1) + 16 * ((n1 + n2) + 16 * ((n2 + n3) + 16 * ((n3 + n4) + 16 * ((n4 + n5) + 16 *
     ((n5 + n6) + 16 * ((n6 + n7) + 16 * (n7 + 16 * 0)))))))) by word_lia end.
  change 0x0F0F0F0F with (15 + 16 * (0 + 16 * (15 + 16 * (0 + 16 * (15 + 16 * (0 + 16 *
    (15 + 16 * (0 + 16 * 0)))))))).
  rewrite !land_hex by lia. rewrite !Z.land_0_r.
  change 15 with (2 ^ 4 - 1). change 0xFF with (2 ^ 8 - 1). rewrite !land_mask by lia.
  rewrite !(Z.mod_small (_ + _) (2 ^ 4)) by lia.
  match goal with |- context [u32 (?r + ?r / 2 ^ 8)] => replace r with
    ((n0 + n1) + 256 * ((n2 + n3) + 256 * ((n4 + n5) + 256 * (n6 + n7)))) by lia end.
  rewrite hweight_sum by lia. lia.
Qed.

Lemma popcount_range w : is_u32 w -> 0 <= popcount w <= 32.
Proof.
  intros Hw. destruct (hweight_pairs w Hw) as (?&?&?&?&?&?&?&?&_&->&HF).
  repeat (apply Forall_cons_1 in HF as [? HF]). lia.
Qed.

(** A mask above the width of a word does not matter. *)
Lemma land_low x m n : 0 <= n -> 0 <= x < 2 ^ n -> Z.land x m = Z.land x (m mod 2 ^ n).
Proof.
  intros Hn Hx. bitwise_as i Hi. rewrite Z.testbit_mod_pow2 by done.
  destruct (Z.ltb_spec i n); [done|]. by rewrite (testbit_high x n).
Qed.

Lemma hweight8_popcount w : is_u8 w -> hweight8 w = popcount w.
Proof.
  intros Hw. apply Z.eqb_eq. pattern w. revert w Hw. apply forall_range. reflexivity.
Qed.

Lemma land_le x m : 0 <= x -> 0 <= Z.land x m <= x.
Proof.
  intros Hx. split; [apply Z.land_nonneg; lia|].
  rewrite <- (Z.add_0_r (Z.land x m)). rewrite <- (Z.lor_ldiff_and x m) at 2.
  rewrite lor_add_disjoint.
  - assert (0 <= Z.ldiff x m) by (apply Z.ldiff_nonneg; lia). lia.
  - bitwise_as i Hi. by destruct (Z.testbit x i), (Z.testbit m i).
Qed.

Lemma land_bound x m n : 0 <= n -> 0 <= x -> 0 <= m < 2 ^ n -> 0 <= Z.land x m < 2 ^ n.
Proof. intros. rewrite Z.land_comm. pose proof (land_le m x). lia. Qed.

(** ** Bit reversal: lemmas *)

Lemma bitrev8_spec b i : is_u8 b -> 0 <= i < 8 ->
  Z.testbit (bitrev8 b) i = Z.testbit b (7 - i).
Proof.
  intros Hb Hi.
  assert (H : (fun b => forallb (fun i => Bool.eqb (Z.testbit (bitrev8 b) i) (Z.testbit b (7 - i)))
    (seqZ 0 8)) b = true) by (revert b Hb; apply forall_range; reflexivity).
  cbv beta in H. rewrite forallb_forall in H. apply eqb_prop, H.
  apply list_elem_of_In, elem_of_seqZ. lia.
Qed.

Lemma bitrev8_range b : is_u8 b -> is_u8 (bitrev8 b).
Proof.
  intros Hb.
  assert (H : (fun b => (0 <=? bitrev8 b) && (bitrev8 b <? 256)) b = true)
    by (revert b Hb; apply forall_range; reflexivity).
  cbv beta in H. bool_to_prop. unfold is_u8. lia.
Qed.

Lemma bitrev16_spec x i : is_u16 x -> 0 <= i < 16 ->
  Z.testbit (bitrev16 x) i = Z.testbit x (15 - i).
Proof.
  intros Hx Hi. unfold bitrev16.
  change 0xff with (2 ^ 8 - 1). rewrite land_mask, Z.shiftr_div_pow2 by lia.
  assert (is_u8 (x mod 2 ^ 8)) by word_lia.
  assert (is_u8 (x / 2 ^ 8)) by word_lia.
  autorewrite with kbits. destruct (Z.ltb_spec i 16); [|lia]. destruct (Z.leb_spec 0 i); [|lia].
  simpl. destruct (Z.ltb_spec i 8).
  - rewrite (Z.testbit_neg_r _ (i - 8)), orb_false_l, bitrev8_spec by (done || lia).
    rewrite Z.div_pow2_bits by lia. f_equal. lia.
  - rewrite (testbit_high (bitrev8 (x / 2 ^ 8)) 8), orb_false_r by (first [lia | by apply bitrev8_range]).
    rewrite bitrev8_spec, Z.mod_pow2_bits_low by (done || lia). f_equal. lia.
Qed.

Lemma bitrev32_testbit x i : is_u32 x -> 0 <= i < 32 ->
  Z.testbit (bitrev32 x) i = Z.testbit x (31 - i).
Proof.
  intros Hx Hi. unfold bitrev32.
  change 0xffff with (2 ^ 16 - 1). rewrite land_mask, Z.shiftr_div_pow2 by lia.
  assert (is_u16 (x mod 2 ^ 16)) by word_lia.
  assert (is_u16 (x / 2 ^ 16)) by word_lia.
  autorewrite with kbits. destruct (Z.ltb_spec i 32); [|lia]. destruct (Z.leb_spec 0 i); [|lia].
  simpl. destruct (Z.ltb_spec i 16).
  - rewrite (Z.testbit_neg_r _ (i - 16)), orb_false_l, bitrev16_spec by (done || lia).
    rewrite Z.div_pow2_bits by lia. f_equal. lia.
  - rewrite (testbit_high (bitrev16 (x / 2 ^ 16)) 16), orb_false_r
      by (try lia; apply Z.mod_pos_bound; lia).
    rewrite bitrev16_spec, Z.mod_pow2_bits_low by (done || lia). f_equal. lia.
Qed.

Lemma bitrev32_range x : is_u32 (bitrev32 x).
Proof. apply u32_range. Qed.

(** ** Finding bits: lemmas *)

(** Testing the [k] high bits of a word. *)
Lemma land_high_zero x k : is_u32 x -> 0 <= k <= 32 ->
  (Z.land x (2 ^ 32 - 2 ^ (32 - k)) =? 0) = (x <? 2 ^ (32 - k)).
Proof.
  intros Hx Hk.
  assert (E : Z.land x (2 ^ 32 - 2 ^ (32 - k)) = x / 2 ^ (32 - k) * 2 ^ (32 - k)).
  { replace (2 ^ 32 - 2 ^ (32 - k)) with (Z.shiftl (Z.ones k) (32 - k)).
    2:{ rewrite Z.shiftl_mul_pow2, Z.ones_equiv by lia.
        replace (2 ^ 32) with (2 ^ k * 2 ^ (32 - k)) by (rewrite <- Z.pow_add_r by lia; f_equal; lia).
        lia. }
    rewrite <- Z.shiftr_div_pow2, <- Z.shiftl_mul_pow2 by lia.
    bitwise_as i Hi. destruct (Z.leb_spec 0 i); [|lia]. simpl.
    destruct (Z.leb_spec 0 (i - (32 - k))); simpl; [|by rewrite andb_false_r].
    replace (i - (32 - k) + (32 - k)) with i by lia.
    destruct (Z.ltb_spec (i - (32 - k)) k); [by rewrite andb_true_r|].
    by rewrite (testbit_high x 32) by (done || lia). }
  rewrite E. pose proof (Z.pow_pos_nonneg 2 (32 - k)).
  destruct (Z.ltb_spec x (2 ^ (32 - k))).
  - rewrite Z.div_small by (unfold is_u32 in Hx; lia). done.
  - apply Z.eqb_neq. assert (1 <= x / 2 ^ (32 - k)) by (apply Z.div_le_lower_bound; lia). nia.
Qed.

(** One narrowing step of [fls]: the distance of the leading bit from bit 31 is
    kept in [r], and the top [k] bits are non-zero afterwards. *)
Lemma fls_step x r k L m : is_u32 x -> 0 < x -> 0 < k < 32 -> m = 2 ^ 32 - 2 ^ (32 - k) ->
  r = L + 31 - Z.log2 x ->
  exists x' r', (if Z.land x m =? 0 then (u32 (Z.shiftl x k), r - k) else (x, r)) = (x', r')
    /\ is_u32 x' /\ r' = L + 31 - Z.log2 x' /\ x <= x' /\
    (2 ^ (32 - 2 * k) <= x -> 2 * k <= 32 -> 2 ^ (32 - k) <= x').
Proof.
  intros Hx Hpos Hk -> Hr. rewrite land_high_zero by (done || lia).
  destruct (Z.ltb_spec x (2 ^ (32 - k))).
  - eexists _, _. split; [done|].
    assert (Z.shiftl x k = x * 2 ^ k) as -> by (rewrite Z.shiftl_mul_pow2; lia).
    assert (x * 2 ^ k < 2 ^ 32).
    { replace (2 ^ 32) with (2 ^ (32 - k) * 2 ^ k) by (rewrite <- Z.pow_add_r by lia; f_equal; lia).
      apply Z.mul_lt_mono_pos_r; lia. }
    pose proof (Z.pow_pos_nonneg 2 k).
    rewrite u32_small by (unfold is_u32; nia).
    split; [unfold is_u32; nia|]. split; [rewrite Z.log2_mul_pow2 by lia; lia|].
    split; [nia|]. intros Hlow Hkk.
    replace (2 ^ (32 - k)) with (2 ^ (32 - 2 * k) * 2 ^ k)
      by (rewrite <- Z.pow_add_r by lia; f_equal; lia). nia.
  - eexists _, _. split; [done|]. repeat split; try (done || lia); unfold is_u32 in Hx; lia.
Qed.

Lemma fls_log2 x : is_u32 x -> 0 < x -> fls x = Z.log2 x + 1.
Proof.
  intros Hx Hpos. unfold fls. destruct (Z.eqb_spec x 0); [lia|].
  destruct (fls_step x 32 16 (Z.log2 x + 1) 0xffff0000) as (x1&r1&->&?&?&?&B1); try (done || lia).
  destruct (fls_step x1 r1 8 (Z.log2 x + 1) 0xff000000) as (x2&r2&->&?&?&?&B2); try (done || lia).
  destruct (fls_step x2 r2 4 (Z.log2 x + 1) 0xf0000000) as (x3&r3&->&?&?&?&B3); try (done || lia).
  destruct (fls_step x3 r3 2 (Z.log2 x + 1) 0xc0000000) as (x4&r4&->&?&?&?&B4); try (done || lia).
  destruct (fls_step x4 r4 1 (Z.log2 x + 1) 0x80000000) as (x5&r5&->&?&?&?&B5); try (done || lia).
  assert (Z.log2 x5 = 31); [|lia]. apply Z.log2_unique; [lia|].
  unfold is_u32 in *. lia.
Qed.

Lemma fls_0 : fls 0 = 0.
Proof. done. Qed.

Lemma fls_range x : is_u32 x -> 0 <= fls x <= 32.
Proof.
  intros Hx. destruct (Z.eq_dec x 0) as [->|]; [by rewrite fls_0|].
  rewrite fls_log2 by (unfold is_u32 in Hx; done || lia).
  assert (Z.log2 x < 32) by (apply Z.log2_lt_pow2; unfold is_u32 in Hx; lia).
  pose proof (Z.log2_nonneg x). lia.
Qed.

(** One narrowing step of [__ffs]: [w * 2^num] is the word still searched. *)
Lemma ffs_step w num k m W : 0 < w -> 0 <= num -> 0 < k -> m = 2 ^ k - 1 -> W = w * 2 ^ num ->
  exists w' num', (if Z.land w m =? 0 then (Z.shiftr w k, num + k) else (w, num)) = (w', num')
    /\ 0 < w' /\ 0 <= num' <= num + k /\ W = w' * 2 ^ num' /\
    (w mod 2 ^ (2 * k) <> 0 -> w' mod 2 ^ k <> 0).
Proof.
  intros Hw Hn Hk -> ->. rewrite land_mask by lia. pose proof (Z.pow_pos_nonneg 2 k).
  destruct (Z.eqb_spec (w mod 2 ^ k) 0) as [E|E].
  - eexists _, _. split; [done|]. rewrite Z.shiftr_div_pow2 by lia.
    assert (Hd : w = 2 ^ k * (w / 2 ^ k)) by (rewrite (Z.div_mod w (2 ^ k)) at 1; lia).
    assert (0 < w / 2 ^ k) by nia.
    split; [done|]. split; [lia|]. split.
    { rewrite Z.pow_add_r by lia. rewrite Hd at 1. ring. }
    intros Hm. replace (2 * k) with (k + k) in Hm by lia.
    rewrite Z.pow_add_r, Z.rem_mul_r, E in Hm by lia. nia.
  - eexists _, _. split; [done|]. repeat split; (done || lia).
Qed.

Lemma ffs_spec W : is_u32 W -> 0 < W ->
  0 <= __ffs W < 32 /\ W mod 2 ^ __ffs W = 0 /\ Z.testbit W (__ffs W) = true.
Proof.
  intros HW Hpos. unfold __ffs, is_u32 in *.
  destruct (ffs_step W 0 16 0xffff W) as (w1&n1&->&?&?&E1&B1); try lia.
  destruct (ffs_step w1 n1 8 0xff W) as (w2&n2&->&?&?&E2&B2); try lia.
  destruct (ffs_step w2 n2 4 0xf W) as (w3&n3&->&?&?&E3&B3); try lia.
  destruct (ffs_step w3 n3 2 0x3 W) as (w4&n4&->&?&?&E4&B4); try lia.
  destruct (ffs_step w4 n4 1 0x1 W) as (w5&n5&E&?&?&E5&B5); try lia.
  assert (Hodd : w5 mod 2 = 1).
  { assert (w5 mod 2 <> 0); [|Z.to_euclidean_division_equations; lia].
    apply B5, B4, B3, B2, B1. change (2 ^ (2 * 16)) with (2 ^ 32). rewrite Z.mod_small; lia. }
  replace (if Z.land w4 1 =? 0 then n4 + 1 else n4) with n5
    by (destruct (Z.land w4 1 =? 0); congruence).
  clear E. split; [lia|].
  assert (0 < 2 ^ n5) by (apply Z.pow_pos_nonneg; lia).
  split; [rewrite E5; apply Z.mod_mul; lia|].
  rewrite E5, Z.mul_pow2_bits by lia. rewrite Z.sub_diag, Z.bit0_odd, Zodd_mod, Hodd. done.
Qed.

(** No bit below the one found. *)
Lemma ffs_low W j : is_u32 W -> 0 < W -> 0 <= j < __ffs W -> Z.testbit W j = false.
Proof.
  intros HW Hpos Hj. destruct (ffs_spec W HW Hpos) as (?&Hm&_).
  rewrite <- (Z.mod_pow2_bits_low W (__ffs W) j), Hm by lia. apply Z.bits_0.
Qed.

Lemma ffz_spec W : is_u32 W -> W <> 2 ^ 32 - 1 ->
  0 <= ffz W < 32 /\ Z.testbit W (ffz W) = false /\
  (forall j, 0 <= j < ffz W -> Z.testbit W j = true).
Proof.
  intros HW Hne. unfold ffz.
  assert (Hr : is_u32 (not32 W)) by apply u32_range.
  assert (Hp : 0 < not32 W).
  { assert (not32 W = 2 ^ 32 - 1 - W); [|unfold is_u32 in *; lia].
    unfold not32, Z.lnot. word_lia. }
  destruct (ffs_spec _ Hr Hp) as (Hf&_&Hb). split; [done|]. split.
  - rewrite not32_testbit in Hb. bool_to_prop. done.
  - intros j Hj. pose proof (ffs_low _ j Hr Hp Hj) as Hl. rewrite not32_testbit in Hl.
    destruct (Z.ltb_spec j 32), (Z.leb_spec 0 j); try lia. by apply negb_false_iff in Hl.
Qed.

(** ** Powers of two: lemmas *)

(** [n & (n-1)] drops the lowest one bit of [n]. *)
Lemma land_pred n : 0 < n -> Z.land n (n - 1) = 0 <-> exists k, 0 <= k /\ n = 2 ^ k.
Proof.
  intros Hn. split.
  - intros H. exists (Z.log2 n). split; [apply Z.log2_nonneg|].
    pose proof (Z.log2_spec n Hn) as [Hlo Hhi].
    destruct (Z.eq_dec n (2 ^ Z.log2 n)) as [|Hne]; [done|]. exfalso.
    assert (Hb : Z.testbit (Z.land n (n - 1)) (Z.log2 n) = true); [|by rewrite H, Z.bits_0 in Hb].
    rewrite Z.land_spec, Z.bit_log2 by lia. simpl.
    assert (Z.log2 (n - 1) = Z.log2 n) as <- by (apply Z.log2_unique; [apply Z.log2_nonneg|lia]).
    apply Z.bit_log2. assert (0 < 2 ^ Z.log2 n) by (apply Z.pow_pos_nonneg; [lia|apply Z.log2_nonneg]).
    lia.
  - intros (k&Hk&->). rewrite land_mask by done. by rewrite Z.mod_same by (apply Z.pow_nonzero; lia).
Qed.

Lemma is_power_of_2_true n : is_u32 n ->
  is_power_of_2 n = true <-> exists k, 0 <= k < 32 /\ n = 2 ^ k.
Proof.
  intros Hn. unfold is_power_of_2.
  destruct (Z.eqb_spec n 0) as [->|Hnz]; simpl.
  { split; [done|]. intros (k&Hk&E). pose proof (Z.pow_pos_nonneg 2 k). lia. }
  rewrite u32_small by (unfold is_u32 in *; lia). unfold is_u32 in Hn.
  rewrite Z.eqb_eq, land_pred by lia. split; intros (k&Hk&->); exists k; [|naive_solver lia].
  split; [|done]. split; [done|]. apply (Z.pow_lt_mono_r_iff 2); lia.
Qed.

Lemma roundup_pow_of_two_spec n : 2 <= n <= 2 ^ 31 ->
  __roundup_pow_of_two n = 2 ^ Z.log2_up n.
Proof.
  intros Hn. unfold __roundup_pow_of_two.
  rewrite (u32_small (n - 1)) by (unfold is_u32; lia).
  rewrite fls_log2 by (unfold is_u32; lia).
  rewrite Z.shiftl_mul_pow2, Z.mul_1_l by (pose proof (Z.log2_nonneg (n - 1)); lia).
  rewrite Z.log2_up_eqn by lia. rewrite <- Z.sub_1_r, Z.add_1_r. apply u32_small.
  assert (Z.log2 (n - 1) < 31) by (apply Z.log2_lt_pow2; lia).
  pose proof (Z.log2_nonneg (n - 1)).
  split; [apply Z.pow_nonneg; lia|]. apply Z.pow_lt_mono_r; lia.
Qed.

(** ** Integer square root: lemmas *)

Lemma int_sqrt_start_spec fuel op k : is_u32 op -> 0 <= k -> op < 4 ^ (k + 1) ->
  (Z.to_nat k + 2 <= fuel)%nat ->
  exists one, int_sqrt_start fuel op (4 ^ k) = Some one /\
    ((one = 0 /\ op = 0) \/ exists j, 0 <= j <= k /\ one = 4 ^ j /\ op < 4 ^ (j + 1)).
Proof.
  intros Hop. revert k. induction fuel as [|fuel IH]; intros k Hk Hlt Hf; [lia|]. simpl.
  rewrite Z.gtb_ltb. destruct (Z.ltb_spec op (4 ^ k)).
  - destruct (Z.eq_dec k 0) as [->|].
    + destruct fuel; [lia|]. unfold is_u32 in Hop. simpl.
      assert (op = 0) as -> by lia. eauto.
    + replace (Z.shiftr (4 ^ k) 2) with (4 ^ (k - 1)).
      2:{ rewrite Z.shiftr_div_pow2 by lia. change (2 ^ 2) with 4.
          replace k with (k - 1 + 1) at 2 by lia. rewrite Z.pow_add_r by lia.
          by rewrite Z.pow_1_r, Z.div_mul. }
      destruct (IH (k - 1)) as (one&->&H1); [lia|by rewrite Z.sub_add|lia|].
      eexists. split; [done|]. destruct H1 as [|(j&?&?)]; [by left|right]. exists j. naive_solver lia.
  - eexists. split; [done|]. right. exists k. naive_solver lia.
Qed.

(** Loop invariant: [s] is the root found so far, [4^k] the next digit tried. *)
Lemma int_sqrt_loop_spec fuel x k s : is_u32 x -> -1 <= k <= 15 ->
  0 <= s -> s * s * 4 ^ (k + 1) <= x < (s + 1) * (s + 1) * 4 ^ (k + 1) ->
  (Z.to_nat (k + 1) < fuel)%nat ->
  int_sqrt_loop fuel (x - s * s * 4 ^ (k + 1)) (s * 4 ^ (k + 1)) (if k =? -1 then 0 else 4 ^ k)
    = Some (Z.sqrt x).
Proof.
  intros Hx. unfold is_u32 in Hx. revert k s. induction fuel as [|fuel IH]; intros k s Hk Hs Hinv Hf; [lia|].
  simpl. destruct (Z.eqb_spec k (-1)) as [->|Hk1].
  { simpl in *. f_equal. symmetry. apply Z.sqrt_unique. lia. }
  assert (Hp : 0 < 4 ^ k) by (apply Z.pow_pos_nonneg; lia).
  destruct (Z.eqb_spec (4 ^ k) 0); [lia|].
  assert (E4 : 4 ^ (k + 1) = 4 * 4 ^ k) by (rewrite Z.pow_add_r by lia; lia).
  rewrite E4 in *.
  assert (Hp15 : 4 ^ k <= 4 ^ 15) by (apply Z.pow_le_mono_r; lia).
  assert (Hsm : s * (4 * 4 ^ k) < 2 ^ 31).
  { destruct (Z.eq_dec k 15) as [->|].
    - assert (s = 0) as -> by nia. lia.
    - assert (4 ^ k <= 4 ^ 14) by (apply Z.pow_le_mono_r; lia).
      assert (Hq : 4 ^ k = 2 ^ k * 2 ^ k) by (rewrite <- Z.pow_mul_l; done).
      assert (0 < 2 ^ k <= 2 ^ 14) by (split; [apply Z.pow_pos_nonneg; lia|apply Z.pow_le_mono_r; lia]).
      assert (2 * s * 2 ^ k < 2 ^ 16) by nia. nia. }
  rewrite !(u32_small (s * (4 * 4 ^ k) + _)) by (unfold is_u32; nia).
  rewrite (u32_small (2 * 4 ^ k)) by (unfold is_u32; lia).
  rewrite (u32_small (s * (4 * 4 ^ k) + 2 * 4 ^ k)) by (unfold is_u32; nia).
  replace (4 ^ k / 4) with (if k - 1 =? -1 then 0 else 4 ^ (k - 1)).
  2:{ destruct (Z.eqb_spec (k - 1) (-1)); [by replace k with 0 by lia|].
      replace k with (k - 1 + 1) at 2 by lia. rewrite Z.pow_add_r by lia.
      by rewrite Z.pow_1_r, Z.div_mul. }
  replace (4 ^ k) with (4 ^ (k - 1 + 1)) in * by (f_equal; lia).
  set (q := 4 ^ (k - 1 + 1)) in *.
  rewrite Z.geb_leb. destruct (Z.leb_spec (s * (4 * q) + q) (x - s * s * (4 * q))).
  - rewrite u32_small by (unfold is_u32; nia).
    rewrite <- (IH (k - 1) (2 * s + 1)) by (fold q; first [lia | nia]). fold q.
    f_equal; [nia|]. replace (s * (4 * q) + 2 * q) with ((2 * s + 1) * q * 2) by ring.
    by rewrite Z.div_mul.
  - rewrite <- (IH (k - 1) (2 * s)) by (fold q; first [lia | nia]). fold q.
    f_equal; [nia|]. replace (s * (4 * q)) with (2 * s * q * 2) by ring. by rewrite Z.div_mul.
Qed.

Lemma int_sqrt_total x : is_u32 x -> int_sqrt x = Some (Z.sqrt x).
Proof.
  intros Hx. unfold int_sqrt. change (Z.shiftl 1 30) with (4 ^ 15).
  destruct (int_sqrt_start_spec 17 x 15) as (one&->&H1); [done|lia|exact (proj2 Hx)|lia|]. rewrite some_bind.
  destruct H1 as [(->&->)|(j&Hj&->&Hlt)]; [done|].
  pose proof (int_sqrt_loop_spec 17 x j 0 Hx) as HL.
  destruct (Z.eqb_spec j (-1)); [lia|]. unfold is_u32 in Hx.
  replace x with (x - 0 * 0 * 4 ^ (j + 1)) at 1 by lia. apply HL; lia.
Qed.

(** ** 64 by 32 bit division: lemmas *)

Lemma div64_scale_spec fuel rem base j : 0 < base < 2 ^ 32 -> 0 <= rem < base * 2 ^ 32 ->
  0 <= j <= 32 -> (32 < Z.to_nat j + fuel)%nat ->
  exists j', 0 <= j' <= 32 /\ rem <= base * 2 ^ j' + base * 2 ^ j' - 1 /\
    div64_scale fuel rem (base * 2 ^ j) (2 ^ j) = Some (base * 2 ^ j', 2 ^ j').
Proof.
  intros Hb Hr. revert j. induction fuel as [|fuel IH]; intros j Hj Hf; [lia|]. simpl.
  assert (0 < 2 ^ j <= 2 ^ 32) by (split; [apply Z.pow_pos_nonneg; lia|apply Z.pow_le_mono_r; lia]).
  assert (base <= base * 2 ^ j < 2 ^ 64) by nia.
  rewrite Z.gtb_ltb.
  destruct (Z.ltb_spec 0 (s64 (base * 2 ^ j))) as [Hs|Hs]; simpl.
  - destruct (Z.ltb_spec (base * 2 ^ j) rem).
    + assert (base * 2 ^ j < 2 ^ 63) by (unfold s64 in Hs; Z.to_euclidean_division_equations; lia).
      assert (j < 32).
      { assert (2 ^ j < 2 ^ 32) by nia. apply (Z.pow_lt_mono_r_iff 2); lia. }
      rewrite !u64_small by (unfold is_u64; lia).
      replace (base * 2 ^ j + base * 2 ^ j) with (base * 2 ^ (j + 1)) by (rewrite Z.pow_add_r; lia).
      replace (2 ^ j + 2 ^ j) with (2 ^ (j + 1)) by (rewrite Z.pow_add_r; lia).
      apply IH; lia.
    + exists j. split; [lia|]. split; [lia|done].
  - exists j. split; [lia|]. split; [|done].
    assert (2 ^ 63 <= base * 2 ^ j) by (unfold s64 in Hs; Z.to_euclidean_division_equations; lia).
    nia.
Qed.

Lemma div64_loop_spec fuel rem base j res : 0 < base < 2 ^ 32 -> 0 <= j <= 32 ->
  0 <= rem <= base * 2 ^ j + base * 2 ^ j - 1 -> rem < 2 ^ 64 ->
  0 <= res -> res + rem / base < 2 ^ 64 -> (Z.to_nat j < fuel)%nat ->
  div64_loop fuel rem (base * 2 ^ j) (2 ^ j) res = Some (res + rem / base, rem mod base).
Proof.
  intros Hb. revert rem j res. induction fuel as [|fuel IH]; intros rem j res Hj Hr Hr64 Hres Hq Hf; [lia|].
  simpl.
  assert (0 < 2 ^ j) by (apply Z.pow_pos_nonneg; lia).
  set (st := if rem >=? base * 2 ^ j then _ else _).
  assert (exists rem' res', st = (rem', res') /\ 0 <= rem' <= base * 2 ^ j - 1 /\ 0 <= res' /\
    rem' <= rem /\ res' + rem' / base = res + rem / base /\ rem' mod base = rem mod base)
    as (rem'&res'&->&?&?&?&Eq&Em).
  { subst st. rewrite Z.geb_leb. destruct (Z.leb_spec (base * 2 ^ j) rem).
    - eexists _, _. split; [done|].
      assert (Hd : (rem - base * 2 ^ j) / base = rem / base - 2 ^ j).
      { replace (rem - base * 2 ^ j) with (rem + (- 2 ^ j) * base) by lia. rewrite Z.div_add; lia. }
      assert (2 ^ j <= rem / base) by (apply Z.div_le_lower_bound; lia).
      rewrite !u64_small by (unfold is_u64; lia). rewrite Hd. repeat split; try lia.
      replace (rem - base * 2 ^ j) with (rem + (- 2 ^ j) * base) by lia. apply Z.mod_add. lia.
    - exists rem, res. repeat split; lia. }
  rewrite <- Eq, <- Em. destruct (Z.eq_dec j 0) as [->|].
  - change (Z.shiftr (2 ^ 0) 1 =? 0) with true. cbv iota.
    rewrite Z.div_small, Z.mod_small by lia. do 2 f_equal. lia.
  - assert (Hs : forall x, Z.shiftr (x * 2 ^ j) 1 = x * 2 ^ (j - 1)).
    { intros x. replace j with (j - 1 + 1) at 1 by lia.
      rewrite Z.shiftr_div_pow2, Z.pow_add_r, Z.mul_assoc, Z.div_mul by lia. done. }
    rewrite Hs. rewrite <- (Z.mul_1_l (2 ^ j)), Hs, Z.mul_1_l.
    assert (0 < 2 ^ (j - 1)) by (apply Z.pow_pos_nonneg; lia).
    destruct (Z.eqb_spec (2 ^ (j - 1)) 0); [lia|].
    apply IH; try lia.
    rewrite <- Z.mul_add_distr_l. replace (2 ^ (j - 1) + 2 ^ (j - 1)) with (2 ^ j); [lia|].
    replace j with (j - 1 + 1) at 1 by lia. rewrite Z.pow_add_r; lia.
Qed.

Lemma div64_32_correct n base : is_u64 n -> 0 < base < 2 ^ 32 ->
  __div64_32 n base = Some (n / base, n mod base).
Proof.
  intros Hn Hb. unfold is_u64 in Hn. unfold __div64_32.
  rewrite Z.shiftr_div_pow2 by lia.
  assert (Hh : 0 <= n / 2 ^ 32 < 2 ^ 32) by (Z.to_euclidean_division_equations; lia).
  rewrite (u32_small (n / 2 ^ 32)) by done. cbv zeta.
  set (hi := n / 2 ^ 32) in *. rewrite Z.geb_leb.
  assert (exists res rem, (if base <=? hi
      then (u64 (Z.shiftl (hi / base) 32), u64 (n - u64 (Z.shiftl (u32 (hi / base * base)) 32)))
      else (0, n)) = (res, rem) /\ 0 <= rem < base * 2 ^ 32 /\ rem <= n /\ 0 <= res /\
      res + rem / base = n / base /\ rem mod base = n mod base)
    as (res&rem&->&Hrem&Hle&Hres&Eq&Em).
  { destruct (Z.leb_spec base hi).
    - eexists _, _. split; [done|].
      assert (Hd : 0 <= hi / base <= hi) by (split; [apply Z.div_pos; lia|apply Z.div_le_upper_bound; nia]).
      assert (Hm : hi - hi / base * base = hi mod base) by (rewrite Z.mod_eq; lia).
      assert (0 <= hi mod base < base) by (apply Z.mod_pos_bound; lia).
      rewrite !Z.shiftl_mul_pow2 by lia.
      rewrite (u32_small (hi / base * base)) by (unfold is_u32; lia).
      assert (n = hi * 2 ^ 32 + n mod 2 ^ 32) by (unfold hi; rewrite Z.mod_eq; lia).
      assert (0 <= n mod 2 ^ 32 < 2 ^ 32) by (apply Z.mod_pos_bound; lia).
      rewrite !u64_small by (unfold is_u64; rewrite ?u64_small by (unfold is_u64; lia); lia).
      replace (n - hi / base * base * 2 ^ 32) with (n + (- (hi / base * 2 ^ 32)) * base) by ring.
      rewrite Z.div_add, Z.mod_add by lia. repeat split; nia.
    - exists 0, n. split; [done|]. assert (n < base * 2 ^ 32); [|repeat split; lia].
      unfold hi in *. Z.to_euclidean_division_equations; nia. }
  destruct (div64_scale_spec 65 rem base 0) as (j&Hj&Hrj&HS); try lia.
  rewrite Z.pow_0_r, Z.mul_1_r in HS. rewrite HS, some_bind. cbv beta iota.
  assert (n / base <= n) by (apply Z.div_le_upper_bound; nia).
  rewrite div64_loop_spec by (done || lia). rewrite some_bind. cbv beta iota. rewrite Eq, Em.
  rewrite u32_small; [done|]. unfold is_u32. pose proof (Z.mod_pos_bound n base). lia.
Qed.

Lemma do_div_correct n base : is_u64 n -> 0 < base < 2 ^ 32 ->
  do_div n base = Some (n / base, n mod base).
Proof.
  intros Hn Hb. unfold do_div. rewrite Z.shiftr_div_pow2 by lia.
  destruct (Z.eqb_spec (n / 2 ^ 32) 0).
  - rewrite u32_small; [done|]. unfold is_u64, is_u32 in *. Z.to_euclidean_division_equations; lia.
  - by apply div64_32_correct.
Qed.

#[export] Hint Rewrite do_div_correct using (done || lia) : kernel.

(** ** Reciprocal division: lemmas *)

Lemma reciprocal_value_ceil k : 2 <= k < 2 ^ 32 ->
  exists R e, reciprocal_value k = Some R /\ R * k = 2 ^ 32 + e /\ 0 <= e < k /\ is_u32 R.
Proof.
  intros Hk. unfold reciprocal_value.
  rewrite (u32_small (k - 1)) by (unfold is_u32; lia).
  rewrite (u64_small (2 ^ 32 + (k - 1))) by (unfold is_u64; lia).
  rewrite do_div_correct by (unfold is_u64; lia). rewrite some_bind. cbv beta iota.
  assert (0 < (2 ^ 32 + (k - 1)) / k < 2 ^ 32).
  { split; [apply Z.div_str_pos; lia|apply Z.div_lt_upper_bound; lia]. }
  exists ((2 ^ 32 + (k - 1)) / k), (k - 1 - (2 ^ 32 + (k - 1)) mod k).
  pose proof (Z.mod_pos_bound (2 ^ 32 + (k - 1)) k).
  rewrite u32_small by (unfold is_u32; lia). split; [done|].
  pose proof (Z.div_mod (2 ^ 32 + (k - 1)) k). unfold is_u32. lia.
Qed.

(** ** Properties *)

(** [hweight32] is the number of one bits of every 32-bit word, and the
    narrower variants agree with it on their ranges. *)
Theorem hweight32_counts_ones w :
  is_u32 w -> hweight32 w = popcount w /\ 0 <= hweight32 w <= 32 /\
  (is_u8 w -> hweight8 w = hweight32 w).
Proof.
  intros Hw. rewrite hweight32_popcount by done. split; [done|].
  split; [by apply popcount_range|]. apply hweight8_popcount.
Qed.

Example hweight32_counts_ones_witness : hweight32 0xF0F1F3FF = 23.
Proof.
  destruct (hweight32_counts_ones 0xF0F1F3FF) as [H _]; [vm_compute; split; congruence|].
  rewrite H. vm_compute. reflexivity.
Defined.

(** [bitrev32] mirrors the bits of a word and is its own inverse. *)
Theorem bitrev32_mirrors x :
  is_u32 x ->
  (forall i, 0 <= i < 32 -> Z.testbit (bitrev32 x) i = Z.testbit x (31 - i)) /\
  is_u32 (bitrev32 x) /\ bitrev32 (bitrev32 x) = x.
Proof.
  intros Hx. split; [intros; by apply bitrev32_testbit|].
  split; [apply bitrev32_range|]. apply Z.bits_inj'. intros i Hi.
  destruct (Z.ltb_spec i 32).
  - rewrite !bitrev32_testbit by (apply bitrev32_range || done || lia). f_equal. lia.
  - by rewrite (testbit_high _ 32 i (bitrev32_range _)), (testbit_high _ 32 i Hx).
Qed.

Example bitrev32_mirrors_witness : bitrev32 (bitrev32 0x12345678) = 0x12345678.
Proof. apply (bitrev32_mirrors 0x12345678). vm_compute; split; congruence. Defined.

(** [int_sqrt] terminates on every word and returns the exact integer
    square root: the "rough approximation" of its comment is the floor. *)
Theorem int_sqrt_floor x :
  is_u32 x -> exists r, int_sqrt x = Some r /\ r * r <= x < (r + 1) * (r + 1).
Proof.
  intros Hx. exists (Z.sqrt x). split; [by apply int_sqrt_total|].
  unfold is_u32 in Hx. pose proof (Z.sqrt_spec x ltac:(lia)) as Hs. cbv zeta in Hs. lia.
Qed.

Example int_sqrt_floor_witness :
  exists r, int_sqrt 4294967295 = Some r /\ r * r <= 4294967295 < (r + 1) * (r + 1).
Proof. apply (int_sqrt_floor 4294967295). vm_compute; split; congruence. Defined.

(** [__div64_32] terminates and divides every 64-bit number by every
    non-zero 32-bit base exactly, and so does [do_div]. *)
Theorem div64_32_exact n base :
  is_u64 n -> 0 < base < 2 ^ 32 ->
  __div64_32 n base = Some (n / base, n mod base) /\
  do_div n base = Some (n / base, n mod base).
Proof. intros. split; [by apply div64_32_correct|by apply do_div_correct]. Qed.

Example div64_32_exact_witness :
  __div64_32 18446744073709551615 10 = Some (1844674407370955161, 5).
Proof.
  destruct (div64_32_exact 18446744073709551615 10) as [H _];
    [vm_compute; split; congruence|lia|]. rewrite H. reflexivity.
Defined.

(** Multiplying by the reciprocal of [B >= 2] is division by [B], never
    below the quotient and at most one above it, and exact as long as
    [A * (B - 1) < 2^32]. *)
Theorem reciprocal_divide_close A B :
  is_u32 A -> 2 <= B < 2 ^ 32 ->
  exists R, reciprocal_value B = Some R /\
    A / B <= reciprocal_divide A R <= A / B + 1 /\
    (A * (B - 1) < 2 ^ 32 -> reciprocal_divide A R = A / B).
Proof.
  intros HA HB. destruct (reciprocal_value_ceil B HB) as (R&e&HR&HRe&He&HR32).
  exists R. split; [done|]. unfold reciprocal_divide, is_u32 in *.
  rewrite u64_small by (unfold is_u64; nia). rewrite Z.shiftr_div_pow2 by lia.
  assert (HlowB : (A * R) * B = A * 2 ^ 32 + A * e) by nia.
  pose proof (Z.div_mod A B ltac:(lia)) as HdA. pose proof (Z.mod_pos_bound A B ltac:(lia)) as HmA.
  set (q := A / B) in *. set (m := A mod B) in *.
  assert (HAe : 0 <= A * e <= A * (B - 1)) by (split; [apply Z.mul_nonneg_nonneg|apply Z.mul_le_mono_nonneg_l]; lia).
  assert (HqB : A * 2 ^ 32 = q * 2 ^ 32 * B + m * 2 ^ 32) by (rewrite HdA at 1; ring).
  assert (Hlo : q * 2 ^ 32 <= A * R) by (apply (Z.mul_le_mono_pos_r _ _ B); lia).
  assert (A * B < 2 ^ 32 * B) by (apply Z.mul_lt_mono_pos_r; lia).
  assert (Hhi : A * R < (q + 2) * 2 ^ 32) by (apply (Z.mul_lt_mono_pos_r B); lia).
  assert (Hq : 0 <= q <= A) by nia.
  assert (H1 : q <= A * R / 2 ^ 32 <= q + 1).
  { split; [apply Z.div_le_lower_bound; lia|].
    assert (A * R / 2 ^ 32 < q + 2) by (apply Z.div_lt_upper_bound; lia). lia. }
  assert (A * R / 2 ^ 32 < 2 ^ 32) by (apply Z.div_lt_upper_bound; nia).
  rewrite u32_small by (unfold is_u32; lia). split; [done|].
  intros Hsmall. assert (A * R < (q + 1) * 2 ^ 32) by (apply (Z.mul_lt_mono_pos_r B); lia).
  assert (A * R / 2 ^ 32 < q + 1) by (apply Z.div_lt_upper_bound; lia). lia.
Qed.

Example reciprocal_divide_close_witness :
  exists R, reciprocal_value 10 = Some R /\ reciprocal_divide 1234567 R = 123456.
Proof.
  destruct (reciprocal_divide_close 1234567 10) as (R&HR&_&HE);
    [vm_compute; split; congruence|lia|].
  exists R. split; [exact HR|]. rewrite HE; [reflexivity|lia].
Defined.

(** A divisor of one is outside the range of the reciprocal: its 33-bit
    reciprocal is truncated to zero. *)
Example reciprocal_value_one : reciprocal_value 1 = Some 0 /\ reciprocal_divide 7 0 = 0.
Proof. split; reflexivity. Qed.

(** Below 2^32 [div64_64] is exact. *)
Lemma div64_64_exact n d : is_u64 n -> 0 < d < 2 ^ 32 -> div64_64 n d = Some (n / d).
Proof.
  intros Hn Hd. unfold div64_64. rewrite Z.shiftr_div_pow2, Z.div_small by lia.
  change (negb (u32 0 =? 0)) with false. cbv beta iota zeta.
  rewrite (u32_small d) by (unfold is_u32; lia). by rewrite (do_div_correct n d Hn Hd).
Qed.
