(* ===== verification/Ctype.v ===== *)
(** * Character classes (lib/ctype.c, include/linux/ctype.h) *)

From S2P Require Import Prelude.

Definition _U : Z := 0x01.
Definition _L : Z := 0x02.
Definition _D : Z := 0x04.
Definition _C : Z := 0x08.
Definition _P : Z := 0x10.
Definition _S : Z := 0x20.
Definition _X : Z := 0x40.
Definition _SP : Z := 0x80.

(** The flags are distinct bits: [+] is C's bitwise or of them. *)
Definition _ctype : list Z := [
  _C; _C; _C; _C; _C; _C; _C; _C;
  _C; _C+_S; _C+_S; _C+_S; _C+_S; _C+_S; _C; _C;
  _C; _C; _C; _C; _C; _C; _C; _C;
  _C; _C; _C; _C; _C; _C; _C; _C;
  _S+_SP; _P; _P; _P; _P; _P; _P; _P;
  _P; _P; _P; _P; _P; _P; _P; _P;
  _D; _D; _D; _D; _D; _D; _D; _D;
  _D; _D; _P; _P; _P; _P; _P; _P;
  _P; _U+_X; _U+_X; _U+_X; _U+_X; _U+_X; _U+_X; _U;
  _U; _U; _U; _U; _U; _U; _U; _U;
  _U; _U; _U; _U; _U; _U; _U; _U;
  _U; _U; _U; _P; _P; _P; _P; _P;
  _P; _L+_X; _L+_X; _L+_X; _L+_X; _L+_X; _L+_X; _L;
  _L; _L; _L; _L; _L; _L; _L; _L;
  _L; _L; _L; _L; _L; _L; _L; _L;
  _L; _L; _L; _P; _P; _P; _P; _C;
  0; 0; 0; 0; 0; 0; 0; 0; 0; 0; 0; 0; 0; 0; 0; 0;
  0; 0; 0; 0; 0; 0; 0; 0; 0; 0; 0; 0; 0; 0; 0; 0;
  _S+_SP; _P; _P; _P; _P; _P; _P; _P; _P; _P; _P; _P; _P; _P; _P; _P;
  _P; _P; _P; _P; _P; _P; _P; _P; _P; _P; _P; _P; _P; _P; _P; _P;
  _U; _U; _U; _U; _U; _U; _U; _U; _U; _U; _U; _U; _U; _U; _U; _U;
  _U; _U; _U; _U; _U; _U; _U; _P; _U; _U; _U; _U; _U; _U; _U; _L;
  _L; _L; _L; _L; _L; _L; _L; _L; _L; _L; _L; _L; _L; _L; _L; _L;
  _L; _L; _L; _L; _L; _L; _L; _P; _L; _L; _L; _L; _L; _L; _L; _L
].

Definition __ismask (x : Z) : Z := nth (Z.to_nat (u8 x)) _ctype 0.

Definition has_class (x m : Z) : bool := negb (Z.land (__ismask x) m =? 0).
Definition isalnum (c : Z) : bool := has_class c (Z.lor _U (Z.lor _L _D)).
Definition isalpha (c : Z) : bool := has_class c (Z.lor _U _L).
Definition isdigit (c : Z) : bool := has_class c _D.
Definition islower (c : Z) : bool := has_class c _L.
Definition isprint (c : Z) : bool :=
  has_class c (Z.lor _P (Z.lor _U (Z.lor _L (Z.lor _D _SP)))).
Definition isspace (c : Z) : bool := has_class c _S.
Definition isupper (c : Z) : bool := has_class c _U.
Definition isxdigit (c : Z) : bool := has_class c (Z.lor _D _X).
Definition isascii (c : Z) : bool := u8 c <=? 0x7f.
Definition toascii (c : Z) : Z := Z.land (u8 c) 0x7f.

Definition tolower (c : Z) : Z := if isupper c then u8 (u8 c - (65 - 97)) else u8 c.
Definition toupper (c : Z) : Z := if islower c then u8 (u8 c - (97 - 65)) else u8 c.

(** ** Lemmas *)

Lemma isdigit_spec c : is_u8 c -> isdigit c = (48 <=? c) && (c <=? 57).
Proof.
  intros Hc. apply eqb_prop. pattern c. revert c Hc. apply forall_range. reflexivity.
Qed.

Lemma isxdigit_spec c : is_u8 c -> isxdigit c =
  ((48 <=? c) && (c <=? 57)) || ((65 <=? c) && (c <=? 70)) || ((97 <=? c) && (c <=? 102)).
Proof.
  intros Hc. apply eqb_prop. pattern c. revert c Hc. apply forall_range. reflexivity.
Qed.

(** White space: tab to carriage return, space, and the Latin-1 hard space. *)
Lemma isspace_spec c : is_u8 c ->
  isspace c = ((9 <=? c) && (c <=? 13)) || (c =? 32) || (c =? 160).
Proof.
  intros Hc. apply eqb_prop. pattern c. revert c Hc. apply forall_range. reflexivity.
Qed.

Lemma tolower_range c : is_u8 (tolower c).
Proof. unfold tolower. destruct (isupper c); apply u8_range. Qed.

Lemma toupper_range c : is_u8 (toupper c).
Proof. unfold toupper. destruct (islower c); apply u8_range. Qed.

(** Case conversion leaves nothing to convert. *)
Lemma tolower_idem c : is_u8 c -> tolower (tolower c) = tolower c.
Proof.
  intros Hc. apply Z.eqb_eq. pattern c. revert c Hc. apply forall_range. reflexivity.
Qed.

Lemma tolower_0 c : is_u8 c -> tolower c = 0 <-> c = 0.
Proof.
  intros Hc. rewrite <- !Z.eqb_eq. apply eq_iff_eq_true, eqb_prop. pattern c. revert c Hc.
  apply forall_range. reflexivity.
Qed.
