(* ===== verification/StringLib.v ===== *)
(** * String and memory functions (lib/string.c)

    A pointer that is only read through is the list of the bytes from it to the
    end of its object; reading past the object gives [None].  A returned pointer
    is the offset from the argument it points into, [Some None] standing for
    NULL.  Functions that write take the object written as a list and return it;
    source and destination are distinct objects except in [memmove] and
    [memcpy_in], which work inside one object.  Bytes are unsigned, as [char] is
    on ARM. *)

From S2P Require Import Prelude Ctype.

(** ** Lengths *)

Fixpoint strlen (s : list Z) : option Z :=
  match s with
  | [] => None
  | c :: s => if c =? 0 then Some 0 else n ← strlen s; Some (n + 1)
  end.

(** [count] is a [size_t]. *)
Fixpoint strnlen (s : list Z) (count : Z) : option Z :=
  if count =? 0 then Some 0 else
  match s with
  | [] => None
  | c :: s => if c =? 0 then Some 0 else n ← strnlen s (count - 1); Some (n + 1)
  end.

(** ** Memory *)

(** [while (count--) *tmp++ = *s++;] with [tmp] in [dest], [s] in [src] *)
Fixpoint memcpy_loop (count : nat) (dest : list Z) (tmp : Z) (src : list Z) (s : Z)
    : option (list Z) :=
  match count with
  | O => Some dest
  | S count =>
    v ← rd src s;
    dest ← wr dest tmp v;
    memcpy_loop count dest (tmp + 1) src (s + 1)
  end.
Definition memcpy (dest : list Z) (doff : Z) (src : list Z) (soff count : Z) : option (list Z) :=
  memcpy_loop (Z.to_nat count) dest doff src soff.

(** The same loop when both pointers are into the object [m]. *)
Fixpoint copy_forward (count : nat) (m : list Z) (tmp s : Z) : option (list Z) :=
  match count with
  | O => Some m
  | S count =>
    v ← rd m s;
    m ← wr m tmp v;
    copy_forward count m (tmp + 1) (s + 1)
  end.
Definition memcpy_in (m : list Z) (dest src count : Z) : option (list Z) :=
  copy_forward (Z.to_nat count) m dest src.

(** [while (count--) *--tmp = *--s;] *)
Fixpoint copy_backward (count : nat) (m : list Z) (tmp s : Z) : option (list Z) :=
  match count with
  | O => Some m
  | S count =>
    v ← rd m (s - 1);
    m ← wr m (tmp - 1) v;
    copy_backward count m (tmp - 1) (s - 1)
  end.
Definition memmove (m : list Z) (dest src count : Z) : option (list Z) :=
  if dest <=? src then copy_forward (Z.to_nat count) m dest src
  else copy_backward (Z.to_nat count) m (dest + count) (src + count).

Fixpoint memset_loop (count : nat) (m : list Z) (xs c : Z) : option (list Z) :=
  match count with
  | O => Some m
  | S count => m ← wr m xs (u8 c); memset_loop count m (xs + 1) c
  end.
Definition memset (m : list Z) (s c count : Z) : option (list Z) :=
  memset_loop (Z.to_nat count) m s c.

Fixpoint memcmp_loop (count : nat) (su1 su2 : list Z) (res : Z) : option Z :=
  match count with
  | O => Some res
  | S count =>
    match su1, su2 with
    | a :: su1, b :: su2 =>
      let res := a - b in
      if negb (res =? 0) then Some res else memcmp_loop count su1 su2 res
    | _, _ => None
    end
  end.
Definition memcmp (cs ct : list Z) (count : Z) : option Z :=
  memcmp_loop (Z.to_nat count) cs ct 0.

(** [c] is compared as an [int]: it is not converted to a byte. *)
Fixpoint memscan_loop (size : nat) (p : list Z) (c off : Z) : option Z :=
  match size with
  | O => Some off
  | S size =>
    match p with
    | [] => None
    | x :: p => if x =? c then Some off else memscan_loop size p c (off + 1)
    end
  end.
Definition memscan (addr : list Z) (c size : Z) : option Z :=
  memscan_loop (Z.to_nat size) addr c 0.

Fixpoint memchr_loop (n : nat) (p : list Z) (c off : Z) : option (option Z) :=
  match n with
  | O => Some None
  | S n =>
    match p with
    | [] => None
    | x :: p => if u8 c =? x then Some (Some off) else memchr_loop n p c (off + 1)
    end
  end.
Definition memchr (s : list Z) (c n : Z) : option (option Z) :=
  memchr_loop (Z.to_nat n) s c 0.

(** ** Comparison *)

(** [__res] is a [signed char]: the difference is reduced to eight bits. *)
Fixpoint strcmp (cs ct : list Z) : option Z :=
  match cs, ct with
  | c :: cs, t :: ct =>
    let __res := s8 (c - t) in
    if negb (__res =? 0) || (c =? 0) then Some __res else strcmp cs ct
  | _, _ => None
  end.

Fixpoint strncmp_loop (cs ct : list Z) (count __res : Z) : option Z :=
  if count =? 0 then Some __res else
  match cs, ct with
  | c :: cs, t :: ct =>
    let __res := s8 (c - t) in
    if negb (__res =? 0) || (c =? 0) then Some __res else strncmp_loop cs ct (count - 1) __res
  | _, _ => None
  end.
Definition strncmp (cs ct : list Z) (count : Z) : option Z := strncmp_loop cs ct count 0.

Fixpoint strnicmp_loop (s1 s2 : list Z) (len : Z) : option Z :=
  match s1, s2 with
  | c1 :: s1, c2 :: s2 =>
    let next c1 c2 := if len - 1 =? 0 then Some (c1 - c2) else strnicmp_loop s1 s2 (len - 1) in
    if c1 =? 0 then Some (c1 - c2)
    else if c2 =? 0 then Some (c1 - c2)
    else if c1 =? c2 then next c1 c2
    else
      let c1 := tolower c1 in
      let c2 := tolower c2 in
      if negb (c1 =? c2) then Some (c1 - c2) else next c1 c2
  | _, _ => None
  end.
Definition strnicmp (s1 s2 : list Z) (len : Z) : option Z :=
  if len =? 0 then Some 0 else strnicmp_loop s1 s2 len.

Fixpoint strcasecmp (s1 s2 : list Z) : option Z :=
  match s1, s2 with
  | a :: s1, b :: s2 =>
    let c1 := tolower a in
    let c2 := tolower b in
    if (c1 =? c2) && negb (c1 =? 0) then strcasecmp s1 s2 else Some (c1 - c2)
  | _, _ => None
  end.

(** [--n > 0] on a [size_t]: it wraps when [n] is zero. *)
Fixpoint strncasecmp (s1 s2 : list Z) (n : Z) : option Z :=
  match s1, s2 with
  | a :: s1, b :: s2 =>
    let c1 := tolower a in
    let c2 := tolower b in
    let n := u32 (n - 1) in
    if (0 <? n) && (c1 =? c2) && negb (c1 =? 0) then strncasecmp s1 s2 n else Some (c1 - c2)
  | _, _ => None
  end.

(** ** Copying strings *)

Fixpoint strcpy (dest src : list Z) : option (list Z) :=
  match dest, src with
  | _ :: dest, c :: src =>
    if c =? 0 then Some (c :: dest) else r ← strcpy dest src; Some (c :: r)
  | _, _ => None
  end.

Fixpoint strncpy (dest src : list Z) (count : Z) : option (list Z) :=
  if count =? 0 then Some dest else
  match dest, src with
  | _ :: dest, c :: src' =>
    r ← strncpy dest (if negb (c =? 0) then src' else src) (count - 1); Some (c :: r)
  | _, _ => None
  end.

Definition strlcpy (dest src : list Z) (size : Z) : option (list Z * Z) :=
  ret ← strlen src;
  if negb (size =? 0) then
    let len := if ret >=? size then size - 1 else ret in
    dest ← memcpy dest 0 src 0 len;
    dest ← wr dest len 0;
    Some (dest, ret)
  else Some (dest, ret).

Fixpoint strcat (dest src : list Z) : option (list Z) :=
  match dest with
  | [] => None
  | d :: dest' => if d =? 0 then strcpy dest src else r ← strcat dest' src; Some (d :: r)
  end.

(** The copying loop, which stops after [count] bytes. *)
Fixpoint strncat_copy (dest src : list Z) (count : Z) : option (list Z) :=
  match dest, src with
  | _ :: dest, c :: src =>
    if c =? 0 then Some (c :: dest)
    else if count - 1 =? 0 then dest ← wr dest 0 0; Some (c :: dest)
    else r ← strncat_copy dest src (count - 1); Some (c :: r)
  | _, _ => None
  end.
Fixpoint strncat_seek (dest src : list Z) (count : Z) : option (list Z) :=
  match dest with
  | [] => None
  | d :: dest' =>
    if d =? 0 then strncat_copy dest src count else r ← strncat_seek dest' src count; Some (d :: r)
  end.
Definition strncat (dest src : list Z) (count : Z) : option (list Z) :=
  if negb (count =? 0) then strncat_seek dest src count else Some dest.

(** [BUG_ON(dsize >= count)] stops the machine: [None]. *)
Definition strlcat (dest src : list Z) (count : Z) : option (list Z * Z) :=
  dsize ← strlen dest;
  len ← strlen src;
  let res := u32 (dsize + len) in
  if dsize >=? count then None else
  let count := count - dsize in
  let len := if len >=? count then count - 1 else len in
  dest ← memcpy dest dsize src 0 len;
  dest ← wr dest (dsize + len) 0;
  Some (dest, res).

(** ** Searching *)

Fixpoint strchr_loop (s : list Z) (c off : Z) : option (option Z) :=
  match s with
  | [] => None
  | x :: s =>
    if x =? u8 c then Some (Some off)
    else if x =? 0 then Some None else strchr_loop s c (off + 1)
  end.
Definition strchr (s : list Z) (c : Z) : option (option Z) := strchr_loop s c 0.

Fixpoint strrchr_loop (n : nat) (s : list Z) (c p : Z) : option (option Z) :=
  x ← rd s p;
  if x =? u8 c then Some (Some p)
  else match n with O => Some None | S n => strrchr_loop n s c (p - 1) end.
Definition strrchr (s : list Z) (c : Z) : option (option Z) :=
  n ← strlen s; strrchr_loop (Z.to_nat n) s c n.

Fixpoint strnchr_loop (s : list Z) (count c off : Z) : option (option Z) :=
  if count =? 0 then Some None else
  match s with
  | [] => None
  | x :: s =>
    if x =? 0 then Some None
    else if x =? u8 c then Some (Some off) else strnchr_loop s (count - 1) c (off + 1)
  end.
Definition strnchr (s : list Z) (count c : Z) : option (option Z) := strnchr_loop s count c 0.

(** Whether [x] occurs in the string [a] before its end. *)
Fixpoint in_set (a : list Z) (x : Z) : option bool :=
  match a with
  | [] => None
  | y :: a => if y =? 0 then Some false else if x =? y then Some true else in_set a x
  end.

Fixpoint strspn (s accept : list Z) : option Z :=
  match s with
  | [] => None
  | x :: s =>
    if x =? 0 then Some 0 else
    b ← in_set accept x;
    if negb b then Some 0 else n ← strspn s accept; Some (n + 1)
  end.

Fixpoint strcspn (s reject : list Z) : option Z :=
  match s with
  | [] => None
  | x :: s =>
    if x =? 0 then Some 0 else
    b ← in_set reject x;
    if (b : bool) then Some 0 else n ← strcspn s reject; Some (n + 1)
  end.

Fixpoint strpbrk_loop (cs ct : list Z) (off : Z) : option (option Z) :=
  match cs with
  | [] => None
  | x :: cs =>
    if x =? 0 then Some None else
    b ← in_set ct x;
    if (b : bool) then Some (Some off) else strpbrk_loop cs ct (off + 1)
  end.
Definition strpbrk (cs ct : list Z) : option (option Z) := strpbrk_loop cs ct 0.

(** [s] is [*s], NULL or the string; the result is the token's object after the
    delimiter was overwritten and the offset of the rest, NULL at the end. *)
Definition strsep (s : option (list Z)) (ct : list Z) : option (option (list Z * option Z)) :=
  match s with
  | None => Some None
  | Some sbegin =>
    e ← strpbrk sbegin ct;
    match e with
    | Some e => sbegin ← wr sbegin e 0; Some (Some (sbegin, Some (e + 1)))
    | None => Some (Some (sbegin, None))
    end
  end.

Fixpoint strstr_loop (s1 s2 : list Z) (l1 l2 off : Z) : option (option Z) :=
  if l1 >=? l2 then
    r ← memcmp s1 s2 l2;
    if r =? 0 then Some (Some off) else
    match s1 with
    | [] => None
    | _ :: s1 => strstr_loop s1 s2 (l1 - 1) l2 (off + 1)
    end
  else Some None.
Definition strstr (s1 s2 : list Z) : option (option Z) :=
  l2 ← strlen s2;
  if l2 =? 0 then Some (Some 0) else
  l1 ← strlen s1;
  strstr_loop s1 s2 l1 l2 0.

(** The backward loop over trailing white space. *)
Fixpoint strip_end (fuel : nat) (s : list Z) (e : Z) : option Z :=
  if e <? 0 then Some e else
  c ← rd s e;
  if isspace c then match fuel with O => None | S fuel => strip_end fuel s (e - 1) end
  else Some e.
Fixpoint strip_start (s : list Z) : option Z :=
  match s with
  | [] => None
  | c :: s => if negb (c =? 0) && isspace c then n ← strip_start s; Some (n + 1) else Some 0
  end.
Definition strstrip (s : list Z) : option (list Z * Z) :=
  size ← strlen s;
  if size =? 0 then Some (s, 0) else
  e ← strip_end (Z.to_nat size) s (size - 1);
  s ← wr s (e + 1) 0;
  n ← strip_start s;
  Some (s, n).

(** ** Copying memory: lemmas *)

Lemma memcpy_loop_spec count : forall dest tmp src s,
  0 <= tmp -> tmp + Z.of_nat count <= zlen dest -> 0 <= s -> s + Z.of_nat count <= zlen src ->
  exists r, memcpy_loop count dest tmp src s = Some r /\ length r = length dest /\
    forall k, 0 <= k -> r !! Z.to_nat k =
      (if (tmp <=? k) && (k <? tmp + Z.of_nat count) then src !! Z.to_nat (s + (k - tmp))
       else dest !! Z.to_nat k).
Proof.
  induction count as [|count IH]; intros dest tmp src s Ht Htl Hs Hsl; simpl.
  { exists dest. split; [done|]. split; [done|]. intros k Hk. zcases; simpl; (done || lia). }
  destruct (rd_is_Some src s) as [v Hv]; [lia|]. rewrite Hv, some_bind.
  rewrite wr_Some, some_bind by lia.
  destruct (IH (<[Z.to_nat tmp:=v]> dest) (tmp + 1) src (s + 1)) as (r&->&Hlen&Hr);
    [lia|rewrite length_insert; lia|lia|lia|].
  exists r. split; [done|]. split; [by rewrite Hlen, length_insert|].
  intros k Hk. rewrite Hr by done. apply rd_Some in Hv as [_ Hv].
  destruct (Z.eq_dec k tmp) as [->|].
  - zcases; simpl; try lia. rewrite list_lookup_insert_eq by lia.
    by replace (s + (tmp - tmp)) with s by lia.
  - rewrite list_lookup_insert_ne by lia. zcases; simpl; try lia; (done || (f_equal; lia)).
Qed.

(** An object described cell by cell is the [blit]. *)
Lemma blit_unique {A} (dest r : list A) doff src soff n :
  0 <= doff -> 0 <= n -> doff + n <= zlen dest -> 0 <= soff -> soff + n <= zlen src ->
  length r = length dest ->
  (forall k, 0 <= k -> r !! Z.to_nat k =
    (if (doff <=? k) && (k <? doff + n) then src !! Z.to_nat (soff + (k - doff))
     else dest !! Z.to_nat k)) ->
  r = blit dest doff src soff n.
Proof.
  intros Hd Hn Hdl Hs Hsl Hlen Hr. apply list_eq. intros i.
  specialize (Hr (Z.of_nat i) ltac:(lia)). rewrite Nat2Z.id in Hr. rewrite Hr.
  zcases; simpl.
  - replace i with (Z.to_nat (doff + (Z.of_nat i - doff))) at 2 by lia.
    by rewrite lookup_blit_in by lia.
  - rewrite <- (Nat2Z.id i), lookup_blit_out by lia. by rewrite Nat2Z.id.
  - rewrite <- (Nat2Z.id i), lookup_blit_out by lia. by rewrite Nat2Z.id.
  - rewrite <- (Nat2Z.id i), lookup_blit_out by lia. by rewrite Nat2Z.id.
Qed.

Lemma memcpy_blit dest doff src soff n :
  0 <= doff -> 0 <= n -> doff + n <= zlen dest -> 0 <= soff -> soff + n <= zlen src ->
  memcpy dest doff src soff n = Some (blit dest doff src soff n).
Proof.
  intros. unfold memcpy.
  destruct (memcpy_loop_spec (Z.to_nat n) dest doff src soff) as (r&->&Hlen&Hr); try lia.
  f_equal. apply blit_unique; try done. intros k Hk. rewrite Hr, Z2Nat.id by lia. done.
Qed.

#[export] Hint Rewrite memcpy_blit using lia : kernel.

Lemma copy_forward_spec count : forall m tmp s,
  0 <= tmp <= s -> s + Z.of_nat count <= zlen m ->
  exists r, copy_forward count m tmp s = Some r /\ length r = length m /\
    forall k, 0 <= k -> r !! Z.to_nat k =
      (if (tmp <=? k) && (k <? tmp + Z.of_nat count) then m !! Z.to_nat (s + (k - tmp))
       else m !! Z.to_nat k).
Proof.
  induction count as [|count IH]; intros m tmp s Ht Hs; simpl.
  { exists m. split; [done|]. split; [done|]. intros k Hk. zcases; simpl; (done || lia). }
  destruct (rd_is_Some m s) as [v Hv]; [lia|]. rewrite Hv, some_bind.
  rewrite wr_Some, some_bind by lia.
  destruct (IH (<[Z.to_nat tmp:=v]> m) (tmp + 1) (s + 1)) as (r&->&Hlen&Hr);
    [lia|rewrite length_insert; lia|].
  exists r. split; [done|]. split; [by rewrite Hlen, length_insert|].
  intros k Hk. rewrite Hr by done. apply rd_Some in Hv as [_ Hv].
  destruct (Z.eq_dec k tmp) as [->|].
  - zcases; simpl; try lia. rewrite list_lookup_insert_eq by lia.
    by replace (s + (tmp - tmp)) with s by lia.
  - zcases; simpl; try lia; rewrite list_lookup_insert_ne by lia; (done || (f_equal; lia)).
Qed.

Lemma copy_backward_spec count : forall m tmp s,
  Z.of_nat count <= s -> s < tmp -> tmp <= zlen m ->
  exists r, copy_backward count m tmp s = Some r /\ length r = length m /\
    forall k, 0 <= k -> r !! Z.to_nat k =
      (if (tmp - Z.of_nat count <=? k) && (k <? tmp) then m !! Z.to_nat (s + (k - tmp))
       else m !! Z.to_nat k).
Proof.
  induction count as [|count IH]; intros m tmp s Hs Hst Ht; simpl.
  { exists m. split; [done|]. split; [done|]. intros k Hk. zcases; simpl; (done || lia). }
  destruct (rd_is_Some m (s - 1)) as [v Hv]; [lia|]. rewrite Hv, some_bind.
  rewrite wr_Some, some_bind by lia.
  destruct (IH (<[Z.to_nat (tmp - 1):=v]> m) (tmp - 1) (s - 1)) as (r&->&Hlen&Hr);
    [lia|lia|rewrite length_insert; lia|].
  exists r. split; [done|]. split; [by rewrite Hlen, length_insert|].
  intros k Hk. rewrite Hr by done. apply rd_Some in Hv as [_ Hv].
  destruct (Z.eq_dec k (tmp - 1)) as [->|].
  - zcases; simpl; try lia. rewrite list_lookup_insert_eq by lia.
    by replace (s + (tmp - 1 - tmp)) with (s - 1) by lia.
  - zcases; simpl; try lia; rewrite list_lookup_insert_ne by lia; (done || (f_equal; lia)).
Qed.

Lemma memmove_blit m dest src n :
  0 <= dest -> 0 <= src -> 0 <= n -> dest + n <= zlen m -> src + n <= zlen m ->
  memmove m dest src n = Some (blit m dest m src n).
Proof.
  intros. unfold memmove. destruct (Z.leb_spec dest src).
  - destruct (copy_forward_spec (Z.to_nat n) m dest src) as (r&->&Hlen&Hr); try lia.
    f_equal. apply blit_unique; try done. intros k Hk. rewrite Hr, Z2Nat.id by lia. done.
  - destruct (copy_backward_spec (Z.to_nat n) m (dest + n) (src + n)) as (r&->&Hlen&Hr); try lia.
    f_equal. apply blit_unique; try done. intros k Hk. rewrite Hr, Z2Nat.id by lia.
    replace (dest + n - n) with dest by lia.
    by replace (src + n + (k - (dest + n))) with (src + (k - dest)) by lia.
Qed.

(** ** C strings: lemmas

    A string held in an object: its characters, none of them zero, then the
    terminator, then the rest of the object. *)

Definition chars (s : list Z) : Prop := Forall (fun c => is_u8 c /\ c <> 0) s.

Lemma chars_cons c s : chars (c :: s) <-> (is_u8 c /\ c <> 0) /\ chars s.
Proof. unfold chars. by rewrite Forall_cons. Qed.

Lemma chars_drop s n : chars s -> chars (drop n s).
Proof. apply Forall_drop. Qed.

Lemma zlen_cons {A} (x : A) l : zlen (x :: l) = zlen l + 1.
Proof. simpl. lia. Qed.

Lemma strlen_chars s r : chars s -> strlen (s ++ 0 :: r) = Some (zlen s).
Proof.
  induction 1 as [|c s [_ Hc] _ IH]; [done|]. simpl.
  destruct (Z.eqb_spec c 0); [done|]. rewrite IH, some_bind. f_equal. lia.
Qed.

(** [strlen] succeeds exactly on the objects that hold a terminator. *)
Lemma strlen_Some b n : Forall is_u8 b -> strlen b = Some n ->
  exists s r, b = s ++ 0 :: r /\ chars s /\ n = zlen s.
Proof.
  intros Hb. revert n. induction Hb as [|c b Hc _ IH]; intros n; simpl; [done|].
  destruct (Z.eqb_spec c 0) as [->|]; [intros [= <-]; exists [], b; repeat constructor|].
  destruct (strlen b) as [m|]; [|done]. rewrite some_bind. intros [= <-].
  destruct (IH m eq_refl) as (s&r&->&?&->). exists (c :: s), r.
  split; [done|]. rewrite chars_cons, zlen_cons. done.
Qed.

Lemma strnlen_chars s r count : chars s -> 0 <= count ->
  strnlen (s ++ 0 :: r) count = Some (Z.min count (zlen s)).
Proof.
  intros Hs. revert count. induction Hs as [|c s [_ Hc] _ IH]; intros count Hcnt; simpl.
  { zcases; f_equal; lia. }
  destruct (Z.eqb_spec count 0) as [->|]; [simpl; f_equal; lia|].
  destruct (Z.eqb_spec c 0); [done|]. rewrite IH, some_bind by lia. f_equal. lia.
Qed.

(** ** Copying and comparing strings: lemmas *)

Lemma blit_prefix (dest src : list Z) n : 0 <= n <= zlen src ->
  blit dest 0 src 0 n = take (Z.to_nat n) src ++ drop (Z.to_nat n) dest.
Proof. intros. unfold blit, slice. simpl. done. Qed.

Lemma strlcpy_spec dest s r size : chars s -> 0 < size ->
  Z.min size (zlen s + 1) <= zlen dest ->
  strlcpy dest (s ++ 0 :: r) size =
    Some (take (Z.to_nat (size - 1)) s ++ 0 :: drop (Z.to_nat (Z.min size (zlen s + 1))) dest, zlen s).
Proof.
  intros Hs Hsize Hd. unfold strlcpy. rewrite strlen_chars, some_bind by done.
  destruct (Z.eqb_spec size 0); [lia|]. simpl. rewrite Z.geb_leb.
  set (len := if size <=? zlen s then size - 1 else zlen s).
  assert (Hlen : len = Z.min (size - 1) (zlen s)) by (unfold len; zcases; lia).
  rewrite memcpy_blit, some_bind by (rewrite ?length_app; simpl; lia).
  rewrite blit_prefix by (rewrite length_app; simpl; lia).
  rewrite take_app_le by lia.
  assert (Hl : length (take (Z.to_nat len) s) = Z.to_nat len) by (rewrite length_take; lia).
  rewrite wr_Some, some_bind by (rewrite length_app, length_drop, Hl; lia).
  f_equal. f_equal. rewrite insert_app_r_alt by lia. rewrite Hl, Nat.sub_diag.
  f_equal; [destruct (Z.leb_spec size (zlen s));
    [f_equal; lia|rewrite !take_ge by lia; done]|].
  destruct (drop (Z.to_nat len) dest) as [|x l] eqn:E.
  { apply (f_equal length) in E. rewrite length_drop in E. simpl in E. lia. }
  simpl. f_equal. replace (Z.to_nat (Z.min size (zlen s + 1))) with (S (Z.to_nat len)) by lia.
  apply (f_equal (drop 1)) in E. rewrite drop_drop in E. simpl in E.
  by rewrite Nat.add_1_r in E.
Qed.

Lemma s8_diff c t : is_u8 c -> is_u8 t -> s8 (c - t) = 0 <-> c = t.
Proof. intros. split; word_lia. Qed.

(** [strcmp] always ends, and its result is zero exactly on equal strings. *)
Lemma strcmp_spec a b r r' : chars a -> chars b ->
  exists x, strcmp (a ++ 0 :: r) (b ++ 0 :: r') = Some x /\ (x = 0 <-> a = b).
Proof.
  intros Ha. revert b. induction Ha as [|c a [Hc Hc0] _ IH]; intros b Hb.
  - destruct b as [|d b]; simpl.
    + exists 0. done.
    + apply chars_cons in Hb as [[Hd Hd0] _]. exists (s8 (0 - d)).
      split; [by rewrite orb_true_r|]. rewrite s8_diff by (done || unfold is_u8; lia).
      split; [lia|done].
  - destruct b as [|d b]; simpl.
    + exists (s8 (c - 0)). assert (s8 (c - 0) <> 0) by (rewrite s8_diff; (done || unfold is_u8; lia)).
      destruct (Z.eqb_spec (s8 (c - 0)) 0); [done|]. split; [done|]. split; done.
    + apply chars_cons in Hb as [[Hd Hd0] Hb].
      destruct (Z.eqb_spec (s8 (c - d)) 0) as [E|E]; simpl.
      * apply s8_diff in E as ->; try done. destruct (Z.eqb_spec d 0); [done|].
        destruct (IH b Hb) as (x&->&Hx). exists x. split; [done|]. rewrite Hx. naive_solver.
      * exists (s8 (c - d)). split; [done|]. rewrite s8_diff in * by done. naive_solver.
Qed.

(** The order [strcmp] is meant to compute. *)
Fixpoint lex_compare (a b : list Z) : comparison :=
  match a, b with
  | [], [] => Eq
  | [], _ => Lt
  | _, [] => Gt
  | c :: a, d :: b => match c ?= d with Eq => lex_compare a b | o => o end
  end.

Definition ascii_string (s : list Z) : Prop := Forall (fun c => 0 < c < 128) s.

Lemma ascii_chars s : ascii_string s -> chars s.
Proof. intros H. eapply Forall_impl; [exact H|]. intros c Hc. unfold is_u8. cbv beta in Hc. lia. Qed.

Lemma strcmp_ascii a b r r' : ascii_string a -> ascii_string b ->
  exists x, strcmp (a ++ 0 :: r) (b ++ 0 :: r') = Some x /\ (x ?= 0) = lex_compare a b.
Proof.
  intros Ha. revert b. induction Ha as [|c a Hc _ IH]; intros b Hb.
  - destruct Hb as [|d b Hd _]; simpl; [by exists 0|].
    exists (s8 (0 - d)). split; [by rewrite orb_true_r|].
    rewrite Z.compare_lt_iff. word_lia.
  - destruct Hb as [|d b Hd Hb]; simpl.
    + exists (s8 (c - 0)). assert (s8 (c - 0) = c) as -> by word_lia.
      destruct (Z.eqb_spec c 0); [lia|]. split; [done|]. rewrite Z.compare_gt_iff. lia.
    + assert (s8 (c - d) = c - d) as -> by word_lia.
      destruct (Z.eqb_spec (c - d) 0) as [E|E]; simpl.
      * assert (c = d) as -> by lia. rewrite Z.compare_refl.
        destruct (Z.eqb_spec d 0); [lia|]. auto.
      * exists (c - d). split; [done|]. destruct (Z.compare_spec c d); [lia|..];
          [apply Z.compare_lt_iff|apply Z.compare_gt_iff]; lia.
Qed.

(** ** Searching: lemmas *)

Lemma memcmp_loop_eq n : forall a b res, (n <= length a)%nat -> (n <= length b)%nat ->
  exists x, memcmp_loop n a b res = Some x /\
    (n <> O -> (x = 0 <-> take n a = take n b)).
Proof.
  induction n as [|n IH]; intros a b res Ha Hb; simpl; [by exists res|].
  destruct a as [|x a], b as [|y b]; simpl in *; try lia.
  destruct (Z.eqb_spec (x - y) 0) as [E|E]; simpl.
  - assert (x = y) as -> by lia. destruct (IH a b (y - y)) as (z&Hz&Hz0); [lia|lia|].
    exists z. split; [done|]. intros _. destruct n as [|n].
    + simpl in *. injection Hz as <-. split; [done|lia].
    + rewrite Hz0 by done. split; [by intros ->|]. by intros [= ->].
  - exists (x - y). split; [done|]. intros _. split; [lia|]. intros [= -> _]. lia.
Qed.

Lemma memcmp_spec a b n : 0 < n <= zlen a -> n <= zlen b ->
  exists x, memcmp a b n = Some x /\ (x = 0 <-> take (Z.to_nat n) a = take (Z.to_nat n) b).
Proof.
  intros. unfold memcmp. destruct (memcmp_loop_eq (Z.to_nat n) a b 0) as (x&->&Hx); [lia..|].
  exists x. split; [done|]. apply Hx. lia.
Qed.

(** [b] occurs in [a] at offset [i]. *)
Definition occurs_at (a b : list Z) (i : Z) : Prop :=
  0 <= i /\ i + zlen b <= zlen a /\ take (length b) (drop (Z.to_nat i) a) = b.

Lemma strstr_loop_spec b r' : b <> [] -> forall a r off, 0 <= off ->
  exists res, strstr_loop (a ++ 0 :: r) (b ++ 0 :: r') (zlen a) (zlen b) off = Some res /\
    match res with
    | Some p => exists i, p = off + i /\ occurs_at a b i /\ forall j, j < i -> ~ occurs_at a b j
    | None => forall j, ~ occurs_at a b j
    end.
Proof.
  intros Hb a r. assert (Hbl : 0 < zlen b) by (destruct b; [done|simpl; lia]).
  assert (Hcmp : forall a, zlen b <= zlen a -> exists x,
    memcmp (a ++ 0 :: r) (b ++ 0 :: r') (zlen b) = Some x /\ (x = 0 <-> take (length b) a = b)).
  { intros a' Hl. destruct (memcmp_spec (a' ++ 0 :: r) (b ++ 0 :: r') (zlen b)) as (x&->&Hx);
      [rewrite length_app; lia|rewrite length_app; lia|].
    exists x. split; [done|]. rewrite Hx, Nat2Z.id, !take_app_le by lia.
    rewrite (firstn_all b). reflexivity. }
  induction a as [|c a IH]; intros off Hoff; simpl; rewrite Z.geb_leb.
  - destruct (Z.leb_spec (zlen b) (Z.of_nat 0)); [lia|]. exists None. split; [done|].
    intros j (?&?&_). simpl in *. lia.
  - destruct (Z.leb_spec (zlen b) (Z.of_nat (S (length a)))) as [Hle|Hlt].
    + destruct (Hcmp (c :: a)) as (x&Hx&Hx0); [simpl; lia|]. simpl in Hx. rewrite Hx, some_bind.
      destruct (Z.eqb_spec x 0) as [->|Hne].
      * exists (Some off). split; [done|]. exists 0. split; [lia|]. split.
        { split; [lia|]. split; [simpl; lia|]. rewrite drop_0. tauto. }
        { intros j ? (?&_). lia. }
      * replace (Z.of_nat (S (length a)) - 1) with (zlen a) by lia.
        destruct (IH (off + 1)) as (res&->&Hres); [lia|]. exists res. split; [done|].
        assert (H0 : ~ occurs_at (c :: a) b 0).
        { intros (_&_&Ht). rewrite drop_0 in Ht. tauto. }
        assert (HS : forall j, 0 <= j -> occurs_at (c :: a) b (j + 1) <-> occurs_at a b j).
        { intros j Hj. unfold occurs_at. rewrite zlen_cons.
          replace (Z.to_nat (j + 1)) with (S (Z.to_nat j)) by lia. simpl. naive_solver lia. }
        destruct res as [p|].
        { destruct Hres as (i&->&Hi&Hfirst). exists (i + 1). split; [lia|].
          assert (0 <= i) by apply Hi. split; [by apply HS|]. intros j Hj Ho.
          destruct (Z.eq_dec j 0) as [->|]; [done|]. assert (0 <= j) by apply Ho.
          replace j with (j - 1 + 1) in Ho by lia. apply HS in Ho; [|lia].
          by apply (Hfirst (j - 1)); [lia|]. }
        { intros j Ho. destruct (Z.eq_dec j 0) as [->|]; [done|]. assert (0 <= j) by apply Ho.
          replace j with (j - 1 + 1) in Ho by lia. apply HS in Ho; [|lia]. by apply (Hres (j - 1)). }
    + exists None. split; [done|]. intros j (?&?&_). simpl in *. lia.
Qed.

Lemma in_set_spec a r x : chars a -> x <> 0 -> in_set (a ++ 0 :: r) x = Some (bool_decide (x ∈ a)).
Proof.
  intros Ha Hx. induction Ha as [|c a [_ Hc] _ IH]; simpl; [done|].
  destruct (Z.eqb_spec c 0); [done|]. destruct (Z.eqb_spec x c) as [->|].
  - rewrite bool_decide_true; [done|set_solver].
  - rewrite IH. f_equal. apply bool_decide_ext. set_solver.
Qed.

Lemma strpbrk_loop_token tok d rest r ct r' off : chars tok -> chars ct ->
  Forall (fun c => c ∉ ct) tok -> d ∈ ct ->
  strpbrk_loop (tok ++ d :: rest ++ 0 :: r) (ct ++ 0 :: r') off = Some (Some (off + zlen tok)).
Proof.
  intros Htok Hct Hno Hd. assert (d <> 0).
  { unfold chars in Hct. rewrite Forall_forall in Hct. by apply (Hct d Hd). }
  revert off. induction Htok as [|c tok [_ Hc] _ IH]; intros off; simpl.
  - destruct (Z.eqb_spec d 0); [done|]. rewrite in_set_spec, some_bind by done.
    rewrite bool_decide_true by done. f_equal. f_equal. lia.
  - apply Forall_cons in Hno as [Hcn Hno]. destruct (Z.eqb_spec c 0); [done|].
    rewrite in_set_spec, some_bind by done. rewrite bool_decide_false by done.
    rewrite IH by done. do 2 f_equal. lia.
Qed.

Lemma strpbrk_loop_none s r ct r' off : chars s -> chars ct -> Forall (fun c => c ∉ ct) s ->
  strpbrk_loop (s ++ 0 :: r) (ct ++ 0 :: r') off = Some None.
Proof.
  intros Hs Hct Hno. revert off. induction Hs as [|c s [_ Hc] _ IH]; intros off; simpl; [done|].
  apply Forall_cons in Hno as [Hcn Hno]. destruct (Z.eqb_spec c 0); [done|].
  rewrite in_set_spec, some_bind by done. rewrite bool_decide_false by done. by apply IH.
Qed.

(** ** Properties *)

(** [memmove] copies the old contents of the source area whatever the
    overlap of the two areas, changes nothing else, and stays inside the object. *)
Theorem memmove_overlap m dest src n :
  0 <= dest -> 0 <= src -> 0 <= n -> dest + n <= zlen m -> src + n <= zlen m ->
  exists m', memmove m dest src n = Some m' /\ length m' = length m /\
    (forall k, 0 <= k < n -> m' !! Z.to_nat (dest + k) = m !! Z.to_nat (src + k)) /\
    (forall k, 0 <= k -> k < dest \/ dest + n <= k -> m' !! Z.to_nat k = m !! Z.to_nat k).
Proof.
  intros. exists (blit m dest m src n). rewrite memmove_blit by done.
  split; [done|]. split; [apply length_blit; lia|]. split.
  - intros. apply lookup_blit_in; lia.
  - intros. by apply lookup_blit_out.
Qed.

Example memmove_overlap_witness :
  exists m', memmove [1; 2; 3; 4; 5] 1 0 4 = Some m' /\ m' !! 4%nat = Some 4.
Proof.
  destruct (memmove_overlap [1; 2; 3; 4; 5] 1 0 4) as (m'&H&_&Hin&_); [simpl; lia..|].
  exists m'. split; [exact H|]. exact (Hin 3 ltac:(lia)).
Defined.

(** [memcpy] inside one object does not have that property. *)
Example memcpy_overlap_differs :
  memcpy_in [1; 2; 3; 4; 5] 1 0 4 <> memmove [1; 2; 3; 4; 5] 1 0 4.
Proof. by vm_compute. Qed.

(** [strlcpy] leaves in [dest] the longest prefix of [src] that fits in
    [size - 1] characters, always terminated, touches no byte past it, and
    returns the full length of [src]. *)
Theorem strlcpy_truncates dest s r size :
  chars s -> 0 < size -> Z.min size (zlen s + 1) <= zlen dest ->
  exists dest', strlcpy dest (s ++ 0 :: r) size = Some (dest', zlen s) /\
    dest' = take (Z.to_nat (size - 1)) s ++ 0 :: drop (Z.to_nat (Z.min size (zlen s + 1))) dest /\
    strlen dest' = Some (Z.min (size - 1) (zlen s)).
Proof.
  intros Hs Hsize Hd. eexists. split; [by apply strlcpy_spec|]. split; [done|].
  rewrite strlen_chars.
  - rewrite length_take. f_equal. lia.
  - by apply Forall_take.
Qed.

Example strlcpy_truncates_witness :
  exists d, strlcpy [9; 9; 9; 9; 9] ([104; 101; 108; 108; 111] ++ 0 :: []) 4 = Some (d, 5)
    /\ strlen d = Some 3.
Proof.
  destruct (strlcpy_truncates [9; 9; 9; 9; 9] [104; 101; 108; 108; 111] [] 4) as (d&H&_&Hl);
    [repeat constructor; vm_compute; congruence|lia|vm_compute; congruence|].
  exists d. split; [exact H|exact Hl].
Defined.

(** [strcmp] ends on every pair of strings, its result is zero exactly when
    they are equal, and on ASCII strings its sign is the lexicographic order. *)
Theorem strcmp_equality_and_order a b r r' :
  chars a -> chars b ->
  exists x, strcmp (a ++ 0 :: r) (b ++ 0 :: r') = Some x /\ (x = 0 <-> a = b) /\
    (ascii_string a -> ascii_string b -> (x ?= 0) = lex_compare a b).
Proof.
  intros Ha Hb. destruct (strcmp_spec a b r r' Ha Hb) as (x&Hx&H0).
  exists x. split; [done|]. split; [done|]. intros Ha' Hb'.
  destruct (strcmp_ascii a b r r' Ha' Hb') as (y&Hy&Ho). congruence.
Qed.

Example strcmp_equality_and_order_witness :
  exists x, strcmp ([97; 98] ++ 0 :: []) ([97; 99] ++ 0 :: []) = Some x /\ (x ?= 0) = Lt.
Proof.
  destruct (strcmp_equality_and_order [97; 98] [97; 99] [] []) as (x&Hx&_&Ho);
    [repeat constructor; vm_compute; congruence..|].
  exists x. split; [exact Hx|]. apply Ho; repeat constructor; vm_compute; congruence.
Defined.

(** Beyond ASCII the [signed char] that holds the difference overflows: two
    strings can each compare below the other. *)
Lemma strcmp_not_antisymmetric :
  strcmp [1; 0] [129; 0] = Some (-128) /\ strcmp [129; 0] [1; 0] = Some (-128).
Proof. split; reflexivity. Qed.

(** With a length of zero [strncasecmp] still compares. *)
Lemma strncasecmp_zero_compares : strncasecmp [65; 0] [66; 0] 0 = Some (-1).
Proof. reflexivity. Qed.

(** [strstr] returns the first occurrence of the second string in the
    first, and NULL exactly when there is none. *)
Theorem strstr_first_occurrence a b r r' :
  chars a -> chars b ->
  exists res, strstr (a ++ 0 :: r) (b ++ 0 :: r') = Some res /\
    match res with
    | Some i => occurs_at a b i /\ forall j, j < i -> ~ occurs_at a b j
    | None => forall j, ~ occurs_at a b j
    end.
Proof.
  intros Ha Hb. unfold strstr. rewrite (strlen_chars b), some_bind by done.
  destruct (Z.eqb_spec (zlen b) 0) as [E|E].
  - exists (Some 0). split; [done|]. destruct b; [|simpl in E; lia].
    split; [split; [lia|split; [simpl; lia|done]]|]. intros j ? (?&_). lia.
  - rewrite (strlen_chars a), some_bind by done.
    destruct (strstr_loop_spec b r' ltac:(by destruct b) a r 0) as (res&->&H); [lia|].
    exists res. split; [done|]. destruct res as [p|]; [|done].
    destruct H as (i&->&?&?). by rewrite Z.add_0_l.
Qed.

Example strstr_first_occurrence_witness :
  exists res, strstr ([97; 98; 97; 98] ++ 0 :: []) ([98] ++ 0 :: []) = Some res /\ res = Some 1.
Proof.
  destruct (strstr_first_occurrence [97; 98; 97; 98] [98] [] []) as (res&H&_);
    [repeat constructor; vm_compute; congruence..|].
  exists res. split; [exact H|]. vm_compute in H. congruence.
Defined.

(** [strsep] cuts the string at the first delimiter, whatever follows it:
    the token before it becomes a string of its own and the rest starts right
    after it; without a delimiter the whole string is the last token. *)
Theorem strsep_cuts_token tok d rest r ct r' :
  chars tok -> chars rest -> chars ct -> Forall (fun c => c ∉ ct) tok ->
  (d ∈ ct ->
    strsep (Some (tok ++ d :: rest ++ 0 :: r)) (ct ++ 0 :: r') =
      Some (Some (tok ++ 0 :: rest ++ 0 :: r, Some (zlen tok + 1)))) /\
  strsep (Some (tok ++ 0 :: r)) (ct ++ 0 :: r') = Some (Some (tok ++ 0 :: r, None)).
Proof.
  intros Htok Hrest Hct Hno. unfold strsep, strpbrk. split.
  - intros Hd. rewrite strpbrk_loop_token, some_bind by done. rewrite Z.add_0_l. cbv beta iota.
    rewrite wr_Some, some_bind by (rewrite length_app; simpl; lia).
    do 3 f_equal. rewrite Nat2Z.id, insert_app_r_alt, Nat.sub_diag by lia. done.
  - by rewrite strpbrk_loop_none, some_bind.
Qed.

Example strsep_cuts_token_witness :
  strsep (Some ([97] ++ 44 :: [98] ++ 0 :: [])) ([44] ++ 0 :: []) =
    Some (Some ([97] ++ 0 :: [98] ++ 0 :: [], Some 2)).
Proof.
  apply (strsep_cuts_token [97] 44 [98] [] [44] []);
    [repeat constructor; vm_compute; congruence..| |].
  - constructor; [|constructor]. intros H. apply list_elem_of_singleton in H. lia.
  - apply list_elem_of_singleton. reflexivity.
Defined.
