(* ===== verification/Kfifo.v ===== *)
(** * The kernel FIFO (kernel/kfifo.c, include/linux/kfifo.h)

    The record [kfifo] is [struct kfifo] without its lock.  The operations
    return [None] where the C code stops the machine or leaves an object; the
    result of [kmalloc] is an argument.  [spin_lock_irqsave] makes [kfifo_put]
    and [kfifo_get] atomic; the lock-free operations [__kfifo_put] and
    [__kfifo_get] are also modelled byte by byte, interleaved, in the section
    on one reader and one writer. *)

From S2P Require Import Prelude Bits StringLib.

Record kfifo := mk_kfifo {
  buffer : list Z;
  size : Z;
  in_ : Z;
  out : Z;
}.

(** [BUG_ON(!is_power_of_2(size))], then the allocation of the structure. *)
Definition kfifo_init (buf : list Z) (sz : Z) (kmalloc_ok : bool) : option (Z + kfifo) :=
  if negb (is_power_of_2 sz) then None else
  if kmalloc_ok then Some (inr (mk_kfifo buf sz 0 0)) else Some (inl (- ENOMEM)).

(** [kmalloc] is the buffer allocation, with its arbitrary contents. *)
Definition kfifo_alloc (sz : Z) (kmalloc : Z -> option (list Z)) (kmalloc_ok : bool)
    : option (Z + kfifo) :=
  sz ← (if negb (Z.land sz (u32 (sz - 1)) =? 0) then
          if sz >? 0x80000000 then None else Some (__roundup_pow_of_two sz)
        else Some sz);
  match kmalloc sz with
  | None => Some (inl (- ENOMEM))
  | Some buf => kfifo_init buf sz kmalloc_ok
  end.

Definition __kfifo_put (fifo : kfifo) (buf : list Z) (len : Z) : option (kfifo * Z) :=
  let len := Z.min len (u32 (size fifo - in_ fifo + out fifo)) in
  let off := Z.land (in_ fifo) (u32 (size fifo - 1)) in
  let l := Z.min len (u32 (size fifo - off)) in
  b ← memcpy (buffer fifo) off buf 0 l;
  b ← memcpy b 0 buf l (len - l);
  Some (mk_kfifo b (size fifo) (u32 (in_ fifo + len)) (out fifo), len).

(** The second component is the caller's buffer after the copy. *)
Definition __kfifo_get (fifo : kfifo) (buf : list Z) (len : Z) : option (kfifo * list Z * Z) :=
  let len := Z.min len (u32 (in_ fifo - out fifo)) in
  let off := Z.land (out fifo) (u32 (size fifo - 1)) in
  let l := Z.min len (u32 (size fifo - off)) in
  buf ← memcpy buf 0 (buffer fifo) off l;
  buf ← memcpy buf l (buffer fifo) 0 (len - l);
  Some (mk_kfifo (buffer fifo) (size fifo) (in_ fifo) (u32 (out fifo + len)), buf, len).

Definition __kfifo_reset (fifo : kfifo) : kfifo := mk_kfifo (buffer fifo) (size fifo) 0 0.
Definition kfifo_reset (fifo : kfifo) : kfifo := __kfifo_reset fifo.
Definition kfifo_put (fifo : kfifo) (buf : list Z) (len : Z) : option (kfifo * Z) :=
  __kfifo_put fifo buf len.
Definition kfifo_get (fifo : kfifo) (buf : list Z) (len : Z) : option (kfifo * list Z * Z) :=
  '(fifo, buf, ret) ← __kfifo_get fifo buf len;
  let fifo := if in_ fifo =? out fifo then mk_kfifo (buffer fifo) (size fifo) 0 0 else fifo in
  Some (fifo, buf, ret).
Definition __kfifo_len (fifo : kfifo) : Z := u32 (in_ fifo - out fifo).
Definition kfifo_len (fifo : kfifo) : Z := __kfifo_len fifo.

(** ** Abstract specification: a bounded queue of bytes *)

Inductive op := Put (data : list Z) | Get (len : Z) | Reset | Len.
Inductive answer := ACount (n : Z) | AData (d : list Z) | AUnit.

Definition q_step (cap : Z) (q : list Z) (o : op) : list Z * answer :=
  match o with
  | Put data =>
    let n := Z.min (zlen data) (cap - zlen q) in (q ++ take (Z.to_nat n) data, ACount n)
  | Get len =>
    let n := Z.min len (zlen q) in (drop (Z.to_nat n) q, AData (take (Z.to_nat n) q))
  | Reset => ([], AUnit)
  | Len => (q, ACount (zlen q))
  end.

(** The same operation on the FIFO; [Get] reads into a buffer of its length. *)
Definition f_step (f : kfifo) (o : op) : option (kfifo * answer) :=
  match o with
  | Put data => '(f, n) ← kfifo_put f data (zlen data); Some (f, ACount n)
  | Get len =>
    '(f, buf, n) ← kfifo_get f (replicate (Z.to_nat len) 0) len;
    Some (f, AData (take (Z.to_nat n) buf))
  | Reset => Some (kfifo_reset f, AUnit)
  | Len => Some (f, ACount (kfifo_len f))
  end.

Fixpoint q_run (cap : Z) (q : list Z) (os : list op) : list answer :=
  match os with
  | [] => []
  | o :: os => let '(q, a) := q_step cap q o in a :: q_run cap q os
  end.
Fixpoint f_run (f : kfifo) (os : list op) : option (list answer) :=
  match os with
  | [] => Some []
  | o :: os => '(f, a) ← f_step f o; l ← f_run f os; Some (a :: l)
  end.

(** ** One reader and one writer without a lock

    The writer samples [out], copies byte by byte to offset [(in + k) & (size - 1)]
    and only then adds to [in]; the reader samples [in], copies, then adds to
    [out].  The memory barriers of the code order these accesses.  [written] and
    [read] record the bytes of the finished puts and gets. *)

Inductive wpc := W_idle | W_copy (data : list Z) (len k : Z).
Inductive rpc := R_idle | R_copy (acc : list Z) (len : Z).

Record conf := mk_conf { ring : kfifo; w : wpc; r : rpc; written : list Z; read : list Z }.

Definition slot (f : kfifo) (i : Z) : Z := Z.land (u32 i) (u32 (size f - 1)).

Inductive step : conf -> conf -> Prop :=
| w_start f rp wr rd' data len :
    0 <= len <= zlen data ->
    step (mk_conf f W_idle rp wr rd')
      (mk_conf f (W_copy data (Z.min len (u32 (size f - in_ f + out f))) 0) rp wr rd')
| w_byte f b v rp wr rd' data len k :
    k < len -> rd data k = Some v -> Prelude.wr (buffer f) (slot f (in_ f + k)) v = Some b ->
    step (mk_conf f (W_copy data len k) rp wr rd')
      (mk_conf (mk_kfifo b (size f) (in_ f) (out f)) (W_copy data len (k + 1)) rp wr rd')
| w_publish f rp wr rd' data len :
    step (mk_conf f (W_copy data len len) rp wr rd')
      (mk_conf (mk_kfifo (buffer f) (size f) (u32 (in_ f + len)) (out f)) W_idle rp
        (wr ++ take (Z.to_nat len) data) rd')
| r_start f wp wr rd' len :
    0 <= len ->
    step (mk_conf f wp R_idle wr rd')
      (mk_conf f wp (R_copy [] (Z.min len (u32 (in_ f - out f)))) wr rd')
| r_byte f v wp wr rd' acc len :
    zlen acc < len -> rd (buffer f) (slot f (out f + zlen acc)) = Some v ->
    step (mk_conf f wp (R_copy acc len) wr rd') (mk_conf f wp (R_copy (acc ++ [v]) len) wr rd')
| r_publish f wp wr rd' acc len :
    zlen acc = len ->
    step (mk_conf f wp (R_copy acc len) wr rd')
      (mk_conf (mk_kfifo (buffer f) (size f) (in_ f) (u32 (out f + len))) wp R_idle wr (rd' ++ acc)).

Inductive reachable (f0 : kfifo) : conf -> Prop :=
| reach_init : reachable f0 (mk_conf f0 W_idle R_idle [] [])
| reach_step c c' : reachable f0 c -> step c c' -> reachable f0 c'.

(** ** Invariant *)

(** [n] bytes of a ring buffer from index [start]. *)
Definition ring_slice (b : list Z) (sz start n : Z) : list Z :=
  map (fun i => nth (Z.to_nat ((start + i) mod sz)) b 0) (seqZ 0 n).

Definition kfifo_ok (f : kfifo) : Prop :=
  (exists k, 0 <= k < 32 /\ size f = 2 ^ k) /\ zlen (buffer f) = size f /\
  is_u32 (in_ f) /\ is_u32 (out f) /\ u32 (in_ f - out f) <= size f.

Definition contents (f : kfifo) : list Z :=
  ring_slice (buffer f) (size f) (out f) (u32 (in_ f - out f)).

(** ** Ring arithmetic *)

Lemma size_pos f : kfifo_ok f -> 0 < size f <= 2 ^ 31.
Proof.
  intros ((k&Hk&->)&_). split; [apply Z.pow_pos_nonneg; lia|apply Z.pow_le_mono_r; lia].
Qed.

Lemma mask_mod f i : kfifo_ok f -> Z.land i (u32 (size f - 1)) = i mod size f.
Proof.
  intros Hok. pose proof (size_pos f Hok). destruct Hok as ((k&Hk&E)&_).
  rewrite u32_small by (unfold is_u32; lia). rewrite E. apply land_mask. lia.
Qed.

Lemma mod_u32 f i : kfifo_ok f -> u32 i mod size f = i mod size f.
Proof.
  intros ((k&Hk&->)&_). unfold u32.
  replace (2 ^ 32) with (2 ^ k * 2 ^ (32 - k)) by (rewrite <- Z.pow_add_r by lia; f_equal; lia).
  rewrite Z.rem_mul_r, Z.mul_comm, Z.mod_add, Z.mod_mod by (apply Z.pow_nonzero || apply Z.pow_pos_nonneg; lia).
  done.
Qed.

Lemma length_ring_slice b sz start n : 0 <= n -> zlen (ring_slice b sz start n) = n.
Proof. intros. unfold ring_slice. rewrite length_map, length_seqZ. lia. Qed.

Lemma lookup_ring_slice b sz start n i : 0 <= Z.of_nat i < n ->
  ring_slice b sz start n !! i = Some (nth (Z.to_nat ((start + Z.of_nat i) mod sz)) b 0).
Proof.
  intros. unfold ring_slice. rewrite list_lookup_fmap, lookup_seqZ_lt by lia. done.
Qed.

Lemma nth_lookup_default (b : list Z) i : nth i b 0 = default 0 (b !! i).
Proof. apply nth_lookup. Qed.

(** The distance from [a] around a ring. *)
Lemma ring_distance a j sz : 0 < sz -> 0 <= j < sz -> 
  (j - a) mod sz = if a mod sz <=? j then j - a mod sz else j - a mod sz + sz.
Proof.
  intros Hs Hj. pose proof (Z.mod_pos_bound a sz Hs). pose proof (Z.div_mod a sz ltac:(lia)).
  destruct (Z.leb_spec (a mod sz) j); symmetry.
  - apply (Z.mod_unique_pos _ _ (- (a / sz))); lia.
  - apply (Z.mod_unique_pos _ _ (- (a / sz) - 1)); lia.
Qed.

(** The two copies of a put leave at distance [d] after [in] the byte [d] of the
    source when [d < len] and the old byte otherwise. *)
Lemma put_copies b sz a buf len :
  0 < sz <= 2 ^ 31 -> zlen b = sz -> 0 <= len <= sz -> len <= zlen buf ->
  let off := a mod sz in
  let l := Z.min len (sz - off) in
  exists b1 b2, memcpy b off buf 0 l = Some b1 /\ memcpy b1 0 buf l (len - l) = Some b2 /\
    zlen b2 = sz /\
    forall j, 0 <= j < sz -> nth (Z.to_nat j) b2 0 =
      if (j - a) mod sz <? len then nth (Z.to_nat ((j - a) mod sz)) buf 0 else nth (Z.to_nat j) b 0.
Proof.
  intros Hsz Hb Hlen Hbuf off l. pose proof (Z.mod_pos_bound a sz ltac:(lia)) as Hoff.
  fold off in Hoff. assert (Hl : 0 <= l <= len /\ off + l <= sz) by (unfold l; lia).
  exists (blit b off buf 0 l), (blit (blit b off buf 0 l) 0 buf l (len - l)).
  assert (Hlen1 : zlen (blit b off buf 0 l) = sz) by (rewrite length_blit by lia; done).
  split; [apply memcpy_blit; lia|]. split; [apply memcpy_blit; lia|].
  split; [rewrite length_blit by lia; done|].
  intros j Hj. rewrite ring_distance by lia. fold off. rewrite !nth_lookup_default.
  destruct (Z.ltb_spec j (len - l)) as [Hj2|Hj2].
  - replace (Z.to_nat j) with (Z.to_nat (0 + j)) at 1 by lia.
    rewrite lookup_blit_in by lia. destruct (Z.leb_spec off j); [lia|].
    destruct (Z.ltb_spec (j - off + sz) len); [|lia].
    do 2 f_equal. lia.
  - rewrite lookup_blit_out by lia.
    destruct (Z.leb_spec off j).
    + destruct (Z.ltb_spec (j - off) len).
      * replace (Z.to_nat j) with (Z.to_nat (off + (j - off))) at 1 by lia.
        rewrite lookup_blit_in by lia. do 2 f_equal.
      * rewrite lookup_blit_out by lia. done.
    + rewrite lookup_blit_out by lia. destruct (Z.ltb_spec (j - off + sz) len); [lia|done].
Qed.

(** The position [k] steps further around a ring. *)
Lemma ring_position a k sz : 0 < sz -> 0 <= k < sz ->
  (a + k) mod sz = if a mod sz + k <? sz then a mod sz + k else a mod sz + k - sz.
Proof.
  intros Hs Hk. pose proof (Z.mod_pos_bound a sz Hs). pose proof (Z.div_mod a sz ltac:(lia)).
  destruct (Z.ltb_spec (a mod sz + k) sz); symmetry.
  - apply (Z.mod_unique_pos _ _ (a / sz)); lia.
  - apply (Z.mod_unique_pos _ _ (a / sz + 1)); lia.
Qed.

Lemma list_eq_Z {A} (l1 l2 : list A) :
  (forall i, 0 <= i -> l1 !! Z.to_nat i = l2 !! Z.to_nat i) -> l1 = l2.
Proof.
  intros H. apply list_eq. intros i. specialize (H (Z.of_nat i) ltac:(lia)).
  by rewrite Nat2Z.id in H.
Qed.

Lemma lookup_nth (b : list Z) i : 0 <= i < zlen b ->
  b !! Z.to_nat i = Some (nth (Z.to_nat i) b 0).
Proof.
  intros. rewrite nth_lookup_default. destruct (b !! Z.to_nat i) eqn:E; [done|].
  apply lookup_ge_None in E. lia.
Qed.

(** The two copies of a get deliver the ring slice. *)
Lemma get_copies b sz a buf len :
  0 < sz <= 2 ^ 31 -> zlen b = sz -> 0 <= len <= sz -> len <= zlen buf ->
  let off := a mod sz in
  let l := Z.min len (sz - off) in
  exists b1, memcpy buf 0 b off l = Some b1 /\
    memcpy b1 l b 0 (len - l) = Some (ring_slice b sz a len ++ drop (Z.to_nat len) buf).
Proof.
  intros Hsz Hb Hlen Hbuf off l. pose proof (Z.mod_pos_bound a sz ltac:(lia)) as Hoff.
  fold off in Hoff. assert (Hl : 0 <= l <= len /\ off + l <= sz) by (unfold l; lia).
  assert (Hlen1 : zlen (blit buf 0 b off l) = zlen buf) by (rewrite length_blit by lia; done).
  exists (blit buf 0 b off l). split; [apply memcpy_blit; lia|].
  rewrite memcpy_blit by lia. f_equal. apply list_eq_Z. intros k Hk.
  pose proof (length_ring_slice b sz a len ltac:(lia)) as Hrl.
  destruct (Z.ltb_spec k len) as [Hkl|Hkl].
  - rewrite lookup_app_l, lookup_ring_slice by lia. rewrite Z2Nat.id by lia.
    rewrite ring_position by lia. fold off.
    destruct (Z.ltb_spec k l).
    + rewrite lookup_blit_out by lia. replace (Z.to_nat k) with (Z.to_nat (0 + k)) by lia.
      rewrite lookup_blit_in by lia. destruct (Z.ltb_spec (off + k) sz); [|lia].
      apply lookup_nth. lia.
    + replace (Z.to_nat k) with (Z.to_nat (l + (k - l))) by lia.
      rewrite lookup_blit_in by lia. destruct (Z.ltb_spec (off + k) sz); [lia|].
      replace (0 + (k - l)) with (off + k - sz) by lia. apply lookup_nth. lia.
  - rewrite !lookup_blit_out by lia. rewrite lookup_app_r, lookup_drop by lia.
    f_equal. lia.
Qed.

(** ** The sequential operations *)

Lemma kfifo_ok_intro b sz i o :
  (exists k, 0 <= k < 32 /\ sz = 2 ^ k) -> zlen b = sz -> is_u32 i -> is_u32 o ->
  u32 (i - o) <= sz -> kfifo_ok (mk_kfifo b sz i o).
Proof. done. Qed.

Lemma is_u32_0 : is_u32 0.
Proof. unfold is_u32. lia. Qed.

Lemma contents_length f : kfifo_ok f -> zlen (contents f) = u32 (in_ f - out f).
Proof. intros. apply length_ring_slice. pose proof (u32_range (in_ f - out f)). unfold is_u32 in *. lia. Qed.

Lemma free_space f : kfifo_ok f ->
  u32 (size f - in_ f + out f) = size f - zlen (contents f).
Proof.
  intros Hok. pose proof (size_pos f Hok). rewrite (contents_length f Hok).
  destruct Hok as (_&_&?&?&?). unfold_words. Z.to_euclidean_division_equations; lia.
Qed.

Lemma put_spec f buf len : kfifo_ok f -> 0 <= len <= zlen buf ->
  exists f', let n := Z.min len (size f - zlen (contents f)) in
    __kfifo_put f buf len = Some (f', n) /\ kfifo_ok f' /\ size f' = size f /\
    contents f' = contents f ++ take (Z.to_nat n) buf.
Proof.
  intros Hok Hlen. pose proof (size_pos f Hok) as Hsz. pose proof (contents_length f Hok) as Hcl.
  unfold __kfifo_put. rewrite (free_space f Hok). set (n := Z.min len _).
  rewrite mask_mod by done. pose proof (Z.mod_pos_bound (in_ f) (size f) ltac:(lia)).
  rewrite (u32_small (size f - _)) by (unfold is_u32; lia).
  assert (Hn : 0 <= n <= size f /\ n <= zlen buf /\ zlen (contents f) + n <= size f).
  { destruct Hok as (_&_&_&_&?). rewrite Hcl in *. pose proof (u32_range (in_ f - out f)) as Hr.
    unfold is_u32 in Hr. lia. }
  destruct (put_copies (buffer f) (size f) (in_ f) buf n) as (b1&b2&->&E2&Hb2&Hnth);
    [lia|apply Hok|lia|lia|].
  rewrite some_bind, E2, some_bind. eexists. split; [done|].
  assert (Hin : u32 (u32 (in_ f + n) - out f) = zlen (contents f) + n).
  { rewrite Hcl, u32_sub_l. destruct Hok as (_&_&?&?&?). rewrite Hcl in Hn.
    unfold_words. Z.to_euclidean_division_equations; lia. }
  split.
  { destruct Hok as (Hk&_&?&?&?). apply kfifo_ok_intro; try (done || apply u32_range). rewrite Hin. lia. }
  split; [done|]. unfold contents at 1. simpl. rewrite Hin. apply list_eq_Z. intros i Hi.
  destruct (Z.ltb_spec i (zlen (contents f) + n)) as [Hin2|Hout].
  2:{ rewrite !lookup_ge_None_2; [done|rewrite length_app, length_take; lia|].
      pose proof (length_ring_slice b2 (size f) (out f) (zlen (contents f) + n)). lia. }
  rewrite lookup_ring_slice by lia. rewrite Z2Nat.id by lia.
  rewrite Hnth by (apply Z.mod_pos_bound; lia).
  assert (Hdist : ((out f + i) mod size f - in_ f) mod size f =
    if i <? zlen (contents f) then size f + i - zlen (contents f) else i - zlen (contents f)).
  { rewrite Zminus_mod_idemp_l.
    assert (exists q, in_ f = out f + zlen (contents f) + q * size f) as [q Hq].
    { destruct Hok as ((k&Hk&E)&_&?&?&?). rewrite Hcl. unfold u32. rewrite Z.mod_eq by lia.
      exists ((in_ f - out f) / 2 ^ 32 * 2 ^ (32 - k)). rewrite E.
      rewrite <- Z.mul_assoc, <- Z.pow_add_r by lia. replace (32 - k + k) with 32 by lia. lia. }
    symmetry. destruct (Z.ltb_spec i (zlen (contents f))).
    - apply (Z.mod_unique_pos _ _ (- q - 1)); lia.
    - apply (Z.mod_unique_pos _ _ (- q)); lia. }
  rewrite Hdist. destruct (Z.ltb_spec i (zlen (contents f))).
  - destruct (Z.ltb_spec (size f + i - zlen (contents f)) n); [lia|].
    rewrite lookup_app_l by lia. unfold contents. rewrite lookup_ring_slice by lia.
    by rewrite Z2Nat.id by lia.
  - destruct (Z.ltb_spec (i - zlen (contents f)) n); [|lia].
    rewrite lookup_app_r by lia. rewrite lookup_take_lt by lia.
    replace (Z.to_nat i - length (contents f))%nat with (Z.to_nat (i - zlen (contents f))) by lia.
    by rewrite lookup_nth by lia.
Qed.

Lemma ring_slice_split b sz start n m : 0 <= n -> 0 <= m ->
  ring_slice b sz start (n + m) = ring_slice b sz start n ++ ring_slice b sz (start + n) m.
Proof.
  intros. unfold ring_slice. rewrite seqZ_app, map_app by lia. f_equal.
  assert (seqZ (0 + n) m = Z.add n <$> seqZ 0 m) as -> by (rewrite fmap_add_seqZ; f_equal; lia).
  rewrite map_map. apply map_ext. intros i. do 3 f_equal. lia.
Qed.

Lemma ring_slice_start b sz start start' n : start mod sz = start' mod sz ->
  ring_slice b sz start n = ring_slice b sz start' n.
Proof.
  intros E. unfold ring_slice. apply map_ext. intros i.
  by rewrite <- (Zplus_mod_idemp_l start), E, Zplus_mod_idemp_l.
Qed.

Lemma get_spec f buf len : kfifo_ok f -> 0 <= len <= zlen buf ->
  exists f', let n := Z.min len (zlen (contents f)) in
    __kfifo_get f buf len = Some (f', take (Z.to_nat n) (contents f) ++ drop (Z.to_nat n) buf, n) /\
    kfifo_ok f' /\ size f' = size f /\ contents f' = drop (Z.to_nat n) (contents f).
Proof.
  intros Hok Hlen. pose proof (size_pos f Hok) as Hsz. pose proof (contents_length f Hok) as Hcl.
  unfold __kfifo_get. rewrite <- Hcl. set (n := Z.min len _).
  rewrite mask_mod by done. pose proof (Z.mod_pos_bound (out f) (size f) ltac:(lia)).
  rewrite (u32_small (size f - _)) by (unfold is_u32; lia).
  assert (Hn : 0 <= n <= zlen (contents f) /\ n <= zlen buf /\ zlen (contents f) <= size f).
  { destruct Hok as (_&_&_&_&?). lia. }
  destruct (get_copies (buffer f) (size f) (out f) buf n) as (b1&->&E2);
    [lia|apply Hok|lia|lia|].
  rewrite some_bind, E2, some_bind.
  assert (Hsplit : contents f = ring_slice (buffer f) (size f) (out f) n ++
    ring_slice (buffer f) (size f) (out f + n) (zlen (contents f) - n)).
  { rewrite <- ring_slice_split by lia. unfold contents at 1. rewrite <- Hcl. f_equal. lia. }
  pose proof (length_ring_slice (buffer f) (size f) (out f) n ltac:(lia)) as Hrl.
  eexists. split.
  { do 3 f_equal. f_equal. rewrite Hsplit, take_app_le by lia. by rewrite take_ge by lia. }
  assert (Hin : u32 (in_ f - u32 (out f + n)) = zlen (contents f) - n).
  { rewrite u32_sub_r. destruct Hok as (_&_&?&?&?). rewrite Hcl in *.
    unfold_words. Z.to_euclidean_division_equations; lia. }
  split.
  { destruct Hok as (Hk&?&?&?&?). apply kfifo_ok_intro; try (done || apply u32_range). rewrite Hin. lia. }
  split; [done|]. unfold contents at 1. simpl. rewrite Hin.
  rewrite (ring_slice_start _ _ (u32 (out f + n)) (out f + n)) by (by apply mod_u32).
  rewrite Hsplit at 2. rewrite drop_app_ge by lia.
  replace (Z.to_nat n - _)%nat with O by lia. done.
Qed.

Lemma kfifo_get_spec f buf len : kfifo_ok f -> 0 <= len <= zlen buf ->
  exists f', let n := Z.min len (zlen (contents f)) in
    kfifo_get f buf len = Some (f', take (Z.to_nat n) (contents f) ++ drop (Z.to_nat n) buf, n) /\
    kfifo_ok f' /\ size f' = size f /\ contents f' = drop (Z.to_nat n) (contents f).
Proof.
  intros Hok Hlen. destruct (get_spec f buf len Hok Hlen) as (f'&E&Hok'&Hs&Hc).
  unfold kfifo_get. rewrite E, some_bind. cbv beta iota.
  destruct (Z.eqb_spec (in_ f') (out f')) as [Eio|]; [|exists f'; done].
  eexists. split; [done|].
  assert (Hnil : contents f' = []) by (unfold contents; rewrite Eio, Z.sub_diag; done).
  split; [|split; [done|]].
  - pose proof (size_pos f' Hok'). destruct Hok' as (?&?&_&_&_).
    apply kfifo_ok_intro; try (done || apply is_u32_0). change (u32 (0 - 0)) with 0. lia.
  - rewrite <- Hc, Hnil. done.
Qed.

Lemma reset_ok f : kfifo_ok f -> kfifo_ok (__kfifo_reset f) /\ contents (__kfifo_reset f) = [].
Proof.
  intros Hok. pose proof (size_pos f Hok). destruct Hok as (?&?&_).
  split; [|done]. apply kfifo_ok_intro; try (done || apply is_u32_0). change (u32 (0 - 0)) with 0. lia.
Qed.

(** One operation of the FIFO does what the bounded queue does. *)
Definition op_ok (o : op) : Prop := match o with Get len => 0 <= len | _ => True end.

Lemma step_refines f o : kfifo_ok f -> op_ok o ->
  exists f', f_step f o = Some (f', snd (q_step (size f) (contents f) o)) /\
    kfifo_ok f' /\ size f' = size f /\ contents f' = fst (q_step (size f) (contents f) o).
Proof.
  intros Hok Ho. pose proof (contents_length f Hok) as Hcl. destruct o as [data|len| |]; simpl.
  - unfold kfifo_put. destruct (put_spec f data (zlen data) Hok) as (f'&E&?&?&?); [lia|].
    exists f'. rewrite E. done.
  - simpl in Ho. destruct (kfifo_get_spec f (replicate (Z.to_nat len) 0) len Hok) as (f'&E&?&?&?);
      [rewrite length_replicate; lia|].
    exists f'. rewrite E, some_bind. split; [|done]. do 3 f_equal.
    rewrite take_app_le by (rewrite length_take; lia). by rewrite take_ge by (rewrite length_take; lia).
  - destruct (reset_ok f Hok). eexists. done.
  - exists f. unfold kfifo_len, __kfifo_len. by rewrite Hcl.
Qed.

(** ** The interleaved operations *)

(** The state of the ring while puts and gets are in progress: [tin] and [tout]
    are the unbounded counts the 32-bit indices represent. *)
Record conf_ok (c : conf) : Prop := {
  co_size : exists k, 0 <= k < 32 /\ size (ring c) = 2 ^ k;
  co_buf : zlen (buffer (ring c)) = size (ring c);
  co_in : in_ (ring c) = u32 (zlen (written c));
  co_out : out (ring c) = u32 (zlen (read c));
  co_bounds : zlen (read c) <= zlen (written c) <= zlen (read c) + size (ring c);
  co_prefix : forall i, 0 <= i < zlen (read c) ->
    read c !! Z.to_nat i = written c !! Z.to_nat i;
  co_ring : forall i, zlen (read c) <= i < zlen (written c) ->
    buffer (ring c) !! Z.to_nat (i mod size (ring c)) = written c !! Z.to_nat i;
  co_writer : match w c with
    | W_idle => True
    | W_copy data len k => 0 <= k <= len /\ len <= zlen data /\
        zlen (written c) + len <= zlen (read c) + size (ring c) /\
        forall j, 0 <= j < k ->
          buffer (ring c) !! Z.to_nat ((zlen (written c) + j) mod size (ring c)) = data !! Z.to_nat j
    end;
  co_reader : match r c with
    | R_idle => True
    | R_copy acc len => zlen acc <= len /\ zlen (read c) + len <= zlen (written c) /\
        forall j, 0 <= j < zlen acc ->
          acc !! Z.to_nat j = written c !! Z.to_nat (zlen (read c) + j)
    end;
}.

Lemma mod_neq a b sz : 0 < sz -> 0 < a - b < sz -> a mod sz <> b mod sz.
Proof.
  intros Hs Hd E. assert (H : (a - b) mod sz = 0) by (rewrite Zminus_mod, E, Z.sub_diag; done).
  rewrite Z.mod_small in H; lia.
Qed.

Lemma slot_mod f i : (exists k, 0 <= k < 32 /\ size f = 2 ^ k) -> slot f i = i mod size f.
Proof.
  intros (k&Hk&E). unfold slot. rewrite E.
  assert (0 < 2 ^ k <= 2 ^ 31) by (split; [apply Z.pow_pos_nonneg; lia|apply Z.pow_le_mono_r; lia]).
  rewrite (u32_small (2 ^ k - 1)) by (unfold is_u32; lia). rewrite land_mask by lia.
  unfold u32. apply Z.mod_mod_divide.
  exists (2 ^ (32 - k)). rewrite <- Z.pow_add_r by lia. f_equal. lia.
Qed.

Lemma u32_index_mod f a b : (exists k, 0 <= k < 32 /\ size f = 2 ^ k) ->
  (u32 a + b) mod size f = (a + b) mod size f.
Proof.
  intros H. rewrite <- (slot_mod f (u32 a + b)), <- (slot_mod f (a + b)) by done.
  unfold slot. by rewrite u32_add_l.
Qed.

Lemma pow2_size c : conf_ok c -> 0 < size (ring c) <= 2 ^ 31.
Proof.
  intros Hok. destruct (co_size c Hok) as (k&?&->).
  split; [apply Z.pow_pos_nonneg; lia|apply Z.pow_le_mono_r; lia].
Qed.

Lemma conf_ok_init f : kfifo_ok f -> in_ f = 0 -> out f = 0 ->
  conf_ok (mk_conf f W_idle R_idle [] []).
Proof.
  intros Hok Hi Ho. pose proof (size_pos f Hok). destruct Hok as (?&?&_).
  split; simpl; (done || lia || idtac).
Qed.

(** Writing the next byte of a put keeps every byte that was published. *)
Lemma conf_ok_w_byte f b v rp wr rd' data len k :
  conf_ok (mk_conf f (W_copy data len k) rp wr rd') ->
  k < len -> rd data k = Some v -> Prelude.wr (buffer f) (slot f (in_ f + k)) v = Some b ->
  conf_ok (mk_conf (mk_kfifo b (size f) (in_ f) (out f)) (W_copy data len (k + 1)) rp wr rd').
Proof.
  intros Hok Hk Hv Hw. pose proof (pow2_size _ Hok) as Hsz. destruct Hok as [Hs Hb Hi Ho Hbd Hp Hr Hwr Hrd].
  simpl in *. destruct Hwr as (Hk0&Hlen&Hroom&Hdone).
  rewrite slot_mod, Hi, u32_index_mod in Hw by done. set (p := (zlen wr + k) mod size f) in *.
  apply wr_inv in Hw as [Hp0 ->]. apply rd_Some in Hv as [_ Hv].
  assert (Hold : forall i, zlen rd' <= i < zlen wr + k ->
    <[Z.to_nat p:=v]> (buffer f) !! Z.to_nat (i mod size f) = buffer f !! Z.to_nat (i mod size f)).
  { intros i Hir. rewrite list_lookup_insert_ne; [done|].
    pose proof (mod_neq (zlen wr + k) i (size f)). pose proof (Z.mod_pos_bound i (size f)). lia. }
  split; simpl; try (done || lia).
  - by rewrite length_insert.
  - intros i Hir. rewrite Hold by lia. by apply Hr.
  - split; [lia|]. split; [lia|]. split; [lia|]. intros j Hj.
    destruct (Z.eq_dec j k) as [->|].
    + fold p. rewrite list_lookup_insert_eq by lia. done.
    + rewrite Hold by lia. apply Hdone. lia.
Qed.

Lemma conf_ok_w_publish f rp wr rd' data len :
  conf_ok (mk_conf f (W_copy data len len) rp wr rd') ->
  conf_ok (mk_conf (mk_kfifo (buffer f) (size f) (u32 (in_ f + len)) (out f)) W_idle rp
    (wr ++ take (Z.to_nat len) data) rd').
Proof.
  intros Hok. destruct Hok as [Hs Hb Hi Ho Hbd Hp Hr Hwr Hrd].
  simpl in *. destruct Hwr as (Hk0&Hlen&Hroom&Hdone).
  assert (Hl : zlen (wr ++ take (Z.to_nat len) data) = zlen wr + len)
    by (rewrite length_app, length_take; lia).
  split; simpl; rewrite ?Hl; try (done || lia).
  - rewrite Hi, u32_add_l. done.
  - intros i Hir. rewrite lookup_app_l by lia. by apply Hp.
  - intros i Hir. destruct (Z.ltb_spec i (zlen wr)).
    + rewrite lookup_app_l by lia. by apply Hr; lia.
    + rewrite lookup_app_r by lia. rewrite lookup_take_lt by lia.
      replace i with (zlen wr + (i - zlen wr)) at 1 by lia. rewrite Hdone by lia. f_equal. lia.
  - destruct rp as [|acc rlen]; [done|]. destruct Hrd as (?&?&Hacc).
    split; [lia|]. split; [lia|]. intros j Hj. rewrite lookup_app_l by lia. by apply Hacc.
Qed.

Lemma conf_ok_step c c' : conf_ok c -> step c c' -> conf_ok c'.
Proof.
  intros Hok Hstep. pose proof (pow2_size c Hok) as Hsz.
  destruct Hstep as [f rp wr rd' data len Hl|f b v rp wr rd' data len k Hk Hv Hw|f rp wr rd' data len
    |f wp wr rd' len Hl|f v wp wr rd' acc len Hk Hv|f wp wr rd' acc len Hl].
  - destruct Hok as [Hs Hb Hi Ho Hbd Hp Hr _ Hrd]. simpl in *. split; simpl; try done.
    assert (u32 (size f - in_ f + out f) = size f - (zlen wr - zlen rd')) as ->.
    { rewrite Hi, Ho, u32_add_r. replace (size f - u32 (zlen wr) + zlen rd')
        with (size f + zlen rd' - u32 (zlen wr)) by lia. rewrite u32_sub_r.
      rewrite u32_small; [lia|unfold is_u32; lia]. }
    split; [lia|]. split; [lia|]. split; [lia|]. intros j Hj. lia.
  - by eapply conf_ok_w_byte.
  - by eapply conf_ok_w_publish.
  - destruct Hok as [Hs Hb Hi Ho Hbd Hp Hr Hwr _]. simpl in *. split; simpl; try done.
    assert (u32 (in_ f - out f) = zlen wr - zlen rd') as ->.
    { rewrite Hi, Ho, u32_sub_r, u32_sub_l. rewrite u32_small; [lia|unfold is_u32; lia]. }
    split; [lia|]. split; [lia|]. intros j Hj. lia.
  - destruct Hok as [Hs Hb Hi Ho Hbd Hp Hr Hwr Hrd]. simpl in *. split; simpl; try done.
    destruct Hrd as (?&?&Hacc). rewrite length_app. simpl.
    split; [lia|]. split; [lia|]. intros j Hj. destruct (Z.eq_dec j (zlen acc)) as [->|].
    + rewrite lookup_app_r by lia. replace (Z.to_nat (zlen acc) - length acc)%nat with O by lia. simpl.
      rewrite slot_mod, Ho, u32_index_mod in Hv by done. apply rd_Some in Hv as [_ Hv].
      rewrite <- Hv. apply Hr. lia.
    + rewrite lookup_app_l by lia. apply Hacc. lia.
  - destruct Hok as [Hs Hb Hi Ho Hbd Hp Hr Hwr Hrd]. simpl in *. destruct Hrd as (?&?&Hacc).
    assert (Hla : zlen (rd' ++ acc) = zlen rd' + len) by (rewrite length_app; lia).
    split; simpl; rewrite ?Hla; try (done || lia).
    + rewrite Ho, u32_add_l. done.
    + intros i Hir. destruct (Z.ltb_spec i (zlen rd')).
      * rewrite lookup_app_l by lia. apply Hp; lia.
      * rewrite lookup_app_r by lia.
        replace (Z.to_nat i - length rd')%nat with (Z.to_nat (i - zlen rd')) by lia.
        rewrite Hacc by lia. f_equal. lia.
    + intros i Hir. apply Hr. lia.
    + destruct wp as [|data wlen k]; [done|]. destruct Hwr as (?&?&?&?).
      split; [lia|]. split; [lia|]. split; [lia|done].
Qed.

Lemma reachable_ok f c : kfifo_ok f -> in_ f = 0 -> out f = 0 -> reachable f c -> conf_ok c.
Proof.
  intros Hok Hi Ho. induction 1 as [|c c' _ IH Hs]; [by apply conf_ok_init|].
  by eapply conf_ok_step.
Qed.

(** ** Properties *)

(** On a FIFO that satisfies its invariant, put and get store and deliver
    what a bounded queue would: put appends as many bytes as fit and returns
    their number, get removes from the front, whatever the wrap-around of the
    buffer and of the 32-bit indices; the invariant is preserved. *)
Theorem kfifo_put_get_queue f buf len :
  kfifo_ok f -> 0 <= len <= zlen buf ->
  (exists f', let n := Z.min len (size f - zlen (contents f)) in
    __kfifo_put f buf len = Some (f', n) /\ kfifo_ok f' /\
    contents f' = contents f ++ take (Z.to_nat n) buf) /\
  (exists f', let n := Z.min len (zlen (contents f)) in
    __kfifo_get f buf len = Some (f', take (Z.to_nat n) (contents f) ++ drop (Z.to_nat n) buf, n) /\
    kfifo_ok f' /\ contents f' = drop (Z.to_nat n) (contents f)).
Proof.
  intros Hok Hlen. split.
  - destruct (put_spec f buf len Hok Hlen) as (f'&?&?&_&?). by exists f'.
  - destruct (get_spec f buf len Hok Hlen) as (f'&?&?&_&?). by exists f'.
Qed.

(** A FIFO of four bytes whose indices are about to wrap past 2^32. *)
Definition wrapping_fifo : kfifo := mk_kfifo [12; 13; 10; 11] 4 0 (2 ^ 32 - 2).

Lemma wrapping_fifo_ok : kfifo_ok wrapping_fifo.
Proof.
  apply kfifo_ok_intro; [exists 2; split; [lia|done]|done|apply is_u32_0|unfold is_u32; lia|].
  vm_compute. congruence.
Qed.

Example kfifo_put_get_queue_witness : exists f',
  __kfifo_put wrapping_fifo [1; 2; 3] 3 = Some (f', 2) /\ contents f' = [10; 11; 1; 2].
Proof.
  destruct (kfifo_put_get_queue wrapping_fifo [1; 2; 3] 3 wrapping_fifo_ok) as [(f'&H&_&Hc) _];
    [simpl; lia|].
  exists f'. split; [exact H|exact Hc].
Defined.

(** C13. Every sequence of puts, gets, resets and length queries on a FIFO gives
    the answers of the bounded queue that starts with its contents. *)
Theorem kfifo_refines_bounded_queue f os :
  kfifo_ok f -> Forall op_ok os -> f_run f os = Some (q_run (size f) (contents f) os).
Proof.
  intros Hok Hos. revert f Hok. induction Hos as [|o os Ho _ IH]; intros f Hok; [done|].
  simpl. destruct (step_refines f o Hok Ho) as (f'&E&Hok'&Hs&Hc). rewrite E, some_bind.
  cbv beta iota. rewrite IH, some_bind by done. rewrite Hs, Hc.
  by destruct (q_step (size f) (contents f) o).
Qed.

Example kfifo_refines_bounded_queue_witness :
  f_run wrapping_fifo [Put [1; 2; 3]; Get 3; Len; Reset; Get 1] =
    Some [ACount 2; AData [10; 11; 1]; ACount 1; AUnit; AData []].
Proof.
  rewrite (kfifo_refines_bounded_queue wrapping_fifo); [reflexivity|apply wrapping_fifo_ok|].
  repeat constructor; vm_compute; congruence.
Defined.

(** [kfifo_alloc] rounds the size up to a power of two and returns an empty
    FIFO that satisfies the invariant, or -ENOMEM when either allocation fails. *)
Theorem kfifo_alloc_empty sz kmalloc ok :
  1 <= sz <= 2 ^ 31 -> (forall n b, kmalloc n = Some b -> zlen b = n) ->
  exists r, kfifo_alloc sz kmalloc ok = Some r /\
    match r with
    | inl e => e = - ENOMEM /\ (kmalloc (2 ^ Z.log2_up sz) = None \/ ok = false)
    | inr f => kfifo_ok f /\ size f = 2 ^ Z.log2_up sz /\ contents f = []
    end.
Proof.
  intros Hsz Hk. unfold kfifo_alloc.
  assert (Hround : (if negb (Z.land sz (u32 (sz - 1)) =? 0) then
      if sz >? 2147483648 then None else Some (__roundup_pow_of_two sz) else Some sz)
      = Some (2 ^ Z.log2_up sz)).
  { rewrite u32_small by (unfold is_u32; lia).
    destruct (Z.eqb_spec (Z.land sz (sz - 1)) 0) as [E|E]; simpl.
    - apply land_pred in E as (k&?&->); [|lia]. by rewrite Z.log2_up_pow2.
    - rewrite Z.gtb_ltb. destruct (Z.ltb_spec 2147483648 sz); [lia|].
      destruct (Z.eq_dec sz 1) as [->|]; [done|]. by rewrite roundup_pow_of_two_spec by lia. }
  rewrite Hround, some_bind.
  assert (Hlog : 0 <= Z.log2_up sz < 32).
  { split; [apply Z.log2_up_nonneg|]. assert (Z.log2_up sz <= Z.log2_up (2 ^ 31)) by (apply Z.log2_up_le_mono; lia).
    change (Z.log2_up (2 ^ 31)) with 31 in *. lia. }
  assert (Hp : 0 < 2 ^ Z.log2_up sz <= 2 ^ 31)
    by (split; [apply Z.pow_pos_nonneg; lia|apply Z.pow_le_mono_r; lia]).
  destruct (kmalloc (2 ^ Z.log2_up sz)) as [b|] eqn:Eb; [|eexists; split; [done|]; simpl; by auto].
  unfold kfifo_init.
  assert (is_power_of_2 (2 ^ Z.log2_up sz) = true) as ->
    by (apply is_power_of_2_true; [unfold is_u32; lia|eauto]).
  simpl. destruct ok; eexists; (split; [done|]); simpl; [|by auto].
  split; [|done]. apply kfifo_ok_intro; try apply is_u32_0; [eauto|by apply Hk|].
  change (u32 (0 - 0)) with 0. lia.
Qed.

Example kfifo_alloc_empty_witness :
  exists f, kfifo_alloc 5 (fun n => Some (replicate (Z.to_nat n) 7)) true = Some (inr f) /\
    kfifo_ok f /\ size f = 8.
Proof.
  destruct (kfifo_alloc_empty 5 (fun n => if 0 <=? n then Some (replicate (Z.to_nat n) 7) else None) true)
    as ([e|f]&H&Hr); [lia| | |].
  - intros n b. destruct (Z.leb_spec 0 n); [|congruence]. intros [= <-]. rewrite length_replicate. lia.
  - destruct Hr as [_ [Hr|Hr]]; vm_compute in Hr; congruence.
  - exists f. destruct Hr as (Hok&Hs&_). split; [exact H|]. split; [exact Hok|exact Hs].
Defined.

(** A size of zero is not rounded, so the power-of-two check stops the machine. *)
Example kfifo_alloc_zero : kfifo_alloc 0 (fun n => Some []) true = None.
Proof. reflexivity. Qed.

(** C12. With one reader and one writer and no lock, in every interleaving of
    their byte copies and index updates: what the reader got is a prefix of what
    the writer put, never more than the buffer size behind it, and the byte
    being read next is the one written at that place. *)
Theorem kfifo_lock_free_fifo f c :
  kfifo_ok f -> in_ f = 0 -> out f = 0 -> reachable f c ->
  (exists rest, written c = read c ++ rest /\ zlen rest <= size f) /\
  match r c with
  | R_idle => True
  | R_copy acc len => exists rest, written c = read c ++ acc ++ rest
  end.
Proof.
  intros Hok Hi Ho Hr. pose proof (reachable_ok f c Hok Hi Ho Hr) as [_ _ _ _ Hbd Hp _ _ Hrd].
  assert (Hsz : size (ring c) = size f).
  { clear -Hr. induction Hr as [|c c' _ IH Hs]; [done|]. by destruct Hs; simpl in *. }
  assert (Hsplit : written c = read c ++ drop (length (read c)) (written c)).
  { rewrite <- (take_drop (length (read c)) (written c)) at 1. f_equal.
    apply list_eq_Z. intros i Hi0. destruct (Z.ltb_spec i (zlen (read c))).
    - rewrite lookup_take_lt by lia. by rewrite Hp by lia.
    - rewrite lookup_ge_None_2 by (rewrite length_take; lia). by rewrite lookup_ge_None_2 by lia. }
  split.
  { eexists. split; [exact Hsplit|]. rewrite length_drop. lia. }
  destruct (r c) as [|acc len]; [done|]. destruct Hrd as (Hl&Hw&Hacc).
  exists (drop (length acc) (drop (length (read c)) (written c))).
  rewrite Hsplit at 1. f_equal.
  rewrite <- (take_drop (length acc) (drop _ _)) at 1. f_equal.
  apply list_eq_Z. intros i Hi0. destruct (Z.ltb_spec i (zlen acc)).
  - rewrite lookup_take_lt, lookup_drop by lia. rewrite Hacc by lia. f_equal. lia.
  - rewrite lookup_ge_None_2 by (rewrite length_take; lia). by rewrite lookup_ge_None_2 by lia.
Qed.

(** A put of one byte interleaved with a get. *)
Example kfifo_lock_free_fifo_witness :
  exists c, reachable (mk_kfifo [0; 0] 2 0 0) c /\ read c = [5] /\
    exists rest, written c = read c ++ rest /\ zlen rest <= 2.
Proof.
  set (f := mk_kfifo [0; 0] 2 0 0).
  assert (Hr : reachable f (mk_conf (mk_kfifo [5; 6] 2 1 1) (W_copy [6] 1 1) R_idle [5] [5])).
  { eapply reach_step; [eapply reach_step; [eapply reach_step; [eapply reach_step; [eapply reach_step;
      [eapply reach_step; [eapply reach_step; [eapply reach_step; [apply reach_init|]|]|]|]|]|]|]|].
    - apply (w_start f R_idle [] [] [5] 1). simpl; lia.
    - apply (w_byte f [5; 0] 5 R_idle [] [] [5] 1 0); [lia|reflexivity|reflexivity].
    - apply (w_publish (mk_kfifo [5; 0] 2 0 0) R_idle [] [] [5] 1).
    - apply (r_start (mk_kfifo [5; 0] 2 1 0) W_idle [5] [] 2). lia.
    - apply (w_start (mk_kfifo [5; 0] 2 1 0) (R_copy [] 1) [5] [] [6] 1). simpl; lia.
    - apply (r_byte (mk_kfifo [5; 0] 2 1 0) 5 (W_copy [6] 1 0) [5] [] [] 1); [simpl; lia|reflexivity].
    - apply (w_byte (mk_kfifo [5; 0] 2 1 0) [5; 6] 6 (R_copy [5] 1) [5] [] [6] 1 0);
        [lia|reflexivity|reflexivity].
    - apply (r_publish (mk_kfifo [5; 6] 2 1 0) (W_copy [6] 1 1) [5] [] [5] 1). reflexivity. }
  eexists. split; [exact Hr|]. split; [reflexivity|].
  assert (Hok : kfifo_ok f).
  { apply kfifo_ok_intro; [exists 1; split; [lia|reflexivity]|reflexivity|apply is_u32_0|apply is_u32_0|].
    vm_compute. congruence. }
  exact (proj1 (kfifo_lock_free_fifo f _ Hok eq_refl eq_refl Hr)).
Defined.
