(* ===== verification/Strtol.v ===== *)
(** * Reading numbers (lib/vsprintf.c, first part)

    A pointer into a string is the list of the bytes from it on; the functions
    return the number and the pointer stored in [*endp]. *)

From S2P Require Import Prelude Ctype.
From Stdlib Require Import Ascii String.

#[local] Open Scope char_scope.
#[local] Open Scope Z_scope.

(** The base and the start of the digits. *)
Definition strto_base (cp : list Z) (base : Z) : option (list Z * Z) :=
  if base =? 0 then
    c ← deref cp;
    if c =? ch "0" then
      let cp := tail cp in
      c ← deref cp;
      if toupper c =? ch "X" then
        d ← deref (tail cp);
        if isxdigit d then Some (tail cp, 16) else Some (cp, 8)
      else Some (cp, 8)
    else Some (cp, 10)
  else if base =? 16 then
    c ← deref cp;
    if c =? ch "0" then
      d ← deref (tail cp);
      if toupper d =? ch "X" then Some (tail (tail cp), base) else Some (cp, base)
    else Some (cp, base)
  else Some (cp, base).

Definition digit_value (c : Z) : Z :=
  if isdigit c then c - ch "0" else toupper c - ch "A" + 10.

(** [(islower(c) ? toupper(c) : c)] in the 64-bit variant *)
Definition digit_value_ll (c : Z) : Z :=
  if isdigit c then c - ch "0" else (if islower c then toupper c else c) - ch "A" + 10.

(** The digit loop; [wrap] is the width of [result] and [value]. *)
Fixpoint strto_digits (wrap : Z -> Z) (value : Z -> Z) (cp : list Z) (base result : Z)
    : option (Z * list Z) :=
  match cp with
  | [] => None
  | c :: cp' =>
    if isxdigit c && (wrap (value c) <? base)
    then strto_digits wrap value cp' base (wrap (wrap (result * base) + wrap (value c)))
    else Some (result, cp)
  end.

Definition simple_strtoul (cp : list Z) (base : Z) : option (Z * list Z) :=
  '(cp, base) ← strto_base cp base;
  strto_digits u32 digit_value cp base 0.

Definition simple_strtoull (cp : list Z) (base : Z) : option (Z * list Z) :=
  '(cp, base) ← strto_base cp base;
  strto_digits u64 digit_value_ll cp base 0.

Definition simple_strtol (cp : list Z) (base : Z) : option (Z * list Z) :=
  c ← deref cp;
  if c =? ch "-" then
    '(r, e) ← simple_strtoul (tail cp) base; Some (s32 (- r), e)
  else '(r, e) ← simple_strtoul cp base; Some (s32 r, e).

Definition simple_strtoll (cp : list Z) (base : Z) : option (Z * list Z) :=
  c ← deref cp;
  if c =? ch "-" then
    '(r, e) ← simple_strtoull (tail cp) base; Some (s64 (- r), e)
  else '(r, e) ← simple_strtoull cp base; Some (s64 r, e).

Fixpoint skip_atoi_loop (s : list Z) (i : Z) : option (Z * list Z) :=
  match s with
  | [] => None
  | c :: s' => if isdigit c then skip_atoi_loop s' (s32 (i * 10 + c - ch "0")) else Some (i, s)
  end.
Definition skip_atoi (s : list Z) : option (Z * list Z) := skip_atoi_loop s 0.

(** ** Reference: the value of a digit string *)

(** Digits, most significant first, with values below [base]. *)
Definition digit_char (d : Z) : Z := if d <? 10 then ch "0" + d else ch "a" + (d - 10).
Definition digits_value (base : Z) (ds : list Z) : Z :=
  foldl (fun acc d => acc * base + d) 0 ds.

(** ** Lemmas *)

Lemma digit_char_value d : 0 <= d < 16 ->
  isxdigit (digit_char d) = true /\ digit_value (digit_char d) = d /\
  digit_value_ll (digit_char d) = d /\ (d < 10 -> isdigit (digit_char d) = true) /\ is_u8 (digit_char d).
Proof.
  intros Hd.
  assert (H : (fun d => isxdigit (digit_char d) && (digit_value (digit_char d) =? d)
    && (digit_value_ll (digit_char d) =? d) && ((10 <=? d) || isdigit (digit_char d))
    && (0 <=? digit_char d) && (digit_char d <? 256)) d = true).
  { revert d Hd. apply forall_range. reflexivity. }
  cbv beta in H. bool_to_prop. repeat split; try done; try (unfold is_u8; lia).
  intros Hlt. destruct (Z.leb_spec 10 d); [lia|done].
Qed.

(** What stops the digit loop. *)
Definition stops (value : Z -> Z) (base : Z) (rest : list Z) : Prop :=
  match rest with
  | [] => False
  | c :: _ => isxdigit c = false \/ base <= value c
  end.

Lemma digits_value_app base ds d : digits_value base (ds ++ [d]) = digits_value base ds * base + d.
Proof. unfold digits_value. by rewrite foldl_app. Qed.

Lemma strto_digits_spec (wrap value : Z -> Z) M base ds rest acc :
  (forall z, wrap z = z mod M) -> 16 <= M -> 2 <= base <= 16 ->
  (forall d, 0 <= d < 16 -> value (digit_char d) = d) ->
  Forall (fun d => 0 <= d < base) ds ->
  (match rest with [] => False | c :: _ => isxdigit c = false \/ base <= wrap (value c) end) ->
  0 <= acc < M ->
  strto_digits wrap value (map digit_char ds ++ rest) base acc =
    Some (foldl (fun a d => a * base + d) acc ds mod M, rest).
Proof.
  intros Hw HM Hb Hv Hds Hstop. revert acc. induction Hds as [|d ds Hd _ IH]; intros acc Hacc; simpl.
  - rewrite Z.mod_small by done. destruct rest as [|c rest]; [done|]. simpl.
    destruct Hstop as [->|Hs]; [done|]. rewrite (proj2 (Z.ltb_ge _ _) Hs).
    by rewrite andb_false_r.
  - destruct (digit_char_value d) as (Hx&_); [lia|]. rewrite Hx, Hv by lia. simpl.
    assert (wrap d = d) as -> by (rewrite Hw; apply Z.mod_small; lia).
    destruct (Z.ltb_spec d base); [|lia].
    rewrite !Hw. rewrite IH by (apply Z.mod_pos_bound; lia). f_equal. f_equal.
    rewrite Zplus_mod_idemp_l. clear. revert acc.
    assert (Hm : forall l a, foldl (fun a d => a * base + d) (a mod M) l mod M =
      foldl (fun a d => a * base + d) a l mod M).
    { induction l as [|x l IHl]; intros a; simpl; [apply Zmod_mod|].
      rewrite <- (IHl (a mod M * base + x)), <- (IHl (a * base + x)). f_equal.
      f_equal. rewrite <- Zplus_mod_idemp_l, Zmult_mod_idemp_l, Zplus_mod_idemp_l. done. }
    intros acc. apply Hm.
Qed.
