(* ===== verification/Vsprintf.v ===== *)
(** * Formatted output (lib/vsprintf.c)

    The output object is a list with the 32-bit pointer [str], which wraps
    around; a character is stored only below [end].  The variadic arguments are a
    list of tagged values, read in order by [va_arg]; reading one with the wrong
    type is undefined ([None]).  The values stored through [%n] pointers are
    returned in order. *)

From S2P Require Import Prelude Bits Ctype StringLib Strtol.
From Stdlib Require Import Ascii String.
#[local] Abbreviation length := Datatypes.length.

#[local] Open Scope char_scope.
#[local] Open Scope Z_scope.

(** ** Decimal digits without division *)

(** The characters stored by [put_dec_trunc], least significant first. *)
Definition put_dec_trunc (q : Z) : list Z :=
  let d1 := Z.land (Z.shiftr q 4) 0xf in
  let d2 := Z.land (Z.shiftr q 8) 0xf in
  let d3 := Z.shiftr q 12 in
  let d0 := u32 (6 * (d3 + d2 + d1) + Z.land q 0xf) in
  let q := Z.shiftr (u32 (d0 * 0xcd)) 11 in
  let d0 := u32 (d0 - 10 * q) in
  let d1 := u32 (q + 9 * d3 + 5 * d2 + d1) in
  u8 (d0 + 48) ::
  if negb (d1 =? 0) then
    let q := Z.shiftr (u32 (d1 * 0xcd)) 11 in
    let d1 := u32 (d1 - 10 * q) in
    let d2 := u32 (q + 2 * d2) in
    u8 (d1 + 48) ::
    if negb (d2 =? 0) || negb (d3 =? 0) then
      let q := Z.shiftr (u32 (d2 * 0xd)) 7 in
      let d2 := u32 (d2 - 10 * q) in
      let d3 := u32 (q + 4 * d3) in
      u8 (d2 + 48) ::
      if negb (d3 =? 0) then
        let q := Z.shiftr (u32 (d3 * 0xcd)) 11 in
        let d3 := u32 (d3 - 10 * q) in
        u8 (d3 + 48) :: if negb (q =? 0) then [u8 (q + 48)] else []
      else []
    else []
  else [].

Definition put_dec_full (q : Z) : list Z :=
  let d1 := Z.land (Z.shiftr q 4) 0xf in
  let d2 := Z.land (Z.shiftr q 8) 0xf in
  let d3 := Z.shiftr q 12 in
  let d0 := u32 (6 * (d3 + d2 + d1) + Z.land q 0xf) in
  let q := Z.shiftr (u32 (d0 * 0xcd)) 11 in
  let d0 := u32 (d0 - 10 * q) in
  let d1 := u32 (q + 9 * d3 + 5 * d2 + d1) in
  let q := Z.shiftr (u32 (d1 * 0xcd)) 11 in
  let d1 := u32 (d1 - 10 * q) in
  let d2 := u32 (q + 2 * d2) in
  let q := Z.shiftr (u32 (d2 * 0xd)) 7 in
  let d2 := u32 (d2 - 10 * q) in
  let d3 := u32 (q + 4 * d3) in
  let q := Z.shiftr (u32 (d3 * 0xcd)) 11 in
  let d3 := u32 (d3 - 10 * q) in
  [u8 (d0 + 48); u8 (d1 + 48); u8 (d2 + 48); u8 (d3 + 48); u8 (q + 48)].

(** A 64-bit number has at most four groups of five digits: four turns suffice. *)
Fixpoint put_dec_loop (fuel : nat) (num : Z) : option (list Z) :=
  match fuel with
  | O => None
  | S fuel =>
    if num <? 100000 then Some (put_dec_trunc num) else
    '(num, rem) ← do_div num 100000;
    l ← put_dec_loop fuel num;
    Some (put_dec_full rem ++ l)
  end.
Definition put_dec (num : Z) : option (list Z) := put_dec_loop 5 num.

(** ** Output *)

Definition ZEROPAD : Z := 1.
Definition SIGN : Z := 2.
Definition PLUS : Z := 4.
Definition SPACE : Z := 8.
Definition LEFT : Z := 16.
Definition SPECIAL : Z := 32.
Definition LARGE : Z := 64.

Definition flag (type m : Z) : bool := negb (Z.land type m =? 0).

(** Where the output goes: the address of the buffer and [end], both 32-bit
    pointers. *)
Record dest := Dest { d_buf : Z; d_end : Z }.

(** The buffer and the pointer [str]. *)
Definition out := (list Z * Z)%type.

(** [if (str < end) *str = c; ++str;]: the pointer wraps around past the top
    of the address space; a store outside the buffer is undefined. *)
Definition emit (d : dest) (c : Z) (st : out) : option out :=
  let '(b, str) := st in
  if str <? d_end d then b ← wr b (str - d_buf d) c; Some (b, u32 (str + 1))
  else Some (b, u32 (str + 1)).

Fixpoint emit_list (d : dest) (cs : list Z) (st : out) : option out :=
  match cs with
  | [] => Some st
  | c :: cs => st ← emit d c st; emit_list d cs st
  end.

(** A loop storing [c], [n] times (none when [n] is negative). *)
Definition emit_n (d : dest) (n c : Z) (st : out) : option out :=
  emit_list d (replicate (Z.to_nat n) c) st.

(** [while (--size >= 0) { store c; }], with the value [size] is left with *)
Definition emit_while (d : dest) (size c : Z) (st : out) : option (out * Z) :=
  st ← emit_n d size c st; Some (st, Z.min (size - 1) (-1)).

Definition small_digits : list Z := text "0123456789abcdefx".
Definition large_digits : list Z := text "0123456789ABCDEFX".

(** The power-of-two bases: [do { ... } while (num);], at most 22 turns. *)
Fixpoint number_pow2 (fuel : nat) (digits : list Z) (num mask shift : Z) : option (list Z) :=
  match fuel with
  | O => None
  | S fuel =>
    d ← rd digits (Z.land (u8 num) mask);
    let num := Z.shiftr num shift in
    if negb (num =? 0) then l ← number_pow2 fuel digits num mask shift; Some (d :: l)
    else Some [d]
  end.

(** The digits in [tmp], least significant first; [i] is their number. *)
Definition number_digits (digits : list Z) (num base : Z) : option (list Z) :=
  if num =? 0 then Some [ch "0"]
  else if negb (base =? 10) then
    let mask := base - 1 in
    let shift := if base =? 16 then 4 else 3 in
    number_pow2 23 digits num mask shift
  else put_dec num.

(** The sign character, or 0, with the number and the field size left. *)
Definition number_sign (num size type : Z) : Z * Z * Z :=
  if flag type SIGN then
    if s64 num <? 0 then (ch "-", u64 (- s64 num), size - 1)
    else if flag type PLUS then (ch "+", num, size - 1)
    else if flag type SPACE then (ch " ", num, size - 1)
    else (0, num, size)
  else (0, num, size).

(** The pointer returned when the base is out of range is NULL; the callers
    pass 8, 10 or 16. *)
Definition number (d : dest) (st : out) (num base size precision type : Z) : option out :=
  let need_pfx := flag type SPECIAL && negb (base =? 10) in
  let digits := if flag type LARGE then large_digits else small_digits in
  let type := if flag type LEFT then Z.land type (Z.lnot ZEROPAD) else type in
  if (base <? 2) || (36 <? base) then None else
  let '(sign, num, size) := number_sign num size type in
  let size := if need_pfx then (if base =? 16 then size - 1 - 1 else size - 1) else size in
  tmp ← number_digits digits num base;
  let i := zlen tmp in
  let precision := if i >? precision then i else precision in
  let size := size - precision in
  '(st, size) ← (if negb (flag type (ZEROPAD + LEFT)) then emit_while d size (ch " ") st
                 else Some (st, size));
  st ← (if negb (sign =? 0) then emit d sign st else Some st);
  st ← (if need_pfx then
          st ← emit d (ch "0") st;
          if base =? 16 then x ← rd digits 16; emit d x st else Some st
        else Some st);
  '(st, size) ← (if negb (flag type LEFT) then
          emit_while d size (if flag type ZEROPAD then ch "0" else ch " ") st
        else Some (st, size));
  st ← emit_n d (precision - i) (ch "0") st;
  st ← emit_list d (rev tmp) st;
  '(st, size) ← emit_while d size (ch " ") st;
  Some st.

(** ** Arguments *)

Inductive va :=
| VWord (w : Z)                    (** int, long, size_t, ptrdiff_t or a pointer: 32 bits *)
| VLongLong (w : Z)                (** long long: 64 bits *)
| VStr (s : option (list Z))       (** a [char *]; [None] is a pointer into the first page *)
| VCount.                          (** the pointer [%n] stores through *)

Definition va_word (args : list va) : option (Z * list va) :=
  match args with VWord w :: args => Some (u32 w, args) | _ => None end.
Definition va_longlong (args : list va) : option (Z * list va) :=
  match args with VLongLong w :: args => Some (u64 w, args) | _ => None end.

(** ** The format *)

Fixpoint fmt_flags (fmt : list Z) (flags : Z) : option (list Z * Z) :=
  match fmt with
  | [] => None
  | c :: fmt' =>
    if c =? ch "-" then fmt_flags fmt' (Z.lor flags LEFT)
    else if c =? ch "+" then fmt_flags fmt' (Z.lor flags PLUS)
    else if c =? ch " " then fmt_flags fmt' (Z.lor flags SPACE)
    else if c =? ch "#" then fmt_flags fmt' (Z.lor flags SPECIAL)
    else if c =? ch "0" then fmt_flags fmt' (Z.lor flags ZEROPAD)
    else Some (fmt, flags)
  end.

Definition fmt_width (fmt : list Z) (flags : Z) (args : list va)
    : option (list Z * Z * Z * list va) :=
  c ← deref fmt;
  if isdigit c then '(n, fmt) ← skip_atoi fmt; Some (fmt, flags, n, args)
  else if c =? ch "*" then
    '(w, args) ← va_word args;
    let w := s32 w in
    if w <? 0 then Some (tail fmt, Z.lor flags LEFT, s32 (- w), args)
    else Some (tail fmt, flags, w, args)
  else Some (fmt, flags, -1, args).

Definition fmt_precision (fmt : list Z) (args : list va) : option (list Z * Z * list va) :=
  c ← deref fmt;
  if c =? ch "." then
    let fmt := tail fmt in
    c ← deref fmt;
    '(fmt, precision, args) ←
      (if isdigit c then '(n, fmt) ← skip_atoi fmt; Some (fmt, n, args)
       else if c =? ch "*" then '(w, args) ← va_word args; Some (tail fmt, s32 w, args)
       else Some (fmt, -1, args));
    Some (fmt, if precision <? 0 then 0 else precision, args)
  else Some (fmt, -1, args).

Definition is_qualifier (c : Z) : bool :=
  (c =? ch "h") || (c =? ch "l") || (c =? ch "L") || (c =? ch "Z") || (c =? ch "z") || (c =? ch "t").

(** [-1] when there is no qualifier *)
Definition fmt_qualifier (fmt : list Z) : option (list Z * Z) :=
  c ← deref fmt;
  if is_qualifier c then
    let fmt := tail fmt in
    d ← deref fmt;
    if (c =? ch "l") && (d =? ch "l") then Some (tail fmt, ch "L") else Some (fmt, c)
  else Some (fmt, -1).

(** The value of an integer conversion, as an [unsigned long long]. *)
Definition fmt_num (qualifier flags : Z) (args : list va) : option (Z * list va) :=
  if qualifier =? ch "L" then va_longlong args
  else if qualifier =? ch "l" then
    '(w, args) ← va_word args; Some (if flag flags SIGN then u64 (s32 w) else w, args)
  else if (qualifier =? ch "Z") || (qualifier =? ch "z") then va_word args
  else if qualifier =? ch "t" then '(w, args) ← va_word args; Some (u64 (s32 w), args)
  else if qualifier =? ch "h" then
    '(w, args) ← va_word args; Some (if flag flags SIGN then u64 (s16 (u16 w)) else u16 w, args)
  else '(w, args) ← va_word args; Some (if flag flags SIGN then u64 (s32 w) else w, args).

(** [case 'c'] *)
Definition conv_char (d : dest) (st : out) (flags field_width : Z) (args : list va)
    : option (out * list va) :=
  '(st, field_width) ←
    (if negb (flag flags LEFT) then
       st ← emit_n d (field_width - 1) (ch " ") st; Some (st, Z.min (field_width - 1) 0)
     else Some (st, field_width));
  '(w, args) ← va_word args;
  st ← emit d (u8 w) st;
  st ← emit_n d (field_width - 1) (ch " ") st;
  Some (st, args).

(** [case 's'] *)
Definition conv_string (d : dest) (st : out) (flags field_width precision : Z) (args : list va)
    : option (out * list va) :=
  match args with
  | VStr s :: args =>
    let s := match s with Some s => s | None => cstr "<NULL>" end in
    len ← strnlen s (u32 precision);
    '(st, field_width) ←
      (if negb (flag flags LEFT) then
         st ← emit_n d (field_width - len) (ch " ") st; Some (st, Z.min field_width len - 1)
       else Some (st, field_width));
    st ← emit_list d (take (Z.to_nat len) s) st;
    st ← emit_n d (field_width - len) (ch " ") st;
    Some (st, args)
  | _ => None
  end.

(** The base and flags of an integer conversion, [None] for other characters. *)
Definition fmt_base (c flags : Z) : option (Z * Z) :=
  if c =? ch "o" then Some (8, flags)
  else if c =? ch "X" then Some (16, Z.lor flags LARGE)
  else if c =? ch "x" then Some (16, flags)
  else if (c =? ch "d") || (c =? ch "i") then Some (10, Z.lor flags SIGN)
  else if c =? ch "u" then Some (10, flags)
  else None.

(** One conversion, [fmt] at its last character: the output, then the format
    after it, the remaining arguments and the values stored by [%n]. *)
Definition conversion (d : dest) (fmt : list Z) (args : list va) (stores : list Z) (st : out)
    (flags field_width precision qualifier : Z) : option (out * (list Z * list va * list Z)) :=
  c ← deref fmt;
  if c =? ch "c" then
    '(st, args) ← conv_char d st flags field_width args; Some (st, (tail fmt, args, stores))
  else if c =? ch "s" then
    '(st, args) ← conv_string d st flags field_width precision args;
    Some (st, (tail fmt, args, stores))
  else if c =? ch "p" then
    let '(field_width, flags) :=
      if field_width =? -1 then (8, Z.lor flags ZEROPAD) else (field_width, flags) in
    '(w, args) ← va_word args;
    st ← number d st w 16 field_width precision flags;
    Some (st, (tail fmt, args, stores))
  else if c =? ch "n" then
    match args with
    | VCount :: args => Some (st, (tail fmt, args, stores ++ [u32 (snd st - d_buf d)]))
    | _ => None
    end
  else if c =? ch "%" then st ← emit d c st; Some (st, (tail fmt, args, stores))
  else match fmt_base c flags with
  | Some (base, flags) =>
    '(num, args) ← fmt_num qualifier flags args;
    st ← number d st num base field_width precision flags;
    Some (st, (tail fmt, args, stores))
  | None =>
    st ← emit d (ch "%") st;
    if negb (c =? 0) then st ← emit d c st; Some (st, (tail fmt, args, stores))
    else Some (st, (fmt, args, stores))
  end.

(** [for (; *fmt ; ++fmt)]; each turn consumes a character, so the length of
    the format bounds the number of turns. *)
Fixpoint vsnprintf_loop (fuel : nat) (d : dest) (fmt : list Z) (args : list va)
    (stores : list Z) (st : out) : option (out * list Z) :=
  match fuel with
  | O => None
  | S fuel =>
    c ← deref fmt;
    if c =? 0 then Some (st, stores)
    else if negb (c =? ch "%") then
      st ← emit d c st; vsnprintf_loop fuel d (tail fmt) args stores st
    else
      '(fmt, flags) ← fmt_flags (tail fmt) 0;
      '(fmt, flags, field_width, args) ← fmt_width fmt flags args;
      '(fmt, precision, args) ← fmt_precision fmt args;
      '(fmt, qualifier) ← fmt_qualifier fmt;
      '(st, (fmt, args, stores)) ←
        conversion d fmt args stores st flags field_width precision qualifier;
      vsnprintf_loop fuel d fmt args stores st
  end.

(** The result is the output object, the returned length and the values stored
    by [%n].  [addr] is the address of [buf]: [end] must not wrap around. *)
Definition vsnprintf (addr : Z) (buf : list Z) (size : Z) (fmt : list Z) (args : list va)
    : option (list Z * Z * list Z) :=
  if s32 size <? 0 then Some (buf, 0, []) else
  let endp := u32 (addr + size) in
  let '(endp, size) := if endp <? addr then (2 ^ 32 - 1, 2 ^ 32 - 1 - addr) else (endp, size) in
  '((buf, str), stores) ←
    vsnprintf_loop (S (Datatypes.length fmt)) (Dest addr endp) fmt args [] (buf, addr);
  buf ← (if 0 <? size then
           if str <? endp then wr buf (str - addr) 0 else wr buf (endp - 1 - addr) 0
         else Some buf);
  Some (buf, s32 (str - addr), stores).

Definition vscnprintf (addr : Z) (buf : list Z) (size : Z) (fmt : list Z) (args : list va)
    : option (list Z * Z * list Z) :=
  '(buf, i, stores) ← vsnprintf addr buf size fmt args;
  Some (buf, if u32 i >=? size then s32 (u32 (size - 1)) else i, stores).

Definition snprintf := vsnprintf.
Definition scnprintf := vscnprintf.

Definition INT_MAX : Z := 2 ^ 31 - 1.
Definition vsprintf (addr : Z) (buf fmt : list Z) (args : list va) : option (list Z * Z * list Z) :=
  vsnprintf addr buf INT_MAX fmt args.
Definition sprintf := vsprintf.

(** ** Decimal digits: lemmas *)

(** The decimal digits of a number, least significant first. *)
Fixpoint dec_rev (fuel : nat) (n : Z) : list Z :=
  match fuel with
  | O => []
  | S fuel => if n <? 10 then [n] else n mod 10 :: dec_rev fuel (n / 10)
  end.

Definition to_char (d : Z) : Z := 48 + d.

(** The two multiply-and-shift divisions by ten. *)
Lemma div10_205 x : 0 <= x < 1000 -> Z.shiftr (u32 (x * 0xcd)) 11 = x / 10.
Proof.
  intros. rewrite u32_small by (unfold is_u32; lia). rewrite Z.shiftr_div_pow2 by lia.
  change (2 ^ 11) with 2048. Z.to_euclidean_division_equations; lia.
Qed.

Lemma div10_13 x : 0 <= x < 69 -> Z.shiftr (u32 (x * 0xd)) 7 = x / 10.
Proof.
  intros. rewrite u32_small by (unfold is_u32; lia). rewrite Z.shiftr_div_pow2 by lia.
  change (2 ^ 7) with 128. Z.to_euclidean_division_equations; lia.
Qed.

Lemma u32_mod10 x : 0 <= x < 1000 -> u32 (x - 10 * (x / 10)) = x mod 10.
Proof.
  intros. rewrite u32_small by (unfold is_u32; Z.to_euclidean_division_equations; lia).
  rewrite Z.mod_eq; lia.
Qed.

Lemma u8_char d : 0 <= d < 10 -> u8 (d + 48) = to_char d.
Proof. intros. rewrite u8_small by (unfold is_u8; lia). unfold to_char. lia. Qed.

(** The partial sums of the conversion, from the hexadecimal digits of [q]. *)
Lemma put_dec_sums q : 0 <= q < 100000 ->
  let a1 := Z.land (Z.shiftr q 4) 0xf in
  let a2 := Z.land (Z.shiftr q 8) 0xf in
  let d3 := Z.shiftr q 12 in
  let d0 := 6 * (d3 + a2 + a1) + Z.land q 0xf in
  let D1 := d0 / 10 + 9 * d3 + 5 * a2 + a1 in
  let D2 := D1 / 10 + 2 * a2 in
  let D3 := D2 / 10 + 4 * d3 in
  0 <= d0 < 1000 /\ 0 <= D1 < 1000 /\ 0 <= D2 < 69 /\ 0 <= D3 < 1000 /\ 0 <= d3 /\
  d0 mod 10 = q mod 10 /\ D1 mod 10 = q / 10 mod 10 /\ D2 mod 10 = q / 100 mod 10 /\
  D3 = q / 1000 /\ (D1 = 0 <-> q < 10) /\ (D2 = 0 /\ d3 = 0 <-> q < 100) /\ 0 <= a1 < 16 /\ 0 <= a2 < 16.
Proof.
  intros Hq. change 0xf with (2 ^ 4 - 1). rewrite !land_mask, !Z.shiftr_div_pow2 by lia.
  change (2 ^ 4) with 16. change (2 ^ 8) with 256. change (2 ^ 12) with 4096.
  assert (E : exists a0 a1 a2 a3, q = a0 + 16 * a1 + 256 * a2 + 4096 * a3 /\ 0 <= a0 < 16 /\
    0 <= a1 < 16 /\ 0 <= a2 < 16 /\ 0 <= a3 <= 24 /\ q mod 16 = a0 /\ q / 16 mod 16 = a1 /\
    q / 256 mod 16 = a2 /\ q / 4096 = a3).
  { exists (q mod 16), (q / 16 mod 16), (q / 256 mod 16), (q / 4096).
    Z.to_euclidean_division_equations; lia. }
  destruct E as (a0&a1&a2&a3&Eq&?&?&?&?&->&->&->&->). cbv zeta.
  set (d0 := 6 * (a3 + a2 + a1) + a0).
  assert (Hd0 : 0 <= d0 <= 339) by (unfold d0; lia).
  assert (E1 : q / 10 = d0 / 10 + a1 + 25 * a2 + 409 * a3).
  { replace q with (d0 + (a1 + 25 * a2 + 409 * a3) * 10) by (unfold d0; lia). rewrite Z.div_add; lia. }
  assert (E0 : q mod 10 = d0 mod 10).
  { replace q with (d0 + (a1 + 25 * a2 + 409 * a3) * 10) by (unfold d0; lia). apply Z.mod_add; lia. }
  assert (0 <= d0 / 10 <= 33) by (Z.to_euclidean_division_equations; lia).
  set (D1 := d0 / 10 + 9 * a3 + 5 * a2 + a1).
  assert (HD1 : 0 <= D1 <= 339) by (unfold D1; lia).
  assert (E2 : q / 100 = D1 / 10 + 2 * a2 + 40 * a3).
  { change 100 with (10 * 10). rewrite <- Z.div_div, E1 by lia.
    replace (d0 / 10 + a1 + 25 * a2 + 409 * a3) with (D1 + (2 * a2 + 40 * a3) * 10) by (unfold D1; lia).
    rewrite Z.div_add; lia. }
  assert (E1m : q / 10 mod 10 = D1 mod 10).
  { rewrite E1. replace (d0 / 10 + a1 + 25 * a2 + 409 * a3) with (D1 + (2 * a2 + 40 * a3) * 10)
      by (unfold D1; lia). apply Z.mod_add; lia. }
  assert (0 <= D1 / 10 <= 33) by (Z.to_euclidean_division_equations; lia).
  set (D2 := D1 / 10 + 2 * a2).
  assert (HD2 : 0 <= D2 <= 63) by (unfold D2; lia).
  assert (E3 : q / 1000 = D2 / 10 + 4 * a3).
  { change 1000 with (100 * 10). rewrite <- Z.div_div, E2 by lia.
    replace (D1 / 10 + 2 * a2 + 40 * a3) with (D2 + (4 * a3) * 10) by (unfold D2; lia).
    rewrite Z.div_add; lia. }
  assert (E2m : q / 100 mod 10 = D2 mod 10).
  { rewrite E2. replace (D1 / 10 + 2 * a2 + 40 * a3) with (D2 + (4 * a3) * 10) by (unfold D2; lia).
    apply Z.mod_add; lia. }
  assert (0 <= D2 / 10 <= 6) by (Z.to_euclidean_division_equations; lia).
  repeat split; try lia.
  - intros HD. assert (q / 10 = 0) by lia. Z.to_euclidean_division_equations; lia.
  - intros Hs. assert (q / 10 = 0) by (apply Z.div_small; lia). lia.
  - intros [HD Ha]. assert (q / 100 = 0) by lia. Z.to_euclidean_division_equations; lia.
  - assert (q / 100 = 0) by (apply Z.div_small; lia). lia.
Qed.

Lemma put_dec_full_spec q : 0 <= q < 100000 ->
  put_dec_full q = map to_char [q mod 10; q / 10 mod 10; q / 100 mod 10; q / 1000 mod 10; q / 10000].
Proof.
  intros Hq. pose proof (put_dec_sums q Hq) as HS. cbv zeta in HS. unfold put_dec_full. cbv zeta.
  destruct HS as (H0&H1&H2&H3&Hd3&E0&E1&E2&E3&_&_&Ha1&Ha2).
  set (a1 := Z.land (Z.shiftr q 4) 0xf) in *. set (a2 := Z.land (Z.shiftr q 8) 0xf) in *.
  set (d3 := Z.shiftr q 12) in *. set (d0 := 6 * (d3 + a2 + a1) + Z.land q 0xf) in *.
  rewrite (u32_small d0) by (unfold is_u32; lia). rewrite (div10_205 d0) by lia.
  set (D1 := d0 / 10 + 9 * d3 + 5 * a2 + a1) in *.
  rewrite (u32_small D1) by (unfold is_u32; lia). rewrite (div10_205 D1) by lia.
  set (D2 := D1 / 10 + 2 * a2) in *.
  rewrite (u32_small D2) by (unfold is_u32; lia). rewrite (div10_13 D2) by lia.
  set (D3 := D2 / 10 + 4 * d3) in *.
  rewrite (u32_small D3) by (unfold is_u32; lia). rewrite (div10_205 D3) by lia.
  rewrite !u32_mod10 by lia. rewrite E0, E1, E2, E3.
  rewrite !u8_char by (clear - Hq; Z.to_euclidean_division_equations; lia).
  simpl. do 4 f_equal. f_equal. unfold to_char. clear - Hq; Z.to_euclidean_division_equations; lia.
Qed.

Lemma put_dec_trunc_spec q : 0 <= q < 100000 ->
  put_dec_trunc q = map to_char (dec_rev 5 q).
Proof.
  intros Hq. pose proof (put_dec_sums q Hq) as HS. cbv zeta in HS. unfold put_dec_trunc. cbv zeta.
  destruct HS as (H0&H1&H2&H3&Hd3&E0&E1&E2&E3&Z1&Z2&Ha1&Ha2).
  set (a1 := Z.land (Z.shiftr q 4) 0xf) in *. set (a2 := Z.land (Z.shiftr q 8) 0xf) in *.
  set (d3 := Z.shiftr q 12) in *. set (d0 := 6 * (d3 + a2 + a1) + Z.land q 0xf) in *.
  rewrite (u32_small d0) by (unfold is_u32; lia). rewrite (div10_205 d0) by lia.
  set (D1 := d0 / 10 + 9 * d3 + 5 * a2 + a1) in *.
  rewrite (u32_small D1) by (unfold is_u32; lia). rewrite (div10_205 D1) by lia.
  set (D2 := D1 / 10 + 2 * a2) in *.
  rewrite (u32_small D2) by (unfold is_u32; lia). rewrite (div10_13 D2) by lia.
  set (D3 := D2 / 10 + 4 * d3) in *.
  rewrite (u32_small D3) by (unfold is_u32; lia). rewrite (div10_205 D3) by lia.
  rewrite !u32_mod10 by lia. rewrite E0, E1, E2, E3.
  rewrite !u8_char by (clear - Hq; Z.to_euclidean_division_equations; lia).
  assert (T1 : q / 10 / 10 = q / 100) by (clear; rewrite Z.div_div by lia; reflexivity).
  assert (T2 : q / 100 / 10 = q / 1000) by (clear; rewrite Z.div_div by lia; reflexivity).
  assert (T3 : q / 1000 / 10 = q / 10000) by (clear; rewrite Z.div_div by lia; reflexivity).
  clear E0 E1 E2 E3 H0 H1 H2 H3. clearbody D3 D2 D1 d0 d3 a1 a2.
  cbn [dec_rev]. destruct (Z.ltb_spec q 10) as [Hs|Hs].
  { rewrite (proj2 Z1 Hs). by rewrite Z.mod_small by lia. }
  destruct (Z.eqb_spec D1 0); [lia|]. cbn [negb map]. f_equal. rewrite T1.
  destruct (Z.ltb_spec (q / 10) 10) as [Hs1|Hs1].
  { destruct (proj2 Z2) as [-> ->]; [clear - Hs1; Z.to_euclidean_division_equations; lia|].
    cbn [negb orb Z.eqb map]. by rewrite Z.mod_small by (clear - Hq Hs1; Z.to_euclidean_division_equations; lia). }
  assert (100 <= q) by (clear - Hs1; Z.to_euclidean_division_equations; lia).
  replace (negb (D2 =? 0) || negb (d3 =? 0)) with true
    by (destruct (Z.eqb_spec D2 0), (Z.eqb_spec d3 0); simpl; (done || lia)).
  cbn [map]. f_equal. rewrite T2.
  destruct (Z.ltb_spec (q / 100) 10) as [Hs2|Hs2].
  { assert (q / 1000 = 0) as -> by (clear - Hq Hs2; Z.to_euclidean_division_equations; lia).
    cbn [negb Z.eqb map].
    by rewrite Z.mod_small by (clear - Hq Hs2; Z.to_euclidean_division_equations; lia). }
  assert (1 <= q / 1000) by (clear - Hs2; Z.to_euclidean_division_equations; lia).
  destruct (Z.eqb_spec (q / 1000) 0); [lia|]. cbn [negb map]. f_equal. rewrite T3.
  destruct (Z.ltb_spec (q / 1000) 10) as [Hs3|Hs3].
  { assert (q / 10000 = 0) as -> by (clear - Hq Hs3; Z.to_euclidean_division_equations; lia).
    cbn [negb Z.eqb map].
    by rewrite Z.mod_small by (clear - Hq Hs3; Z.to_euclidean_division_equations; lia). }
  assert (1 <= q / 10000 < 10) by (clear - Hq Hs3; Z.to_euclidean_division_equations; lia).
  destruct (Z.eqb_spec (q / 10000) 0); [lia|]. cbn [negb map].
  destruct (Z.ltb_spec (q / 10000) 10); [done|lia].
Qed.

Lemma dec_rev_fuel f1 f2 n : (0 < f1 <= f2)%nat -> 0 <= n < 10 ^ Z.of_nat f1 ->
  dec_rev f2 n = dec_rev f1 n.
Proof.
  revert f2 n. induction f1 as [|f1 IH]; intros [|f2] n Hf Hn; try lia; simpl.
  destruct (Z.ltb_spec n 10); [done|]. f_equal.
  destruct f1 as [|f1]; [simpl in Hn; lia|]. apply IH; [lia|].
  rewrite Nat2Z.inj_succ, Z.pow_succ_r in Hn by lia.
  split; [apply Z.div_pos; lia|apply Z.div_lt_upper_bound; lia].
Qed.

Lemma put_dec_loop_spec fuel num : 0 <= num < 100000 ^ Z.of_nat fuel -> (0 < fuel)%nat ->
  num < 2 ^ 64 -> put_dec_loop fuel num = Some (map to_char (dec_rev (5 * fuel) num)).
Proof.
  revert num. induction fuel as [|fuel IH]; intros num Hn Hf H64; [lia|]. cbn [put_dec_loop].
  destruct (Z.ltb_spec num 100000).
  - rewrite put_dec_trunc_spec by lia. do 2 f_equal. symmetry. apply dec_rev_fuel; lia.
  - rewrite do_div_correct by (unfold is_u64; lia). rewrite some_bind. cbv beta iota.
    destruct fuel as [|fuel]; [simpl in Hn; lia|].
    rewrite Nat2Z.inj_succ, Z.pow_succ_r in Hn by lia.
    assert (1 <= num / 100000 < 100000 ^ Z.of_nat (S fuel)).
    { split; [apply Z.div_le_lower_bound; lia|apply Z.div_lt_upper_bound; lia]. }
    assert (num / 100000 <= num) by (apply Z.div_le_upper_bound; lia).
    rewrite IH, some_bind by lia.
    rewrite put_dec_full_spec by (apply Z.mod_pos_bound; lia).
    rewrite <- map_app. do 2 f_equal.
    replace (5 * S (S fuel))%nat with (S (S (S (S (S (5 * S fuel)))))) by lia.
    assert (T : num / 10 / 10 / 10 / 10 / 10 = num / 100000) by (rewrite !Z.div_div by lia; done).
    rewrite <- T.
    cbn [dec_rev app].
    assert (Hlow : forall k, 0 < k -> 10 * k <= 100000 -> 10 <= num / k)
      by (intros; apply Z.div_le_lower_bound; lia).
    assert (10 <= num / 10) by (apply Hlow; lia).
    assert (10 <= num / 10 / 10) by (rewrite !Z.div_div by lia; apply Hlow; lia).
    assert (10 <= num / 10 / 10 / 10) by (rewrite !Z.div_div by lia; apply Hlow; lia).
    assert (10 <= num / 10 / 10 / 10 / 10) by (rewrite !Z.div_div by lia; apply Hlow; lia).
    repeat (match goal with |- context [?x <? 10] => destruct (Z.ltb_spec x 10); [lia|] end).
    do 4 (f_equal; [clear; Z.to_euclidean_division_equations; lia|]).
    f_equal. clear; Z.to_euclidean_division_equations; lia.
Qed.

(** ** Output: lemmas

    [over endp b p t] is the object [b] after the characters [t] have been
    stored from offset [p] on, those from [endp] on being dropped. *)
Fixpoint over (endp : Z) (b : list Z) (p : Z) (t : list Z) : list Z :=
  match t with
  | [] => b
  | c :: t => over endp (if p <? endp then <[Z.to_nat p := c]> b else b) (p + 1) t
  end.

Lemma over_length endp b p t : length (over endp b p t) = length b.
Proof.
  revert b p. induction t as [|c t IH]; intros b p; simpl; [done|].
  rewrite IH. destruct (p <? endp); [apply length_insert|done].
Qed.

Lemma over_app endp b p t1 t2 :
  over endp (over endp b p t1) (p + zlen t1) t2 = over endp b p (t1 ++ t2).
Proof.
  revert b p. induction t1 as [|c t1 IH]; intros b p; simpl; [f_equal; lia|].
  rewrite <- IH. f_equal. lia.
Qed.

Lemma over_lookup endp b p t k : 0 <= p -> 0 <= k < zlen b -> endp <= zlen b ->
  over endp b p t !! Z.to_nat k =
    if (p <=? k) && (k <? Z.min endp (p + zlen t)) then t !! Z.to_nat (k - p) else b !! Z.to_nat k.
Proof.
  intros Hp Hk He. revert b p Hp Hk He. induction t as [|c t IH]; intros b p Hp Hk He; simpl.
  { destruct (Z.leb_spec p k), (Z.ltb_spec k (Z.min endp (p + Z.of_nat 0))); simpl; (done || lia). }
  rewrite IH by (destruct (p <? endp); rewrite ?length_insert; lia).
  destruct (Z.eq_dec k p) as [->|].
  - replace (Z.to_nat (p - p)) with O by lia. simpl.
    destruct (Z.ltb_spec p endp).
    + rewrite list_lookup_insert_eq by lia. zcases; simpl; (done || lia).
    + zcases; simpl; (done || lia).
  - assert (Hb : (if p <? endp then <[Z.to_nat p:=c]> b else b) !! Z.to_nat k = b !! Z.to_nat k).
    { destruct (p <? endp); [apply list_lookup_insert_ne; lia|done]. }
    rewrite Hb. destruct (Z.leb_spec (p + 1) k), (Z.leb_spec p k); simpl; try (done || lia).
    replace (p + 1 + zlen t) with (p + Z.of_nat (S (length t))) by lia.
    destruct (Z.ltb_spec k (Z.min endp (p + Z.of_nat (S (length t))))); [|done].
    replace (Z.to_nat (k - p)) with (S (Z.to_nat (k - (p + 1)))) by lia. done.
Qed.

(** Writing from the start: the prefix that fits, then the old bytes. *)
Lemma over_prefix endp b t : 0 <= endp <= zlen b ->
  over endp b 0 t = take (Z.to_nat endp) t ++ drop (Z.to_nat (Z.min endp (zlen t))) b.
Proof.
  intros He. apply list_eq. intros i.
  destruct (decide (i < length b)%nat) as [Hi|Hi].
  2:{ rewrite !lookup_ge_None_2; [done|rewrite length_app, length_take, length_drop; lia|
      rewrite over_length; lia]. }
  rewrite <- (Nat2Z.id i), over_lookup by lia.
  destruct (Z.leb_spec 0 (Z.of_nat i)); [|lia]. cbn [andb]. rewrite Z.sub_0_r, Z.add_0_l.
  destruct (Z.ltb_spec (Z.of_nat i) (Z.min endp (zlen t))).
  - rewrite lookup_app_l by (rewrite length_take; lia). rewrite lookup_take_lt by lia. done.
  - rewrite lookup_app_r by (rewrite length_take; lia). rewrite length_take, lookup_drop.
    f_equal. lia.
Qed.

(** The pointer [p] characters after the start of the buffer. *)
Definition at_ (d : dest) (p : Z) : Z := u32 (d_buf d + p).

Lemma at_step d p : u32 (at_ d p + 1) = at_ d (p + 1).
Proof. unfold at_. rewrite u32_add_l. f_equal. lia. Qed.

Lemma emit_list_app d t1 t2 st : emit_list d (t1 ++ t2) st = emit_list d t1 st ≫= emit_list d t2.
Proof.
  revert st. induction t1 as [|c t1 IH]; intros st; [done|]. cbn [app emit_list].
  destruct (emit d c st); [|done]. by rewrite !some_bind, IH.
Qed.

(** The pointer moves by the length of the text, whatever is stored. *)
Lemma emit_list_at d t b p st' : emit_list d t (b, at_ d p) = Some st' ->
  exists b', st' = (b', at_ d (p + zlen t)).
Proof.
  revert b p. induction t as [|c t IH]; intros b p H; cbn [emit_list emit] in H.
  { simplify_eq. exists b. by rewrite Z.add_0_r. }
  rewrite at_step in H.
  assert (Hn : exists b1, emit_list d t (b1, at_ d (p + 1)) = Some st').
  { destruct (at_ d p <? d_end d); [|rewrite some_bind in H; by exists b].
    destruct (wr b _ c) as [b1|]; [|done]. rewrite !some_bind in H. by exists b1. }
  destruct Hn as [b1 Hn]. destruct (IH _ _ Hn) as [b' ->]. exists b'. do 2 f_equal.
  simpl. lia.
Qed.

(** Laid below the top of the address space, a text leaves its prefix that
    fits in the object. *)
Lemma emit_list_over d t b p : 0 <= d_buf d -> 0 <= p -> d_buf d + p + zlen t < 2 ^ 32 ->
  d_end d - d_buf d <= zlen b ->
  emit_list d t (b, at_ d p) = Some (over (d_end d - d_buf d) b p t, at_ d (p + zlen t)).
Proof.
  revert b p. induction t as [|c t IH]; intros b p Hd Hp Ht He; cbn [emit_list emit over].
  { by rewrite Z.add_0_r. }
  rewrite at_step. cbn [length] in Ht.
  assert (Ha : at_ d p = d_buf d + p) by (apply u32_small; unfold is_u32; lia).
  replace (p + zlen (c :: t)) with (p + 1 + zlen t) by (simpl; lia). rewrite Ha.
  replace (d_buf d + p - d_buf d) with p by lia.
  destruct (Z.ltb_spec (d_buf d + p) (d_end d)), (Z.ltb_spec p (d_end d - d_buf d)); try lia.
  - rewrite wr_Some, !some_bind by lia. apply IH; rewrite ?length_insert; lia.
  - rewrite some_bind. apply IH; lia.
Qed.

(** With no buffer nothing is stored and the text is only counted. *)
Lemma emit_list_none d t b p : d_end d <= 0 -> emit_list d t (b, at_ d p) = Some (b, at_ d (p + zlen t)).
Proof.
  intros He. revert p. induction t as [|c t IH]; intros p; cbn [emit_list emit].
  { by rewrite Z.add_0_r. }
  destruct (Z.ltb_spec (at_ d p) (d_end d)).
  { pose proof (u32_range (d_buf d + p)) as Hr. unfold is_u32, at_ in *. lia. }
  rewrite some_bind, at_step, IH. do 3 f_equal. simpl. lia.
Qed.

(** A piece of the formatter is uniform when the text it appends, and its
    other results, do not depend on the output object or on where it is. *)
Definition uni (F : dest -> out -> option out) : Prop := forall p,
  (forall d b, F d (b, at_ d p) = None) \/
  exists t, forall d b, F d (b, at_ d p) = emit_list d t (b, at_ d p).

Definition uniX {X} (F : dest -> out -> option (out * X)) : Prop := forall p,
  (forall d b, F d (b, at_ d p) = None) \/
  exists t x, forall d b,
    F d (b, at_ d p) = emit_list d t (b, at_ d p) ≫= (fun st => Some (st, x)).

Lemma uni_ret : uni (fun _ st => Some st).
Proof. intros p. right. by exists []. Qed.

Lemma uniX_ret {X} (x : X) : uniX (fun _ st => Some (st, x)).
Proof. intros p. right. by exists [], x. Qed.

Lemma uniX_none {X} : uniX (fun _ _ => None : option (out * X)).
Proof. intros p. by left. Qed.

Lemma uni_none : uni (fun _ _ => None).
Proof. intros p. by left. Qed.

(** [%n] reads the position only. *)
Lemma uniX_pos {X} (f : Z -> X) : uniX (fun d st => Some (st, f (u32 (snd st - d_buf d)))).
Proof.
  intros p. right. exists [], (f (u32 p)). intros. cbn [emit_list snd]. rewrite some_bind.
  unfold at_. rewrite u32_sub_l. do 5 f_equal. lia.
Qed.

(** Two texts after each other, up to what is done with the state they leave. *)
Lemma uni_seq {A} (K : dest -> out -> option A) p t :
  (forall d b, K d (b, at_ d (p + zlen t)) = None) ->
  forall d b, emit_list d t (b, at_ d p) ≫= K d = None.
Proof.
  intros HN d b. destruct (emit_list d t (b, at_ d p)) as [st|] eqn:E; [|done].
  rewrite some_bind. destruct (emit_list_at _ _ _ _ _ E) as [b' ->]. apply HN.
Qed.

Lemma uni_seq' {A} (K : dest -> out -> option A) (r : out -> option A) p t t' :
  (forall d b, K d (b, at_ d (p + zlen t)) = emit_list d t' (b, at_ d (p + zlen t)) ≫= r) ->
  forall d b, emit_list d t (b, at_ d p) ≫= K d = emit_list d (t ++ t') (b, at_ d p) ≫= r.
Proof.
  intros HK d b. rewrite emit_list_app. destruct (emit_list d t (b, at_ d p)) as [st|] eqn:E; [|done].
  rewrite !some_bind. destruct (emit_list_at _ _ _ _ _ E) as [b' ->]. apply HK.
Qed.

Lemma bind_some {A} (o : option A) : o ≫= Some = o.
Proof. by destruct o. Qed.

Lemma uni_bind F (K : dest -> out -> option out) :
  uni F -> uni K -> uni (fun d st => F d st ≫= K d).
Proof.
  intros HF HK p. destruct (HF p) as [HN|[t Ht]].
  { left. intros. by rewrite HN. }
  destruct (HK (p + zlen t)) as [HN|[t' Ht']].
  - left. intros. rewrite Ht. by apply uni_seq.
  - right. exists (t ++ t'). intros. rewrite Ht, (uni_seq' K Some p t t'); [by rewrite bind_some|].
    intros. by rewrite Ht', bind_some.
Qed.

Lemma uni_bindX {X} F (K : dest -> out -> option (out * X)) :
  uni F -> uniX K -> uniX (fun d st => F d st ≫= K d).
Proof.
  intros HF HK p. destruct (HF p) as [HN|[t Ht]].
  { left. intros. by rewrite HN. }
  destruct (HK (p + zlen t)) as [HN|(t'&x&Ht')].
  - left. intros. rewrite Ht. by apply uni_seq.
  - right. exists (t ++ t'), x. intros. rewrite Ht. by apply uni_seq'.
Qed.

Lemma uniX_seq {X A} (F : dest -> out -> option (out * X)) (K : dest -> out * X -> option A) p t x :
  (forall d b, F d (b, at_ d p) = emit_list d t (b, at_ d p) ≫= (fun st => Some (st, x))) ->
  forall d b, F d (b, at_ d p) ≫= K d = emit_list d t (b, at_ d p) ≫= (fun st => K d (st, x)).
Proof. intros Ht d b. rewrite Ht. by destruct (emit_list d t (b, at_ d p)). Qed.

Lemma uniX_bind {X} (F : dest -> out -> option (out * X)) (K : dest -> out * X -> option out) :
  uniX F -> (forall x, uni (fun d st => K d (st, x))) -> uni (fun d st => F d st ≫= K d).
Proof.
  intros HF HK p. destruct (HF p) as [HN|(t&x&Ht)].
  { left. intros. by rewrite HN. }
  destruct (uni_bind (fun d => emit_list d t) (fun d st => K d (st, x))) with (p := p) as [HN|[t' Ht']].
  - intros q. right. by exists t.
  - apply HK.
  - left. intros. rewrite (uniX_seq F K p t x Ht). apply HN.
  - right. exists t'. intros. rewrite (uniX_seq F K p t x Ht). apply Ht'.
Qed.

Lemma uniX_bindX {X Y} (F : dest -> out -> option (out * X)) (K : dest -> out * X -> option (out * Y)) :
  uniX F -> (forall x, uniX (fun d st => K d (st, x))) -> uniX (fun d st => F d st ≫= K d).
Proof.
  intros HF HK p. destruct (HF p) as [HN|(t&x&Ht)].
  { left. intros. by rewrite HN. }
  destruct (uni_bindX (fun d => emit_list d t) (fun d st => K d (st, x))) with (p := p) as [HN|(t'&y&Ht')].
  - intros q. right. by exists t.
  - apply HK.
  - left. intros. rewrite (uniX_seq F K p t x Ht). apply HN.
  - right. exists t', y. intros. rewrite (uniX_seq F K p t x Ht). apply Ht'.
Qed.

(** A computation that does not touch the output. *)
Lemma uni_opt {A} (o : option A) (K : A -> dest -> out -> option out) :
  (forall a, uni (K a)) -> uni (fun d st => o ≫= (fun a => K a d st)).
Proof. intros HK. destruct o as [a|]; [apply (HK a)|apply uni_none]. Qed.

Lemma uniX_opt {A X} (o : option A) (K : A -> dest -> out -> option (out * X)) :
  (forall a, uniX (K a)) -> uniX (fun d st => o ≫= (fun a => K a d st)).
Proof. intros HK. destruct o as [a|]; [apply (HK a)|apply uniX_none]. Qed.

Lemma uni_emit c : uni (fun d st => emit d c st).
Proof. intros p. right. exists [c]. intros. cbn [emit_list]. by rewrite bind_some. Qed.

Lemma uni_emit_list t : uni (fun d st => emit_list d t st).
Proof. intros p. right. by exists t. Qed.

Lemma uni_emit_n n c : uni (fun d st => emit_n d n c st).
Proof. apply uni_emit_list. Qed.

Lemma uniX_emit_while size c : uniX (fun d st => emit_while d size c st).
Proof. apply (uni_bindX _ (fun _ st => Some (st, _))); [apply uni_emit_n|apply uniX_ret]. Qed.

Create HintDb uniform.
#[export] Hint Resolve uni_ret uni_emit uni_emit_list uni_emit_n uni_none : uniform.
#[export] Hint Resolve uniX_ret uniX_emit_while uniX_none : uniform.

(** The next piece of a sequence of effects. *)
Ltac uni_step := first
  [ apply (uni_bind (fun d st => _) (fun d st => _))
  | apply (uni_bindX (fun d st => _) (fun d st => _)) ].
Ltac uniX_step := first
  [ apply (uniX_bind (fun d st => _) (fun d p => _))
  | apply (uniX_bindX (fun d st => _) (fun d p => _)) ].

Lemma uni_number num base size precision type :
  uni (fun d st => number d st num base size precision type).
Proof.
  unfold number. cbv zeta.
  destruct ((base <? 2) || (36 <? base)); [apply uni_none|].
  destruct (number_sign _ _ _) as [[sign n] sz].
  apply (uni_opt _ (fun tmp d st => _)). intros tmp.
  apply (uniX_bind (fun d st => _) (fun d p => _)).
  { destruct (negb _); auto with uniform. }
  intros sz2. cbv beta iota.
  apply (uni_bind (fun d st => _) (fun d st => _)).
  { destruct (negb _); auto with uniform. }
  apply (uni_bind (fun d st => _) (fun d st => _)).
  { destruct (_ && _); [|auto with uniform].
    apply (uni_bind (fun d st => _) (fun d st => _)); [auto with uniform|].
    destruct (base =? 16); [|auto with uniform].
    apply (uni_opt _ (fun x d st => _)). intros. auto with uniform. }
  apply (uniX_bind (fun d st => _) (fun d p => _)).
  { destruct (negb _); [|auto with uniform]. auto with uniform. }
  intros sz3. cbv beta iota.
  apply (uni_bind (fun d st => _) (fun d st => _)); [auto with uniform|].
  apply (uni_bind (fun d st => _) (fun d st => _)); [auto with uniform|].
  apply (uniX_bind (fun d st => _) (fun d p => _)); auto with uniform.
Qed.

#[export] Hint Resolve uni_number : uniform.

Lemma uniX_conv_char flags field_width args :
  uniX (fun d st => conv_char d st flags field_width args).
Proof.
  unfold conv_char. uniX_step.
  { destruct (negb _); [|auto with uniform]. uni_step; auto with uniform. }
  intros w. cbv beta iota.
  apply (uniX_opt _ (fun a d st => _)). intros [c args']. cbv beta iota.
  uni_step; [auto with uniform|]. uni_step; auto with uniform.
Qed.

Lemma uniX_conv_string flags field_width precision args :
  uniX (fun d st => conv_string d st flags field_width precision args).
Proof.
  unfold conv_string. destruct args as [|[| |s|] args]; auto with uniform.
  apply (uniX_opt _ (fun a d st => _)). intros len. cbv beta iota.
  uniX_step.
  { destruct (negb _); [|auto with uniform]. uni_step; auto with uniform. }
  intros w. cbv beta iota.
  uni_step; [auto with uniform|]. uni_step; auto with uniform.
Qed.

#[export] Hint Resolve uniX_conv_char uniX_conv_string : uniform.

Lemma uniX_conversion fmt args stores flags field_width precision qualifier :
  uniX (fun d st => conversion d fmt args stores st flags field_width precision qualifier).
Proof.
  unfold conversion. apply (uniX_opt _ (fun c d st => _)). intros c.
  destruct (c =? ch "c").
  { uniX_step; [auto with uniform|]. intros x. cbv beta iota. auto with uniform. }
  destruct (c =? ch "s").
  { uniX_step; [auto with uniform|]. intros x. cbv beta iota. auto with uniform. }
  destruct (c =? ch "p").
  { destruct (if field_width =? -1 then _ else _) as [w fl].
    apply (uniX_opt _ (fun a d st => _)). intros [v args']. cbv beta iota.
    uni_step; auto with uniform. }
  destruct (c =? ch "n").
  { destruct args as [|[| |s|] args]; auto with uniform.
    apply (uniX_pos (fun p => (tail fmt, args, stores ++ [p]))). }
  destruct (c =? ch "%"); [uni_step; auto with uniform|].
  destruct (fmt_base c flags) as [[base fl]|].
  - apply (uniX_opt _ (fun a d st => _)). intros [v args']. cbv beta iota.
    uni_step; auto with uniform.
  - uni_step; [auto with uniform|]. destruct (negb _); [|auto with uniform].
    uni_step; auto with uniform.
Qed.

Lemma uniX_vsnprintf_loop fuel fmt args stores :
  uniX (fun d st => vsnprintf_loop fuel d fmt args stores st).
Proof.
  revert fmt args stores. induction fuel as [|fuel IH]; intros fmt args stores; simpl; [apply uniX_none|].
  apply (uniX_opt _ (fun c d st => _)). intros c.
  destruct (c =? 0); [auto with uniform|]. destruct (negb _).
  { uni_step; auto with uniform. }
  apply (uniX_opt _ (fun a d st => _)). intros [fmt1 fl]. cbv beta iota.
  apply (uniX_opt _ (fun a d st => _)). intros [[[fmt2 fl2] w] args2]. cbv beta iota.
  apply (uniX_opt _ (fun a d st => _)). intros [[fmt3 prec] args3]. cbv beta iota.
  apply (uniX_opt _ (fun a d st => _)). intros [fmt4 q]. cbv beta iota.
  uniX_step; [apply uniX_conversion|]. intros [[fmt5 args5] st5]. cbv beta iota. apply IH.
Qed.

(** What the formatter appends is a text that depends on the format and the
    arguments alone. *)
Lemma vsnprintf_loop_text fuel fmt args stores :
  (forall d b, is_u32 (d_buf d) -> vsnprintf_loop fuel d fmt args stores (b, d_buf d) = None) \/
  exists t ss, forall d b, is_u32 (d_buf d) ->
    vsnprintf_loop fuel d fmt args stores (b, d_buf d) =
      emit_list d t (b, d_buf d) ≫= (fun st => Some (st, ss)).
Proof.
  assert (H0 : forall d, is_u32 (d_buf d) -> d_buf d = at_ d 0).
  { intros d Hd. unfold at_. by rewrite Z.add_0_r, u32_small. }
  destruct (uniX_vsnprintf_loop fuel fmt args stores 0) as [HN|(t&ss&Ht)].
  - left. intros d b Hd. specialize (HN d b). by rewrite <- (H0 d Hd) in HN.
  - right. exists t, ss. intros d b Hd. specialize (Ht d b). by rewrite <- (H0 d Hd) in Ht.
Qed.

(** ** Numbers: lemmas *)

(** The digits of a number in a base, least significant first. *)
Fixpoint base_rev (base : Z) (fuel : nat) (n : Z) : list Z :=
  match fuel with
  | O => []
  | S fuel => if n <? base then [n] else n mod base :: base_rev base fuel (n / base)
  end.

Lemma base_rev_bound base fuel n : 2 <= base -> 0 <= n ->
  Forall (fun d => 0 <= d < base) (base_rev base fuel n).
Proof.
  intros Hb. revert n. induction fuel as [|fuel IH]; intros n Hn; simpl; [constructor|].
  destruct (Z.ltb_spec n base); [repeat constructor; lia|]. constructor.
  - apply Z.mod_pos_bound; lia.
  - apply IH, Z.div_pos; lia.
Qed.

Lemma base_rev_value base fuel n : 2 <= base -> 0 <= n < base ^ Z.of_nat fuel -> (0 < fuel)%nat ->
  digits_value base (rev (base_rev base fuel n)) = n.
Proof.
  intros Hb. revert n. induction fuel as [|fuel IH]; intros n Hn Hf; [lia|]. simpl.
  destruct (Z.ltb_spec n base); [done|]. simpl. rewrite digits_value_app.
  destruct fuel as [|fuel]; [simpl in Hn; lia|].
  rewrite IH; [rewrite (Z.div_mod n base) at 3; lia| |lia].
  rewrite Nat2Z.inj_succ, Z.pow_succ_r in Hn by lia.
  split; [apply Z.div_pos; lia|apply Z.div_lt_upper_bound; lia].
Qed.

Lemma base_rev_length base fuel n : zlen (base_rev base fuel n) <= Z.of_nat fuel.
Proof.
  revert n. induction fuel as [|fuel IH]; intros n; simpl; [lia|].
  destruct (n <? base); simpl; [lia|]. specialize (IH (n / base)). lia.
Qed.

Lemma base_rev_pos base fuel n : (0 < length (base_rev base (S fuel) n))%nat.
Proof. simpl. destruct (n <? base); simpl; lia. Qed.

Lemma base_rev_dec fuel n : 0 <= n -> map to_char (dec_rev fuel n) = map digit_char (base_rev 10 fuel n).
Proof.
  revert n. induction fuel as [|fuel IH]; intros n Hn; simpl; [done|].
  assert (forall d, d < 10 -> to_char d = digit_char d) as E.
  { intros d Hd. unfold to_char, digit_char. by destruct (Z.ltb_spec d 10); [|lia]. }
  destruct (Z.ltb_spec n 10); simpl; [by rewrite E|].
  rewrite E by (apply Z.mod_pos_bound; lia). f_equal. apply IH, Z.div_pos; lia.
Qed.

Lemma put_dec_spec num : is_u64 num -> put_dec num = Some (map digit_char (base_rev 10 25 num)).
Proof.
  unfold is_u64. intros H. unfold put_dec. rewrite put_dec_loop_spec by lia.
  by rewrite base_rev_dec by lia.
Qed.

Lemma small_digit d : 0 <= d < 16 -> rd small_digits d = Some (digit_char d).
Proof.
  intros Hd.
  assert (H : (fun d => bool_decide (rd small_digits d = Some (digit_char d))) d = true).
  { revert d Hd. apply forall_range. reflexivity. }
  by apply bool_decide_eq_true in H.
Qed.

(** The digits of the power-of-two bases, most 23 of them. *)
Lemma number_pow2_spec fuel num shift : 0 < shift <= 4 -> 0 <= num < 2 ^ (shift * Z.of_nat fuel) ->
  (0 < fuel)%nat ->
  number_pow2 fuel small_digits num (2 ^ shift - 1) shift =
    Some (map digit_char (base_rev (2 ^ shift) fuel num)).
Proof.
  intros Hs. revert num. induction fuel as [|fuel IH]; intros num Hn Hf; [lia|]. cbn [number_pow2 base_rev].
  assert (2 <= 2 ^ shift <= 16).
  { split; [change 2 with (2 ^ 1) at 1|change 16 with (2 ^ 4)]; apply Z.pow_le_mono_r; lia. }
  assert (E : Z.land (u8 num) (2 ^ shift - 1) = num mod 2 ^ shift).
  { rewrite land_mask by lia. unfold u8. apply Z.bits_inj'. intros i Hi.
    change 256 with (2 ^ 8). rewrite !Z.testbit_mod_pow2 by lia.
    destruct (Z.ltb_spec i shift), (Z.ltb_spec i 8); simpl; (done || lia). }
  rewrite E, small_digit by (split; [apply Z.mod_pos_bound|pose proof (Z.mod_pos_bound num (2 ^ shift))]; lia).
  rewrite some_bind, Z.shiftr_div_pow2 by lia.
  destruct (Z.ltb_spec num (2 ^ shift)).
  - rewrite Z.div_small, Z.mod_small by lia. done.
  - assert (1 <= num / 2 ^ shift) by (apply Z.div_le_lower_bound; lia).
    destruct (Z.eqb_spec (num / 2 ^ shift) 0); [lia|]. cbn [negb].
    assert (Hd : num / 2 ^ shift < 2 ^ (shift * Z.of_nat fuel)).
    { apply Z.div_lt_upper_bound; [lia|]. rewrite <- Z.pow_add_r by lia.
      replace (shift + shift * Z.of_nat fuel) with (shift * Z.of_nat (S fuel)) by lia. lia. }
    destruct fuel as [|fuel]; [rewrite Z.mul_0_r in Hd; simpl in Hd; lia|].
    by rewrite IH by lia.
Qed.

Definition std_base (base : Z) : Prop := base = 8 \/ base = 10 \/ base = 16.

(** The digits stored in [tmp]: the number in its base, backwards. *)
Lemma number_digits_spec num base : is_u64 num -> std_base base ->
  number_digits small_digits num base = Some (map digit_char (base_rev base 25 num)).
Proof.
  intros Hn Hb. unfold number_digits. destruct (Z.eqb_spec num 0) as [->|].
  { destruct Hb as [->|[->| ->]]; reflexivity. }
  unfold is_u64 in Hn.
  assert (Hx : forall sh f, 0 < sh <= 4 -> 2 ^ 64 <= 2 ^ (sh * Z.of_nat f) -> (0 < f <= 25)%nat ->
     base_rev (2 ^ sh) 25 num = base_rev (2 ^ sh) f num).
  { intros sh f Hs Hf Hf'. clear n Hb.
    assert (G : forall f1 f2 m, (0 < f1 <= f2)%nat -> 0 <= m < (2 ^ sh) ^ Z.of_nat f1 ->
      base_rev (2 ^ sh) f2 m = base_rev (2 ^ sh) f1 m).
    { induction f1 as [|f1 IH]; intros [|f2] m Hff Hm; try lia; simpl.
      destruct (Z.ltb_spec m (2 ^ sh)); [done|]. f_equal.
      destruct f1 as [|f1]; [simpl in Hm; lia|]. apply IH; [lia|].
      rewrite Nat2Z.inj_succ, Z.pow_succ_r in Hm by lia.
      split; [apply Z.div_pos; lia|apply Z.div_lt_upper_bound; lia]. }
    apply G; [lia|]. rewrite <- Z.pow_mul_r by lia. lia. }
  destruct Hb as [->|[->| ->]]; cbn [Z.eqb negb Z.sub Z.add Z.opp Z.pos_sub Pos.eqb].
  - change 8 with (2 ^ 3). rewrite (Hx 3 23%nat) by lia. apply (number_pow2_spec 23 num 3); lia.
  - by apply put_dec_spec.
  - change 16 with (2 ^ 4). rewrite (Hx 4 23%nat) by lia. apply (number_pow2_spec 23 num 4); lia.
Qed.

(** Without width, precision and flags the characters are the sign and the digits. *)
Lemma number_plain d st num base : is_u64 num -> std_base base ->
  number d st num base (-1) (-1) 0 = emit_list d (rev (map digit_char (base_rev base 25 num))) st.
Proof.
  intros Hn Hb. unfold number. cbv zeta.
  replace ((base <? 2) || (36 <? base)) with false by (destruct Hb as [->|[->| ->]]; reflexivity).
  change (number_sign num (-1) (if flag 0 LEFT then Z.land 0 (Z.lnot ZEROPAD) else 0)) with (0, num, -1).
  cbv beta iota. change (flag 0 LARGE) with false. cbv iota.
  rewrite number_digits_spec, some_bind by done.
  set (tmp := map digit_char _).
  change (flag 0 SPECIAL) with false. change (flag 0 LEFT) with false.
  cbn [andb negb Z.eqb]. cbv iota.
  change (flag 0 (ZEROPAD + LEFT)) with false. cbn [negb]. 
  destruct (Z.gtb_spec (zlen tmp) (-1)); [|lia].
  unfold emit_while, emit_n. rewrite Z.sub_diag.
  replace (Z.to_nat (-1 - zlen tmp)) with O by lia.
  change (flag 0 ZEROPAD) with false. cbn [replicate emit_list Z.to_nat].
  rewrite !some_bind. cbn [emit_list replicate]. cbv beta iota. rewrite ?some_bind.
  cbn [negb emit_list replicate]. cbv beta iota.
  change (flag 0 LEFT) with false. cbn [negb].
  replace (Z.to_nat ((-1 - zlen tmp - 1) `min` (-1))) with O by lia.
  cbn [emit_list replicate]. rewrite !some_bind. change (Z.to_nat 0) with O. cbn [emit_list replicate]. rewrite !some_bind.
  destruct (emit_list d (rev tmp) st) as [st2|]; [|done]. rewrite some_bind.
  by replace (Z.to_nat (((-1 - zlen tmp - 1) `min` (-1) - 1) `min` (-1))) with O by lia.
Qed.

(** The formats of the round trip, with their base. *)
Definition conv_format (base : Z) : list Z :=
  if base =? 8 then cstr "%llo" else if base =? 10 then cstr "%llu" else cstr "%llx".

Lemma conv_format_loop base n d st : std_base base ->
  vsnprintf_loop (S (length (conv_format base))) d (conv_format base) [VLongLong n] [] st =
    number d st (u64 n) base (-1) (-1) 0 ≫= (fun st => Some (st, [])).
Proof.
  intros Hb. replace (length (conv_format base)) with 5%nat by (destruct Hb as [->|[->| ->]]; reflexivity).
  remember 5%nat as k eqn:Ek. cbn [vsnprintf_loop].
  destruct Hb as [->|[->| ->]]; (with_strategy opaque [number u64 vsnprintf_loop] (lazy));
    destruct (number d st (u64 n) _ (-1) (-1) 0); subst k; reflexivity.
Qed.

(** ** The whole call: lemmas *)

(** A text of which the loop makes [t], laid below the top of the address
    space: the buffer ends up with the prefix that fits and the terminator. *)
Lemma vsnprintf_lay addr buf size fmt args t stores :
  0 < size < 2 ^ 31 -> size <= zlen buf -> 0 <= addr -> addr + size < 2 ^ 32 -> addr + zlen t < 2 ^ 32 ->
  (forall d b, is_u32 (d_buf d) ->
    vsnprintf_loop (S (length fmt)) d fmt args [] (b, d_buf d) =
      emit_list d t (b, d_buf d) ≫= (fun st => Some (st, stores))) ->
  vsnprintf addr buf size fmt args =
    Some (take (Z.to_nat (size - 1)) t ++ 0 :: drop (Z.to_nat (Z.min (size - 1) (zlen t) + 1)) buf,
          s32 (zlen t), stores).
Proof.
  intros Hs Hb Ha Has Hat Hloop.
  unfold vsnprintf. rewrite s32_small by lia. destruct (Z.ltb_spec size 0); [lia|].
  rewrite (u32_small (addr + size)) by (unfold is_u32; lia). cbv zeta.
  destruct (Z.ltb_spec (addr + size) addr); [lia|].
  set (d := Dest addr (addr + size)). specialize (Hloop d buf). change (d_buf d) with addr in Hloop.
  rewrite Hloop by (unfold is_u32; lia).
  assert (Hd0 : at_ d 0 = addr) by (unfold at_; rewrite Z.add_0_r; apply u32_small; unfold is_u32; simpl; lia).
  rewrite <- Hd0 at 1. rewrite emit_list_over by (simpl; lia).
  rewrite !some_bind. cbv beta iota.
  assert (Hz : at_ d (0 + zlen t) = addr + zlen t) by (apply u32_small; unfold is_u32; simpl; lia).
  rewrite Hz. replace (d_end d - d_buf d) with size by (simpl; lia).
  replace (addr + zlen t - addr) with (zlen t) by lia.
  replace (addr + size - 1 - addr) with (size - 1) by lia.
  destruct (Z.ltb_spec 0 size); [|lia]. rewrite over_prefix by lia.
  assert (Hl : forall k, k < size -> k = Z.min (size - 1) (zlen t) ->
    wr (take (Z.to_nat size) t ++ drop (Z.to_nat (size `min` zlen t)) buf) k 0 =
      Some (take (Z.to_nat (size - 1)) t ++ 0 :: drop (Z.to_nat ((size - 1) `min` zlen t + 1)) buf)).
  { intros k Hk Hk'. rewrite wr_Some by (rewrite length_app, length_take, length_drop; lia). f_equal.
    apply list_eq. intros i. destruct (Z.lt_trichotomy (Z.of_nat i) k) as [Hi|[Hi|Hi]].
    - rewrite list_lookup_insert_ne by lia.
      rewrite !lookup_app_l by (rewrite length_take; lia). by rewrite !lookup_take_lt by lia.
    - replace (Z.to_nat k) with i by lia.
      rewrite list_lookup_insert_eq by (rewrite length_app, length_take, length_drop; lia).
      rewrite lookup_app_r by (rewrite length_take; lia). rewrite length_take.
      by replace (i - _)%nat with O by lia.
    - rewrite list_lookup_insert_ne by lia.
      rewrite !lookup_app_r by (rewrite length_take; lia). rewrite !length_take.
      replace (i - Z.to_nat (size - 1) `min` length t)%nat with
        (S (i - 1 - Z.to_nat (size - 1) `min` length t))%nat by lia. simpl.
      rewrite !lookup_drop. f_equal. lia. }
  destruct (Z.ltb_spec (addr + zlen t) (addr + size)); rewrite Hl by lia; by rewrite some_bind.
Qed.

Lemma vsnprintf_conv base n addr buf size : is_u64 n -> std_base base ->
  25 < size <= zlen buf -> 0 <= addr -> addr + size < 2 ^ 32 -> size < 2 ^ 31 ->
  let t := rev (map digit_char (base_rev base 25 n)) in
  vsnprintf addr buf size (conv_format base) [VLongLong n] =
    Some (t ++ 0 :: drop (S (length t)) buf, zlen t, []).
Proof.
  intros Hn Hb Hs Ha Has H31 t.
  assert (Ht : zlen t <= 25).
  { unfold t. rewrite length_rev, length_map. apply (base_rev_length base 25). }
  rewrite (vsnprintf_lay addr buf size _ _ t []) by (try lia; intros d b Hd;
    rewrite conv_format_loop, (u64_small n), number_plain by done; done).
  rewrite s32_small by lia. rewrite take_ge by lia. rewrite Z.min_r by lia. by replace (Z.to_nat (zlen t + 1)) with (S (length t)) by lia.
Qed.

(** ** The other entry points and the formats' corners: lemmas *)

(** The bounded variant reports what was stored, when [size] is not 0. *)
Lemma vscnprintf_bound addr buf size fmt args buf' n stores : 0 < size < 2 ^ 31 -> 0 <= n < 2 ^ 31 ->
  vsnprintf addr buf size fmt args = Some (buf', n, stores) ->
  vscnprintf addr buf size fmt args = Some (buf', Z.min n (size - 1), stores).
Proof.
  intros Hs Hn H. unfold vscnprintf. rewrite H, some_bind. cbv beta iota.
  rewrite (u32_small n), (u32_small (size - 1)), (s32_small (size - 1)) by (unfold is_u32; lia).
  destruct (Z.geb_spec n size); do 3 f_equal; lia.
Qed.

(** With [size] 0 it reports -1, where its comment promises 0. *)
Lemma vscnprintf_size_0 : vscnprintf 4096 [] 0 (cstr "ab") [] = Some ([], -1, []).
Proof. reflexivity. Qed.

(** [%zd] prints a negative [size_t] argument as a large positive number. *)
Lemma vsnprintf_zd_unsigned :
  vsnprintf 4096 (replicate 12 1) 12 (cstr "%zd") [VWord (-1)] = Some (cstr "4294967295" ++ [1], 10, []).
Proof. reflexivity. Qed.

(** A text that passes the top of the address space: [str] wraps around below
    [end], and its next character is stored far from the buffer. *)
Lemma vsnprintf_wraps :
  vsnprintf (2 ^ 32 - 8) (replicate 4 1) 4 (cstr "%*s") [VWord 9; VStr (Some (cstr "a"))] = None.
Proof. reflexivity. Qed.

(** A negative [size] is refused; the buffer is left as it was. *)
Lemma vsnprintf_negative addr buf size fmt args : - 2 ^ 31 <= s32 size < 0 ->
  vsnprintf addr buf size fmt args = Some (buf, 0, []).
Proof. intros H. unfold vsnprintf. by destruct (Z.ltb_spec (s32 size) 0); [|lia]. Qed.

(** *** The number of turns: each consumes a character of the format *)

Lemma fmt_flags_shorter fmt flags fmt' flags' : fmt_flags fmt flags = Some (fmt', flags') ->
  (length fmt' <= length fmt)%nat.
Proof.
  revert flags. induction fmt as [|c fmt IH]; intros flags H; simpl in *; [done|].
  repeat case_match; simplify_eq; try (apply IH in H; lia); simpl; lia.
Qed.

Lemma skip_atoi_loop_shorter s i n s' : skip_atoi_loop s i = Some (n, s') ->
  (length s' <= length s)%nat.
Proof.
  revert i. induction s as [|c s IH]; intros i H; simpl in *; [done|].
  case_match; simplify_eq; [apply IH in H; lia|simpl; lia].
Qed.

Lemma length_tail {A} (l : list A) : length (tail l) = pred (length l).
Proof. by destruct l. Qed.

Ltac shorter :=
  repeat first
  [ match goal with
    | H : (?o ≫= _) = Some _ |- _ => destruct o as [?|] eqn:?; [rewrite some_bind in H|discriminate H]
    | H : (let '(_, _) := ?x in _) = Some _ |- _ => destruct x eqn:?
    | H : skip_atoi _ = Some (_, _) |- _ => apply skip_atoi_loop_shorter in H
    end
  | case_match | progress simplify_eq ];
  rewrite ?length_tail in *; try lia.

Lemma fmt_width_shorter fmt flags args fmt' flags' w args' :
  fmt_width fmt flags args = Some (fmt', flags', w, args') -> (length fmt' <= length fmt)%nat.
Proof. unfold fmt_width. intros H. shorter. Qed.

Lemma fmt_precision_shorter fmt args fmt' p args' :
  fmt_precision fmt args = Some (fmt', p, args') -> (length fmt' <= length fmt)%nat.
Proof. unfold fmt_precision. intros H. shorter. Qed.

Lemma fmt_qualifier_shorter fmt fmt' q : fmt_qualifier fmt = Some (fmt', q) ->
  (length fmt' <= length fmt)%nat.
Proof. unfold fmt_qualifier. intros H. shorter. Qed.

Lemma conversion_shorter d fmt args stores st flags w p q st' fmt' args' stores' :
  conversion d fmt args stores st flags w p q = Some (st', (fmt', args', stores')) ->
  (length fmt' <= length fmt)%nat.
Proof. unfold conversion. intros H. shorter. Qed.

(** More fuel than the length of the format does not change the result: no
    call fails for want of turns. *)
Lemma vsnprintf_loop_fuel f1 f2 d fmt args stores st :
  (length fmt < f1)%nat -> (length fmt < f2)%nat ->
  vsnprintf_loop f1 d fmt args stores st = vsnprintf_loop f2 d fmt args stores st.
Proof.
  revert f2 fmt args stores st. induction f1 as [|f1 IH]; intros [|f2] fmt args stores st H1 H2; try lia.
  simpl. destruct fmt as [|c fmt]; [done|]. simpl in *.
  destruct (c =? 0); [done|]. destruct (negb _).
  { destruct (emit d c st); [|done]. rewrite !some_bind. apply IH; lia. }
  destruct (fmt_flags fmt 0) as [[fmt1 fl]|] eqn:E1; [|done]. rewrite !some_bind.
  apply fmt_flags_shorter in E1.
  destruct (fmt_width fmt1 fl args) as [[[[fmt2 fl2] w] args2]|] eqn:E2; [|done]. rewrite !some_bind.
  apply fmt_width_shorter in E2.
  destruct (fmt_precision fmt2 args2) as [[[fmt3 p] args3]|] eqn:E3; [|done]. rewrite !some_bind.
  apply fmt_precision_shorter in E3.
  destruct (fmt_qualifier fmt3) as [[fmt4 q]|] eqn:E4; [|done]. rewrite !some_bind.
  apply fmt_qualifier_shorter in E4.
  destruct (conversion _ _ _ _ _ _ _ _ _) as [[st5 [[fmt5 args5] ss5]]|] eqn:E5; [|done]. rewrite !some_bind.
  apply conversion_shorter in E5. apply IH; lia.
Qed.

(** ** Properties *)

(** C18. [vsnprintf] truncates: the text it produces is fixed by the format and
    the arguments, so that a call with no buffer measures it, and a call with a
    buffer of [size] bytes, above which the text does not pass the top of the
    address space, stores exactly its first [size - 1] characters and the
    terminator, leaves the bytes after it alone, and returns the same length
    and the same [%n] values. *)
Theorem vsnprintf_truncates fmt args n stores :
  vsnprintf 0 [] 0 fmt args = Some ([], n, stores) ->
  exists t, n = s32 (zlen t) /\
    forall addr buf size, 0 < size < 2 ^ 31 -> size <= zlen buf -> 0 <= addr -> addr + size < 2 ^ 32 ->
      addr + zlen t < 2 ^ 32 ->
      vsnprintf addr buf size fmt args =
        Some (take (Z.to_nat (size - 1)) t ++ 0 :: drop (Z.to_nat (Z.min (size - 1) (zlen t) + 1)) buf,
              n, stores).
Proof.
  intros H. destruct (vsnprintf_loop_text (S (length fmt)) fmt args []) as [HN|(t&ss&Ht)].
  { exfalso. unfold vsnprintf in H. change (s32 0 <? 0) with false in H.
    change (u32 (0 + 0) <? 0) with false in H. cbv beta iota zeta in H.
    specialize (HN (Dest 0 (u32 (0 + 0))) [] ltac:(done)). cbn [d_buf] in HN. by rewrite HN in H. }
  exists t.
  assert (E : n = s32 (zlen t) /\ stores = ss).
  { unfold vsnprintf in H. change (s32 0 <? 0) with false in H. change (u32 (0 + 0)) with 0 in H.
    change (0 <? 0) with false in H. cbv beta iota zeta in H.
    specialize (Ht (Dest 0 0) [] ltac:(done)). cbn [d_buf] in Ht. rewrite Ht in H.
    change (emit_list (Dest 0 0) t ([], 0)) with (emit_list (Dest 0 0) t ([], at_ (Dest 0 0) 0)) in H.
    rewrite emit_list_none in H by done. rewrite !some_bind in H. cbv beta iota in H.
    change (0 <? 0) with false in H. cbv iota in H. rewrite some_bind in H. simplify_eq. split; [|done].
    unfold at_. cbn [d_buf]. rewrite Z.sub_0_r, !Z.add_0_l. unfold s32, u32.
    by rewrite Zplus_mod_idemp_l. }
  destruct E as [-> ->]. split; [done|]. intros. by apply vsnprintf_lay.
Qed.

Lemma vsnprintf_truncates_witness : exists t, 8 = s32 (zlen t) /\
  forall addr buf size, 0 < size < 2 ^ 31 -> size <= zlen buf -> 0 <= addr -> addr + size < 2 ^ 32 ->
    addr + zlen t < 2 ^ 32 ->
    vsnprintf addr buf size (cstr "%d-%s!") [VWord 42; VStr (Some (cstr "text"))] =
      Some (take (Z.to_nat (size - 1)) t ++ 0 :: drop (Z.to_nat (Z.min (size - 1) (zlen t) + 1)) buf,
            8, []).
Proof. apply vsnprintf_truncates. reflexivity. Defined.

(** Reading back a printed number: for every 64-bit number and the formats
    [%llo], [%llu] and [%llx], [simple_strtoull] in the same base reads the
    number from the buffer [vsnprintf] filled, and stops at its terminator. *)
Theorem vsnprintf_strtoull_roundtrip base n addr buf size : is_u64 n -> std_base base ->
  25 < size <= zlen buf -> 0 <= addr -> addr + size < 2 ^ 32 -> size < 2 ^ 31 ->
  exists buf' len, vsnprintf addr buf size (conv_format base) [VLongLong n] = Some (buf', len, []) /\
    simple_strtoull buf' base = Some (n, drop (Z.to_nat len) buf') /\ rd buf' len = Some 0.
Proof.
  intros Hn Hb Hs Ha Has H31. pose proof (vsnprintf_conv base n addr buf size Hn Hb Hs Ha Has H31) as H.
  cbv zeta in H. set (t := rev (map digit_char (base_rev base 25 n))) in H.
  eexists _, _. split; [apply H|]. split.
  2:{ apply rd_Some. split; [lia|].
      rewrite Nat2Z.id, lookup_app_r, Nat.sub_diag by lia. done. }
  assert (Hb' : 2 <= base <= 16) by (destruct Hb as [->|[->| ->]]; lia).
  unfold is_u64 in Hn.
  assert (Hf : 0 <= n < base ^ Z.of_nat 25).
  { split; [lia|]. apply Z.lt_le_trans with (8 ^ 25); [lia|]. apply Z.pow_le_mono_l; 
      destruct Hb as [->|[->| ->]]; lia. }
  rewrite Nat2Z.id, drop_app_length. unfold t. rewrite <- map_rev.
  set (ds := rev (base_rev base 25 n)).
  assert (Hds : Forall (fun d => 0 <= d < base) ds).
  { unfold ds. apply Forall_rev, base_rev_bound; lia. }
  assert (Hstart : forall rest, strto_base (map digit_char ds ++ 0 :: rest) base =
    Some (map digit_char ds ++ 0 :: rest, base)).
  { intros rest. unfold strto_base. destruct Hb as [->|[->| ->]]; [done|done|]. cbn [Z.eqb Pos.eqb].
    assert (Hc : ds <> []).
    { unfold ds. intros E. apply (f_equal length) in E. rewrite length_rev in E.
      pose proof (base_rev_pos 16 24 n). simpl (length []) in E. lia. }
    destruct ds as [|d ds']; [done|]. simpl. destruct (_ =? _); [|done].
    inversion_clear Hds as [|? ? _ Hds'].
    destruct ds' as [|e ds'']; [done|]. simpl. inversion_clear Hds' as [|? ? He _].
    assert (Hx : (fun e => negb (toupper (digit_char e) =? ch "X")) e = true).
    { clear Hc. revert e He. apply forall_range. reflexivity. }
    cbv beta in Hx. by destruct (toupper (digit_char e) =? ch "X"). }
  unfold simple_strtoull. rewrite Hstart, some_bind. cbv beta iota.
  rewrite (strto_digits_spec u64 digit_value_ll (2 ^ 64)); try done; try lia.
  - do 2 f_equal. change (foldl _ 0 ds) with (digits_value base ds). unfold ds.
    rewrite base_rev_value, Z.mod_small by lia. done.
  - intros d Hd. by apply digit_char_value.
  - by left.
Qed.

Lemma vsnprintf_strtoull_roundtrip_witness : is_u64 48879 /\
  exists buf' len, vsnprintf 4096 (replicate 32 7) 32 (conv_format 16) [VLongLong 48879] = Some (buf', len, []) /\
    simple_strtoull buf' 16 = Some (48879, drop (Z.to_nat len) buf') /\ rd buf' len = Some 0.
Proof.
  split; [unfold is_u64; lia|]. apply vsnprintf_strtoull_roundtrip; try (unfold is_u64; lia).
  - right; right; done.
  - simpl; lia.
Defined.

