(* ===== verification/Vsscanf.v ===== *)
(** * Formatted input (lib/vsprintf.c, vsscanf)

    The pointers read by [va_arg] are numbers; what is stored through them is
    returned as a list of stores in order.  A position in the input or in the
    format is the list of the bytes from it on. *)

From S2P Require Import Prelude Ctype Strtol Vsprintf.
From Stdlib Require Import Ascii String.
#[local] Abbreviation length := Datatypes.length.

#[local] Open Scope char_scope.
#[local] Open Scope Z_scope.

(** A store: bytes from the pointer on, or an integer of 1, 2, 4 or 8 bytes. *)
Inductive store :=
| SBytes (p : Z) (bytes : list Z)
| SNum (p : Z) (size : Z) (v : Z).

Record scan := mk_scan {
  sc_fmt : list Z;
  sc_str : list Z;
  sc_args : list Z;
  sc_stores : list store;
  sc_num : Z
}.

(** How a turn of the loop ends: the next turn, [break], or [return num]. *)
Inductive turn := Next (s : scan) | Stop (s : scan) | Return (s : scan).

Definition va_ptr (args : list Z) : option (Z * list Z) :=
  match args with p :: args => Some (p, args) | [] => None end.

(** [while (isspace( *s)) ++s] *)
Fixpoint skip_space (s : list Z) : option (list Z) :=
  match s with
  | [] => None
  | c :: s' => if isspace c then skip_space s' else Some s
  end.

(** [while (!isspace( *s) && *s) s++] *)
Fixpoint skip_nonspace (s : list Z) : option (list Z) :=
  match s with
  | [] => None
  | c :: s' => if negb (isspace c) && negb (c =? 0) then skip_nonspace s' else Some s
  end.

(** [do *s++ = *str++; while (--field_width > 0 && *str)]: the bytes stored and
    the input left. *)
Fixpoint scan_chars (str : list Z) (field_width : Z) : option (list Z * list Z) :=
  match str with
  | [] => None
  | c :: str =>
    let field_width := s32 (field_width - 1) in
    if 0 <? field_width then
      d ← deref str;
      if negb (d =? 0) then '(l, str) ← scan_chars str field_width; Some (c :: l, str)
      else Some ([c], str)
    else Some ([c], str)
  end.

(** [while ( *str && !isspace( *str) && field_width--) *s++ = *str++] *)
Fixpoint scan_word (str : list Z) (field_width : Z) : option (list Z * list Z) :=
  match str with
  | [] => None
  | c :: str' =>
    if negb (c =? 0) && negb (isspace c) && negb (field_width =? 0) then
      '(l, str) ← scan_word str' (s32 (field_width - 1)); Some (c :: l, str)
    else Some ([], str)
  end.

Definition is_scan_qualifier (c : Z) : bool :=
  (c =? ch "h") || (c =? ch "l") || (c =? ch "L") || (c =? ch "Z") || (c =? ch "z").

Definition scan_qualifier (fmt : list Z) : option (list Z * Z) :=
  c ← deref fmt;
  if is_scan_qualifier c then
    let fmt := tail fmt in
    d ← deref fmt;
    if c =? d then
      if c =? ch "h" then Some (tail fmt, ch "H")
      else if c =? ch "l" then Some (tail fmt, ch "L") else Some (fmt, c)
    else Some (fmt, c)
  else Some (fmt, -1).

(** The check on the first digit: [true] ends the loop. *)
Definition bad_digit (digit base : Z) : bool :=
  (digit =? 0) || ((base =? 16) && negb (isxdigit digit)) || ((base =? 10) && negb (isdigit digit))
  || ((base =? 8) && (negb (isdigit digit) || (ch "7" <? digit)))
  || ((base =? 0) && negb (isdigit digit)).

(** The number read and the store made, by qualifier: size and value. *)
Definition scan_number (qualifier base : Z) (is_sign : bool) (str : list Z)
    : option (Z * Z * list Z) :=
  if qualifier =? ch "H" then
    '(r, next) ← (if is_sign then simple_strtol str base else simple_strtoul str base);
    Some (1, u8 r, next)
  else if qualifier =? ch "h" then
    '(r, next) ← (if is_sign then simple_strtol str base else simple_strtoul str base);
    Some (2, u16 r, next)
  else if qualifier =? ch "l" then
    '(r, next) ← (if is_sign then simple_strtol str base else simple_strtoul str base);
    Some (4, u32 r, next)
  else if qualifier =? ch "L" then
    '(r, next) ← (if is_sign then simple_strtoll str base else simple_strtoull str base);
    Some (8, u64 r, next)
  else if (qualifier =? ch "Z") || (qualifier =? ch "z") then
    '(r, next) ← simple_strtoul str base; Some (4, u32 r, next)
  else
    '(r, next) ← (if is_sign then simple_strtol str base else simple_strtoul str base);
    Some (4, u32 r, next).

(** The integer conversions: base and sign, [None] for other characters. *)
Definition scan_base (c : Z) : option (Z * bool) :=
  if c =? ch "o" then Some (8, false)
  else if (c =? ch "x") || (c =? ch "X") then Some (16, false)
  else if c =? ch "i" then Some (0, true)
  else if c =? ch "d" then Some (10, true)
  else if c =? ch "u" then Some (10, false)
  else None.

Definition scan_integer (fmt str args : list Z) (stores : list store) (num qualifier base : Z)
    (is_sign : bool) : option turn :=
  str ← skip_space str;
  d ← deref str;
  digit ← (if is_sign && (d =? ch "-") then deref (tail str) else Some d);
  if bad_digit digit base then Some (Stop (mk_scan fmt str args stores num)) else
  '(p, args) ← va_ptr args;
  '(size, v, next) ← scan_number qualifier base is_sign str;
  Some (Next (mk_scan fmt next args (stores ++ [SNum p size v]) (s32 (num + 1)))).

(** [switch ( *fmt++)] and what follows; [len] is the length of [buf]. *)
Definition scan_conversion (len : Z) (s : scan) (field_width qualifier : Z) : option turn :=
  let 'mk_scan fmt str args stores num := s in
  c ← deref fmt;
  let fmt := tail fmt in
  if c =? ch "c" then
    '(p, args) ← va_ptr args;
    '(l, str) ← scan_chars str (if field_width =? -1 then 1 else field_width);
    Some (Next (mk_scan fmt str args (stores ++ [SBytes p l]) (s32 (num + 1))))
  else if c =? ch "s" then
    '(p, args) ← va_ptr args;
    str ← skip_space str;
    '(l, str) ← scan_word str (if field_width =? -1 then INT_MAX else field_width);
    Some (Next (mk_scan fmt str args (stores ++ [SBytes p (l ++ [0])]) (s32 (num + 1))))
  else if c =? ch "n" then
    '(p, args) ← va_ptr args;
    Some (Next (mk_scan fmt str args (stores ++ [SNum p 4 (u32 (len - zlen str))]) num))
  else if c =? ch "%" then
    d ← deref str;
    let s := mk_scan fmt (tail str) args stores num in
    if negb (d =? ch "%") then Some (Return s) else Some (Next s)
  else match scan_base c with
  | Some (base, is_sign) => scan_integer fmt str args stores num qualifier base is_sign
  | None => Some (Return (mk_scan fmt str args stores num))
  end.

(** One turn of [while ( *fmt && *str)]. *)
Definition scan_turn (len : Z) (s : scan) : option turn :=
  let 'mk_scan fmt str args stores num := s in
  c ← deref fmt;
  '(fmt, str) ← (if isspace c then fmt ← skip_space fmt; str ← skip_space str; Some (fmt, str)
                 else Some (fmt, str));
  c ← deref fmt;
  if negb (c =? ch "%") && negb (c =? 0) then
    d ← deref str;
    let s := mk_scan (tail fmt) (tail str) args stores num in
    if negb (c =? d) then Some (Stop s) else Some (Next s)
  else if c =? 0 then Some (Stop (mk_scan fmt str args stores num))
  else
    let fmt := tail fmt in
    c ← deref fmt;
    if c =? ch "*" then
      fmt ← skip_nonspace fmt;
      str ← skip_nonspace str;
      Some (Next (mk_scan fmt str args stores num))
    else
      '(field_width, fmt) ← (if isdigit c then skip_atoi fmt else Some (-1, fmt));
      '(fmt, qualifier) ← scan_qualifier fmt;
      c ← deref fmt;
      d ← deref str;
      let s := mk_scan fmt str args stores num in
      if (c =? 0) || (d =? 0) then Some (Stop s)
      else scan_conversion len s field_width qualifier.

(** A turn consumes a character of the format at least. *)
Fixpoint vsscanf_loop (fuel : nat) (len : Z) (s : scan) : option turn :=
  match fuel with
  | O => None
  | S fuel =>
    c ← deref (sc_fmt s);
    d ← deref (sc_str s);
    if (c =? 0) || (d =? 0) then Some (Stop s) else
    t ← scan_turn len s;
    match t with
    | Next s => vsscanf_loop fuel len s
    | _ => Some t
    end
  end.

(** The [%n] at the end of the format. *)
Definition scan_last (len : Z) (s : scan) : option scan :=
  let 'mk_scan fmt str args stores num := s in
  c ← deref fmt;
  if c =? ch "%" then
    d ← deref (tail fmt);
    if d =? ch "n" then
      '(p, args) ← va_ptr args;
      Some (mk_scan fmt str args (stores ++ [SNum p 4 (u32 (len - zlen str))]) num)
    else Some s
  else Some s.

Definition vsscanf (buf fmt args : list Z) : option (Z * list store) :=
  t ← vsscanf_loop (S (length fmt)) (zlen buf) (mk_scan fmt buf args [] 0);
  match t with
  | Return s => Some (sc_num s, sc_stores s)
  | Next s | Stop s => s ← scan_last (zlen buf) s; Some (sc_num s, sc_stores s)
  end.

Definition sscanf := vsscanf.

(** ** Lemmas *)

Example vsscanf_ex1 : vsscanf (cstr "12 ab-0x1f") (cstr "%d %2s%n-%i") [1; 2; 3; 4] =
  Some (3, [SNum 1 4 12; SBytes 2 (cstr "ab"); SNum 3 4 5; SNum 4 4 31]).
Proof. reflexivity. Qed.

Example vsscanf_ex2 : vsscanf (cstr "-1 x") (cstr "%hhd%c%n") [1; 2; 3] =
  Some (2, [SNum 1 1 255; SBytes 2 (text " "); SNum 3 4 3]).
Proof. reflexivity. Qed.

(** A terminated string: a NUL is reached. *)
Definition term (s : list Z) : Prop := 0 ∈ s.

Lemma term_deref s : term s -> exists c s', s = c :: s' /\ (c = 0 \/ term s').
Proof.
  unfold term. destruct s as [|c s]; intros H; [by apply elem_of_nil in H|].
  exists c, s. split; [done|]. apply elem_of_cons in H. destruct H; auto.
Qed.

Lemma term_tail c s : term (c :: s) -> c <> 0 -> term s.
Proof. intros [?|?]%elem_of_cons Hc; [congruence|done]. Qed.

Lemma skip_space_term s : term s -> exists s', skip_space s = Some s' /\ term s' /\
  (length s' <= length s)%nat /\ (forall c, head s = Some c -> isspace c = false -> s' = s).
Proof.
  induction s as [|c s IH]; intros H; [by apply elem_of_nil in H|]. simpl.
  destruct (isspace c) eqn:Hc.
  - assert (c <> 0) by (intros ->; discriminate). destruct IH as (s'&->&?&?&_); [by eapply term_tail|].
    exists s'. repeat split; [done|lia|]. intros ? [= <-] ?; congruence.
  - exists (c :: s). repeat split; auto.
Qed.

Lemma skip_nonspace_term s : term s -> exists s', skip_nonspace s = Some s' /\ term s' /\
  (length s' <= length s)%nat.
Proof.
  induction s as [|c s IH]; intros H; [by apply elem_of_nil in H|]. simpl.
  destruct (negb (isspace c) && negb (c =? 0)) eqn:Hc.
  - assert (c <> 0) by (intros ->; discriminate). destruct IH as (s'&->&?&?); [by eapply term_tail|].
    exists s'. repeat split; [done|lia].
  - exists (c :: s). auto.
Qed.

Lemma scan_chars_term str w : term str -> head str <> Some 0 ->
  exists l str', scan_chars str w = Some (l, str') /\ term str'.
Proof.
  revert w. induction str as [|c str IH]; intros w H H0; [by apply elem_of_nil in H|]. simpl.
  assert (Hs : term str) by (eapply term_tail; [done|]; simpl in H0; congruence).
  destruct (0 <? s32 (w - 1)); [|eauto].
  destruct (term_deref str Hs) as (d&str'&->&_). simpl (deref _). rewrite some_bind.
  destruct (Z.eqb_spec d 0) as [->|]; simpl; [eauto|].
  destruct (IH (s32 (w - 1)) Hs) as (l&s'&E&?); [simpl; congruence|].
  simpl in E. rewrite E. simpl. eauto.
Qed.

Lemma scan_word_term str w : term str -> exists l str', scan_word str w = Some (l, str') /\ term str'.
Proof.
  revert w. induction str as [|c str IH]; intros w H; [by apply elem_of_nil in H|]. simpl.
  destruct (Z.eqb_spec c 0) as [->|]; simpl; [eauto|].
  destruct (negb (isspace c) && negb (w =? 0)); [|eauto].
  destruct (IH (s32 (w - 1))) as (l&s'&->&?); [by eapply term_tail|]. simpl. eauto.
Qed.

Lemma skip_atoi_term s : term s -> exists n s', skip_atoi s = Some (n, s') /\ term s' /\
  (length s' <= length s)%nat.
Proof.
  unfold skip_atoi. generalize 0 as i. induction s as [|c s IH]; intros i H; [by apply elem_of_nil in H|].
  simpl. destruct (isdigit c) eqn:Hc; [|eauto 6].
  assert (c <> 0) by (intros ->; discriminate).
  destruct (IH (s32 (i * 10 + c - ch "0"))) as (n&s'&->&?&?); [by eapply term_tail|].
  exists n, s'. repeat split; [done|lia].
Qed.

Lemma scan_qualifier_term fmt : term fmt -> exists fmt' q, scan_qualifier fmt = Some (fmt', q) /\
  term fmt' /\ (length fmt' <= length fmt)%nat.
Proof.
  intros H. destruct (term_deref fmt H) as (c&f1&->&_). unfold scan_qualifier. simpl (deref _).
  rewrite some_bind. destruct (is_scan_qualifier c) eqn:Hq; [|eauto].
  assert (H1 : term f1) by (eapply term_tail; [done|]; intros ->; discriminate).
  destruct (term_deref f1 H1) as (d&f2&->&_). simpl (deref _). rewrite some_bind.
  destruct (Z.eqb_spec c d) as [->|]; [|eexists _, _; split; [done|split; [done|simpl; lia]]].
  assert (H2 : term f2) by (eapply term_tail; [done|]; intros ->; discriminate).
  simpl (length _). simpl (tail _).
  destruct (d =? ch "h"); [eexists _, _; split; [done|split; [done|lia]]|].
  destruct (d =? ch "l"); (eexists _, _; split; [done|split; [done|simpl; lia]]).
Qed.

Lemma strto_digits_term wrap value base s acc : term s ->
  exists r s', strto_digits wrap value s base acc = Some (r, s') /\ term s'.
Proof.
  revert acc. induction s as [|c s IH]; intros acc H; [by apply elem_of_nil in H|]. simpl.
  destruct (isxdigit c) eqn:Hc; simpl; [|eauto].
  destruct (wrap (value c) <? base); [|eauto]. apply IH. eapply term_tail; [done|]. intros ->; discriminate.
Qed.

Lemma strto_base_term s base : term s -> exists s' b, strto_base s base = Some (s', b) /\ term s'.
Proof.
  intros H. unfold strto_base. destruct (term_deref s H) as (c&s1&->&_). simpl (deref _). rewrite !some_bind.
  assert (H1 : c = ch "0" -> term s1) by (intros ->; eapply term_tail; [done|discriminate]).
  destruct (Z.eqb_spec c (ch "0")) as [E|]; [|repeat case_match; eauto].
  specialize (H1 E). simpl (tail _). destruct (term_deref s1 H1) as (d&s2&->&_). simpl (deref _). rewrite !some_bind.
  assert (H2 : (toupper d =? ch "X") = true -> term s2).
  { intros Hd. eapply term_tail; [done|]. intros ->; discriminate. }
  destruct (toupper d =? ch "X"); [|repeat case_match; eauto].
  specialize (H2 eq_refl). simpl (tail _). destruct (term_deref s2 H2) as (e&s3&->&_). simpl (deref _).
  rewrite !some_bind. repeat case_match; eauto.
Qed.

Lemma strtoul_term s base : term s -> exists r s', simple_strtoul s base = Some (r, s') /\ term s'.
Proof.
  intros H. unfold simple_strtoul. destruct (strto_base_term s base H) as (s'&b&->&?). rewrite some_bind.
  by apply strto_digits_term.
Qed.

Lemma strtoull_term s base : term s -> exists r s', simple_strtoull s base = Some (r, s') /\ term s'.
Proof.
  intros H. unfold simple_strtoull. destruct (strto_base_term s base H) as (s'&b&->&?). rewrite some_bind.
  by apply strto_digits_term.
Qed.

Lemma strtol_term s base : term s -> exists r s', simple_strtol s base = Some (r, s') /\ term s'.
Proof.
  intros H. unfold simple_strtol. destruct (term_deref s H) as (c&s1&->&_). simpl (deref _). rewrite some_bind.
  destruct (Z.eqb_spec c (ch "-")) as [->|].
  - destruct (strtoul_term s1 base) as (r&s'&E&?); [eapply term_tail; [done|discriminate]|].
    simpl (tail _). rewrite E. simpl. eauto.
  - destruct (strtoul_term (c :: s1) base) as (r&s'&E&?); [done|]. rewrite E. simpl. eauto.
Qed.

Lemma strtoll_term s base : term s -> exists r s', simple_strtoll s base = Some (r, s') /\ term s'.
Proof.
  intros H. unfold simple_strtoll. destruct (term_deref s H) as (c&s1&->&_). simpl (deref _). rewrite some_bind.
  destruct (Z.eqb_spec c (ch "-")) as [->|].
  - destruct (strtoull_term s1 base) as (r&s'&E&?); [eapply term_tail; [done|discriminate]|].
    simpl (tail _). rewrite E. simpl. eauto.
  - destruct (strtoull_term (c :: s1) base) as (r&s'&E&?); [done|]. rewrite E. simpl. eauto.
Qed.

Lemma scan_number_term q base sg s : term s ->
  exists size v s', scan_number q base sg s = Some (size, v, s') /\ term s'.
Proof.
  intros H. unfold scan_number.
  destruct (strtoul_term s base H) as (r1&s1&E1&?), (strtoull_term s base H) as (r2&s2&E2&?),
    (strtol_term s base H) as (r3&s3&E3&?), (strtoll_term s base H) as (r4&s4&E4&?).
  repeat case_match; rewrite ?E1, ?E2, ?E3, ?E4, some_bind; eauto.
Qed.

(** *** The invariant of the loop

    [args0] are the arguments of the call: those of the stores made, in order,
    then those left.  One argument per character of the format is enough. *)
Definition store_ptr (s : store) : Z :=
  match s with SBytes p _ => p | SNum p _ _ => p end.

Definition used (args0 : list Z) (s : scan) : Prop :=
  args0 = map store_ptr (sc_stores s) ++ sc_args s /\ 0 <= sc_num s <= zlen (sc_stores s).

Definition scan_inv (args0 : list Z) (s : scan) : Prop :=
  used args0 s /\ term (sc_fmt s) /\ (length (sc_fmt s) <= length (sc_args s))%nat.

Definition turn_ok (args0 : list Z) (n : nat) (t : turn) : Prop :=
  match t with
  | Next s => scan_inv args0 s /\ term (sc_str s) /\ (length (sc_fmt s) < n)%nat
  | Stop s => scan_inv args0 s
  | Return s => used args0 s
  end.

(** One more store. *)
Lemma used_store args0 p args stores num st n' fmt str fmt' str' : zlen args0 < 2 ^ 31 ->
  used args0 (mk_scan fmt str (p :: args) stores num) -> store_ptr st = p ->
  n' = num \/ n' = s32 (num + 1) ->
  used args0 (mk_scan fmt' str' args (stores ++ [st]) n').
Proof.
  unfold used. simpl. intros Hl [Ha Hn] Hp Hn'. split.
  - rewrite map_app, <- app_assoc. simpl. by rewrite Hp.
  - rewrite length_app. simpl. subst args0. rewrite length_app, length_map in Hl. simpl in Hl.
    destruct Hn' as [->| ->]; [lia|]. rewrite s32_small by lia. lia.
Qed.

Lemma used_other args0 fmt str fmt' str' args stores num :
  used args0 (mk_scan fmt str args stores num) -> used args0 (mk_scan fmt' str' args stores num).
Proof. done. Qed.

Lemma va_ptr_cons args n : (n < length args)%nat -> exists p args', args = p :: args' /\
  va_ptr args = Some (p, args') /\ (n <= length args')%nat.
Proof. intros. destruct args as [|p args]; simpl in *; [lia|]. exists p, args. auto with lia. Qed.

Lemma scan_integer_ok args0 n fmt str args stores num q base sg : zlen args0 < 2 ^ 31 ->
  used args0 (mk_scan fmt str args stores num) -> term fmt -> term str ->
  (length fmt < n)%nat -> (length fmt < length args)%nat ->
  exists t, scan_integer fmt str args stores num q base sg = Some t /\ turn_ok args0 n t.
Proof.
  intros Hl Hu Hf Hs Hn Ha. unfold scan_integer.
  destruct (skip_space_term str Hs) as (s1&->&H1&_&_). rewrite some_bind.
  destruct (term_deref s1 H1) as (d&s2&->&_). simpl (deref _). rewrite some_bind.
  assert (Hd : exists e, (if sg && (d =? ch "-") then deref (tail (d :: s2)) else Some d) = Some e).
  { destruct (Z.eqb_spec d (ch "-")) as [->|]; [|rewrite andb_false_r; eauto].
    destruct sg; simpl; [|eauto]. destruct (term_deref s2) as (e&s3&->&_); [|simpl; eauto].
    eapply term_tail; [done|discriminate]. }
  simpl (deref (tail _)) in Hd. destruct Hd as [e He]. rewrite He, some_bind.
  destruct (bad_digit e base).
  { eexists. split; [done|]. split; [|split; [done|simpl; lia]]. by eapply used_other. }
  destruct (va_ptr_cons args (length fmt)) as (p&args'&->&->&Hl'); [done|]. rewrite some_bind.
  destruct (scan_number_term q base sg (d :: s2) H1) as (sz&v&s3&->&H3). rewrite some_bind.
  eexists. split; [done|]. split; [|done]. split; [|split; [done|simpl; lia]].
  eapply used_store; eauto.
Qed.

Lemma scan_conversion_ok args0 n len s w q : zlen args0 < 2 ^ 31 ->
  scan_inv args0 s -> term (sc_str s) -> (length (sc_fmt s) <= n)%nat ->
  head (sc_fmt s) <> Some 0 -> head (sc_str s) <> Some 0 ->
  exists t, scan_conversion len s w q = Some t /\ turn_ok args0 n t.
Proof.
  destruct s as [fmt str args stores num]. unfold scan_inv. simpl.
  intros Hl (Hu&Hf&Ha) Hs Hn Hf0 Hs0. destruct (term_deref fmt Hf) as (c&f1&->&_).
  simpl (deref _). rewrite some_bind. cbv zeta. simpl (tail (c :: f1)).
  assert (H1 : term f1) by (eapply term_tail; [done|]; simpl in Hf0; congruence).
  simpl in Ha, Hn.
  destruct (va_ptr_cons args (length f1)) as (p&args'&->&->&Hl'); [lia|].
  destruct (c =? ch "c").
  { rewrite some_bind. destruct (scan_chars_term str (if w =? -1 then 1 else w)) as (l&s'&->&?); [done..|].
    rewrite some_bind. eexists. split; [done|]. split; [|simpl; split; [done|lia]].
    split; [|done]. eapply used_store; eauto. }
  destruct (c =? ch "s").
  { rewrite some_bind. destruct (skip_space_term str Hs) as (s1&->&H2&_&_). rewrite some_bind.
    destruct (scan_word_term s1 (if w =? -1 then INT_MAX else w) H2) as (l&s'&->&?).
    rewrite some_bind. eexists. split; [done|]. split; [|simpl; split; [done|lia]].
    split; [|done]. eapply used_store; eauto. }
  destruct (c =? ch "n").
  { rewrite some_bind. eexists. split; [done|]. split; [|simpl; split; [done|lia]].
    split; [|done]. eapply used_store; eauto. }
  destruct (c =? ch "%").
  { destruct (term_deref str Hs) as (d&s1&->&_). simpl (deref _). rewrite some_bind. cbv zeta.
    destruct (negb (d =? ch "%")); (eexists; split; [done|]); [by eapply used_other|].
    split; [|simpl; split; [|lia]].
    - split; [by eapply used_other|]. split; [done|simpl; lia].
    - eapply term_tail; [done|]. simpl in Hs0; congruence. }
  destruct (scan_base c) as [[base sg]|].
  - eapply scan_integer_ok; eauto; simpl; lia.
  - eexists. split; [done|]. by eapply used_other.
Qed.

Lemma scan_turn_ok args0 len s : zlen args0 < 2 ^ 31 ->
  scan_inv args0 s -> term (sc_str s) -> head (sc_fmt s) <> Some 0 ->
  exists t, scan_turn len s = Some t /\ turn_ok args0 (length (sc_fmt s)) t.
Proof.
  destruct s as [fmt str args stores num]. unfold scan_inv. simpl.
  intros Hl (Hu&Hf&Ha) Hs Hf0. unfold scan_turn.
  destruct (term_deref fmt Hf) as (c&f0&->&_). simpl (deref _). rewrite some_bind.
  assert (Hspace : exists f1 s1, (if isspace c then fmt ← skip_space (c :: f0); str ← skip_space str; Some (fmt, str)
     else Some (c :: f0, str)) = Some (f1, s1) /\ term f1 /\ term s1 /\ (length f1 <= length (c :: f0))%nat).
  { destruct (isspace c); [|eauto 7].
    destruct (skip_space_term (c :: f0) Hf) as (f1&->&?&?&_). rewrite some_bind.
    destruct (skip_space_term str Hs) as (s1&->&?&?&_). rewrite some_bind. eauto 7. }
  destruct Hspace as (f1&s1&->&H1&Hs1&Hlen). rewrite some_bind. cbv beta iota.
  clear Hs Hf Hf0. revert Ha Hlen. generalize (length (c :: f0)) as n. intros n Ha Hlen.
  destruct (term_deref f1 H1) as (e&f2&->&_). simpl (deref _). rewrite some_bind. cbv zeta.
  simpl (tail _). simpl in Hlen. destruct (Z.eqb_spec e 0) as [->|He].
  { simpl. eexists. split; [done|]. split; [by eapply used_other|]. simpl. split; [done|lia]. }
  assert (H2 : term f2) by (eapply term_tail; done).
  rewrite andb_true_r. destruct (negb (e =? ch "%")).
  { destruct (term_deref s1 Hs1) as (d&s2&->&_). simpl (deref _). rewrite some_bind. simpl (tail _).
    destruct (Z.eqb_spec e d) as [->|]; (eexists; split; [done|]); simpl;
      first [split; [split; [by eapply used_other|split; [done|simpl; lia]]|]
             |split; [by eapply used_other|split; [done|simpl; lia]]].
    split; [|lia]. by eapply term_tail. }
  clear H1. destruct (term_deref f2 H2) as (g&f3&->&_). simpl (deref _). rewrite some_bind.
  destruct (g =? ch "*").
  { destruct (skip_nonspace_term (g :: f3) H2) as (f4&->&?&?), (skip_nonspace_term s1 Hs1) as (s2&->&?&?).
    rewrite !some_bind. eexists. split; [done|]. simpl in *. 
    split; [split; [by eapply used_other|split; [done|simpl; lia]]|split; [done|lia]]. }
  assert (Hw : exists w f4, (if isdigit g then skip_atoi (g :: f3) else Some (-1, g :: f3)) = Some (w, f4) /\
    term f4 /\ (length f4 <= length (g :: f3))%nat).
  { destruct (isdigit g); [|eauto]. by apply skip_atoi_term. }
  destruct Hw as (w&f4&->&H4&?). rewrite some_bind. cbv beta iota.
  destruct (scan_qualifier_term f4 H4) as (f5&q&->&H5&?). rewrite some_bind. cbv beta iota.
  destruct (term_deref f5 H5) as (h&f6&->&_). simpl (deref _). rewrite some_bind.
  destruct (term_deref s1 Hs1) as (d&s2&->&_). simpl (deref _). rewrite some_bind. cbv zeta.
  simpl (length _) in *.
  destruct (Z.eqb_spec h 0) as [->|].
  { simpl. eexists. split; [done|]. split; [by eapply used_other|]. simpl. split; [done|lia]. }
  destruct (Z.eqb_spec d 0) as [->|].
  { simpl. eexists. split; [done|]. split; [by eapply used_other|]. simpl. split; [done|lia]. }
  apply (scan_conversion_ok args0 n len (mk_scan (h :: f6) (d :: s2) args stores num) w q Hl);
    simpl; [|done|lia|congruence..].
  split; [by eapply used_other|]. simpl. split; [done|lia].
Qed.

Lemma vsscanf_loop_ok args0 len fuel s : zlen args0 < 2 ^ 31 ->
  scan_inv args0 s -> term (sc_str s) -> (length (sc_fmt s) < fuel)%nat ->
  exists t, vsscanf_loop fuel len s = Some t /\
    match t with Next s | Stop s => scan_inv args0 s | Return s => used args0 s end.
Proof.
  intros Hl. revert s. induction fuel as [|fuel IH]; intros s Hi Hs Hn; [lia|]. simpl.
  destruct (term_deref (sc_fmt s)) as (c&f&Ef&_); [apply Hi|].
  destruct (term_deref (sc_str s)) as (d&r&Er&_); [done|].
  rewrite Ef, Er. simpl (deref _). rewrite !some_bind.
  destruct (Z.eqb_spec c 0) as [->|]; simpl; [eauto|].
  destruct (Z.eqb_spec d 0) as [->|]; simpl; [eauto|].
  destruct (scan_turn_ok args0 len s) as (t&->&Ht); [done..|rewrite Ef; simpl; congruence|].
  rewrite some_bind. destruct t as [s'|s'|s']; simpl in Ht; [|eauto..].
  destruct Ht as (?&?&?). apply IH; [done..|lia].
Qed.

(** ** Properties *)

(** C30. [vsscanf] on terminated strings, with as many pointers as the format
    has characters, terminates and reads neither string beyond its terminator;
    the stores are made through the pointers in order, one each, and the
    returned number is at most the number of stores. *)
Theorem vsscanf_safe buf fmt args : term buf -> term fmt ->
  zlen fmt <= zlen args < 2 ^ 31 ->
  exists num stores, vsscanf buf fmt args = Some (num, stores) /\
    map store_ptr stores = take (length stores) args /\ 0 <= num <= zlen stores.
Proof.
  intros Hb Hf Ha. unfold vsscanf.
  destruct (vsscanf_loop_ok args (zlen buf) (S (length fmt)) (mk_scan fmt buf args [] 0))
    as (t&->&Ht); [lia|split; [split; simpl; [done|lia]|split; [done|simpl; lia]]|done|simpl; lia|].
  rewrite some_bind.
  assert (Hend : forall s, used args s ->
    map store_ptr (sc_stores s) = take (length (sc_stores s)) args /\ 0 <= sc_num s <= zlen (sc_stores s)).
  { intros s [-> ?]. split; [|done]. by rewrite take_app_length' by (by rewrite length_map). }
  assert (Hlast : forall s, scan_inv args s -> exists s', scan_last (zlen buf) s = Some s' /\ used args s').
  { intros [f r a ss n] (Hu&Hf'&Hl). simpl in *. destruct (term_deref f Hf') as (c&f1&->&_).
    simpl (deref _). rewrite some_bind. destruct (Z.eqb_spec c (ch "%")) as [->|]; [|eauto].
    destruct (term_deref f1) as (d&f2&->&_); [eapply term_tail; [done|discriminate]|].
    simpl (deref _). rewrite some_bind. destruct (d =? ch "n"); [|eauto].
    destruct (va_ptr_cons a (length f2)) as (p&a'&->&->&?); [simpl in Hl; lia|]. rewrite some_bind.
    eexists. split; [done|]. eapply used_store; eauto; lia. }
  destruct t as [s|s|s]; [destruct (Hlast s Ht) as (s'&->&?); rewrite some_bind; eauto..|eauto].
Qed.

Lemma vsscanf_safe_witness : exists num stores,
  vsscanf (cstr "7 x") (cstr "%d%s") [1; 2; 3; 4; 5] = Some (num, stores) /\
  map store_ptr stores = take (length stores) [1; 2; 3; 4; 5] /\ 0 <= num <= zlen stores.
Proof.
  apply vsscanf_safe; unfold term;
    [apply (bool_decide_unpack _); vm_compute; exact I|apply (bool_decide_unpack _); vm_compute; exact I|].
  simpl; lia.
Defined.
