(* ===== verification/FindBit.v ===== *)
(** * Searching bitmaps (lib/find_next_bit.c, include/asm-generic/bitops)

    A bitmap is a list of 32-bit words; a pointer into it is a word index.
    [find_first_bit] and [find_first_zero_bit] are the generic macros of
    include/asm-generic/bitops/find.h. *)

From S2P Require Import Prelude Bits.

#[local] Open Scope Z_scope.

Definition BITS_PER_LONG : Z := 32.
Definition BITOP_WORD (nr : Z) : Z := nr / BITS_PER_LONG.

(** [found_first] and [found_middle] *)
Definition found_middle (tmp result : Z) : Z := u32 (result + __ffs tmp).
Definition found_first (tmp size result : Z) : Z :=
  let tmp := Z.land tmp (Z.shiftr 0xffffffff (BITS_PER_LONG - size)) in
  if tmp =? 0 then u32 (result + size) else found_middle tmp result.

(** [while (size & ~(BITS_PER_LONG-1))] and what follows; each turn moves to the
    next word of the object. *)
Fixpoint find_next_bit_loop (fuel : nat) (addr : list Z) (p size result : Z) : option Z :=
  match fuel with
  | O => None
  | S fuel =>
    if negb (Z.land size (not32 (BITS_PER_LONG - 1)) =? 0) then
      tmp ← rd addr p;
      if negb (tmp =? 0) then Some (found_middle tmp result)
      else find_next_bit_loop fuel addr (p + 1) (u32 (size - BITS_PER_LONG)) (u32 (result + BITS_PER_LONG))
    else if size =? 0 then Some result
    else tmp ← rd addr p; Some (found_first tmp size result)
  end.

Definition find_next_bit (addr : list Z) (size offset : Z) : option Z :=
  let p := BITOP_WORD offset in
  let result := Z.land offset (not32 (BITS_PER_LONG - 1)) in
  if offset >=? size then Some size else
  let size := u32 (size - result) in
  let offset := offset mod BITS_PER_LONG in
  if negb (offset =? 0) then
    tmp ← rd addr p;
    let tmp := Z.land tmp (u32 (Z.shiftl 0xffffffff offset)) in
    if size <? BITS_PER_LONG then Some (found_first tmp size result)
    else if negb (tmp =? 0) then Some (found_middle tmp result)
    else find_next_bit_loop (S (length addr)) addr (p + 1) (u32 (size - BITS_PER_LONG)) (u32 (result + BITS_PER_LONG))
  else find_next_bit_loop (S (length addr)) addr p size result.

Definition found_middle_zero (tmp result : Z) : Z := u32 (result + ffz tmp).
Definition found_first_zero (tmp size result : Z) : Z :=
  let tmp := Z.lor tmp (u32 (Z.shiftl 0xffffffff size)) in
  if tmp =? 0xffffffff then u32 (result + size) else found_middle_zero tmp result.

Fixpoint find_next_zero_bit_loop (fuel : nat) (addr : list Z) (p size result : Z) : option Z :=
  match fuel with
  | O => None
  | S fuel =>
    if negb (Z.land size (not32 (BITS_PER_LONG - 1)) =? 0) then
      tmp ← rd addr p;
      if negb (not32 tmp =? 0) then Some (found_middle_zero tmp result)
      else find_next_zero_bit_loop fuel addr (p + 1) (u32 (size - BITS_PER_LONG)) (u32 (result + BITS_PER_LONG))
    else if size =? 0 then Some result
    else tmp ← rd addr p; Some (found_first_zero tmp size result)
  end.

Definition find_next_zero_bit (addr : list Z) (size offset : Z) : option Z :=
  let p := BITOP_WORD offset in
  let result := Z.land offset (not32 (BITS_PER_LONG - 1)) in
  if offset >=? size then Some size else
  let size := u32 (size - result) in
  let offset := offset mod BITS_PER_LONG in
  if negb (offset =? 0) then
    tmp ← rd addr p;
    let tmp := Z.lor tmp (Z.shiftr 0xffffffff (BITS_PER_LONG - offset)) in
    if size <? BITS_PER_LONG then Some (found_first_zero tmp size result)
    else if negb (not32 tmp =? 0) then Some (found_middle_zero tmp result)
    else find_next_zero_bit_loop (S (length addr)) addr (p + 1) (u32 (size - BITS_PER_LONG)) (u32 (result + BITS_PER_LONG))
  else find_next_zero_bit_loop (S (length addr)) addr p size result.

Definition find_first_bit (addr : list Z) (size : Z) : option Z := find_next_bit addr size 0.
Definition find_first_zero_bit (addr : list Z) (size : Z) : option Z := find_next_zero_bit addr size 0.

(** [set_bit], [clear_bit] and [test_bit] of include/asm-generic/bitops *)
Definition BIT_WORD (nr : Z) : Z := nr / BITS_PER_LONG.
Definition BIT_MASK (nr : Z) : Z := Z.shiftl 1 (nr mod BITS_PER_LONG).
Definition set_bit (nr : Z) (addr : list Z) : option (list Z) :=
  w ← rd addr (BIT_WORD nr); wr addr (BIT_WORD nr) (Z.lor w (BIT_MASK nr)).
Definition clear_bit (nr : Z) (addr : list Z) : option (list Z) :=
  w ← rd addr (BIT_WORD nr); wr addr (BIT_WORD nr) (Z.land w (not32 (BIT_MASK nr))).
Definition test_bit (nr : Z) (addr : list Z) : option bool :=
  w ← rd addr (BIT_WORD nr);
  Some (negb (Z.land 1 (Z.shiftr w (Z.land nr (BITS_PER_LONG - 1))) =? 0)).

(** ** Reference: bit [i] of a bitmap *)

Definition words (b : list Z) : Prop := Forall is_u32 b.

Definition bit (b : list Z) (i : Z) : bool :=
  match rd b (i / 32) with Some w => Z.testbit w (i mod 32) | None => false end.

(** ** Lemmas *)

Lemma words_rd b i w : words b -> rd b i = Some w -> is_u32 w.
Proof. intros H [_ Hr]%rd_Some. by eapply Forall_lookup_1 in H. Qed.

Lemma bit_word b q w j : rd b q = Some w -> 0 <= j < 32 -> bit b (32 * q + j) = Z.testbit w j.
Proof.
  intros H Hj. unfold bit. replace ((32 * q + j) / 32) with q by (clear - Hj; Z.to_euclidean_division_equations; lia).
  rewrite H. f_equal. clear - Hj; Z.to_euclidean_division_equations; lia.
Qed.

Lemma bit_outside b i : i < 0 \/ 32 * zlen b <= i -> bit b i = false.
Proof.
  intros H. unfold bit. destruct (rd b (i / 32)) as [w|] eqn:E; [|done].
  apply rd_lt in E. exfalso. clear - H E. Z.to_euclidean_division_equations; lia.
Qed.

Lemma word_zero w : is_u32 w -> (forall j, 0 <= j < 32 -> Z.testbit w j = false) -> w = 0.
Proof.
  intros Hw H. apply Z.bits_inj'. intros j Hj. rewrite Z.bits_0.
  destruct (Z.ltb_spec j 32); [apply H; lia|]. apply (testbit_high w 32); [done|lia].
Qed.

(** The least set bit of a word, as the searches use it. *)
Lemma ffs_first w : is_u32 w -> w <> 0 -> 0 <= __ffs w < 32 /\ Z.testbit w (__ffs w) = true /\
  forall j, 0 <= j < __ffs w -> Z.testbit w j = false.
Proof.
  intros Hw H0. assert (0 < w) by (unfold is_u32 in Hw; lia).
  destruct (ffs_spec w) as (?&?&?); [done..|]. repeat split; try lia; try done.
  intros. by apply ffs_low.
Qed.

(** A search from [lo] among [size] bits ended at [r]. *)
Definition first_from (f : Z -> bool) (lo size r : Z) : Prop :=
  lo <= r <= size /\ (forall i, lo <= i < r -> f i = false) /\ (r < size -> f r = true).

Lemma land_not31 z : is_u32 z -> Z.land z (not32 (BITS_PER_LONG - 1)) = 32 * (z / 32).
Proof.
  intros Hz. change (not32 (BITS_PER_LONG - 1)) with (Z.shiftl (Z.ones 27) 5).
  assert (E : 32 * (z / 32) = Z.shiftl (Z.shiftr z 5) 5).
  { rewrite (Z.shiftl_mul_pow2 (Z.shiftr z 5)), Z.shiftr_div_pow2 by lia. change (2 ^ 5) with 32. lia. }
  rewrite E. bitwise_as i Hi. replace (i - 5 + 5) with i by lia.
  zcases; rewrite ?andb_true_r, ?andb_false_r; try done; try lia.
  cbn [andb]. symmetry. apply (testbit_high z 32); [done|lia].
Qed.

Lemma low_mask s : 0 < s <= 32 -> Z.shiftr 0xffffffff (BITS_PER_LONG - s) = Z.ones s.
Proof.
  intros. assert (H' : (fun s => Z.shiftr 0xffffffff (BITS_PER_LONG - s) =? Z.ones s) s = true).
  { assert (Hs : 0 <= s < 33) by lia. clear H. revert s Hs. apply forall_range. reflexivity. }
  by apply Z.eqb_eq in H'.
Qed.

Lemma high_mask o : 0 <= o < 32 -> forall i, 0 <= i ->
  Z.testbit (u32 (Z.shiftl 0xffffffff o)) i = (o <=? i) && (i <? 32).
Proof.
  intros Ho i Hi. change 0xffffffff with (Z.ones 32). autorewrite with kbits. zcases; simpl; lia || done.
Qed.

Lemma found_first_spec f w size result hi : is_u32 w -> 0 < size <= 32 ->
  0 <= result -> result + size = hi -> hi < 2 ^ 32 ->
  (forall j, 0 <= j < 32 -> f (result + j) = Z.testbit w j) ->
  first_from f result hi (found_first w size result).
Proof.
  intros Hw Hs Hr Hhi H32 Hf. unfold found_first. rewrite low_mask by lia.
  assert (Hb : forall j, 0 <= j -> Z.testbit (Z.land w (Z.ones size)) j = Z.testbit w j && (j <? size)).
  { intros j Hj. rewrite Z.land_spec, ones_testbit by lia. f_equal. zcases; done || lia. }
  assert (Hu : is_u32 (Z.land w (Z.ones size))).
  { pose proof (land_le w (Z.ones size)). unfold is_u32 in *. lia. }
  destruct (Z.eqb_spec (Z.land w (Z.ones size)) 0) as [E|E].
  - rewrite u32_small by (unfold is_u32; lia). split; [lia|]. split; [|lia].
    intros i Hi. replace i with (result + (i - result)) by lia. rewrite Hf by lia.
    specialize (Hb (i - result)). rewrite E, Z.bits_0 in Hb. zcases_in Hb; [|lia].
    rewrite andb_true_r in Hb. symmetry. apply Hb. lia.
  - unfold found_middle. destruct (ffs_first _ Hu E) as (Hr1&Hr2&Hr3). set (k := __ffs _) in *.
    rewrite Hb in Hr2 by lia. apply andb_true_iff in Hr2 as [Hk1 Hk2%Z.ltb_lt].
    rewrite u32_small by (unfold is_u32; lia). split; [lia|]. split.
    + intros i Hi. replace i with (result + (i - result)) by lia. rewrite Hf by lia.
      specialize (Hr3 (i - result) ltac:(lia)). rewrite Hb in Hr3 by lia.
      zcases_in Hr3; [|lia]. by rewrite andb_true_r in Hr3.
    + intros _. by rewrite Hf by lia.
Qed.

Lemma found_middle_spec f w result hi : is_u32 w -> w <> 0 -> 0 <= result -> result + 32 <= hi ->
  hi < 2 ^ 32 -> (forall j, 0 <= j < 32 -> f (result + j) = Z.testbit w j) ->
  first_from f result hi (found_middle w result).
Proof.
  intros Hw H0 Hr Hhi H32 Hf. unfold found_middle. destruct (ffs_first w Hw H0) as (Hr1&Hr2&Hr3).
  rewrite u32_small by (unfold is_u32; lia). split; [lia|]. split.
  - intros i Hi. replace i with (result + (i - result)) by lia. rewrite Hf by lia. apply Hr3. lia.
  - intros _. by rewrite Hf by lia.
Qed.

Lemma first_from_extend f lo mid hi r : lo <= mid -> (forall i, lo <= i < mid -> f i = false) ->
  first_from f mid hi r -> first_from f lo hi r.
Proof.
  intros Hm Hf (?&Hz&?). split; [lia|]. split; [|done]. intros i Hi.
  destruct (Z.ltb_spec i mid); [apply Hf|apply Hz]; lia.
Qed.

Lemma first_from_mask f lo off hi r : lo <= off <= hi ->
  first_from (fun i => (off <=? i) && f i) lo hi r -> first_from f off hi r.
Proof.
  intros Ho (Hr&Hz&Ht).
  assert (off <= r).
  { destruct (Z.eq_dec r hi) as [->|]; [lia|]. specialize (Ht ltac:(lia)). by apply andb_true_iff in Ht as [?%Z.leb_le _]. }
  split; [lia|]. split.
  - intros i Hi. specialize (Hz i ltac:(lia)). simpl in Hz. destruct (Z.leb_spec off i); [done|lia].
  - intros Hlt. specialize (Ht Hlt). by apply andb_true_iff in Ht as [_ ?].
Qed.

Lemma first_from_unique f lo hi r r' : first_from f lo hi r -> first_from f lo hi r' -> r = r'.
Proof.
  intros (H1&H2&H3) (H1'&H2'&H3'). destruct (Z.lt_trichotomy r r') as [Hlt|[?|Hlt]]; [|done|].
  - rewrite H2' in H3 by lia. discriminate H3. lia.
  - rewrite H2 in H3' by lia. discriminate H3'. lia.
Qed.

Lemma find_next_bit_loop_spec fuel addr p size result hi : words addr -> 0 <= p ->
  result = 32 * p -> 0 <= size -> result + size = hi -> hi < 2 ^ 32 -> hi <= 32 * zlen addr ->
  zlen addr - p < Z.of_nat fuel ->
  exists r, find_next_bit_loop fuel addr p size result = Some r /\ first_from (bit addr) result hi r.
Proof.
  intros Hw. revert p size result. induction fuel as [|fuel IH]; intros p size result Hp Hr Hs Hhi H32 Hl Hf;
    [lia|]. cbn [find_next_bit_loop].
  rewrite land_not31 by (unfold is_u32; lia).
  assert (Hrd : 0 < size -> exists w, rd addr p = Some w /\ is_u32 w /\
    forall j, 0 <= j < 32 -> bit addr (result + j) = Z.testbit w j).
  { intros Hpos. destruct (rd_is_Some addr p) as [w E]; [lia|]. exists w. repeat split.
    - done.
    - by eapply words_rd in E; destruct E.
    - by eapply words_rd in E; destruct E.
    - intros j Hj. rewrite Hr. by apply bit_word. }
  destruct (Z.leb_spec 32 size) as [H|H].
  - destruct (Z.eqb_spec (32 * (size / 32)) 0) as [E|_].
    { exfalso. clear - E H. Z.to_euclidean_division_equations; lia. }
    cbn [negb]. destruct Hrd as (w&->&Hu&Hb); [lia|]. rewrite some_bind.
    destruct (Z.eqb_spec w 0) as [->|Hn]; cbn [negb].
    + rewrite !u32_small by (unfold is_u32, BITS_PER_LONG; lia). unfold BITS_PER_LONG.
      destruct (IH (p + 1) (size - 32) (result + 32)) as (r&->&Hr'); try lia.
      exists r. split; [done|]. eapply first_from_extend; [|  |apply Hr']; [lia|].
      intros i Hi. replace i with (result + (i - result)) by lia. rewrite Hb by lia. apply Z.bits_0.
    + eexists. split; [done|]. apply found_middle_spec; try done; lia.
  - rewrite (proj2 (Z.eqb_eq (32 * (size / 32)) 0)) by (clear - H Hs; Z.to_euclidean_division_equations; lia).
    cbn [negb]. destruct (Z.eqb_spec size 0) as [->|].
    + exists result. split; [done|]. split; [lia|]. split; intros; lia.
    + destruct Hrd as (w&->&Hu&Hb); [lia|]. rewrite some_bind. eexists. split; [done|].
      apply found_first_spec; try done; lia.
Qed.

(** The whole search, with the bits below [offset] ignored. *)
Lemma find_next_bit_spec addr size offset : words addr -> 0 <= offset -> 0 <= size < 2 ^ 32 ->
  size <= 32 * zlen addr ->
  exists r, find_next_bit addr size offset = Some r /\
    (size <= offset -> r = size) /\ (offset <= size -> first_from (bit addr) offset size r).
Proof.
  intros Hw Ho Hs Hl. unfold find_next_bit.
  destruct (Z.geb_spec offset size) as [Hge|Hlt].
  { exists size. split; [done|]. split; [done|]. intros. assert (offset = size) as -> by lia.
    split; [lia|]. split; intros; lia. }
  rewrite land_not31 by (unfold is_u32; lia).
  set (q := offset / 32). set (o := offset mod 32).
  assert (Hq : offset = 32 * q + o /\ 0 <= o < 32 /\ 0 <= q) by (unfold q, o; clear - Ho; Z.to_euclidean_division_equations; lia).
  unfold BITOP_WORD, BITS_PER_LONG. fold q o.
  rewrite (u32_small (size - 32 * q)) by (unfold is_u32; lia).
  destruct (Z.eqb_spec o 0) as [E|E]; cbn [negb].
  { destruct (find_next_bit_loop_spec (S (length addr)) addr q (size - 32 * q) (32 * q) size) as (r&->&Hr); try done; try lia.
    exists r. split; [done|]. split; [lia|]. intros _. by replace offset with (32 * q) by lia. }
  destruct (rd_is_Some addr q) as [w Ew]; [lia|]. rewrite Ew, some_bind.
  assert (Hu : is_u32 w) by (eapply words_rd; done).
  set (tmp := Z.land w (u32 (Z.shiftl 4294967295 o))).
  assert (Ht : is_u32 tmp).
  { pose proof (land_le w (u32 (Z.shiftl 4294967295 o))). unfold tmp, is_u32 in *. lia. }
  assert (Hb : forall j, 0 <= j < 32 -> (fun i => (offset <=? i) && bit addr i) (32 * q + j) = Z.testbit tmp j).
  { intros j Hj. simpl. rewrite (bit_word addr q w j) by done. unfold tmp. rewrite Z.land_spec, high_mask by lia.
    destruct (Z.leb_spec offset (32 * q + j)), (Z.leb_spec o j), (Z.ltb_spec j 32); simpl;
      rewrite ?andb_true_r, ?andb_false_r; (done || lia). }
  exists (if size - 32 * q <? 32 then found_first tmp (size - 32 * q) (32 * q)
          else if negb (tmp =? 0) then found_middle tmp (32 * q)
          else default 0 (find_next_bit_loop (S (length addr)) addr (q + 1) (size - 32 * q - 32) (32 * q + 32))).
  destruct (Z.ltb_spec (size - 32 * q) 32).
  { split; [done|]. split; [lia|]. intros _. eapply (first_from_mask _ (32 * q)); [lia|].
    apply found_first_spec; try done; lia. }
  destruct (Z.eqb_spec tmp 0) as [E0|E0]; cbn [negb].
  - rewrite !u32_small by (unfold is_u32; lia).
    destruct (find_next_bit_loop_spec (S (length addr)) addr (q + 1) (size - 32 * q - 32) (32 * q + 32) size)
      as (r&->&Hr); try done; try lia.
    split; [done|]. split; [lia|]. intros _. simpl.
    eapply first_from_extend; [| |exact Hr]; [lia|]. intros i Hi.
    specialize (Hb (i - 32 * q) ltac:(lia)). cbv beta in Hb. rewrite E0, Z.bits_0 in Hb.
    replace (32 * q + (i - 32 * q)) with i in Hb by lia. destruct (Z.leb_spec offset i); [done|lia].
  - split; [done|]. split; [lia|]. intros _. eapply (first_from_mask _ (32 * q)); [lia|].
    apply found_middle_spec; try done; lia.
Qed.

(** *** Zero bits: the same search in the complemented words *)

Lemma not32_range w : is_u32 (not32 w).
Proof. apply u32_range. Qed.

Lemma found_first_zero_not tmp size result : is_u32 tmp -> 0 < size < 32 ->
  found_first_zero tmp size result = found_first (not32 tmp) size result.
Proof.
  intros Hu Hs. unfold found_first_zero, found_first.
  rewrite low_mask by lia.
  assert (E : not32 (Z.lor tmp (u32 (Z.shiftl 4294967295 size))) = Z.land (not32 tmp) (Z.ones size)).
  { apply Z.bits_inj'. intros i Hi. rewrite not32_testbit, Z.land_spec, not32_testbit, Z.lor_spec, high_mask, ones_testbit by lia.
    zcases; simpl; rewrite ?orb_true_r, ?orb_false_r, ?andb_true_r, ?andb_false_r; (done || lia). }
  unfold found_middle_zero, ffz. rewrite E.
  set (t := Z.lor _ _) in *.
  assert (Ht : is_u32 t).
  { unfold t, is_u32. split; [apply Z.lor_nonneg; split; [unfold is_u32 in Hu; lia|apply u32_range]|].
    apply bounded_of_bits; [lia|apply Z.lor_nonneg; split; [unfold is_u32 in Hu; lia|apply u32_range]|].
    intros i Hi. rewrite Z.lor_spec, high_mask by lia. rewrite (testbit_high tmp 32) by (done || lia).
    destruct (Z.ltb_spec i 32); [lia|]. by rewrite andb_false_r. }
  assert (Hz : t = 4294967295 <-> Z.land (not32 tmp) (Z.ones size) = 0).
  { rewrite <- E. split; [intros ->; reflexivity|]. intros H. apply Z.bits_inj'. intros i Hi.
    assert (Hi' : Z.testbit (not32 t) i = false) by (rewrite H; apply Z.bits_0).
    rewrite not32_testbit in Hi'. change 4294967295 with (Z.ones 32). rewrite ones_testbit by lia.
    destruct (Z.ltb_spec i 32); [|rewrite (testbit_high t 32) by (done || lia); by rewrite andb_false_r].
    destruct (Z.leb_spec 0 i); [|lia]. simpl in *. by destruct (Z.testbit t i). }
  destruct (Z.eqb_spec t 4294967295) as [Et|Et], (Z.eqb_spec (Z.land (not32 tmp) (Z.ones size)) 0) as [Ez|Ez];
    try done; exfalso; tauto.
Qed.

Lemma find_next_zero_bit_loop_not fuel addr p size result : words addr -> is_u32 size ->
  find_next_zero_bit_loop fuel addr p size result = find_next_bit_loop fuel (map not32 addr) p size result.
Proof.
  intros Hw. revert p size result. induction fuel as [|fuel IH]; intros p size result Hs; [done|].
  cbn [find_next_bit_loop find_next_zero_bit_loop]. rewrite rd_map, land_not31 by done.
  destruct (Z.eqb_spec (32 * (size / 32)) 0) as [E|E]; cbn [negb].
  - destruct (Z.eqb_spec size 0); [done|]. destruct (rd addr p) as [w|] eqn:Ew; [|done].
    simpl. f_equal. apply found_first_zero_not.
    + by eapply words_rd.
    + unfold is_u32 in Hs. clear - E Hs n. Z.to_euclidean_division_equations; lia.
  - destruct (rd addr p) as [w|] eqn:Ew; [|done].
    change (not32 <$> Some w) with (Some (not32 w)). rewrite !some_bind.
    destruct (not32 w =? 0); cbn [negb]; [|done]. apply IH, u32_range.
Qed.

Lemma find_next_zero_bit_not addr size offset : words addr -> is_u32 size -> 0 <= offset ->
  find_next_zero_bit addr size offset = find_next_bit (map not32 addr) size offset.
Proof.
  intros Hw Hs Ho. unfold find_next_zero_bit, find_next_bit.
  destruct (Z.geb_spec offset size); [done|].
  rewrite rd_map. destruct (Z.eqb_spec (offset mod BITS_PER_LONG) 0) as [E|E]; cbn [negb].
  { rewrite length_map. apply find_next_zero_bit_loop_not; [done|apply u32_range]. }
  destruct (rd addr (BITOP_WORD offset)) as [w|] eqn:Ew; [|done].
  change (not32 <$> Some w) with (Some (not32 w)). rewrite !some_bind.
  assert (Hu : is_u32 w) by (eapply words_rd; done).
  set (o := offset mod BITS_PER_LONG) in *.
  assert (0 < o < 32) by (unfold o, BITS_PER_LONG in *; clear - E; Z.to_euclidean_division_equations; lia).
  set (sz := u32 (size - _)). assert (Hsz : is_u32 sz) by apply u32_range.
  rewrite low_mask by lia.
  assert (Et : not32 (Z.lor w (Z.ones o)) = Z.land (not32 w) (u32 (Z.shiftl 4294967295 o))).
  { apply Z.bits_inj'. intros i Hi. rewrite not32_testbit, Z.land_spec, not32_testbit, Z.lor_spec, high_mask, ones_testbit by lia.
    zcases; simpl; rewrite ?orb_true_r, ?orb_false_r, ?andb_true_r, ?andb_false_r; (done || lia). }
  assert (Hl : is_u32 (Z.lor w (Z.ones o))).
  { unfold is_u32 in *. split; [apply Z.lor_nonneg; rewrite Z.ones_equiv; lia|].
    apply bounded_of_bits; [lia|apply Z.lor_nonneg; rewrite Z.ones_equiv; lia|].
    intros i Hi. rewrite Z.lor_spec, (testbit_high w 32), ones_testbit by (done || lia).
    zcases; simpl; (done || lia). }
  rewrite length_map. fold (u32 (Z.shiftl 4294967295 o)). rewrite <- Et.
  destruct (Z.ltb_spec sz BITS_PER_LONG) as [Hlt|Hge].
  - f_equal. apply found_first_zero_not; [done|]. unfold BITS_PER_LONG in Hlt.
    destruct (Z.eq_dec sz 0) as [E0|]; [|unfold is_u32 in Hsz; lia]. exfalso.
    unfold sz in E0. rewrite land_not31, u32_small in E0
      by (unfold is_u32 in *; clear - Ho Hs H; Z.to_euclidean_division_equations; lia).
    clear - E0 H Ho. Z.to_euclidean_division_equations; lia.
  - destruct (not32 (Z.lor w (Z.ones o)) =? 0); cbn [negb]; [|done].
    apply find_next_zero_bit_loop_not; [done|apply u32_range].
Qed.

Lemma words_not addr : words addr -> words (map not32 addr).
Proof. intros H. apply Forall_map. eapply Forall_impl; [done|]. intros. apply not32_range. Qed.

Lemma bit_not addr i : 0 <= i < 32 * zlen addr -> bit (map not32 addr) i = negb (bit addr i).
Proof.
  intros Hi. unfold bit. rewrite rd_map.
  destruct (rd_is_Some addr (i / 32)) as [w ->]; [clear - Hi; Z.to_euclidean_division_equations; lia|].
  simpl. rewrite not32_testbit. assert (0 <= i mod 32 < 32) by (apply Z.mod_pos_bound; lia).
  zcases; (done || lia).
Qed.

(** *** Single bits *)

Lemma bit_wr b b' q v i : wr b q v = Some b' -> 
  bit b' i = if i / 32 =? q then Z.testbit v (i mod 32) else bit b i.
Proof.
  intros H. unfold bit. destruct (Z.eqb_spec (i / 32) q) as [->|Hn].
  - by erewrite rd_wr_eq.
  - by erewrite rd_wr_ne by (done || eauto).
Qed.

Lemma words_wr b b' q v : words b -> is_u32 v -> wr b q v = Some b' -> words b'.
Proof. intros Hb Hv H. apply wr_inv in H as [_ ->]. by apply Forall_insert. Qed.

Lemma BIT_MASK_testbit nr j : 0 <= j -> Z.testbit (BIT_MASK nr) j = (j =? nr mod 32).
Proof.
  intros Hj. unfold BIT_MASK, BITS_PER_LONG. rewrite Z.shiftl_1_l.
  assert (0 <= nr mod 32) by (apply Z.mod_pos_bound; lia).
  destruct (Z.eqb_spec j (nr mod 32)) as [->|]; [by apply Z.pow2_bits_true|by apply Z.pow2_bits_false; auto].
Qed.

Lemma BIT_MASK_range nr : is_u32 (BIT_MASK nr).
Proof.
  unfold BIT_MASK, BITS_PER_LONG, is_u32. rewrite Z.shiftl_1_l.
  assert (0 <= nr mod 32 < 32) by (apply Z.mod_pos_bound; lia).
  split; [apply Z.pow_nonneg; lia|apply Z.pow_lt_mono_r; lia].
Qed.

Lemma lor_range a b : is_u32 a -> is_u32 b -> is_u32 (Z.lor a b).
Proof.
  intros Ha Hb. unfold is_u32 in *. assert (0 <= Z.lor a b) by (apply Z.lor_nonneg; lia).
  split; [done|]. apply bounded_of_bits; [lia|done|]. intros i Hi.
  by rewrite Z.lor_spec, (testbit_high a 32), (testbit_high b 32).
Qed.

Lemma land_range a b : is_u32 a -> is_u32 (Z.land a b).
Proof. intros Ha. unfold is_u32 in *. pose proof (land_le a b). lia. Qed.

Lemma same_bit i nr : 0 <= i -> i / 32 = nr / 32 -> (i mod 32 =? nr mod 32) = (i =? nr).
Proof.
  intros Hi H. destruct (Z.eqb_spec (i mod 32) (nr mod 32)), (Z.eqb_spec i nr); try done; exfalso.
  - clear Hi. Z.to_euclidean_division_equations; lia.
  - congruence.
Qed.

Lemma set_bit_spec nr addr : words addr -> 0 <= nr < 32 * zlen addr ->
  exists addr', set_bit nr addr = Some addr' /\ words addr' /\ length addr' = length addr /\
    forall i, 0 <= i -> bit addr' i = (i =? nr) || bit addr i.
Proof.
  intros Hw Hn. unfold set_bit. assert (0 <= BIT_WORD nr < zlen addr).
  { unfold BIT_WORD, BITS_PER_LONG. clear - Hn. Z.to_euclidean_division_equations; lia. }
  destruct (rd_is_Some addr (BIT_WORD nr)) as [w Ew]; [done|]. rewrite Ew, some_bind.
  set (v := Z.lor _ _). destruct (wr addr (BIT_WORD nr) v) as [a'|] eqn:E; [|by rewrite wr_Some in E].
  exists a'. split; [done|]. split.
  { eapply words_wr; [done| |done]. apply lor_range; [by eapply words_rd|apply BIT_MASK_range]. }
  split; [by eapply wr_length|]. intros i Hi. erewrite bit_wr by done.
  destruct (Z.eqb_spec (i / 32) (BIT_WORD nr)) as [Ei|Ei].
  - unfold v. rewrite Z.lor_spec, BIT_MASK_testbit by (apply Z.mod_pos_bound; lia).
    unfold bit. rewrite Ei, Ew. rewrite same_bit by done. apply orb_comm.
  - destruct (Z.eqb_spec i nr) as [->|]; [done|]. done.
Qed.

Lemma clear_bit_spec nr addr : words addr -> 0 <= nr < 32 * zlen addr ->
  exists addr', clear_bit nr addr = Some addr' /\ words addr' /\ length addr' = length addr /\
    forall i, 0 <= i -> bit addr' i = negb (i =? nr) && bit addr i.
Proof.
  intros Hw Hn. unfold clear_bit. assert (0 <= BIT_WORD nr < zlen addr).
  { unfold BIT_WORD, BITS_PER_LONG. clear - Hn. Z.to_euclidean_division_equations; lia. }
  destruct (rd_is_Some addr (BIT_WORD nr)) as [w Ew]; [done|]. rewrite Ew, some_bind.
  set (v := Z.land _ _). destruct (wr addr (BIT_WORD nr) v) as [a'|] eqn:E; [|by rewrite wr_Some in E].
  exists a'. split; [done|]. split.
  { eapply words_wr; [done| |done]. apply land_range. by eapply words_rd. }
  split; [by eapply wr_length|]. intros i Hi. erewrite bit_wr by done.
  assert (0 <= i mod 32 < 32) by (apply Z.mod_pos_bound; lia).
  destruct (Z.eqb_spec (i / 32) (BIT_WORD nr)) as [Ei|Ei].
  - unfold v. rewrite Z.land_spec, not32_testbit, BIT_MASK_testbit by lia.
    unfold bit. rewrite Ei, Ew. rewrite same_bit by done.
    destruct (Z.ltb_spec (i mod 32) 32), (Z.leb_spec 0 (i mod 32)); try lia. apply andb_comm.
  - destruct (Z.eqb_spec i nr) as [->|]; [done|]. done.
Qed.

Lemma test_bit_spec nr addr : words addr -> 0 <= nr < 32 * zlen addr ->
  test_bit nr addr = Some (bit addr nr).
Proof.
  intros Hw Hn. unfold test_bit, bit, BIT_WORD. change BITS_PER_LONG with 32.
  destruct (rd_is_Some addr (nr / 32)) as [w Ew]; [clear - Hn; Z.to_euclidean_division_equations; lia|].
  rewrite Ew, some_bind. f_equal. change (32 - 1) with (2 ^ 5 - 1). rewrite land_mask by lia.
  change (2 ^ 5) with 32. assert (0 <= nr mod 32 < 32) by (apply Z.mod_pos_bound; lia).
  rewrite Z.land_comm. change 1 with (2 ^ 1 - 1) at 1. rewrite land_mask by lia. change (2 ^ 1) with 2.
  rewrite <- Z.bit0_mod, Z.shiftr_spec by lia. rewrite Z.add_0_l. by destruct (Z.testbit w _).
Qed.

(** ** Properties *)

(** [find_next_bit] and [find_next_zero_bit] end, read only words of the
    bitmap, and return the least set, respectively clear, bit from [offset] on,
    or [size] when there is none below [size]. *)
Theorem find_next_bit_least addr size offset : words addr -> 0 <= offset <= size ->
  size <= 32 * zlen addr -> size < 2 ^ 32 ->
  exists r z, find_next_bit addr size offset = Some r /\ find_next_zero_bit addr size offset = Some z /\
    first_from (bit addr) offset size r /\ first_from (fun i => negb (bit addr i)) offset size z.
Proof.
  intros Hw Ho Hl H32. destruct (find_next_bit_spec addr size offset) as (r&Hr&_&Hf); try done; try lia.
  destruct (find_next_bit_spec (map not32 addr) size offset) as (z&Hz&_&Hg);
    [by apply words_not|lia|lia|rewrite length_map; lia|].
  exists r, z. rewrite find_next_zero_bit_not by (unfold is_u32; (done || lia)).
  repeat (split; [done || (apply Hf; lia)|]). destruct (Hg ltac:(lia)) as (H1&H2&H3).
  split; [done|]. split.
  - intros i Hi. rewrite <- bit_not by lia. by apply H2.
  - intros Hlt. rewrite <- bit_not by lia. by apply H3.
Qed.

Lemma find_next_bit_least_witness :
  exists r z, find_next_bit [0x80; 0xfffffff0] 60 8 = Some r /\
    find_next_zero_bit [0x80; 0xfffffff0] 60 8 = Some z /\
    first_from (bit [0x80; 0xfffffff0]) 8 60 r /\
    first_from (fun i => negb (bit [0x80; 0xfffffff0] i)) 8 60 z.
Proof.
  apply find_next_bit_least; [|lia|simpl; lia|lia].
  repeat (constructor; [unfold is_u32; lia|]). constructor.
Defined.
