(* ===== verification/Bitmap.v ===== *)
(** * Bitmaps (lib/bitmap.c)

    Sources and destination of an operation are separate lists of words; where
    the code runs with both the same (__bitmap_parse shifts in place), the
    source is [None], and every read sees the words stored so far.  [bits] is
    not negative. *)

From S2P Require Import Prelude Bits Ctype StringLib Strtol Vsprintf FindBit.
From Stdlib Require Import Ascii String.
#[local] Abbreviation length := Datatypes.length.

#[local] Open Scope char_scope.
#[local] Open Scope Z_scope.

Definition BITS_TO_LONGS (nr : Z) : Z := (nr + BITS_PER_LONG - 1) / BITS_PER_LONG.
Definition BITMAP_LAST_WORD_MASK (nbits : Z) : Z :=
  if negb (nbits mod BITS_PER_LONG =? 0)
  then u32 (Z.shiftl 1 (nbits mod BITS_PER_LONG) - 1) else 0xffffffff.

(** ** Comparing *)

(** [for (k = 0; k < lim; ++k) if (test) return 0;]: does no word satisfy the test? *)
Fixpoint no_word (n : nat) (test : Z -> option bool) (k : Z) : option bool :=
  match n with
  | O => Some true
  | S n => t ← test k; if t : bool then Some false else no_word n test (k + 1)
  end.

(** The full words, then the valid bits of the last one: is [test] 0 everywhere? *)
Definition all_zero (test : Z -> option Z) (bits : Z) : option bool :=
  let lim := bits / BITS_PER_LONG in
  b ← no_word (Z.to_nat lim) (fun k => w ← test k; Some (negb (w =? 0))) 0;
  if negb b then Some false else
  if negb (bits mod BITS_PER_LONG =? 0) then
    w ← test lim; Some (Z.land w (BITMAP_LAST_WORD_MASK bits) =? 0)
  else Some true.

Definition __bitmap_empty (bitmap : list Z) (bits : Z) : option bool :=
  all_zero (fun k => rd bitmap k) bits.
Definition __bitmap_full (bitmap : list Z) (bits : Z) : option bool :=
  all_zero (fun k => w ← rd bitmap k; Some (not32 w)) bits.
Definition __bitmap_equal (bitmap1 bitmap2 : list Z) (bits : Z) : option bool :=
  all_zero (fun k => a ← rd bitmap1 k; b ← rd bitmap2 k; Some (Z.lxor a b)) bits.
Definition __bitmap_intersects (bitmap1 bitmap2 : list Z) (bits : Z) : option bool :=
  r ← all_zero (fun k => a ← rd bitmap1 k; b ← rd bitmap2 k; Some (Z.land a b)) bits; Some (negb r).
Definition __bitmap_subset (bitmap1 bitmap2 : list Z) (bits : Z) : option bool :=
  all_zero (fun k => a ← rd bitmap1 k; b ← rd bitmap2 k; Some (Z.land a (not32 b))) bits.

Fixpoint weight_loop (n : nat) (bitmap : list Z) (k w : Z) : option Z :=
  match n with
  | O => Some w
  | S n => x ← rd bitmap k; weight_loop n bitmap (k + 1) (w + hweight_long x)
  end.
Definition __bitmap_weight (bitmap : list Z) (bits : Z) : option Z :=
  let lim := bits / BITS_PER_LONG in
  w ← weight_loop (Z.to_nat lim) bitmap 0 0;
  if negb (bits mod BITS_PER_LONG =? 0) then
    x ← rd bitmap lim; Some (w + hweight_long (Z.land x (BITMAP_LAST_WORD_MASK bits)))
  else Some w.
Definition bitmap_weight (src : list Z) (nbits : Z) : option Z :=
  if nbits <=? BITS_PER_LONG then
    x ← rd src 0; Some (hweight_long (Z.land x (BITMAP_LAST_WORD_MASK nbits)))
  else __bitmap_weight src nbits.

(** ** Word by word *)

(** [for (; n; ++k, --n) dst[k] = f(k);] *)
Fixpoint store_words (n : nat) (f : Z -> option Z) (k : Z) (dst : list Z) : option (list Z) :=
  match n with
  | O => Some dst
  | S n => w ← f k; dst ← wr dst k w; store_words n f (k + 1) dst
  end.

Definition __bitmap_complement (dst src : list Z) (bits : Z) : option (list Z) :=
  let lim := bits / BITS_PER_LONG in
  dst ← store_words (Z.to_nat lim) (fun k => w ← rd src k; Some (not32 w)) 0 dst;
  if negb (bits mod BITS_PER_LONG =? 0) then
    w ← rd src lim; wr dst lim (Z.land (not32 w) (BITMAP_LAST_WORD_MASK bits))
  else Some dst.

Definition word_op (op : Z -> Z -> Z) (dst bitmap1 bitmap2 : list Z) (bits : Z) : option (list Z) :=
  store_words (Z.to_nat (BITS_TO_LONGS bits))
    (fun k => a ← rd bitmap1 k; b ← rd bitmap2 k; Some (op a b)) 0 dst.
Definition __bitmap_and := word_op Z.land.
Definition __bitmap_or := word_op Z.lor.
Definition __bitmap_xor := word_op Z.lxor.
Definition __bitmap_andnot := word_op (fun a b => Z.land a (not32 b)).

(** [memset(dst + k, 0, n * sizeof(unsigned long))] *)
Definition zero_words (dst : list Z) (k n : Z) : option (list Z) :=
  store_words (Z.to_nat n) (fun _ => Some 0) k dst.

Definition bitmap_zero (dst : list Z) (nbits : Z) : option (list Z) :=
  if nbits <=? BITS_PER_LONG then wr dst 0 0 else zero_words dst 0 (BITS_TO_LONGS nbits).

(** ** Shifts *)

Definition shift_right_word (src : list Z) (off rem lim left mask k : Z) : option Z :=
  upper ← (if (rem =? 0) || (off + k + 1 >=? lim) then Some 0
           else w ← rd src (off + k + 1);
                Some (if (off + k + 1 =? lim - 1) && negb (left =? 0) then Z.land w mask else w));
  lower ← rd src (off + k);
  let lower := if negb (left =? 0) && (off + k =? lim - 1) then Z.land lower mask else lower in
  let d := Z.lor (u32 (Z.shiftl upper (BITS_PER_LONG - rem))) (Z.shiftr lower rem) in
  Some (if negb (left =? 0) && (k =? lim - 1) then Z.land d mask else d).

Fixpoint shift_right_loop (n : nat) (src : option (list Z)) (off rem lim left mask k : Z) (dst : list Z)
    : option (list Z) :=
  match n with
  | O => Some dst
  | S n =>
    w ← shift_right_word (default dst src) off rem lim left mask k;
    dst ← wr dst k w;
    shift_right_loop n src off rem lim left mask (k + 1) dst
  end.

Definition __bitmap_shift_right (dst : list Z) (src : option (list Z)) (shift bits : Z) : option (list Z) :=
  let lim := BITS_TO_LONGS bits in
  let left := bits mod BITS_PER_LONG in
  let off := shift / BITS_PER_LONG in
  let rem := shift mod BITS_PER_LONG in
  let mask := u32 (Z.shiftl 1 left - 1) in
  dst ← shift_right_loop (Z.to_nat (lim - off)) src off rem lim left mask 0 dst;
  if negb (off =? 0) then zero_words dst (lim - off) off else Some dst.

Definition shift_left_word (src : list Z) (off rem lim left k : Z) : option Z :=
  lower ← (if negb (rem =? 0) && (0 <? k) then rd src (k - 1) else Some 0);
  upper ← rd src k;
  let upper := if negb (left =? 0) && (k =? lim - 1) then Z.land upper (u32 (Z.shiftl 1 left - 1)) else upper in
  let d := Z.lor (Z.shiftr lower (BITS_PER_LONG - rem)) (u32 (Z.shiftl upper rem)) in
  Some (if negb (left =? 0) && (k + off =? lim - 1) then Z.land d (u32 (Z.shiftl 1 left - 1)) else d).

(** [for (k = lim - off - 1; k >= 0; --k)]: [n] is [k + 1] *)
Fixpoint shift_left_loop (n : nat) (src : option (list Z)) (off rem lim left : Z) (dst : list Z)
    : option (list Z) :=
  match n with
  | O => Some dst
  | S n =>
    let k := Z.of_nat n in
    w ← shift_left_word (default dst src) off rem lim left k;
    dst ← wr dst (k + off) w;
    shift_left_loop n src off rem lim left dst
  end.

Definition __bitmap_shift_left (dst : list Z) (src : option (list Z)) (shift bits : Z) : option (list Z) :=
  let lim := BITS_TO_LONGS bits in
  let left := bits mod BITS_PER_LONG in
  let off := shift / BITS_PER_LONG in
  let rem := shift mod BITS_PER_LONG in
  dst ← shift_left_loop (Z.to_nat (lim - off)) src off rem lim left dst;
  if negb (off =? 0) then zero_words dst 0 off else Some dst.

(** ** Printing and parsing *)

Definition CHUNKSZ : Z := 32.
Definition nbits_to_hold_value (val : Z) : Z := fls val.
Definition unhex (c : Z) : Z := if isdigit c then c - ch "0" else toupper c - ch "A" + 10.
Definition BASEDEC : Z := 10.
Definition EFAULT : Z := 14.

(** [scnprintf(buf + len, size, ...)]; [addr] is the address of [buf]. *)
Definition scnprintf_at (addr : Z) (buf : list Z) (len size : Z) (fmt : list Z) (args : list va)
    : option (list Z * Z) :=
  '(b, n, _) ← scnprintf (u32 (addr + len)) (drop (Z.to_nat len) buf) (u32 size) fmt args;
  Some (take (Z.to_nat len) buf ++ b, s32 (len + n)).

(** The loop over the chunks, from the highest; [n] is [i / CHUNKSZ + 1]. *)
Fixpoint bitmap_scnprintf_loop (n : nat) (addr : Z) (buf : list Z) (buflen : Z) (maskp : list Z)
    (chunksz len : Z) (sep : list Z) : option (list Z * Z) :=
  match n with
  | O => Some (buf, len)
  | S n =>
    let i := CHUNKSZ * Z.of_nat n in
    let chunkmask := u32 (Z.shiftl 1 chunksz - 1) in
    w ← rd maskp (i / BITS_PER_LONG);
    let val := Z.land (Z.shiftr w (i mod BITS_PER_LONG)) chunkmask in
    '(buf, len) ← scnprintf_at addr buf len (buflen - len) (cstr "%s%0*lx")
                    [VStr (Some sep); VWord ((chunksz + 3) / 4); VWord val];
    bitmap_scnprintf_loop n addr buf buflen maskp CHUNKSZ len (cstr ",")
  end.

Definition bitmap_scnprintf (addr : Z) (buf : list Z) (buflen : Z) (maskp : list Z) (nmaskbits : Z)
    : option (list Z * Z) :=
  let chunksz := Z.land nmaskbits (CHUNKSZ - 1) in
  let chunksz := if chunksz =? 0 then CHUNKSZ else chunksz in
  bitmap_scnprintf_loop (Z.to_nat ((nmaskbits + CHUNKSZ - 1) / CHUNKSZ)) addr buf buflen maskp chunksz 0 (cstr "").

(** The next byte: user memory outside the buffer faults, kernel memory is not
    checked. *)
Inductive fetched := Byte (c : Z) | Fault.
Definition fetch (is_user : bool) (buf : list Z) : option fetched :=
  match buf with
  | c :: _ => Some (Byte c)
  | [] => if is_user then Some Fault else None
  end.

(** [while (buflen)]: one chunk.  The result is an error code, or the rest of
    the buffer, [buflen], [chunk], [ndigits], [totaldigits] and [c]. *)
Fixpoint parse_chunk (fuel : nat) (is_user : bool) (buf : list Z) (buflen chunk ndigits totaldigits c : Z)
    : option (Z + list Z * Z * Z * Z * Z * Z) :=
  match fuel with
  | O => None
  | S fuel =>
    if buflen =? 0 then Some (inr (buf, buflen, chunk, ndigits, totaldigits, c)) else
    let old_c := c in
    f ← fetch is_user buf;
    match f with
    | Fault => Some (inl (- EFAULT))
    | Byte c =>
      let buf := tail buf in
      let buflen := buflen - 1 in
      if isspace c then parse_chunk fuel is_user buf buflen chunk ndigits totaldigits c
      else if negb (totaldigits =? 0) && negb (c =? 0) && isspace old_c then Some (inl (- EINVAL))
      else if (c =? 0) || (c =? ch ",") then Some (inr (buf, buflen, chunk, ndigits, totaldigits, c))
      else if negb (isxdigit c) then Some (inl (- EINVAL))
      else if negb (Z.land chunk (not32 (Z.shiftl 1 (CHUNKSZ - 4) - 1)) =? 0) then Some (inl (- EOVERFLOW))
      else parse_chunk fuel is_user buf buflen (Z.lor (u32 (Z.shiftl chunk 4)) (unhex c))
             (ndigits + 1) (totaldigits + 1) c
    end
  end.

(** The [do ... while] over the chunks; each turn but the last consumes a comma.
    The result is the mask and the code returned. *)
Fixpoint parse_chunks (fuel : nat) (is_user : bool) (buf : list Z) (buflen : Z) (maskp : list Z)
    (nmaskbits nchunks nbits totaldigits c : Z) : option (list Z * Z) :=
  match fuel with
  | O => None
  | S fuel =>
    r ← parse_chunk (S (length buf)) is_user buf buflen 0 0 totaldigits c;
    match r with
    | inl e => Some (maskp, e)
    | inr (buf, buflen, chunk, ndigits, totaldigits, c) =>
      let again := negb (buflen =? 0) && (c =? ch ",") in
      if ndigits =? 0 then Some (maskp, - EINVAL) else
      if (nchunks =? 0) && (chunk =? 0) then
        if again then parse_chunks fuel is_user buf buflen maskp nmaskbits nchunks nbits totaldigits c
        else Some (maskp, 0)
      else
        maskp ← __bitmap_shift_left maskp None CHUNKSZ nmaskbits;
        w ← rd maskp 0;
        maskp ← wr maskp 0 (Z.lor w chunk);
        let nchunks := nchunks + 1 in
        let nbits := nbits + (if nchunks =? 1 then nbits_to_hold_value chunk else CHUNKSZ) in
        if nbits >? nmaskbits then Some (maskp, - EOVERFLOW)
        else if again then parse_chunks fuel is_user buf buflen maskp nmaskbits nchunks nbits totaldigits c
        else Some (maskp, 0)
    end
  end.

Definition __bitmap_parse (buf : list Z) (buflen : Z) (is_user : bool) (maskp : list Z) (nmaskbits : Z)
    : option (list Z * Z) :=
  maskp ← bitmap_zero maskp nmaskbits;
  parse_chunks (S (length buf)) is_user buf buflen maskp nmaskbits 0 0 0 0.

(** [access_ok] is the architecture's. *)
Definition bitmap_parse_user (access_ok : list Z -> Z -> bool) (ubuf : list Z) (ulen : Z) (maskp : list Z)
    (nmaskbits : Z) : option (list Z * Z) :=
  if negb (access_ok ubuf ulen) then Some (maskp, - EFAULT)
  else __bitmap_parse ubuf ulen true maskp nmaskbits.

Definition bscnl_emit (addr : Z) (buf : list Z) (buflen rbot rtop len : Z) : option (list Z * Z) :=
  '(buf, len) ← (if 0 <? len then scnprintf_at addr buf len (buflen - len) (cstr ",") [] else Some (buf, len));
  if rbot =? rtop then scnprintf_at addr buf len (buflen - len) (cstr "%d") [VWord rbot]
  else scnprintf_at addr buf len (buflen - len) (cstr "%d-%d") [VWord rbot; VWord rtop].

Fixpoint scnlist_loop (fuel : nat) (addr : Z) (buf : list Z) (buflen : Z) (maskp : list Z) (nmaskbits cur rbot len : Z)
    : option (list Z * Z) :=
  match fuel with
  | O => None
  | S fuel =>
    if cur <? nmaskbits then
      let rtop := cur in
      cur ← find_next_bit maskp nmaskbits (cur + 1);
      '(buf, len, rbot) ←
        (if (nmaskbits <=? cur) || (rtop + 1 <? cur) then
           '(buf, len) ← bscnl_emit addr buf buflen rbot rtop len; Some (buf, len, cur)
         else Some (buf, len, rbot));
      scnlist_loop fuel addr buf buflen maskp nmaskbits cur rbot len
    else Some (buf, len)
  end.

Definition bitmap_scnlistprintf (addr : Z) (buf : list Z) (buflen : Z) (maskp : list Z) (nmaskbits : Z)
    : option (list Z * Z) :=
  if buflen =? 0 then Some (buf, 0) else
  buf ← wr buf 0 0;
  cur ← find_first_bit maskp nmaskbits;
  scnlist_loop (S (Z.to_nat nmaskbits)) addr buf buflen maskp nmaskbits cur cur 0.

(** [while (a <= b) { set_bit(a, maskp); a++; }] *)
Fixpoint set_range (n : nat) (a : Z) (maskp : list Z) : option (list Z) :=
  match n with
  | O => Some maskp
  | S n => maskp ← set_bit a maskp; set_range n (a + 1) maskp
  end.

Fixpoint parselist_loop (fuel : nat) (bp : list Z) (maskp : list Z) (nmaskbits : Z) : option (list Z * Z) :=
  match fuel with
  | O => None
  | S fuel =>
    d ← deref bp;
    if negb (isdigit d) then Some (maskp, - EINVAL) else
    '(a, bp) ← simple_strtoul bp BASEDEC;
    d ← deref bp;
    r ← (if d =? ch "-" then
           let bp := tail bp in
           d ← deref bp;
           if negb (isdigit d) then Some (inl (- EINVAL))
           else '(b, bp) ← simple_strtoul bp BASEDEC; Some (inr (b, bp))
         else Some (inr (a, bp)));
    match r with
    | inl e => Some (maskp, e)
    | inr (b, bp) =>
      if negb (a <=? b) then Some (maskp, - EINVAL) else
      if b >=? nmaskbits then Some (maskp, - ERANGE) else
      maskp ← set_range (Z.to_nat (b - a + 1)) a maskp;
      d ← deref bp;
      let bp := if d =? ch "," then tail bp else bp in
      d ← deref bp;
      if negb (d =? 0) && negb (d =? 10) then parselist_loop fuel bp maskp nmaskbits
      else Some (maskp, 0)
    end
  end.

Definition bitmap_parselist (bp maskp : list Z) (nmaskbits : Z) : option (list Z * Z) :=
  maskp ← bitmap_zero maskp nmaskbits;
  parselist_loop (S (length bp)) bp maskp nmaskbits.

(** ** Remapping *)

Fixpoint pos_to_ord_loop (fuel : nat) (buf : list Z) (pos bits i ord : Z) : option Z :=
  match fuel with
  | O => None
  | S fuel =>
    if i <? pos then
      i ← find_next_bit buf bits (i + 1); pos_to_ord_loop fuel buf pos bits i (ord + 1)
    else if negb (i =? pos) then None  (* BUG_ON *)
    else Some ord
  end.

Definition bitmap_pos_to_ord (buf : list Z) (pos bits : Z) : option Z :=
  if (pos <? 0) || (pos >=? bits) then Some (-1) else
  t ← test_bit pos buf;
  if negb t then Some (-1) else
  i ← find_first_bit buf bits;
  pos_to_ord_loop (S (Z.to_nat bits)) buf pos bits i 0.

Fixpoint ord_to_pos_loop (fuel : nat) (buf : list Z) (bits i ord : Z) : option (Z * Z) :=
  match fuel with
  | O => None
  | S fuel =>
    if (i <? bits) && (0 <? ord) then
      i ← find_next_bit buf bits (i + 1); ord_to_pos_loop fuel buf bits i (ord - 1)
    else Some (i, ord)
  end.

Definition bitmap_ord_to_pos (buf : list Z) (ord bits : Z) : option Z :=
  if (0 <=? ord) && (ord <? bits) then
    i ← find_first_bit buf bits;
    '(i, ord) ← ord_to_pos_loop (S (Z.to_nat bits)) buf bits i ord;
    Some (if (i <? bits) && (ord =? 0) then i else 0)
  else Some 0.

Fixpoint remap_loop (fuel : nat) (dst src old new : list Z) (bits w oldbit : Z) : option (list Z) :=
  match fuel with
  | O => None
  | S fuel =>
    if oldbit <? bits then
      n ← bitmap_pos_to_ord old oldbit bits;
      dst ← (if (n <? 0) || (w =? 0) then set_bit oldbit dst
             else p ← bitmap_ord_to_pos new (Z.rem n w) bits; set_bit p dst);
      oldbit ← find_next_bit src bits (oldbit + 1);
      remap_loop fuel dst src old new bits w oldbit
    else Some dst
  end.

(** [same]: [dst] and [src] are the same object. *)
Definition bitmap_remap (same : bool) (dst src old new : list Z) (bits : Z) : option (list Z) :=
  if same then Some dst else
  dst ← bitmap_zero dst bits;
  w ← bitmap_weight new bits;
  oldbit ← find_first_bit src bits;
  remap_loop (S (Z.to_nat bits)) dst src old new bits w oldbit.

Definition bitmap_bitremap (oldbit : Z) (old new : list Z) (bits : Z) : option Z :=
  w ← bitmap_weight new bits;
  n ← bitmap_pos_to_ord old oldbit bits;
  if (n <? 0) || (w =? 0) then Some oldbit
  else bitmap_ord_to_pos new (Z.rem n w) bits.

(** ** Regions *)

Inductive reg_op := REG_OP_ISFREE | REG_OP_ALLOC | REG_OP_RELEASE.

Definition reg_mask (nbitsinlong offset : Z) : Z :=
  let mask := u32 (Z.shiftl 1 (nbitsinlong - 1)) in
  let mask := u32 (mask + (mask - 1)) in
  u32 (Z.shiftl mask offset).

Definition __reg_op (bitmap : list Z) (pos order : Z) (op : reg_op) : option (list Z * bool) :=
  let nbits_reg := Z.shiftl 1 order in
  let index := pos / BITS_PER_LONG in
  let offset := pos - index * BITS_PER_LONG in
  let nlongs_reg := BITS_TO_LONGS nbits_reg in
  let nbitsinlong := Z.min nbits_reg BITS_PER_LONG in
  let mask := reg_mask nbitsinlong offset in
  match op with
  | REG_OP_ISFREE =>
    free ← no_word (Z.to_nat nlongs_reg) (fun k => w ← rd bitmap k; Some (negb (Z.land w mask =? 0))) index;
    Some (bitmap, free)
  | REG_OP_ALLOC =>
    bitmap ← store_words (Z.to_nat nlongs_reg) (fun k => w ← rd bitmap k; Some (Z.lor w mask)) index bitmap;
    Some (bitmap, false)
  | REG_OP_RELEASE =>
    bitmap ← store_words (Z.to_nat nlongs_reg) (fun k => w ← rd bitmap k; Some (Z.land w (not32 mask))) index bitmap;
    Some (bitmap, false)
  end.

(** The first free region: the position, at or beyond [bits] when none is. *)
Fixpoint find_region (fuel : nat) (bitmap : list Z) (bits order pos : Z) : option Z :=
  match fuel with
  | O => None
  | S fuel =>
    if pos <? bits then
      '(_, free) ← __reg_op bitmap pos order REG_OP_ISFREE;
      if free : bool then Some pos else find_region fuel bitmap bits order (pos + Z.shiftl 1 order)
    else Some pos
  end.

Definition bitmap_find_free_region (bitmap : list Z) (bits order : Z) : option (list Z * Z) :=
  pos ← find_region (S (Z.to_nat bits)) bitmap bits order 0;
  if pos =? bits then Some (bitmap, - ENOMEM) else
  '(bitmap, _) ← __reg_op bitmap pos order REG_OP_ALLOC;
  Some (bitmap, pos).

Definition bitmap_release_region (bitmap : list Z) (pos order : Z) : option (list Z) :=
  '(bitmap, _) ← __reg_op bitmap pos order REG_OP_RELEASE; Some bitmap.

Definition bitmap_allocate_region (bitmap : list Z) (pos order : Z) : option (list Z * Z) :=
  '(bitmap, free) ← __reg_op bitmap pos order REG_OP_ISFREE;
  if negb free then Some (bitmap, - EBUSY) else
  '(bitmap, _) ← __reg_op bitmap pos order REG_OP_ALLOC;
  Some (bitmap, 0).

(** ** Lemmas: loops over words *)

Lemma store_words_spec n f g k dst : words dst -> 0 <= k -> k + Z.of_nat n <= zlen dst ->
  (forall q, k <= q < k + Z.of_nat n -> f q = Some (g q) /\ is_u32 (g q)) ->
  exists dst', store_words n f k dst = Some dst' /\ words dst' /\ length dst' = length dst /\
    forall q, rd dst' q = if (k <=? q) && (q <? k + Z.of_nat n) then Some (g q) else rd dst q.
Proof.
  revert k dst. induction n as [|n IH]; intros k dst Hw Hk Hl Hf; cbn [store_words].
  { exists dst. repeat split; try done. intros q. zcases; simpl; (done || lia). }
  destruct (Hf k) as [-> Hu]; [lia|]. rewrite some_bind.
  destruct (wr dst k (g k)) as [d1|] eqn:E; [|by rewrite wr_Some in E by lia].
  rewrite some_bind. pose proof (wr_length _ _ _ _ E) as Hl1.
  destruct (IH (k + 1) d1) as (d'&->&?&Hl'&Hrd); [by eapply words_wr|lia|lia|intros; apply Hf; lia|].
  exists d'. split; [done|]. split; [done|]. split; [by rewrite Hl'|]. intros q. rewrite Hrd.
  destruct (Z.eq_dec q k) as [->|].
  - rewrite (rd_wr_eq _ _ _ _ E). zcases; simpl; (done || lia).
  - rewrite (rd_wr_ne _ _ _ _ _ (not_eq_sym n0) E). zcases; simpl; (done || lia).
Qed.

Lemma no_word_spec n test t k :
  (forall q, k <= q < k + Z.of_nat n -> test q = Some (t q)) ->
  exists r, no_word n test k = Some r /\ (r = true <-> forall q, k <= q < k + Z.of_nat n -> t q = false).
Proof.
  revert k. induction n as [|n IH]; intros k Ht; cbn [no_word].
  { exists true. split; [done|]. split; [intros; lia|done]. }
  rewrite Ht, some_bind by lia. destruct (t k) eqn:Hk.
  { exists false. split; [done|]. split; [done|]. intros H. specialize (H k ltac:(lia)). congruence. }
  destruct (IH (k + 1)) as (r&->&Hr); [intros; apply Ht; lia|]. exists r. split; [done|].
  rewrite Hr. split; intros H q Hq.
  - destruct (Z.eq_dec q k) as [->|]; [done|apply H; lia].
  - apply H. lia.
Qed.

(** The bits of a word, at their place in the bitmap. *)
Lemma bit_rd b i w : rd b (i / 32) = Some w -> bit b i = Z.testbit w (i mod 32).
Proof. intros H. unfold bit. by rewrite H. Qed.

Lemma last_word_mask bits : 0 <= bits -> bits mod BITS_PER_LONG <> 0 ->
  BITMAP_LAST_WORD_MASK bits = Z.ones (bits mod 32).
Proof.
  intros Hb Hn. unfold BITMAP_LAST_WORD_MASK. destruct (Z.eqb_spec (bits mod BITS_PER_LONG) 0); [done|].
  simpl. unfold BITS_PER_LONG in *. assert (0 <= bits mod 32 < 32) by (apply Z.mod_pos_bound; lia).
  rewrite Z.shiftl_1_l, Z.ones_equiv, u32_small; [lia|]. unfold is_u32.
  assert (0 < 2 ^ (bits mod 32)) by (apply Z.pow_pos_nonneg; lia).
  assert (2 ^ (bits mod 32) < 2 ^ 32) by (apply Z.pow_lt_mono_r; lia). lia.
Qed.

Lemma bits_split bits i : 0 <= bits -> 0 <= i < bits ->
  i / 32 < bits / 32 \/ (bits mod 32 <> 0 /\ i / 32 = bits / 32 /\ i mod 32 < bits mod 32).
Proof. intros. Z.to_euclidean_division_equations. lia. Qed.

Lemma all_zero_spec test g bits : 0 <= bits ->
  (forall q, 0 <= 32 * q < bits -> test q = Some (g q) /\ is_u32 (g q)) ->
  exists r, all_zero test bits = Some r /\
    (r = true <-> forall i, 0 <= i < bits -> Z.testbit (g (i / 32)) (i mod 32) = false).
Proof.
  intros Hb Ht. unfold all_zero. change BITS_PER_LONG with 32.
  set (lim := bits / 32). assert (Hlim : 0 <= lim /\ 32 * lim <= bits) by (unfold lim; clear - Hb; Z.to_euclidean_division_equations; lia).
  destruct (no_word_spec (Z.to_nat lim) (fun k => w ← test k; Some (negb (w =? 0))) (fun q => negb (g q =? 0)) 0) as (r&->&Hr).
  { intros q Hq. destruct (Ht q) as [-> _]; [lia|]. done. }
  rewrite Z2Nat.id in Hr by lia. rewrite some_bind.
  assert (Hfull : r = true <-> forall i, 0 <= i < 32 * lim -> Z.testbit (g (i / 32)) (i mod 32) = false).
  { rewrite Hr. split; intros H.
    - intros i Hi. specialize (H (i / 32) ltac:(clear - Hi; Z.to_euclidean_division_equations; lia)). simpl in H.
      destruct (Z.eqb_spec (g (i / 32)) 0) as [->|]; [apply Z.bits_0|done].
    - intros q Hq. destruct (Z.eqb_spec (g q) 0) as [|Hn]; [done|]. exfalso. apply Hn.
      apply word_zero; [apply Ht; lia|]. intros j Hj.
      specialize (H (32 * q + j) ltac:(lia)).
      replace ((32 * q + j) / 32) with q in H by (clear - Hj; Z.to_euclidean_division_equations; lia).
      by replace ((32 * q + j) mod 32) with j in H by (clear - Hj; Z.to_euclidean_division_equations; lia). }
  clear Hr. destruct r; cbn [negb].
  2:{ exists false. split; [done|]. split; [done|]. intros H. exfalso.
      assert (false = true) by (apply Hfull; intros; apply H; lia). done. }
  assert (Hfull' : forall i, 0 <= i < 32 * lim -> Z.testbit (g (i / 32)) (i mod 32) = false) by (by apply Hfull).
  destruct (Z.eqb_spec (bits mod 32) 0) as [E|E]; cbn [negb].
  { exists true. split; [done|]. split; [|done]. intros _ i Hi. apply Hfull'.
    unfold lim. clear - E Hi. Z.to_euclidean_division_equations; lia. }
  assert (32 * lim < bits) by (unfold lim; clear - E Hb; Z.to_euclidean_division_equations; lia).
  destruct (Ht lim) as [-> Hu]; [lia|]. rewrite some_bind. eexists. split; [done|].
  rewrite last_word_mask by done. rewrite Z.eqb_eq. assert (0 <= bits mod 32 < 32) by (apply Z.mod_pos_bound; lia).
  split; intros H'.
  - intros i Hi. destruct (bits_split bits i Hb Hi) as [Hlt|(_&Hq&Hj)].
    { apply Hfull'. unfold lim. clear - Hlt Hi. Z.to_euclidean_division_equations; lia. }
    fold lim in Hq. rewrite Hq. assert (0 <= i mod 32) by (apply Z.mod_pos_bound; lia).
    assert (T : Z.testbit (Z.land (g lim) (Z.ones (bits mod 32))) (i mod 32) = false) by (rewrite H'; apply Z.bits_0).
    rewrite Z.land_spec, ones_testbit in T by lia. zcases_in T; [|lia..]. by rewrite andb_true_r in T.
  - apply Z.bits_inj'. intros j Hj. rewrite Z.land_spec, Z.bits_0, ones_testbit by lia.
    zcases; rewrite ?andb_false_r; try done; try lia. rewrite andb_true_r.
    specialize (H' (32 * lim + j)). 
    replace ((32 * lim + j) / 32) with lim in H' by (clear - H1 H0 Hj; Z.to_euclidean_division_equations; lia).
    replace ((32 * lim + j) mod 32) with j in H' by (clear - H1 H0 Hj; Z.to_euclidean_division_equations; lia).
    apply H'. split; [lia|]. unfold lim. clear - H1 Hb. Z.to_euclidean_division_equations; lia.
Qed.

(** A word of a bitmap that holds [bits] bits. *)
Lemma rd_words b bits q : words b -> bits <= 32 * zlen b -> 0 <= 32 * q < bits ->
  exists w, rd b q = Some w /\ is_u32 w.
Proof.
  intros Hw Hl Hq. destruct (rd_is_Some b q) as [w E]; [lia|]. exists w. split; [done|]. by eapply words_rd.
Qed.

(** ** Lemmas: counting bits *)

Fixpoint count (f : Z -> bool) (lo : Z) (n : nat) : Z :=
  match n with O => 0 | S n => Z.b2z (f lo) + count f (lo + 1) n end.

Lemma count_ext f g lo n : (forall i, lo <= i < lo + Z.of_nat n -> f i = g i) -> count f lo n = count g lo n.
Proof.
  revert lo. induction n as [|n IH]; intros lo H; simpl; [done|]. rewrite H by lia. f_equal. apply IH.
  intros. apply H. lia.
Qed.

Lemma count_app f lo n m : count f lo (n + m) = count f lo n + count f (lo + Z.of_nat n) m.
Proof.
  revert lo. induction n as [|n IH]; intros lo; simpl; [by rewrite Z.add_0_r|]. rewrite IH.
  replace (lo + 1 + Z.of_nat n) with (lo + Z.of_nat (S n)) by lia.
  replace (lo + Z.pos (Pos.of_succ_nat n)) with (lo + Z.of_nat (S n)) by lia. lia.
Qed.

Lemma count_shift f lo k n : count f (lo + k) n = count (fun i => f (i + k)) lo n.
Proof. revert lo. induction n as [|n IH]; intros lo; simpl; [done|]. rewrite <- IH. f_equal. f_equal. lia. Qed.

Lemma count_range f lo n : 0 <= count f lo n <= Z.of_nat n.
Proof. revert lo. induction n as [|n IH]; intros lo; simpl; [lia|]. specialize (IH (lo + 1)). destruct (f lo); simpl; lia. Qed.

Lemma count_false f lo n : (forall i, lo <= i < lo + Z.of_nat n -> f i = false) -> count f lo n = 0.
Proof.
  revert lo. induction n as [|n IH]; intros lo H; simpl; [done|]. rewrite H, IH by (lia || (intros; apply H; lia)). done.
Qed.

Lemma popcount_count n w : 0 <= w < 2 ^ Z.of_nat n -> popcount w = count (Z.testbit w) 0 n.
Proof.
  revert w. induction n as [|n IH]; intros w Hw.
  { replace w with 0 by (simpl in Hw; lia). done. }
  rewrite Nat2Z.inj_succ, Z.pow_succ_r in Hw by lia. cbn [count].
  rewrite popcount_step by lia. rewrite IH by (Z.to_euclidean_division_equations; lia).
  rewrite (count_shift _ 0 1). rewrite Z.bit0_mod, Z.add_comm. f_equal.
  apply count_ext. intros i Hi. rewrite Z.div2_bits by lia. by rewrite Z.add_1_r.
Qed.

Lemma word_count b q w : rd b q = Some w -> is_u32 w -> hweight_long w = count (bit b) (32 * q) 32.
Proof.
  intros Hr Hw. unfold hweight_long. rewrite hweight32_popcount by done.
  rewrite (popcount_count 32) by done. replace (32 * q) with (0 + 32 * q) by lia. rewrite count_shift.
  apply count_ext. intros i Hi. rewrite <- (bit_word b q w) by (done || lia). f_equal. lia.
Qed.

Lemma weight_loop_spec n b k w : words b -> 0 <= k -> k + Z.of_nat n <= zlen b ->
  weight_loop n b k w = Some (w + count (bit b) (32 * k) (32 * n)).
Proof.
  intros Hw. revert k w. induction n as [|n IH]; intros k w Hk Hl; cbn [weight_loop].
  { rewrite Nat.mul_0_r. simpl. f_equal. lia. }
  destruct (rd_is_Some b k) as [x Ex]; [lia|]. rewrite Ex, some_bind, IH by lia. f_equal.
  rewrite (word_count b k x) by (done || by eapply words_rd).
  replace (32 * S n)%nat with (32 + 32 * n)%nat by lia. rewrite count_app.
  replace (32 * k + Z.of_nat 32) with (32 * (k + 1)) by lia. lia.
Qed.

Lemma last_word_count b bits w : 0 <= bits -> bits mod BITS_PER_LONG <> 0 -> rd b (bits / 32) = Some w -> is_u32 w ->
  hweight_long (Z.land w (BITMAP_LAST_WORD_MASK bits)) =
    count (bit b) (32 * (bits / 32)) (Z.to_nat (bits mod 32)).
Proof.
  intros Hb Hn Hr Hw. rewrite last_word_mask by done. unfold hweight_long.
  assert (0 <= bits mod 32 < 32) by (apply Z.mod_pos_bound; lia).
  assert (Hx : 0 <= Z.land w (Z.ones (bits mod 32)) < 2 ^ (bits mod 32)).
  { rewrite Z.land_ones by lia. apply Z.mod_pos_bound, Z.pow_pos_nonneg; lia. }
  rewrite hweight32_popcount by (by apply land_range).
  rewrite (popcount_count (Z.to_nat (bits mod 32))) by (rewrite Z2Nat.id by lia; done).
  replace (32 * (bits / 32)) with (0 + 32 * (bits / 32)) by lia. rewrite count_shift.
  apply count_ext. intros i Hi. rewrite Z.land_spec, ones_testbit by lia.
  rewrite Z.add_comm, (bit_word b _ w) by (done || lia).
  zcases; rewrite ?andb_true_r; (done || lia).
Qed.

Lemma bitmap_weight_spec b bits : words b -> 0 < bits <= 32 * zlen b ->
  bitmap_weight b bits = Some (count (bit b) 0 (Z.to_nat bits)) /\
  __bitmap_weight b bits = Some (count (bit b) 0 (Z.to_nat bits)).
Proof.
  intros Hw Hb.
  assert (H2 : __bitmap_weight b bits = Some (count (bit b) 0 (Z.to_nat bits))).
  { unfold __bitmap_weight. change BITS_PER_LONG with 32.
    assert (Hlim : 0 <= bits / 32 /\ bits = 32 * (bits / 32) + bits mod 32 /\ 0 <= bits mod 32 < 32)
      by (clear - Hb; Z.to_euclidean_division_equations; lia).
    rewrite weight_loop_spec, some_bind by (done || lia). rewrite Z.mul_0_r, Z.add_0_l.
    replace (32 * Z.to_nat (bits / 32))%nat with (Z.to_nat (32 * (bits / 32))) by lia.
    destruct (Z.eqb_spec (bits mod 32) 0) as [E|E]; cbn [negb].
    { do 3 f_equal. lia. }
    destruct (rd_is_Some b (bits / 32)) as [w Ew]; [lia|]. rewrite Ew, some_bind.
    rewrite (last_word_count b bits w) by (done || lia || by eapply words_rd). f_equal.
    replace (Z.to_nat bits) with (Z.to_nat (32 * (bits / 32)) + Z.to_nat (bits mod 32))%nat by lia.
    rewrite count_app. do 2 f_equal; lia. }
  split; [|done]. unfold bitmap_weight. destruct (Z.leb_spec bits BITS_PER_LONG) as [Hle|]; [|done].
  unfold BITS_PER_LONG in Hle. destruct (rd_is_Some b 0) as [w Ew]; [lia|]. rewrite Ew, some_bind.
  assert (is_u32 w) by (by eapply words_rd).
  destruct (Z.eq_dec bits 32) as [->|].
  - change (BITMAP_LAST_WORD_MASK 32) with (Z.ones 32). rewrite Z.land_ones by lia.
    rewrite Z.mod_small by done. by rewrite (word_count b 0 w).
  - rewrite <- H2. unfold __bitmap_weight. change BITS_PER_LONG with 32.
    rewrite Z.div_small by lia. simpl (weight_loop _ _ _ _). rewrite some_bind.
    rewrite Z.mod_small by lia. destruct (Z.eqb_spec bits 0); [lia|]. cbn [negb]. by rewrite Ew, some_bind.
Qed.

(** ** Lemmas: shifts *)

(** The bits of the source that count. *)
Definition valid_bit (src : list Z) (bits i : Z) : bool := (i <? bits) && bit src i.

Lemma testbit_word src k w j : rd src k = Some w -> is_u32 w -> 0 <= j ->
  Z.testbit w j = (j <? 32) && bit src (32 * k + j).
Proof.
  intros Hr Hu Hj. destruct (Z.ltb_spec j 32); simpl.
  - by rewrite (bit_word src k w) by (done || lia).
  - by apply (testbit_high w 32).
Qed.

(** A source word with the bits from [bits] on cleared, as both loops read it. *)
Lemma masked_word src bits k w : 0 <= bits -> rd src k = Some w -> is_u32 w -> 0 <= k < BITS_TO_LONGS bits ->
  let left := bits mod 32 in
  let v := if (k =? BITS_TO_LONGS bits - 1) && negb (left =? 0) then Z.land w (u32 (Z.shiftl 1 left - 1)) else w in
  is_u32 v /\ forall j, 0 <= j -> Z.testbit v j = (j <? 32) && valid_bit src bits (32 * k + j).
Proof.
  intros Hb Hr Hu Hk left v. unfold BITS_TO_LONGS, BITS_PER_LONG in *. unfold v.
  assert (Hleft : 0 <= left < 32) by (apply Z.mod_pos_bound; lia). split.
  { destruct (_ && _); [by apply land_range|done]. }
  intros j Hj. unfold valid_bit.
  destruct (Z.eqb_spec k ((bits + 32 - 1) / 32 - 1)) as [E|E]; cbn [andb].
  - destruct (Z.eqb_spec left 0) as [El|El]; cbn [negb].
    + rewrite (testbit_word src k w) by done.
      destruct (Z.ltb_spec j 32); [|done]. cbn [andb]. destruct (Z.ltb_spec (32 * k + j) bits); [done|exfalso].
      unfold left in *. clear - E El H H0. Z.to_euclidean_division_equations; lia.
    + replace (u32 (Z.shiftl 1 left - 1)) with (Z.ones left).
      2:{ rewrite Z.shiftl_1_l, Z.ones_equiv. symmetry. apply u32_small. unfold is_u32.
          assert (0 < 2 ^ left) by (apply Z.pow_pos_nonneg; lia).
          assert (2 ^ left < 2 ^ 32) by (apply Z.pow_lt_mono_r; lia). lia. }
      rewrite Z.land_spec, ones_testbit, (testbit_word src k w) by (done || lia).
      assert (bits = 32 * k + left) by (unfold left in *; clear - E El Hb; Z.to_euclidean_division_equations; lia).
      zcases; simpl; rewrite ?andb_true_r, ?andb_false_r; (done || lia).
  - rewrite (testbit_word src k w) by done. destruct (Z.ltb_spec j 32); [|done]. cbn [andb].
    destruct (Z.ltb_spec (32 * k + j) bits); [done|exfalso].
    clear - E Hk H H0. Z.to_euclidean_division_equations; lia.
Qed.

Lemma shift_right_word_spec src bits shift k : words src -> 0 <= bits -> 0 <= shift -> 0 <= k ->
  BITS_TO_LONGS bits <= zlen src -> shift / 32 + k < BITS_TO_LONGS bits ->
  exists d, shift_right_word src (shift / 32) (shift mod 32) (BITS_TO_LONGS bits) (bits mod 32)
      (u32 (Z.shiftl 1 (bits mod 32) - 1)) k = Some d /\ is_u32 d /\
    forall j, 0 <= j < 32 -> Z.testbit d j = valid_bit src bits (32 * k + j + shift).
Proof.
  intros Hw Hb Hs Hk Hl Hlim. unfold shift_right_word.
  set (off := shift / 32) in *. set (rem := shift mod 32) in *. set (left := bits mod 32).
  set (lim := BITS_TO_LONGS bits) in *. set (mask := u32 _).
  assert (Hsh : shift = 32 * off + rem /\ 0 <= rem < 32 /\ 0 <= off)
    by (unfold off, rem; clear - Hs; Z.to_euclidean_division_equations; lia).
  assert (Hbl : bits <= 32 * lim) by (unfold lim, BITS_TO_LONGS, BITS_PER_LONG; clear - Hb; Z.to_euclidean_division_equations; lia).
  destruct (rd_is_Some src (off + k)) as [lo Elo]; [lia|].
  destruct (masked_word src bits (off + k) lo Hb Elo ltac:(by eapply words_rd) ltac:(lia)) as [Hu1 Hlo].
  fold left lim mask in Hu1, Hlo. set (lower := if (off + k =? lim - 1) && _ then _ else _) in Hu1, Hlo.
  assert (Hup : exists upper, (if (rem =? 0) || (off + k + 1 >=? lim) then Some 0
      else w ← rd src (off + k + 1);
           Some (if (off + k + 1 =? lim - 1) && negb (left =? 0) then Z.land w mask else w)) = Some upper /\ is_u32 upper /\
      (rem <> 0 -> forall j, 0 <= j < 32 -> Z.testbit upper j = valid_bit src bits (32 * (off + k + 1) + j)) /\
      (rem = 0 -> upper = 0)).
  { destruct (Z.eqb_spec rem 0) as [E|E]; cbn [orb].
    { exists 0. repeat split; (done || lia). }
    destruct (Z.geb_spec (off + k + 1) lim) as [Hge|Hlt].
    { exists 0. repeat split; try (done || lia). intros _ j Hj. rewrite Z.bits_0. unfold valid_bit.
      destruct (Z.ltb_spec (32 * (off + k + 1) + j) bits); [lia|done]. }
    destruct (rd_is_Some src (off + k + 1)) as [w Ew]; [lia|]. rewrite Ew, some_bind.
    destruct (masked_word src bits (off + k + 1) w Hb Ew ltac:(by eapply words_rd) ltac:(lia)) as [Hu Hj'].
    eexists. split; [done|]. split; [done|]. split; [|done]. intros _ j Hj. rewrite Hj' by lia.
    destruct (Z.ltb_spec j 32); [done|lia]. }
  destruct Hup as (upper&->&Huu&Hup&Hup0). rewrite some_bind, Elo, some_bind. cbv zeta.
  rewrite (andb_comm (negb (left =? 0)) (off + k =? lim - 1)). fold lower.
  set (d := Z.lor _ _).
  assert (Hd : forall j, 0 <= j -> Z.testbit d j = (j <? 32) && valid_bit src bits (32 * k + j + shift)).
  { intros j Hj. unfold d. autorewrite with kbits. unfold BITS_PER_LONG. rewrite Hlo by lia.
    destruct (Z.ltb_spec j 32); cbn [andb].
    2:{ destruct (Z.ltb_spec (j + rem) 32); [lia|]. rewrite andb_false_r; done || lia. }
    destruct (Z.leb_spec 0 j); [|lia]. cbn [andb].
    destruct (Z.leb_spec 0 (j - (32 - rem))) as [Hge|Hlt]; cbn [andb orb].
    - destruct (Z.ltb_spec (j + rem) 32); [lia|]. cbn [andb]. rewrite ?orb_false_r, Hup by lia. f_equal. lia.
    - destruct (Z.ltb_spec (j + rem) 32); [|lia]. rewrite (Z.testbit_neg_r upper) by lia.
      cbn [andb orb]. f_equal. lia. }
  assert (Hdu : is_u32 d).
  { unfold d. apply lor_range; [apply u32_range|]. unfold is_u32 in *. rewrite Z.shiftr_div_pow2 by lia.
    assert (0 < 2 ^ rem) by (apply Z.pow_pos_nonneg; lia).
    split; [apply Z.div_pos; lia|]. apply Z.div_lt_upper_bound; nia. }
  clearbody d lower. clear Hlo. eexists. split; [done|]. split; [destruct (_ && _); [by apply land_range|done]|].
  intros j Hj. rewrite (andb_comm _ (k =? lim - 1)).
  destruct (Z.eqb_spec k (lim - 1)) as [Ek|]; cbn [andb]; [|rewrite Hd by lia; by destruct (Z.ltb_spec j 32); [|lia]].
  destruct (Z.eqb_spec left 0) as [El|El]; cbn [negb]; [rewrite Hd by lia; by destruct (Z.ltb_spec j 32); [|lia]|].
  assert (off = 0) as Ho by lia.
  assert (Hm : mask = Z.ones left).
  { unfold mask. fold left. assert (0 <= left < 32) by (apply Z.mod_pos_bound; lia).
    rewrite Z.shiftl_1_l, Z.ones_equiv. apply u32_small. unfold is_u32.
    assert (0 < 2 ^ left) by (apply Z.pow_pos_nonneg; lia).
    assert (2 ^ left < 2 ^ 32) by (apply Z.pow_lt_mono_r; lia). lia. }
  assert (0 <= left < 32) by (apply Z.mod_pos_bound; lia).
  rewrite Z.land_spec, Hd, Hm, ones_testbit by lia. destruct (Z.ltb_spec j 32); [|lia]. cbn [andb].
  unfold valid_bit.
  assert (bits = 32 * k + left).
  { unfold lim, BITS_TO_LONGS, BITS_PER_LONG, left in *. clear - Ek El Hb. Z.to_euclidean_division_equations; lia. }
  zcases; simpl; rewrite ?andb_true_r, ?andb_false_r; (done || lia).
Qed.

Lemma shift_right_loop_spec n S src bits shift k dst : words S -> words dst -> 0 <= bits -> 0 <= shift -> 0 <= k ->
  BITS_TO_LONGS bits <= zlen S -> shift / 32 + k + Z.of_nat n <= BITS_TO_LONGS bits -> BITS_TO_LONGS bits <= zlen dst ->
  (src = Some S \/ (src = None /\ zlen dst = zlen S /\ forall q, k <= q -> rd dst q = rd S q)) ->
  exists dst', shift_right_loop n src (shift / 32) (shift mod 32) (BITS_TO_LONGS bits) (bits mod 32)
      (u32 (Z.shiftl 1 (bits mod 32) - 1)) k dst = Some dst' /\ words dst' /\ length dst' = length dst /\
    (forall q, q < k \/ k + Z.of_nat n <= q -> rd dst' q = rd dst q) /\
    forall i, 32 * k <= i < 32 * (k + Z.of_nat n) -> bit dst' i = valid_bit S bits (i + shift).
Proof.
  intros HS. revert k dst. induction n as [|n IH]; intros k dst Hw Hb Hs Hk Hl Hlim Hld Hsrc; cbn [shift_right_loop].
  { exists dst. repeat split; try done. intros; lia. }
  assert (0 <= shift / 32) by (apply Z.div_pos; lia).
  assert (Hword : shift_right_word (default dst src) (shift / 32) (shift mod 32) (BITS_TO_LONGS bits) (bits mod 32)
     (u32 (Z.shiftl 1 (bits mod 32) - 1)) k = shift_right_word S (shift / 32) (shift mod 32) (BITS_TO_LONGS bits) (bits mod 32)
     (u32 (Z.shiftl 1 (bits mod 32) - 1)) k).
  { destruct Hsrc as [->|(->&_&Hq)]; [done|]. unfold shift_right_word. simpl. by rewrite !Hq by lia. }
  rewrite Hword. destruct (shift_right_word_spec S bits shift k) as (d&->&Hdu&Hd); try done; try lia.
  rewrite some_bind. destruct (wr dst k d) as [d1|] eqn:E; [|by rewrite wr_Some in E by lia].
  rewrite some_bind. pose proof (wr_length _ _ _ _ E) as Hl1.
  destruct (IH (k + 1) d1) as (d'&->&?&Hl'&Hout&Hin); try done; try lia.
  { by eapply words_wr. }
  { destruct Hsrc as [->|(->&?&Hq)]; [by left|right]. split; [done|]. split; [lia|]. intros q Hq'.
    rewrite (rd_wr_ne dst d1 k q d) by (done || lia). apply Hq. lia. }
  exists d'. split; [done|]. split; [done|]. split; [by rewrite Hl'|]. split.
  - intros q Hq. rewrite Hout by lia. apply (rd_wr_ne dst d1 k q d); [lia|done].
  - intros i Hi. destruct (Z.ltb_spec i (32 * (k + 1))) as [Hlt|Hge]; [|apply Hin; lia].
    assert (Ei : i / 32 = k) by (clear - Hi Hlt; Z.to_euclidean_division_equations; lia).
    rewrite (bit_rd d' i d).
    + rewrite Hd by (apply Z.mod_pos_bound; lia). f_equal. clear - Ei. Z.to_euclidean_division_equations; lia.
    + rewrite Ei, Hout by lia. by eapply rd_wr_eq.
Qed.

Lemma shift_left_word_spec src bits shift k : words src -> 0 <= bits -> 0 <= shift -> 0 <= k ->
  BITS_TO_LONGS bits <= zlen src -> shift / 32 + k < BITS_TO_LONGS bits ->
  exists d, shift_left_word src (shift / 32) (shift mod 32) (BITS_TO_LONGS bits) (bits mod 32) k = Some d /\
    is_u32 d /\
    forall j, 0 <= j < 32 -> Z.testbit d j =
      (32 * (k + shift / 32) + j <? bits) && bit src (32 * (k + shift / 32) + j - shift).
Proof.
  intros Hw Hb Hs Hk Hl Hlim. unfold shift_left_word.
  set (off := shift / 32) in *. set (rem := shift mod 32) in *. set (left := bits mod 32).
  set (lim := BITS_TO_LONGS bits) in *. set (mask := u32 (Z.shiftl 1 left - 1)).
  assert (Hsh : shift = 32 * off + rem /\ 0 <= rem < 32 /\ 0 <= off)
    by (unfold off, rem; clear - Hs; Z.to_euclidean_division_equations; lia).
  destruct (rd_is_Some src k) as [up Eup]; [lia|].
  destruct (masked_word src bits k up Hb Eup ltac:(by eapply words_rd) ltac:(lia)) as [Hu1 Hup].
  fold left lim mask in Hu1, Hup. set (upper := if (k =? lim - 1) && _ then _ else _) in Hu1, Hup.
  assert (Hlow : exists lower, (if negb (rem =? 0) && (0 <? k) then rd src (k - 1) else Some 0) = Some lower /\
      is_u32 lower /\ (rem <> 0 -> forall j, 0 <= j < 32 -> Z.testbit lower j = bit src (32 * (k - 1) + j)) /\
      (rem = 0 -> lower = 0)).
  { destruct (Z.eqb_spec rem 0) as [E|E]; cbn [negb andb].
    { exists 0. repeat split; (done || lia). }
    destruct (Z.ltb_spec 0 k) as [Hlt|Hge].
    - destruct (rd_is_Some src (k - 1)) as [w Ew]; [lia|]. exists w. split; [done|].
      split; [by eapply words_rd|]. split; [|lia]. intros _ j Hj. by rewrite (bit_word src (k - 1) w).
    - exists 0. repeat split; try (done || lia). intros _ j Hj. rewrite Z.bits_0, bit_outside; [done|lia]. }
  destruct Hlow as (lower&->&Hlu&Hlow&Hlow0). rewrite some_bind, Eup, some_bind. cbv zeta.
  rewrite (andb_comm (negb (left =? 0)) (k =? lim - 1)). fold mask. fold upper.
  set (d := Z.lor _ _).
  assert (Hd : forall j, 0 <= j < 32 -> (32 * (k + off) + j < bits) ->
    Z.testbit d j = bit src (32 * (k + off) + j - shift)).
  { intros j Hj Hlt. unfold d. autorewrite with kbits. unfold BITS_PER_LONG.
    destruct (Z.leb_spec 0 j); [|lia]. destruct (Z.ltb_spec j 32); [|lia]. cbn [andb].
    destruct (Z.leb_spec 0 (j - rem)) as [Hge|Hlt']; cbn [andb].
    - rewrite Hup by lia. destruct (Z.ltb_spec (j - rem) 32); [|lia]. cbn [andb]. unfold valid_bit.
      destruct (Z.ltb_spec (32 * k + (j - rem)) bits); [|lia]. cbn [andb].
      assert (Z.testbit lower (j + (32 - rem)) = false) as ->.
      { apply (testbit_high lower 32); [done|lia]. }
      simpl. f_equal. lia.
    - rewrite (Z.testbit_neg_r upper) by lia. rewrite Hlow by lia. rewrite orb_false_r. f_equal. lia. }
  assert (Hdu : is_u32 d).
  { unfold d. apply lor_range; [|apply u32_range]. unfold is_u32 in *.
    destruct (Z.eq_dec rem 0) as [Er|Er]; [rewrite Hlow0 by done; simpl; rewrite Z.shiftr_0_l; lia|].
    unfold BITS_PER_LONG. rewrite Z.shiftr_div_pow2 by lia.
    assert (0 < 2 ^ (32 - rem)) by (apply Z.pow_pos_nonneg; lia).
    split; [apply Z.div_pos; lia|]. apply Z.div_lt_upper_bound; nia. }
  clearbody d upper. clear Hup.
  assert (Hleft : 0 <= left < 32) by (apply Z.mod_pos_bound; lia).
  assert (Hm : mask = Z.ones left).
  { unfold mask. rewrite Z.shiftl_1_l, Z.ones_equiv. apply u32_small. unfold is_u32.
    assert (0 < 2 ^ left) by (apply Z.pow_pos_nonneg; lia).
    assert (2 ^ left < 2 ^ 32) by (apply Z.pow_lt_mono_r; lia). lia. }
  eexists. split; [done|]. split; [destruct (_ && _); [by apply land_range|done]|].
  intros j Hj. rewrite (andb_comm _ (k + off =? lim - 1)).
  assert (Hfull : k + off <> lim - 1 \/ left = 0 -> 32 * (k + off) + j < bits).
  { unfold lim, BITS_TO_LONGS, BITS_PER_LONG, left in *. clear - Hlim Hj Hk Hsh. intros.
    Z.to_euclidean_division_equations; lia. }
  destruct (Z.eqb_spec (k + off) (lim - 1)) as [Ek|]; cbn [andb].
  2:{ rewrite Hd by lia. by destruct (Z.ltb_spec (32 * (k + off) + j) bits); [|lia]. }
  destruct (Z.eqb_spec left 0) as [El|El]; cbn [negb].
  { rewrite Hd by lia. by destruct (Z.ltb_spec (32 * (k + off) + j) bits); [|lia]. }
  assert (Hbits : bits = 32 * (k + off) + left).
  { unfold lim, BITS_TO_LONGS, BITS_PER_LONG, left in *. clear - Ek El Hb. Z.to_euclidean_division_equations; lia. }
  rewrite Z.land_spec, Hm, ones_testbit by lia.
  destruct (Z.ltb_spec (32 * (k + off) + j) bits), (Z.ltb_spec j left), (Z.leb_spec 0 j); try lia; cbn [andb].
  by rewrite andb_true_r, Hd by lia.
Qed.

Lemma shift_left_loop_spec n S src bits shift dst : words S -> words dst -> 0 <= bits -> 0 <= shift ->
  BITS_TO_LONGS bits <= zlen S -> shift / 32 + Z.of_nat n <= BITS_TO_LONGS bits -> BITS_TO_LONGS bits <= zlen dst ->
  (src = Some S \/ (src = None /\ zlen dst = zlen S /\ forall q, q < Z.of_nat n -> rd dst q = rd S q)) ->
  exists dst', shift_left_loop n src (shift / 32) (shift mod 32) (BITS_TO_LONGS bits) (bits mod 32) dst = Some dst' /\
    words dst' /\ length dst' = length dst /\
    (forall q, q < shift / 32 \/ shift / 32 + Z.of_nat n <= q -> rd dst' q = rd dst q) /\
    forall i, 32 * (shift / 32) <= i < 32 * (shift / 32 + Z.of_nat n) ->
      bit dst' i = (i <? bits) && bit S (i - shift).
Proof.
  intros HS. revert dst. induction n as [|n IH]; intros dst Hw Hb Hs Hl Hlim Hld Hsrc; cbn [shift_left_loop].
  { exists dst. repeat split; try done. intros; lia. }
  assert (0 <= shift / 32) by (apply Z.div_pos; lia).
  assert (Hword : shift_left_word (default dst src) (shift / 32) (shift mod 32) (BITS_TO_LONGS bits) (bits mod 32) (Z.of_nat n) =
     shift_left_word S (shift / 32) (shift mod 32) (BITS_TO_LONGS bits) (bits mod 32) (Z.of_nat n)).
  { destruct Hsrc as [->|(->&_&Hq)]; [done|]. unfold shift_left_word. simpl. by rewrite !Hq by lia. }
  cbv zeta. rewrite Hword. destruct (shift_left_word_spec S bits shift (Z.of_nat n)) as (d&->&Hdu&Hd); try done; try lia.
  rewrite some_bind. destruct (wr dst (Z.of_nat n + shift / 32) d) as [d1|] eqn:E; [|by rewrite wr_Some in E by lia].
  rewrite some_bind. pose proof (wr_length _ _ _ _ E) as Hl1.
  destruct (IH d1) as (d'&->&?&Hl'&Hout&Hin); try done; try lia.
  { by eapply words_wr. }
  { destruct Hsrc as [->|(->&?&Hq)]; [by left|right]. split; [done|]. split; [lia|]. intros q Hq'.
    rewrite (rd_wr_ne dst d1 (Z.of_nat n + shift / 32) q d) by (done || lia). apply Hq. lia. }
  exists d'. split; [done|]. split; [done|]. split; [by rewrite Hl'|]. split.
  - intros q Hq. rewrite Hout by lia. apply (rd_wr_ne dst d1 (Z.of_nat n + shift / 32) q d); [lia|done].
  - intros i Hi. destruct (Z.ltb_spec i (32 * (shift / 32 + Z.of_nat n))) as [Hlt|Hge]; [apply Hin; lia|].
    assert (Ei : i / 32 = Z.of_nat n + shift / 32) by (clear - Hi Hge; Z.to_euclidean_division_equations; lia).
    rewrite (bit_rd d' i d).
    + rewrite Hd by (apply Z.mod_pos_bound; lia).
      replace (32 * (Z.of_nat n + shift / 32) + i mod 32) with i; [done|].
      rewrite <- Ei. clear. Z.to_euclidean_division_equations; lia.
    + rewrite Ei, Hout by lia. by eapply rd_wr_eq.
Qed.

Lemma zero_words_spec dst k n : words dst -> 0 <= k -> 0 <= n -> k + n <= zlen dst ->
  exists dst', zero_words dst k n = Some dst' /\ words dst' /\ length dst' = length dst /\
    forall i, bit dst' i = if (32 * k <=? i) && (i <? 32 * (k + n)) then false else bit dst i.
Proof.
  intros Hw Hk Hn Hl. unfold zero_words.
  destruct (store_words_spec (Z.to_nat n) (fun _ => Some 0) (fun _ => 0) k dst) as (d'&->&?&?&Hrd); try done; try lia.
  exists d'. split; [done|]. split; [done|]. split; [done|]. intros i. unfold bit. rewrite Hrd, Z2Nat.id by lia.
  destruct (Z.leb_spec k (i / 32)), (Z.ltb_spec (i / 32) (k + n)), (Z.leb_spec (32 * k) i), (Z.ltb_spec i (32 * (k + n)));
    simpl; try done; try apply Z.bits_0;
    exfalso; clear Hw Hl Hrd; Z.to_euclidean_division_equations; lia.
Qed.

(** ** Lemmas: regions *)

Lemma reg_mask_testbit nb offset j : 1 <= nb <= 32 -> 0 <= offset -> offset + nb <= 32 -> 0 <= j ->
  Z.testbit (reg_mask nb offset) j = (offset <=? j) && (j <? offset + nb).
Proof.
  intros Hn Ho Hs Hj. unfold reg_mask.
  assert (E : u32 (u32 (Z.shiftl 1 (nb - 1)) + (u32 (Z.shiftl 1 (nb - 1)) - 1)) = Z.ones nb).
  { rewrite Z.shiftl_1_l, Z.ones_equiv.
    assert (E : 2 ^ nb = 2 * 2 ^ (nb - 1)) by (rewrite <- Z.pow_succ_r by lia; f_equal; lia).
    assert (0 < 2 ^ (nb - 1)) by (apply Z.pow_pos_nonneg; lia).
    assert (2 ^ nb <= 2 ^ 32) by (apply Z.pow_le_mono_r; lia).
    rewrite !u32_small by (unfold is_u32; rewrite ?u32_small; unfold is_u32; lia). lia. }
  cbv zeta. rewrite E. rewrite u32_testbit, shiftl_testbit, ones_testbit by lia.
  zcases; simpl; (done || lia).
Qed.

Lemma reg_mask_range nb offset : is_u32 (reg_mask nb offset).
Proof. apply u32_range. Qed.

(** The words and masks of a region are exactly its bits. *)
Definition in_region (pos order i : Z) : bool := (pos <=? i) && (i <? pos + 2 ^ order).

Record region_layout (pos order : Z) := {
  rl_index : pos / BITS_PER_LONG = pos / 32;
  rl_words : forall q, pos / 32 <= q < pos / 32 + BITS_TO_LONGS (2 ^ order) <-> pos / 32 <= q /\ 32 * q < pos + 2 ^ order;
  rl_mask : forall i, 0 <= i -> pos / 32 <= i / 32 < pos / 32 + BITS_TO_LONGS (2 ^ order) ->
    Z.testbit (reg_mask (Z.min (2 ^ order) BITS_PER_LONG) (pos - pos / BITS_PER_LONG * BITS_PER_LONG)) (i mod 32) =
      in_region pos order i;
  rl_outside : forall i, 0 <= i -> ~ (pos / 32 <= i / 32 < pos / 32 + BITS_TO_LONGS (2 ^ order)) ->
    in_region pos order i = false
}.

Lemma region_layout_aligned pos order : 0 <= pos -> 0 <= order -> pos mod 2 ^ order = 0 -> region_layout pos order.
Proof.
  intros Hp Ho Ha. assert (H2 : 0 < 2 ^ order) by (apply Z.pow_pos_nonneg; lia).
  assert (Hal : (2 ^ order <= 32 /\ pos mod 32 + 2 ^ order <= 32 /\ BITS_TO_LONGS (2 ^ order) = 1) \/
    (32 <= 2 ^ order /\ pos mod 32 = 0 /\ 2 ^ order = 32 * BITS_TO_LONGS (2 ^ order))).
  { unfold BITS_TO_LONGS, BITS_PER_LONG. destruct (Z.leb_spec order 5).
    - left. assert (order = 0 \/ order = 1 \/ order = 2 \/ order = 3 \/ order = 4 \/ order = 5) as Hc by lia.
      clear H2. destruct Hc as [->|[->|[->|[->|[->| ->]]]]]; simpl (2 ^ _) in *; clear Ho;
        repeat split; try reflexivity; try lia; Z.to_euclidean_division_equations; lia.
    - right. replace order with (5 + (order - 5)) in * by lia. rewrite Z.pow_add_r in * by lia.
      change (2 ^ 5) with 32 in *. set (t := 2 ^ (order - 5)) in *.
      assert (0 < t) by lia. split; [lia|]. split.
      + apply Z.mod_divide; [lia|]. apply Z.mod_divide in Ha; [|lia]. destruct Ha as [z ->]. exists (z * t). lia.
      + replace (32 * t + 32 - 1) with (31 + t * 32) by lia. rewrite Z.div_add by lia. reflexivity. }
  assert (Hdm : pos = 32 * (pos / 32) + pos mod 32 /\ 0 <= pos mod 32 < 32) by (clear; Z.to_euclidean_division_equations; lia).
  set (r := pos mod 32) in *. set (q0 := pos / 32) in *. set (N := 2 ^ order) in *. set (L := BITS_TO_LONGS N) in *.
  assert (Hr : pos - q0 * 32 = r) by lia.
  assert (Him : forall i, i = 32 * (i / 32) + i mod 32 /\ 0 <= i mod 32 < 32) by (intros; Z.to_euclidean_division_equations; lia).
  split.
  - done.
  - intros q. fold N q0 L. lia.
  - intros i Hi Hq. change BITS_PER_LONG with 32. fold N q0 L in Hq. fold N q0. rewrite Hr. unfold in_region. fold N.
    destruct (Him i) as [Ei Hi']. rewrite reg_mask_testbit by lia.
    destruct Hal as [(?&?&EL)|(?&?&EL)].
    + rewrite EL in Hq. assert (i / 32 = q0) by lia. rewrite Z.min_l by lia.
      destruct (Z.leb_spec r (i mod 32)), (Z.ltb_spec (i mod 32) (r + N)), (Z.leb_spec pos i), (Z.ltb_spec i (pos + N)); simpl; (done || lia).
    + rewrite Z.min_r by lia.
      destruct (Z.leb_spec r (i mod 32)), (Z.ltb_spec (i mod 32) (r + 32)), (Z.leb_spec pos i), (Z.ltb_spec i (pos + N)); simpl; (done || lia).
  - intros i Hi Hq. fold N q0 L in Hq. unfold in_region. fold N. destruct (Him i) as [Ei Hi'].
    destruct (Z.leb_spec pos i), (Z.ltb_spec i (pos + N)); try done. exfalso. apply Hq. lia.
Qed.

Lemma reg_op_spec b pos order op : words b -> 0 <= pos -> 0 <= order -> pos mod 2 ^ order = 0 ->
  pos + 2 ^ order <= 32 * zlen b ->
  exists b' r, __reg_op b pos order op = Some (b', r) /\ words b' /\ length b' = length b /\
    match op with
    | REG_OP_ISFREE => b' = b /\ (r = true <-> forall i, pos <= i < pos + 2 ^ order -> bit b i = false)
    | REG_OP_ALLOC => r = false /\ forall i, 0 <= i -> bit b' i = in_region pos order i || bit b i
    | REG_OP_RELEASE => r = false /\ forall i, 0 <= i -> bit b' i = negb (in_region pos order i) && bit b i
    end.
Proof.
  intros Hw Hp Ho Ha Hl. destruct (region_layout_aligned pos order Hp Ho Ha) as [Hi Hq Hm Hout].
  unfold __reg_op. rewrite Z.shiftl_1_l. rewrite Hi in *. set (mask := reg_mask _ _) in *.
  set (q0 := pos / 32) in *. set (L := BITS_TO_LONGS (2 ^ order)) in *.
  assert (H2 : 0 < 2 ^ order) by (apply Z.pow_pos_nonneg; lia).
  assert (HL : 0 <= L) by (unfold L, BITS_TO_LONGS, BITS_PER_LONG; apply Z.div_pos; lia).
  assert (Hq0 : 0 <= q0) by (apply Z.div_pos; lia).
  assert (Hrd : forall q, q0 <= q < q0 + Z.of_nat (Z.to_nat L) -> exists w, rd b q = Some w /\ is_u32 w).
  { intros q Hr. rewrite Z2Nat.id in Hr by lia. apply Hq in Hr.
    destruct (rd_is_Some b q) as [w Ew]; [lia|]. exists w. split; [done|]. by eapply words_rd. }
  assert (Hend : q0 + Z.of_nat (Z.to_nat L) <= zlen b).
  { destruct (Z.eq_dec L 0) as [E0|]; [|assert (q0 <= q0 + L - 1 < q0 + L) as Hx%Hq by lia; lia].
    rewrite E0. simpl. assert (q0 * 32 <= pos) by (unfold q0; clear; Z.to_euclidean_division_equations; lia). lia. }
  assert (Hin : forall i, in_region pos order i = true -> 0 <= i /\ q0 <= i / 32 < q0 + Z.of_nat (Z.to_nat L) /\
    Z.testbit mask (i mod 32) = true).
  { intros i Hir. assert (0 <= i) by (unfold in_region in Hir; bool_to_prop; lia). split; [done|].
    destruct (decide (q0 <= i / 32 < q0 + L)) as [Hd|Hd]; [|rewrite Hout in Hir by done; done].
    rewrite Z2Nat.id by lia. split; [done|]. by rewrite Hm. }
  set (g := fun q => default 0 (rd b q)).
  destruct op.
  - destruct (no_word_spec (Z.to_nat L) (fun k => w ← rd b k; Some (negb (Z.land w mask =? 0)))
      (fun q => negb (Z.land (g q) mask =? 0)) q0) as (r&->&Hr).
    { intros q Hq'. destruct (Hrd q Hq') as (w&Ew&_). unfold g. by rewrite Ew. }
    exists b, r. split; [done|]. split; [done|]. split; [done|]. split; [done|]. rewrite Hr. split.
    + intros H i Hpi. destruct (Hin i) as (?&Hqi&Hmi).
      { unfold in_region. zcases; simpl; (done || lia). }
      specialize (H (i / 32) Hqi). destruct (Hrd _ Hqi) as (w&Ew&_). unfold g in H. rewrite Ew in H. simpl in H.
      rewrite (bit_rd b i w Ew). destruct (Z.eqb_spec (Z.land w mask) 0) as [E|]; [|done].
      assert (T : Z.testbit (Z.land w mask) (i mod 32) = false) by (rewrite E; apply Z.bits_0).
      by rewrite Z.land_spec, Hmi, andb_true_r in T.
    + intros H q Hq'. destruct (Hrd _ Hq') as (w&Ew&Hu). unfold g. rewrite Ew. simpl.
      destruct (Z.eqb_spec (Z.land w mask) 0) as [|E]; [done|]. exfalso. apply E.
      apply word_zero; [by apply land_range|]. intros j Hj. rewrite Z.land_spec.
      rewrite <- (bit_word b q w j Ew Hj).
      destruct (Z.testbit mask j) eqn:Ej; [|apply andb_false_r]. rewrite H; [done|].
      assert (Eq : (32 * q + j) / 32 = q /\ (32 * q + j) mod 32 = j) by (clear - Hj; Z.to_euclidean_division_equations; lia).
      destruct Eq as [Eq Em]. rewrite Z2Nat.id in Hq' by lia. specialize (Hm (32 * q + j)). rewrite Eq, Em, Ej in Hm.
      specialize (Hm ltac:(lia) Hq'). unfold in_region in Hm. symmetry in Hm. bool_to_prop. lia.
  - destruct (store_words_spec (Z.to_nat L) (fun k => w ← rd b k; Some (Z.lor w mask)) (fun q => Z.lor (g q) mask) q0 b)
      as (b'&->&Hw'&Hl'&Hr); try done.
    { intros q Hq'. destruct (Hrd q Hq') as (w&Ew&Hu). unfold g. rewrite Ew. split; [done|].
      apply lor_range; [done|apply reg_mask_range]. }
    exists b', false. split; [done|]. split; [done|]. split; [done|]. split; [done|]. intros i Hi0.
    unfold bit at 1. rewrite Hr, Z2Nat.id by lia.
    destruct (decide (q0 <= i / 32 < q0 + L)) as [Hd|Hd].
    + destruct (Z.leb_spec q0 (i / 32)), (Z.ltb_spec (i / 32) (q0 + L)); try lia. cbn [andb].
      rewrite <- Hm by done. destruct (Hrd (i / 32)) as (w&Ew&_); [lia|]. unfold g. rewrite Ew. simpl.
      rewrite Z.lor_spec, (bit_rd b i w Ew). apply orb_comm.
    + rewrite Hout by done. simpl.
      destruct (Z.leb_spec q0 (i / 32)), (Z.ltb_spec (i / 32) (q0 + L)); try lia; done.
  - destruct (store_words_spec (Z.to_nat L) (fun k => w ← rd b k; Some (Z.land w (not32 mask)))
      (fun q => Z.land (g q) (not32 mask)) q0 b) as (b'&->&Hw'&Hl'&Hr); try done.
    { intros q Hq'. destruct (Hrd q Hq') as (w&Ew&Hu). unfold g. rewrite Ew. split; [done|]. by apply land_range. }
    exists b', false. split; [done|]. split; [done|]. split; [done|]. split; [done|]. intros i Hi0.
    unfold bit at 1. rewrite Hr, Z2Nat.id by lia.
    destruct (decide (q0 <= i / 32 < q0 + L)) as [Hd|Hd].
    + destruct (Z.leb_spec q0 (i / 32)), (Z.ltb_spec (i / 32) (q0 + L)); try lia. cbn [andb].
      rewrite <- Hm by done. destruct (Hrd (i / 32)) as (w&Ew&_); [lia|]. unfold g. rewrite Ew. simpl.
      assert (0 <= i mod 32 < 32) by (apply Z.mod_pos_bound; lia).
      rewrite Z.land_spec, not32_testbit, (bit_rd b i w Ew).
      destruct (Z.ltb_spec (i mod 32) 32), (Z.leb_spec 0 (i mod 32)); try lia. apply andb_comm.
    + rewrite Hout by done. simpl.
      destruct (Z.leb_spec q0 (i / 32)), (Z.ltb_spec (i / 32) (q0 + L)); try lia; done.
Qed.

Lemma aligned_next a b N : 0 < N -> a mod N = 0 -> b mod N = 0 -> a < b -> a + N <= b.
Proof.
  intros HN Ha Hb Hlt. rewrite (Z_div_exact_full_2 a N), (Z_div_exact_full_2 b N) in * by (done || lia).
  assert (a / N < b / N) by nia. nia.
Qed.

(** A free aligned region. *)
Definition free_region (b : list Z) (bits order pos : Z) : Prop :=
  0 <= pos /\ pos mod 2 ^ order = 0 /\ pos + 2 ^ order <= bits /\
  forall i, pos <= i < pos + 2 ^ order -> bit b i = false.

Lemma find_region_spec fuel b bits order pos : words b -> 0 <= order -> 0 <= pos <= bits ->
  bits <= 32 * zlen b -> bits mod 2 ^ order = 0 -> pos mod 2 ^ order = 0 ->
  (bits - pos < Z.of_nat fuel) ->
  exists r, find_region fuel b bits order pos = Some r /\ pos <= r <= bits /\
    (r < bits -> free_region b bits order r) /\
    (forall p, pos <= p < r -> ~ free_region b bits order p).
Proof.
  intros Hw Ho. assert (H2 : 0 < 2 ^ order) by (apply Z.pow_pos_nonneg; lia).
  revert pos. induction fuel as [|fuel IH]; intros pos Hp Hl Hb Ha Hf; [lia|]. cbn [find_region].
  destruct (Z.ltb_spec pos bits) as [Hlt|Hge].
  2:{ exists pos. split; [done|]. split; [lia|]. split; [lia|]. intros; lia. }
  assert (Hmul : forall p, 0 <= p < bits -> p mod 2 ^ order = 0 -> p + 2 ^ order <= bits).
  { intros p Hp' Hp0. apply aligned_next; (done || lia). }
  destruct (reg_op_spec b pos order REG_OP_ISFREE) as (b'&r&->&_&_&->&Hr); try done; try lia.
  { specialize (Hmul pos). lia. }
  rewrite some_bind. destruct r.
  - exists pos. split; [done|]. split; [lia|]. split; [|intros; lia]. intros _.
    split; [lia|]. split; [done|]. split; [apply Hmul; lia|]. by apply Hr.
  - rewrite Z.shiftl_1_l. pose proof (Hmul pos ltac:(lia) Ha).
    destruct (IH (pos + 2 ^ order)) as (r&->&Hrr&Hfree&Hno); try lia.
    { rewrite <- Zplus_mod_idemp_r, Z_mod_same_full, Z.add_0_r. done. }
    exists r. split; [done|]. split; [lia|]. split; [done|]. intros p Hpr.
    destruct (Z.ltb_spec p (pos + 2 ^ order)); [|apply Hno; lia].
    intros (?&Hpm&?&Hpf). assert (p = pos) as ->.
    { destruct (Z.eq_dec p pos); [done|]. pose proof (aligned_next pos p (2 ^ order)). lia. }
    assert (false = true) by (by apply Hr). done.
Qed.

(** ** Lemmas: ordinals *)

Lemma count_snoc f lo n : count f lo (S n) = count f lo n + Z.b2z (f (lo + Z.of_nat n)).
Proof. rewrite <- Nat.add_1_r, count_app. simpl. lia. Qed.

(** The set bits below [p]. *)
Definition ord (b : list Z) (p : Z) : Z := count (bit b) 0 (Z.to_nat p).

Lemma ord_step b i p : 0 <= i -> i < p -> (forall j, i + 1 <= j < p -> bit b j = false) ->
  ord b p = ord b i + Z.b2z (bit b i).
Proof.
  intros Hi Hp Hz. unfold ord.
  replace (Z.to_nat p) with (S (Z.to_nat i) + Z.to_nat (p - i - 1))%nat by lia.
  rewrite count_app, count_snoc, Z.add_0_l, Z2Nat.id by lia.
  rewrite (count_false _ _ (Z.to_nat (p - i - 1))); [lia|]. intros j Hj. apply Hz. lia.
Qed.

Lemma ord_first b p : (forall j, 0 <= j < p -> bit b j = false) -> ord b p = 0.
Proof. intros H. apply count_false. intros j Hj. apply H. lia. Qed.

Lemma ord_mono b p q : 0 <= p <= q -> ord b p <= ord b q.
Proof.
  intros H. unfold ord. replace (Z.to_nat q) with (Z.to_nat p + Z.to_nat (q - p))%nat by lia.
  rewrite count_app. pose proof (count_range (bit b) (0 + Z.of_nat (Z.to_nat p)) (Z.to_nat (q - p))). lia.
Qed.

Lemma ord_lt b p q : 0 <= p < q -> bit b p = true -> ord b p < ord b q.
Proof.
  intros H Hb. pose proof (ord_mono b (p + 1) q ltac:(lia)).
  rewrite (ord_step b p (p + 1)) in H0 by (lia || (intros; lia)). rewrite Hb in H0. simpl in H0. lia.
Qed.

Lemma pos_to_ord_loop_spec fuel b pos bits i o : words b -> 0 <= i <= pos -> pos < bits -> bits <= 32 * zlen b ->
  bits < 2 ^ 32 -> bit b pos = true -> bit b i = true -> o = ord b i -> pos - i < Z.of_nat fuel ->
  pos_to_ord_loop fuel b pos bits i o = Some (ord b pos).
Proof.
  intros Hw. revert i o. induction fuel as [|fuel IH]; intros i o Hi Hp Hl H32 Hbp Hbi Ho Hf; [lia|].
  cbn [pos_to_ord_loop]. destruct (Z.ltb_spec i pos) as [Hlt|Hge].
  - destruct (find_next_bit_spec b bits (i + 1)) as (r&->&_&Hr); try done; try lia.
    rewrite some_bind. destruct (Hr ltac:(lia)) as (Hr1&Hr2&Hr3).
    assert (r <= pos). { destruct (Z.leb_spec r pos); [done|]. rewrite Hr2 in Hbp by lia. done. }
    apply IH; try done; try lia.
    + apply Hr3. lia.
    + rewrite (ord_step b i r), Hbi, Ho by (lia || intros; apply Hr2; lia). done.
  - assert (i = pos) as -> by lia. rewrite Z.eqb_refl. simpl. by rewrite Ho.
Qed.

Lemma pos_to_ord_spec b pos bits : words b -> 0 <= bits <= 32 * zlen b -> bits < 2 ^ 32 ->
  bitmap_pos_to_ord b pos bits =
    Some (if (0 <=? pos) && (pos <? bits) && bit b pos then ord b pos else -1).
Proof.
  intros Hw Hl H32. unfold bitmap_pos_to_ord. destruct (Z.ltb_spec pos 0); cbn [orb].
  { by destruct (Z.leb_spec 0 pos); [lia|]. }
  rewrite Z.geb_leb. destruct (Z.leb_spec bits pos).
  { destruct (Z.ltb_spec pos bits); [lia|]. by rewrite andb_false_r. }
  destruct (Z.leb_spec 0 pos), (Z.ltb_spec pos bits); try lia. cbn [andb].
  rewrite test_bit_spec, some_bind by (done || lia).
  destruct (bit b pos) eqn:Hb; cbn [negb]; [|done].
  unfold find_first_bit. destruct (find_next_bit_spec b bits 0) as (r&->&_&Hr); try done; try lia.
  rewrite some_bind. destruct (Hr ltac:(lia)) as (Hr1&Hr2&Hr3).
  assert (r <= pos). { destruct (Z.leb_spec r pos); [done|]. rewrite Hr2 in Hb by lia. done. }
  apply pos_to_ord_loop_spec; try done; try lia.
  - apply Hr3. lia.
  - symmetry. apply ord_first. intros j Hj. apply Hr2. lia.
Qed.

Lemma ord_to_pos_loop_spec fuel b bits i o : words b -> 0 <= i <= bits -> bits <= 32 * zlen b -> bits < 2 ^ 32 ->
  0 <= o -> (i < bits -> bit b i = true) -> bits - i < Z.of_nat fuel ->
  exists i' o', ord_to_pos_loop fuel b bits i o = Some (i', o') /\ 0 <= i' <= bits /\ 0 <= o' /\
    o' + ord b i' = o + ord b i /\ (i' < bits -> o' = 0 /\ bit b i' = true).
Proof.
  intros Hw. revert i o. induction fuel as [|fuel IH]; intros i o Hi Hl H32 Ho Hb Hf; [lia|].
  cbn [ord_to_pos_loop]. destruct (Z.ltb_spec i bits) as [Hlt|Hge]; cbn [andb].
  - destruct (Z.ltb_spec 0 o).
    + destruct (find_next_bit_spec b bits (i + 1)) as (r&->&_&Hr); try done; try lia.
      rewrite some_bind. destruct (Hr ltac:(lia)) as (Hr1&Hr2&Hr3).
      destruct (IH r (o - 1)) as (i'&o'&->&?&?&He&?); try done; try lia.
      exists i', o'. split; [done|]. split; [lia|]. split; [done|]. split; [|done].
      rewrite He. rewrite (ord_step b i r), Hb by (lia || intros; apply Hr2; lia). simpl. lia.
    + exists i, o. split; [done|]. split; [lia|]. split; [lia|]. split; [lia|]. split; [lia|auto].
  - exists i, o. split; [done|]. split; [lia|]. split; [lia|]. split; [lia|]. intros; lia.
Qed.

Lemma ord_to_pos_spec b o bits : words b -> 0 <= bits <= 32 * zlen b -> bits < 2 ^ 32 -> 0 <= o < ord b bits ->
  exists p, bitmap_ord_to_pos b o bits = Some p /\ 0 <= p < bits /\ bit b p = true /\ ord b p = o.
Proof.
  intros Hw Hl H32 Ho. unfold bitmap_ord_to_pos.
  assert (o < bits). { pose proof (count_range (bit b) 0 (Z.to_nat bits)) as Hc. fold (ord b bits) in Hc. lia. }
  destruct (Z.leb_spec 0 o), (Z.ltb_spec o bits); try lia. cbn [andb].
  unfold find_first_bit. destruct (find_next_bit_spec b bits 0) as (r&->&_&Hr); try done; try lia.
  rewrite some_bind. destruct (Hr ltac:(lia)) as (Hr1&Hr2&Hr3).
  destruct (ord_to_pos_loop_spec (S (Z.to_nat bits)) b bits r o) as (i&o'&->&?&?&He&Hend); try done; try lia.
  rewrite some_bind. rewrite (ord_first b r), Z.add_0_r in He by (intros; apply Hr2; lia).
  destruct (Z.ltb_spec i bits) as [Hlt|Hge].
  - destruct (Hend Hlt) as [-> Hbi]. rewrite Z.eqb_refl. exists i. repeat split; (done || lia).
  - assert (i = bits) as -> by lia. lia.
Qed.

Lemma complement_spec src dst bits : words src -> words dst -> 0 <= bits ->
  bits <= 32 * zlen src -> bits <= 32 * zlen dst ->
  exists c, __bitmap_complement dst src bits = Some c /\
    (forall i, 0 <= i < bits -> bit c i = negb (bit src i)) /\
    (forall i, bits <= i < 32 * BITS_TO_LONGS bits -> bit c i = false).
Proof.
  intros Hs Hd Hb Hls Hld. unfold __bitmap_complement. change BITS_PER_LONG with 32. set (lim := bits / 32).
  assert (Hlim : 0 <= lim /\ 0 <= bits mod 32 < 32 /\ bits = 32 * lim + bits mod 32) by (unfold lim; clear - Hb; Z.to_euclidean_division_equations; lia).
  destruct (store_words_spec (Z.to_nat lim) (fun k => w ← rd src k; Some (not32 w)) (fun q => not32 (default 0 (rd src q))) 0 dst)
    as (c&->&Hcw&Hcl&Hst); try done; try lia.
  { intros q Hq. destruct (rd_words src bits q) as (w&->&_); [done..|lia|]. split; [done|apply u32_range]. }
  rewrite some_bind. rewrite Z2Nat.id in Hst by lia.
  assert (Hlow : forall i, 0 <= i < 32 * lim -> rd c (i / 32) = Some (not32 (default 0 (rd src (i / 32))))).
  { intros i Hi. rewrite Hst. assert (0 <= i / 32 < 0 + lim) by (clear - Hi; Z.to_euclidean_division_equations; lia).
    destruct (Z.leb_spec 0 (i / 32)), (Z.ltb_spec (i / 32) (0 + lim)); try lia; done. }
  assert (Hbit : forall b i, rd b (i / 32) = Some (not32 (default 0 (rd src (i / 32)))) -> 0 <= i < bits -> bit b i = negb (bit src i)).
  { intros b i E Hi. rewrite (bit_rd b i _ E). destruct (rd_words src bits (i / 32)) as (w&Ew&_);
      [done..|clear - Hi; Z.to_euclidean_division_equations; lia|]. rewrite Ew. simpl. rewrite (bit_rd src i w Ew), not32_testbit.
    assert (0 <= i mod 32 < 32) by (apply Z.mod_pos_bound; lia).
    destruct (Z.ltb_spec (i mod 32) 32), (Z.leb_spec 0 (i mod 32)); try lia. done. }
  destruct (Z.eqb_spec (bits mod 32) 0) as [E|E]; cbn [negb].
  { exists c. split; [done|]. split.
    - intros i Hi. apply Hbit; [apply Hlow; lia|done].
    - intros i Hi. exfalso. unfold BITS_TO_LONGS, BITS_PER_LONG in Hi. clear - E Hi Hb. Z.to_euclidean_division_equations; lia. }
  destruct (rd_words src bits lim) as (w&Ew&Hw); [done..|lia|]. rewrite Ew, some_bind.
  destruct (wr c lim _) as [c'|] eqn:Ec; [|by rewrite wr_Some in Ec by lia].
  exists c'. split; [done|]. rewrite last_word_mask in Ec by done.
  assert (Hi32 : forall i, i / 32 = lim -> bit c' i = Z.testbit (not32 w) (i mod 32) && (i mod 32 <? bits mod 32)).
  { intros i Ei. erewrite bit_wr by done. rewrite Ei, Z.eqb_refl, Z.land_spec, ones_testbit by lia.
    assert (0 <= i mod 32) by (apply Z.mod_pos_bound; lia). by destruct (Z.leb_spec 0 (i mod 32)); [|lia]. }
  split.
  - intros i Hi. destruct (bits_split bits i Hb Hi) as [Hlt|(_&Ei&Hj)].
    + erewrite bit_wr by done. fold lim in Hlt. destruct (Z.eqb_spec (i / 32) lim); [lia|].
      apply Hbit; [|done]. apply Hlow. clear - Hi Hlt. Z.to_euclidean_division_equations; lia.
    + rewrite Hi32 by done. rewrite (bit_rd src i w) by (by rewrite Ei). rewrite not32_testbit.
      assert (0 <= i mod 32 < 32) by (apply Z.mod_pos_bound; lia).
      destruct (Z.ltb_spec (i mod 32) 32), (Z.leb_spec 0 (i mod 32)), (Z.ltb_spec (i mod 32) (bits mod 32)); try lia.
      by rewrite andb_true_r.
  - intros i Hi. unfold BITS_TO_LONGS, BITS_PER_LONG in Hi.
    assert (i / 32 = lim /\ bits mod 32 <= i mod 32) as [Ei ?].
    { unfold lim. clear - Hi Hb E. Z.to_euclidean_division_equations; lia. }
    rewrite Hi32 by done. destruct (Z.ltb_spec (i mod 32) (bits mod 32)); [lia|]. apply andb_false_r.
Qed.

Lemma bitremap_spec old new o bits : words old -> words new -> 0 < bits < 2 ^ 32 -> 0 <= o ->
  bits <= 32 * zlen old -> bits <= 32 * zlen new ->
  exists p, bitmap_bitremap o old new bits = Some p /\ (o < bits -> 0 <= p < bits) /\
    bitmap_pos_to_ord old o bits = Some (if (0 <=? o) && (o <? bits) && bit old o then ord old o else -1) /\
    (o < bits -> bit old o = true -> 0 < ord new bits -> bit new p = true /\ ord new p = ord old o mod ord new bits) /\
    (bits <= o \/ bit old o = false \/ ord new bits = 0 -> p = o).
Proof.
  intros Hwo Hwn Hb Ho Hlo Hln. unfold bitmap_bitremap.
  destruct (bitmap_weight_spec new bits) as [-> _]; [done|lia|]. rewrite some_bind.
  fold (ord new bits). rewrite pos_to_ord_spec by (done || lia). rewrite some_bind.
  pose proof (count_range (bit new) 0 (Z.to_nat bits)) as Hw. fold (ord new bits) in Hw.
  pose proof (count_range (bit old) 0 (Z.to_nat o)) as Hw'. fold (ord old o) in Hw'.
  destruct (Z.leb_spec 0 o); [|lia]. cbn [andb].
  destruct (Z.ltb_spec o bits) as [Hlt|Hge], (bit old o) eqn:Ho1; cbn [andb].
  2-4: exists o; split; [done|]; split; [lia|]; split; [done|]; split; [lia || done|done].
  destruct (Z.ltb_spec (ord old o) 0); [lia|]. cbn [orb].
  destruct (Z.eqb_spec (ord new bits) 0) as [E|E].
  { exists o. split; [done|]. split; [lia|]. split; [done|]. split; [lia|done]. }
  rewrite Z.rem_mod_nonneg by lia.
  destruct (ord_to_pos_spec new (ord old o mod ord new bits) bits) as (p&->&?&?&?); try done; try lia.
  { apply Z.mod_pos_bound. lia. }
  exists p. split; [done|]. split; [lia|]. split; [done|]. split; [done|]. intros [?|[?|?]]; (lia || done).
Qed.

Lemma remap_loop_spec fuel dst src old new bits oldbit :
  words dst -> words src -> words old -> words new -> 0 < bits < 2 ^ 32 ->
  bits <= 32 * zlen dst -> bits <= 32 * zlen src -> bits <= 32 * zlen old -> bits <= 32 * zlen new ->
  0 <= oldbit <= bits -> (oldbit < bits -> bit src oldbit = true) -> bits - oldbit < Z.of_nat fuel ->
  exists dst', remap_loop fuel dst src old new bits (ord new bits) oldbit = Some dst' /\
    forall i, 0 <= i < bits -> (bit dst' i = true <-> bit dst i = true \/
      exists o, oldbit <= o < bits /\ bit src o = true /\ bitmap_bitremap o old new bits = Some i).
Proof.
  intros Hwd Hws Hwo Hwn Hb Hld Hls Hlo Hln. revert dst oldbit Hwd Hld.
  induction fuel as [|fuel IH]; intros dst oldbit Hwd Hld Ho Hset Hf; [lia|]. cbn [remap_loop].
  destruct (Z.ltb_spec oldbit bits) as [Hlt|Hge].
  2:{ exists dst. split; [done|]. intros i Hi. split; [by left|]. intros [?|(o&?&_)]; [done|lia]. }
  destruct (bitremap_spec old new oldbit bits) as (p&Hp&Hpr&Hn&_&_); try done; try lia.
  rewrite Hn, some_bind.
  assert (Hstep : (if ((if (0 <=? oldbit) && (oldbit <? bits) && bit old oldbit then ord old oldbit else -1) <? 0)
      || (ord new bits =? 0) then set_bit oldbit dst
    else p0 ← bitmap_ord_to_pos new (Z.rem (if (0 <=? oldbit) && (oldbit <? bits) && bit old oldbit then ord old oldbit else -1)
         (ord new bits)) bits; set_bit p0 dst) = set_bit p dst).
  { unfold bitmap_bitremap in Hp. destruct (bitmap_weight_spec new bits) as [Hwt _]; [done|lia|].
    fold (ord new bits) in Hwt. rewrite Hwt, some_bind, Hn, some_bind in Hp.
    destruct (_ || _); [by injection Hp as ->|]. by rewrite Hp, some_bind. }
  rewrite Hstep. destruct (set_bit_spec p dst) as (d1&->&Hw1&Hl1&Hb1); [done|lia|]. rewrite some_bind.
  destruct (find_next_bit_spec src bits (oldbit + 1)) as (r&->&_&Hr); try done; try lia.
  rewrite some_bind. destruct (Hr ltac:(lia)) as (Hr1&Hr2&Hr3).
  destruct (IH d1 r) as (d'&->&Hd'); try done; try lia.
  exists d'. split; [done|]. intros i Hi. rewrite Hd', Hb1 by lia. rewrite orb_true_iff, Z.eqb_eq. split.
  - intros [[->|?]|(o&?&?&?)]; [right|by left|right].
    + exists oldbit. split; [lia|]. split; [by apply Hset|done].
    + exists o. split; [lia|done].
  - intros [?|(o&Hor&Hos&Hom)]; [left; by right|].
    destruct (Z.eq_dec o oldbit) as [->|]; [left; left; congruence|].
    destruct (Z.ltb_spec o r); [rewrite Hr2 in Hos by lia; done|]. right. exists o. split; [lia|done].
Qed.

Lemma bitmap_zero_spec dst bits : words dst -> 0 < bits <= 32 * zlen dst ->
  exists dst', bitmap_zero dst bits = Some dst' /\ words dst' /\ length dst' = length dst /\
    forall i, 0 <= i < bits -> bit dst' i = false.
Proof.
  intros Hw Hb. unfold bitmap_zero. change BITS_PER_LONG with 32. destruct (Z.leb_spec bits 32).
  - destruct (wr dst 0 0) as [d'|] eqn:E; [|by rewrite wr_Some in E by lia]. exists d'. split; [done|].
    split; [eapply words_wr; (done || (unfold is_u32; lia))|]. split; [by eapply wr_length|].
    intros i Hi. erewrite bit_wr by done. rewrite Z.div_small by lia. apply Z.bits_0.
  - assert (Hl : 0 <= BITS_TO_LONGS bits <= zlen dst /\ bits <= 32 * BITS_TO_LONGS bits).
    { unfold BITS_TO_LONGS, BITS_PER_LONG. clear - Hb. Z.to_euclidean_division_equations; lia. }
    destruct (zero_words_spec dst 0 (BITS_TO_LONGS bits)) as (d'&->&?&?&Hz); try done; try lia.
    exists d'. split; [done|]. split; [done|]. split; [done|]. intros i Hi. rewrite Hz.
    destruct (Z.leb_spec (32 * 0) i), (Z.ltb_spec i (32 * (0 + BITS_TO_LONGS bits))); simpl; (done || lia).
Qed.

(** Without a multiple of the region size the search ends beyond the bitmap: it
    reports a region outside, and sets bits there. *)
Lemma find_free_region_outside :
  bitmap_find_free_region [0xffffffff; 0x1] 33 1 = Some ([0xffffffff; 0xd], 34).
Proof. reflexivity. Qed.

(** The unset position maps to -1, where its comment says 0. *)
Lemma pos_to_ord_unset : bitmap_pos_to_ord [0xf0] 3 32 = Some (-1).
Proof. reflexivity. Qed.

(** A truncated list is reported with the length stored, where the comment says
    the length the whole output would have. *)
Lemma scnlistprintf_truncated :
  bitmap_scnlistprintf 4096 (replicate 4 1) 4 [0x1f0f] 16 = Some (text "0-3" ++ [0], 3).
Proof. reflexivity. Qed.

(** ** Properties *)

(** [__bitmap_shift_left] and [__bitmap_shift_right] move every bit of the
    source by [shift] and fill with zeros, bits from [bits] on being ignored and
    cleared, whether source and destination are different or the same object. *)
Theorem bitmap_shift_moves_bits S dst src bits shift : words S -> words dst -> 0 <= bits -> 0 <= shift ->
  shift / 32 <= BITS_TO_LONGS bits -> BITS_TO_LONGS bits <= zlen S -> BITS_TO_LONGS bits <= zlen dst ->
  (src = Some S \/ src = None /\ dst = S) ->
  exists l r, __bitmap_shift_left dst src shift bits = Some l /\ __bitmap_shift_right dst src shift bits = Some r /\
    length l = length dst /\ length r = length dst /\
    forall i, 0 <= i < 32 * BITS_TO_LONGS bits ->
      bit l i = (i <? bits) && bit S (i - shift) /\ bit r i = (i + shift <? bits) && bit S (i + shift).
Proof.
  intros HS Hd Hb Hs Hoff HlS Hld Hsrc. unfold __bitmap_shift_left, __bitmap_shift_right. change BITS_PER_LONG with 32.
  assert (Hsd : 0 <= shift / 32 /\ 32 * (shift / 32) <= shift) by (clear - Hs; Z.to_euclidean_division_equations; lia).
  set (lim := BITS_TO_LONGS bits) in *. set (off := shift / 32) in *.
  destruct (shift_left_loop_spec (Z.to_nat (lim - off)) S src bits shift dst) as (l&El&Hlw&Hll&_&Hlb); try done; try lia.
  { destruct Hsrc as [?|[? ->]]; [by left|by right]. }
  destruct (shift_right_loop_spec (Z.to_nat (lim - off)) S src bits shift 0 dst) as (r&Er&Hrw&Hrl&_&Hrb); try done; try lia.
  { destruct Hsrc as [?|[? ->]]; [by left|by right]. }
  fold lim off in El, Er, Hlb, Hrb. rewrite El, Er, !some_bind.
  assert (Hout : forall i, 32 * (lim - off) <= i < 32 * lim -> (i + shift <? bits) = false).
  { intros i Hi. assert (bits <= 32 * lim) by (unfold lim, BITS_TO_LONGS, BITS_PER_LONG; clear - Hb; Z.to_euclidean_division_equations; lia).
    destruct (Z.ltb_spec (i + shift) bits); [lia|done]. }
  assert (Hneg : forall i, i < 32 * off -> bit S (i - shift) = false) by (intros i Hi; apply bit_outside; lia).
  destruct (Z.eqb_spec off 0) as [E|E]; cbn [negb].
  { exists l, r. repeat (split; [done|]). intros i Hi. rewrite Hlb, Hrb by lia. done. }
  destruct (zero_words_spec l 0 off) as (l'&->&?&Hl'&Hz); try done; try lia.
  destruct (zero_words_spec r (lim - off) off) as (r'&->&?&Hr'&Hz'); try done; try lia.
  exists l', r'. split; [done|]. split; [done|]. split; [congruence|]. split; [congruence|]. intros i Hi.
  rewrite Hz, Hz'. split.
  - destruct (Z.ltb_spec i (32 * (0 + off))); destruct (Z.leb_spec (32 * 0) i); try lia; cbn [andb].
    + rewrite Hneg by lia. by rewrite andb_false_r.
    + rewrite Hlb by lia. done.
  - destruct (Z.leb_spec (32 * (lim - off)) i); destruct (Z.ltb_spec i (32 * (lim - off + off))); try lia; cbn [andb].
    + by rewrite Hout by lia.
    + rewrite Hrb by lia. done.
Qed.

Lemma bitmap_shift_moves_bits_witness : exists l r,
  __bitmap_shift_left [0x80000001; 0xff] None 9 40 = Some l /\ __bitmap_shift_right [0x80000001; 0xff] None 9 40 = Some r /\
  length l = 2%nat /\ length r = 2%nat /\ forall i, 0 <= i < 32 * BITS_TO_LONGS 40 ->
    bit l i = (i <? 40) && bit [0x80000001; 0xff] (i - 9) /\
    bit r i = (i + 9 <? 40) && bit [0x80000001; 0xff] (i + 9).
Proof.
  assert (words [0x80000001; 0xff]) by (repeat (constructor; [unfold is_u32; lia|]); constructor).
  apply (bitmap_shift_moves_bits [0x80000001; 0xff]); try done; try lia; try (vm_compute; discriminate). by right.
Defined.

(** The word operations act on every valid bit: and, or, exclusive or, and
    not, and complement, the last also clearing the bits from [bits] on. *)
Theorem bitmap_operations_bitwise b1 b2 dst bits : words b1 -> words b2 -> words dst -> 0 <= bits ->
  bits <= 32 * zlen b1 -> bits <= 32 * zlen b2 -> bits <= 32 * zlen dst ->
  exists a o x n c, __bitmap_and dst b1 b2 bits = Some a /\ __bitmap_or dst b1 b2 bits = Some o /\
    __bitmap_xor dst b1 b2 bits = Some x /\ __bitmap_andnot dst b1 b2 bits = Some n /\
    __bitmap_complement dst b1 bits = Some c /\
    (forall i, 0 <= i < bits -> bit a i = bit b1 i && bit b2 i /\ bit o i = bit b1 i || bit b2 i /\
      bit x i = xorb (bit b1 i) (bit b2 i) /\ bit n i = bit b1 i && negb (bit b2 i) /\ bit c i = negb (bit b1 i)) /\
    (forall i, bits <= i < 32 * BITS_TO_LONGS bits -> bit c i = false).
Proof.
  intros H1 H2 Hd Hb Hl1 Hl2 Hld.
  assert (Hlim : 0 <= BITS_TO_LONGS bits /\ bits <= 32 * BITS_TO_LONGS bits /\ forall q, q < BITS_TO_LONGS bits <-> 32 * q < bits).
  { unfold BITS_TO_LONGS, BITS_PER_LONG. split; [|split]; [clear - Hb; Z.to_euclidean_division_equations; lia..|].
    intros q. clear - Hb. Z.to_euclidean_division_equations; lia. }
  destruct Hlim as (HL0&HL&HLq).
  assert (Hop : forall op f, (forall u v i, 0 <= i < 32 -> Z.testbit (op u v) i = f (Z.testbit u i) (Z.testbit v i)) ->
    (forall u v, is_u32 u -> is_u32 v -> is_u32 (op u v)) ->
    exists r, word_op op dst b1 b2 bits = Some r /\ forall i, 0 <= i < bits -> bit r i = f (bit b1 i) (bit b2 i)).
  { intros op f Hf Hr. unfold word_op.
    assert (Hrd : forall q, 0 <= q < 0 + Z.of_nat (Z.to_nat (BITS_TO_LONGS bits)) -> exists u v,
      rd b1 q = Some u /\ rd b2 q = Some v /\ is_u32 u /\ is_u32 v).
    { intros q Hq. specialize (HLq q). destruct (rd_words b1 bits q) as (u&?&?); [done..|lia|].
      destruct (rd_words b2 bits q) as (v&?&?); [done..|lia|]. by exists u, v. }
    destruct (store_words_spec (Z.to_nat (BITS_TO_LONGS bits)) (fun k => a ← rd b1 k; b ← rd b2 k; Some (op a b))
      (fun q => op (default 0 (rd b1 q)) (default 0 (rd b2 q))) 0 dst) as (r&->&_&_&Hst); try done.
    { destruct (Z.eq_dec (BITS_TO_LONGS bits) 0); [lia|]. specialize (HLq (BITS_TO_LONGS bits - 1)). lia. }
    { intros q Hq. destruct (Hrd q Hq) as (u&v&->&->&?&?). split; [done|]. by apply Hr. }
    exists r. split; [done|]. intros i Hi. unfold bit at 1. rewrite Hst.
    assert (0 <= i / 32 < 0 + Z.of_nat (Z.to_nat (BITS_TO_LONGS bits))) as Hq.
    { assert (0 <= i / 32 /\ 32 * (i / 32) <= i) by (clear - Hi; Z.to_euclidean_division_equations; lia).
      specialize (HLq (i / 32)). lia. }
    destruct (Z.leb_spec 0 (i / 32)), (Z.ltb_spec (i / 32) (0 + Z.of_nat (Z.to_nat (BITS_TO_LONGS bits)))); try lia.
    cbn [andb]. destruct (Hrd _ Hq) as (u&v&Eu&Ev&_). rewrite Eu, Ev. simpl.
    rewrite Hf by (apply Z.mod_pos_bound; lia). by rewrite (bit_rd b1 i u), (bit_rd b2 i v). }
  destruct (Hop Z.land andb) as (a&Ea&Ha); [intros; apply Z.land_spec|intros; by apply land_range|].
  destruct (Hop Z.lor orb) as (o&Eo&Ho); [intros; apply Z.lor_spec|intros; by apply lor_range|].
  destruct (Hop Z.lxor xorb) as (x&Ex&Hx); [intros; apply Z.lxor_spec| |].
  { intros u v Hu Hv. unfold is_u32 in *. assert (0 <= Z.lxor u v) by (apply Z.lxor_nonneg; lia).
    split; [done|]. apply bounded_of_bits; [lia|done|]. intros i Hi. by rewrite Z.lxor_spec, (testbit_high u 32), (testbit_high v 32). }
  destruct (Hop (fun a b => Z.land a (not32 b)) (fun a b => a && negb b)) as (n&En&Hn).
  { intros u v i Hi. rewrite Z.land_spec, not32_testbit. destruct (Z.ltb_spec i 32), (Z.leb_spec 0 i); try lia. done. }
  { intros; by apply land_range. }
  clear Hop. destruct (complement_spec b1 dst bits) as (c&Ec&Hc1&Hc2); try done.
  exists a, o, x, n, c. repeat (split; [done|]). split; [|done]. intros i Hi.
  repeat split; auto.
Qed.

Lemma bitmap_operations_bitwise_witness : exists a o x n c,
  __bitmap_and [0; 0] [0xff; 3] [0xf0; 1] 34 = Some a /\ __bitmap_or [0; 0] [0xff; 3] [0xf0; 1] 34 = Some o /\
  __bitmap_xor [0; 0] [0xff; 3] [0xf0; 1] 34 = Some x /\ __bitmap_andnot [0; 0] [0xff; 3] [0xf0; 1] 34 = Some n /\
  __bitmap_complement [0; 0] [0xff; 3] 34 = Some c /\
  (forall i, 0 <= i < 34 -> bit a i = bit [0xff; 3] i && bit [0xf0; 1] i /\ bit o i = bit [0xff; 3] i || bit [0xf0; 1] i /\
    bit x i = xorb (bit [0xff; 3] i) (bit [0xf0; 1] i) /\ bit n i = bit [0xff; 3] i && negb (bit [0xf0; 1] i) /\
    bit c i = negb (bit [0xff; 3] i)) /\
  (forall i, 34 <= i < 32 * BITS_TO_LONGS 34 -> bit c i = false).
Proof.
  apply bitmap_operations_bitwise; try lia; try (simpl; lia); repeat (constructor; [unfold is_u32; lia|]); constructor.
Defined.

(** The tests answer for exactly the first [bits] bits, whatever follows
    them: empty, full, equal, intersects, subset; and the weight is the number
    of set bits among them. *)
Theorem bitmap_tests_correct b1 b2 bits : words b1 -> words b2 -> 0 < bits ->
  bits <= 32 * zlen b1 -> bits <= 32 * zlen b2 ->
  exists e f q x s, __bitmap_empty b1 bits = Some e /\ __bitmap_full b1 bits = Some f /\
    __bitmap_equal b1 b2 bits = Some q /\ __bitmap_intersects b1 b2 bits = Some x /\ __bitmap_subset b1 b2 bits = Some s /\
    (e = true <-> forall i, 0 <= i < bits -> bit b1 i = false) /\
    (f = true <-> forall i, 0 <= i < bits -> bit b1 i = true) /\
    (q = true <-> forall i, 0 <= i < bits -> bit b1 i = bit b2 i) /\
    (x = true <-> exists i, 0 <= i < bits /\ bit b1 i = true /\ bit b2 i = true) /\
    (s = true <-> forall i, 0 <= i < bits -> bit b1 i = true -> bit b2 i = true) /\
    bitmap_weight b1 bits = Some (count (bit b1) 0 (Z.to_nat bits)).
Proof.
  intros H1 H2 Hb Hl1 Hl2.
  set (g1 := fun q => default 0 (rd b1 q)). set (g2 := fun q => default 0 (rd b2 q)).
  assert (Hr1 : forall q, 0 <= 32 * q < bits -> rd b1 q = Some (g1 q) /\ is_u32 (g1 q)).
  { intros q Hq. destruct (rd_words b1 bits q) as (w&E&?); [done..|]. unfold g1. by rewrite E. }
  assert (Hr2 : forall q, 0 <= 32 * q < bits -> rd b2 q = Some (g2 q) /\ is_u32 (g2 q)).
  { intros q Hq. destruct (rd_words b2 bits q) as (w&E&?); [done..|]. unfold g2. by rewrite E. }
  assert (Hbit : forall i, 0 <= i < bits -> 0 <= 32 * (i / 32) < bits /\ 0 <= i mod 32 < 32 /\
    bit b1 i = Z.testbit (g1 (i / 32)) (i mod 32) /\ bit b2 i = Z.testbit (g2 (i / 32)) (i mod 32)).
  { intros i Hi. assert (0 <= 32 * (i / 32) < bits /\ 0 <= i mod 32 < 32) as [Hq ?] by (clear - Hi; Z.to_euclidean_division_equations; lia).
    destruct (Hr1 _ Hq) as [E1 _], (Hr2 _ Hq) as [E2 _].
    rewrite <- (bit_rd b1 i), <- (bit_rd b2 i) by done. done. }
  assert (Hx32 : forall u v, is_u32 u -> is_u32 v -> is_u32 (Z.lxor u v)).
  { intros u v Hu Hv. unfold is_u32 in *. assert (0 <= Z.lxor u v) by (apply Z.lxor_nonneg; lia).
    split; [done|]. apply bounded_of_bits; [lia|done|]. intros i Hi. by rewrite Z.lxor_spec, (testbit_high u 32), (testbit_high v 32). }
  destruct (all_zero_spec (fun k => rd b1 k) g1 bits) as (e&He&Hes); [lia|done|].
  destruct (all_zero_spec (fun k => w ← rd b1 k; Some (not32 w)) (fun q => not32 (g1 q)) bits) as (f&Hf&Hfs); [lia| |].
  { intros q Hq. destruct (Hr1 q Hq) as [-> _]. split; [done|apply u32_range]. }
  destruct (all_zero_spec (fun k => a ← rd b1 k; b ← rd b2 k; Some (Z.lxor a b)) (fun q => Z.lxor (g1 q) (g2 q)) bits) as (q&Hq&Hqs); [lia| |].
  { intros q Hq. destruct (Hr1 q Hq) as [-> ?], (Hr2 q Hq) as [-> ?]. split; [done|auto]. }
  destruct (all_zero_spec (fun k => a ← rd b1 k; b ← rd b2 k; Some (Z.land a b)) (fun q => Z.land (g1 q) (g2 q)) bits) as (x&Hx&Hxs); [lia| |].
  { intros q' Hq'. destruct (Hr1 q' Hq') as [-> ?], (Hr2 q' Hq') as [-> ?]. split; [done|by apply land_range]. }
  destruct (all_zero_spec (fun k => a ← rd b1 k; b ← rd b2 k; Some (Z.land a (not32 b))) (fun q => Z.land (g1 q) (not32 (g2 q))) bits)
    as (s&Hs&Hss); [lia| |].
  { intros q' Hq'. destruct (Hr1 q' Hq') as [-> ?], (Hr2 q' Hq') as [-> ?]. split; [done|by apply land_range]. }
  exists e, f, q, (negb x), s. unfold __bitmap_intersects. rewrite Hx, some_bind.
  do 5 (split; [done|]). rewrite Hes, Hfs, Hqs, Hss. clear He Hf Hq Hx Hs Hes Hfs Hqs Hss.
  split; [|split; [|split; [|split; [|split]]]].
  - split; intros H i Hi; destruct (Hbit i Hi) as (?&?&E1&?); specialize (H i Hi); congruence.
  - split; intros H i Hi; destruct (Hbit i Hi) as (?&?&E1&?); specialize (H i Hi); rewrite E1 in *;
      rewrite not32_testbit in *; destruct (Z.ltb_spec (i mod 32) 32), (Z.leb_spec 0 (i mod 32)); try lia;
      cbn [andb] in *; by destruct (Z.testbit _ _).
  - split; intros H i Hi; destruct (Hbit i Hi) as (?&?&E1&E2); specialize (H i Hi); rewrite E1, E2 in *;
      rewrite Z.lxor_spec in *; by destruct (Z.testbit (g1 _) _), (Z.testbit (g2 _) _).
  - destruct x; simpl.
    + split; [done|]. intros (i&Hi&B1&B2). destruct (Hbit i Hi) as (?&?&E1&E2).
      assert (T : Z.testbit (Z.land (g1 (i / 32)) (g2 (i / 32))) (i mod 32) = false) by (by apply Hxs).
      rewrite Z.land_spec, <- E1, <- E2, B1, B2 in T. done.
    + split; [|done]. intros _.
      destruct (decide (Exists (fun i => bit b1 i && bit b2 i = true) (seqZ 0 bits))) as [Hex|Hno].
      * apply Exists_exists in Hex as (i&Hi%elem_of_seqZ&[? ?]%andb_true_iff). exists i. split; [lia|done].
      * exfalso. assert (false = true); [apply Hxs|done]. intros i Hi. destruct (Hbit i Hi) as (?&?&E1&E2).
        rewrite Z.land_spec, <- E1, <- E2. destruct (bit b1 i && bit b2 i) eqn:E; [|done]. exfalso. apply Hno.
        apply Exists_exists. exists i. split; [apply elem_of_seqZ; lia|done].
  - split; intros H i Hi; destruct (Hbit i Hi) as (?&?&E1&E2); specialize (H i Hi); rewrite E1, E2 in *;
      rewrite Z.land_spec, not32_testbit in *; destruct (Z.ltb_spec (i mod 32) 32), (Z.leb_spec 0 (i mod 32)); try lia;
      cbn [andb] in *; destruct (Z.testbit (g1 _) _), (Z.testbit (g2 _) _); simpl in *; intuition congruence.
  - apply bitmap_weight_spec; [done|lia].
Qed.

Lemma bitmap_tests_correct_witness : exists e f q x s,
  __bitmap_empty [0xf0; 0xff] 36 = Some e /\ __bitmap_full [0xf0; 0xff] 36 = Some f /\
  __bitmap_equal [0xf0; 0xff] [0xf0; 0xf] 36 = Some q /\ __bitmap_intersects [0xf0; 0xff] [0xf0; 0xf] 36 = Some x /\
  __bitmap_subset [0xf0; 0xff] [0xf0; 0xf] 36 = Some s /\
  (e = true <-> forall i, 0 <= i < 36 -> bit [0xf0; 0xff] i = false) /\
  (f = true <-> forall i, 0 <= i < 36 -> bit [0xf0; 0xff] i = true) /\
  (q = true <-> forall i, 0 <= i < 36 -> bit [0xf0; 0xff] i = bit [0xf0; 0xf] i) /\
  (x = true <-> exists i, 0 <= i < 36 /\ bit [0xf0; 0xff] i = true /\ bit [0xf0; 0xf] i = true) /\
  (s = true <-> forall i, 0 <= i < 36 -> bit [0xf0; 0xff] i = true -> bit [0xf0; 0xf] i = true) /\
  bitmap_weight [0xf0; 0xff] 36 = Some (count (bit [0xf0; 0xff]) 0 (Z.to_nat 36)).
Proof.
  apply bitmap_tests_correct; try lia; try (simpl; lia); repeat (constructor; [unfold is_u32; lia|]); constructor.
Defined.

(** C28. [bitmap_find_free_region] on a bitmap whose size is a multiple of the
    region size ends with the first aligned region of [2^order] clear bits,
    sets exactly its bits, and returns its position; when there is none it
    returns -ENOMEM and changes nothing.  Releasing the region gives the
    bitmap's bits back, and allocating a free one again succeeds. *)
Theorem bitmap_region_allocation b bits order : words b -> 0 <= order -> 0 < bits <= 32 * zlen b ->
  bits mod 2 ^ order = 0 ->
  exists b' r, bitmap_find_free_region b bits order = Some (b', r) /\ length b' = length b /\
    ((r = - ENOMEM /\ b' = b /\ forall p, ~ free_region b bits order p) \/
     (free_region b bits order r /\ (forall p, p < r -> ~ free_region b bits order p) /\
      (forall i, 0 <= i -> bit b' i = in_region r order i || bit b i) /\
      bitmap_allocate_region b r order = Some (b', 0) /\
      bitmap_allocate_region b' r order = Some (b', - EBUSY) /\
      exists b'', bitmap_release_region b' r order = Some b'' /\ forall i, 0 <= i -> bit b'' i = bit b i)).
Proof.
  intros Hw Ho Hb Hm. unfold bitmap_find_free_region. assert (H2 : 0 < 2 ^ order) by (apply Z.pow_pos_nonneg; lia).
  destruct (find_region_spec (S (Z.to_nat bits)) b bits order 0) as (p&->&Hp&Hfree&Hno); try done; try lia.
  rewrite some_bind.
  assert (Hno' : forall q, q < p -> ~ free_region b bits order q).
  { intros q Hq Hf. apply (Hno q); [|done]. destruct Hf. lia. }
  destruct (Z.eqb_spec p bits) as [->|Hn].
  { exists b, (- ENOMEM). split; [done|]. split; [done|]. left. split; [done|]. split; [done|].
    intros q Hf. apply (Hno' q); [|done]. destruct Hf as (?&?&?&?). lia. }
  destruct (Hfree ltac:(lia)) as (Hp0&Hpm&Hpe&Hpf).
  destruct (reg_op_spec b p order REG_OP_ALLOC) as (b'&r1&E1&Hw1&Hl1&->&Hb1); try done; try lia.
  destruct (reg_op_spec b p order REG_OP_ISFREE) as (b0&r0&E0&_&_&->&Hr0); try done; try lia.
  destruct (reg_op_spec b' p order REG_OP_ISFREE) as (b0&r2&E2&_&_&->&Hr2); try done; try lia.
  destruct (reg_op_spec b' p order REG_OP_RELEASE) as (b''&r3&E3&_&_&->&Hb3); try done; try lia.
  rewrite E1, some_bind. exists b', p. split; [done|]. split; [done|]. right.
  split; [done|]. split; [done|]. split; [done|]. unfold bitmap_allocate_region, bitmap_release_region.
  rewrite E0, some_bind. assert (r0 = true) as -> by (by apply Hr0). cbn [negb]. rewrite E1, some_bind.
  split; [done|]. rewrite E2, some_bind. split.
  - destruct r2; [|done]. exfalso. assert (bit b' p = false) as Hc by (apply Hr2; [done|lia]).
    rewrite Hb1 in Hc by lia. unfold in_region in Hc.
    destruct (Z.leb_spec p p), (Z.ltb_spec p (p + 2 ^ order)); simpl in Hc; (done || lia).
  - rewrite E3, some_bind. exists b''. split; [done|]. intros i Hi. rewrite Hb3, Hb1 by done.
    unfold in_region. destruct (Z.leb_spec p i), (Z.ltb_spec i (p + 2 ^ order)); simpl; try done.
    symmetry. apply Hpf. lia.
Qed.

Lemma bitmap_region_allocation_witness : exists b' r,
  bitmap_find_free_region [0xffff00ff; 0] 64 3 = Some (b', r) /\ length b' = 2%nat /\
  ((r = - ENOMEM /\ b' = [0xffff00ff; 0] /\ forall p, ~ free_region [0xffff00ff; 0] 64 3 p) \/
   (free_region [0xffff00ff; 0] 64 3 r /\ (forall p, p < r -> ~ free_region [0xffff00ff; 0] 64 3 p) /\
    (forall i, 0 <= i -> bit b' i = in_region r 3 i || bit [0xffff00ff; 0] i) /\
    bitmap_allocate_region [0xffff00ff; 0] r 3 = Some (b', 0) /\
    bitmap_allocate_region b' r 3 = Some (b', - EBUSY) /\
    exists b'', bitmap_release_region b' r 3 = Some b'' /\ forall i, 0 <= i -> bit b'' i = bit [0xffff00ff; 0] i)).
Proof.
  apply (bitmap_region_allocation [0xffff00ff; 0]); try lia; try done; try (simpl; lia).
  repeat (constructor; [unfold is_u32; lia|]); constructor.
Defined.

(** Remapping: [bitmap_bitremap] keeps a bit outside [old] (and every bit when
    [new] is empty) and otherwise sends the n-th set bit of [old] to the
    (n mod w)-th set bit of [new], w the weight of [new]; [bitmap_remap] gives
    exactly the images of the set bits of [src]. *)
Theorem bitmap_remap_maps_ordinals dst src old new bits :
  words dst -> words src -> words old -> words new -> 0 < bits < 2 ^ 32 ->
  bits <= 32 * zlen dst -> bits <= 32 * zlen src -> bits <= 32 * zlen old -> bits <= 32 * zlen new ->
  (forall o, 0 <= o < bits -> exists p, bitmap_bitremap o old new bits = Some p /\ 0 <= p < bits /\
    if bit old o && (0 <? ord new bits) then bit new p = true /\ ord new p = ord old o mod ord new bits else p = o) /\
  exists dst', bitmap_remap false dst src old new bits = Some dst' /\
    forall i, 0 <= i < bits -> (bit dst' i = true <->
      exists o, 0 <= o < bits /\ bit src o = true /\ bitmap_bitremap o old new bits = Some i).
Proof.
  intros Hwd Hws Hwo Hwn Hb Hld Hls Hlo Hln. split.
  - intros o Ho. destruct (bitremap_spec old new o bits) as (p&Hp&Hpr&_&H1&H2); try done; try lia.
    exists p. split; [done|]. split; [apply Hpr; lia|].
    pose proof (count_range (bit new) 0 (Z.to_nat bits)) as Hw. fold (ord new bits) in Hw.
    destruct (bit old o) eqn:Eo; cbn [andb]; [|apply H2; auto].
    destruct (Z.ltb_spec 0 (ord new bits)); [apply H1; (done || lia)|apply H2; right; right; lia].
  - unfold bitmap_remap. destruct (bitmap_zero_spec dst bits) as (d0&->&Hw0&Hl0&Hz); [done|lia|]. rewrite some_bind.
    destruct (bitmap_weight_spec new bits) as [-> _]; [done|lia|]. rewrite some_bind. fold (ord new bits).
    unfold find_first_bit. destruct (find_next_bit_spec src bits 0) as (r&->&_&Hr); try done; try lia.
    rewrite some_bind. destruct (Hr ltac:(lia)) as (Hr1&Hr2&Hr3).
    destruct (remap_loop_spec (S (Z.to_nat bits)) d0 src old new bits r) as (d'&->&Hd'); try done; try lia.
    exists d'. split; [done|]. intros i Hi. rewrite Hd', Hz by done. split.
    + intros [?|(o&?&?)]; [done|]. exists o. split; [lia|done].
    + intros (o&Ho&Hos&?). right. exists o. split; [|done].
      destruct (Z.ltb_spec o r); [rewrite Hr2 in Hos by lia; done|lia].
Qed.

Lemma bitmap_remap_maps_ordinals_witness :
  (forall o, 0 <= o < 16 -> exists p, bitmap_bitremap o [0xf0] [0xf000] 16 = Some p /\ 0 <= p < 16 /\
    if bit [0xf0] o && (0 <? ord [0xf000] 16) then bit [0xf000] p = true /\ ord [0xf000] p = ord [0xf0] o mod ord [0xf000] 16 else p = o) /\
  exists dst', bitmap_remap false [0] [0xa2] [0xf0] [0xf000] 16 = Some dst' /\
    forall i, 0 <= i < 16 -> (bit dst' i = true <->
      exists o, 0 <= o < 16 /\ bit [0xa2] o = true /\ bitmap_bitremap o [0xf0] [0xf000] 16 = Some i).
Proof.
  apply bitmap_remap_maps_ordinals; try lia; try (simpl; lia); repeat (constructor; [unfold is_u32; lia|]); constructor.
Defined.
