(* ===== verification/Resource.v ===== *)
(** * The resource tree (kernel/resource.c)

    The heap maps addresses to resources; 0 is NULL.  [resource_lock] makes every
    operation atomic, so each is one function of the heap.  [resource_size_t] has
    32 bits.  A pointer to a link ([struct resource **]) is a [link]. *)

From S2P Require Import Prelude.
From stdpp Require Import gmap.
From Stdlib Require Import Sorted.

#[local] Open Scope Z_scope.

Record resource := mk_resource {
  r_start : Z;
  r_end : Z;
  r_name : Z;
  r_flags : Z;
  r_parent : Z;
  r_sibling : Z;
  r_child : Z
}.

Abbreviation heap := (gmap Z resource).
Definition NULL : Z := 0.
Definition IORESOURCE_BUSY : Z := 0x80000000.

(** ** Assignments to fields *)

Definition with_start (v : Z) (r : resource) :=
  mk_resource v (r_end r) (r_name r) (r_flags r) (r_parent r) (r_sibling r) (r_child r).
Definition with_end (v : Z) (r : resource) :=
  mk_resource (r_start r) v (r_name r) (r_flags r) (r_parent r) (r_sibling r) (r_child r).
Definition with_parent (v : Z) (r : resource) :=
  mk_resource (r_start r) (r_end r) (r_name r) (r_flags r) v (r_sibling r) (r_child r).
Definition with_sibling (v : Z) (r : resource) :=
  mk_resource (r_start r) (r_end r) (r_name r) (r_flags r) (r_parent r) v (r_child r).
Definition with_child (v : Z) (r : resource) :=
  mk_resource (r_start r) (r_end r) (r_name r) (r_flags r) (r_parent r) (r_sibling r) v.

(** [p->field = v] *)
Definition upd (f : resource -> resource) (p : Z) (m : heap) : option heap :=
  r ← m !! p; Some (<[p := f r]> m).

Inductive link := LChild (p : Z) | LSibling (p : Z).

Definition load (m : heap) (l : link) : option Z :=
  match l with
  | LChild p => r ← m !! p; Some (r_child r)
  | LSibling p => r ← m !! p; Some (r_sibling r)
  end.
Definition store (l : link) (v : Z) (m : heap) : option heap :=
  match l with
  | LChild p => upd (with_child v) p m
  | LSibling p => upd (with_sibling v) p m
  end.

(** A walk over a list of siblings visits each resource once. *)
Definition fuel_of (m : heap) : nat := S (size m).

(** ** Request and release *)

Fixpoint request_loop (fuel : nat) (m : heap) (root new start end_ : Z) (p : link) : option (heap * Z) :=
  match fuel with
  | O => None
  | S fuel =>
    tmp ← load m p;
    t ← (if tmp =? NULL then Some None else r ← m !! tmp; Some (Some r));
    if (match t with None => true | Some r => end_ <? r_start r end) then
      m ← upd (with_sibling tmp) new m;
      m ← store p new m;
      m ← upd (with_parent root) new m;
      Some (m, NULL)
    else
      r ← t;
      if r_end r <? start then request_loop fuel m root new start end_ (LSibling tmp)
      else Some (m, tmp)
  end.

(** The conflicting resource, or NULL. *)
Definition __request_resource (m : heap) (root new : Z) : option (heap * Z) :=
  rn ← m !! new;
  rr ← m !! root;
  let start := r_start rn in
  let end_ := r_end rn in
  if end_ <? start then Some (m, root)
  else if start <? r_start rr then Some (m, root)
  else if r_end rr <? end_ then Some (m, root)
  else request_loop (fuel_of m) m root new start end_ (LChild root).

Fixpoint release_loop (fuel : nat) (m : heap) (old : Z) (p : link) : option (heap * Z) :=
  match fuel with
  | O => None
  | S fuel =>
    tmp ← load m p;
    if tmp =? NULL then Some (m, - EINVAL)
    else if tmp =? old then
      r ← m !! tmp;
      m ← store p (r_sibling r) m;
      m ← upd (with_parent NULL) old m;
      Some (m, 0)
    else release_loop fuel m old (LSibling tmp)
  end.

Definition __release_resource (m : heap) (old : Z) : option (heap * Z) :=
  r ← m !! old;
  release_loop (fuel_of m) m old (LChild (r_parent r)).

Definition request_resource (m : heap) (root new : Z) : option (heap * Z) :=
  '(m, conflict) ← __request_resource m root new;
  Some (m, if negb (conflict =? NULL) then - EBUSY else 0).

Definition release_resource (m : heap) (old : Z) : option (heap * Z) := __release_resource m old.

(** ** Allocation *)

Definition ALIGN (x a : Z) : Z := Z.land (u32 (x + (a - 1))) (not32 (a - 1)).

(** [alignf] is the caller's: what it makes of the new resource. *)
Fixpoint find_loop (fuel : nat) (m : heap) (root new size min max align : Z)
    (alignf : option (resource -> Z -> Z -> resource)) (this : Z) : option (heap * Z) :=
  match fuel with
  | O => None
  | S fuel =>
    m ← (if negb (this =? NULL) then t ← m !! this; upd (with_end (u32 (r_start t - 1))) new m
         else rr ← m !! root; upd (with_end (r_end rr)) new m);
    n ← m !! new;
    m ← (if r_start n <? min then upd (with_start min) new m else Some m);
    n ← m !! new;
    m ← (if max <? r_end n then upd (with_end max) new m else Some m);
    n ← m !! new;
    m ← upd (with_start (ALIGN (r_start n) align)) new m;
    m ← (match alignf with Some f => upd (fun r => f r size align) new m | None => Some m end);
    n ← m !! new;
    if (r_start n <? r_end n) && (u32 (size - 1) <=? u32 (r_end n - r_start n)) then
      m ← upd (with_end (u32 (r_start n + size - 1))) new m; Some (m, 0)
    else if this =? NULL then Some (m, - EBUSY)
    else
      t ← m !! this;
      m ← upd (with_start (u32 (r_end t + 1))) new m;
      find_loop fuel m root new size min max align alignf (r_sibling t)
  end.

Definition find_resource (m : heap) (root new size min max align : Z)
    (alignf : option (resource -> Z -> Z -> resource)) : option (heap * Z) :=
  rr ← m !! root;
  let this := r_child rr in
  m ← upd (with_start (r_start rr)) new m;
  '(m, this) ←
    (if negb (this =? NULL) then
       t ← m !! this;
       if r_start t =? 0 then
         m ← upd (with_start (u32 (r_end t + 1))) new m; Some (m, r_sibling t)
       else Some (m, this)
     else Some (m, this));
  find_loop (fuel_of m) m root new size min max align alignf this.

Definition allocate_resource (m : heap) (root new size min max align : Z)
    (alignf : option (resource -> Z -> Z -> resource)) : option (heap * Z) :=
  '(m, err) ← find_resource m root new size min max align alignf;
  if 0 <=? err then
    '(m, c) ← __request_resource m root new;
    Some (m, if negb (c =? NULL) then - EBUSY else err)
  else Some (m, err).

(** ** Insertion above existing resources *)

(** The first loop: [inl] is the result of the call; otherwise the parent and
    the first conflict. *)
Fixpoint insert_find (fuel : nat) (m : heap) (parent new : Z) : option (heap * (Z + Z * Z)) :=
  match fuel with
  | O => None
  | S fuel =>
    '(m, first) ← __request_resource m parent new;
    if first =? NULL then Some (m, inl 0)
    else if first =? parent then Some (m, inl (- EBUSY))
    else
      f ← m !! first;
      n ← m !! new;
      if (r_start n <? r_start f) || (r_end f <? r_end n) then Some (m, inr (parent, first))
      else if (r_start f =? r_start n) && (r_end f =? r_end n) then Some (m, inr (parent, first))
      else insert_find fuel m first new
  end.

(** The second loop: the last conflict, [None] inside when one overlaps partially. *)
Fixpoint insert_last (fuel : nat) (m : heap) (new next : Z) : option (option Z) :=
  match fuel with
  | O => None
  | S fuel =>
    x ← m !! next;
    n ← m !! new;
    if (r_start x <? r_start n) || (r_end n <? r_end x) then Some None
    else if r_sibling x =? NULL then Some (Some next)
    else
      s ← m !! r_sibling x;
      if r_end n <? r_start s then Some (Some next)
      else insert_last fuel m new (r_sibling x)
  end.

(** [for (next = first; next; next = next->sibling) next->parent = new;] *)
Fixpoint set_parents (fuel : nat) (m : heap) (next new : Z) : option heap :=
  match fuel with
  | O => None
  | S fuel =>
    if next =? NULL then Some m else
    m ← upd (with_parent new) next m;
    x ← m !! next;
    set_parents fuel m (r_sibling x) new
  end.

(** [while (next->sibling != target) next = next->sibling;] *)
Fixpoint find_before (fuel : nat) (m : heap) (next target : Z) : option Z :=
  match fuel with
  | O => None
  | S fuel =>
    x ← m !! next;
    if negb (r_sibling x =? target) then find_before fuel m (r_sibling x) target else Some next
  end.

Definition insert_resource (m : heap) (parent new : Z) : option (heap * Z) :=
  '(m, r) ← insert_find (fuel_of m) m parent new;
  match r with
  | inl result => Some (m, result)
  | inr (parent, first) =>
    l ← insert_last (fuel_of m) m new first;
    match l with
    | None => Some (m, - EBUSY)
    | Some next =>
      m ← upd (with_parent parent) new m;
      x ← m !! next;
      m ← upd (with_sibling (r_sibling x)) new m;
      m ← upd (with_child first) new m;
      m ← upd (with_sibling NULL) next m;
      m ← set_parents (fuel_of m) m first new;
      p ← m !! parent;
      if r_child p =? first then m ← upd (with_child new) parent m; Some (m, 0)
      else
        b ← find_before (fuel_of m) m (r_child p) first;
        m ← upd (with_sibling new) b m; Some (m, 0)
    end
  end.

(** ** Adjustment *)

(** Do all children from [tmp] on lie between [start] and [end]? *)
Fixpoint children_within (fuel : nat) (m : heap) (tmp start end_ : Z) : option bool :=
  match fuel with
  | O => None
  | S fuel =>
    if tmp =? NULL then Some true else
    t ← m !! tmp;
    if (r_start t <? start) || (end_ <? r_end t) then Some false
    else children_within fuel m (r_sibling t) start end_
  end.

Definition adjust_resource (m : heap) (res start size : Z) : option (heap * Z) :=
  r ← m !! res;
  let parent := r_parent r in
  let end_ := u32 (start + size - 1) in
  p ← m !! parent;
  if (start <? r_start p) || (r_end p <? end_) then Some (m, - EBUSY) else
  w ← children_within (fuel_of m) m (r_child r) start end_;
  if negb w then Some (m, - EBUSY) else
  after ← (if negb (r_sibling r =? NULL) then s ← m !! r_sibling r; Some (r_start s <=? end_) else Some false);
  if after : bool then Some (m, - EBUSY) else
  before ← (if negb (r_child p =? res) then
              b ← find_before (fuel_of m) m (r_child p) res;
              t ← m !! b; Some (start <=? r_end t)
            else Some false);
  if before : bool then Some (m, - EBUSY) else
  m ← upd (with_start start) res m;
  m ← upd (with_end end_) res m;
  Some (m, 0).

(** ** Busy regions *)

Definition busy (r : resource) : bool := negb (Z.land (r_flags r) IORESOURCE_BUSY =? 0).

(** The loop of [__request_region]; [kfree] removes [res] from the heap. *)
Fixpoint region_loop (fuel : nat) (m : heap) (parent res : Z) : option (heap * Z) :=
  match fuel with
  | O => None
  | S fuel =>
    '(m, conflict) ← __request_resource m parent res;
    if conflict =? NULL then Some (m, res)
    else if negb (conflict =? parent) then
      c ← m !! conflict;
      if negb (busy c) then region_loop fuel m conflict res else Some (delete res m, NULL)
    else Some (delete res m, NULL)
  end.

(** [res] is what [kzalloc] returned: NULL, or an address not in the heap. *)
Definition __request_region (m : heap) (res parent start n name : Z) : option (heap * Z) :=
  if res =? NULL then Some (m, NULL) else
  let m := <[res := mk_resource start (u32 (start + n - 1)) name IORESOURCE_BUSY NULL NULL NULL]> m in
  region_loop (fuel_of m) m parent res.

Definition __check_region (m : heap) (res parent start n name : Z) : option (heap * Z) :=
  '(m, res) ← __request_region m res parent start n name;
  if res =? NULL then Some (m, - EBUSY) else
  '(m, _) ← release_resource m res;
  Some (delete res m, 0).

(** Every turn moves to a sibling or down a level.  The result tells whether the
    region was found; otherwise the code prints a warning. *)
Fixpoint release_region_loop (fuel : nat) (m : heap) (p : link) (start end_ : Z) : option (heap * bool) :=
  match fuel with
  | O => None
  | S fuel =>
    res ← load m p;
    if res =? NULL then Some (m, false) else
    r ← m !! res;
    if (r_start r <=? start) && (end_ <=? r_end r) then
      if negb (busy r) then release_region_loop fuel m (LChild res) start end_
      else if negb (r_start r =? start) || negb (r_end r =? end_) then Some (m, false)
      else m ← store p (r_sibling r) m; Some (delete res m, true)
    else release_region_loop fuel m (LSibling res) start end_
  end.

Definition __release_region (m : heap) (parent start n : Z) : option (heap * bool) :=
  release_region_loop (fuel_of m * fuel_of m) m (LChild parent) start (u32 (start + n - 1)).

(** ** The invariant *)

Definition no_resource : resource := mk_resource 0 0 0 0 0 0 0.
Definition R (m : heap) (p : Z) : resource := default no_resource (m !! p).

(** From [p] the sibling links visit [cs] and end at [q]. *)
Fixpoint seg (m : heap) (p : Z) (cs : list Z) (q : Z) : Prop :=
  match cs with
  | [] => p = q
  | c :: cs => p = c /\ is_Some (m !! c) /\ seg m (r_sibling (R m c)) cs q
  end.

Definition precedes (m : heap) (a b : Z) : Prop := r_end (R m a) < r_start (R m b).

Definition child_of (m : heap) (p c : Z) : Prop :=
  is_Some (m !! c) /\ r_parent (R m c) = p /\
  r_start (R m p) <= r_start (R m c) /\ r_start (R m c) <= r_end (R m c) /\ r_end (R m c) <= r_end (R m p).

(** The children of [p]: in its range, in order, disjoint. *)
Definition children (m : heap) (p : Z) (cs : list Z) : Prop :=
  is_Some (m !! p) /\ seg m (r_child (R m p)) cs NULL /\ Forall (child_of m p) cs /\ StronglySorted (precedes m) cs.

Definition ranked (m : heap) (rank : Z -> nat) : Prop :=
  forall p cs c, children m p cs -> c ∈ cs -> (rank c < rank p)%nat.

(** The heap holds trees of resources. *)
Definition resource_inv (m : heap) : Prop :=
  m !! NULL = None /\ (forall p, is_Some (m !! p) -> exists cs, children m p cs) /\ exists rank, ranked m rank.

(** A resource outside every tree. *)
Definition detached (m : heap) (p : Z) : Prop := is_Some (m !! p) /\ r_parent (R m p) = NULL.

(** ** Lemmas: the heap *)

Lemma R_lookup m p r : m !! p = Some r -> R m p = r.
Proof. intros H. unfold R. by rewrite H. Qed.

Lemma lookup_R m p : is_Some (m !! p) -> m !! p = Some (R m p).
Proof. intros [r H]. by rewrite (R_lookup _ _ _ H). Qed.

Lemma R_insert_eq m p r : R (<[p := r]> m) p = r.
Proof. unfold R. by rewrite lookup_insert_eq. Qed.

Lemma R_insert_ne m p q r : p <> q -> R (<[p := r]> m) q = R m q.
Proof. intros H. unfold R. by rewrite lookup_insert_ne. Qed.

Lemma upd_Some f p m : is_Some (m !! p) -> upd f p m = Some (<[p := f (R m p)]> m).
Proof. intros H. unfold upd. by rewrite (lookup_R _ _ H). Qed.

Lemma is_Some_insert (m : heap) p r q : is_Some (m !! q) -> is_Some (<[p := r]> m !! q).
Proof.
  intros H. destruct (Z.eq_dec p q) as [->|]; [rewrite lookup_insert_eq; eauto|by rewrite lookup_insert_ne].
Qed.

(** *** Segments *)

Lemma seg_app m p cs1 cs2 q : seg m p (cs1 ++ cs2) q <-> exists x, seg m p cs1 x /\ seg m x cs2 q.
Proof.
  revert p. induction cs1 as [|c cs1 IH]; intros p; simpl.
  - split; [intros; by exists p|]. intros (x&->&?). done.
  - rewrite IH. split; [intros (->&?&x&?&?); eauto 6|intros (x&(->&?&?)&?); eauto 6].
Qed.

Lemma seg_head m p cs q : seg m p cs q -> p = match cs with [] => q | c :: _ => c end.
Proof. destruct cs; simpl; [done|by intros [-> _]]. Qed.

Lemma seg_in m p cs q c : seg m p cs q -> c ∈ cs -> is_Some (m !! c).
Proof.
  revert p. induction cs as [|d cs IH]; intros p H Hc; [by apply elem_of_nil in Hc|].
  destruct H as (_&Hd&H). apply elem_of_cons in Hc as [->|Hc]; [done|by eapply IH].
Qed.

(** Only the sibling links of the segment matter. *)
Lemma seg_frame m m' p cs q : seg m p cs q ->
  (forall c, c ∈ cs -> is_Some (m' !! c) /\ r_sibling (R m' c) = r_sibling (R m c)) -> seg m' p cs q.
Proof.
  revert p. induction cs as [|c cs IH]; intros p H Hf; simpl in *; [done|].
  destruct H as (->&_&H). destruct (Hf c) as [? E]; [by left|].
  split; [done|]. split; [done|]. rewrite E. apply IH; [done|]. intros d Hd. apply Hf. by right.
Qed.

Lemma seg_unique m p cs cs' : seg m p cs NULL -> seg m p cs' NULL -> m !! NULL = None -> cs = cs'.
Proof.
  intros H H' H0. revert p cs' H H'. induction cs as [|c cs IH]; intros p cs' H H'.
  - destruct cs' as [|c' cs']; [done|]. simpl in *. destruct H' as (->&[? Hs]&_). subst. congruence.
  - destruct cs' as [|c' cs']; simpl in *; destruct H as (->&Hs&H).
    + subst. destruct Hs. congruence.
    + destruct H' as (->&_&H'). f_equal. by eapply IH.
Qed.

(** The children of [p], when nothing they or [p] depend on has changed. *)
Lemma children_frame m m' p cs : children m p cs ->
  is_Some (m' !! p) -> r_child (R m' p) = r_child (R m p) ->
  r_start (R m' p) = r_start (R m p) -> r_end (R m' p) = r_end (R m p) ->
  (forall c, c ∈ cs -> is_Some (m' !! c) /\ r_sibling (R m' c) = r_sibling (R m c) /\
     r_parent (R m' c) = r_parent (R m c) /\ r_start (R m' c) = r_start (R m c) /\ r_end (R m' c) = r_end (R m c)) ->
  children m' p cs.
Proof.
  intros (Hp&Hs&Hc&Ho) Hp' Ec Es Ee Hf. split; [done|]. split; [|split].
  - rewrite Ec. eapply seg_frame; [done|]. intros c Hin. destruct (Hf c Hin) as (?&?&_). done.
  - rewrite Forall_forall in *. intros c Hin. destruct (Hf c Hin) as (?&_&E1&E2&E3).
    destruct (Hc c Hin) as (_&?&?&?&?). unfold child_of. rewrite E1, E2, E3, Es, Ee. auto.
  - clear Hs Hc. induction Ho as [|a l Ho IH Ha]; constructor.
    + apply IH. intros c Hin. apply Hf. by right.
    + rewrite Forall_forall in *. intros b Hb. unfold precedes.
      destruct (Hf a) as (_&_&_&_&->); [by left|]. destruct (Hf b) as (_&_&_&->&_); [by right|]. by apply Ha.
Qed.

Lemma children_child m p cs c : children m p cs -> c ∈ cs -> child_of m p c.
Proof. intros (_&_&H&_) Hc. rewrite Forall_forall in H. by apply H. Qed.

Lemma children_NoDup m p cs : children m p cs -> NoDup cs.
Proof.
  intros (_&_&Hc&Ho). induction Ho as [|a l Ho IH Ha]; [constructor|].
  inversion_clear Hc as [|? ? Hca Hcl]. constructor; [|by apply IH].
  intros Hin. rewrite Forall_forall in Ha. specialize (Ha a Hin). unfold precedes in Ha.
  destruct Hca as (_&_&_&?&_). lia.
Qed.

Lemma children_unique m p cs cs' : m !! NULL = None -> children m p cs -> children m p cs' -> cs = cs'.
Proof. intros H0 (_&H&_) (_&H'&_). by eapply seg_unique. Qed.

(** The number of resources bounds any list of distinct ones. *)
Lemma NoDup_size (m : heap) (cs : list Z) : NoDup cs -> (forall c, c ∈ cs -> is_Some (m !! c)) ->
  (length cs <= size m)%nat.
Proof.
  intros Hn Hin. rewrite <- size_dom, <- (size_list_to_set (C := gset Z) cs) by done.
  apply subseteq_size. intros c Hc. apply elem_of_list_to_set in Hc. apply elem_of_dom. by apply Hin.
Qed.

Lemma children_length m p cs : children m p cs -> (length cs <= size m)%nat.
Proof.
  intros H. apply NoDup_size; [by eapply children_NoDup|]. intros c Hc. by destruct (children_child _ _ _ _ H Hc).
Qed.

Lemma detached_not_child m p cs x : m !! NULL = None -> detached m x -> children m p cs -> x ∉ cs.
Proof.
  intros H0 [_ Hx] H Hin. destruct (children_child _ _ _ _ H Hin) as (_&Hp&_).
  destruct H as [[r Hr] _]. rewrite Hx in Hp. subst p. congruence.
Qed.

(** ** Lemmas: linking *)

(** The link at the end of [pre], siblings hanging from [l]. *)
Fixpoint end_link (l : link) (pre : list Z) : link :=
  match pre with [] => l | c :: pre => end_link (LSibling c) pre end.

Definition owner (l : link) : Z := match l with LChild p => p | LSibling p => p end.

Lemma end_link_owner l pre : owner (end_link l pre) = owner l \/ owner (end_link l pre) ∈ pre.
Proof.
  revert l. induction pre as [|c pre IH]; intros l; simpl; [by left|].
  destruct (IH (LSibling c)) as [->|H]; right; [by left|by right].
Qed.

Lemma end_link_snoc l pre c : end_link l (pre ++ [c]) = LSibling c.
Proof. revert l. induction pre as [|d pre IH]; intros l; simpl; [done|apply IH]. Qed.

(** The heap after [new->sibling = nxt; *l = new; new->parent = root]. *)
Definition linked (m : heap) (l : link) (new nxt root : Z) : heap :=
  let m1 := <[new := with_sibling nxt (R m new)]> m in
  let m2 := match l with
            | LChild p => <[p := with_child new (R m1 p)]> m1
            | LSibling p => <[p := with_sibling new (R m1 p)]> m1
            end in
  <[new := with_parent root (R m2 new)]> m2.

(** What [linked] leaves in each resource. *)
Lemma linked_R m l new nxt root q : owner l <> new -> R (linked m l new nxt root) q =
  if q =? new then with_parent root (with_sibling nxt (R m new))
  else if q =? owner l then
    match l with LChild _ => with_child new (R m q) | LSibling _ => with_sibling new (R m q) end
  else R m q.
Proof.
  intros Ho. unfold linked. destruct (Z.eqb_spec q new) as [->|Hq].
  { rewrite R_insert_eq. destruct l; simpl in Ho; rewrite R_insert_ne, R_insert_eq by done; done. }
  rewrite R_insert_ne by done. destruct l as [p|p]; simpl in *;
    (destruct (Z.eqb_spec q p) as [->|]; [rewrite R_insert_eq|rewrite R_insert_ne by done]; by rewrite R_insert_ne by done).
Qed.

Lemma linked_dom m l new nxt root q : is_Some (m !! new) -> is_Some (m !! owner l) ->
  is_Some (linked m l new nxt root !! q) <-> is_Some (m !! q).
Proof.
  intros Hn Ho. unfold linked. destruct l as [p|p]; simpl in *;
    (destruct (Z.eq_dec q new) as [->|]; [rewrite lookup_insert_eq; naive_solver|rewrite lookup_insert_ne by done];
     destruct (Z.eq_dec q p) as [->|]; [rewrite lookup_insert_eq; naive_solver|rewrite lookup_insert_ne by done];
     by rewrite lookup_insert_ne by done).
Qed.

Lemma request_loop_spec fuel m root new start end_ l rest v : load m l = Some v -> seg m v rest NULL ->
  m !! NULL = None -> is_Some (m !! new) -> is_Some (m !! owner l) -> owner l <> new -> new ∉ rest ->
  (length rest < fuel)%nat ->
  (exists pre post, rest = pre ++ post /\ Forall (fun c => r_end (R m c) < start) pre /\
     (match post with [] => True | c :: _ => end_ < r_start (R m c) end) /\
     request_loop fuel m root new start end_ l =
       Some (linked m (end_link l pre) new (match post with [] => NULL | c :: _ => c end) root, NULL)) \/
  (exists pre c post, rest = pre ++ c :: post /\ Forall (fun c => r_end (R m c) < start) pre /\
     start <= r_end (R m c) /\ r_start (R m c) <= end_ /\
     request_loop fuel m root new start end_ l = Some (m, c)).
Proof.
  intros Hl Hs H0 Hn Ho Hne Hnr. revert l v rest Hl Hs Ho Hne Hnr.
  induction fuel as [|fuel IH]; intros l v rest Hl Hs Ho Hne Hnr Hf; [lia|].
  cbn [request_loop]. rewrite Hl, some_bind.
  assert (Hlink : forall nxt,
    (m ← upd (with_sibling nxt) new m; m ← store l new m; m ← upd (with_parent root) new m; Some (m, NULL))
      = Some (linked m l new nxt root, NULL)).
  { intros nxt. rewrite upd_Some, some_bind by done. unfold linked, store. destruct l as [p|p]; simpl in *;
      (rewrite upd_Some, some_bind by (by apply is_Some_insert);
       rewrite upd_Some, some_bind by (by apply is_Some_insert, is_Some_insert); done). }
  destruct rest as [|c rest].
  - simpl in Hs. subst v. destruct (Z.eqb_spec NULL NULL); [|done]. rewrite some_bind. left.
    exists [], []. split; [done|]. split; [constructor|]. split; [exact I|]. apply Hlink.
  - destruct Hs as (->&Hc&Hs). assert (Hc0 : c <> NULL) by (intros ->; destruct Hc; congruence).
    destruct (Z.eqb_spec c NULL); [done|]. rewrite (lookup_R _ _ Hc), !some_bind.
    destruct (Z.ltb_spec end_ (r_start (R m c))).
    { left. exists [], (c :: rest). split; [done|]. split; [constructor|]. split; [done|]. apply Hlink. }
    destruct (Z.ltb_spec (r_end (R m c)) start) as [Hlt|Hge].
    2:{ right. exists [], c, rest. repeat split; done. }
    apply not_elem_of_cons in Hnr as [Hnc Hnr].
    destruct (IH (LSibling c) (r_sibling (R m c)) rest) as [(pre&post&->&Hp&Hq&E)|(pre&d&post&->&Hp&?&?&E)].
    + simpl. by rewrite (lookup_R _ _ Hc).
    + done.
    + done.
    + simpl. congruence.
    + done.
    + simpl in Hf. lia.
    + left. exists (c :: pre), post. repeat split; try done. by constructor.
    + right. exists (c :: pre), d, post. repeat split; try done. by constructor.
Qed.

(** *** Linking keeps the invariant *)

Lemma sorted_app_inv {A} (P : A -> A -> Prop) l1 l2 : StronglySorted P (l1 ++ l2) ->
  StronglySorted P l1 /\ StronglySorted P l2 /\ forall a b, a ∈ l1 -> b ∈ l2 -> P a b.
Proof.
  induction l1 as [|x l1 IH]; simpl; intros H.
  { split; [constructor|]. split; [done|]. intros a b Ha. by apply elem_of_nil in Ha. }
  inversion_clear H as [|? ? H1 H2]. destruct (IH H1) as (?&?&Hab). rewrite Forall_forall in H2.
  split; [constructor; [done|]|split; [done|]].
  - apply Forall_forall. intros y Hy. apply H2, elem_of_app. by left.
  - intros a b Ha Hb. apply elem_of_cons in Ha as [->|Ha]; [|by apply Hab].
    apply H2, elem_of_app. by right.
Qed.

Lemma sorted_app {A} (P : A -> A -> Prop) l1 l2 : StronglySorted P l1 -> StronglySorted P l2 ->
  (forall a b, a ∈ l1 -> b ∈ l2 -> P a b) -> StronglySorted P (l1 ++ l2).
Proof.
  intros H1 H2 Hab. induction H1 as [|x l1 H1 IH Hx]; simpl; [done|]. constructor.
  - apply IH. intros a b Ha. apply Hab. by right.
  - rewrite Forall_forall in *. intros y Hy. apply elem_of_app in Hy as [Hy|Hy]; [by apply Hx|].
    apply Hab; [by left|done].
Qed.

Lemma sorted_map {A} (P Q : A -> A -> Prop) l : (forall a b, a ∈ l -> b ∈ l -> P a b -> Q a b) ->
  StronglySorted P l -> StronglySorted Q l.
Proof.
  intros H Hs. induction Hs as [|x l Hs IH Hx]; constructor.
  - apply IH. intros a b Ha Hb. apply H; by right.
  - rewrite Forall_forall in *. intros y Hy. apply H; [by left|by right|by apply Hx].
Qed.

(** The values of a resource that never change while it is linked. *)
Definition same_range (m m' : heap) (q : Z) : Prop :=
  r_start (R m' q) = r_start (R m q) /\ r_end (R m' q) = r_end (R m q) /\
  r_flags (R m' q) = r_flags (R m q) /\ r_name (R m' q) = r_name (R m q).

Lemma linked_same_range m l new nxt root q : owner l <> new -> same_range m (linked m l new nxt root) q.
Proof.
  intros Ho. unfold same_range. rewrite linked_R by done. destruct (Z.eqb_spec q new) as [->|]; [done|].
  destruct (q =? owner l); [|done]. by destruct l.
Qed.

(** The segment after linking [new] behind [pre]. *)
Lemma linked_seg m root new pre post : owner (end_link (LChild root) pre) <> new ->
  NoDup (pre ++ post) -> root ∉ pre ++ post -> new ∉ pre ++ post ->
  is_Some (m !! new) -> is_Some (m !! root) ->
  seg m (r_child (R m root)) (pre ++ post) NULL ->
  let m' := linked m (end_link (LChild root) pre) new (match post with [] => NULL | c :: _ => c end) root in
  seg m' (r_child (R m' root)) (pre ++ new :: post) NULL.
Proof.
  intros Ho Hnd Hroot Hnew Hn Hr Hs m'. set (nxt := match post with [] => NULL | c :: _ => c end) in *.
  apply seg_app in Hs as (x&Hpre&Hpost). assert (Hx : x = nxt) by (by apply seg_head in Hpost). subst x.
  assert (Hown : is_Some (m !! owner (end_link (LChild root) pre))).
  { destruct (end_link_owner (LChild root) pre) as [->|Hin]; [done|]. by eapply (seg_in _ _ _ _ _ Hpre). }
  assert (Hdom : forall q, is_Some (m !! q) -> is_Some (m' !! q)) by (intros q ?; by apply linked_dom).
  assert (Hpost' : seg m' nxt post NULL).
  { eapply seg_frame; [exact Hpost|]. intros c Hc. split; [apply Hdom; by eapply (seg_in m nxt post)|].
    unfold m'. rewrite linked_R by done. destruct (Z.eqb_spec c new) as [->|].
    { destruct Hnew. apply elem_of_app. by right. }
    destruct (Z.eqb_spec c (owner (end_link (LChild root) pre))) as [->|]; [|done]. exfalso.
    destruct (end_link_owner (LChild root) pre) as [E|Hin].
    - rewrite E in Hc. apply Hroot, elem_of_app. by right.
    - apply NoDup_app in Hnd as (_&Hd&_). by eapply Hd. }
  assert (Hnewseg : seg m' new (new :: post) NULL).
  { split; [done|]. split; [by apply Hdom|]. unfold m'. rewrite linked_R by done. by rewrite Z.eqb_refl. }
  destruct pre as [|c0 pre] using rev_ind; [|clear IHpre].
  - assert (E : r_child (R m' root) = new).
    { unfold m'. rewrite linked_R by done. simpl in *.
      destruct (Z.eqb_spec root new) as [->|]; [done|]. by rewrite Z.eqb_refl. }
    by rewrite E.
  - rewrite end_link_snoc in *. simpl in Ho. apply seg_app in Hpre as (y&Hpre0&Hlast).
    simpl in Hlast. destruct Hlast as (->&Hc0&Hnxt).
    assert (Hc0' : r_sibling (R m' c0) = new).
    { unfold m'. rewrite linked_R by (rewrite end_link_snoc; done). rewrite end_link_snoc. simpl.
      destruct (Z.eqb_spec c0 new); [done|]. by rewrite Z.eqb_refl. }
    rewrite <- app_assoc. apply seg_app. exists c0. split.
    + assert (E : r_child (R m' root) = r_child (R m root)).
      { unfold m'. rewrite linked_R by (rewrite end_link_snoc; done). rewrite end_link_snoc. simpl.
        destruct (Z.eqb_spec root new) as [->|]; [done|].
        destruct (Z.eqb_spec root c0) as [->|]; [|done]. destruct Hroot. rewrite !elem_of_app. left; right; by left. }
      rewrite E. eapply seg_frame; [exact Hpre0|]. intros c Hc. split; [apply Hdom; by eapply (seg_in _ _ _ _ _ Hpre0)|].
      unfold m'. rewrite linked_R by (rewrite end_link_snoc; done). rewrite end_link_snoc. simpl.
      destruct (Z.eqb_spec c new) as [->|].
      { destruct Hnew. rewrite !elem_of_app. by left; left. }
      destruct (Z.eqb_spec c c0) as [->|]; [|done]. exfalso.
      rewrite <- app_assoc in Hnd. apply NoDup_app in Hnd as (_&Hd&_). eapply Hd; [done|]. simpl. by left.
    + simpl. split; [done|]. split; [by apply Hdom|]. by rewrite Hc0'.
Qed.

Definition fits (m : heap) (root new : Z) (pre post : list Z) : Prop :=
  r_start (R m root) <= r_start (R m new) /\ r_start (R m new) <= r_end (R m new) /\
  r_end (R m new) <= r_end (R m root) /\
  Forall (fun c => r_end (R m c) < r_start (R m new)) pre /\
  match post with [] => True | c :: _ => r_end (R m new) < r_start (R m c) end.

Lemma fits_post m root new pre post : children m root (pre ++ post) -> fits m root new pre post ->
  forall c, c ∈ post -> r_end (R m new) < r_start (R m c).
Proof.
  intros (_&_&Hc&Hs) (_&_&_&_&Hp). apply sorted_app_inv in Hs as (_&Hs&_).
  destruct post as [|d post]; intros c Hin; [by apply elem_of_nil in Hin|].
  apply elem_of_cons in Hin as [->|Hin]; [done|]. inversion_clear Hs as [|? ? _ Hd].
  rewrite Forall_forall in Hd, Hc. specialize (Hd c Hin). unfold precedes in Hd.
  destruct (Hc d) as (_&_&_&?&_); [apply elem_of_app; right; by left|]. lia.
Qed.

(** The children of [root], and those of every other resource, after linking. *)
Lemma elem_of_mid {A} (c x : A) l1 l2 : c ∈ l1 ++ x :: l2 -> c = x \/ c ∈ l1 ++ l2.
Proof.
  intros [Hc|Hc]%elem_of_app; [right; apply elem_of_app; by left|].
  apply elem_of_cons in Hc as [->|Hc]; [by left|]. right. apply elem_of_app. by right.
Qed.

Lemma end_link_cases l pre : end_link l pre = l \/ exists c, c ∈ pre /\ end_link l pre = LSibling c.
Proof.
  destruct pre as [|c pre] using rev_ind; [by left|right]. exists c. rewrite end_link_snoc.
  split; [apply elem_of_app; right; by left|done].
Qed.

Lemma not_own_child m p cs : resource_inv m -> children m p cs -> p ∉ cs.
Proof. intros (_&_&rank&Hr) H Hin. specialize (Hr p cs p H Hin). lia. Qed.

Lemma linked_children m root new pre post : resource_inv m -> detached m new -> root <> new ->
  children m root (pre ++ post) -> fits m root new pre post ->
  let m' := linked m (end_link (LChild root) pre) new (match post with [] => NULL | c :: _ => c end) root in
  children m' root (pre ++ new :: post) /\ (forall p cs, p <> root -> children m p cs -> children m' p cs) /\
  (forall q, is_Some (m' !! q) <-> is_Some (m !! q)) /\ (forall q, same_range m m' q).
Proof.
  intros Hinv Hdet Hrn Hch Hfit m'. pose proof (proj1 Hinv) as H0.
  pose proof (detached_not_child m root _ new H0 Hdet Hch) as Hnew.
  pose proof (children_NoDup _ _ _ Hch) as Hnd. pose proof (not_own_child _ _ _ Hinv Hch) as Hroot.
  assert (Hin : forall c, c ∈ pre ++ post -> child_of m root c) by (intros c Hc; by eapply children_child).
  assert (Howner : owner (end_link (LChild root) pre) = root \/ owner (end_link (LChild root) pre) ∈ pre ++ post).
  { destruct (end_link_owner (LChild root) pre) as [?|?]; [by left|right]. apply elem_of_app. by left. }
  assert (Ho : owner (end_link (LChild root) pre) <> new).
  { destruct Howner as [->|Hc]; [done|]. intros E. by rewrite E in Hc. }
  assert (Hown : is_Some (m !! owner (end_link (LChild root) pre))).
  { destruct Howner as [->|Hc]; [apply Hch|]. by apply Hin. }
  assert (Hdom : forall q, is_Some (m' !! q) <-> is_Some (m !! q)) by (intros q; apply linked_dom; [apply Hdet|done]).
  assert (Hsame : forall q, same_range m m' q) by (intros q; by apply linked_same_range).
  pose proof (fits_post m root new pre post Hch Hfit) as Hgt.
  assert (Hpar : forall q, q <> new -> r_parent (R m' q) = r_parent (R m q)).
  { intros q Hq. unfold m'. rewrite linked_R by done. destruct (Z.eqb_spec q new); [done|].
    destruct (_ =? _); [|done]. by destruct (end_link _ _). }
  assert (Hparn : r_parent (R m' new) = root) by (unfold m'; rewrite linked_R by done; by rewrite Z.eqb_refl).
  split; [|split; [|done]].
  - split; [by apply Hdom, Hch|]. split; [apply linked_seg; try done; [apply Hdet|apply Hch|apply Hch]|]. split.
    + apply Forall_forall. intros c Hc.
      destruct (Hsame c) as (Es&Ee&_), (Hsame root) as (Esr&Eer&_).
      destruct (Z.eq_dec c new) as [->|Hcn].
      * destruct Hfit as (?&?&?&_). unfold child_of. rewrite Es, Ee, Esr, Eer, Hparn. split; [apply Hdom, Hdet|]. auto.
      * destruct (Hin c) as (?&?&?&?&?).
        { by destruct (elem_of_mid _ _ _ _ Hc). }
        unfold child_of. rewrite Es, Ee, Esr, Eer, Hpar by done. split; [by apply Hdom|]. auto.
    + assert (Hprec : forall a b, precedes m a b -> precedes m' a b).
      { intros a b. unfold precedes. destruct (Hsame a) as (_&->&_), (Hsame b) as (->&_). done. }
      apply (sorted_map (precedes m)); [auto|]. destruct Hch as (_&_&_&Hsort).
      apply sorted_app_inv in Hsort as (Hs1&Hs2&Hs12). pose proof Hfit as (_&_&_&Hp&_).
      rewrite Forall_forall in Hp.
      apply sorted_app; [done| |].
      * constructor; [done|]. apply Forall_forall. intros c Hc. unfold precedes. by apply Hgt.
      * intros a b Ha Hb. apply elem_of_cons in Hb as [->|Hb]; [by apply Hp|by apply Hs12].
  - intros p cs Hp Hcs. assert (Hnp : new ∉ cs) by (by eapply detached_not_child).
    assert (Hother : forall c, c ∈ cs -> owner (end_link (LChild root) pre) = c -> c = root).
    { intros c Hc E. destruct Howner as [E'|Hc']; [congruence|]. rewrite E in Hc'. exfalso. apply Hp.
      destruct (Hin c Hc') as (_&<-&_). by destruct (children_child _ _ _ _ Hcs Hc) as (_&<-&_). }
    destruct (Hsame p) as (Es&Ee&_). apply (children_frame m); try done.
    + by apply Hdom, Hcs.
    + unfold m'. rewrite linked_R by done. destruct (Z.eqb_spec p new) as [->|]; [done|].
      destruct (Z.eqb_spec p (owner (end_link (LChild root) pre))) as [Ep|]; [|done].
      destruct (end_link_cases (LChild root) pre) as [E|(d&_&E)]; rewrite E in *; done.
    + intros c Hc. destruct (children_child _ _ _ _ Hcs Hc) as (?&?&_), (Hsame c) as (Es'&Ee'&_).
      split; [by apply Hdom|]. rewrite Es', Ee', Hpar by (intros ->; done). split; [|done].
      unfold m'. rewrite linked_R by done. destruct (Z.eqb_spec c new) as [->|]; [done|].
      destruct (Z.eqb_spec c (owner (end_link (LChild root) pre))) as [Ec|]; [|done].
      pose proof (Hother c Hc (eq_sym Ec)) as Ecr.
      destruct (end_link_cases (LChild root) pre) as [E|(d&Hd&E)]; rewrite E in *; [done|].
      simpl in Ec. destruct Hroot. apply elem_of_app. left. congruence.
Qed.

(** The invariant after linking a resource without children. *)
Lemma linked_inv m root new pre post : resource_inv m -> detached m new -> r_child (R m new) = NULL -> root <> new ->
  children m root (pre ++ post) -> fits m root new pre post ->
  resource_inv (linked m (end_link (LChild root) pre) new (match post with [] => NULL | c :: _ => c end) root).
Proof.
  intros Hinv Hdet Hleaf Hrn Hch Hfit. pose proof Hinv as (H0&Hall&rank&Hrank).
  destruct (linked_children m root new pre post) as (Hroot&Hoth&Hdom&Hsame); try done.
  set (m' := linked _ _ _ _ _) in *.
  assert (H0' : m' !! NULL = None).
  { destruct (m' !! NULL) eqn:E; [|done]. assert (is_Some (m !! NULL)) as [? ?] by (apply Hdom; eauto). congruence. }
  split; [done|]. split.
  - intros p Hp. apply Hdom in Hp. destruct (Z.eq_dec p root) as [->|]; [eauto|].
    destruct (Hall p Hp) as [cs Hcs]. eauto.
  - exists (fun q => if q =? new then O else S (rank q)). intros p cs c Hcs Hc.
    destruct (Z.eq_dec p root) as [->|Hp].
    + rewrite (children_unique m' root cs _ H0' Hcs Hroot) in Hc.
      destruct (Z.eqb_spec root new); [done|]. destruct (Z.eqb_spec c new); [lia|].
      assert (rank c < rank root)%nat; [|lia]. eapply Hrank; [exact Hch|].
      by destruct (elem_of_mid _ _ _ _ Hc).
    + assert (Hpm : is_Some (m !! p)) by apply Hdom, Hcs. destruct (Hall p Hpm) as [cs0 Hcs0].
      rewrite (children_unique m' p cs cs0 H0' Hcs (Hoth p cs0 Hp Hcs0)) in Hc.
      destruct (Z.eqb_spec p new) as [->|].
      * destruct Hcs0 as (_&Hs&_). rewrite Hleaf in Hs. destruct cs0 as [|d cs0]; [by apply elem_of_nil in Hc|].
        destruct Hs as (<-&[? ?]&_). congruence.
      * destruct (Z.eqb_spec c new); [lia|]. assert (rank c < rank p)%nat; [|lia]. by eapply Hrank.
Qed.

(** The outcomes of [__request_resource]. *)
Lemma request_spec m root new cs : resource_inv m -> detached m new -> root <> new -> children m root cs ->
  (exists pre post, cs = pre ++ post /\ fits m root new pre post /\
     __request_resource m root new =
       Some (linked m (end_link (LChild root) pre) new (match post with [] => NULL | c :: _ => c end) root, NULL)) \/
  (__request_resource m root new = Some (m, root) /\
     (r_end (R m new) < r_start (R m new) \/ r_start (R m new) < r_start (R m root) \/ r_end (R m root) < r_end (R m new))) \/
  (exists pre c post, cs = pre ++ c :: post /\ __request_resource m root new = Some (m, c) /\
     Forall (fun d => r_end (R m d) < r_start (R m new)) pre /\
     r_start (R m new) <= r_end (R m new) /\ r_start (R m root) <= r_start (R m new) /\ r_end (R m new) <= r_end (R m root) /\
     r_start (R m new) <= r_end (R m c) /\ r_start (R m c) <= r_end (R m new)).
Proof.
  intros Hinv Hdet Hrn Hch. unfold __request_resource. pose proof Hch as (Hr&Hs&_).
  rewrite (lookup_R _ _ (proj1 Hdet)), (lookup_R _ _ Hr), !some_bind.
  destruct (Z.ltb_spec (r_end (R m new)) (r_start (R m new))); [right; left; auto|].
  destruct (Z.ltb_spec (r_start (R m new)) (r_start (R m root))); [right; left; auto|].
  destruct (Z.ltb_spec (r_end (R m root)) (r_end (R m new))); [right; left; auto|].
  destruct (request_loop_spec (fuel_of m) m root new (r_start (R m new)) (r_end (R m new)) (LChild root) cs (r_child (R m root)))
    as [(pre&post&->&Hp&Hq&E)|(pre&c&post&->&Hp&?&?&E)]; try done.
  - simpl. by rewrite (lookup_R _ _ Hr).
  - apply Hinv.
  - apply Hdet.
  - eapply detached_not_child; [apply Hinv|done|done].
  - apply children_length in Hch. unfold fuel_of. lia.
  - left. exists pre, post. split; [done|]. split; [|done]. by repeat split.
  - right; right. exists pre, c, post. repeat split; done.
Qed.

(** *** Unlinking *)

(** The heap after [*l = old->sibling; old->parent = NULL]. *)
Definition unlinked (m : heap) (l : link) (old : Z) : heap :=
  let nxt := r_sibling (R m old) in
  let m1 := match l with
            | LChild p => <[p := with_child nxt (R m p)]> m
            | LSibling p => <[p := with_sibling nxt (R m p)]> m
            end in
  <[old := with_parent NULL (R m1 old)]> m1.

Lemma unlinked_R m l old q : owner l <> old -> R (unlinked m l old) q =
  if q =? old then with_parent NULL (R m old)
  else if q =? owner l then
    match l with LChild _ => with_child (r_sibling (R m old)) (R m q)
               | LSibling _ => with_sibling (r_sibling (R m old)) (R m q) end
  else R m q.
Proof.
  intros Ho. unfold unlinked. destruct (Z.eqb_spec q old) as [->|Hq].
  { rewrite R_insert_eq. destruct l; simpl in Ho; by rewrite R_insert_ne. }
  rewrite R_insert_ne by done. destruct l as [p|p]; simpl in *;
    (destruct (Z.eqb_spec q p) as [->|]; [by rewrite R_insert_eq|by rewrite R_insert_ne by done]).
Qed.

Lemma unlinked_dom m l old q : is_Some (m !! old) -> is_Some (m !! owner l) ->
  is_Some (unlinked m l old !! q) <-> is_Some (m !! q).
Proof.
  intros Hn Ho. unfold unlinked. destruct l as [p|p]; simpl in *;
    (destruct (Z.eq_dec q old) as [->|]; [rewrite lookup_insert_eq; split; eauto|rewrite lookup_insert_ne by done];
     destruct (Z.eq_dec q p) as [->|]; [rewrite lookup_insert_eq; split; eauto|by rewrite lookup_insert_ne by done]).
Qed.

Lemma unlinked_same_range m l old q : owner l <> old -> same_range m (unlinked m l old) q.
Proof.
  intros Ho. unfold same_range. rewrite unlinked_R by done. destruct (Z.eqb_spec q old) as [->|]; [done|].
  destruct (q =? owner l); [|done]. by destruct l.
Qed.

Lemma release_loop_spec fuel m old l pre post v : load m l = Some v -> seg m v (pre ++ old :: post) NULL ->
  m !! NULL = None -> is_Some (m !! owner l) -> owner l <> old -> old ∉ pre -> (length pre < fuel)%nat ->
  release_loop fuel m old l = Some (unlinked m (end_link l pre) old, 0).
Proof.
  intros Hl Hs H0 Ho Hne Hp. revert l v pre Hl Hs Ho Hne Hp.
  induction fuel as [|fuel IH]; intros l v pre Hl Hs Ho Hne Hp Hf; [lia|]. cbn [release_loop].
  rewrite Hl, some_bind. destruct pre as [|c pre]; simpl in Hs; destruct Hs as (->&Hc&Hs).
  - destruct (Z.eqb_spec old NULL) as [->|]; [destruct Hc; congruence|]. rewrite Z.eqb_refl, (lookup_R _ _ Hc), some_bind.
    unfold unlinked, store. destruct l as [p|p]; simpl in *;
      (rewrite upd_Some, some_bind by done; rewrite upd_Some, some_bind by (by apply is_Some_insert); done).
  - apply not_elem_of_cons in Hp as [Hco Hp].
    destruct (Z.eqb_spec c NULL) as [->|]; [destruct Hc; congruence|]. destruct (Z.eqb_spec c old); [congruence|].
    simpl. apply (IH (LSibling c) (r_sibling (R m c)) pre); simpl; try done.
    + by rewrite (lookup_R _ _ Hc).
    + simpl in Hf. lia.
Qed.

Lemma unlinked_seg m root old pre post : owner (end_link (LChild root) pre) <> old ->
  NoDup (pre ++ old :: post) -> root ∉ pre ++ old :: post ->
  is_Some (m !! old) -> is_Some (m !! root) ->
  seg m (r_child (R m root)) (pre ++ old :: post) NULL ->
  let m' := unlinked m (end_link (LChild root) pre) old in
  seg m' (r_child (R m' root)) (pre ++ post) NULL.
Proof.
  intros Ho Hnd Hroot Hold Hr Hs m'.
  apply seg_app in Hs as (x&Hpre&->&_&Hpost).
  assert (Hown : is_Some (m !! owner (end_link (LChild root) pre))).
  { destruct (end_link_owner (LChild root) pre) as [->|Hin]; [done|]. by eapply (seg_in _ _ _ _ _ Hpre). }
  assert (Hdom : forall q, is_Some (m !! q) -> is_Some (m' !! q)) by (intros q ?; by apply unlinked_dom).
  pose proof Hnd as (Hnd1&Hnd2&Hnd3)%NoDup_app. apply NoDup_cons in Hnd3 as [Hnd3 _].
  assert (Hroot' : (root ∉ pre) /\ root <> old /\ (root ∉ post)).
  { rewrite elem_of_app, elem_of_cons in Hroot. tauto. }
  destruct Hroot' as (Hr1&Hr2&Hr3).
  assert (Hframe : forall p l q, (forall c, c ∈ l -> c <> old /\ c <> owner (end_link (LChild root) pre)) ->
    seg m p l q -> seg m' p l q).
  { intros p l q Hl Hs. eapply seg_frame; [exact Hs|]. intros c Hc. destruct (Hl c Hc) as [Hc1 Hc2].
    split; [apply Hdom; by eapply (seg_in _ _ _ _ _ Hs)|]. unfold m'. rewrite unlinked_R by done.
    destruct (Z.eqb_spec c old); [done|]. by destruct (Z.eqb_spec c (owner (end_link (LChild root) pre))). }
  assert (Hpost' : seg m' (r_sibling (R m old)) post NULL).
  { apply Hframe; [|done]. intros c Hc. split; [intros ->; done|]. intros ->.
    destruct (end_link_owner (LChild root) pre) as [E|Hin]; [rewrite E in Hc; done|].
    eapply Hnd2; [exact Hin|by right]. }
  destruct pre as [|c0 pre _] using rev_ind.
  - assert (E : r_child (R m' root) = r_sibling (R m old)).
    { unfold m'. rewrite unlinked_R by done. simpl in *. destruct (Z.eqb_spec root old); [done|]. by rewrite Z.eqb_refl. }
    by rewrite E.
  - rewrite end_link_snoc in *. simpl in Ho. apply seg_app in Hpre as (y&Hpre0&->&Hc0&Hnxt).
    apply NoDup_app in Hnd1 as (_&Hnd1&_).
    assert (Hc0' : r_sibling (R m' c0) = r_sibling (R m old)).
    { unfold m'. rewrite unlinked_R by (rewrite end_link_snoc; done). rewrite end_link_snoc. simpl.
      destruct (Z.eqb_spec c0 old); [done|]. by rewrite Z.eqb_refl. }
    assert (E : r_child (R m' root) = r_child (R m root)).
    { unfold m'. rewrite unlinked_R by (rewrite end_link_snoc; done). rewrite end_link_snoc. simpl.
      destruct (Z.eqb_spec root old) as [->|]; [done|].
      destruct (Z.eqb_spec root c0) as [->|]; [|done]. destruct Hr1. apply elem_of_app. right; by left. }
    rewrite <- app_assoc, E. apply seg_app. exists c0. split.
    + apply Hframe; [|done]. intros c Hc. split.
      * intros ->. eapply Hnd2; [apply elem_of_app; by left|by left].
      * simpl. intros ->. eapply Hnd1; [done|by left].
    + simpl. split; [done|]. split; [by apply Hdom|]. by rewrite Hc0'.
Qed.

Lemma sorted_remove {A} (P : A -> A -> Prop) l1 x l2 : StronglySorted P (l1 ++ x :: l2) -> StronglySorted P (l1 ++ l2).
Proof.
  intros H. apply sorted_app_inv in H as (H1&H2&H12). inversion_clear H2 as [|? ? H3 _].
  apply sorted_app; [done..|]. intros a b Ha Hb. apply H12; [done|by right].
Qed.

(** The whole effect of a release. *)
Lemma release_children m old root pre post : resource_inv m -> children m root (pre ++ old :: post) ->
  exists m', __release_resource m old = Some (m', 0) /\ children m' root (pre ++ post) /\
    (forall p cs, p <> root -> children m p cs -> children m' p cs) /\
    (forall q, is_Some (m' !! q) <-> is_Some (m !! q)) /\ (forall q, same_range m m' q) /\
    detached m' old /\ r_child (R m' old) = r_child (R m old) /\
    (forall q, q <> old -> r_parent (R m' q) = r_parent (R m q)).
Proof.
  intros Hinv Hch. pose proof (proj1 Hinv) as H0.
  pose proof (children_NoDup _ _ _ Hch) as Hnd. pose proof (not_own_child _ _ _ Hinv Hch) as Hroot.
  assert (Hin : forall c, c ∈ pre ++ old :: post -> child_of m root c) by (intros c Hc; by eapply children_child).
  assert (Hio : old ∈ pre ++ old :: post) by (apply elem_of_app; right; by left).
  assert (Hro : root <> old) by (intros ->; done).
  pose proof Hnd as (Hnd1&Hnd2&Hnd3)%NoDup_app.
  assert (Hop : old ∉ pre) by (intros Hc; eapply Hnd2; [done|by left]).
  assert (Howner : owner (end_link (LChild root) pre) = root \/ owner (end_link (LChild root) pre) ∈ pre)
    by apply end_link_owner.
  assert (Ho : owner (end_link (LChild root) pre) <> old).
  { destruct Howner as [->|Hc]; [done|]. intros E. by rewrite E in Hc. }
  destruct (Hin old Hio) as (Hold&Hpo&Hrange).
  assert (Hown : is_Some (m !! owner (end_link (LChild root) pre))).
  { destruct Howner as [->|Hc]; [apply Hch|]. apply Hin, elem_of_app. by left. }
  set (m' := unlinked m (end_link (LChild root) pre) old).
  assert (Hdom : forall q, is_Some (m' !! q) <-> is_Some (m !! q)) by (intros q; by apply unlinked_dom).
  assert (Hsame : forall q, same_range m m' q) by (intros q; by apply unlinked_same_range).
  assert (Hpar : forall q, q <> old -> r_parent (R m' q) = r_parent (R m q)).
  { intros q Hq. unfold m'. rewrite unlinked_R by done. destruct (Z.eqb_spec q old); [done|].
    destruct (_ =? _); [|done]. by destruct (end_link _ _). }
  assert (Holdm : R m' old = with_parent NULL (R m old)) by (unfold m'; rewrite unlinked_R by done; by rewrite Z.eqb_refl).
  exists m'. split.
  { unfold __release_resource. rewrite (lookup_R _ _ Hold), some_bind, Hpo.
    eapply release_loop_spec; try done.
    - simpl. by rewrite (lookup_R _ _ (proj1 Hch)).
    - apply Hch.
    - apply Hch.
    - apply children_length in Hch. rewrite length_app in Hch. simpl in Hch. unfold fuel_of. lia. }
  split; [|split; [|split; [done|split; [done|split; [|split; [by rewrite Holdm|done]]]]]].
  - split; [by apply Hdom, Hch|]. split; [apply unlinked_seg; try done; apply Hch|]. split.
    + apply Forall_forall. intros c Hc. destruct (Hsame c) as (Es&Ee&_), (Hsame root) as (Esr&Eer&_).
      assert (Hc' : c ∈ pre ++ old :: post) by (rewrite elem_of_app, elem_of_cons in *; tauto).
      assert (c <> old).
      { intros ->. apply elem_of_app in Hc as [?|Hc]; [done|]. by apply NoDup_cons in Hnd3 as [? _]. }
      destruct (Hin c Hc') as (?&?&?&?&?). unfold child_of. rewrite Es, Ee, Esr, Eer, Hpar by done.
      split; [by apply Hdom|]. auto.
    + destruct Hch as (_&_&_&Hs). apply sorted_remove in Hs. eapply sorted_map; [|done].
      intros a b _ _. unfold precedes. destruct (Hsame a) as (_&->&_), (Hsame b) as (->&_). done.
  - intros p cs Hp Hcs. destruct (Hsame p) as (Es&Ee&_).
    assert (Hother : forall c, c ∈ cs -> c ∉ pre ++ old :: post).
    { intros c Hc Hc'. apply Hp. destruct (Hin c Hc') as (_&<-&_). by destruct (children_child _ _ _ _ Hcs Hc) as (_&<-&_). }
    apply (children_frame m); try done.
    + by apply Hdom, Hcs.
    + destruct (Z.eq_dec p old) as [->|Hpo']; [by rewrite Holdm|].
      unfold m'. rewrite unlinked_R by done. destruct (Z.eqb_spec p old); [done|].
      destruct (Z.eqb_spec p (owner (end_link (LChild root) pre))) as [Ep|]; [|done].
      destruct (end_link_cases (LChild root) pre) as [E|(d&_&E)]; rewrite E in *; done.
    + intros c Hc. destruct (children_child _ _ _ _ Hcs Hc) as (?&?&_), (Hsame c) as (Es'&Ee'&_).
      assert (c <> old) by (intros ->; by eapply Hother).
      split; [by apply Hdom|]. rewrite Es', Ee', Hpar by done. split; [|done].
      unfold m'. rewrite unlinked_R by done. destruct (Z.eqb_spec c old) as [->|]; [done|].
      destruct (Z.eqb_spec c (owner (end_link (LChild root) pre))) as [Ec|]; [|done].
      destruct (end_link_cases (LChild root) pre) as [E|(d&Hd&E)]; rewrite E in *; [done|].
      simpl in Ec. subst d. exfalso. apply (Hother c Hc), elem_of_app. by left.
  - split; [by apply Hdom|]. by rewrite Holdm.
Qed.

(** Fewer children: the ranks of before still do. *)
Lemma release_inv m m' old root pre post : resource_inv m -> children m root (pre ++ old :: post) ->
  children m' root (pre ++ post) -> (forall p cs, p <> root -> children m p cs -> children m' p cs) ->
  (forall q, is_Some (m' !! q) <-> is_Some (m !! q)) -> resource_inv m'.
Proof.
  intros (H0&Hall&rank&Hrank) Hch Hroot Hoth Hdom.
  assert (H0' : m' !! NULL = None).
  { destruct (m' !! NULL) eqn:E; [|done]. assert (is_Some (m !! NULL)) as [? ?] by (apply Hdom; eauto). congruence. }
  split; [done|]. split.
  - intros p Hp. destruct (Z.eq_dec p root) as [->|Hn]; [by eexists|].
    destruct (Hall p) as [cs Hcs]; [by apply Hdom|]. eauto.
  - exists rank. intros p cs c Hcs Hc. destruct (Z.eq_dec p root) as [->|Hn].
    + rewrite (children_unique m' root cs _ H0' Hcs Hroot) in Hc. eapply Hrank; [exact Hch|].
      rewrite elem_of_app, elem_of_cons in *. tauto.
    + destruct (Hall p) as [cs0 Hcs0]; [apply Hdom, Hcs|].
      rewrite (children_unique m' p cs cs0 H0' Hcs (Hoth p cs0 Hn Hcs0)) in Hc. by eapply Hrank.
Qed.

(** *** Changing a range *)

(** The heap after [p->start = s; p->end = e]. *)
Definition moved (m : heap) (p s e : Z) : heap := <[p := with_end e (with_start s (R m p))]> m.

Lemma moved_R m p s e q : R (moved m p s e) q = if q =? p then with_end e (with_start s (R m p)) else R m q.
Proof.
  unfold moved. destruct (Z.eqb_spec q p) as [->|]; [apply R_insert_eq|by apply R_insert_ne].
Qed.

Lemma moved_dom m p s e q : is_Some (m !! p) -> is_Some (moved m p s e !! q) <-> is_Some (m !! q).
Proof.
  intros Hp. unfold moved. destruct (Z.eq_dec q p) as [->|]; [rewrite lookup_insert_eq; split; eauto|by rewrite lookup_insert_ne].
Qed.

Lemma moved_moved m p s e s' e' : moved (moved m p s e) p s' e' = moved m p s' e'.
Proof.
  unfold moved. rewrite R_insert_eq, insert_insert_eq. by destruct (R m p).
Qed.

(** A resource without children that is not in a tree can have any range. *)
Lemma moved_children m p s e q cs : m !! NULL = None -> detached m p -> q <> p -> children m q cs ->
  children (moved m p s e) q cs.
Proof.
  intros H0 Hdet Hq Hcs. pose proof (detached_not_child m q cs p H0 Hdet Hcs) as Hp.
  assert (E : forall c, c <> p -> R (moved m p s e) c = R m c).
  { intros c Hc. rewrite moved_R. by destruct (Z.eqb_spec c p). }
  apply (children_frame m); try (by rewrite ?E); try done.
  - apply moved_dom; [apply Hdet|apply Hcs].
  - intros c Hc. rewrite E by (intros ->; done). split; [|done].
    apply moved_dom; [apply Hdet|]. by destruct (children_child _ _ _ _ Hcs Hc).
Qed.

Lemma leaf_children m p cs : m !! NULL = None -> r_child (R m p) = NULL -> children m p cs -> cs = [].
Proof.
  intros H0 Hl (_&Hs&_). rewrite Hl in Hs. destruct cs as [|c cs]; [done|].
  destruct Hs as (<-&[? ?]&_). congruence.
Qed.

Lemma moved_inv m p s e : resource_inv m -> detached m p -> r_child (R m p) = NULL -> resource_inv (moved m p s e).
Proof.
  intros Hinv Hdet Hleaf. pose proof Hinv as (H0&Hall&rank&Hrank).
  assert (Hdom : forall q, is_Some (moved m p s e !! q) <-> is_Some (m !! q)) by (intros q; apply moved_dom, Hdet).
  assert (H0' : moved m p s e !! NULL = None).
  { destruct (moved m p s e !! NULL) eqn:E; [|done]. assert (is_Some (m !! NULL)) as [? ?] by (apply Hdom; eauto). congruence. }
  assert (Hp : children (moved m p s e) p []).
  { split; [apply Hdom, Hdet|]. rewrite moved_R, Z.eqb_refl. split; [done|]. split; constructor. }
  split; [done|]. split.
  - intros q Hq. destruct (Z.eq_dec q p) as [->|]; [by eexists|].
    destruct (Hall q) as [cs Hcs]; [by apply Hdom|]. exists cs. by apply moved_children.
  - exists rank. intros q cs c Hcs Hc. destruct (Z.eq_dec q p) as [->|].
    + rewrite (children_unique _ _ _ _ H0' Hcs Hp) in Hc. by apply elem_of_nil in Hc.
    + destruct (Hall q) as [cs0 Hcs0]; [apply Hdom, Hcs|].
      rewrite (children_unique _ q cs cs0 H0' Hcs) in Hc by (by apply moved_children). by eapply Hrank.
Qed.

(** ** Allocation: lemmas *)

Lemma ALIGN_spec x k : 0 <= x -> 0 <= k < 32 -> x + 2 ^ k <= 2 ^ 32 ->
  x <= ALIGN x (2 ^ k) < x + 2 ^ k /\ ALIGN x (2 ^ k) mod 2 ^ k = 0.
Proof.
  intros Hx Hk Hs. assert (H2 : 0 < 2 ^ k) by (apply Z.pow_pos_nonneg; lia).
  assert (E : ALIGN x (2 ^ k) = 2 ^ k * ((x + (2 ^ k - 1)) / 2 ^ k)).
  { unfold ALIGN. rewrite (u32_small (x + _)) by (unfold is_u32; lia).
    assert (2 ^ k <= 2 ^ 31) by (apply Z.pow_le_mono_r; lia).
    replace (2 ^ k - 1) with (Z.ones k) by (rewrite Z.ones_equiv; lia).
    assert (E : 2 ^ k * ((x + Z.ones k) / 2 ^ k) = Z.shiftl (Z.shiftr (x + Z.ones k) k) k).
    { rewrite (Z.shiftl_mul_pow2 (Z.shiftr _ k)), Z.shiftr_div_pow2 by lia. lia. }
    assert (Hr : is_u32 (x + Z.ones k)) by (rewrite Z.ones_equiv; unfold is_u32; lia).
    rewrite E. apply Z.bits_inj'. intros i Hi. rewrite Z.land_spec, not32_testbit, ones_testbit by lia.
    rewrite shiftl_testbit, shiftr_testbit. replace (i - k + k) with i by lia.
    destruct (Z.leb_spec 0 i); [|lia]. cbn [andb].
    destruct (Z.ltb_spec i 32).
    - cbn [andb]. destruct (Z.ltb_spec i k), (Z.leb_spec 0 (i - k)); try lia; cbn [andb negb];
        rewrite ?andb_true_r, ?andb_false_r; done.
    - cbn [andb]. rewrite andb_false_r. rewrite (testbit_high _ 32) by (done || lia). by rewrite andb_false_r. }
  rewrite E. pose proof (Z.div_mod (x + (2 ^ k - 1)) (2 ^ k) ltac:(lia)).
  pose proof (Z.mod_pos_bound (x + (2 ^ k - 1)) (2 ^ k) H2). split; [lia|].
  rewrite Z.mul_comm. apply Z_mod_mult.
Qed.

Lemma upd_start m p s e v : is_Some (m !! p) -> upd (with_start v) p (moved m p s e) = Some (moved m p v e).
Proof.
  intros Hp. rewrite upd_Some by (by apply moved_dom). rewrite moved_R, Z.eqb_refl. f_equal.
  unfold moved. rewrite insert_insert_eq. done.
Qed.

Lemma upd_end m p s e v : is_Some (m !! p) -> upd (with_end v) p (moved m p s e) = Some (moved m p s v).
Proof.
  intros Hp. rewrite upd_Some by (by apply moved_dom). rewrite moved_R, Z.eqb_refl. f_equal.
  unfold moved. rewrite insert_insert_eq. done.
Qed.

Lemma moved_lookup m p s e : is_Some (m !! p) -> moved m p s e !! p = Some (with_end e (with_start s (R m p))).
Proof. intros Hp. unfold moved. by rewrite lookup_insert_eq. Qed.

Lemma moved_other m p s e q : q <> p -> is_Some (m !! q) -> moved m p s e !! q = Some (R m q).
Proof. intros Hq Hm. unfold moved. rewrite lookup_insert_ne by done. by apply lookup_R. Qed.

(** What a successful search has found: the start, before any hook, is aligned. *)
Definition found (min max size k s e : Z) : Prop :=
  min <= s /\ s <= e /\ e <= max /\ e = s + size - 1 /\ s mod 2 ^ k = 0.

(** The search only moves the new resource. *)
Lemma find_loop_spec fuel m root new size min max k this rest s e lim :
  resource_inv m -> detached m new -> root <> new -> seg m this rest NULL -> new ∉ rest ->
  (forall c, c ∈ rest -> 0 < r_start (R m c) <= r_end (R m c) /\ r_end (R m c) <= lim) ->
  is_Some (m !! root) -> r_end (R m root) <= lim ->
  0 <= k < 32 -> lim + 1 + 2 ^ k <= 2 ^ 32 -> 0 <= min <= lim -> 0 <= max < 2 ^ 32 -> 1 <= size < 2 ^ 32 ->
  0 <= s <= lim + 1 -> (length rest < fuel)%nat ->
  exists s' e' r, find_loop fuel (moved m new s e) root new size min max (2 ^ k) None this = Some (moved m new s' e', r) /\
    (r = - EBUSY \/ r = 0 /\ found min max size k s' e').
Proof.
  intros Hinv Hdet Hrn Hs Hnr Hc Hroot Hrl Hk Hlim Hmin Hmax Hsize. pose proof (proj1 Hinv) as H0.
  pose proof (proj1 Hdet) as Hnew. revert this rest s e Hs Hnr Hc.
  induction fuel as [|fuel IH]; intros this rest s e Hs Hnr Hc Hsb Hf; [lia|]. cbn [find_loop].
  assert (Hend : exists e1, e1 <= lim /\ (if negb (this =? NULL)
      then t ← moved m new s e !! this; upd (with_end (u32 (r_start t - 1))) new (moved m new s e)
      else rr ← moved m new s e !! root; upd (with_end (r_end rr)) new (moved m new s e)) = Some (moved m new s e1)).
  { destruct rest as [|c rest]; simpl in Hs.
    - subst this. simpl. exists (r_end (R m root)). rewrite moved_other, some_bind, upd_end by done. done.
    - destruct Hs as (->&Hcs&_). destruct (Z.eqb_spec c NULL) as [->|]; [destruct Hcs; congruence|]. cbn [negb].
      destruct (Hc c) as [? ?]; [by left|].
      exists (r_start (R m c) - 1). rewrite moved_other by (done || (intros ->; apply Hnr; by left)).
      rewrite some_bind, upd_end by done. rewrite u32_small by (unfold is_u32; lia). split; [lia|done]. }
  destruct Hend as (e1&He1&->). rewrite some_bind, moved_lookup, some_bind by done. cbn [with_end with_start r_start r_end].
  assert (Hmn : (if s <? min then upd (with_start min) new (moved m new s e1) else Some (moved m new s e1)) =
    Some (moved m new (Z.max s min) e1)).
  { destruct (Z.ltb_spec s min); [rewrite upd_start by done|]; do 2 f_equal; lia. }
  rewrite Hmn, some_bind, moved_lookup, some_bind by done. cbn [with_end with_start r_start r_end]. clear Hmn.
  assert (Hmx : (if max <? e1 then upd (with_end max) new (moved m new (Z.max s min) e1)
    else Some (moved m new (Z.max s min) e1)) = Some (moved m new (Z.max s min) (Z.min e1 max))).
  { destruct (Z.ltb_spec max e1); [rewrite upd_end by done|]; do 2 f_equal; lia. }
  rewrite Hmx, some_bind, moved_lookup, some_bind by done. cbn [with_end with_start r_start r_end]. clear Hmx.
  rewrite upd_start, !some_bind, moved_lookup, some_bind by done. cbn [with_end with_start r_start r_end].
  destruct (ALIGN_spec (Z.max s min) k) as [Ha1 Ha2]; [lia..|].
  set (a := ALIGN (Z.max s min) (2 ^ k)) in *. set (e2 := Z.min e1 max).
  destruct (Z.ltb_spec a e2); cbn [andb].
  - rewrite !u32_small by (unfold is_u32; lia). destruct (Z.leb_spec (size - 1) (e2 - a)).
    + rewrite upd_end, some_bind by done. rewrite u32_small by (unfold is_u32; lia).
      eexists _, _, _. split; [done|]. right. split; [done|]. unfold found. lia.
    + destruct rest as [|c rest]; simpl in Hs.
      { subst this. rewrite Z.eqb_refl. eexists _, _, _. split; [done|]. by left. }
      destruct Hs as (->&Hcs&Hs). destruct (Z.eqb_spec c NULL) as [->|]; [destruct Hcs; congruence|].
      apply not_elem_of_cons in Hnr as [Hcn Hnr]. destruct (Hc c) as [? ?]; [by left|].
      rewrite moved_other, some_bind by done.
      rewrite upd_start, some_bind by done. rewrite u32_small by (unfold is_u32; lia).
      apply (IH _ rest); try done; try lia; [intros d Hd; apply Hc; by right|simpl in Hf; lia].
  - destruct rest as [|c rest]; simpl in Hs.
    { subst this. rewrite Z.eqb_refl. eexists _, _, _. split; [done|]. by left. }
    destruct Hs as (->&Hcs&Hs). destruct (Z.eqb_spec c NULL) as [->|]; [destruct Hcs; congruence|].
    apply not_elem_of_cons in Hnr as [Hcn Hnr]. destruct (Hc c) as [? ?]; [by left|].
    rewrite moved_other, some_bind by done.
    rewrite upd_start, some_bind by done. rewrite u32_small by (unfold is_u32; lia).
    apply (IH _ rest); try done; try lia; [intros d Hd; apply Hc; by right|simpl in Hf; lia].
Qed.

Lemma request_resource_outcome m root new cs : resource_inv m -> detached m new -> root <> new -> children m root cs ->
  (exists pre post, cs = pre ++ post /\ fits m root new pre post /\
     __request_resource m root new =
       Some (linked m (end_link (LChild root) pre) new (match post with [] => NULL | c :: _ => c end) root, NULL)) \/
  ~ (r_start (R m root) <= r_start (R m new) /\ r_start (R m new) <= r_end (R m new) /\ r_end (R m new) <= r_end (R m root) /\
     forall c, c ∈ cs -> r_end (R m c) < r_start (R m new) \/ r_end (R m new) < r_start (R m c)).
Proof.
  intros Hinv Hdet Hrn Hch.
  destruct (request_spec m root new cs) as [?|[[_ Hbad]|(pre&c&post&->&_&Hpre&Hr)]]; [done..|by left|right|right].
  - intros (?&?&?&_). lia.
  - intros (_&_&_&Hf). destruct (Hf c); [apply elem_of_app; right; by left|lia|lia].
Qed.

(** The place of a range among sorted ones is unique. *)
Lemma same_place m m' root old pre post pre' post' : resource_inv m -> children m root (pre ++ old :: post) ->
  (forall q, same_range m m' q) -> pre ++ post = pre' ++ post' -> fits m' root old pre' post' ->
  children m' root (pre' ++ post') -> pre' = pre /\ post' = post.
Proof.
  intros Hinv Hch Hsame E Hfit Hch'. pose proof (fits_post _ _ _ _ _ Hch' Hfit) as Hpost'.
  destruct Hfit as (_&Hold&_&Hpre'&_). rewrite Forall_forall in Hpre'.
  destruct Hch as (_&_&_&Hs). apply sorted_app_inv in Hs as (_&Hs2&Hs). inversion_clear Hs2 as [|? ? _ Hs3].
  rewrite Forall_forall in Hs3.
  assert (Hpre : forall c, c ∈ pre -> r_end (R m' c) < r_start (R m' old)).
  { intros c Hc. destruct (Hsame c) as (_&->&_), (Hsame old) as (->&_). apply Hs; [done|by left]. }
  assert (Hpost : forall c, c ∈ post -> r_end (R m' old) < r_start (R m' c)).
  { intros c Hc. destruct (Hsame c) as (->&_), (Hsame old) as (_&->&_). by apply Hs3. }
  assert (Hne : forall c, c ∈ pre' ++ post' -> r_start (R m' c) <= r_end (R m' c)).
  { intros c Hc. by destruct (children_child _ _ _ _ Hch' Hc) as (_&_&_&?&_). }
  clear Hs Hs3 Hch' Hsame Hinv. revert pre' E Hpre' Hne. induction pre as [|c pre IH]; intros pre' E Hpre' Hne; simpl in E.
  - destruct pre' as [|d pre']; [done|]. exfalso. subst post.
    assert (r_end (R m' d) < r_start (R m' old)) by (apply Hpre'; by left).
    assert (r_end (R m' old) < r_start (R m' d)) by (apply Hpost; by left).
    assert (r_start (R m' d) <= r_end (R m' d)) by (apply Hne; by left). lia.
  - destruct pre' as [|d pre']; simpl in E.
    + exfalso. subst post'. assert (r_end (R m' c) < r_start (R m' old)) by (apply Hpre; by left).
      assert (r_end (R m' old) < r_start (R m' c)) by (apply Hpost'; by left).
      assert (r_start (R m' c) <= r_end (R m' c)) by (apply Hne; by left). lia.
    + injection E as <- E. destruct (IH (fun x Hx => Hpre x ltac:(by right)) pre' E) as [-> ->]; [| |done].
      * intros x Hx. apply Hpre'. by right.
      * intros x Hx. apply Hne. by right.
Qed.

(** ** Properties *)

(** The range of [new] lies in [root] and meets none of [cs]. *)
Definition free_range (m : heap) (root new : Z) (cs : list Z) : Prop :=
  r_start (R m root) <= r_start (R m new) /\ r_start (R m new) <= r_end (R m new) /\ r_end (R m new) <= r_end (R m root) /\
  forall c, c ∈ cs -> r_end (R m c) < r_start (R m new) \/ r_end (R m new) < r_start (R m c).

Lemma fits_free m root new pre post : children m root (pre ++ post) -> fits m root new pre post ->
  free_range m root new (pre ++ post).
Proof.
  intros Hch Hfit. pose proof (fits_post _ _ _ _ _ Hch Hfit) as Hpost. destruct Hfit as (?&?&?&Hpre&_).
  rewrite Forall_forall in Hpre. do 3 (split; [done|]). intros c [Hc|Hc]%elem_of_app; [left; by apply Hpre|right; by apply Hpost].
Qed.

Lemma request_resource_cases m root new cs : resource_inv m -> detached m new -> r_child (R m new) = NULL ->
  root <> new -> children m root cs ->
  exists m' r, request_resource m root new = Some (m', r) /\ resource_inv m' /\
    ((r = 0 /\ free_range m root new cs /\ (exists pre post, cs = pre ++ post /\ children m' root (pre ++ new :: post)) /\
      (forall p ds, p <> root -> children m p ds -> children m' p ds) /\ forall q, same_range m m' q) \/
     (r = - EBUSY /\ ~ free_range m root new cs /\ m' = m)).
Proof.
  intros Hinv Hdet Hleaf Hrn Hch. unfold request_resource.
  destruct (request_spec m root new cs) as [(pre&post&->&Hfit&->)|[[-> Hbad]|(pre&c&post&->&->&Hpre&Hr)]];
    try done; rewrite some_bind.
  - eexists _, _. split; [done|]. split; [by apply linked_inv|]. left. split; [done|].
    split; [by apply fits_free|]. destruct (linked_children m root new pre post) as (H1&H2&_&H3); try done.
    split; [by exists pre, post|]. split; [done|]. apply H3.
  - destruct (Z.eqb_spec root NULL) as [->|]; [destruct Hch as [[? ?] _]; destruct Hinv; congruence|].
    eexists _, _. split; [done|]. split; [done|]. right. split; [done|]. split; [|done]. intros (?&?&?&_). lia.
  - assert (Hc : child_of m root c) by (eapply children_child; [done|]; apply elem_of_app; right; by left).
    destruct (Z.eqb_spec c NULL) as [->|]; [destruct Hc as [[? ?] _]; destruct Hinv; congruence|].
    eexists _, _. split; [done|]. split; [done|]. right. split; [done|]. split; [|done]. intros (_&_&_&Hf).
    destruct (Hf c); [apply elem_of_app; right; by left|lia|lia].
Qed.

(** C22. [request_resource] of a resource without children succeeds exactly when
    its range lies in the parent's and meets no child of the parent: then it
    takes its place in the order of the children, no other resource's range or
    children change and the tree stays well formed; otherwise -EBUSY is
    returned and nothing changes. *)
Theorem request_resource_correct m root new cs : resource_inv m -> detached m new -> r_child (R m new) = NULL ->
  root <> new -> children m root cs ->
  exists m' r, request_resource m root new = Some (m', r) /\ resource_inv m' /\
    ((r = 0 /\ free_range m root new cs /\ (exists pre post, cs = pre ++ post /\ children m' root (pre ++ new :: post)) /\
      (forall p ds, p <> root -> children m p ds -> children m' p ds) /\ forall q, same_range m m' q) \/
     (r = - EBUSY /\ ~ free_range m root new cs /\ m' = m)).
Proof. apply request_resource_cases. Qed.

(** A root, two children and a detached resource. *)
Definition sample : heap :=
  <[1 := mk_resource 0 0xffff 0 0 0 0 2]> (<[2 := mk_resource 0x10 0x1f 0 0 1 3 0]>
    (<[3 := mk_resource 0x40 0x4f 0 0 1 0 0]> (<[4 := mk_resource 0x20 0x3f 0 0 0 0 0]> ∅))).

Lemma sample_cases p : is_Some (sample !! p) -> p = 1 \/ p = 2 \/ p = 3 \/ p = 4.
Proof.
  unfold sample. destruct (Z.eq_dec p 1), (Z.eq_dec p 2), (Z.eq_dec p 3), (Z.eq_dec p 4); auto.
  rewrite !lookup_insert_ne, lookup_empty by done. by intros [? ?].
Qed.

Lemma sample_children : children sample 1 [2; 3] /\ children sample 2 [] /\ children sample 3 [] /\ children sample 4 [].
Proof.
  split; [|split; [|split]]; (split; [by eexists|]; split; [|split; [|]]);
    repeat first [constructor | by eexists | done].
Qed.

Lemma sample_inv : resource_inv sample.
Proof.
  destruct sample_children as (H1&H2&H3&H4). split; [done|]. split.
  - intros p [->|[->|[->| ->]]]%sample_cases; eauto.
  - exists (fun p => if p =? 1 then 1%nat else 0%nat). intros p cs c Hcs Hc.
    assert (H0 : sample !! NULL = None) by done.
    destruct (sample_cases p) as [->|[->|[->| ->]]]; [apply Hcs|..].
    + rewrite (children_unique _ _ _ _ H0 Hcs H1) in Hc. apply elem_of_cons in Hc as [->|Hc]; [simpl; lia|].
      apply list_elem_of_singleton in Hc as ->. simpl. lia.
    + rewrite (children_unique _ _ _ _ H0 Hcs H2) in Hc. by apply elem_of_nil in Hc.
    + rewrite (children_unique _ _ _ _ H0 Hcs H3) in Hc. by apply elem_of_nil in Hc.
    + rewrite (children_unique _ _ _ _ H0 Hcs H4) in Hc. by apply elem_of_nil in Hc.
Qed.

Lemma request_resource_correct_witness : exists m' r, request_resource sample 1 4 = Some (m', r) /\ resource_inv m' /\
    ((r = 0 /\ free_range sample 1 4 [2; 3] /\
      (exists pre post, [2; 3] = pre ++ post /\ children m' 1 (pre ++ 4 :: post)) /\
      (forall p ds, p <> 1 -> children sample p ds -> children m' p ds) /\ forall q, same_range sample m' q) \/
     (r = - EBUSY /\ ~ free_range sample 1 4 [2; 3] /\ m' = sample)).
Proof.
  apply request_resource_correct; [apply sample_inv|split; [by eexists|done]|done|done|apply sample_children].
Defined.

(** [release_resource] takes a child out of its parent's list, keeps the order
    of the others, every range and every other list of children, and leaves the
    tree well formed; a released resource without children can be requested
    again and returns to its place. *)
Theorem release_resource_correct m root old pre post : resource_inv m -> children m root (pre ++ old :: post) ->
  exists m', release_resource m old = Some (m', 0) /\ resource_inv m' /\ detached m' old /\
    children m' root (pre ++ post) /\ (forall p ds, p <> root -> children m p ds -> children m' p ds) /\
    (forall q, same_range m m' q) /\
    (r_child (R m old) = NULL -> exists m'', request_resource m' root old = Some (m'', 0) /\
       children m'' root (pre ++ old :: post)).
Proof.
  intros Hinv Hch. destruct (release_children m old root pre post) as (m'&E&H1&H2&H3&H4&H5&H6&_); try done.
  assert (Hinv' : resource_inv m') by (by eapply release_inv).
  exists m'. do 6 (split; [done|]). intros Hleaf.
  assert (Hro : root <> old).
  { intros ->. eapply not_own_child; [exact Hinv|exact Hch|]. apply elem_of_app. right; by left. }
  destruct (request_resource_outcome m' root old (pre ++ post)) as [(pre'&post'&E'&Hfit&Er)|Hno]; [done..| |].
  - unfold request_resource. rewrite Er, some_bind. eexists. split; [done|].
    destruct (linked_children m' root old pre' post') as (Hc&_&_&Hs); try done; [by rewrite <- E'|].
    enough (pre' = pre /\ post' = post) as [-> ->] by done.
    eapply same_place; [exact Hinv|exact Hch|exact H4|done|exact Hfit|]. by rewrite <- E'.
  - exfalso. apply Hno. pose proof Hch as (_&_&Hf&Hs). rewrite Forall_forall in Hf.
    destruct (Hf old) as (_&_&?&?&?); [apply elem_of_app; right; by left|].
    destruct (H4 root) as (-> & -> &_), (H4 old) as (-> & -> &_).
    do 3 (split; [done|]). intros c Hc. destruct (H4 c) as (-> & -> &_).
    apply sorted_app_inv in Hs as (_&Hs2&Hs). inversion_clear Hs2 as [|? ? _ Hs3]. rewrite Forall_forall in Hs3.
    apply elem_of_app in Hc as [Hc|Hc]; [left; apply Hs; [done|by left]|right; by apply Hs3].
Qed.

Lemma release_resource_correct_witness : exists m', release_resource sample 2 = Some (m', 0) /\ resource_inv m' /\
    detached m' 2 /\ children m' 1 ([] ++ [3]) /\ (forall p ds, p <> 1 -> children sample p ds -> children m' p ds) /\
    (forall q, same_range sample m' q) /\
    (r_child (R sample 2) = NULL -> exists m'', request_resource m' 1 2 = Some (m'', 0) /\
       children m'' 1 ([] ++ 2 :: [3])).
Proof. apply release_resource_correct; [apply sample_inv|apply sample_children]. Defined.

(** [allocate_resource] without a hook, for an alignment of [2^k] and ranges
    that leave room for it below 2^32, ends: either the new resource is a child
    of [root], aligned, of the requested size and between [min] and [max], or
    -EBUSY is returned and no list of children has changed. *)
Theorem allocate_resource_correct m root new cs size min max k : resource_inv m -> detached m new ->
  r_child (R m new) = NULL -> root <> new -> children m root cs ->
  0 <= r_start (R m root) -> r_end (R m root) + 1 + 2 ^ k <= 2 ^ 32 -> 0 <= k < 32 ->
  0 <= min <= r_end (R m root) -> 0 <= max < 2 ^ 32 -> 1 <= size < 2 ^ 32 -> r_start (R m root) <= r_end (R m root) ->
  exists m' r, allocate_resource m root new size min max (2 ^ k) None = Some (m', r) /\ resource_inv m' /\
    ((r = 0 /\ found min max size k (r_start (R m' new)) (r_end (R m' new)) /\
      exists pre post, cs = pre ++ post /\ children m' root (pre ++ new :: post)) \/
     (r = - EBUSY /\ children m' root cs)).
Proof.
  intros Hinv Hdet Hleaf Hrn Hch Hs0 Hroom Hk Hmin Hmax Hsize Hrr. pose proof (proj1 Hinv) as H0.
  pose proof (proj1 Hdet) as Hnew. pose proof Hch as (Hroot&Hseg&Hf&Hsort). rewrite Forall_forall in Hf.
  pose proof (detached_not_child m root cs new H0 Hdet Hch) as Hnc.
  assert (Hfind : exists s e r, find_resource m root new size min max (2 ^ k) None = Some (moved m new s e, r) /\
    (r = - EBUSY \/ r = 0 /\ found min max size k s e)).
  { unfold find_resource. rewrite (lookup_R _ _ Hroot), some_bind. 
    assert (Hm : forall v, upd (with_start v) new m = Some (moved m new v (r_end (R m new)))).
    { intros v. rewrite upd_Some by done. unfold moved. do 2 f_equal. }
    rewrite Hm, some_bind. set (en := r_end (R m new)).
    assert (Hgen : forall this rest s, seg m this rest NULL -> (forall c, c ∈ rest -> c ∈ cs) ->
      (forall c, c ∈ rest -> 0 < r_start (R m c)) -> 0 <= s <= r_end (R m root) + 1 -> (length rest <= length cs)%nat ->
      exists s' e r, find_loop (fuel_of (moved m new s en)) (moved m new s en) root new size min max (2 ^ k) None this =
        Some (moved m new s' e, r) /\ (r = - EBUSY \/ r = 0 /\ found min max size k s' e)).
    { intros this rest s Hs Hin Hpos Hsb Hlen.
      apply (find_loop_spec _ m root new size min max k this rest s en (r_end (R m root))); try done; try lia.
      - auto.
      - intros c Hc. destruct (Hf c (Hin c Hc)) as (_&_&?&?&?). specialize (Hpos c Hc). lia.
      - apply children_length in Hch. unfold fuel_of, moved.
        assert (base.size (dom m) <= base.size (dom (<[new := with_end en (with_start s (R m new))]> m)))%nat.
        { apply subseteq_size. rewrite dom_insert. apply union_subseteq_r. }
        rewrite !size_dom in H. lia. }
    destruct cs as [|c cs]; simpl in Hseg.
    - rewrite Hseg. change (negb (NULL =? NULL)) with false. cbv iota. rewrite some_bind. apply (Hgen NULL []); try done; try lia;
        intros c Hc; by apply elem_of_nil in Hc.
    - destruct Hseg as (->&Hc&Hseg). destruct (Z.eqb_spec c NULL) as [->|]; [destruct Hc; congruence|]. cbn [negb].
      apply not_elem_of_cons in Hnc as [Hcn Hnc]. rewrite moved_other, some_bind by done.
      destruct (Hf c) as (_&_&?&?&?); [by left|]. inversion_clear Hsort as [|? ? _ Hlt]. rewrite Forall_forall in Hlt.
      assert (Hrest : forall d, d ∈ cs -> 0 < r_start (R m d)).
      { intros d Hd. specialize (Hlt d Hd). unfold precedes in Hlt. lia. }
      destruct (Z.eqb_spec (r_start (R m c)) 0).
      + rewrite upd_start, !some_bind by done. rewrite u32_small by (unfold is_u32; lia).
        apply (Hgen _ cs); try done; try lia; [intros d Hd; by right|simpl; lia].
      + rewrite some_bind. apply (Hgen c (c :: cs)); try done; try lia.
        intros d Hd. apply elem_of_cons in Hd as [->|Hd]; [lia|by apply Hrest]. }
  destruct Hfind as (s&e&r&Efind&Hr). unfold allocate_resource. rewrite Efind, some_bind.
  assert (Hinv1 : resource_inv (moved m new s e)) by (by apply moved_inv).
  assert (Hch1 : children (moved m new s e) root cs) by (by apply moved_children).
  destruct Hr as [->|[-> Hfound]].
  { simpl. eexists _, _. split; [done|]. split; [done|]. by right. }
  simpl. assert (Hdet1 : detached (moved m new s e) new).
  { split; [by apply moved_dom|]. rewrite moved_R, Z.eqb_refl. apply Hdet. }
  destruct (request_resource_cases (moved m new s e) root new cs) as (m'&r&E&Hi&Hcase); try done.
  { by rewrite moved_R, Z.eqb_refl. }
  unfold request_resource in E. destruct (__request_resource _ _ _) as [[m1 c]|]; [|done].
  rewrite some_bind in E. injection E as <- E. rewrite some_bind. eexists _, _. split; [done|]. split; [done|].
  destruct Hcase as [(->&_&Hex&_&Hsame)|(->&_&->)].
  - left. destruct (c =? NULL) eqn:Ec; simpl in E; [|done]. simpl. split; [done|]. split; [|done].
    destruct (Hsame new) as (->&->&_). by rewrite moved_R, Z.eqb_refl.
  - right. destruct (c =? NULL); simpl in E; done.
Qed.

Lemma allocate_resource_correct_witness : exists m' r,
  allocate_resource sample 1 4 16 0x20 0xfff (2 ^ 4) None = Some (m', r) /\ resource_inv m' /\
    ((r = 0 /\ found 0x20 0xfff 16 4 (r_start (R m' 4)) (r_end (R m' 4)) /\
      exists pre post, [2; 3] = pre ++ post /\ children m' 1 (pre ++ 4 :: post)) \/
     (r = - EBUSY /\ children m' 1 [2; 3])).
Proof.
  apply allocate_resource_correct; [apply sample_inv|split; [by eexists|done]|done|done|apply sample_children|..];
    try lia; vm_compute; repeat split; discriminate.
Defined.

(** A gap of one unit is never taken: the test wants a start below the end. *)
Lemma find_resource_one_unit :
  (allocate_resource (<[1 := mk_resource 5 5 0 0 0 0 0]> (<[2 := no_resource]> ∅)) 1 2 1 0 100 1 None ≫= fun '(_, r) => Some r)
    = Some (- EBUSY).
Proof. reflexivity. Qed.

(** *** Busy regions *)

(** Adding an unlinked resource at a fresh address. *)
Lemma fresh_children m p r q cs : m !! p = None -> children m q cs -> children (<[p := r]> m) q cs.
Proof.
  intros Hp Hcs. assert (Hq : forall c, is_Some (m !! c) -> c <> p) by (intros c [? ?] ->; congruence).
  assert (q <> p) by apply Hq, Hcs.
  apply (children_frame m); try (by rewrite ?R_insert_ne by done); try done.
  - by apply is_Some_insert, Hcs.
  - intros c Hc. destruct (children_child _ _ _ _ Hcs Hc) as (Hcm&_). pose proof (Hq c Hcm).
    rewrite R_insert_ne by done. split; [by apply is_Some_insert|done].
Qed.

Lemma fresh_inv m p r : resource_inv m -> m !! p = None -> p <> NULL -> r_child r = NULL -> resource_inv (<[p := r]> m).
Proof.
  intros (H0&Hall&rank&Hrank) Hp Hp0 Hr.
  assert (H0' : <[p := r]> m !! NULL = None) by (by rewrite lookup_insert_ne).
  assert (Hpc : children (<[p := r]> m) p []).
  { split; [rewrite lookup_insert_eq; eauto|]. rewrite R_insert_eq. split; [done|]. split; constructor. }
  split; [done|]. split.
  - intros q Hq. destruct (Z.eq_dec q p) as [->|]; [eauto|]. rewrite lookup_insert_ne in Hq by done.
    destruct (Hall q Hq) as [cs Hcs]. exists cs. by apply fresh_children.
  - exists rank. intros q cs c Hcs Hc. destruct (Z.eq_dec q p) as [->|].
    + rewrite (children_unique _ _ _ _ H0' Hcs Hpc) in Hc. by apply elem_of_nil in Hc.
    + destruct Hcs as (Hq&Hcs). rewrite lookup_insert_ne in Hq by done. destruct (Hall q Hq) as [ds Hds].
      assert (cs = ds) as ->; [|by eapply Hrank].
      eapply children_unique; [exact H0'| |by apply fresh_children]. split; [|done]. by apply is_Some_insert.
Qed.

(** The walk down: each conflict is one level below; the visited parents are
    distinct, so the size of the heap bounds their number. *)
Lemma region_loop_spec fuel m parent res vs rank : resource_inv m -> ranked m rank -> detached m res ->
  r_child (R m res) = NULL -> parent <> res -> is_Some (m !! parent) ->
  NoDup vs -> (forall v, v ∈ vs -> is_Some (m !! v) /\ (rank parent < rank v)%nat) -> (size m < fuel + length vs)%nat ->
  exists m' r, region_loop fuel m parent res = Some (m', r) /\
    ((r = NULL /\ m' = delete res m) \/
     (r = res /\ exists p pre post, (p = parent \/ busy (R m p) = false) /\ p <> res /\ children m p (pre ++ post) /\
        fits m p res pre post /\
        m' = linked m (end_link (LChild p) pre) res (match post with [] => NULL | c :: _ => c end) p)).
Proof.
  intros Hinv Hrank Hdet Hleaf. revert parent vs.
  induction fuel as [|fuel IH]; intros parent vs Hpr Hp Hvs Hv Hf.
  { pose proof (NoDup_size m vs Hvs) as Hs. assert (length vs <= size m)%nat; [|lia].
    apply Hs. intros c Hc. by apply Hv. }
  cbn [region_loop]. destruct (proj1 (proj2 Hinv) parent Hp) as [cs Hcs].
  destruct (request_spec m parent res cs) as [(pre&post&->&Hfit&->)|[[-> _]|(pre&c&post&->&->&_)]]; try done; rewrite some_bind.
  - eexists _, _. split; [done|]. right. split; [done|]. exists parent, pre, post. auto 6.
  - destruct (Z.eqb_spec parent NULL) as [->|]; [destruct Hp; destruct Hinv; congruence|].
    rewrite Z.eqb_refl. simpl. eexists _, _. split; [done|]. by left.
  - assert (Hin : c ∈ pre ++ c :: post) by (apply elem_of_app; right; by left).
    destruct (children_child _ _ _ _ Hcs Hin) as (Hc&_).
    destruct (Z.eqb_spec c NULL) as [->|]; [destruct Hc; destruct Hinv; congruence|].
    pose proof (Hrank _ _ _ Hcs Hin) as Hlt.
    destruct (Z.eqb_spec c parent) as [->|]; [lia|]. cbn [negb]. rewrite (lookup_R _ _ Hc), some_bind.
    destruct (busy (R m c)) eqn:Hb; cbn [negb].
    { eexists _, _. split; [done|]. by left. }
    destruct (IH c (parent :: vs)) as (m'&r&->&Hr); try done.
    + intros ->. eapply detached_not_child; [apply Hinv|exact Hdet|exact Hcs|done].
    + constructor; [|done]. intros Hpv. destruct (Hv _ Hpv) as [_ ?]. lia.
    + intros v Hv'. apply elem_of_cons in Hv' as [->|Hv']; [done|]. destruct (Hv v Hv'). split; [done|lia].
    + simpl. lia.
    + exists m', r. split; [done|]. destruct Hr as [?|(?&p&pre'&post'&[->|?]&?)]; [by left|right..].
      * split; [done|]. exists c, pre', post'. auto.
      * split; [done|]. exists p, pre', post'. auto.
Qed.

(** [__request_region] ends; it fails only with the heap as it was, and
    otherwise the new busy resource has exactly the requested range and is a
    child of [parent] or of a resource below it that is not busy, disjoint from
    its other children, in a well formed tree. *)
Theorem request_region_exclusive m res parent start n name : resource_inv m -> is_Some (m !! parent) -> m !! res = None ->
  exists m' r, __request_region m res parent start n name = Some (m', r) /\ resource_inv m' /\
    ((r = NULL /\ m' = m) \/
     (r = res /\ r_start (R m' res) = start /\ r_end (R m' res) = u32 (start + n - 1) /\ busy (R m' res) = true /\
      exists p cs, (p = parent \/ busy (R m p) = false) /\ children m p cs /\ free_range m' p res cs /\
        exists pre post, cs = pre ++ post /\ children m' p (pre ++ res :: post))).
Proof.
  intros Hinv Hp Hres. unfold __request_region. destruct (Z.eqb_spec res NULL) as [->|Hn].
  { exists m, NULL. split; [done|]. split; [done|]. by left. }
  set (new := mk_resource _ _ _ _ _ _ _). set (m1 := <[res := new]> m).
  assert (Hinv1 : resource_inv m1) by (by apply fresh_inv).
  assert (Hdet : detached m1 res) by (split; [unfold m1; rewrite lookup_insert_eq; eauto|unfold m1; by rewrite R_insert_eq]).
  assert (Hpr : parent <> res) by (intros ->; destruct Hp; congruence).
  assert (Hleaf : r_child (R m1 res) = NULL) by (unfold m1; by rewrite R_insert_eq).
  pose proof Hinv1 as (H01&_&rank&Hrank).
  destruct (region_loop_spec (fuel_of m1) m1 parent res [] rank) as (m'&r&E&Hr); try done.
  - by apply is_Some_insert.
  - constructor.
  - intros v Hv. by apply elem_of_nil in Hv.
  - unfold fuel_of. simpl. lia.
  - cbv zeta. rewrite E. exists m', r. split; [done|]. destruct Hr as [[-> ->]|(->&p&pre&post&Hb&Hpn&Hch&Hfit&->)].
    { unfold m1. rewrite delete_insert_id by done. split; [done|]. by left. }
    split; [by apply linked_inv|]. right. split; [done|].
    destruct (linked_children m1 p res pre post) as (Hc1&_&_&Hsame); try done.
    set (m' := linked _ _ _ _ _) in *.
    assert (Hnew : R m1 res = new) by (unfold m1; apply R_insert_eq).
    destruct (Hsame res) as (Es&Ee&Ef&_). rewrite Es, Ee, Hnew. split; [done|]. split; [done|]. split.
    { unfold busy. by rewrite Ef, Hnew. }
    assert (Hpm : is_Some (m !! p)) by (destruct Hch as [Hx _]; unfold m1 in Hx; by rewrite lookup_insert_ne in Hx).
    destruct (proj1 (proj2 Hinv) p Hpm) as [cs Hcs].
    assert (cs = pre ++ post) as ->.
    { eapply children_unique; [exact H01| |exact Hch]. by apply fresh_children. }
    exists p, (pre ++ post). split.
    { destruct Hb as [?|Hb]; [by left|right]. unfold m1 in Hb. by rewrite R_insert_ne in Hb. }
    split; [done|]. split; [|by exists pre, post].
    pose proof (fits_free m1 p res pre post Hch Hfit) as (?&?&?&Hfree).
    destruct (Hsame p) as (Esp&Eep&_). unfold free_range. rewrite Es, Ee, Esp, Eep. do 3 (split; [done|]).
    intros c Hc. destruct (Hsame c) as (Esc&Eec&_). rewrite Esc, Eec. by apply Hfree.
Qed.

Lemma request_region_exclusive_witness : exists m' r, __request_region sample 9 1 0x42 4 0 = Some (m', r) /\ resource_inv m' /\
    ((r = NULL /\ m' = sample) \/
     (r = 9 /\ r_start (R m' 9) = 0x42 /\ r_end (R m' 9) = u32 (0x42 + 4 - 1) /\ busy (R m' 9) = true /\
      exists p cs, (p = 1 \/ busy (R sample p) = false) /\ children sample p cs /\ free_range m' p 9 cs /\
        exists pre post, cs = pre ++ post /\ children m' p (pre ++ 9 :: post))).
Proof. apply request_region_exclusive; [apply sample_inv|by eexists|done]. Defined.
