(* ===== verification/Time.v ===== *)
(** * Time conversions (kernel/time.c, include/linux/time.h, include/linux/jiffies.h)

    The configuration is the one of .config: HZ is 100 and the clock of the
    i.MX37 runs at 8 MHz; the preprocessor's choices are written as [if]s on
    these constants.  [long] and [time_t] have 32 bits. *)

From S2P Require Import Prelude Bits.

#[local] Open Scope Z_scope.

Definition HZ : Z := 100.
Definition CLOCK_TICK_RATE : Z := 8000000.
Definition USER_HZ : Z := 100.
Definition MSEC_PER_SEC : Z := 1000.
Definition USEC_PER_SEC : Z := 1000000.
Definition NSEC_PER_USEC : Z := 1000.
Definition NSEC_PER_SEC : Z := 1000000000.
Definition LONG_MAX : Z := 2 ^ 31 - 1.
Definition ULONG_MAX : Z := 2 ^ 32 - 1.

(** ** Constants of jiffies.h *)

Definition SHIFT_HZ : Z :=
  if (12 <=? HZ) && (HZ <? 24) then 4 else if (24 <=? HZ) && (HZ <? 48) then 5
  else if (48 <=? HZ) && (HZ <? 96) then 6 else if (96 <=? HZ) && (HZ <? 192) then 7
  else if (192 <=? HZ) && (HZ <? 384) then 8 else if (384 <=? HZ) && (HZ <? 768) then 9 else 10.
Definition LATCH : Z := (CLOCK_TICK_RATE + HZ / 2) / HZ.
Definition SH_DIV (nom den lsh : Z) : Z :=
  Z.shiftl (nom / den) lsh + (Z.shiftl (nom mod den) lsh + den / 2) / den.
Definition ACTHZ : Z := SH_DIV CLOCK_TICK_RATE LATCH 8.
Definition TICK_NSEC : Z := SH_DIV (1000000 * 1000) ACTHZ 8.
Definition MAX_JIFFY_OFFSET : Z := Z.shiftr LONG_MAX 1 - 1.
Definition SEC_JIFFIE_SC : Z :=
  if Z.land (Z.shiftl (Z.shiftl NSEC_PER_SEC 2 / TICK_NSEC) (31 - SHIFT_HZ - 2)) 0x80000000 =? 0
  then 32 - SHIFT_HZ else 31 - SHIFT_HZ.
Definition NSEC_JIFFIE_SC : Z := SEC_JIFFIE_SC + 29.
Definition USEC_JIFFIE_SC : Z := SEC_JIFFIE_SC + 19.
Definition SEC_CONVERSION : Z := u32 ((u64 (Z.shiftl NSEC_PER_SEC SEC_JIFFIE_SC) + TICK_NSEC - 1) / TICK_NSEC).
Definition NSEC_CONVERSION : Z := u32 ((u64 (Z.shiftl 1 NSEC_JIFFIE_SC) + TICK_NSEC - 1) / TICK_NSEC).
Definition USEC_CONVERSION : Z := u32 ((u64 (Z.shiftl NSEC_PER_USEC USEC_JIFFIE_SC) + TICK_NSEC - 1) / TICK_NSEC).
Definition USEC_ROUND : Z := Z.shiftl 1 USEC_JIFFIE_SC - 1.
Definition MAX_SEC_IN_JIFFIES : Z := s32 (u64 (MAX_JIFFY_OFFSET * TICK_NSEC) / NSEC_PER_SEC).

Definition time_after (a b : Z) : bool := s32 (b - a) <? 0.
Definition time_before (a b : Z) : bool := time_after b a.
Definition time_after_eq (a b : Z) : bool := 0 <=? s32 (a - b).
Definition time_before_eq (a b : Z) : bool := time_after_eq b a.

(** ** Jiffies and small units *)

Definition jiffies_to_msecs (j : Z) : Z :=
  if (HZ <=? MSEC_PER_SEC) && (MSEC_PER_SEC mod HZ =? 0) then u32 (MSEC_PER_SEC / HZ * j)
  else if (MSEC_PER_SEC <? HZ) && (HZ mod MSEC_PER_SEC =? 0)
  then u32 (j + HZ / MSEC_PER_SEC - 1) / (HZ / MSEC_PER_SEC)
  else u32 (j * MSEC_PER_SEC) / HZ.

Definition jiffies_to_usecs (j : Z) : Z :=
  if (HZ <=? USEC_PER_SEC) && (USEC_PER_SEC mod HZ =? 0) then u32 (USEC_PER_SEC / HZ * j)
  else if (USEC_PER_SEC <? HZ) && (HZ mod USEC_PER_SEC =? 0)
  then u32 (j + HZ / USEC_PER_SEC - 1) / (HZ / USEC_PER_SEC)
  else u32 (j * USEC_PER_SEC) / HZ.

Definition msecs_to_jiffies (m : Z) : Z :=
  if s32 m <? 0 then MAX_JIFFY_OFFSET else
  if (HZ <=? MSEC_PER_SEC) && (MSEC_PER_SEC mod HZ =? 0)
  then u32 (m + MSEC_PER_SEC / HZ - 1) / (MSEC_PER_SEC / HZ)
  else if (MSEC_PER_SEC <? HZ) && (HZ mod MSEC_PER_SEC =? 0) then
    if jiffies_to_msecs MAX_JIFFY_OFFSET <? m then MAX_JIFFY_OFFSET else u32 (m * (HZ / MSEC_PER_SEC))
  else
    if (MSEC_PER_SEC <? HZ) && (jiffies_to_msecs MAX_JIFFY_OFFSET <? m) then MAX_JIFFY_OFFSET
    else u32 (m * HZ + MSEC_PER_SEC - 1) / MSEC_PER_SEC.

Definition usecs_to_jiffies (u : Z) : Z :=
  if jiffies_to_usecs MAX_JIFFY_OFFSET <? u then MAX_JIFFY_OFFSET else
  if (HZ <=? USEC_PER_SEC) && (USEC_PER_SEC mod HZ =? 0)
  then u32 (u + USEC_PER_SEC / HZ - 1) / (USEC_PER_SEC / HZ)
  else if (USEC_PER_SEC <? HZ) && (HZ mod USEC_PER_SEC =? 0) then u32 (u * (HZ / USEC_PER_SEC))
  else u32 (u * HZ + USEC_PER_SEC - 1) / USEC_PER_SEC.

(** ** Seconds with nanoseconds or microseconds *)

Record timespec := mk_timespec { tv_sec : Z; tv_nsec : Z }.
Record timeval := mk_timeval { tvv_sec : Z; tvv_usec : Z }.

Definition timespec_equal (a b : timespec) : bool := (tv_sec a =? tv_sec b) && (tv_nsec a =? tv_nsec b).
Definition timespec_compare (lhs rhs : timespec) : Z :=
  if tv_sec lhs <? tv_sec rhs then -1 else if tv_sec rhs <? tv_sec lhs then 1
  else s32 (tv_nsec lhs - tv_nsec rhs).
Definition timeval_compare (lhs rhs : timeval) : Z :=
  if tvv_sec lhs <? tvv_sec rhs then -1 else if tvv_sec rhs <? tvv_sec lhs then 1
  else s32 (tvv_usec lhs - tvv_usec rhs).
Definition timespec_valid (ts : timespec) : bool := (0 <=? tv_sec ts) && (u32 (tv_nsec ts) <? NSEC_PER_SEC).
Definition timespec_to_ns (ts : timespec) : Z := s64 (tv_sec ts * NSEC_PER_SEC + tv_nsec ts).
Definition timeval_to_ns (tv : timeval) : Z := s64 (tvv_sec tv * NSEC_PER_SEC + s32 (tvv_usec tv * NSEC_PER_USEC)).

Definition timespec_trunc (t : timespec) (gran : Z) : timespec :=
  if gran <=? u32 (jiffies_to_usecs 1 * 1000) then t
  else if gran =? 1000000000 then mk_timespec (tv_sec t) 0
  else mk_timespec (tv_sec t) (s32 (u32 (tv_nsec t) - u32 (tv_nsec t) mod gran)).

Definition mktime (year0 mon0 day hour min sec : Z) : Z :=
  let mon := u32 (mon0 - 2) in
  let '(mon, year) := if s32 mon <=? 0 then (u32 (mon + 12), u32 (year0 - 1)) else (mon, year0) in
  u32 ((((year / 4 - year / 100 + year / 400 + u32 (367 * mon) / 12 + day + year * 365 - 719499)
      * 24 + hour) * 60 + min) * 60 + sec).

(** The loops run at most twice up and three times down on a 32-bit [nsec]. *)
Fixpoint norm_down (fuel : nat) (sec nsec : Z) : option (Z * Z) :=
  match fuel with
  | O => None
  | S fuel =>
    if NSEC_PER_SEC <=? nsec then norm_down fuel (s32 (sec + 1)) (s32 (nsec - NSEC_PER_SEC))
    else Some (sec, nsec)
  end.
Fixpoint norm_up (fuel : nat) (sec nsec : Z) : option (Z * Z) :=
  match fuel with
  | O => None
  | S fuel =>
    if nsec <? 0 then norm_up fuel (s32 (sec - 1)) (s32 (nsec + NSEC_PER_SEC))
    else Some (sec, nsec)
  end.
Definition set_normalized_timespec (sec nsec : Z) : option timespec :=
  '(sec, nsec) ← norm_down 4 sec nsec;
  '(sec, nsec) ← norm_up 4 sec nsec;
  Some (mk_timespec sec nsec).

Definition timespec_sub (lhs rhs : timespec) : option timespec :=
  set_normalized_timespec (s32 (tv_sec lhs - tv_sec rhs)) (s32 (tv_nsec lhs - tv_nsec rhs)).

(** include/linux/calc64.h: quotient and remainder *)
Definition div_long_long_rem (dividend divisor : Z) : option (Z * Z) :=
  '(q, r) ← do_div (u64 dividend) divisor; Some (u32 q, r).
Definition div_long_long_rem_signed (dividend divisor : Z) : option (Z * Z) :=
  if dividend <? 0 then
    '(q, r) ← div_long_long_rem (- dividend) divisor; Some (s32 (- q), s32 (- s32 r))
  else '(q, r) ← div_long_long_rem dividend divisor; Some (s32 q, s32 r).

Definition ns_to_timespec (nsec : Z) : option timespec :=
  if nsec =? 0 then Some (mk_timespec 0 0) else
  '(s, r) ← div_long_long_rem_signed nsec NSEC_PER_SEC;
  if nsec <? 0 then set_normalized_timespec s r else Some (mk_timespec s r).

Definition ns_to_timeval (nsec : Z) : option timeval :=
  ts ← ns_to_timespec nsec; Some (mk_timeval (tv_sec ts) (Z.quot (tv_nsec ts) 1000)).

(** ** Jiffies and time structures *)

Definition timespec_to_jiffies (value : timespec) : Z :=
  let sec := u32 (tv_sec value) in
  let nsec := s32 (u32 (tv_nsec value + TICK_NSEC - 1)) in
  let '(sec, nsec) := if u32 MAX_SEC_IN_JIFFIES <=? sec then (u32 MAX_SEC_IN_JIFFIES, 0) else (sec, nsec) in
  u32 (Z.shiftr (u64 (sec * SEC_CONVERSION
       + Z.shiftr (u64 (u64 nsec * NSEC_CONVERSION)) (NSEC_JIFFIE_SC - SEC_JIFFIE_SC))) SEC_JIFFIE_SC).

Definition jiffies_to_timespec (jiffies : Z) : option timespec :=
  let nsec := u64 (jiffies * TICK_NSEC) in
  '(q, r) ← div_long_long_rem nsec NSEC_PER_SEC;
  Some (mk_timespec (s32 q) (s32 r)).

Definition timeval_to_jiffies (value : timeval) : Z :=
  let sec := u32 (tvv_sec value) in
  let usec := tvv_usec value in
  let '(sec, usec) := if u32 MAX_SEC_IN_JIFFIES <=? sec then (u32 MAX_SEC_IN_JIFFIES, 0) else (sec, usec) in
  u32 (Z.shiftr (u64 (sec * SEC_CONVERSION
       + Z.shiftr (u64 (u64 usec * USEC_CONVERSION + USEC_ROUND)) (USEC_JIFFIE_SC - SEC_JIFFIE_SC))) SEC_JIFFIE_SC).

Definition jiffies_to_timeval (jiffies : Z) : option timeval :=
  let nsec := u64 (jiffies * TICK_NSEC) in
  '(q, r) ← div_long_long_rem nsec NSEC_PER_SEC;
  Some (mk_timeval (s32 q) (Z.quot (s32 r) NSEC_PER_USEC)).

Definition jiffies_to_clock_t (x : Z) : option Z :=
  if TICK_NSEC mod (NSEC_PER_SEC / USER_HZ) =? 0 then Some (Z.quot x (HZ / USER_HZ))
  else '(q, _) ← do_div (u64 (u64 x * TICK_NSEC)) (NSEC_PER_SEC / USER_HZ); Some (s32 q).

Definition clock_t_to_jiffies (x : Z) : option Z :=
  if HZ mod USER_HZ =? 0 then
    if ULONG_MAX / (HZ / USER_HZ) <=? x then Some ULONG_MAX else Some (u32 (x * (HZ / USER_HZ)))
  else
    if u32 (ULONG_MAX / HZ * USER_HZ) <=? x then Some ULONG_MAX
    else '(q, _) ← do_div (u64 (x * HZ)) USER_HZ; Some (u32 q).

Definition jiffies_64_to_clock_t (x : Z) : option Z :=
  if TICK_NSEC mod (NSEC_PER_SEC / USER_HZ) =? 0 then '(q, _) ← do_div x (HZ / USER_HZ); Some q
  else '(q, _) ← do_div (u64 (x * TICK_NSEC)) (NSEC_PER_SEC / USER_HZ); Some q.

Definition nsec_to_clock_t (x : Z) : option Z :=
  if NSEC_PER_SEC mod USER_HZ =? 0 then '(q, _) ← do_div x (NSEC_PER_SEC / USER_HZ); Some q
  else if USER_HZ mod 512 =? 0 then
    '(q, _) ← do_div (u64 (x * (USER_HZ / 512))) (NSEC_PER_SEC / 512); Some q
  else '(q, _) ← do_div (u64 (x * 9)) ((9 * NSEC_PER_SEC + USER_HZ / 2) / USER_HZ); Some q.

(** ** Reference: days of the Gregorian calendar *)

Definition leap (y : Z) : bool := (y mod 4 =? 0) && (negb (y mod 100 =? 0) || (y mod 400 =? 0)).
Definition days_in_year (y : Z) : Z := if leap y then 366 else 365.
Definition days_in_month (y m : Z) : Z :=
  if m =? 2 then (if leap y then 29 else 28)
  else if (m =? 4) || (m =? 6) || (m =? 9) || (m =? 11) then 30 else 31.
Fixpoint sum_from (f : Z -> Z) (lo : Z) (n : nat) : Z :=
  match n with O => 0 | S n => f lo + sum_from f (lo + 1) n end.
(** Days from 1970-01-01 to the given date. *)
Definition epoch_days (y m d : Z) : Z :=
  sum_from days_in_year 1970 (Z.to_nat (y - 1970)) + sum_from (days_in_month y) 1 (Z.to_nat (m - 1)) + (d - 1).

(** ** Lemmas *)

Lemma sum_from_snoc f lo n : sum_from f lo (S n) = sum_from f lo n + f (lo + Z.of_nat n).
Proof.
  revert lo. induction n as [|n IH]; intros lo.
  { cbn [sum_from]. change (Z.of_nat 0) with 0. rewrite (Z.add_0_r lo). lia. }
  change (sum_from f lo (S (S n))) with (f lo + sum_from f (lo + 1) (S n)). rewrite IH.
  cbn [sum_from]. replace (lo + 1 + Z.of_nat n) with (lo + Z.of_nat (S n)) by lia. lia.
Qed.

(** Days before a year, by the leap-year formula. *)
Lemma year_days n : let y := 1970 + Z.of_nat n in
  sum_from days_in_year 1970 n = 365 * (y - 1970) + ((y - 1) / 4 - (y - 1) / 100 + (y - 1) / 400) - 477.
Proof.
  induction n as [|n IH]; [reflexivity|]. cbv zeta in *. rewrite sum_from_snoc, IH.
  set (y := 1970 + Z.of_nat n). replace (1970 + Z.of_nat (S n)) with (y + 1) by lia.
  replace (y + 1 - 1) with y by lia.
  assert (Hd : forall k, 0 < k -> y / k = (y - 1) / k + (if y mod k =? 0 then 1 else 0)).
  { intros k Hk. pose proof (Z.div_mod y k ltac:(lia)). pose proof (Z.mod_pos_bound y k Hk).
    destruct (Z.eqb_spec (y mod k) 0).
    - rewrite <- (Z.div_unique (y - 1) k (y / k - 1) (k - 1)) by lia. lia.
    - rewrite <- (Z.div_unique (y - 1) k (y / k) (y mod k - 1)) by lia. lia. }
  rewrite !Hd by lia. unfold days_in_year, leap.
  assert (Hm : (y mod 100 = 0 -> y mod 4 = 0) /\ (y mod 400 = 0 -> y mod 100 = 0)).
  { clear. Z.to_euclidean_division_equations. lia. }
  destruct (Z.eqb_spec (y mod 4) 0), (Z.eqb_spec (y mod 100) 0), (Z.eqb_spec (y mod 400) 0); simpl; lia.
Qed.

Lemma leap_feb y : (y / 4 - y / 100 + y / 400) = ((y - 1) / 4 - (y - 1) / 100 + (y - 1) / 400) + (if leap y then 1 else 0).
Proof.
  unfold leap. assert (Hd : forall k, 0 < k -> y / k = (y - 1) / k + (if y mod k =? 0 then 1 else 0)).
  { intros k Hk. pose proof (Z.div_mod y k ltac:(lia)). pose proof (Z.mod_pos_bound y k Hk).
    destruct (Z.eqb_spec (y mod k) 0).
    - rewrite <- (Z.div_unique (y - 1) k (y / k - 1) (k - 1)) by lia. lia.
    - rewrite <- (Z.div_unique (y - 1) k (y / k) (y mod k - 1)) by lia. lia. }
  assert (Hm : (y mod 100 = 0 -> y mod 4 = 0) /\ (y mod 400 = 0 -> y mod 100 = 0)).
  { clear. Z.to_euclidean_division_equations. lia. }
  rewrite !Hd by lia.
  destruct (Z.eqb_spec (y mod 4) 0), (Z.eqb_spec (y mod 100) 0), (Z.eqb_spec (y mod 400) 0); simpl; lia.
Qed.

(** The month table, as the code's formula gives it. *)
Lemma month_days y m : 1 <= m <= 12 ->
  sum_from (days_in_month y) 1 (Z.to_nat (m - 1)) =
    if m <=? 2 then 367 * (m + 10) / 12 - 336
    else 367 * (m - 2) / 12 + 29 + (if leap y then 1 else 0).
Proof.
  intros Hm. assert (m = 1 \/ m = 2 \/ m = 3 \/ m = 4 \/ m = 5 \/ m = 6 \/ m = 7 \/ m = 8 \/ m = 9 \/ m = 10 \/ m = 11 \/ m = 12) as Hc by lia.
  unfold days_in_month.
  repeat (destruct Hc as [->|Hc]; [simpl; destruct (leap y); reflexivity|]). subst m. simpl; destruct (leap y); reflexivity.
Qed.

(** ** Normalisation *)

Lemma nsec_mod x : 0 <= x mod NSEC_PER_SEC < NSEC_PER_SEC.
Proof. by apply Z.mod_pos_bound. Qed.

Lemma norm_down_spec k sec nsec : nsec < NSEC_PER_SEC * Z.of_nat k -> - 2 ^ 31 <= sec < 2 ^ 31 -> - 2 ^ 31 <= nsec < 2 ^ 31 ->
  norm_down (S k) sec nsec =
    if nsec <? NSEC_PER_SEC then Some (sec, nsec) else Some (s32 (sec + nsec / NSEC_PER_SEC), nsec mod NSEC_PER_SEC).
Proof.
  revert sec nsec. induction k as [|k IH]; intros sec nsec Hk Hs Hn.
  { cbn [norm_down]. unfold NSEC_PER_SEC in *. zcases; first [done|lia]. }
  remember (S k) as k'. cbn [norm_down]. unfold NSEC_PER_SEC in *. zcases; first [lia|done|idtac]. subst k'.
  rewrite IH by word_lia.
  assert (s32 (nsec - 1000000000) = nsec - 1000000000) as -> by word_lia.
  zcases.
  - do 2 f_equal; [f_equal; word_lia|word_lia].
  - do 2 f_equal; [word_lia|word_lia].
Qed.

Lemma norm_up_spec k sec nsec : - NSEC_PER_SEC * Z.of_nat k <= nsec < NSEC_PER_SEC -> - 2 ^ 31 <= sec < 2 ^ 31 -> - 2 ^ 31 <= nsec < 2 ^ 31 ->
  norm_up (S k) sec nsec = Some (s32 (sec + nsec / NSEC_PER_SEC), nsec mod NSEC_PER_SEC).
Proof.
  revert sec nsec. induction k as [|k IH]; intros sec nsec Hk Hs Hn.
  { cbn [norm_up]. unfold NSEC_PER_SEC in *. zcases; try lia. do 2 f_equal; word_lia. }
  remember (S k) as k'. cbn [norm_up]. unfold NSEC_PER_SEC in *. zcases; subst k'.
  - rewrite IH by word_lia.
    assert (s32 (nsec + 1000000000) = nsec + 1000000000) as -> by word_lia. do 2 f_equal; word_lia.
  - do 2 f_equal; word_lia.
Qed.

Lemma set_normalized_eq sec nsec : - 2 ^ 31 <= sec < 2 ^ 31 -> - 2 ^ 31 <= nsec < 2 ^ 31 ->
  set_normalized_timespec sec nsec =
    Some (mk_timespec (s32 (sec + nsec / NSEC_PER_SEC)) (nsec mod NSEC_PER_SEC)).
Proof.
  intros Hs Hn. unfold set_normalized_timespec. rewrite (norm_down_spec 3) by (unfold NSEC_PER_SEC; lia).
  destruct (Z.ltb_spec nsec NSEC_PER_SEC) as [Hlt|Hge]; rewrite some_bind.
  - rewrite (norm_up_spec 3) by (unfold NSEC_PER_SEC in *; lia). done.
  - assert (Hm : 0 <= nsec mod NSEC_PER_SEC < NSEC_PER_SEC) by apply nsec_mod.
    rewrite (norm_up_spec 3) by (unfold NSEC_PER_SEC in *; first [lia|word_lia]).
    rewrite some_bind. do 2 f_equal.
    + rewrite (Z.div_small _ _ Hm), Z.add_0_r. apply s32_s32.
    + by apply Z.mod_small.
Qed.

Lemma div_llr_signed_neg n : - (2 ^ 31 * NSEC_PER_SEC) <= n < 0 ->
  div_long_long_rem_signed n NSEC_PER_SEC = Some (s32 (- (- n / NSEC_PER_SEC)), - (- n mod NSEC_PER_SEC)).
Proof.
  intros Hn. unfold div_long_long_rem_signed, div_long_long_rem. zcases; [|lia]. unfold NSEC_PER_SEC in *.
  rewrite (u64_small (- n)) by (unfold is_u64; lia).
  rewrite do_div_correct by (unfold is_u64; lia). rewrite !some_bind. do 2 f_equal; word_lia.
Qed.

Lemma div_llr_signed_pos n : 0 <= n < 2 ^ 31 * NSEC_PER_SEC ->
  div_long_long_rem_signed n NSEC_PER_SEC = Some (n / NSEC_PER_SEC, n mod NSEC_PER_SEC).
Proof.
  intros Hn. unfold div_long_long_rem_signed, div_long_long_rem. zcases; [lia|]. unfold NSEC_PER_SEC in *.
  rewrite (u64_small n) by (unfold is_u64; lia).
  rewrite do_div_correct by (unfold is_u64; lia). rewrite !some_bind. do 2 f_equal; word_lia.
Qed.

Lemma ns_to_timespec_eq n : - (2 ^ 31 * NSEC_PER_SEC) <= n < 2 ^ 31 * NSEC_PER_SEC ->
  ns_to_timespec n = Some (mk_timespec (n / NSEC_PER_SEC) (n mod NSEC_PER_SEC)).
Proof.
  intros Hn. unfold ns_to_timespec. destruct (Z.eqb_spec n 0) as [->|]; [done|].
  destruct (Z.ltb_spec n 0).
  - rewrite div_llr_signed_neg by lia. rewrite some_bind. unfold NSEC_PER_SEC in *.
    rewrite set_normalized_eq by word_lia. unfold NSEC_PER_SEC in *. do 2 f_equal; word_lia.
  - rewrite div_llr_signed_pos by lia. done.
Qed.

(** The divisors of the clock_t conversions are not zero. *)
Lemma clock_constants : TICK_NSEC = 10000000 /\ ACTHZ = 25600 /\ LATCH = 80000 /\ SEC_JIFFIE_SC = 25 /\
  SEC_CONVERSION = 100 * 2 ^ 25 /\ NSEC_CONVERSION = 1801439851 /\ USEC_CONVERSION = 1759218605 /\
  USEC_ROUND = 2 ^ 44 - 1 /\ MAX_SEC_IN_JIFFIES = 10737418 /\ MAX_JIFFY_OFFSET = 2 ^ 30 - 2.
Proof. vm_compute. repeat split. Qed.

(** Ceiling of the scaled sum for a value below one second and one tick. *)
Lemma nsec_scaled k : 0 <= k < 1800000000 -> Z.shiftr (k * 1801439851) 54 = k / 10000000.
Proof. intros Hk. rewrite Z.shiftr_div_pow2 by lia. Z.to_euclidean_division_equations. lia. Qed.

Lemma usec_scaled k : 0 <= k < 1000000 ->
  Z.shiftr (k * 1759218605 + (2 ^ 44 - 1)) 44 = if k =? 0 then 0 else k / 10000 + 1.
Proof.
  intros Hk. rewrite Z.shiftr_div_pow2 by lia. zcases; [subst; done|]. Z.to_euclidean_division_equations. lia.
Qed.

Lemma scaled_sum sec a b : 0 <= b -> Z.shiftr (sec * (100 * 2 ^ 25) + Z.shiftr a b) 25 = sec * 100 + Z.shiftr a (b + 25).
Proof.
  intros Hb. rewrite <- (Z.shiftr_shiftr a b 25) by lia. rewrite !(Z.shiftr_div_pow2 _ 25) by lia.
  replace (sec * (100 * 2 ^ 25) + Z.shiftr a b) with (Z.shiftr a b + (sec * 100) * 2 ^ 25) by ring.
  rewrite Z.div_add by lia. ring.
Qed.

Lemma timespec_to_jiffies_eq sec nsec : 0 <= sec < MAX_SEC_IN_JIFFIES -> 0 <= nsec < NSEC_PER_SEC ->
  timespec_to_jiffies (mk_timespec sec nsec) = sec * 100 + (nsec + 9999999) / 10000000.
Proof.
  destruct clock_constants as (E1&_&_&E2&E3&E4&_&_&E5&_). intros Hs Hn. unfold timespec_to_jiffies.
  cbn [tv_sec tv_nsec]. unfold NSEC_JIFFIE_SC. rewrite E1, E2, E3, E4, E5 in *. unfold NSEC_PER_SEC in *.
  rewrite (u32_small sec), (u32_small 10737418), (u32_small (nsec + _ - 1)) by (unfold is_u32; lia).
  rewrite s32_small by lia. zcases; [lia|]. rewrite (u64_small (nsec + _ - 1)) by (unfold is_u64; lia).
  rewrite (u64_small (_ * 1801439851)) by (unfold is_u64; lia).
  rewrite u64_small; [|split; [|]].
  - replace (25 + 29 - 25) with 29 by done. rewrite scaled_sum by lia.
    rewrite nsec_scaled by lia. replace (nsec + 10000000 - 1) with (nsec + 9999999) by lia. apply u32_small. word_lia.
  - pose proof (Z.shiftr_nonneg ((nsec + 10000000 - 1) * 1801439851) (25 + 29 - 25)). lia.
  - rewrite Z.shiftr_div_pow2 by lia. word_lia.
Qed.

Lemma timeval_to_jiffies_eq sec usec : 0 <= sec < MAX_SEC_IN_JIFFIES -> 0 <= usec < USEC_PER_SEC ->
  timeval_to_jiffies (mk_timeval sec usec) = sec * 100 + (if usec =? 0 then 0 else usec / 10000 + 1).
Proof.
  destruct clock_constants as (E1&_&_&E2&E3&_&E4&E6&E5&_). intros Hs Hn. unfold timeval_to_jiffies.
  cbn [tvv_sec tvv_usec]. unfold USEC_JIFFIE_SC. rewrite E2, E3, E4, E5, E6 in *. unfold USEC_PER_SEC in *.
  rewrite (u32_small sec), (u32_small 10737418) by (unfold is_u32; lia).
  destruct (Z.leb_spec 10737418 sec); [lia|]. rewrite (u64_small usec) by (unfold is_u64; lia).
  rewrite (u64_small (_ + (2 ^ 44 - 1))) by (unfold is_u64; lia).
  replace (25 + 19 - 25) with 19 by done. rewrite u64_small; [|split].
  - rewrite scaled_sum by lia. replace (19 + 25) with 44 by done.
    rewrite usec_scaled by lia. apply u32_small. zcases; word_lia.
  - pose proof (Z.shiftr_nonneg (usec * 1759218605 + (2 ^ 44 - 1)) 19). lia.
  - rewrite Z.shiftr_div_pow2 by lia. word_lia.
Qed.

Lemma jiffies_to_timespec_eq j : is_u32 j ->
  jiffies_to_timespec j = Some (mk_timespec (j / 100) (j mod 100 * 10000000)).
Proof.
  destruct clock_constants as (E1&_). intros Hj. unfold jiffies_to_timespec, div_long_long_rem. rewrite E1.
  unfold NSEC_PER_SEC. unfold is_u32 in Hj. rewrite !u64_small; try (unfold is_u64; lia); [|rewrite u64_small; unfold is_u64; lia].
  rewrite do_div_correct by (unfold is_u64; lia). rewrite !some_bind. do 2 f_equal; word_lia.
Qed.

(** Rounding up distributes over whole seconds. *)
Lemma ceil_seconds s n t k : 0 < t -> (s * (k * t) + n + t - 1) / t = s * k + (n + t - 1) / t.
Proof.
  intros Ht. replace (s * (k * t) + n + t - 1) with (n + t - 1 + (s * k) * t) by ring. rewrite Z.div_add by lia. ring.
Qed.

(** ** Claims *)

(** C39. The date conversion agrees with the calendar: for every Gregorian date
    from 1970 on [mktime] gives the seconds of the days counted year by year
    and month by month with their leap days, modulo the 32 bits of the result. *)
Theorem mktime_counts_days year mon day hour min sec :
  1970 <= year < 2 ^ 32 -> 1 <= mon <= 12 ->
  mktime year mon day hour min sec = u32 (((epoch_days year mon day * 24 + hour) * 60 + min) * 60 + sec).
Proof.
  intros Hy Hm. unfold mktime, epoch_days. rewrite (month_days year mon Hm).
  pose proof (year_days (Z.to_nat (year - 1970))) as Hd. cbv zeta in Hd. rewrite Hd. clear Hd.
  replace (1970 + Z.of_nat (Z.to_nat (year - 1970))) with year by lia. pose proof (leap_feb year) as Hl.
  destruct (Z.leb_spec mon 2).
  - assert ((s32 (u32 (mon - 2)) <=? 0) = true) as -> by (apply Z.leb_le; word_lia).
    assert (u32 (u32 (mon - 2) + 12) = mon + 10) as -> by word_lia. rewrite (u32_small (year - 1)) by (unfold is_u32; lia).
    rewrite (u32_small (367 * _)) by (unfold is_u32; lia). f_equal. lia.
  - assert ((s32 (u32 (mon - 2)) <=? 0) = false) as -> by (apply Z.leb_gt; word_lia).
    rewrite (u32_small (mon - 2)) by (unfold is_u32; lia).
    rewrite (u32_small (367 * _)) by (unfold is_u32; lia). f_equal. lia.
Qed.

Lemma mktime_counts_days_witness : mktime 2010 3 1 12 30 15 = 1267446615.
Proof. rewrite mktime_counts_days by lia. reflexivity. Defined.

(** Normalisation ends for every pair of 32-bit words, puts the nanoseconds
    in [0, 10^9) and carries the rest into the seconds (modulo the width of
    time_t); [timespec_sub] is the normalised difference, and the conversion
    from signed nanoseconds is normalised and loses nothing. *)
Theorem timespec_normalization sec nsec lhs rhs n :
  - 2 ^ 31 <= sec < 2 ^ 31 -> - 2 ^ 31 <= nsec < 2 ^ 31 ->
  timespec_valid lhs = true -> timespec_valid rhs = true -> tv_sec lhs < 2 ^ 31 -> tv_sec rhs < 2 ^ 31 ->
  0 <= tv_nsec lhs < 2 ^ 31 -> 0 <= tv_nsec rhs < 2 ^ 31 ->
  - (2 ^ 31 * NSEC_PER_SEC) <= n < 2 ^ 31 * NSEC_PER_SEC ->
  set_normalized_timespec sec nsec =
    Some (mk_timespec (s32 (sec + nsec / NSEC_PER_SEC)) (nsec mod NSEC_PER_SEC)) /\
  (exists d, timespec_sub lhs rhs = Some d /\ 0 <= tv_nsec d < NSEC_PER_SEC /\
     timespec_to_ns d = timespec_to_ns lhs - timespec_to_ns rhs) /\
  exists ts, ns_to_timespec n = Some ts /\ 0 <= tv_nsec ts < NSEC_PER_SEC /\ timespec_to_ns ts = n.
Proof.
  intros Hs Hns Hl Hr ? ? ? ? Hn. split; [by apply set_normalized_eq|]. split.
  - unfold timespec_valid in *. bool_to_prop. unfold NSEC_PER_SEC in *. rewrite u32_small in * by (unfold is_u32; lia).
    unfold timespec_sub. rewrite !s32_small by lia. rewrite set_normalized_eq by lia. eexists. split; [done|].
    cbn [tv_nsec]. split; [apply nsec_mod|].
    unfold timespec_to_ns, NSEC_PER_SEC. cbn [tv_sec tv_nsec]. word_lia.
  - rewrite ns_to_timespec_eq by done. eexists. split; [done|]. cbn [tv_sec tv_nsec]. split; [apply nsec_mod|].
    unfold timespec_to_ns, NSEC_PER_SEC in *. cbn [tv_sec tv_nsec]. word_lia.
Qed.

Lemma timespec_normalization_witness :
  set_normalized_timespec 5 (-1500000000) = Some (mk_timespec 3 500000000) /\
  timespec_sub (mk_timespec 7 100) (mk_timespec 2 200) = Some (mk_timespec 4 999999900).
Proof.
  destruct (timespec_normalization 5 (-1500000000) (mk_timespec 7 100) (mk_timespec 2 200) (-1)) as (->&_&_);
    try (by vm_compute); by split.
Defined.

(** A valid timespec converts to the least number of ticks that covers it,
    from 10737418 seconds on to the same large number; ticks converted to a
    timespec convert back; a timeval also rounds up, but one tick too far when
    its microseconds are a positive multiple of the tick. *)
Theorem jiffies_conversions ts tv j :
  - 2 ^ 31 <= tv_sec ts < 2 ^ 31 -> 0 <= tv_nsec ts < NSEC_PER_SEC ->
  0 <= tvv_sec tv < MAX_SEC_IN_JIFFIES -> 0 <= tvv_usec tv < USEC_PER_SEC -> 0 <= j < 100 * MAX_SEC_IN_JIFFIES ->
  timespec_to_jiffies ts =
    (if (0 <=? tv_sec ts) && (tv_sec ts <? MAX_SEC_IN_JIFFIES)
     then (tv_sec ts * NSEC_PER_SEC + tv_nsec ts + TICK_NSEC - 1) / TICK_NSEC
     else 100 * MAX_SEC_IN_JIFFIES) /\
  (exists v, jiffies_to_timespec j = Some v /\ timespec_to_jiffies v = j /\
     tv_sec v * NSEC_PER_SEC + tv_nsec v = j * TICK_NSEC) /\
  timeval_to_jiffies tv =
    (tvv_sec tv * USEC_PER_SEC + tvv_usec tv + 9999) / 10000 +
      (if (tvv_usec tv =? 0) || negb (tvv_usec tv mod 10000 =? 0) then 0 else 1).
Proof.
  destruct clock_constants as (E1&_&_&E2&E3&E4&_&_&E5&_).
  intros Hs Hn Hvs Hvu Hj. split; [|split].
  - destruct (Z.leb_spec 0 (tv_sec ts)), (Z.ltb_spec (tv_sec ts) MAX_SEC_IN_JIFFIES); cbn [andb].
    + destruct ts as [s n]. cbn [tv_sec tv_nsec] in *. rewrite (timespec_to_jiffies_eq s n) by lia.
      rewrite E1. change NSEC_PER_SEC with (100 * 10000000). rewrite ceil_seconds by lia. do 2 f_equal. lia.
    + unfold timespec_to_jiffies. rewrite E5 in *. destruct (Z.leb_spec (u32 10737418) (u32 (tv_sec ts))) as [|Hb]; [done|].
      clear - Hb H0 Hs. word_lia.
    + unfold timespec_to_jiffies. rewrite E5 in *. destruct (Z.leb_spec (u32 10737418) (u32 (tv_sec ts))) as [|Hb]; [done|].
      clear - Hb H Hs. word_lia.
    + rewrite E5 in *. lia.
  - rewrite E5 in Hj. rewrite jiffies_to_timespec_eq by (unfold is_u32; lia). eexists. split; [done|].
    rewrite timespec_to_jiffies_eq by (rewrite ?E5; unfold NSEC_PER_SEC; word_lia). cbn [tv_sec tv_nsec]. rewrite E1.
    unfold NSEC_PER_SEC. split; word_lia.
  - destruct tv as [s u]. cbn [tvv_sec tvv_usec] in *. rewrite (timeval_to_jiffies_eq s u) by assumption. unfold USEC_PER_SEC in *.
    destruct (Z.eqb_spec u 0) as [->|]; cbn [orb]; [word_lia|]. destruct (Z.eqb_spec (u mod 10000) 0); cbn [negb]; word_lia.
Qed.

Lemma jiffies_conversions_witness :
  timespec_to_jiffies (mk_timespec 2 15000000) = 202 /\ timeval_to_jiffies (mk_timeval 2 10000) = 202.
Proof.
  destruct (jiffies_conversions (mk_timespec 2 15000000) (mk_timeval 2 10000) 5) as (->&_&->); by vm_compute.
Defined.

(** C40. Milliseconds and microseconds round up to ticks, negative milliseconds
    mean no timeout; the comparisons of tick counts that differ by less than
    2^31 are those of the unwrapped counts, across the wrap of the counter. *)
Theorem ticks_and_timeouts m u x y : is_u32 m -> is_u32 u -> - 2 ^ 31 < x - y < 2 ^ 31 ->
  msecs_to_jiffies m = (if m <? 2 ^ 31 then (m + 9) / 10 else MAX_JIFFY_OFFSET) /\
  usecs_to_jiffies u = (if u <=? 4294947296 then (u + 9999) / 10000 else MAX_JIFFY_OFFSET) /\
  (u <= 4294947296 -> u <= jiffies_to_usecs (usecs_to_jiffies u) < u + 10000) /\
  time_after (u32 x) (u32 y) = (y <? x) /\ time_before (u32 x) (u32 y) = (x <? y) /\
  time_after_eq (u32 x) (u32 y) = (y <=? x) /\ time_before_eq (u32 x) (u32 y) = (x <=? y).
Proof.
  intros Hm Hu Hxy. assert (Eu : usecs_to_jiffies u = if u <=? 4294947296 then (u + 9999) / 10000 else MAX_JIFFY_OFFSET).
  { unfold usecs_to_jiffies. replace (jiffies_to_usecs MAX_JIFFY_OFFSET) with 4294947296 by reflexivity.
    destruct (Z.ltb_spec 4294947296 u), (Z.leb_spec u 4294947296); try lia; try done.
    replace ((HZ <=? USEC_PER_SEC) && (USEC_PER_SEC mod HZ =? 0)) with true by reflexivity.
    replace (USEC_PER_SEC / HZ) with 10000 by reflexivity. clear - Hu H0. word_lia. }
  split; [|split; [done|split]].
  - unfold msecs_to_jiffies. replace ((HZ <=? MSEC_PER_SEC) && (MSEC_PER_SEC mod HZ =? 0)) with true by reflexivity.
    replace (MSEC_PER_SEC / HZ) with 10 by reflexivity. clear - Hm.
    assert (Hc : s32 m = if m <? 2 ^ 31 then m else m - 2 ^ 32) by (zcases; word_lia). rewrite Hc.
    unfold is_u32 in Hm. destruct (Z.ltb_spec m (2 ^ 31)).
    + destruct (Z.ltb_spec m 0); [lia|]. rewrite u32_small by (unfold is_u32; lia). f_equal. lia.
    + by destruct (Z.ltb_spec (m - 2 ^ 32) 0); [|lia].
  - intros Hle. rewrite Eu. destruct (Z.leb_spec u 4294947296); [|lia]. unfold jiffies_to_usecs.
    replace ((HZ <=? USEC_PER_SEC) && (USEC_PER_SEC mod HZ =? 0)) with true by reflexivity.
    replace (USEC_PER_SEC / HZ) with 10000 by reflexivity. clear - Hu Hle. word_lia.
  - clear - Hxy. unfold time_before, time_before_eq, time_after, time_after_eq.
    assert (Hd : forall a b, - 2 ^ 31 < a - b < 2 ^ 31 -> s32 (u32 a - u32 b) = a - b) by (intros; word_lia).
    rewrite !Hd by lia. zcases; try lia; done.
Qed.

Lemma ticks_and_timeouts_witness : msecs_to_jiffies 15 = 2 /\ usecs_to_jiffies 10001 = 2 /\ time_after (u32 (2 ^ 32 + 3)) (u32 4294967290) = true.
Proof.
  destruct (ticks_and_timeouts 15 10001 (2 ^ 32 + 3) 4294967290) as (->&->&_&->&_); by vm_compute.
Defined.

(** An exact number of ticks in microseconds becomes one tick more. *)
Lemma timeval_to_jiffies_exact_tick : timeval_to_jiffies (mk_timeval 0 10000) = 2 /\
  jiffies_to_timeval 1 = Some (mk_timeval 0 10000).
Proof. by vm_compute. Qed.

(** A finite timeout of 4294947297 microseconds is taken for infinite, although
    the next smaller one needs only 429495 ticks. *)
Lemma usecs_to_jiffies_saturates_early : usecs_to_jiffies 4294947297 = MAX_JIFFY_OFFSET /\
  usecs_to_jiffies 4294947296 = 429495 /\ 429495 < MAX_JIFFY_OFFSET.
Proof. by vm_compute. Qed.

Lemma sign_bit_clear_for_hz_100 :
  Z.land (Z.shiftl (Z.shiftl NSEC_PER_SEC 2 / TICK_NSEC) (31 - SHIFT_HZ - 2)) 0x80000000 = 0 /\ SEC_JIFFIE_SC = 32 - SHIFT_HZ.
Proof. by vm_compute. Qed.
