(* ===== verification/HeapOrder.v ===== *)
(** * Binary heaps in arrays

    Element [p] of an array has the children [2p+1] and [2p+2].  The order of
    the heap and the steps that keep it, for the heap sort (Sort.v) and for the
    priority heap (PrioHeap.v). *)

From S2P Require Import Prelude.

#[local] Open Scope nat_scope.

(** Exchange of two elements of a list. *)
Definition swapl {A} `{!Inhabited A} (l : list A) (a b : nat) : list A :=
  <[b := l !!! a]> (<[a := l !!! b]> l).

(** [l'] rearranges the first [n] elements of [l]. *)
Definition arranged {A} `{!Inhabited A} (n : nat) (l l' : list A) : Prop :=
  l' ≡ₚ l /\ (forall a, (n <= a)%nat -> l' !!! a = l !!! a) /\
  forall a, (a < n)%nat -> exists b, (b < n)%nat /\ l' !!! a = l !!! b.

Definition child (p c : nat) : Prop := (c = 2 * p + 1 \/ c = 2 * p + 2)%nat.

Section order.
  Context {A : Type} `{!Inhabited A} (ge : A -> A -> Prop).

(** Every parent from [lo] on is not below its children among the first [n]. *)
Definition heap (lo n : nat) (l : list A) : Prop :=
  forall p c, (lo <= p)%nat -> (c < n)%nat -> child p c -> ge (l !!! p) (l !!! c).

(** The same but at [r], whose children may only not exceed its parent. *)
Definition heap_but (lo n r : nat) (l : list A) : Prop :=
  (forall p c, (lo <= p)%nat -> (c < n)%nat -> child p c -> p <> r -> ge (l !!! p) (l !!! c)) /\
  (forall p c, (lo <= p)%nat -> (c < n)%nat -> child p r -> child r c -> ge (l !!! p) (l !!! c)).

(** The same but for the edge from the parent of [r] to [r]. *)
Definition heap_up (n r : nat) (l : list A) : Prop :=
  (forall p c, (c < n)%nat -> child p c -> c <> r -> ge (l !!! p) (l !!! c)) /\
  (forall p c, (c < n)%nat -> child p r -> child r c -> ge (l !!! p) (l !!! c)).

End order.

(** ** Exchanges and rearrangements *)

Lemma insert_lookup_if {A} (l : list A) i x k : (i < length l)%nat ->
  <[i := x]> l !! k = if (i =? k)%nat then Some x else l !! k.
Proof.
  intros. destruct (Nat.eqb_spec i k) as [->|].
  - by apply list_lookup_insert_eq.
  - by apply list_lookup_insert_ne.
Qed.

Lemma swapl_lookup {A} `{!Inhabited A} (l : list A) a b k : (a < length l)%nat -> (b < length l)%nat ->
  swapl l a b !!! k = if (k =? b)%nat then l !!! a else if (k =? a)%nat then l !!! b else l !!! k.
Proof.
  intros. unfold swapl. rewrite !list_lookup_total_alt, !insert_lookup_if by (rewrite ?length_insert; done).
  rewrite (Nat.eqb_sym k b), (Nat.eqb_sym k a). by destruct (b =? k)%nat, (a =? k)%nat.
Qed.

Lemma swapl_length {A} `{!Inhabited A} (l : list A) a b : length (swapl l a b) = length l.
Proof. unfold swapl. by rewrite !length_insert. Qed.

Lemma swapl_perm {A} `{!Inhabited A} (l : list A) a b : (a < length l)%nat -> (b < length l)%nat -> swapl l a b ≡ₚ l.
Proof.
  intros Ha Hb. destruct (lookup_lt_is_Some_2 l a Ha) as [x Hx], (lookup_lt_is_Some_2 l b Hb) as [y Hy].
  unfold swapl. rewrite (list_lookup_total_correct _ _ _ Hx), (list_lookup_total_correct _ _ _ Hy).
  by apply Permutation_insert_swap.
Qed.

Lemma arranged_refl {A} `{!Inhabited A} n (l : list A) : arranged n l l.
Proof. split; [done|]. split; [done|]. intros a Ha. by exists a. Qed.

Lemma arranged_trans {A} `{!Inhabited A} n (l1 l2 l3 : list A) : arranged n l1 l2 -> arranged n l2 l3 -> arranged n l1 l3.
Proof.
  intros (P1&O1&I1) (P2&O2&I2). split; [by etrans|]. split.
  - intros a Ha. by rewrite O2, O1.
  - intros a Ha. destruct (I2 a Ha) as (b&Hb&->). by apply I1.
Qed.

Lemma arranged_swapl {A} `{!Inhabited A} n (l : list A) a b :
  (a < n)%nat -> (b < n)%nat -> (n <= length l)%nat -> arranged n l (swapl l a b).
Proof.
  intros Ha Hb Hn. split; [apply swapl_perm; lia|]. split; intros k Hk; rewrite swapl_lookup by lia.
  - destruct (Nat.eqb_spec k b), (Nat.eqb_spec k a); try lia. done.
  - destruct (Nat.eqb_spec k b), (Nat.eqb_spec k a); eauto.
Qed.

Lemma arranged_length {A} `{!Inhabited A} n (l l' : list A) : arranged n l l' -> length l' = length l.
Proof. intros (P&_). by apply Permutation_length. Qed.

Section heap_order.
  Context {A : Type} `{!Inhabited A} (ge : A -> A -> Prop).
  Context (ge_refl : forall x, ge x x) (ge_trans : forall x y z, ge x y -> ge y z -> ge x z).

#[local] Abbreviation heap := (heap ge).
#[local] Abbreviation heap_but := (heap_but ge).
#[local] Abbreviation heap_up := (heap_up ge).

Lemma sift_step lo n r c l : (lo <= r)%nat -> (c < n)%nat -> (n <= length l)%nat -> child r c ->
  (forall d, (d < n)%nat -> child r d -> ge (l !!! c) (l !!! d)) -> ge (l !!! c) (l !!! r) ->
  heap_but lo n r l -> heap_but lo n c (swapl l r c).
Proof.
  intros Hlo Hc Hn Hrc Hbig Hcr [H1 H2]. assert (r < c)%nat by (unfold child in Hrc; lia).
  split; intros p x Hp Hx Hpx.
  - intros Hpc. rewrite !swapl_lookup by lia. destruct (Nat.eqb_spec p c); [done|].
    assert (x <> c \/ p = r) by (unfold child in *; lia).
    destruct (Nat.eqb_spec p r) as [->|Hpr].
    + destruct (Nat.eqb_spec x c); [done|]. destruct (Nat.eqb_spec x r); [unfold child in *; lia|]. by apply Hbig.
    + destruct (Nat.eqb_spec x c); [lia|]. destruct (Nat.eqb_spec x r) as [->|]; [by apply H2|by apply H1].
  - intros Hcx. assert (p = r) as -> by (unfold child in *; lia). rewrite !swapl_lookup by lia.
    rewrite Nat.eqb_refl. destruct (Nat.eqb_spec r c); [lia|].
    destruct (Nat.eqb_spec x c), (Nat.eqb_spec x r); try (unfold child in *; lia). apply H1; [lia|done|done|lia].
Qed.

(** The root of a heap is a maximum. *)
Lemma heap_max l n : heap 0 n l -> forall c, (c < n)%nat -> ge (l !!! 0%nat) (l !!! c).
Proof.
  intros Hh c. induction c as [c IH] using (well_founded_induction Wf_nat.lt_wf). intros Hc.
  destruct (Nat.eq_dec c 0%nat) as [->|Hne]; [apply ge_refl|].
  assert (Hp : exists p, child p c /\ (p < c)%nat).
  { exists ((c - 1) / 2)%nat. pose proof (Nat.div_mod (c - 1) 2 ltac:(lia)).
    pose proof (Nat.mod_upper_bound (c - 1) 2 ltac:(lia)). unfold child. lia. }
  destruct Hp as (p&Hp&Hpc). eapply ge_trans; [apply (IH p); lia|]. apply Hh; [lia|done|done].
Qed.

Lemma heap_after_swap l k : (0 < k)%nat -> (k < length l)%nat -> heap 0 (S k) l -> heap_but 0 k 0 (swapl l 0 k).
Proof.
  intros Hk0 Hk Hheap. split; intros p c Hp Hc Hpc; [|unfold child in Hpc; lia].
  intros Hne. rewrite !swapl_lookup by lia. assert (p < c)%nat by (unfold child in Hpc; lia).
  destruct (Nat.eqb_spec p k), (Nat.eqb_spec c k), (Nat.eqb_spec p 0), (Nat.eqb_spec c 0); try lia.
  apply Hheap; [lia|lia|done].
Qed.

(** One step up. *)
Lemma sift_up_step n q r l : (r < n)%nat -> (n <= length l)%nat -> child q r -> ge (l !!! r) (l !!! q) ->
  heap_up n r l -> heap_up n q (swapl l q r).
Proof.
  intros Hr Hn Hqr Hge [H1 H2]. assert (q < r)%nat by (unfold child in Hqr; lia).
  split; intros p x Hx Hpx.
  - intros Hxq. rewrite !swapl_lookup by lia. destruct (Nat.eqb_spec x r) as [->|Hxr].
    + assert (p = q) as -> by (unfold child in *; lia). destruct (Nat.eqb_spec q r); [lia|]. by rewrite Nat.eqb_refl.
    + destruct (Nat.eqb_spec x q); [done|]. destruct (Nat.eqb_spec p r) as [->|]; [by apply H2|].
      destruct (Nat.eqb_spec p q) as [->|]; [|by apply H1]. eapply ge_trans; [done|by apply H1].
  - intros Hqx. rewrite !swapl_lookup by lia. assert (p < q)%nat by (unfold child in *; lia).
    destruct (Nat.eqb_spec p r), (Nat.eqb_spec p q); try lia.
    assert (ge (l !!! p) (l !!! q)) by (apply H1; [lia|done|lia]).
    destruct (Nat.eqb_spec x r) as [->|]; [done|]. destruct (Nat.eqb_spec x q); [unfold child in *; lia|].
    eapply ge_trans; [done|]. by apply H1.
Qed.

Lemma heap_of_up n r l : heap_up n r l -> (forall q, child q r -> (r < n)%nat -> ge (l !!! q) (l !!! r)) -> heap 0 n l.
Proof.
  intros [H1 H2] Hr p c _ Hc Hpc. destruct (Nat.eq_dec c r) as [->|]; [by apply Hr|by apply H1].
Qed.

Lemma heap_of_but n r l : heap_but 0 n r l -> (forall c, child r c -> (c < n)%nat -> ge (l !!! r) (l !!! c)) -> heap 0 n l.
Proof.
  intros [H1 H2] Hr p c _ Hc Hpc. destruct (Nat.eq_dec p r) as [->|]; [by apply Hr|apply H1; auto with lia].
Qed.

End heap_order.
