(* ===== verification/Sort.v ===== *)
(** * Heap sort of arrays in memory (lib/sort.c)

    The array is an object of bytes; the comparison and the exchange are
    parameters, as in the code.  Counters are [int]s, mixed with [size_t]
    the way the C conversions do. *)

From S2P Require Import Prelude HeapOrder.

#[local] Open Scope Z_scope.

(** The [size] bytes at [off]. *)
Definition elem (mem : list Z) (size off : Z) : option (list Z) :=
  if (0 <=? off) && (off + size <=? zlen mem) then Some (slice off size mem) else None.
Definition store (mem : list Z) (off : Z) (v : list Z) : option (list Z) :=
  if (0 <=? off) && (off + zlen v <=? zlen mem) then Some (blit mem off v 0 (zlen v)) else None.

Definition u32_swap (mem : list Z) (a b size : Z) : option (list Z) :=
  t ← elem mem 4 a;
  v ← elem mem 4 b;
  mem ← store mem a v;
  store mem b t.

Fixpoint generic_swap_loop (fuel : nat) (mem : list Z) (a b size : Z) : option (list Z) :=
  match fuel with
  | O => None
  | S fuel =>
    t ← rd mem a;
    v ← rd mem b;
    mem ← wr mem a v;
    mem ← wr mem b t;
    if 0 <? size - 1 then generic_swap_loop fuel mem (a + 1) (b + 1) (size - 1) else Some mem
  end.
Definition generic_swap (mem : list Z) (a b size : Z) : option (list Z) :=
  generic_swap_loop (S (Z.to_nat size)) mem a b size.

Section sort.
  Context (cmp : list Z -> list Z -> Z).

Definition compare (mem : list Z) (size a b : Z) : option Z :=
  x ← elem mem size a;
  y ← elem mem size b;
  Some (cmp x y).

(** The inner loop, which both phases contain: the element at [r] sinks in the
    heap of the first [n] bytes. *)
Fixpoint sift (fuel : nat) (swap : list Z -> Z -> Z -> Z -> option (list Z)) (mem : list Z) (size n r : Z) : option (list Z) :=
  match fuel with
  | O => None
  | S fuel =>
    if u32 (r * 2 + size) <? u32 n then
      let c := s32 (r * 2 + size) in
      c ← (if u32 c <? u32 (n - size) then
             d ← compare mem size c (c + size);
             Some (if d <? 0 then s32 (c + size) else c)
           else Some c);
      d ← compare mem size r c;
      if 0 <=? d then Some mem
      else mem ← swap mem r c size; sift fuel swap mem size n c
    else Some mem
  end.

Fixpoint heapify_loop (fuel : nat) (swap : list Z -> Z -> Z -> Z -> option (list Z)) (mem : list Z) (size n i : Z) : option (list Z) :=
  match fuel with
  | O => None
  | S fuel =>
    if 0 <=? i then
      mem ← sift (S (Z.to_nat n)) swap mem size n i;
      heapify_loop fuel swap mem size n (s32 (i - size))
    else Some mem
  end.

Fixpoint sort_loop (fuel : nat) (swap : list Z -> Z -> Z -> Z -> option (list Z)) (mem : list Z) (size i : Z) : option (list Z) :=
  match fuel with
  | O => None
  | S fuel =>
    if 0 <? i then
      mem ← swap mem 0 i size;
      mem ← sift (S (Z.to_nat i)) swap mem size i 0;
      sort_loop fuel swap mem size (s32 (i - size))
    else Some mem
  end.

Definition sort (base : list Z) (num size : Z) (swap : option (list Z -> Z -> Z -> Z -> option (list Z))) : option (list Z) :=
  let i := s32 (u32 (num / 2 - 1) * size) in
  let n := s32 (num * size) in
  let swap := match swap with Some f => f | None => if size =? 4 then u32_swap else generic_swap end in
  base ← heapify_loop (S (Z.to_nat num)) swap base size n i;
  sort_loop (S (Z.to_nat num)) swap base size (s32 (n - size)).

End sort.

(** ** Elements of an array *)

Section elements.
  Context (size : Z) (Hsize : 0 < size).

Definition array (l : list (list Z)) : Prop := Forall (fun x => zlen x = size) l.

Lemma length_concat_array l : array l -> zlen (concat l) = zlen l * size.
Proof. induction 1 as [|x l Hx Hl IH]; [done|]. simpl. rewrite length_app. lia. Qed.

Lemma concat_split l k : array l -> (k <= length l)%nat ->
  take (k * Z.to_nat size) (concat l) = concat (take k l) /\ drop (k * Z.to_nat size) (concat l) = concat (drop k l).
Proof.
  intros Hl Hk. assert (Hlen : length (concat (take k l)) = (k * Z.to_nat size)%nat).
  { pose proof (length_concat_array (take k l)) as H. rewrite length_take in H.
    rewrite Nat2Z.inj_min in H. specialize (H (Forall_take _ _ _ Hl)). nia. }
  assert (E : concat l = concat (take k l) ++ concat (drop k l)) by (by rewrite <- concat_app, take_drop).
  rewrite E, <- Hlen. split; [apply take_app_length|apply drop_app_length].
Qed.

Lemma elem_concat l k : array l -> (k < length l)%nat -> elem (concat l) size (Z.of_nat k * size) = Some (l !!! k).
Proof.
  intros Hl Hk. unfold elem. rewrite length_concat_array by done.
  destruct (Z.leb_spec 0 (Z.of_nat k * size)); [|lia]. destruct (Z.leb_spec (Z.of_nat k * size + size) (zlen l * size)); [|nia].
  cbn [andb]. f_equal. unfold slice. replace (Z.to_nat (Z.of_nat k * size)) with (k * Z.to_nat size)%nat by lia.
  rewrite (proj2 (concat_split l k Hl ltac:(lia))).
  destruct (lookup_lt_is_Some_2 l k Hk) as [x Hx]. rewrite (drop_S l x k Hx). simpl.
  rewrite (list_lookup_total_correct _ _ _ Hx). assert (Hlx : zlen x = size) by (by eapply (Forall_lookup_1 _ _ _ _ Hl)).
  rewrite take_app_le by lia. rewrite take_ge by lia. done.
Qed.

Lemma store_concat l k x : array l -> (k < length l)%nat -> zlen x = size ->
  store (concat l) (Z.of_nat k * size) x = Some (concat (<[k := x]> l)).
Proof.
  intros Hl Hk Hx. unfold store. rewrite length_concat_array by done. rewrite Hx.
  destruct (Z.leb_spec 0 (Z.of_nat k * size)); [|lia]. destruct (Z.leb_spec (Z.of_nat k * size + size) (zlen l * size)); [|nia].
  cbn [andb]. f_equal. unfold blit, slice. change (drop (Z.to_nat 0) x) with x. rewrite (take_ge x) by lia.
  replace (Z.to_nat (Z.of_nat k * size)) with (k * Z.to_nat size)%nat by lia.
  replace (Z.to_nat (Z.of_nat k * size + size)) with (S k * Z.to_nat size)%nat by lia.
  rewrite (proj1 (concat_split l k Hl ltac:(lia))), (proj2 (concat_split l (S k) Hl ltac:(lia))).
  rewrite insert_take_drop by done. by rewrite concat_app.
Qed.

Lemma array_insert l k x : array l -> zlen x = size -> array (<[k := x]> l).
Proof. intros. by apply Forall_insert. Qed.

Lemma array_lookup l k : array l -> (k < length l)%nat -> zlen (l !!! k) = size.
Proof.
  intros Hl Hk. destruct (lookup_lt_is_Some_2 l k Hk) as [x Hx]. rewrite (list_lookup_total_correct _ _ _ Hx).
  by eapply (Forall_lookup_1 _ _ _ _ Hl).
Qed.

Lemma swapl_array l a b : array l -> (a < length l)%nat -> (b < length l)%nat -> array (swapl l a b).
Proof. intros. unfold swapl. apply array_insert; [apply array_insert; [done|]|]; by apply array_lookup. Qed.

End elements.

(** ** The exchanges *)

Lemma generic_swap_loop_spec s : forall fuel mem A B, (0 < s)%nat -> (s <= fuel)%nat ->
  (A + s <= length mem)%nat -> (B + s <= length mem)%nat -> (A = B \/ A + s <= B \/ B + s <= A)%nat ->
  exists mem', generic_swap_loop fuel mem (Z.of_nat A) (Z.of_nat B) (Z.of_nat s) = Some mem' /\ length mem' = length mem /\
    (forall k, (k < s)%nat -> mem' !! (A + k)%nat = mem !! (B + k)%nat) /\
    (forall k, (k < s)%nat -> mem' !! (B + k)%nat = mem !! (A + k)%nat) /\
    (forall k, ~ (A <= k < A + s)%nat -> ~ (B <= k < B + s)%nat -> mem' !! k = mem !! k).
Proof.
  induction s as [|s IH]; intros fuel mem A B Hs Hfuel HA HB Hdis; [lia|].
  destruct fuel as [|fuel]; [lia|]. cbn [generic_swap_loop].
  destruct (lookup_lt_is_Some_2 mem A ltac:(lia)) as [x Hx], (lookup_lt_is_Some_2 mem B ltac:(lia)) as [y Hy].
  rewrite !rd_nat, Hx, Hy, !some_bind. rewrite wr_Some, some_bind by lia. rewrite Nat2Z.id.
  rewrite wr_Some, some_bind by (rewrite length_insert; lia). rewrite Nat2Z.id.
  set (mem1 := <[B := x]> (<[A := y]> mem)).
  assert (Hlen : length mem1 = length mem) by (unfold mem1; by rewrite !length_insert).
  assert (HB1 : mem1 !! B = mem !! A) by (rewrite Hx; apply list_lookup_insert_eq; rewrite length_insert; lia).
  assert (HA1 : mem1 !! A = mem !! B).
  { rewrite Hy. unfold mem1. destruct (Nat.eq_dec A B) as [->|Hne].
    - rewrite list_lookup_insert_eq by (rewrite length_insert; lia). congruence.
    - rewrite list_lookup_insert_ne by done. apply list_lookup_insert_eq. lia. }
  assert (Hk1 : forall k, k <> A -> k <> B -> mem1 !! k = mem !! k)
    by (intros k ? ?; unfold mem1; by rewrite !list_lookup_insert_ne by done).
  clearbody mem1. destruct (Z.ltb_spec 0 (Z.of_nat (S s) - 1)) as [Hlt|Hge].
  - replace (Z.of_nat A + 1) with (Z.of_nat (S A)) by lia. replace (Z.of_nat B + 1) with (Z.of_nat (S B)) by lia.
    replace (Z.of_nat (S s) - 1) with (Z.of_nat s) by lia.
    destruct (IH fuel mem1 (S A) (S B)) as (mem'&E&Hl'&H1&H2&H3); try lia. exists mem'. split; [done|]. split; [lia|].
    split; [|split].
    + intros [|k] Hk; rewrite ?Nat.add_0_r; [rewrite H3 by lia; done|].
      replace (A + S k)%nat with (S A + k)%nat by lia. rewrite H1 by lia. rewrite Hk1 by lia. f_equal. lia.
    + intros [|k] Hk; rewrite ?Nat.add_0_r; [rewrite H3 by lia; done|].
      replace (B + S k)%nat with (S B + k)%nat by lia. rewrite H2 by lia. rewrite Hk1 by lia. f_equal. lia.
    + intros k HkA HkB. rewrite H3 by lia. apply Hk1; lia.
  - assert (s = 0)%nat as -> by lia. exists mem1. split; [done|]. split; [done|].
    split; [|split]; intros k Hk; [| |intros Hk2; apply Hk1; lia]; assert (k = 0)%nat as -> by lia; by rewrite !Nat.add_0_r.
Qed.

Section swaps.
  Context (size : Z) (Hsize : 0 < size).

(** What the sort needs of its exchange function. *)
Definition swap_ok (swap : list Z -> Z -> Z -> Z -> option (list Z)) : Prop :=
  forall l a b, array size l -> (a < length l)%nat -> (b < length l)%nat ->
    swap (concat l) (Z.of_nat a * size) (Z.of_nat b * size) size = Some (concat (swapl l a b)).

Lemma u32_swap_ok : size = 4 -> swap_ok u32_swap.
Proof.
  intros H4 l a b Hl Ha Hb. unfold u32_swap. rewrite <- H4.
  rewrite !elem_concat, !some_bind by done. rewrite store_concat, some_bind; try done; [|by apply array_lookup].
  rewrite store_concat; [done|done|..].
  - apply array_insert; [done|by apply array_lookup].
  - by rewrite length_insert.
  - by apply array_lookup.
Qed.

(** An element read by bytes. *)
Lemma concat_lookup l k j : array size l -> (k < length l)%nat -> (j < Z.to_nat size)%nat ->
  concat l !! (k * Z.to_nat size + j)%nat = (l !!! k) !! j.
Proof.
  intros Hl Hk Hj. pose proof (elem_concat size Hsize l k Hl Hk) as E. unfold elem in E.
  destruct (_ && _); [|done]. injection E as <-. rewrite lookup_slice by lia. f_equal. lia.
Qed.

Lemma generic_swap_ok : swap_ok generic_swap.
Proof.
  intros l a b Hl Ha Hb. unfold generic_swap. pose proof (length_concat_array size l Hl) as Hlen.
  set (s := Z.to_nat size). assert (Hs : size = Z.of_nat s) by lia.
  replace (Z.of_nat a * size) with (Z.of_nat (a * s)) by lia. replace (Z.of_nat b * size) with (Z.of_nat (b * s)) by lia.
  rewrite Hs. assert (Hlen' : length (concat l) = (length l * s)%nat) by lia.
  destruct (generic_swap_loop_spec s (S s) (concat l) (a * s) (b * s)) as (mem'&E&Hl'&H1&H2&H3); [lia|lia|nia|nia| |].
  { destruct (Nat.lt_total a b) as [|[->|]]; [right; left; nia|by left|right; right; nia]. }
  rewrite E. f_equal. apply list_eq. intros k.
  pose proof (swapl_array size l a b Hl Ha Hb) as Hsw. pose proof (length_concat_array size _ Hsw) as Hlsw.
  rewrite swapl_length in Hlsw.
  destruct (Nat.ltb_spec k (length (concat l))) as [Hin|Hout].
  2: { rewrite !lookup_ge_None_2 by lia. done. }
  assert (Hq : exists q r, k = (q * s + r)%nat /\ (r < s)%nat /\ (q < length l)%nat).
  { exists (k / s)%nat, (k mod s)%nat. pose proof (Nat.div_mod k s ltac:(lia)).
    pose proof (Nat.mod_upper_bound k s ltac:(lia)). split; [lia|]. split; [done|]. apply Nat.Div0.div_lt_upper_bound. lia. }
  destruct Hq as (q&r&->&Hr&Hq). rewrite (concat_lookup (swapl l a b)) by (rewrite ?swapl_length; done).
  rewrite swapl_lookup by done. destruct (Nat.eqb_spec q b) as [->|Hqb].
  - rewrite H2 by done. by apply concat_lookup.
  - destruct (Nat.eqb_spec q a) as [->|Hqa].
    + rewrite H1 by done. by apply concat_lookup.
    + rewrite H3 by nia. by apply concat_lookup.
Qed.

End swaps.

(** ** The sift *)

Section heap.
  Context (cmp : list Z -> list Z -> Z).
  Context (cmp_total : forall x y, cmp x y < 0 -> 0 <= cmp y x).
  Context (cmp_trans : forall x y z, 0 <= cmp x y -> 0 <= cmp y z -> 0 <= cmp x z).
  Context (size : Z) (Hsize : 0 < size) (swap : list Z -> Z -> Z -> Z -> option (list Z)) (Hswap : swap_ok size swap).

#[local] Abbreviation ge := (fun x y => 0 <= cmp x y).
#[local] Abbreviation heap := (heap ge).
#[local] Abbreviation heap_but := (heap_but ge).

Lemma compare_concat l a b : array size l -> (a < length l)%nat -> (b < length l)%nat ->
  compare cmp (concat l) size (Z.of_nat a * size) (Z.of_nat b * size) = Some (cmp (l !!! a) (l !!! b)).
Proof. intros. unfold compare. rewrite !elem_concat, !some_bind by done. done. Qed.

Lemma cmp_refl x : ge x x.
Proof. destruct (Z.leb_spec 0 (cmp x x)) as [|H]; [done|by apply cmp_total]. Qed.

(** The larger child, as the loop chooses it. *)
Lemma larger_child l n r : array size l -> (n <= length l)%nat -> Z.of_nat n * size < 2 ^ 31 -> (2 * r + 1 < n)%nat ->
  exists c, (if u32 (Z.of_nat (2 * r + 1) * size) <? u32 (Z.of_nat n * size - size) then
             d ← compare cmp (concat l) size (Z.of_nat (2 * r + 1) * size) (Z.of_nat (2 * r + 1) * size + size);
             Some (if d <? 0 then s32 (Z.of_nat (2 * r + 1) * size + size) else Z.of_nat (2 * r + 1) * size)
           else Some (Z.of_nat (2 * r + 1) * size)) = Some (Z.of_nat c * size) /\ (c < n)%nat /\ child r c /\
           forall d, (d < n)%nat -> child r d -> ge (l !!! c) (l !!! d).
Proof.
  intros Hl Hn Hmax Hc1. assert (Z.of_nat (2 * r + 1) * size + size <= Z.of_nat n * size) by nia.
  rewrite !u32_small by (unfold is_u32; nia). replace (Z.of_nat n * size - size) with (Z.of_nat (n - 1) * size) by nia.
  replace (Z.of_nat (2 * r + 1) * size + size) with (Z.of_nat (2 * r + 2) * size) in * by lia.
  destruct (Z.ltb_spec (Z.of_nat (2 * r + 1) * size) (Z.of_nat (n - 1) * size)).
  - assert (2 * r + 2 < n)%nat by nia. rewrite compare_concat, some_bind by (done || lia).
    rewrite s32_small by nia. destruct (Z.ltb_spec (cmp (l !!! (2 * r + 1)%nat) (l !!! (2 * r + 2)%nat)) 0).
    + exists (2 * r + 2)%nat. do 2 (split; [done|]). split; [by right|]. intros d Hd [->| ->]; [by apply cmp_total|apply cmp_refl].
    + exists (2 * r + 1)%nat. do 2 (split; [done|]). split; [by left|]. intros d Hd [->| ->]; [apply cmp_refl|done].
  - exists (2 * r + 1)%nat. do 2 (split; [done|]). split; [by left|]. intros d Hd [->| ->]; [apply cmp_refl|nia].
Qed.

Lemma sift_spec fuel : forall l r lo n, array size l -> (n <= length l)%nat -> Z.of_nat n * size < 2 ^ 31 ->
  (lo <= r)%nat -> (r < n)%nat -> (n - r <= fuel)%nat -> heap_but lo n r l ->
  exists l', sift cmp fuel swap (concat l) size (Z.of_nat n * size) (Z.of_nat r * size) = Some (concat l') /\
    array size l' /\ arranged n l l' /\ heap lo n l'.
Proof.
  induction fuel as [|fuel IH]; intros l r lo n Hl Hn Hmax Hlo Hr Hfuel Hheap; [lia|].
  cbn [sift]. replace (Z.of_nat r * size * 2 + size) with (Z.of_nat (2 * r + 1) * size) by lia.
  assert (Hlen : Z.of_nat (2 * r + 1) * size < 2 ^ 32) by nia.
  cbv zeta. rewrite (u32_small (Z.of_nat (2 * r + 1) * size)) by (unfold is_u32; nia).
  rewrite (u32_small (Z.of_nat n * size)) by (unfold is_u32; nia).
  destruct (Z.ltb_spec (Z.of_nat (2 * r + 1) * size) (Z.of_nat n * size)) as [Hlt|Hge].
  2: { exists l. split; [done|]. split; [done|]. split; [apply arranged_refl|].
       intros p c Hp Hc Hpc. apply (proj1 Hheap); try done. intros ->. unfold child in Hpc. nia. }
  assert (Hc1 : (2 * r + 1 < n)%nat) by nia. rewrite (s32_small (Z.of_nat (2 * r + 1) * size)) by nia.
  destruct (larger_child l n r Hl Hn Hmax Hc1) as (c&->&Hcn&Hrc&Hbig).
  rewrite some_bind, compare_concat, some_bind by (done || lia).
  destruct (Z.leb_spec 0 (cmp (l !!! r) (l !!! c))) as [Hok|Hbad].
  - exists l. split; [done|]. split; [done|]. split; [apply arranged_refl|].
    intros p d Hp Hd Hpd. destruct (Nat.eq_dec p r) as [->|]; [|by apply (proj1 Hheap)]. eapply cmp_trans; [done|by apply Hbig].
  - rewrite Hswap by (done || lia). rewrite some_bind. assert (r < c)%nat by (unfold child in Hrc; lia).
    destruct (IH (swapl l r c) c lo n) as (l'&E&Ha&Harr&Hh); try lia.
    + apply swapl_array; [done|lia|lia].
    + by rewrite swapl_length.
    + apply sift_step; try done. by apply cmp_total.
    + exists l'. split; [done|]. split; [done|]. split; [|done].
      eapply arranged_trans; [|done]. apply arranged_swapl; lia.
Qed.

Lemma heapify_spec fuel : forall l k n, array size l -> n = length l -> Z.of_nat n * size < 2 ^ 31 ->
  (k <= fuel)%nat -> (2 * k <= n)%nat -> heap k n l ->
  exists l', heapify_loop cmp (S fuel) swap (concat l) size (Z.of_nat n * size) ((Z.of_nat k - 1) * size) = Some (concat l') /\
    array size l' /\ l' ≡ₚ l /\ heap 0 n l'.
Proof.
  induction fuel as [|fuel IH]; intros l k n Hl Hlen Hmax Hf Hk Hheap.
  - assert (k = 0)%nat as -> by lia. exists l. cbn [heapify_loop]. destruct (Z.leb_spec 0 ((Z.of_nat 0 - 1) * size)); [lia|]. done.
  - remember (S fuel) as f. cbn [heapify_loop]. destruct (Z.leb_spec 0 ((Z.of_nat k - 1) * size)).
    2: { exists l. assert (k = 0)%nat as -> by nia. done. }
    assert (1 <= k)%nat by nia. replace (Z.of_nat k - 1) with (Z.of_nat (k - 1)) by lia.
    assert (Hb : heap_but (k - 1) n (k - 1) l).
    { split; intros p c Hp Hc Hpc; [intros Hne; apply Hheap; [lia|done|done]|unfold child in Hpc; lia]. }
    destruct (sift_spec (S (Z.to_nat (Z.of_nat n * size))) l (k - 1) (k - 1) n) as (l1&->&Ha&Harr&Hh); try done; try lia; try nia.
    rewrite some_bind. rewrite s32_small by nia. pose proof (arranged_length _ _ _ Harr) as Hlen1.
    subst f. replace (Z.of_nat (k - 1) * size - size) with ((Z.of_nat (k - 1) - 1) * size) by lia.
    destruct (IH l1 (k - 1)%nat n) as (l'&E&?&Hp&?); try done; try lia.
    exists l'. split; [done|]. split; [done|]. split; [|done]. rewrite Hp. apply Harr.
Qed.

(** The tail from [k] on is in order and not below the elements before it. *)
Definition tail_sorted (k : nat) (l : list (list Z)) : Prop :=
  forall a b, (a < b)%nat -> (k <= b)%nat -> (b < length l)%nat -> ge (l !!! b) (l !!! a).

(** One turn of the second phase moves the maximum behind the heap. *)
Lemma extract_max l l2 k : (0 < k)%nat -> (k < length l)%nat -> heap 0 (S k) l -> tail_sorted (S k) l ->
  arranged k (swapl l 0 k) l2 -> tail_sorted k l2.
Proof.
  intros Hk0 Hk Hheap Htail Harr. pose proof (arranged_length _ _ _ Harr) as Hlen. rewrite swapl_length in Hlen.
  destruct Harr as (_&Hout&Hin).
  assert (Hlk : forall x, swapl l 0 k !!! x = if (x =? k)%nat then l !!! 0%nat else if (x =? 0)%nat then l !!! k else l !!! x)
    by (intros x; apply swapl_lookup; lia).
  assert (Hlow : forall a, (a < k)%nat -> exists x, (x <= k)%nat /\ l2 !!! a = l !!! x).
  { intros a Ha. destruct (Hin a Ha) as (x&Hx&->). rewrite Hlk.
    destruct (Nat.eqb_spec x k); [lia|]. destruct (x =? 0)%nat; [exists k|exists x]; (split; [lia|done]). }
  assert (Hhigh : forall x, (k < x)%nat -> l2 !!! x = l !!! x).
  { intros x Hx. rewrite Hout, Hlk by lia. destruct (Nat.eqb_spec x k), (Nat.eqb_spec x 0); try lia. done. }
  assert (Hmid : l2 !!! k = l !!! 0%nat) by (rewrite Hout, Hlk by lia; by rewrite Nat.eqb_refl).
  intros a b Hab Hb Hbl. destruct (Nat.eq_dec b k) as [->|Hbk].
  - destruct (Hlow a Hab) as (x&Hx&->). rewrite Hmid. apply (heap_max ge cmp_refl cmp_trans l (S k)); [done|lia].
  - rewrite (Hhigh b) by lia. destruct (Nat.lt_total a k) as [Hak|[->|Hak]].
    + destruct (Hlow a Hak) as (x&Hx&->). apply Htail; lia.
    + rewrite Hmid. apply Htail; lia.
    + rewrite Hhigh by done. apply Htail; lia.
Qed.

Lemma sort_loop_spec fuel : forall l k, array size l -> (k < length l)%nat -> Z.of_nat (length l) * size < 2 ^ 31 ->
  (k <= fuel)%nat -> heap 0 (S k) l -> tail_sorted (S k) l ->
  exists l', sort_loop cmp (S fuel) swap (concat l) size (Z.of_nat k * size) = Some (concat l') /\
    array size l' /\ l' ≡ₚ l /\ tail_sorted 0 l'.
Proof.
  assert (Hend : forall l, tail_sorted 1 l -> tail_sorted 0 l) by (intros l Ht a b Hab _ Hb; apply Ht; lia).
  induction fuel as [|fuel IH]; intros l k Hl Hk Hmax Hf Hheap Htail.
  { exists l. assert (k = 0)%nat as -> by lia. cbn [sort_loop]. destruct (Z.ltb_spec 0 (Z.of_nat 0 * size)); [lia|]. auto. }
  remember (S fuel) as f. cbn [sort_loop]. destruct (Z.ltb_spec 0 (Z.of_nat k * size)).
  2: { exists l. assert (k = 0)%nat as -> by nia. auto. }
  assert (1 <= k)%nat by nia.
  pose proof (Hswap l 0%nat k Hl ltac:(lia) ltac:(lia)) as Hsw. rewrite Nat2Z.inj_0, Z.mul_0_l in Hsw. rewrite Hsw, some_bind.
  destruct (sift_spec (S (Z.to_nat (Z.of_nat k * size))) (swapl l 0 k) 0%nat 0%nat k) as (l2&E&Hl2&Harr&Hh); try done; try lia; try nia.
  { apply swapl_array; [done|lia|lia]. }
  { rewrite swapl_length. lia. }
  { apply heap_after_swap; [lia|done|done]. }
  rewrite Nat2Z.inj_0, Z.mul_0_l in E. rewrite E, some_bind, s32_small by nia. subst f.
  replace (Z.of_nat k * size - size) with (Z.of_nat (k - 1) * size) by nia.
  pose proof (arranged_length _ _ _ Harr) as Hlen2. rewrite swapl_length in Hlen2.
  destruct (IH l2 (k - 1)%nat) as (l'&E'&?&Hp'&?); try done; try lia.

  - by replace (S (k - 1)) with k by lia.
  - replace (S (k - 1)) with k by lia. by apply (extract_max l).
  - exists l'. split; [done|]. split; [done|]. split; [|done]. rewrite Hp'. destruct Harr as [-> _]. apply swapl_perm; lia.
Qed.

End heap.

(** The exchange function that [sort] uses: the caller's, or one of its own. *)
Definition swap_given (size : Z) (swap : option (list Z -> Z -> Z -> Z -> option (list Z))) : Prop :=
  match swap with Some f => swap_ok size f | None => True end.

Lemma sort_swap_ok size swap : 0 < size -> swap_given size swap ->
  swap_ok size (match swap with Some f => f | None => if size =? 4 then u32_swap else generic_swap end).
Proof.
  intros Hs. destruct swap as [f|]; [done|]. intros _.
  destruct (Z.eqb_spec size 4); [by apply u32_swap_ok|by apply generic_swap_ok].
Qed.

(** The counter of the first loop starts at the last parent, or below zero. *)
Lemma sort_start n size : 0 < size < 2 ^ 31 -> Z.of_nat n * size < 2 ^ 31 ->
  s32 (u32 (Z.of_nat n / 2 - 1) * size) = (Z.of_nat (n / 2) - 1) * size.
Proof.
  intros Hs Hn. rewrite Nat2Z.inj_div. change (Z.of_nat 2) with 2.
  assert (Hh : 0 <= Z.of_nat n / 2 /\ 2 * (Z.of_nat n / 2) <= Z.of_nat n) by (Z.to_euclidean_division_equations; lia).
  destruct (Z.eq_dec (Z.of_nat n / 2) 0) as [->|].
  - replace (u32 (0 - 1)) with (2 ^ 32 - 1) by done. unfold s32.
    replace ((2 ^ 32 - 1) * size + 2 ^ 31) with (2 ^ 31 - size + size * 2 ^ 32) by lia. rewrite Z.mod_add by lia.
    rewrite Z.mod_small by lia. lia.
  - rewrite u32_small by (unfold is_u32; nia). apply s32_small. nia.
Qed.

(** C21. The sort terminates and works in place: on an array of elements of
    [size] bytes with a comparison that is a total preorder, with the caller's
    exchange function or one of the two built-in ones, it leaves a permutation
    of the elements in ascending order and touches nothing outside the array. *)
Theorem sort_sorts cmp size l swap :
  (forall x y, cmp x y < 0 -> 0 <= cmp y x) ->
  (forall x y z, 0 <= cmp x y -> 0 <= cmp y z -> 0 <= cmp x z) ->
  0 < size < 2 ^ 31 -> array size l -> zlen l * size < 2 ^ 31 -> swap_given size swap ->
  exists l', sort cmp (concat l) (zlen l) size swap = Some (concat l') /\
    array size l' /\ l' ≡ₚ l /\ forall a b, (a < b < length l')%nat -> 0 <= cmp (l' !!! b) (l' !!! a).
Proof.
  intros Htot Htr Hsize Hl Hmax Hsw. unfold sort. pose proof (sort_swap_ok size swap ltac:(lia) Hsw) as Hok.
  set (sw := match swap with Some _ => _ | None => _ end) in *.
  rewrite sort_start by done. rewrite (s32_small (zlen l * size)) by nia. rewrite Nat2Z.id.
  destruct (heapify_spec cmp Htot Htr size ltac:(lia) sw Hok (length l) l (length l / 2) (length l)) as (l1&->&Hl1&Hp1&Hh1);
    try done.
  { apply Nat.Div0.div_le_upper_bound. lia. }
  { apply Nat.Div0.mul_div_le. }
  { intros p c Hp Hc Hpc. assert (length l < 2 * (length l / 2) + 2)%nat
      by (pose proof (Nat.div_mod (length l) 2 ltac:(lia)); pose proof (Nat.mod_upper_bound (length l) 2 ltac:(lia)); lia).
    unfold child in Hpc. lia. }
  rewrite some_bind. pose proof (Permutation_length Hp1) as Hlen1.
  destruct (Nat.eq_dec (length l) 0%nat) as [H0|H0].
  - rewrite H0. rewrite s32_small by lia. exists l1. cbn [sort_loop].
    destruct (Z.ltb_spec 0 (Z.of_nat 0 * size - size)); [lia|]. do 3 (split; [done|]). lia.
  - replace (zlen l * size - size) with (Z.of_nat (length l - 1) * size) by nia. rewrite s32_small by nia.
    destruct (sort_loop_spec cmp Htot Htr size ltac:(lia) sw Hok (length l) l1 (length l - 1)) as (l'&->&Hl'&Hp'&Hs');
      try done; try lia.

    { by replace (S (length l - 1)) with (length l) by lia. }
    { intros a b Hab Hb Hbl. lia. }
    exists l'. do 2 (split; [done|]). split; [by rewrite Hp'|]. intros a b Hab. apply Hs'; lia.
Qed.

(** Comparison of one-byte keys. *)
Definition key_cmp (x y : list Z) : Z := nth 0 x 0 - nth 0 y 0.

Lemma sort_sorts_witness : exists l', sort key_cmp (concat [[3; 9]; [1; 8]; [2; 7]]) 3 2 None = Some (concat l') /\
  array 2 l' /\ l' ≡ₚ [[3; 9]; [1; 8]; [2; 7]] /\ forall a b, (a < b < length l')%nat -> 0 <= key_cmp (l' !!! b) (l' !!! a).
Proof.
  apply (sort_sorts key_cmp 2 [[3; 9]; [1; 8]; [2; 7]] None).
  - intros x y. unfold key_cmp. lia.
  - intros x y z. unfold key_cmp. lia.
  - lia.
  - repeat constructor.
  - reflexivity.
  - exact I.
Defined.
