(* ===== verification/PrioHeap.v ===== *)
(** * Static priority heap (lib/prio_heap.c)

    The heap keeps pointers, ordered by the caller's [gt]; when it is full the
    greatest one is dropped. *)

From S2P Require Import Prelude HeapOrder.

#[local] Open Scope Z_scope.

Definition NULL : Z := 0.

(** struct ptr_heap *)
Record ptr_heap := mk_heap { ptrs : list Z; max : Z; size : Z; gt : Z -> Z -> bool }.

(** [kmalloc] allocates an object of so many bytes, seen as its words. *)
Definition heap_init (bytes : Z) (kmalloc : Z -> option (list Z)) (gt : Z -> Z -> bool) : Z + ptr_heap :=
  match kmalloc bytes with
  | None => inl (- ENOMEM)
  | Some p => inr (mk_heap p (s32 (bytes / 4)) 0 gt)
  end.

(** The hole at [pos] moves up while [p] is greater than the parent. *)
Fixpoint insert_up (fuel : nat) (gt : Z -> Z -> bool) (ptrs : list Z) (p pos : Z) : option (list Z * Z) :=
  match fuel with
  | O => None
  | S fuel =>
    if 0 <? pos then
      q ← rd ptrs (Z.quot (pos - 1) 2);
      if gt p q then
        ptrs ← wr ptrs pos q;
        insert_up fuel gt ptrs p (Z.quot (pos - 1) 2)
      else Some (ptrs, pos)
    else Some (ptrs, pos)
  end.

(** [p] at [pos] moves down, below its greater children. *)
Fixpoint push_down (fuel : nat) (gt : Z -> Z -> bool) (ptrs : list Z) (size p pos : Z) : option (list Z) :=
  match fuel with
  | O => None
  | S fuel =>
    let left := s32 (2 * pos + 1) in
    let right := s32 (2 * pos + 2) in
    largest ← (if left <? size then q ← rd ptrs left; Some (if gt q p then left else pos) else Some pos);
    largest ← (if right <? size then
                 q ← rd ptrs right; b ← rd ptrs largest; Some (if gt q b then right else largest)
               else Some largest);
    if largest =? pos then Some ptrs
    else
      b ← rd ptrs largest;
      ptrs ← wr ptrs pos b;
      ptrs ← wr ptrs largest p;
      push_down fuel gt ptrs size p largest
  end.

Definition heap_insert (heap : ptr_heap) (p : Z) : option (ptr_heap * Z) :=
  if size heap <? max heap then
    '(ps, pos) ← insert_up (S (Z.to_nat (size heap))) (gt heap) (ptrs heap) p (size heap);
    ps ← wr ps pos p;
    Some (mk_heap ps (max heap) (size heap + 1) (gt heap), NULL)
  else
    top ← rd (ptrs heap) 0;
    if gt heap p top then Some (heap, p)
    else
      ps ← wr (ptrs heap) 0 p;
      ps ← push_down (S (Z.to_nat (size heap))) (gt heap) ps (size heap) p 0;
      Some (mk_heap ps (max heap) (size heap) (gt heap), top).

(** The pointers the heap holds. *)
Definition elements (h : ptr_heap) : list Z := take (Z.to_nat (size h)) (ptrs h).

(** The order: [x] is not less than [y]. *)
Definition not_less (gt : Z -> Z -> bool) (x y : Z) : Prop := gt y x = false.

Definition heap_ok (h : ptr_heap) : Prop :=
  0 <= size h <= max h /\ max h < 2 ^ 30 /\ max h <= zlen (ptrs h) /\
  heap (not_less (gt h)) 0 (Z.to_nat (size h)) (ptrs h).

(** Every insertion in turn, with the pointers the full heap drops. *)
Fixpoint insert_all (h : ptr_heap) (l : list Z) : option (ptr_heap * list Z) :=
  match l with
  | [] => Some (h, [])
  | p :: l =>
    '(h', r) ← heap_insert h p;
    '(h'', d) ← insert_all h' l;
    Some (h'', if size h <? max h then d else r :: d)
  end.

(** ** Lemmas *)

Section proofs.
  Context (gt : Z -> Z -> bool).
  Context (gt_asym : forall x y, gt x y = true -> gt y x = false).
  Context (gt_trans : forall x y z, gt y x = false -> gt z y = false -> gt z x = false).

#[local] Abbreviation ge := (not_less gt).

Lemma ge_refl x : ge x x.
Proof. unfold not_less. destruct (gt x x) eqn:E; [|done]. rewrite <- E. by apply gt_asym. Qed.

Lemma ge_trans x y z : ge x y -> ge y z -> ge x z.
Proof. apply gt_trans. Qed.

Lemma rd_total (l : list Z) (k : nat) : (k < length l)%nat -> rd l (Z.of_nat k) = Some (l !!! k).
Proof.
  intros Hk. rewrite rd_nat. destruct (lookup_lt_is_Some_2 l k Hk) as [x Hx].
  by rewrite (list_lookup_total_correct _ _ _ Hx).
Qed.

Lemma wr_total (l : list Z) (k : nat) x : (k < length l)%nat -> wr l (Z.of_nat k) x = Some (<[k := x]> l).
Proof. intros. rewrite wr_Some by lia. by rewrite Nat2Z.id. Qed.

Lemma lookup_total_insert (l : list Z) i x k : (i < length l)%nat ->
  <[i := x]> l !!! k = if (k =? i)%nat then x else l !!! k.
Proof.
  intros. rewrite !list_lookup_total_alt, insert_lookup_if by done. rewrite (Nat.eqb_sym k i). by destruct (i =? k)%nat.
Qed.

(** Moving the hole is exchanging the new element with the parent. *)
Lemma hole_swap (l : list Z) q r p : q <> r -> (q < length l)%nat -> (r < length l)%nat ->
  <[q := p]> (<[r := l !!! q]> l) = swapl (<[r := p]> l) q r.
Proof.
  intros Hqr Hq Hr. unfold swapl. rewrite !lookup_total_insert by (rewrite ?length_insert; done).
  rewrite Nat.eqb_refl. destruct (Nat.eqb_spec q r); [done|].
  rewrite (list_insert_insert_ne l q r p p), list_insert_insert_eq by done. by apply list_insert_insert_ne.
Qed.

Lemma insert_up_spec fuel : forall l p (pos : nat), (pos < fuel)%nat -> (pos < length l)%nat ->
  forall n, (pos < n)%nat -> (n <= length l)%nat -> heap_up ge n pos (<[pos := p]> l) ->
  exists l' pos', insert_up fuel gt l p (Z.of_nat pos) = Some (l', Z.of_nat pos') /\ (pos' <= pos)%nat /\
    length l' = length l /\ heap ge 0 n (<[pos' := p]> l') /\ arranged n (<[pos := p]> l) (<[pos' := p]> l').
Proof.
  induction fuel as [|fuel IH]; intros l p pos Hf Hpos n Hn Hlen Hup; [lia|]. cbn [insert_up].
  assert (Hstop : (forall q, child q pos -> (pos < n)%nat -> ge (<[pos := p]> l !!! q) (<[pos := p]> l !!! pos)) ->
    exists l' pos', Some (l, Z.of_nat pos) = Some (l', Z.of_nat pos') /\ (pos' <= pos)%nat /\
    length l' = length l /\ heap ge 0 n (<[pos' := p]> l') /\ arranged n (<[pos := p]> l) (<[pos' := p]> l')).
  { intros Hq. exists l, pos. do 3 (split; [done|]). split; [by apply (heap_of_up _ n pos)|apply arranged_refl]. }
  destruct (Z.ltb_spec 0 (Z.of_nat pos)) as [H0|H0].
  2: { apply Hstop. intros q Hq. unfold child in Hq. lia. }
  assert (Hq : exists q, Z.quot (Z.of_nat pos - 1) 2 = Z.of_nat q /\ child q pos /\ (q < pos)%nat).
  { exists ((pos - 1) / 2)%nat. pose proof (Nat.div_mod (pos - 1) 2 ltac:(lia)).
    pose proof (Nat.mod_upper_bound (pos - 1) 2 ltac:(lia)). rewrite Z.quot_div_nonneg by lia. rewrite Nat2Z.inj_div.
    unfold child. split; [f_equal; lia|lia]. }
  destruct Hq as (q&->&Hq&Hqp). rewrite rd_total, some_bind by lia. destruct (gt p (l !!! q)) eqn:Egt.
  - rewrite wr_total, some_bind by lia.
    assert (Hsw : <[q := p]> (<[pos := l !!! q]> l) = swapl (<[pos := p]> l) q pos) by (apply hole_swap; lia).
    destruct (IH (<[pos := l !!! q]> l) p q) with (n := n) as (l'&pos'&E&Hle&Hl'&Hh&Harr);
      try (rewrite ?length_insert; lia).
    { rewrite Hsw. apply sift_up_step; rewrite ?length_insert; try lia; [apply ge_trans|done| |done].
      unfold not_less. rewrite !lookup_total_insert, Nat.eqb_refl by lia. destruct (Nat.eqb_spec q pos); [lia|by apply gt_asym]. }
    exists l', pos'. split; [done|]. split; [lia|]. rewrite length_insert in Hl'. split; [done|]. split; [done|].
    rewrite Hsw in Harr. eapply arranged_trans; [|done]. apply arranged_swapl; rewrite ?length_insert; lia.
  - apply Hstop. intros q' Hq' _. assert (q' = q) as -> by (unfold child in *; lia). unfold not_less.
    rewrite !lookup_total_insert, Nat.eqb_refl by lia. by destruct (Nat.eqb_spec q pos); [lia|].
Qed.

(** The greatest of the element and its children. *)
Lemma largest_child l pos n p : l !!! pos = p -> (pos < n)%nat -> (n <= length l)%nat -> Z.of_nat n < 2 ^ 30 ->
  exists m, (largest ← (if s32 (2 * Z.of_nat pos + 1) <? Z.of_nat n
                        then q ← rd l (s32 (2 * Z.of_nat pos + 1)); Some (if gt q p then s32 (2 * Z.of_nat pos + 1) else Z.of_nat pos)
                        else Some (Z.of_nat pos));
             if s32 (2 * Z.of_nat pos + 2) <? Z.of_nat n then
                 q ← rd l (s32 (2 * Z.of_nat pos + 2)); b ← rd l largest; Some (if gt q b then s32 (2 * Z.of_nat pos + 2) else largest)
               else Some largest) = Some (Z.of_nat m) /\ (m < n)%nat /\ (m = pos \/ child pos m) /\ ge (l !!! m) p /\
    forall c, child pos c -> (c < n)%nat -> ge (l !!! m) (l !!! c).
Proof.
  intros Hp Hpos Hlen Hn. rewrite !s32_small by lia.
  replace (2 * Z.of_nat pos + 1) with (Z.of_nat (2 * pos + 1)) by lia.
  replace (2 * Z.of_nat pos + 2) with (Z.of_nat (2 * pos + 2)) by lia.
  assert (Hleft : exists m, (if Z.of_nat (2 * pos + 1) <? Z.of_nat n
        then q ← rd l (Z.of_nat (2 * pos + 1)); Some (if gt q p then Z.of_nat (2 * pos + 1) else Z.of_nat pos)
        else Some (Z.of_nat pos)) = Some (Z.of_nat m) /\ (m < n)%nat /\ (m = pos \/ m = 2 * pos + 1)%nat /\ ge (l !!! m) p /\
        ((2 * pos + 1 < n)%nat -> ge (l !!! m) (l !!! (2 * pos + 1)%nat))).
  { destruct (Z.ltb_spec (Z.of_nat (2 * pos + 1)) (Z.of_nat n)).
    - rewrite rd_total by lia. destruct (gt (l !!! (2 * pos + 1)%nat) p) eqn:E.
      + exists (2 * pos + 1)%nat. rewrite some_bind, E. do 2 (split; [done || lia|]). split; [by right|]. split; [by apply gt_asym|]. intros _. apply ge_refl.
      + exists pos. rewrite some_bind, E. do 2 (split; [done|]). split; [by left|]. rewrite Hp. split; [apply ge_refl|done].
    - exists pos. do 2 (split; [done|]). split; [by left|]. rewrite Hp. split; [apply ge_refl|lia]. }
  destruct Hleft as (m&->&Hm&Hcase&Hge&Hl).
  destruct (Z.ltb_spec (Z.of_nat (2 * pos + 2)) (Z.of_nat n)).
  - destruct (gt (l !!! (2 * pos + 2)%nat) (l !!! m)) eqn:E.
    + exists (2 * pos + 2)%nat. rewrite some_bind, !rd_total, !some_bind, E by lia. split; [done|]. split; [lia|]. split; [right; by right|].
      assert (ge (l !!! (2 * pos + 2)%nat) (l !!! m)) by (by apply gt_asym).
      split; [by eapply ge_trans|]. intros c [->| ->] Hc; [eapply ge_trans; [done|by apply Hl]|apply ge_refl].
    + exists m. rewrite some_bind, !rd_total, !some_bind, E by lia. split; [done|]. split; [done|]. split; [unfold child; lia|]. split; [done|]. intros c [->| ->] Hc; [by apply Hl|done].
  - exists m. split; [done|]. split; [done|]. split; [unfold child; lia|]. split; [done|]. intros c [->| ->] Hc; [by apply Hl|lia].
Qed.

Lemma push_down_spec fuel : forall l p pos n, l !!! pos = p -> (pos < n)%nat -> (n <= length l)%nat -> Z.of_nat n < 2 ^ 30 ->
  (n - pos <= fuel)%nat -> heap_but ge 0 n pos l ->
  exists l', push_down fuel gt l (Z.of_nat n) p (Z.of_nat pos) = Some l' /\ heap ge 0 n l' /\ arranged n l l'.
Proof.
  induction fuel as [|fuel IH]; intros l p pos n Hp Hpos Hlen Hn Hf Hbut; [lia|]. cbn [push_down].
  destruct (largest_child l pos n p Hp Hpos Hlen Hn) as (m&E&Hm&Hcase&Hge&Hbig).
  apply bind_Some in E as (m0&E0&E1). rewrite E0, some_bind, E1, some_bind.
  destruct (Z.eqb_spec (Z.of_nat m) (Z.of_nat pos)) as [Heq|Hne].
  - assert (m = pos) as -> by lia. exists l. split; [done|]. split; [by apply (heap_of_but _ n pos)|apply arranged_refl].
  - destruct Hcase as [->|Hchild]; [lia|]. rewrite rd_total, some_bind, wr_total, some_bind by lia.
    rewrite wr_total, some_bind by (rewrite length_insert; lia).
    assert (Hsw : <[m := p]> (<[pos := l !!! m]> l) = swapl l pos m) by (unfold swapl; by rewrite Hp).
    rewrite Hsw. destruct (IH (swapl l pos m) p m n) as (l'&E'&Hh&Harr); try lia.
    + rewrite swapl_lookup, Nat.eqb_refl by lia. done.
    + by rewrite swapl_length.
    + unfold child in Hchild. lia.
    + apply sift_step; try done; [lia|auto|by rewrite Hp].
    + exists l'. split; [done|]. split; [done|]. eapply arranged_trans; [|done]. apply arranged_swapl; lia.
Qed.

End proofs.

Lemma arranged_take (l l' : list Z) n : arranged n l l' -> take n l' ≡ₚ take n l.
Proof.
  intros Harr. pose proof (arranged_length _ _ _ Harr) as Hlen. destruct Harr as (Hp&Hout&_).
  assert (Hd : drop n l' = drop n l).
  { apply list_eq. intros k. rewrite !lookup_drop.
    destruct (lookup_lt_is_Some_2 l (n + k)) eqn:E || destruct (Nat.ltb_spec (n + k) (length l)) as [Hk|Hk].
    - destruct (lookup_lt_is_Some_2 l (n + k) Hk) as [x Hx]. destruct (lookup_lt_is_Some_2 l' (n + k) ltac:(lia)) as [y Hy].
      specialize (Hout (n + k)%nat ltac:(lia)). rewrite (list_lookup_total_correct _ _ _ Hx), (list_lookup_total_correct _ _ _ Hy) in Hout.
      congruence.
    - by rewrite !lookup_ge_None_2 by lia. }
  rewrite <- (take_drop n l), <- (take_drop n l') in Hp. rewrite Hd in Hp. by apply Permutation_app_inv_r in Hp.
Qed.

Lemma heap_insert_room h p :
  (forall x y, gt h x y = true -> gt h y x = false) ->
  (forall x y z, gt h y x = false -> gt h z y = false -> gt h z x = false) ->
  heap_ok h -> 0 < max h ->
  size h < max h ->
  exists h' r, heap_insert h p = Some (h', r) /\ heap_ok h' /\ max h' = max h /\ gt h' = gt h /\
    r = NULL /\ size h' = size h + 1 /\ elements h' ≡ₚ p :: elements h.
Proof.
  intros Hasym Htrans (Hsz&Hmax&Hlen&Hheap) H0 Hroom. unfold heap_insert.
  destruct h as [ps mx sz g]. cbn [gt max size ptrs] in *. unfold elements. cbn [size ptrs].
  set (n := Z.to_nat sz) in *. assert (Hn : sz = Z.of_nat n) by lia.
  destruct (Z.ltb_spec sz mx); [|lia].
  rewrite Hn. destruct (insert_up_spec g Hasym Htrans (S n) ps p n ltac:(lia) ltac:(lia) (S n)) as (l'&pos'&E&Hle&Hl'&Hh&Harr); try lia.
  { split; intros q c Hc Hqc; [intros Hne; rewrite !lookup_total_insert by lia|unfold child in *; lia].
    assert (q < c)%nat by (unfold child in Hqc; lia). destruct (Nat.eqb_spec q n), (Nat.eqb_spec c n); try lia.
    apply Hheap; [lia|lia|done]. }
  rewrite E, some_bind. rewrite wr_total, some_bind by lia. eexists _, _. split; [done|]. cbn [gt max size ptrs].
  replace (Z.to_nat (Z.of_nat n + 1)) with (S n) by lia.
  split; [|do 2 (split; [done|])].
  { split; [cbn [size max]; lia|]. cbn [max ptrs size gt]. split; [done|]. split; [rewrite length_insert; lia|].
    by replace (Z.to_nat (Z.of_nat n + 1)) with (S n) by lia. }
  do 2 (split; [done|]). apply arranged_take in Harr. rewrite Harr.
  assert (is_Some (<[n := p]> ps !! n)) as [x Hx] by (apply lookup_lt_is_Some_2; rewrite length_insert; lia).
  rewrite (take_S_r _ _ _ Hx). rewrite list_lookup_insert_eq in Hx by lia. injection Hx as <-.
  rewrite take_insert_ge by lia. by rewrite Permutation_app_comm.
Qed.

Lemma heap_insert_full h p :
  (forall x y, gt h x y = true -> gt h y x = false) ->
  (forall x y z, gt h y x = false -> gt h z y = false -> gt h z x = false) ->
  heap_ok h -> 0 < max h ->
  size h = max h ->
  exists h' r, heap_insert h p = Some (h', r) /\ heap_ok h' /\ max h' = max h /\ gt h' = gt h /\
    size h' = size h /\ r :: elements h' ≡ₚ p :: elements h /\ forall x, x ∈ elements h' -> gt h x r = false.
Proof.
  intros Hasym Htrans (Hsz&Hmax&Hlen&Hheap) H0 Hfull. unfold heap_insert.
  destruct h as [ps mx sz g]. cbn [gt max size ptrs] in *. unfold elements. cbn [size ptrs].
  set (n := Z.to_nat sz) in *. assert (Hn : sz = Z.of_nat n) by lia.
  destruct (Z.ltb_spec sz mx); [lia|].
  assert (Hnpos : (0 < n)%nat) by lia. pose proof (rd_total ps 0 ltac:(lia)) as Hrd. change (Z.of_nat 0) with 0 in Hrd. rewrite Hrd, some_bind. destruct (g p (ps !!! 0%nat)) eqn:Egt.
  { eexists _, _. split; [done|]. cbn [gt max size ptrs]. do 4 (split; [done|]). split; [done|].
    intros x Hx. apply list_elem_of_lookup in Hx as [k Hk]. apply lookup_take_Some in Hk as [Hk Hkn].
    apply (Htrans _ (ps !!! 0%nat)); [by apply Hasym|]. rewrite <- (list_lookup_total_correct _ _ _ Hk).
    apply (heap_max (not_less g) (ge_refl g Hasym) Htrans _ n Hheap). lia. }
  pose proof (wr_total ps 0 p ltac:(lia)) as Hwr. change (Z.of_nat 0) with 0 in Hwr. rewrite Hwr, some_bind, Hn.
  assert (Hins : forall c, (0 < c)%nat -> <[0%nat := p]> ps !!! c = ps !!! c).
  { intros c Hc. rewrite lookup_total_insert by lia. by destruct (Nat.eqb_spec c 0); [lia|]. }
  destruct (push_down_spec g Hasym Htrans (S n) (<[0%nat := p]> ps) p 0 n) as (l'&E&Hh&Harr); try lia.
  { rewrite lookup_total_insert by lia. done. }
  { rewrite length_insert. lia. }
  { split; intros q c _ Hc Hqc; [intros Hne; rewrite !Hins by (unfold child in *; lia); apply Hheap; [lia|lia|done]|unfold child in *; lia]. }
  change (Z.of_nat 0) with 0 in E. rewrite E, some_bind. eexists _, _. split; [done|]. cbn [gt max size ptrs].
  pose proof (arranged_length _ _ _ Harr) as Hl'. rewrite length_insert in Hl'.
  split; [|do 2 (split; [done|])].
  { split; [cbn [size max]; lia|]. cbn [max ptrs size gt]. rewrite Nat2Z.id. split; [done|]. split; [lia|done]. }
  split; [done|]. rewrite Nat2Z.id. apply arranged_take in Harr.
  assert (Hcons : exists ps', ps = ps !!! 0%nat :: ps') by (destruct ps as [|x ps']; [simpl in Hlen; lia|by exists ps']).
  destruct Hcons as [ps' Hps]. destruct n as [|n']; [lia|].
  split.
  + rewrite Harr, Hps. simpl. apply perm_swap.
  + intros x Hx. rewrite Harr in Hx. rewrite Hps in Hx. simpl in Hx. apply elem_of_cons in Hx as [->|Hx]; [done|].
    apply list_elem_of_lookup in Hx as [k Hk]. apply lookup_take_Some in Hk as [Hk Hkn].
    assert (Hk' : ps !! S k = Some x) by (rewrite Hps; done). rewrite <- (list_lookup_total_correct _ _ _ Hk').
    apply (heap_max (not_less g) (ge_refl g Hasym) Htrans _ (S n') Hheap). lia.
Qed.

(** An insertion keeps the heap order; with room left it adds the pointer
    and drops nothing, on a full heap it returns a pointer that is not less
    than any kept one, and kept and returned pointers are those of before plus
    the new one. *)
Theorem heap_insert_keeps_smallest h p :
  (forall x y, gt h x y = true -> gt h y x = false) ->
  (forall x y z, gt h y x = false -> gt h z y = false -> gt h z x = false) ->
  heap_ok h -> 0 < max h ->
  exists h' r, heap_insert h p = Some (h', r) /\ heap_ok h' /\ max h' = max h /\ gt h' = gt h /\
    (if size h <? max h then r = NULL /\ size h' = size h + 1 /\ elements h' ≡ₚ p :: elements h
     else size h' = size h /\ r :: elements h' ≡ₚ p :: elements h /\ forall x, x ∈ elements h' -> gt h x r = false).
Proof.
  intros ? ? Hok H0. destruct (Z.ltb_spec (size h) (max h)); [by apply heap_insert_room|].
  apply heap_insert_full; try done. destruct Hok. lia.
Qed.

(** An integer order and a heap of two. *)
Definition sample : ptr_heap := mk_heap [7; 5; 0] 2 2 Z.gtb.

Lemma gtb_asym x y : Z.gtb x y = true -> Z.gtb y x = false.
Proof. rewrite !Z.gtb_ltb. zcases; try done; lia. Qed.

Lemma gtb_trans x y z : Z.gtb y x = false -> Z.gtb z y = false -> Z.gtb z x = false.
Proof. rewrite !Z.gtb_ltb. zcases; try done; lia. Qed.

Lemma sample_ok : heap_ok sample.
Proof.
  split; [cbn; lia|]. split; [cbn; lia|]. split; [cbn; lia|]. intros p c _ Hc Hpc. cbn in Hc. unfold child in Hpc.
  assert (c = 1%nat /\ p = 0%nat) as [-> ->] by lia. done.
Qed.

Lemma heap_insert_keeps_smallest_witness : exists h' r, heap_insert sample 6 = Some (h', r) /\ heap_ok h' /\
  max h' = 2 /\ gt h' = Z.gtb /\ size h' = 2 /\ r :: elements h' ≡ₚ 6 :: elements sample /\
  forall x, x ∈ elements h' -> Z.gtb x r = false.
Proof.
  apply (heap_insert_keeps_smallest sample 6); [exact gtb_asym|exact gtb_trans|exact sample_ok|reflexivity].
Defined.

(** Inserting any list of pointers into a heap keeps the [max] smallest of
    them and of those it held: nothing is lost between kept and returned
    pointers, and no returned pointer is less than a kept one. *)
Theorem insert_all_keeps_smallest h l :
  (forall x y, gt h x y = true -> gt h y x = false) ->
  (forall x y z, gt h y x = false -> gt h z y = false -> gt h z x = false) ->
  heap_ok h -> 0 < max h ->
  exists h' d, insert_all h l = Some (h', d) /\ heap_ok h' /\ max h' = max h /\
    elements h' ++ d ≡ₚ elements h ++ l /\
    size h' = Z.min (max h) (size h + zlen l) /\
    (forall x r, x ∈ elements h' -> r ∈ d -> gt h x r = false).
Proof.
  intros Hasym Htrans Hok H0.
  assert (Hgen : exists h' d, insert_all h l = Some (h', d) /\ heap_ok h' /\ max h' = max h /\
    elements h' ++ d ≡ₚ elements h ++ l /\ size h' = Z.min (max h) (size h + zlen l) /\
    (forall x r, x ∈ elements h' -> r ∈ d -> gt h x r = false) /\
    forall r, size h = max h -> (forall x, x ∈ elements h -> gt h x r = false) -> forall x, x ∈ elements h' -> gt h x r = false).
  2: { destruct Hgen as (h'&d&?&?&?&?&?&?&_). by exists h', d. }
  revert h Hasym Htrans Hok H0. induction l as [|p l IH]; intros h Hasym Htrans Hok H0.
  { exists h, []. split; [done|]. split; [done|]. split; [done|]. split; [done|]. split; [destruct Hok; simpl; lia|].
    split; [intros x r _ Hr; by apply elem_of_nil in Hr|]. auto. }
  cbn [insert_all].
  destruct (Z.ltb_spec (size h) (max h)) as [Hroom|Hfull].
  - destruct (heap_insert_room h p) as (h1&r&->&Hok1&Em&Eg&->&Es&Hp1); try done. rewrite some_bind.
    destruct (IH h1) as (h'&d&->&Hok'&Em'&Hp'&Es'&Hd&_); try (rewrite ?Eg, ?Em; done).
    rewrite some_bind. exists h', d. split; [done|]. split; [done|]. split; [congruence|].
    split; [rewrite Hp', Hp1; apply (Permutation_middle _ l p)|]. split; [simpl; lia|].
    split; [by rewrite Eg in Hd|lia].
  - destruct (heap_insert_full h p) as (h1&r&->&Hok1&Em&Eg&Es&Hp1&Hr1); try done; [destruct Hok; lia|]. rewrite some_bind.
    destruct (IH h1) as (h'&d&->&Hok'&Em'&Hp'&Es'&Hd&Hbound); try (rewrite ?Eg, ?Em; done).
    rewrite some_bind. rewrite Eg in *. exists h', (r :: d). split; [done|]. split; [done|]. split; [congruence|].
    assert (Hsz : size h1 = max h1) by (destruct Hok; lia).
    split; [|split; [simpl; lia|split]].
    + rewrite <- Permutation_middle, Hp'. rewrite <- (Permutation_middle _ l p).
      change (r :: elements h1 ++ l) with ((r :: elements h1) ++ l). by rewrite Hp1.
    + intros x y Hx Hy. apply elem_of_cons in Hy as [->|Hy]; [by apply Hbound|by apply Hd].
    + intros y _ Hy. apply Hbound; [done|]. intros x Hx.
      assert (Hin : x = p \/ x ∈ elements h).
      { apply elem_of_cons. rewrite <- Hp1. by right. }
      destruct Hin as [->|Hin]; [|by apply Hy].
      assert (Hr : r = p \/ r ∈ elements h) by (apply elem_of_cons; rewrite <- Hp1; by left).
      destruct Hr as [->|Hr]; [apply Permutation_cons_inv in Hp1; apply Hy; by rewrite <- Hp1|].
      apply (Htrans y r p); [by apply Hy|by apply Hr1].
Qed.

Lemma insert_all_keeps_smallest_witness : exists h' d, insert_all sample [6; 9; 1] = Some (h', d) /\ heap_ok h' /\
  max h' = 2 /\ elements h' ++ d ≡ₚ elements sample ++ [6; 9; 1] /\ size h' = 2 /\
  forall x r, x ∈ elements h' -> r ∈ d -> Z.gtb x r = false.
Proof.
  apply (insert_all_keeps_smallest sample [6; 9; 1]); [exact gtb_asym|exact gtb_trans|exact sample_ok|reflexivity].
Defined.

(** A fresh heap is empty and well formed. *)
Lemma heap_init_ok bytes kmalloc g : 0 <= bytes < 2 ^ 32 -> (forall n b, kmalloc n = Some b -> zlen b = n / 4) ->
  match heap_init bytes kmalloc g with
  | inl e => e = - ENOMEM /\ kmalloc bytes = None
  | inr h => heap_ok h /\ elements h = [] /\ max h = bytes / 4
  end.
Proof.
  intros Hb Hk. unfold heap_init. destruct (kmalloc bytes) as [b|] eqn:E; [|done]. apply Hk in E. cbn [max].
  assert (0 <= bytes / 4 < 2 ^ 30) by (Z.to_euclidean_division_equations; lia). rewrite s32_small by lia.
  split; [|done]. split; [cbn; lia|]. split; [cbn; lia|]. split; [cbn; lia|]. intros p c _ Hc. cbn in Hc. lia.
Qed.
