(* ===== verification/Crc.v ===== *)
(** * Cyclic redundancy checks

    lib/crc16.c, lib/crc-ccitt.c, lib/crc-itu-t.c, lib/crc7.c, lib/libcrc32c.c,
    and lib/crc32.c with the generator of its tables, lib/gen_crc32table.c. *)

From S2P Require Import Prelude.

#[local] Open Scope Z_scope.

(** ** The tables *)

Definition crc16_table : list Z :=
  [0x0000; 0xc0c1; 0xc181; 0x0140; 0xc301; 0x03c0; 0x0280; 0xc241;
   0xc601; 0x06c0; 0x0780; 0xc741; 0x0500; 0xc5c1; 0xc481; 0x0440;
   0xcc01; 0x0cc0; 0x0d80; 0xcd41; 0x0f00; 0xcfc1; 0xce81; 0x0e40;
   0x0a00; 0xcac1; 0xcb81; 0x0b40; 0xc901; 0x09c0; 0x0880; 0xc841;
   0xd801; 0x18c0; 0x1980; 0xd941; 0x1b00; 0xdbc1; 0xda81; 0x1a40;
   0x1e00; 0xdec1; 0xdf81; 0x1f40; 0xdd01; 0x1dc0; 0x1c80; 0xdc41;
   0x1400; 0xd4c1; 0xd581; 0x1540; 0xd701; 0x17c0; 0x1680; 0xd641;
   0xd201; 0x12c0; 0x1380; 0xd341; 0x1100; 0xd1c1; 0xd081; 0x1040;
   0xf001; 0x30c0; 0x3180; 0xf141; 0x3300; 0xf3c1; 0xf281; 0x3240;
   0x3600; 0xf6c1; 0xf781; 0x3740; 0xf501; 0x35c0; 0x3480; 0xf441;
   0x3c00; 0xfcc1; 0xfd81; 0x3d40; 0xff01; 0x3fc0; 0x3e80; 0xfe41;
   0xfa01; 0x3ac0; 0x3b80; 0xfb41; 0x3900; 0xf9c1; 0xf881; 0x3840;
   0x2800; 0xe8c1; 0xe981; 0x2940; 0xeb01; 0x2bc0; 0x2a80; 0xea41;
   0xee01; 0x2ec0; 0x2f80; 0xef41; 0x2d00; 0xedc1; 0xec81; 0x2c40;
   0xe401; 0x24c0; 0x2580; 0xe541; 0x2700; 0xe7c1; 0xe681; 0x2640;
   0x2200; 0xe2c1; 0xe381; 0x2340; 0xe101; 0x21c0; 0x2080; 0xe041;
   0xa001; 0x60c0; 0x6180; 0xa141; 0x6300; 0xa3c1; 0xa281; 0x6240;
   0x6600; 0xa6c1; 0xa781; 0x6740; 0xa501; 0x65c0; 0x6480; 0xa441;
   0x6c00; 0xacc1; 0xad81; 0x6d40; 0xaf01; 0x6fc0; 0x6e80; 0xae41;
   0xaa01; 0x6ac0; 0x6b80; 0xab41; 0x6900; 0xa9c1; 0xa881; 0x6840;
   0x7800; 0xb8c1; 0xb981; 0x7940; 0xbb01; 0x7bc0; 0x7a80; 0xba41;
   0xbe01; 0x7ec0; 0x7f80; 0xbf41; 0x7d00; 0xbdc1; 0xbc81; 0x7c40;
   0xb401; 0x74c0; 0x7580; 0xb541; 0x7700; 0xb7c1; 0xb681; 0x7640;
   0x7200; 0xb2c1; 0xb381; 0x7340; 0xb101; 0x71c0; 0x7080; 0xb041;
   0x5000; 0x90c1; 0x9181; 0x5140; 0x9301; 0x53c0; 0x5280; 0x9241;
   0x9601; 0x56c0; 0x5780; 0x9741; 0x5500; 0x95c1; 0x9481; 0x5440;
   0x9c01; 0x5cc0; 0x5d80; 0x9d41; 0x5f00; 0x9fc1; 0x9e81; 0x5e40;
   0x5a00; 0x9ac1; 0x9b81; 0x5b40; 0x9901; 0x59c0; 0x5880; 0x9841;
   0x8801; 0x48c0; 0x4980; 0x8941; 0x4b00; 0x8bc1; 0x8a81; 0x4a40;
   0x4e00; 0x8ec1; 0x8f81; 0x4f40; 0x8d01; 0x4dc0; 0x4c80; 0x8c41;
   0x4400; 0x84c1; 0x8581; 0x4540; 0x8701; 0x47c0; 0x4680; 0x8641;
   0x8201; 0x42c0; 0x4380; 0x8341; 0x4100; 0x81c1; 0x8081; 0x4040].

Definition crc_ccitt_table : list Z :=
  [0x0000; 0x1189; 0x2312; 0x329b; 0x4624; 0x57ad; 0x6536; 0x74bf;
   0x8c48; 0x9dc1; 0xaf5a; 0xbed3; 0xca6c; 0xdbe5; 0xe97e; 0xf8f7;
   0x1081; 0x0108; 0x3393; 0x221a; 0x56a5; 0x472c; 0x75b7; 0x643e;
   0x9cc9; 0x8d40; 0xbfdb; 0xae52; 0xdaed; 0xcb64; 0xf9ff; 0xe876;
   0x2102; 0x308b; 0x0210; 0x1399; 0x6726; 0x76af; 0x4434; 0x55bd;
   0xad4a; 0xbcc3; 0x8e58; 0x9fd1; 0xeb6e; 0xfae7; 0xc87c; 0xd9f5;
   0x3183; 0x200a; 0x1291; 0x0318; 0x77a7; 0x662e; 0x54b5; 0x453c;
   0xbdcb; 0xac42; 0x9ed9; 0x8f50; 0xfbef; 0xea66; 0xd8fd; 0xc974;
   0x4204; 0x538d; 0x6116; 0x709f; 0x0420; 0x15a9; 0x2732; 0x36bb;
   0xce4c; 0xdfc5; 0xed5e; 0xfcd7; 0x8868; 0x99e1; 0xab7a; 0xbaf3;
   0x5285; 0x430c; 0x7197; 0x601e; 0x14a1; 0x0528; 0x37b3; 0x263a;
   0xdecd; 0xcf44; 0xfddf; 0xec56; 0x98e9; 0x8960; 0xbbfb; 0xaa72;
   0x6306; 0x728f; 0x4014; 0x519d; 0x2522; 0x34ab; 0x0630; 0x17b9;
   0xef4e; 0xfec7; 0xcc5c; 0xddd5; 0xa96a; 0xb8e3; 0x8a78; 0x9bf1;
   0x7387; 0x620e; 0x5095; 0x411c; 0x35a3; 0x242a; 0x16b1; 0x0738;
   0xffcf; 0xee46; 0xdcdd; 0xcd54; 0xb9eb; 0xa862; 0x9af9; 0x8b70;
   0x8408; 0x9581; 0xa71a; 0xb693; 0xc22c; 0xd3a5; 0xe13e; 0xf0b7;
   0x0840; 0x19c9; 0x2b52; 0x3adb; 0x4e64; 0x5fed; 0x6d76; 0x7cff;
   0x9489; 0x8500; 0xb79b; 0xa612; 0xd2ad; 0xc324; 0xf1bf; 0xe036;
   0x18c1; 0x0948; 0x3bd3; 0x2a5a; 0x5ee5; 0x4f6c; 0x7df7; 0x6c7e;
   0xa50a; 0xb483; 0x8618; 0x9791; 0xe32e; 0xf2a7; 0xc03c; 0xd1b5;
   0x2942; 0x38cb; 0x0a50; 0x1bd9; 0x6f66; 0x7eef; 0x4c74; 0x5dfd;
   0xb58b; 0xa402; 0x9699; 0x8710; 0xf3af; 0xe226; 0xd0bd; 0xc134;
   0x39c3; 0x284a; 0x1ad1; 0x0b58; 0x7fe7; 0x6e6e; 0x5cf5; 0x4d7c;
   0xc60c; 0xd785; 0xe51e; 0xf497; 0x8028; 0x91a1; 0xa33a; 0xb2b3;
   0x4a44; 0x5bcd; 0x6956; 0x78df; 0x0c60; 0x1de9; 0x2f72; 0x3efb;
   0xd68d; 0xc704; 0xf59f; 0xe416; 0x90a9; 0x8120; 0xb3bb; 0xa232;
   0x5ac5; 0x4b4c; 0x79d7; 0x685e; 0x1ce1; 0x0d68; 0x3ff3; 0x2e7a;
   0xe70e; 0xf687; 0xc41c; 0xd595; 0xa12a; 0xb0a3; 0x8238; 0x93b1;
   0x6b46; 0x7acf; 0x4854; 0x59dd; 0x2d62; 0x3ceb; 0x0e70; 0x1ff9;
   0xf78f; 0xe606; 0xd49d; 0xc514; 0xb1ab; 0xa022; 0x92b9; 0x8330;
   0x7bc7; 0x6a4e; 0x58d5; 0x495c; 0x3de3; 0x2c6a; 0x1ef1; 0x0f78].

Definition crc_itu_t_table : list Z :=
  [0x0000; 0x1021; 0x2042; 0x3063; 0x4084; 0x50a5; 0x60c6; 0x70e7;
   0x8108; 0x9129; 0xa14a; 0xb16b; 0xc18c; 0xd1ad; 0xe1ce; 0xf1ef;
   0x1231; 0x0210; 0x3273; 0x2252; 0x52b5; 0x4294; 0x72f7; 0x62d6;
   0x9339; 0x8318; 0xb37b; 0xa35a; 0xd3bd; 0xc39c; 0xf3ff; 0xe3de;
   0x2462; 0x3443; 0x0420; 0x1401; 0x64e6; 0x74c7; 0x44a4; 0x5485;
   0xa56a; 0xb54b; 0x8528; 0x9509; 0xe5ee; 0xf5cf; 0xc5ac; 0xd58d;
   0x3653; 0x2672; 0x1611; 0x0630; 0x76d7; 0x66f6; 0x5695; 0x46b4;
   0xb75b; 0xa77a; 0x9719; 0x8738; 0xf7df; 0xe7fe; 0xd79d; 0xc7bc;
   0x48c4; 0x58e5; 0x6886; 0x78a7; 0x0840; 0x1861; 0x2802; 0x3823;
   0xc9cc; 0xd9ed; 0xe98e; 0xf9af; 0x8948; 0x9969; 0xa90a; 0xb92b;
   0x5af5; 0x4ad4; 0x7ab7; 0x6a96; 0x1a71; 0x0a50; 0x3a33; 0x2a12;
   0xdbfd; 0xcbdc; 0xfbbf; 0xeb9e; 0x9b79; 0x8b58; 0xbb3b; 0xab1a;
   0x6ca6; 0x7c87; 0x4ce4; 0x5cc5; 0x2c22; 0x3c03; 0x0c60; 0x1c41;
   0xedae; 0xfd8f; 0xcdec; 0xddcd; 0xad2a; 0xbd0b; 0x8d68; 0x9d49;
   0x7e97; 0x6eb6; 0x5ed5; 0x4ef4; 0x3e13; 0x2e32; 0x1e51; 0x0e70;
   0xff9f; 0xefbe; 0xdfdd; 0xcffc; 0xbf1b; 0xaf3a; 0x9f59; 0x8f78;
   0x9188; 0x81a9; 0xb1ca; 0xa1eb; 0xd10c; 0xc12d; 0xf14e; 0xe16f;
   0x1080; 0x00a1; 0x30c2; 0x20e3; 0x5004; 0x4025; 0x7046; 0x6067;
   0x83b9; 0x9398; 0xa3fb; 0xb3da; 0xc33d; 0xd31c; 0xe37f; 0xf35e;
   0x02b1; 0x1290; 0x22f3; 0x32d2; 0x4235; 0x5214; 0x6277; 0x7256;
   0xb5ea; 0xa5cb; 0x95a8; 0x8589; 0xf56e; 0xe54f; 0xd52c; 0xc50d;
   0x34e2; 0x24c3; 0x14a0; 0x0481; 0x7466; 0x6447; 0x5424; 0x4405;
   0xa7db; 0xb7fa; 0x8799; 0x97b8; 0xe75f; 0xf77e; 0xc71d; 0xd73c;
   0x26d3; 0x36f2; 0x0691; 0x16b0; 0x6657; 0x7676; 0x4615; 0x5634;
   0xd94c; 0xc96d; 0xf90e; 0xe92f; 0x99c8; 0x89e9; 0xb98a; 0xa9ab;
   0x5844; 0x4865; 0x7806; 0x6827; 0x18c0; 0x08e1; 0x3882; 0x28a3;
   0xcb7d; 0xdb5c; 0xeb3f; 0xfb1e; 0x8bf9; 0x9bd8; 0xabbb; 0xbb9a;
   0x4a75; 0x5a54; 0x6a37; 0x7a16; 0x0af1; 0x1ad0; 0x2ab3; 0x3a92;
   0xfd2e; 0xed0f; 0xdd6c; 0xcd4d; 0xbdaa; 0xad8b; 0x9de8; 0x8dc9;
   0x7c26; 0x6c07; 0x5c64; 0x4c45; 0x3ca2; 0x2c83; 0x1ce0; 0x0cc1;
   0xef1f; 0xff3e; 0xcf5d; 0xdf7c; 0xaf9b; 0xbfba; 0x8fd9; 0x9ff8;
   0x6e17; 0x7e36; 0x4e55; 0x5e74; 0x2e93; 0x3eb2; 0x0ed1; 0x1ef0].

Definition crc7_syndrome_table : list Z :=
  [0x00; 0x09; 0x12; 0x1b; 0x24; 0x2d; 0x36; 0x3f;
   0x48; 0x41; 0x5a; 0x53; 0x6c; 0x65; 0x7e; 0x77;
   0x19; 0x10; 0x0b; 0x02; 0x3d; 0x34; 0x2f; 0x26;
   0x51; 0x58; 0x43; 0x4a; 0x75; 0x7c; 0x67; 0x6e;
   0x32; 0x3b; 0x20; 0x29; 0x16; 0x1f; 0x04; 0x0d;
   0x7a; 0x73; 0x68; 0x61; 0x5e; 0x57; 0x4c; 0x45;
   0x2b; 0x22; 0x39; 0x30; 0x0f; 0x06; 0x1d; 0x14;
   0x63; 0x6a; 0x71; 0x78; 0x47; 0x4e; 0x55; 0x5c;
   0x64; 0x6d; 0x76; 0x7f; 0x40; 0x49; 0x52; 0x5b;
   0x2c; 0x25; 0x3e; 0x37; 0x08; 0x01; 0x1a; 0x13;
   0x7d; 0x74; 0x6f; 0x66; 0x59; 0x50; 0x4b; 0x42;
   0x35; 0x3c; 0x27; 0x2e; 0x11; 0x18; 0x03; 0x0a;
   0x56; 0x5f; 0x44; 0x4d; 0x72; 0x7b; 0x60; 0x69;
   0x1e; 0x17; 0x0c; 0x05; 0x3a; 0x33; 0x28; 0x21;
   0x4f; 0x46; 0x5d; 0x54; 0x6b; 0x62; 0x79; 0x70;
   0x07; 0x0e; 0x15; 0x1c; 0x23; 0x2a; 0x31; 0x38;
   0x41; 0x48; 0x53; 0x5a; 0x65; 0x6c; 0x77; 0x7e;
   0x09; 0x00; 0x1b; 0x12; 0x2d; 0x24; 0x3f; 0x36;
   0x58; 0x51; 0x4a; 0x43; 0x7c; 0x75; 0x6e; 0x67;
   0x10; 0x19; 0x02; 0x0b; 0x34; 0x3d; 0x26; 0x2f;
   0x73; 0x7a; 0x61; 0x68; 0x57; 0x5e; 0x45; 0x4c;
   0x3b; 0x32; 0x29; 0x20; 0x1f; 0x16; 0x0d; 0x04;
   0x6a; 0x63; 0x78; 0x71; 0x4e; 0x47; 0x5c; 0x55;
   0x22; 0x2b; 0x30; 0x39; 0x06; 0x0f; 0x14; 0x1d;
   0x25; 0x2c; 0x37; 0x3e; 0x01; 0x08; 0x13; 0x1a;
   0x6d; 0x64; 0x7f; 0x76; 0x49; 0x40; 0x5b; 0x52;
   0x3c; 0x35; 0x2e; 0x27; 0x18; 0x11; 0x0a; 0x03;
   0x74; 0x7d; 0x66; 0x6f; 0x50; 0x59; 0x42; 0x4b;
   0x17; 0x1e; 0x05; 0x0c; 0x33; 0x3a; 0x21; 0x28;
   0x5f; 0x56; 0x4d; 0x44; 0x7b; 0x72; 0x69; 0x60;
   0x0e; 0x07; 0x1c; 0x15; 0x2a; 0x23; 0x38; 0x31;
   0x46; 0x4f; 0x54; 0x5d; 0x62; 0x6b; 0x70; 0x79].

Definition crc32c_table : list Z :=
  [0x00000000; 0xf26b8303; 0xe13b70f7; 0x1350f3f4;
   0xc79a971f; 0x35f1141c; 0x26a1e7e8; 0xd4ca64eb;
   0x8ad958cf; 0x78b2dbcc; 0x6be22838; 0x9989ab3b;
   0x4d43cfd0; 0xbf284cd3; 0xac78bf27; 0x5e133c24;
   0x105ec76f; 0xe235446c; 0xf165b798; 0x030e349b;
   0xd7c45070; 0x25afd373; 0x36ff2087; 0xc494a384;
   0x9a879fa0; 0x68ec1ca3; 0x7bbcef57; 0x89d76c54;
   0x5d1d08bf; 0xaf768bbc; 0xbc267848; 0x4e4dfb4b;
   0x20bd8ede; 0xd2d60ddd; 0xc186fe29; 0x33ed7d2a;
   0xe72719c1; 0x154c9ac2; 0x061c6936; 0xf477ea35;
   0xaa64d611; 0x580f5512; 0x4b5fa6e6; 0xb93425e5;
   0x6dfe410e; 0x9f95c20d; 0x8cc531f9; 0x7eaeb2fa;
   0x30e349b1; 0xc288cab2; 0xd1d83946; 0x23b3ba45;
   0xf779deae; 0x05125dad; 0x1642ae59; 0xe4292d5a;
   0xba3a117e; 0x4851927d; 0x5b016189; 0xa96ae28a;
   0x7da08661; 0x8fcb0562; 0x9c9bf696; 0x6ef07595;
   0x417b1dbc; 0xb3109ebf; 0xa0406d4b; 0x522bee48;
   0x86e18aa3; 0x748a09a0; 0x67dafa54; 0x95b17957;
   0xcba24573; 0x39c9c670; 0x2a993584; 0xd8f2b687;
   0x0c38d26c; 0xfe53516f; 0xed03a29b; 0x1f682198;
   0x5125dad3; 0xa34e59d0; 0xb01eaa24; 0x42752927;
   0x96bf4dcc; 0x64d4cecf; 0x77843d3b; 0x85efbe38;
   0xdbfc821c; 0x2997011f; 0x3ac7f2eb; 0xc8ac71e8;
   0x1c661503; 0xee0d9600; 0xfd5d65f4; 0x0f36e6f7;
   0x61c69362; 0x93ad1061; 0x80fde395; 0x72966096;
   0xa65c047d; 0x5437877e; 0x4767748a; 0xb50cf789;
   0xeb1fcbad; 0x197448ae; 0x0a24bb5a; 0xf84f3859;
   0x2c855cb2; 0xdeeedfb1; 0xcdbe2c45; 0x3fd5af46;
   0x7198540d; 0x83f3d70e; 0x90a324fa; 0x62c8a7f9;
   0xb602c312; 0x44694011; 0x5739b3e5; 0xa55230e6;
   0xfb410cc2; 0x092a8fc1; 0x1a7a7c35; 0xe811ff36;
   0x3cdb9bdd; 0xceb018de; 0xdde0eb2a; 0x2f8b6829;
   0x82f63b78; 0x709db87b; 0x63cd4b8f; 0x91a6c88c;
   0x456cac67; 0xb7072f64; 0xa457dc90; 0x563c5f93;
   0x082f63b7; 0xfa44e0b4; 0xe9141340; 0x1b7f9043;
   0xcfb5f4a8; 0x3dde77ab; 0x2e8e845f; 0xdce5075c;
   0x92a8fc17; 0x60c37f14; 0x73938ce0; 0x81f80fe3;
   0x55326b08; 0xa759e80b; 0xb4091bff; 0x466298fc;
   0x1871a4d8; 0xea1a27db; 0xf94ad42f; 0x0b21572c;
   0xdfeb33c7; 0x2d80b0c4; 0x3ed04330; 0xccbbc033;
   0xa24bb5a6; 0x502036a5; 0x4370c551; 0xb11b4652;
   0x65d122b9; 0x97baa1ba; 0x84ea524e; 0x7681d14d;
   0x2892ed69; 0xdaf96e6a; 0xc9a99d9e; 0x3bc21e9d;
   0xef087a76; 0x1d63f975; 0x0e330a81; 0xfc588982;
   0xb21572c9; 0x407ef1ca; 0x532e023e; 0xa145813d;
   0x758fe5d6; 0x87e466d5; 0x94b49521; 0x66df1622;
   0x38cc2a06; 0xcaa7a905; 0xd9f75af1; 0x2b9cd9f2;
   0xff56bd19; 0x0d3d3e1a; 0x1e6dcdee; 0xec064eed;
   0xc38d26c4; 0x31e6a5c7; 0x22b65633; 0xd0ddd530;
   0x0417b1db; 0xf67c32d8; 0xe52cc12c; 0x1747422f;
   0x49547e0b; 0xbb3ffd08; 0xa86f0efc; 0x5a048dff;
   0x8ecee914; 0x7ca56a17; 0x6ff599e3; 0x9d9e1ae0;
   0xd3d3e1ab; 0x21b862a8; 0x32e8915c; 0xc083125f;
   0x144976b4; 0xe622f5b7; 0xf5720643; 0x07198540;
   0x590ab964; 0xab613a67; 0xb831c993; 0x4a5a4a90;
   0x9e902e7b; 0x6cfbad78; 0x7fab5e8c; 0x8dc0dd8f;
   0xe330a81a; 0x115b2b19; 0x020bd8ed; 0xf0605bee;
   0x24aa3f05; 0xd6c1bc06; 0xc5914ff2; 0x37faccf1;
   0x69e9f0d5; 0x9b8273d6; 0x88d28022; 0x7ab90321;
   0xae7367ca; 0x5c18e4c9; 0x4f48173d; 0xbd23943e;
   0xf36e6f75; 0x0105ec76; 0x12551f82; 0xe03e9c81;
   0x34f4f86a; 0xc69f7b69; 0xd5cf889d; 0x27a40b9e;
   0x79b737ba; 0x8bdcb4b9; 0x988c474d; 0x6ae7c44e;
   0xbe2da0a5; 0x4c4623a6; 0x5f16d052; 0xad7d5351].

(** ** Table driven updates

    A table is indexed with an unsigned word; outside of it the access is
    undefined. *)

Definition crc16_byte (crc data : Z) : option Z :=
  t ← rd crc16_table (Z.land (Z.lxor crc data) 0xff); Some (Z.lxor (Z.shiftr crc 8) t).
Definition crc_ccitt_byte (crc c : Z) : option Z :=
  t ← rd crc_ccitt_table (Z.land (Z.lxor crc c) 0xff); Some (Z.lxor (Z.shiftr crc 8) t).
Definition crc_itu_t_byte (crc data : Z) : option Z :=
  t ← rd crc_itu_t_table (Z.land (Z.lxor (Z.shiftr crc 8) data) 0xff); Some (u16 (Z.lxor (Z.shiftl crc 8) t)).
Definition crc7_byte (crc data : Z) : option Z :=
  rd crc7_syndrome_table (Z.lxor (Z.shiftl crc 1) data).

(** [while (len--) crc = byte(crc, *buffer++)] *)
Fixpoint crc_loop (byte : Z -> Z -> option Z) (crc : Z) (buffer : list Z) (len : nat) : option Z :=
  match len with
  | O => Some crc
  | S len => data ← deref buffer; crc ← byte crc data; crc_loop byte crc (tail buffer) len
  end.

Definition crc16 (crc : Z) (buffer : list Z) (len : Z) : option Z := crc_loop crc16_byte crc buffer (Z.to_nat len).
Definition crc_ccitt (crc : Z) (buffer : list Z) (len : Z) : option Z := crc_loop crc_ccitt_byte crc buffer (Z.to_nat len).
Definition crc_itu_t (crc : Z) (buffer : list Z) (len : Z) : option Z := crc_loop crc_itu_t_byte crc buffer (Z.to_nat len).
Definition crc7 (crc : Z) (buffer : list Z) (len : Z) : option Z := crc_loop crc7_byte crc buffer (Z.to_nat len).

(** ** Bit at a time *)

Definition CRCPOLY_LE : Z := 0xedb88320.
Definition CRCPOLY_BE : Z := 0x04c11db7.
Definition CRC32C_POLY_BE : Z := 0x1EDC6F41.

(** One turn of the loops over [i] in the variants for one bit. *)
Definition le_bit (poly crc : Z) : Z := Z.lxor (Z.shiftr crc 1) (if Z.land crc 1 =? 0 then 0 else poly).
Definition be_bit (poly crc : Z) : Z :=
  Z.lxor (u32 (Z.shiftl crc 1)) (if Z.land crc 0x80000000 =? 0 then 0 else poly).

(** CRC_LE_BITS == 1 and CRC_BE_BITS == 1 *)
Definition crc32_le_1 (crc : Z) (p : list Z) (len : Z) : option Z :=
  crc_loop (fun crc x => Some (Nat.iter 8 (le_bit CRCPOLY_LE) (Z.lxor crc x))) crc p (Z.to_nat len).
Definition crc32_be_1 (crc : Z) (p : list Z) (len : Z) : option Z :=
  crc_loop (fun crc x => Some (Nat.iter 8 (be_bit CRCPOLY_BE) (Z.lxor crc (u32 (Z.shiftl x 24))))) crc p (Z.to_nat len).
Definition crc32c_be (crc : Z) (p : list Z) (len : Z) : option Z :=
  crc_loop (fun crc x => Some (Nat.iter 8 (be_bit CRC32C_POLY_BE) (Z.lxor crc (u32 (Z.shiftl x 24))))) crc p (Z.to_nat len).

Definition crc32c_le (crc : Z) (data : list Z) (length : Z) : option Z :=
  crc_loop (fun crc x => t ← rd crc32c_table (Z.land (Z.lxor crc x) 0xff); Some (Z.lxor t (Z.shiftr crc 8)))
    crc data (Z.to_nat length).

(** ** The tables of crc32.c, as gen_crc32table.c computes them *)

(** [for (j = 0; j < LE_TABLE_SIZE; j += 2 * i) table[i + j] = crc ^ table[j]] *)
Fixpoint init_le_fill (fuel : nat) (table : list Z) (size i j crc : Z) : option (list Z) :=
  match fuel with
  | O => None
  | S fuel =>
    if j <? size then
      t ← rd table j; table ← wr table (i + j) (Z.lxor crc t); init_le_fill fuel table size i (j + 2 * i) crc
    else Some table
  end.
Fixpoint init_le_loop (fuel : nat) (table : list Z) (size i crc : Z) : option (list Z) :=
  match fuel with
  | O => None
  | S fuel =>
    if i =? 0 then Some table
    else
      let crc := le_bit CRCPOLY_LE crc in
      table ← init_le_fill (S (Z.to_nat size)) table size i 0 crc;
      init_le_loop fuel table size (Z.shiftr i 1) crc
  end.
Definition crc32init_le (bits : Z) : option (list Z) :=
  let size := Z.shiftl 1 bits in
  table ← wr (replicate (Z.to_nat size) 0) 0 0;
  init_le_loop (S (Z.to_nat bits)) table size (Z.shiftl 1 (bits - 1)) 1.

Fixpoint init_be_fill (fuel : nat) (table : list Z) (i j crc : Z) : option (list Z) :=
  match fuel with
  | O => None
  | S fuel =>
    if j <? i then
      t ← rd table j; table ← wr table (i + j) (Z.lxor crc t); init_be_fill fuel table i (j + 1) crc
    else Some table
  end.
Fixpoint init_be_loop (fuel : nat) (table : list Z) (size i crc : Z) : option (list Z) :=
  match fuel with
  | O => None
  | S fuel =>
    if i <? size then
      let crc := be_bit CRCPOLY_BE crc in
      table ← init_be_fill (S (Z.to_nat size)) table i 0 crc;
      init_be_loop fuel table size (Z.shiftl i 1) crc
    else Some table
  end.
Definition crc32init_be (bits : Z) : option (list Z) :=
  let size := Z.shiftl 1 bits in
  table ← wr (replicate (Z.to_nat size) 0) 0 0;
  init_be_loop (S (Z.to_nat bits)) table size 1 0x80000000.

(** include/linux/byteorder/swab.h *)
Definition swab32 (x : Z) : Z :=
  Z.lor (Z.lor (Z.lor (Z.shiftl (Z.land x 0xff) 24) (Z.shiftl (Z.land x 0xff00) 8))
    (Z.shiftr (Z.land x 0xff0000) 8)) (Z.shiftr (Z.land x 0xff000000) 24).

(** The generated tables: [tole] is the identity on a little-endian machine,
    [tobe] swaps the bytes; with fewer than 8 bits neither is applied. *)
Definition crc32table_le (bits : Z) : list Z := default [] (crc32init_le bits).
Definition crc32table_be (bits : Z) : list Z :=
  if bits =? 8 then map swab32 (default [] (crc32init_be bits)) else default [] (crc32init_be bits).

(** ** crc32.c for 8 bits on a little-endian machine

    [p] is the bytes from the pointer on, [addr] its address. *)

Definition DO_CRC (tab : list Z) (crc x : Z) : option Z :=
  t ← rd tab (Z.land (Z.lxor crc x) 255); Some (Z.lxor t (Z.shiftr crc 8)).

(** [do ... while ((--len) && ((long)b)&3)] *)
Fixpoint align_loop (fuel : nat) (tab : list Z) (crc : Z) (p : list Z) (addr len : Z) : option (Z * list Z * Z) :=
  match fuel with
  | O => None
  | S fuel =>
    x ← deref p;
    crc ← DO_CRC tab crc x;
    let p := tail p in let addr := addr + 1 in let len := len - 1 in
    if negb (len =? 0) && negb (Z.land addr 3 =? 0) then align_loop fuel tab crc p addr len
    else Some (crc, p, len)
  end.

(** A little-endian word at the pointer. *)
Definition load_word (p : list Z) : option Z :=
  match p with
  | b0 :: b1 :: b2 :: b3 :: _ =>
    Some (b0 + 2 ^ 8 * b1 + 2 ^ 16 * b2 + 2 ^ 24 * b3)
  | _ => None
  end.

Fixpoint words_loop (fuel : nat) (tab : list Z) (crc : Z) (p : list Z) (len : Z) : option (Z * list Z) :=
  match fuel with
  | O => None
  | S fuel =>
    w ← load_word p;
    let crc := Z.lxor crc w in
    crc ← DO_CRC tab crc 0; crc ← DO_CRC tab crc 0; crc ← DO_CRC tab crc 0; crc ← DO_CRC tab crc 0;
    let p := drop 4 p in let len := len - 1 in
    if negb (len =? 0) then words_loop fuel tab crc p len else Some (crc, p)
  end.

(** [do ... while (--len)] *)
Fixpoint tail_loop (fuel : nat) (tab : list Z) (crc : Z) (p : list Z) (len : Z) : option Z :=
  match fuel with
  | O => None
  | S fuel =>
    x ← deref p;
    crc ← DO_CRC tab crc x;
    let len := len - 1 in
    if negb (len =? 0) then tail_loop fuel tab crc (tail p) len else Some crc
  end.

Definition crc32_body (tab : list Z) (crc : Z) (p : list Z) (addr len : Z) : option Z :=
  '(crc, p, len) ← (if negb (Z.land addr 3 =? 0) && negb (len =? 0)
                    then align_loop (S (Z.to_nat len)) tab crc p addr len else Some (crc, p, len));
  '(crc, p, len) ← (if 4 <=? len then
                      '(crc, p) ← words_loop (S (Z.to_nat len)) tab crc p (Z.shiftr len 2);
                      Some (crc, p, Z.land len 3)
                    else Some (crc, p, len));
  if negb (len =? 0) then tail_loop (S (Z.to_nat len)) tab crc p len else Some crc.

Definition crc32_le (crc : Z) (p : list Z) (addr len : Z) : option Z :=
  crc32_body (crc32table_le 8) crc p addr len.
Definition crc32_be (crc : Z) (p : list Z) (addr len : Z) : option Z :=
  crc ← crc32_body (crc32table_be 8) (swab32 crc) p addr len; Some (swab32 crc).

(** ** The variants for 4 and for 2 bits *)

Fixpoint turns (n : nat) (f : Z -> option Z) (crc : Z) : option Z :=
  match n with O => Some crc | S n => crc ← f crc; turns n f crc end.
Definition crc32_le_small (bits : Z) (crc : Z) (p : list Z) (len : Z) : option Z :=
  crc_loop (fun crc x =>
      turns (Z.to_nat (8 / bits)) (fun crc => t ← rd (crc32table_le bits) (Z.land crc (2 ^ bits - 1));
                                              Some (Z.lxor (Z.shiftr crc bits) t)) (Z.lxor crc x))
    crc p (Z.to_nat len).
Definition crc32_be_small (bits : Z) (crc : Z) (p : list Z) (len : Z) : option Z :=
  crc_loop (fun crc x =>
      turns (Z.to_nat (8 / bits)) (fun crc => t ← rd (crc32table_be bits) (Z.shiftr crc (32 - bits));
                                              Some (Z.lxor (u32 (Z.shiftl crc bits)) t)) (Z.lxor crc (u32 (Z.shiftl x 24))))
    crc p (Z.to_nat len).

(** ** Reference: the shift registers of a polynomial *)

(** Least significant bit first. *)
Definition reg_le (poly c : Z) : Z := Z.lxor (Z.shiftr c 1) (if Z.odd c then poly else 0).
Definition run_le (poly c : Z) (l : list Z) : Z := fold_left (fun c b => Nat.iter 8 (reg_le poly) (Z.lxor c b)) l c.

(** Most significant bit first, in a register of [w] bits. *)
Definition reg_be (w poly c : Z) : Z := Z.lxor (Z.shiftl c 1 mod 2 ^ w) (if Z.testbit c (w - 1) then poly else 0).
Definition run_be (w poly c : Z) (l : list Z) : Z :=
  fold_left (fun c b => Nat.iter 8 (reg_be w poly) (Z.lxor c (Z.shiftl b (w - 8)))) l c.

(** The number that bytes denote, least significant first. *)
Fixpoint number_le (l : list Z) : Z := match l with [] => 0 | b :: l => b + 2 ^ 8 * number_le l end.

Definition bytes (l : list Z) : Prop := Forall is_u8 l.

(** ** The register that shifts right *)

(** A boolean identity of single bits. *)
#[local] Ltac bit_cases := by repeat match goal with |- context [Z.testbit ?z ?j] => destruct (Z.testbit z j) end.

Lemma reg_le_lxor poly a b : reg_le poly (Z.lxor a b) = Z.lxor (reg_le poly a) (reg_le poly b).
Proof.
  unfold reg_le. rewrite Z.shiftr_lxor, <- !Z.bit0_odd, Z.lxor_spec.
  destruct (Z.testbit a 0), (Z.testbit b 0); cbn [xorb]; apply Z.bits_inj'; intros i Hi;
    rewrite ?Z.lxor_spec, ?Z.bits_0; bit_cases.
Qed.

Lemma iter_lxor (f : Z -> Z) n : (forall a b, f (Z.lxor a b) = Z.lxor (f a) (f b)) ->
  forall a b, Nat.iter n f (Z.lxor a b) = Z.lxor (Nat.iter n f a) (Nat.iter n f b).
Proof. intros Hf. induction n as [|n IH]; intros a b; [done|]. simpl. by rewrite IH, Hf. Qed.

Lemma iter_le_shiftl poly n h : Nat.iter n (reg_le poly) (Z.shiftl h (Z.of_nat n)) = h.
Proof.
  revert h. induction n as [|n IH]; intros h; [apply Z.shiftl_0_r|].
  rewrite Nat.iter_succ_r. replace (reg_le poly (Z.shiftl h (Z.of_nat (S n)))) with (Z.shiftl h (Z.of_nat n)); [apply IH|].
  unfold reg_le. rewrite <- Z.bit0_odd, Z.shiftl_spec_low, Z.lxor_0_r by lia. rewrite Z.shiftr_shiftl_l by lia. f_equal. lia.
Qed.

Lemma low_high x k : 0 <= k -> x = Z.lxor (Z.land x (Z.ones k)) (Z.shiftl (Z.shiftr x k) k).
Proof.
  intros Hk. bitwise_as i Hi. destruct (Z.leb_spec 0 i); [|lia]. cbn [andb].
  destruct (Z.leb_spec 0 (i - k)), (Z.ltb_spec i k); try lia; cbn [andb]; rewrite ?andb_true_r, ?andb_false_r.
  - replace (i - k + k) with i by lia. by destruct (Z.testbit x i).
  - by destruct (Z.testbit x i).
Qed.

(** [n] turns in one: the low bits through a table, the others shifted. *)
Lemma iter_le_split poly n x :
  Nat.iter n (reg_le poly) x = Z.lxor (Nat.iter n (reg_le poly) (Z.land x (Z.ones (Z.of_nat n)))) (Z.shiftr x (Z.of_nat n)).
Proof.
  rewrite (low_high x (Z.of_nat n)) at 1 by lia. rewrite iter_lxor by apply reg_le_lxor. by rewrite iter_le_shiftl.
Qed.

(** ** The register that shifts left *)

Lemma reg_be_lxor w poly a b : 0 <= w -> reg_be w poly (Z.lxor a b) = Z.lxor (reg_be w poly a) (reg_be w poly b).
Proof.
  intros Hw. unfold reg_be. rewrite Z.shiftl_lxor, Z.lxor_spec.
  destruct (Z.testbit a (w - 1)), (Z.testbit b (w - 1)); cbn [xorb]; apply Z.bits_inj'; intros i Hi;
    rewrite ?Z.lxor_spec, ?Z.testbit_mod_pow2, ?Z.lxor_spec, ?Z.bits_0 by done;
    destruct (i <? w); bit_cases.
Qed.

Lemma iter_be_shiftl w poly n y : 0 <= y < 2 ^ (w - Z.of_nat n) -> Z.of_nat n <= w ->
  Nat.iter n (reg_be w poly) y = Z.shiftl y (Z.of_nat n).
Proof.
  revert y. induction n as [|n IH]; intros y Hy Hn; [by rewrite Z.shiftl_0_r|].
  rewrite Nat.iter_succ_r. assert (Hp : 2 ^ (w - Z.of_nat n) = 2 * 2 ^ (w - Z.of_nat (S n)))
    by (rewrite <- Z.pow_succ_r by lia; f_equal; lia).
  assert (Hle : 2 ^ (w - Z.of_nat n) <= 2 ^ w) by (apply Z.pow_le_mono_r; lia).
  assert (Hs : reg_be w poly y = Z.shiftl y 1).
  { unfold reg_be. rewrite (testbit_high y (w - Z.of_nat (S n))), Z.lxor_0_r by lia.
    apply Z.mod_small. rewrite Z.shiftl_mul_pow2 by lia. lia. }
  rewrite Hs, IH; [rewrite Z.shiftl_shiftl by lia; f_equal; lia| |lia]. rewrite Z.shiftl_mul_pow2 by lia. lia.
Qed.

Lemma reg_be_range w poly c : 0 < w -> 0 <= poly < 2 ^ w -> 0 <= reg_be w poly c < 2 ^ w.
Proof.
  intros Hw Hp. assert (H0 : 0 <= Z.shiftl c 1 mod 2 ^ w < 2 ^ w) by (apply Z.mod_pos_bound; lia).
  assert (Hn : 0 <= reg_be w poly c).
  { unfold reg_be. apply Z.lxor_nonneg. destruct (Z.testbit c (w - 1)); lia. }
  split; [done|]. apply bounded_of_bits; [lia|done|]. intros i Hi. unfold reg_be. rewrite Z.lxor_spec.
  rewrite (testbit_high _ w) by done. by destruct (Z.testbit c (w - 1)); [rewrite (testbit_high poly w)|rewrite Z.bits_0].
Qed.

Lemma iter_be_range w poly n c : 0 < w -> 0 <= poly < 2 ^ w -> 0 <= c < 2 ^ w -> 0 <= Nat.iter n (reg_be w poly) c < 2 ^ w.
Proof. intros Hw Hp Hc. destruct n; [done|]. by apply reg_be_range. Qed.

Lemma iter_be_split w poly n x : 0 <= x < 2 ^ w -> Z.of_nat n <= w ->
  Nat.iter n (reg_be w poly) x =
    Z.lxor (Nat.iter n (reg_be w poly) (Z.shiftl (Z.shiftr x (w - Z.of_nat n)) (w - Z.of_nat n)))
      (Z.shiftl x (Z.of_nat n) mod 2 ^ w).
Proof.
  intros Hx Hn. rewrite (low_high x (w - Z.of_nat n)) at 1 by lia.
  rewrite Z.lxor_comm, iter_lxor by (intros; apply reg_be_lxor; lia). f_equal.
  rewrite Z.land_ones by lia. rewrite iter_be_shiftl by (try apply Z.mod_pos_bound; lia).
  apply Z.bits_inj'. intros i Hi. rewrite Z.testbit_mod_pow2, !Z.shiftl_spec by lia. rewrite Z.testbit_mod_pow2 by lia. f_equal.
  destruct (Z.ltb_spec (i - Z.of_nat n) (w - Z.of_nat n)), (Z.ltb_spec i w); lia || done.
Qed.

(** ** Bytes *)

Lemma byte_cons b y : is_u8 b -> b + 2 ^ 8 * y = Z.lxor b (Z.shiftl y 8).
Proof.
  intros Hb. rewrite Z.mul_comm, <- Z.shiftl_mul_pow2 by lia. apply Z.add_nocarry_lxor. bitwise_as i Hi.
  destruct (Z.ltb_spec i 8); [rewrite (Z.testbit_neg_r y) by lia; by rewrite !andb_false_r|].
  by rewrite (testbit_high b 8).
Qed.

Lemma shiftr_lxor_byte c b : is_u8 b -> Z.shiftr (Z.lxor c b) 8 = Z.shiftr c 8.
Proof. intros Hb. rewrite Z.shiftr_lxor, (Z.shiftr_div_pow2 b), (Z.div_small b) by (unfold is_u8 in Hb; lia). apply Z.lxor_0_r. Qed.

Lemma land_255 x : 0 <= Z.land x 255 < 256.
Proof. change 255 with (Z.ones 8). rewrite Z.land_ones by lia. by apply Z.mod_pos_bound. Qed.

Lemma bytes_inv b l : bytes (b :: l) -> is_u8 b /\ bytes l.
Proof. intros H. by inversion H. Qed.

(** The loop over the bytes is a fold, under an invariant of the register. *)
Lemma crc_loop_fold (P : Z -> Prop) byte F : (forall c b, P c -> is_u8 b -> byte c b = Some (F c b) /\ P (F c b)) ->
  forall n c l, P c -> bytes l -> (n <= length l)%nat -> crc_loop byte c l n = Some (fold_left F (take n l) c).
Proof.
  intros HF. induction n as [|n IH]; intros c l Hc Hl Hn; [done|]. destruct l as [|b l]; [simpl in Hn; lia|].
  apply bytes_inv in Hl as [Hb Hl]. cbn [crc_loop deref head tail take fold_left].
  destruct (HF c b Hc Hb) as [HF1 HF2]. rewrite some_bind, HF1, some_bind. apply IH; [done|done|simpl in Hn; lia].
Qed.

(** ** The tables hold the eight turns of each byte *)

Definition table_le (poly : Z) (n : nat) (tab : list Z) : bool :=
  forallb (fun i => match rd tab i with Some t => t =? Nat.iter n (reg_le poly) i | None => false end)
    (seqZ 0 (2 ^ Z.of_nat n)).
Definition table_be (w poly : Z) (n : nat) (tab : list Z) : bool :=
  forallb (fun i => match rd tab i with
                    | Some t => t =? Nat.iter n (reg_be w poly) (Z.shiftl i (w - Z.of_nat n)) | None => false end)
    (seqZ 0 (2 ^ Z.of_nat n)).

Lemma table_le_rd poly n tab i : table_le poly n tab = true -> 0 <= i < 2 ^ Z.of_nat n ->
  rd tab i = Some (Nat.iter n (reg_le poly) i).
Proof.
  intros Ht Hi. apply (forall_range _ _ Ht) in Hi. destruct (rd tab i) as [t|]; [|done]. f_equal. lia.
Qed.

Lemma table_be_rd w poly n tab i : table_be w poly n tab = true -> 0 <= i < 2 ^ Z.of_nat n ->
  rd tab i = Some (Nat.iter n (reg_be w poly) (Z.shiftl i (w - Z.of_nat n))).
Proof.
  intros Ht Hi. apply (forall_range _ _ Ht) in Hi. destruct (rd tab i) as [t|]; [|done]. f_equal. lia.
Qed.

Lemma crc16_table_ok : table_le 0xA001 8 crc16_table = true.
Proof. vm_compute. reflexivity. Qed.
Lemma crc_ccitt_table_ok : table_le 0x8408 8 crc_ccitt_table = true.
Proof. vm_compute. reflexivity. Qed.
Lemma crc32c_table_ok : table_le 0x82F63B78 8 crc32c_table = true.
Proof. vm_compute. reflexivity. Qed.
Lemma crc32_tables_ok : table_le CRCPOLY_LE 8 (crc32table_le 8) = true /\ table_le CRCPOLY_LE 4 (crc32table_le 4) = true /\
  table_le CRCPOLY_LE 2 (crc32table_le 2) = true /\ table_be 32 CRCPOLY_BE 4 (crc32table_be 4) = true /\
  table_be 32 CRCPOLY_BE 2 (crc32table_be 2) = true.
Proof. vm_compute. repeat split. Qed.
Lemma crc_itu_t_table_ok : table_be 16 0x1021 8 crc_itu_t_table = true.
Proof. vm_compute. reflexivity. Qed.
Lemma crc7_table_ok : table_be 8 0x12 8 (map (fun t => Z.shiftl t 1) crc7_syndrome_table) = true.
Proof. vm_compute. reflexivity. Qed.

(** ** Table driven is bit at a time *)

Lemma byte_le poly tab c b : table_le poly 8 tab = true -> is_u8 b ->
  exists t, rd tab (Z.land (Z.lxor c b) 255) = Some t /\ Nat.iter 8 (reg_le poly) (Z.lxor c b) = Z.lxor (Z.shiftr c 8) t.
Proof.
  intros Ht Hb. eexists. split; [apply (table_le_rd poly 8); [done|apply land_255]|].
  rewrite iter_le_split. change (Z.of_nat 8) with 8. rewrite shiftr_lxor_byte by done. apply Z.lxor_comm.
Qed.

Lemma loop_le poly tab byte c l n : table_le poly 8 tab = true ->
  (forall c b, byte c b = t ← rd tab (Z.land (Z.lxor c b) 255); Some (Z.lxor (Z.shiftr c 8) t)) ->
  bytes l -> (n <= length l)%nat -> crc_loop byte c l n = Some (run_le poly c (take n l)).
Proof.
  intros Ht Hbyte Hl Hn. unfold run_le. apply (crc_loop_fold (fun _ => True)); [|done..].
  intros c' b _ Hb. split; [|done]. rewrite Hbyte. destruct (byte_le poly tab c' b Ht Hb) as (t&->&->). done.
Qed.

Lemma crc_itu_t_run c l n : is_u16 c -> bytes l -> (n <= length l)%nat ->
  crc_loop crc_itu_t_byte c l n = Some (run_be 16 0x1021 c (take n l)).
Proof.
  intros Hc Hl Hn. unfold run_be. apply (crc_loop_fold is_u16); [|done..]. clear. intros c b Hc Hb.
  assert (Hx : 0 <= Z.lxor c (Z.shiftl b 8) < 2 ^ 16).
  { unfold is_u8, is_u16 in *. assert (0 <= Z.shiftl b 8) by (rewrite Z.shiftl_mul_pow2; lia).
    assert (0 <= Z.lxor c (Z.shiftl b 8)) by (apply Z.lxor_nonneg; lia). split; [done|]. apply bounded_of_bits; [lia|done|].
    intros i Hi. rewrite Z.lxor_spec, Z.shiftl_spec by lia. rewrite (testbit_high c 16), (testbit_high b 8) by lia. done. }
  assert (Hhi : Z.land (Z.lxor (Z.shiftr c 8) b) 255 = Z.shiftr (Z.lxor c (Z.shiftl b 8)) 8).
  { rewrite Z.shiftr_lxor, Z.shiftr_shiftl_l, Z.sub_diag, Z.shiftl_0_r by lia. change 255 with (Z.ones 8).
    rewrite Z.land_ones by lia. apply Z.mod_small.
    replace (Z.lxor (Z.shiftr c 8) b) with (Z.shiftr (Z.lxor c (Z.shiftl b 8)) 8)
      by (rewrite Z.shiftr_lxor, Z.shiftr_shiftl_l, Z.sub_diag, Z.shiftl_0_r by lia; done).
    rewrite Z.shiftr_div_pow2 by lia. clear - Hx. Z.to_euclidean_division_equations. lia. }
  pose proof (iter_be_range 16 0x1021 8 _ ltac:(lia) ltac:(lia) Hx) as Hr.
  split; [|done]. unfold crc_itu_t_byte.
  rewrite (table_be_rd 16 0x1021 8 _ _ crc_itu_t_table_ok) by apply land_255. rewrite some_bind. f_equal. rewrite Hhi.
  change (16 - Z.of_nat 8) with 8. change (16 - 8) with 8 in *. rewrite (iter_be_split 16 0x1021 8 (Z.lxor c (Z.shiftl b 8))) by (done || lia). change (16 - Z.of_nat 8) with 8. change (Z.of_nat 8) with 8.
  rewrite Z.lxor_comm.
  set (t := Nat.iter 8 (reg_be 16 4129) (Z.shiftl (Z.shiftr (Z.lxor c (Z.shiftl b 8)) 8) 8)).
  assert (Ht : 0 <= t < 2 ^ 16).
  { apply iter_be_range; [lia|lia|]. rewrite <- Hhi, Z.shiftl_mul_pow2 by lia. pose proof (land_255 (Z.lxor (Z.shiftr c 8) b)). lia. }
  bitwise_as i Hi. rewrite Z.testbit_mod_pow2, shiftl_testbit by lia. autorewrite with kbits.
  destruct (Z.ltb_spec i 16); cbn [andb]; [|rewrite (testbit_high t 16) by lia; done].
  replace ((0 <=? i) && Z.testbit c (i - 8)) with (Z.testbit c (i - 8)) by (destruct (Z.leb_spec 0 i); [done|lia]).
  destruct (Z.leb_spec 0 i); [|lia]. cbn [andb].
  destruct (Z.leb_spec 0 (i - 8)); cbn [andb].
  - rewrite (Z.testbit_neg_r b (i - 8 - 8)) by lia. bit_cases.
  - rewrite (Z.testbit_neg_r c) by lia. bit_cases.
Qed.

Lemma lxor_bytes a b : is_u8 a -> is_u8 b -> is_u8 (Z.lxor a b).
Proof.
  unfold is_u8. intros Ha Hb. assert (0 <= Z.lxor a b) by (apply Z.lxor_nonneg; lia). split; [done|].
  apply bounded_of_bits; [lia|done|]. intros i Hi. by rewrite Z.lxor_spec, !(testbit_high _ 8).
Qed.

Lemma crc7_table_rd x : is_u8 x ->
  rd (map (fun t => Z.shiftl t 1) crc7_syndrome_table) x = Some (Nat.iter 8 (reg_be 8 0x12) x).
Proof.
  intros Hx. rewrite (table_be_rd 8 0x12 8 _ _ crc7_table_ok Hx). change (8 - Z.of_nat 8) with 0.
  rewrite Z.shiftl_0_r. reflexivity.
Qed.

Lemma crc7_step c b : 0 <= c < 128 -> is_u8 b ->
  exists r, crc7_byte c b = Some r /\ 0 <= r < 128 /\
    Z.shiftl r 1 = Nat.iter 8 (reg_be 8 0x12) (Z.lxor (Z.shiftl c 1) b).
Proof.
  intros Hc Hb. assert (Hx : is_u8 (Z.lxor (Z.shiftl c 1) b))
    by (apply lxor_bytes; [rewrite Z.shiftl_mul_pow2 by lia; unfold is_u8; lia|done]).
  pose proof (iter_be_range 8 0x12 8 _ ltac:(lia) ltac:(lia) Hx) as Hr.
  pose proof (crc7_table_rd _ Hx) as Ht. rewrite rd_map in Ht. apply fmap_Some in Ht as (r&Er&Ht).
  exists r. split; [exact Er|]. split; [|by symmetry]. rewrite Ht, Z.shiftl_mul_pow2 in Hr by lia. lia.
Qed.

Lemma run_be_cons w poly c b l :
  run_be w poly c (b :: l) = run_be w poly (Nat.iter 8 (reg_be w poly) (Z.lxor c (Z.shiftl b (w - 8)))) l.
Proof. reflexivity. Qed.

Lemma crc7_run n : forall c l, 0 <= c < 128 -> bytes l -> (n <= length l)%nat ->
  exists r, crc_loop crc7_byte c l n = Some r /\ 0 <= r < 128 /\ Z.shiftl r 1 = run_be 8 0x12 (Z.shiftl c 1) (take n l).
Proof.
  induction n as [|n IH]; intros c l Hc Hl Hn; [by exists c|]. destruct l as [|b l]; [simpl in Hn; lia|].
  apply bytes_inv in Hl as [Hb Hl]. cbn [crc_loop deref head tail take]. rewrite some_bind.
  destruct (crc7_step c b Hc Hb) as (r&->&Hr&Ht). rewrite some_bind.
  destruct (IH r l) as (r'&E&Hr'&Hrun); [lia|done|simpl in Hn; lia|]. exists r'. do 2 (split; [done|]).
  rewrite Hrun, Ht, run_be_cons, Z.sub_diag, Z.shiftl_0_r. reflexivity.
Qed.

(** ** Bits and words *)

Lemma be_bit_reg poly c : be_bit poly c = reg_be 32 poly c.
Proof.
  unfold be_bit, reg_be. fold (u32 (Z.shiftl c 1)). f_equal. change (32 - 1) with 31.
  assert (E : Z.land c 0x80000000 = if Z.testbit c 31 then 2 ^ 31 else 0).
  { change 0x80000000 with (2 ^ 31). apply Z.bits_inj'. intros i Hi. rewrite Z.land_spec, Z.pow2_bits_eqb by lia.
    destruct (Z.eqb_spec 31 i) as [<-|Hne].
    - destruct (Z.testbit c 31); [by rewrite Z.pow2_bits_eqb|by rewrite Z.bits_0].
    - destruct (Z.testbit c 31); [rewrite Z.pow2_bits_eqb by lia; destruct (Z.eqb_spec 31 i); [lia|]|rewrite Z.bits_0];
      by destruct (Z.testbit c i). }
  rewrite E. by destruct (Z.testbit c 31).
Qed.

Lemma le_bit_reg poly c : le_bit poly c = reg_le poly c.
Proof.
  unfold le_bit, reg_le. f_equal. change 1 with (Z.ones 1) at 1. rewrite Z.land_ones by lia. rewrite Zodd_mod.
  change (2 ^ 1) with 2. pose proof (Z.mod_pos_bound c 2). zcases; try done; lia.
Qed.

Lemma iter_ext (f g : Z -> Z) n c : (forall x, f x = g x) -> Nat.iter n f c = Nat.iter n g c.
Proof. intros H. induction n as [|n IH]; [done|]. simpl. by rewrite IH, H. Qed.

Section body.
  Context (tab : list Z) (T : Z -> Z) (HT : forall i, 0 <= i < 256 -> rd tab i = Some (T i)).

Definition turn8 (s : Z) : Z := Z.lxor (T (Z.land s 255)) (Z.shiftr s 8).

#[local] Abbreviation run := (fold_left (fun s b => turn8 (Z.lxor s b))).

Lemma DO_CRC_turn8 s x : is_u8 x -> DO_CRC tab s x = Some (turn8 (Z.lxor s x)).
Proof.
  intros Hx. unfold DO_CRC, turn8. rewrite HT by apply land_255. rewrite some_bind. by rewrite shiftr_lxor_byte.
Qed.

Lemma turn8_shift x y : turn8 (Z.lxor x (Z.shiftl y 8)) = Z.lxor (turn8 x) y.
Proof.
  unfold turn8. rewrite Z.shiftr_lxor, Z.shiftr_shiftl_l, Z.sub_diag, Z.shiftl_0_r, Z.lxor_assoc by lia. do 2 f_equal.
  apply Z.bits_inj'. intros i Hi. rewrite !Z.land_spec, Z.lxor_spec, Z.shiftl_spec by lia. change 255 with (Z.ones 8).
  rewrite ones_testbit by lia. destruct (Z.ltb_spec i 8); [rewrite (Z.testbit_neg_r y) by lia; by rewrite xorb_false_r|].
  by rewrite !andb_false_r.
Qed.

(** Four turns on a word are the turns on its four bytes. *)
Lemma word_turns s b0 b1 b2 b3 : is_u8 b0 -> is_u8 b1 -> is_u8 b2 -> is_u8 b3 ->
  turn8 (turn8 (turn8 (turn8 (Z.lxor s (b0 + 2 ^ 8 * b1 + 2 ^ 16 * b2 + 2 ^ 24 * b3))))) = run [b0; b1; b2; b3] s.
Proof.
  intros H0 H1 H2 H3.
  replace (b0 + 2 ^ 8 * b1 + 2 ^ 16 * b2 + 2 ^ 24 * b3) with (b0 + 2 ^ 8 * (b1 + 2 ^ 8 * (b2 + 2 ^ 8 * b3))) by lia.
  cbn [fold_left]. rewrite (byte_cons b0), <- Z.lxor_assoc, turn8_shift by done.
  rewrite (byte_cons b1), <- Z.lxor_assoc, turn8_shift by done.
  rewrite (byte_cons b2), <- Z.lxor_assoc, turn8_shift by done. done.
Qed.

Lemma bytes_drop n l : bytes l -> bytes (drop n l).
Proof. apply Forall_drop. Qed.

Lemma align_loop_run fuel : forall s p addr len, bytes p -> 0 < len <= zlen p -> (Z.to_nat len <= fuel)%nat ->
  exists k, (k <= Z.to_nat len)%nat /\ align_loop fuel tab s p addr len = Some (run (take k p) s, drop k p, len - Z.of_nat k).
Proof.
  induction fuel as [|fuel IH]; intros s p addr len Hp Hlen Hf; [lia|]. destruct p as [|b p]; [simpl in Hlen; lia|].
  apply bytes_inv in Hp as [Hb Hp]. cbn [align_loop deref head tail]. rewrite some_bind, DO_CRC_turn8, some_bind by done.
  destruct (negb _ && negb _) eqn:Ec.
  - bool_to_prop. destruct (IH (turn8 (Z.lxor s b)) p (addr + 1) (len - 1)) as (k&Hk&->); [done|simpl in Hlen; lia|lia|].
    exists (S k). split; [lia|]. cbn [take drop fold_left]. do 2 f_equal. lia.
  - exists 1%nat. split; [lia|]. cbn [take drop fold_left]. rewrite take_0, drop_0. by replace (Z.of_nat 1) with 1 by lia.
Qed.

Lemma words_loop_run fuel : forall s p len, bytes p -> 0 < len -> 4 * len <= zlen p -> (Z.to_nat len <= fuel)%nat ->
  words_loop fuel tab s p len = Some (run (take (4 * Z.to_nat len) p) s, drop (4 * Z.to_nat len) p).
Proof.
  induction fuel as [|fuel IH]; intros s p len Hp Hlen Hz Hf; [lia|].
  destruct p as [|b0 [|b1 [|b2 [|b3 p]]]]; try (simpl in Hz; lia).
  apply bytes_inv in Hp as [H0 Hp]. apply bytes_inv in Hp as [H1 Hp]. apply bytes_inv in Hp as [H2 Hp]. apply bytes_inv in Hp as [H3 Hp].
  cbn [words_loop load_word]. rewrite some_bind. assert (Hz0 : is_u8 0) by done.
  do 4 (rewrite DO_CRC_turn8, some_bind, ?Z.lxor_0_r by done). rewrite word_turns by done.
  replace (4 * Z.to_nat len)%nat with (4 + 4 * Z.to_nat (len - 1))%nat by lia. cbn [take drop Nat.add].
  destruct (Z.eqb_spec (len - 1) 0) as [->|Hne]; cbn [negb].
  - cbn [fold_left]. change (4 * Z.to_nat 0)%nat with 0%nat. rewrite take_0, drop_0. done.
  - rewrite drop_0. rewrite IH; [done|done|lia|cbn [length] in Hz; lia|lia].
Qed.

Lemma tail_loop_run fuel : forall s p len, bytes p -> 0 < len <= zlen p -> (Z.to_nat len <= fuel)%nat ->
  tail_loop fuel tab s p len = Some (run (take (Z.to_nat len) p) s).
Proof.
  induction fuel as [|fuel IH]; intros s p len Hp Hlen Hf; [lia|]. destruct p as [|b p]; [simpl in Hlen; lia|].
  apply bytes_inv in Hp as [Hb Hp]. cbn [tail_loop deref head tail]. rewrite some_bind, DO_CRC_turn8, some_bind by done.
  replace (Z.to_nat len) with (S (Z.to_nat (len - 1))) by lia. cbn [take fold_left].
  destruct (Z.eqb_spec (len - 1) 0) as [->|Hne]; cbn [negb]; [by rewrite take_0|]. apply IH; [done|simpl in Hlen; lia|lia].
Qed.

(** The alignment, the words and the rest together. *)
Lemma crc32_body_run s p addr len : bytes p -> 0 <= len <= zlen p ->
  crc32_body tab s p addr len = Some (run (take (Z.to_nat len) p) s).
Proof.
  intros Hp Hlen. unfold crc32_body.
  assert (Ha : exists k, (k <= Z.to_nat len)%nat /\ (if negb (Z.land addr 3 =? 0) && negb (len =? 0)
       then align_loop (S (Z.to_nat len)) tab s p addr len else Some (s, p, len)) =
       Some (run (take k p) s, drop k p, len - Z.of_nat k)).
  { destruct (negb _ && negb _) eqn:Ec.
    - bool_to_prop. apply align_loop_run; [done|lia|lia].
    - exists 0%nat. split; [lia|]. rewrite take_0, drop_0. by rewrite Z.sub_0_r. }
  destruct Ha as (k&Hk&->). rewrite some_bind. set (s1 := run (take k p) s). set (n := len - Z.of_nat k).
  assert (Hp1 : bytes (drop k p)) by (by apply bytes_drop).
  assert (Hl1 : n <= zlen (drop k p)) by (rewrite length_drop; lia).
  assert (Hsplit : take (Z.to_nat len) p = take k p ++ take (Z.to_nat n) (drop k p)).
  { rewrite <- (take_drop k (take (Z.to_nat len) p)). rewrite take_take, skipn_firstn_comm. do 2 f_equal; lia. }
  rewrite Hsplit, fold_left_app. fold s1.
  assert (Hw : exists j, 0 <= j <= n /\ (if 4 <=? n then
                      '(crc, p) ← words_loop (S (Z.to_nat n)) tab s1 (drop k p) (Z.shiftr n 2); Some (crc, p, Z.land n 3)
                    else Some (s1, drop k p, n)) =
       Some (run (take (Z.to_nat j) (drop k p)) s1, drop (Z.to_nat j) (drop k p), n - j)).
  { destruct (Z.leb_spec 4 n).
    - assert (Hq : n = 4 * Z.shiftr n 2 + Z.land n 3 /\ 0 <= Z.land n 3 < 4).
      { change 3 with (Z.ones 2). rewrite Z.land_ones, Z.shiftr_div_pow2 by lia. clear. Z.to_euclidean_division_equations. lia. }
      exists (4 * Z.shiftr n 2). split; [lia|]. rewrite words_loop_run, some_bind by (done || lia).
      replace (Z.to_nat (4 * Z.shiftr n 2)) with (4 * Z.to_nat (Z.shiftr n 2))%nat by lia. do 2 f_equal. lia.
    - exists 0. split; [lia|]. rewrite take_0, drop_0. by rewrite Z.sub_0_r. }
  destruct Hw as (j&Hj&->). rewrite some_bind.
  assert (Hs2 : take (Z.to_nat n) (drop k p) = take (Z.to_nat j) (drop k p) ++ take (Z.to_nat (n - j)) (drop (Z.to_nat j) (drop k p))).
  { rewrite <- (take_drop (Z.to_nat j) (take (Z.to_nat n) (drop k p))). rewrite take_take, skipn_firstn_comm. do 2 f_equal; lia. }
  rewrite Hs2, fold_left_app. destruct (Z.eqb_spec (n - j) 0) as [->|Hne]; cbn [negb]; [by rewrite take_0|].
  apply tail_loop_run; [by apply bytes_drop|rewrite length_drop; lia|lia].
Qed.

End body.

(** ** Swapped bytes *)

#[local] Ltac each_bit i :=
  let H := fresh in
  assert (H : i = 0 \/ i = 1 \/ i = 2 \/ i = 3 \/ i = 4 \/ i = 5 \/ i = 6 \/ i = 7 \/ i = 8 \/ i = 9 \/ i = 10 \/ i = 11 \/
    i = 12 \/ i = 13 \/ i = 14 \/ i = 15 \/ i = 16 \/ i = 17 \/ i = 18 \/ i = 19 \/ i = 20 \/ i = 21 \/ i = 22 \/ i = 23 \/
    i = 24 \/ i = 25 \/ i = 26 \/ i = 27 \/ i = 28 \/ i = 29 \/ i = 30 \/ i = 31) by lia;
  repeat (destruct H as [->|H]; [|]); [..|subst i].

Lemma swab32_testbit x i : Z.testbit (swab32 x) i = (0 <=? i) && (i <? 32) && Z.testbit x (i + 24 - 16 * (i / 8)).
Proof.
  destruct (Z.leb_spec 0 i), (Z.ltb_spec i 32); cbn [andb]; [|..]; try (by apply Z.testbit_neg_r).
  - unfold swab32. rewrite !Z.lor_spec, !shiftl_testbit, !shiftr_testbit, !Z.land_spec.
    each_bit i; cbn -[Z.testbit]; rewrite ?andb_false_r, ?andb_true_r, ?orb_false_r; done.
  - unfold swab32. rewrite !Z.lor_spec, !shiftl_testbit, !shiftr_testbit, !Z.land_spec.
    rewrite (testbit_high 0xff 8 (i - 24)), (testbit_high 0xff00 16 (i - 8)), (testbit_high 0xff0000 24 (i + 8)),
      (testbit_high 0xff000000 32 (i + 24)) by lia. by rewrite !andb_false_r.
Qed.

Lemma swab32_lxor a b : swab32 (Z.lxor a b) = Z.lxor (swab32 a) (swab32 b).
Proof.
  apply Z.bits_inj'. intros i Hi. rewrite Z.lxor_spec, !swab32_testbit, Z.lxor_spec.
  by destruct ((0 <=? i) && (i <? 32)).
Qed.

Lemma swab32_range x : is_u32 (swab32 x).
Proof.
  assert (H0 : 0 <= swab32 x).
  { unfold swab32. rewrite !Z.lor_nonneg, !Z.shiftl_nonneg, !Z.shiftr_nonneg, !Z.land_nonneg. lia. }
  split; [done|]. apply bounded_of_bits; [lia|done|]. intros i Hi. rewrite swab32_testbit.
  destruct (Z.ltb_spec i 32); [lia|]. by rewrite andb_false_r.
Qed.

Lemma swab32_swab32 x : is_u32 x -> swab32 (swab32 x) = x.
Proof.
  intros Hx. apply Z.bits_inj'. intros i Hi. rewrite !swab32_testbit.
  destruct (Z.leb_spec 0 i); [|lia]. destruct (Z.ltb_spec i 32); cbn [andb]; [|by rewrite (testbit_high x 32)].
  assert (Hj : 0 <= i + 24 - 16 * (i / 8) < 32) by (Z.to_euclidean_division_equations; lia).
  destruct (Z.leb_spec 0 (i + 24 - 16 * (i / 8))), (Z.ltb_spec (i + 24 - 16 * (i / 8)) 32); try lia. cbn [andb]. f_equal.
  clear - Hi H0. Z.to_euclidean_division_equations; lia.
Qed.

Lemma swab32_shiftl8 y : swab32 (u32 (Z.shiftl y 8)) = Z.shiftr (swab32 y) 8.
Proof.
  apply Z.bits_inj'. intros i Hi. rewrite Z.shiftr_spec, !swab32_testbit, u32_testbit, shiftl_testbit by lia.
  destruct (Z.leb_spec 0 i); [|lia]. destruct (Z.leb_spec 0 (i + 8)); [|lia]. destruct (Z.ltb_spec i 32), (Z.ltb_spec (i + 8) 32); cbn [andb]; try lia; try done.
  - destruct (Z.ltb_spec (i + 24 - 16 * (i / 8)) 32), (Z.leb_spec 0 (i + 24 - 16 * (i / 8)));
      cbn [andb]; try (exfalso; clear - Hi H1 H2 H3 H4; Z.to_euclidean_division_equations; lia).
    f_equal. clear. Z.to_euclidean_division_equations; lia.
  - rewrite Z.testbit_neg_r by (clear - H1 H2; Z.to_euclidean_division_equations; lia). by rewrite !andb_false_r.
Qed.

Lemma swab32_low_byte y : is_u32 y -> Z.land (swab32 y) 255 = Z.shiftr y 24.
Proof.
  intros Hy. apply Z.bits_inj'. intros i Hi. change 255 with (Z.ones 8).
  rewrite Z.land_spec, ones_testbit, swab32_testbit, Z.shiftr_spec by lia.
  destruct (Z.leb_spec 0 i); [|lia]. destruct (Z.ltb_spec i 8), (Z.ltb_spec i 32); try lia; cbn [andb]; rewrite ?andb_true_r, ?andb_false_r.
  - f_equal. rewrite (Z.div_small i 8) by lia. lia.
  - by rewrite (testbit_high y 32) by (done || lia).
  - by rewrite (testbit_high y 32) by (done || lia).
Qed.

Lemma shiftl_byte_24 b : is_u8 b -> is_u32 (Z.shiftl b 24).
Proof. intros Hb. rewrite Z.shiftl_mul_pow2 by lia. unfold is_u8, is_u32 in *. lia. Qed.

Lemma swab32_byte b : is_u8 b -> swab32 (Z.shiftl b 24) = b.
Proof.
  intros Hb. apply Z.bits_inj'. intros i Hi. rewrite swab32_testbit, shiftl_testbit.
  destruct (Z.leb_spec 0 i); [|lia]. destruct (Z.ltb_spec i 8).
  - rewrite (Z.div_small i 8) by lia. destruct (Z.ltb_spec i 32); [|lia].
    destruct (Z.leb_spec 0 (i + 24 - 16 * 0)); [|lia]. cbn [andb]. f_equal. lia.
  - rewrite (testbit_high b 8 i) by done.
    rewrite (Z.testbit_neg_r b) by (clear - H0; Z.to_euclidean_division_equations; lia). by rewrite !andb_false_r.
Qed.

Lemma lxor_u32 a b : is_u32 a -> is_u32 b -> is_u32 (Z.lxor a b).
Proof.
  unfold is_u32. intros Ha Hb. assert (0 <= Z.lxor a b) by (apply Z.lxor_nonneg; lia). split; [done|].
  apply bounded_of_bits; [lia|done|]. intros i Hi. by rewrite Z.lxor_spec, !(testbit_high _ 32).
Qed.

(** ** crc32.c: the variants *)

Lemma turn8_le poly s : turn8 (fun i => Nat.iter 8 (reg_le poly) i) s = Nat.iter 8 (reg_le poly) s.
Proof. unfold turn8. by rewrite (iter_le_split poly 8 s). Qed.

Lemma fold_left_cons {A B} (f : A -> B -> A) a b l : fold_left f (b :: l) a = fold_left f l (f a b).
Proof. reflexivity. Qed.

Lemma le_runs poly l : forall c,
  fold_left (fun s b => turn8 (fun i => Nat.iter 8 (reg_le poly) i) (Z.lxor s b)) l c = run_le poly c l.
Proof.
  unfold run_le. induction l as [|b l IH]; intros c; [reflexivity|]. rewrite !fold_left_cons, turn8_le. apply IH.
Qed.

Lemma crc32_le_rd i : 0 <= i < 256 -> rd (crc32table_le 8) i = Some (Nat.iter 8 (reg_le CRCPOLY_LE) i).
Proof. intros Hi. by apply (table_le_rd _ 8); [apply crc32_tables_ok|]. Qed.

Lemma crc32_le_run c p addr len : bytes p -> 0 <= len <= zlen p ->
  crc32_le c p addr len = Some (run_le CRCPOLY_LE c (take (Z.to_nat len) p)).
Proof.
  intros Hp Hlen. unfold crc32_le. rewrite (crc32_body_run _ _ crc32_le_rd) by done. f_equal. apply le_runs.
Qed.

Definition be_entry (i : Z) : Z := swab32 (Nat.iter 8 (reg_be 32 CRCPOLY_BE) (Z.shiftl i 24)).

Lemma crc32_be_table_ok : table_be 32 CRCPOLY_BE 8 (default [] (crc32init_be 8)) = true.
Proof. vm_compute. reflexivity. Qed.

Lemma crc32_be_rd i : 0 <= i < 256 -> rd (crc32table_be 8) i = Some (be_entry i).
Proof.
  intros Hi. change (crc32table_be 8) with (map swab32 (default [] (crc32init_be 8))). rewrite rd_map.
  rewrite (table_be_rd 32 CRCPOLY_BE 8 _ _ crc32_be_table_ok) by exact Hi.
  unfold be_entry. by replace (32 - Z.of_nat 8) with 24 by reflexivity.
Qed.

Lemma turn8_be c b : is_u32 c -> is_u8 b ->
  turn8 be_entry (Z.lxor (swab32 c) b) = swab32 (Nat.iter 8 (reg_be 32 CRCPOLY_BE) (Z.lxor c (Z.shiftl b 24))).
Proof.
  intros Hc Hb. set (y := Z.lxor c (Z.shiftl b 24)).
  assert (Hy : is_u32 y) by (apply lxor_u32; [done|by apply shiftl_byte_24]).
  replace (Z.lxor (swab32 c) b) with (swab32 y) by (unfold y; by rewrite swab32_lxor, (swab32_byte b)).
  clearbody y. unfold turn8, be_entry. rewrite swab32_low_byte, <- swab32_shiftl8, <- swab32_lxor by done. f_equal.
  rewrite (iter_be_split 32 CRCPOLY_BE 8 y) by (done || lia).
  by replace (32 - Z.of_nat 8) with 24 by reflexivity.
Qed.

Lemma be_runs l : forall c, is_u32 c -> bytes l ->
  swab32 (fold_left (fun s b => turn8 be_entry (Z.lxor s b)) l (swab32 c)) = run_be 32 CRCPOLY_BE c l.
Proof.
  induction l as [|b l IH]; intros c Hc Hl; [unfold run_be, fold_left; by apply swab32_swab32|].
  apply bytes_inv in Hl as [Hb Hl]. rewrite run_be_cons, fold_left_cons, turn8_be by done.
  replace (32 - 8) with 24 by reflexivity. apply IH; [|done].
  apply iter_be_range; [lia|unfold CRCPOLY_BE; lia|]. apply lxor_u32; [done|by apply shiftl_byte_24].
Qed.

Lemma crc32_be_run c p addr len : is_u32 c -> bytes p -> 0 <= len <= zlen p ->
  crc32_be c p addr len = Some (run_be 32 CRCPOLY_BE c (take (Z.to_nat len) p)).
Proof.
  intros Hc Hp Hlen. unfold crc32_be. rewrite (crc32_body_run _ be_entry crc32_be_rd) by done. rewrite some_bind. f_equal.
  apply be_runs; [done|by apply Forall_take].
Qed.

Lemma turns_iter (P : Z -> Prop) f g k n : (forall c, P c -> f c = Some (Nat.iter k g c) /\ P (Nat.iter k g c)) ->
  forall c, P c -> turns n f c = Some (Nat.iter (n * k) g c).
Proof.
  intros Hf. induction n as [|n IH]; intros c Hc; [done|]. cbn [turns]. destruct (Hf c Hc) as [-> Hc'].
  rewrite some_bind, IH by done. f_equal. rewrite <- Nat.iter_add. f_equal. lia.
Qed.

Lemma crc32_le_small_run k n bits c p len : (n * k = 8)%nat -> bits = Z.of_nat k -> Z.to_nat (8 / bits) = n ->
  table_le CRCPOLY_LE k (crc32table_le bits) = true -> bytes p -> 0 <= len <= zlen p ->
  crc32_le_small bits c p len = Some (run_le CRCPOLY_LE c (take (Z.to_nat len) p)).
Proof.
  intros Hnk -> Hn Ht Hp Hlen. unfold crc32_le_small, run_le. rewrite Hn.
  apply (crc_loop_fold (fun _ => True)); [|done|done|lia]. intros s b _ Hb. split; [|done].
  rewrite (turns_iter (fun _ => True) _ (reg_le CRCPOLY_LE) k n); [by rewrite Hnk| |done].
  intros x _. split; [|done].
  assert (Hi : 0 <= Z.land x (2 ^ Z.of_nat k - 1) < 2 ^ Z.of_nat k) by (rewrite land_mask by lia; apply Z.mod_pos_bound; lia).
  rewrite (table_le_rd _ k) by done. rewrite some_bind. f_equal. rewrite Z.lxor_comm.
  rewrite (iter_le_split CRCPOLY_LE k x), Z.ones_equiv, <- Z.sub_1_r. done.
Qed.

Lemma crc32_be_small_run k n bits c p len : (n * k = 8)%nat -> bits = Z.of_nat k -> Z.to_nat (8 / bits) = n ->
  table_be 32 CRCPOLY_BE k (crc32table_be bits) = true -> is_u32 c -> bytes p -> 0 <= len <= zlen p ->
  crc32_be_small bits c p len = Some (run_be 32 CRCPOLY_BE c (take (Z.to_nat len) p)).
Proof.
  intros Hnk -> Hn Ht Hc Hp Hlen. unfold crc32_be_small, run_be. rewrite Hn. assert (Hk : (k <= 8)%nat) by nia.
  assert (Hr : forall m x, is_u32 x -> is_u32 (Nat.iter m (reg_be 32 CRCPOLY_BE) x))
    by (intros m x Hx; apply iter_be_range; [lia|unfold CRCPOLY_BE; lia|done]).
  apply (crc_loop_fold is_u32); [|done|done|lia]. intros s b Hs Hb. change (32 - 8) with 24.
  rewrite u32_small by (by apply shiftl_byte_24).
  assert (Hx : is_u32 (Z.lxor s (Z.shiftl b 24))) by (apply lxor_u32; [done|by apply shiftl_byte_24]).
  split; [|by apply Hr]. rewrite (turns_iter is_u32 _ (reg_be 32 CRCPOLY_BE) k n); [by rewrite Hnk| |done].
  intros x Hx'. split; [|by apply Hr].
  assert (Hi : 0 <= Z.shiftr x (32 - Z.of_nat k) < 2 ^ Z.of_nat k).
  { rewrite Z.shiftr_div_pow2 by lia. split; [apply Z.div_pos; [apply Hx'|apply Z.pow_pos_nonneg; lia]|].
    apply Z.div_lt_upper_bound; [apply Z.pow_pos_nonneg; lia|]. rewrite <- Z.pow_add_r by lia.
    replace (32 - Z.of_nat k + Z.of_nat k) with 32 by lia. apply Hx'. }
  rewrite (table_be_rd _ _ k _ _ Ht Hi), some_bind. f_equal. rewrite (iter_be_split 32 CRCPOLY_BE k x) by (done || lia).
  apply Z.lxor_comm.
Qed.

Lemma crc32_1_run c p len : bytes p -> 0 <= len <= zlen p ->
  crc32_le_1 c p len = Some (run_le CRCPOLY_LE c (take (Z.to_nat len) p)) /\
  crc32_be_1 c p len = Some (run_be 32 CRCPOLY_BE c (take (Z.to_nat len) p)) /\
  crc32c_be c p len = Some (run_be 32 CRC32C_POLY_BE c (take (Z.to_nat len) p)).
Proof.
  intros Hp Hlen. split; [|split]; apply (crc_loop_fold (fun _ => True)); try done; try lia; intros s b _ Hb; split; try done; f_equal.
  - apply iter_ext. apply le_bit_reg.
  - rewrite u32_small by (by apply shiftl_byte_24). apply iter_ext. apply be_bit_reg.
  - rewrite u32_small by (by apply shiftl_byte_24). apply iter_ext. apply be_bit_reg.
Qed.

(** ** Errors that the checks detect *)

Lemma number_le_range l : bytes l -> 0 <= number_le l < 2 ^ (8 * zlen l).
Proof.
  induction 1 as [|b l Hb Hl IH]; [done|]. cbn [number_le length]. replace (8 * Z.of_nat (S (length l))) with (8 + 8 * zlen l) by lia.
  rewrite Z.pow_add_r by lia. unfold is_u8 in Hb. nia.
Qed.

Lemma number_le_inj x : forall y, bytes x -> bytes y -> length x = length y -> number_le x = number_le y -> x = y.
Proof.
  induction x as [|b x IH]; intros [|b' y] Hx Hy Hl He; try done.
  apply bytes_inv in Hx as [Hb Hx]. apply bytes_inv in Hy as [Hb' Hy]. cbn [number_le] in He. unfold is_u8 in *.
  assert (b = b' /\ number_le x = number_le y) as [-> ?] by lia. f_equal. apply IH; auto.
Qed.

Lemma iter_le_shiftl8 poly h : Nat.iter 8 (reg_le poly) (Z.shiftl h 8) = h.
Proof. replace 8 with (Z.of_nat 8) by reflexivity. apply iter_le_shiftl. Qed.

Lemma run_le_number poly l : forall c, bytes l ->
  run_le poly c l = Nat.iter (8 * length l) (reg_le poly) (Z.lxor c (number_le l)).
Proof.
  induction l as [|b l IH]; intros c Hl; [by rewrite Z.lxor_0_r|]. apply bytes_inv in Hl as [Hb Hl].
  change (run_le poly c (b :: l)) with (run_le poly (Nat.iter 8 (reg_le poly) (Z.lxor c b)) l). rewrite IH by done.
  cbn [number_le length]. rewrite byte_cons, <- Z.lxor_assoc by done.
  replace (8 * S (length l))%nat with (8 * length l + 8)%nat by lia. rewrite Nat.iter_add. f_equal.
  rewrite (iter_lxor _ 8 (reg_le_lxor poly) (Z.lxor c b)), iter_le_shiftl8. reflexivity.
Qed.

Lemma reg_le_nonzero w poly c : 0 < w -> 2 ^ (w - 1) <= poly < 2 ^ w -> 0 < c < 2 ^ w -> 0 < reg_le poly c < 2 ^ w.
Proof.
  intros Hw Hp Hc. assert (Hpw : 2 ^ w = 2 * 2 ^ (w - 1)) by (rewrite <- Z.pow_succ_r by lia; f_equal; lia).
  assert (Hs : 0 <= Z.shiftr c 1 < 2 ^ (w - 1)) by (rewrite Z.shiftr_div_pow2 by lia; change (2 ^ 1) with 2; Z.to_euclidean_division_equations; lia).
  unfold reg_le. destruct (Z.odd c) eqn:Eo.
  - assert (H0 : 0 <= Z.lxor (Z.shiftr c 1) poly) by (apply Z.lxor_nonneg; lia). split.
    + assert (Z.lxor (Z.shiftr c 1) poly <> 0); [|lia]. intros E. apply Z.lxor_eq in E. lia.
    + apply bounded_of_bits; [lia|done|]. intros i Hi. by rewrite Z.lxor_spec, (testbit_high _ (w - 1)), (testbit_high poly w) by lia.
  - rewrite Z.lxor_0_r. split; [|lia]. assert (Z.shiftr c 1 <> 0); [|lia]. intros E.
    pose proof (Zmod_even c) as Hm. rewrite <- Z.negb_odd, Eo in Hm. cbn [negb] in Hm.
    rewrite Z.shiftr_div_pow2 in E by lia. change (2 ^ 1) with 2 in E. clear - Hc Hm E. Z.to_euclidean_division_equations. lia.
Qed.

Lemma iter_le_nonzero w poly n c : 0 < w -> 2 ^ (w - 1) <= poly < 2 ^ w -> 0 < c < 2 ^ w ->
  0 < Nat.iter n (reg_le poly) c < 2 ^ w.
Proof. intros Hw Hp Hc. induction n as [|n IH]; [done|]. by apply reg_le_nonzero. Qed.

(** A difference within [w/8] consecutive bytes never cancels. *)
Lemma run_le_burst w poly c pre x y post : 0 < w -> 2 ^ (w - 1) <= poly < 2 ^ w ->
  bytes x -> bytes y -> bytes post -> length x = length y -> 8 * zlen x <= w -> x <> y ->
  run_le poly c (pre ++ x ++ post) <> run_le poly c (pre ++ y ++ post).
Proof.
  intros Hw Hp Hx Hy Hpost Hl Hshort Hne E. unfold run_le in E. rewrite !fold_left_app in E.
  fold (run_le poly c pre) in E. set (s := run_le poly c pre) in E. clearbody s. clear pre.
  fold (run_le poly s x) in E. fold (run_le poly s y) in E.
  fold (run_le poly (run_le poly s x) post) in E. fold (run_le poly (run_le poly s y) post) in E.
  rewrite (run_le_number poly x), (run_le_number poly y), Hl in E by done. rewrite !run_le_number in E by done.
  apply Z.lxor_eq_0_iff in E. rewrite <- iter_lxor in E by apply reg_le_lxor.
  set (a := Nat.iter _ _ (Z.lxor s (number_le x))) in E. set (b := Nat.iter _ _ (Z.lxor s (number_le y))) in E.
  replace (Z.lxor (Z.lxor a (number_le post)) (Z.lxor b (number_le post))) with (Z.lxor a b) in E
    by (bitwise_as i Hi; bit_cases).
  unfold a, b in E. rewrite <- iter_lxor in E by apply reg_le_lxor.
  replace (Z.lxor (Z.lxor s (number_le x)) (Z.lxor s (number_le y))) with (Z.lxor (number_le x) (number_le y)) in E
    by (bitwise_as i Hi; bit_cases).
  rewrite <- Nat.iter_add in E.
  assert (Hd : 0 < Z.lxor (number_le x) (number_le y) < 2 ^ w).
  { pose proof (number_le_range x Hx) as Hrx. pose proof (number_le_range y Hy) as Hry. rewrite <- Hl in Hry.
    assert (0 <= Z.lxor (number_le x) (number_le y)) by (apply Z.lxor_nonneg; lia). split.
    - assert (Z.lxor (number_le x) (number_le y) <> 0); [|lia]. intros E0. apply Z.lxor_eq in E0. by apply Hne, number_le_inj.
    - apply bounded_of_bits; [lia|done|]. intros i Hi. by rewrite Z.lxor_spec, !(testbit_high _ (8 * zlen x)) by lia. }
  pose proof (iter_le_nonzero w poly (8 * length post + 8 * length y) _ Hw Hp Hd). lia.
Qed.

(** ** Claims *)

(** The table driven CRC-16, CRC-CCITT, CRC-ITU-T, CRC-7 and CRC-32C are the
    shift registers of their polynomials fed one bit at a time, for every
    buffer: every entry of every table is right and every update uses it
    rightly. *)
Theorem crc_tables_bitwise c p len : bytes p -> 0 <= len <= zlen p ->
  let l := take (Z.to_nat len) p in
  crc16 c p len = Some (run_le 0xA001 c l) /\
  crc_ccitt c p len = Some (run_le 0x8408 c l) /\
  crc32c_le c p len = Some (run_le 0x82F63B78 c l) /\
  crc32c_be c p len = Some (run_be 32 CRC32C_POLY_BE c l) /\
  (is_u16 c -> crc_itu_t c p len = Some (run_be 16 0x1021 c l)) /\
  (0 <= c < 128 -> exists r, crc7 c p len = Some r /\ 0 <= r < 128 /\ Z.shiftl r 1 = run_be 8 0x12 (Z.shiftl c 1) l).
Proof.
  intros Hp Hlen l. assert (Hn : (Z.to_nat len <= length p)%nat) by lia.
  split; [by apply (loop_le _ crc16_table _ _ _ _ crc16_table_ok)|].
  split; [by apply (loop_le _ crc_ccitt_table _ _ _ _ crc_ccitt_table_ok)|].
  split; [|split; [by apply crc32_1_run|split; intros Hc; [by apply crc_itu_t_run|by apply crc7_run]]].
  unfold crc32c_le, run_le. apply (crc_loop_fold (fun _ => True)); [|done..]. intros s b _ Hb. split; [|done].
  destruct (byte_le _ _ s b crc32c_table_ok Hb) as (t&->&->). rewrite some_bind. by rewrite Z.lxor_comm.
Qed.

Lemma crc_tables_bitwise_witness : crc16 0 [49; 50; 51; 52; 53; 54; 55; 56; 57] 9 = Some 0xBB3D /\
  crc7 0 [64; 0; 0; 0; 0] 5 = Some 0x4A.
Proof.
  destruct (crc_tables_bitwise 0 [49; 50; 51; 52; 53; 54; 55; 56; 57] 9) as (->&_);
    [repeat constructor; vm_compute; congruence|vm_compute; split; congruence|].
  destruct (crc_tables_bitwise 0 [64; 0; 0; 0; 0] 5) as (_&_&_&_&_&H7);
    [repeat constructor; vm_compute; congruence|vm_compute; split; congruence|].
  split; [reflexivity|]. destruct H7 as (r&E&_); [split; reflexivity || congruence|]. rewrite E. rewrite <- E. reflexivity.
Defined.

(** C29. All implementations of the CRC-32 in crc32.c agree: the word-wise one
    with its alignment loop and tail, for every address and length, the ones
    with tables for 4 and for 2 bits, and the bit by bit one, with the tables
    that gen_crc32table computes; little-endian and big-endian. *)
Theorem crc32_variants_agree c p addr len : is_u32 c -> bytes p -> 0 <= len <= zlen p ->
  let l := take (Z.to_nat len) p in
  (crc32_le c p addr len = Some (run_le CRCPOLY_LE c l) /\ crc32_le_1 c p len = Some (run_le CRCPOLY_LE c l) /\
   crc32_le_small 4 c p len = Some (run_le CRCPOLY_LE c l) /\ crc32_le_small 2 c p len = Some (run_le CRCPOLY_LE c l)) /\
  (crc32_be c p addr len = Some (run_be 32 CRCPOLY_BE c l) /\ crc32_be_1 c p len = Some (run_be 32 CRCPOLY_BE c l) /\
   crc32_be_small 4 c p len = Some (run_be 32 CRCPOLY_BE c l) /\ crc32_be_small 2 c p len = Some (run_be 32 CRCPOLY_BE c l)).
Proof.
  intros Hc Hp Hlen l. destruct crc32_tables_ok as (_&T4&T2&B4&B2). destruct (crc32_1_run c p len Hp Hlen) as (H1&H2&_).
  split.
  - split; [by apply crc32_le_run|]. split; [exact H1|].
    split; [by apply (crc32_le_small_run 4 2)|by apply (crc32_le_small_run 2 4)].
  - split; [by apply crc32_be_run|]. split; [exact H2|].
    split; [by apply (crc32_be_small_run 4 2)|by apply (crc32_be_small_run 2 4)].
Qed.

Lemma crc32_variants_agree_witness :
  crc32_le 0xffffffff [49; 50; 51; 52; 53; 54; 55; 56; 57] 1 9 = crc32_le_small 4 0xffffffff [49; 50; 51; 52; 53; 54; 55; 56; 57] 9.
Proof.
  destruct (crc32_variants_agree 0xffffffff [49; 50; 51; 52; 53; 54; 55; 56; 57] 1 9) as [(->&_&->&_) _];
    [vm_compute; split; congruence|repeat constructor; vm_compute; congruence|vm_compute; split; congruence|reflexivity].
Defined.

(** Two messages that differ only within four consecutive bytes have
    different CRC-32 and CRC-32C, and within two consecutive bytes different
    CRC-16 and CRC-CCITT, from every seed, at every address. *)
Theorem crc_detects_bursts c addr addr' pre x y post :
  bytes (pre ++ x ++ post) -> bytes (pre ++ y ++ post) -> length x = length y -> x <> y -> (length x <= 4)%nat ->
  let m := pre ++ x ++ post in let m' := pre ++ y ++ post in
  crc32_le c m addr (zlen m) <> crc32_le c m' addr' (zlen m') /\
  crc32c_le c m (zlen m) <> crc32c_le c m' (zlen m') /\
  ((length x <= 2)%nat -> crc16 c m (zlen m) <> crc16 c m' (zlen m') /\ crc_ccitt c m (zlen m) <> crc_ccitt c m' (zlen m')).
Proof.
  intros Hm Hm' Hl Hne Hlen m m'.
  assert (Hb : bytes x /\ bytes y /\ bytes post).
  { apply Forall_app in Hm as [_ [Hx Hp]%Forall_app]. apply Forall_app in Hm' as [_ [Hy _]%Forall_app]. done. }
  destruct Hb as (Hx&Hy&Hpost).
  assert (Ht : forall z : list Z, take (Z.to_nat (zlen z)) z = z) by (intros z; rewrite Nat2Z.id; apply take_ge; lia).
  assert (Hle : forall poly tab byte z, table_le poly 8 tab = true ->
    (forall c b, byte c b = t ← rd tab (Z.land (Z.lxor c b) 255); Some (Z.lxor (Z.shiftr c 8) t)) ->
    bytes z -> crc_loop byte c z (Z.to_nat (zlen z)) = Some (run_le poly c z)).
  { intros poly tab byte z Htab Hbyte Hz. rewrite (loop_le poly tab) by (done || lia). by rewrite Ht. }
  split; [|split].
  - rewrite !crc32_le_run, !Ht by (done || lia). intros E. apply (inj Some) in E. revert E.
    apply (run_le_burst 32); first [done|lia].
  - unfold crc32c_le. rewrite !(Hle _ _ _ _ crc32c_table_ok); try done;
      try (intros; destruct (rd crc32c_table _); [rewrite !some_bind; by rewrite Z.lxor_comm|done]).
    intros E. apply (inj Some) in E. revert E. apply (run_le_burst 32); first [done|lia].
  - intros H2. split; unfold crc16, crc_ccitt.
    + rewrite !(Hle _ _ _ _ crc16_table_ok) by done. intros E. apply (inj Some) in E. revert E. apply (run_le_burst 16); first [done|lia].
    + rewrite !(Hle _ _ _ _ crc_ccitt_table_ok) by done. intros E. apply (inj Some) in E. revert E. apply (run_le_burst 16); first [done|lia].
Qed.

Lemma crc_detects_bursts_witness :
  crc32_le 0 [1; 2; 3] 0 3 <> crc32_le 0 [1; 7; 3] 5 3.
Proof.
  refine (proj1 (crc_detects_bursts 0 0 5 [1] [2] [7] [3] _ _ _ _ _)).
  - repeat constructor; vm_compute; congruence.
  - repeat constructor; vm_compute; congruence.
  - reflexivity.
  - congruence.
  - cbn. lia.
Defined.
