(* ===== verification/Rbtree.v ===== *)
(** * Red-black trees (lib/rbtree.c, include/linux/rbtree.h)

    Nodes are objects of a heap that maps addresses to [struct rb_node]; the
    parent pointer and the colour share one word.  The code writes every
    function twice, for left and for right; here the side is a parameter [d]:
    [__rb_rotate_left] is [rotate L], [__rb_rotate_right] is [rotate R]. *)

From stdpp Require Import sorting.
From S2P Require Import Prelude.

#[local] Open Scope Z_scope.

Definition NULL : Z := 0.

(** struct rb_node and struct rb_root *)
Record rb_node := mk_rb_node { rb_parent_color : Z; rb_right : Z; rb_left : Z }.
Record state := mk_state { heap : gmap Z rb_node; root : Z }.

Definition RB_RED : Z := 0.
Definition RB_BLACK : Z := 1.
Definition rb_parent (r : rb_node) : Z := Z.land (rb_parent_color r) (Z.lnot 3).
Definition rb_color (r : rb_node) : Z := Z.land (rb_parent_color r) 1.
Definition rb_is_red (r : rb_node) : bool := rb_color r =? 0.
Definition rb_is_black (r : rb_node) : bool := negb (rb_color r =? 0).
Definition rb_set_red (r : rb_node) : rb_node :=
  mk_rb_node (Z.land (rb_parent_color r) (Z.lnot 1)) (rb_right r) (rb_left r).
Definition rb_set_black (r : rb_node) : rb_node :=
  mk_rb_node (Z.lor (rb_parent_color r) 1) (rb_right r) (rb_left r).
Definition rb_set_parent (r : rb_node) (p : Z) : rb_node :=
  mk_rb_node (Z.lor (Z.land (rb_parent_color r) 3) p) (rb_right r) (rb_left r).
Definition rb_set_color (r : rb_node) (color : Z) : rb_node :=
  mk_rb_node (Z.lor (Z.land (rb_parent_color r) (Z.lnot 1)) color) (rb_right r) (rb_left r).

(** The two sides. *)
Inductive side := L | R.
#[export] Instance side_eq_dec : EqDecision side.
Proof. solve_decision. Defined.
Definition opp (d : side) : side := match d with L => R | R => L end.
Definition sub (d : side) (r : rb_node) : Z := match d with L => rb_left r | R => rb_right r end.
Definition set_sub (d : side) (p : Z) (r : rb_node) : rb_node :=
  match d with
  | L => mk_rb_node (rb_parent_color r) (rb_right r) p
  | R => mk_rb_node (rb_parent_color r) p (rb_left r)
  end.

(** Accesses through a pointer; there is no node at NULL. *)
Definition get (s : state) (p : Z) : option rb_node := heap s !! p.
Definition upd (s : state) (p : Z) (f : rb_node -> rb_node) : option state :=
  n ← get s p; Some (mk_state (<[p := f n]> (heap s)) (root s)).
Definition child_of (s : state) (d : side) (p : Z) : option Z := n ← get s p; Some (sub d n).
Definition parent_of (s : state) (p : Z) : option Z := n ← get s p; Some (rb_parent n).
Definition color_of (s : state) (p : Z) : option Z := n ← get s p; Some (rb_color n).
Definition is_red (s : state) (p : Z) : option bool := n ← get s p; Some (rb_is_red n).
(** [p && rb_is_red(p)] and [!p || rb_is_black(p)] *)
Definition red_node (s : state) (p : Z) : option bool := if p =? NULL then Some false else is_red s p.
Definition black_node (s : state) (p : Z) : option bool := red ← red_node s p; Some (negb red).

Definition set_child (s : state) (d : side) (p c : Z) : option state := upd s p (set_sub d c).
Definition set_parent (s : state) (p q : Z) : option state := upd s p (fun n => rb_set_parent n q).
Definition set_root (s : state) (p : Z) : state := mk_state (heap s) p.

(** The link from [parent] to [node], or from the root, becomes one to [new];
    [d] is the side the code looks at first. *)
Definition relink (d : side) (s : state) (parent node new : Z) : option state :=
  if parent =? NULL then Some (set_root s new)
  else
    l ← child_of s d parent;
    if node =? l then set_child s d parent new else set_child s (opp d) parent new.

Definition rotate (d : side) (s : state) (node : Z) : option state :=
  right ← child_of s (opp d) node;
  parent ← parent_of s node;
  c ← child_of s d right;
  s ← set_child s (opp d) node c;
  s ← (if c =? NULL then Some s else c ← child_of s d right; set_parent s c node);
  s ← set_child s d right node;
  s ← set_parent s right parent;
  s ← relink d s parent node right;
  set_parent s node right.

Definition rb_link_node (s : state) (node parent : Z) (rb_link : option side) : option state :=
  s ← upd s node (fun _ => mk_rb_node parent NULL NULL);
  match rb_link with None => Some (set_root s node) | Some d => set_child s d parent node end.

(** The loop of [rb_insert_color]. *)
Fixpoint insert_loop (fuel : nat) (s : state) (node : Z) : option state :=
  match fuel with
  | O => None
  | S fuel =>
    parent ← parent_of s node;
    if parent =? NULL then Some s else
    red ← is_red s parent;
    if negb (red : bool) then Some s else
    gparent ← parent_of s parent;
    left ← child_of s L gparent;
    let d := if parent =? left then L else R in
    uncle ← child_of s (opp d) gparent;
    ured ← red_node s uncle;
    if (ured : bool) then
      s ← upd s uncle rb_set_black;
      s ← upd s parent rb_set_black;
      s ← upd s gparent rb_set_red;
      insert_loop fuel s gparent
    else
      inner ← child_of s (opp d) parent;
      '(s, node, parent) ← (if inner =? node then s ← rotate d s parent; Some (s, parent, node)
                            else Some (s, node, parent));
      s ← upd s parent rb_set_black;
      s ← upd s gparent rb_set_red;
      s ← rotate (opp d) s gparent;
      insert_loop fuel s node
  end.
Definition rb_insert_color (fuel : nat) (s : state) (node : Z) : option state :=
  s ← insert_loop fuel s node; upd s (root s) rb_set_black.

(** [__rb_erase_color] once the sibling [other] is black: it turns red and the
    loop goes up ([true]), or one or two rotations end the loop ([false]). *)
Definition erase_case (d : side) (s : state) (parent other : Z) : option (state * bool) :=
  near ← child_of s d other;
  far ← child_of s (opp d) other;
  nb ← black_node s near;
  fb ← black_node s far;
  if nb && fb then
    s ← upd s other rb_set_red;
    Some (s, true)
  else
    '(s, other) ← (if (fb : bool) then
                     s ← (if near =? NULL then Some s else upd s near rb_set_black);
                     s ← upd s other rb_set_red;
                     s ← rotate (opp d) s other;
                     other ← child_of s (opp d) parent;
                     Some (s, other)
                   else Some (s, other));
    color ← color_of s parent;
    s ← upd s other (fun n => rb_set_color n color);
    s ← upd s parent rb_set_black;
    far ← child_of s (opp d) other;
    s ← (if far =? NULL then Some s else upd s far rb_set_black);
    s ← rotate d s parent;
    Some (s, false).

(** The loop of [__rb_erase_color]; it gives the last [node]. *)
Fixpoint erase_loop (fuel : nat) (s : state) (node parent : Z) : option (state * Z) :=
  match fuel with
  | O => None
  | S fuel =>
    black ← black_node s node;
    if negb (black && negb (node =? root s)) then Some (s, node) else
    left ← child_of s L parent;
    let d := if left =? node then L else R in
    other ← child_of s (opp d) parent;
    red ← is_red s other;
    '(s, other) ← (if (red : bool) then
                     s ← upd s other rb_set_black;
                     s ← upd s parent rb_set_red;
                     s ← rotate d s parent;
                     other ← child_of s (opp d) parent;
                     Some (s, other)
                   else Some (s, other));
    '(s, goes_up) ← erase_case d s parent other;
    if (goes_up : bool) then
      up ← parent_of s parent;
      erase_loop fuel s parent up
    else Some (s, root s)
  end.
Definition __rb_erase_color (fuel : nat) (s : state) (node parent : Z) : option state :=
  '(s, node) ← erase_loop fuel s node parent;
  if node =? NULL then Some s else upd s node rb_set_black.

(** [while ((left = node->rb_left) != NULL) node = left], on side [d]. *)
Fixpoint descend (fuel : nat) (s : state) (d : side) (node : Z) : option Z :=
  match fuel with
  | O => None
  | S fuel => c ← child_of s d node; if c =? NULL then Some node else descend fuel s d c
  end.

Definition rb_erase (fuel : nat) (s : state) (node : Z) : option state :=
  left ← child_of s L node;
  right ← child_of s R node;
  '(s, child, parent, color) ← (
    if (left =? NULL) || (right =? NULL) then
      let child := if left =? NULL then right else left in
      parent ← parent_of s node;
      color ← color_of s node;
      s ← (if child =? NULL then Some s else set_parent s child parent);
      s ← relink L s parent node child;
      Some (s, child, parent, color)
    else
      let old := node in
      node ← descend fuel s L right;
      child ← child_of s R node;
      parent ← parent_of s node;
      color ← color_of s node;
      s ← (if child =? NULL then Some s else set_parent s child parent);
      '(s, parent) ← (if parent =? old then s ← set_child s R parent child; Some (s, node)
                      else s ← set_child s L parent child; Some (s, parent));
      o ← get s old;
      s ← upd s node (fun _ => o);
      s ← relink L s (rb_parent o) old node;
      s ← (l ← child_of s L old; set_parent s l node);
      r ← child_of s R old;
      s ← (if r =? NULL then Some s else set_parent s r node);
      Some (s, child, parent, color));
  if color =? RB_BLACK then __rb_erase_color fuel s child parent else Some s.

(** [rb_first] and [rb_last]: the last node of the tree towards [d]. *)
Definition rb_end (fuel : nat) (s : state) (d : side) : option Z :=
  if root s =? NULL then Some NULL else descend fuel s d (root s).
Definition rb_first (fuel : nat) (s : state) : option Z := rb_end fuel s L.
Definition rb_last (fuel : nat) (s : state) : option Z := rb_end fuel s R.

(** [while ((parent = rb_parent(node)) && node == parent->side) node = parent] *)
Fixpoint climb (fuel : nat) (s : state) (d : side) (node : Z) : option Z :=
  match fuel with
  | O => None
  | S fuel =>
    parent ← parent_of s node;
    if parent =? NULL then Some NULL
    else c ← child_of s d parent; if node =? c then climb fuel s d parent else Some parent
  end.
(** [rb_next] for [R], [rb_prev] for [L]. *)
Definition rb_step (fuel : nat) (s : state) (d : side) (node : Z) : option Z :=
  parent ← parent_of s node;
  if parent =? node then Some NULL
  else
    c ← child_of s d node;
    if negb (c =? NULL) then descend fuel s (opp d) c else climb fuel s d node.
Definition rb_next (fuel : nat) (s : state) (node : Z) : option Z := rb_step fuel s R node.
Definition rb_prev (fuel : nat) (s : state) (node : Z) : option Z := rb_step fuel s L node.

Definition rb_replace_node (s : state) (victim new : Z) : option state :=
  parent ← parent_of s victim;
  s ← relink L s parent victim new;
  l ← child_of s L victim;
  s ← (if l =? NULL then Some s else set_parent s l new);
  r ← child_of s R victim;
  s ← (if r =? NULL then Some s else set_parent s r new);
  v ← get s victim;
  upd s new (fun _ => v).

(** ** Abstract trees *)

Inductive color := Red | Black.
Inductive tree := Leaf | Node (c : color) (l : tree) (x : Z) (r : tree).
#[export] Instance color_eq_dec : EqDecision color.
Proof. solve_decision. Defined.
#[export] Instance tree_eq_dec : EqDecision tree.
Proof. solve_decision. Defined.

(** The tree with [a] on the side [d] of [x]. *)
Definition node (d : side) (c : color) (a : tree) (x : Z) (b : tree) : tree :=
  match d with L => Node c a x b | R => Node c b x a end.
Definition ptr (t : tree) : Z := match t with Leaf => NULL | Node _ _ x _ => x end.
Fixpoint nodes (t : tree) : list Z := match t with Leaf => [] | Node _ l x r => nodes l ++ x :: nodes r end.

Definition bit (c : color) : Z := match c with Red => RB_RED | Black => RB_BLACK end.
Definition entry (d : side) (parent : Z) (c : color) (a b : Z) : rb_node :=
  match d with L => mk_rb_node (parent + bit c) b a | R => mk_rb_node (parent + bit c) a b end.

(** The tree lies in the heap below [parent]. *)
Fixpoint tree_in (h : gmap Z rb_node) (parent : Z) (t : tree) : Prop :=
  match t with
  | Leaf => True
  | Node c l x r => h !! x = Some (entry L parent c (ptr l) (ptr r)) /\ tree_in h x l /\ tree_in h x r
  end.

(** A path to a position in the tree, from the position up: the side it is on,
    the node above with its colour, and the tree on its other side. *)
Definition frame : Type := side * color * Z * tree.
Definition up (k : list frame) : Z := match k with [] => NULL | (_, _, x, _) :: _ => x end.
Fixpoint plug (k : list frame) (t : tree) : tree :=
  match k with [] => t | (d, c, x, b) :: k => plug k (node d c t x b) end.
Fixpoint path_nodes (k : list frame) : list Z :=
  match k with [] => [] | (_, _, x, b) :: k => x :: nodes b ++ path_nodes k end.
Fixpoint path_in (h : gmap Z rb_node) (root : Z) (k : list frame) (hole : Z) : Prop :=
  match k with
  | [] => root = hole
  | (d, c, x, b) :: k => h !! x = Some (entry d (up k) c hole (ptr b)) /\ tree_in h x b /\ path_in h root k x
  end.

(** Addresses of nodes: aligned words, none of them NULL. *)
Definition address (p : Z) : Prop := 0 < p < 2 ^ 32 /\ p mod 4 = 0.

(** The state holds the tree with [t] at the position [k]; the rest of its heap
    is that of [f]. *)
Record zip (f : gmap Z rb_node) (s : state) (k : list frame) (t : tree) : Prop := {
  zip_nodup : NoDup (nodes t ++ path_nodes k);
  zip_addr : Forall address (nodes t ++ path_nodes k);
  zip_tree : tree_in (heap s) (up k) t;
  zip_path : path_in (heap s) (root s) k (ptr t);
  zip_rest : forall p, p ∉ nodes t ++ path_nodes k -> heap s !! p = f !! p
}.

(** Nodes in order, before and after a position. *)
Fixpoint before (k : list frame) : list Z :=
  match k with [] => [] | (L, _, _, _) :: k => before k | (R, _, x, b) :: k => before k ++ nodes b ++ [x] end.
Fixpoint after (k : list frame) : list Z :=
  match k with [] => [] | (L, _, x, b) :: k => x :: nodes b ++ after k | (R, _, _, _) :: k => after k end.

Fixpoint height (t : tree) : nat := match t with Leaf => 0 | Node _ l _ r => S (Nat.max (height l) (height r)) end.

(** The nodes in the order that starts from the end [d], and those of a
    position before and after it in that order. *)
Definition from (d : side) (t : tree) : list Z := match d with L => nodes t | R => rev (nodes t) end.
Definition from_before (d : side) (k : list frame) : list Z := match d with L => before k | R => rev (after k) end.
Definition from_after (d : side) (k : list frame) : list Z := match d with L => after k | R => rev (before k) end.

(** ** The red-black properties *)

Definition color_at (t : tree) : color := match t with Leaf => Black | Node c _ _ _ => c end.
(** Every path down has [n] black nodes. *)
Fixpoint black_height (t : tree) (n : nat) : Prop :=
  match t with
  | Leaf => n = 0%nat
  | Node Red l _ r => black_height l n /\ black_height r n
  | Node Black l _ r => match n with O => False | S n => black_height l n /\ black_height r n end
  end.
(** No red node has a red child. *)
Fixpoint no_red_red (t : tree) : Prop :=
  match t with
  | Leaf => True
  | Node c l _ r => (c = Red -> color_at l = Black /\ color_at r = Black) /\ no_red_red l /\ no_red_red r
  end.
Definition red_black (t : tree) : Prop :=
  color_at t = Black /\ no_red_red t /\ exists n, black_height t n.

(** A state that holds a red-black tree. *)
Definition rb_tree (f : gmap Z rb_node) (s : state) (t : tree) : Prop := zip f s [] t /\ red_black t.

(** The colour above a position; a red node needs a black one. *)
Definition above (k : list frame) : color := match k with [] => Red | (_, c, _, _) :: _ => c end.
Fixpoint path_rb (k : list frame) (n : nat) : Prop :=
  match k with
  | [] => True
  | (_, c, _, b) :: k =>
    black_height b n /\ no_red_red b /\ (c = Red -> color_at b = Black /\ above k = Black) /\
    path_rb k (match c with Black => S n | Red => n end)
  end.

(** The side of its parent an empty position is on. *)
Definition link_at (k : list frame) : option side := match k with [] => None | (d, _, _, _) :: _ => Some d end.

Definition blacken (t : tree) : tree := match t with Leaf => Leaf | Node _ l x r => Node Black l x r end.

(** The position and what its removal left: one black node is missing. *)
Definition lacks_black (k : list frame) (t : tree) (n : nat) : Prop :=
  path_rb k (S n) /\ black_height t n /\ no_red_red (blacken t).

(** What the loop of [rb_insert_color] leaves: the root may still be red. *)
Definition inserted (f : gmap Z rb_node) (ns : list Z) (o : option state) : Prop :=
  exists s c l y r, o = Some s /\ zip f s [] (Node c l y r) /\ red_black (Node Black l y r) /\ nodes (Node c l y r) = ns.

(** The end of [__rb_erase_color]: the node its loop gives is blackened. *)
Definition finish (o : option (state * Z)) : option state :=
  '(s, node) ← o; if node =? NULL then Some s else upd s node rb_set_black.
Definition repaired (f : gmap Z rb_node) (ns : list Z) (o : option (state * Z)) : Prop :=
  exists s t, finish o = Some s /\ rb_tree f s t /\ nodes t = ns.

(** ** Words with a colour *)

Definition parent_ok (q : Z) : Prop := 0 <= q /\ q mod 4 = 0.

Lemma address_parent q : address q -> parent_ok q.
Proof. intros [? ?]. split; [lia|done]. Qed.

Lemma null_parent : parent_ok NULL.
Proof. done. Qed.

#[local] Hint Resolve address_parent null_parent : core.

Lemma land_lnot_ones a n : 0 <= n -> Z.land a (Z.lnot (Z.ones n)) = a / 2 ^ n * 2 ^ n.
Proof.
  intros Hn. rewrite <- Z.ldiff_land, Z.ldiff_ones_r by done. by rewrite Z.shiftr_div_pow2, Z.shiftl_mul_pow2.
Qed.

Lemma bit_cases c : bit c = 0 \/ bit c = 1.
Proof. destruct c; auto. Qed.

Lemma lor_word q b : parent_ok q -> 0 <= b < 4 -> Z.lor b q = q + b.
Proof.
  intros [Hq0 Hq] Hb. rewrite lor_add_disjoint; [lia|]. rewrite <- (Z.mod_small b 4) by done.
  change 4 with (2 ^ 2). rewrite <- Z.land_ones by lia.
  rewrite <- Z.land_assoc, (Z.land_comm _ q), Z.land_ones by lia. change (2 ^ 2) with 4. by rewrite Hq, Z.land_0_r.
Qed.

Section words.
  Context (q : Z) (Hq : parent_ok q) (c : color).

Lemma word_parent : Z.land (q + bit c) (Z.lnot 3) = q.
Proof.
  change 3 with (Z.ones 2). rewrite land_lnot_ones by lia. change (2 ^ 2) with 4. destruct Hq, (bit_cases c) as [-> | ->];
    Z.to_euclidean_division_equations; lia.
Qed.

Lemma word_color : Z.land (q + bit c) 1 = bit c.
Proof.
  change 1 with (Z.ones 1) at 1. rewrite Z.land_ones by lia. change (2 ^ 1) with 2. destruct Hq, (bit_cases c) as [-> | ->];
    Z.to_euclidean_division_equations; lia.
Qed.

Lemma word_clear : Z.land (q + bit c) (Z.lnot 1) = q.
Proof.
  change 1 with (Z.ones 1). rewrite land_lnot_ones by lia. change (2 ^ 1) with 2. destruct Hq, (bit_cases c) as [-> | ->];
    Z.to_euclidean_division_equations; lia.
Qed.

Lemma word_low : Z.land (q + bit c) 3 = bit c.
Proof.
  change 3 with (Z.ones 2). rewrite Z.land_ones by lia. change (2 ^ 2) with 4. destruct Hq, (bit_cases c) as [-> | ->];
    Z.to_euclidean_division_equations; lia.
Qed.

Lemma word_set : Z.lor (q + bit c) 1 = q + 1.
Proof.
  rewrite <- (lor_word q (bit c)) by (done || destruct (bit_cases c) as [-> | ->]; lia).
  rewrite (Z.lor_comm (bit c)), <- Z.lor_assoc.
  replace (Z.lor (bit c) 1) with 1 by (by destruct (bit_cases c) as [-> | ->]). rewrite Z.lor_comm. by apply lor_word.
Qed.

End words.

Lemma opp_opp d : opp (opp d) = d.
Proof. by destruct d. Qed.

Section entries.
  Context (d : side) (q : Z) (Hq : parent_ok q) (c : color) (a b : Z).

Lemma entry_parent : rb_parent (entry d q c a b) = q.
Proof. unfold rb_parent. destruct d; cbn; by apply word_parent. Qed.
Lemma entry_color : rb_color (entry d q c a b) = bit c.
Proof. unfold rb_color. destruct d; cbn; by apply word_color. Qed.
Lemma entry_is_red : rb_is_red (entry d q c a b) = match c with Red => true | Black => false end.
Proof. unfold rb_is_red. rewrite entry_color. by destruct c. Qed.
Lemma entry_set_red : rb_set_red (entry d q c a b) = entry d q Red a b.
Proof. unfold rb_set_red. destruct d; cbn; rewrite word_clear by done; by rewrite Z.add_0_r. Qed.
Lemma entry_set_black : rb_set_black (entry d q c a b) = entry d q Black a b.
Proof. unfold rb_set_black. destruct d; cbn; by rewrite word_set. Qed.
Lemma entry_set_parent p : parent_ok p -> rb_set_parent (entry d q c a b) p = entry d p c a b.
Proof.
  intros Hp. unfold rb_set_parent. destruct d; cbn; rewrite word_low, lor_word by (done || destruct (bit_cases c) as [-> | ->]; lia); done.
Qed.
Lemma entry_set_color c' : rb_set_color (entry d q c a b) (bit c') = entry d q c' a b.
Proof.
  unfold rb_set_color. destruct d; cbn; rewrite word_clear, Z.lor_comm, lor_word by (done || destruct (bit_cases c') as [-> | ->]; lia); done.
Qed.
Lemma entry_sub : sub d (entry d q c a b) = a.
Proof. by destruct d. Qed.
Lemma entry_sub_opp : sub (opp d) (entry d q c a b) = b.
Proof. by destruct d. Qed.
Lemma entry_set_sub p : set_sub d p (entry d q c a b) = entry d q c p b.
Proof. by destruct d. Qed.
Lemma entry_set_sub_opp p : set_sub (opp d) p (entry d q c a b) = entry d q c a p.
Proof. by destruct d. Qed.
Lemma entry_opp : entry (opp d) q c a b = entry d q c b a.
Proof. by destruct d. Qed.

End entries.

Create Rewrite HintDb rb.
#[export] Hint Rewrite entry_parent entry_color entry_is_red entry_set_red entry_set_black entry_set_color using auto : rb.
#[export] Hint Rewrite entry_set_parent using auto : rb.
#[export] Hint Rewrite entry_sub entry_sub_opp entry_set_sub entry_set_sub_opp entry_opp opp_opp : rb.

#[local] Arguments entry : simpl never.

(** ** Trees in heaps *)

Lemma node_opp d c a x b : node (opp d) c a x b = node d c b x a.
Proof. by destruct d. Qed.

Lemma ptr_node d c a x b : ptr (node d c a x b) = x.
Proof. by destruct d. Qed.

Lemma nodes_node d c a x b : nodes (node d c a x b) ≡ₚ x :: nodes a ++ nodes b.
Proof. destruct d; simpl; rewrite <- Permutation_middle; [done|]. by rewrite (Permutation_app_comm (nodes b)). Qed.

Lemma tree_in_node h q d c a x b :
  tree_in h q (node d c a x b) <-> h !! x = Some (entry d q c (ptr a) (ptr b)) /\ tree_in h x a /\ tree_in h x b.
Proof. destruct d; simpl; tauto. Qed.

Lemma ptr_in t : ptr t = NULL \/ ptr t ∈ nodes t.
Proof. destruct t as [|c l x r]; [by left|right]. simpl. apply elem_of_app. right. by left. Qed.

Lemma tree_in_agree h h' q t : (forall p, p ∈ nodes t -> h' !! p = h !! p) -> tree_in h q t -> tree_in h' q t.
Proof.
  revert q. induction t as [|c l IHl x r IHr]; intros q Ha Ht; [done|]. simpl in *. destruct Ht as (Hx&Hl&Hr).
  split; [|split].
  - rewrite Ha; [done|]. apply elem_of_app. right. by left.
  - apply IHl; [|done]. intros p Hp. apply Ha. apply elem_of_app. by left.
  - apply IHr; [|done]. intros p Hp. apply Ha. apply elem_of_app. right. by right.
Qed.

Lemma path_in_agree h h' r k p : (forall p, p ∈ path_nodes k -> h' !! p = h !! p) -> path_in h r k p -> path_in h' r k p.
Proof.
  revert p. induction k as [|[[[d c] x] b] k IH]; intros p Ha Hk; [done|]. simpl in *. destruct Hk as (Hx&Hb&Hk).
  split; [|split].
  - rewrite Ha by (by left). done.
  - apply (tree_in_agree h); [|done]. intros j Hj. apply Ha. right. apply elem_of_app. by left.
  - apply IH; [|done]. intros j Hj. apply Ha. right. apply elem_of_app. by right.
Qed.

Lemma upd_eq h r p e g : h !! p = Some e -> upd (mk_state h r) p g = Some (mk_state (<[p := g e]> h) r).
Proof. intros H. unfold upd, get. simpl. by rewrite H. Qed.

Lemma set_child_eq h r d p c e : h !! p = Some e ->
  set_child (mk_state h r) d p c = Some (mk_state (<[p := set_sub d c e]> h) r).
Proof. intros H. unfold set_child. by rewrite (upd_eq _ _ _ _ _ H). Qed.
Lemma set_parent_eq h r p q e : h !! p = Some e ->
  set_parent (mk_state h r) p q = Some (mk_state (<[p := rb_set_parent e q]> h) r).
Proof. intros H. unfold set_parent. by rewrite (upd_eq _ _ _ _ _ H). Qed.
Lemma child_of_eq s d p e : heap s !! p = Some e -> child_of s d p = Some (sub d e).
Proof. intros H. unfold child_of, get. by rewrite H. Qed.
Lemma parent_of_eq s p e : heap s !! p = Some e -> parent_of s p = Some (rb_parent e).
Proof. intros H. unfold parent_of, get. by rewrite H. Qed.
Lemma color_of_eq s p e : heap s !! p = Some e -> color_of s p = Some (rb_color e).
Proof. intros H. unfold color_of, get. by rewrite H. Qed.
Lemma is_red_eq s p e : heap s !! p = Some e -> is_red s p = Some (rb_is_red e).
Proof. intros H. unfold is_red, get. by rewrite H. Qed.

(** The parent pointer of a subtree, when there is one. *)
Lemma reparent h r q t p : tree_in h q t -> NoDup (nodes t) -> Forall address (nodes t) -> parent_ok q -> parent_ok p ->
  exists h', (if ptr t =? NULL then Some (mk_state h r) else set_parent (mk_state h r) (ptr t) p) = Some (mk_state h' r) /\
    tree_in h' p t /\ forall j, j ∉ nodes t -> h' !! j = h !! j.
Proof.
  destruct t as [|c l x r']; intros Ht Hnd Had Hq Hp; [by exists h|]. simpl ptr.
  assert (Hx : address x) by (rewrite Forall_forall in Had; apply Had; simpl; apply elem_of_app; right; by left).
  destruct (Z.eqb_spec x NULL) as [->|_]; [destruct Hx; unfold NULL in *; lia|]. simpl in Ht. destruct Ht as (Hx0&Hl&Hr).
  unfold set_parent. rewrite (upd_eq _ _ _ _ _ Hx0). eexists. split; [done|].
  simpl in Hnd. rewrite NoDup_app, NoDup_cons in Hnd. destruct Hnd as (_&Hdis&Hxr&_).
  split; [|intros j Hj; apply lookup_insert_ne; intros <-; apply Hj; simpl; apply elem_of_app; right; by left].
  simpl. rewrite lookup_insert_eq, entry_set_parent by done. split; [done|].
  split; (eapply tree_in_agree; [|done]); intros j Hj; apply lookup_insert_ne; intros <-.
  - apply (Hdis x Hj). by left.
  - done.
Qed.

Lemma relink_spec d h r k old new : path_in h r k old -> NoDup (path_nodes k) -> Forall address (path_nodes k) ->
  old <> NULL -> old ∉ path_nodes k ->
  exists h' r', relink d (mk_state h r) (up k) old new = Some (mk_state h' r') /\ path_in h' r' k new /\
    forall j, j ∉ path_nodes k -> h' !! j = h !! j.
Proof.
  destruct k as [|[[[d' c] x] b] k]; intros Hk Hnd Had H0 Hold.
  { exists h, new. unfold relink, up. cbn. done. }
  simpl in Hk, Hnd, Had, Hold. destruct Hk as (Hx&Hb&Hk). apply NoDup_cons in Hnd as [Hxn Hnd]. apply Forall_cons in Had as [Hxa Had].
  unfold relink. cbn [up]. destruct (Z.eqb_spec x NULL) as [->|_]; [destruct Hxa; unfold NULL in *; lia|].
  rewrite (child_of_eq (mk_state h r) _ _ _ Hx), some_bind.
  assert (Hset : (if old =? sub d (entry d' (up k) c old (ptr b)) then set_child (mk_state h r) d x new
      else set_child (mk_state h r) (opp d) x new) = Some (mk_state (<[x := entry d' (up k) c new (ptr b)]> h) r)).
  { unfold set_child. destruct (decide (d = d')) as [->|Hd].
    - rewrite entry_sub, Z.eqb_refl, (upd_eq _ _ _ _ _ Hx). by rewrite entry_set_sub.
    - assert (d = opp d') as -> by (by destruct d, d'). rewrite entry_sub_opp, opp_opp.
      destruct (Z.eqb_spec old (ptr b)) as [->|_].
      + destruct (ptr_in b) as [?|Hin]; [done|]. exfalso. apply Hold. right. apply elem_of_app. by left.
      + rewrite (upd_eq _ _ _ _ _ Hx). by rewrite entry_set_sub. }
  eexists _, r. split; [exact Hset|]. split.
  - simpl. rewrite lookup_insert_eq. split; [done|].
    split; [apply (tree_in_agree h); [|done]|apply (path_in_agree h); [|done]]; intros j Hj; apply lookup_insert_ne; intros <-;
      apply Hxn, elem_of_app; auto.
  - intros j Hj. apply lookup_insert_ne. intros <-. apply Hj. by left.
Qed.

(** ** Positions *)

Lemma zip_perm_facts d c a x b k : nodes (node d c a x b) ++ path_nodes k ≡ₚ nodes a ++ x :: nodes b ++ path_nodes k.
Proof. rewrite nodes_node. simpl. rewrite <- app_assoc. apply (Permutation_middle (nodes a)). Qed.

(** Moving to a child and back. *)
Lemma zip_down f s k d c a x b : zip f s k (node d c a x b) <-> zip f s ((d, c, x, b) :: k) a.
Proof.
  pose proof (zip_perm_facts d c a x b k) as Hp. split; intros [Hnd Had Ht Hk Hr].
  - apply tree_in_node in Ht as (Hx&Ha&Hb). rewrite ptr_node in Hk. rewrite Hp in Hnd, Had.
    split; [done|done|done|done|]. intros p Hn. apply Hr. by rewrite Hp.
  - simpl in Hk. destruct Hk as (Hx&Hb&Hk). split.
    + by rewrite Hp.
    + by rewrite Hp.
    + by apply tree_in_node.
    + by rewrite ptr_node.
    + intros p Hn. apply Hr. simpl. by rewrite <- Hp.
Qed.

Section zipper.
  Context (f : gmap Z rb_node) (s : state) (k : list frame).

Lemma zip_get d c a x b : zip f s k (node d c a x b) -> heap s !! x = Some (entry d (up k) c (ptr a) (ptr b)).
Proof. intros Hz. by apply zip_tree, tree_in_node in Hz as (Hx&_). Qed.

Lemma zip_address t p : zip f s k t -> p ∈ nodes t ++ path_nodes k -> address p.
Proof. intros Hz Hp. pose proof (zip_addr _ _ _ _ Hz) as Ha. rewrite Forall_forall in Ha. by apply Ha. Qed.

Lemma zip_root d c a x b : zip f s k (node d c a x b) -> address x.
Proof. intros Hz. apply (zip_address _ _ Hz). rewrite zip_perm_facts. apply elem_of_app. right. by left. Qed.

Lemma zip_up_ok t : zip f s k t -> parent_ok (up k).
Proof.
  intros Hz. destruct k as [|[[[d c] x] b] k']; [done|]. apply address_parent. pose proof (zip_addr _ _ _ _ Hz) as Ha.
  rewrite Forall_forall in Ha. apply Ha, elem_of_app. right. by left.
Qed.

(** Writing a node of the tree that keeps its links: recolouring. *)
Lemma zip_recolor d c c' a x b g : zip f s k (node d c a x b) ->
  (forall q, parent_ok q -> g (entry d q c (ptr a) (ptr b)) = entry d q c' (ptr a) (ptr b)) ->
  exists s', upd s x g = Some s' /\ zip f s' k (node d c' a x b) /\ root s' = root s.
Proof.
  intros Hz Hg. pose proof (zip_get _ _ _ _ _ Hz) as Hx. pose proof (zip_up_ok _ Hz) as Hq. destruct s as [h r].
  simpl in Hx. rewrite (upd_eq _ _ _ _ _ Hx), Hg by done. eexists. split; [done|]. split; [|done].
  destruct Hz as [Hnd Had Ht Hk Hr]. pose proof (zip_perm_facts d c a x b k) as Hp.
  pose proof (zip_perm_facts d c' a x b k) as Hp'. apply tree_in_node in Ht as (_&Ha&Hb).
  rewrite Hp in Hnd, Had. assert (Hnd' := Hnd). rewrite NoDup_app, NoDup_cons in Hnd'. destruct Hnd' as (_&Hda&Hxb&_).
  rewrite ptr_node in Hk. split; simpl.
  - by rewrite Hp'.
  - by rewrite Hp'.
  - apply tree_in_node. rewrite lookup_insert_eq. split; [done|].
    split; (eapply tree_in_agree; [|done]); intros j Hj; apply lookup_insert_ne; intros <-.
    + apply (Hda x Hj). by left.
    + apply Hxb, elem_of_app. by left.
  - rewrite ptr_node. eapply path_in_agree; [|done]. intros j Hj. apply lookup_insert_ne. intros <-. apply Hxb, elem_of_app. by right.
  - intros j Hj. rewrite Hp' in Hj. rewrite lookup_insert_ne; [apply Hr; by rewrite Hp|].
    intros <-. apply Hj, elem_of_app. right. by left.
Qed.

End zipper.

(** ** Rotation *)

Lemma nodes_rotate d c a x c' b y e :
  nodes (node d c' (node d c a x b) y e) = nodes (node d c a x (node d c' b y e)).
Proof. destruct d; simpl; by rewrite <- !app_assoc. Qed.

Lemma rotate_facts d c a x c' b y e k : NoDup (nodes (node d c a x (node d c' b y e)) ++ path_nodes k) ->
  NoDup (x :: y :: nodes a ++ nodes b ++ nodes e ++ path_nodes k).
Proof.
  intros H. assert (Hp : nodes (node d c a x (node d c' b y e)) ++ path_nodes k ≡ₚ
    x :: y :: nodes a ++ nodes b ++ nodes e ++ path_nodes k); [|by rewrite Hp in H].
  rewrite (nodes_node d c a x), (nodes_node d c' b y e). simpl. f_equiv. rewrite <- app_assoc. simpl.
  rewrite <- (Permutation_middle (nodes a)). f_equiv. by rewrite <- app_assoc.
Qed.

Lemma rotate_spec f s k d c a x c' b y e : zip f s k (node d c a x (node d c' b y e)) ->
  exists s', rotate d s x = Some s' /\ zip f s' k (node d c' (node d c a x b) y e).
Proof.
  intros Hz. pose proof (zip_get _ _ _ _ _ _ _ _ Hz) as Hx. pose proof (zip_up_ok _ _ _ _ Hz) as Hq.
  pose proof (zip_root _ _ _ _ _ _ _ _ Hz) as Hxa. rewrite ptr_node in Hx.
  assert (Hya : address y).
  { apply (zip_address _ _ _ _ _ Hz). rewrite zip_perm_facts, zip_perm_facts. rewrite elem_of_app, elem_of_cons, elem_of_app, elem_of_cons. tauto. }
  destruct Hz as [Hnd Had Ht Hk Hrest]. rewrite ptr_node in Hk. apply tree_in_node in Ht as (_&Ha&Ht). apply tree_in_node in Ht as (Hy&Hb&He).
  assert (Hadb : Forall address (nodes b) /\ Forall address (path_nodes k)).
  { apply Forall_app in Had as [Had Hadk]. split; [|done]. rewrite (nodes_node d c a x), (nodes_node d c' b y e) in Had.
    apply Forall_cons in Had as [_ Had]. apply Forall_app in Had as [_ Had]. apply Forall_cons in Had as [_ Had]. by apply Forall_app in Had as [Had _]. }
  destruct Hadb as [Hadb Hadk].
  pose proof (rotate_facts _ _ _ _ _ _ _ _ _ Hnd) as Hnd'. rewrite !NoDup_cons, !NoDup_app, !elem_of_cons, !elem_of_app in Hnd'.
  destruct Hnd' as (Nx&Ny&_&Dab&Nb&Dbe&Ne&Dek&Nk).
  destruct s as [h r]. simpl in *. unfold rotate.
  rewrite (child_of_eq (mk_state h r) _ _ _ Hx), some_bind, (parent_of_eq (mk_state h r) _ _ Hx), some_bind.
  autorewrite with rb. rewrite (child_of_eq (mk_state h r) _ _ _ Hy), some_bind. autorewrite with rb.
  rewrite (set_child_eq _ _ _ _ _ _ Hx), some_bind. autorewrite with rb.
  set (h1 := <[x := _]> h). assert (Hh1 : forall j, j <> x -> h1 !! j = h !! j) by (intros; by apply lookup_insert_ne).
  assert (Hy1 : h1 !! y = Some (entry d x c' (ptr b) (ptr e))) by (rewrite Hh1; [done|intros ->; tauto]).
  rewrite (child_of_eq (mk_state h1 r) _ _ _ Hy1), some_bind. autorewrite with rb.
  assert (Hb1 : tree_in h1 y b) by (eapply tree_in_agree; [|done]; intros j Hj; apply Hh1; intros ->; tauto).
  destruct (reparent h1 r y b x Hb1 Nb Hadb) as (h2&->&Hb2&Hh2); [auto..|]. rewrite some_bind.
  assert (Hy2 : h2 !! y = Some (entry d x c' (ptr b) (ptr e))) by (rewrite Hh2; [done|tauto]).
  rewrite (set_child_eq _ _ _ _ _ _ Hy2), some_bind. autorewrite with rb.
  rewrite (set_parent_eq _ _ y (up k) (entry d x c' x (ptr e))) by (apply lookup_insert_eq). rewrite some_bind, insert_insert_eq.
  rewrite entry_set_parent by auto. set (h4 := <[y := _]> h2).
  assert (Hh4 : forall j, j <> x -> j <> y -> j ∉ nodes b -> h4 !! j = h !! j).
  { intros j Hjx Hjy Hjb. unfold h4. rewrite lookup_insert_ne, Hh2, Hh1 by done. done. }
  assert (Hk4 : path_in h4 r k x) by (eapply path_in_agree; [|done]; intros j Hj; apply Hh4; [intros ->; tauto..|intros Hjb; apply (Dbe j Hjb), elem_of_app; by right]).
  destruct (relink_spec d h4 r k x y Hk4 Nk Hadk) as (h5&r'&->&Hk5&Hh5); [destruct Hxa; unfold NULL; lia|tauto|]. rewrite some_bind.
  assert (Hx5 : h5 !! x = Some (entry d (up k) c (ptr a) (ptr b))).
  { rewrite Hh5 by tauto. unfold h4. rewrite lookup_insert_ne by (intros ->; tauto). rewrite Hh2 by tauto. apply lookup_insert_eq. }
  rewrite (set_parent_eq _ _ _ _ _ Hx5). rewrite entry_set_parent by auto. eexists. split; [done|].
  set (h6 := <[x := _]> h5).
  assert (Hh6 : forall j, j <> x -> j <> y -> j ∉ nodes b -> j ∉ path_nodes k -> h6 !! j = h !! j).
  { intros j Hjx Hjy Hjb Hjk. unfold h6. rewrite lookup_insert_ne, Hh5, Hh4 by done. done. }
  assert (Hy6 : h6 !! y = Some (entry d (up k) c' x (ptr e))).
  { unfold h6. rewrite lookup_insert_ne by (intros ->; tauto). rewrite Hh5 by tauto. apply lookup_insert_eq. }
  split; simpl.
  - by rewrite nodes_rotate.
  - by rewrite nodes_rotate.
  - apply tree_in_node. rewrite ptr_node. split; [done|]. split; [apply tree_in_node; split; [apply lookup_insert_eq|split]|].
    + eapply tree_in_agree; [|done]. intros j Hj. specialize (Dab j Hj). rewrite !elem_of_app in Dab. apply Hh6; [intros ->; tauto..|tauto|tauto].
    + eapply tree_in_agree; [|done]. intros j Hj. specialize (Dbe j Hj). rewrite !elem_of_app in Dbe. unfold h6.
      rewrite lookup_insert_ne, Hh5 by (tauto || (intros ->; tauto)). unfold h4. apply lookup_insert_ne. intros ->. tauto.
    + eapply tree_in_agree; [|done]. intros j Hj. specialize (Dek j Hj). apply Hh6; [intros ->; tauto..| |done].
      intros Hjb. apply (Dbe j Hjb), elem_of_app. by left.
  - rewrite ptr_node. eapply path_in_agree; [|done]. intros j Hj. apply lookup_insert_ne. intros ->. tauto.
  - intros j Hj. rewrite nodes_rotate in Hj. rewrite <- Hrest by done. rewrite (nodes_node d c a x), (nodes_node d c' b y e) in Hj.
    rewrite elem_of_app, elem_of_cons, elem_of_app, elem_of_cons, elem_of_app in Hj. apply Hh6; tauto.
Qed.

(** ** Reading around a position *)

Lemma node_at d c a x b : exists c' l r, node d c a x b = Node c' l x r.
Proof. destruct d; simpl; eauto. Qed.

Lemma zip_sub f s k d c a x b : zip f s k (node d c a x b) <-> zip f s ((opp d, c, x, a) :: k) b.
Proof. rewrite <- node_opp. apply zip_down. Qed.

Lemma zip_get_up f s k d c x b t : zip f s ((d, c, x, b) :: k) t -> heap s !! x = Some (entry d (up k) c (ptr t) (ptr b)).
Proof. intros Hz. apply zip_down in Hz. by apply zip_get in Hz. Qed.

Lemma zip_up_address f s k d c x b t : zip f s ((d, c, x, b) :: k) t -> address x.
Proof. intros Hz. apply zip_down in Hz. by apply zip_root in Hz. Qed.

Lemma address_not_null p : address p -> p <> NULL.
Proof. intros [? ?]. unfold NULL. lia. Qed.

(** The pointer of the position differs from that of its sibling. *)
Lemma zip_sibling f s k d c x b t : zip f s ((d, c, x, b) :: k) t -> ptr t <> NULL \/ ptr b <> NULL -> ptr t <> ptr b.
Proof.
  intros Hz Hn E. destruct (ptr_in t) as [Ht|Ht], (ptr_in b) as [Hb|Hb]; try congruence.
  - rewrite <- E in Hn. tauto.
  - rewrite Ht in E. assert (Ha : address (ptr b)) by (apply (zip_address _ _ _ _ _ Hz); apply elem_of_app; right; right; apply elem_of_app; by left).
    destruct (address_not_null _ Ha). congruence.
  - rewrite Hb in E. assert (Ha : address (ptr t)) by (apply (zip_address _ _ _ _ _ Hz); apply elem_of_app; by left).
    destruct (address_not_null _ Ha). congruence.
  - pose proof (zip_nodup _ _ _ _ Hz) as Hnd. rewrite NoDup_app in Hnd. destruct Hnd as (_&Hd&_).
    apply (Hd _ Ht). right. apply elem_of_app. left. congruence.
Qed.

(** Looking at the left child tells the side of the position. *)
Lemma zip_side f s k d c x b t : zip f s ((d, c, x, b) :: k) t -> ptr t <> NULL \/ ptr b <> NULL ->
  child_of s L x = Some (sub L (entry d (up k) c (ptr t) (ptr b))) /\
  (if ptr t =? sub L (entry d (up k) c (ptr t) (ptr b)) then L else R) = d.
Proof.
  intros Hz Hn. pose proof (zip_get_up _ _ _ _ _ _ _ _ Hz) as Hx. split; [by rewrite (child_of_eq _ _ _ _ Hx)|].
  pose proof (zip_sibling _ _ _ _ _ _ _ _ Hz Hn) as Hne. destruct d.
  - by rewrite entry_sub, Z.eqb_refl.
  - change (sub L) with (sub (opp R)). rewrite entry_sub_opp. by destruct (Z.eqb_spec (ptr t) (ptr b)).
Qed.

Lemma zip_parent f s k t : zip f s k t -> t <> Leaf -> parent_of s (ptr t) = Some (up k).
Proof.
  intros Hz Ht. destruct t as [|c l x r]; [done|]. cbn [ptr]. rewrite (parent_of_eq _ _ _ (zip_get _ _ _ L c l x r Hz)).
  by rewrite entry_parent by (by apply (zip_up_ok _ _ _ _ Hz)).
Qed.

Lemma red_node_spec f s k t : zip f s k t -> red_node s (ptr t) = Some (match color_at t with Red => true | Black => false end).
Proof.
  intros Hz. destruct t as [|c l x r]; [done|]. change (Node c l x r) with (node L c l x r) in Hz.
  pose proof (zip_root _ _ _ _ _ _ _ _ Hz) as Hxa. unfold red_node. simpl ptr.
  destruct (Z.eqb_spec x NULL) as [->|_]; [by destruct (address_not_null _ Hxa)|].
  pose proof (zip_get _ _ _ _ _ _ _ _ Hz) as Hx. pose proof (zip_up_ok _ _ _ _ Hz) as Hq.
  rewrite (is_red_eq _ _ _ Hx). by rewrite entry_is_red.
Qed.

Lemma black_node_spec f s k t : zip f s k t -> black_node s (ptr t) = Some (match color_at t with Red => false | Black => true end).
Proof. intros Hz. unfold black_node. rewrite (red_node_spec _ _ _ _ Hz), some_bind. by destruct (color_at t). Qed.

(** ** Trees and positions *)

Lemma nodes_plug k t : nodes (plug k t) = before k ++ nodes t ++ after k.
Proof.
  revert t. induction k as [|[[[d c] x] b] k IH]; intros t; simpl; [by rewrite app_nil_r|].
  rewrite IH. destruct d; simpl; by rewrite <- !app_assoc.
Qed.

Lemma zip_plug f s k t : zip f s k t <-> zip f s [] (plug k t).
Proof.
  revert t. induction k as [|[[[d c] x] b] k IH]; intros t; [done|]. simpl. by rewrite <- IH, zip_down.
Qed.

#[local] Ltac nodes_eq :=
  simpl; rewrite ?nodes_plug; repeat (progress (rewrite <- ?app_assoc; simpl)); reflexivity.

Lemma node_black_height d c a x b n : black_height a n -> black_height b n ->
  black_height (node d c a x b) (match c with Black => S n | Red => n end).
Proof. destruct d, c; simpl; auto. Qed.

Lemma node_no_red_red d c a x b : no_red_red a -> no_red_red b -> (c = Red -> color_at a = Black /\ color_at b = Black) ->
  no_red_red (node d c a x b).
Proof. destruct d; simpl; tauto. Qed.

Lemma node_black_height_inv d c a x b n : black_height (node d c a x b) (match c with Black => S n | Red => n end) ->
  black_height a n /\ black_height b n.
Proof. destruct d, c; simpl; tauto. Qed.

Lemma node_no_red_red_inv d c a x b : no_red_red (node d c a x b) ->
  no_red_red a /\ no_red_red b /\ (c = Red -> color_at a = Black /\ color_at b = Black).
Proof. destruct d; simpl; tauto. Qed.

Lemma color_at_node d c a x b : color_at (node d c a x b) = c.
Proof. by destruct d. Qed.

Lemma plug_rb k : forall t n, path_rb k n -> black_height t n -> no_red_red t -> (color_at t = Red -> above k = Black) ->
  red_black (plug k t).
Proof.
  induction k as [|[[[d c] x] b] k IH]; intros t n Hk Hh Hr Hc.
  { split; [|split; [done|by exists n]]. simpl in *. destruct (color_at t); [|done]. by specialize (Hc eq_refl). }
  simpl in Hk. destruct Hk as (Hbh&Hbr&Hred&Hk). simpl. eapply IH; [exact Hk|by apply node_black_height| |].
  - apply node_no_red_red; [done|done|]. intros ->. split; [|by apply Hred]. destruct (color_at t); [|done].
    by specialize (Hc eq_refl).
  - rewrite color_at_node. intros ->. by apply Hred.
Qed.

Lemma unplug_rb k : forall t, red_black (plug k t) ->
  exists n, path_rb k n /\ black_height t n /\ no_red_red t /\ (color_at t = Red -> above k = Black).
Proof.
  induction k as [|[[[d c] x] b] k IH]; intros t Ht.
  { destruct Ht as (Hc&Hr&n&Hn). exists n. simpl in *. do 3 (split; [done|]). congruence. }
  simpl in Ht. apply IH in Ht as (n&Hk&Hh&Hr&Hc). rewrite color_at_node in Hc.
  assert (Hs : exists m, n = (match c with Black => S m | Red => m end) /\ black_height t m /\ black_height b m).
  { destruct d, c; simpl in Hh; [|destruct n as [|m]; [done|]| |destruct n as [|m]; [done|]]; eexists; (split; [done|]); tauto. }
  destruct Hs as (m&->&Hht&Hhb).
  assert (Hs : no_red_red t /\ no_red_red b /\ (c = Red -> color_at t = Black /\ color_at b = Black)) by (destruct d; simpl in Hr; tauto).
  destruct Hs as (Hrt&Hrb&Hcc). exists m. simpl. split; [|split; [done|split; [done|]]].
  - split; [done|]. split; [done|]. split; [|done]. intros ->. split; [by apply Hcc|by apply Hc].
  - intros Ht. destruct c; [|done]. destruct (Hcc eq_refl). congruence.
Qed.

(** ** Insertion *)

(** The last rotation: the parent [p] of the red [t1] comes up, black. *)
Lemma insert_rotation f s k d t1 p b g u : zip f s ((d, Black, g, u) :: k) (node d Red t1 p b) ->
  exists s' s2 s3, upd s p rb_set_black = Some s' /\ upd s' g rb_set_red = Some s2 /\ rotate (opp d) s2 g = Some s3 /\
    zip f s3 k (node (opp d) Black (node (opp d) Red u g b) p t1).
Proof.
  intros Hz. destruct (zip_recolor _ _ _ _ _ Black _ _ _ rb_set_black Hz) as (s1&E1&Hz1&_); [intros q Hq; by autorewrite with rb|].
  apply zip_down in Hz1. destruct (zip_recolor _ _ _ _ _ Red _ _ _ rb_set_red Hz1) as (s2&E2&Hz2&_); [intros q Hq; by autorewrite with rb|].
  rewrite <- (node_opp d Red), <- (node_opp d Black) in Hz2. apply rotate_spec in Hz2 as (s3&E3&Hz3).
  exists s1, s2, s3. done.
Qed.

(** The node under a black parent ends the loop. *)
Lemma insert_stop f s k d x b t fuel : zip f s ((d, Black, x, b) :: k) t -> ptr t <> NULL ->
  insert_loop (S fuel) s (ptr t) = Some s.
Proof.
  intros Hz Ht. pose proof (zip_get_up _ _ _ _ _ _ _ _ Hz) as Hx. pose proof (zip_up_address _ _ _ _ _ _ _ _ Hz) as Hxa.
  destruct t as [|c l y r]; [done|]. change (Node c l y r) with (node L c l y r) in *. rewrite ptr_node in *.
  pose proof (zip_get _ _ _ _ _ _ _ _ Hz) as Hy. pose proof (zip_up_ok _ _ _ _ Hz) as Hq. cbn [up] in *.
  apply zip_down in Hz. pose proof (zip_up_ok _ _ _ _ Hz) as Hqx.
  cbn [insert_loop]. rewrite (parent_of_eq _ _ _ Hy), some_bind, entry_parent by done.
  destruct (Z.eqb_spec x NULL) as [->|_]; [by destruct (address_not_null _ Hxa)|].
  rewrite (is_red_eq _ _ _ Hx), some_bind, entry_is_red by done. done.
Qed.

(** A whole red-black tree, when it is not empty. *)
Lemma inserted_whole f s t : zip f s [] t -> red_black t -> nodes t <> [] -> inserted f (nodes t) (Some s).
Proof.
  intros Hz Hrb Hn. destruct t as [|c l y r]; [done|]. destruct Hrb as (Hc&Hr&Hh). simpl in Hc. subst c.
  by exists s, Black, l, y, r.
Qed.

Lemma plug_not_empty k t : t <> Leaf -> nodes (plug k t) <> [].
Proof. intros Ht E. rewrite nodes_plug in E. destruct t as [|c l x r]; [done|]. simpl in E. by destruct (before k), (nodes l). Qed.

(** The uncle [u] is red: it and the parent turn black, the grandparent red. *)
Lemma insert_recolor f s k d p b dg g u t n : let t' := node dg Red (node d Black t p b) g (blacken u) in
  zip f s ((d, Red, p, b) :: (dg, Black, g, u) :: k) t -> color_at u = Red ->
  path_rb ((d, Red, p, b) :: (dg, Black, g, u) :: k) n -> black_height t n -> no_red_red t ->
  exists s1 s2 s3, upd s (ptr u) rb_set_black = Some s1 /\ upd s1 p rb_set_black = Some s2 /\
    upd s2 g rb_set_red = Some s3 /\ zip f s3 k t' /\ black_height t' (S n) /\
    no_red_red (node d Black t p b) /\ no_red_red (blacken u) /\
    nodes (plug k t') = nodes (plug ((d, Red, p, b) :: (dg, Black, g, u) :: k) t).
Proof.
  intros t' Hz Eu Hk Hh Hr. subst t'. simpl in Hk. destruct Hk as (Hbh&Hbr&_&Huh&Hur&_&_).
  destruct u as [|cu ul y ur]; [done|]. simpl in Eu. subst cu. change (Node Red ul y ur) with (node L Red ul y ur) in *.
  apply (proj2 (zip_down _ _ _ _ _ _ _ _)), (proj2 (zip_down _ _ _ _ _ _ _ _)), (proj1 (zip_sub _ _ _ _ _ _ _ _)) in Hz.
  destruct (zip_recolor _ _ _ _ _ Black _ _ _ rb_set_black Hz) as (s1&E1&Hz1&_); [intros q Hq; by autorewrite with rb|].
  apply (proj2 (zip_sub _ _ _ _ _ _ _ _)), (proj1 (zip_down _ _ _ _ _ _ _ _)) in Hz1.
  destruct (zip_recolor _ _ _ _ _ Black _ _ _ rb_set_black Hz1) as (s2&E2&Hz2&_); [intros q Hq; by autorewrite with rb|].
  apply (proj2 (zip_down _ _ _ _ _ _ _ _)) in Hz2.
  destruct (zip_recolor _ _ _ _ _ Red _ _ _ rb_set_red Hz2) as (s3&E3&Hz3&_); [intros q Hq; by autorewrite with rb|].
  exists s1, s2, s3. rewrite ptr_node. split_and!; [exact E1|exact E2|exact E3|exact Hz3|..].
  - apply (node_black_height _ Red); [by apply (node_black_height d Black)|exact Huh].
  - by apply node_no_red_red.
  - simpl in Hur |- *. tauto.
  - simpl. rewrite !nodes_plug. by destruct dg, d.
Qed.

(** The uncle is black and the red [t1] on the far side of it: one rotation ends the loop. *)
Lemma insert_finish fuel f s k dg g u t1 p b n : zip f s ((dg, Black, g, u) :: k) (node dg Red t1 p b) ->
  ptr t1 <> NULL -> path_rb ((dg, Black, g, u) :: k) n -> color_at u = Black -> color_at b = Black ->
  black_height t1 n -> black_height b n -> no_red_red t1 -> no_red_red b ->
  inserted f (nodes (plug ((dg, Black, g, u) :: k) (node dg Red t1 p b)))
    (s ← upd s p rb_set_black; s ← upd s g rb_set_red; s ← rotate (opp dg) s g; insert_loop (S fuel) s (ptr t1)).
Proof.
  intros Hz Ht1 (Huh&Hur&_&Hk) Hcu Hcb Hh1 Hhb Hr1 Hrb.
  destruct (insert_rotation _ _ _ _ _ _ _ _ _ Hz) as (s2&s3&s4&->&E2&E3&Hz4). rewrite some_bind, E2, some_bind, E3, some_bind.
  assert (Hz5 := proj1 (zip_sub _ _ _ _ _ _ _ _) Hz4). rewrite (insert_stop _ _ _ _ _ _ _ fuel Hz5 Ht1).
  assert (Hn : nodes (plug ((dg, Black, g, u) :: k) (node dg Red t1 p b)) =
    nodes (plug k (node (opp dg) Black (node (opp dg) Red u g b) p t1))) by (clear; destruct dg; nodes_eq).
  refine (eq_ind_r (fun ns => inserted f ns _) _ Hn). apply inserted_whole.
  - exact (proj1 (zip_plug _ _ _ _) Hz4).
  - apply (plug_rb _ _ (S n)); [done| | |by rewrite color_at_node].
    + apply (node_black_height _ Black); [by apply (node_black_height _ Red)|done].
    + apply node_no_red_red; [by apply node_no_red_red|done|done].
  - apply plug_not_empty. by destruct dg.
Qed.

(** The uncle is black: the red node comes to the far side first, if need be. *)
Lemma insert_rotate fuel f s k d p s1 dg g u a x b n : zip f s ((d, Red, p, s1) :: (dg, Black, g, u) :: k) (node dg Red a x b) ->
  path_rb ((d, Red, p, s1) :: (dg, Black, g, u) :: k) n -> color_at u = Black ->
  black_height a n -> black_height b n -> no_red_red a -> no_red_red b -> color_at a = Black -> color_at b = Black ->
  inserted f (nodes (plug ((d, Red, p, s1) :: (dg, Black, g, u) :: k) (node dg Red a x b)))
    (inner ← child_of s (opp dg) p;
     '(s, node, parent) ← (if inner =? x then s ← rotate dg s p; Some (s, p, x) else Some (s, x, p));
     s ← upd s parent rb_set_black; s ← upd s g rb_set_red; s ← rotate (opp dg) s g; insert_loop (S fuel) s node).
Proof.
  intros Hz (Hs1h&Hs1r&Hs1c&Hk) Hcu Hha Hhb Hra Hrb Hca Hcb. destruct (Hs1c eq_refl) as [Hs1b _].
  pose proof (zip_sibling _ _ _ _ _ _ _ _ Hz) as Hsib. rewrite ptr_node in Hsib.
  pose proof (address_not_null _ (zip_root _ _ _ _ _ _ _ _ Hz)) as Hx0. pose proof (address_not_null _ (zip_up_address _ _ _ _ _ _ _ _ Hz)) as Hp0.
  assert (Hp := zip_get_up _ _ _ _ _ _ _ _ Hz). rewrite ptr_node in Hp.
  rewrite (child_of_eq _ _ _ _ Hp), some_bind. apply (proj2 (zip_down _ _ _ _ _ _ _ _)) in Hz. destruct (decide (d = dg)) as [->|Hne].
  - rewrite entry_sub_opp. destruct (Z.eqb_spec (ptr s1) x) as [E|_]; [destruct Hsib; [by left|done]|]. rewrite some_bind.
    pose proof (insert_finish fuel f s k dg g u (node dg Red a x b) p s1 n) as H. rewrite ptr_node in H.
    apply H; try done; [by apply (node_black_height _ Red)|by apply node_no_red_red].
  - assert (d = opp dg) as -> by (by destruct d, dg). rewrite entry_sub, Z.eqb_refl, node_opp in *.
    apply rotate_spec in Hz as (s2&->&Hz2). rewrite !some_bind.
    pose proof (insert_finish fuel f s2 k dg g u (node dg Red s1 p a) x b n) as H. rewrite ptr_node in H.
    assert (Hn : nodes (plug ((opp dg, Red, p, s1) :: (dg, Black, g, u) :: k) (node dg Red a x b)) =
      nodes (plug ((dg, Black, g, u) :: k) (node dg Red (node dg Red s1 p a) x b))) by (clear; destruct dg; nodes_eq).
    refine (eq_ind_r (fun ns => inserted f ns _) _ Hn).
    apply H; try done; [by apply (node_black_height _ Red)|by apply node_no_red_red].
Qed.

(** A red node, seen from the side of its grandparent. *)
Lemma red_node_seen d a x b n : black_height a n -> black_height b n -> no_red_red a -> no_red_red b ->
  color_at a = Black -> color_at b = Black ->
  exists a' b', Node Red a x b = node d Red a' x b' /\ black_height a' n /\ black_height b' n /\
    no_red_red a' /\ no_red_red b' /\ color_at a' = Black /\ color_at b' = Black.
Proof. destruct d; [exists a, b|exists b, a]; done. Qed.

(** The loop stops at the root, left red, and under a black node. *)
Lemma insert_ends fuel f s k a x b n : zip f s k (Node Red a x b) -> path_rb k n ->
  black_height a n -> black_height b n -> no_red_red a -> no_red_red b -> color_at a = Black -> color_at b = Black ->
  k = [] \/ above k = Black -> inserted f (nodes (plug k (Node Red a x b))) (insert_loop (S fuel) s x).
Proof.
  intros Hz Hk Hha Hhb Hra Hrb Hca Hcb Hend. destruct k as [|[[[d c] p] s1] k].
  - change (Node Red a x b) with (node L Red a x b) in *. pose proof (zip_get _ _ _ _ _ _ _ _ Hz) as Hx. cbn [insert_loop].
    rewrite (parent_of_eq _ _ _ Hx), some_bind, entry_parent by done. cbn [up]. exists s, Red, a, x, b.
    split; [done|]. split; [done|]. split; [|done]. split; [done|]. split; [by simpl|]. by exists (S n).
  - destruct Hend as [|Hc]; [done|]. simpl in Hc. subst c.
    assert (E : insert_loop (S fuel) s x = Some s).
    { apply (insert_stop f s k d p s1 (Node Red a x b) fuel Hz). apply (address_not_null x). exact (zip_root _ _ _ L Red a x b Hz). }
    rewrite E. apply inserted_whole; [exact (proj1 (zip_plug _ _ _ _) Hz)| |by apply plug_not_empty].
    by apply (plug_rb _ _ n).
Qed.

(** What the loop reads around a red node with a red parent. *)
Lemma insert_step fuel f s k d p s1 dg g u t : zip f s ((d, Red, p, s1) :: (dg, Black, g, u) :: k) t -> t <> Leaf ->
  insert_loop (S fuel) s (ptr t) =
    (if color_at u is Red then
       s ← upd s (ptr u) rb_set_black; s ← upd s p rb_set_black; s ← upd s g rb_set_red; insert_loop fuel s g
     else
       inner ← child_of s (opp dg) p;
       '(s, node, parent) ← (if inner =? ptr t then s ← rotate dg s p; Some (s, p, ptr t) else Some (s, ptr t, p));
       s ← upd s parent rb_set_black; s ← upd s g rb_set_red; s ← rotate (opp dg) s g; insert_loop fuel s node).
Proof.
  intros Hz Ht. pose proof (zip_parent _ _ _ _ Hz Ht) as Hx. pose proof (zip_get_up _ _ _ _ _ _ _ _ Hz) as Hp.
  pose proof (zip_up_address _ _ _ _ _ _ _ _ Hz) as Hpa. apply (proj2 (zip_down _ _ _ _ _ _ _ _)) in Hz.
  pose proof (zip_get_up _ _ _ _ _ _ _ _ Hz) as Hg. pose proof (zip_up_ok _ _ _ _ Hz) as Hqg.
  destruct (zip_side _ _ _ _ _ _ _ _ Hz) as [El Ed]; [left; rewrite ptr_node; by apply address_not_null|].
  apply (proj2 (zip_down _ _ _ _ _ _ _ _)), (proj1 (zip_sub _ _ _ _ _ _ _ _)) in Hz.
  rewrite ptr_node in *. cbn [insert_loop up] in *. rewrite Hx, some_bind. destruct (Z.eqb_spec p NULL) as [->|_]; [by destruct (address_not_null _ Hpa)|].
  rewrite (is_red_eq _ _ _ Hp), some_bind, entry_is_red by auto. cbn [negb].
  rewrite (parent_of_eq _ _ _ Hp), some_bind, entry_parent by auto. rewrite El, some_bind. cbv zeta. rewrite Ed.
  rewrite (child_of_eq _ _ _ _ Hg), some_bind, entry_sub_opp, (red_node_spec _ _ _ _ Hz), some_bind. by destruct (color_at u).
Qed.

Lemma insert_loop_spec fuel : forall f s k a x b n, (length k < fuel)%nat -> zip f s k (Node Red a x b) -> path_rb k n ->
  black_height a n -> black_height b n -> no_red_red a -> no_red_red b -> color_at a = Black -> color_at b = Black ->
  inserted f (nodes (plug k (Node Red a x b))) (insert_loop fuel s x).
Proof.
  induction fuel as [|fuel IH]; intros f s k a x b n Hf Hz Hk Hha Hhb Hra Hrb Hca Hcb; [lia|].
  destruct k as [|[[[d c] p] s1] k]; [apply (insert_ends _ _ _ _ _ _ _ n); auto|].
  destruct c; [|apply (insert_ends _ _ _ _ _ _ _ n); auto].
  destruct k as [|[[[dg cg] g] u] k]; [destruct Hk as (_&_&Hk&_); by destruct (Hk eq_refl)|].
  assert (cg = Black) as -> by (destruct Hk as (_&_&Hc&_); by apply Hc).
  change x with (ptr (Node Red a x b)) at 2. rewrite (insert_step _ _ _ _ _ _ _ _ _ _ _ Hz) by done. destruct (color_at u) eqn:Eu.
  - destruct (insert_recolor _ _ _ _ _ _ _ _ _ _ n Hz Eu Hk) as (r1&r2&r3&->&E2&E3&Hz3&Hh3&Hr1&Hr2&Hn); [done|done|].
    rewrite some_bind, E2, some_bind, E3, some_bind. refine (eq_ind (_ : list Z) (fun ns => inserted f ns _) _ _ Hn).
    assert (Hcu : color_at (blacken u) = Black) by (by destruct u). simpl in Hk, Hf. destruct Hk as (_&_&_&_&_&_&Hk).
    apply (node_black_height_inv dg Red) in Hh3 as [Hha3 Hhb3].
    destruct dg; cbn [node] in *; apply (IH f r3 k _ g _ (S n)); (done || lia || by rewrite color_at_node).
  - destruct fuel as [|fuel]; [simpl in Hf; lia|].
    destruct (red_node_seen dg a x b n) as (a'&b'&E&H); [done..|]. cbn [ptr]. rewrite E in *. destruct_and! H.
    by apply (insert_rotate _ _ _ _ _ _ _ _ _ _ _ _ _ n).
Qed.

Lemma link_spec f s k x : zip f s k Leaf -> address x -> x ∉ path_nodes k -> is_Some (heap s !! x) ->
  exists s', rb_link_node s x (up k) (link_at k) = Some s' /\ zip f s' k (Node Red Leaf x Leaf).
Proof.
  intros Hz Hxa Hx [e He]. destruct s as [h r]. simpl in He. unfold rb_link_node. rewrite (upd_eq _ _ _ _ _ He), some_bind.
  set (h1 := <[x := _]> h). assert (H1 : forall j, j <> x -> h1 !! j = h !! j) by (intros; by apply lookup_insert_ne).
  assert (Hx1 : h1 !! x = Some (entry L (up k) Red NULL NULL)) by (unfold h1; rewrite lookup_insert_eq; unfold entry; cbn; by rewrite Z.add_0_r).
  destruct Hz as [Hnd Had _ Hk Hrest]. simpl in *.
  assert (Hfin : forall h' r', h' !! x = h1 !! x -> path_in h' r' k x -> (forall j, j <> x -> j ∉ path_nodes k -> h' !! j = h !! j) ->
    zip f (mk_state h' r') k (Node Red Leaf x Leaf)).
  { intros h' r' Hx' Hk' Hr'. split; simpl.
    - by apply NoDup_cons.
    - by apply Forall_cons.
    - by rewrite Hx', Hx1.
    - done.
    - intros j Hj. apply not_elem_of_cons in Hj as [Hj1 Hj2]. rewrite Hr' by done. by apply Hrest. }
  destruct k as [|[[[d c] p] b] k].
  { eexists. split; [done|]. apply Hfin; [done|done|]. intros j Hj _. by apply H1. }
  simpl in *. destruct Hk as (Hp&Hb&Hk). apply not_elem_of_cons in Hx as [Hxp Hx]. apply NoDup_cons in Hnd as [Hpn Hnd].
  assert (Hp1 : h1 !! p = Some (entry d (up k) c NULL (ptr b))) by (rewrite H1; done).
  rewrite (set_child_eq _ _ _ _ _ _ Hp1). eexists. split; [done|]. rewrite entry_set_sub. apply Hfin.
  - by apply lookup_insert_ne.
  - rewrite lookup_insert_eq. split; [done|].
    split; [apply (tree_in_agree h); [|done]|apply (path_in_agree h); [|done]]; intros j Hj;
      (rewrite lookup_insert_ne; [apply H1|]; intros ->); first [solve [apply Hx, elem_of_app; auto]|solve [apply Hpn, elem_of_app; auto]].
  - intros j Hj1 Hj2. apply not_elem_of_cons in Hj2 as [Hj2 _]. rewrite lookup_insert_ne by done. by apply H1.
Qed.

(** ** Erasure: repairing the colours *)

Lemma blacken_black t : color_at t = Black -> blacken t = t.
Proof. destruct t as [|[] l x r]; simpl; congruence. Qed.

(** Any tree below a position, seen from the side of its sibling. *)
Lemma split_node d t : t = Leaf \/ exists a x b, t = node d (color_at t) a x b.
Proof. destruct t as [|c l x r]; [by left|right]. destruct d; [exists l, x, r|exists r, x, l]; done. Qed.

(** Blackening a node of the tree through its pointer, when there is one. *)
Lemma blacken_spec f s k t : zip f s k t ->
  exists s', (if ptr t =? NULL then Some s else upd s (ptr t) rb_set_black) = Some s' /\ zip f s' k (blacken t) /\ root s' = root s.
Proof.
  intros Hz. destruct t as [|c l x r]; [by exists s|]. change (Node c l x r) with (node L c l x r) in *. rewrite ptr_node.
  pose proof (address_not_null _ (zip_root _ _ _ _ _ _ _ _ Hz)) as Hx. destruct (Z.eqb_spec x NULL); [done|].
  apply (zip_recolor _ _ _ _ _ Black _ _ _ rb_set_black Hz). intros q Hq. by autorewrite with rb.
Qed.

(** The end: the root is blackened once more. *)
Lemma root_spec f s t : zip f s [] t -> red_black t ->
  exists s', (if root s =? NULL then Some s else upd s (root s) rb_set_black) = Some s' /\ zip f s' [] t.
Proof.
  intros Hz [Hc _]. pose proof (zip_path _ _ _ _ Hz) as Hr. simpl in Hr. rewrite Hr.
  destruct (blacken_spec _ _ _ _ Hz) as (s'&E&Hz'&_). rewrite (blacken_black t Hc) in Hz'. by exists s'.
Qed.

(** Moving the position in a hypothesis. *)
#[local] Ltac in_near H := apply (proj1 (zip_down _ _ _ _ _ _ _ _)) in H.
#[local] Ltac out_near H := apply (proj2 (zip_down _ _ _ _ _ _ _ _)) in H.
#[local] Ltac in_far H := apply (proj1 (zip_sub _ _ _ _ _ _ _ _)) in H.
#[local] Ltac out_far H := apply (proj2 (zip_sub _ _ _ _ _ _ _ _)) in H.

(** The last rotation, towards the position, with a red nephew on the far side. *)
Lemma erase_rotate f s k d c t x near y fa z fb n : zip f s ((d, c, x, node d Black near y (node d Red fa z fb)) :: k) t ->
  lacks_black ((d, c, x, node d Black near y (node d Red fa z fb)) :: k) t n -> color_at t = Black ->
  exists s', (color ← color_of s x;
    s ← upd s y (fun n => rb_set_color n color);
    s ← upd s x rb_set_black;
    far ← child_of s (opp d) y;
    s ← (if far =? NULL then Some s else upd s far rb_set_black);
    s ← rotate d s x;
    Some (s, false)) = Some (s', false) /\
    let t' := plug k (node d c (node d Black t x near) y (node d Black fa z fb)) in
    zip f s' [] t' /\ red_black t' /\ nodes t' = nodes (plug ((d, c, x, node d Black near y (node d Red fa z fb)) :: k) t).
Proof.
  intros Hz (Hk&Hh&Hr) Hc. pose proof (zip_get_up _ _ _ _ _ _ _ _ Hz) as Hx.
  assert (Hz0 := proj2 (zip_down _ _ _ _ _ _ _ _) Hz). pose proof (zip_up_ok _ _ _ _ Hz0) as Hq.
  rewrite (color_of_eq _ _ _ Hx), some_bind, entry_color by done.
  assert (Hz1 := proj1 (zip_sub _ _ _ _ _ _ _ _) Hz0).
  destruct (zip_recolor _ _ _ _ _ c _ _ _ (fun n => rb_set_color n (bit c)) Hz1) as (s1&->&Hz2&_); [intros q Hq'; by autorewrite with rb|].
  rewrite some_bind. out_far Hz2.
  destruct (zip_recolor _ _ _ _ _ Black _ _ _ rb_set_black Hz2) as (s2&->&Hz3&_); [intros q Hq'; by autorewrite with rb|].
  rewrite some_bind. in_far Hz3. rewrite (child_of_eq _ _ _ _ (zip_get _ _ _ _ _ _ _ _ Hz3)), some_bind, entry_sub_opp.
  in_far Hz3. destruct (blacken_spec _ _ _ _ Hz3) as (s3&->&Hz4&_). rewrite some_bind.
  assert (Eb : blacken (node d Red fa z fb) = node d Black fa z fb) by (by destruct d). rewrite Eb in Hz4.
  out_far Hz4. out_far Hz4. apply rotate_spec in Hz4 as (s4&->&Hz5). exists s4. split; [done|]. cbv zeta.
  simpl in Hk. destruct Hk as (Hyh&Hyr&Hyc&Hk). rewrite blacken_black in Hr by done.
  apply (node_black_height_inv d Black) in Hyh as [Hnh Hzh]. apply (node_black_height_inv d Red) in Hzh as [Hfah Hfbh].
  apply node_no_red_red_inv in Hyr as (Hnr&Hzr&_). apply node_no_red_red_inv in Hzr as (Hfar&Hfbr&_).
  split; [exact (proj1 (zip_plug _ _ _ _) Hz5)|]. split.
  - apply (plug_rb _ _ _ Hk).
    + apply node_black_height; by apply (node_black_height _ Black).
    + apply node_no_red_red; [by apply node_no_red_red|by apply node_no_red_red|]. intros _. by rewrite !color_at_node.
    + rewrite color_at_node. intros ->. by apply Hyc.
  - clear. destruct d; nodes_eq.
Qed.

(** The sibling is black. *)
Lemma erase_case_spec f s k d c t x near y far n : zip f s ((d, c, x, node d Black near y far) :: k) t ->
  lacks_black ((d, c, x, node d Black near y far) :: k) t n -> color_at t = Black ->
  exists s' up, erase_case d s x y = Some (s', up) /\
    if (up : bool) then zip f s' k (node d c t x (node d Red near y far)) /\
      lacks_black k (node d c t x (node d Red near y far)) (match c with Black => S n | Red => n end)
    else exists t', zip f s' [] t' /\ red_black t' /\ nodes t' = nodes (plug ((d, c, x, node d Black near y far) :: k) t).
Proof.
  intros Hz Hl Hc. assert (Hz0 := proj2 (zip_down _ _ _ _ _ _ _ _) Hz). assert (Hz1 := proj1 (zip_sub _ _ _ _ _ _ _ _) Hz0).
  pose proof (zip_get _ _ _ _ _ _ _ _ Hz1) as Hy. unfold erase_case.
  rewrite !(child_of_eq _ _ _ _ Hy), !some_bind. autorewrite with rb.
  assert (Hzn := proj1 (zip_down _ _ _ _ _ _ _ _) Hz1). assert (Hzf := proj1 (zip_sub _ _ _ _ _ _ _ _) Hz1).
  rewrite (black_node_spec _ _ _ _ Hzn), some_bind, (black_node_spec _ _ _ _ Hzf), some_bind.
  destruct (color_at far) eqn:Ef; [|destruct (color_at near) eqn:En]; cbn [andb]; rewrite ?andb_false_r.
  - destruct (split_node d far) as [->|(fa&z&fb&E)]; [done|]. rewrite Ef in E. rewrite some_bind, E in *.
    destruct (erase_rotate _ _ _ _ _ _ _ _ _ _ _ _ _ Hz Hl Hc) as (s'&->&H). exists s', false. split; [done|]. by eexists.
  - destruct (split_node d near) as [->|(nl&z&nr&E)]; [done|]. rewrite En in E. rewrite E in *.
    destruct (blacken_spec _ _ _ _ Hzn) as (s1&->&Hz2&_). rewrite some_bind. out_near Hz2.
    destruct (zip_recolor _ _ _ _ _ Red _ _ _ rb_set_red Hz2) as (s2&->&Hz3&_); [intros q Hq; by autorewrite with rb|]. rewrite some_bind.
    assert (Eb : blacken (node d Red nl z nr) = node d Black nl z nr) by (by destruct d). rewrite Eb in Hz3.
    rewrite <- (node_opp d Red), <- (node_opp d Black) in Hz3. apply rotate_spec in Hz3 as (s3&->&Hz4). rewrite some_bind.
    rewrite !node_opp in Hz4. out_far Hz4. rewrite (child_of_eq _ _ _ _ (zip_get _ _ _ _ _ _ _ _ Hz4)), some_bind, entry_sub_opp, ptr_node, some_bind.
    in_near Hz4.
    assert (Hl' : lacks_black ((d, c, x, node d Black nl z (node d Red nr y far)) :: k) t n).
    { destruct Hl as (Hk&Hh&Hr). split; [|done]. simpl in Hk |- *. destruct Hk as (Hyh&Hyr&Hyc&Hk).
      apply (node_black_height_inv d Black) in Hyh as [Hzh Hfh]. apply (node_black_height_inv d Red) in Hzh as [Hnlh Hnrh].
      apply node_no_red_red_inv in Hyr as (Hzr&Hfr&_). apply node_no_red_red_inv in Hzr as (Hnlr&Hnrr&Hzc). destruct (Hzc eq_refl).
      split; [by apply (node_black_height d Black); [|apply (node_black_height d Red)]|].
      split; [by apply node_no_red_red; [|apply node_no_red_red|]|]. split; [|done]. intros Hcr. rewrite color_at_node. by split; [|apply Hyc]. }
    destruct (erase_rotate _ _ _ _ _ _ _ _ _ _ _ _ _ Hz4 Hl' Hc) as (s'&->&Hz5&Hrb&Hn). exists s', false. split; [done|].
    eexists. split; [exact Hz5|]. split; [exact Hrb|]. etrans; [exact Hn|]. clear. destruct d; nodes_eq.
  - destruct (zip_recolor _ _ _ _ _ Red _ _ _ rb_set_red Hz1) as (s1&->&Hz2&_); [intros q Hq; by autorewrite with rb|]. rewrite some_bind.
    out_far Hz2. exists s1, true. split; [done|]. split; [exact Hz2|].
    destruct Hl as (Hk&Hh&Hr). simpl in Hk. destruct Hk as (Hyh&Hyr&Hyc&Hk).
    apply (node_black_height_inv d Black) in Hyh as [Hnh Hfh]. apply node_no_red_red_inv in Hyr as (Hnr&Hfr&_).
    split; [by destruct c|]. split.
    + apply node_black_height; [done|by apply (node_black_height d Red)].
    + assert (E : blacken (node d c t x (node d Red near y far)) = node d Black t x (node d Red near y far)) by (by destruct d).
      rewrite E. rewrite blacken_black in Hr by done. apply node_no_red_red; [done|by apply node_no_red_red|done].
Qed.

(** ** Erasure: the loop *)

Lemma path_root h r k p : path_in h r k p -> k <> [] -> r ∈ path_nodes k.
Proof.
  revert p. induction k as [|[[[d c] x] b] k IH]; intros p Hk Hn; [done|]. simpl in *. destruct Hk as (_&_&Hk).
  destruct k as [|fr k]; [rewrite Hk; by left|]. right. apply elem_of_app. right. by apply (IH x).
Qed.

Lemma zip_not_root f s fr k t : zip f s (fr :: k) t -> root s <> ptr t.
Proof.
  intros Hz E. pose proof (path_root _ _ _ _ (zip_path _ _ _ _ Hz)) as Hr. specialize (Hr ltac:(done)).
  destruct (ptr_in t) as [Ht|Ht].
  - destruct (address_not_null (root s)); [|congruence]. apply (zip_address _ _ _ _ _ Hz), elem_of_app. by right.
  - pose proof (zip_nodup _ _ _ _ Hz) as Hnd. rewrite NoDup_app in Hnd. destruct Hnd as (_&Hd&_).
    apply (Hd _ Ht). congruence.
Qed.

Lemma nodes_blacken t : nodes (blacken t) = nodes t.
Proof. by destruct t. Qed.

(** The loop stops at a red node and at the root. *)
Lemma erase_stop fuel f s k t n : zip f s k t -> lacks_black k t n -> color_at t = Red \/ k = [] ->
  repaired f (nodes (plug k t)) (erase_loop (S fuel) s (ptr t) (up k)).
Proof.
  intros Hz (Hk&Hh&Hr) Hstop. destruct (blacken_spec _ _ _ _ Hz) as (s'&E&Hz'&_).
  exists s', (plug k (blacken t)). split; [|split; [split|]].
  - cbn [erase_loop]. rewrite (black_node_spec _ _ _ _ Hz), some_bind.
    assert (Eq : negb (match color_at t with Red => false | Black => true end && negb (ptr t =? root s)) = true).
    { destruct Hstop as [->| ->]; [done|]. pose proof (zip_path _ _ _ _ Hz) as Hp. simpl in Hp. rewrite Hp, Z.eqb_refl. by rewrite andb_false_r. }
    rewrite Eq. unfold finish. by rewrite some_bind.
  - exact (proj1 (zip_plug _ _ _ _) Hz').
  - assert (Hbr : color_at (blacken t) = Red -> above k = Black) by (by destruct t).
    destruct t as [|[] l x r]; simpl blacken in *.
    + destruct Hstop as [?| ->]; [done|]. by split; [|split; [|exists 0%nat]].
    + by apply (plug_rb _ _ (S n)).
    + destruct Hstop as [?| ->]; [done|]. by split; [|split; [|exists n]].
  - by rewrite !nodes_plug, nodes_blacken.
Qed.

(** What [erase_case] leaves, followed to the end of the loop. *)
Lemma erase_done f s t : zip f s [] t -> red_black t -> repaired f (nodes t) (Some (s, root s)).
Proof.
  intros Hz Hrb. destruct (root_spec _ _ _ Hz Hrb) as (s'&E&Hz'). exists s', t. by split; [unfold finish; rewrite some_bind|].
Qed.

Lemma erase_next (fuel : nat) f s k d c t x near y far n (loop : state -> Z -> Z -> option (state * Z)) :
  zip f s ((d, c, x, node d Black near y far) :: k) t ->
  lacks_black ((d, c, x, node d Black near y far) :: k) t n -> color_at t = Black ->
  (forall s' t', zip f s' k t' -> color_at t' = c -> lacks_black k t' (match c with Black => S n | Red => n end) ->
    repaired f (nodes (plug k t')) (loop s' (ptr t') (up k))) ->
  repaired f (nodes (plug ((d, c, x, node d Black near y far) :: k) t))
    ('(s, goes_up) ← erase_case d s x y;
     if (goes_up : bool) then up ← parent_of s x; loop s x up else Some (s, root s)).
Proof.
  intros Hz Hl Hc Hloop. destruct (erase_case_spec _ _ _ _ _ _ _ _ _ _ _ Hz Hl Hc) as (s'&[]&->&H); rewrite some_bind.
  - destruct H as [Hz' Hl']. rewrite (parent_of_eq _ _ _ (zip_get _ _ _ _ _ _ _ _ Hz')), some_bind.
    rewrite entry_parent by (by apply (zip_up_ok _ _ _ _ Hz')).
    specialize (Hloop _ _ Hz'). rewrite ptr_node, color_at_node in Hloop.
    assert (E : nodes (plug ((d, c, x, node d Black near y far) :: k) t) = nodes (plug k (node d c t x (node d Red near y far))))
      by (clear; destruct d; nodes_eq).
    rewrite E. by apply Hloop.
  - destruct H as (t'&Hz'&Hrb&<-). by apply erase_done.
Qed.

Lemma black_height_node d t n : black_height t (S n) -> exists c a x b, t = node d c a x b.
Proof. destruct (split_node d t) as [->|(a&x&b&->)]; [done|]. eauto. Qed.

Lemma erase_loop_spec fuel : forall f s k t n, (length k < fuel)%nat -> zip f s k t -> lacks_black k t n ->
  repaired f (nodes (plug k t)) (erase_loop fuel s (ptr t) (up k)).
Proof.
  induction fuel as [|fuel IH]; intros f s k t n Hf Hz Hl; [lia|].
  destruct (color_at t) eqn:Hc; [by apply (erase_stop _ _ _ _ _ n); auto|].
  destruct k as [|[[[d c] x] b] k]; [by apply (erase_stop _ _ _ _ _ n); auto|].
  cbn [erase_loop up]. rewrite (black_node_spec _ _ _ _ Hz), Hc, some_bind.
  destruct (Z.eqb_spec (ptr t) (root s)) as [E|_]; [by destruct (zip_not_root _ _ _ _ _ Hz)|]. cbn [andb negb].
  assert (Hlb := Hl). destruct Hlb as (Hk&Hh&Hr). simpl in Hk. destruct Hk as (Hbh&Hbr&Hbc&Hk).
  destruct (black_height_node d _ _ Hbh) as (cb&near&y&far&->).
  assert (Hz0 := Hz). out_near Hz0. assert (Hzy := Hz0). in_far Hzy.
  pose proof (zip_root _ _ _ _ _ _ _ _ Hzy) as Hya.
  destruct (zip_side _ _ _ _ _ _ _ _ Hz) as [El Ed]; [right; rewrite ptr_node; by apply address_not_null|].
  rewrite El, some_bind. rewrite Z.eqb_sym in Ed. rewrite Ed.
  rewrite (child_of_eq _ _ _ _ (zip_get _ _ _ _ _ _ _ _ Hz0)), some_bind, entry_sub_opp, ptr_node.
  rewrite (is_red_eq _ _ _ (zip_get _ _ _ _ _ _ _ _ Hzy)), some_bind, entry_is_red by (by apply (zip_up_ok _ _ _ _ Hzy)).
  destruct cb.
  - destruct (zip_recolor _ _ _ _ _ Black _ _ _ rb_set_black Hzy) as (s1&->&Hz1&_); [intros q Hq; by autorewrite with rb|].
    rewrite some_bind. out_far Hz1.
    destruct (zip_recolor _ _ _ _ _ Red _ _ _ rb_set_red Hz1) as (s2&->&Hz2&_); [intros q Hq; by autorewrite with rb|].
    rewrite some_bind. apply rotate_spec in Hz2 as (s3&->&Hz3). rewrite some_bind. in_near Hz3.
    rewrite (child_of_eq _ _ _ _ (zip_get _ _ _ _ _ _ _ _ Hz3)), !some_bind, entry_sub_opp. in_near Hz3.
    apply (node_black_height_inv d Red) in Hbh as [Hnh Hfh]. apply node_no_red_red_inv in Hbr as (Hnr&Hfr&Hnc).
    destruct (Hnc eq_refl) as [Hnb Hfb]. destruct (black_height_node d _ _ Hnh) as (cn&nn&z&nf&->).
    rewrite color_at_node in Hnb. subst cn. rewrite ptr_node.
    assert (c = Black) as -> by (destruct c; [destruct Hbc; by rewrite ?color_at_node in *|done]).
    assert (E : nodes (plug ((d, Black, x, node d Red (node d Black nn z nf) y far) :: k) t) =
      nodes (plug ((d, Red, x, node d Black nn z nf) :: (d, Black, y, far) :: k) t)) by (clear; destruct d; nodes_eq).
    refine (eq_ind_r (fun ns => repaired f ns _) _ E). apply (erase_next fuel _ _ _ _ _ _ _ _ _ _ n); [done| |done|].
    + split; [|done]. simpl. rewrite color_at_node. by split_and!.
    + intros s' t' Hz' Hc' Hl'. simpl in Hf. destruct fuel as [|fuel']; [lia|]. by apply (erase_stop _ _ _ _ _ n); auto.
  - rewrite some_bind. apply (erase_next fuel _ _ _ _ _ _ _ _ _ _ n); [done..|]. intros s' t' Hz' _ Hl'. eapply (IH f s' k); [simpl in Hf; lia|done|exact Hl'].
Qed.

(** ** Erasure: unlinking the node *)

Lemma relink_set_child d h r d' c x b k old new : path_in h r ((d', c, x, b) :: k) old -> address x ->
  old <> NULL -> old ∉ nodes b -> relink d (mk_state h r) x old new = set_child (mk_state h r) d' x new.
Proof.
  intros [Hx _] Hxa H0 Hold. unfold relink. destruct (Z.eqb_spec x NULL) as [->|_]; [by destruct (address_not_null _ Hxa)|].
  rewrite (child_of_eq (mk_state h r) _ _ _ Hx), some_bind. destruct (decide (d = d')) as [->|Hd].
  - by rewrite entry_sub, Z.eqb_refl.
  - assert (d = opp d') as -> by (by destruct d, d'). rewrite entry_sub_opp, opp_opp.
    destruct (Z.eqb_spec old (ptr b)) as [->|_]; [|done]. by destruct (ptr_in b).
Qed.

(** A node with at most one child leaves the tree; the child takes its place. *)
Lemma unlink_spec f s k d c x t : zip f s k (node d c Leaf x t) ->
  exists s1 s2 e, (if ptr t =? NULL then Some s else set_parent s (ptr t) (up k)) = Some s1 /\
    relink L s1 (up k) x (ptr t) = Some s2 /\ zip (<[x := e]> f) s2 k t /\
    (forall d' c' p b k', k = (d', c', p, b) :: k' -> set_child s1 d' p (ptr t) = Some s2).
Proof.
  intros Hz. pose proof (zip_get _ _ _ _ _ _ _ _ Hz) as Hx. pose proof (zip_root _ _ _ _ _ _ _ _ Hz) as Hxa.
  pose proof (zip_up_ok _ _ _ _ Hz) as Hq. destruct Hz as [Hnd Had Ht Hk Hr]. destruct s as [h r]. simpl in Hx, Ht, Hk, Hr.
  apply tree_in_node in Ht as (_&_&Ht). rewrite ptr_node in Hk. setoid_rewrite zip_perm_facts in Hr.
  rewrite zip_perm_facts in Hnd, Had. simpl in Hnd, Had, Hr. apply NoDup_cons in Hnd as [Hxn Hnd]. apply Forall_cons in Had as [_ Had].
  assert (Hnd' := Hnd). rewrite NoDup_app in Hnd'. destruct Hnd' as (Hndt&Hdis&Hndk).
  assert (Had' := Had). rewrite Forall_app in Had'. destruct Had' as [Hadt Hadk]. rewrite elem_of_app in Hxn.
  destruct (reparent h r x t (up k) Ht Hndt Hadt) as (h1&E1&Ht1&Hh1); [auto..|].
  assert (Hk1 : path_in h1 r k x) by (eapply path_in_agree; [|done]; intros j Hj; apply Hh1; intros Hj'; by apply (Hdis j)).
  destruct (relink_spec L h1 r k x (ptr t) Hk1 Hndk Hadk) as (h2&r2&E2&Hk2&Hh2); [by apply address_not_null|tauto|].
  assert (Hx2 : h2 !! x = Some (entry d (up k) c NULL (ptr t))) by (rewrite Hh2, Hh1 by tauto; done).
  eexists _, _, _. split; [exact E1|]. split; [exact E2|]. split; [split|]; simpl.
  - done.
  - done.
  - eapply tree_in_agree; [|exact Ht1]. intros j Hj. apply Hh2. intros Hj'. by apply (Hdis j).
  - done.
  - intros j Hj. destruct (decide (j = x)) as [->|Hjx]; [rewrite lookup_insert_eq; exact Hx2|].
    rewrite lookup_insert_ne by done. rewrite elem_of_app in Hj. rewrite Hh2, Hh1 by tauto. apply Hr.
    rewrite elem_of_cons, elem_of_app. tauto.
  - intros d' c' p b k' ->. rewrite <- E2. symmetry. cbn [up].
    eapply relink_set_child; [exact Hk1|by apply Forall_cons in Hadk as [? _]|by apply address_not_null|].
    intros Hj. apply Hxn. right. right. apply elem_of_app. by left.
Qed.

(** The neighbours of [x] are made to point to [y]. *)
Lemma move_spec h r k c l x t y : path_in h r k x -> tree_in h x l -> tree_in h x t ->
  h !! x = Some (entry L (up k) c (ptr l) (ptr t)) ->
  NoDup (nodes l ++ x :: nodes t ++ path_nodes k) -> Forall address (nodes l ++ x :: nodes t ++ path_nodes k) -> address y ->
  exists s1 s2 h' r', relink L (mk_state h r) (up k) x y = Some s1 /\
    child_of s1 L x = Some (ptr l) /\
    (if ptr l =? NULL then Some s1 else set_parent s1 (ptr l) y) = Some s2 /\
    child_of s2 R x = Some (ptr t) /\
    (if ptr t =? NULL then Some s2 else set_parent s2 (ptr t) y) = Some (mk_state h' r') /\
    path_in h' r' k y /\ tree_in h' y l /\ tree_in h' y t /\
    (forall j, j ∉ nodes l ++ nodes t ++ path_nodes k -> h' !! j = h !! j).
Proof.
  intros Hk Hl Ht Hx Hnd Had Hy. rewrite Forall_app, Forall_cons, Forall_app in Had. destruct Had as (Al&Ax&At&Ak).
  rewrite NoDup_app, NoDup_cons, NoDup_app in Hnd. destruct Hnd as (Nl&Dl&Nx&Nt&Dt&Nk).
  assert (Dl' : forall j, j ∈ nodes l -> (j <> x) /\ (j ∉ nodes t) /\ (j ∉ path_nodes k))
    by (intros j Hj; specialize (Dl j Hj); rewrite elem_of_cons, elem_of_app in Dl; tauto).
  rewrite elem_of_app in Nx.
  destruct (relink_spec L h r k x y Hk Nk Ak) as (h1&r1&E1&Hk1&Hh1); [by apply address_not_null|tauto|].
  assert (Hx1 : h1 !! x = Some (entry L (up k) c (ptr l) (ptr t))) by (rewrite Hh1 by tauto; done).
  assert (Hl1 : tree_in h1 x l) by (eapply tree_in_agree; [|done]; intros j Hj; apply Hh1; by apply Dl').
  destruct (reparent h1 r1 x l y Hl1 Nl Al) as (h2&E2&Hl2&Hh2); [auto..|].
  assert (Hx2 : h2 !! x = Some (entry L (up k) c (ptr l) (ptr t))) by (rewrite Hh2; [done|intros Hj; by destruct (Dl' _ Hj)]).
  assert (Ht2 : tree_in h2 x t).
  { eapply tree_in_agree; [|done]. intros j Hj. rewrite Hh2, Hh1; [done|by intros Hj'; apply (Dt j)|].
    intros Hj'. apply Dl' in Hj'. tauto. }
  destruct (reparent h2 r1 x t y Ht2 Nt At) as (h3&E3&Ht3&Hh3); [auto..|].
  eexists _, _, h3, r1. split; [exact E1|]. split; [exact (child_of_eq (mk_state h1 r1) L _ _ Hx1)|].
  split; [exact E2|]. split; [exact (child_of_eq (mk_state h2 r1) R _ _ Hx2)|]. split; [exact E3|].
  split; [|split; [|split; [done|]]].
  - eapply path_in_agree; [|exact Hk1]. intros j Hj. rewrite Hh3, Hh2; [done| |by intros Hj'; apply (Dt j)].
    intros Hj'. apply Dl' in Hj'. tauto.
  - eapply tree_in_agree; [|exact Hl2]. intros j Hj. apply Hh3. apply Dl' in Hj. tauto.
  - intros j Hj. rewrite !elem_of_app in Hj. rewrite Hh3, Hh2, Hh1 by tauto. done.
Qed.

(** [y], outside the tree, with the content of [x] and its neighbours: it is in the place of [x]. *)
Lemma moved_zip f h r k c l x t y h' r' : zip f (mk_state h r) k (Node c l x t) -> address y ->
  y ∉ nodes (Node c l x t) ++ path_nodes k ->
  path_in h' r' k y -> tree_in h' y l -> tree_in h' y t -> h' !! y = Some (entry L (up k) c (ptr l) (ptr t)) ->
  (forall j, j <> y -> j ∉ nodes l ++ nodes t ++ path_nodes k -> h' !! j = h !! j) ->
  exists e, zip (<[x := e]> f) (mk_state h' r') k (Node c l y t).
Proof.
  intros Hz Hya Hy Hk Hl Ht Hyc Hrest. pose proof (zip_get _ _ _ L _ _ _ _ Hz) as Hx. destruct Hz as [Hnd Had _ _ Hr].
  simpl in *. rewrite <- app_assoc in Hnd, Had, Hy. simpl in *. exists (entry L (up k) c (ptr l) (ptr t)).
  setoid_rewrite <- (Permutation_middle (nodes l)) in Hnd. setoid_rewrite <- (Permutation_middle (nodes l)) in Had.
  rewrite <- Permutation_middle in Hy. apply not_elem_of_cons in Hy as [Hyx Hy].
  apply NoDup_cons in Hnd as [Hxn Hnd]. apply Forall_cons in Had as [_ Had].
  assert (Hp : nodes (Node c l y t) ++ path_nodes k ≡ₚ y :: nodes l ++ nodes t ++ path_nodes k).
  { simpl. rewrite <- app_assoc. simpl. by rewrite <- Permutation_middle. }
  split; simpl.
  - rewrite Hp. by apply NoDup_cons.
  - rewrite Hp. by apply Forall_cons.
  - done.
  - done.
  - intros j Hj. rewrite Hp in Hj. apply not_elem_of_cons in Hj as [Hjy Hj]. rewrite Hrest by done.
    destruct (decide (j = x)) as [->|Hjx]; [rewrite lookup_insert_eq; exact Hx|]. rewrite lookup_insert_ne by done.
    apply Hr. rewrite <- app_assoc. simpl. rewrite <- Permutation_middle. by apply not_elem_of_cons.
Qed.

(** ** Positions in a tree *)

Lemma plug_app k1 k2 t : plug (k1 ++ k2) t = plug k2 (plug k1 t).
Proof. revert t. induction k1 as [|[[[d c] x] b] k1 IH]; intros t; [done|]. by apply IH. Qed.

Lemma zip_app f s k1 k2 t : zip f s k2 (plug k1 t) <-> zip f s (k1 ++ k2) t.
Proof. by rewrite (zip_plug _ _ k2), (zip_plug _ _ (k1 ++ k2)), plug_app. Qed.

Lemma zip_frame f f' s k t : (forall p, p ∉ nodes t ++ path_nodes k -> f' !! p = f !! p) -> zip f s k t -> zip f' s k t.
Proof. intros Hf [Hnd Had Ht Hk Hr]. split; [done..|]. intros p Hp. rewrite Hf by done. by apply Hr. Qed.

Lemma tree_position x t : x ∈ nodes t -> exists k c l r, t = plug k (Node c l x r).
Proof.
  induction t as [|c l IHl y r IHr]; simpl; [by intros ?%elem_of_nil|]. rewrite elem_of_app, elem_of_cons. intros [Hl|[->|Hr]].
  - destruct (IHl Hl) as (k&c'&l'&r'&->). exists (k ++ [(L, c, y, r)]), c', l', r'. by rewrite plug_app.
  - by exists [], c, l, r.
  - destruct (IHr Hr) as (k&c'&l'&r'&->). exists (k ++ [(R, c, y, l)]), c', l', r'. by rewrite plug_app.
Qed.

Lemma plug_height k t : (length k + height t <= height (plug k t))%nat.
Proof.
  revert t. induction k as [|[[[d c] x] b] k IH]; intros t; [done|]. simpl. etrans; [|apply IH].
  destruct d; simpl; lia.
Qed.

Lemma nodes_split (x : Z) p q p' q' : p ++ x :: q = p' ++ x :: q' -> NoDup (p ++ x :: q) -> p = p' /\ q = q'.
Proof.
  revert p'. induction p as [|y p IH]; intros [|y' p'] E Hnd; simpl in *.
  - by injection E.
  - injection E as -> ->. apply NoDup_cons in Hnd as [Hn _]. destruct Hn. apply elem_of_app. right. by left.
  - injection E as -> <-. apply NoDup_cons in Hnd as [Hn _]. destruct Hn. apply elem_of_app. right. by left.
  - injection E as -> E. apply NoDup_cons in Hnd as [_ Hnd]. by destruct (IH _ E Hnd) as [-> ->].
Qed.

Lemma zip_nodes f s k t : zip f s k t -> NoDup (nodes (plug k t)).
Proof. intros Hz. apply (proj1 (zip_plug _ _ _ _)) in Hz. pose proof (zip_nodup _ _ _ _ Hz) as H. simpl in H. by rewrite app_nil_r in H. Qed.

(** The node between [p] and [q] and its position. *)
Lemma zip_find f s t x p q : zip f s [] t -> nodes t = p ++ x :: q ->
  exists k c l r, t = plug k (Node c l x r) /\ zip f s k (Node c l x r) /\ p = before k ++ nodes l /\ q = nodes r ++ after k.
Proof.
  intros Hz Hn. destruct (tree_position x t) as (k&c&l&r&->).
  { rewrite Hn. apply elem_of_app. right. by left. }
  pose proof (zip_nodes _ _ _ _ Hz) as Hnd. apply (proj2 (zip_plug _ _ _ _)) in Hz.
  exists k, c, l, r. split; [done|]. split; [done|]. apply (nodes_split x).
  - etrans; [symmetry; exact Hn|]. rewrite nodes_plug. simpl. by rewrite <- !app_assoc.
  - cbn [plug] in Hnd. by rewrite <- Hn.
Qed.

(** The nodes in the order that starts from the end [d]. *)
Lemma from_plug d k t : from d (plug k t) = from_before d k ++ from d t ++ from_after d k.
Proof. destruct d; simpl; rewrite nodes_plug; [done|]. by rewrite !rev_app_distr, <- app_assoc. Qed.

(** [descend] ends at the first node from [d]. *)
Lemma descend_spec d fuel : forall f s k t, zip f s k t -> t <> Leaf -> (height t <= fuel)%nat ->
  exists kk c y b, descend fuel s d (ptr t) = Some y /\ t = plug kk (node d c Leaf y b) /\
    Forall (fun fr : frame => fr.1.1.1 = d) kk.
Proof.
  induction fuel as [|fuel IH]; intros f s k t Hz Ht Hf; [destruct t; [done|simpl in Hf; lia]|].
  destruct (split_node d t) as [->|(a&x&b&E)]; [done|]. rewrite E in *. set (c := color_at t) in *. clearbody c. clear E.
  rewrite ptr_node. cbn [descend]. rewrite (child_of_eq _ _ _ _ (zip_get _ _ _ _ _ _ _ _ Hz)), some_bind, entry_sub.
  in_near Hz. destruct (decide (a = Leaf)) as [->|Ha].
  - exists [], c, x, b. done.
  - assert (Hx : ptr a <> NULL).
    { destruct a as [|c' l y r]; [done|]. apply address_not_null. apply (zip_root _ _ _ L _ _ _ _ Hz). }
    destruct (Z.eqb_spec (ptr a) NULL); [done|].
    destruct (IH _ _ _ _ Hz Ha) as (kk&c'&y&b'&E1&E2&Hkk); [destruct d; simpl in Hf; lia|].
    exists (kk ++ [(d, c, x, b)]), c', y, b'. split; [done|]. split; [by rewrite plug_app, <- E2|].
    apply Forall_app. split; [done|]. by apply Forall_singleton.
Qed.

(** ** Erasure *)

(** The colour of the removed node decides whether the tree needs repair. *)
Lemma removed_spec fuel f s k d c y t n : zip f s k t -> (length k < fuel)%nat ->
  path_rb k n -> black_height (node d c Leaf y t) n -> no_red_red (node d c Leaf y t) -> (c = Red -> above k = Black) ->
  exists s' t', (if bit c =? RB_BLACK then __rb_erase_color fuel s (ptr t) (up k) else Some s) = Some s' /\
    rb_tree f s' t' /\ nodes t' = before k ++ nodes t ++ after k.
Proof.
  intros Hz Hf Hk Hh Hr Ha. apply node_no_red_red_inv in Hr as (_&Hr&Hc). destruct c; simpl.
  - exists s, (plug k t). split; [done|]. split; [split|by rewrite nodes_plug].
    + exact (proj1 (zip_plug _ _ _ _) Hz).
    + apply (plug_rb _ _ n); [done|destruct d; simpl in Hh; tauto|done|]. intros E. destruct (Hc eq_refl). congruence.
  - assert (exists m, n = S m /\ m = 0%nat /\ black_height t m) as (m&->&->&Hm)
      by (destruct d, n; simpl in Hh; try done; eexists; tauto).
    destruct (erase_loop_spec fuel f s k t 0 Hf Hz) as (s'&t'&E&Ht'&Hn).
    { split; [done|]. split; [done|]. destruct t; simpl in *; [done|]. destruct Hr as (_&Hr1&Hr2). by split. }
    exists s', t'. split; [exact E|]. split; [done|]. by rewrite Hn, nodes_plug.
Qed.

(** Another node in the place of a node of the path. *)
Lemma path_rb_swap kk d c x y b k n : path_rb (kk ++ (d, c, x, b) :: k) n -> path_rb (kk ++ (d, c, y, b) :: k) n.
Proof.
  assert (Ha : forall kk, above (kk ++ (d, c, x, b) :: k) = above (kk ++ (d, c, y, b) :: k)) by (intros [|[[[??]?]?] ?]; done).
  revert n. induction kk as [|[[[d' c'] x'] b'] kk IH]; intros n; simpl; [tauto|]. rewrite Ha. intros (?&?&?&?). auto.
Qed.

Section erase.
  Context (fuel : nat) (f : gmap Z rb_node) (s : state) (k : list frame).

(** A node with at most one child. *)
Lemma rb_erase_one d c x t : zip f s k (node d c Leaf x t) -> red_black (plug k (node d c Leaf x t)) -> (length k < fuel)%nat ->
  exists s' t' e, rb_erase fuel s x = Some s' /\ rb_tree (<[x := e]> f) s' t' /\ nodes t' = before k ++ nodes t ++ after k.
Proof.
  intros Hz Hrb Hf. apply unplug_rb in Hrb as (n&Hk&Hh&Hr&Ha). rewrite color_at_node in Ha.
  pose proof (zip_get _ _ _ _ _ _ _ _ Hz) as Hx. pose proof (zip_up_ok _ _ _ _ Hz) as Hq.
  destruct (unlink_spec _ _ _ _ _ _ _ Hz) as (s1&s2&e&E1&E2&Hz2&_).
  destruct (removed_spec fuel _ _ _ d c x t n Hz2 Hf Hk Hh Hr Ha) as (s'&t'&E3&Hrb'&Hn).
  exists s', t', e. split; [|done]. unfold rb_erase. rewrite !(child_of_eq _ _ _ _ Hx), !some_bind.
  set (left := sub L _). set (right := sub R _).
  assert (Hl : (left =? NULL) || (right =? NULL) = true) by (subst left right; destruct d; cbn; by rewrite ?orb_true_r).
  assert (Hc : (if left =? NULL then right else left) = ptr t).
  { subst left right. destruct d; unfold entry; cbn; [done|]. by destruct (Z.eqb_spec (ptr t) NULL) as [->|]. }
  rewrite Hl, Hc. rewrite (parent_of_eq _ _ _ Hx), some_bind, (color_of_eq _ _ _ Hx), some_bind, entry_parent, entry_color by done.
  rewrite E1, some_bind, E2, !some_bind. exact E3.
Qed.

End erase.

Lemma before_app k1 k2 : before (k1 ++ k2) = before k2 ++ before k1.
Proof. induction k1 as [|[[[[] c] x] b] k1 IH]; simpl; rewrite ?IH, ?app_nil_r, ?app_assoc; done. Qed.

Lemma after_app k1 k2 : after (k1 ++ k2) = after k1 ++ after k2.
Proof. induction k1 as [|[[[[] c] x] b] k1 IH]; simpl; rewrite ?IH, <- ?app_assoc; done. Qed.

Lemma zip_null f s k t : zip f s k t -> t <> Leaf -> (ptr t =? NULL) = false.
Proof.
  intros Hz Ht. destruct t as [|c l x r]; [done|]. apply Z.eqb_neq, address_not_null. by apply (zip_root _ _ _ L c l x r Hz).
Qed.

Lemma path_nodes_app k1 k2 : path_nodes (k1 ++ k2) = path_nodes k1 ++ path_nodes k2.
Proof. induction k1 as [|[[[d c] x] b] k1 IH]; simpl; [done|]. by rewrite IH, app_assoc. Qed.

Lemma plug_perm k1 k2 t : nodes (plug k1 t) ++ path_nodes k2 ≡ₚ nodes t ++ path_nodes (k1 ++ k2).
Proof.
  revert t. induction k1 as [|[[[d c] x] b] k1 IH]; intros t; [done|]. simpl. rewrite IH, zip_perm_facts. done.
Qed.

Lemma above_swap kk d c x y b k : above (kk ++ (d, c, x, b) :: k) = above (kk ++ (d, c, y, b) :: k).
Proof. by destruct kk as [|[[[??]?]?] ?]. Qed.

(** Nothing is before the first position. *)
Lemma from_before_side d kk : Forall (fun fr : frame => fr.1.1.1 = d) kk -> from_before d kk = [].
Proof.
  induction 1 as [|[[[d' c] x] b] kk E _ IH]; [by destruct d|]. simpl in E. subst d'. by destruct d.
Qed.

(** The successor of [x] leaves its place below [x]. *)
Lemma take_successor f s k c l x kk cs y t : let K := kk ++ (R, c, x, l) :: k in
  zip f s K (node L cs Leaf y t) -> Forall (fun fr : frame => fr.1.1.1 = L) kk ->
  exists s1 s2 e, (if ptr t =? NULL then Some s else set_parent s (ptr t) (up K)) = Some s1 /\
    (if up K =? x then s ← set_child s1 R (up K) (ptr t); Some (s, y) else s ← set_child s1 L (up K) (ptr t); Some (s, up K))
      = Some (s2, up (kk ++ (R, c, y, l) :: k)) /\ zip (<[y := e]> f) s2 K t.
Proof.
  intros K Hz Hkk. destruct (unlink_spec _ _ _ _ _ _ _ Hz) as (s1&s2&e&E1&_&Hz2&Hset). exists s1, s2, e.
  split; [exact E1|]. split; [|exact Hz2]. subst K. destruct kk as [|[[[d' c'] p] b] kk].
  - cbn [app up] in *. rewrite Z.eqb_refl. by rewrite (Hset _ _ _ _ _ eq_refl).
  - apply Forall_cons in Hkk as [E _]. simpl in E. subst d'. cbn [app up] in *.
    rewrite (Hset _ _ _ _ _ eq_refl). destruct (Z.eqb_spec p x) as [->|_]; [|done]. exfalso.
    pose proof (zip_nodup _ _ _ _ Hz2) as Hnd. rewrite NoDup_app in Hnd. destruct Hnd as (_&_&Hnd).
    simpl in Hnd. apply NoDup_cons in Hnd as [Hn _]. apply Hn. rewrite elem_of_app. right.
    rewrite path_nodes_app, elem_of_app. right. by left.
Qed.

(** A node outside the tree takes the content and the place of [x]. *)
Lemma take_place f s k c l x r y e : zip f s k (Node c l x r) -> l <> Leaf -> address y ->
  y ∉ nodes (Node c l x r) ++ path_nodes k -> heap s !! y = Some e ->
  exists o s1 s2 s3 s4 e', get s x = Some o /\ upd s y (fun _ => o) = Some s1 /\ relink L s1 (rb_parent o) x y = Some s2 /\
    child_of s2 L x = Some (ptr l) /\ set_parent s2 (ptr l) y = Some s3 /\ child_of s3 R x = Some (ptr r) /\
    (if ptr r =? NULL then Some s3 else set_parent s3 (ptr r) y) = Some s4 /\ zip (<[x := e']> f) s4 k (Node c l y r).
Proof.
  intros Hz Hl Hya Hy He. assert (Hz0 := Hz). change (Node c l x r) with (node L c l x r) in Hz0.
  pose proof (zip_get _ _ _ _ _ _ _ _ Hz0) as Hx. pose proof (zip_up_ok _ _ _ _ Hz) as Hq.
  assert (Hln : ptr l <> NULL).
  { destruct l as [|cl ll z lr]; [done|]. in_near Hz0. apply address_not_null. by apply (zip_root _ _ _ L cl ll z lr Hz0). }
  assert (Hp := zip_perm_facts L c l x r k). assert (Hz' := Hz0). destruct Hz0 as [Hnd Had Ht Hk _]. rewrite Hp in Hnd, Had.
  destruct s as [h rt]. simpl in Hx, He, Ht, Hk. destruct Ht as (_&Hlt&Hrt).
  change (Node c l x r) with (node L c l x r) in Hy. rewrite Hp in Hy.
  set (o := entry L (up k) c (ptr l) (ptr r)) in *. set (h1 := <[y := o]> h).
  assert (Hh1 : forall j, j ∈ nodes l ++ x :: nodes r ++ path_nodes k -> h1 !! j = h !! j).
  { intros j Hj. apply lookup_insert_ne. intros <-. done. }
  setoid_rewrite elem_of_app in Hh1. setoid_rewrite elem_of_cons in Hh1. setoid_rewrite elem_of_app in Hh1.
  destruct (move_spec h1 rt k c l x r y) as (s2&s3&h4&r4&E2&E3&E4&E5&E6&Hk4&Hl4&Hr4&Hrest); [..|done|done|done|].
  - eapply path_in_agree; [|exact Hk]. intros j Hj. apply Hh1. auto.
  - eapply tree_in_agree; [|exact Hlt]. intros j Hj. apply Hh1. auto.
  - eapply tree_in_agree; [|exact Hrt]. intros j Hj. apply Hh1. auto.
  - rewrite Hh1 by auto. exact Hx.
  - destruct (moved_zip f h rt k c l x r y h4 r4 Hz' Hya) as (e'&Hz4); [by rewrite Hp|done|done|done| |..].
    + rewrite Hrest; [apply lookup_insert_eq|]. intros Hj. apply Hy. rewrite !elem_of_app in Hj. rewrite elem_of_app, elem_of_cons, elem_of_app. tauto.
    + intros j Hjy Hj. rewrite Hrest by done. by apply lookup_insert_ne.
    + exists o, (mk_state h1 rt), s2, s3, (mk_state h4 r4), e'. split; [exact Hx|]. split; [by apply (upd_eq _ _ _ e)|].
      subst o. rewrite entry_parent by done. split; [exact E2|]. split; [exact E3|].
      destruct (Z.eqb_spec (ptr l) NULL); [done|]. split; [exact E4|]. split; [exact E5|]. by split.
Qed.

(** A node with two children. *)
Lemma rb_erase_two fuel f s k c l x r : zip f s k (Node c l x r) -> red_black (plug k (Node c l x r)) ->
  l <> Leaf -> r <> Leaf -> (height (plug k (Node c l x r)) < fuel)%nat ->
  exists s' t' e, rb_erase fuel s x = Some s' /\ rb_tree (<[x := e]> f) s' t' /\
    nodes t' = before k ++ nodes l ++ nodes r ++ after k.
Proof.
  intros Hz Hrb Hl Hr Hf. assert (Hz0 := Hz). change (Node c l x r) with (node L c l x r) in Hz0.
  pose proof (zip_get _ _ _ _ _ _ _ _ Hz0) as Hx. assert (Hzl := Hz0). in_near Hzl. in_far Hz0.
  pose proof (plug_height k (Node c l x r)) as Hph. simpl height in Hph.
  destruct (descend_spec L fuel _ _ _ _ Hz0 Hr) as (kk&cs&y&t&Ed&Er&Hkk); [lia|]. assert (Hzr := Hz0).
  rewrite Er in Hz0. apply (proj1 (zip_app _ _ _ _ _)) in Hz0. simpl in Hz0.
  set (K := kk ++ (R, c, x, l) :: k) in *. pose proof (zip_get _ _ _ L _ _ _ _ Hz0) as Hy.
  pose proof (zip_up_ok _ _ _ _ Hz0) as Hq. pose proof (zip_root _ _ _ L _ _ _ _ Hz0) as Hya.
  destruct (take_successor _ _ _ _ _ _ _ _ _ _ Hz0 Hkk) as (s1&s2&e&E1&E2&Hz2).
  assert (Hyn : y ∉ nodes t ++ path_nodes K).
  { pose proof (zip_nodup _ _ _ _ Hz0) as Hnd. rewrite (zip_perm_facts L) in Hnd. simpl in Hnd. by apply NoDup_cons in Hnd as [? _]. }
  assert (Hy2 : heap s2 !! y = Some e) by (rewrite (zip_rest _ _ _ _ Hz2) by done; apply lookup_insert_eq).
  assert (Hz3 := proj2 (zip_app _ _ kk ((R, c, x, l) :: k) t) Hz2). apply (proj2 (zip_sub _ _ _ L _ _ _ _)) in Hz3.
  destruct (take_place _ _ _ _ _ _ _ y e Hz3 Hl Hya) as (o&s3&s4&s5&s6&e'&E3&E4&E5&E6&E7&E8&E9&Hz6); [|done|].
  { pose proof (plug_perm (kk ++ [(R, c, x, l)]) k t) as Hp. rewrite plug_app, <- app_assoc in Hp. simpl in Hp. cbn [nodes]. by rewrite Hp. }
  change (Node c l y (plug kk t)) with (node L c l y (plug kk t)) in Hz6. in_far Hz6. apply (proj1 (zip_app _ _ _ _ _)) in Hz6. simpl in Hz6.
  apply (zip_frame _ (<[x := e']> f)) in Hz6.
  2:{ intros p Hp. rewrite path_nodes_app, !elem_of_app in Hp. simpl in Hp. rewrite elem_of_cons in Hp.
      destruct (decide (p = x)) as [->|Hpx]; [by rewrite !lookup_insert_eq|]. rewrite !lookup_insert_ne by (done || (intros ->; tauto)). done. }
  assert (Hrb' : red_black (plug K (Node cs Leaf y t))) by (unfold K; rewrite plug_app; simpl in Er |- *; by rewrite <- Er).
  pose proof (plug_height K (Node cs Leaf y t)) as HK.
  apply unplug_rb in Hrb' as (n&Hk&Hh&Hnr&Ha). simpl color_at in Ha. unfold K in Hk, Ha, HK. rewrite (above_swap _ _ _ _ y) in Ha.
  destruct (removed_spec fuel _ _ _ L cs y t n Hz6) as (s'&t'&E10&Hrbt&Hn); [| |done|done|done|].
  { rewrite plug_app in HK. cbn [plug] in HK. change (Node cs Leaf y t) with (node L cs Leaf y t) in HK. rewrite <- Er in HK.
    cbn [node] in HK. rewrite length_app in HK |- *. simpl in HK |- *. lia. }
  { by apply path_rb_swap with x. }
  exists s', t', e'. split; [|split; [done|]].
  - unfold rb_erase. rewrite !(child_of_eq _ _ _ _ Hx), !some_bind.
    change (sub L (entry L (up k) c (ptr l) (ptr r))) with (ptr l). change (sub R (entry L (up k) c (ptr l) (ptr r))) with (ptr r).
    assert (E : (ptr l =? NULL) || (ptr r =? NULL) = false).
    { rewrite (zip_null _ _ _ _ Hzl Hl), (zip_null _ _ _ _ Hzr Hr). done. }
    rewrite E, Ed, some_bind, (child_of_eq _ _ _ _ Hy), some_bind. change (sub R (entry L (up K) cs (ptr Leaf) (ptr t))) with (ptr t).
    rewrite (parent_of_eq _ _ _ Hy), some_bind, (color_of_eq _ _ _ Hy), some_bind, entry_parent, entry_color by done.
    change (kk ++ (R, c, x, l) :: k) with K in E1, E2. rewrite E1, some_bind, E2, some_bind, E3, some_bind, E4, some_bind, E5, some_bind, E6, some_bind, E7, some_bind, E8, some_bind, E9, !some_bind.
    exact E10.
  - rewrite Hn, Er, (before_app kk), (after_app kk), nodes_plug, (from_before_side L _ Hkk : before kk = []). simpl. by rewrite <- !app_assoc.
Qed.

(** ** Walking the tree *)

Lemma from_end d kk c y b : Forall (fun fr : frame => fr.1.1.1 = d) kk ->
  from d (plug kk (node d c Leaf y b)) = y :: from d b ++ from_after d kk.
Proof. intros Hkk. rewrite from_plug, (from_before_side _ _ Hkk). destruct d; simpl; [done|]. by rewrite rev_app_distr. Qed.

Lemma descend_end fuel f s d k t : zip f s k t -> t <> Leaf -> (height t <= fuel)%nat ->
  descend fuel s d (ptr t) = Some (hd NULL (from d t)).
Proof.
  intros Hz Ht Hf. destruct (descend_spec d fuel _ _ _ _ Hz Ht Hf) as (kk&c&y&b&->&->&Hkk). by rewrite from_end.
Qed.

(** [climb] ends at the nearest node above the position that is on its side [d]. *)
Lemma climb_spec f s d k : forall t fuel, zip f s k t -> t <> Leaf -> (length k < fuel)%nat ->
  climb fuel s d (ptr t) = Some (hd NULL (from_after (opp d) k)).
Proof.
  induction k as [|[[[d' c] p] b] k IH]; intros t [|fuel] Hz Ht Hf; try (simpl in Hf; lia); cbn [climb];
    (assert (Hp : parent_of s (ptr t) = Some (up _)) by (by apply (zip_parent _ _ _ _ Hz))); rewrite Hp, some_bind; cbn [up].
  { by destruct d. }
  pose proof (zip_up_address _ _ _ _ _ _ _ _ Hz) as Hpa. destruct (Z.eqb_spec p NULL) as [->|_]; [by destruct (address_not_null _ Hpa)|].
  rewrite (child_of_eq _ _ _ _ (zip_get_up _ _ _ _ _ _ _ _ Hz)), some_bind.
  destruct (decide (d' = d)) as [->|Hd].
  - rewrite entry_sub, Z.eqb_refl. out_near Hz. rewrite <- (ptr_node d c t p b).
    rewrite (IH _ _ Hz) by (destruct d; done || (simpl in Hf; lia)). by destruct d.
  - assert (d' = opp d) as -> by (by destruct d, d'). assert (E : sub d (entry (opp d) (up k) c (ptr t) (ptr b)) = ptr b) by (by destruct d).
    rewrite E. assert (Hne : ptr t <> ptr b) by (apply (zip_sibling _ _ _ _ _ _ _ _ Hz); left; apply Z.eqb_neq; by apply (zip_null _ _ _ _ Hz)).
    destruct (Z.eqb_spec (ptr t) (ptr b)); [done|]. destruct d; simpl; [|done]. by rewrite rev_app_distr, rev_app_distr.
Qed.

Lemma zip_up_not f s k d c a x b : zip f s k (node d c a x b) -> up k <> x.
Proof.
  intros Hz E. destruct k as [|[[[d' c'] p] b'] k]; simpl in E.
  - by destruct (address_not_null _ (zip_root _ _ _ _ _ _ _ _ Hz)).
  - subst p. pose proof (zip_nodup _ _ _ _ Hz) as Hnd. rewrite zip_perm_facts, NoDup_app, NoDup_cons in Hnd.
    destruct Hnd as (_&_&Hn&_). apply Hn. apply elem_of_app. right. by left.
Qed.

Lemma rb_step_spec fuel f s d k c a x b : zip f s k (node (opp d) c a x b) -> (length k + height b < fuel)%nat ->
  rb_step fuel s d x = Some (hd NULL (from (opp d) b ++ from_after (opp d) k)).
Proof.
  intros Hz Hf. pose proof (zip_get _ _ _ _ _ _ _ _ Hz) as Hx. unfold rb_step.
  rewrite (parent_of_eq _ _ _ Hx), some_bind, entry_parent by (by apply (zip_up_ok _ _ _ _ Hz)).
  destruct (Z.eqb_spec (up k) x) as [E|_]; [by destruct (zip_up_not _ _ _ _ _ _ _ _ Hz)|].
  rewrite (child_of_eq _ _ _ _ Hx), some_bind. assert (E : sub d (entry (opp d) (up k) c (ptr a) (ptr b)) = ptr b) by (by destruct d).
  rewrite E. destruct (decide (b = Leaf)) as [->|Hb].
  - rewrite <- (ptr_node (opp d) c a x Leaf) at 1. cbn [ptr]. simpl negb. cbv iota.
    rewrite (climb_spec _ _ _ _ _ _ Hz); [by destruct d|by destruct d|lia].
  - in_far Hz. rewrite opp_opp in Hz. rewrite (zip_null _ _ _ _ Hz Hb). simpl negb. cbv iota.
    rewrite (descend_end _ _ _ _ _ _ Hz Hb) by lia. destruct (from (opp d) b) eqn:Eb; [|done].
    destruct b; [done|]. exfalso. destruct d; simpl in Eb; [apply (f_equal (@rev Z)) in Eb; rewrite rev_involutive in Eb|]; by destruct (nodes b1).
Qed.

(** Every place of the order is an empty position. *)
Lemma empty_position t : forall p q, nodes t = p ++ q -> exists k, t = plug k Leaf /\ before k = p /\ after k = q.
Proof.
  induction t as [|c l IHl x r IHr]; intros p q Hn; simpl in Hn.
  { symmetry in Hn. apply app_nil in Hn as [-> ->]. by exists []. }
  destruct (app_eq_app _ _ _ _ Hn) as [m [[E1 E2]|[E1 E2]]]; [|destruct m as [|y m]; simpl in E2].
  - destruct (IHl _ _ E1) as (k&->&<-&<-). exists (k ++ [(L, c, x, r)]). rewrite plug_app, before_app, after_app, E2. simpl.
    by rewrite app_nil_r.
  - rewrite app_nil_r in E1. subst p q. destruct (IHl (nodes l) []) as (k&El&Eb&Ea); [by rewrite app_nil_r|].
    exists (k ++ [(L, c, x, r)]). rewrite plug_app, before_app, after_app, Eb, Ea, <- El. simpl. by rewrite app_nil_r.
  - injection E2 as <- E2. destruct (IHr _ _ E2) as (k&->&<-&<-). exists (k ++ [(R, c, x, l)]).
    rewrite plug_app, before_app, after_app, E1. simpl. by rewrite app_nil_r, <- app_assoc.
Qed.

(** ** The height *)

Lemma height_bound t n : black_height t n -> no_red_red t ->
  (height t <= 2 * n + match color_at t with Red => 1 | Black => 0 end)%nat /\ (2 ^ n <= S (length (nodes t)))%nat.
Proof.
  revert n. induction t as [|c l IHl x r IHr]; intros n Hh Hr; simpl in *; [by subst n|].
  rewrite length_app. simpl. destruct Hr as (Hc&Hrl&Hrr). destruct c; [|destruct n as [|n]; [done|]]; destruct Hh as [Hl Hr].
  - destruct (Hc eq_refl) as [Cl Cr]. rewrite Cl in IHl. rewrite Cr in IHr. specialize (IHl _ Hl Hrl). specialize (IHr _ Hr Hrr). lia.
  - specialize (IHl _ Hl Hrl). specialize (IHr _ Hr Hrr). simpl Nat.pow. destruct (color_at l), (color_at r); lia.
Qed.

Lemma rb_height t : red_black t -> (height t <= 2 * Nat.log2 (S (length (nodes t))))%nat.
Proof.
  intros (Hc&Hr&n&Hn). destruct (height_bound t n Hn Hr) as [H1 H2]. rewrite Hc in H1.
  apply Nat.log2_le_pow2 in H2; lia.
Qed.

(** ** The operations on whole trees *)

Lemma rb_insert_spec fuel f s k x : zip f s k Leaf -> red_black (plug k Leaf) -> address x -> x ∉ path_nodes k ->
  is_Some (heap s !! x) -> (length k < fuel)%nat ->
  exists s1 s2 t, rb_link_node s x (up k) (link_at k) = Some s1 /\ rb_insert_color fuel s1 x = Some s2 /\
    rb_tree f s2 t /\ nodes t = before k ++ x :: after k.
Proof.
  intros Hz Hrb Hxa Hx Hs Hf. destruct (link_spec _ _ _ _ Hz Hxa Hx Hs) as (s1&E1&Hz1).
  apply unplug_rb in Hrb as (n&Hk&Hh&_). simpl in Hh. subst n.
  destruct (insert_loop_spec fuel _ _ _ _ _ _ 0 Hf Hz1 Hk) as (s2&c&l&y&r&E2&Hz2&Hrb&Hn); [done..|].
  destruct (zip_recolor _ _ _ L c Black l y r rb_set_black Hz2) as (s3&E3&Hz3&_); [intros q Hq; by autorewrite with rb|].
  exists s1, s3, (Node Black l y r). split; [exact E1|]. split; [|split; [split; [exact Hz3|exact Hrb]|]].
  - unfold rb_insert_color. rewrite E2, some_bind. pose proof (zip_path _ _ _ _ Hz2) as Hr. simpl in Hr. by rewrite Hr.
  - etrans; [exact Hn|]. by rewrite nodes_plug.
Qed.

Lemma rb_erase_spec fuel f s k c l x r : zip f s k (Node c l x r) -> red_black (plug k (Node c l x r)) ->
  (height (plug k (Node c l x r)) < fuel)%nat ->
  exists s' t' e, rb_erase fuel s x = Some s' /\ rb_tree (<[x := e]> f) s' t' /\
    nodes t' = (before k ++ nodes l) ++ nodes r ++ after k.
Proof.
  intros Hz Hrb Hf. rewrite <- app_assoc. pose proof (plug_height k (Node c l x r)) as Hp.
  destruct (decide (l = Leaf)) as [->|Hl]; [|destruct (decide (r = Leaf)) as [->|Hr]].
  - destruct (rb_erase_one fuel f s k L c x r Hz Hrb) as (s'&t'&e&H); [lia|]. by exists s', t', e.
  - destruct (rb_erase_one fuel f s k R c x l Hz Hrb) as (s'&t'&e&H); [lia|]. by exists s', t', e.
  - by apply rb_erase_two with c.
Qed.

Lemma rb_replace_spec f s k c l x r y e : zip f s k (Node c l x r) -> address y ->
  y ∉ nodes (Node c l x r) ++ path_nodes k -> heap s !! y = Some e ->
  exists s' e', rb_replace_node s x y = Some s' /\ zip (<[x := e']> f) s' k (Node c l y r).
Proof.
  intros Hz Hya Hy He. assert (Hz' := Hz). change (Node c l x r) with (node L c l x r) in Hz, Hy.
  pose proof (zip_get _ _ _ _ _ _ _ _ Hz) as Hx. pose proof (zip_up_ok _ _ _ _ Hz) as Hq.
  assert (Hp := zip_perm_facts L c l x r k). destruct Hz as [Hnd Had Ht Hk _]. rewrite Hp in Hnd, Had, Hy.
  destruct s as [h rt]. simpl in Hx, He, Ht, Hk. destruct Ht as (_&Hlt&Hrt).
  destruct (move_spec h rt k c l x r y) as (s2&s3&h4&r4&E2&E3&E4&E5&E6&Hk4&Hl4&Hr4&Hrest); [done..|].
  assert (Hx4 : h4 !! x = Some (entry L (up k) c (ptr l) (ptr r))).
  { rewrite Hrest; [exact Hx|]. rewrite <- (Permutation_middle (nodes l)), NoDup_cons in Hnd. by destruct Hnd. }
  rewrite elem_of_app, elem_of_cons, elem_of_app in Hy.
  assert (Hy4 : h4 !! y = Some e) by (rewrite Hrest; [exact He|rewrite !elem_of_app; tauto]).
  set (h5 := <[y := entry L (up k) c (ptr l) (ptr r)]> h4).
  assert (Hh5 : forall j, j <> y -> h5 !! j = h4 !! j) by (intros; by apply lookup_insert_ne).
  destruct (moved_zip f h rt k c l x r y h5 r4 Hz' Hya) as (e'&Hz5).
  - change (Node c l x r) with (node L c l x r). rewrite Hp, elem_of_app, elem_of_cons, elem_of_app. exact Hy.
  - eapply path_in_agree; [|exact Hk4]. intros j Hj. apply Hh5. intros ->. tauto.
  - eapply tree_in_agree; [|exact Hl4]. intros j Hj. apply Hh5. intros ->. tauto.
  - eapply tree_in_agree; [|exact Hr4]. intros j Hj. apply Hh5. intros ->. tauto.
  - apply lookup_insert_eq.
  - intros j Hjy Hj. rewrite Hh5 by done. by apply Hrest.
  - exists (mk_state h5 r4), e'. split; [|exact Hz5]. unfold rb_replace_node.
    rewrite (parent_of_eq (mk_state h rt) _ _ Hx), some_bind, entry_parent by done.
    rewrite E2, some_bind, E3, some_bind, E4, some_bind, E5, some_bind, E6, some_bind. unfold get at 1. cbn [heap].
    rewrite Hx4, some_bind. by rewrite (upd_eq _ _ _ e).
Qed.

(** ** Properties *)

(** C10. Linking a node at any place of the order and repairing the colours
    ([rb_link_node], [rb_insert_color]) gives a red-black tree with the node at
    that place and the others where they were; nothing outside the tree is
    written, and the loop runs at most [2 log2 (n + 1) + 1] times. *)
Theorem rb_insert_keeps_red_black f s t p q x fuel : rb_tree f s t -> nodes t = p ++ q ->
  address x -> x ∉ nodes t -> is_Some (heap s !! x) -> (2 * Nat.log2 (S (length (nodes t))) < fuel)%nat ->
  exists k, t = plug k Leaf /\ before k = p /\ after k = q /\
    exists s1 s2 t', rb_link_node s x (up k) (link_at k) = Some s1 /\ rb_insert_color fuel s1 x = Some s2 /\
      rb_tree f s2 t' /\ nodes t' = p ++ x :: q.
Proof.
  intros [Hz Hrb] Hn Hxa Hx Hs Hf. pose proof (rb_height t Hrb) as Hh.
  destruct (empty_position t p q Hn) as (k&->&<-&<-). exists k. do 3 (split; [done|]).
  apply (proj2 (zip_plug _ _ _ _)) in Hz. pose proof (plug_height k Leaf) as Hk. simpl in Hk.
  apply (rb_insert_spec fuel f s k x Hz Hrb Hxa); [|done|lia].
  intros Hj. apply Hx. pose proof (plug_perm k [] Leaf) as Hp. simpl in Hp. rewrite !app_nil_r in Hp. by rewrite Hp.
Qed.

(** C11. [rb_erase] takes exactly the given node out of the order and leaves a
    red-black tree; outside the tree nothing but the removed node is written,
    and [2 log2 (n + 1) + 1] rounds of its loops are enough. *)
Theorem rb_erase_keeps_red_black f s t p q x fuel : rb_tree f s t -> nodes t = p ++ x :: q ->
  (2 * Nat.log2 (S (length (nodes t))) < fuel)%nat ->
  exists s' t' e, rb_erase fuel s x = Some s' /\ rb_tree (<[x := e]> f) s' t' /\ nodes t' = p ++ q.
Proof.
  intros [Hz Hrb] Hn Hf. pose proof (rb_height t Hrb) as Hh.
  destruct (zip_find _ _ _ _ _ _ Hz Hn) as (k&c&l&r&->&Hz'&->&->). apply (rb_erase_spec fuel f s k c l x r Hz' Hrb). lia.
Qed.

(** [rb_first], [rb_last], [rb_next] and [rb_prev] walk the nodes in
    order, in both directions, and end with NULL. *)
Theorem rb_walk_in_order f s t fuel : rb_tree f s t -> (2 * Nat.log2 (S (length (nodes t))) < fuel)%nat ->
  rb_first fuel s = Some (hd NULL (nodes t)) /\ rb_last fuel s = Some (hd NULL (rev (nodes t))) /\
  forall p x q, nodes t = p ++ x :: q ->
    rb_next fuel s x = Some (hd NULL q) /\ rb_prev fuel s x = Some (hd NULL (rev p)).
Proof.
  intros [Hz Hrb] Hf. pose proof (rb_height t Hrb) as Hh.
  assert (Hend : forall d, rb_end fuel s d = Some (hd NULL (from d t))).
  { intros d. unfold rb_end. pose proof (zip_path _ _ _ _ Hz) as Hr. simpl in Hr. rewrite Hr.
    destruct (decide (t = Leaf)) as [->|Ht]; [by destruct d|]. rewrite (zip_null _ _ _ _ Hz Ht).
    apply (descend_end _ _ _ _ _ _ Hz Ht). lia. }
  split; [apply (Hend L)|]. split; [apply (Hend R)|]. intros p x q Hn.
  destruct (zip_find _ _ _ _ _ _ Hz Hn) as (k&c&l&r&->&Hz'&->&->). pose proof (plug_height k (Node c l x r)) as Hk. simpl in Hk.
  split; [apply (rb_step_spec fuel f s R k c l x r Hz'); lia|].
  rewrite rev_app_distr. apply (rb_step_spec fuel f s L k c r x l Hz'). lia.
Qed.

(** [rb_replace_node] puts a node that is not in the tree at the place of
    one that is, with its colour; the other nodes keep theirs. *)
Theorem rb_replace_node_in_place f s t p q x y : rb_tree f s t -> nodes t = p ++ x :: q ->
  address y -> y ∉ nodes t -> is_Some (heap s !! y) ->
  exists s' t' e, rb_replace_node s x y = Some s' /\ rb_tree (<[x := e]> f) s' t' /\ nodes t' = p ++ y :: q.
Proof.
  intros [Hz Hrb] Hn Hya Hy [e He]. destruct (zip_find _ _ _ _ _ _ Hz Hn) as (k&c&l&r&->&Hz'&->&->).
  destruct (rb_replace_spec f s k c l x r y e Hz' Hya) as (s'&e'&E&Hz''); [|done|].
  { pose proof (plug_perm k [] (Node c l x r)) as Hp. rewrite !app_nil_r in Hp. by rewrite <- Hp. }
  exists s', (plug k (Node c l y r)), e'. split; [done|]. split; [split|].
  - exact (proj1 (zip_plug _ _ _ _) Hz'').
  - apply unplug_rb in Hrb as (n&Hk&Hh&Hr&Hc). by apply (plug_rb _ _ n).
  - rewrite nodes_plug. simpl. by rewrite <- !app_assoc.
Qed.

(** ** Witnesses *)

(** Three nodes, and a fourth one outside the tree. *)
Definition h3 : gmap Z rb_node := list_to_map
  [(8, mk_rb_node 1 12 4); (4, mk_rb_node 8 0 0); (12, mk_rb_node 8 0 0); (16, mk_rb_node 0 0 0)].
Definition t3 : tree := Node Black (Node Red Leaf 4 Leaf) 8 (Node Red Leaf 12 Leaf).

Lemma t3_in_h3 : rb_tree h3 (mk_state h3 8) t3.
Proof.
  split; [split|].
  - by apply (bool_decide_unpack _).
  - repeat constructor; by vm_compute.
  - by vm_compute.
  - done.
  - done.
  - split; [done|]. split; [by vm_compute|]. by exists 1%nat.
Qed.

Lemma rb_insert_keeps_red_black_witness : exists k, t3 = plug k Leaf /\ before k = [4; 8] /\ after k = [12] /\
  exists s1 s2 t', rb_link_node (mk_state h3 8) 16 (up k) (link_at k) = Some s1 /\ rb_insert_color 5 s1 16 = Some s2 /\
    rb_tree h3 s2 t' /\ nodes t' = [4; 8; 16; 12].
Proof.
  apply (rb_insert_keeps_red_black h3 (mk_state h3 8) t3 [4; 8] [12] 16 5 t3_in_h3); [done|by vm_compute| |by eexists|].
  - by apply (bool_decide_unpack _).
  - apply (bool_decide_unpack _). by vm_compute.
Defined.

Lemma rb_erase_keeps_red_black_witness : exists s' t' e, rb_erase 5 (mk_state h3 8) 8 = Some s' /\
  rb_tree (<[8 := e]> h3) s' t' /\ nodes t' = [4; 12].
Proof.
  apply (rb_erase_keeps_red_black h3 (mk_state h3 8) t3 [4] [12] 8 5 t3_in_h3); [done|].
  apply (bool_decide_unpack _). by vm_compute.
Defined.

Lemma rb_walk_in_order_witness : rb_first 5 (mk_state h3 8) = Some 4 /\ rb_last 5 (mk_state h3 8) = Some 12 /\
  rb_next 5 (mk_state h3 8) 8 = Some 12 /\ rb_prev 5 (mk_state h3 8) 8 = Some 4.
Proof.
  destruct (rb_walk_in_order h3 (mk_state h3 8) t3 5 t3_in_h3) as (H1&H2&H3);
    [apply (bool_decide_unpack _); by vm_compute|].
  split; [exact H1|]. split; [exact H2|]. exact (H3 [4] 8 [12] eq_refl).
Defined.

Lemma rb_replace_node_in_place_witness : exists s' t' e, rb_replace_node (mk_state h3 8) 8 16 = Some s' /\
  rb_tree (<[8 := e]> h3) s' t' /\ nodes t' = [4; 16; 12].
Proof.
  apply (rb_replace_node_in_place h3 (mk_state h3 8) t3 [4] [12] 8 16 t3_in_h3); [done|by vm_compute| |by eexists].
  by apply (bool_decide_unpack _).
Defined.
