(* ===== verification/RwSem.v ===== *)
(** * Reader-writer semaphores (lib/rwsem-spinlock.c, include/linux/rwsem-spinlock.h)

    [CONFIG_RWSEM_GENERIC_SPINLOCK] selects this implementation.  [wait_lock]
    makes each operation atomic: it is one function of the semaphore, which also
    returns the waiters whose [task] it sets to NULL, in the order it wakes
    them.  The tasks around it (their waiters on the stack, the loop in which
    they sleep, what they hold) are the configurations of a step relation. *)

From S2P Require Import Prelude.

#[local] Open Scope Z_scope.

Definition RWSEM_WAITING_FOR_READ : Z := 0x00000001.
Definition RWSEM_WAITING_FOR_WRITE : Z := 0x00000002.

(** struct rwsem_waiter; the list links are the position in [wait_list] *)
Record rwsem_waiter := mk_waiter { task : Z; flags : Z }.
(** struct rw_semaphore *)
Record rw_semaphore := mk_sem { activity : Z; wait_list : list rwsem_waiter }.

Definition __init_rwsem : rw_semaphore := mk_sem 0 [].

Definition has (waiter : rwsem_waiter) (flag : Z) : bool := negb (Z.land (flags waiter) flag =? 0).
Definition list_empty (l : list rwsem_waiter) : bool := match l with [] => true | _ => false end.

(** The loop of [__rwsem_do_wake]: what stays in the list, and who is woken. *)
Fixpoint wake_readers (l : list rwsem_waiter) : list rwsem_waiter * list rwsem_waiter :=
  match l with
  | [] => ([], [])
  | waiter :: rest =>
    if has waiter RWSEM_WAITING_FOR_READ then
      let '(rest, woken) := wake_readers rest in (rest, waiter :: woken)
    else (l, [])
  end.

Definition __rwsem_do_wake (sem : rw_semaphore) (wakewrite : bool) : option (rw_semaphore * list rwsem_waiter) :=
  match wait_list sem with
  | [] => None
  | waiter :: rest =>
    let wake_all :=
      let '(rest, woken) := wake_readers (wait_list sem) in
      Some (mk_sem (s32 (activity sem + zlen woken)) rest, woken) in
    if negb wakewrite then
      if has waiter RWSEM_WAITING_FOR_WRITE then Some (sem, []) else wake_all
    else if has waiter RWSEM_WAITING_FOR_WRITE then Some (mk_sem (-1) rest, [waiter])
    else wake_all
  end.

Definition __rwsem_wake_one_writer (sem : rw_semaphore) : option (rw_semaphore * list rwsem_waiter) :=
  match wait_list sem with
  | [] => None
  | waiter :: rest => Some (mk_sem (-1) rest, [waiter])
  end.

(** [true]: granted at once; [false]: the task has queued its waiter and sleeps. *)
Definition __down_read (sem : rw_semaphore) (current : Z) : rw_semaphore * bool :=
  if (0 <=? activity sem) && list_empty (wait_list sem) then (mk_sem (s32 (activity sem + 1)) (wait_list sem), true)
  else (mk_sem (activity sem) (wait_list sem ++ [mk_waiter current RWSEM_WAITING_FOR_READ]), false).

Definition __down_read_trylock (sem : rw_semaphore) : rw_semaphore * Z :=
  if (0 <=? activity sem) && list_empty (wait_list sem) then (mk_sem (s32 (activity sem + 1)) (wait_list sem), 1)
  else (sem, 0).

Definition __down_write_nested (sem : rw_semaphore) (current : Z) (subclass : Z) : rw_semaphore * bool :=
  if (activity sem =? 0) && list_empty (wait_list sem) then (mk_sem (-1) (wait_list sem), true)
  else (mk_sem (activity sem) (wait_list sem ++ [mk_waiter current RWSEM_WAITING_FOR_WRITE]), false).
Definition __down_write (sem : rw_semaphore) (current : Z) : rw_semaphore * bool := __down_write_nested sem current 0.

Definition __down_write_trylock (sem : rw_semaphore) : rw_semaphore * Z :=
  if (activity sem =? 0) && list_empty (wait_list sem) then (mk_sem (-1) (wait_list sem), 1) else (sem, 0).

Definition __up_read (sem : rw_semaphore) : option (rw_semaphore * list rwsem_waiter) :=
  let sem := mk_sem (s32 (activity sem - 1)) (wait_list sem) in
  if (activity sem =? 0) && negb (list_empty (wait_list sem)) then __rwsem_wake_one_writer sem else Some (sem, []).

Definition __up_write (sem : rw_semaphore) : option (rw_semaphore * list rwsem_waiter) :=
  let sem := mk_sem 0 (wait_list sem) in
  if negb (list_empty (wait_list sem)) then __rwsem_do_wake sem true else Some (sem, []).

Definition __downgrade_write (sem : rw_semaphore) : option (rw_semaphore * list rwsem_waiter) :=
  let sem := mk_sem 1 (wait_list sem) in
  if negb (list_empty (wait_list sem)) then __rwsem_do_wake sem false else Some (sem, []).

(** ** Tasks *)

Inductive kind := Read | Write.
#[export] Instance kind_eq_dec : EqDecision kind.
Proof. solve_decision. Defined.
Definition flag_of (k : kind) : Z := match k with Read => RWSEM_WAITING_FOR_READ | Write => RWSEM_WAITING_FOR_WRITE end.
Definition kind_of (w : rwsem_waiter) : kind := if has w RWSEM_WAITING_FOR_WRITE then Write else Read.

(** [granted] has the tasks that have the semaphore: those that got it at once
    and those whose [waiter.task] is NULL.  [asleep] are the tasks in the loop
    [for (;;) { if (!waiter.task) break; schedule(); ... }]. *)
Record conf := mk_conf { sem : rw_semaphore; granted : gmap Z kind; asleep : gset Z }.

Definition grant (woken : list rwsem_waiter) (m : gmap Z kind) : gmap Z kind :=
  foldr (fun w m => <[task w := kind_of w]> m) m woken.
Definition waits (c : conf) (t : Z) : Prop := t ∈ map task (wait_list (sem c)).
(** A task that neither has the semaphore nor waits for it. *)
Definition outside (c : conf) (t : Z) : Prop := granted c !! t = None /\ t ∉ asleep c.
(** A task that has the semaphore and runs. *)
Definition holds (c : conf) (t : Z) (k : kind) : Prop := granted c !! t = Some k /\ t ∉ asleep c.

(** The configuration after a request of [t] with the given result. *)
Definition requested (c : conf) (t : Z) (k : kind) (r : rw_semaphore * bool) : conf :=
  if r.2 then mk_conf r.1 (<[t := k]> (granted c)) (asleep c) else mk_conf r.1 (granted c) ({[t]} ∪ asleep c).
Definition tried (c : conf) (t : Z) (k : kind) (r : rw_semaphore * Z) : conf :=
  if r.2 =? 1 then mk_conf r.1 (<[t := k]> (granted c)) (asleep c) else mk_conf r.1 (granted c) (asleep c).

Section tasks.
  (** The tasks of the system; their number is limited by the process ids. *)
  Context (all : gset Z).

(** One step of the system; [true] when a task gives the semaphore back. *)
Inductive step : bool -> conf -> conf -> Prop :=
| s_down_read c t : t ∈ all -> outside c t -> step false c (requested c t Read (__down_read (sem c) t))
| s_down_write c t : t ∈ all -> outside c t -> step false c (requested c t Write (__down_write (sem c) t))
| s_down_read_trylock c t : t ∈ all -> outside c t -> step false c (tried c t Read (__down_read_trylock (sem c)))
| s_down_write_trylock c t : t ∈ all -> outside c t -> step false c (tried c t Write (__down_write_trylock (sem c)))
| s_wake c t : t ∈ asleep c -> is_Some (granted c !! t) ->
    step false c (mk_conf (sem c) (granted c) (asleep c ∖ {[t]}))
| s_downgrade c t sem' woken : holds c t Write -> __downgrade_write (sem c) = Some (sem', woken) ->
    step false c (mk_conf sem' (grant woken (<[t := Read]> (granted c))) (asleep c))
| s_up_read c t sem' woken : holds c t Read -> __up_read (sem c) = Some (sem', woken) ->
    step true c (mk_conf sem' (grant woken (delete t (granted c))) (asleep c))
| s_up_write c t sem' woken : holds c t Write -> __up_write (sem c) = Some (sem', woken) ->
    step true c (mk_conf sem' (grant woken (delete t (granted c))) (asleep c)).

Inductive reachable : conf -> Prop :=
| r_init : reachable (mk_conf __init_rwsem ∅ ∅)
| r_step b c c' : reachable c -> step b c c' -> reachable c'.

(** Runs in which [t] waits all the time; [n] counts the releases. *)
Inductive waiting_run (t : Z) : nat -> conf -> conf -> Prop :=
| w_refl c : waits c t -> waiting_run t 0 c c
| w_step b n c c' c'' : waits c t -> step b c c' -> waiting_run t n c' c'' ->
    waiting_run t ((if b then 1 else 0) + n) c c''.

End tasks.

(** ** The invariant *)

(** What [activity] says of the tasks that have the semaphore. *)
Definition activity_ok (a : Z) (m : gmap Z kind) : Prop :=
  (a = -1 /\ exists t, m = {[t := Write]}) \/ (a = Z.of_nat (size m) /\ map_Forall (fun _ k => k = Read) m).

Record sem_ok (all : gset Z) (c : conf) : Prop := {
  ok_activity : activity_ok (activity (sem c)) (granted c);
  ok_flags : Forall (fun w => exists k, flags w = flag_of k) (wait_list (sem c));
  ok_nodup : NoDup (map task (wait_list (sem c)));
  ok_waiting : forall t, waits c t <-> t ∈ asleep c /\ granted c !! t = None;
  ok_all : forall t, is_Some (granted c !! t) \/ t ∈ asleep c -> t ∈ all;
  (** nobody waits for a free semaphore, and a writer is first behind readers *)
  ok_head : match wait_list (sem c) with
            | [] => True
            | w :: _ => activity (sem c) <> 0 /\ (0 < activity (sem c) -> kind_of w = Write)
            end
}.

(** ** Waking *)

Lemma has_flag w k f : flags w = flag_of k -> has w (flag_of f) = bool_decide (k = f).
Proof. intros E. unfold has. rewrite E. by destruct k, f. Qed.

Lemma kind_of_flag w k : flags w = flag_of k -> kind_of w = k.
Proof. intros E. unfold kind_of. change RWSEM_WAITING_FOR_WRITE with (flag_of Write). rewrite (has_flag _ _ _ E). by destruct k. Qed.

Definition good_flags (l : list rwsem_waiter) : Prop := Forall (fun w => exists k, flags w = flag_of k) l.
Definition head_ok (s : rw_semaphore) : Prop :=
  match wait_list s with [] => True | w :: _ => activity s <> 0 /\ (0 < activity s -> kind_of w = Write) end.

Lemma wake_readers_spec l : good_flags l ->
  exists rest woken, wake_readers l = (rest, woken) /\ l = woken ++ rest /\ Forall (fun w => kind_of w = Read) woken /\
    match rest with [] => True | w :: _ => kind_of w = Write end.
Proof.
  induction 1 as [|w l [k Hw] _ (rest&woken&E&->&Hr&Hh)]; [by exists [], []|]. simpl. rewrite E.
  change RWSEM_WAITING_FOR_READ with (flag_of Read). rewrite (has_flag _ _ _ Hw). destruct k; cbn [bool_decide].
  - exists rest, (w :: woken). split; [done|]. split; [done|]. split; [|done]. constructor; [by apply kind_of_flag|done].
  - exists (w :: woken ++ rest), []. do 3 (split; [done|]). by apply kind_of_flag.
Qed.

Lemma grant_none woken m t : grant woken m !! t = None <-> m !! t = None /\ t ∉ map task woken.
Proof.
  induction woken as [|w woken IH]; simpl; [pose proof (not_elem_of_nil t); tauto|].
  rewrite lookup_insert_None, IH, not_elem_of_cons. split; [intros ([??]&?)|intros (?&?&?)]; auto.
Qed.

Lemma grant_size woken m : NoDup (map task woken) -> (forall t, t ∈ map task woken -> m !! t = None) ->
  size (grant woken m) = (size m + length woken)%nat.
Proof.
  induction woken as [|w woken IH]; simpl; intros Hnd Hm; [lia|]. apply NoDup_cons in Hnd as [Hw Hnd].
  rewrite map_size_insert_None, IH; [lia|done|..].
  - intros t Ht. apply Hm. by right.
  - apply grant_none. split; [|done]. apply Hm. by left.
Qed.

Lemma grant_readers woken m : Forall (fun w => kind_of w = Read) woken -> map_Forall (fun (_ : Z) k => k = Read) m ->
  map_Forall (fun _ k => k = Read) (grant woken m).
Proof. intros Hw Hm. induction Hw as [|w woken E _ IH]; simpl; [done|]. by apply map_Forall_insert_2. Qed.

(** What waking has to do: the first waiters get the semaphore. *)
Definition handed (m : gmap Z kind) (l : list rwsem_waiter) (o : option (rw_semaphore * list rwsem_waiter)) : Prop :=
  exists s woken, o = Some (s, woken) /\ l = woken ++ wait_list s /\
    activity_ok (activity s) (grant woken m) /\ head_ok s /\ size (grant woken m) = (size m + length woken)%nat.

Lemma handed_nobody (m : gmap Z kind) : map_Forall (fun (_ : Z) k => k = Read) m ->
  handed m [] (Some (mk_sem (Z.of_nat (size m)) [], [])).
Proof. intros Hm. eexists _, []. do 2 (split; [done|]). split; [by right|]. split; [done|]. simpl. lia. Qed.

Lemma handed_writer (m : gmap Z kind) w rest a : kind_of w = Write -> m = ∅ ->
  handed m (w :: rest) (Some (mk_sem a rest, [w])) <-> a = -1.
Proof.
  intros Hw ->. split.
  - intros (s&woken&E&_&[[H _]|[Ha H]]&_); simplify_eq; [done|]. simpl in H. rewrite Hw in H.
    specialize (H (task w) Write). simpl in H. rewrite lookup_insert_eq in H. by specialize (H eq_refl).
  - intros ->. eexists _, [w]. do 2 (split; [done|]). simpl. rewrite Hw. split; [|split].
    + left. split; [done|]. by exists (task w).
    + unfold head_ok. simpl. destruct rest; [done|]. lia.
    + by rewrite map_size_insert_None by done.
Qed.

Section wake.
  Context (m : gmap Z kind) (l : list rwsem_waiter).
  Context (Hm : map_Forall (fun (_ : Z) k => k = Read) m) (Hf : good_flags l) (Hnd : NoDup (map task l)).
  Context (Hd : forall t, t ∈ map task l -> m !! t = None) (Hn : Z.of_nat (size m) + zlen l < 2 ^ 31).

Lemma handed_readers : size m <> 0%nat \/ (exists w rest, l = w :: rest /\ kind_of w = Read) ->
  handed m l (let '(rest, woken) := wake_readers l in Some (mk_sem (s32 (Z.of_nat (size m) + zlen woken)) rest, woken)).
Proof.
  intros Hsome. destruct (wake_readers_spec l Hf) as (rest&woken&->&El&Hr&Hh).
  assert (Hs : size (grant woken m) = (size m + length woken)%nat).
  { apply grant_size.
    - rewrite El, map_app, NoDup_app in Hnd. by destruct Hnd.
    - intros t Ht. apply Hd. rewrite El, map_app. apply elem_of_app. by left. }
  assert (Hz : s32 (Z.of_nat (size m) + zlen woken) = Z.of_nat (size (grant woken m))).
  { rewrite El in Hn. rewrite length_app in Hn. rewrite Hs, s32_small by lia. lia. }
  eexists _, woken. split; [done|]. split; [exact El|]. cbn [activity wait_list]. rewrite Hz. split; [|split; [|done]].
  - right. split; [done|]. by apply grant_readers.
  - unfold head_ok. cbn [activity wait_list]. destruct rest as [|w rest]; [done|]. split; [|by intros _].
    destruct Hsome as [?|(w'&rest'&E&Hw')]; [rewrite Hs; lia|]. rewrite Hs. destruct woken; [simpl in El; congruence|cbn [length]; lia].
Qed.

End wake.

Lemma do_wake_spec (m : gmap Z kind) w rest (ww : bool) : let l := w :: rest in
  map_Forall (fun (_ : Z) k => k = Read) m -> good_flags l -> NoDup (map task l) ->
  (forall t, t ∈ map task l -> m !! t = None) -> Z.of_nat (size m) + zlen l < 2 ^ 31 ->
  (if ww then m = ∅ else size m <> 0%nat) -> handed m l (__rwsem_do_wake (mk_sem (Z.of_nat (size m)) l) ww).
Proof.
  intros l Hm Hf Hnd Hd Hn Hw. unfold __rwsem_do_wake. cbn [wait_list activity l].
  assert (exists k, flags w = flag_of k) as [k Hk] by (by apply Forall_cons in Hf as [? _]).
  change RWSEM_WAITING_FOR_WRITE with (flag_of Write). rewrite (has_flag _ _ _ Hk). pose proof (kind_of_flag _ _ Hk) as Hkw.
  destruct ww; cbn [negb].
  - destruct k; cbn [bool_decide].
    + apply handed_readers; try done. right. by exists w, rest.
    + by apply handed_writer.
  - destruct k; cbn [bool_decide]; [apply handed_readers; auto|].
    eexists _, []. do 2 (split; [done|]). split; [by right|]. split; [|simpl; lia].
    unfold head_ok. cbn [activity wait_list l]. split; [lia|done].
Qed.

(** ** The invariant is kept *)

Section invariant.
  Context (all : gset Z) (Hall : Z.of_nat (size all) < 2 ^ 31).

Lemma ok_disjoint c t : sem_ok all c -> t ∈ map task (wait_list (sem c)) -> granted c !! t = None /\ t ∈ asleep c.
Proof. intros Hok Ht. by apply (ok_waiting _ _ Hok) in Ht as [? ?]. Qed.

(** Everybody who has the semaphore or waits for it is one task. *)
Lemma ok_count c (new : gset Z) : sem_ok all c -> new ⊆ all -> (forall t, t ∈ new -> outside c t) ->
  Z.of_nat (size new) + Z.of_nat (size (granted c)) + zlen (wait_list (sem c)) < 2 ^ 31.
Proof.
  intros Hok Hnew Hout. set (q := list_to_set (map task (wait_list (sem c))) : gset Z).
  assert (Hq : size q = length (wait_list (sem c))).
  { unfold q. rewrite size_list_to_set by apply (ok_nodup _ _ Hok). by rewrite length_map. }
  assert (Hd : forall t, t ∈ q -> granted c !! t = None /\ t ∈ asleep c).
  { intros t Ht. apply elem_of_list_to_set in Ht. by apply ok_disjoint. }
  assert (Hs : (size (new ∪ dom (granted c) ∪ q) <= size all)%nat).
  { apply subseteq_size. intros t Ht. rewrite !elem_of_union in Ht. destruct Ht as [[Ht|Ht]|Ht].
    - by apply Hnew.
    - apply (ok_all _ _ Hok). left. by apply elem_of_dom.
    - apply (ok_all _ _ Hok). right. by apply Hd. }
  rewrite !size_union, size_dom, Hq in Hs; [lia|..]; intros t; rewrite ?elem_of_union.
  - intros Ht Ht'. apply Hout in Ht as [Ht _]. apply elem_of_dom in Ht' as [k Hk]. congruence.
  - intros [Ht|Ht] Ht'; apply Hd in Ht' as [H1 H2].
    + by apply Hout in Ht as [_ ?].
    + apply elem_of_dom in Ht as [k Hk]. congruence.
Qed.

Lemma ok_bound c : sem_ok all c -> Z.of_nat (size (granted c)) + zlen (wait_list (sem c)) < 2 ^ 31.
Proof. intros Hok. pose proof (ok_count c ∅ Hok) as H. rewrite size_empty in H. apply H; [set_solver|set_solver]. Qed.

Section holder.
  Context (c : conf) (t : Z) (Hok : sem_ok all c).

Lemma holder_write k : granted c !! t = Some k ->
  match k with
  | Write => activity (sem c) = -1 /\ granted c = {[t := Write]}
  | Read => activity (sem c) = Z.of_nat (size (granted c)) /\ map_Forall (fun _ k => k = Read) (granted c) /\
      size (granted c) = S (size (delete t (granted c)))
  end.
Proof.
  intros Ht. assert (Hsz : size (granted c) = S (size (delete t (granted c)))).
  { rewrite map_size_delete_Some by eauto. assert (size (granted c) <> 0%nat); [|lia].
    intros E. apply map_size_empty_inv in E. rewrite E in Ht. by rewrite lookup_empty in Ht. }
  destruct (ok_activity _ _ Hok) as [[Ha [t' E]]|[Ha Hr]].
  - rewrite E in Ht. apply lookup_singleton_Some in Ht as [-> <-]. by rewrite E.
  - rewrite (Hr t k Ht). done.
Qed.

Lemma up_read_handed : holds c t Read -> handed (delete t (granted c)) (wait_list (sem c)) (__up_read (sem c)).
Proof.
  intros [Ht _]. destruct (holder_write Read Ht) as (Ha&Hr&Hs). pose proof (ok_bound c Hok) as Hb. set (m := delete t (granted c)) in *.
  assert (Hm : map_Forall (fun (_ : Z) k => k = Read) m) by (by apply map_Forall_delete).
  unfold __up_read. cbn [activity wait_list]. rewrite Ha, Hs, s32_small by lia.
  replace (Z.of_nat (S (size m)) - 1) with (Z.of_nat (size m)) by lia.
  pose proof (ok_head _ _ Hok) as Hh. destruct (wait_list (sem c)) as [|w rest] eqn:El.
  { cbn [list_empty negb]. rewrite andb_false_r. by apply handed_nobody. }
  destruct Hh as [_ Hh]. cbn [list_empty negb]. rewrite andb_true_r. destruct (Z.eqb_spec (Z.of_nat (size m)) 0) as [E|E].
  - unfold __rwsem_wake_one_writer. cbn [wait_list]. apply handed_writer; [apply Hh; lia| |done].
    apply map_size_empty_inv. lia.
  - eexists _, []. do 2 (split; [done|]). split; [by right|]. split; [|simpl; lia].
    unfold head_ok. cbn [activity wait_list]. split; [done|]. intros _. apply Hh. lia.
Qed.

Lemma wait_facts (m : gmap Z kind) : (forall t, granted c !! t = None -> m !! t = None) -> (size m <= size (granted c))%nat ->
  good_flags (wait_list (sem c)) /\ NoDup (map task (wait_list (sem c))) /\
  (forall t, t ∈ map task (wait_list (sem c)) -> m !! t = None) /\ Z.of_nat (size m) + zlen (wait_list (sem c)) < 2 ^ 31.
Proof.
  intros Hm Hs. pose proof (ok_bound c Hok) as Hb. split; [apply (ok_flags _ _ Hok)|]. split; [apply (ok_nodup _ _ Hok)|].
  split; [|lia]. intros t' Ht'. apply Hm. by apply ok_disjoint.
Qed.

Lemma wake_handed m ww : (forall t, granted c !! t = None -> m !! t = None) -> (size m <= size (granted c))%nat ->
  map_Forall (fun (_ : Z) k => k = Read) m -> (if ww : bool then m = ∅ else size m <> 0%nat) ->
  let s := mk_sem (Z.of_nat (size m)) (wait_list (sem c)) in
  handed m (wait_list (sem c)) (if negb (list_empty (wait_list (sem c))) then __rwsem_do_wake s ww else Some (s, [])).
Proof.
  intros Hm Hs Hr Hww s. destruct (wait_facts m Hm Hs) as (H1&H2&H3&H4). subst s.
  destruct (wait_list (sem c)) as [|w rest] eqn:El; [by apply handed_nobody|]. by apply do_wake_spec.
Qed.

Lemma up_write_handed : holds c t Write -> handed (delete t (granted c)) (wait_list (sem c)) (__up_write (sem c)).
Proof.
  intros [Ht _]. destruct (holder_write Write Ht) as (Ha&E). rewrite E, delete_singleton_eq.
  pose proof (wake_handed ∅ true) as H. rewrite map_size_empty in H. apply H; [done|lia|done|done].
Qed.

Lemma downgrade_handed : holds c t Write -> handed (<[t := Read]> (granted c)) (wait_list (sem c)) (__downgrade_write (sem c)).
Proof.
  intros [Ht _]. destruct (holder_write Write Ht) as (Ha&E). rewrite E, insert_singleton_eq.
  pose proof (wake_handed {[t := Read]} false) as H. rewrite map_size_singleton in H. apply H.
  - intros t'. rewrite E, !lookup_singleton_None. done.
  - by rewrite E, map_size_singleton.
  - by apply map_Forall_singleton.
  - done.
Qed.

(** After a hand-over the invariant holds. *)
Lemma handed_ok m k s woken : holds c t k -> (forall t', granted c !! t' = None -> m !! t' = None) ->
  (forall t', t' <> t -> m !! t' = None -> granted c !! t' = None) ->
  handed m (wait_list (sem c)) (Some (s, woken)) -> sem_ok all (mk_conf s (grant woken m) (asleep c)).
Proof.
  intros [Ht Hts] Hm1 Hm2 (s'&woken'&E&El&Hact&Hhead&_). injection E as <- <-.
  pose proof (ok_nodup _ _ Hok) as Hnd. pose proof (ok_flags _ _ Hok) as Hf. rewrite El in Hnd, Hf. rewrite map_app, NoDup_app in Hnd.
  assert (Hw : forall t', t' ∈ map task woken \/ t' ∈ map task (wait_list s) -> granted c !! t' = None /\ t' ∈ asleep c).
  { intros t' Ht'. apply (ok_disjoint c t' Hok). rewrite El, map_app. by apply elem_of_app. }
  split; cbn [sem granted asleep]; [done|by apply Forall_app in Hf as [_ ?]|apply Hnd| | |exact Hhead].
  - intros t'. unfold waits. cbn [sem]. rewrite grant_none. split.
    + intros Ht'. destruct (Hw t') as [H1 H2]; [by right|]. split; [done|]. split; [by apply Hm1|].
      intros Hin. destruct Hnd as (_&Hnd&_). by apply (Hnd t').
    + intros (H1&H2&H3). assert (Hq : waits c t').
      { apply (ok_waiting _ _ Hok). split; [done|]. apply Hm2; [|done]. intros ->. done. }
      unfold waits in Hq. rewrite El, map_app, elem_of_app in Hq. by destruct Hq.
  - intros t' Ht'. destruct (decide (t' ∈ map task woken)) as [Hin|Hin]; [apply (ok_all _ _ Hok); right; apply Hw; by left|].
    destruct Ht' as [Hg|Ha]; [|apply (ok_all _ _ Hok); by right]. destruct (granted c !! t') eqn:Eg; [apply (ok_all _ _ Hok); left; by rewrite Eg|].
    destruct Hg as [k' Hk]. assert (En : grant woken m !! t' = None) by (apply grant_none; split; [by apply Hm1|done]). congruence.
Qed.

End holder.
End invariant.

Section steps.
  Context (all : gset Z) (Hall : Z.of_nat (size all) < 2 ^ 31).

Lemma grant_ok c t k a : sem_ok all c -> t ∈ all -> outside c t -> wait_list (sem c) = [] ->
  activity_ok a (<[t := k]> (granted c)) -> sem_ok all (mk_conf (mk_sem a (wait_list (sem c))) (<[t := k]> (granted c)) (asleep c)).
Proof.
  intros Hok Ht [Hg Ha] El Hact. split; cbn [sem granted asleep activity wait_list].
  - done.
  - by rewrite El.
  - rewrite El. apply NoDup_nil_2.
  - intros t'. rewrite lookup_insert_None. unfold waits. cbn [sem wait_list]. split.
    + rewrite El. by intros ?%elem_of_nil.
    + intros (H1&H2&_). by apply (ok_waiting _ _ Hok).
  - intros t' [Ht'|Ht']; [|apply (ok_all _ _ Hok); by right]. destruct (decide (t' = t)) as [->|Hne]; [done|].
    rewrite lookup_insert_ne in Ht' by done. apply (ok_all _ _ Hok). by left.
  - by rewrite El.
Qed.

Lemma queue_ok c t k : sem_ok all c -> t ∈ all -> outside c t ->
  (wait_list (sem c) = [] -> activity (sem c) <> 0 /\ (0 < activity (sem c) -> k = Write)) ->
  sem_ok all (mk_conf (mk_sem (activity (sem c)) (wait_list (sem c) ++ [mk_waiter t (flag_of k)])) (granted c) ({[t]} ∪ asleep c)).
Proof.
  intros Hok Ht [Hg Ha] Hempty.
  assert (Hn : t ∉ map task (wait_list (sem c))) by (intros Hin; by apply (ok_disjoint _ _ _ Hok) in Hin as [_ ?]).
  split; cbn [sem granted asleep activity wait_list].
  - apply (ok_activity _ _ Hok).
  - apply Forall_app. split; [apply (ok_flags _ _ Hok)|]. constructor; [by exists k|constructor].
  - rewrite map_app. apply NoDup_app. split; [apply (ok_nodup _ _ Hok)|]. split; [|apply NoDup_singleton].
    intros t' Ht' ->%list_elem_of_singleton. done.
  - intros t'. unfold waits. cbn [sem wait_list]. rewrite map_app, elem_of_app, elem_of_union, elem_of_singleton.
    pose proof (ok_waiting _ _ Hok t') as Hw. unfold waits in Hw. rewrite Hw. simpl. rewrite list_elem_of_singleton.
    split; [intros [[? ?]| ->]; auto|]. intros [[->|?] ?]; auto.
  - intros t' [Ht'|Ht']; [apply (ok_all _ _ Hok); by left|]. apply elem_of_union in Ht' as [->%elem_of_singleton|Ht']; [done|].
    apply (ok_all _ _ Hok). by right.
  - pose proof (ok_head _ _ Hok) as Hh. destruct (wait_list (sem c)) as [|w rest]; [|done]. simpl.
    rewrite (kind_of_flag _ k) by done. by apply Hempty.
Qed.

Lemma list_empty_true l : list_empty l = true -> l = [].
Proof. by destruct l. Qed.

(** The test of [__down_read] and [__down_read_trylock] succeeds. *)
Lemma read_ok c t : sem_ok all c -> t ∈ all -> outside c t -> (0 <=? activity (sem c)) && list_empty (wait_list (sem c)) = true ->
  sem_ok all (mk_conf (mk_sem (s32 (activity (sem c) + 1)) (wait_list (sem c))) (<[t := Read]> (granted c)) (asleep c)).
Proof.
  intros Hok Ht Hout [Ha He]%andb_prop. apply Z.leb_le in Ha. apply list_empty_true in He.
  pose proof (ok_count all Hall c {[t]} Hok) as Hc. rewrite size_singleton in Hc.
  specialize (Hc ltac:(set_solver) ltac:(intros ? ->%elem_of_singleton; done)).
  apply grant_ok; [done..|]. destruct (ok_activity _ _ Hok) as [[E _]|[E Hr]]; [lia|]. right. destruct Hout as [Hg _].
  rewrite map_size_insert_None by done. split; [rewrite E, s32_small by lia; lia|]. by apply map_Forall_insert_2.
Qed.

Lemma write_ok c t : sem_ok all c -> t ∈ all -> outside c t -> (activity (sem c) =? 0) && list_empty (wait_list (sem c)) = true ->
  sem_ok all (mk_conf (mk_sem (-1) (wait_list (sem c))) (<[t := Write]> (granted c)) (asleep c)).
Proof.
  intros Hok Ht Hout [Ha He]%andb_prop. apply Z.eqb_eq in Ha. apply list_empty_true in He.
  apply grant_ok; [done..|]. destruct (ok_activity _ _ Hok) as [[E _]|[E Hr]]; [lia|]. left. split; [done|].
  assert (Em : granted c = ∅) by (apply map_size_empty_inv; lia). rewrite Em. by exists t.
Qed.

Lemma sem_ok_eta c : sem_ok all c -> sem_ok all (mk_conf (sem c) (granted c) (asleep c)).
Proof. by destruct c. Qed.

Lemma step_ok b c c' : sem_ok all c -> step all b c c' -> sem_ok all c'.
Proof.
  intros Hok Hs. destruct Hs as [c t Ht Hout|c t Ht Hout|c t Ht Hout|c t Ht Hout|c t Ha Hg|c t s woken Hh E|c t s woken Hh E|c t s woken Hh E].
  - unfold requested, __down_read. destruct (_ && _) eqn:Et; cbn [fst snd]; [by apply read_ok|]. apply (queue_ok c t Read); [done..|].
    intros El. rewrite El in Et. cbn [list_empty] in Et. rewrite andb_true_r in Et. apply Z.leb_gt in Et. lia.
  - unfold requested, __down_write, __down_write_nested. destruct (_ && _) eqn:Et; cbn [fst snd]; [by apply write_ok|]. apply (queue_ok c t Write); [done..|].
    intros El. rewrite El in Et. cbn [list_empty] in Et. rewrite andb_true_r in Et. by apply Z.eqb_neq in Et.
  - unfold tried, __down_read_trylock. destruct (_ && _) eqn:Et; cbn; [by apply read_ok|by apply sem_ok_eta].
  - unfold tried, __down_write_trylock. destruct (_ && _) eqn:Et; cbn; [by apply write_ok|by apply sem_ok_eta].
  - destruct Hok as [H1 H2 H3 H4 H5 H6]. split; cbn [sem granted asleep]; [done|done|done| | |done].
    + intros t'. unfold waits in *. cbn [sem]. rewrite H4, elem_of_difference, elem_of_singleton.
      split; [|by intros [[??]?]]. intros [Ha' Hg']. split; [split; [done|]|done]. intros ->. destruct Hg. congruence.
    + intros t' [?|Ht']; apply H5; [by left|]. apply elem_of_difference in Ht' as [? _]. by right.
  - pose proof (downgrade_handed all Hall c t Hok Hh) as H. rewrite E in H. eapply (handed_ok all c t Hok _ Write); [done| | |done].
    + intros t' Ht'. apply lookup_insert_None. split; [done|]. intros ->. destruct Hh. congruence.
    + by intros t' _ [??]%lookup_insert_None.
  - pose proof (up_read_handed all Hall c t Hok Hh) as H. rewrite E in H. eapply (handed_ok all c t Hok _ Read); [done| | |done].
    + intros t' Ht'. apply lookup_delete_None. by right.
    + by intros t' Hne [?|?]%lookup_delete_None.
  - pose proof (up_write_handed all Hall c t Hok Hh) as H. rewrite E in H. eapply (handed_ok all c t Hok _ Write); [done| | |done].
    + intros t' Ht'. apply lookup_delete_None. by right.
    + by intros t' Hne [?|?]%lookup_delete_None.
Qed.

Lemma reachable_sem_ok c : reachable all c -> sem_ok all c.
Proof.
  induction 1 as [|b c c' _ IH Hs]; [|by apply (step_ok b c)]. split; cbn.
  - by right.
  - done.
  - apply NoDup_nil_2.
  - intros t. unfold waits. simpl. split; [by intros ?%elem_of_nil|]. by intros [?%elem_of_empty _].
  - intros t [[k H]|H]; [by rewrite lookup_empty in H|by apply elem_of_empty in H].
  - done.
Qed.

End steps.

(** ** Progress *)

(** Place of a waiting task in the queue. *)
Definition place (c : conf) (t : Z) (i : nat) : Prop := task <$> wait_list (sem c) !! i = Some t.

Lemma place_waits c t i : place c t i -> waits c t.
Proof.
  unfold place, waits. intros H. apply fmap_Some in H as (w&Hw&->). apply list_elem_of_fmap. exists w. split; [done|].
  by eapply list_elem_of_lookup_2.
Qed.

Lemma handed_place m l s woken t i : handed m l (Some (s, woken)) -> NoDup (map task l) ->
  task <$> l !! i = Some t -> t ∈ map task (wait_list s) ->
  exists i', task <$> wait_list s !! i' = Some t /\ (size (grant woken m) + i' = size m + i)%nat.
Proof.
  intros (s'&woken'&E&->&_&_&Hs) Hnd Hi Ht. injection E as <- <-. rewrite map_app, NoDup_app in Hnd. destruct Hnd as (_&Hd&_).
  destruct (Nat.lt_ge_cases i (length woken)) as [Hlt|Hge].
  - exfalso. rewrite lookup_app_l in Hi by done. apply fmap_Some in Hi as (w&Hw&->). apply (Hd (task w)); [|done].
    apply list_elem_of_fmap. exists w. split; [done|]. by eapply list_elem_of_lookup_2.
  - rewrite lookup_app_r in Hi by done. exists (i - length woken)%nat. split; [done|]. lia.
Qed.

Section progress.
  Context (all : gset Z) (Hall : Z.of_nat (size all) < 2 ^ 31).

(** The tasks that have the semaphore and those before [t]: as long as [t]
    waits, each release counts their number down by one and nothing else changes it. *)
Lemma step_count b c c' t i : sem_ok all c -> step all b c c' -> place c t i -> waits c' t ->
  exists i', place c' t i' /\ (size (granted c') + i' + (if b then 1 else 0) = size (granted c) + i)%nat.
Proof.
  intros Hok Hs Hi Ht'. pose proof (place_waits _ _ _ Hi) as Ht. pose proof (ok_nodup _ _ Hok) as Hnd.
  assert (Hne : list_empty (wait_list (sem c)) = false).
  { unfold waits in Ht. destruct (wait_list (sem c)); [|done]. by apply elem_of_nil in Ht. }
  assert (Happ : forall w, task <$> (wait_list (sem c) ++ [w]) !! i = Some t).
  { intros w. unfold place in Hi. destruct (wait_list (sem c) !! i) eqn:E; [|done]. by rewrite (lookup_app_l_Some _ _ _ _ E). }
  unfold place, waits in *.
  destruct Hs as [c u Hu Hout|c u Hu Hout|c u Hu Hout|c u Hu Hout|c u Ha Hg|c u s woken Hh E|c u s woken Hh E|c u s woken Hh E].
  - unfold requested, __down_read. rewrite Hne, andb_false_r. exists i. split; [apply Happ|simpl; lia].
  - unfold requested, __down_write, __down_write_nested. rewrite Hne, andb_false_r. exists i. split; [apply Happ|simpl; lia].
  - unfold tried, __down_read_trylock. rewrite Hne, andb_false_r. exists i. split; [exact Hi|simpl; lia].
  - unfold tried, __down_write_trylock. rewrite Hne, andb_false_r. exists i. split; [exact Hi|simpl; lia].
  - exists i. split; [exact Hi|simpl; lia].
  - pose proof (downgrade_handed all Hall c u Hok Hh) as H. rewrite E in H.
    destruct (handed_place _ _ _ _ _ _ H Hnd Hi Ht') as (i'&H1&H2). exists i'. split; [exact H1|]. cbn [granted].
    rewrite map_size_insert_Some in H2 by (destruct Hh; eauto). lia.
  - pose proof (up_read_handed all Hall c u Hok Hh) as H. rewrite E in H.
    destruct (handed_place _ _ _ _ _ _ H Hnd Hi Ht') as (i'&H1&H2). exists i'. split; [exact H1|]. cbn [granted].
    destruct Hh as [Hg _]. pose proof (holder_write all c u Hok Read Hg) as (_&_&Hsz). lia.
  - pose proof (up_write_handed all Hall c u Hok Hh) as H. rewrite E in H.
    destruct (handed_place _ _ _ _ _ _ H Hnd Hi Ht') as (i'&H1&H2). exists i'. split; [exact H1|]. cbn [granted].
    destruct Hh as [Hg _]. pose proof (holder_write all c u Hok Write Hg) as (_&Em). rewrite Em, map_size_singleton, delete_singleton_eq, map_size_empty in *. lia.
Qed.

(** Somebody has the semaphore while a task waits. *)
Lemma waits_granted c t : sem_ok all c -> waits c t -> exists u k, granted c !! u = Some k.
Proof.
  intros Hok Ht. pose proof (ok_head _ _ Hok) as Hh. unfold waits in Ht.
  destruct (wait_list (sem c)) as [|w rest]; [by apply elem_of_nil in Ht|]. destruct Hh as [Ha _].
  destruct (ok_activity _ _ Hok) as [[_ [u E]]|[E _]].
  - exists u, Write. rewrite E. apply lookup_singleton_eq.
  - assert (Hm : granted c <> ∅) by (intros Em; rewrite Em, map_size_empty in E; done).
    apply map_choose in Hm as (u&k&Hk). by exists u, k.
Qed.

Lemma waiting_run_count t n c c' i : sem_ok all c -> place c t i -> waiting_run all t n c c' ->
  exists i', place c' t i' /\ sem_ok all c' /\ (size (granted c') + i' + n = size (granted c) + i)%nat.
Proof.
  intros Hok Hi Hrun. revert i Hok Hi. induction Hrun as [c Ht|b n c c1 c2 Ht Hs Hrun IH]; intros i Hok Hi.
  - exists i. do 2 (split; [done|]). lia.
  - pose proof (step_ok all Hall _ _ _ Hok Hs) as Hok1.
    assert (Ht1 : waits c1 t) by (by destruct Hrun). destruct (step_count _ _ _ _ _ Hok Hs Hi Ht1) as (i1&Hi1&H1).
    destruct (IH i1 Hok1 Hi1) as (i2&Hi2&Hok2&H2). exists i2. do 2 (split; [done|]). lia.
Qed.

(** A task that has the semaphore and runs can give it back. *)
Lemma holder_can_release c t k : sem_ok all c -> holds c t k ->
  (exists s woken, match k with Read => __up_read | Write => __up_write end (sem c) = Some (s, woken)) /\
  exists c', step all true c c'.
Proof.
  intros Hok Hh. destruct k.
  - destruct (up_read_handed all Hall c t Hok Hh) as (s&woken&E&_). split; [by eauto|]. eexists. by eapply s_up_read.
  - destruct (up_write_handed all Hall c t Hok Hh) as (s&woken&E&_). split; [by eauto|]. eexists. by eapply s_up_write.
Qed.

End progress.

(** ** Properties *)

(** C7. In every interleaving of requests, wake-ups, downgrades and releases, a
    writer has the semaphore alone, [activity] is -1 under a writer and else
    counts the readers, and the operations of the tasks that have it succeed:
    [__up_read] may take the first waiter for a writer. *)
Theorem rwsem_excludes all c : Z.of_nat (size all) < 2 ^ 31 -> reachable all c ->
  (forall t t' k, granted c !! t = Some Write -> granted c !! t' = Some k -> t' = t) /\
  (activity (sem c) = -1 /\ (exists t, granted c !! t = Some Write) \/
   activity (sem c) = Z.of_nat (size (granted c)) /\ forall t k, granted c !! t = Some k -> k = Read) /\
  (forall w rest, wait_list (sem c) = w :: rest -> 0 < activity (sem c) -> kind_of w = Write) /\
  (forall t, holds c t Read -> is_Some (__up_read (sem c))) /\
  (forall t, holds c t Write -> is_Some (__up_write (sem c)) /\ is_Some (__downgrade_write (sem c))).
Proof.
  intros Hall Hr. pose proof (reachable_sem_ok all Hall c Hr) as Hok. split; [|split; [|split; [|split]]].
  - intros t t' k Ht Ht'. destruct (holder_write all c t Hok Write Ht) as (_&E). rewrite E in Ht'.
    by apply lookup_singleton_Some in Ht' as [<- _].
  - destruct (ok_activity _ _ Hok) as [[Ha [t E]]|[Ha Hread]]; [left|right; by split].
    split; [done|]. exists t. rewrite E. apply lookup_singleton_eq.
  - intros w rest El. pose proof (ok_head _ _ Hok) as Hh. rewrite El in Hh. by apply Hh.
  - intros t Hh. destruct (holder_can_release all Hall c t Read Hok Hh) as [(s&woken&E) _]. by rewrite E.
  - intros t Hh. destruct (holder_can_release all Hall c t Write Hok Hh) as [(s&woken&E) _]. split; [by rewrite E|].
    destruct (downgrade_handed all Hall c t Hok Hh) as (s'&woken'&E'&_). by rewrite E'.
Qed.

(** C6. No waiter starves and no wake-up is lost: while a task waits somebody
    has the semaphore and, once awake, can release it, and the task gets the
    semaphore before more releases happen than there are tasks that have it or
    wait before it. *)
Theorem rwsem_no_starvation all c t i : Z.of_nat (size all) < 2 ^ 31 -> reachable all c -> place c t i ->
  (exists t' k, granted c !! t' = Some k /\ (t' ∉ asleep c -> exists c', step all true c c')) /\
  forall n c', waiting_run all t n c c' -> (n < size (granted c) + i)%nat.
Proof.
  intros Hall Hr Hi. pose proof (reachable_sem_ok all Hall c Hr) as Hok. split.
  - destruct (waits_granted all c t Hok (place_waits _ _ _ Hi)) as (u&k&Hk). exists u, k. split; [done|].
    intros Hu. by apply (holder_can_release all Hall c u k Hok).
  - intros n c' Hrun. destruct (waiting_run_count all Hall t n c c' i Hok Hi Hrun) as (i'&Hi'&Hok'&Hn).
    destruct (waits_granted all c' t Hok' (place_waits _ _ _ Hi')) as (u&k&Hk).
    assert (size (granted c') <> 0%nat); [|lia]. intros E. apply map_size_empty_inv in E. by rewrite E, lookup_empty in Hk.
Qed.

(** ** Witnesses *)

(** Task 1 writes; task 2 has queued to read. *)
Definition one_task : conf := requested (mk_conf __init_rwsem ∅ ∅) 1 Write (__down_write __init_rwsem 1).
Definition two_tasks : conf := requested one_task 2 Read (__down_read (sem one_task) 2).

Lemma two_tasks_reachable : reachable {[1; 2]} two_tasks.
Proof.
  apply (r_step _ false one_task); [apply (r_step _ false (mk_conf __init_rwsem ∅ ∅)); [apply r_init|]|].
  - apply (s_down_write _ (mk_conf __init_rwsem ∅ ∅) 1); [set_solver|by split].
  - apply (s_down_read _ one_task 2); [set_solver|by split].
Qed.

Lemma rwsem_excludes_witness : granted two_tasks !! 1 = Some Write /\ forall t' k, granted two_tasks !! t' = Some k -> t' = 1.
Proof.
  split; [done|]. intros t' k. apply (rwsem_excludes {[1; 2]} two_tasks); [by vm_compute|apply two_tasks_reachable|done].
Defined.

Lemma rwsem_no_starvation_witness : place two_tasks 2 0 /\ forall n c', waiting_run {[1; 2]} 2 n two_tasks c' -> (n < 1)%nat.
Proof.
  split; [done|]. apply (rwsem_no_starvation {[1; 2]} two_tasks 2 0); [by vm_compute|apply two_tasks_reachable|done].
Defined.
