(* ===== verification/Timer.v ===== *)
(** * The timer wheel (kernel/timer.c, include/linux/timer.h)

    One processor (no CONFIG_SMP): there is one base, and [base->lock] with
    interrupts off makes each operation one function.  A list head is the list of
    the timers on it, identified by their addresses; a vector is indexed by its
    level (0 for tv1) and the slot in it.  The work list of [__run_timers] is a
    part of the state, since a handler may take timers off it. *)

From S2P Require Import Prelude Time.

#[local] Open Scope Z_scope.

Definition TVN_BITS : Z := 6.
Definition TVR_BITS : Z := 8.
Definition TVN_SIZE : Z := Z.shiftl 1 TVN_BITS.
Definition TVR_SIZE : Z := Z.shiftl 1 TVR_BITS.
Definition TVN_MASK : Z := TVN_SIZE - 1.
Definition TVR_MASK : Z := TVR_SIZE - 1.

(** struct timer_list: [linked] says that [entry.next] is not NULL. *)
Record timer_list := mk_timer { expires : Z; linked : bool }.
(** struct tvec_t_base_s, with the timers that use it *)
Record tvec_base := mk_base {
  timer_jiffies : Z;
  vecs : gmap (Z * Z) (list Z);
  work_list : list Z;
  timers : gmap Z timer_list
}.

(** The list at a slot of a vector, empty after init_timers_cpu. *)
Definition vec (b : tvec_base) (p : Z * Z) : list Z := default [] (vecs b !! p).
Definition set_vec (b : tvec_base) (p : Z * Z) (l : list Z) : tvec_base :=
  mk_base (timer_jiffies b) (<[p := l]> (vecs b)) (work_list b) (timers b).
Definition set_timer (b : tvec_base) (t : Z) (tm : timer_list) : tvec_base :=
  mk_base (timer_jiffies b) (vecs b) (work_list b) (<[t := tm]> (timers b)).

(** init_timers_cpu *)
Definition init_timers_cpu (jiffies : Z) : tvec_base := mk_base jiffies ∅ [] ∅.
Definition init_timer (b : tvec_base) (t e : Z) : tvec_base := set_timer b t (mk_timer e false).

Definition timer_pending (b : tvec_base) (t : Z) : option bool := tm ← timers b !! t; Some (linked tm).

(** The slot [internal_add_timer] chooses. *)
Definition slot_for (jiffies expires : Z) : Z * Z :=
  let idx := u32 (expires - jiffies) in
  if idx <? TVR_SIZE then (0, Z.land expires TVR_MASK)
  else if idx <? Z.shiftl 1 (TVR_BITS + TVN_BITS) then (1, Z.land (Z.shiftr expires TVR_BITS) TVN_MASK)
  else if idx <? Z.shiftl 1 (TVR_BITS + 2 * TVN_BITS) then (2, Z.land (Z.shiftr expires (TVR_BITS + TVN_BITS)) TVN_MASK)
  else if idx <? Z.shiftl 1 (TVR_BITS + 3 * TVN_BITS) then (3, Z.land (Z.shiftr expires (TVR_BITS + 2 * TVN_BITS)) TVN_MASK)
  else if s32 idx <? 0 then (0, Z.land jiffies TVR_MASK)
  else
    let '(idx, expires) := if 0xffffffff <? idx then (0xffffffff, u32 (0xffffffff + jiffies)) else (idx, expires) in
    (4, Z.land (Z.shiftr expires (TVR_BITS + 3 * TVN_BITS)) TVN_MASK).

(** [list_add_tail] also sets [entry.next]. *)
Definition internal_add_timer (b : tvec_base) (t : Z) : option tvec_base :=
  tm ← timers b !! t;
  let p := slot_for (timer_jiffies b) (expires tm) in
  Some (set_timer (set_vec b p (vec b p ++ [t])) t (mk_timer (expires tm) true)).

(** Off the list it is on; [entry.next] is cleared on request only. *)
Definition remove (t : Z) (l : list Z) : list Z := filter (fun x => x <> t) l.
Definition detach_timer (b : tvec_base) (t : Z) (clear_pending : bool) : option tvec_base :=
  tm ← timers b !! t;
  Some (mk_base (timer_jiffies b) (remove t <$> vecs b) (remove t (work_list b))
    (<[t := mk_timer (expires tm) (linked tm && negb clear_pending)]> (timers b))).

Definition __mod_timer (b : tvec_base) (t e : Z) : option (tvec_base * Z) :=
  pending ← timer_pending b t;
  '(b, ret) ← (if pending : bool then b ← detach_timer b t false; Some (b, 1) else Some (b, 0));
  tm ← timers b !! t;
  b ← internal_add_timer (set_timer b t (mk_timer e (linked tm))) t;
  Some (b, ret).
Definition mod_timer (b : tvec_base) (t e : Z) : option (tvec_base * Z) :=
  tm ← timers b !! t;
  pending ← timer_pending b t;
  if (expires tm =? e) && pending then Some (b, 1) else __mod_timer b t e.
(** BUG_ON(timer_pending(timer)) is [None]. *)
Definition add_timer (b : tvec_base) (t : Z) : option (tvec_base * Z) :=
  tm ← timers b !! t;
  pending ← timer_pending b t;
  if pending : bool then None else __mod_timer b t (expires tm).
Definition del_timer (b : tvec_base) (t : Z) : option (tvec_base * Z) :=
  pending ← timer_pending b t;
  if pending : bool then b ← detach_timer b t true; Some (b, 1) else Some (b, 0).

Fixpoint add_all (b : tvec_base) (l : list Z) : option tvec_base :=
  match l with [] => Some b | t :: l => b ← internal_add_timer b t; add_all b l end.
Definition cascade (b : tvec_base) (tv index : Z) : option (tvec_base * Z) :=
  let tv_list := vec b (tv, index) in
  b ← add_all (set_vec b (tv, index) []) tv_list;
  Some (b, index).

Definition INDEX (b : tvec_base) (N : Z) : Z :=
  Z.land (Z.shiftr (timer_jiffies b) (TVR_BITS + N * TVN_BITS)) TVN_MASK.
(** The condition with the cascades in it, left to right. *)
Definition cascades (b : tvec_base) (index : Z) : option tvec_base :=
  if negb (index =? 0) then Some b else
  '(b, i) ← cascade b 1 (INDEX b 0);
  if negb (i =? 0) then Some b else
  '(b, i) ← cascade b 2 (INDEX b 1);
  if negb (i =? 0) then Some b else
  '(b, i) ← cascade b 3 (INDEX b 2);
  if negb (i =? 0) then Some b else
  '(b, _) ← cascade b 4 (INDEX b 3);
  Some b.

(** What a handler does with timers. *)
Inductive op := Mod (t e : Z) | Del (t : Z).
Definition run_op (b : tvec_base) (o : op) : option tvec_base :=
  match o with
  | Mod t e => '(b, _) ← mod_timer b t e; Some b
  | Del t => '(b, _) ← del_timer b t; Some b
  end.
Fixpoint run_ops (b : tvec_base) (os : list op) : option tvec_base :=
  match os with [] => Some b | o :: os => b ← run_op b o; run_ops b os end.

Section run.
  (** The handlers: what the one that runs last in a history of runs does; a run
      is a timer with the [timer_jiffies] of its turn. *)
  Context (fn : list (Z * Z) -> list op).

Fixpoint fire_loop (fuel : nat) (now : Z) (b : tvec_base) (h : list (Z * Z)) : option (tvec_base * list (Z * Z)) :=
  match work_list b with
  | [] => Some (b, h)
  | timer :: _ =>
    match fuel with
    | O => None
    | S fuel =>
      b ← detach_timer b timer true;
      b ← run_ops b (fn (h ++ [(timer, now)]));
      fire_loop fuel now b (h ++ [(timer, now)])
    end
  end.

(** One turn of the outer loop. *)
Definition run_turn (b : tvec_base) (h : list (Z * Z)) : option (tvec_base * list (Z * Z)) :=
  let now := timer_jiffies b in
  let index := Z.land now TVR_MASK in
  b ← cascades b index;
  let b := mk_base (u32 (now + 1)) (<[(0, index) := []]> (vecs b)) (vec b (0, index)) (timers b) in
  fire_loop (length (work_list b)) now b h.

Fixpoint __run_timers (fuel : nat) (jiffies : Z) (b : tvec_base) (h : list (Z * Z)) : option (tvec_base * list (Z * Z)) :=
  match fuel with
  | O => None
  | S fuel =>
    if time_after_eq jiffies (timer_jiffies b) then
      '(b, h) ← run_turn b h;
      __run_timers fuel jiffies b h
    else Some (b, h)
  end.

End run.

(** ** Abstract specification: a set of pending timers

    [pend] gives the expiry of each pending timer; [work] has those that the
    current turn still has to run. *)
Record spec := mk_spec { pend : gmap Z Z; work : gset Z }.

Definition spec_op (s : spec) (o : op) : spec :=
  match o with
  | Mod t e => if decide (pend s !! t = Some e) then s else mk_spec (<[t := e]> (pend s)) (work s ∖ {[t]})
  | Del t => mk_spec (delete t (pend s)) (work s ∖ {[t]})
  end.

(** The timers whose expiry is not after [now]. *)
Definition reached (now e : Z) : Prop := s32 (e - now) <= 0.
#[export] Instance reached_dec now e : Decision (reached now e).
Proof. unfold reached. apply _. Defined.
Definition expired (now : Z) (p : gmap Z Z) : gset Z := dom (filter (fun te => reached now te.2) p).

Section spec.
  Context (fn : list (Z * Z) -> list op).

(** The timers of a turn run one after the other, in some order; a handler may
    delete or modify those that have not run. *)
Inductive spec_fire (now : Z) : list (Z * Z) -> spec -> list (Z * Z) -> gmap Z Z -> Prop :=
| fire_end h p : spec_fire now h (mk_spec p ∅) h p
| fire_one h s t h' p' : t ∈ work s ->
    spec_fire now (h ++ [(t, now)])
      (foldl spec_op (mk_spec (delete t (pend s)) (work s ∖ {[t]})) (fn (h ++ [(t, now)]))) h' p' ->
    spec_fire now h s h' p'.

(** One turn for every tick up to [jiffies]. *)
Inductive spec_run (jiffies : Z) : Z -> list (Z * Z) -> gmap Z Z -> list (Z * Z) -> gmap Z Z -> Prop :=
| run_end now h p : time_after_eq jiffies now = false -> spec_run jiffies now h p h p
| run_tick now h p h1 p1 h2 p2 : time_after_eq jiffies now = true ->
    spec_fire now h (mk_spec p (expired now p)) h1 p1 ->
    spec_run jiffies (u32 (now + 1)) h1 p1 h2 p2 -> spec_run jiffies now h p h2 p2.

End spec.

(** The pending timers of the wheel. *)
Definition pending (b : tvec_base) : gmap Z Z := omap (fun tm => if linked tm then Some (expires tm) else None) (timers b).
Definition abstract (b : tvec_base) : spec := mk_spec (pending b) (list_to_set (work_list b)).

(** ** The invariant *)

(** Level [n >= 1] has a slot for [2 ^ shift n] ticks. *)
Definition shift (n : Z) : Z := TVR_BITS + (n - 1) * TVN_BITS.

(** A timer on a slot will be on tv1 in its turn: in the slot of its expiry, or in
    the next one to run when that has passed; or on a higher level in the slot of
    its block of ticks, which has not begun. *)
Definition slot_ok (now e : Z) (p : Z * Z) : Prop :=
  let d := u32 (e - now) in
  (p.1 = 0 /\ (s32 d <= 0 /\ p.2 = now mod TVR_SIZE \/ d < TVR_SIZE /\ p.2 = e mod TVR_SIZE)) \/
  (1 <= p.1 <= 4 /\ p.2 = e / 2 ^ shift p.1 mod TVN_SIZE /\ e mod 2 ^ shift p.1 <= d < 2 ^ 31).
(** ... and does not begin with this tick. *)
Definition slot_ahead (now e : Z) (p : Z * Z) : Prop :=
  slot_ok now e p /\ (1 <= p.1 -> e mod 2 ^ shift p.1 < u32 (e - now)).

(** Every pending timer is on one list; the timers [l] are in the hands of an operation. *)
Record wheel (b : tvec_base) (l : list Z) : Prop := {
  w_now : is_u32 (timer_jiffies b);
  w_expires : forall t tm, timers b !! t = Some tm -> is_u32 (expires tm);
  w_slot : forall t p, t ∈ vec b p ->
    exists tm, timers b !! t = Some tm /\ linked tm = true /\ slot_ok (timer_jiffies b) (expires tm) p;
  w_free : forall t, t ∈ work_list b ++ l -> exists tm, timers b !! t = Some tm /\ linked tm = true;
  w_linked : forall t tm, timers b !! t = Some tm -> linked tm = true -> (exists p, t ∈ vec b p) \/ t ∈ work_list b ++ l;
  w_nodup : forall p, NoDup (vec b p);
  w_unique : forall t p q, t ∈ vec b p -> t ∈ vec b q -> p = q;
  w_nodup_free : NoDup (work_list b ++ l);
  w_apart : forall t p, t ∈ vec b p -> t ∉ work_list b ++ l
}.
(** Between the calls. *)
Definition wheel_ok (b : tvec_base) : Prop := wheel b [] /\ work_list b = [].

(** ** Slots *)

Lemma land_ones_mod a n : 0 <= n -> Z.land a (Z.shiftl 1 n - 1) = a mod 2 ^ n.
Proof. intros Hn. rewrite Z.shiftl_1_l, <- Z.land_ones by done. f_equal. rewrite Z.ones_equiv. lia. Qed.

Lemma land_tvn a : Z.land a TVN_MASK = a mod TVN_SIZE.
Proof. unfold TVN_MASK, TVN_SIZE. rewrite land_ones_mod by done. by rewrite Z.shiftl_1_l. Qed.

Lemma land_tvr a : Z.land a TVR_MASK = a mod TVR_SIZE.
Proof. unfold TVR_MASK, TVR_SIZE. rewrite land_ones_mod by done. by rewrite Z.shiftl_1_l. Qed.

Lemma shift_pos n : 1 <= n -> 0 <= shift n.
Proof. unfold shift, TVR_BITS, TVN_BITS. lia. Qed.

Lemma block_range e n : 1 <= n -> 0 <= e mod 2 ^ shift n < 2 ^ shift n.
Proof. intros Hn. apply Z.mod_pos_bound, Z.pow_pos_nonneg; [done|by apply shift_pos]. Qed.

Lemma level_ahead now e n : 1 <= n <= 4 -> 2 ^ shift n <= u32 (e - now) < 2 ^ 31 ->
  slot_ahead now e (n, Z.land (Z.shiftr e (shift n)) TVN_MASK).
Proof.
  intros Hn Hd. pose proof (block_range e n ltac:(lia)) as Hr. rewrite land_tvn, Z.shiftr_div_pow2 by (apply shift_pos; lia).
  split; [right; cbn [fst snd]; do 2 (split; [done|]); lia|cbn [fst]; lia].
Qed.

Lemma slot_for_ahead now e : is_u32 now -> is_u32 e -> slot_ahead now e (slot_for now e).
Proof.
  intros Hn He. pose proof (u32_range (e - now)) as Hd. unfold slot_for. cbv zeta.
  change (Z.shiftl 1 (TVR_BITS + TVN_BITS)) with (2 ^ shift 2). change (Z.shiftl 1 (TVR_BITS + 2 * TVN_BITS)) with (2 ^ shift 3).
  change (Z.shiftl 1 (TVR_BITS + 3 * TVN_BITS)) with (2 ^ shift 4). change TVR_SIZE with (2 ^ shift 1).
  change (TVR_BITS + TVN_BITS) with (shift 2). change (TVR_BITS + 2 * TVN_BITS) with (shift 3). change (TVR_BITS + 3 * TVN_BITS) with (shift 4).
  change TVR_BITS with (shift 1).
  destruct (Z.ltb_spec (u32 (e - now)) (2 ^ shift 1)) as [H1|H1].
  { rewrite land_tvr. split; [left; split; [done|right; split; [exact H1|done]]|cbn [fst]; lia]. }
  destruct (Z.ltb_spec (u32 (e - now)) (2 ^ shift 2)) as [H2|H2]; [apply level_ahead; [lia|split; [done|]]; change (2 ^ shift 2) with 16384 in H2; lia|].
  destruct (Z.ltb_spec (u32 (e - now)) (2 ^ shift 3)) as [H3|H3]; [apply level_ahead; [lia|split; [done|]]; change (2 ^ shift 3) with 1048576 in H3; lia|].
  destruct (Z.ltb_spec (u32 (e - now)) (2 ^ shift 4)) as [H4|H4]; [apply level_ahead; [lia|split; [done|]]; change (2 ^ shift 4) with 67108864 in H4; lia|].
  destruct (Z.ltb_spec (s32 (u32 (e - now))) 0) as [H5|H5].
  { rewrite land_tvr. split; [left; split; [done|left; split; [lia|done]]|cbn [fst]; lia]. }
  destruct (Z.ltb_spec 0xffffffff (u32 (e - now))) as [H6|H6]; [unfold is_u32 in Hd; lia|].
  apply level_ahead; [lia|]. split; [done|]. revert H5 Hd. clear. unfold is_u32. word_lia.
Qed.

Lemma small_distance d : 0 <= d < 2 ^ 31 -> s32 d <= 0 -> d = 0.
Proof. word_lia. Qed.

(** What a turn sees of a timer on a slot. *)
Section turn.
  Context (now e : Z) (Hnow : is_u32 now) (He : is_u32 e).

Lemma reached_distance : reached now e <-> s32 (u32 (e - now)) <= 0.
Proof. unfold reached. assert (s32 (u32 (e - now)) = s32 (e - now)) as -> by word_lia. done. Qed.

Lemma distance_0 : u32 (e - now) = 0 -> e = now.
Proof. unfold is_u32 in *. word_lia. Qed.

Lemma slot_reached p : slot_ahead now e p -> reached now e <-> p = (0, now mod TVR_SIZE).
Proof.
  destruct p as [n i]. intros [Hs Ha]. rewrite reached_distance. unfold slot_ok in Hs. cbn [fst snd] in *. pose proof (u32_range (e - now)) as Hd. unfold is_u32 in Hd. split.
  - intros Hr. destruct Hs as [[-> [[_ ->]|[Hd' ->]]]|(Hn&_&Hd')]; [done| |].
    + apply small_distance, distance_0 in Hr; [by subst e|]. change TVR_SIZE with 256 in Hd'. lia.
    + cbn [fst] in *. specialize (Ha ltac:(lia)). apply small_distance in Hr; [|lia]. pose proof (block_range e n ltac:(lia)). lia.
  - intros E. injection E as -> ->. destruct Hs as [[_ [[? _]|[Hd' E]]]|(Hn&_)]; [done| |cbn in Hn; lia].
    cbn [snd] in E. assert (u32 (e - now) = 0) as ->; [|by vm_compute].
    change TVR_SIZE with 256 in *. clear Ha. unfold is_u32 in *. word_lia.
Qed.

(** After the turn. *)
Lemma slot_next p : slot_ahead now e p -> p <> (0, now mod TVR_SIZE) -> slot_ok (u32 (now + 1)) e p.
Proof.
  destruct p as [n i]. intros [Hs Ha] Hp. unfold slot_ok in Hs |- *. cbn [fst snd] in *. pose proof (u32_range (e - now)) as Hd. unfold is_u32 in Hd.
  assert (Hnz : u32 (e - now) <> 0 -> u32 (e - u32 (now + 1)) = u32 (e - now) - 1) by (unfold is_u32 in *; clear - Hnow He; word_lia).
  destruct Hs as [[-> [[_ E]|[Hd' ->]]]|(Hn&E&Hd')]; cbn [fst snd] in *.
  - by destruct Hp; rewrite E.
  - left. split; [done|]. right. split; [|done]. rewrite Hnz; [lia|]. intros E. apply Hp. f_equal. by rewrite (distance_0 E).
  - right. split; [done|]. split; [done|]. specialize (Ha ltac:(lia)). pose proof (block_range e n ltac:(lia)). cbn [fst]. rewrite Hnz; lia.
Qed.

(** A block that begins with this tick: its slot is the current one of its level. *)
Lemma block_begins n : 1 <= n <= 4 -> e mod 2 ^ shift n = u32 (e - now) -> u32 (e - now) < 2 ^ 31 ->
  now mod 2 ^ shift n = 0 /\ e / 2 ^ shift n mod TVN_SIZE = Z.land (Z.shiftr now (shift n)) TVN_MASK.
Proof.
  intros Hn E Hd. pose proof (block_range e n ltac:(lia)) as Hr. assert (Hs : 0 <= shift n) by (apply shift_pos; lia).
  assert (Hnow' : now = 2 ^ shift n * (e / 2 ^ shift n)).
  { pose proof (Z.div_mod e (2 ^ shift n) ltac:(lia)) as Hdm. assert (e mod 2 ^ shift n <= e) by (apply Z.mod_le; unfold is_u32 in He; lia).
    assert (now = e - u32 (e - now)) by (unfold is_u32 in *; clear - Hnow He H E; word_lia). lia. }
  rewrite land_tvn, Z.shiftr_div_pow2 by done. split.
  - rewrite Hnow', Z.mul_comm. apply Z.mod_mul. lia.
  - f_equal. rewrite Hnow' at 1. rewrite Z.mul_comm, Z.div_mul by lia. done.
Qed.

(** The current slots of the levels below are then the first ones. *)
Lemma lower_index n m : 1 <= m < n -> now mod 2 ^ shift n = 0 -> Z.land (Z.shiftr now (shift m)) TVN_MASK = 0 /\ Z.land now TVR_MASK = 0.
Proof.
  intros Hm E. assert (Hs : 0 <= shift m) by (apply shift_pos; lia).
  rewrite land_tvn, land_tvr, Z.shiftr_div_pow2 by done. apply Z.mod_divide in E as [q Hq]; [|pose proof (block_range 0 n); lia].
  assert (E : shift n = shift m + 6 + 6 * (n - m - 1)) by (unfold shift, TVN_BITS; lia).
  rewrite E, Z.pow_add_r, Z.pow_add_r in Hq by lia. split.
  - replace now with ((q * 2 ^ (6 * (n - m - 1)) * TVN_SIZE) * 2 ^ shift m) by (rewrite Hq; change TVN_SIZE with (2 ^ 6); lia).
    rewrite Z.div_mul by (apply Z.pow_nonzero; lia). by rewrite Z.mod_mul.
  - replace now with ((q * 2 ^ (6 * (n - m - 1)) * 2 ^ 6 * 2 ^ (6 * (m - 1))) * TVR_SIZE).
    + by rewrite Z.mod_mul.
    + rewrite Hq. assert (E' : shift m = 6 * (m - 1) + 8) by (unfold shift, TVR_BITS, TVN_BITS; lia).
      rewrite E', (Z.pow_add_r 2 (6 * (m - 1))) by lia. change TVR_SIZE with (2 ^ 8). lia.
Qed.

End turn.

(** ** Lists of the wheel *)

Lemma vec_set_vec b p l q : vec (set_vec b p l) q = if decide (q = p) then l else vec b q.
Proof.
  unfold vec, set_vec. simpl. destruct (decide (q = p)) as [->|Hne]; [by rewrite lookup_insert_eq|].
  by rewrite lookup_insert_ne by done.
Qed.

Lemma elem_of_remove t x l : x ∈ remove t l <-> x <> t /\ x ∈ l.
Proof. unfold remove. rewrite list_elem_of_filter. done. Qed.

Lemma remove_id t l : t ∉ l -> remove t l = l.
Proof.
  unfold remove. induction l as [|x l IH]; intros Ht; [done|]. apply not_elem_of_cons in Ht as [Hx Ht].
  rewrite filter_cons_True by done. by rewrite IH.
Qed.

Lemma remove_length t l : (length (remove t l) <= length l)%nat.
Proof. apply length_filter. Qed.

Lemma NoDup_remove t l : NoDup l -> NoDup (remove t l).
Proof. apply NoDup_filter. Qed.

Lemma remove_app t l k : remove t (l ++ k) = remove t l ++ remove t k.
Proof. apply filter_app. Qed.

Lemma linked_pending b t e : pending b !! t = Some e <-> exists tm, timers b !! t = Some tm /\ linked tm = true /\ expires tm = e.
Proof.
  unfold pending. rewrite lookup_omap_Some. split.
  - intros (tm&H&Ht). destruct (linked tm) eqn:E; [|done]. injection H as <-. by exists tm.
  - intros (tm&Ht&E&<-). exists tm. by rewrite E.
Qed.

Lemma pending_set b t tm : pending (set_timer b t tm) =
  if linked tm then <[t := expires tm]> (pending b) else delete t (pending b).
Proof.
  unfold pending, set_timer. simpl. destruct (linked tm) eqn:E.
  - apply (omap_insert_Some (fun tm => if linked tm then Some (expires tm) else None)). by rewrite E.
  - apply (omap_insert_None (fun tm => if linked tm then Some (expires tm) else None)). by rewrite E.
Qed.

(** ** Adding and detaching *)

(** [t], in hand, goes to the end of a slot. *)
Lemma add_wheel b t l tm p : wheel b (t :: l) -> timers b !! t = Some tm -> slot_ok (timer_jiffies b) (expires tm) p ->
  wheel (set_vec b p (vec b p ++ [t])) l.
Proof.
  intros [Hn He Hs Hf Hl Hd Hu Hfd Ha] Htm Hp.
  assert (Ht : t ∈ work_list b ++ t :: l) by (apply elem_of_app; right; by left).
  assert (Hold : forall q, t ∉ vec b q) by (intros q Hq; by apply (Ha t q)).
  destruct (Hf t Ht) as (tm'&Htm'&Hlk). assert (tm' = tm) as -> by congruence.
  assert (Hv : forall x q, x ∈ vec (set_vec b p (vec b p ++ [t])) q <-> x ∈ vec b q \/ x = t /\ q = p).
  { intros x q. rewrite vec_set_vec. destruct (decide (q = p)) as [->|]; [rewrite elem_of_app, list_elem_of_singleton; tauto|tauto]. }
  assert (Hw : forall x, x ∈ work_list b ++ l -> x ∈ work_list b ++ t :: l) by (intros x; rewrite !elem_of_app, elem_of_cons; tauto).
  rewrite <- Permutation_middle in Hfd. apply NoDup_cons in Hfd as [Htl Hfd].
  split; simpl; [done|done| | | | | |done|].
  - intros x q [Hx|[-> ->]]%Hv; [by apply Hs|]. by exists tm.
  - intros x Hx. by apply Hf, Hw.
  - intros x tmx Hx Hlx. destruct (Hl x tmx Hx Hlx) as [[q Hq]|Hq].
    + left. exists q. apply Hv. by left.
    + rewrite elem_of_app, elem_of_cons in Hq. destruct Hq as [Hq|[->|Hq]]; [right|left; exists p; apply Hv; by right|right]; apply elem_of_app; auto.
  - intros q. rewrite vec_set_vec. destruct (decide (q = p)) as [->|]; [|done]. apply NoDup_app. split; [done|].
    split; [|apply NoDup_singleton]. intros x Hx ->%list_elem_of_singleton. by apply (Hold p).
  - intros x q q' [Hq|[-> ->]]%Hv [Hq'|[? ?]]%Hv; [by eapply Hu|subst|..]; [by apply Hold in Hq|by apply Hold in Hq'|by subst].
  - intros x q [Hq|[-> ->]]%Hv; [|done]. intros Hx%Hw. by apply (Ha x q).
Qed.

(** [t] off its list, still counted as pending: in hand. *)
Definition off (b : tvec_base) (t : Z) : tvec_base :=
  mk_base (timer_jiffies b) (remove t <$> vecs b) (remove t (work_list b)) (timers b).

Lemma vec_off b t p : vec (off b t) p = remove t (vec b p).
Proof. unfold vec, off. simpl. rewrite lookup_fmap. by destruct (vecs b !! p). Qed.

Lemma off_wheel b t l tm : wheel b l -> timers b !! t = Some tm -> linked tm = true -> t ∉ l -> wheel (off b t) (t :: l).
Proof.
  intros [Hn He Hs Hf Hl Hd Hu Hfd Ha] Htm Hlk Htl.
  assert (Hv : forall x q, x ∈ vec (off b t) q <-> x <> t /\ x ∈ vec b q) by (intros; by rewrite vec_off, elem_of_remove).
  assert (Hw : forall x, x ∈ remove t (work_list b) ++ t :: l <-> x = t \/ (x <> t /\ x ∈ work_list b ++ l)).
  { intros x. rewrite !elem_of_app, elem_of_cons, elem_of_remove. split; [|tauto].
    intros [?|[?|Hx]]; [tauto|tauto|]. destruct (decide (x = t)); tauto. }
  split; cbn [off timer_jiffies work_list timers]; [done|done| | | | | | |].
  - intros x q [_ Hx]%Hv. by apply Hs.
  - intros x [->|[_ Hx]]%Hw; [by exists tm|by apply Hf].
  - intros x tmx Hx Hlx. destruct (decide (x = t)) as [->|Hne]; [right; apply Hw; by left|].
    destruct (Hl x tmx Hx Hlx) as [[q Hq]|Hq]; [left; exists q; by apply Hv|right; apply Hw; by right].
  - intros q. rewrite vec_off. by apply NoDup_remove.
  - intros x q q' [_ Hq]%Hv [_ Hq']%Hv. by eapply Hu.
  - rewrite <- Permutation_middle. rewrite <- (remove_id t l) by done. rewrite <- remove_app. apply NoDup_cons.
    split; [|by apply NoDup_remove]. by intros [? _]%elem_of_remove.
  - intros x q [Hne Hq]%Hv [->|[_ Hx]]%Hw; [done|]. by apply (Ha x q).
Qed.

(** The record of a timer in hand may change; unlinked, it leaves the hands. *)
Lemma set_wheel b t l tm : wheel b (t :: l) -> is_u32 (expires tm) ->
  wheel (set_timer b t tm) (if linked tm then t :: l else l).
Proof.
  intros [Hn He Hs Hf Hl Hd Hu Hfd Ha] Hx.
  assert (Ht : t ∈ work_list b ++ t :: l) by (apply elem_of_app; right; by left).
  assert (Hne : forall x q, x ∈ vec b q -> x <> t) by (intros x q Hq ->; by apply (Ha t q)).
  assert (Hfd' := Hfd). rewrite <- Permutation_middle in Hfd'. apply NoDup_cons in Hfd' as [Htl Hfd'].
  assert (Hin : forall x, x ∈ work_list b ++ (if linked tm then t :: l else l) -> x ∈ work_list b ++ t :: l)
    by (intros x; destruct (linked tm); rewrite !elem_of_app, ?elem_of_cons; tauto).
  split; cbn [set_timer timer_jiffies work_list timers].
  - done.
  - intros x tmx. destruct (decide (x = t)) as [->|]; [rewrite lookup_insert_eq; by intros [= <-]|].
    rewrite lookup_insert_ne by done. apply He.
  - intros x q Hq. change (x ∈ vec b q) in Hq. rewrite lookup_insert_ne by (intros <-; by apply (Hne t q)). by apply Hs.
  - intros x Hx'. destruct (decide (x = t)) as [->|Hxt].
    + rewrite lookup_insert_eq. exists tm. split; [done|]. destruct (linked tm); done.
    + rewrite lookup_insert_ne by done. by apply Hf, Hin.
  - intros x tmx. destruct (decide (x = t)) as [->|Hxt].
    + rewrite lookup_insert_eq. intros [= <-] ->. right. apply elem_of_app. right. by left.
    + rewrite lookup_insert_ne by done. intros Hx' Hlx. destruct (Hl x tmx Hx' Hlx) as [[q Hq]|Hq]; [left; by exists q|right].
      rewrite !elem_of_app, ?elem_of_cons in *. destruct (linked tm); rewrite ?elem_of_cons; tauto.
  - exact Hd.
  - exact Hu.
  - by destruct (linked tm).
  - intros x q Hq Hx'%Hin. by apply (Ha x q).
Qed.

(** An idle timer is taken in hand. *)
Lemma take_wheel b t l tm e : wheel b l -> timers b !! t = Some tm -> linked tm = false -> is_u32 e ->
  wheel (set_timer b t (mk_timer e true)) (t :: l).
Proof.
  intros [Hn He Hs Hf Hl Hd Hu Hfd Ha] Htm Hlk Hx.
  assert (Hv : forall q, t ∉ vec b q) by (intros q Hq; destruct (Hs t q Hq) as (tm'&?&?&_); congruence).
  assert (Hw : t ∉ work_list b ++ l) by (intros Hq; destruct (Hf t Hq) as (tm'&?&?); congruence).
  assert (Hin : forall x, x ∈ work_list b ++ t :: l <-> x = t \/ x ∈ work_list b ++ l)
    by (intros x; rewrite !elem_of_app, elem_of_cons; tauto).
  split; cbn [set_timer timer_jiffies work_list timers].
  - done.
  - intros x tmx. destruct (decide (x = t)) as [->|]; [rewrite lookup_insert_eq; by intros [= <-]|].
    rewrite lookup_insert_ne by done. apply He.
  - intros x q Hq. change (x ∈ vec b q) in Hq. rewrite lookup_insert_ne by (intros <-; by apply (Hv q)). by apply Hs.
  - intros x [->|Hq]%Hin; [rewrite lookup_insert_eq; by eexists|]. rewrite lookup_insert_ne by (intros <-; done). by apply Hf.
  - intros x tmx. destruct (decide (x = t)) as [->|Hxt]; [intros _ _; right; apply Hin; by left|].
    rewrite lookup_insert_ne by done. intros Hx' Hlx. destruct (Hl x tmx Hx' Hlx) as [[q Hq]|Hq]; [left; by exists q|right; apply Hin; by right].
  - exact Hd.
  - exact Hu.
  - rewrite <- Permutation_middle. by apply NoDup_cons.
  - intros x q Hq [->|Hx']%Hin; [by apply (Hv q)|by apply (Ha x q)].
Qed.

(** Initialisation: an empty wheel, and a timer that is idle on it. *)
Lemma init_timers_ok jiffies : is_u32 jiffies -> wheel_ok (init_timers_cpu jiffies).
Proof.
  intros Hj. split; [|done]. assert (Hv : forall p, vec (init_timers_cpu jiffies) p = []) by (intros p; unfold vec; simpl; by rewrite lookup_empty).
  split; cbn [init_timers_cpu timer_jiffies work_list timers app].
  - done.
  - intros t tm H. by rewrite lookup_empty in H.
  - intros t p H. rewrite Hv in H. by apply elem_of_nil in H.
  - intros t H. by apply elem_of_nil in H.
  - intros t tm H. by rewrite lookup_empty in H.
  - intros p. rewrite Hv. apply NoDup_nil_2.
  - intros t p q H. rewrite Hv in H. by apply elem_of_nil in H.
  - apply NoDup_nil_2.
  - intros t p H. rewrite Hv in H. by apply elem_of_nil in H.
Qed.

Lemma init_timer_ok b t e : wheel_ok b -> is_u32 e -> timers b !! t = None -> wheel_ok (init_timer b t e).
Proof.
  intros [[Hn He Hs Hf Hl Hd Hu Hfd Ha] Hwork] Hx Ht. split; [|done].
  assert (Hne : forall x tm, timers b !! x = Some tm -> x <> t) by (intros x tm Hx' ->; congruence).
  split; cbn [init_timer set_timer timer_jiffies work_list timers]; [done| | | | |done|done|done|done].
  - intros x tmx. destruct (decide (x = t)) as [->|]; [rewrite lookup_insert_eq; by intros [= <-]|].
    rewrite lookup_insert_ne by done. apply He.
  - intros x q Hq. destruct (Hs x q Hq) as (tm&Htm&H). exists tm. by rewrite lookup_insert_ne by (intros <-; by apply (Hne t tm)).
  - intros x Hq. destruct (Hf x Hq) as (tm&Htm&H). exists tm. by rewrite lookup_insert_ne by (intros <-; by apply (Hne t tm)).
  - intros x tmx. destruct (decide (x = t)) as [->|]; [rewrite lookup_insert_eq; by intros [= <-]|].
    rewrite lookup_insert_ne by done. apply Hl.
Qed.

Lemma internal_add_unlinked b t e lk :
  internal_add_timer (set_timer b t (mk_timer e lk)) t = internal_add_timer (set_timer b t (mk_timer e true)) t.
Proof.
  unfold internal_add_timer, set_timer, set_vec. cbn [timers timer_jiffies vecs work_list].
  by rewrite !lookup_insert_eq, !some_bind, !insert_insert_eq.
Qed.

Lemma internal_add_spec b t l tm : wheel b (t :: l) -> timers b !! t = Some tm ->
  exists b', internal_add_timer b t = Some b' /\ wheel b' l /\ timers b' = timers b /\
    timer_jiffies b' = timer_jiffies b /\ work_list b' = work_list b /\
    forall x q, x ∈ vec b' q <-> x ∈ vec b q \/ x = t /\ q = slot_for (timer_jiffies b) (expires tm).
Proof.
  intros Hw Htm. destruct (w_free _ _ Hw t) as (tm'&E&Hlk); [apply elem_of_app; right; by left|].
  assert (tm' = tm) as -> by congruence. unfold internal_add_timer. rewrite Htm, some_bind. eexists. split; [done|].
  set (p := slot_for _ _).
  assert (Hp : slot_ok (timer_jiffies b) (expires tm) p) by (apply slot_for_ahead; [apply Hw|by apply (w_expires _ _ Hw t)]).
  assert (Hid : <[t := mk_timer (expires tm) true]> (timers b) = timers b) by (apply insert_id; rewrite Htm; destruct tm; simpl in *; by subst).
  unfold set_timer. cbn [set_vec timer_jiffies vecs work_list timers]. rewrite Hid.
  split; [by apply (add_wheel b t l tm p)|]. do 3 (split; [done|]).
  intros x q. pose proof (vec_set_vec b p (vec b p ++ [t]) q) as Hv. unfold set_vec in Hv. rewrite Hv.
  destruct (decide (q = p)) as [->|]; [rewrite elem_of_app, list_elem_of_singleton; tauto|tauto].
Qed.

Lemma detach_off b t tm clear : timers b !! t = Some tm ->
  detach_timer b t clear = Some (set_timer (off b t) t (mk_timer (expires tm) (linked tm && negb clear))).
Proof. intros Htm. unfold detach_timer. by rewrite Htm, some_bind. Qed.

Lemma pending_off b t : pending (off b t) = pending b.
Proof. done. Qed.

(** ** The operations *)

(** What an operation keeps. *)
Definition same_frame (b b' : tvec_base) : Prop := timer_jiffies b' = timer_jiffies b /\ dom (timers b') = dom (timers b).

Lemma set_dom b t tm tm' : timers b !! t = Some tm -> dom (timers (set_timer b t tm')) = dom (timers b).
Proof. intros Ht. simpl. apply dom_insert_lookup_L. by rewrite Ht. Qed.

Lemma __mod_timer_spec b t tm e : wheel b [] -> timers b !! t = Some tm -> is_u32 e ->
  exists b', __mod_timer b t e = Some (b', if linked tm then 1 else 0) /\ wheel b' [] /\ same_frame b b' /\
    pending b' = <[t := e]> (pending b) /\ work_list b' = remove t (work_list b).
Proof.
  intros Hw Htm He. unfold __mod_timer, timer_pending. rewrite Htm, !some_bind. destruct (linked tm) eqn:Hlk.
  - rewrite (detach_off _ _ _ _ Htm), !some_bind. cbn [set_timer timers]. rewrite lookup_insert_eq, some_bind.
    rewrite internal_add_unlinked. unfold set_timer at 1. cbn [set_timer timer_jiffies vecs work_list timers]. rewrite insert_insert_eq.
    change (mk_base _ _ _ _) with (set_timer (off b t) t (mk_timer e true)).
    assert (H1 := off_wheel b t [] tm Hw Htm Hlk ltac:(apply not_elem_of_nil)).
    apply (set_wheel _ _ _ (mk_timer e true)) in H1; [|done]. cbn [linked] in H1.
    destruct (internal_add_spec _ _ _ (mk_timer e true) H1) as (b'&E&Hw'&Ht'&Hj'&Hl'&_); [apply lookup_insert_eq|].
    exists b'. rewrite E, some_bind. split; [done|]. split; [done|]. split; [split; [done|]|split; [|done]].
    + rewrite Ht'. by apply (set_dom (off b t) t tm).
    + unfold pending at 1. rewrite Ht'. exact (pending_set (off b t) t (mk_timer e true)).
  - rewrite some_bind, Htm, some_bind, internal_add_unlinked.
    assert (H1 := take_wheel b t [] tm e Hw Htm Hlk He).
    destruct (internal_add_spec _ _ _ (mk_timer e true) H1) as (b'&E&Hw'&Ht'&Hj'&Hl'&_); [apply lookup_insert_eq|].
    exists b'. rewrite E, some_bind. split; [done|]. split; [done|]. split; [split; [done|]|split].
    + rewrite Ht'. by apply (set_dom b t tm).
    + unfold pending at 1. rewrite Ht'. exact (pending_set b t (mk_timer e true)).
    + rewrite Hl'. cbn. symmetry. apply remove_id. intros Hin.
      destruct (w_free _ _ Hw t) as (tm'&?&?); [apply elem_of_app; by left|]. congruence.
Qed.

Lemma detach_clear_spec b t tm : wheel b [] -> timers b !! t = Some tm -> linked tm = true ->
  exists b', detach_timer b t true = Some b' /\ wheel b' [] /\ same_frame b b' /\
    pending b' = delete t (pending b) /\ work_list b' = remove t (work_list b).
Proof.
  intros Hw Htm Hlk. rewrite (detach_off _ _ _ _ Htm). eexists. split; [done|].
  assert (H1 := off_wheel b t [] tm Hw Htm Hlk ltac:(apply not_elem_of_nil)).
  rewrite andb_false_r. apply (set_wheel _ _ _ (mk_timer (expires tm) false)) in H1; [|exact (w_expires _ _ Hw t tm Htm)].
  split; [exact H1|]. split; [split; [done|by apply (set_dom (off b t) t tm)]|]. split; [|done].
  exact (pending_set (off b t) t (mk_timer (expires tm) false)).
Qed.

Lemma unlinked_pending b t tm : timers b !! t = Some tm -> pending b !! t = if linked tm then Some (expires tm) else None.
Proof. intros Ht. unfold pending. by rewrite lookup_omap, Ht. Qed.

Definition op_ok (d : gset Z) (o : op) : Prop := match o with Mod t e => t ∈ d /\ is_u32 e | Del t => t ∈ d end.

Lemma remove_set t l : list_to_set (remove t l) = (list_to_set l : gset Z) ∖ {[t]}.
Proof. apply set_eq. intros x. rewrite elem_of_list_to_set, elem_of_remove, elem_of_difference, elem_of_list_to_set, elem_of_singleton. tauto. Qed.

Lemma run_op_spec b o : wheel b [] -> op_ok (dom (timers b)) o ->
  exists b', run_op b o = Some b' /\ wheel b' [] /\ same_frame b b' /\ abstract b' = spec_op (abstract b) o /\
    (length (work_list b') <= length (work_list b))%nat.
Proof.
  intros Hw Ho. destruct o as [t e|t]; cbn [run_op op_ok] in *.
  - destruct Ho as [[tm Htm]%elem_of_dom He]. unfold mod_timer, timer_pending. rewrite Htm, !some_bind.
    cbn [spec_op abstract pend work]. rewrite (unlinked_pending _ _ _ Htm).
    destruct ((expires tm =? e) && linked tm) eqn:Eq.
    + apply andb_prop in Eq as [Eq Hlk]. apply Z.eqb_eq in Eq. rewrite Hlk. destruct (decide _) as [_|Hn]; [|by destruct Hn; rewrite Eq].
      exists b. by rewrite some_bind.
    + destruct (__mod_timer_spec b t tm e Hw Htm He) as (b'&->&Hw'&Hf&Hp&Hl). rewrite some_bind. exists b'.
      split; [done|]. split; [done|]. split; [done|]. destruct (decide _) as [Hy|_].
      { destruct (linked tm); [|done]. injection Hy as <-. by rewrite Z.eqb_refl in Eq. }
      unfold abstract. rewrite Hp, Hl, remove_set. split; [done|]. apply remove_length.
  - apply elem_of_dom in Ho as [tm Htm]. unfold del_timer, timer_pending. rewrite Htm, !some_bind.
    destruct (linked tm) eqn:Hlk.
    + destruct (detach_clear_spec b t tm Hw Htm Hlk) as (b'&->&Hw'&Hf&Hp&Hl). rewrite !some_bind. exists b'.
      split; [done|]. split; [done|]. split; [done|]. unfold abstract. rewrite Hp, Hl, remove_set. split; [done|]. apply remove_length.
    + rewrite some_bind. exists b. do 3 (split; [done|]). split; [|done]. unfold abstract. cbn [spec_op pend work].
      rewrite delete_id by (rewrite (unlinked_pending _ _ _ Htm), Hlk; done). f_equal.
      rewrite <- remove_set, remove_id; [done|]. intros Hin. destruct (w_free _ _ Hw t) as (tm'&?&?); [apply elem_of_app; by left|]. congruence.
Qed.

Lemma run_ops_spec os : forall b, wheel b [] -> Forall (op_ok (dom (timers b))) os ->
  exists b', run_ops b os = Some b' /\ wheel b' [] /\ same_frame b b' /\ abstract b' = foldl spec_op (abstract b) os /\
    (length (work_list b') <= length (work_list b))%nat.
Proof.
  induction os as [|o os IH]; intros b Hw Hos; [by exists b|]. apply Forall_cons in Hos as [Ho Hos]. cbn [run_ops foldl].
  destruct (run_op_spec b o Hw Ho) as (b1&->&Hw1&[Hj1 Hd1]&Ha1&Hl1). rewrite some_bind, <- Ha1.
  destruct (IH b1 Hw1) as (b2&E&Hw2&[Hj2 Hd2]&Ha2&Hl2); [by rewrite Hd1|]. exists b2. split; [done|]. split; [done|].
  split; [split; congruence|]. split; [done|lia].
Qed.

(** ** Cascading *)

(** All the timers of a slot are taken in hand. *)
Lemma grab_wheel b p : wheel b [] -> wheel (set_vec b p []) (vec b p).
Proof.
  intros [Hn He Hs Hf Hl Hd Hu Hfd Ha]. rewrite app_nil_r in *.
  assert (Hv : forall x q, x ∈ vec (set_vec b p []) q <-> x ∈ vec b q /\ q <> p).
  { intros x q. rewrite vec_set_vec. destruct (decide (q = p)); [|tauto]. pose proof (not_elem_of_nil x). tauto. }
  split; cbn [set_vec timer_jiffies work_list timers]; [done|done| | | | | | |].
  - intros x q [Hq _]%Hv. by apply Hs.
  - intros x [Hx|Hx]%elem_of_app; [by apply Hf|]. destruct (Hs x p Hx) as (tm&?&?&_). by exists tm.
  - intros x tmx Hx Hlx. rewrite elem_of_app. destruct (Hl x tmx Hx Hlx) as [[q Hq]|Hq]; [|by auto].
    destruct (decide (q = p)) as [->|]; [by auto|]. left. exists q. by apply Hv.
  - intros q. rewrite vec_set_vec. destruct (decide (q = p)); [apply NoDup_nil_2|done].
  - intros x q q' [Hq _]%Hv [Hq' _]%Hv. by eapply Hu.
  - apply NoDup_app. split; [done|]. split; [|done]. intros x Hx Hx'. by apply (Ha x p).
  - intros x q [Hq Hne]%Hv [Hx|Hx]%elem_of_app; [by apply (Ha x q)|]. by apply Hne, (Hu x).
Qed.

Lemma add_all_spec l : forall b, wheel b l ->
  exists b', add_all b l = Some b' /\ wheel b' [] /\ timers b' = timers b /\ timer_jiffies b' = timer_jiffies b /\
    work_list b' = work_list b /\
    forall x q, x ∈ vec b' q ->
      x ∈ vec b q \/ exists tm, timers b !! x = Some tm /\ q = slot_for (timer_jiffies b) (expires tm).
Proof.
  induction l as [|t l IH]; intros b Hw; [exists b; do 5 (split; [done|]); auto|].
  destruct (w_free _ _ Hw t) as (tm&Htm&_); [apply elem_of_app; right; by left|].
  destruct (internal_add_spec b t l tm Hw Htm) as (b1&E1&Hw1&Ht1&Hj1&Hl1&Hv1). cbn [add_all]. rewrite E1, some_bind.
  destruct (IH b1 Hw1) as (b2&E2&Hw2&Ht2&Hj2&Hl2&Hv2). exists b2. rewrite Ht1, Hj1, Hl1 in *.
  split; [done|]. split; [done|]. do 3 (split; [congruence|]). intros x q Hx.
  destruct (Hv2 x q Hx) as [Hx1|Hx1]; [|by right]. apply Hv1 in Hx1 as [Hx1|[-> ->]]; [by left|right; by exists tm].
Qed.

(** [x] is on slot [q], whose block is still to come. *)
Definition ahead (b : tvec_base) (x : Z) (q : Z * Z) : Prop :=
  exists tm, timers b !! x = Some tm /\ slot_ahead (timer_jiffies b) (expires tm) q.

(** [b] with the current slots of the levels up to [k] cascaded. *)
Definition cascaded (b0 b : tvec_base) (k : Z) : Prop :=
  wheel b [] /\ timers b = timers b0 /\ timer_jiffies b = timer_jiffies b0 /\ work_list b = work_list b0 /\
  forall x q, x ∈ vec b q -> ahead b0 x q \/ (x ∈ vec b0 q /\ forall m, 1 <= m <= k -> q <> (m, INDEX b0 (m - 1))).

Lemma cascade_step b0 b k : cascaded b0 b k -> 0 <= k ->
  exists b', cascade b (k + 1) (INDEX b k) = Some (b', INDEX b0 k) /\ cascaded b0 b' (k + 1).
Proof.
  intros (Hw&Ht&Hj&Hl&Hv) Hk. unfold cascade.
  assert (Ei : INDEX b k = INDEX b0 k) by (unfold INDEX; by rewrite Hj). rewrite Ei. set (p := (k + 1, INDEX b0 k)).
  destruct (add_all_spec (vec b p) _ (grab_wheel b p Hw)) as (b'&E&Hw'&Ht'&Hj'&Hl'&Hv').
  cbn [set_vec timers timer_jiffies work_list] in *. exists b'. rewrite E, some_bind. split; [done|].
  split; [done|]. do 3 (split; [congruence|]). intros x q Hx. destruct (Hv' x q Hx) as [Hx1|(tm&Htm&->)].
  - change (vec _ q) with (vec (set_vec b p []) q) in Hx1. rewrite vec_set_vec in Hx1.
    destruct (decide (q = p)) as [->|Hq]; [by apply elem_of_nil in Hx1|]. destruct (Hv x q Hx1) as [Ha|[Hx0 Hm]]; [by left|right].
    split; [done|]. intros m Hm'. destruct (decide (m = k + 1)) as [->|]; [|apply Hm; lia].
    replace (k + 1 - 1) with k by lia. exact Hq.
  - left. exists tm. rewrite Ht in Htm. split; [done|]. rewrite Hj. apply slot_for_ahead; [rewrite <- Hj; apply Hw|].
    rewrite <- Ht in Htm. by apply (w_expires _ _ Hw x).
Qed.

(** The cascades stop at a level whose slot is not the first: every block that
    begins with this tick has been moved. *)
Lemma cascaded_ahead b0 b k : wheel b0 [] -> cascaded b0 b k -> 0 <= k <= 4 ->
  (k = 0 -> Z.land (timer_jiffies b0) TVR_MASK <> 0) -> (1 <= k < 4 -> INDEX b0 (k - 1) <> 0) ->
  forall x q, x ∈ vec b q -> ahead b0 x q.
Proof.
  intros Hw0 (Hw&Ht&Hj&_&Hv) Hk H0 Hk' x q Hx. destruct (Hv x q Hx) as [Ha|[Hx0 Hm]]; [done|].
  destruct (w_slot _ _ Hw0 x q Hx0) as (tm&Htm&_&Hs). exists tm. split; [done|]. split; [done|]. intros Hq.
  destruct (w_now _ _ Hw0) as [Hn0 Hn1]. pose proof (w_expires _ _ Hw0 x tm Htm) as He.
  destruct Hs as [[E _]|(Hn&E2&Hd)]; [lia|]. destruct (Z.eq_dec (expires tm mod 2 ^ shift q.1) (u32 (expires tm - timer_jiffies b0))) as [E|]; [|lia].
  exfalso. destruct (block_begins (timer_jiffies b0) (expires tm) (conj Hn0 Hn1) He q.1 Hn E) as [Hb1 Hb2]; [lia|].
  destruct (Z.le_gt_cases q.1 k) as [Hle|Hgt].
  - apply (Hm q.1); [lia|]. destruct q as [n i]. cbn [fst snd] in *. f_equal. rewrite E2, Hb2. done.
  - destruct (Z.eq_dec k 0) as [->|Hk0].
    + apply H0; [done|]. destruct (Z.eq_dec q.1 1) as [E1|].
      * rewrite E1 in Hb1. rewrite land_tvr. exact Hb1.
      * apply (lower_index (timer_jiffies b0) q.1 1); [lia|done].
    + apply Hk'; [lia|]. apply (lower_index (timer_jiffies b0) q.1 k); [lia|done].
Qed.

Lemma cascades_spec b : wheel b [] ->
  exists b', cascades b (Z.land (timer_jiffies b) TVR_MASK) = Some b' /\ wheel b' [] /\ timers b' = timers b /\
    timer_jiffies b' = timer_jiffies b /\ work_list b' = work_list b /\ forall x q, x ∈ vec b' q -> ahead b x q.
Proof.
  intros Hw. assert (H0 : cascaded b b 0) by (split; [done|]; do 3 (split; [done|]); intros x q Hx; right; split; [done|lia]).
  assert (Hdone : forall b' k, cascaded b b' k -> 0 <= k <= 4 ->
    (k = 0 -> Z.land (timer_jiffies b) TVR_MASK <> 0) -> (1 <= k < 4 -> INDEX b (k - 1) <> 0) ->
    exists b'', Some b' = Some b'' /\ wheel b'' [] /\ timers b'' = timers b /\
      timer_jiffies b'' = timer_jiffies b /\ work_list b'' = work_list b /\ forall x q, x ∈ vec b'' q -> ahead b x q).
  { intros b' k Hc Hk H1 H2. exists b'. split; [done|]. assert (Hc' := Hc). destruct Hc' as (?&?&?&?&_).
    do 4 (split; [done|]). by apply (cascaded_ahead b b' k). }
  unfold cascades. destruct (Z.eqb_spec (Z.land (timer_jiffies b) TVR_MASK) 0) as [E0|E0]; cbn [negb]; [|apply (Hdone b 0); [done|lia|done|lia]].
  destruct (cascade_step b b 0 H0 ltac:(lia)) as (b1&E1&H1). change (0 + 1) with 1 in E1, H1. rewrite E1, some_bind.
  destruct (Z.eqb_spec (INDEX b 0) 0) as [N0|N0]; cbn [negb]; [|apply (Hdone b1 1); [done|lia|lia|done]].
  destruct (cascade_step b b1 1 H1 ltac:(lia)) as (b2&E2&H2). change (1 + 1) with 2 in E2, H2. rewrite E2, some_bind.
  destruct (Z.eqb_spec (INDEX b 1) 0) as [N1|N1]; cbn [negb]; [|apply (Hdone b2 2); [done|lia|lia|done]].
  destruct (cascade_step b b2 2 H2 ltac:(lia)) as (b3&E3&H3). change (2 + 1) with 3 in E3, H3. rewrite E3, some_bind.
  destruct (Z.eqb_spec (INDEX b 2) 0) as [N2|N2]; cbn [negb]; [|apply (Hdone b3 3); [done|lia|lia|done]].
  destruct (cascade_step b b3 3 H3 ltac:(lia)) as (b4&E4&H4). change (3 + 1) with 4 in E4, H4. rewrite E4, some_bind.
  apply (Hdone b4 4); [done|lia|lia|lia].
Qed.

(** ** Turns *)

Lemma elem_of_expired now p t : t ∈ expired now p <-> exists e, p !! t = Some e /\ reached now e.
Proof.
  unfold expired. rewrite elem_of_dom. split.
  - intros [e He]. apply map_lookup_filter_Some in He as [He Hr]. by exists e.
  - intros (e&He&Hr). exists e. by apply map_lookup_filter_Some.
Qed.

(** The slot of the tick becomes the work list and the clock moves on. *)
Lemma turn_wheel b p : wheel b [] -> work_list b = [] -> p = (0, timer_jiffies b mod TVR_SIZE) ->
  (forall x q, x ∈ vec b q -> ahead b x q) ->
  let b' := mk_base (u32 (timer_jiffies b + 1)) (<[p := []]> (vecs b)) (vec b p) (timers b) in
  wheel b' [] /\ list_to_set (work_list b') = expired (timer_jiffies b) (pending b).
Proof.
  intros Hw Hwork Ep Hah b'. assert (Hg := grab_wheel b p Hw). split.
  - destruct Hg as [Hn He Hs Hf Hl Hd Hu Hfd Ha]. cbn [set_vec timer_jiffies work_list timers] in *. rewrite Hwork in *.
    split; cbn [b' timer_jiffies work_list timers]; rewrite ?app_nil_r; try done; [apply u32_range|].
    intros x q Hx. change (x ∈ vec (set_vec b p []) q) in Hx. assert (Hx' := Hx). rewrite vec_set_vec in Hx'.
    destruct (decide (q = p)) as [->|Hq]; [by apply elem_of_nil in Hx'|].
    destruct (Hs x q Hx) as (tm&Htm&Hlk&_). exists tm. split; [done|]. split; [done|].
    destruct (Hah x q Hx') as (tm'&Htm'&Hsa). assert (tm' = tm) as -> by congruence.
    apply slot_next; [done|by apply (He x)|done|by rewrite <- Ep].
  - apply set_eq. intros t. cbn [b' work_list]. rewrite elem_of_list_to_set, elem_of_expired. split.
    + intros Ht. destruct (Hah t p Ht) as (tm&Htm&Hsa). destruct (w_slot _ _ Hw t p Ht) as (tm'&Htm'&Hlk&_).
      assert (tm' = tm) as -> by congruence. exists (expires tm). split; [apply linked_pending; by exists tm|].
      apply (slot_reached (timer_jiffies b) (expires tm)) with (p := p); [apply Hw|by apply (w_expires _ _ Hw t)|done|done].
    + intros (e&He&Hr). apply linked_pending in He as (tm&Htm&Hlk&<-).
      destruct (w_linked _ _ Hw t tm Htm Hlk) as [[q Hq]|Hq]; [|rewrite Hwork in Hq; by apply elem_of_nil in Hq].
      destruct (Hah t q Hq) as (tm'&Htm'&Hsa). assert (tm' = tm) as -> by congruence.
      pose proof (proj1 (slot_reached (timer_jiffies b) (expires tm) (w_now _ _ Hw) (w_expires _ _ Hw t tm Htm) q Hsa) Hr) as ->.
      by rewrite Ep.
Qed.

Section run.
  Context (fn : list (Z * Z) -> list op).

Lemma fire_loop_spec now fuel : forall b h, wheel b [] -> (length (work_list b) <= fuel)%nat ->
  (forall h, Forall (op_ok (dom (timers b))) (fn h)) ->
  exists b' h', fire_loop fn fuel now b h = Some (b', h') /\ wheel_ok b' /\ same_frame b b' /\
    spec_fire fn now h (abstract b) h' (pending b').
Proof.
  induction fuel as [|fuel IH]; intros b h Hw Hf Hfn.
  - destruct (work_list b) as [|t l] eqn:El; [|simpl in Hf; lia]. exists b, h. cbn [fire_loop]. rewrite El.
    split; [done|]. split; [done|]. split; [done|]. unfold abstract. rewrite El. apply fire_end.
  - destruct (work_list b) as [|t l] eqn:El; cbn [fire_loop]; rewrite El.
    { exists b, h. split; [done|]. split; [done|]. split; [done|]. unfold abstract. rewrite El. apply fire_end. }
    assert (Hin : t ∈ work_list b) by (rewrite El; by left).
    destruct (w_free _ _ Hw t) as (tm&Htm&Hlk); [apply elem_of_app; by left|].
    destruct (detach_clear_spec b t tm Hw Htm Hlk) as (b1&E1&Hw1&[Hj1 Hd1]&Hp1&Hl1). rewrite E1, some_bind.
    destruct (run_ops_spec (fn (h ++ [(t, now)])) b1 Hw1) as (b2&E2&Hw2&[Hj2 Hd2]&Ha2&Hl2); [by rewrite Hd1|]. rewrite E2, some_bind.
    assert (Hlen : (length (work_list b1) < length (work_list b))%nat).
    { rewrite Hl1, El. unfold remove. rewrite filter_cons_False by (intros H; by apply H). simpl. pose proof (length_filter (fun x => x <> t) l). lia. }
    destruct (IH b2 (h ++ [(t, now)]) Hw2) as (b3&h3&E3&Hw3&[Hj3 Hd3]&Hs3); [rewrite El in Hlen; simpl in *; lia|by rewrite Hd2, Hd1|].
    exists b3, h3. rewrite E3. split; [done|]. split; [done|]. split; [split; congruence|].
    apply (fire_one _ _ _ _ t); [by apply elem_of_list_to_set|]. rewrite Ha2 in Hs3. unfold abstract in Hs3.
    rewrite Hp1, Hl1, remove_set in Hs3. exact Hs3.
Qed.

Lemma run_turn_spec b h : wheel_ok b -> (forall h, Forall (op_ok (dom (timers b))) (fn h)) ->
  exists b' h', run_turn fn b h = Some (b', h') /\ wheel_ok b' /\ timer_jiffies b' = u32 (timer_jiffies b + 1) /\
    dom (timers b') = dom (timers b) /\
    spec_fire fn (timer_jiffies b) h (mk_spec (pending b) (expired (timer_jiffies b) (pending b))) h' (pending b').
Proof.
  intros [Hw Hwork] Hfn. unfold run_turn. destruct (cascades_spec b Hw) as (b1&E1&Hw1&Ht1&Hj1&Hl1&Ha1). rewrite E1, some_bind.
  set (p := (0, Z.land (timer_jiffies b) TVR_MASK)).
  destruct (turn_wheel b1 p Hw1) as [Hw2 Hs2]; [congruence|unfold p; by rewrite land_tvr, Hj1| |].
  { intros x q Hx. destruct (Ha1 x q Hx) as (tm&Htm&Hsa). exists tm. by rewrite Ht1, Hj1. }
  rewrite Hj1 in Hw2, Hs2. set (b2 := mk_base _ _ _ _) in *. change (mk_base _ _ _ _) with b2.
  destruct (fire_loop_spec (timer_jiffies b) (length (work_list b2)) b2 h Hw2) as (b3&h3&E3&Hw3&[Hj3 Hd3]&Hs3); [done| |].
  { cbn [b2 timers]. by rewrite Ht1. }
  exists b3, h3. split; [exact E3|]. split; [done|]. split; [done|]. split; [rewrite Hd3; cbn [b2 timers]; by rewrite Ht1|].
  unfold abstract in Hs3. rewrite Hs2 in Hs3. assert (Ep : pending b1 = pending b) by (unfold pending; by rewrite Ht1).
  assert (Ep2 : pending b2 = pending b) by exact Ep. rewrite Ep, Ep2 in Hs3. exact Hs3.
Qed.

(** The number of ticks up to [jiffies]. *)
Definition ticks (jiffies now : Z) : nat := Z.to_nat (s32 (jiffies - now) + 1).

Lemma ticks_next jiffies now : time_after_eq jiffies now = true ->
  ticks jiffies now = S (ticks jiffies (u32 (now + 1))).
Proof. unfold time_after_eq, ticks. rewrite Z.leb_le. intros H. assert (s32 (jiffies - u32 (now + 1)) = s32 (jiffies - now) - 1) by word_lia. lia. Qed.

Lemma run_timers_spec jiffies fuel : forall b h, wheel_ok b -> (ticks jiffies (timer_jiffies b) < fuel)%nat ->
  (forall h, Forall (op_ok (dom (timers b))) (fn h)) ->
  exists b' h', __run_timers fn fuel jiffies b h = Some (b', h') /\ wheel_ok b' /\ dom (timers b') = dom (timers b) /\
    time_after_eq jiffies (timer_jiffies b') = false /\
    spec_run fn jiffies (timer_jiffies b) h (pending b) h' (pending b').
Proof.
  induction fuel as [|fuel IH]; intros b h Hw Hf Hfn; [lia|]. cbn [__run_timers].
  destruct (time_after_eq jiffies (timer_jiffies b)) eqn:Et; [|exists b, h; do 4 (split; [done|]); by apply run_end].
  rewrite (ticks_next _ _ Et) in Hf.
  destruct (run_turn_spec b h Hw Hfn) as (b1&h1&E1&Hw1&Hj1&Hd1&Hs1). rewrite E1, some_bind.
  destruct (IH b1 h1 Hw1) as (b2&h2&E2&Hw2&Hd2&Ht2&Hs2); [by rewrite Hj1; lia|by rewrite Hd1|].
  exists b2, h2. split; [exact E2|]. split; [done|]. split; [congruence|]. split; [done|].
  rewrite Hj1 in Hs2. by apply (run_tick _ _ _ _ _ h1 (pending b1)).
Qed.

End run.

(** ** When a timer runs *)

Definition op_timer (o : op) : Z := match o with Mod t _ => t | Del t => t end.
(** The runs of a timer in a history. *)
Definition runs (t : Z) (h : list (Z * Z)) : list (Z * Z) := filter (fun x => x.1 = t) h.

Section untouched.
  Context (fn : list (Z * Z) -> list op) (t : Z) (Hfn : forall h, Forall (fun o => op_timer o <> t) (fn h)).

Lemma spec_ops_other os : forall s, Forall (fun o => op_timer o <> t) os ->
  pend (foldl spec_op s os) !! t = pend s !! t /\ (t ∈ work (foldl spec_op s os) <-> t ∈ work s).
Proof.
  induction os as [|o os IH]; intros s Ho; [done|]. apply Forall_cons in Ho as [Ho Hos]. simpl.
  destruct (IH (spec_op s o) Hos) as [-> Hw]. rewrite Hw. clear -Ho. destruct o as [x e|x]; simpl in *.
  - destruct (decide _); [done|]. simpl. rewrite lookup_insert_ne by done. split; [done|]. set_solver.
  - rewrite lookup_delete_ne by done. split; [done|]. set_solver.
Qed.

Lemma fire_other now h s h' p' : spec_fire fn now h s h' p' -> t ∉ work s ->
  exists k, h' = h ++ k /\ runs t k = [] /\ p' !! t = pend s !! t.
Proof.
  induction 1 as [h p|h s x h' p' Hx Hs IH]; intros Ht; [exists []; by rewrite app_nil_r|].
  assert (Hxt : x <> t) by (intros ->; done).
  destruct (spec_ops_other (fn (h ++ [(x, now)])) (mk_spec (delete x (pend s)) (work s ∖ {[x]})) (Hfn _)) as [Hp Hw].
  destruct IH as (k&->&Hk&->); [rewrite Hw; simpl; set_solver|]. exists ((x, now) :: k). rewrite <- app_assoc. split; [done|].
  split; [unfold runs; by rewrite filter_cons_False|]. rewrite Hp. simpl. by apply lookup_delete_ne.
Qed.

Lemma fire_work now h s h' p' : spec_fire fn now h s h' p' -> t ∈ work s ->
  exists k, h' = h ++ k /\ runs t k = [(t, now)] /\ p' !! t = None.
Proof.
  induction 1 as [h p|h s x h' p' Hx Hs IH]; intros Ht; [by apply elem_of_empty in Ht|].
  destruct (spec_ops_other (fn (h ++ [(x, now)])) (mk_spec (delete x (pend s)) (work s ∖ {[x]})) (Hfn _)) as [Hp Hw].
  destruct (decide (x = t)) as [->|Hxt].
  - destruct (fire_other _ _ _ _ _ Hs) as (k&->&Hk&Hp'); [rewrite Hw; simpl; set_solver|].
    exists ((t, now) :: k). rewrite <- app_assoc. split; [done|]. unfold runs in *. rewrite filter_cons_True, Hk by done. split; [done|].
    rewrite Hp', Hp. simpl. apply lookup_delete_eq.
  - destruct IH as (k&->&Hk&Hp'); [rewrite Hw; simpl; set_solver|]. exists ((x, now) :: k). rewrite <- app_assoc.
    split; [done|]. split; [unfold runs; by rewrite filter_cons_False|done].
Qed.

Lemma run_idle jiffies now h p h' p' : spec_run fn jiffies now h p h' p' -> p !! t = None ->
  exists k, h' = h ++ k /\ runs t k = [] /\ p' !! t = None.
Proof.
  induction 1 as [now h p Hn|now h p h1 p1 h2 p2 Hn Hs _ IH]; intros Ht; [exists []; by rewrite app_nil_r|].
  destruct (fire_other _ _ _ _ _ Hs) as (k&->&Hk&Hp); [intros (e&He&_)%elem_of_expired; simpl in *; congruence|].
  simpl in Hp. destruct IH as (k'&->&Hk'&Hp'); [congruence|]. exists (k ++ k'). rewrite app_assoc. split; [done|].
  split; [|done]. unfold runs in *. by rewrite filter_app, Hk, Hk'.
Qed.

Lemma run_on_time jiffies now h p h' p' e : spec_run fn jiffies now h p h' p' -> is_u32 now -> is_u32 e -> p !! t = Some e ->
  u32 (e - now) < 2 ^ 31 ->
  exists k, h' = h ++ k /\
    if bool_decide (u32 (e - now) <= s32 (jiffies - now)) then runs t k = [(t, e)] /\ p' !! t = None
    else runs t k = [] /\ p' !! t = Some e.
Proof.
  induction 1 as [now h p Hn|now h p h1 p1 h2 p2 Hn Hs Hr IH]; intros Hnow He Ht Hd; pose proof (u32_range (e - now)) as Hdr; unfold is_u32 in Hdr.
  - exists []. rewrite app_nil_r. split; [done|]. unfold time_after_eq in Hn. apply Z.leb_gt in Hn.
    rewrite bool_decide_eq_false_2 by lia. done.
  - unfold time_after_eq in Hn. apply Z.leb_le in Hn. destruct (decide (u32 (e - now) = 0)) as [E|E].
    + assert (e = now) as -> by (by apply distance_0).
      destruct (fire_work _ _ _ _ _ Hs) as (k&->&Hk&Hp); [apply elem_of_expired; exists now; split; [done|]|].
      { unfold reached. rewrite Z.sub_diag. by vm_compute. }
      destruct (run_idle _ _ _ _ _ _ Hr Hp) as (k'&->&Hk'&Hp'). exists (k ++ k'). rewrite app_assoc. split; [done|].
      rewrite bool_decide_eq_true_2 by lia. split; [|done]. unfold runs in *. by rewrite filter_app, Hk, Hk'.
    + destruct (fire_other _ _ _ _ _ Hs) as (k&->&Hk&Hp).
      { intros (e'&He'&Hre)%elem_of_expired. assert (e' = e) as -> by (simpl in *; congruence). unfold reached in Hre.
        apply E, small_distance; [lia|]. assert (s32 (u32 (e - now)) = s32 (e - now)) as -> by (clear; word_lia). done. }
      simpl in Hp. destruct IH as (k'&->&Hk'); [apply u32_range|done|congruence|..].
      { assert (u32 (e - u32 (now + 1)) = u32 (e - now) - 1) by (unfold is_u32 in *; clear - Hnow He E; word_lia). lia. }
      exists (k ++ k'). rewrite app_assoc. split; [done|].
      assert (E1 : u32 (e - u32 (now + 1)) = u32 (e - now) - 1) by (unfold is_u32 in *; clear - Hnow He E; word_lia).
      assert (E2 : s32 (jiffies - u32 (now + 1)) = s32 (jiffies - now) - 1) by (clear - Hn; word_lia).
      rewrite E1, E2 in Hk'. assert (Eb : bool_decide (u32 (e - now) - 1 <= s32 (jiffies - now) - 1) = bool_decide (u32 (e - now) <= s32 (jiffies - now)))
        by (apply bool_decide_ext; lia). rewrite Eb in Hk'. unfold runs in *. rewrite filter_app, Hk. exact Hk'.
Qed.

End untouched.

(** ** Properties *)

(** C5. The timer wheel is a queue ordered by expiry: for all handlers, which
    may modify and delete any timers, [__run_timers] ends after one turn for each
    tick up to [jiffies], runs in the turn of a tick exactly the pending timers
    whose expiry the tick has reached and which no handler took away before
    their run, and leaves the wheel in order with the other timers pending. *)
Theorem run_timers_refines fn jiffies fuel b h : wheel_ok b -> (ticks jiffies (timer_jiffies b) < fuel)%nat ->
  (forall h, Forall (op_ok (dom (timers b))) (fn h)) ->
  exists b' h', __run_timers fn fuel jiffies b h = Some (b', h') /\ wheel_ok b' /\
    time_after_eq jiffies (timer_jiffies b') = false /\
    spec_run fn jiffies (timer_jiffies b) h (pending b) h' (pending b').
Proof.
  intros Hw Hf Hfn. destruct (run_timers_spec fn jiffies fuel b h Hw Hf Hfn) as (b'&h'&E&Hw'&_&Ht&Hs). by exists b', h'.
Qed.

(** [mod_timer] and [add_timer] make the timer pending with the expiry given,
    [del_timer] makes it idle; they return whether it was pending, keep the
    wheel in order and leave the other timers alone. *)
Theorem timer_operations b t tm e : wheel_ok b -> timers b !! t = Some tm -> is_u32 e ->
  (exists b', mod_timer b t e = Some (b', if linked tm then 1 else 0) /\ wheel_ok b' /\ pending b' = <[t := e]> (pending b)) /\
  (exists b', del_timer b t = Some (b', if linked tm then 1 else 0) /\ wheel_ok b' /\ pending b' = delete t (pending b)) /\
  (if linked tm then add_timer b t = None
   else exists b', add_timer b t = Some (b', 0) /\ wheel_ok b' /\ pending b' = <[t := expires tm]> (pending b)).
Proof.
  intros [Hw Hwork] Htm He. pose proof (unlinked_pending _ _ _ Htm) as Hp.
  unfold mod_timer, del_timer, add_timer, timer_pending. rewrite Htm, !some_bind.
  destruct (__mod_timer_spec b t tm e Hw Htm He) as (b1&E1&Hw1&_&Hp1&Hl1). rewrite Hwork in Hl1.
  destruct (__mod_timer_spec b t tm (expires tm) Hw Htm (w_expires _ _ Hw t tm Htm)) as (b2&E2&Hw2&_&Hp2&Hl2). rewrite Hwork in Hl2.
  destruct (linked tm) eqn:Hlk.
  - split; [|split; [|done]].
    + rewrite andb_true_r. destruct (Z.eqb_spec (expires tm) e) as [<-|_]; [|by exists b1].
      exists b. split; [done|]. split; [done|]. symmetry. by apply insert_id.
    + destruct (detach_clear_spec b t tm Hw Htm Hlk) as (b3&E3&Hw3&_&Hp3&Hl3). rewrite Hwork in Hl3.
      rewrite E3, some_bind. by exists b3.
  - rewrite andb_false_r. split; [by exists b1|]. split; [|by exists b2]. exists b. split; [done|]. split; [done|].
    symmetry. by apply delete_id.
Qed.

(** C4. A timer runs on time: one that is pending with an expiry less than 2^31
    ticks ahead, and that no handler modifies or deletes, runs exactly once and in
    the turn of the tick it expires at when that has come, and otherwise not at
    all and stays pending. *)
Theorem timer_runs_on_time fn jiffies fuel b t tm h : wheel_ok b -> (ticks jiffies (timer_jiffies b) < fuel)%nat ->
  (forall h, Forall (op_ok (dom (timers b))) (fn h)) -> (forall h, Forall (fun o => op_timer o <> t) (fn h)) ->
  timers b !! t = Some tm -> linked tm = true -> u32 (expires tm - timer_jiffies b) < 2 ^ 31 ->
  exists b' k, __run_timers fn fuel jiffies b h = Some (b', h ++ k) /\
    if bool_decide (u32 (expires tm - timer_jiffies b) <= s32 (jiffies - timer_jiffies b))
    then runs t k = [(t, expires tm)] /\ pending b' !! t = None
    else runs t k = [] /\ pending b' !! t = Some (expires tm).
Proof.
  intros Hw Hf Hfn Ht Htm Hlk Hd. destruct (run_timers_spec fn jiffies fuel b h Hw Hf Hfn) as (b'&h'&E&_&_&_&Hs).
  destruct Hw as [Hw _]. assert (Hp : pending b !! t = Some (expires tm)) by (rewrite (unlinked_pending _ _ _ Htm), Hlk; done).
  destruct (run_on_time fn t Ht _ _ _ _ _ _ _ Hs (w_now _ _ Hw) (w_expires _ _ Hw t tm Htm) Hp Hd) as (k&->&Hk). by exists b', k.
Qed.

(** ** Witnesses *)

(** Two timers, idle, shortly before [jiffies] wraps. *)
Definition two_idle : tvec_base := init_timer (init_timer (init_timers_cpu (2 ^ 32 - 100)) 1 0) 2 0.
(** The first runs at 300 ticks from there, after a cascade. *)
Definition one_armed : tvec_base := default two_idle (fst <$> mod_timer two_idle 1 200).

Lemma two_idle_ok : wheel_ok two_idle.
Proof. apply init_timer_ok; [apply init_timer_ok; [by apply init_timers_ok|..]|..]; done. Qed.

Lemma one_armed_ok : wheel_ok one_armed.
Proof.
  destruct two_idle_ok as [Hw Hwork].
  destruct (run_op_spec two_idle (Mod 1 200) Hw) as (b'&E&Hw'&_&_&Hl); [by split; [apply (bool_decide_unpack _); by vm_compute|]|].
  rewrite Hwork in Hl. apply Nat.le_0_r, nil_length_inv in Hl. cbn [run_op] in E. unfold one_armed.
  destruct (mod_timer two_idle 1 200) as [[b1 r]|]; [|done]. rewrite some_bind in E. injection E as ->. by split.
Qed.

Lemma no_op_ok b (h : list (Z * Z)) : Forall (op_ok (dom (timers b))) [].
Proof. constructor. Qed.

Example run_timers_refines_witness : exists b' h', __run_timers (fun _ => []) 402 300 one_armed [] = Some (b', h') /\
  wheel_ok b' /\ time_after_eq 300 (timer_jiffies b') = false /\
  spec_run (fun _ => []) 300 (timer_jiffies one_armed) [] (pending one_armed) h' (pending b').
Proof.
  apply run_timers_refines; [apply one_armed_ok|apply (bool_decide_unpack _); by vm_compute|intros h; apply no_op_ok; exact h].
Defined.

Example timer_operations_witness :
  (exists b', mod_timer one_armed 1 500 = Some (b', 1) /\ wheel_ok b' /\ pending b' = <[1 := 500]> (pending one_armed)) /\
  (exists b', del_timer one_armed 1 = Some (b', 1) /\ wheel_ok b' /\ pending b' = delete 1 (pending one_armed)) /\
  add_timer one_armed 1 = None.
Proof. apply (timer_operations one_armed 1 (mk_timer 200 true) 500); [apply one_armed_ok|by vm_compute|by split]. Defined.

Example timer_runs_on_time_witness : exists b' k, __run_timers (fun _ => []) 402 300 one_armed [] = Some (b', k) /\
  runs 1 k = [(1, 200)] /\ pending b' !! 1 = None.
Proof.
  apply (timer_runs_on_time (fun _ => []) 300 402 one_armed 1 (mk_timer 200 true) []);
    [apply one_armed_ok|apply (bool_decide_unpack _); by vm_compute|intros h; apply no_op_ok; exact h|intros _; constructor|by vm_compute|done|by vm_compute].
Defined.
