(* ===== verification/RadixTree.v ===== *)
(** * Radix trees (lib/radix-tree.c, include/linux/radix-tree.h)

    Nodes are records of a heap indexed by their addresses, NULL is 0, an item is
    a word with bit 0 clear.  The tags of a node, two words of 32 bits per tag, are
    one number of 64 bits per tag.  CONFIG_BASE_SMALL is 0: a node has 64 slots.

    kmem_cache_alloc is outside: [answers] are the addresses it will give, 0 for
    NULL, and NULL once the list is used up.  The slab keeps constructed objects:
    an address that was never used comes with a zeroed node, one that was freed
    with what the tree left in it, so that "free only zeroed nodes" is something
    to prove.  [freed] lists the nodes given to call_rcu, [preloads] the nodes of
    this processor's pool, the last one first.  BUG_ON and wild accesses are
    [None].

    This file holds the code, and what looking an index up means; the operations'
    theorems are in RadixInsert.v, RadixTags.v, RadixDelete.v and RadixGang.v. *)

From S2P Require Import Prelude.

#[local] Open Scope Z_scope.
Create Rewrite HintDb radix.

Definition __GFP_WAIT : Z := 0x10.
Definition __GFP_BITS_SHIFT : Z := 21.
Definition __GFP_BITS_MASK : Z := Z.shiftl 1 __GFP_BITS_SHIFT - 1.

Definition RADIX_TREE_MAP_SHIFT : Z := 6.
Definition RADIX_TREE_MAP_SIZE : Z := Z.shiftl 1 RADIX_TREE_MAP_SHIFT.
Definition RADIX_TREE_MAP_MASK : Z := RADIX_TREE_MAP_SIZE - 1.
Definition RADIX_TREE_INDEX_BITS : Z := 8 * 4.
Definition RADIX_TREE_MAX_PATH : Z :=
  (RADIX_TREE_INDEX_BITS + RADIX_TREE_MAP_SHIFT - 1) / RADIX_TREE_MAP_SHIFT.
Definition RADIX_TREE_MAX_TAGS : Z := 2.
Definition RADIX_TREE_INDIRECT_PTR : Z := 1.
Definition RADIX_TREE_RETRY : Z := u32 (-1).

Definition radix_tree_ptr_to_indirect (ptr : Z) : Z := Z.lor ptr RADIX_TREE_INDIRECT_PTR.
Definition radix_tree_indirect_to_ptr (ptr : Z) : Z := Z.land ptr (not32 RADIX_TREE_INDIRECT_PTR).
Definition radix_tree_is_indirect_ptr (ptr : Z) : bool :=
  negb (Z.land ptr RADIX_TREE_INDIRECT_PTR =? 0).

Record radix_tree_node := mk_node { nheight : Z; count : Z; slots : list Z; tags : list Z }.
Record radix_tree_root := mk_root { height : Z; gfp_mask : Z; rnode : Z }.
(** The tree with its memory. *)
Record radix := mk_radix {
  root : radix_tree_root;
  nodes : gmap Z radix_tree_node;
  preloads : list Z;
  answers : list Z;
  freed : list Z
}.

Definition RADIX_TREE_INIT (mask : Z) : radix_tree_root := mk_root 0 mask 0.

(** radix_tree_node_ctor *)
Definition radix_tree_node_ctor : radix_tree_node :=
  mk_node 0 0 (replicate (Z.to_nat RADIX_TREE_MAP_SIZE) 0) (replicate (Z.to_nat RADIX_TREE_MAX_TAGS) 0).

Definition set_root (s : radix) (r : radix_tree_root) : radix :=
  mk_radix r (nodes s) (preloads s) (answers s) (freed s).
Definition set_node (s : radix) (a : Z) (nd : radix_tree_node) : radix :=
  mk_radix (root s) (<[a := nd]> (nodes s)) (preloads s) (answers s) (freed s).
Definition set_rnode (r : radix_tree_root) (p : Z) : radix_tree_root := mk_root (height r) (gfp_mask r) p.
Definition set_slots (nd : radix_tree_node) (l : list Z) : radix_tree_node :=
  mk_node (nheight nd) (count nd) l (tags nd).
Definition set_tags (nd : radix_tree_node) (l : list Z) : radix_tree_node :=
  mk_node (nheight nd) (count nd) (slots nd) l.

Definition root_gfp_mask (r : radix_tree_root) : Z := Z.land (gfp_mask r) __GFP_BITS_MASK.

(** An answer of the slab allocator; a new object comes out of the constructor. *)
Definition kmem_cache_alloc (s : radix) : radix * Z :=
  match answers s with
  | [] => (s, 0)
  | a :: rest =>
    (mk_radix (root s)
       (if a =? 0 then nodes s
        else match nodes s !! a with None => <[a := radix_tree_node_ctor]> (nodes s) | Some _ => nodes s end)
       (preloads s) rest (freed s), a)
  end.

Definition radix_tree_node_alloc (s : radix) : option (radix * Z) :=
  let gfp_mask := root_gfp_mask (root s) in
  let '(s, ret) := kmem_cache_alloc s in
  let '(s, ret) :=
    if (ret =? 0) && (Z.land gfp_mask __GFP_WAIT =? 0) then
      match preloads s with
      | [] => (s, ret)
      | a :: rest => (mk_radix (root s) (nodes s) rest (answers s) (freed s), a)
      end
    else (s, ret) in
  if radix_tree_is_indirect_ptr ret then None else Some (s, ret).

Definition radix_tree_node_free (s : radix) (a : Z) : radix :=
  mk_radix (root s) (nodes s) (preloads s) (answers s) (a :: freed s).

(** While the allocator sleeps, other tasks of this processor may use its pool:
    [others] lists, per round, the allocator's answer and the pool found after it.
    The lists are what the pool holds, the error code, and the nodes freed. *)
Fixpoint radix_tree_preload (others : list (Z * list Z)) (pool freed : list Z) : option (list Z * Z * list Z) :=
  if zlen pool <? RADIX_TREE_MAX_PATH then
    match others with
    | [] => None
    | (node, pool) :: others =>
      if node =? 0 then Some (pool, - ENOMEM, freed)
      else if zlen pool <? RADIX_TREE_MAX_PATH then radix_tree_preload others (node :: pool) freed
      else radix_tree_preload others pool (node :: freed)
    end
  else Some (pool, 0, freed).

(** CPU_DEAD: the pool of the processor goes back to the slab. *)
Fixpoint radix_tree_callback (pool freed : list Z) : list Z * list Z :=
  match pool with
  | [] => ([], freed)
  | a :: pool => radix_tree_callback pool (a :: freed)
  end.

(** ** Tags *)

Definition tag_set (nd : radix_tree_node) (tag offset : Z) : option radix_tree_node :=
  w ← rd (tags nd) tag;
  l ← wr (tags nd) tag (Z.setbit w offset);
  Some (set_tags nd l).
Definition tag_clear (nd : radix_tree_node) (tag offset : Z) : option radix_tree_node :=
  w ← rd (tags nd) tag;
  l ← wr (tags nd) tag (Z.clearbit w offset);
  Some (set_tags nd l).
Definition tag_get (nd : radix_tree_node) (tag offset : Z) : option bool :=
  w ← rd (tags nd) tag;
  Some (Z.testbit w offset).
(** The two words of the tag. *)
Definition any_tag_set (nd : radix_tree_node) (tag : Z) : option bool :=
  w ← rd (tags nd) tag;
  Some (negb (u32 w =? 0) || negb (Z.shiftr w 32 =? 0)).

Definition root_tag_bit (tag : Z) : Z := Z.shiftl 1 (tag + __GFP_BITS_SHIFT).
Definition root_tag_set (r : radix_tree_root) (tag : Z) : radix_tree_root :=
  mk_root (height r) (Z.lor (gfp_mask r) (root_tag_bit tag)) (rnode r).
Definition root_tag_clear (r : radix_tree_root) (tag : Z) : radix_tree_root :=
  mk_root (height r) (Z.land (gfp_mask r) (not32 (root_tag_bit tag))) (rnode r).
Definition root_tag_clear_all (r : radix_tree_root) : radix_tree_root :=
  mk_root (height r) (Z.land (gfp_mask r) __GFP_BITS_MASK) (rnode r).
Definition root_tag_get (r : radix_tree_root) (tag : Z) : bool :=
  negb (Z.land (gfp_mask r) (root_tag_bit tag) =? 0).

(** ** Heights *)

Definition __maxindex (height : Z) : Z :=
  let width := u32 (height * RADIX_TREE_MAP_SHIFT) in
  let shift := s32 (RADIX_TREE_INDEX_BITS - width) in
  if shift <? 0 then not32 0
  else if 32 <=? shift then 0
  else Z.shiftr (not32 0) shift.
(** What radix_tree_init_maxindex puts into height_to_maxindex. *)
Definition height_to_maxindex : list Z := __maxindex <$> seqZ 0 (RADIX_TREE_MAX_PATH + 1).
Definition radix_tree_maxindex (height : Z) : option Z := rd height_to_maxindex height.

Fixpoint extend_height (fuel : nat) (index height : Z) : option Z :=
  match fuel with
  | O => None
  | S fuel =>
    m ← radix_tree_maxindex height;
    if m <? index then extend_height fuel index (height + 1) else Some height
  end.

(** The tags of the root go to slot 0 of its new node. *)
Fixpoint propagate_tags (r : radix_tree_root) (nd : radix_tree_node) (l : list Z) : option radix_tree_node :=
  match l with
  | [] => Some nd
  | tag :: l =>
    nd ← (if root_tag_get r tag then tag_set nd tag 0 else Some nd);
    propagate_tags r nd l
  end.

Fixpoint extend_nodes (fuel : nat) (s : radix) (newh : Z) : option (radix * Z) :=
  match fuel with
  | O => None
  | S fuel =>
    '(s, node) ← radix_tree_node_alloc s;
    if node =? 0 then Some (s, - ENOMEM) else
    nd ← nodes s !! node;
    l ← wr (slots nd) 0 (radix_tree_indirect_to_ptr (rnode (root s)));
    nd ← propagate_tags (root s) (set_slots nd l) (seqZ 0 RADIX_TREE_MAX_TAGS);
    let newheight := height (root s) + 1 in
    let s := set_node s node (mk_node newheight 1 (slots nd) (tags nd)) in
    let s := set_root s (mk_root newheight (gfp_mask (root s)) (radix_tree_ptr_to_indirect node)) in
    if height (root s) <? newh then extend_nodes fuel s newh else Some (s, 0)
  end.

Definition radix_tree_extend (s : radix) (index : Z) : option (radix * Z) :=
  h ← extend_height 7 index (height (root s) + 1);
  if rnode (root s) =? 0 then
    Some (set_root s (mk_root h (gfp_mask (root s)) (rnode (root s))), 0)
  else extend_nodes 7 s h.

Definition offset_of (index shift : Z) : Z := Z.land (Z.shiftr index shift) RADIX_TREE_MAP_MASK.
(** ** Insertion *)

(** A child node is missing: [slot = NULL] at [height]. *)
Definition add_child (s : radix) (height node offset : Z) : option (radix * Z) :=
  '(s, slot) ← radix_tree_node_alloc s;
  if slot =? 0 then Some (s, 0) else
  nd ← nodes s !! slot;
  let s := set_node s slot (mk_node height (count nd) (slots nd) (tags nd)) in
  if negb (node =? 0) then
    p ← nodes s !! node;
    l ← wr (slots p) offset slot;
    Some (set_node s node (mk_node (nheight p) (u32 (count p + 1)) l (tags p)), slot)
  else Some (set_root s (set_rnode (root s) (radix_tree_ptr_to_indirect slot)), slot).

Definition insert_item (s : radix) (node offset item : Z) : option (radix * Z) :=
  if negb (node =? 0) then
    p ← nodes s !! node;
    l ← wr (slots p) offset item;
    let p := mk_node (nheight p) (u32 (count p + 1)) l (tags p) in
    t0 ← tag_get p 0 offset;
    t1 ← tag_get p 1 offset;
    if t0 || t1 then None else Some (set_node s node p, 0)
  else
    let s := set_root s (set_rnode (root s) item) in
    if root_tag_get (root s) 0 || root_tag_get (root s) 1 then None else Some (s, 0).

(** [h] counts [height] down. *)
Fixpoint insert_down (h : nat) (s : radix) (index item node offset slot shift : Z) : option (radix * Z) :=
  match h with
  | O => if negb (slot =? 0) then Some (s, - EEXIST) else insert_item s node offset item
  | S h' =>
    '(s, slot) ← (if slot =? 0 then add_child s (Z.of_nat h) node offset else Some (s, slot));
    if slot =? 0 then Some (s, - ENOMEM) else
    let offset := offset_of index shift in
    let node := slot in
    nd ← nodes s !! node;
    slot ← rd (slots nd) offset;
    insert_down h' s index item node offset slot (u32 (shift - RADIX_TREE_MAP_SHIFT))
  end.

Definition top_shift (height : Z) : Z := u32 ((height - 1) * RADIX_TREE_MAP_SHIFT).

Definition radix_tree_insert (s : radix) (index item : Z) : option (radix * Z) :=
  if radix_tree_is_indirect_ptr item then None else
  m ← radix_tree_maxindex (height (root s));
  '(s, error) ← (if m <? index then radix_tree_extend s index else Some (s, 0));
  if negb (error =? 0) then Some (s, error) else
  let slot := radix_tree_indirect_to_ptr (rnode (root s)) in
  let height := height (root s) in
  insert_down (Z.to_nat height) s index item 0 0 slot (top_shift height).

(** ** Looking up *)

(** The slot found, its content: the loop of radix_tree_lookup and
    radix_tree_lookup_slot; a slot is its node and offset. *)
Fixpoint lookup_loop (h : nat) (m : gmap Z radix_tree_node) (node index shift : Z) : option (Z * Z * Z) :=
  match h with
  | O => None
  | S h' =>
    nd ← m !! node;
    let slot := (node, offset_of index shift) in
    node ← rd (slots nd) (offset_of index shift);
    if node =? 0 then Some (slot, 0) else
    match h' with
    | O => Some (slot, node)
    | _ => lookup_loop h' m node index (u32 (shift - RADIX_TREE_MAP_SHIFT))
    end
  end.

Definition radix_tree_lookup (s : radix) (index : Z) : option Z :=
  let node := rnode (root s) in
  if node =? 0 then Some 0
  else if negb (radix_tree_is_indirect_ptr node) then
    if 0 <? index then Some 0 else Some node
  else
    let node := radix_tree_indirect_to_ptr node in
    nd ← nodes s !! node;
    let height := nheight nd in
    m ← radix_tree_maxindex height;
    if m <? index then Some 0
    else '(_, node) ← lookup_loop (Z.to_nat height) (nodes s) node index (top_shift height); Some node.

(** void **: NULL, &root->rnode, or a slot of a node *)
Inductive slot_ptr := SNull | SRoot | SSlot (node offset : Z).

Definition radix_tree_lookup_slot (s : radix) (index : Z) : option slot_ptr :=
  let node := rnode (root s) in
  if node =? 0 then Some SNull
  else if negb (radix_tree_is_indirect_ptr node) then
    if 0 <? index then Some SNull else Some SRoot
  else
    let node := radix_tree_indirect_to_ptr node in
    nd ← nodes s !! node;
    let height := nheight nd in
    m ← radix_tree_maxindex height;
    if m <? index then Some SNull
    else
      '(slot, node) ← lookup_loop (Z.to_nat height) (nodes s) node index (top_shift height);
      Some (if node =? 0 then SNull else SSlot slot.1 slot.2).

Definition load_slot (s : radix) (p : slot_ptr) : option Z :=
  match p with
  | SNull => None
  | SRoot => Some (rnode (root s))
  | SSlot node offset => nd ← nodes s !! node; rd (slots nd) offset
  end.
Definition radix_tree_deref_slot (s : radix) (pslot : slot_ptr) : option Z :=
  ret ← load_slot s pslot;
  Some (if radix_tree_is_indirect_ptr ret then RADIX_TREE_RETRY else ret).
Definition radix_tree_replace_slot (s : radix) (pslot : slot_ptr) (item : Z) : option radix :=
  if radix_tree_is_indirect_ptr item then None else
  match pslot with
  | SNull => None
  | SRoot => Some (set_root s (set_rnode (root s) item))
  | SSlot node offset =>
    nd ← nodes s !! node;
    l ← wr (slots nd) offset item;
    Some (set_node s node (set_slots nd l))
  end.

(** Up to 2^32 rounds: the index and the rounds done. *)
Definition next_hole_step (s : radix) (max_scan : Z) (st : Z * Z) : option (Z * Z + Z) :=
  let '(i, index) := st in
  if negb (i <? max_scan) then Some (inr index) else
  p ← radix_tree_lookup s index;
  if p =? 0 then Some (inr index) else
  let index := u32 (index + 1) in
  if index =? 0 then Some (inr index) else Some (inl (u32 (i + 1), index)).
Definition radix_tree_next_hole (s : radix) (index max_scan : Z) : option Z :=
  run 32 (next_hole_step s max_scan) (0, index).
(** ** Tags of items *)

Fixpoint tag_set_down (h : nat) (s : radix) (slot index shift tag : Z) : option (radix * Z) :=
  match h with
  | O => Some (s, slot)
  | S h =>
    nd ← nodes s !! slot;
    let offset := offset_of index shift in
    t ← tag_get nd tag offset;
    s ← (if (t : bool) then Some s else nd ← tag_set nd tag offset; Some (set_node s slot nd));
    nd ← nodes s !! slot;
    slot ← rd (slots nd) offset;
    if slot =? 0 then None
    else tag_set_down h s slot index (u32 (shift - RADIX_TREE_MAP_SHIFT)) tag
  end.

Definition radix_tree_tag_set (s : radix) (index tag : Z) : option (radix * Z) :=
  let height := height (root s) in
  m ← radix_tree_maxindex height;
  if m <? index then None else
  let slot := radix_tree_indirect_to_ptr (rnode (root s)) in
  '(s, slot) ← tag_set_down (Z.to_nat height) s slot index (top_shift height) tag;
  Some (if negb (slot =? 0) && negb (root_tag_get (root s) tag)
        then set_root s (root_tag_set (root s) tag) else s, slot).

(** The way down to [index], for radix_tree_tag_clear and radix_tree_delete: the
    (node, offset) pairs passed, the last one first, and the slot's content; the
    walk ends early, with NULL, when a node is missing. *)
Fixpoint path_down (h : nat) (m : gmap Z radix_tree_node) (slot index shift : Z) (path : list (Z * Z)) :
    option (list (Z * Z) * Z) :=
  match h with
  | O => Some (path, slot)
  | S h =>
    if slot =? 0 then Some (path, 0) else
    nd ← m !! slot;
    let offset := offset_of index shift in
    next ← rd (slots nd) offset;
    path_down h m next index (u32 (shift - RADIX_TREE_MAP_SHIFT)) ((slot, offset) :: path)
  end.

Fixpoint tag_clear_up (path : list (Z * Z)) (s : radix) (tag : Z) : option radix :=
  match path with
  | [] => Some (if root_tag_get (root s) tag then set_root s (root_tag_clear (root s) tag) else s)
  | (node, offset) :: path =>
    nd ← nodes s !! node;
    t ← tag_get nd tag offset;
    if negb t then Some s else
    nd ← tag_clear nd tag offset;
    let s := set_node s node nd in
    any ← any_tag_set nd tag;
    if (any : bool) then Some s else tag_clear_up path s tag
  end.

Definition radix_tree_tag_clear (s : radix) (index tag : Z) : option (radix * Z) :=
  let height := height (root s) in
  m ← radix_tree_maxindex height;
  if m <? index then Some (s, 0) else
  '(path, slot) ← path_down (Z.to_nat height) (nodes s) (radix_tree_indirect_to_ptr (rnode (root s)))
                    index (top_shift height) [];
  if slot =? 0 then Some (s, 0) else
  s ← tag_clear_up path s tag;
  Some (s, slot).

Fixpoint tag_get_down (h : nat) (m : gmap Z radix_tree_node) (node index shift tag : Z) (saw_unset_tag : bool) :
    option bool :=
  match h with
  | O => None
  | S h' =>
    if node =? 0 then Some false else
    nd ← m !! node;
    let offset := offset_of index shift in
    t ← tag_get nd tag offset;
    let saw_unset_tag := saw_unset_tag || negb t in
    match h' with
    | O => if t && saw_unset_tag then None else Some t
    | _ =>
      node ← rd (slots nd) offset;
      tag_get_down h' m node index (u32 (shift - RADIX_TREE_MAP_SHIFT)) tag saw_unset_tag
    end
  end.

Definition radix_tree_tag_get (s : radix) (index tag : Z) : option bool :=
  if negb (root_tag_get (root s) tag) then Some false else
  let node := rnode (root s) in
  if node =? 0 then Some false
  else if negb (radix_tree_is_indirect_ptr node) then Some (index =? 0)
  else
    let node := radix_tree_indirect_to_ptr node in
    nd ← nodes s !! node;
    let height := nheight nd in
    m ← radix_tree_maxindex height;
    if m <? index then Some false
    else tag_get_down (Z.to_nat height) (nodes s) node index (top_shift height) tag false.

Definition radix_tree_tagged (s : radix) (tag : Z) : bool := root_tag_get (root s) tag.

(** ** Gang lookup *)

(** A slot is passed over: the index moves to the next multiple of
    [1 << shift]; [false] ends the search. *)
Definition skip_slot (index shift i : Z) : Z * Z * bool :=
  let index := Z.land index (not32 (u32 (Z.shiftl 1 shift - 1))) in
  let index := u32 (index + Z.shiftl 1 shift) in
  if index =? 0 then (index, i, false)
  else (index, i + 1, negb (i + 1 =? RADIX_TREE_MAP_SIZE)).

(** The first slot from [i] that passes [test]. *)
Fixpoint find_slot (fuel : nat) (test : Z -> option bool) (index shift i : Z) : option (Z * Z * bool) :=
  match fuel with
  | O => None
  | S fuel =>
    b ← test i;
    if (b : bool) then Some (index, i, true) else
    let '(index, i, go) := skip_slot index shift i in
    if go then find_slot fuel test index shift i else Some (index, i, false)
  end.

(** The items of a leaf from slot [j], at most [room] of them; [wanted] is the tag
    test. *)
Fixpoint grab (fuel : nat) (nd : radix_tree_node) (wanted : Z -> option bool) (index j room : Z) (acc : list Z) :
    option (list Z * Z) :=
  match fuel with
  | O => None
  | S fuel =>
    if negb (j <? RADIX_TREE_MAP_SIZE) then Some (acc, index) else
    let index := u32 (index + 1) in
    b ← wanted j;
    if negb b then grab fuel nd wanted index (j + 1) room acc else
    node ← rd (slots nd) j;
    if node =? 0 then grab fuel nd wanted index (j + 1) room acc else
    let acc := acc ++ [node] in
    if zlen acc =? room then Some (acc, index) else grab fuel nd wanted index (j + 1) room acc
  end.

(** The search down to a leaf; the items found and the index of the next search. *)
Fixpoint lookup_down (h : nat) (m : gmap Z radix_tree_node) (slot index shift max_items : Z) :
    option (list Z * Z) :=
  match h with
  | O => Some ([], index)
  | S h' =>
    nd ← m !! slot;
    match h' with
    | O => grab 65 nd (fun _ => Some true) index (Z.land index RADIX_TREE_MAP_MASK) max_items []
    | _ =>
      '(index, i, found) ← find_slot 65 (fun i => p ← rd (slots nd) i; Some (negb (p =? 0)))
                             index shift (offset_of index shift);
      if negb found then Some ([], index) else
      slot ← rd (slots nd) i;
      if slot =? 0 then Some ([], index)
      else lookup_down h' m slot index (u32 (shift - RADIX_TREE_MAP_SHIFT)) max_items
    end
  end.
Definition __lookup (m : gmap Z radix_tree_node) (slot index max_items : Z) : option (list Z * Z) :=
  nd ← m !! slot;
  lookup_down (Z.to_nat (nheight nd)) m slot index (top_shift (nheight nd)) max_items.

Fixpoint lookup_tag_down (h : nat) (m : gmap Z radix_tree_node) (slot index shift max_items tag : Z) :
    option (list Z * Z) :=
  match h with
  | O => Some ([], index)
  | S h' =>
    nd ← m !! slot;
    '(index, i, found) ← find_slot 65 (tag_get nd tag) index shift (offset_of index shift);
    if negb found then Some ([], index) else
    match h' with
    | O => grab 65 nd (tag_get nd tag) index (Z.land index RADIX_TREE_MAP_MASK) max_items []
    | _ =>
      slot ← rd (slots nd) i;
      if slot =? 0 then Some ([], index)
      else lookup_tag_down h' m slot index (u32 (shift - RADIX_TREE_MAP_SHIFT)) max_items tag
    end
  end.
Definition __lookup_tag (m : gmap Z radix_tree_node) (slot index max_items tag : Z) : option (list Z * Z) :=
  nd ← m !! slot;
  lookup_tag_down (Z.to_nat (nheight nd)) m slot index (top_shift (nheight nd)) max_items tag.

(** One round: the results so far and the index of the next search. *)
Definition gang_step (search : Z -> Z -> option (list Z * Z)) (max_index max_items : Z) (st : list Z * Z) :
    option (list Z * Z + list Z) :=
  let '(results, cur_index) := st in
  if negb (zlen results <? max_items) then Some (inr results)
  else if max_index <? cur_index then Some (inr results)
  else
    '(found, next_index) ← search cur_index (max_items - zlen results);
    let results := results ++ found in
    if next_index =? 0 then Some (inr results) else Some (inl (results, next_index)).

(** The items stored at [results], whose number is returned. *)
Definition radix_tree_gang_lookup (s : radix) (first_index max_items : Z) : option (list Z) :=
  let node := rnode (root s) in
  if node =? 0 then Some []
  else if negb (radix_tree_is_indirect_ptr node) then
    if 0 <? first_index then Some [] else Some [node]
  else
    let node := radix_tree_indirect_to_ptr node in
    nd ← nodes s !! node;
    max_index ← radix_tree_maxindex (nheight nd);
    run 33 (gang_step (__lookup (nodes s) node) max_index max_items) ([], first_index).

Definition radix_tree_gang_lookup_tag (s : radix) (first_index max_items tag : Z) : option (list Z) :=
  if negb (root_tag_get (root s) tag) then Some [] else
  let node := rnode (root s) in
  if node =? 0 then Some []
  else if negb (radix_tree_is_indirect_ptr node) then
    if 0 <? first_index then Some [] else Some [node]
  else
    let node := radix_tree_indirect_to_ptr node in
    nd ← nodes s !! node;
    max_index ← radix_tree_maxindex (nheight nd);
    run 33 (gang_step (fun index room => __lookup_tag (nodes s) node index room tag) max_index max_items)
      ([], first_index).

(** ** Deletion *)

Fixpoint shrink_loop (fuel : nat) (s : radix) : option radix :=
  match fuel with
  | O => None
  | S fuel =>
    if negb (0 <? height (root s)) then Some s else
    if negb (radix_tree_is_indirect_ptr (rnode (root s))) then None else
    let to_free := radix_tree_indirect_to_ptr (rnode (root s)) in
    nd ← nodes s !! to_free;
    if negb (count nd =? 1) then Some s else
    newptr ← rd (slots nd) 0;
    if newptr =? 0 then Some s else
    let newptr := if 1 <? height (root s) then radix_tree_ptr_to_indirect newptr else newptr in
    let s := set_root s (mk_root (height (root s) - 1) (gfp_mask (root s)) newptr) in
    nd ← tag_clear nd 0 0;
    nd ← tag_clear nd 1 0;
    l ← wr (slots nd) 0 0;
    let s := set_node s to_free (mk_node (nheight nd) 0 l (tags nd)) in
    shrink_loop fuel (radix_tree_node_free s to_free)
  end.
Definition radix_tree_shrink (s : radix) : option radix := shrink_loop 7 s.

Definition free_if (s : radix) (to_free : Z) : radix :=
  if negb (to_free =? 0) then radix_tree_node_free s to_free else s.

Fixpoint delete_up (path : list (Z * Z)) (s : radix) (to_free : Z) : option radix :=
  match path with
  | [] =>
    let s := set_root s (root_tag_clear_all (root s)) in
    let s := set_root s (mk_root 0 (gfp_mask (root s)) 0) in
    Some (free_if s to_free)
  | (node, offset) :: path =>
    nd ← nodes s !! node;
    l ← wr (slots nd) offset 0;
    let nd := mk_node (nheight nd) (u32 (count nd - 1)) l (tags nd) in
    let s := free_if (set_node s node nd) to_free in
    if negb (count nd =? 0) then
      if node =? radix_tree_indirect_to_ptr (rnode (root s)) then radix_tree_shrink s else Some s
    else delete_up path s node
  end.

(** The tags of the item are cleared first. *)
Fixpoint clear_tags (l : list Z) (s : radix) (node offset index : Z) : option radix :=
  match l with
  | [] => Some s
  | tag :: l =>
    nd ← nodes s !! node;
    t ← tag_get nd tag offset;
    s ← (if (t : bool) then '(s, _) ← radix_tree_tag_clear s index tag; Some s else Some s);
    clear_tags l s node offset index
  end.

Definition radix_tree_delete (s : radix) (index : Z) : option (radix * Z) :=
  let height := height (root s) in
  m ← radix_tree_maxindex height;
  if m <? index then Some (s, 0) else
  let slot := rnode (root s) in
  if height =? 0 then
    let s := set_root s (root_tag_clear_all (root s)) in
    Some (set_root s (set_rnode (root s) 0), slot)
  else
    '(path, slot) ← path_down (Z.to_nat height) (nodes s) (radix_tree_indirect_to_ptr slot)
                      index (top_shift height) [];
    if slot =? 0 then Some (s, 0) else
    match path with
    | [] => None
    | (node, offset) :: _ =>
      s ← clear_tags (seqZ 0 RADIX_TREE_MAX_TAGS) s node offset index;
      s ← delete_up path s 0;
      Some (s, slot)
    end.

(** ** What a tree holds

    [at] gives the address of the node for each (level, prefix) that has one: the
    node of level [l] for the indices with [index / 64^l = prefix].  Every fact
    about the tree is local in it. *)

Definition pre (l index : Z) : Z := index / 64 ^ l.

Definition ptr_ok (a : Z) : Prop := 0 < a < 2 ^ 32 /\ Z.land a 1 = 0.
Definition slot (nd : radix_tree_node) (i : Z) : Z := default 0 (rd (slots nd) i).
Definition tag_word (nd : radix_tree_node) (tag : Z) : Z := default 0 (rd (tags nd) tag).
Definition any_tag (nd : radix_tree_node) (tag : Z) : bool := negb (tag_word nd tag =? 0).
(** The number of slots in use. *)
Definition nz (l : list Z) : Z := zlen (filter (fun x => x <> 0) l).
Definition zeroed (nd : radix_tree_node) : Prop :=
  count nd = 0 /\ slots nd = replicate 64 0 /\ tags nd = replicate 2 0.

Abbreviation places := (gmap (Z * Z) Z).

Record node_ok (pl : places) (l q : Z) (nd : radix_tree_node) : Prop := mk_node_ok {
  no_height : nheight nd = l;
  no_count : count nd = nz (slots nd);
  no_slots : length (slots nd) = 64%nat;
  no_tags : length (tags nd) = 2%nat /\ Forall is_u64 (tags nd);
  no_items : l = 1 -> forall i, 0 <= i < 64 -> slot nd i = 0 \/ ptr_ok (slot nd i);
  no_children : 2 <= l -> forall i, 0 <= i < 64 -> slot nd i = default 0 (pl !! (l - 1, 64 * q + i))
}.

Record shape (r : radix_tree_root) (m : gmap Z radix_tree_node) (pl : places) : Prop := mk_shape {
  sh_height : 0 <= height r <= 6;
  sh_root : (rnode r = 0 /\ pl = ∅) \/ (height r = 0 /\ ptr_ok (rnode r) /\ pl = ∅) \/
            (0 < height r /\ exists a, rnode r = radix_tree_ptr_to_indirect a /\ pl !! (height r, 0) = Some a);
  sh_dom : forall l q a, pl !! (l, q) = Some a ->
    1 <= l <= height r /\ 0 <= q /\ q * 64 ^ l < 2 ^ 32 /\ (l = height r -> q = 0);
  sh_inj : forall x y a, pl !! x = Some a -> pl !! y = Some a -> x = y;
  sh_up : forall l q a, pl !! (l, q) = Some a -> l < height r -> exists p, pl !! (l + 1, q / 64) = Some p;
  sh_node : forall l q a, pl !! (l, q) = Some a -> ptr_ok a /\ exists nd, m !! a = Some nd /\ node_ok pl l q nd
}.

(** Tag [t] is the union of the tags below, but for the place [ex], whose parent
    may still say that there is one. *)
Record tag_inv (r : radix_tree_root) (m : gmap Z radix_tree_node) (pl : places) (ex : Z * Z) (t : Z) : Prop :=
  mk_tag_inv {
  ti_item : forall q a nd i, pl !! (1, q) = Some a -> m !! a = Some nd -> 0 <= i < 64 ->
    Z.testbit (tag_word nd t) i = true -> slot nd i <> 0;
  ti_none : forall l q a nd i, pl !! (l, q) = Some a -> m !! a = Some nd -> 2 <= l -> 0 <= i < 64 ->
    pl !! (l - 1, 64 * q + i) = None -> Z.testbit (tag_word nd t) i = false;
  ti_some : forall l q a nd i c cd, pl !! (l, q) = Some a -> m !! a = Some nd -> 2 <= l -> 0 <= i < 64 ->
    pl !! (l - 1, 64 * q + i) = Some c -> m !! c = Some cd -> (l - 1, 64 * q + i) <> ex ->
    Z.testbit (tag_word nd t) i = any_tag cd t;
  ti_root : forall a nd, pl !! (height r, 0) = Some a -> m !! a = Some nd -> (height r, 0) <> ex ->
    root_tag_get r t = any_tag nd t;
  ti_root_none : pl !! (height r, 0) = None -> root_tag_get r t = true -> height r = 0 /\ rnode r <> 0
}.

Definition no_ex : Z * Z := (0, 0).

(** Nodes that an allocation may return: not in the tree, nothing in them. *)
Definition spare (m : gmap Z radix_tree_node) (pl : places) (a : Z) : Prop :=
  ptr_ok a /\ (forall x, pl !! x <> Some a) /\ (forall nd, m !! a = Some nd -> zeroed nd).
Record spares (s : radix) (pl : places) : Prop := mk_spares {
  sp_nodup : NoDup (preloads s ++ filter (fun a => a <> 0) (answers s));
  sp_spare : forall a, a ∈ preloads s ++ filter (fun a => a <> 0) (answers s) -> spare (nodes s) pl a;
  sp_pool : forall a, a ∈ preloads s -> is_Some (nodes s !! a)
}.

Record inv (s : radix) (pl : places) : Prop := mk_inv {
  inv_shape : shape (root s) (nodes s) pl;
  inv_tags : forall t, 0 <= t < 2 -> tag_inv (root s) (nodes s) pl no_ex t;
  inv_spares : spares s pl
}.
Definition wf (s : radix) : Prop := exists pl, inv s pl.

(** The item of a leaf and its tag, the item at an index and its tag. *)
Definition leaf_item (m : gmap Z radix_tree_node) (pl : places) (index : Z) : Z :=
  match pl !! (1, pre 1 index) with
  | Some a => match m !! a with Some nd => slot nd (index mod 64) | None => 0 end
  | None => 0
  end.
Definition leaf_tag (m : gmap Z radix_tree_node) (pl : places) (index t : Z) : bool :=
  match pl !! (1, pre 1 index) with
  | Some a => match m !! a with Some nd => Z.testbit (tag_word nd t) (index mod 64) | None => false end
  | None => false
  end.
Definition content (s : radix) (pl : places) (index : Z) : Z :=
  if height (root s) =? 0 then if index =? 0 then rnode (root s) else 0 else leaf_item (nodes s) pl index.
Definition tagged (s : radix) (pl : places) (index t : Z) : bool :=
  if height (root s) =? 0 then (index =? 0) && root_tag_get (root s) t else leaf_tag (nodes s) pl index t.

(** ** Pointers, slots, tags, heights *)

Lemma indirect_bit a : radix_tree_is_indirect_ptr a = Z.testbit a 0.
Proof.
  unfold radix_tree_is_indirect_ptr, RADIX_TREE_INDIRECT_PTR.
  change 1 with (2 ^ 1 - 1) at 1. rewrite land_mask by lia. change (2 ^ 1) with 2.
  rewrite <- Z.bit0_mod. by destruct (Z.testbit a 0).
Qed.

Lemma ptr_ok_bit a : ptr_ok a -> Z.testbit a 0 = false.
Proof.
  intros [_ H]. rewrite <- indirect_bit. unfold radix_tree_is_indirect_ptr, RADIX_TREE_INDIRECT_PTR. by rewrite H.
Qed.
Lemma ptr_direct a : ptr_ok a -> radix_tree_is_indirect_ptr a = false.
Proof. intros H. rewrite indirect_bit. by apply ptr_ok_bit. Qed.
Lemma ptr_nonzero a : ptr_ok a -> (a =? 0) = false.
Proof. intros [H _]. lia. Qed.
Lemma indirect_is_indirect a : radix_tree_is_indirect_ptr (radix_tree_ptr_to_indirect a) = true.
Proof. rewrite indirect_bit. unfold radix_tree_ptr_to_indirect. rewrite Z.lor_spec. apply orb_true_r. Qed.
Lemma indirect_nonzero a : (radix_tree_ptr_to_indirect a =? 0) = false.
Proof.
  apply Z.eqb_neq. intros E. pose proof (indirect_is_indirect a) as H. rewrite E in H. discriminate.
Qed.

Lemma indirect_testbit a i : Z.testbit (radix_tree_indirect_to_ptr a) i = Z.testbit a i && ((1 <=? i) && (i <? 32)).
Proof.
  unfold radix_tree_indirect_to_ptr. rewrite Z.land_spec, not32_testbit. f_equal.
  unfold RADIX_TREE_INDIRECT_PTR. change 1 with (Z.ones 1) at 1. rewrite ones_testbit by lia. zcases; simpl; lia.
Qed.
Lemma to_ptr_direct a : ptr_ok a -> radix_tree_indirect_to_ptr a = a.
Proof.
  intros H. apply Z.bits_inj'. intros i Hi. rewrite indirect_testbit.
  destruct (decide (i = 0)) as [->|]; [by rewrite ptr_ok_bit|].
  destruct (Z.ltb_spec i 32); [rewrite (proj2 (Z.leb_le 1 i)) by lia; apply andb_true_r|].
  destruct H as [H _]. by rewrite (testbit_high a 32) by lia.
Qed.
Lemma to_ptr_indirect a : ptr_ok a -> radix_tree_indirect_to_ptr (radix_tree_ptr_to_indirect a) = a.
Proof.
  intros H. rewrite <- (to_ptr_direct a H) at 2. apply Z.bits_inj'. intros i Hi. rewrite !indirect_testbit.
  unfold radix_tree_ptr_to_indirect, RADIX_TREE_INDIRECT_PTR. rewrite Z.lor_spec.
  change 1 with (Z.ones 1) at 1. rewrite ones_testbit by lia. zcases; simpl; rewrite ?andb_false_r, ?orb_false_r; done || lia.
Qed.
Lemma to_ptr_0 : radix_tree_indirect_to_ptr 0 = 0.
Proof. done. Qed.

#[export] Hint Rewrite indirect_is_indirect indirect_nonzero : radix.
#[export] Hint Rewrite ptr_direct ptr_nonzero to_ptr_direct to_ptr_indirect using (by eauto) : radix.

Lemma slot_rd nd i : length (slots nd) = 64%nat -> 0 <= i < 64 -> rd (slots nd) i = Some (slot nd i).
Proof. intros H Hi. unfold slot. destruct (rd_is_Some (slots nd) i) as [v ->]; [lia | done]. Qed.
Lemma tag_rd nd t : length (tags nd) = 2%nat -> 0 <= t < 2 -> rd (tags nd) t = Some (tag_word nd t).
Proof. intros H Ht. unfold tag_word. destruct (rd_is_Some (tags nd) t) as [v ->]; [lia | done]. Qed.
Lemma tag_word_u64 nd t : Forall is_u64 (tags nd) -> is_u64 (tag_word nd t).
Proof.
  intros H. unfold tag_word, rd. destruct (t <? 0); [done|]. destruct (tags nd !! _) eqn:E; [|done].
  by eapply Forall_lookup_1.
Qed.

Lemma pre_0 index : pre 0 index = index.
Proof. unfold pre. change (64 ^ 0) with 1. apply Z.div_1_r. Qed.
Lemma pre_succ l index : 0 <= l -> pre (l + 1) index = pre l index / 64.
Proof. intros Hl. unfold pre. rewrite Z.pow_add_r, Z.div_div by lia. done. Qed.
Lemma pre_pred l index : 1 <= l -> pre (l - 1) index = 64 * pre l index + pre (l - 1) index mod 64.
Proof.
  intros Hl. replace (pre l index) with (pre (l - 1 + 1) index) by (f_equal; lia).
  rewrite pre_succ by lia. apply Z.div_mod. lia.
Qed.
Lemma pre_nonneg l index : 0 <= index -> 0 <= pre l index.
Proof.
  intros H. unfold pre. destruct (Z.le_gt_cases 0 l); [apply Z.div_pos; lia|].
  by rewrite Z.pow_neg_r, Z.div_0_r by lia.
Qed.
Lemma pre_top h index : 0 <= h -> 0 <= index -> pre h index = 0 <-> index < 64 ^ h.
Proof.
  intros Hh Hi. unfold pre. split; intros H; [|apply Z.div_small; lia].
  pose proof (Z.div_mod index (64 ^ h)). pose proof (Z.mod_pos_bound index (64 ^ h)). lia.
Qed.

Lemma pow64 l : 0 <= l -> 64 ^ l = 2 ^ (6 * l).
Proof. intros H. rewrite Z.pow_mul_r by lia. done. Qed.

Lemma offset_pre l index : 1 <= l -> offset_of index (6 * (l - 1)) = pre (l - 1) index mod 64.
Proof.
  intros Hl. unfold offset_of, pre. change RADIX_TREE_MAP_MASK with (2 ^ 6 - 1).
  rewrite land_mask, Z.shiftr_div_pow2, <- pow64 by lia. done.
Qed.
Lemma offset_range index shift : 0 <= offset_of index shift < 64.
Proof. unfold offset_of. change RADIX_TREE_MAP_MASK with (2 ^ 6 - 1). rewrite land_mask by lia. apply Z.mod_pos_bound. lia. Qed.
Lemma top_shift_eq h : 1 <= h <= 6 -> top_shift h = 6 * (h - 1).
Proof. intros H. unfold top_shift, RADIX_TREE_MAP_SHIFT. rewrite u32_small by (unfold is_u32; lia). lia. Qed.
Lemma next_shift l : 2 <= l <= 6 -> u32 (6 * (l - 1) - RADIX_TREE_MAP_SHIFT) = 6 * (l - 1 - 1).
Proof. intros H. unfold RADIX_TREE_MAP_SHIFT. rewrite u32_small by (unfold is_u32; lia). lia. Qed.

(** The table of the largest indices. *)
Lemma maxindex_spec h index : 0 <= h <= 6 -> is_u32 index ->
  exists m, radix_tree_maxindex h = Some m /\ 0 <= m < 2 ^ 32 /\ (m <? index) = negb (pre h index =? 0).
Proof.
  intros Hh Hi. unfold is_u32 in Hi.
  assert (exists m, radix_tree_maxindex h = Some m /\ 0 <= m < 2 ^ 32 /\ (index <= m <-> index < 64 ^ h)) as (m & E & Hm & Hp).
  { assert (h = 0 \/ h = 1 \/ h = 2 \/ h = 3 \/ h = 4 \/ h = 5 \/ h = 6) as [->|[->|[->|[->|[->|[->| ->]]]]]] by lia;
      (eexists; split; [vm_compute; reflexivity|]; split; [lia | rewrite pow64 by lia; lia]). }
  exists m. split; [done|]. split; [done|].
  rewrite <- pre_top in Hp by lia. destruct (Z.ltb_spec m index), (Z.eqb_spec (pre h index) 0); simpl; lia.
Qed.

(** ** Tags as bits *)

Lemma any_tag_set_eq nd t : length (tags nd) = 2%nat -> Forall is_u64 (tags nd) -> 0 <= t < 2 ->
  any_tag_set nd t = Some (any_tag nd t).
Proof.
  intros Hl Hw Ht. unfold any_tag_set, any_tag. rewrite tag_rd by done. rewrite some_bind. f_equal.
  pose proof (tag_word_u64 nd t Hw) as Hu. unfold is_u64 in Hu. set (w := tag_word nd t) in *.
  rewrite Z.shiftr_div_pow2 by lia. unfold u32. pose proof (Z.div_mod w (2 ^ 32)).
  zcases; simpl; try lia; word_lia.
Qed.
Lemma any_tag_false nd t : any_tag nd t = false -> forall i, Z.testbit (tag_word nd t) i = false.
Proof. unfold any_tag. intros H i. destruct (Z.eqb_spec (tag_word nd t) 0) as [->|]; [apply Z.testbit_0_l | done]. Qed.
Lemma any_tag_bit nd t i : Z.testbit (tag_word nd t) i = true -> any_tag nd t = true.
Proof. intros H. destruct (any_tag nd t) eqn:E; [done|]. by rewrite any_tag_false in H. Qed.
Lemma any_tag_true nd t : Forall is_u64 (tags nd) -> any_tag nd t = true ->
  exists i, 0 <= i < 64 /\ Z.testbit (tag_word nd t) i = true.
Proof.
  intros Hw H. pose proof (tag_word_u64 nd t Hw) as Hu. unfold is_u64 in Hu. unfold any_tag in H.
  destruct (Z.eqb_spec (tag_word nd t) 0) as [|n0]; [done|]. set (w := tag_word nd t) in *.
  exists (Z.log2 w). split; [|apply Z.bit_log2; lia].
  split; [apply Z.log2_nonneg|]. apply Z.log2_lt_pow2; lia.
Qed.

(** [nd'] is [nd] with the word [w] for tag [t]. *)
Record retagged (nd : radix_tree_node) (t w : Z) (nd' : radix_tree_node) : Prop := mk_retagged {
  rt_height : nheight nd' = nheight nd;
  rt_count : count nd' = count nd;
  rt_slots : slots nd' = slots nd;
  rt_same : tag_word nd' t = w;
  rt_other : forall t', t' <> t -> tag_word nd' t' = tag_word nd t';
  rt_tags : length (tags nd') = 2%nat /\ Forall is_u64 (tags nd')
}.

Lemma retag nd t w : length (tags nd) = 2%nat -> Forall is_u64 (tags nd) -> 0 <= t < 2 -> is_u64 w ->
  exists l, wr (tags nd) t w = Some l /\ retagged nd t w (set_tags nd l).
Proof.
  intros Hl Hw Ht Hu. destruct (wr (tags nd) t w) as [l|] eqn:E; [|rewrite wr_Some in E by lia; done].
  exists l. split; [done|]. constructor; try done; unfold tag_word; cbn [tags set_tags].
  - by rewrite (rd_wr_eq _ _ _ _ E).
  - intros t' Ht'. by rewrite (rd_wr_ne _ _ _ _ _ (not_eq_sym Ht') E).
  - rewrite (wr_length _ _ _ _ E). split; [done|]. apply wr_inv in E as [_ ->]. by apply Forall_insert.
Qed.

Lemma u64_of_bits w : 0 <= w -> (forall i, 64 <= i -> Z.testbit w i = false) -> is_u64 w.
Proof. intros H0 H. split; [done|]. by apply bounded_of_bits. Qed.

Lemma tag_set_eq nd t i : length (tags nd) = 2%nat -> Forall is_u64 (tags nd) -> 0 <= t < 2 -> 0 <= i < 64 ->
  exists nd', tag_set nd t i = Some nd' /\ retagged nd t (Z.setbit (tag_word nd t) i) nd'.
Proof.
  intros Hl Hw Ht Hi. unfold tag_set. rewrite tag_rd, some_bind by done.
  pose proof (tag_word_u64 nd t Hw) as [H0 H1].
  destruct (retag nd t (Z.setbit (tag_word nd t) i)) as (l & -> & H); [done..| |rewrite some_bind; eauto].
  apply u64_of_bits; [rewrite Z.setbit_spec'; apply Z.lor_nonneg; split; [lia | apply Z.pow_nonneg; lia] |].
  intros j Hj. rewrite Z.setbit_eqb, (testbit_high _ 64) by lia. rewrite orb_false_r. lia.
Qed.
Lemma tag_clear_eq nd t i : length (tags nd) = 2%nat -> Forall is_u64 (tags nd) -> 0 <= t < 2 -> 0 <= i < 64 ->
  exists nd', tag_clear nd t i = Some nd' /\ retagged nd t (Z.clearbit (tag_word nd t) i) nd'.
Proof.
  intros Hl Hw Ht Hi. unfold tag_clear. rewrite tag_rd, some_bind by done.
  pose proof (tag_word_u64 nd t Hw) as [H0 H1].
  destruct (retag nd t (Z.clearbit (tag_word nd t) i)) as (l & -> & H); [done..| |rewrite some_bind; eauto].
  apply u64_of_bits; [rewrite Z.clearbit_spec'; apply Z.ldiff_nonneg; lia|].
  intros j Hj. rewrite Z.clearbit_eqb, (testbit_high _ 64) by lia. done.
Qed.
Lemma tag_get_eq nd t i : length (tags nd) = 2%nat -> 0 <= t < 2 ->
  tag_get nd t i = Some (Z.testbit (tag_word nd t) i).
Proof. intros Hl Ht. unfold tag_get. by rewrite tag_rd, some_bind. Qed.

(** ** The tags of the root *)

Lemma root_tag_testbit r t : 0 <= t < 2 -> root_tag_get r t = Z.testbit (gfp_mask r) (t + 21).
Proof.
  intros Ht. unfold root_tag_get, root_tag_bit, __GFP_BITS_SHIFT. rewrite Z.shiftl_1_l.
  destruct (Z.testbit (gfp_mask r) (t + 21)) eqn:E.
  - destruct (Z.eqb_spec (Z.land (gfp_mask r) (2 ^ (t + 21))) 0) as [H|]; [|done].
    assert (Z.testbit (Z.land (gfp_mask r) (2 ^ (t + 21))) (t + 21) = true) as H1; [|by rewrite H, Z.testbit_0_l in H1].
    rewrite Z.land_spec, E, Z.pow2_bits_true by lia. done.
  - replace (Z.land _ _) with 0; [done|]. symmetry. apply Z.bits_inj'. intros i Hi.
    rewrite Z.land_spec, Z.pow2_bits_eqb, Z.testbit_0_l by lia.
    destruct (Z.eqb_spec (t + 21) i) as [<-|]; [by rewrite E | apply andb_false_r].
Qed.
Lemma root_tag_get_set r t t' : 0 <= t < 2 -> 0 <= t' < 2 ->
  root_tag_get (root_tag_set r t) t' = (t =? t') || root_tag_get r t'.
Proof.
  intros Ht Ht'. rewrite !root_tag_testbit by done. cbn [gfp_mask root_tag_set].
  unfold root_tag_bit, __GFP_BITS_SHIFT. rewrite Z.shiftl_1_l, Z.lor_spec, Z.pow2_bits_eqb by lia.
  rewrite orb_comm. f_equal. destruct (Z.eqb_spec t t'), (Z.eqb_spec (t + 21) (t' + 21)); lia.
Qed.
Lemma root_tag_get_clear r t t' : 0 <= t < 2 -> 0 <= t' < 2 ->
  root_tag_get (root_tag_clear r t) t' = negb (t =? t') && root_tag_get r t'.
Proof.
  intros Ht Ht'. rewrite !root_tag_testbit by done. cbn [gfp_mask root_tag_clear].
  unfold root_tag_bit, __GFP_BITS_SHIFT.
  rewrite Z.shiftl_1_l, Z.land_spec, not32_testbit, Z.pow2_bits_eqb by lia.
  destruct (Z.eqb_spec t t'), (Z.eqb_spec (t + 21) (t' + 21)); try lia; cbn [negb]; zcases; simpl;
    rewrite ?andb_false_r, ?andb_true_r; done || lia.
Qed.
Lemma root_tag_get_clear_all r t : 0 <= t < 2 -> root_tag_get (root_tag_clear_all r) t = false.
Proof.
  intros Ht. rewrite root_tag_testbit by done. cbn [gfp_mask root_tag_clear_all].
  rewrite Z.land_spec. change __GFP_BITS_MASK with (Z.ones 21). rewrite ones_testbit by lia.
  zcases; rewrite ?andb_false_r; done || lia.
Qed.

(** ** Slots in use *)

Lemma nz_insert l (i : nat) v : (i < length l)%nat ->
  nz (<[i := v]> l) = nz l - (if nth i l 0 =? 0 then 0 else 1) + (if v =? 0 then 0 else 1).
Proof.
  unfold nz. revert i. induction l as [|x l IH]; intros i Hi; [simpl in Hi; lia|].
  destruct i as [|i]; cbn [nth].
  - change (<[O := v]> (x :: l)) with (v :: l). rewrite !filter_cons. destruct (decide (v <> 0)), (decide (x <> 0)); zcases; cbn [Datatypes.length]; lia.
  - change (<[S i := v]> (x :: l)) with (x :: <[i := v]> l).
    specialize (IH i ltac:(simpl in Hi; lia)). rewrite !filter_cons.
    destruct (decide (x <> 0)); cbn [Datatypes.length]; zcases; lia.
Qed.
Lemma nz_range l : 0 <= nz l <= zlen l.
Proof. unfold nz. pose proof (length_filter (fun x => x <> 0) l). lia. Qed.
Lemma nz_0 l i : nz l = 0 -> nth i l 0 = 0.
Proof.
  unfold nz. revert i. induction l as [|x l IH]; intros i H; [by destruct i|].
  rewrite filter_cons in H. destruct (decide (x <> 0)); cbn [Datatypes.length] in H; [lia|].
  destruct i; cbn [nth]; [lia | by apply IH].
Qed.
Lemma nz_pos l (i : nat) : nth i l 0 <> 0 -> 0 < nz l.
Proof. intros H. pose proof (nz_range l). destruct (Z.eq_dec (nz l) 0) as [E|]; [|lia]. by rewrite (nz_0 l i E) in H. Qed.
Lemma slot_nth nd i : 0 <= i -> slot nd i = nth (Z.to_nat i) (slots nd) 0.
Proof. intros H. unfold slot, rd. zcases; [lia|]. symmetry. apply nth_lookup. Qed.

(** A slot is written. *)
Lemma slot_wr nd i v : length (slots nd) = 64%nat -> 0 <= i < 64 ->
  exists l, wr (slots nd) i v = Some l /\ length l = 64%nat /\
    (forall h c t, slot (mk_node h c l t) i = v) /\
    (forall h c t j, j <> i -> slot (mk_node h c l t) j = slot nd j) /\
    nz l = nz (slots nd) - (if slot nd i =? 0 then 0 else 1) + (if v =? 0 then 0 else 1).
Proof.
  intros Hl Hi. destruct (wr (slots nd) i v) as [l|] eqn:E; [|rewrite wr_Some in E by lia; done].
  exists l. split; [done|]. split; [by rewrite (wr_length _ _ _ _ E)|].
  split; [intros; unfold slot; cbn [slots]; by rewrite (rd_wr_eq _ _ _ _ E)|].
  split; [intros h c t j Hj; unfold slot; cbn [slots]; by rewrite (rd_wr_ne _ _ _ _ _ (not_eq_sym Hj) E)|].
  rewrite slot_nth by lia. apply wr_inv in E as [_ ->]. apply nz_insert. lia.
Qed.

Lemma replicate_nth (n i : nat) (v : Z) : nth i (replicate n v) v = v.
Proof. revert i. induction n; intros [|i]; simpl; auto. Qed.
Lemma zeroed_slot nd i : zeroed nd -> slot nd i = 0.
Proof.
  intros (_ & H & _). unfold slot. rewrite H. unfold rd. destruct (i <? 0); [done|].
  destruct (_ !! _) as [v|] eqn:E; [|done]. apply lookup_replicate_1 in E as [-> _]. done.
Qed.
Lemma zeroed_tag nd t : zeroed nd -> tag_word nd t = 0.
Proof.
  intros (_ & _ & H). unfold tag_word. rewrite H. unfold rd. destruct (t <? 0); [done|].
  destruct (_ !! _) as [v|] eqn:E; [|done]. apply lookup_replicate_1 in E as [-> _]. done.
Qed.
Lemma zeroed_any nd t : zeroed nd -> any_tag nd t = false.
Proof. intros H. unfold any_tag. by rewrite zeroed_tag. Qed.

(** ** Walking down *)

Lemma lookup_loop_S n m node index shift : lookup_loop (S (S n)) m node index shift =
  (nd ← m !! node;
   node' ← rd (slots nd) (offset_of index shift);
   if node' =? 0 then Some ((node, offset_of index shift), 0)
   else lookup_loop (S n) m node' index (u32 (shift - RADIX_TREE_MAP_SHIFT))).
Proof. done. Qed.

Section shape.
  Context (r : radix_tree_root) (m : gmap Z radix_tree_node) (pl : places) (Hs : shape r m pl).

Lemma chain l q a d : pl !! (l, q) = Some a -> 0 <= d -> l + d <= height r ->
    exists p, pl !! (l + d, q / 64 ^ d) = Some p.
  Proof.
    intros Ha Hd. pattern d. apply natlike_ind; [| |done]; clear d Hd.
    - intros _. exists a. by rewrite Z.add_0_r, Z.div_1_r.
    - intros d Hd IH Hl. destruct (IH ltac:(lia)) as [p Hp].
      destruct (sh_up _ _ _ Hs _ _ _ Hp) as [p' Hp']; [lia|]. exists p'.
      rewrite Z.pow_succ_r, (Z.mul_comm 64), <- Z.div_div by lia. rewrite <- Hp'. f_equal. f_equal. lia.
  Qed.

  (** Above the place of an index are the places of its prefixes. *)
Lemma pre_chain l l' index a : 0 <= l <= l' -> l' <= height r -> 0 <= index ->
    pl !! (l, pre l index) = Some a -> exists p, pl !! (l', pre l' index) = Some p.
  Proof.
    intros Hl Hh Hi Ha. destruct (chain _ _ _ (l' - l) Ha) as [p Hp]; [lia..|]. exists p.
    rewrite <- Hp. f_equal. f_equal; [lia|]. unfold pre. rewrite Z.div_div, <- Z.pow_add_r by lia.
    f_equal. f_equal. lia.
  Qed.

Lemma leaf_beyond index : 1 <= height r -> 0 <= index -> pre (height r) index <> 0 ->
    pl !! (1, pre 1 index) = None.
  Proof.
    intros Hh Hi Hp. destruct (pl !! (1, pre 1 index)) as [a|] eqn:E; [|done].
    apply (pre_chain 1 (height r)) in E as [p E]; [|lia..].
    destruct (sh_dom _ _ _ Hs _ _ _ E) as (_ & _ & _ & H). by rewrite H in Hp.
  Qed.

Lemma place_node l q a : pl !! (l, q) = Some a -> exists nd, m !! a = Some nd /\ node_ok pl l q nd.
  Proof. intros Ha. apply (sh_node _ _ _ Hs _ _ _ Ha). Qed.
Lemma place_ptr l q a : pl !! (l, q) = Some a -> ptr_ok a.
  Proof. intros Ha. apply (sh_node _ _ _ Hs _ _ _ Ha). Qed.
Lemma place_level l q a : pl !! (l, q) = Some a -> 1 <= l <= height r.
  Proof. intros Ha. apply (sh_dom _ _ _ Hs _ _ _ Ha). Qed.

  (** The slot of an index, one level down. *)
Lemma slot_down l index a nd : pl !! (l, pre l index) = Some a -> m !! a = Some nd -> 2 <= l ->
    slot nd (pre (l - 1) index mod 64) = default 0 (pl !! (l - 1, pre (l - 1) index)).
  Proof.
    intros Ha Hm Hl. destruct (place_node _ _ _ Ha) as (nd' & Hm' & Ho). simplify_eq.
    rewrite (no_children _ _ _ _ Ho) by (try apply Z.mod_pos_bound; lia). by rewrite <- pre_pred by lia.
  Qed.

Lemma default_zero l q : default 0 (pl !! (l, q)) = 0 <-> pl !! (l, q) = None.
  Proof.
    split; [|by intros ->]. destruct (pl !! (l, q)) as [a|] eqn:E; [|done].
    cbn. intros ->. apply place_ptr in E as [[? _] _]. lia.
  Qed.

Lemma rd_slot l q a nd i : pl !! (l, q) = Some a -> m !! a = Some nd -> 0 <= i < 64 ->
    rd (slots nd) i = Some (slot nd i).
  Proof. intros Ha Hm Hi. destruct (place_node _ _ _ Ha) as (nd' & Hm' & Ho). simplify_eq. apply slot_rd; [apply Ho | done]. Qed.

Lemma leaf_item_eq index a nd : pl !! (1, pre 1 index) = Some a -> m !! a = Some nd ->
    leaf_item m pl index = slot nd (index mod 64).
  Proof. intros Ha Hm. unfold leaf_item. by rewrite Ha, Hm. Qed.
Lemma leaf_item_none l index : 1 <= l <= height r -> 0 <= index -> pl !! (l, pre l index) = None ->
    leaf_item m pl index = 0.
  Proof.
    intros Hl Hi Hn. unfold leaf_item. destruct (pl !! (1, pre 1 index)) as [a|] eqn:E; [|done].
    apply (pre_chain 1 l) in E as [p E]; [congruence | lia..].
  Qed.

Lemma lookup_loop_spec (n : nat) index a : is_u32 index ->
    pl !! (Z.of_nat (S n), pre (Z.of_nat (S n)) index) = Some a ->
    exists sl, lookup_loop (S n) m a index (6 * Z.of_nat n) = Some (sl, leaf_item m pl index) /\
      (leaf_item m pl index <> 0 -> exists leaf, pl !! (1, pre 1 index) = Some leaf /\ sl = (leaf, index mod 64)).
  Proof.
    intros Hi. revert a. induction n as [|n IH]; intros a Ha; pose proof (place_level _ _ _ Ha) as Hl;
      pose proof (sh_height _ _ _ Hs) as Hh; destruct (place_node _ _ _ Ha) as (nd & Hm & Ho);
      [cbn [lookup_loop] | rewrite lookup_loop_S]; rewrite Hm, some_bind;
      rewrite (rd_slot _ _ _ _ _ Ha Hm (offset_range _ _)), some_bind.
    - change (6 * Z.of_nat 0) with (6 * (1 - 1)). change (Z.of_nat 1) with 1 in *.
      rewrite (offset_pre 1 index), Z.sub_diag, pre_0 by lia.
      rewrite (leaf_item_eq _ _ _ Ha Hm). zcases; [rewrite e|]; (eexists; split; [done|]); intros; [done|]. by exists a.
    - replace (6 * Z.of_nat (S n)) with (6 * (Z.of_nat (S (S n)) - 1)) by lia.
      rewrite offset_pre by lia. rewrite (slot_down _ _ _ _ Ha Hm) by lia.
      replace (Z.of_nat (S (S n)) - 1) with (Z.of_nat (S n)) by lia.
      destruct (pl !! (Z.of_nat (S n), pre (Z.of_nat (S n)) index)) as [c|] eqn:Ec.
      + change (default 0 (Some c)) with c. rewrite (ptr_nonzero c) by (by eapply place_ptr).
        replace (6 * Z.of_nat (S n)) with (6 * (Z.of_nat (S (S n)) - 1)) by lia. rewrite next_shift by lia.
        replace (6 * _) with (6 * Z.of_nat n) by lia. by apply IH.
      + cbn. rewrite (leaf_item_none (Z.of_nat (S n)) index) by (done || lia || apply Hi). by eexists.
  Qed.
End shape.

(** ** Looking up *)

(** A tree with nodes has its top node at the root, otherwise it has at most an
    item at index 0. *)
Lemma root_cases s pl : shape (root s) (nodes s) pl ->
  (rnode (root s) = 0 /\ pl = ∅) \/
  (height (root s) = 0 /\ ptr_ok (rnode (root s)) /\ pl = ∅) \/
  (exists a nd, 0 < height (root s) <= 6 /\ rnode (root s) = radix_tree_ptr_to_indirect a /\ ptr_ok a /\
     pl !! (height (root s), 0) = Some a /\ nodes s !! a = Some nd /\ node_ok pl (height (root s)) 0 nd).
Proof.
  intros Hs. destruct (sh_root _ _ _ Hs) as [?|[?|(H & a & Hr & Ha)]]; [by left | by right; left|].
  right. right. pose proof (sh_height _ _ _ Hs). destruct (sh_node _ _ _ Hs _ _ _ Ha) as (Hp & nd & Hm & Ho).
  exists a, nd. split_and!; done || lia.
Qed.

Lemma leaf_item_empty m index : leaf_item m ∅ index = 0.
Proof. unfold leaf_item. by rewrite lookup_empty. Qed.
Lemma content_null s index : rnode (root s) = 0 -> content s ∅ index = 0.
Proof. intros H. unfold content. rewrite H, leaf_item_empty. by repeat case_match. Qed.

Lemma lookup_spec s pl index : shape (root s) (nodes s) pl -> is_u32 index ->
  radix_tree_lookup s index = Some (content s pl index).
Proof.
  intros Hs Hi. unfold radix_tree_lookup.
  destruct (root_cases _ _ Hs) as [[Hr ->]|[(Hh & Hr & ->)|(a & nd & Hh & Hr & Hp & Ha & Hm & Ho)]].
  - rewrite Hr. by rewrite content_null.
  - rewrite (ptr_nonzero _ Hr), (ptr_direct _ Hr). cbn [negb]. unfold content. rewrite Hh. cbn.
    unfold is_u32 in Hi. destruct (Z.eqb_spec index 0), (Z.ltb_spec 0 index); done || lia.
  - rewrite Hr, indirect_nonzero, indirect_is_indirect, to_ptr_indirect, Hm, some_bind by done. cbn [negb].
    rewrite (no_height _ _ _ _ Ho). destruct (maxindex_spec (height (root s)) index) as (mx & -> & _ & Hmx); [lia | done|].
    rewrite some_bind, Hmx. unfold content. rewrite (proj2 (Z.eqb_neq (height (root s)) 0)) by lia.
    destruct (Z.eqb_spec (pre (height (root s)) index) 0) as [E|E]; cbn [negb].
    + destruct (lookup_loop_spec _ _ _ Hs (Z.to_nat (height (root s) - 1)) index a Hi) as (sl & Hl & _).
      { replace (Z.of_nat (S _)) with (height (root s)) by lia. by rewrite E. }
      replace (S (Z.to_nat (height (root s) - 1))) with (Z.to_nat (height (root s))) in Hl by lia.
      rewrite top_shift_eq by lia.
      replace (6 * Z.of_nat (Z.to_nat (height (root s) - 1))) with (6 * (height (root s) - 1)) in Hl by lia.
      by rewrite Hl.
    + unfold leaf_item. by rewrite (leaf_beyond _ _ _ Hs index) by (done || lia || apply Hi).
Qed.

(** ** Changes elsewhere *)

Definition agree (m m' : gmap Z radix_tree_node) (pl : places) : Prop :=
  forall x a, pl !! x = Some a -> m' !! a = m !! a.

Lemma shape_agree r m m' pl : shape r m pl -> agree m m' pl -> shape r m' pl.
Proof.
  intros Hs Ha. constructor; try apply Hs. intros l q a Hp.
  rewrite (Ha _ _ Hp). by apply (sh_node _ _ _ Hs).
Qed.
Lemma tag_inv_agree r m m' pl ex t : tag_inv r m pl ex t -> agree m m' pl -> tag_inv r m' pl ex t.
Proof.
  intros Ht Ha. constructor.
  - intros q a nd i Hp Hm. rewrite (Ha _ _ Hp) in Hm. by apply (ti_item _ _ _ _ _ Ht q a).
  - intros l q a nd i Hp Hm. rewrite (Ha _ _ Hp) in Hm. by apply (ti_none _ _ _ _ _ Ht l q a).
  - intros l q a nd i c cd Hp Hm Hl Hi Hc Hd. rewrite (Ha _ _ Hp) in Hm. rewrite (Ha _ _ Hc) in Hd.
    by apply (ti_some _ _ _ _ _ Ht l q a nd i c cd).
  - intros a nd Hp Hm. rewrite (Ha _ _ Hp) in Hm. by apply (ti_root _ _ _ _ _ Ht a).
  - apply Ht.
Qed.
Lemma leaf_item_agree m m' pl index : agree m m' pl -> leaf_item m' pl index = leaf_item m pl index.
Proof. intros Ha. unfold leaf_item. destruct (pl !! _) eqn:E; [|done]. by rewrite (Ha _ _ E). Qed.
Lemma leaf_tag_agree m m' pl index t : agree m m' pl -> leaf_tag m' pl index t = leaf_tag m pl index t.
Proof. intros Ha. unfold leaf_tag. destruct (pl !! _) eqn:E; [|done]. by rewrite (Ha _ _ E). Qed.
Lemma agree_insert m pl a nd : (forall x, pl !! x <> Some a) -> agree m (<[a := nd]> m) pl.
Proof. intros H x b Hb. apply lookup_insert_ne. intros ->. by apply (H x). Qed.
Lemma agree_trans m1 m2 m3 pl : agree m1 m2 pl -> agree m2 m3 pl -> agree m1 m3 pl.
Proof. intros H H' x a Ha. by rewrite (H' _ _ Ha), (H _ _ Ha). Qed.

(** The node at a place is replaced by one that is right there. *)
Lemma shape_replace r m pl l q a nd : shape r m pl -> pl !! (l, q) = Some a -> node_ok pl l q nd ->
  shape r (<[a := nd]> m) pl.
Proof.
  intros Hs Ha Ho. constructor; try apply Hs. intros l' q' b Hb.
  destruct (sh_node _ _ _ Hs _ _ _ Hb) as [Hp (nd' & Hm & Ho')]. split; [done|].
  destruct (decide (b = a)) as [->|Hne].
  - rewrite lookup_insert_eq. exists nd. split; [done|].
    pose proof (sh_inj _ _ _ Hs _ _ _ Ha Hb). by simplify_eq.
  - rewrite lookup_insert_ne by done. eauto.
Qed.

(** ** Allocation *)

(** The next [n] allocations succeed: by the pool, or by the allocator. *)
Definition supplied (n : Z) (s : radix) : Prop :=
  (Z.land (root_gfp_mask (root s)) __GFP_WAIT = 0 /\ n <= zlen (preloads s)) \/
  (n <= zlen (answers s) /\ Forall (fun a => a <> 0) (take (Z.to_nat n) (answers s))).

Lemma supplied_less n n' s : n' <= n -> supplied n s -> supplied n' s.
Proof.
  intros Hn [[H H']|[H H']]; [left; split; [done | lia]|]. right. split; [lia|].
  apply Forall_take with (n := Z.to_nat n') in H'. rewrite take_take in H'.
  by replace (Z.to_nat n' `min` Z.to_nat n)%nat with (Z.to_nat n') in H' by lia.
Qed.

Lemma supplied_root n s s' : gfp_mask (root s') = gfp_mask (root s) -> preloads s' = preloads s ->
  answers s' = answers s -> supplied n s -> supplied n s'.
Proof. unfold supplied, root_gfp_mask. by intros -> -> ->. Qed.

Lemma kmem_cache_alloc_spec s pl : spares s pl -> exists s' a, kmem_cache_alloc s = (s', a) /\
  root s' = root s /\ freed s' = freed s /\ preloads s' = preloads s /\ agree (nodes s) (nodes s') pl /\ spares s' pl /\
  (forall n, n <= zlen (answers s) -> 0 < n -> Forall (fun a => a <> 0) (take (Z.to_nat n) (answers s)) ->
     a <> 0 /\ n - 1 <= zlen (answers s') /\ Forall (fun a => a <> 0) (take (Z.to_nat (n - 1)) (answers s'))) /\
  (a = 0 \/ spare (nodes s') pl a /\ is_Some (nodes s' !! a) /\
     a ∉ preloads s' ++ filter (fun a => a <> 0) (answers s')).
Proof.
  intros [Hnd Hsp Hpre]. unfold kmem_cache_alloc. destruct (answers s) as [|a rest] eqn:E.
  - exists s, 0. rewrite E. split_and!; try done; [by constructor; rewrite ?E|intros; simpl in *; lia|by left].
  - eexists _, a. split; [done|]. cbn [root freed preloads nodes answers].
    rewrite filter_cons in Hnd, Hsp.
    assert (forall n, n <= zlen (a :: rest) -> 0 < n -> Forall (fun a => a <> 0) (take (Z.to_nat n) (a :: rest)) ->
      a <> 0 /\ n - 1 <= zlen rest /\ Forall (fun a => a <> 0) (take (Z.to_nat (n - 1)) rest)) as Hsup.
    { intros n Hn Hn' Hf. replace (Z.to_nat n) with (S (Z.to_nat (n - 1))) in Hf by lia. cbn [take] in Hf.
      apply Forall_cons in Hf as [? ?]. cbn [length] in Hn. split_and!; done || lia. }
    destruct (Z.eqb_spec a 0) as [->|Ha].
    + rewrite decide_False in Hnd, Hsp by (by intros []). split_and!; first [done | by left | by constructor].
    + rewrite decide_True in Hnd, Hsp by done.
      assert (spare (nodes s) pl a) as Hspa by (apply Hsp; set_solver).
      assert (a ∉ preloads s ++ filter (fun a => a <> 0) rest) as Hni.
      { apply NoDup_app in Hnd as (H1 & H2 & H3). apply NoDup_cons in H3 as [H3 H4]. set_solver. }
      set (m' := match nodes s !! a with None => _ | _ => _ end).
      assert (agree (nodes s) m' pl) as Hag.
      { subst m'. destruct (nodes s !! a) eqn:Em; [done|]. apply agree_insert. apply Hspa. }
      assert (forall b, spare (nodes s) pl b -> spare m' pl b) as Hsm.
      { intros b (Hb1 & Hb2 & Hb3). split_and!; try done. subst m'. destruct (nodes s !! a) eqn:Em; [done|].
        intros nd. destruct (decide (b = a)) as [->|]; [|by rewrite lookup_insert_ne by done; apply Hb3].
        rewrite lookup_insert_eq. by intros [= <-]. }
      split_and!; try done.
      * constructor; cbn [nodes preloads answers].
        -- apply NoDup_app in Hnd as (H1 & H2 & H3). apply NoDup_cons in H3 as [H3 H4].
           apply NoDup_app. split_and!; try done. intros x Hx Hx'. apply (H2 x Hx). set_solver.
        -- intros b Hb. apply Hsm, Hsp. set_solver.
        -- intros b Hb. subst m'. destruct (nodes s !! a) eqn:Em; [by apply Hpre|].
           destruct (decide (b = a)) as [->|]; [by rewrite lookup_insert_eq|].
           rewrite lookup_insert_ne by done. by apply Hpre.
      * right. split_and!; [by apply Hsm| |done].
        subst m'. destruct (nodes s !! a) eqn:Em; [done|]. by rewrite lookup_insert_eq.
Qed.

Lemma node_alloc_spec s pl : spares s pl -> exists s' a, radix_tree_node_alloc s = Some (s', a) /\
  root s' = root s /\ freed s' = freed s /\ agree (nodes s) (nodes s') pl /\ spares s' pl /\
  (forall n, 0 < n -> supplied n s -> a <> 0 /\ supplied (n - 1) s') /\
  (a = 0 \/ spare (nodes s') pl a /\ is_Some (nodes s' !! a) /\
     a ∉ preloads s' ++ filter (fun a => a <> 0) (answers s')).
Proof.
  intros Hsp. destruct (kmem_cache_alloc_spec s pl Hsp) as (s1 & a & E & Hr & Hf & Hp & Hag & Hsp1 & Hsup & Ha).
  unfold radix_tree_node_alloc. rewrite E. unfold supplied.
  destruct ((a =? 0) && _) eqn:Ec; [apply andb_true_iff in Ec as [E0 Ew]; destruct (preloads s1) as [|b rest] eqn:Ep|].
  - cbn. apply Z.eqb_eq in E0. subst a. cbn. exists s1, 0. rewrite Ep in *. split_and!; try (done || by left).
    intros n Hn [[_ H]|[H H']]; [rewrite <- Hp in H; simpl in H; lia|].
    destruct (Hsup n H Hn H') as [? ?]. done.
  - destruct Hsp1 as [Hnd Hs1 Hpre]. rewrite Ep in *.
    assert (spare (nodes s1) pl b) as Hb by (apply Hs1; set_solver).
    rewrite (ptr_direct b) by apply Hb. eexists _, b. split; [done|]. cbn [root freed nodes preloads answers].
    split_and!; try done.
    + constructor; cbn [nodes preloads answers]; [|intros x Hx; apply Hs1; set_solver|intros x Hx; apply Hpre; set_solver].
      cbn in Hnd. by apply NoDup_cons in Hnd as [_ ?].
    + intros n Hn [[Hw H]|[H H']]; (split; [destruct Hb as [[? _] _]; lia|]).
      * left. rewrite Hr. split; [done|]. rewrite <- Hp in H. simpl in H. lia.
      * apply Z.eqb_eq in E0. by destruct (Hsup n H Hn H').
    + right. split_and!; [done | apply Hpre; set_solver|]. cbn in Hnd. by apply NoDup_cons in Hnd as [? _].
  - destruct (radix_tree_is_indirect_ptr a) eqn:Ei.
    { destruct Ha as [->|[Ha _]]; [done|]. rewrite (ptr_direct a) in Ei by apply Ha. done. }
    exists s1, a. split; [done|]. split_and!; try done.
    intros n Hn [[Hw H]|[H H']].
    + rewrite Hw, andb_true_r in Ec. apply Z.eqb_neq in Ec. split; [done|]. left. rewrite Hr, Hp. split; [done | lia].
    + destruct (Hsup n H Hn H') as (? & ? & ?). split; [done|]. right. done.
Qed.

(** ** Writing the slot of a leaf *)

Lemma spares_change s s' pl pl' : spares s pl -> preloads s' = preloads s -> answers s' = answers s ->
  (forall b, (forall x, pl !! x <> Some b) -> nodes s' !! b = nodes s !! b) ->
  (forall x b, pl' !! x = Some b -> exists y, pl !! y = Some b) -> spares s' pl'.
Proof.
  intros [Hnd Hsp Hpre] Hp Ha Hn Hpl. constructor; rewrite Hp, ?Ha; [done|..].
  - intros b Hb. destruct (Hsp b Hb) as (H1 & H2 & H3). split_and!; [done| |by rewrite Hn].
    intros x Hx. destruct (Hpl x b Hx) as [y Hy]. by apply (H2 y).
  - intros b Hb. rewrite Hn; [by apply Hpre|]. apply Hsp, elem_of_app. by left.
Qed.

Lemma pre1_index index q i : 0 <= i < 64 -> index = 64 * q + i <-> pre 1 index = q /\ index mod 64 = i.
Proof. intros Hi. unfold pre. change (64 ^ 1) with 64. word_lia. Qed.

(** The word that the leaf (1, q) holds for its indices. *)
Lemma leaf_update {A} (m : gmap Z radix_tree_node) pl q a nd' (f : radix_tree_node -> Z -> A) d index r :
  shape r m pl -> pl !! (1, q) = Some a ->
  match pl !! (1, pre 1 index) with
  | Some b => match <[a := nd']> m !! b with Some nd => f nd (index mod 64) | None => d end | None => d end =
  if pre 1 index =? q then f nd' (index mod 64)
  else match pl !! (1, pre 1 index) with
       | Some b => match m !! b with Some nd => f nd (index mod 64) | None => d end | None => d end.
Proof.
  intros Hs Ha. destruct (Z.eqb_spec (pre 1 index) q) as [->|Hq].
  - by rewrite Ha, lookup_insert_eq.
  - destruct (pl !! (1, pre 1 index)) as [b|] eqn:Eb; [|done]. rewrite lookup_insert_ne; [done|].
    intros ->. pose proof (sh_inj _ _ _ Hs _ _ _ Ha Eb) as [= ?]. done.
Qed.

Lemma leaf_write s pl q a nd i v nd' : inv s pl -> pl !! (1, q) = Some a -> nodes s !! a = Some nd ->
  0 <= i < 64 -> v = 0 \/ ptr_ok v -> nheight nd' = nheight nd -> tags nd' = tags nd ->
  length (slots nd') = 64%nat -> count nd' = nz (slots nd') ->
  slot nd' i = v -> (forall j, j <> i -> slot nd' j = slot nd j) ->
  (v = 0 -> forall t, 0 <= t < 2 -> Z.testbit (tag_word nd t) i = false) ->
  inv (set_node s a nd') pl /\
  (forall index, content (set_node s a nd') pl index = if index =? 64 * q + i then v else content s pl index) /\
  (forall index t, tagged (set_node s a nd') pl index t = tagged s pl index t).
Proof.
  intros [Hs Ht Hsp] Ha Hm Hi Hv Hh Htags Hlen Hcount Hsl Hso Hbit.
  destruct (place_node _ _ _ Hs _ _ _ Ha) as (nd0 & Hm0 & Ho). assert (nd0 = nd) as -> by congruence. clear Hm0.
  assert (forall t, tag_word nd' t = tag_word nd t) as Htw by (intros t; unfold tag_word; by rewrite Htags).
  assert (forall b bd, b <> a -> <[a := nd']> (nodes s) !! b = Some bd -> nodes s !! b = Some bd) as Hne
    by (intros b bd Hb; by rewrite lookup_insert_ne by done).
  assert (forall b bd, <[a := nd']> (nodes s) !! b = Some bd ->
    exists bd0, nodes s !! b = Some bd0 /\ forall t, tag_word bd t = tag_word bd0 t) as Hold.
  { intros b bd Hb. destruct (decide (b = a)) as [->|]; [|by exists bd; split; [apply Hne|]].
    rewrite lookup_insert_eq in Hb. injection Hb as <-. by exists nd. }
  pose proof (place_level _ _ _ Hs _ _ _ Ha) as Hlev. split; [|split].
  - constructor; cbn [root nodes set_node].
    + apply (shape_replace _ _ _ 1 q); [done..|]. constructor; try done; [by rewrite Hh; apply Ho | rewrite Htags; apply Ho|].
      intros _ j Hj. destruct (decide (j = i)) as [->|Hji]; [by rewrite Hsl | rewrite Hso by done; by apply (no_items _ _ _ _ Ho)].
    + intros t Ht2. pose proof (Ht t Ht2) as Hti. constructor.
      * intros q' b bd j Hb Hbd Hj Hjb. destruct (decide (b = a)) as [->|Hba].
        -- rewrite lookup_insert_eq in Hbd. injection Hbd as <-. rewrite Htw in Hjb.
           destruct (decide (j = i)) as [->|Hji].
           ++ rewrite Hsl. destruct Hv as [->|[? _]]; [by rewrite Hbit in Hjb | lia].
           ++ rewrite Hso by done. by apply (ti_item _ _ _ _ _ Hti q' a).
        -- by apply (ti_item _ _ _ _ _ Hti q' b); [|apply Hne|..].
      * intros l q' b bd j Hb (bd0 & Hbm & Hw)%Hold. rewrite Hw. by apply (ti_none _ _ _ _ _ Hti l q' b).
      * intros l q' b bd j c cd Hb (bd0 & Hbm & Hw)%Hold Hl Hj Hc (cd0 & Hcm & Hwc)%Hold. unfold any_tag.
        rewrite Hw, Hwc. by apply (ti_some _ _ _ _ _ Hti l q' b bd0 j c cd0).
      * intros b bd Hb (bd0 & Hbm & Hw)%Hold. unfold any_tag. rewrite Hw. by apply (ti_root _ _ _ _ _ Hti b).
      * apply Hti.
    + eapply (spares_change s _ pl); try done; [|eauto]. intros b Hb. apply lookup_insert_ne. intros <-. by apply (Hb (1, q)).
  - intros index. unfold content, leaf_item. cbn [root nodes set_node].
    rewrite (proj2 (Z.eqb_neq (height (root s)) 0)) by lia.
    rewrite (leaf_update _ _ q a _ slot 0 index (root s)) by done. pose proof (pre1_index index q i Hi) as Hp.
    destruct (Z.eqb_spec index (64 * q + i)) as [E|E]; [apply Hp in E as [-> ->]; by rewrite Z.eqb_refl|].
    destruct (Z.eqb_spec (pre 1 index) q) as [E'|E']; [|done]. rewrite E', Ha, Hm. apply Hso. by intros ?; apply E, Hp.
  - intros index t. unfold tagged, leaf_tag. cbn [root nodes set_node].
    rewrite (leaf_update _ _ q a _ (fun nd i => Z.testbit (tag_word nd t) i) false index (root s)) by done.
    rewrite Htw. destruct (Z.eqb_spec (pre 1 index) q) as [E'|E']; [by rewrite E', Ha, Hm | done].
Qed.

(** ** Reading a tag *)

Section tag_path.
  Context (r : radix_tree_root) (m : gmap Z radix_tree_node) (pl : places) (t : Z).
  Context (Hs : shape r m pl) (Ht : tag_inv r m pl no_ex t).

  (** A tag below is seen in every node above. *)
Lemma tag_above index (d : nat) nd a b i : 0 <= index -> 1 + Z.of_nat d <= height r ->
    pl !! (1, pre 1 index) = Some a -> m !! a = Some nd ->
    pl !! (1 + Z.of_nat d, pre (1 + Z.of_nat d) index) = Some b ->
    i = pre (Z.of_nat d) index mod 64 -> Z.testbit (tag_word nd t) (index mod 64) = true ->
    exists bd, m !! b = Some bd /\ Z.testbit (tag_word bd t) i = true.
  Proof.
    intros Hi. revert b i. induction d as [|d IH]; intros b i Hd Ha Hm Hb -> Hbit.
    - change (1 + Z.of_nat 0) with 1 in Hb. exists nd. rewrite pre_0. split; congruence.
    - set (l := 1 + Z.of_nat (S d)) in *.
      destruct (pre_chain _ _ _ Hs 1 (l - 1) index a) as [c Hc]; [lia..|done|].
      replace (1 + Z.of_nat d) with (l - 1) in IH by lia.
      destruct (IH c _ ltac:(lia) Ha Hm Hc eq_refl Hbit) as (cd & Hcm & Hcb).
      destruct (place_node _ _ _ Hs _ _ _ Hb) as (bd & Hbm & Hob). exists bd. split; [done|].
      replace (Z.of_nat (S d)) with (l - 1) by lia.
      rewrite (ti_some _ _ _ _ _ Ht l (pre l index) b bd (pre (l - 1) index mod 64) c cd);
        try done; [by eapply any_tag_bit | lia | apply Z.mod_pos_bound; lia | by rewrite <- pre_pred by lia |].
      intros [=]. lia.
  Qed.

Lemma leaf_tag_root index : 1 <= height r -> 0 <= index -> leaf_tag m pl index t = true -> root_tag_get r t = true.
  Proof.
    intros Hh Hi. unfold leaf_tag. destruct (pl !! (1, pre 1 index)) as [a|] eqn:Ha; [|done].
    destruct (m !! a) as [nd|] eqn:Hm; [|done]. intros Hbit.
    destruct (pre_chain _ _ _ Hs 1 (height r) index a) as [b Hb]; [lia..|done|].
    pose proof Hb as Hb'. replace (height r) with (1 + Z.of_nat (Z.to_nat (height r - 1))) in Hb' by lia.
    destruct (tag_above index (Z.to_nat (height r - 1)) nd a b _ Hi ltac:(lia) Ha Hm Hb' eq_refl Hbit) as (bd & Hbm & Hbb).
    destruct (sh_dom _ _ _ Hs _ _ _ Hb) as (_ & _ & _ & E). rewrite E in Hb by done.
    rewrite (ti_root _ _ _ _ _ Ht b bd Hb Hbm); [by eapply any_tag_bit|]. intros [=]. lia.
  Qed.

Lemma leaf_tag_eq index a nd : pl !! (1, pre 1 index) = Some a -> m !! a = Some nd ->
    leaf_tag m pl index t = Z.testbit (tag_word nd t) (index mod 64).
  Proof. intros Ha Hm. unfold leaf_tag. by rewrite Ha, Hm. Qed.

Lemma tag_get_down_S n node index shift saw : tag_get_down (S (S n)) m node index shift t saw =
    (if node =? 0 then Some false else
     nd ← m !! node;
     b ← tag_get nd t (offset_of index shift);
     node ← rd (slots nd) (offset_of index shift);
     tag_get_down (S n) m node index (u32 (shift - RADIX_TREE_MAP_SHIFT)) t (saw || negb b)).
  Proof. done. Qed.

Lemma tag_get_down_spec (n : nat) index node saw : is_u32 index -> 0 <= t < 2 -> 1 + Z.of_nat n <= height r ->
    node = default 0 (pl !! (1 + Z.of_nat n, pre (1 + Z.of_nat n) index)) ->
    (saw = true -> leaf_tag m pl index t = false) ->
    tag_get_down (S n) m node index (6 * Z.of_nat n) t saw = Some (leaf_tag m pl index t).
  Proof.
    intros Hi Ht2. revert node saw. induction n as [|n IH]; intros node saw Hn -> Hsaw; pose proof (sh_height _ _ _ Hs) as H6.
    - cbn [tag_get_down]. change (1 + Z.of_nat 0) with 1. change (6 * Z.of_nat 0) with (6 * (1 - 1)).
      destruct (pl !! (1, pre 1 index)) as [a|] eqn:Ha.
      + change (default 0 (Some a)) with a. destruct (place_node _ _ _ Hs _ _ _ Ha) as (nd & Hm & Ho).
        rewrite (ptr_nonzero a) by (by eapply place_ptr). rewrite Hm, some_bind.
        rewrite tag_get_eq, some_bind by (done || apply Ho). rewrite (offset_pre 1 index), Z.sub_diag, pre_0 by lia.
        rewrite (leaf_tag_eq _ _ _ Ha Hm) in *. destruct (Z.testbit _ _); [|done]. destruct saw; [|done]. by specialize (Hsaw eq_refl).
      + cbn. unfold leaf_tag. by rewrite Ha.
    - rewrite tag_get_down_S. set (l := 1 + Z.of_nat (S n)) in *. replace (6 * Z.of_nat (S n)) with (6 * (l - 1)) by lia.
      destruct (pl !! (l, pre l index)) as [a|] eqn:Ha.
      + change (default 0 (Some a)) with a. destruct (place_node _ _ _ Hs _ _ _ Ha) as (nd & Hm & Ho).
        rewrite (ptr_nonzero a) by (by eapply place_ptr). rewrite Hm, some_bind.
        rewrite tag_get_eq, some_bind by (done || apply Ho).
        rewrite (rd_slot _ _ _ Hs _ _ _ _ _ Ha Hm (offset_range _ _)), some_bind.
        rewrite next_shift by lia. rewrite offset_pre, (slot_down _ _ _ Hs _ _ _ _ Ha Hm) by lia.
        replace (6 * (l - 1 - 1)) with (6 * Z.of_nat n) by lia. replace (l - 1) with (1 + Z.of_nat n) by lia.
        apply IH; [lia|done|]. intros [Hsw|Hb]%orb_true_iff; [by apply Hsaw|].
        destruct (leaf_tag m pl index t) eqn:El; [|done]. exfalso. unfold leaf_tag in El.
        destruct (pl !! (1, pre 1 index)) as [c|] eqn:Hc; [|done]. destruct (m !! c) as [cd|] eqn:Hcm; [|done].
        destruct (tag_above index (S n) cd c a _ ltac:(apply Hi) Hn Hc Hcm Ha eq_refl El) as (bd & Hbm & Hbb).
        assert (bd = nd) as -> by congruence. replace (Z.of_nat (S n)) with (1 + Z.of_nat n) in Hbb by lia. by rewrite Hbb in Hb.
      + cbn. unfold leaf_tag. destruct (pl !! (1, pre 1 index)) as [c|] eqn:Hc; [|done].
        destruct (pre_chain _ _ _ Hs 1 l index c) as [p Hp]; [lia..|apply Hi|done|]. congruence.
  Qed.
End tag_path.

Lemma tag_get_spec s pl index t : inv s pl -> is_u32 index -> 0 <= t < 2 ->
  radix_tree_tag_get s index t = Some (tagged s pl index t).
Proof.
  intros Hinv Hi Ht. pose proof (inv_shape _ _ Hinv) as Hs. pose proof (inv_tags _ _ Hinv t Ht) as Hti.
  pose proof (sh_height _ _ _ Hs) as H6. unfold radix_tree_tag_get, tagged.
  destruct (root_tag_get (root s) t) eqn:Er; cbn [negb].
  - destruct (root_cases _ _ Hs) as [[Hr ->]|[(Hh & Hr & ->)|(a & nd & Hh & Hr & Hp & Ha & Hm & Ho)]].
    + by destruct (ti_root_none _ _ _ _ _ Hti (lookup_empty _) Er).
    + rewrite (ptr_nonzero _ Hr), (ptr_direct _ Hr), Hh. cbn. by rewrite andb_true_r.
    + rewrite Hr, indirect_nonzero, indirect_is_indirect, to_ptr_indirect, Hm, some_bind by done. cbn [negb].
      rewrite (no_height _ _ _ _ Ho). destruct (maxindex_spec (height (root s)) index) as (mx & -> & _ & Hmx); [lia | done|].
      rewrite some_bind, Hmx, (proj2 (Z.eqb_neq (height (root s)) 0)) by lia.
      destruct (Z.eqb_spec (pre (height (root s)) index) 0) as [E|E]; cbn [negb].
      * rewrite top_shift_eq by lia. set (n := Z.to_nat (height (root s) - 1)).
        replace (Z.to_nat (height (root s))) with (S n) by lia.
        replace (6 * (height (root s) - 1)) with (6 * Z.of_nat n) by lia.
        apply (tag_get_down_spec (root s)); try done; [lia|].
        replace (1 + Z.of_nat n) with (height (root s)) by lia. by rewrite E, Ha.
      * unfold leaf_tag. by rewrite (leaf_beyond _ _ _ Hs index) by (done || lia || apply Hi).
  - destruct (Z.eqb_spec (height (root s)) 0) as [E|E]; [by rewrite andb_false_r|].
    destruct (leaf_tag (nodes s) pl index t) eqn:El; [|done].
    apply (leaf_tag_root _ _ _ _ Hs Hti) in El; [congruence | lia | apply Hi].
Qed.

(** ** Empty trees *)

(** A tree that holds nothing, with its pool and the answers to come. *)
Lemma wf_init mask m pool ans fr : 0 <= mask < 2 ^ 21 -> NoDup (pool ++ filter (fun a => a <> 0) ans) ->
  Forall ptr_ok (pool ++ filter (fun a => a <> 0) ans) ->
  (forall a nd, m !! a = Some nd -> zeroed nd) -> (forall a, a ∈ pool -> is_Some (m !! a)) ->
  inv (mk_radix (RADIX_TREE_INIT mask) m pool ans fr) ∅.
Proof.
  intros Hmask Hnd Hp Hm Hpool. unfold RADIX_TREE_INIT. constructor; cbn [root nodes].
  - constructor; cbn [height rnode]; [lia | by left | intros *; by rewrite lookup_empty..].
  - intros t Ht. constructor; try (intros *; by rewrite lookup_empty). cbn [height rnode]. intros _.
    rewrite root_tag_testbit by done. cbn [gfp_mask]. by rewrite (testbit_high mask 21) by lia.
  - constructor; [done| |done]. intros a Ha. rewrite Forall_forall in Hp. split_and!; [by apply Hp | | by apply Hm].
    intros x. by rewrite lookup_empty.
Qed.

(** ** The way to an index *)

Lemma pre_range l index : 0 <= l -> is_u32 index -> 0 <= pre l index /\ pre l index * 64 ^ l < 2 ^ 32.
Proof.
  intros Hl [H0 H1]. split; [by apply pre_nonneg|]. unfold pre.
  pose proof (Z.mul_div_le index (64 ^ l)). pose proof (Z.pow_pos_nonneg 64 l). lia.
Qed.

Lemma pre_step l index : 0 <= l -> pre l index / 64 = pre (l + 1) index.
Proof. intros. by rewrite pre_succ. Qed.

(** What the slot above the place of [index] at level [h] holds. *)
Definition below (s : radix) (pl : places) (h index : Z) : Z :=
  if h =? 0 then content s pl index else default 0 (pl !! (h, pre h index)).

Lemma below_slot s pl h index node nd : shape (root s) (nodes s) pl -> is_u32 index -> 0 <= h ->
  pl !! (h + 1, pre (h + 1) index) = Some node -> nodes s !! node = Some nd ->
  rd (slots nd) (pre h index mod 64) = Some (below s pl h index).
Proof.
  intros Hs Hi Hh Ha Hm. pose proof (place_level _ _ _ Hs _ _ _ Ha).
  rewrite (rd_slot _ _ _ Hs _ _ _ _ _ Ha Hm) by (apply Z.mod_pos_bound; lia). f_equal. unfold below.
  destruct (Z.eqb_spec h 0) as [->|Hne].
  - rewrite pre_0. unfold content. rewrite (proj2 (Z.eqb_neq (height (root s)) 0)) by lia. symmetry.
    by apply leaf_item_eq with (a := node).
  - pose proof (slot_down _ _ _ Hs (h + 1) index node nd Ha Hm ltac:(lia)) as E.
    by replace (h + 1 - 1) with h in E by lia.
Qed.

Lemma below_zero s pl h index : shape (root s) (nodes s) pl -> is_u32 index -> 1 <= h <= height (root s) -> below s pl h index = 0 ->
  pl !! (h, pre h index) = None /\ content s pl index = 0.
Proof.
  intros Hs [Hi _] Hh. unfold below. rewrite (proj2 (Z.eqb_neq h 0)) by lia.
  intros E%(default_zero _ _ _ Hs). split; [done|]. unfold content.
  rewrite (proj2 (Z.eqb_neq (height (root s)) 0)) by lia. by apply (leaf_item_none _ _ _ Hs h).
Qed.

Lemma top_slot s pl index : shape (root s) (nodes s) pl -> is_u32 index -> pre (height (root s)) index = 0 ->
  below s pl (height (root s)) index = radix_tree_indirect_to_ptr (rnode (root s)) /\
  (below s pl (height (root s)) index = 0 <-> rnode (root s) = 0).
Proof.
  intros Hs Hi Hp. unfold below.
  destruct (root_cases _ _ Hs) as [[Hr ->]|[(Hh & Hr & ->)|(a & nd & Hh & Hr & Hpt & Ha & Hm & Ho)]].
  - rewrite Hr, content_null, lookup_empty by done. by destruct (_ =? 0).
  - rewrite Hh in *. cbn. rewrite pre_0 in Hp. subst index. unfold content. rewrite Hh. cbn. by rewrite to_ptr_direct.
  - rewrite (proj2 (Z.eqb_neq _ 0)), Hp, Ha, Hr, to_ptr_indirect by (done || lia). split; [done|].
    cbn. destruct Hpt. pose proof (indirect_nonzero a) as E. apply Z.eqb_neq in E. lia.
Qed.

Lemma content_beyond s pl index : shape (root s) (nodes s) pl -> is_u32 index -> pre (height (root s)) index <> 0 -> content s pl index = 0.
Proof.
  intros Hs [Hi _] Hp. pose proof (sh_height _ _ _ Hs). unfold content.
  destruct (Z.eqb_spec (height (root s)) 0) as [E|E].
  - destruct (Z.eqb_spec index 0) as [->|]; [|done]. by rewrite E, pre_0 in Hp.
  - unfold leaf_item. by rewrite (leaf_beyond _ _ _ Hs) by (done || lia).
Qed.
