(* ===== verification/RadixInsert.v ===== *)
(** * Radix trees: insertion (lib/radix-tree.c)

    radix_tree_insert and radix_tree_extend, with failing allocations.  The
    changes they make to a tree, a node linked below another one or above the
    top, are lemmas on the places of RadixTree.v. *)

From S2P Require Import Prelude RadixTree.

#[local] Open Scope Z_scope.

(** ** A node linked below another *)

(** [s'] holds the same items and tags. *)
Definition same (s : radix) (pl : places) (s' : radix) (pl' : places) : Prop :=
  forall index, is_u32 index -> content s' pl' index = content s pl index /\
    forall t, 0 <= t < 2 -> tagged s' pl' index t = tagged s pl index t.

Lemma same_refl s pl : same s pl s pl.
Proof. by intros. Qed.
Lemma same_trans s1 pl1 s2 pl2 s3 pl3 : same s1 pl1 s2 pl2 -> same s2 pl2 s3 pl3 -> same s1 pl1 s3 pl3.
Proof.
  intros H H' i Hi. destruct (H i Hi) as [E F], (H' i Hi) as [E' F']. split; [congruence|].
  intros t Ht. rewrite F', F by done. done.
Qed.

Lemma zeroed_node_ok pl l q nd : zeroed nd -> nheight nd = l ->
  (2 <= l -> forall i, 0 <= i < 64 -> pl !! (l - 1, 64 * q + i) = None) -> node_ok pl l q nd.
Proof.
  intros Hz Hh Hc. pose proof Hz as (H1 & H2 & H3). constructor; try done.
  - rewrite H1, H2. done.
  - by rewrite H2.
  - rewrite H3. split; [done|]. by repeat constructor.
  - intros _ i Hi. left. by apply zeroed_slot.
  - intros Hl i Hi. by rewrite Hc, zeroed_slot.
Qed.

Lemma leaf_item_zeroed m pl index a nd : pl !! (1, pre 1 index) = Some a -> m !! a = Some nd ->
  zeroed nd -> leaf_item m pl index = 0.
Proof. intros Ha Hm Hz. unfold leaf_item. rewrite Ha, Hm. by apply zeroed_slot. Qed.

Section link.
  Context (r : radix_tree_root) (m : gmap Z radix_tree_node) (pl : places) (Hs : shape r m pl).
  Context (l q a i c : Z) (nd nd' cd : radix_tree_node).
  Context (Ha : pl !! (l, q) = Some a) (Hm : m !! a = Some nd) (Hl : 2 <= l) (Hi : 0 <= i < 64).
  Context (Hfree : pl !! (l - 1, 64 * q + i) = None) (Hq : (64 * q + i) * 64 ^ (l - 1) < 2 ^ 32).
  Context (Hc : spare m pl c) (Hcd : zeroed cd) (Hch : nheight cd = l - 1).
  Context (Hnd : nheight nd' = nheight nd) (Hcount : count nd' = u32 (count nd + 1)) (Htags : tags nd' = tags nd).
  Context (Hlen : length (slots nd') = 64%nat) (Hnz : nz (slots nd') = nz (slots nd) + 1).
  Context (Hslot : slot nd' i = c) (Hother : forall j, j <> i -> slot nd' j = slot nd j).

  Abbreviation m1 := (<[a := nd']> (<[c := cd]> m)).
  Abbreviation pl1 := (<[(l - 1, 64 * q + i) := c]> pl).

Lemma link_ne : c <> a.
  Proof. intros ->. destruct Hc as (_ & H & _). by apply (H (l, q)). Qed.

Lemma link_parent l' q' j : 0 <= j < 64 -> (l' - 1, 64 * q' + j) = (l - 1, 64 * q + i) -> l' = l /\ q' = q /\ j = i.
  Proof. intros Hj [= H1 H2]. lia. Qed.

Lemma link_shape : shape r m1 pl1.
  Proof.
    pose proof link_ne as Hne. destruct Hc as (Hcp & Hcn & Hcz).
    destruct (sh_dom _ _ _ Hs _ _ _ Ha) as (Hlh & Hq0 & Hqr & Hq1). constructor.
    - apply Hs.
    - destruct (sh_root _ _ _ Hs) as [[_ ->]|[(_ & _ & ->)|(H & b & Hr & Hb)]]; [done..|].
      right. right. split; [done|]. exists b. split; [done|]. rewrite lookup_insert_ne; [done|]. intros [=]. lia.
    - intros l' q' b [[[= <- <-] <-]|[_ Hb]]%lookup_insert_Some; [|by apply (sh_dom _ _ _ Hs _ _ b)].
      split_and!; [lia..|done|lia].
    - intros x y b [[<- <-]|[_ Hx]]%lookup_insert_Some [[<- E]|[_ Hy]]%lookup_insert_Some; subst; try done.
      + by apply Hcn in Hy.
      + by apply Hcn in Hx.
      + by apply (sh_inj _ _ _ Hs _ _ b).
    - intros l' q' b Hb Hlt.
      assert (exists p, pl !! (l' + 1, q' / 64) = Some p) as [p Hp].
      { apply lookup_insert_Some in Hb as [[[= <- <-] <-]|[_ Hb]]; [|by apply (sh_up _ _ _ Hs _ _ b)].
        exists a. rewrite <- Ha. f_equal. f_equal; [lia|]. rewrite Z.mul_comm, Z.div_add_l, Z.div_small by lia. lia. }
      destruct (decide ((l' + 1, q' / 64) = (l - 1, 64 * q + i))) as [->|E]; [rewrite lookup_insert_eq; eauto|].
      rewrite lookup_insert_ne by done. eauto.
    - intros l' q' b [[[= <- <-] <-]|[Hk Hb]]%lookup_insert_Some.
      + split; [done|]. exists cd. rewrite lookup_insert_ne, lookup_insert_eq by done. split; [done|].
        apply zeroed_node_ok; [done..|]. intros Hl2 j Hj. rewrite lookup_insert_ne by (intros [=]; lia).
        destruct (pl !! (l - 1 - 1, 64 * (64 * q + i) + j)) as [b|] eqn:E; [|done].
        apply (sh_up _ _ _ Hs) in E as [p E]; [|lia]. revert E. rewrite Z.mul_comm, Z.div_add_l, Z.div_small by lia.
        replace (l - 1 - 1 + 1) with (l - 1) by lia. rewrite Z.add_0_r. by rewrite Hfree.
      + destruct (sh_node _ _ _ Hs _ _ _ Hb) as (Hbp & bd & Hbm & Ho). split; [done|].
        destruct (decide (b = a)) as [->|Hba].
        * rewrite lookup_insert_eq. exists nd'. split; [done|].
          pose proof (sh_inj _ _ _ Hs _ _ _ Ha Hb) as [= -> ->]. assert (bd = nd) as -> by congruence.
          constructor; rewrite ?Hnd, ?Hcount, ?Htags, ?Hnz; try apply Ho; try done; [|lia|].
          -- rewrite (no_count _ _ _ _ Ho), u32_small; [done|]. pose proof (nz_range (slots nd)).
             pose proof (no_slots _ _ _ _ Ho). unfold is_u32. lia.
          -- intros Hl' j Hj. destruct (decide (j = i)) as [->|Hji].
             ++ by rewrite Hslot, lookup_insert_eq.
             ++ rewrite Hother, lookup_insert_ne by (done || intros [=]; lia). by apply (no_children _ _ _ _ Ho).
        * assert (b <> c) by (intros ->; by apply Hcn in Hb).
          rewrite !lookup_insert_ne by done. exists bd. split; [done|].
          constructor; try apply Ho. intros Hl' j Hj. rewrite (no_children _ _ _ _ Ho) by done.
          rewrite lookup_insert_ne; [done|]. intros E. symmetry in E. apply link_parent in E as (-> & -> & ->); [|done].
          congruence.
  Qed.

Lemma link_tag_word t : tag_word nd' t = tag_word nd t.
  Proof. unfold tag_word. by rewrite Htags. Qed.

  (** What [m1] holds at the places of [pl]. *)
Lemma link_old x b bd : pl !! x = Some b -> m1 !! b = Some bd ->
    exists bd0, m !! b = Some bd0 /\ (forall t, tag_word bd t = tag_word bd0 t) /\
      (b = a -> bd = nd' /\ bd0 = nd) /\ (b <> a -> bd = bd0).
  Proof.
    intros Hb Hbd. destruct (decide (b = a)) as [->|Hba].
    - rewrite lookup_insert_eq in Hbd. injection Hbd as <-. exists nd. split_and!; try done. apply link_tag_word.
    - assert (c <> b) by (intros ->; destruct Hc as (_ & H & _); by apply (H x)).
      rewrite !lookup_insert_ne in Hbd by done. by exists bd.
  Qed.

Lemma link_tags t : tag_inv r m pl no_ex t -> tag_inv r m1 pl1 no_ex t.
  Proof.
    intros Ht. pose proof link_ne as Hne. constructor.
    - intros q' b bd j [[[= E <-] <-]|[_ Hb]]%lookup_insert_Some Hbd Hj Hbit.
      + rewrite lookup_insert_ne, lookup_insert_eq in Hbd by done. injection Hbd as <-. by rewrite zeroed_tag, Z.testbit_0_l in Hbit.
      + destruct (link_old _ _ _ Hb Hbd) as (bd0 & Hbm & Htw & He & Hn).
        destruct (decide (b = a)) as [->|Hba].
        * pose proof (sh_inj _ _ _ Hs _ _ _ Ha Hb) as [= -> ->]. lia.
        * rewrite (Hn Hba). rewrite Htw in Hbit. by apply (ti_item _ _ _ _ _ Ht q' b).
    - intros l' q' b bd j [[[= <- <-] <-]|[_ Hb]]%lookup_insert_Some Hbd Hl' Hj Hnone.
      + rewrite lookup_insert_ne, lookup_insert_eq in Hbd by done. injection Hbd as <-. by rewrite zeroed_tag, Z.testbit_0_l.
      + apply lookup_insert_None in Hnone as [Hnone _].
        destruct (link_old _ _ _ Hb Hbd) as (bd0 & Hbm & Htw & _ & _). rewrite Htw.
        by apply (ti_none _ _ _ _ _ Ht l' q' b).
    - intros l' q' b bd j d dd [[[= <- <-] <-]|[_ Hb]]%lookup_insert_Some Hbd Hl' Hj Hd Hdd Hex.
      + rewrite lookup_insert_ne, lookup_insert_eq in Hbd by done. injection Hbd as <-.
        rewrite zeroed_tag, Z.testbit_0_l by done. exfalso.
        rewrite lookup_insert_ne in Hd by (intros [=]; lia). apply (sh_up _ _ _ Hs) in Hd as [p Hp];
          [|destruct (sh_dom _ _ _ Hs _ _ _ Ha); lia]. revert Hp. rewrite Z.mul_comm, Z.div_add_l, Z.div_small by lia.
        replace (l - 1 - 1 + 1) with (l - 1) by lia. rewrite Z.add_0_r. by rewrite Hfree.
      + destruct (link_old _ _ _ Hb Hbd) as (bd0 & Hbm & Htw & _ & _). rewrite Htw.
        apply lookup_insert_Some in Hd as [[E <-]|[_ Hd]].
        * symmetry in E. apply link_parent in E as (-> & -> & ->); [|done].
          rewrite lookup_insert_ne, lookup_insert_eq in Hdd by done. injection Hdd as <-. rewrite zeroed_any by done.
          by apply (ti_none _ _ _ _ _ Ht l q b).
        * destruct (link_old _ _ _ Hd Hdd) as (dd0 & Hdm & Htd & _ & _). unfold any_tag. rewrite Htd.
          by apply (ti_some _ _ _ _ _ Ht l' q' b bd0 j d dd0).
    - intros b bd Hb Hbd Hex. rewrite lookup_insert_ne in Hb
        by (intros [=]; destruct (sh_dom _ _ _ Hs _ _ _ Ha); lia).
      destruct (link_old _ _ _ Hb Hbd) as (bd0 & Hbm & Htw & _ & _). unfold any_tag. rewrite Htw.
      by apply (ti_root _ _ _ _ _ Ht b).
    - rewrite lookup_insert_ne by (intros [=]; destruct (sh_dom _ _ _ Hs _ _ _ Ha); lia). apply Ht.
  Qed.

Lemma link_leaf index : leaf_item m1 pl1 index = leaf_item m pl index /\
    forall t, leaf_tag m1 pl1 index t = leaf_tag m pl index t.
  Proof.
    pose proof link_ne as Hne. unfold leaf_item, leaf_tag.
    destruct (decide ((l - 1, 64 * q + i) = (1, pre 1 index))) as [E|E].
    - rewrite <- E, lookup_insert_eq, Hfree, lookup_insert_ne, lookup_insert_eq by done.
      split; [by apply zeroed_slot|]. intros t. by rewrite zeroed_tag, Z.testbit_0_l.
    - rewrite lookup_insert_ne by done. destruct (pl !! (1, pre 1 index)) as [b|] eqn:Hb; [|done].
      destruct (place_node _ _ _ Hs _ _ _ Hb) as (bd0 & Hbm & Ho).
      assert (b <> a) by (intros ->; pose proof (sh_inj _ _ _ Hs _ _ _ Ha Hb) as [= ? ?]; lia).
      assert (b <> c) by (intros ->; destruct Hc as (_ & H' & _); by apply (H' (1, pre 1 index))).
      rewrite !lookup_insert_ne, Hbm by done. done.
  Qed.
End link.

(** ** The first node of a tree that has a height *)

Section first.
  Context (r : radix_tree_root) (m : gmap Z radix_tree_node) (Hs : shape r m ∅).
  Context (c : Z) (cd : radix_tree_node) (H0 : rnode r = 0) (Hh : 0 < height r).
  Context (Hc : spare m ∅ c) (Hcd : zeroed cd) (Hch : nheight cd = height r).

  Abbreviation r1 := (set_rnode r (radix_tree_ptr_to_indirect c)).
  Abbreviation m1 := (<[c := cd]> m).
  Abbreviation pl1 := {[(height r, 0) := c]}.

Lemma first_shape : shape r1 m1 pl1.
  Proof.
    pose proof (sh_height _ _ _ Hs) as Hh6. constructor; cbn [height rnode set_rnode].
    - done.
    - right. right. split; [done|]. exists c. by rewrite lookup_singleton_eq.
    - intros l q a [[= <- <-] <-]%lookup_singleton_Some. lia.
    - by intros x y a [<- <-]%lookup_singleton_Some [<- _]%lookup_singleton_Some.
    - intros l q a [[= <- <-] <-]%lookup_singleton_Some. lia.
    - intros l q a [[= <- <-] <-]%lookup_singleton_Some. split; [apply Hc|]. exists cd.
      rewrite lookup_insert_eq. split; [done|]. apply zeroed_node_ok; [done..|].
      intros Hl i Hi. apply lookup_singleton_None. intros [=]; lia.
  Qed.

Lemma first_tags t : tag_inv r m ∅ no_ex t -> tag_inv r1 m1 pl1 no_ex t.
  Proof.
    intros Ht. assert (root_tag_get r t = false) as Hrt.
    { destruct (root_tag_get r t) eqn:E; [|done]. apply (ti_root_none _ _ _ _ _ Ht (lookup_empty _)) in E as [_ E]. done. }
    constructor; cbn [height rnode set_rnode].
    - intros q a nd i [[= E <-] <-]%lookup_singleton_Some Hm. rewrite lookup_insert_eq in Hm. injection Hm as <-.
      by rewrite zeroed_tag, Z.testbit_0_l.
    - intros l q a nd i [[= <- <-] <-]%lookup_singleton_Some Hm. rewrite lookup_insert_eq in Hm. injection Hm as <-.
      by rewrite zeroed_tag, Z.testbit_0_l.
    - intros l q a nd i d dd [[= <- <-] <-]%lookup_singleton_Some _ _ _ [[=] _]%lookup_singleton_Some. lia.
    - intros a nd [_ <-]%lookup_singleton_Some Hm. rewrite lookup_insert_eq in Hm. injection Hm as <-.
      by rewrite zeroed_any.
    - by rewrite lookup_singleton_eq.
  Qed.

Lemma first_leaf index : leaf_item m1 pl1 index = 0 /\ forall t, leaf_tag m1 pl1 index t = false.
  Proof.
    unfold leaf_item, leaf_tag. destruct (decide ((height r, 0) = (1, pre 1 index))) as [E|E].
    - rewrite <- E, lookup_singleton_eq, lookup_insert_eq. split; [by apply zeroed_slot|]. intros t. by rewrite zeroed_tag, Z.testbit_0_l.
    - by rewrite lookup_singleton_ne.
  Qed.
End first.

(** ** A node above the top *)

Section above.
  Context (r : radix_tree_root) (m : gmap Z radix_tree_node) (pl : places) (Hs : shape r m pl).
  Context (c : Z) (cd : radix_tree_node) (H0 : rnode r <> 0) (Hh : height r < 6).
  Context (Hc : spare m pl c) (Hch : nheight cd = height r + 1) (Hcount : count cd = 1).
  Context (Htags : length (tags cd) = 2%nat /\ Forall is_u64 (tags cd)).
  Context (Hlen : length (slots cd) = 64%nat) (Hnz : nz (slots cd) = 1).
  Context (Hslot : slot cd 0 = radix_tree_indirect_to_ptr (rnode r)) (Hother : forall j, j <> 0 -> slot cd j = 0).
  Context (Hbit : forall t i, 0 <= t < 2 -> Z.testbit (tag_word cd t) i = (i =? 0) && root_tag_get r t).

  Abbreviation r1 := (mk_root (height r + 1) (gfp_mask r) (radix_tree_ptr_to_indirect c)).
  Abbreviation m1 := (<[c := cd]> m).
  Abbreviation pl1 := (<[(height r + 1, 0) := c]> pl).

  (** The old top: an item, or a node. *)
Lemma old_top : (height r = 0 /\ ptr_ok (rnode r) /\ pl = ∅ /\ slot cd 0 = rnode r) \/
    (0 < height r /\ pl !! (height r, 0) = Some (slot cd 0)).
  Proof.
    destruct (sh_root _ _ _ Hs) as [[? _]|[(Hz & Hr & ->)|(Hz & a & Hr & Ha)]]; [done|left|right].
    - rewrite Hslot, to_ptr_direct by done. done.
    - split; [done|]. rewrite Hslot, Hr, to_ptr_indirect by (by eapply place_ptr). done.
  Qed.

Lemma above_agree : agree m m1 pl.
  Proof. apply agree_insert. apply Hc. Qed.
Lemma above_free q : pl !! (height r + 1, q) = None.
  Proof. destruct (pl !! _) eqn:E; [|done]. destruct (sh_dom _ _ _ Hs _ _ _ E). lia. Qed.

Lemma above_node_ok : node_ok pl1 (height r + 1) 0 cd.
  Proof.
    pose proof (sh_height _ _ _ Hs) as Hh0. constructor; try done; [lia|..].
    - intros Hl i Hi. destruct (decide (i = 0)) as [->|Hi0]; [|by left; apply Hother]. right.
      destruct old_top as [(_ & ? & _ & ->)|[? _]]; [done | lia].
    - intros Hl i Hi. replace (height r + 1 - 1) with (height r) by lia.
      rewrite lookup_insert_ne by (intros [=]; lia). change (64 * 0 + i) with i.
      destruct old_top as [(? & _)|[_ Ht]]; [lia|]. destruct (decide (i = 0)) as [->|Hi0]; [by rewrite Ht|].
      rewrite Hother by done. destruct (pl !! (height r, i)) as [b|] eqn:Eb; [|done].
      destruct (sh_dom _ _ _ Hs _ _ _ Eb). lia.
  Qed.

Lemma above_shape : shape r1 m1 pl1.
  Proof.
    pose proof (sh_height _ _ _ Hs) as Hh0. constructor; cbn [height rnode].
    - lia.
    - right. right. split; [lia|]. exists c. by rewrite lookup_insert_eq.
    - intros l q a [[[= <- <-] <-]|[_ Ha]]%lookup_insert_Some; [lia|].
      destruct (sh_dom _ _ _ Hs _ _ _ Ha) as (? & ? & ? & ?). lia.
    - destruct Hc as (_ & Hcn & _).
      intros x y b [[<- <-]|[_ Hx]]%lookup_insert_Some [[<- E]|[_ Hy]]%lookup_insert_Some; subst; try done.
      + by apply Hcn in Hy.
      + by apply Hcn in Hx.
      + by apply (sh_inj _ _ _ Hs _ _ b).
    - intros l q a [[[= <- <-] <-]|[_ Ha]]%lookup_insert_Some Hl; [lia|].
      destruct (decide (l = height r)) as [->|Hne].
      + destruct (sh_dom _ _ _ Hs _ _ _ Ha) as (_ & _ & _ & ->); [|done]. exists c. apply lookup_insert_eq.
      + destruct (sh_up _ _ _ Hs _ _ _ Ha) as [p Hp]; [lia|]. exists p. rewrite lookup_insert_ne; [done|]. intros [=]. lia.
    - intros l q a [[[= <- <-] <-]|[_ Ha]]%lookup_insert_Some.
      + split; [apply Hc|]. exists cd. rewrite lookup_insert_eq. split; [done|]. apply above_node_ok.
      + destruct (sh_node _ _ _ Hs _ _ _ Ha) as (Hp & nd & Hm & Ho). split; [done|]. exists nd.
        rewrite (above_agree _ _ Ha). split; [done|]. constructor; try apply Ho. intros Hl i Hi.
        destruct (sh_dom _ _ _ Hs _ _ _ Ha). rewrite lookup_insert_ne by (intros [=]; lia). by apply Ho.
  Qed.

Lemma above_tags t : 0 <= t < 2 -> tag_inv r m pl no_ex t -> tag_inv r1 m1 pl1 no_ex t.
  Proof.
    intros Ht2 Ht. pose proof (sh_height _ _ _ Hs) as Hh0.
    constructor; cbn [height rnode]; change (root_tag_get r1 t) with (root_tag_get r t).
    - intros q a nd i [[[= E <-] <-]|[_ Ha]]%lookup_insert_Some Hm Hi.
      + rewrite lookup_insert_eq in Hm. injection Hm as <-. rewrite Hbit by done.
        destruct (Z.eqb_spec i 0) as [->|]; [|done]. intros _.
        destruct old_top as [(_ & ? & _ & ->)|[? _]]; [destruct H; lia | lia].
      + rewrite (above_agree _ _ Ha) in Hm. by apply (ti_item _ _ _ _ _ Ht q a).
    - intros l q a nd i [[[= <- <-] <-]|[_ Ha]]%lookup_insert_Some Hm Hl Hi Hn.
      + rewrite lookup_insert_eq in Hm. injection Hm as <-. rewrite Hbit by done.
        destruct (Z.eqb_spec i 0) as [->|]; [|done]. destruct old_top as [(? & _)|[_ Htop]]; [lia|].
        apply lookup_insert_None in Hn as [Hn _]. replace (height r + 1 - 1) with (height r) in Hn by lia. change (64 * 0 + 0) with 0 in Hn. by rewrite Htop in Hn.
      + rewrite (above_agree _ _ Ha) in Hm. apply lookup_insert_None in Hn as [Hn _].
        by apply (ti_none _ _ _ _ _ Ht l q a).
    - intros l q a nd i d dd [[[= <- <-] <-]|[_ Ha]]%lookup_insert_Some Hm Hl Hi Hd Hdd Hex.
      + rewrite lookup_insert_eq in Hm. injection Hm as <-. rewrite Hbit by done.
        replace (height r + 1 - 1) with (height r) in * by lia. change (64 * 0 + i) with i in *.
        rewrite lookup_insert_ne in Hd by (intros [=]; lia).
        destruct (sh_dom _ _ _ Hs _ _ _ Hd) as (_ & _ & _ & E). rewrite E in * by done. cbn.
        rewrite (above_agree _ _ Hd) in Hdd. apply (ti_root _ _ _ _ _ Ht d); [done..|]. intros [=]. lia.
      + destruct (sh_dom _ _ _ Hs _ _ _ Ha). rewrite lookup_insert_ne in Hd by (intros [=]; lia).
        rewrite (above_agree _ _ Ha) in Hm. rewrite (above_agree _ _ Hd) in Hdd.
        by apply (ti_some _ _ _ _ _ Ht l q a nd i d dd).
    - intros a nd Ha Hm _. rewrite lookup_insert_eq in Ha. injection Ha as <-.
      rewrite lookup_insert_eq in Hm. injection Hm as <-. destruct (any_tag cd t) eqn:E.
      + apply any_tag_true in E as (i & _ & Hib); [|apply Htags]. rewrite Hbit in Hib by done.
        by apply andb_true_iff in Hib as [_ ?].
      + pose proof (any_tag_false _ _ E 0) as Hb. by rewrite Hbit in Hb.
    - by rewrite lookup_insert_eq.
  Qed.

Lemma above_leaf index : 0 <= index ->
    leaf_item m1 pl1 index = (if height r =? 0 then if index =? 0 then rnode r else 0 else leaf_item m pl index) /\
    forall t, 0 <= t < 2 -> leaf_tag m1 pl1 index t =
      (if height r =? 0 then (index =? 0) && root_tag_get r t else leaf_tag m pl index t).
  Proof.
    intros Hi. pose proof (sh_height _ _ _ Hs) as Hh0. unfold leaf_item, leaf_tag.
    destruct (Z.eqb_spec (height r) 0) as [E|E].
    - destruct old_top as [(_ & _ & -> & Et)|[? _]]; [|lia]. rewrite E. change (0 + 1) with 1.
      destruct (Z.eqb_spec (pre 1 index) 0) as [Ep|Ep].
      + rewrite Ep, lookup_insert_eq, lookup_insert_eq. unfold pre in Ep.
        assert (index mod 64 = index) as -> by (apply Z.mod_small; change (64 ^ 1) with 64 in Ep; word_lia).
        split; [destruct (Z.eqb_spec index 0) as [->|]; [done | by apply Hother]|]. intros t Ht. by apply Hbit.
      + rewrite lookup_insert_ne by (intros [=]; lia). rewrite lookup_empty.
        destruct (Z.eqb_spec index 0) as [->|]; done.
    - rewrite lookup_insert_ne by (intros [=]; lia). destruct (pl !! _) as [b|] eqn:Eb; [|done].
      by rewrite (above_agree _ _ Eb).
  Qed.
End above.

(** ** The steps of an insertion *)

Lemma spares_grow s s' pl pl' c : spares s pl ->
  c ∉ preloads s ++ filter (fun a => a <> 0) (answers s) -> preloads s' = preloads s -> answers s' = answers s ->
  (forall b, b <> c -> (forall x, pl !! x <> Some b) -> nodes s' !! b = nodes s !! b) ->
  (forall x b, pl' !! x = Some b -> b = c \/ exists y, pl !! y = Some b) -> spares s' pl'.
Proof.
  intros [Hnd Hsp Hpre] Hc Hp Ha Hn Hpl. constructor; rewrite Hp, ?Ha; [done|..].
  - intros b Hb. destruct (Hsp b Hb) as (H1 & H2 & H3). assert (b <> c) by (by intros ->).
    split_and!; [done| |rewrite Hn by done; apply H3].
    intros x Hx. destruct (Hpl x b Hx) as [->|[y Hy]]; [done | by apply (H2 y)].
  - intros b Hb. assert (b ∈ preloads s ++ filter (fun a => a <> 0) (answers s)) as Hb' by (apply elem_of_app; by left).
    destruct (Hsp b Hb') as (H1 & H2 & H3). rewrite Hn; [by apply Hpre | | done]. by intros ->.
Qed.

(** The tree keeps its items and tags, and its height. *)
Record kept (s : radix) (pl : places) (s' : radix) (pl' : places) : Prop := mk_kept {
  kp_inv : inv s' pl';
  kp_height : height (root s') = height (root s);
  kp_gfp : gfp_mask (root s') = gfp_mask (root s);
  kp_same : same s pl s' pl'
}.

Lemma alloc_kept s pl : inv s pl -> exists s' a, radix_tree_node_alloc s = Some (s', a) /\
  root s' = root s /\ kept s pl s' pl /\
  (forall n, 0 < n -> supplied n s -> a <> 0 /\ supplied (n - 1) s') /\
  (a = 0 \/ spare (nodes s') pl a /\ is_Some (nodes s' !! a) /\
     a ∉ preloads s' ++ filter (fun a => a <> 0) (answers s')).
Proof.
  intros [Hs Ht Hsp]. destruct (node_alloc_spec s pl Hsp) as (s' & a & E & Hr & _ & Hag & Hsp' & Hsup & Ha).
  exists s', a. split_and!; try done. constructor; rewrite ?Hr; try done.
  - constructor; [rewrite Hr; by eapply shape_agree | | done].
    intros t Ht2. rewrite Hr. by apply (tag_inv_agree _ (nodes s)); [apply Ht|].
  - intros j Hj. unfold content, tagged. rewrite Hr, (leaf_item_agree (nodes s)) by done. split; [done|].
    intros t _. by rewrite (leaf_tag_agree (nodes s)).
Qed.

(** Where the walk of an insertion stands: above the place (l, q). *)
Definition parent_of (s : radix) (pl : places) (l q node offset : Z) : Prop :=
  (node = 0 /\ l = height (root s) /\ q = 0) \/
  (pl !! (l + 1, q / 64) = Some node /\ offset = q mod 64).

Lemma add_child_spec s pl l q node offset : inv s pl -> parent_of s pl l q node offset ->
  1 <= l <= height (root s) -> 0 <= q -> q * 64 ^ l < 2 ^ 32 -> pl !! (l, q) = None ->
  exists s' c pl', add_child s l node offset = Some (s', c) /\ kept s pl s' pl' /\
    (c = 0 \/ pl' !! (l, q) = Some c) /\ (forall n, 0 < n -> supplied n s -> c <> 0 /\ supplied (n - 1) s').
Proof.
  intros Hinv Hpar Hl Hq Hqr Hnone. unfold add_child.
  destruct (alloc_kept s pl Hinv) as (s1 & c & -> & Hr & Hk & Hsup & Hc). rewrite some_bind.
  destruct (Z.eqb_spec c 0) as [->|Hc0]; [exists s1, 0, pl; split_and!; try (done || by left)|].
  destruct Hc as [?|(Hcs & [cd Hcd] & Hcn)]; [done|]. rewrite Hcd, some_bind.
  pose proof (kp_inv _ _ _ _ Hk) as Hinv1. pose proof (inv_shape _ _ Hinv1) as Hs.
  destruct Hcs as (Hcp & Hcpl & Hcz). pose proof (Hcz _ Hcd) as Hz.
  destruct Hpar as [(-> & -> & ->)|[Hnode ->]]; cbn [negb Z.eqb].
  - assert (rnode (root s1) = 0 /\ pl = ∅) as [Hr0 ->].
    { destruct (sh_root _ _ _ Hs) as [?|[(Hh & _)|(_ & b & _ & Hb)]]; [done | rewrite Hr in Hh; lia | rewrite Hr in Hb; congruence]. }
    assert (spare (nodes s1) ∅ c) as Hcs by done.
    exists (set_root (set_node s1 c (mk_node (height (root s)) (count cd) (slots cd) (tags cd)))
              (set_rnode (root s1) (radix_tree_ptr_to_indirect c))), c, {[(height (root s), 0) := c]}.
    rewrite <- Hr in *. split_and!; [done| |right; apply lookup_singleton_eq|].
    + constructor; [|by rewrite <- Hr|exact (kp_gfp _ _ _ _ Hk)|].
      * constructor.
        -- apply first_shape; try done; lia.
        -- intros t Ht. apply first_tags; try done; by apply (inv_tags _ _ Hinv1).
        -- eapply (spares_grow s1 _ ∅ _ c); try done; [apply Hinv1|..].
           ++ intros b Hb _. by apply lookup_insert_ne.
           ++ intros x b [_ <-]%lookup_singleton_Some. by left.
      * intros j Hj. destruct (kp_same _ _ _ _ Hk j Hj) as [<- Htg].
        destruct (first_leaf (root s1) (nodes s1) c (mk_node (height (root s1)) (count cd) (slots cd) (tags cd)) Hz j) as [E1 E2].
        assert ((height (root s1) =? 0) = false) as Hh0 by lia. split.
        -- unfold content. cbn [root set_root set_node nodes height set_rnode]. by rewrite Hh0, E1, leaf_item_empty.
        -- intros t Ht. rewrite <- Htg by done. unfold tagged. cbn [root set_root set_node nodes height set_rnode].
           rewrite Hh0, E2. unfold leaf_tag. by rewrite lookup_empty.
    + intros n Hn Hsn. destruct (Hsup n Hn Hsn) as [? ?]. split; [done|]. by eapply supplied_root.
  - destruct (sh_node _ _ _ Hs _ _ _ Hnode) as (Hnp & nd & Hm & Ho). rewrite (ptr_nonzero node Hnp). cbn [negb].
    assert (node <> c) as Hne by (intros ->; by apply (Hcpl _ Hnode)).
    cbn [set_node nodes]. rewrite lookup_insert_ne, Hm, some_bind by done.
    pose proof (Z.mod_pos_bound q 64 ltac:(lia)) as Hoff.
    destruct (slot_wr nd (q mod 64) c (no_slots _ _ _ _ Ho) Hoff) as (l' & -> & Hl' & Hsl & Hso & Hnzl).
    rewrite some_bind. assert (q = 64 * (q / 64) + q mod 64) as Eq by (apply Z.div_mod; lia).
    assert (slot nd (q mod 64) = 0) as Hs0.
    { rewrite (no_children _ _ _ _ Ho) by lia. replace (l + 1 - 1) with l by lia. by rewrite <- Eq, Hnone. }
    rewrite Hs0, (ptr_nonzero c Hcp) in Hnzl. cbn in Hnzl.
    pose proof (place_level _ _ _ Hs _ _ _ Hnode) as Hlev. rewrite Hr in Hlev.
    set (pl' := <[(l + 1 - 1, 64 * (q / 64) + q mod 64) := c]> pl).
    set (cd' := mk_node l (count cd) (slots cd) (tags cd)).
    set (nd' := mk_node (nheight nd) (u32 (count nd + 1)) l' (tags nd)).
    assert (pl !! (l + 1 - 1, 64 * (q / 64) + q mod 64) = None) as Hfree
      by (replace (l + 1 - 1) with l by lia; by rewrite <- Eq).
    assert ((64 * (q / 64) + q mod 64) * 64 ^ (l + 1 - 1) < 2 ^ 32) as Hqr'
      by (replace (l + 1 - 1) with l by lia; by rewrite <- Eq).
    assert (spare (nodes s1) pl c) as Hcs by done.
    assert (nheight cd' = l + 1 - 1) as Hcdh by (cbn; lia).
    assert (nz (slots nd') = nz (slots nd) + 1) as Hnz1 by (cbn [nd' slots]; lia).
    exists (set_node (set_node s1 c cd') node nd'), c, pl'. split_and!; [done| | |].
    + constructor; [|by rewrite <- Hr|exact (kp_gfp _ _ _ _ Hk)|].
      * constructor.
        -- eapply (link_shape _ _ _ Hs (l + 1) (q / 64) node (q mod 64) c nd nd' cd'); first [done | lia | apply Hsl | apply Hso].
        -- intros t Ht. eapply (link_tags _ _ _ Hs (l + 1) (q / 64) node (q mod 64) c nd nd' cd');
             first [done | lia | apply Hsl | apply Hso | by apply (inv_tags _ _ Hinv1)].
        -- eapply (spares_grow s1 _ pl _ c); try done; [apply Hinv1|..].
           ++ intros b Hb Hbp. cbn [nodes set_node]. rewrite lookup_insert_ne by (intros ->; by apply (Hbp _ Hnode)).
              by apply lookup_insert_ne.
           ++ intros x b [[_ <-]|[_ Hb]]%lookup_insert_Some; [by left | right; eauto].
      * eapply same_trans; [exact (kp_same _ _ _ _ Hk)|]. intros j Hj.
        assert (leaf_item (<[node := nd']> (<[c := cd']> (nodes s1))) pl' j = leaf_item (nodes s1) pl j /\
          forall t, leaf_tag (<[node := nd']> (<[c := cd']> (nodes s1))) pl' j t = leaf_tag (nodes s1) pl j t) as [E1 E2]
          by (eapply link_leaf; first [done | lia | apply Hsl | apply Hso | apply Hs]).
        unfold content, tagged. cbn [root set_node nodes]. rewrite E1. split; [done|]. intros t _. by rewrite E2.
    + right. subst pl'. rewrite <- Eq. replace (l + 1 - 1) with l by lia. apply lookup_insert_eq.
    + intros n Hn Hsn. destruct (Hsup n Hn Hsn) as [? ?]. split; [done|]. by eapply supplied_root.
Qed.

(** ** Insertion *)

(** What an insertion of [item] at [index] that answers [res] does. *)
Record inserted (s : radix) (pl : places) (index item : Z) (s' : radix) (pl' : places) (res : Z) : Prop := mk_inserted {
  in_inv : inv s' pl';
  in_tags : forall j t, is_u32 j -> 0 <= t < 2 -> tagged s' pl' j t = tagged s pl j t;
  in_items :
    (res = 0 /\ content s pl index = 0 /\
       forall j, is_u32 j -> content s' pl' j = if j =? index then item else content s pl j) \/
    ((res = - EEXIST /\ content s pl index <> 0 \/ res = - ENOMEM /\ content s pl index = 0) /\
       forall j, is_u32 j -> content s' pl' j = content s pl j)
}.

Lemma inserted_same s pl s1 pl1 index item s' pl' res : is_u32 index -> same s pl s1 pl1 ->
  inserted s1 pl1 index item s' pl' res -> inserted s pl index item s' pl' res.
Proof.
  intros Hi Hsame [Hinv Ht Hc]. destruct (Hsame index Hi) as [E _]. constructor; [done|..].
  - intros j t Hj Ht2. rewrite Ht by done. by apply Hsame.
  - rewrite <- E. destruct Hc as [(Hr & Hc0 & Hc)|[Hr Hc]]; [left|right]; split_and!; try done;
      intros j Hj; rewrite Hc by done; by destruct (Hsame j Hj) as [-> _].
Qed.

Lemma insert_at_root s pl item : inv s pl -> height (root s) = 0 -> content s pl 0 = 0 -> ptr_ok item ->
  exists s', insert_item s 0 0 item = Some (s', 0) /\ inserted s pl 0 item s' pl 0.
Proof.
  intros [Hs Ht Hsp] Hh Hc Hit. pose proof Hc as Hr. unfold content in Hr. rewrite Hh in Hr. cbn in Hr.
  assert (pl = ∅) as ->.
  { destruct (sh_root _ _ _ Hs) as [[_ ?]|[(_ & _ & ?)|(? & _)]]; [done..|lia]. }
  assert (forall t, 0 <= t < 2 -> root_tag_get (root s) t = false) as Hnt.
  { intros t Ht2. destruct (root_tag_get (root s) t) eqn:E; [|done].
    by destruct (ti_root_none _ _ _ _ _ (Ht t Ht2) (lookup_empty _) E). }
  unfold insert_item. cbn [negb Z.eqb root set_root].
  change (root_tag_get (set_rnode (root s) item) 0) with (root_tag_get (root s) 0).
  change (root_tag_get (set_rnode (root s) item) 1) with (root_tag_get (root s) 1).
  rewrite !Hnt by lia. cbn [orb]. eexists. split; [done|]. constructor.
  - constructor; cbn [root nodes set_root].
    + constructor; cbn [height rnode set_rnode]; try apply Hs. right. left. done.
    + intros t Ht2. constructor; try apply (Ht t Ht2); cbn [height rnode set_rnode].
      change (root_tag_get (set_rnode (root s) item) t) with (root_tag_get (root s) t). by rewrite Hnt.
    + eapply spares_change; try done.
  - intros j t _ _. unfold tagged. cbn [root nodes set_root height set_rnode]. by rewrite Hh.
  - left. split_and!; [done..|]. intros j _. unfold content. cbn [root nodes set_root height rnode set_rnode].
    rewrite Hh. cbn. by destruct (j =? 0).
Qed.

Lemma insert_at_leaf s pl index node item : inv s pl -> is_u32 index -> pl !! (1, pre 1 index) = Some node ->
  content s pl index = 0 -> ptr_ok item ->
  exists s', insert_item s node (index mod 64) item = Some (s', 0) /\ inserted s pl index item s' pl 0.
Proof.
  intros Hinv Hi Ha Hc Hit. pose proof (inv_shape _ _ Hinv) as Hs.
  destruct (sh_node _ _ _ Hs _ _ _ Ha) as (Hp & nd & Hm & Ho).
  pose proof (Z.mod_pos_bound index 64 ltac:(lia)) as Hoff. pose proof (place_level _ _ _ Hs _ _ _ Ha) as Hlev.
  assert (slot nd (index mod 64) = 0) as Hs0.
  { unfold content in Hc. rewrite (proj2 (Z.eqb_neq (height (root s)) 0)) in Hc by lia.
    by rewrite (leaf_item_eq _ _ _ _ _ Ha Hm) in Hc. }
  unfold insert_item. rewrite (ptr_nonzero node Hp). cbn [negb]. rewrite Hm, some_bind.
  destruct (slot_wr nd (index mod 64) item (no_slots _ _ _ _ Ho) Hoff) as (l & -> & Hl & Hsl & Hso & Hnz).
  rewrite some_bind. rewrite Hs0, (ptr_nonzero item Hit) in Hnz. cbn in Hnz.
  assert (forall t, 0 <= t < 2 -> Z.testbit (tag_word nd t) (index mod 64) = false) as Hbit.
  { intros t Ht. destruct (Z.testbit _ _) eqn:E; [|done].
    by apply (ti_item _ _ _ _ _ (inv_tags _ _ Hinv t Ht) _ _ _ _ Ha Hm Hoff) in E. }
  set (nd' := mk_node _ _ _ _). rewrite !tag_get_eq, !some_bind by (apply Ho || lia).
  change (tag_word nd' 0) with (tag_word nd 0). change (tag_word nd' 1) with (tag_word nd 1).
  rewrite !Hbit by lia. cbn [orb]. eexists. split; [done|].
  destruct (leaf_write s pl (pre 1 index) node nd (index mod 64) item nd') as (H1 & H2 & H3);
    first [done | by right | apply Hsl | apply Hso | (intros ->; destruct Hit; lia) | idtac].
  { cbn [nd' count slots]. rewrite (no_count _ _ _ _ Ho), Hnz, u32_small; [lia|].
    pose proof (nz_range (slots nd)). pose proof (no_slots _ _ _ _ Ho). unfold is_u32. lia. }
  constructor; [done|intros; apply H3|]. left. split_and!; [done..|]. intros j _. rewrite H2.
  replace (64 * pre 1 index + index mod 64) with index; [done|]. by apply pre1_index.
Qed.

Lemma insert_down_spec (h : nat) index item : is_u32 index -> ptr_ok item -> forall s pl node offset,
  inv s pl -> Z.of_nat h <= height (root s) -> pre (height (root s)) index = 0 ->
  parent_of s pl (Z.of_nat h) (pre (Z.of_nat h) index) node offset ->
  exists s' pl' res,
    insert_down h s index item node offset (below s pl (Z.of_nat h) index) (u32 (6 * (Z.of_nat h - 1))) = Some (s', res) /\
    inserted s pl index item s' pl' res /\
    (supplied (if below s pl (Z.of_nat h) index =? 0 then Z.of_nat h else Z.of_nat h - 1) s -> res <> - ENOMEM).
Proof.
  intros Hi Hit. induction h as [|h IH]; intros s pl node offset Hinv Hh Htop Hpar.
  - cbn [insert_down]. change (below s pl (Z.of_nat 0) index) with (content s pl index).
    destruct (Z.eqb_spec (content s pl index) 0) as [Hc|Hc]; cbn [negb].
    + rewrite pre_0 in Hpar. destruct Hpar as [(-> & Hl & ->)|[Ha ->]].
      * destruct (insert_at_root s pl item) as (s' & E & Hs'); [done..|]. exists s', pl, 0. split_and!; [|done|done].
        by rewrite <- E.
      * change (Z.of_nat 0 + 1) with 1 in Ha.
        destruct (insert_at_leaf s pl index node item) as (s' & E & Hs'); [done..|].
        exists s', pl, 0. split_and!; done.
    + exists s, pl, (- EEXIST). split_and!; [done| |done]. constructor; [done..|]. right. split; [by left | done].
  - set (l := Z.of_nat (S h)) in *. assert (l = Z.of_nat h + 1) as El by lia.
    destruct (pre_range l index ltac:(lia) Hi) as [Hq Hqr].
    pose proof (sh_height _ _ _ (inv_shape _ _ Hinv)) as H6.
    assert (forall s1 pl1 c, kept s pl s1 pl1 -> pl1 !! (l, pre l index) = Some c -> exists s' pl' res,
      (nd ← nodes s1 !! c;
       slot ← rd (slots nd) (offset_of index (u32 (6 * (l - 1))));
       insert_down h s1 index item c (offset_of index (u32 (6 * (l - 1)))) slot
         (u32 (u32 (6 * (l - 1)) - RADIX_TREE_MAP_SHIFT))) = Some (s', res) /\
      inserted s pl index item s' pl' res /\ (supplied (Z.of_nat h) s1 -> res <> - ENOMEM)) as Hgo.
    { intros s1 pl1 c [Hinv1 Hh1 _ Hsame] Hc. destruct (place_node _ _ _ (inv_shape _ _ Hinv1) _ _ _ Hc) as (nd & Hm & _).
      rewrite Hm, some_bind. rewrite (u32_small (6 * (l - 1))) by (unfold is_u32; lia).
      rewrite offset_pre by lia. replace (l - 1) with (Z.of_nat h) by lia.
      rewrite (below_slot s1 pl1) with (node := c) by (done || lia || apply Hinv1 || by rewrite <- El). rewrite some_bind.
      destruct (IH s1 pl1 c (pre (Z.of_nat h) index mod 64)) as (s' & pl' & res & E & Hins & Hsup);
        [done | lia | by rewrite Hh1 | right; by rewrite pre_step, <- El by lia|].
      unfold RADIX_TREE_MAP_SHIFT. replace (6 * Z.of_nat h - 6) with (6 * (Z.of_nat h - 1)) by lia.
      exists s', pl', res. split_and!; [done | by eapply inserted_same|]. intros Hsupn. apply Hsup.
      eapply supplied_less; [|exact Hsupn]. destruct (_ =? 0); lia. }
    cbn [insert_down]. fold l. destruct (Z.eqb_spec (below s pl l index) 0) as [Hz|Hz].
    + destruct (below_zero s pl l index (inv_shape _ _ Hinv) Hi ltac:(lia) Hz) as [Hnone Hc].
      destruct (add_child_spec s pl l (pre l index) node offset) as (s1 & c & pl1 & E & Hk & Hc1 & Hsup); try done; [lia|].
      rewrite E, some_bind. destruct (Z.eqb_spec c 0) as [->|Hc0].
      * exists s1, pl1, (- ENOMEM). split_and!; [done| |].
        -- apply (inserted_same _ _ s1 pl1); [done | apply Hk|]. constructor; [apply Hk | done|]. right.
           split; [right; split; [done|] | done]. destruct (kp_same _ _ _ _ Hk index Hi) as [-> _]. done.
        -- intros Hsl. by destruct (Hsup l ltac:(lia) Hsl).
      * destruct Hc1 as [?|Hc1]; [done|]. destruct (Hgo s1 pl1 c Hk Hc1) as (s' & pl' & res & E' & Hins & Hs').
        exists s', pl', res. split_and!; [done..|]. intros Hsl. apply Hs'. destruct (Hsup l ltac:(lia) Hsl) as [_ Hs1].
        by replace (l - 1) with (Z.of_nat h) in Hs1 by lia.
    + rewrite some_bind, (proj2 (Z.eqb_neq _ 0) Hz). unfold below in Hz |- *. rewrite (proj2 (Z.eqb_neq l 0)) in * by lia.
      destruct (pl !! (l, pre l index)) as [c|] eqn:Hc; [|done]. change (default 0 (Some c)) with c in *.
      destruct (Hgo s pl c ltac:(by constructor; auto using same_refl) Hc) as (s' & pl' & res & E' & Hins & Hs').
      exists s', pl', res. split_and!; [done..|]. by replace (l - 1) with (Z.of_nat h) by lia.
Qed.

(** ** Extension *)

Lemma extend_height_spec fuel index h : is_u32 index -> 0 <= h <= 6 -> 7 - h <= Z.of_nat fuel ->
  exists h', extend_height fuel index h = Some h' /\ h <= h' <= 6 /\ pre h' index = 0.
Proof.
  intros Hi. revert h. induction fuel as [|fuel IH]; intros h Hh Hf; [lia|]. cbn [extend_height].
  destruct (maxindex_spec h index ltac:(lia) Hi) as (mx & -> & _ & E). rewrite some_bind, E.
  destruct (Z.eqb_spec (pre h index) 0) as [Hp|Hp]; cbn [negb].
  - exists h. split_and!; done || lia.
  - destruct (decide (h = 6)) as [->|].
    + exfalso. apply Hp. unfold is_u32 in Hi. apply pre_top; [lia..|]. rewrite pow64 by lia. lia.
    + destruct (IH (h + 1)) as (h' & -> & ? & ?); [lia..|]. exists h'. split_and!; done || lia.
Qed.

Lemma propagate_tags_spec r nd : length (tags nd) = 2%nat -> Forall is_u64 (tags nd) -> (forall t, tag_word nd t = 0) ->
  exists nd', propagate_tags r nd (seqZ 0 RADIX_TREE_MAX_TAGS) = Some nd' /\ slots nd' = slots nd /\
    (length (tags nd') = 2%nat /\ Forall is_u64 (tags nd')) /\
    forall t i, 0 <= t < 2 -> Z.testbit (tag_word nd' t) i = (i =? 0) && root_tag_get r t.
Proof.
  intros Hl Hw Hz. change (seqZ 0 RADIX_TREE_MAX_TAGS) with [0; 1]. cbn [propagate_tags].
  assert (forall nd t w, length (tags nd) = 2%nat -> Forall is_u64 (tags nd) -> 0 <= t < 2 -> tag_word nd t = 0 ->
    w = (if root_tag_get r t then 1 else 0) ->
    exists nd', (if root_tag_get r t then tag_set nd t 0 else Some nd) = Some nd' /\ retagged nd t w nd') as Hstep.
  { clear. intros nd t w Hl Hw Ht Hz ->. destruct (root_tag_get r t).
    - destruct (tag_set_eq nd t 0 Hl Hw Ht) as (nd' & E & H); [lia|]. rewrite Hz in H. by exists nd'.
    - exists nd. split; [done|]. by constructor. }
  destruct (Hstep nd 0 _ Hl Hw ltac:(lia) (Hz 0) eq_refl) as (n1 & -> & [_ _ S1 T1 O1 [L1 W1]]). rewrite some_bind.
  destruct (Hstep n1 1 _ L1 W1 ltac:(lia) ltac:(by rewrite O1) eq_refl) as (n2 & -> & [_ _ S2 T2 O2 [L2 W2]]).
  rewrite some_bind. exists n2. split_and!; [done | congruence | done..|].
  intros t i Ht. assert (t = 0 \/ t = 1) as [-> | ->] by lia; [rewrite O2, T1 by done; destruct (root_tag_get r 0) | rewrite T2; destruct (root_tag_get r 1)];
    rewrite ?Z.testbit_0_l, ?andb_false_r, ?andb_true_r; try done;
    change 1 with (2 ^ 0); rewrite Z.pow2_bits_eqb by lia; by rewrite Z.eqb_sym.
Qed.

(** One round of the loop of radix_tree_extend. *)
Lemma above_inv s pl c cd nd l : inv s pl -> rnode (root s) <> 0 -> height (root s) < 6 ->
  spare (nodes s) pl c -> c ∉ preloads s ++ filter (fun a => a <> 0) (answers s) -> zeroed nd ->
  wr (slots nd) 0 (radix_tree_indirect_to_ptr (rnode (root s))) = Some l ->
  propagate_tags (root s) (set_slots nd l) (seqZ 0 RADIX_TREE_MAX_TAGS) = Some cd ->
  let s' := set_root (set_node s c (mk_node (height (root s) + 1) 1 (slots cd) (tags cd)))
              (mk_root (height (root s) + 1) (gfp_mask (root s)) (radix_tree_ptr_to_indirect c)) in
  inv s' (<[(height (root s) + 1, 0) := c]> pl) /\ same s pl s' (<[(height (root s) + 1, 0) := c]> pl).
Proof.
  intros Hinv Hr Hh Hcs Hcn Hz Hl Hcd s'. pose proof (inv_shape _ _ Hinv) as Hs. pose proof (sh_height _ _ _ Hs) as Hh0.
  pose proof Hz as (_ & Hzs & Hzt).
  assert (length (tags nd) = 2%nat /\ Forall is_u64 (tags nd)) as [Hlt Hwt] by (rewrite Hzt; split; [done | by repeat constructor]).
  destruct (propagate_tags_spec (root s) (set_slots nd l)) as (cd1 & E & S1 & T1 & B1); [done..|intros t; by apply (zeroed_tag nd)|].
  rewrite Hcd in E. injection E as <-. cbn [set_slots slots] in S1.
  assert (length (slots nd) = 64%nat) as Hls by (by rewrite Hzs).
  destruct (slot_wr nd 0 (radix_tree_indirect_to_ptr (rnode (root s))) Hls ltac:(lia)) as (l' & E' & Hl' & Hsl & Hso & Hnz).
  rewrite Hl in E'. injection E' as <-. rewrite (zeroed_slot nd 0 Hz), Hzs in Hnz. cbn in Hnz.
  assert (radix_tree_indirect_to_ptr (rnode (root s)) <> 0) as Hnn.
  { destruct (sh_root _ _ _ Hs) as [[? _]|[(_ & Hp & _)|(_ & a & -> & Ha)]]; [done|rewrite to_ptr_direct; [|done]; destruct Hp; lia|].
    pose proof (place_ptr _ _ _ Hs _ _ _ Ha) as Hp. rewrite to_ptr_indirect; [|done]. destruct Hp. lia. }
  rewrite (proj2 (Z.eqb_neq _ 0) Hnn) in Hnz.
  set (cd' := mk_node (height (root s) + 1) 1 (slots cd) (tags cd)) in *.
  assert (slots cd' = l) as Sl by done.
  assert (length (slots cd') = 64%nat) as Hlen by (by rewrite Sl).
  assert (nz (slots cd') = 1) as Hnz1 by (rewrite Sl, Hnz; done).
  assert (slot cd' 0 = radix_tree_indirect_to_ptr (rnode (root s))) as Hs0 by (unfold slot; rewrite Sl; apply (Hsl 0 0 [])).
  assert (forall j, j <> 0 -> slot cd' j = 0) as Hsj.
  { intros j Hj. unfold slot. rewrite Sl. transitivity (slot nd j); [by apply (Hso 0 0 []) | by apply zeroed_slot]. }
  split.
  - constructor; cbn [s' root nodes set_root set_node].
    + by apply above_shape.
    + intros t Ht. apply above_tags; try done. by apply (inv_tags _ _ Hinv).
    + eapply (spares_grow s _ pl _ c); try done; [apply Hinv|..].
      * intros b Hb _. by apply lookup_insert_ne.
      * intros x b [[_ <-]|[_ Hb]]%lookup_insert_Some; [by left | right; eauto].
  - intros j [Hj _].
    assert (leaf_item (<[c := cd']> (nodes s)) (<[(height (root s) + 1, 0) := c]> pl) j = content s pl j /\
      forall t, 0 <= t < 2 -> leaf_tag (<[c := cd']> (nodes s)) (<[(height (root s) + 1, 0) := c]> pl) j t = tagged s pl j t)
      as [E1 E2] by (by apply above_leaf).
    unfold content at 1, tagged at 1. cbn [s' root nodes set_root set_node height].
    rewrite (proj2 (Z.eqb_neq (height (root s) + 1) 0)) by lia. by rewrite E1.
Qed.

Lemma extend_nodes_spec fuel newh s pl : inv s pl -> rnode (root s) <> 0 -> height (root s) < newh <= 6 ->
  newh - height (root s) <= Z.of_nat fuel ->
  exists s' pl' res, extend_nodes fuel s newh = Some (s', res) /\ inv s' pl' /\ same s pl s' pl' /\
    (res = 0 /\ height (root s') = newh /\ rnode (root s') <> 0 \/ res = - ENOMEM) /\
    (forall n, newh - height (root s) <= n -> supplied n s -> res = 0 /\ supplied (n - (newh - height (root s))) s').
Proof.
  revert s pl. induction fuel as [|fuel IH]; intros s pl Hinv Hr Hh Hf; [lia|]. cbn [extend_nodes].
  destruct (alloc_kept s pl Hinv) as (s1 & c & -> & Hr1 & [Hinv1 _ _ Hsame] & Hsup & Hc). rewrite some_bind.
  destruct (Z.eqb_spec c 0) as [->|Hc0].
  { exists s1, pl, (- ENOMEM). split_and!; try done; [by right|]. intros n Hn Hsn. by destruct (Hsup n ltac:(lia) Hsn). }
  destruct Hc as [?|(Hcs & [nd Hm] & Hcn)]; [done|]. rewrite Hm, some_bind, Hr1.
  pose proof Hcs as (_ & _ & Hz). specialize (Hz nd Hm). pose proof (sh_height _ _ _ (inv_shape _ _ Hinv)) as H0.
  destruct (slot_wr nd 0 (radix_tree_indirect_to_ptr (rnode (root s)))) as (l & El & _); [by destruct Hz as (_ & -> & _)|lia|].
  rewrite El, some_bind.
  destruct (propagate_tags_spec (root s) (set_slots nd l)) as (cd & Ecd & _);
    [cbn [set_slots tags]; by destruct Hz as (_ & _ & ->) | cbn [set_slots tags]; destruct Hz as (_ & _ & ->); by repeat constructor | intros t; by apply (zeroed_tag nd)|].
  rewrite Ecd, some_bind. rewrite <- Hr1 in Hr, Hh, Hf, H0, El, Ecd.
  destruct (above_inv s1 pl c cd nd l Hinv1 Hr ltac:(lia) Hcs Hcn Hz El Ecd) as [Hinv2 Hsame2].
  set (s2 := set_root _ _) in Hinv2, Hsame2.
  assert (set_root (set_node s1 c (mk_node (height (root s) + 1) 1 (slots cd) (tags cd)))
    (mk_root (height (root (set_node s1 c (mk_node (height (root s) + 1) 1 (slots cd) (tags cd)))) + 1)
       (gfp_mask (root (set_node s1 c (mk_node (height (root s) + 1) 1 (slots cd) (tags cd)))))
       (radix_tree_ptr_to_indirect c)) = s2) as Es2 by (subst s2; cbn; by rewrite <- Hr1).
  cbn [root set_node set_root height gfp_mask] in Es2 |- *. rewrite <- Hr1 in Es2 |- *. rewrite Es2.
  assert (rnode (root s2) <> 0) as Hr2 by (cbn; apply Z.eqb_neq, indirect_nonzero).
  assert (forall n, 0 < n -> supplied n s -> supplied (n - 1) s2) as Hsup2.
  { intros n Hn Hsn. destruct (Hsup n Hn Hsn) as [_ H]. by eapply supplied_root; [..|exact H]. }
  assert (height (root s2) = height (root s1) + 1) as Hh2 by done.
  pose proof (same_trans _ _ _ _ _ _ Hsame Hsame2) as Hs12.
  change (height (root s2)) with (height (root s1) + 1).
  destruct (Z.ltb_spec (height (root s1) + 1) newh).
  - destruct (IH s2 (<[(height (root s1) + 1, 0) := c]> pl)) as (s' & pl' & res & E & Hinv' & Hsame' & Hres & Hsup'); [done..|lia|lia|].
    exists s', pl', res. split_and!; try done; [by eapply same_trans|]. intros n Hn Hsn.
    destruct (Hsup' (n - 1)) as [? Hsl]; [lia | apply Hsup2; [lia | done]|]. split; [done|].
    eapply supplied_less; [|exact Hsl]. lia.
  - exists s2, (<[(height (root s1) + 1, 0) := c]> pl), 0. split_and!; try done; [left; split_and!; [done|lia|done]|].
    intros n Hn Hsn. split; [done|]. eapply supplied_less; [|apply (Hsup2 n); [lia|done]]. lia.
Qed.

Lemma extend_spec s pl index : inv s pl -> is_u32 index -> pre (height (root s)) index <> 0 ->
  exists s' pl' res, radix_tree_extend s index = Some (s', res) /\ inv s' pl' /\ same s pl s' pl' /\
    (res = 0 /\ pre (height (root s')) index = 0 /\ 1 <= height (root s') \/ res = - ENOMEM) /\
    (supplied 11 s -> res = 0 /\
       supplied (if rnode (root s') =? 0 then height (root s') else height (root s') - 1) s').
Proof.
  intros Hinv Hi Hp. pose proof (inv_shape _ _ Hinv) as Hs. pose proof (sh_height _ _ _ Hs) as H0.
  assert (height (root s) < 6) as Hh.
  { destruct (decide (height (root s) = 6)) as [E|]; [|lia]. exfalso. apply Hp. unfold is_u32 in Hi. rewrite E.
    apply pre_top; [lia..|]. rewrite pow64 by lia. lia. }
  unfold radix_tree_extend.
  destruct (extend_height_spec 7 index (height (root s) + 1)) as (h & -> & Hh' & Hp'); [done|lia..|]. rewrite some_bind.
  destruct (Z.eqb_spec (rnode (root s)) 0) as [Hr|Hr].
  - assert (pl = ∅) as ->.
    { destruct (sh_root _ _ _ Hs) as [[_ ?]|[(_ & [? _] & _)|(_ & a & E & _)]]; [done|lia|]. rewrite Hr in E.
      pose proof (indirect_nonzero a). rewrite <- E in H. done. }
    eexists _, ∅, 0. split; [done|]. cbn [root set_root height]. split_and!.
    + constructor; cbn [root nodes set_root].
      * constructor; try apply Hs; cbn [height rnode]; [lia | by left | intros l q a; by rewrite lookup_empty..].
      * intros t Ht. pose proof (inv_tags _ _ Hinv t Ht) as Hti.
        constructor; try (intros *; by rewrite lookup_empty). cbn [height rnode]. intros _ E. exfalso.
        by destruct (ti_root_none _ _ _ _ _ Hti (lookup_empty _) E).
      * eapply (spares_change s); first [done | apply Hinv | eauto].
    + intros j Hj. rewrite content_null by done. rewrite content_null by done. split; [done|]. intros t Ht. unfold tagged.
      cbn [root nodes set_root height]. rewrite (proj2 (Z.eqb_neq h 0)) by lia. unfold leaf_tag. rewrite lookup_empty.
      destruct (_ =? 0); [|done]. change (root_tag_get _ t) with (root_tag_get (root s) t).
      destruct (root_tag_get (root s) t) eqn:E; [|by rewrite andb_false_r]. exfalso.
      by destruct (ti_root_none _ _ _ _ _ (inv_tags _ _ Hinv t Ht) (lookup_empty _) E).
    + left. split_and!; done || lia.
    + intros Hsup. split; [done|]. rewrite Hr. cbn. eapply supplied_less; [|eapply supplied_root; [..|exact Hsup]]; done || lia.
  - destruct (extend_nodes_spec 7 h s pl Hinv Hr) as (s' & pl' & res & E & Hinv' & Hsame & Hres & Hsup); [lia..|].
    exists s', pl', res. split_and!; try done.
    + destruct Hres as [(-> & -> & _)|?]; [left; split_and!; done || lia | by right].
    + intros H11. destruct (Hsup 11 ltac:(lia) H11) as [-> H']. destruct Hres as [(_ & Hh2 & Hr2)|?]; [|done].
      split; [done|]. rewrite (proj2 (Z.eqb_neq _ 0) Hr2). eapply supplied_less; [|exact H']. lia.
Qed.

(** ** radix_tree_insert *)

Lemma insert_spec s pl index item : inv s pl -> is_u32 index -> ptr_ok item ->
  exists s' pl' res, radix_tree_insert s index item = Some (s', res) /\ inserted s pl index item s' pl' res /\
    (supplied (2 * RADIX_TREE_MAX_PATH - 1) s -> res <> - ENOMEM).
Proof.
  intros Hinv Hi Hit. unfold radix_tree_insert. rewrite (ptr_direct item Hit).
  pose proof (sh_height _ _ _ (inv_shape _ _ Hinv)) as H6.
  destruct (maxindex_spec (height (root s)) index ltac:(lia) Hi) as (mx & -> & _ & Emx). rewrite some_bind, Emx.
  assert (forall s1 pl1, inv s1 pl1 -> pre (height (root s1)) index = 0 -> same s pl s1 pl1 ->
    exists s' pl' res, insert_down (Z.to_nat (height (root s1))) s1 index item 0 0
        (radix_tree_indirect_to_ptr (rnode (root s1))) (top_shift (height (root s1))) = Some (s', res) /\
      inserted s pl index item s' pl' res /\
      (supplied (if rnode (root s1) =? 0 then height (root s1) else height (root s1) - 1) s1 -> res <> - ENOMEM)) as Hgo.
  { intros s1 pl1 Hinv1 Hp1 Hsame. pose proof (sh_height _ _ _ (inv_shape _ _ Hinv1)) as H61.
    destruct (top_slot s1 pl1 index (inv_shape _ _ Hinv1) Hi Hp1) as [Et Ez].
    destruct (insert_down_spec (Z.to_nat (height (root s1))) index item Hi Hit s1 pl1 0 0) as (s' & pl' & res & E & Hins & Hsup);
      rewrite ?Z2Nat.id in * by lia; try done; [by left; rewrite Hp1|].
    exists s', pl', res. rewrite Et in E, Hsup.
    unfold top_shift, RADIX_TREE_MAP_SHIFT. rewrite (Z.mul_comm _ 6). split_and!; [done | by eapply inserted_same|].
    rewrite <- Et in Hsup. destruct (Z.eqb_spec (rnode (root s1)) 0) as [Ez'|Ez'].
    - apply Ez in Ez'. by rewrite Ez' in Hsup.
    - rewrite (proj2 (Z.eqb_neq (below _ _ _ _) 0)) in Hsup; [done | by intros ?%Ez]. }
  destruct (Z.eqb_spec (pre (height (root s)) index) 0) as [Hp|Hp]; cbn [negb].
  - rewrite some_bind. cbn [negb Z.eqb]. destruct (Hgo s pl Hinv Hp (same_refl _ _)) as (s' & pl' & res & E & Hins & Hsup).
    exists s', pl', res. split_and!; [done..|]. intros Hsl. apply Hsup. eapply supplied_less; [|exact Hsl].
    change RADIX_TREE_MAX_PATH with 6. destruct (_ =? 0); lia.
  - destruct (extend_spec s pl index Hinv Hi Hp) as (s1 & pl1 & r1 & -> & Hinv1 & Hsame & Hr & Hsup). rewrite some_bind.
    destruct Hr as [(-> & Hp1 & _)| ->]; cbn [negb Z.eqb].
    + destruct (Hgo s1 pl1 Hinv1 Hp1 Hsame) as (s' & pl' & res & E & Hins & Hs').
      exists s', pl', res. split_and!; [done..|]. intros Hsl. by apply Hs', Hsup.
    + exists s1, pl1, (- ENOMEM). split_and!; [done| |intros Hsl; by destruct (Hsup Hsl)].
      apply (inserted_same _ _ s1 pl1); [done..|]. constructor; [done..|]. right. split; [right; split; [done|]|done].
      destruct (Hsame index Hi) as [-> _]. by apply content_beyond; [apply Hinv|..].
Qed.

(** ** The theorems *)

(** C20. radix_tree_insert stores the item at its index, or finds one there and
    answers -EEXIST, or runs out of nodes and answers -ENOMEM; every other index
    keeps its item, every index its tags, and in the two failing cases nothing
    that a lookup sees changes.  With 2 * RADIX_TREE_MAX_PATH - 1 nodes at hand,
    in the pool or from the allocator, it does not run out. *)
Theorem insert_correct s index item : wf s -> is_u32 index -> ptr_ok item ->
  exists s' res, radix_tree_insert s index item = Some (s', res) /\ wf s' /\
    (res = 0 /\ radix_tree_lookup s index = Some 0 \/
     res = - EEXIST /\ radix_tree_lookup s index <> Some 0 \/
     res = - ENOMEM /\ radix_tree_lookup s index = Some 0) /\
    (forall j, is_u32 j -> radix_tree_lookup s' j =
       if (res =? 0) && (j =? index) then Some item else radix_tree_lookup s j) /\
    (forall j t, is_u32 j -> 0 <= t < 2 -> radix_tree_tag_get s' j t = radix_tree_tag_get s j t) /\
    (supplied (2 * RADIX_TREE_MAX_PATH - 1) s -> res <> - ENOMEM).
Proof.
  intros [pl Hinv] Hi Hit. destruct (insert_spec s pl index item Hinv Hi Hit) as (s' & pl' & res & E & [Hinv' Ht Hc] & Hsup).
  exists s', res. rewrite (lookup_spec s pl) by (done || apply Hinv). split_and!; [done | by exists pl' | | | |done].
  - destruct Hc as [(-> & -> & _)|[[[-> ?]|[-> ->]] _]]; [by left | right; left; by split; [|intros [=]] | by right; right].
  - intros j Hj. rewrite (lookup_spec s' pl'), (lookup_spec s pl) by (done || apply Hinv' || apply Hinv).
    destruct Hc as [(-> & _ & ->)|[Hres ->]]; [by destruct (j =? index) | done |by destruct Hres as [[-> _]|[-> _]] | done].
  - intros j t Hj Ht2. rewrite (tag_get_spec s' pl'), (tag_get_spec s pl) by done. by rewrite Ht.
Qed.

Definition sample_pool : list Z := [0x1000; 0x2000; 0x3000; 0x4000; 0x5000; 0x6000].
Definition sample_tree (mask : Z) : radix :=
  mk_radix (RADIX_TREE_INIT mask) (list_to_map ((fun a => (a, radix_tree_node_ctor)) <$> sample_pool)) sample_pool [] [].

Lemma sample_wf mask : 0 <= mask < 2 ^ 21 -> wf (sample_tree mask).
Proof.
  intros Hm. exists ∅. apply wf_init; [done|..].
  - apply (bool_decide_unpack _). by vm_compute.
  - by repeat constructor.
  - intros a nd H%elem_of_list_to_map_2. apply list_elem_of_fmap in H as (b & [= -> ->] & _). done.
  - intros a Ha. repeat (apply elem_of_cons in Ha as [->|Ha]; [by vm_compute; eexists|]).
    by apply elem_of_nil in Ha.
Qed.

(** Two items far apart. *)
Definition sample_filled : radix :=
  default (sample_tree 0x20)
    ('(s, _) ← radix_tree_insert (sample_tree 0x20) 5000 0x100;
     '(s, _) ← radix_tree_insert s 70 0x200; Some s).

Lemma insert_wf s index item s' res : wf s -> is_u32 index -> ptr_ok item ->
  radix_tree_insert s index item = Some (s', res) -> wf s'.
Proof.
  intros [pl Hinv] Hi Hit E. destruct (insert_spec s pl index item Hinv Hi Hit) as (s1 & pl' & r1 & E' & [Hinv' _ _] & _).
  rewrite E in E'. injection E' as -> ->. by exists pl'.
Qed.

Lemma sample_filled_wf : wf sample_filled.
Proof.
  pose proof (sample_wf 0x20 ltac:(lia)) as H0. unfold sample_filled.
  destruct (radix_tree_insert (sample_tree 0x20) 5000 0x100) as [[s1 r1]|] eqn:E1; [|done]. rewrite some_bind.
  apply insert_wf in E1; [|done..].
  destruct (radix_tree_insert s1 70 0x200) as [[s2 r2]|] eqn:E2; [|done]. by apply insert_wf in E2.
Qed.

Lemma insert_correct_witness : wf (sample_tree 0x20) /\
  exists s' res, radix_tree_insert (sample_tree 0x20) 5000 0x100 = Some (s', res) /\ radix_tree_lookup s' 5000 = Some 0x100.
Proof.
  pose proof (sample_wf 0x20 ltac:(lia)) as Hwf. split; [done|].
  destruct (insert_correct (sample_tree 0x20) 5000 0x100 Hwf) as (s' & res & E & _ & _ & Hl & _); [done..|].
  exists s', res. split; [done|]. rewrite Hl by done. vm_compute in E. injection E as _ <-. done.
Defined.

(** A full pool of RADIX_TREE_MAX_PATH nodes, which radix_tree_preload
    fills so that one insertion cannot fail, is not enough: with one item at index 0,
    the insertion at the last index fails with -ENOMEM. *)
Theorem preload_not_enough : exists s s1 s2, wf s /\ zlen (preloads s) = RADIX_TREE_MAX_PATH /\
  radix_tree_insert s 0 0x100 = Some (s1, 0) /\ preloads s1 = preloads s /\
  radix_tree_insert s1 (2 ^ 32 - 1) 0x200 = Some (s2, - ENOMEM).
Proof.
  exists (sample_tree 0x20). do 2 eexists. split; [by apply sample_wf|]. split; [done|].
  split; [vm_compute; reflexivity|]. split; [done|]. vm_compute. reflexivity.
Qed.
