(* ===== verification/RadixTags.v ===== *)
(** * Radix trees: tags (lib/radix-tree.c)

    radix_tree_tag_set, radix_tree_tag_clear, radix_tree_tagged: the tags of the
    nodes and of the root are the unions of the tags of the items below. *)

From S2P Require Import Prelude RadixTree RadixInsert.

#[local] Open Scope Z_scope.

(** ** Nodes with other tags *)

(** [m'] has the nodes of [m], with other tags at the places of the tree. *)
Definition retags (m m' : gmap Z radix_tree_node) (pl : places) : Prop :=
  (forall a, (forall x, pl !! x <> Some a) -> m' !! a = m !! a) /\
  forall x a nd, pl !! x = Some a -> m !! a = Some nd -> exists nd', m' !! a = Some nd' /\
    nheight nd' = nheight nd /\ count nd' = count nd /\ slots nd' = slots nd /\
    (length (tags nd') = 2%nat /\ Forall is_u64 (tags nd')).

Lemma retags_shape r m m' pl : shape r m pl -> retags m m' pl -> shape r m' pl.
Proof.
  intros Hs [_ Hm]. constructor; try apply Hs. intros l q a Ha.
  destruct (sh_node _ _ _ Hs _ _ _ Ha) as (Hp & nd & Hn & [? ? ? _ Hit Hch]).
  destruct (Hm _ _ _ Ha Hn) as (nd' & Hn' & Eh & Ec & Es & Et). split; [done|]. exists nd'. split; [done|].
  assert (forall i, slot nd' i = slot nd i) as Esl by (intros; unfold slot; by rewrite Es).
  constructor; rewrite ?Eh, ?Ec, ?Es; try done; [intros Hl i Hi; rewrite Esl; by apply Hit | intros Hl i Hi; rewrite Esl; by apply Hch].
Qed.
Lemma retags_refl r m pl : shape r m pl -> retags m m pl.
Proof.
  intros Hs. split; [done|]. intros [l q] a nd Ha Hm. destruct (place_node _ _ _ Hs _ _ _ Ha) as (nd' & Hm' & Ho).
  assert (nd' = nd) as -> by congruence. exists nd. split_and!; try done; apply Ho.
Qed.
Lemma retags_trans m1 m2 m3 pl : retags m1 m2 pl -> retags m2 m3 pl -> retags m1 m3 pl.
Proof.
  intros [H1 H2] [H3 H4]. split; [intros a Ha; by rewrite H3, H1|]. intros x a nd Ha Hm.
  destruct (H2 x a nd Ha Hm) as (n2 & E2 & ? & ? & ? & _). destruct (H4 x a n2 Ha E2) as (n3 & E3 & ? & ? & ? & ?).
  exists n3. split_and!; congruence || done || intuition.
Qed.
Lemma retags_insert r m pl x a nd t w nd' : shape r m pl -> pl !! x = Some a -> m !! a = Some nd -> retagged nd t w nd' ->
  retags m (<[a := nd']> m) pl.
Proof.
  intros Hs Ha Hm [? ? ? _ _ ?]. split.
  - intros b Hb. apply lookup_insert_ne. intros ->. by apply (Hb x).
  - intros y b bd Hb Hbm. destruct (decide (b = a)) as [->|Hne].
    + rewrite lookup_insert_eq. exists nd'. assert (bd = nd) as -> by congruence. done.
    + rewrite lookup_insert_ne by done. apply (proj2 (retags_refl r m pl Hs) y b bd Hb Hbm).
Qed.

Lemma retags_spares s m' pl : spares s pl -> retags (nodes s) m' pl ->
  forall r, spares (mk_radix r m' (preloads s) (answers s) (freed s)) pl.
Proof. intros Hsp [H _] r. eapply (spares_change s); try done; eauto. Qed.

Lemma retags_item r m m' pl index : shape r m pl -> retags m m' pl -> leaf_item m' pl index = leaf_item m pl index.
Proof.
  intros Hs [_ Hm]. unfold leaf_item. destruct (pl !! _) as [a|] eqn:Ha; [|done].
  destruct (place_node _ _ _ Hs _ _ _ Ha) as (nd & Hn & _). destruct (Hm _ _ _ Ha Hn) as (nd' & -> & _ & _ & Es & _).
  rewrite Hn. unfold slot. by rewrite Es.
Qed.

(** A tag is right when its words and the root's tag did not change. *)
Lemma tag_inv_words r r' m m' pl t : shape r m pl -> tag_inv r m pl no_ex t -> retags m m' pl ->
  (forall x a nd nd', pl !! x = Some a -> m !! a = Some nd -> m' !! a = Some nd' -> tag_word nd' t = tag_word nd t) ->
  height r' = height r -> rnode r' = rnode r -> root_tag_get r' t = root_tag_get r t -> tag_inv r' m' pl no_ex t.
Proof.
  intros Hs Ht [_ Hm] Hw Hh Hr Hrt.
  assert (forall l q a nd', pl !! (l, q) = Some a -> m' !! a = Some nd' -> exists nd, m !! a = Some nd /\
    tag_word nd' t = tag_word nd t /\ slots nd' = slots nd) as Hold.
  { intros l q a nd' Ha Hn'. destruct (place_node _ _ _ Hs _ _ _ Ha) as (nd & Hn & _). exists nd.
    destruct (Hm _ _ _ Ha Hn) as (nd2 & E & _ & _ & Es & _). split_and!; [done | by eapply Hw | congruence]. }
  constructor; rewrite ?Hh, ?Hr, ?Hrt.
  - intros q a nd i Ha (nd0 & Hn & Ew & Es)%(Hold _ _ _ _ Ha). rewrite Ew. unfold slot. rewrite Es.
    by apply (ti_item _ _ _ _ _ Ht q a).
  - intros l q a nd i Ha (nd0 & Hn & Ew & Es)%(Hold _ _ _ _ Ha). rewrite Ew. by apply (ti_none _ _ _ _ _ Ht l q a).
  - intros l q a nd i c cd Ha (nd0 & Hn & Ew & Es)%(Hold _ _ _ _ Ha) Hl Hi Hc (cd0 & Hcn & Ewc & _)%(Hold _ _ _ _ Hc).
    unfold any_tag. rewrite Ew, Ewc. by apply (ti_some _ _ _ _ _ Ht l q a nd0 i c cd0).
  - intros a nd Ha (nd0 & Hn & Ew & _)%(Hold _ _ _ _ Ha). unfold any_tag. rewrite Ew. by apply (ti_root _ _ _ _ _ Ht a).
  - apply Ht.
Qed.

(** ** radix_tree_tag_set *)

(** The nodes on the way to [index], from level [k] down, have the tag set. *)
Definition on_path (k l q index : Z) : bool := (l <=? k) && (q =? pre l index).
Definition marked (m m' : gmap Z radix_tree_node) (pl : places) (index t k : Z) : Prop :=
  forall l q a nd nd', pl !! (l, q) = Some a -> m !! a = Some nd -> m' !! a = Some nd' ->
    (forall t', t' <> t -> tag_word nd' t' = tag_word nd t') /\
    forall i, 0 <= i < 64 -> Z.testbit (tag_word nd' t) i =
      Z.testbit (tag_word nd t) i || (on_path k l q index && (i =? pre (l - 1) index mod 64)).

Lemma set_node_eta s a nd : set_node s a nd = mk_radix (root s) (<[a := nd]> (nodes s)) (preloads s) (answers s) (freed s).
Proof. done. Qed.

Lemma retagged_refl nd t : length (tags nd) = 2%nat -> Forall is_u64 (tags nd) -> retagged nd t (tag_word nd t) nd.
Proof. by constructor. Qed.

Definition with_nodes (s : radix) (m : gmap Z radix_tree_node) : radix :=
  mk_radix (root s) m (preloads s) (answers s) (freed s).

Lemma content_nodes s pl m' index : shape (root s) (nodes s) pl -> retags (nodes s) m' pl ->
  content (with_nodes s m') pl index = content s pl index.
Proof. intros Hs Hm. unfold content. cbn [root nodes with_nodes]. by rewrite (retags_item (root s) (nodes s)). Qed.

(** A present item has all its places. *)
Lemma present_place s pl index l : shape (root s) (nodes s) pl -> is_u32 index -> content s pl index <> 0 ->
  1 <= l <= height (root s) -> exists a, pl !! (l, pre l index) = Some a.
Proof.
  intros Hs Hi Hc Hl. destruct (pl !! (l, pre l index)) as [a|] eqn:E; [by exists a|]. exfalso. apply Hc.
  unfold content. rewrite (proj2 (Z.eqb_neq (height (root s)) 0)) by lia. apply (leaf_item_none _ _ _ Hs l); [done | apply Hi | done].
Qed.

Lemma tag_set_down_spec (h : nat) index t pl : is_u32 index -> 0 <= t < 2 -> forall s,
  shape (root s) (nodes s) pl -> Z.of_nat h <= height (root s) -> content s pl index <> 0 ->
  exists m', tag_set_down h s (below s pl (Z.of_nat h) index) index (u32 (6 * (Z.of_nat h - 1))) t =
      Some (with_nodes s m', content s pl index) /\
    retags (nodes s) m' pl /\ marked (nodes s) m' pl index t (Z.of_nat h).
Proof.
  intros Hi Ht. induction h as [|h IH]; intros s Hs Hh Hc.
  - exists (nodes s). cbn [tag_set_down]. change (below s pl (Z.of_nat 0) index) with (content s pl index).
    split_and!; [by destruct s | by eapply retags_refl|]. intros l q a nd nd' Ha Hn Hn'. assert (nd' = nd) as -> by congruence.
    split; [done|]. intros i _. pose proof (place_level _ _ _ Hs _ _ _ Ha). unfold on_path.
    rewrite (proj2 (Z.leb_gt l (Z.of_nat 0))) by lia. by rewrite orb_false_r.
  - set (l := Z.of_nat (S h)) in *. assert (Z.of_nat h = l - 1) as El by lia. pose proof (sh_height _ _ _ Hs) as H6.
    destruct (present_place s pl index l Hs Hi Hc ltac:(lia)) as [a Ha].
    destruct (sh_node _ _ _ Hs _ _ _ Ha) as (Hp & nd & Hn & Ho).
    assert (below s pl l index = a) as -> by (unfold below; rewrite (proj2 (Z.eqb_neq l 0)) by lia; by rewrite Ha).
    cbn [tag_set_down]. rewrite Hn, some_bind, (u32_small (6 * (l - 1))) by (unfold is_u32; lia). rewrite offset_pre by lia.
    set (o := pre (l - 1) index mod 64). assert (0 <= o < 64) as Ho64 by (apply Z.mod_pos_bound; lia).
    rewrite tag_get_eq, some_bind by (done || apply Ho).
    assert (exists nd1, (if Z.testbit (tag_word nd t) o then Some s
        else nd0 ← tag_set nd t o; Some (set_node s a nd0)) = Some (with_nodes s (<[a := nd1]> (nodes s))) /\
      retagged nd t (Z.setbit (tag_word nd t) o) nd1) as (nd1 & -> & Hre).
    { destruct (Z.testbit (tag_word nd t) o) eqn:Eb.
      - exists nd. rewrite insert_id by done. split; [by destruct s|].
        replace (Z.setbit (tag_word nd t) o) with (tag_word nd t); [apply retagged_refl; apply Ho|].
        apply Z.bits_inj'. intros j Hj. rewrite Z.setbit_eqb by lia. by destruct (Z.eqb_spec o j) as [<-|].
      - destruct (tag_set_eq nd t o) as (nd1 & -> & Hre); [apply Ho | apply Ho | done..|]. by exists nd1. }
    rewrite some_bind. cbn [nodes with_nodes]. rewrite lookup_insert_eq, some_bind.
    set (m1 := <[a := nd1]> (nodes s)). assert (retags (nodes s) m1 pl) as Hm1 by (by eapply retags_insert).
    pose proof (retags_shape _ _ _ _ Hs Hm1) as Hs1.
    assert (content (with_nodes s m1) pl index = content s pl index) as Ec by (by apply content_nodes).
    assert (rd (slots nd1) o = Some (below (with_nodes s m1) pl (l - 1) index)) as ->.
    { apply (below_slot (with_nodes s m1) pl (l - 1) index a nd1); [done..|lia| |cbn; apply lookup_insert_eq].
      by replace (l - 1 + 1) with l by lia. }
    rewrite some_bind.
    assert (below (with_nodes s m1) pl (l - 1) index <> 0) as Hb.
    { intros Eb. destruct (decide (l - 1 = 0)) as [E0|E0].
      - rewrite E0 in Eb. change (below _ _ 0 _) with (content (with_nodes s m1) pl index) in Eb. congruence.
      - destruct (below_zero (with_nodes s m1) pl (l - 1) index) as [_ Hc0]; [done..|cbn; lia|done|]. congruence. }
    rewrite (proj2 (Z.eqb_neq _ 0) Hb). unfold RADIX_TREE_MAP_SHIFT.
    destruct (IH (with_nodes s m1) Hs1) as (m' & E & Hr & Hmk); [cbn; lia | congruence|].
    rewrite El in E, Hmk. replace (6 * (l - 1) - 6) with (6 * (l - 1 - 1)) by lia. rewrite E, Ec.
    exists m'. split; [done|]. split; [by eapply retags_trans|].
    intros l' q' b bd bd' Hb' Hbn Hbn'. pose proof (place_level _ _ _ Hs _ _ _ Hb') as Hlev. unfold on_path.
    destruct (decide (b = a)) as [->|Hne].
    + assert (bd = nd) as -> by congruence. pose proof (sh_inj _ _ _ Hs _ _ _ Ha Hb') as [= <- <-].
      destruct (Hmk l (pre l index) a nd1 bd' Ha (lookup_insert_eq _ _ _) Hbn') as [Ho' Hbits].
      split; [intros t' Ht'; rewrite Ho' by done; by apply (rt_other _ _ _ _ Hre)|].
      intros i Hi'. rewrite Hbits, (rt_same _ _ _ _ Hre), Z.setbit_eqb by lia. unfold on_path.
      rewrite (proj2 (Z.leb_gt l (l - 1))), (proj2 (Z.leb_le l l)), Z.eqb_refl by lia. fold o.
      cbn [andb]. rewrite orb_false_r, orb_comm. f_equal. apply Z.eqb_sym.
    + destruct (Hmk l' q' b bd bd' Hb') as [Ho' Hbits]; [cbn [nodes with_nodes]; unfold m1; by rewrite lookup_insert_ne | done|].
      split; [done|]. intros i Hi'. rewrite Hbits by done. unfold on_path. f_equal. f_equal.
      destruct (decide (l' = l)) as [->|]; [|zcases; done || lia].
      rewrite (proj2 (Z.leb_gt l (l - 1))), (proj2 (Z.leb_le l l)) by lia. cbn. symmetry. apply Z.eqb_neq.
      intros ->. by rewrite Ha in Hb'; injection Hb' as ->.
Qed.

(** The marks are right for the tag that was set. *)
Lemma marked_tags r r' m m' pl index t : is_u32 index -> 0 <= t < 2 -> shape r m pl ->
  tag_inv r m pl no_ex t -> retags m m' pl -> marked m m' pl index t (height r) ->
  (forall l, 1 <= l <= height r -> exists a, pl !! (l, pre l index) = Some a) ->
  (1 <= height r -> leaf_item m pl index <> 0) -> pre (height r) index = 0 ->
  height r' = height r -> rnode r' = rnode r -> root_tag_get r' t = true ->
  (height r = 0 -> rnode r <> 0) -> tag_inv r' m' pl no_ex t.
Proof.
  intros Hi Ht2 Hs Ht Hr Hmk Hpath Hitem Htop Hh Hrn Hrt Hr0.
  assert (forall l q a nd', pl !! (l, q) = Some a -> m' !! a = Some nd' -> exists nd, m !! a = Some nd /\
    slots nd' = slots nd /\ 1 <= l <= height r /\ (length (tags nd') = 2%nat /\ Forall is_u64 (tags nd')) /\
    forall i, 0 <= i < 64 -> Z.testbit (tag_word nd' t) i =
      Z.testbit (tag_word nd t) i || ((q =? pre l index) && (i =? pre (l - 1) index mod 64))) as Hold.
  { intros l q a nd' Ha Hn'. destruct (place_node _ _ _ Hs _ _ _ Ha) as (nd & Hn & _). exists nd.
    destruct (proj2 Hr _ _ _ Ha Hn) as (nd2 & E & _ & _ & Es & Et). pose proof (place_level _ _ _ Hs _ _ _ Ha) as Hl.
    assert (nd2 = nd') as -> by congruence. split_and!; try done; try lia; try apply Et. intros i Hi'.
    destruct (Hmk l q a nd nd' Ha Hn Hn') as [_ ->]; [|done]. unfold on_path. by rewrite (proj2 (Z.leb_le l (height r))) by lia. }
  assert (forall l q a nd', pl !! (l, q) = Some a -> m' !! a = Some nd' -> q = pre l index -> any_tag nd' t = true) as Hany.
  { intros l q a nd' Ha (nd & Hn & Es & Hl & Et & Hb)%(Hold _ _ _ _ Ha) ->.
    apply (any_tag_bit _ _ (pre (l - 1) index mod 64)). rewrite Hb by (apply Z.mod_pos_bound; lia).
    by rewrite !Z.eqb_refl, orb_true_r. }
  constructor; rewrite ?Hh, ?Hrn, ?Hrt.
  - intros q a nd' i Ha (nd & Hn & Es & _ & _ & Hb)%(Hold _ _ _ _ Ha) Hi'. rewrite Hb by done.
    assert (slot nd' i = slot nd i) as -> by (unfold slot; by rewrite Es).
    intros [?|[Eq Ei]%andb_true_iff]%orb_true_iff; [by apply (ti_item _ _ _ _ _ Ht q a nd)|].
    apply Z.eqb_eq in Eq, Ei. change (1 - 1) with 0 in Ei. rewrite pre_0 in Ei. subst.
    pose proof (place_level _ _ _ Hs _ _ _ Ha). rewrite <- (leaf_item_eq _ _ _ _ _ Ha Hn). apply Hitem. lia.
  - intros l q a nd' i Ha (nd & Hn & Es & Hlev & _ & Hb)%(Hold _ _ _ _ Ha) Hl Hi' Hnone. rewrite Hb by done.
    rewrite (ti_none _ _ _ _ _ Ht l q a nd) by done. cbn [orb]. apply andb_false_iff.
    destruct (Z.eqb_spec q (pre l index)) as [->|]; [right | by left]. apply Z.eqb_neq. intros ->.
    rewrite <- pre_pred in Hnone by lia. destruct (Hpath (l - 1)) as [c Hc]; [lia|]. congruence.
  - intros l q a nd' i c cd' Ha (nd & Hn & Es & Hlev & _ & Hb)%(Hold _ _ _ _ Ha) Hl Hi' Hc Hcd' Hex. rewrite Hb by done.
    pose proof Hcd' as Hcd. apply (Hold _ _ _ _ Hc) in Hcd as (cd & Hcm & _ & Hlc & _ & Hbc).
    destruct ((q =? pre l index) && (i =? pre (l - 1) index mod 64)) eqn:E.
    + apply andb_true_iff in E as [->%Z.eqb_eq ->%Z.eqb_eq]. rewrite orb_true_r. symmetry.
      eapply Hany; [exact Hc | done|]. by rewrite <- pre_pred by lia.
    + rewrite orb_false_r, (ti_some _ _ _ _ _ Ht l q a nd i c cd) by done. unfold any_tag.
      replace (tag_word cd' t) with (tag_word cd t); [done|].
      destruct (sh_node _ _ _ Hs _ _ _ Hc) as (_ & cd2 & Hcm2 & Hoc). assert (cd2 = cd) as -> by congruence.
      destruct (Hold _ _ _ _ Hc Hcd') as (cd3 & Hcm3 & _ & _ & [_ Hw'] & _).
      pose proof (tag_word_u64 cd t (proj2 (no_tags _ _ _ _ Hoc))) as [? ?]. pose proof (tag_word_u64 cd' t Hw') as [? ?].
      apply Z.bits_inj'. intros j Hj. destruct (Z.lt_ge_cases j 64) as [Hj'|Hj'];
        [|by rewrite (testbit_high (tag_word cd t) 64), (testbit_high (tag_word cd' t) 64) by lia].
      rewrite Hbc by lia. replace (64 * q + i =? pre (l - 1) index) with false; [by rewrite orb_false_r|].
      symmetry. apply Z.eqb_neq. intros Ep. rewrite (pre_pred l) in Ep by lia.
      pose proof (Z.mod_pos_bound (pre (l - 1) index) 64). apply andb_false_iff in E as [E%Z.eqb_neq|E%Z.eqb_neq]; lia.
  - intros a nd' Ha Hn' _. symmetry. eapply Hany; [exact Ha | done | by rewrite Htop].
  - intros Hnone _. split; [|destruct (Z.eq_dec (height r) 0) as [E|E]; [by apply Hr0|]].
    all: pose proof (sh_height _ _ _ Hs).
    1: destruct (Z.eq_dec (height r) 0) as [E|E]; [done|].
    all: destruct (Hpath (height r)) as [c Hc]; [lia|]; rewrite Htop in Hc; congruence.
Qed.

Lemma tag_set_spec s pl index t : inv s pl -> is_u32 index -> 0 <= t < 2 -> content s pl index <> 0 ->
  exists s', radix_tree_tag_set s index t = Some (s', content s pl index) /\ inv s' pl /\
    (forall j, content s' pl j = content s pl j) /\
    (forall j t', 0 <= j -> 0 <= t' < 2 -> tagged s' pl j t' = tagged s pl j t' || ((j =? index) && (t' =? t))).
Proof.
  intros Hinv Hi Ht Hc. pose proof Hinv as [Hs Htags Hsp]. pose proof (sh_height _ _ _ Hs) as H6.
  assert (pre (height (root s)) index = 0) as Htop
    by (destruct (Z.eq_dec (pre (height (root s)) index) 0); [done|]; by rewrite (content_beyond s pl) in Hc).
  unfold radix_tree_tag_set. destruct (maxindex_spec (height (root s)) index ltac:(lia) Hi) as (mx & -> & _ & Emx).
  rewrite some_bind, Emx, Htop. cbn [negb Z.eqb].
  destruct (tag_set_down_spec (Z.to_nat (height (root s))) index t pl Hi Ht s Hs) as (m' & E & Hr & Hmk); [lia|done|].
  rewrite Z2Nat.id in * by lia. destruct (top_slot s pl index Hs Hi Htop) as [Et _]. rewrite Et in E.
  unfold top_shift, RADIX_TREE_MAP_SHIFT. rewrite (Z.mul_comm _ 6), E, some_bind.
  rewrite (proj2 (Z.eqb_neq _ 0) Hc). cbn [negb andb root with_nodes].
  set (r' := if root_tag_get (root s) t then root s else root_tag_set (root s) t).
  exists (mk_radix r' m' (preloads s) (answers s) (freed s)).
  assert (height r' = height (root s) /\ rnode r' = rnode (root s) /\
    forall t', 0 <= t' < 2 -> root_tag_get r' t' = root_tag_get (root s) t' || (t' =? t)) as (Hh & Hrn & Hrt).
  { subst r'. destruct (root_tag_get (root s) t) eqn:Er; (split; [done|]; split; [done|]); intros t' Ht'.
    - destruct (Z.eqb_spec t' t) as [->|]; [by rewrite Er | by rewrite orb_false_r].
    - rewrite root_tag_get_set by done. rewrite orb_comm. f_equal. apply Z.eqb_sym. }
  split; [subst r'; by destruct (root_tag_get (root s) t)|].
  assert (1 <= height (root s) -> leaf_item (nodes s) pl index <> 0) as Hleaf.
  { intros Hh1. unfold content in Hc. by rewrite (proj2 (Z.eqb_neq (height (root s)) 0)) in Hc by lia. }
  pose proof (retags_shape _ _ _ _ Hs Hr) as Hs'. split; [|split].
  - constructor; cbn [root nodes].
    + constructor; rewrite ?Hh, ?Hrn; apply Hs'.
    + intros t' Ht'. destruct (decide (t' = t)) as [->|Hne].
      * apply (marked_tags (root s) _ (nodes s) _ _ index); try done; [by apply Htags| | |].
        -- intros l Hl. by apply (present_place s).
        -- rewrite Hrt by done. by rewrite Z.eqb_refl, orb_true_r.
        -- intros Hh0 Hr0. apply Hc. unfold content. rewrite Hh0, Hr0. cbn. by destruct (index =? 0).
      * apply (tag_inv_words (root s) _ (nodes s)); try done; [by apply Htags| |].
        -- intros [l q] a nd nd' Ha Hn Hn'. destruct (Hmk _ _ _ _ _ Ha Hn Hn') as [Ho _]. by apply Ho.
        -- rewrite Hrt by done. by rewrite (proj2 (Z.eqb_neq t' t)), orb_false_r.
    + by apply retags_spares.
  - intros j. unfold content. cbn [root nodes]. by rewrite Hh, Hrn, (retags_item (root s) (nodes s)).
  - intros j t' Hj Ht'. unfold tagged. cbn [root nodes]. rewrite Hh. destruct (Z.eqb_spec (height (root s)) 0) as [E0|E0].
    + rewrite Hrt by done. rewrite E0, pre_0 in Htop. subst index. by destruct (j =? 0), (root_tag_get (root s) t'), (t' =? t).
    + unfold leaf_tag. destruct (pl !! (1, pre 1 j)) as [a|] eqn:Ha.
      * destruct (place_node _ _ _ Hs _ _ _ Ha) as (nd & Hn & _). destruct (proj2 Hr _ _ _ Ha Hn) as (nd' & Hn' & _).
        rewrite Hn, Hn'. destruct (Hmk _ _ _ _ _ Ha Hn Hn') as [Ho Hb]. destruct (Z.eqb_spec t' t) as [->|Hne].
        -- rewrite Hb by (apply Z.mod_pos_bound; lia). f_equal. unfold on_path. rewrite (proj2 (Z.leb_le 1 _)) by lia.
           change (1 - 1) with 0. rewrite pre_0, andb_true_r. cbn [andb]. unfold pre. change (64 ^ 1) with 64.
           destruct (Z.eqb_spec j index) as [->|]; [by rewrite !Z.eqb_refl|].
           destruct (Z.eqb_spec (j / 64) (index / 64)), (Z.eqb_spec (j mod 64) (index mod 64)); try done. word_lia.
        -- by rewrite Ho, andb_false_r, orb_false_r.
      * destruct (Z.eqb_spec j index) as [->|]; [|done]. destruct (present_place s pl index 1 Hs Hi Hc) as [a Ha']; [lia|]. congruence.
Qed.

(** ** The way down, kept for the way up *)

Fixpoint path_ok (H : Z) (pl : places) (index l : Z) (path : list (Z * Z)) : Prop :=
  match path with
  | [] => l = H + 1
  | (a, o) :: path => pl !! (l, pre l index) = Some a /\ o = pre (l - 1) index mod 64 /\ path_ok H pl index (l + 1) path
  end.

Lemma path_down_spec (h : nat) index s pl : is_u32 index -> shape (root s) (nodes s) pl -> Z.of_nat h <= height (root s) ->
  forall acc, path_ok (height (root s)) pl index (Z.of_nat h + 1) acc ->
  exists path, path_down h (nodes s) (below s pl (Z.of_nat h) index) index (u32 (6 * (Z.of_nat h - 1))) acc =
      Some (path, content s pl index) /\
    (content s pl index <> 0 -> path_ok (height (root s)) pl index 1 path).
Proof.
  intros Hi Hs. induction h as [|h IH]; intros Hh acc Hacc; cbn [path_down].
  - exists acc. change (below s pl (Z.of_nat 0) index) with (content s pl index). split; [done|]. by intros _.
  - set (l := Z.of_nat (S h)) in *. pose proof (sh_height _ _ _ Hs) as H6.
    destruct (Z.eqb_spec (below s pl l index) 0) as [Ez|Ez].
    + destruct (below_zero s pl l index Hs Hi ltac:(lia) Ez) as [_ Ec]. rewrite Ec. by exists acc.
    + unfold below in Ez |- *. rewrite (proj2 (Z.eqb_neq l 0)) in * by lia.
      destruct (pl !! (l, pre l index)) as [a|] eqn:Ha; [|done]. change (default 0 (Some a)) with a.
      destruct (place_node _ _ _ Hs _ _ _ Ha) as (nd & Hn & Ho). rewrite Hn, some_bind.
      rewrite (u32_small (6 * (l - 1))) by (unfold is_u32; lia). rewrite offset_pre by lia.
      replace (l - 1) with (Z.of_nat h) in * by lia.
      rewrite (below_slot s pl _ _ a nd Hs Hi) by (done || lia || replace (Z.of_nat h + 1) with l by lia; done).
      rewrite some_bind. unfold RADIX_TREE_MAP_SHIFT.
      replace (6 * Z.of_nat h - 6) with (6 * (Z.of_nat h - 1)) by lia. apply IH; [lia|].
      replace (Z.of_nat h + 1) with l by lia. cbn [path_ok]. split_and!; [done|by replace (l - 1) with (Z.of_nat h) by lia|done].
Qed.

(** ** radix_tree_tag_clear *)

(** The word of one node changes; [ex'] is what may be wrong afterwards. *)
Lemma tag_inv_retag r m pl ex ex' t l q a nd w nd' : shape r m pl -> tag_inv r m pl ex t ->
  pl !! (l, q) = Some a -> m !! a = Some nd -> retagged nd t w nd' ->
  (l = 1 -> forall i, 0 <= i < 64 -> Z.testbit w i = true -> slot nd i <> 0) ->
  (forall i, 2 <= l -> 0 <= i < 64 -> pl !! (l - 1, 64 * q + i) = None -> Z.testbit w i = false) ->
  (forall i c cd, 2 <= l -> 0 <= i < 64 -> pl !! (l - 1, 64 * q + i) = Some c -> m !! c = Some cd ->
     (l - 1, 64 * q + i) <> ex' -> Z.testbit w i = any_tag cd t) ->
  ((l, q) <> ex' -> (l, q) <> ex /\ any_tag nd' t = any_tag nd t) ->
  (forall l' q', (l', q') <> (l, q) -> (l', q') <> ex' -> (l' + 1, q' / 64) <> (l, q) -> (l', q') <> ex) ->
  tag_inv r (<[a := nd']> m) pl ex' t.
Proof.
  intros Hs Ht Ha Hm Hre Hit Hnone Hsome Hself Hex. pose proof (place_level _ _ _ Hs _ _ _ Ha) as Hlev.
  assert (forall x b bd, pl !! x = Some b -> <[a := nd']> m !! b = Some bd ->
    (x = (l, q) /\ b = a /\ bd = nd') \/ (x <> (l, q) /\ m !! b = Some bd)) as Hold.
  { intros x b bd Hb Hbd. destruct (decide (b = a)) as [->|Hne].
    - left. rewrite lookup_insert_eq in Hbd. injection Hbd as <-. split; [by apply (sh_inj _ _ _ Hs _ _ a)|done].
    - right. rewrite lookup_insert_ne in Hbd by done. split; [|done]. intros ->. congruence. }
  pose proof (rt_same _ _ _ _ Hre) as Hw. constructor.
  - intros q' b bd i Hb [([= <- <-] & -> & ->)|[Hne Hbd]]%(Hold _ _ _ Hb) Hi.
    + rewrite Hw. unfold slot. rewrite (rt_slots _ _ _ _ Hre). by apply Hit.
    + by apply (ti_item _ _ _ _ _ Ht q' b).
  - intros l' q' b bd i Hb [([= -> ->] & -> & ->)|[Hne Hbd]]%(Hold _ _ _ Hb) Hl Hi Hn.
    + rewrite Hw. by apply Hnone.
    + by apply (ti_none _ _ _ _ _ Ht l' q' b bd).
  - intros l' q' b bd i c cd Hb [([= -> ->] & -> & ->)|[Hne Hbd]]%(Hold _ _ _ Hb) Hl Hi Hc
      [([= E1 E2] & -> & ->)|[Hne' Hcd]]%(Hold _ _ _ Hc) Hx.
    + lia.
    + rewrite Hw. by eapply Hsome.
    + rewrite E1, E2 in Hx. destruct (Hself Hx) as [Hx' ->].
      apply (ti_some _ _ _ _ _ Ht l' q' b bd i a nd); try done. by rewrite E1, E2.
    + apply (ti_some _ _ _ _ _ Ht l' q' b bd i c cd); try done. apply Hex; try done. intros E. apply Hne. rewrite <- E.
      f_equal; [lia|]. rewrite Z.mul_comm, Z.div_add_l, Z.div_small by lia. lia.
  - intros b bd Hb [([= E1 E2] & -> & ->)|[Hne Hbd]]%(Hold _ _ _ Hb) Hx.
    + rewrite E1, E2 in Hx. destruct (Hself Hx) as [Hx' ->]. apply (ti_root _ _ _ _ _ Ht a); try done. by rewrite E1, E2.
    + apply (ti_root _ _ _ _ _ Ht b); try done. apply Hex; try done. intros [=]. lia.
  - apply Ht.
Qed.

(** A node whose tag for the place below is clear needs no exception. *)
Lemma tag_inv_settle r m pl ex t : shape r m pl -> tag_inv r m pl ex t -> ex.1 < height r ->
  (forall l q a nd i c cd, pl !! (l, q) = Some a -> m !! a = Some nd -> 2 <= l -> 0 <= i < 64 ->
     pl !! (l - 1, 64 * q + i) = Some c -> m !! c = Some cd -> (l - 1, 64 * q + i) = ex ->
     Z.testbit (tag_word nd t) i = any_tag cd t) -> tag_inv r m pl no_ex t.
Proof.
  intros Hs Ht Hex Hset. constructor; try apply Ht.
  - intros l q a nd i c cd Ha Hm Hl Hi Hc Hcd _. destruct (decide ((l - 1, 64 * q + i) = ex)) as [E|E].
    + by apply (Hset l q a nd i c cd).
    + by apply (ti_some _ _ _ _ _ Ht l q a nd i c cd).
  - intros a nd Ha Hm _. apply (ti_root _ _ _ _ _ Ht a nd Ha Hm). intros <-. cbn in Hex. lia.
Qed.

Lemma tag_inv_leaf_ex r m pl t x : shape r m pl -> tag_inv r m pl no_ex t -> tag_inv r m pl (0, x) t.
Proof.
  intros Hs Ht. constructor; try apply Ht.
  - intros l q a nd i c cd Ha Hm Hl Hi Hc Hcd _. apply (ti_some _ _ _ _ _ Ht l q a nd i c cd); try done. intros [=]. lia.
  - intros a nd Ha Hm _. apply (ti_root _ _ _ _ _ Ht a nd Ha Hm). pose proof (place_level _ _ _ Hs _ _ _ Ha). intros [=]. lia.
Qed.

(** What clearing the tag from level [l] up leaves. *)
Record cleared (r : radix_tree_root) (m : gmap Z radix_tree_node) (pl : places) (index l t : Z)
    (r' : radix_tree_root) (m' : gmap Z radix_tree_node) : Prop := mk_cleared {
  cl_height : height r' = height r;
  cl_rnode : rnode r' = rnode r;
  cl_root : forall t', 0 <= t' < 2 -> t' <> t -> root_tag_get r' t' = root_tag_get r t';
  cl_retags : retags m m' pl;
  cl_tags : tag_inv r' m' pl no_ex t;
  cl_words : forall l' q a nd nd', pl !! (l', q) = Some a -> m !! a = Some nd -> m' !! a = Some nd' ->
    (forall t', t' <> t -> tag_word nd' t' = tag_word nd t') /\ (l' < l -> tag_word nd' t = tag_word nd t) /\
    (l' = 1 -> l = 1 -> forall i, 0 <= i < 64 -> Z.testbit (tag_word nd' t) i =
       Z.testbit (tag_word nd t) i && negb ((q =? pre 1 index) && (i =? index mod 64)));
  cl_empty : height r = 0 -> root_tag_get r' t = false
}.

Lemma tag_clear_up_spec path index t pl : is_u32 index -> 0 <= t < 2 -> forall l s,
  shape (root s) (nodes s) pl -> 1 <= l -> pre (height (root s)) index = 0 -> path_ok (height (root s)) pl index l path ->
  tag_inv (root s) (nodes s) pl (l - 1, pre (l - 1) index) t ->
  (forall c cd, 2 <= l -> pl !! (l - 1, pre (l - 1) index) = Some c -> nodes s !! c = Some cd -> any_tag cd t = false) ->
  exists r' m', tag_clear_up path s t = Some (mk_radix r' m' (preloads s) (answers s) (freed s)) /\
    cleared (root s) (nodes s) pl index l t r' m'.
Proof.
  intros Hi Ht. induction path as [|[a o] path IH]; intros l s Hs Hl Htop Hp Hti Hch; cbn [tag_clear_up]; cbn [path_ok] in Hp.
  - exists (if root_tag_get (root s) t then root_tag_clear (root s) t else root s), (nodes s).
    set (r' := if root_tag_get (root s) t then root_tag_clear (root s) t else root s).
    assert (height r' = height (root s) /\ rnode r' = rnode (root s) /\ root_tag_get r' t = false /\
      forall t', 0 <= t' < 2 -> t' <> t -> root_tag_get r' t' = root_tag_get (root s) t') as (Hh & Hr & Hrt & Hro).
    { subst r'. destruct (root_tag_get (root s) t) eqn:E; split_and!; try done.
      - by rewrite root_tag_get_clear, Z.eqb_refl by done.
      - intros t' Ht' Hne. rewrite root_tag_get_clear by done. by rewrite (proj2 (Z.eqb_neq t t')) by done. }
    split; [subst r'; destruct (root_tag_get (root s) t); by destruct s|]. constructor; try done; [by eapply retags_refl| |].
    + constructor; rewrite ?Hh, ?Hrt; try apply Hti; [| |done].
      * intros l' q b bd i c cd Hb Hbm Hl' Hi' Hc Hcd _. apply (ti_some _ _ _ _ _ Hti l' q b bd i c cd); try done.
        pose proof (place_level _ _ _ Hs _ _ _ Hb). intros [=]. lia.
      * intros b bd Hb Hbm _. symmetry. pose proof (place_level _ _ _ Hs _ _ _ Hb).
        apply (Hch b); [lia| |done]. replace (l - 1) with (height (root s)) by lia. by rewrite Htop.
    + intros l' q b nd nd' Hb Hn Hn'. assert (nd' = nd) as -> by congruence. split_and!; [done..|].
      intros -> -> i _. pose proof (place_level _ _ _ Hs _ _ _ Hb). lia.
  - destruct Hp as (Ha & -> & Hp). set (o := pre (l - 1) index mod 64).
    assert (0 <= o < 64) as Ho64 by (apply Z.mod_pos_bound; lia).
    destruct (place_node _ _ _ Hs _ _ _ Ha) as (nd & Hn & Ho). pose proof (place_level _ _ _ Hs _ _ _ Ha) as Hlev.
    rewrite Hn, some_bind, tag_get_eq, some_bind by (done || apply Ho).
    assert (forall q i, 64 * q + i = pre (l - 1) index -> 0 <= i < 64 -> q = pre l index /\ i = o) as Hdigit.
    { intros q i E Hi'. rewrite (pre_pred l) in E by lia. fold o in E. lia. }
    destruct (Z.testbit (tag_word nd t) o) eqn:Eb; cbn [negb].
    + destruct (tag_clear_eq nd t o) as (nd1 & -> & Hre); [apply Ho | apply Ho | done..|]. rewrite some_bind.
      rewrite any_tag_set_eq, some_bind by (done || apply Hre).
      set (s1 := set_node s a nd1). set (w := Z.clearbit (tag_word nd t) o) in Hre.
      assert (forall i, 0 <= i -> Z.testbit w i = Z.testbit (tag_word nd t) i && negb (o =? i)) as Hw
        by (intros i Hi'; apply Z.clearbit_eqb; lia).
      assert (retags (nodes s) (nodes s1) pl) as Hrg by (by eapply retags_insert).
      assert (forall ex', (any_tag nd1 t = false -> ex' = (l, pre l index)) -> (any_tag nd1 t = true -> ex' = no_ex) ->
        tag_inv (root s) (nodes s1) pl ex' t) as Hgo.
      { intros ex' Hf Htr. apply (tag_inv_retag _ _ _ (l - 1, pre (l - 1) index) ex' t l (pre l index) a nd w nd1); try done.
        - intros -> i Hi'. rewrite Hw by lia. intros [? _]%andb_true_iff. by apply (ti_item _ _ _ _ _ Hti (pre 1 index) a).
        - intros i Hl' Hi' Hnone. rewrite Hw by lia. by rewrite (ti_none _ _ _ _ _ Hti l (pre l index) a nd).
        - intros i c cd Hl' Hi' Hc Hcd Hx. rewrite Hw by lia. destruct (Z.eqb_spec o i) as [<-|Hne]; cbn [negb].
          + rewrite andb_false_r. symmetry. apply (Hch c); [done| |done]. by rewrite (pre_pred l) by lia.
          + rewrite andb_true_r. apply (ti_some _ _ _ _ _ Hti l (pre l index) a nd i c cd); try done.
            intros [= E]. apply Hdigit in E; [|done]. lia.
        - intros Hx. split; [intros [=]; lia|]. rewrite (any_tag_bit nd t o Eb).
          destruct (any_tag nd1 t); [done|]. by rewrite Hf in Hx.
        - intros l' q' _ _ Hx [= -> ->]. apply Hx. rewrite pre_step by lia. do 2 f_equal; lia. }
      assert (forall l' q b bd bd', pl !! (l', q) = Some b -> nodes s !! b = Some bd -> nodes s1 !! b = Some bd' ->
        (b = a /\ l' = l /\ q = pre l index /\ bd = nd /\ bd' = nd1) \/ (b <> a /\ (l', q) <> (l, pre l index) /\ bd' = bd)) as Hstep.
      { intros l' q b bd bd' Hb Hbm Hbm'. cbn [nodes s1 set_node] in Hbm'. destruct (decide (b = a)) as [->|Hne].
        - rewrite lookup_insert_eq in Hbm'. pose proof (sh_inj _ _ _ Hs _ _ _ Ha Hb) as [= <- <-]. left. split_and!; congruence.
        - rewrite lookup_insert_ne in Hbm' by done. right. split_and!; [done| |congruence]. intros E. rewrite E in Hb. congruence. }
      assert (forall l' q b bd bd', pl !! (l', q) = Some b -> nodes s !! b = Some bd -> nodes s1 !! b = Some bd' ->
        (forall t', t' <> t -> tag_word bd' t' = tag_word bd t') /\ (l' < l -> tag_word bd' t = tag_word bd t) /\
        (l' = 1 -> l = 1 -> forall i, 0 <= i < 64 -> Z.testbit (tag_word bd' t) i =
          Z.testbit (tag_word bd t) i && negb ((q =? pre 1 index) && (i =? index mod 64)))) as Hwords.
      { intros l' q b bd bd' Hb Hbm Hbm'.
        destruct (Hstep l' q b bd bd' Hb Hbm Hbm') as [(-> & -> & -> & -> & ->)|(_ & Hne & ->)].
        - split_and!; [apply Hre | lia|]. intros -> _ i Hi'. rewrite (rt_same _ _ _ _ Hre), Hw by lia. f_equal. f_equal.
          rewrite Z.eqb_refl. subst o. change (1 - 1) with 0. rewrite pre_0. apply Z.eqb_sym.
        - split_and!; [done..|]. intros -> -> i Hi'. rewrite (proj2 (Z.eqb_neq q (pre 1 index))) by congruence.
          by rewrite andb_true_r. }
      destruct (any_tag nd1 t) eqn:Ea.
      * exists (root s), (nodes s1). split; [done|]. constructor; try done; [by apply Hgo | lia].
      * destruct (IH (l + 1) s1) as (r' & m' & E & [Hh Hr Hro Hrg' Htg Hwd Hem]); try done; try lia.
        { by apply (retags_shape _ (nodes s)). }
        { replace (l + 1 - 1) with l by lia. by apply Hgo. }
        { intros c cd _. replace (l + 1 - 1) with l by lia. rewrite Ha. intros [= <-]. cbn. rewrite lookup_insert_eq.
          by intros [= <-]. }
        rewrite E. exists r', m'. split; [done|]. constructor; try done; [by eapply retags_trans|].
        -- intros l' q b bd bd' Hb Hbm Hbm'. destruct (proj2 Hrg _ _ _ Hb Hbm) as (b1 & Hb1 & _).
           destruct (Hwords _ _ _ _ _ Hb Hbm Hb1) as (W1 & W2 & W3). destruct (Hwd _ _ _ _ _ Hb Hb1 Hbm') as (V1 & V2 & _).
           split_and!.
           ++ intros t' Ht'. rewrite V1, W1 by done. done.
           ++ intros Hl'. rewrite V2, W2 by lia. done.
           ++ intros -> -> i Hi'. rewrite V2 by lia. by apply W3.
    + exists (root s), (nodes s). split; [by destruct s|]. constructor; try done; [by eapply retags_refl| | |lia].
      * apply (tag_inv_settle _ _ _ (l - 1, pre (l - 1) index)); [done..|cbn; lia|].
        intros l' q b bd i c cd Hb Hbm Hl' Hi' Hc Hcd [= E1 E2]. assert (l' = l) as -> by lia.
        apply Hdigit in E2 as E3; [|done]. destruct E3 as [-> ->]. assert (bd = nd) as -> by congruence. rewrite Eb. symmetry.
        apply (Hch c); [done| |done]. by rewrite <- E2.
      * intros l' q b bd bd' Hb Hbm Hbm'. assert (bd' = bd) as -> by congruence. split_and!; [done..|].
        intros -> -> i Hi'. destruct (Z.eqb_spec q (pre 1 index)) as [->|]; [|by rewrite andb_true_r].
        assert (bd = nd) as -> by congruence. destruct (Z.eqb_spec i (index mod 64)) as [->|]; [|by rewrite andb_true_r].
        subst o. change (1 - 1) with 0 in Eb. rewrite pre_0 in Eb. by rewrite Eb.
Qed.

Lemma tagged_present s pl index t : inv s pl -> is_u32 index -> 0 <= t < 2 -> tagged s pl index t = true ->
  content s pl index <> 0.
Proof.
  intros Hinv Hi Ht. pose proof (inv_shape _ _ Hinv) as Hs. pose proof (inv_tags _ _ Hinv t Ht) as Hti. unfold tagged, content.
  destruct (Z.eqb_spec (height (root s)) 0) as [E|E].
  - intros [->%Z.eqb_eq Hr]%andb_true_iff. cbn.
    apply (ti_root_none _ _ _ _ _ Hti); [|done]. rewrite E. destruct (pl !! _) eqn:Ep; [|done].
    apply (place_level _ _ _ Hs) in Ep. lia.
  - unfold leaf_tag, leaf_item. destruct (pl !! _) as [a|] eqn:Ha; [|done]. destruct (nodes s !! a) as [nd|] eqn:Hn; [|done].
    apply (ti_item _ _ _ _ _ Hti (pre 1 index) a nd); [done..|]. apply Z.mod_pos_bound. lia.
Qed.

Lemma tag_clear_spec s pl index t : inv s pl -> is_u32 index -> 0 <= t < 2 ->
  exists r' m', radix_tree_tag_clear s index t =
      Some (mk_radix r' m' (preloads s) (answers s) (freed s), content s pl index) /\
    inv (mk_radix r' m' (preloads s) (answers s) (freed s)) pl /\
    height r' = height (root s) /\ rnode r' = rnode (root s) /\ retags (nodes s) m' pl /\
    (forall j t', is_u32 j -> 0 <= t' < 2 -> tagged (mk_radix r' m' (preloads s) (answers s) (freed s)) pl j t' =
       tagged s pl j t' && negb ((j =? index) && (t' =? t))).
Proof.
  intros Hinv Hi Ht. pose proof Hinv as [Hs Htags Hsp]. pose proof (sh_height _ _ _ Hs) as H6.
  assert (content s pl index = 0 -> inv s pl /\ height (root s) = height (root s) /\ rnode (root s) = rnode (root s) /\
    retags (nodes s) (nodes s) pl /\
    (forall j t', is_u32 j -> 0 <= t' < 2 -> tagged s pl j t' = tagged s pl j t' && negb ((j =? index) && (t' =? t)))) as Hnop.
  { intros Hc. split_and!; try done; [by eapply retags_refl|]. intros j t' Hj Ht'.
    destruct (Z.eqb_spec j index) as [->|]; [|by rewrite andb_true_r].
    destruct (tagged s pl index t') eqn:Et; [|done]. by apply (tagged_present s pl) in Et. }
  unfold radix_tree_tag_clear. destruct (maxindex_spec (height (root s)) index ltac:(lia) Hi) as (mx & -> & _ & Emx).
  rewrite some_bind, Emx. destruct (Z.eqb_spec (pre (height (root s)) index) 0) as [Htop|Htop]; cbn [negb].
  2: { pose proof (content_beyond s pl index Hs Hi Htop) as Hc. exists (root s), (nodes s). rewrite Hc.
       split; [by destruct s|]. destruct s. by apply Hnop. }
  destruct (path_down_spec (Z.to_nat (height (root s))) index s pl Hi Hs ltac:(lia) []) as (path & E & Hpath).
  { cbn [path_ok]. lia. }
  rewrite Z2Nat.id in E by lia. destruct (top_slot s pl index Hs Hi Htop) as [Et _]. rewrite Et in E.
  unfold top_shift, RADIX_TREE_MAP_SHIFT. rewrite (Z.mul_comm _ 6), E, some_bind.
  destruct (Z.eqb_spec (content s pl index) 0) as [Hc|Hc].
  { exists (root s), (nodes s). rewrite Hc. split; [by destruct s|]. destruct s. by apply Hnop. }
  destruct (tag_clear_up_spec path index t pl Hi Ht 1 s) as (r' & m' & -> & [Hh Hr Hro Hrg Htg Hwd Hem]); try done; [by apply Hpath| |].
  { rewrite pre_0. change (1 - 1) with 0. apply tag_inv_leaf_ex; [done | by apply Htags]. }
  rewrite some_bind. exists r', m'. split; [done|]. split_and!; try done.
  - pose proof (retags_shape _ _ _ _ Hs Hrg) as Hs'. constructor; cbn [root nodes].
    + constructor; rewrite ?Hh, ?Hr; apply Hs'.
    + intros t' Ht'. destruct (decide (t' = t)) as [->|Hne]; [done|].
      apply (tag_inv_words (root s) _ (nodes s)); try done; [by apply Htags| |by apply Hro].
      intros [l q] a nd nd' Ha Hn Hn'. destruct (Hwd _ _ _ _ _ Ha Hn Hn') as [Ho _]. by apply Ho.
    + by apply retags_spares.
  - intros j t' Hj Ht'. unfold tagged. cbn [root nodes]. rewrite Hh.
    destruct (Z.eqb_spec (height (root s)) 0) as [E0|E0].
    + rewrite E0, pre_0 in Htop. subst index. destruct (Z.eqb_spec t' t) as [->|Hne].
      * rewrite Hem by done. by destruct (j =? 0), (root_tag_get (root s) t).
      * rewrite Hro by done. by rewrite andb_false_r, andb_true_r.
    + unfold leaf_tag. destruct (pl !! (1, pre 1 j)) as [a|] eqn:Ha; [|done].
      destruct (place_node _ _ _ Hs _ _ _ Ha) as (nd & Hn & _). destruct (proj2 Hrg _ _ _ Ha Hn) as (nd' & Hn' & _).
      rewrite Hn, Hn'. destruct (Hwd _ _ _ _ _ Ha Hn Hn') as (Ho & _ & Hb). destruct (Z.eqb_spec t' t) as [->|Hne].
      * rewrite Hb by (done || apply Z.mod_pos_bound; lia). f_equal. f_equal. rewrite andb_true_r.
        unfold pre. change (64 ^ 1) with 64. destruct (Z.eqb_spec j index) as [->|]; [by rewrite !Z.eqb_refl|].
        destruct (Z.eqb_spec (j / 64) (index / 64)), (Z.eqb_spec (j mod 64) (index mod 64)); try done. word_lia.
      * by rewrite Ho, andb_false_r, andb_true_r.
Qed.

(** ** Tags of the tree *)

Lemma any_tag_down s pl t : inv s pl -> 0 <= t < 2 -> forall (n : nat) q a nd,
  pl !! (1 + Z.of_nat n, q) = Some a -> nodes s !! a = Some nd -> any_tag nd t = true ->
  exists index, is_u32 index /\ pre (1 + Z.of_nat n) index = q /\ leaf_tag (nodes s) pl index t = true.
Proof.
  intros Hinv Ht. pose proof (inv_shape _ _ Hinv) as Hs. pose proof (inv_tags _ _ Hinv t Ht) as Hti.
  induction n as [|n IH]; intros q a nd Ha Hn Hany; destruct (place_node _ _ _ Hs _ _ _ Ha) as (nd' & Hn' & Ho);
    assert (nd' = nd) as -> by congruence; apply any_tag_true in Hany as (i & Hi & Hb); try apply Ho.
  - change (1 + Z.of_nat 0) with 1 in *. destruct (sh_dom _ _ _ Hs _ _ _ Ha) as (_ & Hq & Hq32 & _).
    change (64 ^ 1) with 64 in Hq32. exists (64 * q + i). destruct (proj1 (pre1_index (64 * q + i) q i Hi) eq_refl) as [Ep Em].
    split; [unfold is_u32; word_lia|]. split; [done|]. rewrite <- Ep in Ha.
    rewrite (leaf_tag_eq _ _ _ _ _ _ Ha Hn). by rewrite Em.
  - set (l := 1 + Z.of_nat (S n)) in *. destruct (pl !! (l - 1, 64 * q + i)) as [c|] eqn:Hc.
    + destruct (place_node _ _ _ Hs _ _ _ Hc) as (cd & Hcn & _).
      rewrite (ti_some _ _ _ _ _ Hti l q a nd i c cd) in Hb; try done; [|lia|intros [=]; lia].
      replace (l - 1) with (1 + Z.of_nat n) in Hc by lia. destruct (IH _ _ _ Hc Hcn Hb) as (index & Hidx & Hp & Hlt).
      exists index. split; [done|]. split; [|done]. replace l with (1 + Z.of_nat n + 1) by lia. rewrite pre_succ, Hp by lia.
      rewrite Z.mul_comm, Z.div_add_l, Z.div_small by lia. lia.
    + rewrite (ti_none _ _ _ _ _ Hti l q a nd) in Hb; try done. lia.
Qed.

(** C24. radix_tree_tagged says whether some item has the tag. *)
Theorem tagged_iff s t : wf s -> 0 <= t < 2 ->
  radix_tree_tagged s t = true <-> exists index, is_u32 index /\ radix_tree_tag_get s index t = Some true.
Proof.
  intros [pl Hinv] Ht. pose proof (inv_shape _ _ Hinv) as Hs. pose proof (inv_tags _ _ Hinv t Ht) as Hti.
  pose proof (sh_height _ _ _ Hs) as H6. unfold radix_tree_tagged. split.
  - intros Hr. destruct (pl !! (height (root s), 0)) as [a|] eqn:Ha.
    + destruct (place_node _ _ _ Hs _ _ _ Ha) as (nd & Hn & _). pose proof (place_level _ _ _ Hs _ _ _ Ha) as Hl.
      rewrite (ti_root _ _ _ _ _ Hti a nd Ha Hn) in Hr by (intros [=]; lia).
      replace (height (root s)) with (1 + Z.of_nat (Z.to_nat (height (root s) - 1))) in Ha by lia.
      destruct (any_tag_down s pl t Hinv Ht _ _ _ _ Ha Hn Hr) as (index & Hi & _ & Hlt). exists index. split; [done|].
      rewrite (tag_get_spec s pl) by done. unfold tagged. by rewrite (proj2 (Z.eqb_neq (height (root s)) 0)), Hlt by lia.
    + destruct (ti_root_none _ _ _ _ _ Hti Ha Hr) as [E _]. exists 0. split; [done|]. rewrite (tag_get_spec s pl) by done.
      unfold tagged. by rewrite E, Hr.
  - intros (index & Hi & Hg). rewrite (tag_get_spec s pl) in Hg by done. injection Hg as Hg. unfold tagged in Hg.
    destruct (Z.eqb_spec (height (root s)) 0); [by apply andb_true_iff in Hg as [_ ?]|].
    apply (leaf_tag_root _ _ _ _ Hs Hti) in Hg; [done | lia | apply Hi].
Qed.

Lemma tagged_iff_witness : wf sample_filled /\ radix_tree_tagged sample_filled 1 = false /\
  ~ exists index, is_u32 index /\ radix_tree_tag_get sample_filled index 1 = Some true.
Proof.
  pose proof sample_filled_wf as Hwf. split; [done|]. split; [by vm_compute|].
  intros H%(tagged_iff sample_filled 1 Hwf ltac:(lia)). by vm_compute in H.
Defined.

(** radix_tree_tag_set and radix_tree_tag_clear return the item at the index
    and set or clear its tag; every other tag of every index, and every item, stays. *)
Theorem tag_set_clear s index t : wf s -> is_u32 index -> 0 <= t < 2 ->
  exists item, radix_tree_lookup s index = Some item /\
    (item <> 0 -> exists s', radix_tree_tag_set s index t = Some (s', item) /\ wf s' /\
       (forall j, is_u32 j -> radix_tree_lookup s' j = radix_tree_lookup s j) /\
       (forall j t', is_u32 j -> 0 <= t' < 2 -> radix_tree_tag_get s' j t' =
          if (j =? index) && (t' =? t) then Some true else radix_tree_tag_get s j t')) /\
    exists s', radix_tree_tag_clear s index t = Some (s', item) /\ wf s' /\
       (forall j, is_u32 j -> radix_tree_lookup s' j = radix_tree_lookup s j) /\
       (forall j t', is_u32 j -> 0 <= t' < 2 -> radix_tree_tag_get s' j t' =
          if (j =? index) && (t' =? t) then Some false else radix_tree_tag_get s j t').
Proof.
  intros [pl Hinv] Hi Ht. pose proof (inv_shape _ _ Hinv) as Hs. exists (content s pl index).
  split; [by apply lookup_spec|]. split.
  - intros Hc. destruct (tag_set_spec s pl index t Hinv Hi Ht Hc) as (s' & E & Hinv' & Hcs & Htg).
    exists s'. split_and!; [done | by exists pl | |].
    + intros j Hj. by rewrite (lookup_spec s' pl), (lookup_spec s pl), Hcs by (done || apply Hinv').
    + intros j t' Hj Ht'. rewrite (tag_get_spec s' pl), (tag_get_spec s pl), Htg by (done || apply Hj).
      destruct ((j =? index) && (t' =? t)); by rewrite ?orb_true_r, ?orb_false_r.
  - destruct (tag_clear_spec s pl index t Hinv Hi Ht) as (r' & m' & E & Hinv' & Hh & Hr & Hrg & Htg).
    eexists. split; [exact E|]. split_and!; [by exists pl| |].
    + intros j Hj. rewrite (lookup_spec _ pl), (lookup_spec s pl) by (done || apply Hinv').
      unfold content. cbn [root nodes]. by rewrite Hh, Hr, (retags_item (root s) (nodes s)).
    + intros j t' Hj Ht'. rewrite (tag_get_spec _ pl), (tag_get_spec s pl), Htg by done.
      destruct ((j =? index) && (t' =? t)); by rewrite ?andb_true_r, ?andb_false_r.
Qed.

Lemma tag_set_clear_witness : wf sample_filled /\
  exists s', radix_tree_tag_set sample_filled 5000 1 = Some (s', 0x100) /\ radix_tree_tag_get s' 5000 1 = Some true /\
    radix_tree_tag_get s' 70 1 = Some false.
Proof.
  pose proof sample_filled_wf as Hwf. split; [done|].
  destruct (tag_set_clear sample_filled 5000 1 Hwf ltac:(done) ltac:(lia)) as (item & El & Hset & _).
  vm_compute in El. injection El as <-. destruct (Hset ltac:(done)) as (s' & E & _ & _ & Hg).
  exists s'. split; [done|]. rewrite !Hg by (unfold is_u32; lia). split; [by vm_compute | by vm_compute].
Defined.
