(* ===== verification/RadixDelete.v ===== *)
(** * Radix trees: deletion (lib/radix-tree.c)

    radix_tree_delete and radix_tree_shrink.  A node is given back when nothing
    is left in it, with all its slots, tags and its count zero: the slab hands
    nodes out as they came back. *)

From S2P Require Import Prelude RadixTree RadixInsert RadixTags.

#[local] Open Scope Z_scope.

(** ** Nodes with nothing in them *)

Lemma nz_zero l : nz l = 0 -> l = replicate (length l) 0.
Proof.
  unfold nz. induction l as [|x l IH]; [done|]. rewrite filter_cons.
  destruct (decide (x <> 0)) as [|E]; cbn [length]; [lia|]. intros H. cbn [replicate]. rewrite <- IH by done. f_equal. lia.
Qed.

Lemma empty_slots pl l q nd : node_ok pl l q nd -> count nd = 0 -> forall i, slot nd i = 0.
Proof.
  intros Ho Hc i. rewrite (no_count _ _ _ _ Ho) in Hc. apply nz_zero in Hc. unfold slot, rd. rewrite Hc.
  destruct (i <? 0); [done|]. destruct (_ !! _) eqn:E; [|done]. by apply lookup_replicate_1 in E as [-> _].
Qed.

Lemma words_zero nd : length (tags nd) = 2%nat -> (forall t, 0 <= t < 2 -> tag_word nd t = 0) -> tags nd = replicate 2 0.
Proof.
  intros Hl Hz. pose proof (Hz 0 ltac:(lia)) as H0. pose proof (Hz 1 ltac:(lia)) as H1. unfold tag_word in *.
  destruct (tags nd) as [|x [|y [|? ?]]]; try done. change (x = 0) in H0. change (y = 0) in H1. by subst.
Qed.

(** A node with no slot in use is zeroed, but for its height. *)
Lemma empty_zeroed s pl l q a nd : inv s pl -> pl !! (l, q) = Some a -> nodes s !! a = Some nd -> count nd = 0 -> zeroed nd.
Proof.
  intros Hinv Ha Hm Hc. pose proof (inv_shape _ _ Hinv) as Hs.
  destruct (place_node _ _ _ Hs _ _ _ Ha) as (nd' & Hm' & Ho). assert (nd' = nd) as -> by congruence.
  pose proof (empty_slots _ _ _ _ Ho Hc) as Hsl. split; [done|]. split.
  - rewrite <- (no_slots _ _ _ _ Ho). apply nz_zero. by rewrite <- (no_count _ _ _ _ Ho).
  - apply words_zero; [apply Ho|]. intros t Ht. pose proof (inv_tags _ _ Hinv t Ht) as Hti.
    destruct (any_tag nd t) eqn:E; [|unfold any_tag in E; lia]. exfalso.
    apply any_tag_true in E as (i & Hi & Hb); [|apply Ho]. pose proof (place_level _ _ _ Hs _ _ _ Ha) as Hl.
    destruct (decide (l = 1)) as [->|Hl1]; [by destruct (ti_item _ _ _ _ _ Hti q a nd i Ha Hm Hi Hb (Hsl i))|].
    pose proof (no_children _ _ _ _ Ho ltac:(lia) i Hi) as Hch. rewrite Hsl in Hch. symmetry in Hch.
    apply (default_zero _ _ _ Hs) in Hch. rewrite (ti_none _ _ _ _ _ Hti l q a nd) in Hb; done || lia.
Qed.

(** ** A node is unlinked *)

Section unlink.
  Context (s : radix) (pl : places) (Hinv : inv s pl).
  Context (l q a i c : Z) (nd nd' cd : radix_tree_node).
  Context (Ha : pl !! (l, q) = Some a) (Hm : nodes s !! a = Some nd) (Hl : 2 <= l) (Hi : 0 <= i < 64).
  Context (Hc : pl !! (l - 1, 64 * q + i) = Some c) (Hcm : nodes s !! c = Some cd) (Hcd : zeroed cd).
  Context (Hnd : nheight nd' = nheight nd) (Hcount : count nd' = nz (slots nd')) (Htags : tags nd' = tags nd).
  Context (Hlen : length (slots nd') = 64%nat).
  Context (Hslot : slot nd' i = 0) (Hother : forall j, j <> i -> slot nd' j = slot nd j).

  Abbreviation s1 := (set_node s a nd').
  Abbreviation pl1 := (delete (l - 1, 64 * q + i) pl).

Lemma unlink_old x b : pl1 !! x = Some b -> pl !! x = Some b /\ b <> c /\ x <> (l - 1, 64 * q + i).
  Proof.
    intros [Hne Hb]%lookup_delete_Some. split; [done|]. split; [|done]. intros ->. apply Hne.
    by apply (sh_inj _ _ _ (inv_shape _ _ Hinv) _ _ c).
  Qed.

Lemma unlink_no_child l' q' b : pl !! (l', q') = Some b -> (l' + 1, q' / 64) = (l - 1, 64 * q + i) -> False.
  Proof.
    intros Hb [= E1 E2]. pose proof (inv_shape _ _ Hinv) as Hs. destruct (place_node _ _ _ Hs _ _ _ Hc) as (cd' & Hcm' & Ho).
    assert (cd' = cd) as -> by congruence. pose proof (place_level _ _ _ Hs _ _ _ Hb).
    pose proof (no_children _ _ _ _ Ho ltac:(lia) (q' mod 64) (Z.mod_pos_bound q' 64 ltac:(lia))) as Hch.
    rewrite zeroed_slot, <- E2 in Hch by done. replace (l - 1 - 1) with l' in Hch by lia.
    rewrite <- Z.div_mod, Hb in Hch by lia. cbn in Hch. pose proof (place_ptr _ _ _ Hs _ _ _ Hb) as [? _]. lia.
  Qed.

Lemma unlink_parent l' q' j : 0 <= j < 64 -> (l' - 1, 64 * q' + j) = (l - 1, 64 * q + i) -> l' = l /\ q' = q /\ j = i.
  Proof. intros Hj [= H1 H2]. lia. Qed.

Lemma unlink_shape : shape (root s) (nodes s1) pl1.
  Proof.
    pose proof (inv_shape _ _ Hinv) as Hs. pose proof (place_level _ _ _ Hs _ _ _ Ha) as Hlev.
    destruct (place_node _ _ _ Hs _ _ _ Ha) as (nd0 & Hm0 & Ho). assert (nd0 = nd) as -> by congruence. clear Hm0.
    constructor.
    - apply Hs.
    - destruct (sh_root _ _ _ Hs) as [[_ E]|[(_ & _ & E)|(H & b & Hr & Hb)]]; [by rewrite E in Ha..|].
      right. right. split; [done|]. exists b. split; [done|]. rewrite lookup_delete_ne; [done|]. intros [=]. lia.
    - intros l' q' b (Hb & _)%unlink_old. by apply (sh_dom _ _ _ Hs _ _ b).
    - intros x y b (Hx & _)%unlink_old (Hy & _)%unlink_old. by apply (sh_inj _ _ _ Hs _ _ b).
    - intros l' q' b (Hb & _)%unlink_old Hlt. destruct (sh_up _ _ _ Hs _ _ _ Hb Hlt) as [p Hp]. exists p.
      rewrite lookup_delete_ne; [done|]. intros E. by apply (unlink_no_child _ _ _ Hb).
    - intros l' q' b (Hb & Hbc & Hx)%unlink_old. destruct (sh_node _ _ _ Hs _ _ _ Hb) as (Hp & bd & Hbm & Hob).
      split; [done|]. cbn [nodes set_node]. destruct (decide (b = a)) as [->|Hba].
      + rewrite lookup_insert_eq. exists nd'. split; [done|]. pose proof (sh_inj _ _ _ Hs _ _ _ Ha Hb) as [= <- <-].
        constructor; rewrite ?Hnd, ?Htags; try apply Ho; try done; [lia|]. intros _ j Hj.
        destruct (decide (j = i)) as [->|Hji]; [by rewrite Hslot, lookup_delete_eq|].
        rewrite Hother, lookup_delete_ne by (done || intros [=]; lia). by apply (no_children _ _ _ _ Ho).
      + rewrite lookup_insert_ne by done. exists bd. split; [done|]. constructor; try apply Hob. intros Hl' j Hj.
        rewrite (no_children _ _ _ _ Hob) by done. rewrite lookup_delete_ne; [done|]. intros E. symmetry in E.
        apply unlink_parent in E as (-> & -> & ->); [|done]. congruence.
  Qed.

Lemma unlink_word b bd : nodes s1 !! b = Some bd -> exists bd0, nodes s !! b = Some bd0 /\
    (forall t, tag_word bd t = tag_word bd0 t) /\ (b <> a -> bd = bd0).
  Proof.
    cbn [nodes set_node]. destruct (decide (b = a)) as [->|Hba].
    - rewrite lookup_insert_eq. intros [= <-]. exists nd. split; [done|]. split; [|done]. intros t. unfold tag_word. by rewrite Htags.
    - rewrite lookup_insert_ne by done. intros ->. by exists bd.
  Qed.

Lemma unlink_tags t : 0 <= t < 2 -> tag_inv (root s) (nodes s1) pl1 no_ex t.
  Proof.
    intros Ht. pose proof (inv_shape _ _ Hinv) as Hs. pose proof (inv_tags _ _ Hinv t Ht) as Hti.
    pose proof (place_level _ _ _ Hs _ _ _ Ha) as Hlev. constructor.
    - intros q' b bd j (Hb & _)%unlink_old (bd0 & Hbm & Hw & Hne)%unlink_word Hj. rewrite Hw.
      destruct (decide (b = a)) as [->|Hba]; [pose proof (sh_inj _ _ _ Hs _ _ _ Ha Hb) as [= ? ?]; lia|].
      rewrite (Hne Hba). by apply (ti_item _ _ _ _ _ Hti q' b).
    - intros l' q' b bd j (Hb & _)%unlink_old (bd0 & Hbm & Hw & Hne)%unlink_word Hl' Hj [E|Hn]%lookup_delete_None; rewrite Hw.
      + symmetry in E. apply unlink_parent in E as (-> & -> & ->); [|done].
        rewrite (ti_some _ _ _ _ _ Hti l q b bd0 i c cd); try done; [by apply zeroed_any | intros [=]; lia].
      + by apply (ti_none _ _ _ _ _ Hti l' q' b bd0).
    - intros l' q' b bd j d dd (Hb & _)%unlink_old (bd0 & Hbm & Hw & _)%unlink_word Hl' Hj (Hd & _)%unlink_old
        (dd0 & Hdm & Hwd & _)%unlink_word Hx. unfold any_tag. rewrite Hw, Hwd. by apply (ti_some _ _ _ _ _ Hti l' q' b bd0 j d dd0).
    - intros b bd (Hb & _)%unlink_old (bd0 & Hbm & Hw & _)%unlink_word Hx. unfold any_tag. rewrite Hw.
      by apply (ti_root _ _ _ _ _ Hti b).
    - intros Hn. apply (ti_root_none _ _ _ _ _ Hti). apply lookup_delete_None in Hn as [[=]|Hn]; [lia | done].
  Qed.

Lemma unlink_inv : inv s1 pl1.
  Proof.
    constructor; [apply unlink_shape | apply unlink_tags |]. eapply (spares_change s _ pl); try done; [apply Hinv| |].
    - intros b Hb. apply lookup_insert_ne. intros <-. by apply (Hb (l, q)).
    - intros x b (Hb & _)%unlink_old. by exists x.
  Qed.

Lemma unlink_same : same s pl s1 pl1.
  Proof.
    pose proof (inv_shape _ _ Hinv) as Hs.
    assert (forall j, leaf_item (nodes s1) pl1 j = leaf_item (nodes s) pl j /\
      forall t, leaf_tag (nodes s1) pl1 j t = leaf_tag (nodes s) pl j t) as H.
    { intros j. unfold leaf_item, leaf_tag. destruct (decide ((l - 1, 64 * q + i) = (1, pre 1 j))) as [E|E].
      - rewrite <- E, lookup_delete_eq, Hc, Hcm. split; [symmetry; by apply zeroed_slot|]. intros t.
        by rewrite zeroed_tag, Z.testbit_0_l.
      - rewrite lookup_delete_ne by done. destruct (pl !! (1, pre 1 j)) as [b|] eqn:Hb; [|done]. cbn [nodes set_node].
        rewrite lookup_insert_ne; [done|]. intros <-. pose proof (sh_inj _ _ _ Hs _ _ _ Ha Hb) as [= ? ?]. lia. }
    intros j _. unfold content, tagged. cbn [root set_node]. destruct (H j) as [-> Ht]. split; [done|]. intros t _. by rewrite Ht.
  Qed.
End unlink.

(** ** Shrinking *)

(** The nodes given back since [s] are as the slab wants them, and out of the tree. *)
Definition frees (s s' : radix) (pl' : places) : Prop :=
  exists fr, freed s' = fr ++ freed s /\ Forall (fun a => spare (nodes s') pl' a) fr.

Lemma agree_spare m m' pl pl' a : spare m pl a -> m' !! a = m !! a -> (forall x, pl' !! x <> Some a) -> spare m' pl' a.
Proof. intros (H1 & H2 & H3) E Hp. split_and!; [done..|]. by rewrite E. Qed.

(** One round: the top has one child, the leftmost. *)
Section shrink.
  Context (s : radix) (pl : places) (Hinv : inv s pl) (a : Z) (nd nd' : radix_tree_node).
  Context (Hh : 0 < height (root s)) (Ha : pl !! (height (root s), 0) = Some a) (Hm : nodes s !! a = Some nd).
  Context (Hcount : count nd = 1) (H0 : slot nd 0 <> 0) (Hnd' : zeroed nd').

Definition shrunk_root : radix_tree_root :=
    mk_root (height (root s) - 1) (gfp_mask (root s))
      (if 1 <? height (root s) then radix_tree_ptr_to_indirect (slot nd 0) else slot nd 0).
  Abbreviation s1 := (radix_tree_node_free (set_node (set_root s shrunk_root) a nd') a).
  Abbreviation pl1 := (delete (height (root s), 0) pl).

Lemma shrink_slots i : 0 <= i < 64 -> i <> 0 -> slot nd i = 0.
  Proof.
    intros Hi Hne. destruct (place_node _ _ _ (inv_shape _ _ Hinv) _ _ _ Ha) as (nd0 & Hm0 & Ho).
    assert (nd0 = nd) as -> by congruence. destruct (Z.eq_dec (slot nd i) 0) as [|E]; [done|]. exfalso.
    destruct (slot_wr nd i 0 (no_slots _ _ _ _ Ho) Hi) as (l & _ & Hl & _ & Hso & Hnz).
    destruct (slot_wr (mk_node 0 0 l []) 0 0 Hl ltac:(lia)) as (l2 & _ & _ & _ & _ & Hnz2). cbn [slots] in Hnz2.
    rewrite Hso in Hnz2 by done. rewrite (proj2 (Z.eqb_neq _ 0) E) in Hnz. rewrite (proj2 (Z.eqb_neq _ 0) H0) in Hnz2.
    rewrite (no_count _ _ _ _ Ho) in Hcount. pose proof (nz_range l2). cbn in Hnz, Hnz2. lia.
  Qed.

Lemma shrink_tag t i : 0 <= t < 2 -> 0 <= i -> i <> 0 -> Z.testbit (tag_word nd t) i = false.
  Proof.
    intros Ht Hi Hne. pose proof (inv_shape _ _ Hinv) as Hs. pose proof (inv_tags _ _ Hinv t Ht) as Hti.
    destruct (place_node _ _ _ Hs _ _ _ Ha) as (nd0 & Hm0 & Ho). assert (nd0 = nd) as -> by congruence.
    destruct (Z.lt_ge_cases i 64) as [Hi64|Hi64];
      [|apply (testbit_high _ 64); [apply tag_word_u64, Ho | done]].
    destruct (decide (height (root s) = 1)) as [E|E].
    - destruct (Z.testbit (tag_word nd t) i) eqn:Ei; [|done].
      assert (pl !! (1, 0) = Some a) as Ha1 by (by rewrite <- E).
      by destruct (ti_item _ _ _ _ _ Hti 0 a nd i Ha1 Hm ltac:(lia) Ei (shrink_slots i ltac:(lia) Hne)).
    - apply (ti_none _ _ _ _ _ Hti (height (root s)) 0 a nd); try done; [lia|].
      apply (default_zero _ _ _ Hs). rewrite <- (no_children _ _ _ _ Ho) by lia. apply shrink_slots; lia.
  Qed.

Lemma shrink_any t : 0 <= t < 2 -> any_tag nd t = Z.testbit (tag_word nd t) 0.
  Proof.
    intros Ht. destruct (any_tag nd t) eqn:E; [|by rewrite any_tag_false].
    destruct (place_node _ _ _ (inv_shape _ _ Hinv) _ _ _ Ha) as (nd0 & Hm0 & Ho). assert (nd0 = nd) as -> by congruence.
    apply any_tag_true in E as (i & Hi & Hib); [|apply Ho]. destruct (Z.eq_dec i 0) as [->|Hne]; [done|].
    rewrite shrink_tag in Hib; done || lia.
  Qed.

Lemma shrink_below q b : pl !! (height (root s) - 1, q) = Some b -> q = 0 /\ slot nd 0 = b.
  Proof.
    intros Hb. pose proof (inv_shape _ _ Hinv) as Hs. destruct (place_node _ _ _ Hs _ _ _ Ha) as (nd0 & Hm0 & Ho).
    assert (nd0 = nd) as -> by congruence. pose proof (place_level _ _ _ Hs _ _ _ Hb). pose proof (place_ptr _ _ _ Hs _ _ _ Hb) as [? _].
    destruct (sh_up _ _ _ Hs _ _ _ Hb) as [p Hp]; [lia|]. replace (height (root s) - 1 + 1) with (height (root s)) in Hp by lia.
    destruct (sh_dom _ _ _ Hs _ _ _ Hp) as (_ & _ & _ & Hq). specialize (Hq eq_refl).
    destruct (sh_dom _ _ _ Hs _ _ _ Hb) as (_ & Hq0 & _). assert (0 <= q < 64) as Hq64 by word_lia.
    pose proof (no_children _ _ _ _ Ho ltac:(lia) q Hq64) as Hch. change (64 * 0 + q) with q in Hch. rewrite Hb in Hch. cbn in Hch.
    destruct (Z.eq_dec q 0) as [->|Hne]; [done|]. rewrite shrink_slots in Hch by done. lia.
  Qed.

Lemma shrink_old x b : pl1 !! x = Some b -> pl !! x = Some b /\ b <> a /\ nodes s1 !! b = nodes s !! b.
  Proof.
    intros [Hne Hb]%lookup_delete_Some. assert (b <> a) as Hba.
    { intros ->. apply Hne. by apply (sh_inj _ _ _ (inv_shape _ _ Hinv) _ _ a). }
    split_and!; [done..|]. cbn. by rewrite lookup_insert_ne.
  Qed.

Lemma shrink_inv : inv s1 pl1.
  Proof.
    pose proof (inv_shape _ _ Hinv) as Hs. pose proof (sh_height _ _ _ Hs) as H6.
    destruct (place_node _ _ _ Hs _ _ _ Ha) as (nd0 & Hm0 & Ho). assert (nd0 = nd) as -> by congruence. clear Hm0.
    assert (forall l q b, pl1 !! (l, q) = Some b -> l < height (root s)) as Hlow.
    { intros l q b [Hne Hb]%lookup_delete_Some. destruct (sh_dom _ _ _ Hs _ _ _ Hb) as (Hl & _ & _ & Hq).
      destruct (decide (l = height (root s))) as [->|]; [by rewrite Hq in Hne | lia]. }
    assert (2 <= height (root s) -> pl !! (height (root s) - 1, 0) = Some (slot nd 0)) as Hchild.
    { intros Hh2. pose proof (no_children _ _ _ _ Ho Hh2 0 ltac:(lia)) as Hch. change (64 * 0 + 0) with 0 in Hch.
      destruct (pl !! (height (root s) - 1, 0)) as [c|]; [by rewrite Hch | by rewrite Hch in H0]. }
    constructor.
    - constructor; cbn [root radix_tree_node_free set_node set_root shrunk_root height rnode].
      + lia.
      + destruct (Z.ltb_spec 1 (height (root s))) as [H1|H1].
        * right. right. split; [lia|]. exists (slot nd 0). split; [done|]. rewrite lookup_delete_ne by (intros [=]; lia).
          apply Hchild. lia.
        * right. left. split_and!; [lia| |].
          -- destruct (no_items _ _ _ _ Ho ltac:(lia) 0 ltac:(lia)); done.
          -- apply map_eq. intros [l q]. rewrite lookup_empty. destruct (pl1 !! (l, q)) as [b|] eqn:Eb; [|done].
             pose proof (Hlow _ _ _ Eb). apply shrink_old in Eb as (Eb & _ & _). apply (place_level _ _ _ Hs) in Eb. lia.
      + intros l q b Hb. pose proof (Hlow _ _ _ Hb). apply shrink_old in Hb as (Hb & _ & _).
        destruct (sh_dom _ _ _ Hs _ _ _ Hb) as (? & ? & ? & _). split_and!; try lia. intros ->. by apply shrink_below in Hb as [-> _].
      + intros x y b (Hx & _ & _)%shrink_old (Hy & _ & _)%shrink_old. by apply (sh_inj _ _ _ Hs _ _ b).
      + intros l q b (Hb & _ & _)%shrink_old Hl. destruct (sh_up _ _ _ Hs _ _ _ Hb) as [p Hp]; [lia|]. exists p.
        rewrite lookup_delete_ne; [done|]. intros [=]. lia.
      + intros l q b Hb. pose proof (Hlow _ _ _ Hb) as Hl. apply shrink_old in Hb as (Hb & Hba & Hbm).
        destruct (sh_node _ _ _ Hs _ _ _ Hb) as (Hp & bd & Hbn & Hob). split; [done|]. exists bd. rewrite Hbm. split; [done|].
        constructor; try apply Hob. intros Hl2 i Hi. rewrite lookup_delete_ne by (intros [=]; lia). by apply (no_children _ _ _ _ Hob).
    - intros t Ht. pose proof (inv_tags _ _ Hinv t Ht) as Hti.
      assert (root_tag_get (root s) t = any_tag nd t) as Hrt by (apply (ti_root _ _ _ _ _ Hti a nd Ha Hm); intros [=]; lia).
      constructor; change (root_tag_get (root s1) t) with (root_tag_get (root s) t);
        cbn [root radix_tree_node_free set_node set_root shrunk_root height rnode].
      + intros q b bd i (Hb & _ & Hbm)%shrink_old Hbd. rewrite Hbm in Hbd. by apply (ti_item _ _ _ _ _ Hti q b).
      + intros l q b bd i Hb. pose proof (Hlow _ _ _ Hb). apply shrink_old in Hb as (Hb & _ & Hbm). intros Hbd Hl Hi Hn.
        rewrite Hbm in Hbd. rewrite lookup_delete_ne in Hn by (intros [=]; lia). by apply (ti_none _ _ _ _ _ Hti l q b bd).
      + intros l q b bd i c cd (Hb & _ & Hbm)%shrink_old Hbd Hl Hi (Hc & _ & Hcm)%shrink_old Hcd Hx.
        rewrite Hbm in Hbd. rewrite Hcm in Hcd. by apply (ti_some _ _ _ _ _ Hti l q b bd i c cd).
      + intros b bd (Hb & _ & Hbm)%shrink_old Hbd _. rewrite Hbm in Hbd. rewrite Hrt.
        pose proof (place_level _ _ _ Hs _ _ _ Hb) as Hlb.
        pose proof (ti_some _ _ _ _ _ Hti (height (root s)) 0 a nd 0 b bd Ha Hm ltac:(lia) ltac:(lia) Hb Hbd) as Hbit.
        rewrite <- Hbit by (intros [=]; lia). by apply shrink_any.
      + intros Hn Hr. destruct (Z.ltb_spec 1 (height (root s))) as [H1|H1]; [|split; [lia | done]].
        rewrite lookup_delete_ne in Hn by (intros [=]; lia). by rewrite Hchild in Hn by lia.
    - eapply (spares_change s _ pl); try done; [apply Hinv| |].
      + intros b Hb. cbn. apply lookup_insert_ne. intros <-. by apply (Hb (height (root s), 0)).
      + intros x b (Hb & _ & _)%shrink_old. by exists x.
  Qed.

Lemma shrink_same : same s pl s1 pl1.
  Proof.
    pose proof (inv_shape _ _ Hinv) as Hs. pose proof (sh_height _ _ _ Hs) as H6. intros j Hj.
    unfold content, tagged. cbn [root radix_tree_node_free set_node set_root shrunk_root height rnode].
    rewrite (proj2 (Z.eqb_neq (height (root s)) 0)) by lia.
    destruct (Z.eqb_spec (height (root s) - 1) 0) as [E|E].
    - assert (height (root s) = 1) as E1 by lia. assert (pl !! (1, 0) = Some a) as Ha1 by (by rewrite <- E1).
      rewrite E1. change (1 <? 1) with false. cbv iota.
      destruct (place_node _ _ _ Hs _ _ _ Ha1) as (nd0 & Hm0 & Ho). assert (nd0 = nd) as -> by congruence.
      destruct (Z.eqb_spec (pre 1 j) 0) as [Ep|Ep].
      + assert (pl !! (1, pre 1 j) = Some a) as Haj by (by rewrite Ep).
        assert (j mod 64 = j) as Ej by (unfold pre in Ep; change (64 ^ 1) with 64 in Ep; destruct Hj; word_lia).
        assert (0 <= j < 64) as Hj64 by (rewrite <- Ej; apply Z.mod_pos_bound; lia).
        rewrite (leaf_item_eq _ _ _ _ _ Haj Hm), Ej. split.
        * destruct (Z.eqb_spec j 0) as [->|]; [done|]. symmetry. by apply shrink_slots.
        * intros t Ht. rewrite (leaf_tag_eq _ _ _ _ _ _ Haj Hm), Ej.
          pose proof (inv_tags _ _ Hinv t Ht) as Hti. change (root_tag_get shrunk_root t) with (root_tag_get (root s) t).
          rewrite (ti_root _ _ _ _ _ Hti a nd Ha Hm) by (rewrite E1; intros [=]).
          rewrite shrink_any by done. destruct (Z.eqb_spec j 0) as [->|Hj0]; [done|]. symmetry. apply shrink_tag; done || lia.
      + assert ((j =? 0) = false) as -> by (apply Z.eqb_neq; intros ->; by apply Ep). unfold leaf_item, leaf_tag.
        destruct (pl !! (1, pre 1 j)) as [b|] eqn:Eb; [|done].
        destruct (sh_dom _ _ _ Hs _ _ _ Eb) as (_ & _ & _ & Hq). rewrite E1 in Hq. by rewrite Hq in Ep.
    - unfold leaf_item, leaf_tag. rewrite lookup_delete_ne by (intros [=]; lia).
      destruct (pl !! (1, pre 1 j)) as [b|] eqn:Eb; [|done]. cbn [nodes radix_tree_node_free set_node set_root].
      rewrite lookup_insert_ne; [done|]. intros <-. pose proof (sh_inj _ _ _ Hs _ _ _ Ha Eb) as [= ? ?]. lia.
  Qed.
End shrink.

(** ** Steps that only take nodes out *)

Record within (s : radix) (pl : places) (s' : radix) (pl' : places) : Prop := mk_within {
  wi_inv : inv s' pl';
  wi_nodes : forall b, (forall x, pl !! x <> Some b) -> nodes s' !! b = nodes s !! b;
  wi_places : forall x b, pl' !! x = Some b -> exists y, pl !! y = Some b;
  wi_frees : frees s s' pl'
}.

Lemma within_refl s pl : inv s pl -> within s pl s pl.
Proof. intros Hinv. constructor; [done|done|eauto|]. exists []. done. Qed.
Lemma within_trans s1 pl1 s2 pl2 s3 pl3 : within s1 pl1 s2 pl2 -> within s2 pl2 s3 pl3 -> within s1 pl1 s3 pl3.
Proof.
  intros [H1 N1 P1 (f1 & E1 & F1)] [H2 N2 P2 (f2 & E2 & F2)].
  assert (forall b, (forall x, pl1 !! x <> Some b) -> forall x, pl2 !! x <> Some b) as Hout.
  { intros b Hb x Hx. destruct (P1 x b Hx) as [y Hy]. by apply (Hb y). }
  constructor; [done| | |].
  - intros b Hb. rewrite N2 by (by apply Hout). by apply N1.
  - intros x b Hb. destruct (P2 x b Hb) as [y Hy]. by apply P1 in Hy.
  - exists (f2 ++ f1). split; [by rewrite E2, E1, app_assoc|]. apply Forall_app. split; [done|].
    eapply Forall_impl; [exact F1|]. intros a Hsp. pose proof Hsp as (_ & Hpl & _).
    apply (agree_spare (nodes s2) _ pl2); [done | by apply N2|]. intros x Hx. destruct (P2 x a Hx) as [y Hy]. by apply (Hpl y).
Qed.

Lemma inv_free s pl a : inv s pl -> inv (radix_tree_node_free s a) pl.
Proof. intros [Hs Ht Hsp]. constructor; [done..|]. eapply (spares_change s); try done; eauto. Qed.

Lemma shrink_loop_spec fuel s pl : inv s pl -> height (root s) < Z.of_nat fuel ->
  (0 < height (root s) -> exists a, pl !! (height (root s), 0) = Some a) ->
  exists s' pl', shrink_loop fuel s = Some s' /\ within s pl s' pl' /\ same s pl s' pl'.
Proof.
  revert s pl. induction fuel as [|fuel IH]; intros s pl Hinv Hf Htop; pose proof (inv_shape _ _ Hinv) as Hs;
    pose proof (sh_height _ _ _ Hs) as H6; [lia|]. cbn [shrink_loop].
  assert (exists s' pl', Some s = Some s' /\ within s pl s' pl' /\ same s pl s' pl') as Hstop
    by (exists s, pl; auto using within_refl, same_refl).
  destruct (Z.ltb_spec 0 (height (root s))) as [Hh|Hh]; cbn [negb]; [|done]. destruct (Htop Hh) as [a Ha].
  assert (rnode (root s) = radix_tree_ptr_to_indirect a) as Hr.
  { destruct (sh_root _ _ _ Hs) as [[_ E]|[(? & _)|(_ & b & E & Hb)]]; [by rewrite E in Ha | lia | congruence]. }
  destruct (sh_node _ _ _ Hs _ _ _ Ha) as (Hp & nd & Hm & Ho).
  rewrite Hr, indirect_is_indirect, to_ptr_indirect, Hm, some_bind by done. cbn [negb].
  destruct (Z.eqb_spec (count nd) 1) as [Hc|Hc]; cbn [negb]; [|done].
  rewrite slot_rd, some_bind by (done || apply Ho). destruct (Z.eqb_spec (slot nd 0) 0) as [H0|H0]; [done|].
  destruct (no_tags _ _ _ _ Ho) as [Hlt Hwt].
  destruct (tag_clear_eq nd 0 0 Hlt Hwt) as (n1 & -> & [_ _ S1 T1 O1 [L1 W1]]); [lia..|]. rewrite some_bind.
  destruct (tag_clear_eq n1 1 0 L1 W1) as (n2 & -> & [_ _ S2 T2 O2 [L2 W2]]); [lia..|]. rewrite some_bind.
  assert (length (slots n2) = 64%nat) as Hl2 by (rewrite S2, S1; apply Ho).
  destruct (slot_wr n2 0 0 Hl2 ltac:(lia)) as (l & -> & Hl & _ & _ & Hnz). rewrite some_bind.
  assert (slot n2 0 = slot nd 0) as E0 by (unfold slot; by rewrite S2, S1).
  rewrite E0, (proj2 (Z.eqb_neq _ 0) H0), S2, S1, <- (no_count _ _ _ _ Ho), Hc in Hnz. cbn in Hnz.
  set (nd' := mk_node (nheight n2) 0 l (tags n2)).
  assert (zeroed nd') as Hz.
  { split; [done|]. split; [cbn [slots nd']; apply nz_zero in Hnz; by rewrite Hnz, Hl|]. apply words_zero; [done|].
    intros t Ht. change (tag_word nd' t) with (tag_word n2 t). apply Z.bits_inj'. intros i Hi. rewrite Z.testbit_0_l.
    assert (tag_word n2 t = Z.clearbit (tag_word nd t) 0) as ->.
    { assert (t = 0 \/ t = 1) as [-> | ->] by lia; [by rewrite O2, T1 | by rewrite T2, O1]. }
    rewrite Z.clearbit_eqb by lia. destruct (Z.eqb_spec 0 i) as [<-|Hne]; [by rewrite andb_false_r|].
    rewrite (shrink_tag s pl Hinv a nd) by (done || lia). done. }
  cbn [root set_node set_root]. change (set_root s _) with (set_root s (shrunk_root s nd)).
  set (s1 := radix_tree_node_free (set_node (set_root s (shrunk_root s nd)) a nd') a).
  assert (inv s1 (delete (height (root s), 0) pl)) as Hinv1 by (by apply shrink_inv).
  assert (same s pl s1 (delete (height (root s), 0) pl)) as Hsame1 by (by apply shrink_same).
  destruct (IH s1 (delete (height (root s), 0) pl) Hinv1) as (s' & pl' & E & Hw & Hsame).
  { cbn. lia. }
  { cbn. intros Hh1. exists (slot nd 0). rewrite lookup_delete_ne by (intros [=]; lia).
    pose proof (no_children _ _ _ _ Ho ltac:(lia) 0 ltac:(lia)) as Hch. change (64 * 0 + 0) with 0 in Hch.
    destruct (pl !! (height (root s) - 1, 0)) as [c|]; [by rewrite Hch | by rewrite Hch in H0]. }
  exists s', pl'. split; [exact E|]. split; [|by eapply same_trans]. eapply within_trans; [|exact Hw]. constructor; [done| | |].
  - intros b Hb. cbn. apply lookup_insert_ne. intros <-. by apply (Hb (height (root s), 0)).
  - intros x b [_ Hb]%lookup_delete_Some. by exists x.
  - exists [a]. split; [done|]. apply Forall_singleton. split_and!; [done| |].
    + intros x [Hne Hx]%lookup_delete_Some. apply Hne. by apply (sh_inj _ _ _ Hs _ _ a).
    + intros n. cbn. rewrite lookup_insert_eq. by intros [= <-].
Qed.

(** ** The way up *)

Lemma path_ok_delete H pl index l l0 q path : l0 < l -> path_ok H pl index l path ->
  path_ok H (delete (l0, q) pl) index l path.
Proof.
  revert l. induction path as [|[a o] path IH]; intros l Hl; [done|]. cbn [path_ok]. intros (Ha & Ho & Hp).
  split_and!; [|done|apply IH; [lia|done]]. rewrite lookup_delete_ne; [done|]. intros [=]. lia.
Qed.

(** The top has nothing in it: the tree is empty. *)
Lemma empty_top s pl a nd : inv s pl -> 0 < height (root s) -> pl !! (height (root s), 0) = Some a ->
  nodes s !! a = Some nd -> count nd = 0 -> forall j, is_u32 j -> content s pl j = 0.
Proof.
  intros Hinv Hh Ha Hm Hc j Hj. pose proof (inv_shape _ _ Hinv) as Hs.
  destruct (place_node _ _ _ Hs _ _ _ Ha) as (nd' & Hm' & Ho). assert (nd' = nd) as -> by congruence.
  pose proof (empty_slots _ _ _ _ Ho Hc) as Hz.
  destruct (Z.eq_dec (pre (height (root s)) j) 0) as [Ep|Ep]; [|by apply content_beyond].
  destruct (decide (height (root s) = 1)) as [E|E].
  - unfold content. rewrite (proj2 (Z.eqb_neq (height (root s)) 0)) by lia. rewrite E in Ha, Ep.
    by rewrite (leaf_item_eq _ _ j a nd) by (done || by rewrite Ep).
  - apply (below_zero s pl (height (root s) - 1) j); [done..|lia|]. unfold below. rewrite (proj2 (Z.eqb_neq _ 0)) by lia.
    rewrite <- Ep in Ha. rewrite <- (slot_down _ _ _ Hs (height (root s)) j a nd Ha Hm) by lia. apply Hz.
Qed.

Lemma drop_root s pl a nd : inv s pl -> 0 < height (root s) -> pl !! (height (root s), 0) = Some a ->
  nodes s !! a = Some nd -> count nd = 0 ->
  let s' := radix_tree_node_free (set_root (set_root s (root_tag_clear_all (root s)))
    (mk_root 0 (gfp_mask (root_tag_clear_all (root s))) 0)) a in
  within s pl s' ∅ /\ same s pl s' ∅.
Proof.
  intros Hinv Hh Ha Hm Hc s'. pose proof (inv_shape _ _ Hinv) as Hs. pose proof (sh_node _ _ _ Hs _ _ _ Ha) as [Hp _].
  assert (forall t, 0 <= t < 2 -> root_tag_get (root s') t = false) as Hrt by (intros t Ht; by apply (root_tag_get_clear_all (root s))).
  split.
  - constructor; [|done|intros x b; by rewrite lookup_empty|].
    + constructor.
      * constructor; cbn [s' root radix_tree_node_free set_root height rnode]; [lia | by left | intros *; by rewrite lookup_empty..].
      * intros t Ht. constructor; try (intros *; by rewrite lookup_empty). intros _. by rewrite Hrt.
      * eapply (spares_change s _ pl); first [done | apply Hinv | intros x b; by rewrite lookup_empty].
    + exists [a]. split; [done|]. apply Forall_singleton. split_and!; [done | intros x; by rewrite lookup_empty|].
      intros n Hn. assert (n = nd) as -> by (cbn in Hn; congruence). by eapply empty_zeroed.
  - intros j Hj. pose proof (empty_top s pl a nd Hinv Hh Ha Hm Hc j Hj) as Hc0. split.
    + rewrite Hc0. apply content_null. done.
    + intros t Ht. destruct (tagged s pl j t) eqn:Et; [by apply (tagged_present s pl) in Et|].
      unfold tagged. cbn [s' root radix_tree_node_free set_root height]. cbn. by rewrite Hrt, andb_false_r.
Qed.

(** What hangs at the place the way up has reached. *)
Definition hanging (s : radix) (pl : places) (index l to_free : Z) : Prop :=
  (l = 1 /\ to_free = 0 /\ content s pl index <> 0 /\ forall t, 0 <= t < 2 -> tagged s pl index t = false) \/
  (2 <= l /\ pl !! (l - 1, pre (l - 1) index) = Some to_free /\
     exists cd, nodes s !! to_free = Some cd /\ count cd = 0).

(** The items that are left. *)
Definition dropped (s : radix) (pl : places) (index l : Z) (s' : radix) (pl' : places) : Prop :=
  forall j, is_u32 j -> content s' pl' j = (if (l =? 1) && (j =? index) then 0 else content s pl j) /\
    forall t, 0 <= t < 2 -> tagged s' pl' j t = tagged s pl j t.

Lemma dropped_same s pl index l s1 pl1 s' pl' : dropped s pl index l s1 pl1 -> same s1 pl1 s' pl' ->
  dropped s pl index l s' pl'.
Proof.
  intros H1 H2 j Hj. destruct (H1 j Hj) as [E1 T1], (H2 j Hj) as [E2 T2]. rewrite E2, E1. split; [done|].
  intros t Ht. by rewrite T2, T1.
Qed.

(** The slot is emptied, and the node that was in it given back. *)
Lemma delete_step s pl index l a to_free nd nl : inv s pl -> is_u32 index -> pl !! (l, pre l index) = Some a ->
  nodes s !! a = Some nd -> hanging s pl index l to_free ->
  wr (slots nd) (pre (l - 1) index mod 64) 0 = Some nl ->
  let nd1 := mk_node (nheight nd) (u32 (count nd - 1)) nl (tags nd) in
  let s1 := free_if (set_node s a nd1) to_free in
  exists pl1, within s pl s1 pl1 /\ dropped s pl index l s1 pl1 /\
    (forall l' q, l <= l' -> pl1 !! (l', q) = pl !! (l', q)) /\
    (forall path, path_ok (height (root s)) pl index (l + 1) path -> path_ok (height (root s)) pl1 index (l + 1) path).
Proof.
  intros Hinv Hi Ha Hm Hhang Hwr nd1 s1. pose proof (inv_shape _ _ Hinv) as Hs.
  destruct (place_node _ _ _ Hs _ _ _ Ha) as (nd0 & Hm0 & Ho). assert (nd0 = nd) as -> by congruence. clear Hm0.
  pose proof (place_level _ _ _ Hs _ _ _ Ha) as Hlev. set (o := pre (l - 1) index mod 64) in *.
  assert (0 <= o < 64) as Ho64 by (apply Z.mod_pos_bound; lia).
  destruct (slot_wr nd o 0 (no_slots _ _ _ _ Ho) Ho64) as (nl' & Hwr' & Hl & Hsl & Hso & Hnz).
  assert (nl' = nl) as -> by congruence. clear Hwr'.
  assert (slot nd o <> 0 -> count nd1 = nz (slots nd1)) as Hcount.
  { intros Hne. cbn [nd1 count slots]. rewrite Hnz, (proj2 (Z.eqb_neq _ 0) Hne), (no_count _ _ _ _ Ho). cbn.
    pose proof (nz_range (slots nd)). pose proof (no_slots _ _ _ _ Ho).
    rewrite slot_nth in Hne by lia. apply nz_pos in Hne. rewrite u32_small; [lia | unfold is_u32; lia]. }
  destruct Hhang as [(-> & -> & Hc & Ht)|(Hl2 & Hc & cd & Hcm & Hcc)].
  - assert (o = index mod 64) as Eo by (subst o; change (1 - 1) with 0; by rewrite pre_0).
    assert (slot nd o = content s pl index) as Eslot.
    { unfold content. rewrite (proj2 (Z.eqb_neq (height (root s)) 0)) by lia. rewrite Eo. symmetry. by apply leaf_item_eq with (a := a). }
    destruct (leaf_write s pl (pre 1 index) a nd o 0 nd1) as (Hinv1 & Hc1 & Ht1);
      first [done | by left | apply Hsl | apply Hso | apply Hcount; congruence | idtac].
    { intros _ t Ht2. specialize (Ht t Ht2). unfold tagged in Ht. rewrite (proj2 (Z.eqb_neq (height (root s)) 0)) in Ht by lia.
      by rewrite (leaf_tag_eq _ _ _ _ _ _ Ha Hm), <- Eo in Ht. }
    exists pl. split; [|split; [|done]].
    + constructor; [done| |eauto|by exists []]. intros b Hb. cbn. apply lookup_insert_ne. intros <-. by apply (Hb (1, pre 1 index)).
    + intros j Hj. cbn [s1 free_if negb Z.eqb]. rewrite Hc1.
      replace (64 * pre 1 index + o) with index by (by apply (pre1_index index (pre 1 index) o Ho64)).
      split; [done | intros t _; apply Ht1].
  - pose proof (pre_pred l index ltac:(lia)) as Epre. fold o in Epre. rewrite Epre in Hc.
    assert (zeroed cd) as Hz by (by eapply (empty_zeroed s pl)).
    pose proof (place_ptr _ _ _ Hs _ _ _ Hc) as Hp.
    assert (slot nd o = to_free) as Eslot by (rewrite (no_children _ _ _ _ Ho Hl2 o Ho64), Hc; done).
    assert (count nd1 = nz (slots nd1)) as Hc1 by (apply Hcount; rewrite Eslot; destruct Hp; lia).
    set (pl1 := delete (l - 1, 64 * pre l index + o) pl).
    assert (inv (set_node s a nd1) pl1) as Hinv1
      by (apply (unlink_inv s pl Hinv l (pre l index) a o to_free nd nd1 cd); first [done | apply Hsl | apply Hso]).
    assert (same s pl (set_node s a nd1) pl1) as Hsame
      by (apply (unlink_same s pl Hinv l (pre l index) a o to_free nd1 cd); first [done | apply Hsl | apply Hso]).
    assert (s1 = radix_tree_node_free (set_node s a nd1) to_free) as ->
      by (subst s1; unfold free_if; by rewrite (ptr_nonzero _ Hp)).
    exists pl1. split; [|split; [|split]].
    + constructor; [by apply inv_free| | |].
      * intros b Hb. cbn. apply lookup_insert_ne. intros <-. by apply (Hb (l, pre l index)).
      * intros x b [_ Hb]%lookup_delete_Some. by exists x.
      * exists [to_free]. split; [done|]. apply Forall_singleton. split_and!; [done| |].
        -- intros x [Hne Hx]%lookup_delete_Some. apply Hne. by apply (sh_inj _ _ _ Hs _ _ to_free).
        -- intros n. cbn. rewrite lookup_insert_ne, Hcm; [by intros [= <-]|]. intros ->.
           pose proof (sh_inj _ _ _ Hs _ _ _ Ha Hc) as [= ?]. lia.
    + intros j Hj. rewrite (proj2 (Z.eqb_neq l 1)) by lia. apply (Hsame j Hj).
    + intros l' q Hl'. subst pl1. rewrite lookup_delete_ne; [done|]. intros [=]. lia.
    + intros path. apply path_ok_delete. lia.
Qed.

Lemma delete_up_spec path index : is_u32 index -> forall l s pl to_free, inv s pl -> 0 < height (root s) ->
  path_ok (height (root s)) pl index l path -> 1 <= l -> pre (height (root s)) index = 0 ->
  hanging s pl index l to_free ->
  exists s' pl', delete_up path s to_free = Some s' /\ within s pl s' pl' /\ dropped s pl index l s' pl'.
Proof.
  intros Hi. induction path as [|[a o] path IH]; intros l s pl to_free Hinv Hh Hp Hl Htop Hhang;
    cbn [delete_up]; cbn [path_ok] in Hp; pose proof (inv_shape _ _ Hinv) as Hs.
  - destruct Hhang as [(-> & _)|(Hl2 & Hc & cd & Hcm & Hcc)]; [lia|]. replace (l - 1) with (height (root s)) in Hc by lia.
    rewrite Htop in Hc. pose proof (place_ptr _ _ _ Hs _ _ _ Hc) as Hptr. unfold free_if. rewrite (ptr_nonzero _ Hptr). cbn [negb].
    destruct (drop_root s pl to_free cd Hinv Hh Hc Hcm Hcc) as [Hw Hsame]. eexists _, ∅. split; [reflexivity|].
    split; [done|]. eapply dropped_same; [|exact Hsame]. intros j Hj. by rewrite (proj2 (Z.eqb_neq l 1)) by lia.
  - destruct Hp as (Ha & -> & Hp). destruct (sh_node _ _ _ Hs _ _ _ Ha) as (Hptr & nd & Hm & Ho).
    pose proof (place_level _ _ _ Hs _ _ _ Ha) as Hlev. rewrite Hm, some_bind.
    destruct (slot_wr nd (pre (l - 1) index mod 64) 0) as (nl & Hwr & _); [apply Ho | apply Z.mod_pos_bound; lia|].
    rewrite Hwr, some_bind.
    destruct (delete_step s pl index l a to_free nd nl Hinv Hi Ha Hm Hhang Hwr) as (pl1 & Hw & Hd & Hpl & Hpath).
    set (nd1 := mk_node (nheight nd) (u32 (count nd - 1)) nl (tags nd)) in *.
    set (s1 := free_if (set_node s a nd1) to_free) in *.
    assert (root s1 = root s /\ nodes s1 !! a = Some nd1) as [Hroot Hm1].
    { subst s1. unfold free_if. destruct (negb _); cbn; by rewrite lookup_insert_eq. }
    destruct (Z.eqb_spec (count nd1) 0) as [Hc0|Hc0]; cbn [negb].
    + destruct (IH (l + 1) s1 pl1 a) as (s' & pl' & E & Hw' & Hd'); [apply Hw | by rewrite Hroot | | lia | by rewrite Hroot | |].
      { rewrite Hroot. by apply Hpath. }
      { right. split; [lia|]. replace (l + 1 - 1) with l by lia. rewrite Hpl by lia. split; [done|]. by exists nd1. }
      exists s', pl'. split; [done|]. split; [by eapply within_trans|]. eapply dropped_same; [exact Hd|].
      intros j Hj. destruct (Hd' j Hj) as [Ec Et]. by rewrite (proj2 (Z.eqb_neq (l + 1) 1)) in Ec by lia.
    + rewrite Hroot. assert (exists s' pl', Some s1 = Some s' /\ within s pl s' pl' /\ dropped s pl index l s' pl') as Hstop
        by (by exists s1, pl1). destruct (a =? _); [|done].
      destruct (pre_chain _ _ _ Hs l (height (root s)) index a) as [b Hb]; [lia..|apply Hi|done|].
      destruct (shrink_loop_spec 7 s1 pl1) as (s' & pl' & E & Hw' & Hsame); [apply Hw | rewrite Hroot; pose proof (sh_height _ _ _ Hs); lia | |].
      { rewrite Hroot. intros _. exists b. rewrite Hpl by lia. by rewrite Htop in Hb. }
      exists s', pl'. split; [done|]. split; [by eapply within_trans | by eapply dropped_same].
Qed.

(** ** radix_tree_delete *)

Record deleted (s : radix) (pl : places) (index : Z) (s' : radix) (pl' : places) : Prop := mk_deleted {
  de_inv : inv s' pl';
  de_items : forall j, is_u32 j -> content s' pl' j = if j =? index then 0 else content s pl j;
  de_tags : forall j t, is_u32 j -> 0 <= t < 2 -> tagged s' pl' j t = negb (j =? index) && tagged s pl j t;
  de_frees : frees s s' pl'
}.

Lemma deleted_nothing s pl index : inv s pl -> is_u32 index -> content s pl index = 0 -> deleted s pl index s pl.
Proof.
  intros Hinv Hi Hc. constructor; [done| | |by exists []].
  - intros j Hj. by destruct (Z.eqb_spec j index) as [->|].
  - intros j t Hj Ht. destruct (Z.eqb_spec j index) as [->|]; [|done]. cbn.
    destruct (tagged s pl index t) eqn:E; [|done]. by apply (tagged_present s pl) in E.
Qed.

Lemma clear_tags_spec index node pl : is_u32 index -> forall ts s, inv s pl -> 0 < height (root s) ->
  pl !! (1, pre 1 index) = Some node -> Forall (fun t => 0 <= t < 2) ts ->
  exists s', clear_tags ts s node (index mod 64) index = Some s' /\ inv s' pl /\
    height (root s') = height (root s) /\ rnode (root s') = rnode (root s) /\ freed s' = freed s /\
    (forall j, content s' pl j = content s pl j) /\
    (forall j t, is_u32 j -> 0 <= t < 2 ->
       tagged s' pl j t = tagged s pl j t && negb ((j =? index) && bool_decide (t ∈ ts))).
Proof.
  intros Hi. induction ts as [|t ts IH]; intros s Hinv Hh Ha Hts; cbn [clear_tags].
  - exists s. split_and!; try done. intros j t _ _. rewrite bool_decide_eq_false_2 by apply not_elem_of_nil.
    by rewrite andb_false_r, andb_true_r.
  - apply Forall_cons in Hts as [Ht Hts]. pose proof (inv_shape _ _ Hinv) as Hs.
    destruct (place_node _ _ _ Hs _ _ _ Ha) as (nd & Hm & Ho). rewrite Hm, some_bind.
    rewrite tag_get_eq, some_bind by (done || apply Ho).
    assert (exists s1, (if Z.testbit (tag_word nd t) (index mod 64) then '(s0, _) ← radix_tree_tag_clear s index t; Some s0 else Some s)
        = Some s1 /\ inv s1 pl /\ height (root s1) = height (root s) /\ rnode (root s1) = rnode (root s) /\ freed s1 = freed s /\
      (forall j, content s1 pl j = content s pl j) /\
      (forall j t', is_u32 j -> 0 <= t' < 2 -> tagged s1 pl j t' = tagged s pl j t' && negb ((j =? index) && (t' =? t))))
      as (s1 & -> & Hinv1 & Hh1 & Hr1 & Hf1 & Hc1 & Ht1).
    { destruct (Z.testbit _ _) eqn:Eb.
      - destruct (tag_clear_spec s pl index t Hinv Hi Ht) as (r' & m' & -> & Hinv1 & Hh1 & Hr1 & Hrg & Htg). rewrite some_bind.
        eexists. split; [reflexivity|]. split_and!; try done. intros j. unfold content. cbn [root nodes].
        by rewrite Hh1, Hr1, (retags_item (root s) (nodes s)).
      - exists s. split_and!; try done. intros j t' Hj Ht'. destruct (Z.eqb_spec j index) as [->|]; [|by rewrite andb_true_r].
        destruct (Z.eqb_spec t' t) as [->|]; [|by rewrite andb_true_r]. unfold tagged.
        rewrite (proj2 (Z.eqb_neq (height (root s)) 0)) by lia. rewrite (leaf_tag_eq _ _ _ _ _ _ Ha Hm), Eb. done. }
    rewrite some_bind. destruct (IH s1 Hinv1 ltac:(lia) Ha Hts) as (s' & E & Hinv' & Hh' & Hr' & Hf' & Hc' & Ht').
    exists s'. split_and!; first [done | congruence | (intros j; by rewrite Hc', Hc1) | idtac].
    intros j t' Hj Ht2. rewrite Ht', Ht1 by done. rewrite <- andb_assoc. f_equal. destruct (j =? index); [|done]. cbn [andb].
    destruct (Z.eqb_spec t' t) as [->|Hne].
    + by rewrite (bool_decide_eq_true_2 (t ∈ t :: ts)) by (by left).
    + cbn [negb andb]. f_equal. apply bool_decide_ext. rewrite elem_of_cons. naive_solver.
Qed.

Lemma delete_spec s pl index : inv s pl -> is_u32 index ->
  exists s' pl', radix_tree_delete s index = Some (s', content s pl index) /\ deleted s pl index s' pl'.
Proof.
  intros Hinv Hi. pose proof (inv_shape _ _ Hinv) as Hs. pose proof (sh_height _ _ _ Hs) as H6.
  unfold radix_tree_delete. destruct (maxindex_spec (height (root s)) index ltac:(lia) Hi) as (mx & -> & _ & Emx).
  rewrite some_bind, Emx. destruct (Z.eqb_spec (pre (height (root s)) index) 0) as [Htop|Htop]; cbn [negb].
  2: { pose proof (content_beyond s pl index Hs Hi Htop) as Hc. exists s, pl. rewrite Hc. split; [done|]. by apply deleted_nothing. }
  destruct (Z.eqb_spec (height (root s)) 0) as [E0|E0].
  - rewrite E0, pre_0 in Htop. subst index. eexists _, pl. unfold content at 1. rewrite E0. cbn [Z.eqb]. split; [reflexivity|].
    assert (pl = ∅) as -> by (destruct (sh_root _ _ _ Hs) as [[_ ?]|[(_ & _ & ?)|(? & _)]]; [done..|lia]).
    assert (forall t, 0 <= t < 2 -> root_tag_get (set_rnode (root_tag_clear_all (root s)) 0) t = false) as Hrt
      by (intros t Ht; by apply (root_tag_get_clear_all (root s))).
    constructor; [| | |by exists []].
    + constructor; cbn [root nodes set_root].
      * constructor; cbn [height rnode set_rnode root_tag_clear_all]; [lia | by left | intros *; by rewrite lookup_empty..].
      * intros t Ht. constructor; try (intros *; by rewrite lookup_empty). by rewrite Hrt.
      * eapply (spares_change s); first [done | apply Hinv | eauto].
    + intros j _. unfold content. cbn [root set_root height rnode set_rnode root_tag_clear_all]. rewrite E0. cbn. by destruct (j =? 0).
    + intros j t _ Ht. unfold tagged. cbn [root set_root]. rewrite Hrt by done.
      cbn [height set_rnode root_tag_clear_all]. rewrite E0. cbn. by destruct (j =? 0).
  - destruct (path_down_spec (Z.to_nat (height (root s))) index s pl Hi Hs ltac:(lia) []) as (path & E & Hpath).
    { cbn [path_ok]. lia. }
    rewrite Z2Nat.id in E by lia. destruct (top_slot s pl index Hs Hi Htop) as [Et _]. rewrite Et in E.
    unfold top_shift, RADIX_TREE_MAP_SHIFT. rewrite (Z.mul_comm _ 6), E, some_bind.
    destruct (Z.eqb_spec (content s pl index) 0) as [Hc|Hc].
    { rewrite Hc. exists s, pl. split; [done|]. by apply deleted_nothing. }
    specialize (Hpath Hc). destruct path as [|[a o] path]; [cbn [path_ok] in Hpath; lia|]. change (1 - 1) with 0 in *.
    cbn [path_ok] in Hpath. change (1 - 1) with 0 in Hpath. rewrite pre_0 in Hpath. pose proof Hpath as (Ha & -> & _). change (seqZ 0 RADIX_TREE_MAX_TAGS) with [0; 1].
    destruct (clear_tags_spec index a pl Hi [0; 1] s Hinv ltac:(lia) Ha) as (s1 & -> & Hinv1 & Hh1 & Hr1 & Hf1 & Hc1 & Ht1).
    { repeat constructor; lia. }
    rewrite some_bind.
    assert (forall t, 0 <= t < 2 -> bool_decide (t ∈ [0; 1]) = true) as Hall.
    { intros t Ht. apply bool_decide_eq_true_2. assert (t = 0 \/ t = 1) as [-> | ->] by lia; set_solver. }
    destruct (delete_up_spec ((a, index mod 64) :: path) index Hi 1 s1 pl 0) as (s' & pl' & E' & [Hinv' _ _ Hfr] & Hd);
      rewrite ?Hh1; try done; [lia| | |].
    { cbn [path_ok]. change (1 - 1) with 0. rewrite pre_0. done. }
    { left. rewrite Hc1. split_and!; try done. intros t Ht. rewrite Ht1, Hall, Z.eqb_refl by done. by rewrite andb_false_r. }
    rewrite E', some_bind. exists s', pl'. split; [done|]. constructor; [done| | |].
    + intros j Hj. destruct (Hd j Hj) as [-> _]. cbn. by rewrite Hc1.
    + intros j t Hj Ht. destruct (Hd j Hj) as [_ ->]; [|done]. rewrite Ht1, Hall, andb_true_r by done. apply andb_comm.
    + destruct Hfr as (fr & Ef & Hfr). exists fr. by rewrite Ef, Hf1.
Qed.

(** ** The theorem *)

(** C19. radix_tree_delete returns the item at the index and takes it, with its
    tags, out of the tree; every other index keeps its item and its tags.  Every
    node it gives back is out of the tree and zeroed, as the slab hands it out
    again without its constructor. *)
Theorem delete_correct s index : wf s -> is_u32 index ->
  exists s' item, radix_tree_delete s index = Some (s', item) /\ wf s' /\ radix_tree_lookup s index = Some item /\
    (forall j, is_u32 j -> radix_tree_lookup s' j = if j =? index then Some 0 else radix_tree_lookup s j) /\
    (forall j t, is_u32 j -> 0 <= t < 2 ->
       radix_tree_tag_get s' j t = if j =? index then Some false else radix_tree_tag_get s j t) /\
    exists fr pl, freed s' = fr ++ freed s /\ inv s' pl /\
      forall a, a ∈ fr -> (forall x, pl !! x <> Some a) /\ (forall nd, nodes s' !! a = Some nd -> zeroed nd).
Proof.
  intros [pl Hinv] Hi. destruct (delete_spec s pl index Hinv Hi) as (s' & pl' & E & [Hinv' Hc Ht (fr & Ef & Hfr)]).
  exists s', (content s pl index). split_and!; [done | by exists pl' | by apply lookup_spec; [apply Hinv|] | | |].
  - intros j Hj. rewrite (lookup_spec s' pl'), (lookup_spec s pl), Hc by (done || apply Hinv || apply Hinv').
    by destruct (j =? index).
  - intros j t Hj Ht2. rewrite (tag_get_spec s' pl'), (tag_get_spec s pl), Ht by done. by destruct (j =? index).
  - exists fr, pl'. split_and!; [done..|]. intros a Ha. rewrite Forall_forall in Hfr. by destruct (Hfr a Ha) as (_ & ? & ?).
Qed.

Lemma delete_correct_witness : wf sample_filled /\ exists s', radix_tree_delete sample_filled 5000 = Some (s', 0x100) /\
  radix_tree_lookup s' 5000 = Some 0 /\ radix_tree_lookup s' 70 = Some 0x200.
Proof.
  pose proof sample_filled_wf as Hwf. split; [done|].
  destruct (delete_correct sample_filled 5000 Hwf ltac:(unfold is_u32; lia)) as (s' & item & E & _ & Ei & Hl & _).
  vm_compute in Ei. injection Ei as <-. exists s'. split; [exact E|].
  rewrite !Hl by (unfold is_u32; lia). split; by vm_compute.
Defined.
