(* ===== verification/RadixGang.v ===== *)
(** * Radix trees: gang lookup (lib/radix-tree.c)

    radix_tree_gang_lookup, radix_tree_gang_lookup_tag, radix_tree_next_hole: the
    scans give what one lookup after the other would give. *)

From S2P Require Import Prelude RadixTree RadixInsert RadixTags.

#[local] Open Scope Z_scope.

(** ** The items of a range *)

(** The nonzero values of [val] at a, ..., b - 1. *)
Definition items (val : Z -> Z) (a b : Z) : list Z := filter (fun x => x <> 0) (val <$> seqZ a (b - a)).

Lemma items_split val a b c : a <= b <= c -> items val a c = items val a b ++ items val b c.
Proof.
  intros H. unfold items. replace (c - a) with ((b - a) + (c - b)) by lia. rewrite seqZ_app, fmap_app, filter_app by lia.
  by replace (a + (b - a)) with b by lia.
Qed.
Lemma items_zero val a b : (forall i, a <= i < b -> val i = 0) -> items val a b = [].
Proof.
  intros H. unfold items.
  assert (forall x, x ∈ val <$> seqZ a (b - a) -> x = 0) as Hz.
  { intros x (i & -> & Hi)%list_elem_of_fmap. apply elem_of_seqZ in Hi. apply H. lia. }
  revert Hz. generalize (val <$> seqZ a (b - a)). induction l as [|x l IH]; intros Hz; [done|].
  rewrite filter_cons, decide_False; [apply IH; intros y Hy; apply Hz; by right|]. intros E. apply E, Hz. by left.
Qed.
Lemma items_one val a : items val a (a + 1) = if val a =? 0 then [] else [val a].
Proof.
  unfold items. replace (a + 1 - a) with 1 by lia. change (seqZ a 1) with [a]. cbn [fmap list_fmap].
  rewrite filter_cons. zcases; [rewrite decide_False by (intros H; by apply H) | rewrite decide_True by done]; done.
Qed.
Lemma items_ext val val' a b : (forall i, a <= i < b -> val i = val' i) -> items val a b = items val' a b.
Proof.
  intros H. unfold items. f_equal. apply list_fmap_ext. intros k x Hx. apply lookup_seqZ in Hx as [-> Hk]. apply H. lia.
Qed.

(** ** A leaf *)

Lemma grab_spec fuel nd wanted b val q j room acc : length (slots nd) = 64%nat ->
  (forall k, 0 <= k < 64 -> wanted k = Some (b k) /\ val (64 * q + k) = if b k : bool then slot nd k else 0) ->
  0 <= q -> 64 * q + 64 <= 2 ^ 32 -> 0 <= j <= 64 -> 64 - j < Z.of_nat fuel -> zlen acc < room ->
  exists e, grab fuel nd wanted (u32 (64 * q + j)) j room acc = Some (acc ++ items val (64 * q + j) e, u32 e) /\
    64 * q + j <= e <= 64 * q + 64 /\ (j < 64 -> 64 * q + j < e) /\ zlen (acc ++ items val (64 * q + j) e) <= room.
Proof.
  intros Hl Hw Hq Hqr. revert j acc. induction fuel as [|fuel IH]; intros j acc Hj Hf Hacc; [lia|]. cbn [grab].
  destruct (Z.ltb_spec j RADIX_TREE_MAP_SIZE) as [Hj64|Hj64]; change RADIX_TREE_MAP_SIZE with 64 in Hj64; cbn [negb].
  2: { exists (64 * q + j). rewrite (items_zero val), app_nil_r by lia. split_and!; done || lia. }
  destruct (Hw j ltac:(lia)) as [-> Hv]. rewrite some_bind. rewrite u32_add_l.
  replace (64 * q + j + 1) with (64 * q + (j + 1)) by lia.
  assert (val (64 * q + j) = 0 -> exists e,
    grab fuel nd wanted (u32 (64 * q + (j + 1))) (j + 1) room acc = Some (acc ++ items val (64 * q + j) e, u32 e) /\
    64 * q + j <= e <= 64 * q + 64 /\ (j < 64 -> 64 * q + j < e) /\ zlen (acc ++ items val (64 * q + j) e) <= room) as Hskip.
  { intros Hv0. destruct (IH (j + 1) acc) as (e & E & He & He' & Hlen); [lia..|]. exists e.
    rewrite (items_split val _ (64 * q + j + 1) e), items_one, Hv0 by lia. cbn [Z.eqb app].
    replace (64 * q + j + 1) with (64 * q + (j + 1)) by lia. split_and!; done || lia. }
  destruct (b j); cbn [negb]; [|by apply Hskip].
  rewrite slot_rd, some_bind by (done || lia). destruct (Z.eqb_spec (slot nd j) 0) as [Hs|Hs]; [apply Hskip; congruence|].
  assert (zlen (acc ++ [slot nd j]) = zlen acc + 1) as Hlen1 by (rewrite length_app; cbn [length]; lia).
  destruct (Z.eqb_spec (zlen (acc ++ [slot nd j])) room) as [Hr|Hr].
  - exists (64 * q + (j + 1)). replace (64 * q + (j + 1)) with (64 * q + j + 1) by lia.
    rewrite items_one, Hv, (proj2 (Z.eqb_neq _ 0) Hs). split_and!; done || lia.
  - destruct (IH (j + 1) (acc ++ [slot nd j])) as (e & E & He & He' & Hlen); [lia..|]. exists e.
    rewrite (items_split val _ (64 * q + j + 1) e), items_one, Hv, (proj2 (Z.eqb_neq _ 0) Hs) by lia.
    replace (64 * q + j + 1) with (64 * q + (j + 1)) by lia. rewrite app_assoc. split_and!; done || lia.
Qed.

(** ** A node above *)

Lemma skip_slot_eq index l P i : is_u32 index -> 1 <= l <= 6 -> pre (l - 1) index = P ->
  skip_slot index (6 * (l - 1)) i =
    (u32 ((P + 1) * 64 ^ (l - 1)), if (P + 1) * 64 ^ (l - 1) =? 2 ^ 32 then i else i + 1,
     negb ((P + 1) * 64 ^ (l - 1) =? 2 ^ 32) && negb (i + 1 =? 64)) /\ (P + 1) * 64 ^ (l - 1) <= 2 ^ 32.
Proof.
  intros Hi Hl HP. unfold is_u32 in Hi. rewrite pow64 in * by lia. set (s := 6 * (l - 1)).
  assert (0 <= s <= 30) as Hs by lia. unfold pre in HP. rewrite pow64 in HP by lia. fold s in HP.
  assert (0 < 2 ^ s) as Hs0 by (apply Z.pow_pos_nonneg; lia). assert (2 ^ s <= 2 ^ 30) as Hs30 by (apply Z.pow_le_mono_r; lia).
  assert (Z.land index (not32 (u32 (Z.shiftl 1 s - 1))) = P * 2 ^ s) as Eland.
  { rewrite Z.shiftl_1_l, (u32_small (2 ^ s - 1)) by (unfold is_u32; lia).
    rewrite <- HP. apply Z.bits_inj'. intros n Hn. rewrite Z.land_spec, not32_testbit.
    replace (2 ^ s - 1) with (Z.ones s) by (rewrite Z.ones_equiv; lia). rewrite ones_testbit by lia.
    destruct (Z.lt_ge_cases n s).
    - rewrite Z.mul_pow2_bits_low by lia. zcases; rewrite ?andb_false_r; done || lia.
    - rewrite Z.mul_pow2_bits by lia. rewrite Z.div_pow2_bits by lia. replace (n - s + s) with n by lia.
      destruct (Z.lt_ge_cases n 32); [zcases; simpl; rewrite ?andb_true_r; done || lia|].
      by rewrite (testbit_high index 32) by lia. }
  assert ((P + 1) * 2 ^ s <= 2 ^ 32) as Hle.
  { assert (P < 2 ^ (32 - s)) as HP'; [rewrite <- HP; apply Z.div_lt_upper_bound; [lia|]; rewrite <- Z.pow_add_r by lia; replace (s + (32 - s)) with 32 by lia; lia|].
    replace (2 ^ 32) with (2 ^ (32 - s) * 2 ^ s) by (rewrite <- Z.pow_add_r by lia; f_equal; lia).
    apply Z.mul_le_mono_nonneg_r; lia. }
  assert (0 <= P) by (rewrite <- HP; apply Z.div_pos; lia).
  split; [|done]. unfold skip_slot. fold s. rewrite Eland, Z.shiftl_1_l. replace (P * 2 ^ s + 2 ^ s) with ((P + 1) * 2 ^ s) by lia.
  destruct (Z.eqb_spec ((P + 1) * 2 ^ s) (2 ^ 32)) as [E|E].
  - rewrite E. done.
  - rewrite (u32_small ((P + 1) * 2 ^ s)) by (unfold is_u32; nia). rewrite (proj2 (Z.eqb_neq _ 0)) by nia. done.
Qed.

Lemma pre_mul l P : 0 <= l -> pre l (P * 64 ^ l) = P.
Proof. intros H. unfold pre. apply Z.div_mul. pose proof (Z.pow_pos_nonneg 64 l). lia. Qed.

(** From the slot of [index] on: the first that passes the test, or none. *)
Lemma find_slot_spec fuel test b l q index P : is_u32 index -> 1 <= l <= 6 -> pre (l - 1) index = P ->
  (forall k, 0 <= k < 64 -> test k = Some (b k)) -> 64 * q <= P < 64 * q + 64 -> 64 * q + 64 - P < Z.of_nat fuel ->
  exists P', P <= P' <= 64 * q + 64 /\ (forall k, P <= k < P' -> b (k - 64 * q) = false) /\
    ((find_slot fuel test index (6 * (l - 1)) (P - 64 * q) =
        Some (if P' =? P then index else P' * 64 ^ (l - 1), P' - 64 * q, true) /\
      P' < 64 * q + 64 /\ b (P' - 64 * q) = true /\ P' * 64 ^ (l - 1) < 2 ^ 32) \/
     (exists i, find_slot fuel test index (6 * (l - 1)) (P - 64 * q) = Some (u32 (P' * 64 ^ (l - 1)), i, false) /\
      P < P' /\ P' * 64 ^ (l - 1) <= 2 ^ 32)).
Proof.
  intros Hi Hl HP Ht. revert index P Hi HP. induction fuel as [|fuel IH]; intros index P Hi HP HPq Hf; [lia|]. cbn [find_slot].
  pose proof (Z.pow_pos_nonneg 64 (l - 1) ltac:(lia) ltac:(lia)) as Hpow.
  assert (P * 64 ^ (l - 1) <= index) as Hle.
  { rewrite <- HP. unfold pre. rewrite Z.mul_comm. apply Z.mul_div_le. lia. }
  rewrite Ht, some_bind by lia. destruct (b (P - 64 * q)) eqn:Eb.
  - exists P. split; [lia|]. split; [intros k Hk; lia|]. left. rewrite Z.eqb_refl. unfold is_u32 in Hi. split_and!; done || lia.
  - destruct (skip_slot_eq index l P (P - 64 * q) Hi Hl HP) as [-> Hmax].
    destruct (Z.eqb_spec ((P + 1) * 64 ^ (l - 1)) (2 ^ 32)) as [E|E]; cbn [negb andb].
    + exists (P + 1). split; [lia|]. split; [intros k Hk; by replace k with P by lia|]. right. exists (P - 64 * q). split_and!; done || lia.
    + destruct (Z.eqb_spec (P - 64 * q + 1) 64) as [E64|E64]; cbn [negb].
      * exists (P + 1). split; [lia|]. split; [intros k Hk; by replace k with P by lia|]. right. eexists. split_and!; done || lia.
      * assert (0 <= P) as HP0 by (rewrite <- HP; apply pre_nonneg, Hi).
        pose proof (Z.mul_nonneg_nonneg (P + 1) (64 ^ (l - 1)) ltac:(lia) ltac:(lia)).
        assert (is_u32 ((P + 1) * 64 ^ (l - 1))) as Hu by (unfold is_u32; lia).
        rewrite u32_small by done. replace (P - 64 * q + 1) with (P + 1 - 64 * q) by lia.
        destruct (IH ((P + 1) * 64 ^ (l - 1)) (P + 1)) as (P' & HP' & Hfalse & Hcase); [done | by apply pre_mul; lia | lia..|].
        exists P'. split; [lia|]. split.
        { intros k Hk. destruct (decide (k = P)) as [->|]; [done|]. apply Hfalse. lia. }
        destruct Hcase as [(-> & ? & ? & ?)|(i & -> & ? & ?)]; [left|right].
        -- rewrite (proj2 (Z.eqb_neq P' P)) by lia. split_and!; try done.
           destruct (Z.eqb_spec P' (P + 1)) as [->|]; done.
        -- exists i. split_and!; done || lia.
Qed.

(** ** The search for a leaf *)

Lemma pre_between l index j P' : 0 <= l -> 0 <= index <= j -> j < P' * 64 ^ l -> pre l index <= pre l j < P'.
Proof.
  intros Hl Hj HP. unfold pre. pose proof (Z.pow_pos_nonneg 64 l ltac:(lia) Hl). split; [apply Z.div_le_mono; lia|].
  apply Z.div_lt_upper_bound; lia.
Qed.

(** Slots that are passed over hold nothing. *)
Lemma gap_zero val l index P' e : 0 <= l -> is_u32 index -> e <= P' * 64 ^ l -> e <= 2 ^ 32 ->
  (forall j, is_u32 j -> pre l index <= pre l j < P' -> val j = 0) -> items val index e = [].
Proof.
  intros Hl Hi He He' Hv. apply items_zero. intros j Hj. unfold is_u32 in *. apply Hv; [lia|]. apply pre_between; lia.
Qed.

Lemma next_index val l index P' : 0 <= l -> is_u32 index -> pre l index <= P' -> P' * 64 ^ l <= 2 ^ 32 ->
  (forall j, is_u32 j -> pre l index <= pre l j < P' -> val j = 0) ->
  (P' * 64 ^ l < 2 ^ 32 ->
     let index' := if P' =? pre l index then index else P' * 64 ^ l in
     is_u32 index' /\ pre l index' = P' /\ index <= index' /\ items val index index' = []) /\
  (pre l index < P' -> index < P' * 64 ^ l /\ items val index (P' * 64 ^ l) = []).
Proof.
  intros Hl Hi HP Hmax Hzero.
  assert (pre l index < P' -> index < P' * 64 ^ l) as Hlt.
  { pose proof (Z.pow_pos_nonneg 64 l ltac:(lia) ltac:(lia)). pose proof (Z.div_mod index (64 ^ l)).
    pose proof (Z.mod_pos_bound index (64 ^ l)). unfold pre. nia. }
  split.
  - intros Hmax' index'. subst index'. destruct (Z.eqb_spec P' (pre l index)) as [->|Hne].
    + split_and!; try done. apply items_zero. lia.
    + specialize (Hlt ltac:(lia)). unfold is_u32 in *. split_and!; [lia..|by apply pre_mul|lia|].
      apply (gap_zero _ l index P'); done || lia.
  - intros HPlt. split; [by apply Hlt|]. apply (gap_zero _ l index P'); done || lia.
Qed.

Section search.
  Context (s : radix) (pl : places) (Hinv : inv s pl).

Lemma leaf_room q a : pl !! (1, q) = Some a -> 0 <= q /\ 64 * q + 64 <= 2 ^ 32.
  Proof.
    intros Ha. destruct (sh_dom _ _ _ (inv_shape _ _ Hinv) _ _ _ Ha) as (_ & Hq & Hq32 & _).
    change (64 ^ 1) with 64 in Hq32. change (2 ^ 32) with (67108864 * 64) in *. lia.
  Qed.

Lemma content_leaf q a nd i : pl !! (1, q) = Some a -> nodes s !! a = Some nd -> 0 <= i < 64 ->
    content s pl (64 * q + i) = slot nd i.
  Proof.
    intros Ha Hm Hi. pose proof (inv_shape _ _ Hinv) as Hs. pose proof (place_level _ _ _ Hs _ _ _ Ha).
    unfold content. rewrite (proj2 (Z.eqb_neq (height (root s)) 0)) by lia.
    destruct (proj1 (pre1_index (64 * q + i) q i Hi) eq_refl) as [Ep Em]. rewrite <- Ep in Ha.
    by rewrite (leaf_item_eq _ _ _ _ _ Ha Hm), Em.
  Qed.

Lemma lookup_down_S n m slot index shift max_items : lookup_down (S (S n)) m slot index shift max_items =
    (nd ← m !! slot;
     '(index, i, found) ← find_slot 65 (fun i => p ← rd (slots nd) i; Some (negb (p =? 0)))
                            index shift (offset_of index shift);
     if negb found then Some ([], index) else
     slot ← rd (slots nd) i;
     if slot =? 0 then Some ([], index)
     else lookup_down (S n) m slot index (u32 (shift - RADIX_TREE_MAP_SHIFT)) max_items).
  Proof. done. Qed.

Lemma lookup_down_spec (n : nat) room : 0 < room -> forall a index, is_u32 index ->
    pl !! (1 + Z.of_nat n, pre (1 + Z.of_nat n) index) = Some a ->
    exists e, lookup_down (S n) (nodes s) a index (6 * Z.of_nat n) room = Some (items (content s pl) index e, u32 e) /\
      index < e <= 2 ^ 32 /\ zlen (items (content s pl) index e) <= room.
  Proof.
    intros Hroom. pose proof (inv_shape _ _ Hinv) as Hs. pose proof (sh_height _ _ _ Hs) as H6.
    induction n as [|n IH]; intros a index Hi Ha; pose proof (place_level _ _ _ Hs _ _ _ Ha) as Hlev;
      destruct (place_node _ _ _ Hs _ _ _ Ha) as (nd & Hm & Ho).
    - change (1 + Z.of_nat 0) with 1 in *. cbn [lookup_down]. rewrite Hm, some_bind. destruct (leaf_room _ _ Ha) as [Hq Hq32].
      change RADIX_TREE_MAP_MASK with (2 ^ 6 - 1). rewrite land_mask by lia. change (2 ^ 6) with 64.
      pose proof (Z.mod_pos_bound index 64 ltac:(lia)) as Hj.
      assert (index = 64 * pre 1 index + index mod 64) as Eidx by (by apply (pre1_index index (pre 1 index) (index mod 64))).
      destruct (grab_spec 65 nd (fun _ => Some true) (fun _ => true) (content s pl) (pre 1 index) (index mod 64) room [])
        as (e & E & He & He' & Hlen); try done; [apply Ho | | lia | lia|].
      { intros k Hk. split; [done|]. by apply content_leaf with (a := a). }
      rewrite <- Eidx, (u32_small index) in E by done. rewrite E. exists e. rewrite <- Eidx in *. cbn [app] in *.
      split_and!; done || lia.
    - rewrite lookup_down_S, Hm, some_bind. set (l := 1 + Z.of_nat (S n)) in *.
      replace (6 * Z.of_nat (S n)) with (6 * (l - 1)) by lia. rewrite offset_pre by lia.
      pose proof (pre_pred l index ltac:(lia)) as Epre. pose proof (Z.mod_pos_bound (pre (l - 1) index) 64 ltac:(lia)) as Hmod.
      replace (pre (l - 1) index mod 64) with (pre (l - 1) index - 64 * pre l index) by lia.
      destruct (find_slot_spec 65 (fun i => p ← rd (slots nd) i; Some (negb (p =? 0))) (fun i => negb (slot nd i =? 0))
        l (pre l index) index (pre (l - 1) index)) as (P' & HP' & Hgap & Hcase); try done; try lia.
      { intros k Hk. rewrite slot_rd by (done || apply Ho). done. }
      assert (forall k, 64 * pre l index <= k < 64 * pre l index + 64 ->
        slot nd (k - 64 * pre l index) = default 0 (pl !! (l - 1, k))) as Hchild.
      { intros k Hk. rewrite (no_children _ _ _ _ Ho) by lia. by replace (64 * pre l index + (k - 64 * pre l index)) with k by lia. }
      assert (forall j, is_u32 j -> pre (l - 1) index <= pre (l - 1) j < P' -> content s pl j = 0) as Hzero.
      { intros j Hj Hk. apply (below_zero s pl (l - 1) j Hs Hj); [lia|]. unfold below.
        rewrite (proj2 (Z.eqb_neq (l - 1) 0)) by lia. rewrite <- Hchild by lia.
        pose proof (Hgap _ Hk) as Hf. by apply negb_false_iff, Z.eqb_eq in Hf. }
      destruct Hcase as [(E & HP64 & Hb & Hmax)|(i & E & HPlt & Hmax)]; rewrite E, some_bind; cbn [negb].
      + destruct (next_index (content s pl) (l - 1) index P') as [(Hi' & Hp' & Hle & Hnil) _]; [done || lia..|].
        set (index' := if P' =? pre (l - 1) index then index else P' * 64 ^ (l - 1)) in *.
        rewrite slot_rd, some_bind by (apply Ho || lia). apply negb_true_iff, Z.eqb_neq in Hb.
        rewrite (proj2 (Z.eqb_neq _ 0) Hb). rewrite Hchild in Hb |- * by lia.
        destruct (pl !! (l - 1, P')) as [c|] eqn:Hc; [|done]. change (default 0 (Some c)) with c.
        rewrite next_shift by lia. replace (6 * (l - 1 - 1)) with (6 * Z.of_nat n) by lia.
        destruct (IH c index' Hi') as (e & E' & He & Hlen).
        { rewrite <- Hp' in Hc. by replace (1 + Z.of_nat n) with (l - 1) by lia. }
        rewrite E'. exists e. rewrite (items_split _ index index' e), Hnil by lia. split_and!; done || lia.
      + exists (P' * 64 ^ (l - 1)). destruct (next_index (content s pl) (l - 1) index P') as [_ [Hlt ->]]; [done || lia..|].
        split_and!; try done; cbn [length]; lia.
  Qed.
Lemma lookup_tag_down_S n m slot index shift max_items tag : lookup_tag_down (S n) m slot index shift max_items tag =
    (nd ← m !! slot;
     '(index, i, found) ← find_slot 65 (tag_get nd tag) index shift (offset_of index shift);
     if negb found then Some ([], index) else
     match n with
     | O => grab 65 nd (tag_get nd tag) index (Z.land index RADIX_TREE_MAP_MASK) max_items []
     | _ =>
       slot ← rd (slots nd) i;
       if slot =? 0 then Some ([], index)
       else lookup_tag_down n m slot index (u32 (shift - RADIX_TREE_MAP_SHIFT)) max_items tag
     end).
  Proof. done. Qed.

  Context (t : Z) (Ht : 0 <= t < 2).

Definition tagged_content (j : Z) : Z := if tagged s pl j t then content s pl j else 0.

  (** No tag in a slot: no tagged item below. *)
Lemma clear_slot l q a nd j : pl !! (l, q) = Some a -> nodes s !! a = Some nd -> is_u32 j -> pre l j = q ->
    Z.testbit (tag_word nd t) (pre (l - 1) j mod 64) = false -> tagged_content j = 0.
  Proof.
    intros Ha Hm Hj <- Hb. pose proof (inv_shape _ _ Hinv) as Hs. pose proof (inv_tags _ _ Hinv t Ht) as Hti.
    pose proof (place_level _ _ _ Hs _ _ _ Ha) as Hlev. unfold tagged_content, tagged.
    rewrite (proj2 (Z.eqb_neq (height (root s)) 0)) by lia. destruct (leaf_tag (nodes s) pl j t) eqn:El; [|done].
    exfalso. unfold leaf_tag in El. destruct (pl !! (1, pre 1 j)) as [c|] eqn:Hc; [|done].
    destruct (nodes s !! c) as [cd|] eqn:Hcm; [|done].
    assert (l = 1 + Z.of_nat (Z.to_nat (l - 1))) as El1 by lia. rewrite El1 in Ha.
    destruct (tag_above _ _ _ _ Hs Hti j (Z.to_nat (l - 1)) cd c a _ ltac:(apply Hj) ltac:(lia) Hc Hcm Ha eq_refl El) as (bd & Hbm & Hbb).
    assert (bd = nd) as -> by congruence. replace (Z.of_nat (Z.to_nat (l - 1))) with (l - 1) in Hbb by lia. congruence.
  Qed.

Lemma lookup_tag_down_spec (n : nat) room : 0 < room -> forall a index, is_u32 index ->
    pl !! (1 + Z.of_nat n, pre (1 + Z.of_nat n) index) = Some a ->
    exists e, lookup_tag_down (S n) (nodes s) a index (6 * Z.of_nat n) room t = Some (items tagged_content index e, u32 e) /\
      index < e <= 2 ^ 32 /\ zlen (items tagged_content index e) <= room.
  Proof.
    intros Hroom. pose proof (inv_shape _ _ Hinv) as Hs. pose proof (sh_height _ _ _ Hs) as H6.
    pose proof (inv_tags _ _ Hinv t Ht) as Hti.
    induction n as [|n IH]; intros a index Hi Ha; pose proof (place_level _ _ _ Hs _ _ _ Ha) as Hlev;
      destruct (place_node _ _ _ Hs _ _ _ Ha) as (nd & Hm & Ho); rewrite lookup_tag_down_S, Hm, some_bind.
    all: match goal with |- context [6 * Z.of_nat ?k] => set (l := 1 + Z.of_nat k) in *; replace (6 * Z.of_nat k) with (6 * (l - 1)) by lia end.
    all: rewrite offset_pre by lia.
    all: pose proof (pre_pred l index ltac:(lia)) as Epre; pose proof (Z.mod_pos_bound (pre (l - 1) index) 64 ltac:(lia)) as Hmod.
    all: replace (pre (l - 1) index mod 64) with (pre (l - 1) index - 64 * pre l index) by lia.
    all: destruct (find_slot_spec 65 (tag_get nd t) (fun i => Z.testbit (tag_word nd t) i)
        l (pre l index) index (pre (l - 1) index)) as (P' & HP' & Hgap & Hcase); try done; try lia;
      [intros k Hk; apply tag_get_eq; [apply Ho | done]|].
    all: assert (forall j, is_u32 j -> pre (l - 1) index <= pre (l - 1) j < P' -> tagged_content j = 0) as Hzero;
      [intros j Hj Hk; pose proof (pre_pred l j ltac:(lia)) as Ej; pose proof (Z.mod_pos_bound (pre (l - 1) j) 64 ltac:(lia));
       assert (pre l j = pre l index) as Ep by lia; apply (clear_slot l (pre l index) a nd j); try done;
       replace (pre (l - 1) j mod 64) with (pre (l - 1) j - 64 * pre l index) by lia; by apply Hgap|].
    all: destruct Hcase as [(E & HP64 & Hb & Hmax)|(i & E & HPlt & Hmax)]; rewrite E, some_bind; cbn [negb];
      [destruct (next_index tagged_content (l - 1) index P') as [(Hi' & Hp' & Hle & Hnil) _]; [done || lia..|];
       set (index' := if P' =? pre (l - 1) index then index else P' * 64 ^ (l - 1)) in *
      |exists (P' * 64 ^ (l - 1)); destruct (next_index tagged_content (l - 1) index P') as [_ [Hlt ->]]; [done || lia..|];
       split_and!; try done; cbn [length]; lia].
    - change (1 + Z.of_nat 0) with 1 in l. subst l. change (1 - 1) with 0 in *. rewrite pre_0 in Hp'. subst index'.
      destruct (leaf_room _ _ Ha) as [Hq Hq32].
      set (index' := if P' =? pre 0 index then index else P' * 64 ^ 0) in *.
      change RADIX_TREE_MAP_MASK with (2 ^ 6 - 1). rewrite land_mask by lia. change (2 ^ 6) with 64.
      pose proof (Z.mod_pos_bound index' 64 ltac:(lia)) as Hj. rewrite pre_0 in HP'.
      assert (pre 1 index' = pre 1 index) as Ep by (rewrite Hp'; unfold pre in *; change (64 ^ 1) with 64 in *; word_lia).
      assert (index' = 64 * pre 1 index + index' mod 64) as Eidx by (by apply pre1_index).
      destruct (grab_spec 65 nd (tag_get nd t) (fun i => Z.testbit (tag_word nd t) i) tagged_content (pre 1 index) (index' mod 64) room [])
        as (e & E' & He & He' & Hlen); try done; [apply Ho | | lia | lia|].
      { intros k Hk. split; [apply tag_get_eq; [apply Ho | done]|]. unfold tagged_content, tagged.
        rewrite (proj2 (Z.eqb_neq (height (root s)) 0)) by lia.
        destruct (proj1 (pre1_index (64 * pre 1 index + k) (pre 1 index) k Hk) eq_refl) as [Ek Em].
        pose proof Ha as Hak. rewrite <- Ek in Hak. rewrite (leaf_tag_eq _ _ _ _ _ _ Hak Hm), Em.
        destruct (Z.testbit (tag_word nd t) k); [|done]. by apply content_leaf with (a := a). }
      rewrite <- Eidx, (u32_small index') in E' by done. rewrite E'. exists e. rewrite <- Eidx in *. cbn [app] in *.
      rewrite (items_split _ index index' e), Hnil by lia. split_and!; done || lia.
    - rewrite slot_rd, some_bind by (apply Ho || lia). set (k := P' - 64 * pre l index) in *.
      assert (P' = 64 * pre l index + k) as EP by lia.
      destruct (pl !! (l - 1, 64 * pre l index + k)) as [c|] eqn:Hc.
      2: { rewrite (ti_none _ _ _ _ _ Hti l (pre l index) a nd k) in Hb; done || lia. }
      rewrite (no_children _ _ _ _ Ho), Hc by lia. change (default 0 (Some c)) with c.
      rewrite (ptr_nonzero c) by (by eapply place_ptr). rewrite next_shift by lia.
      replace (6 * (l - 1 - 1)) with (6 * Z.of_nat n) by lia. rewrite <- EP, <- Hp' in Hc.
      destruct (IH c index' Hi') as (e & E' & He & Hlen); [by replace (1 + Z.of_nat n) with (l - 1) by lia|].
      rewrite E'. exists e. rewrite (items_split _ index index' e), Hnil by lia. split_and!; done || lia.
  Qed.
End search.

(** ** The loop *)

Lemma gang_spec val search max_index max_items first : is_u32 first -> 0 <= max_items ->
  (forall index room, is_u32 index -> 0 < room -> index <= max_index -> exists e,
     search index room = Some (items val index e, u32 e) /\ index < e <= 2 ^ 32 /\ zlen (items val index e) <= room) ->
  (forall j, is_u32 j -> max_index < j -> val j = 0) ->
  run 33 (gang_step search max_index max_items) ([], first) =
    Some (take (Z.to_nat max_items) (items val first (2 ^ 32))).
Proof.
  intros Hf Hm Hsearch Hbeyond.
  destruct (run_rule
    (fun st : list Z * Z => is_u32 st.2 /\ first <= st.2 /\ st.1 = items val first st.2 /\ zlen st.1 <= max_items)
    (fun r => r = take (Z.to_nat max_items) (items val first (2 ^ 32))) (fun st => 2 ^ 32 - st.2)
    (gang_step search max_index max_items) 33 ([], first)) as (r & -> & ->); [| |cbn; unfold is_u32 in Hf; lia|done].
  - intros [results cur] (Hc & Hle & Hres & Hlen). cbn [fst snd] in *. unfold gang_step.
    assert (items val first (2 ^ 32) = items val first cur ++ items val cur (2 ^ 32)) as Hsplit
      by (apply items_split; unfold is_u32 in Hc; lia).
    destruct (Z.ltb_spec (zlen results) max_items) as [Hlt|Hge]; cbn [negb].
    2: { eexists. split; [done|]. cbn. rewrite Hsplit, <- Hres, take_app_le, firstn_all2; done || lia. }
    destruct (Z.ltb_spec max_index cur) as [Hmax|Hmax].
    { eexists. split; [done|]. cbn. rewrite Hsplit, (items_zero _ cur), app_nil_r, <- Hres, firstn_all2; [done|lia|].
      intros i Hi. apply Hbeyond; [unfold is_u32 in *; lia | lia]. }
    destruct (Hsearch cur (max_items - zlen results) Hc ltac:(lia) Hmax) as (e & -> & He & Hlen'). rewrite some_bind.
    assert (results ++ items val cur e = items val first e) as Eapp by (rewrite Hres; symmetry; apply items_split; lia).
    assert (zlen (results ++ items val cur e) <= max_items) as Hlen2 by (rewrite length_app; lia).
    destruct (Z.eqb_spec (u32 e) 0) as [E0|E0].
    + eexists. split; [done|]. cbn. assert (e = 2 ^ 32) as -> by (unfold is_u32 in Hc; word_lia).
      rewrite Eapp in Hlen2 |- *. rewrite firstn_all2; done || lia.
    + eexists. split; [done|]. cbn [fst snd]. assert (e < 2 ^ 32) as He' by (destruct (decide (e = 2 ^ 32)) as [->|]; [done | lia]).
      unfold is_u32 in *. rewrite u32_small by (unfold is_u32; lia). rewrite Eapp in *. split_and!; done || lia.
  - cbn [fst snd]. split_and!; [apply Hf | lia | by rewrite items_zero by lia | cbn; lia].
Qed.

(** ** The scans *)

(** What lookups from [first] on find. *)
Definition present (s : radix) (first : Z) : list Z :=
  filter (fun x => x <> 0) ((fun j => default 0 (radix_tree_lookup s j)) <$> seqZ first (2 ^ 32 - first)).
Definition present_tag (s : radix) (first t : Z) : list Z :=
  filter (fun x => x <> 0)
    ((fun j => if default false (radix_tree_tag_get s j t) then default 0 (radix_tree_lookup s j) else 0)
       <$> seqZ first (2 ^ 32 - first)).

Lemma present_items s pl first : inv s pl -> is_u32 first -> present s first = items (content s pl) first (2 ^ 32).
Proof.
  intros Hinv Hf. apply (items_ext (fun j => default 0 (radix_tree_lookup s j)) (content s pl)). intros i Hi.
  rewrite (lookup_spec s pl) by (apply Hinv || (unfold is_u32 in *; lia)). done.
Qed.
Lemma present_tag_items s pl first t : inv s pl -> is_u32 first -> 0 <= t < 2 ->
  present_tag s first t = items (tagged_content s pl t) first (2 ^ 32).
Proof.
  intros Hinv Hf Ht. apply (items_ext (fun j => if default false (radix_tree_tag_get s j t) then default 0 (radix_tree_lookup s j) else 0)
    (tagged_content s pl t)). intros i Hi.
  rewrite (lookup_spec s pl), (tag_get_spec s pl) by (done || apply Hinv || (unfold is_u32 in *; lia)). done.
Qed.

Lemma items_item val first v : is_u32 first -> (forall j, is_u32 j -> val j = if j =? 0 then v else 0) -> v <> 0 ->
  items val first (2 ^ 32) = if 0 <? first then [] else [v].
Proof.
  intros Hf Hv Hne. unfold is_u32 in *. assert (forall j, 1 <= j < 2 ^ 32 -> val j = 0) as Hz.
  { intros j Hj. rewrite Hv by lia. by rewrite (proj2 (Z.eqb_neq j 0)) by lia. }
  destruct (Z.ltb_spec 0 first).
  - apply items_zero. intros i Hi. apply Hz. lia.
  - assert (first = 0) as -> by lia. rewrite (items_split _ 0 (0 + 1)), items_one, Hv by lia. cbn [Z.eqb].
    rewrite (proj2 (Z.eqb_neq v 0)), items_zero by (done || (intros; apply Hz; lia)). done.
Qed.

Lemma take_single {A} (n : Z) (x : A) : 0 < n -> take (Z.to_nat n) [x] = [x].
Proof. intros H. rewrite firstn_all2; [done|]. cbn [length]. lia. Qed.

(** The tree with nodes: the search below the top. *)
Lemma top_search s pl a nd : inv s pl -> 0 < height (root s) <= 6 -> pl !! (height (root s), 0) = Some a ->
  nodes s !! a = Some nd -> node_ok pl (height (root s)) 0 nd ->
  exists mx, radix_tree_maxindex (nheight nd) = Some mx /\
    (forall j, is_u32 j -> mx < j -> content s pl j = 0) /\
    (forall index room, is_u32 index -> 0 < room -> index <= mx -> exists e,
       __lookup (nodes s) a index room = Some (items (content s pl) index e, u32 e) /\
       index < e <= 2 ^ 32 /\ zlen (items (content s pl) index e) <= room) /\
    (forall t index room, 0 <= t < 2 -> is_u32 index -> 0 < room -> index <= mx -> exists e,
       __lookup_tag (nodes s) a index room t = Some (items (tagged_content s pl t) index e, u32 e) /\
       index < e <= 2 ^ 32 /\ zlen (items (tagged_content s pl t) index e) <= room).
Proof.
  intros Hinv Hh Ha Hm Ho. pose proof (inv_shape _ _ Hinv) as Hs. rewrite (no_height _ _ _ _ Ho).
  assert (exists mx, radix_tree_maxindex (height (root s)) = Some mx) as [mx Emx]
    by (destruct (maxindex_spec (height (root s)) 0) as (mx & E & _); [lia | done | by exists mx]).
  assert (forall j, is_u32 j -> (mx <? j) = negb (pre (height (root s)) j =? 0)) as Hmx.
  { intros j Hj. destruct (maxindex_spec (height (root s)) j) as (mx' & E & _ & Hmx); [lia | done|]. congruence. }
  set (n := Z.to_nat (height (root s) - 1)). assert (1 + Z.of_nat n = height (root s)) as En by lia.
  assert (forall index, is_u32 index -> index <= mx -> pl !! (1 + Z.of_nat n, pre (1 + Z.of_nat n) index) = Some a) as Htop.
  { intros index Hi Hle. specialize (Hmx index Hi). rewrite (proj2 (Z.ltb_ge mx index)) in Hmx by lia.
    symmetry in Hmx. apply negb_false_iff, Z.eqb_eq in Hmx. by rewrite En, Hmx. }
  exists mx. split; [done|]. split_and!.
  - intros j Hj Hlt. apply (content_beyond s pl j Hs Hj). specialize (Hmx j Hj). rewrite (proj2 (Z.ltb_lt mx j)) in Hmx by lia.
    symmetry in Hmx. by apply negb_true_iff, Z.eqb_neq in Hmx.
  - intros index room Hi Hroom Hle. unfold __lookup. rewrite Hm, some_bind, (no_height _ _ _ _ Ho), top_shift_eq by lia.
    replace (Z.to_nat (height (root s))) with (S n) by lia. replace (6 * (height (root s) - 1)) with (6 * Z.of_nat n) by lia.
    by apply lookup_down_spec; [..|apply Htop].
  - intros t index room Ht Hi Hroom Hle. unfold __lookup_tag. rewrite Hm, some_bind, (no_height _ _ _ _ Ho), top_shift_eq by lia.
    replace (Z.to_nat (height (root s))) with (S n) by lia. replace (6 * (height (root s) - 1)) with (6 * Z.of_nat n) by lia.
    by apply lookup_tag_down_spec; [..|apply Htop].
Qed.

(** C23. Asked for at least one item, radix_tree_gang_lookup places the first
    [max_items] items from [first] on, in the order of their indices: what that many radix_tree_lookups would find. *)
Theorem gang_lookup_correct s first max_items : wf s -> is_u32 first -> 0 < max_items ->
  radix_tree_gang_lookup s first max_items = Some (take (Z.to_nat max_items) (present s first)).
Proof.
  intros [pl Hinv] Hf Hmax. rewrite (present_items s pl) by done. pose proof (inv_shape _ _ Hinv) as Hs.
  unfold radix_tree_gang_lookup.
  destruct (root_cases _ _ Hs) as [[Hr ->]|[(Hh & Hr & ->)|(a & nd & Hh & Hr & Hp & Ha & Hm & Ho)]].
  - rewrite Hr. cbn [Z.eqb]. rewrite items_zero; [by rewrite take_nil|]. intros i _. by apply content_null.
  - rewrite (ptr_nonzero _ Hr), (ptr_direct _ Hr). cbn [negb].
    rewrite (items_item _ first (rnode (root s))); [|done| |destruct Hr; lia].
    + destruct (0 <? first); [by rewrite take_nil | by rewrite take_single].
    + intros j _. unfold content. by rewrite Hh.
  - rewrite Hr, indirect_nonzero, indirect_is_indirect, to_ptr_indirect, Hm, some_bind by done. cbn [negb].
    destruct (top_search s pl a nd Hinv Hh Ha Hm Ho) as (mx & -> & Hb & Hl & _). rewrite some_bind.
    by apply gang_spec; [|lia|..].
Qed.

Lemma gang_lookup_correct_witness : wf sample_filled /\
  radix_tree_gang_lookup sample_filled 71 10 = Some (take 10 (present sample_filled 71)) /\
  radix_tree_gang_lookup sample_filled 71 10 = Some [0x100].
Proof.
  pose proof sample_filled_wf as Hwf. split; [done|]. split.
  - by apply (gang_lookup_correct sample_filled 71 10 Hwf); unfold is_u32; lia.
  - by vm_compute.
Defined.

(** radix_tree_gang_lookup_tag does the same for the items with the tag. *)
Theorem gang_lookup_tag_correct s first max_items t : wf s -> is_u32 first -> 0 < max_items -> 0 <= t < 2 ->
  radix_tree_gang_lookup_tag s first max_items t = Some (take (Z.to_nat max_items) (present_tag s first t)).
Proof.
  intros [pl Hinv] Hf Hmax Ht. rewrite (present_tag_items s pl) by done. pose proof (inv_shape _ _ Hinv) as Hs.
  pose proof (inv_tags _ _ Hinv t Ht) as Hti. unfold radix_tree_gang_lookup_tag.
  destruct (root_tag_get (root s) t) eqn:Er; cbn [negb].
  - destruct (root_cases _ _ Hs) as [[Hr ->]|[(Hh & Hr & ->)|(a & nd & Hh & Hr & Hp & Ha & Hm & Ho)]].
    + by destruct (ti_root_none _ _ _ _ _ Hti (lookup_empty _) Er).
    + rewrite (ptr_nonzero _ Hr), (ptr_direct _ Hr). cbn [negb].
      rewrite (items_item _ first (rnode (root s))); [|done| |destruct Hr; lia].
      * destruct (0 <? first); [by rewrite take_nil | by rewrite take_single].
      * intros j _. unfold tagged_content, tagged, content. rewrite Hh, Er. cbn. by destruct (j =? 0).
    + rewrite Hr, indirect_nonzero, indirect_is_indirect, to_ptr_indirect, Hm, some_bind by done. cbn [negb].
      destruct (top_search s pl a nd Hinv Hh Ha Hm Ho) as (mx & -> & Hb & _ & Hl). rewrite some_bind.
      apply gang_spec; [done | lia | intros; by apply Hl|]. intros j Hj Hlt. unfold tagged_content.
      rewrite Hb by done. by destruct (tagged s pl j t).
  - rewrite items_zero; [by rewrite take_nil|]. intros i Hi. unfold tagged_content.
    destruct (tagged s pl i t) eqn:Et; [|done]. exfalso. unfold tagged in Et.
    destruct (Z.eqb_spec (height (root s)) 0) as [E|E]; [by rewrite Er, andb_false_r in Et|].
    pose proof (sh_height _ _ _ Hs). unfold is_u32 in Hf.
    apply (leaf_tag_root _ _ _ _ Hs Hti) in Et; [congruence | lia | lia].
Qed.

Lemma gang_lookup_tag_correct_witness : wf sample_filled /\
  radix_tree_gang_lookup_tag sample_filled 0 10 1 = Some (take 10 (present_tag sample_filled 0 1)) /\
  radix_tree_gang_lookup_tag sample_filled 0 10 1 = Some [].
Proof.
  pose proof sample_filled_wf as Hwf. split; [done|]. split.
  - by apply (gang_lookup_tag_correct sample_filled 0 10 1 Hwf); unfold is_u32; lia.
  - by vm_compute.
Defined.

(** With room for no item, a tree of one item is still stored to [results[0]]. *)
Example gang_lookup_no_room : exists s, radix_tree_insert (sample_tree 0x20) 0 0x100 = Some (s, 0) /\
  radix_tree_gang_lookup s 0 0 = Some [0x100].
Proof. eexists. split; [by vm_compute|]. by vm_compute. Qed.

(** radix_tree_next_hole scans up to [max_scan] indices from [index] on and
    returns the first without an item, or the index after the ones scanned, 0 after
    the last of all. *)
Theorem next_hole_correct s index max_scan : wf s -> is_u32 index -> is_u32 max_scan ->
  exists n, radix_tree_next_hole s index max_scan = Some (u32 (index + n)) /\
    0 <= n <= max_scan /\ index + n <= 2 ^ 32 /\
    (forall j, index <= j < index + n -> radix_tree_lookup s j <> Some 0) /\
    (n = max_scan \/ index + n = 2 ^ 32 \/ radix_tree_lookup s (index + n) = Some 0).
Proof.
  intros [pl Hinv] Hi Hm. pose proof (inv_shape _ _ Hinv) as Hs. unfold radix_tree_next_hole, is_u32 in *.
  destruct (run_rule
    (fun st : Z * Z => 0 <= st.1 <= max_scan /\ st.2 = index + st.1 /\ st.2 < 2 ^ 32 /\
       forall j, index <= j < st.2 -> radix_tree_lookup s j <> Some 0)
    (fun r => exists n, r = u32 (index + n) /\ 0 <= n <= max_scan /\ index + n <= 2 ^ 32 /\
       (forall j, index <= j < index + n -> radix_tree_lookup s j <> Some 0) /\
       (n = max_scan \/ index + n = 2 ^ 32 \/ radix_tree_lookup s (index + n) = Some 0))
    (fun st => 2 ^ 32 - 1 - st.1) (next_hole_step s max_scan) 32 (0, index)) as (r & -> & n & -> & Hn); [| |cbn; lia|by exists n].
  - intros [i cur]. cbn [fst snd]. intros (Hr & -> & Hc & Hall). unfold next_hole_step.
    destruct (Z.ltb_spec i max_scan) as [Hlt|Hge]; cbn [negb].
    2: { eexists. split; [done|]. exists i. rewrite u32_small by (unfold is_u32; lia). split_and!; try done; lia. }
    rewrite (lookup_spec s pl), some_bind by (done || (unfold is_u32; lia)).
    destruct (Z.eqb_spec (content s pl (index + i)) 0) as [E|E].
    { eexists. split; [done|]. exists i. rewrite u32_small by (unfold is_u32; lia). split_and!; try done; try lia.
      right. right. rewrite (lookup_spec s pl) by (done || (unfold is_u32; lia)). by rewrite E. }
    assert (forall j, index <= j < index + (i + 1) -> radix_tree_lookup s j <> Some 0) as Hall'.
    { intros j Hj. destruct (decide (j = index + i)) as [->|]; [|apply Hall; lia].
      rewrite (lookup_spec s pl) by (done || (unfold is_u32; lia)). congruence. }
    replace (index + i + 1) with (index + (i + 1)) by lia.
    destruct (Z.eqb_spec (u32 (index + (i + 1))) 0) as [E0|E0].
    + eexists. split; [done|]. exists (i + 1). split_and!; try done; try lia. right. left. word_lia.
    + eexists. split; [done|]. cbn [fst snd]. assert (index + (i + 1) < 2 ^ 32) as Hlt2.
      { destruct (decide (index + (i + 1) = 2 ^ 32)) as [E2|]; [by rewrite E2 in E0 | lia]. }
      rewrite !u32_small by (unfold is_u32; lia). split_and!; try done; lia.
  - cbn [fst snd]. split_and!; lia.
Qed.

Lemma next_hole_correct_witness : wf sample_filled /\ radix_tree_next_hole sample_filled 70 5 = Some 71 /\
  exists n, radix_tree_next_hole sample_filled 70 5 = Some (u32 (70 + n)) /\ 0 <= n <= 5.
Proof.
  pose proof sample_filled_wf as Hwf. split; [done|]. split; [by vm_compute|].
  destruct (next_hole_correct sample_filled 70 5 Hwf) as (n & E & Hn & _); [unfold is_u32; lia..|].
  exists n. split; [exact E | exact Hn].
Defined.

(** ** Slots *)

Lemma lookup_slot_spec s pl index : inv s pl -> is_u32 index ->
  exists p, radix_tree_lookup_slot s index = Some p /\
    (content s pl index = 0 -> p = SNull) /\
    (content s pl index <> 0 ->
       (p = SRoot /\ height (root s) = 0 /\ index = 0 /\ rnode (root s) = content s pl index) \/
       (exists a nd, p = SSlot a (index mod 64) /\ pl !! (1, pre 1 index) = Some a /\ nodes s !! a = Some nd /\
          slot nd (index mod 64) = content s pl index)).
Proof.
  intros Hinv Hi. pose proof (inv_shape _ _ Hinv) as Hs. unfold radix_tree_lookup_slot.
  destruct (root_cases _ _ Hs) as [[Hr ->]|[(Hh & Hr & ->)|(a & nd & Hh & Hr & Hp & Ha & Hm & Ho)]].
  - rewrite Hr. exists SNull. split_and!; try done. by rewrite content_null.
  - rewrite (ptr_nonzero _ Hr), (ptr_direct _ Hr). cbn [negb]. unfold content. rewrite Hh. cbn [Z.eqb]. unfold is_u32 in Hi.
    destruct (Z.ltb_spec 0 index), (Z.eqb_spec index 0); try lia.
    + exists SNull. split_and!; done.
    + exists SRoot. split_and!; try done; [destruct Hr; lia|]. intros _. by left.
  - rewrite Hr, indirect_nonzero, indirect_is_indirect, to_ptr_indirect, Hm, some_bind by done. cbn [negb].
    rewrite (no_height _ _ _ _ Ho). destruct (maxindex_spec (height (root s)) index) as (mx & -> & _ & Hmx); [lia | done|].
    rewrite some_bind, Hmx. destruct (Z.eqb_spec (pre (height (root s)) index) 0) as [E|E]; cbn [negb].
    2: { exists SNull. rewrite (content_beyond s pl index Hs Hi E). done. }
    set (n := Z.to_nat (height (root s) - 1)).
    destruct (lookup_loop_spec _ _ _ Hs n index a Hi) as (sl & Hl & Hsl).
    { replace (Z.of_nat (S n)) with (height (root s)) by lia. by rewrite E. }
    replace (Z.to_nat (height (root s))) with (S n) by lia. rewrite top_shift_eq by lia.
    replace (6 * (height (root s) - 1)) with (6 * Z.of_nat n) by lia. rewrite Hl, some_bind.
    assert (content s pl index = leaf_item (nodes s) pl index) as Ec
      by (unfold content; by rewrite (proj2 (Z.eqb_neq (height (root s)) 0)) by lia).
    rewrite <- Ec in Hsl |- *. destruct (Z.eqb_spec (content s pl index) 0) as [Ez|Ez].
    + exists SNull. done.
    + destruct (Hsl Ez) as (leaf & Hleaf & ->). exists (SSlot leaf (index mod 64)). split_and!; try done.
      intros _. right. destruct (place_node _ _ _ Hs _ _ _ Hleaf) as (ld & Hlm & _). exists leaf, ld. split_and!; try done.
      rewrite Ec. symmetry. by apply leaf_item_eq with (a := leaf).
Qed.

(** The slot that radix_tree_lookup_slot finds holds the item of the index, and
    radix_tree_replace_slot puts another in its place, with the same tags, and
    changes no other index. *)
Theorem slot_replace s index item : wf s -> is_u32 index -> ptr_ok item ->
  exists p old, radix_tree_lookup_slot s index = Some p /\ radix_tree_lookup s index = Some old /\
    (old = 0 -> p = SNull) /\
    (old <> 0 -> radix_tree_deref_slot s p = Some old /\
       exists s', radix_tree_replace_slot s p item = Some s' /\ wf s' /\
         (forall j, is_u32 j -> radix_tree_lookup s' j = if j =? index then Some item else radix_tree_lookup s j) /\
         (forall j t, is_u32 j -> 0 <= t < 2 -> radix_tree_tag_get s' j t = radix_tree_tag_get s j t)).
Proof.
  intros [pl Hinv] Hi Hit. pose proof (inv_shape _ _ Hinv) as Hs.
  destruct (lookup_slot_spec s pl index Hinv Hi) as (p & Ep & Hz & Hn). exists p, (content s pl index).
  split_and!; [done | by apply lookup_spec | done|]. intros Hc. unfold radix_tree_deref_slot, radix_tree_replace_slot.
  rewrite (ptr_direct item Hit).
  assert (forall s', inv s' pl -> (forall j, content s' pl j = if j =? index then item else content s pl j) ->
    (forall j t, 0 <= t < 2 -> tagged s' pl j t = tagged s pl j t) -> wf s' /\
    (forall j, is_u32 j -> radix_tree_lookup s' j = if j =? index then Some item else radix_tree_lookup s j) /\
    (forall j t, is_u32 j -> 0 <= t < 2 -> radix_tree_tag_get s' j t = radix_tree_tag_get s j t)) as Hgo.
  { intros s' Hinv' Hc' Ht'. split_and!; [by exists pl| |].
    - intros j Hj. rewrite (lookup_spec s' pl), (lookup_spec s pl), Hc' by (done || apply Hinv'). by destruct (j =? index).
    - intros j t Hj Ht. by rewrite (tag_get_spec s' pl), (tag_get_spec s pl), Ht' by done. }
  destruct (Hn Hc) as [(-> & Hh & -> & Hr)|(a & nd & -> & Ha & Hm & Hsl)]; cbn [load_slot].
  - rewrite Hr, some_bind. assert (ptr_ok (content s pl 0)) as Hp.
    { rewrite <- Hr. destruct (sh_root _ _ _ Hs) as [[E _]|[(_ & ? & _)|(? & _)]]; [congruence | done | lia]. }
    rewrite (ptr_direct _ Hp). split; [done|]. eexists. split; [reflexivity|]. apply Hgo.
    + destruct Hinv as [Hs' Ht Hsp]. assert (pl = ∅) as Epl by (destruct (sh_root _ _ _ Hs) as [[_ ?]|[(_ & _ & ?)|(? & _)]]; [done..|lia]).
      constructor; cbn [root nodes set_root].
      * constructor; try apply Hs'. cbn [height rnode set_rnode]. right. left. done.
      * intros t Ht2. constructor; try apply (Ht t Ht2). cbn [height rnode set_rnode]. intros _ _. destruct Hit. split; [done | lia].
      * eapply (spares_change s); first [done | eauto].
    + intros j. unfold content. cbn [root set_root height rnode set_rnode]. rewrite Hh. cbn. by destruct (j =? 0).
    + intros j t _. unfold tagged. cbn [root set_root height set_rnode]. by rewrite Hh.
  - destruct (place_node _ _ _ Hs _ _ _ Ha) as (nd0 & Hm0 & Ho). assert (nd0 = nd) as -> by congruence. clear Hm0.
    pose proof (Z.mod_pos_bound index 64 ltac:(lia)) as Hoff. rewrite Hm, !some_bind, slot_rd, some_bind by (done || apply Ho).
    assert (ptr_ok (content s pl index)) as Hp.
    { rewrite <- Hsl. destruct (no_items _ _ _ _ Ho eq_refl (index mod 64) Hoff); [congruence | done]. }
    rewrite Hsl, (ptr_direct _ Hp). split; [done|].
    destruct (slot_wr nd (index mod 64) item (no_slots _ _ _ _ Ho) Hoff) as (l & -> & Hl & Hs1 & Hs2 & Hnz).
    rewrite some_bind. eexists. split; [reflexivity|].
    destruct (leaf_write s pl (pre 1 index) a nd (index mod 64) item (set_slots nd l)) as (H1 & H2 & H3);
      first [done | by right | apply Hs1 | apply Hs2 | (intros ->; destruct Hit; lia) | idtac].
    { cbn [count set_slots slots]. rewrite (no_count _ _ _ _ Ho), Hnz, Hsl, (ptr_nonzero _ Hp), (ptr_nonzero _ Hit). lia. }
    apply Hgo; [done| |intros; apply H3]. intros j. rewrite H2.
    replace (64 * pre 1 index + index mod 64) with index; [done|]. by apply pre1_index.
Qed.

Lemma slot_replace_witness : wf sample_filled /\ exists s', radix_tree_replace_slot sample_filled
    (default SNull (radix_tree_lookup_slot sample_filled 70)) 0x300 = Some s' /\ radix_tree_lookup s' 70 = Some 0x300.
Proof.
  pose proof sample_filled_wf as Hwf. split; [done|].
  destruct (slot_replace sample_filled 70 0x300 Hwf) as (p & old & Ep & Eo & _ & Hr); [unfold is_u32; lia | done|].
  rewrite Ep. destruct Hr as [_ (s' & E & _ & Hl & _)]; [intros ->; by vm_compute in Eo|].
  exists s'. split; [exact E|]. rewrite Hl by (unfold is_u32; lia). by vm_compute.
Defined.

(** radix_tree_preload answers 0 exactly when the pool it leaves is full, whatever
    other tasks did to the pool meanwhile. *)
Lemma preload_full others pool fr pool' res fr' : radix_tree_preload others pool fr = Some (pool', res, fr') ->
  (res = 0 /\ RADIX_TREE_MAX_PATH <= zlen pool') \/ res = - ENOMEM.
Proof.
  revert pool fr. induction others as [|[node p] others IH]; intros pool fr; cbn [radix_tree_preload];
    destruct (Z.ltb_spec (zlen pool) RADIX_TREE_MAX_PATH) as [Hlt|Hge]; try done;
    try (intros [= -> <- _]; by left).
  destruct (node =? 0); [intros [= _ <- _]; by right|]. destruct (_ <? _); apply IH.
Qed.
