(* ===== verification/TextSearch.v ===== *)
(** * lib/textsearch.c and lib/ts_kmp.c: text search

    The core of the text search (algorithms register by name, a search is
    prepared, run, continued and destroyed) and the Knuth-Morris-Pratt algorithm.
    The text comes in blocks from a callback of the caller; what an algorithm
    promises for any such callback is the class [Finds], which the Knuth-Morris-
    Pratt matcher implements and the theorems about the core use. *)

From Stdlib Require Import String.
From S2P Require Import Prelude.

(** ** Data *)

Definition UINT_MAX : Z := not32 0.
Definition ENOENT : Z := 2.

(** struct ts_state; the control buffer [cb] belongs to the block callback. *)
Record ts_state (C : Type) := mk_state { offset : Z; cb : C }.
Arguments mk_state {C}.
Arguments offset {C}.
Arguments cb {C}.

(** get_next_block: the bytes from [*dst] on, as many as the length returned,
    and the control buffer it leaves. *)
Definition block_fn (C : Type) : Type := Z -> C -> list Z * C.

(** struct ts_linear_state and its callback get_linear_data *)
Record ts_linear_state := mk_linear { len : Z; data : list Z }.
Definition get_linear_data : block_fn ts_linear_state := fun consumed st =>
  if consumed <? len st then (slice consumed (len st - consumed) (data st), st) else ([], st).

(** ** Knuth-Morris-Pratt *)

Record ts_kmp := mk_kmp { pattern : list Z; pattern_len : Z; prefix_tbl : list Z }.

(** while (q > 0 && pattern[q] != c) q = prefix_tbl[q - 1] *)
Definition back_step (pat tbl : list Z) (c q : Z) : option (Z + Z) :=
  if negb (0 <? q) then Some (inr q) else
  p ← rd pat q;
  if p =? c then Some (inr q) else
  q ← rd tbl (q - 1);
  Some (inl q).
Definition back (pat tbl : list Z) (c q : Z) : option Z := run 32 (back_step pat tbl c) q.

(** One byte of text, or of the pattern when the table is made. *)
Definition advance (pat tbl : list Z) (c q : Z) : option Z :=
  q ← back pat tbl c q;
  p ← rd pat q;
  Some (if p =? c then u32 (q + 1) else q).

(** The loop over a block: [q] after it, or the [i] where a match ends. *)
Fixpoint scan_block (kmp : ts_kmp) (text : list Z) (i q : Z) : option (Z + Z) :=
  match text with
  | [] => Some (inl q)
  | c :: text =>
    q ← advance (pattern kmp) (prefix_tbl kmp) c q;
    if q =? pattern_len kmp then Some (inr i) else scan_block kmp text (u32 (i + 1)) q
  end.

(** One block; [consumed], [q] and the control buffer go from block to block. *)
Definition block_step {C} (kmp : ts_kmp) (get_next_block : block_fn C) (off : Z) (st : Z * Z * C) :
    option (Z * Z * C + Z * ts_state C) :=
  let '(consumed, q, c) := st in
  let '(text, c) := get_next_block consumed c in
  if zlen text =? 0 then Some (inr (UINT_MAX, mk_state off c)) else
  r ← scan_block kmp text 0 q;
  Some (match r with
        | inl q => inl (u32 (consumed + zlen text), q, c)
        | inr i =>
          let off := u32 (consumed + i + 1) in
          inr (u32 (off - pattern_len kmp), mk_state off c)
        end).
Definition kmp_find {C} (kmp : ts_kmp) (get_next_block : block_fn C) (state : ts_state C) :
    option (Z * ts_state C) :=
  run 33 (block_step kmp get_next_block (offset state)) (offset state, 0, cb state).

(** The state: [q], [k] and the table. *)
Definition prefix_step (pat : list Z) (len : Z) (st : Z * Z * list Z) : option (Z * Z * list Z + list Z) :=
  let '(q, k, tbl) := st in
  if negb (q <? len) then Some (inr tbl) else
  c ← rd pat q;
  k ← advance pat tbl c k;
  tbl ← wr tbl q k;
  Some (inl (u32 (q + 1), k, tbl)).
Definition compute_prefix_tbl (pat : list Z) (len : Z) (tbl : list Z) : option (list Z) :=
  run 33 (prefix_step pat len) (1, 0, tbl).

(** alloc_ts_config: [kmalloc n] tells whether [n] bytes can be had; they are
    cleared. *)
Definition TS_PRIV_ALIGN (len : Z) : Z := Z.land (u32 (len + 8 - 1)) (not32 (8 - 1)).
Definition sizeof_ts_config : Z := 12.
Definition alloc_ts_config (kmalloc : Z -> bool) (payload : Z) : bool :=
  kmalloc (u32 (TS_PRIV_ALIGN sizeof_ts_config + payload)).

(** [inl] is an error pointer. *)
Definition kmp_init (kmalloc : Z -> bool) (pat : list Z) (len : Z) : option (Z + ts_kmp) :=
  let prefix_tbl_len := u32 (len * 4) in
  let priv_size := u32 (8 + len + prefix_tbl_len) in
  if negb (alloc_ts_config kmalloc priv_size) then Some (inl (- ENOMEM)) else
  if zlen pat <? len then None else
  tbl ← compute_prefix_tbl pat len (replicate (Z.to_nat (prefix_tbl_len / 4)) 0);
  Some (inr (mk_kmp (take (Z.to_nat len) pat) len tbl)).
Definition kmp_get_pattern (kmp : ts_kmp) : list Z := pattern kmp.
Definition kmp_get_pattern_len (kmp : ts_kmp) : Z := pattern_len kmp.

(** ** The core *)

(** struct ts_ops: [self] is its address; a module without an owner is built in,
    [owner = 0].  An algorithm keeps [priv] in the configuration. *)
Record ts_ops (C : Type) := mk_ops {
  self : Z;
  name : option (list Z);
  priv : Type;
  init : option ((Z -> bool) -> list Z -> Z -> option (Z + priv));
  find : option (priv -> block_fn C -> ts_state C -> option (Z * ts_state C));
  destroy : option (priv -> gmap Z (bool * Z) -> gmap Z (bool * Z));
  get_pattern : option (priv -> list Z);
  get_pattern_len : option (priv -> Z);
  owner : Z }.
Arguments self {C}.
Arguments name {C}.
Arguments priv {C}.
Arguments init {C}.
Arguments find {C}.
Arguments destroy {C}.
Arguments get_pattern {C}.
Arguments get_pattern_len {C}.
Arguments owner {C}.

(** struct ts_config; textsearch_prepare sets [ops] in every configuration. *)
Record ts_config (C : Type) := mk_config {
  ops : ts_ops C;
  priv_data : priv ops;
  get_next_block : option (block_fn C);
  finish : option (ts_state C -> ts_state C) }.
Arguments mk_config {C}.
Arguments ops {C}.
Arguments priv_data {C}.
Arguments get_next_block {C}.
Arguments finish {C}.

(** The list ts_ops and the modules: whether each is live, and its references. *)
Record tsearch (C : Type) := mk_tsearch { algos : list (ts_ops C); modules : gmap Z (bool * Z) }.
Arguments mk_tsearch {C}.
Arguments algos {C}.
Arguments modules {C}.

Definition kmp_ops (C : Type) (addr : Z) (mod_ : Z) : ts_ops C :=
  mk_ops C addr (Some (text "kmp"%string)) ts_kmp (Some kmp_init) (Some (@kmp_find C)) None
    (Some kmp_get_pattern) (Some kmp_get_pattern_len) mod_.

Definition try_module_get (m : gmap Z (bool * Z)) (mod_ : Z) : option (gmap Z (bool * Z) * bool) :=
  if mod_ =? 0 then Some (m, true) else
  '(live, ref) ← m !! mod_;
  Some (if (live : bool) then (<[mod_ := (live, ref + 1)]> m, true) else (m, false)).
Definition module_put (m : gmap Z (bool * Z)) (mod_ : Z) : option (gmap Z (bool * Z)) :=
  if mod_ =? 0 then Some m else
  '(live, ref) ← m !! mod_;
  Some (<[mod_ := (live, ref - 1)]> m).

Section core.
Context {C : Type}.

(** !strcmp(name, o->name) *)
Definition named (n : list Z) (o : ts_ops C) : bool := bool_decide (name o = Some n).

Fixpoint first_named (n : list Z) (l : list (ts_ops C)) : option (ts_ops C) :=
  match l with
  | [] => None
  | o :: l => if named n o then Some o else first_named n l
  end.
Definition lookup_ts_algo (s : tsearch C) (n : list Z) : option (tsearch C * option (ts_ops C)) :=
  match first_named n (algos s) with
  | None => Some (s, None)
  | Some o =>
    '(m, got) ← try_module_get (modules s) (owner o);
    Some (mk_tsearch (algos s) m, if (got : bool) then Some o else None)
  end.

Definition textsearch_register (s : tsearch C) (o : ts_ops C) : tsearch C * Z :=
  match name o, find o, init o, get_pattern o, get_pattern_len o with
  | Some n, Some _, Some _, Some _, Some _ =>
    match first_named n (algos s) with
    | Some _ => (s, - EEXIST)
    | None => (mk_tsearch (algos s ++ [o]) (modules s), 0)
    end
  | _, _, _, _, _ => (s, - EINVAL)
  end.

Fixpoint unlink (a : Z) (l : list (ts_ops C)) : option (list (ts_ops C)) :=
  match l with
  | [] => None
  | o :: l => if self o =? a then Some l else l ← unlink a l; Some (o :: l)
  end.
Definition textsearch_unregister (s : tsearch C) (o : ts_ops C) : tsearch C * Z :=
  match unlink (self o) (algos s) with
  | Some l => (mk_tsearch l (modules s), 0)
  | None => (s, - ENOENT)
  end.

(** [request_module] may load and register an algorithm. *)
Definition textsearch_prepare (kmalloc : Z -> bool) (request_module : list Z -> tsearch C -> tsearch C)
    (s : tsearch C) (algo pat : list Z) (len flags : Z) : option (tsearch C * (Z + ts_config C)) :=
  if len =? 0 then Some (s, inl (- EINVAL)) else
  '(s, o) ← lookup_ts_algo s algo;
  '(s, o) ← (match o with
             | None => if negb (Z.land flags 1 =? 0)
                       then lookup_ts_algo (request_module (text "ts_"%string ++ algo) s) algo else Some (s, o)
             | Some _ => Some (s, o)
             end);
  match o with
  | None => Some (s, inl (- ENOENT))
  | Some o =>
    f ← init o;
    r ← f kmalloc pat len;
    match r with
    | inl err => m ← module_put (modules s) (owner o); Some (mk_tsearch (algos s) m, inl err)
    | inr p => Some (s, inr (mk_config o p None None))
    end
  end.

Definition textsearch_destroy (s : tsearch C) (conf : ts_config C) : option (tsearch C) :=
  let m := match destroy (ops conf) with Some f => f (priv_data conf) (modules s) | None => modules s end in
  m ← module_put m (owner (ops conf));
  Some (mk_tsearch (algos s) m).

Definition textsearch_next (conf : ts_config C) (state : ts_state C) : option (Z * ts_state C) :=
  f ← find (ops conf);
  b ← get_next_block conf;
  '(ret, state) ← f (priv_data conf) b state;
  Some (ret, match finish conf with Some f => f state | None => state end).
Definition textsearch_find (conf : ts_config C) (state : ts_state C) : option (Z * ts_state C) :=
  textsearch_next conf (mk_state 0 (cb state)).
Definition textsearch_get_pattern (conf : ts_config C) : option (list Z) :=
  f ← get_pattern (ops conf); Some (f (priv_data conf)).
Definition textsearch_get_pattern_len (conf : ts_config C) : option Z :=
  f ← get_pattern_len (ops conf); Some (f (priv_data conf)).
End core.

Definition textsearch_find_continuous (conf : ts_config ts_linear_state) (state : ts_state ts_linear_state)
    (data : list Z) (len : Z) : option (ts_config ts_linear_state * Z * ts_state ts_linear_state) :=
  let conf := mk_config (ops conf) (priv_data conf) (Some get_linear_data) (finish conf) in
  '(ret, state) ← textsearch_find conf (mk_state (offset state) (mk_linear len data));
  Some (conf, ret, state).

(** ** Specification *)

Definition occurs (pat T : list Z) (p : Z) : Prop := 0 <= p /\ slice p (zlen pat) T = pat.

(** The first occurrence at [o] or later. *)
Definition first_at (pat T : list Z) (o r : Z) : Prop :=
  o <= r /\ occurs pat T r /\ forall p, o <= p < r -> ~ occurs pat T p.

(** What a search from [o] on answers: the result and the offset for the next. *)
Definition found (pat T : list Z) (o r o' : Z) : Prop :=
  (first_at pat T o r /\ o' = r + zlen pat) \/
  ((forall p, o <= p -> ~ occurs pat T p) /\ r = UINT_MAX /\ o' = o).

(** The callback serves [T], block by block; [ok] is the state of its buffer. *)
Class Serves {C} (b : block_fn C) (T : list Z) (ok : C -> Prop) := {
  serves_size : zlen T < 2 ^ 32;
  serves_next consumed c : ok c -> 0 <= consumed <= zlen T -> ok (b consumed c).2 /\
    (b consumed c).1 `prefix_of` drop (Z.to_nat consumed) T /\ ((b consumed c).1 = [] -> consumed = zlen T) }.

(** The promise of an algorithm prepared for [pat]. *)
Class Finds {C} (f : block_fn C -> ts_state C -> option (Z * ts_state C)) (pat : list Z) :=
  finds b T ok (H : Serves b T ok) st : ok (cb st) -> 0 <= offset st <= zlen T ->
    exists r st', f b st = Some (r, st') /\ ok (cb st') /\ found pat T (offset st) r (offset st').

(** The loop of a user: all results of textsearch_next until UINT_MAX. *)
Definition next_step {C} (conf : ts_config C) (st : ts_state C * list Z) : option (ts_state C * list Z + list Z) :=
  '(r, state) ← textsearch_next conf st.1;
  Some (if r =? UINT_MAX then inr st.2 else inl (state, st.2 ++ [r])).
Definition search_all {C} (conf : ts_config C) (state : ts_state C) : option (list Z) :=
  run 33 (next_step conf) (mk_state 0 (cb state), []).

(** The occurrences from the left that do not overlap. *)
Inductive leftmost (pat T : list Z) : Z -> list Z -> Prop :=
  | leftmost_none o : (forall p, o <= p -> ~ occurs pat T p) -> leftmost pat T o []
  | leftmost_cons o r l : first_at pat T o r -> leftmost pat T (r + zlen pat) l -> leftmost pat T o (r :: l).

(** ** Prefixes of the pattern that end a text *)

Section kmp.
Context (pat : list Z).

Definition suf (t : list Z) (k : nat) : Prop := (k <= length pat)%nat /\ take k pat `suffix_of` t.

(** The longest of them that is not all of the pattern's first [q] bytes. *)
Definition border (q b : nat) : Prop :=
  suf (drop 1 (take q pat)) b /\ forall k, suf (drop 1 (take q pat)) k -> (k <= b)%nat.

(** The table has the borders up to [n]. *)
Definition table_ok (tbl : list Z) (n : nat) : Prop :=
  forall q, (1 <= q <= n)%nat -> exists b, tbl !! (q - 1)%nat = Some (Z.of_nat b) /\ border q b.

Lemma suf_0 t : suf t 0.
Proof. split; [lia|]. apply suffix_nil. Qed.

Lemma suf_length t k : suf t k -> (k <= length t)%nat.
Proof. intros [Hk H%suffix_length]. rewrite length_take in H. lia. Qed.

Lemma suf_snoc t c k : suf t k -> pat !! k = Some c -> suf (t ++ [c]) (S k).
Proof.
  intros [_ Hs] Hc. split; [by apply lookup_lt_Some in Hc; lia|].
  rewrite (take_S_r _ _ _ Hc). by apply suffix_app.
Qed.

Lemma suf_snoc_inv t c k : suf (t ++ [c]) (S k) -> suf t k /\ pat !! k = Some c.
Proof.
  intros [Hk Hs]. destruct (lookup_lt_is_Some_2 pat k ltac:(lia)) as [x Hx].
  rewrite (take_S_r _ _ _ Hx) in Hs. rewrite (suffix_snoc_inv_1 _ _ _ _ Hs) in Hx.
  split; [|done]. split; [lia|]. by apply suffix_snoc_inv_2 in Hs.
Qed.

Lemma suf_shorter t q k : suf t q -> suf t k -> (k < q)%nat -> suf (drop 1 (take q pat)) k.
Proof.
  intros [Hq H1] [Hk H2] Hlt. split; [lia|].
  destruct (suffix_weak_total _ _ _ H1 H2) as [H|[a Ha]].
  - apply suffix_length in H. rewrite !length_take in H. lia.
  - rewrite Ha. destruct a as [|x a].
    + apply (f_equal length) in Ha. rewrite app_nil_l, !length_take in Ha. lia.
    + cbn. rewrite drop_0. by exists a.
Qed.

Lemma suf_of_suf t q k : suf t q -> suf (drop 1 (take q pat)) k -> suf t k.
Proof.
  intros [Hq H1] [Hk H2]. split; [lia|]. etrans; [exact H2|]. etrans; [|exact H1]. apply suffix_drop.
Qed.

Lemma border_lt q b : (1 <= q <= length pat)%nat -> border q b -> (b < q)%nat.
Proof. intros Hq [H%suf_length _]. rewrite length_drop, length_take in H. lia. Qed.

Context (Hm : 0 < zlen pat < 2 ^ 32).

(** [q] counts a prefix that ends [t]; the ones with [c] next are not longer. *)
Definition candidate (t : list Z) (c : Z) (q : nat) : Prop :=
  suf t q /\ forall k, suf t k -> pat !! k = Some c -> (k <= q)%nat.

Lemma back_spec tbl n t c q : table_ok tbl n -> (q <= n)%nat -> (q < length pat)%nat -> candidate t c q ->
  exists q', back pat tbl c (Z.of_nat q) = Some (Z.of_nat q') /\ (q' <= q)%nat /\ candidate t c q' /\
    (q' = 0%nat \/ pat !! q' = Some c).
Proof.
  intros Htbl Hn Hq Hcand.
  destruct (run_rule (fun z => exists q', z = Z.of_nat q' /\ (q' <= q)%nat /\ candidate t c q')
    (fun z => exists q', z = Z.of_nat q' /\ (q' <= q)%nat /\ candidate t c q' /\ (q' = 0%nat \/ pat !! q' = Some c))
    (fun z => z) (back_step pat tbl c) 32 (Z.of_nat q)) as (r & Hr & q' & -> & H).
  - intros ? (q' & -> & Hle & Hc). unfold back_step. destruct (Z.ltb_spec 0 (Z.of_nat q')) as [Hpos|]; cbn [negb].
    2: { eexists. split; [done|]. exists q'. split_and!; [done..|]. left. lia. }
    destruct (lookup_lt_is_Some_2 pat q' ltac:(lia)) as [p Hp]. rewrite rd_nat, Hp, some_bind.
    destruct (Z.eqb_spec p c) as [->|Hne].
    { eexists. split; [done|]. exists q'. split_and!; [done..|]. by right. }
    destruct (Htbl q' ltac:(lia)) as (b & Hb & Hbd).
    replace (Z.of_nat q' - 1) with (Z.of_nat (q' - 1)) by lia. rewrite rd_nat, Hb, some_bind.
    pose proof (border_lt q' b ltac:(lia) Hbd) as Hlt.
    eexists. split; [done|]. split; [|lia]. exists b. split_and!; [done | lia |].
    destruct Hc as [Hs Hmax]. split; [by apply (suf_of_suf t q'), Hbd|].
    intros k Hk Hkc. pose proof (Hmax k Hk Hkc) as Hkq. apply Hbd. apply (suf_shorter t); [done..|].
    destruct (decide (k = q')) as [->|]; [congruence | lia].
  - eauto.
  - change (Z.of_nat 32) with 32. lia.
  - unfold back. eauto.
Qed.

(** [q] counts the longest prefix, the whole pattern apart, that ends [t]. *)
Definition longest (t : list Z) (q : nat) : Prop :=
  suf t q /\ (q < length pat)%nat /\ forall k, suf t k -> (k < length pat)%nat -> (k <= q)%nat.

Lemma advance_spec tbl n t c q : table_ok tbl n -> (q <= n)%nat -> longest t q ->
  exists q', advance pat tbl c (Z.of_nat q) = Some (Z.of_nat q') /\ suf (t ++ [c]) q' /\
    forall k, suf (t ++ [c]) k -> (k <= q')%nat.
Proof.
  intros Htbl Hn (Hs & Hlt & Hmax).
  destruct (back_spec tbl n t c q) as (q' & E & Hle & [Hs' Hmax'] & Hend); [done..| |].
  { split; [done|]. intros k Hk Hc. apply Hmax; [done|]. by apply lookup_lt_Some in Hc. }
  unfold advance. rewrite E, some_bind.
  destruct (lookup_lt_is_Some_2 pat q' ltac:(lia)) as [p Hp]. rewrite rd_nat, Hp, some_bind.
  destruct (Z.eqb_spec p c) as [->|Hne].
  - exists (S q'). rewrite u32_small by (unfold is_u32; lia). split; [f_equal; lia|].
    split; [by apply suf_snoc|]. intros [|k] Hk; [lia|]. apply suf_snoc_inv in Hk as [Hk Hkc].
    pose proof (Hmax' k Hk Hkc). lia.
  - destruct Hend as [->|?]; [|congruence]. exists 0%nat. split; [done|]. split; [apply suf_0|].
    intros [|k] Hk; [lia|]. apply suf_snoc_inv in Hk as [Hk Hkc].
    pose proof (Hmax' k Hk Hkc). assert (k = 0%nat) as -> by lia. congruence.
Qed.

(** The table, for the whole pattern. *)
Lemma compute_prefix_tbl_spec tbl : length tbl = length pat -> tbl !! 0%nat = Some 0 ->
  exists tbl', compute_prefix_tbl pat (zlen pat) tbl = Some tbl' /\ table_ok tbl' (length pat).
Proof.
  intros Hlen H0.
  destruct (run_rule (fun st : Z * Z * list Z => exists q k, st.1 = (Z.of_nat q, Z.of_nat k) /\
      (1 <= q <= length pat)%nat /\ border q k /\ length st.2 = length pat /\ table_ok st.2 q)
    (fun tbl' => table_ok tbl' (length pat)) (fun st => zlen pat - st.1.1) (prefix_step pat (zlen pat)) 33 (1, 0, tbl))
    as (r & Hr & Hok).
  - intros [[? ?] tb] (q & k & [= -> ->] & Hq & Hk & Hl & Htbl); cbn [fst snd] in *. unfold prefix_step.
    destruct (Z.ltb_spec (Z.of_nat q) (zlen pat)) as [Hlt|Hge]; cbn [negb].
    2: { eexists. split; [done|]. cbn. by replace (length pat) with q by lia. }
    destruct (lookup_lt_is_Some_2 pat q ltac:(lia)) as [c Hc]. rewrite rd_nat, Hc, some_bind.
    assert (Ht : drop 1 (take (S q) pat) = drop 1 (take q pat) ++ [c]).
    { rewrite (take_S_r _ _ _ Hc). apply drop_app_le. rewrite length_take. lia. }
    pose proof (border_lt q k ltac:(lia) Hk) as Hkq.
    destruct (advance_spec tb q (drop 1 (take q pat)) c k) as (k' & E & Hk'); [done | lia | |].
    { split; [apply Hk|]. split; [lia|]. intros j Hj _. by apply Hk. }
    rewrite E, some_bind, wr_Some, some_bind by lia. eexists. split; [done|]. cbn [fst snd].
    rewrite u32_small, Nat2Z.id by (unfold is_u32; lia). split; [|lia].
    exists (S q), k'. split; [f_equal; f_equal; lia|]. rewrite length_insert. split; [lia|].
    assert (Hb : border (S q) k') by (by unfold border; rewrite Ht). split; [done|]. split; [done|].
    intros j Hj. destruct (decide (j = S q)) as [->|Hne].
    + exists k'. replace (S q - 1)%nat with q by lia. by rewrite list_lookup_insert_eq by lia.
    + rewrite list_lookup_insert_ne by lia. apply Htbl. lia.
  - exists 1%nat, 0%nat. cbn [fst snd]. split; [done|]. split; [lia|].
    assert (Hb : border 1 0).
    { split; [apply suf_0|]. intros k Hk%suf_length. rewrite length_drop, length_take in Hk. lia. }
    split; [done|]. split; [done|]. intros q Hq. assert (q = 1%nat) as -> by lia. by exists 0%nat.
  - cbn [fst snd]. change (2 ^ Z.of_nat 33) with (2 * 2 ^ 32). lia.
  - exists r. split; [exact Hr | done].
Qed.
End kmp.

(** ** The matcher *)

Lemma occurs_end pat T p : 0 < zlen pat -> occurs pat T p -> p + zlen pat <= zlen T.
Proof.
  intros Hm [Hp H]. apply (f_equal length) in H. unfold slice in H. rewrite length_take, length_drop in H. lia.
Qed.

Lemma occurs_drop pat T o p : 0 <= o -> 0 <= p -> occurs pat (drop (Z.to_nat o) T) p <-> occurs pat T (o + p).
Proof.
  intros Ho Hp. unfold occurs, slice. rewrite drop_drop. replace (Z.to_nat o + Z.to_nat p)%nat with (Z.to_nat (o + p)) by lia.
  split; intros [? ?]; (split; [lia | done]).
Qed.

Section find.
Context (pat tbl T : list Z) (o : nat) (Hm : 0 < zlen pat < 2 ^ 32) (HT : zlen T < 2 ^ 32) (Ho : (o <= length T)%nat).
Context (Htbl : table_ok pat tbl (length pat)).

(** The text from the start of the search up to [e]. *)
Definition seen (e : nat) : list Z := drop o (take e T).

Lemma seen_snoc e c : (o <= e)%nat -> T !! e = Some c -> seen (S e) = seen e ++ [c].
Proof.
  intros He Hc. unfold seen. rewrite (take_S_r _ _ _ Hc). apply drop_app_le. rewrite length_take.
  apply lookup_lt_Some in Hc. lia.
Qed.

Lemma seen_match e : (e <= length T)%nat ->
  suf pat (seen e) (length pat) <-> Z.of_nat o <= Z.of_nat e - zlen pat /\ occurs pat T (Z.of_nat e - zlen pat).
Proof.
  intros He. unfold suf. rewrite firstn_all. split.
  - intros [_ [a Ha]]. assert (Hl := f_equal length Ha). unfold seen in Hl.
    rewrite length_drop, length_app, length_take in Hl. split; [lia|]. split; [lia|].
    unfold slice. rewrite Nat2Z.id. replace (Z.to_nat (Z.of_nat e - zlen pat)) with (o + length a)%nat by lia.
    rewrite <-drop_drop; apply list_eq. intros i. destruct (decide (i < length pat)%nat) as [Hi|Hi].
    + rewrite lookup_take_lt, lookup_drop by lia.
      transitivity (seen e !! (length a + i)%nat).
      * unfold seen. rewrite !lookup_drop, lookup_take_lt by lia. done.
      * rewrite Ha, lookup_app_r by lia. f_equal. lia.
    + rewrite lookup_take_ge, lookup_ge_None_2 by lia. done.
  - intros (Hle & Hp & Hs). split; [done|]. exists (drop o (take (e - length pat) T)).
    unfold seen. rewrite <-drop_app_le by (rewrite length_take; lia). f_equal.
    assert (Hp' : take (length pat) (drop (e - length pat) T) = pat).
    { rewrite <-Hs at 3. unfold slice. f_equal; [lia|]. f_equal. lia. }
    transitivity (take (e - length pat) T ++ take (length pat) (drop (e - length pat) T)).
    + rewrite take_take_drop. f_equal. lia.
    + by rewrite Hp'.
Qed.

(** No match ends up to [P]; [q] is the state of the automaton there. *)
Record at_ (P q : nat) : Prop := mk_at {
  at_longest : longest pat (seen P) q;
  at_none e : (e <= P)%nat -> ~ suf pat (seen e) (length pat) }.

Lemma at_start : at_ o 0.
Proof.
  assert (Hn : forall e, (e <= o)%nat -> seen e = []).
  { intros e He. apply drop_ge. rewrite length_take. lia. }
  split.
  - rewrite Hn by done. split_and!; [apply suf_0 | lia |]. intros k Hk%suf_length _. done.
  - intros e He Hs. rewrite Hn in Hs by done. apply suf_length in Hs. cbn in Hs. lia.
Qed.

Lemma at_next P q c : (o <= P)%nat -> T !! P = Some c -> at_ P q ->
  exists q', advance pat tbl c (Z.of_nat q) = Some (Z.of_nat q') /\
    (if Z.of_nat q' =? zlen pat then suf pat (seen (S P)) (length pat) else at_ (S P) q').
Proof.
  intros HP Hc [Hl Hn]. pose proof Hl as (_ & Hlt & _).
  destruct (advance_spec pat Hm tbl (length pat) (seen P) c q) as (q' & E & Hs & Hmax); [done | lia | done |].
  rewrite <-seen_snoc in Hs, Hmax by done. exists q'. split; [done|].
  destruct (Z.eqb_spec (Z.of_nat q') (zlen pat)) as [Hq|Hq]; [by replace (length pat) with q' by lia|].
  pose proof (proj1 Hs) as Hq'.
  assert (Hnot : ~ suf pat (seen (S P)) (length pat)) by (intros H%Hmax; lia). split.
  - split; [done|]. split; [lia|]. intros k Hk _. by apply Hmax.
  - intros e He. destruct (decide (e = S P)) as [->|]; [done|]. apply Hn. lia.
Qed.

Let kmp := mk_kmp pat (zlen pat) tbl.

Lemma scan_block_spec blk : forall P i q, blk `prefix_of` drop P T -> (o <= P)%nat -> at_ P q ->
  0 <= i -> i + zlen blk < 2 ^ 32 -> exists r, scan_block kmp blk i (Z.of_nat q) = Some r /\
    match r with
    | inl z => exists q', z = Z.of_nat q' /\ at_ (P + length blk) q'
    | inr z => exists j q', z = i + Z.of_nat j /\ (j < length blk)%nat /\ at_ (P + j) q' /\
        suf pat (seen (S (P + j))) (length pat)
    end.
Proof.
  induction blk as [|c blk IH]; intros P i q Hpre HP Hat Hi Hlen; cbn [scan_block].
  - eexists. split; [done|]. exists q. split; [done|]. by rewrite Nat.add_0_r.
  - destruct Hpre as [rest Hr]. cbn [app] in Hr.
    assert (Hc : T !! P = Some c) by (rewrite <-(Nat.add_0_r P), <-lookup_drop, Hr; done).
    assert (Hr' : drop (S P) T = blk ++ rest) by (replace (S P) with (P + 1)%nat by lia; by rewrite <-drop_drop, Hr).
    destruct (at_next P q c HP Hc Hat) as (q' & E & Hq'). change (pattern kmp) with pat. change (prefix_tbl kmp) with tbl.
    rewrite E, some_bind. change (pattern_len kmp) with (zlen pat). cbn [length] in *. rewrite Nat2Z.inj_succ in Hlen.
    destruct (Z.of_nat q' =? zlen pat).
    + eexists. split; [done|]. exists 0%nat, q. rewrite Nat.add_0_r. split; [lia|]. split; [lia|]. done.
    + rewrite u32_small by (unfold is_u32; lia).
      destruct (IH (S P) (i + 1) q') as (r & Er & Hpost); [by exists rest | lia | done | lia | lia |].
      exists r. split; [done|]. destruct r as [z|z].
      * destruct Hpost as (q2 & -> & H2). exists q2. split; [done|]. by rewrite Nat.add_succ_r.
      * destruct Hpost as (j & q2 & -> & Hj & H2 & Hs). exists (S j), q2. rewrite Nat.add_succ_r. split_and!; [lia | lia | done | done].
Qed.

Lemma none_before P q p : (P <= length T)%nat -> at_ P q -> Z.of_nat o <= p -> p + zlen pat <= Z.of_nat P -> ~ occurs pat T p.
Proof.
  intros HP Hat Hp HpP Hocc. apply (at_none P q Hat (Z.to_nat (p + zlen pat))); [lia|].
  apply seen_match; [lia|]. rewrite Z2Nat.id by lia. replace (p + zlen pat - zlen pat) with p by lia. done.
Qed.

Context {C : Type} (b : block_fn C) (ok : C -> Prop) (Hb : Serves b T ok).

Lemma kmp_find_spec st : offset st = Z.of_nat o -> ok (cb st) -> exists r st', kmp_find kmp b st = Some (r, st') /\
  ok (cb st') /\ found pat T (offset st) r (offset st').
Proof.
  intros Hst Hok. unfold kmp_find. rewrite Hst.
  destruct (run_rule (fun s : Z * Z * C => exists P q, s.1 = (Z.of_nat P, Z.of_nat q) /\ (o <= P <= length T)%nat /\
       at_ P q /\ ok s.2)
     (fun r => ok (cb r.2) /\ found pat T (Z.of_nat o) r.1 (offset r.2))
     (fun s => zlen T - s.1.1) (block_step kmp b (Z.of_nat o)) 33 (Z.of_nat o, 0, cb st)) as ([r st'] & E & H).
  - intros [[? ?] c] (P & q & [= -> ->] & HP & Hat & Hc); cbn [fst snd] in *. unfold block_step.
    destruct (@serves_next _ b T ok Hb (Z.of_nat P) c Hc ltac:(lia)) as (Hok' & Hpre & Hend). rewrite Nat2Z.id in Hpre.
    destruct (b (Z.of_nat P) c) as [blk c']; cbn [fst snd] in *.
    assert (Hbl : (P + length blk <= length T)%nat).
    { apply prefix_length in Hpre. rewrite length_drop in Hpre. lia. }
    destruct (Z.eqb_spec (zlen blk) 0) as [Hz|Hz].
    + eexists. split; [done|]. cbn. split; [done|]. right. split; [|done]. intros p Hp Hocc.
      apply nil_length_inv' in Hz || (destruct blk; [|done]).
      pose proof (occurs_end pat T p ltac:(lia) Hocc). specialize (Hend eq_refl).
      apply (none_before P q p); [lia | done | done | lia | done].
    + destruct (scan_block_spec blk P 0 q) as (r & Er & Hpost); [done | lia | done | lia | lia |].
      rewrite Er, some_bind. eexists. split; [done|]. destruct r as [z|z].
      * destruct Hpost as (q' & -> & Hat'). rewrite u32_small by (unfold is_u32; lia). cbn [fst snd]. split; [|lia].
        exists (P + length blk)%nat, q'. split; [f_equal; lia|]. split; [lia|]. done.
      * destruct Hpost as (j & q' & -> & Hj & Hat' & Hs). cbn [fst snd cb offset]. split; [done|].
        apply seen_match in Hs as [Hge Hocc]; [|lia]. change (pattern_len kmp) with (zlen pat).
        rewrite (u32_small (Z.of_nat P + (0 + Z.of_nat j) + 1)) by (unfold is_u32; lia).
        replace (Z.of_nat P + (0 + Z.of_nat j) + 1) with (Z.of_nat (S (P + j))) by lia.
        rewrite u32_small by (unfold is_u32; lia).
        left. split; [|lia]. split; [done|]. split; [done|]. intros p Hp.
        apply (none_before (P + j) q'); [lia | done | lia | lia].
  - exists o, 0%nat. split; [done|]. split; [lia|]. split; [apply at_start | done].
  - cbn [fst snd]. change (2 ^ Z.of_nat 33) with (2 * 2 ^ 32). lia.
  - exists r, st'. split; [exact E|]. done.
Qed.
End find.

#[export] Instance linear_serves data len : 0 <= len <= zlen data -> len < 2 ^ 32 ->
  Serves get_linear_data (take (Z.to_nat len) data) (fun st => st = mk_linear len data).
Proof.
  intros Hl Hlt. assert (Hz : zlen (take (Z.to_nat len) data) = len) by (rewrite length_take; lia).
  split; [by rewrite Hz|]. intros consumed st -> Hc. rewrite Hz in *. unfold get_linear_data. cbn [TextSearch.len TextSearch.data].
  destruct (Z.ltb_spec consumed len) as [Hlt'|Hge]; cbn [fst snd]; split; try done; split.
  - unfold slice. rewrite skipn_firstn_comm. by replace (Z.to_nat len - Z.to_nat consumed)%nat with (Z.to_nat (len - consumed)) by lia.
  - intros H%(f_equal length). unfold slice in H. rewrite length_take, length_drop in H. cbn in H. lia.
  - apply prefix_nil.
  - lia.
Qed.

#[export] Instance kmp_finds {C} pat tbl : 0 < zlen pat < 2 ^ 32 -> table_ok pat tbl (length pat) ->
  Finds (C:=C) (kmp_find (mk_kmp pat (zlen pat) tbl)) pat.
Proof.
  intros Hm Htbl b T ok Hb st Hok Ho. pose proof (@serves_size _ b T ok Hb).
  apply (kmp_find_spec pat tbl T (Z.to_nat (offset st))) with (ok := ok); [done | done | lia | done | done | lia | done].
Qed.

Lemma kmp_init_spec kmalloc pat : 0 < zlen pat < 2 ^ 30 ->
  kmp_init kmalloc pat (zlen pat) = Some (inl (- ENOMEM)) \/
  exists tbl, kmp_init kmalloc pat (zlen pat) = Some (inr (mk_kmp pat (zlen pat) tbl)) /\ table_ok pat tbl (length pat).
Proof.
  intros Hm. unfold kmp_init. rewrite Z.ltb_irrefl, (u32_small (zlen pat * 4)) by (unfold is_u32; lia).
  destruct (alloc_ts_config _ _); cbn [negb]; [right | by left].
  destruct (compute_prefix_tbl_spec pat ltac:(lia) (replicate (Z.to_nat (zlen pat * 4 / 4)) 0)) as (tbl & E & Hok).
  - rewrite length_replicate, Z.div_mul by done. lia.
  - rewrite Z.div_mul by done. apply lookup_replicate_2. lia.
  - exists tbl. rewrite E, some_bind, Nat2Z.id, firstn_all. done.
Qed.

(** ** Searches through the core *)

Section client.
Context {C : Type} (conf : ts_config C) (pat T : list Z) (b : block_fn C) (ok : C -> Prop).
Context (f : priv (ops conf) -> block_fn C -> ts_state C -> option (Z * ts_state C)).
Context (Hpat : 0 < zlen pat) (Hfind : find (ops conf) = Some f) (Hb : get_next_block conf = Some b) (Hfin : finish conf = None).
Context (Hserves : Serves b T ok) (Hfinds : Finds (f (priv_data conf)) pat).

Lemma next_spec st : ok (cb st) -> 0 <= offset st <= zlen T ->
  exists r st', textsearch_next conf st = Some (r, st') /\ ok (cb st') /\ found pat T (offset st) r (offset st').
Proof.
  intros Hok Ho. destruct (finds b T ok Hserves st Hok Ho) as (r & st' & E & H).
  exists r, st'. unfold textsearch_next. by rewrite Hfind, Hb, !some_bind, E, some_bind, Hfin.
Qed.

Lemma found_range o r o' : found pat T o r o' -> 0 <= o <= zlen T -> 0 <= o' <= zlen T /\ (r = UINT_MAX \/ o < o' /\ r <> UINT_MAX).
Proof.
  pose proof (@serves_size _ b T ok Hserves) as HT. change UINT_MAX with (2 ^ 32 - 1). intros [[(Hle & Hocc & _) ->]|(_ & -> & ->)] Ho.
  - pose proof (occurs_end pat T r Hpat Hocc). split; [lia|]. right. lia.
  - split; [lia | by left].
Qed.

Lemma search_all_spec st : ok (cb st) -> exists l, search_all conf st = Some l /\ leftmost pat T 0 l.
Proof.
  intros Hok. pose proof (@serves_size _ b T ok Hserves) as HT.
  destruct (run_rule (fun s : ts_state C * list Z => ok (cb s.1) /\ 0 <= offset s.1 <= zlen T /\
       forall l, leftmost pat T (offset s.1) l -> leftmost pat T 0 (s.2 ++ l))
     (fun l => leftmost pat T 0 l) (fun s => zlen T - offset s.1) (next_step conf) 33 (mk_state 0 (cb st), []))
    as (l & E & Hl).
  - intros [s acc] (Hs & Ho & Hacc); cbn [fst snd] in *. unfold next_step. cbn [fst snd].
    destruct (next_spec s Hs Ho) as (r & st' & E & Hs' & Hf). rewrite E, some_bind.
    destruct (found_range _ _ _ Hf Ho) as [Ho' Hr]. eexists. split; [done|].
    destruct (Z.eqb_spec r UINT_MAX) as [Hu|Hu]; destruct Hr as [?|[Hlt ?]]; try done.
    + destruct Hf as [[(_ & Hocc & _) _]|(Hn & _)].
      * pose proof (occurs_end pat T r Hpat Hocc). change UINT_MAX with (2 ^ 32 - 1) in Hu. lia.
      * rewrite <-(app_nil_r acc). by apply Hacc, leftmost_none.
    + destruct Hf as [[Hf Eo]|(_ & ? & _)]; [|done]. cbn [fst snd]. split; [|lia]. split; [done|]. split; [done|].
      intros l Hl. rewrite <-app_assoc. apply Hacc. cbn. apply leftmost_cons; [done|]. by rewrite <-Eo.
  - cbn [fst snd cb offset]. split; [done|]. split; [lia|]. done.
  - cbn [fst snd offset]. change (2 ^ Z.of_nat 33) with (2 * 2 ^ 32). lia.
  - by exists l.
Qed.
End client.

Lemma first_named_name {C} n (l : list (ts_ops C)) o : first_named n l = Some o -> name o = Some n /\ o ∈ l.
Proof.
  induction l as [|o' l IH]; [done|]. cbn. unfold named. case_bool_decide as Hn.
  - intros [= <-]. split; [done | left].
  - intros H. split; [by apply IH | right; by apply IH].
Qed.

(** Taking and giving back a reference. *)
Lemma module_get_put m owner m' : try_module_get m owner = Some (m', true) -> module_put m' owner = Some m.
Proof.
  unfold try_module_get, module_put. destruct (owner =? 0); [by intros [= <-]|].
  destruct (m !! owner) as [[[|] ref]|] eqn:E; cbn; [|done..]. intros [= <-].
  rewrite lookup_insert_eq, some_bind, insert_insert_eq. f_equal.
  replace (ref + 1 - 1) with ref by lia. by apply insert_id.
Qed.

Lemma lookup_algo_cases {C} (s s' : tsearch C) n o : lookup_ts_algo s n = Some (s', o) -> algos s' = algos s /\
  match o with
  | Some o => first_named n (algos s) = Some o /\ module_put (modules s') (owner o) = Some (modules s)
  | None => s' = s
  end.
Proof.
  unfold lookup_ts_algo. destruct (first_named n (algos s)) as [o'|] eqn:E; [|by intros [= <- <-]].
  destruct (try_module_get (modules s) (owner o')) as [[m got]|] eqn:Eg; [|done]. rewrite some_bind.
  destruct got; intros [= <- <-]; cbn [algos modules]; (split; [done|]).
  - split; [done|]. by apply module_get_put.
  - unfold try_module_get in Eg. destruct (owner o' =? 0); [done|].
    destruct (modules s !! owner o') as [[[|] ?]|]; cbn in Eg; [done| |done]. injection Eg as <-. by destruct s.
Qed.

(** ** The theorems *)

(** C25. A search prepared with "kmp", run on linear data and continued finds exactly
    the occurrences of the pattern that do not overlap, from the left, whatever the
    pattern and the data: the first result is the first occurrence (UINT_MAX
    when there is none), and the results until UINT_MAX are all of them.  Without
    memory the preparation fails with -ENOMEM and keeps no reference. *)
Theorem kmp_search_correct kmalloc request_module s addr mod_ pat flags :
  0 < zlen pat < 2 ^ 30 -> first_named (text "kmp"%string) (algos s) = Some (kmp_ops ts_linear_state addr mod_) ->
  (exists m, try_module_get (modules s) mod_ = Some (m, true)) ->
  textsearch_prepare kmalloc request_module s (text "kmp"%string) pat (zlen pat) flags = Some (s, inl (- ENOMEM)) \/
  exists s' conf, textsearch_prepare kmalloc request_module s (text "kmp"%string) pat (zlen pat) flags = Some (s', inr conf) /\
    textsearch_get_pattern conf = Some pat /\ textsearch_destroy s' conf = Some s /\
    forall data len st, 0 <= len <= zlen data -> len < 2 ^ 32 -> exists conf' r st' l,
      textsearch_find_continuous conf st data len = Some (conf', r, st') /\
      found pat (take (Z.to_nat len) data) 0 r (offset st') /\
      search_all conf' st' = Some l /\ leftmost pat (take (Z.to_nat len) data) 0 l.
Proof.
  intros Hm Hreg [m Hget]. unfold textsearch_prepare, lookup_ts_algo. rewrite Hreg. cbn [owner kmp_ops].
  destruct (Z.eqb_spec (zlen pat) 0) as [Hz|_]; [lia|]. rewrite Hget, !some_bind. cbn [init kmp_ops]. rewrite some_bind.
  pose proof (module_get_put _ _ _ Hget) as Hput.
  destruct (kmp_init_spec kmalloc pat Hm) as [->|(tbl & -> & Htbl)]; rewrite some_bind.
  - left. cbn [owner kmp_ops modules]. rewrite Hput, some_bind. by destruct s.
  - right. eexists _, _. split; [done|]. split; [done|]. split.
    { unfold textsearch_destroy. cbn. rewrite Hput. by destruct s. }
    intros data len st Hlen Hlt. pose proof (linear_serves data len Hlen Hlt) as Hserves.
    pose proof (kmp_finds (C:=ts_linear_state) pat tbl ltac:(lia) Htbl) as Hfinds.
    set (conf := mk_config (kmp_ops ts_linear_state addr mod_) (mk_kmp pat (zlen pat) tbl) (Some get_linear_data) None).
    destruct (next_spec conf pat _ get_linear_data _ _ eq_refl eq_refl eq_refl Hserves Hfinds (mk_state 0 (mk_linear len data)))
      as (r & st' & E & Hok & Hf); [done | cbn; lia|].
    destruct (search_all_spec conf pat _ get_linear_data _ _ ltac:(lia) eq_refl eq_refl eq_refl Hserves Hfinds st' Hok)
      as (l & El & Hl).
    exists conf, r, st', l. split; [|done].
    unfold textsearch_find_continuous, textsearch_find. cbn [ops priv_data finish cb]. fold conf. by rewrite E.
Qed.

Definition sample_algos : tsearch ts_linear_state :=
  mk_tsearch [kmp_ops ts_linear_state 0x100 7] {[7 := (true, 0)]}.

Lemma kmp_search_correct_witness : exists s' conf conf' st',
  textsearch_prepare (fun _ => true) (fun _ s => s) sample_algos (text "kmp"%string) (text "chicken"%string) 7 1 = Some (s', inr conf) /\
  textsearch_find_continuous conf (mk_state 5 (mk_linear 0 [])) (text "We dance the funky chicken"%string) 26 = Some (conf', 19, st').
Proof.
  destruct (kmp_search_correct (fun _ => true) (fun _ s => s) sample_algos 0x100 7 (text "chicken"%string) 1)
    as [H|(s' & conf & E & _ & _ & H)]; [done | done | eexists; vm_compute; reflexivity | discriminate H |].
  exists s', conf. destruct (H (text "We dance the funky chicken"%string) 26 (mk_state 5 (mk_linear 0 []))) as (conf' & r & st' & l & Ef & _); [done..|].
  refine (ex_intro _ conf' (ex_intro _ st' (conj E _))). rewrite Ef. do 3 f_equal.
  assert (Hr : ('(_, o) ← textsearch_prepare (fun _ => true) (fun _ s => s) sample_algos (text "kmp"%string) (text "chicken"%string) 7 1;
    match o with
    | inl _ => None
    | inr conf => '(_, r, _) ← textsearch_find_continuous conf (mk_state 5 (mk_linear 0 [])) (text "We dance the funky chicken"%string) 26; Some r
    end) = Some 19) by (vm_compute; reflexivity).
  change 7 with (zlen (text "chicken"%string)) in Hr. rewrite E, some_bind in Hr. cbn beta iota in Hr.
  rewrite Ef, some_bind in Hr. injection Hr as ->. reflexivity.
Defined.

(** A failed preparation leaves the modules and the list of algorithms as they
    were, and textsearch_destroy gives back what a successful one took (when no
    module is loaded on demand and the algorithm has no callback of its own). *)
Theorem prepare_destroy {C} kmalloc request_module (s s' : tsearch C) algo pat len flags r : Z.land flags 1 = 0 ->
  textsearch_prepare kmalloc request_module s algo pat len flags = Some (s', r) ->
  match r with
  | inl err => s' = s
  | inr conf => first_named algo (algos s) = Some (ops conf) /\
      (destroy (ops conf) = None -> textsearch_destroy s' conf = Some s)
  end.
Proof.
  intros Hfl. unfold textsearch_prepare. destruct (len =? 0); [by intros [= <- <-]|].
  destruct (lookup_ts_algo s algo) as [[s1 o]|] eqn:El; [|done]. apply lookup_algo_cases in El as [Hal Ho].
  rewrite some_bind, Hfl. cbn [Z.eqb negb]. destruct o as [o|]; rewrite some_bind; [|by intros [= <- <-]].
  destruct Ho as [Hn Hput]. destruct (init o) as [f|]; [|done]. rewrite some_bind.
  destruct (f kmalloc pat len) as [[err|p]|]; [| |done]; rewrite some_bind.
  - rewrite Hput, some_bind, Hal. intros [= <- <-]. by destruct s.
  - intros [= <- <-]. split; [done|]. intros Hd. unfold textsearch_destroy. cbn [ops priv_data] in *.
    rewrite Hd, Hput, some_bind, Hal. by destruct s.
Qed.

Lemma prepare_destroy_witness : exists s' conf,
  textsearch_prepare (fun _ => true) (fun _ s => s) sample_algos (text "kmp"%string) [1; 2; 1] 3 0 = Some (s', inr conf) /\
  modules s' <> modules sample_algos /\ textsearch_destroy s' conf = Some sample_algos.
Proof.
  destruct (textsearch_prepare (fun _ => true) (fun _ s => s) sample_algos (text "kmp"%string) [1; 2; 1] 3 0) as [[s' o]|] eqn:E.
  - assert (Hr : option_map (fun p => (modules p.1, match p.2 with inl _ => true | inr _ => false end))
      (textsearch_prepare (fun _ => true) (fun _ s => s) sample_algos (text "kmp"%string) [1; 2; 1] 3 0)
      = Some ({[7 := (true, 1)]}, false)) by (vm_compute; reflexivity).
    rewrite E in Hr. cbn [option_map fst snd] in Hr. injection Hr as Hm Ho. destruct o as [|conf]; [done|].
    exists s', conf. split; [done|]. rewrite Hm.
    pose proof (prepare_destroy (fun _ => true) (fun _ s => s) sample_algos s' (text "kmp"%string) [1; 2; 1] 3 0 (inr conf) eq_refl E) as [Hn H].
    split; [intros H1%(f_equal (fun m => m !! 7)); discriminate H1|]. apply H. injection Hn as <-. reflexivity.
  - apply (f_equal (fun o => match o with Some _ => true | None => false end)) in E. vm_compute in E. discriminate E.
Defined.

(** Algorithms are found by their names, which stay distinct. *)
Theorem register_keeps_names {C} (s s' : tsearch C) (o : ts_ops C) err : NoDup (name <$> algos s) ->
  textsearch_register s o = (s', err) -> NoDup (name <$> algos s') /\
  (err = 0 -> exists n, name o = Some n /\ first_named n (algos s') = Some o) /\ (err <> 0 -> s' = s).
Proof.
  intros Hnd. unfold textsearch_register.
  destruct (name o) as [n|] eqn:En, (find o), (init o), (get_pattern o), (get_pattern_len o); try (by intros [= <- <-]).
  destruct (first_named n (algos s)) eqn:E; intros [= <- <-]; [done|]. split; [|split]; [| |done]; cbn [algos].
  - rewrite fmap_app. apply NoDup_app. split; [done|]. split; [|apply NoDup_singleton].
    intros x (o' & -> & Ho')%list_elem_of_fmap Hx. apply list_elem_of_singleton in Hx. rewrite En in Hx.
    revert E. clear -Hx Ho'. induction (algos s) as [|o2 al IH]; [by apply elem_of_nil in Ho'|].
    cbn. unfold named. case_bool_decide as Hb; [done|]. apply elem_of_cons in Ho' as [->|Ho']; [done | by apply IH].
  - intros _. exists n. split; [done|]. revert E. clear -En. induction (algos s) as [|o2 al IH]; cbn; unfold named; rewrite ?bool_decide_true by done; [done|].
    case_bool_decide; [done | exact IH].
Qed.
