(* ===== verification/BoyerMoore.v ===== *)
(** * lib/ts_bm.c: Boyer-Moore text search

    The matcher compares from the right end of the pattern and moves by the larger
    of two tables.  Within a block it finds the first occurrence from the second
    byte on; an occurrence at the first byte of the text is missed, since the search
    starts with the end of the pattern at offset [patlen].  It leaves the offset of
    the search alone, so textsearch_next gives the same answer again. *)

From Stdlib Require Import String.
From S2P Require Import Prelude TextSearch.

(** ** Data *)

Definition ASIZE : Z := 256.
Record ts_bm := mk_bm { pattern : list Z; patlen : Z; bad_shift : list Z; good_shift : list Z }.

(** ** The matcher *)

(** The comparison at [shift]: the [i] of the first mismatch, [patlen] for a match. *)
Fixpoint compare_at (fuel : nat) (bm : ts_bm) (text : list Z) (shift i : Z) : option Z :=
  match fuel with
  | O => None
  | S fuel =>
    if negb (i <? patlen bm) then Some i else
    t ← rd text (shift - i);
    p ← rd (pattern bm) (patlen bm - 1 - i);
    if negb (t =? p) then Some i else compare_at fuel bm text shift (i + 1)
  end.

(** while (shift < text_len): the position of a match, or [shift] after the block.
    The comparison is unsigned. *)
Definition shift_step (bm : ts_bm) (text : list Z) (shift : Z) : option (Z + (Z + Z)) :=
  if negb (u32 shift <? zlen text) then Some (inr (inl shift)) else
  i ← compare_at (S (Z.to_nat (patlen bm))) bm text shift 0;
  if i =? patlen bm then Some (inr (inr (shift - (patlen bm - 1)))) else
  c ← rd text (shift - i);
  bs ← rd (bad_shift bm) c;
  g ← rd (good_shift bm) i;
  Some (inl (Z.max (s32 (shift - i + bs)) (s32 (shift + g)))).

Definition block_step {C} (bm : ts_bm) (get_next_block : block_fn C) (off : Z) (st : Z * Z * C) :
    option (Z * Z * C + Z * ts_state C) :=
  let '(consumed, shift, c) := st in
  let '(text, c) := get_next_block consumed c in
  if zlen text =? 0 then Some (inr (UINT_MAX, mk_state off c)) else
  r ← run 32 (shift_step bm text) shift;
  Some (match r with
        | inl shift => inl (u32 (consumed + zlen text), shift, c)
        | inr p => inr (u32 (consumed + p), mk_state off c)
        end).
Definition bm_find {C} (bm : ts_bm) (get_next_block : block_fn C) (state : ts_state C) : option (Z * ts_state C) :=
  run 33 (block_step bm get_next_block (offset state)) (offset state, s32 (patlen bm), cb state).

(** ** The tables *)

(** The state: [x], [y] and [g]. *)
Fixpoint subpattern_loop (fuel : nat) (pat : list Z) (i j x y g : Z) : option bool :=
  match fuel with
  | O => None
  | S fuel =>
    a ← rd pat x;
    b ← rd pat y;
    let '(x, y) := (x - 1, y - 1) in
    if negb (a =? b) then Some false
    else if y <? 0 then Some true
    else if g - 1 =? 0 then a ← rd pat (i - 1); b ← rd pat (j - 1); Some (negb (a =? b))
    else subpattern_loop fuel pat i j x y (g - 1)
  end.
Definition subpattern (pat : list Z) (i j g : Z) : option bool :=
  subpattern_loop (S (Z.to_nat g)) pat i j (i + g - 1) (j + g - 1) g.

(** for (i = 0; i < patlen - 1; i++), in unsigned arithmetic *)
Definition bad_step (pat : list Z) (len : Z) (st : Z * list Z) : option (Z * list Z + list Z) :=
  let '(i, bad) := st in
  if negb (i <? u32 (len - 1)) then Some (inr bad) else
  c ← rd pat i;
  bad ← wr bad c (u32 (len - 1 - i));
  Some (inl (i + 1, bad)).

(** The loop over [j] downwards, and the one over [i] and [g]. *)
Definition good_j_step (pat : list Z) (len i g : Z) (st : Z * list Z) : option (Z * list Z + list Z) :=
  let '(j, good) := st in
  if negb (1 - g <=? j) then Some (inr good) else
  s ← subpattern pat i j g;
  if (s : bool) then good ← wr good g (u32 (len - j - g)); Some (inr good) else Some (inl (j - 1, good)).
Definition good_step (pat : list Z) (len : Z) (st : Z * Z * list Z) : option (Z * Z * list Z + list Z) :=
  let '(i, g, good) := st in
  if negb (0 <? i) then Some (inr good) else
  good ← run 32 (good_j_step pat len i g) (i - 1, good);
  Some (inl (i - 1, g + 1, good)).

(** The two tables of the allocated configuration. *)
Definition compute_prefix_tbl (pat : list Z) (len : Z) (bad good : list Z) : option (list Z * list Z) :=
  let bad := replicate (length bad) len in
  bad ← run 32 (bad_step pat len) (0, bad);
  good ← wr good 0 1;
  let good := take 1 good ++ replicate (length good - 1) len in
  good ← run 32 (good_step pat len) (s32 (len - 1), 1, good);
  Some (bad, good).

Definition bm_init (kmalloc : Z -> bool) (pat : list Z) (len : Z) : option (Z + ts_bm) :=
  let prefix_tbl_len := u32 (len * 4) in
  let priv_size := u32 (8 + ASIZE * 4 + len + prefix_tbl_len) in
  if negb (alloc_ts_config kmalloc priv_size) then Some (inl (- ENOMEM)) else
  if zlen pat <? len then None else
  let pat := take (Z.to_nat len) pat in
  '(bad, good) ← compute_prefix_tbl pat len (replicate (Z.to_nat ASIZE) 0) (replicate (Z.to_nat (prefix_tbl_len / 4)) 0);
  Some (inr (mk_bm pat len bad good)).
Definition bm_get_pattern (bm : ts_bm) : list Z := pattern bm.
Definition bm_get_pattern_len (bm : ts_bm) : Z := patlen bm.
Definition bm_ops (C : Type) (addr : Z) (mod_ : Z) : ts_ops C :=
  mk_ops C addr (Some (text "bm"%string)) ts_bm (Some bm_init) (Some (@bm_find C)) None
    (Some bm_get_pattern) (Some bm_get_pattern_len) mod_.

(** ** What the tables hold *)

Section bm.
Context (pat : list Z) (Hm : 0 < zlen pat < 2 ^ 30) (Hpat : Forall is_u8 pat).
Abbreviation m := (zlen pat).

(** The pattern ends at [s] in the text. *)
Definition ends (t : list Z) (s : Z) : Prop := forall k, 0 <= k < m -> rd t (s - k) = rd pat (m - 1 - k).

(** [g] bytes at the end match the pattern moved by [d], and the next one does not. *)
Record shifted (g d : Z) : Prop := mk_shifted {
  shifted_same k : 0 <= k < g -> 0 <= m - 1 - k - d -> rd pat (m - 1 - k - d) = rd pat (m - 1 - k);
  shifted_other : 0 <= m - 1 - g - d -> rd pat (m - 1 - g - d) <> rd pat (m - 1 - g) }.

(** A byte of the text at distance [k] from the end allows moves by no less. *)
Definition bad_ok (n : Z) (bad : list Z) : Prop := zlen bad = ASIZE /\
  forall c, is_u8 c -> exists b, rd bad c = Some b /\ 1 <= b <= m /\ forall p, 0 <= p < n -> rd pat p = Some c -> b <= m - 1 - p.
Definition good_ok (g : Z) (v : Z) : Prop := 1 <= v <= m /\ forall d, 1 <= d < v -> ~ shifted g d.
Definition goods_ok (good : list Z) : Prop := rd good 0 = Some 1 /\
  forall g, 1 <= g < m -> exists v, rd good g = Some v /\ good_ok g v.

Lemma pat_byte p c : rd pat p = Some c -> is_u8 c.
Proof. intros H. apply rd_Some in H as [_ H]. by eapply Forall_lookup_1 in H. Qed.

Lemma subpattern_loop_spec d g fuel : forall t, 1 <= d -> 1 <= g < m -> 0 <= t < g -> 0 <= m - 1 - t - d ->
  (Z.to_nat (g - t) < fuel)%nat ->
  exists b, subpattern_loop fuel pat (m - g) (m - g - d) (m - 1 - t) (m - 1 - t - d) (g - t) = Some b /\
    (shifted g d -> b = true).
Proof.
  induction fuel as [|fuel IH]; [lia|]. intros t Hd Hg Ht Hy Hf. cbn [subpattern_loop].
  destruct (rd_is_Some pat (m - 1 - t)) as [a Ha]; [lia|]. destruct (rd_is_Some pat (m - 1 - t - d)) as [b Hb]; [lia|].
  rewrite Ha, Hb, !some_bind. destruct (Z.eqb_spec a b) as [->|Hne]; cbn [negb].
  - destruct (Z.ltb_spec (m - 1 - t - d - 1) 0); [by eexists|].
    destruct (Z.eqb_spec (g - t - 1) 0) as [Hz|Hz].
    + destruct (rd_is_Some pat (m - g - 1)) as [a2 Ha2]; [lia|]. destruct (rd_is_Some pat (m - g - d - 1)) as [b2 Hb2]; [lia|].
      rewrite Ha2, Hb2, !some_bind. eexists. split; [done|]. intros [_ H2].
      replace (m - 1 - g - d) with (m - g - d - 1) in H2 by lia. replace (m - 1 - g) with (m - g - 1) in H2 by lia.
      rewrite Ha2, Hb2 in H2. destruct (Z.eqb_spec a2 b2) as [->|]; [|done]. exfalso. apply H2; [lia | done].
    + replace (m - 1 - t - 1) with (m - 1 - (t + 1)) by lia. replace (m - 1 - t - d - 1) with (m - 1 - (t + 1) - d) by lia.
      replace (g - t - 1) with (g - (t + 1)) by lia. apply IH; lia.
  - eexists. split; [done|]. intros [H1 _]. specialize (H1 t Ht Hy). congruence.
Qed.

Lemma subpattern_spec d g : 1 <= d < m -> 1 <= g < m -> exists b, subpattern pat (m - g) (m - g - d) g = Some b /\
  (shifted g d -> b = true).
Proof.
  intros Hd Hg. unfold subpattern.
  destruct (subpattern_loop_spec d g (S (Z.to_nat g)) 0) as (b & E & H); [lia..|]. exists b. split; [|done].
  rewrite <-E. f_equal; lia.
Qed.

(** One entry of the table. *)
Lemma good_entry good g : 1 <= g < m -> zlen good = m -> rd good g = Some m ->
  exists good' v, run 32 (good_j_step pat m (m - g) g) (m - g - 1, good) = Some good' /\
    wr good g v = Some good' /\ good_ok g v.
Proof.
  intros Hg Hlen Hold.
  destruct (run_rule (fun st : Z * list Z => exists d, st = (m - g - d, good) /\ 1 <= d <= m /\ forall d', 1 <= d' < d -> ~ shifted g d')
    (fun r => exists v, wr good g v = Some r /\ good_ok g v) (fun st => st.1 + g) (good_j_step pat m (m - g) g) 32 (m - g - 1, good))
    as (r & E & v & Hv).
  - intros ? (d & -> & Hd & Hno). unfold good_j_step.
    destruct (Z.leb_spec (1 - g) (m - g - d)) as [Hle|Hgt]; cbn [negb].
    + destruct (subpattern_spec d g) as (b & E & Hb); [lia | done |]. rewrite E, some_bind. destruct b.
      * rewrite wr_Some, some_bind by lia. eexists. split; [done|]. cbn. exists d.
        replace (u32 (m - (m - g - d) - g)) with d by (rewrite u32_small by (unfold is_u32; lia); lia).
        rewrite wr_Some by lia. split; [done|]. by split; [lia|].
      * eexists. split; [done|]. cbn [fst]. split; [|lia]. exists (d + 1). split; [f_equal; lia|]. split; [lia|].
        intros d' Hd'. destruct (decide (d' = d)) as [->|]; [by intros ?%Hb | apply Hno; lia].
    + eexists. split; [done|]. exists m. split; [|split; [lia|]; intros d' Hd'; apply Hno; lia].
      rewrite wr_Some by lia. f_equal. apply rd_Some in Hold as [_ Hold]. by apply list_insert_id.
  - exists 1. split; [f_equal; lia|]. split; [lia|]. lia.
  - cbn [fst]. change (2 ^ Z.of_nat 32) with (4 * 2 ^ 30). lia.
  - exists r, v. split; [exact E | done].
Qed.

Lemma good_table good : zlen good = m -> rd good 0 = Some 1 -> (forall g, 1 <= g < m -> rd good g = Some m) ->
  exists good', run 32 (good_step pat m) (m - 1, 1, good) = Some good' /\ goods_ok good'.
Proof.
  intros Hlen H0 Hinit.
  destruct (run_rule (fun st : Z * Z * list Z => exists g, st.1 = (m - g, g) /\ 1 <= g <= m /\ zlen st.2 = m /\ rd st.2 0 = Some 1 /\
      (forall h, 1 <= h < g -> exists v, rd st.2 h = Some v /\ good_ok h v) /\ (forall h, g <= h < m -> rd st.2 h = Some m))
    goods_ok (fun st => st.1.1) (good_step pat m) 32 (m - 1, 1, good)) as (r & E & Hr).
  - intros [[? ?] gd] (g & [= -> ->] & Hg & Hl & H1 & Hdone & Hrest); cbn [fst snd] in *. unfold good_step.
    destruct (Z.ltb_spec 0 (m - g)) as [Hlt|Hge]; cbn [negb].
    2: { eexists. split; [done|]. split; [done|]. intros h Hh. apply Hdone. lia. }
    destruct (good_entry gd g) as (gd' & v & E & Hw & Hv); [lia | done | apply Hrest; lia |].
    rewrite E, some_bind. eexists. split; [done|]. cbn [fst snd]. split; [|lia]. exists (g + 1).
    split; [f_equal; lia|]. split; [lia|]. split; [by rewrite (wr_length _ _ _ _ Hw)|]. split; [|split].
    + rewrite (rd_wr_ne _ _ g 0 v) by (done || lia). done.
    + intros h Hh. destruct (decide (h = g)) as [->|Hne].
      * exists v. split; [by apply rd_wr_eq in Hw | done].
      * rewrite (rd_wr_ne _ _ g h v) by (done || lia). apply Hdone. lia.
    + intros h Hh. rewrite (rd_wr_ne _ _ g h v) by (done || lia). apply Hrest. lia.
  - exists 1. cbn [fst snd]. split; [done|]. split; [lia|]. split; [done|]. split; [done|]. split; [lia | done].
  - cbn [fst]. change (2 ^ Z.of_nat 32) with (4 * 2 ^ 30). lia.
  - exists r. split; [exact E | done].
Qed.

Lemma bad_table : exists bad, run 32 (bad_step pat m) (0, replicate (Z.to_nat ASIZE) m) = Some bad /\ bad_ok (m - 1) bad.
Proof.
  destruct (run_rule (fun st : Z * list Z => 0 <= st.1 <= m - 1 /\ bad_ok st.1 st.2) (bad_ok (m - 1))
    (fun st => m - st.1) (bad_step pat m) 32 (0, replicate (Z.to_nat ASIZE) m)) as (r & E & Hr).
  - intros [i bad] [Hi Hbad]; cbn [fst snd] in *. unfold bad_step. rewrite (u32_small (m - 1)) by (unfold is_u32; lia).
    destruct (Z.ltb_spec i (m - 1)) as [Hlt|Hge]; cbn [negb].
    2: { eexists. split; [done|]. cbn. by replace (m - 1) with i by lia. }
    destruct (rd_is_Some pat i) as [c Hc]; [lia|]. pose proof (pat_byte _ _ Hc) as Hu. rewrite Hc, some_bind.
    destruct Hbad as [Hl Hb]. unfold is_u8, ASIZE in *.
    destruct (wr bad c (u32 (m - 1 - i))) as [bad'|] eqn:Hw; [|rewrite wr_Some in Hw by lia; discriminate Hw].
    rewrite some_bind. eexists. split; [done|]. cbn [fst snd]. split; [|lia]. split; [lia|].
    rewrite u32_small in Hw by (unfold is_u32; lia). split; [by rewrite (wr_length _ _ _ _ Hw)|].
    intros x Hx. destruct (decide (x = c)) as [->|Hne].
    + exists (m - 1 - i). split; [by apply rd_wr_eq in Hw|]. split; [lia|]. intros p Hp _. lia.
    + destruct (Hb x Hx) as (b & Hrb & Hbr & Hbp). exists b. rewrite (rd_wr_ne _ _ c x _ (not_eq_sym Hne) Hw).
      split; [done|]. split; [done|]. intros p Hp Hpx. apply Hbp; [|done].
      destruct (decide (p = i)) as [->|]; [congruence | lia].
  - cbn [fst snd]. split; [lia|]. split; [done|]. intros c Hc. exists m.
    split; [|split; [lia|]; lia]. unfold rd, is_u8 in *. destruct (Z.ltb_spec c 0); [lia|]. apply lookup_replicate_2. unfold ASIZE. lia.
  - cbn [fst]. change (2 ^ Z.of_nat 32) with (4 * 2 ^ 30). lia.
  - exists r. split; [exact E | done].
Qed.

Record prepared (bm : ts_bm) : Prop := mk_prepared {
  prepared_pattern : pattern bm = pat;
  prepared_len : patlen bm = m;
  prepared_bad : bad_ok (m - 1) (bad_shift bm);
  prepared_good : goods_ok (good_shift bm) }.

Lemma bm_init_spec kmalloc : bm_init kmalloc pat m = Some (inl (- ENOMEM)) \/
  exists bm, bm_init kmalloc pat m = Some (inr bm) /\ prepared bm.
Proof.
  unfold bm_init. rewrite Z.ltb_irrefl, (u32_small (m * 4)) by (unfold is_u32; lia).
  destruct (alloc_ts_config _ _); cbn [negb]; [right | by left].
  rewrite Z.div_mul, !Nat2Z.id, firstn_all by done. unfold compute_prefix_tbl.
  rewrite length_replicate. destruct bad_table as (bad & -> & Hbad). rewrite some_bind, wr_Some, some_bind by (rewrite length_replicate; lia).
  rewrite s32_small by lia. assert (exists n, length pat = S n) as [n El] by (exists (length pat - 1)%nat; lia).
  assert (Hrep : replicate (length pat) 0 = 0 :: replicate n 0) by (by rewrite El). rewrite Hrep.
  change (<[Z.to_nat 0:=1]> (0 :: replicate n 0)) with (1 :: replicate n 0). change (take 1 (1 :: replicate n 0)) with [1].
  replace (Nat.sub (length (1 :: replicate n 0)) 1) with n by (cbn [length]; rewrite length_replicate; lia). cbn [app].
  destruct (good_table (1 :: replicate n m)) as (good & E & Hgood).
  - cbn [length]. rewrite length_replicate. lia.
  - done.
  - intros g Hg. unfold rd. destruct (Z.ltb_spec g 0); [lia|]. replace (Z.to_nat g) with (S (Z.to_nat (g - 1))) by lia.
    cbn. apply lookup_replicate_2. lia.
  - rewrite E, some_bind. eexists. split; [done|]. by split.
Qed.
End bm.

(** ** The matcher *)

Section search.
Context (pat : list Z) (Hm : 0 < zlen pat < 2 ^ 30) (Hpat : Forall is_u8 pat).
Context (bm : ts_bm) (Hbm : prepared pat bm).
Abbreviation m := (zlen pat).

Lemma compare_at_spec t s fuel : m - 1 <= s < zlen t -> forall i, 0 <= i <= m -> (Z.to_nat (m - i) < fuel)%nat ->
  (forall k, 0 <= k < i -> rd t (s - k) = rd pat (m - 1 - k)) ->
  exists i', compare_at fuel bm t s i = Some i' /\ 0 <= i' <= m /\
    (forall k, 0 <= k < i' -> rd t (s - k) = rd pat (m - 1 - k)) /\
    (i' < m -> rd t (s - i') <> rd pat (m - 1 - i')).
Proof.
  destruct Hbm as [Hp Hl _ _]. intros Hs. induction fuel as [|fuel IH]; [lia|]. intros i Hi Hf Hsame. cbn [compare_at]. rewrite Hl, Hp.
  destruct (Z.ltb_spec i m) as [Hlt|Hge]; cbn [negb]; [|exists i; split; [done|]; split; [done|]; split; [done | lia]].
  destruct (rd_is_Some t (s - i)) as [a Ha]; [lia|]. destruct (rd_is_Some pat (m - 1 - i)) as [b Hb]; [lia|].
  rewrite Ha, Hb, !some_bind. destruct (Z.eqb_spec a b) as [->|Hne]; cbn [negb].
  - apply IH; [lia | lia |]. intros k Hk. destruct (decide (k = i)) as [->|]; [congruence | apply Hsame; lia].
  - exists i. split; [done|]. split; [done|]. split; [done|]. congruence.
Qed.

(** No occurrence ends between [s] and the place moved to. *)
Lemma move_ok t s i b g s' : m - 1 <= s -> 0 <= i < m ->
  (forall k, 0 <= k < i -> rd t (s - k) = rd pat (m - 1 - k)) -> rd t (s - i) <> rd pat (m - 1 - i) ->
  (forall c p, rd t (s - i) = Some c -> 0 <= p < m - 1 -> rd pat p = Some c -> b <= m - 1 - p) -> b <= m ->
  (i = 0 -> g = 1) -> (1 <= i -> good_ok pat i g) -> s < s' -> s' < zlen t ->
  s' < s - i + b \/ s' < s + g -> ~ ends pat t s'.
Proof.
  intros Hs Hi Hsame Hother Hb Hbm' H0 Hg Hlt Ht [Hlt'|Hlt'] He.
  - destruct (rd_is_Some t (s - i)) as [c Hc]; [lia|].
    pose proof (He (s' - (s - i)) ltac:(lia)) as He'. replace (s' - (s' - (s - i))) with (s - i) in He' by lia.
    rewrite Hc in He'. specialize (Hb c (m - 1 - (s' - (s - i))) Hc ltac:(lia) (eq_sym He')). lia.
  - destruct (decide (i = 0)) as [->|Hne]; [specialize (H0 eq_refl); lia|]. destruct (Hg ltac:(lia)) as [Hv Hno].
    apply (Hno (s' - s) ltac:(lia)). split.
    + intros k Hk Hpos.
      specialize (He (k + (s' - s)) ltac:(lia)). replace (s' - (k + (s' - s))) with (s - k) in He by lia.
      rewrite <-(Hsame k Hk), He. f_equal. lia.
    + intros Hpos. specialize (He (i + (s' - s)) ltac:(lia)). replace (s' - (i + (s' - s))) with (s - i) in He by lia.
      replace (m - 1 - i - (s' - s)) with (m - 1 - (i + (s' - s))) by lia. by rewrite <-He.
Qed.

(** A block, from [s0] on. *)
Lemma block_spec t s0 : Forall is_u8 t -> zlen t < 2 ^ 30 -> m - 1 <= s0 < 2 ^ 31 ->
  exists r, run 32 (shift_step bm t) s0 = Some r /\
    match r with
    | inl s => zlen t <= s /\ s0 <= s /\ (s <= Z.max s0 (zlen t + m)) /\ forall s', s0 <= s' < zlen t -> ~ ends pat t s'
    | inr p => s0 <= p + (m - 1) < zlen t /\ ends pat t (p + (m - 1)) /\ forall s', s0 <= s' < p + (m - 1) -> ~ ends pat t s'
    end.
Proof.
  intros Ht Hlen Hs0. destruct (run_rule
    (fun s => s0 <= s <= Z.max s0 (zlen t + m) /\ forall s', s0 <= s' < s -> s' < zlen t -> ~ ends pat t s')
    (fun r => match r with
    | inl s => zlen t <= s /\ s0 <= s /\ (s <= Z.max s0 (zlen t + m)) /\ forall s', s0 <= s' < zlen t -> ~ ends pat t s'
    | inr p => s0 <= p + (m - 1) < zlen t /\ ends pat t (p + (m - 1)) /\ forall s', s0 <= s' < p + (m - 1) -> ~ ends pat t s'
    end) (fun s => 2 ^ 31 - s) (shift_step bm t) 32 s0) as (r & E & Hr).
  - intros s [Hs Hno]. unfold shift_step. rewrite (u32_small s) by (unfold is_u32; lia).
    destruct (Z.ltb_spec s (zlen t)) as [Hlt|Hge]; cbn [negb].
    2: { eexists. split; [done|]. cbn. split; [done|]. split; [lia|]. split; [lia|]. intros s' Hs'. apply Hno; lia. }
    destruct (compare_at_spec t s (S (Z.to_nat m)) ltac:(lia) 0) as (i & E & Hi & Hsame & Hother); [lia | lia | lia |].
    rewrite (prepared_len _ _ Hbm), E, some_bind. destruct (Z.eqb_spec i m) as [->|Hne].
    + eexists. split; [done|]. cbn. replace (s - (m - 1) + (m - 1)) with s by lia. split; [lia|]. split; [done|].
      intros s' Hs'. apply Hno; lia.
    + destruct (rd_is_Some t (s - i)) as [c Hc]; [lia|].
      assert (Hu : is_u8 c) by (apply rd_Some in Hc as [_ Hc]; by eapply Forall_lookup_1 in Hc).
      destruct (prepared_bad _ _ Hbm) as [_ Hbad]. destruct (Hbad c Hu) as (b & Hb & Hbr & Hbp).
      destruct (prepared_good _ _ Hbm) as [Hg0 Hgs].
      assert (exists g, rd (good_shift bm) i = Some g /\ 1 <= g <= m /\ (i = 0 -> g = 1) /\ (1 <= i -> good_ok pat i g))
        as (g & Hg & Hgr & Hgi & Hgok).
      { destruct (decide (i = 0)) as [->|Hi0]; [exists 1; by split_and!; try lia|].
        destruct (Hgs i ltac:(lia)) as (v & Hv & Hok). exists v. split_and!; [done | apply Hok | apply Hok | done | done]. }
      rewrite Hc, some_bind, Hb, some_bind, Hg, some_bind. rewrite !s32_small by lia.
      eexists. split; [done|]. cbn beta iota. split; [|lia]. split; [lia|]. intros s' Hs' Hs't.
      destruct (Z.le_gt_cases s s') as [Hge|]; [|apply Hno; lia]. destruct (decide (s' = s)) as [->|Hss].
      * intros He. apply Hother; [lia|]. apply He. lia.
      * apply (move_ok t s i b g); [lia | lia | done | apply Hother; lia | | lia | done | done | lia | done | lia].
        intros x p Hx Hp Hpx. rewrite Hc in Hx. injection Hx as <-. by apply Hbp.
  - split; [lia|]. intros. lia.
  - change (2 ^ Z.of_nat 32) with (2 * 2 ^ 31). lia.
  - exists r. split; [exact E | done].
Qed.

Lemma ends_occurs t s : m - 1 <= s < zlen t -> ends pat t s <-> occurs pat t (s - (m - 1)).
Proof.
  intros Hs. unfold ends, occurs. split.
  - intros He. split; [lia|]. apply list_eq. intros i. unfold slice. destruct (decide (i < length pat)%nat) as [Hi|Hi].
    + rewrite lookup_take_lt, lookup_drop by lia. specialize (He (m - 1 - Z.of_nat i) ltac:(lia)).
      replace (s - (m - 1 - Z.of_nat i)) with (Z.of_nat (Z.to_nat (s - (m - 1)) + i)) in He by lia.
      replace (m - 1 - (m - 1 - Z.of_nat i)) with (Z.of_nat i) in He by lia. by rewrite !rd_nat in He.
    + rewrite lookup_take_ge, lookup_ge_None_2 by lia. done.
  - intros [_ Hs'] k Hk. transitivity (rd (slice (s - (m - 1)) m t) (m - 1 - k)); [|by rewrite Hs']. unfold slice, rd.
    destruct (Z.ltb_spec (s - k) 0); [lia|]. destruct (Z.ltb_spec (m - 1 - k) 0); [lia|].
    rewrite lookup_take_lt, lookup_drop by lia. f_equal. lia.
Qed.
End search.

(** ** The theorems *)

(** C26. A search with "bm" in linear data answers with the first occurrence that
    starts after the offset of the search, UINT_MAX when there is none; it never
    sees an occurrence at the offset itself, and it leaves the offset as it was.
    No table access is out of bounds and the search ends. *)
Theorem bm_find_linear kmalloc pat data len off : 0 < zlen pat < 2 ^ 30 -> Forall is_u8 pat -> Forall is_u8 data ->
  0 <= len <= zlen data -> len < 2 ^ 30 -> 0 <= off <= len ->
  bm_init kmalloc pat (zlen pat) = Some (inl (- ENOMEM)) \/
  exists bm r, bm_init kmalloc pat (zlen pat) = Some (inr bm) /\
    bm_find bm get_linear_data (mk_state off (mk_linear len data)) = Some (r, mk_state off (mk_linear len data)) /\
    (first_at pat (take (Z.to_nat len) data) (off + 1) r \/
     r = UINT_MAX /\ forall p, off + 1 <= p -> ~ occurs pat (take (Z.to_nat len) data) p).
Proof.
  intros Hm Hpat Hdata Hlen Hlt Hoff. destruct (bm_init_spec pat Hm Hpat kmalloc) as [?|(bm & E & Hbm)]; [by left | right].
  exists bm. set (T := take (Z.to_nat len) data). assert (HT : zlen T = len) by (unfold T; rewrite length_take; lia).
  set (t := slice off (len - off) data).
  assert (Ht : t = drop (Z.to_nat off) T) by (unfold t, T, slice; rewrite skipn_firstn_comm; f_equal; lia).
  assert (Htl : zlen t = len - off) by (rewrite Ht, length_drop; lia).
  assert (Htu : Forall is_u8 t) by (by apply Forall_take, Forall_drop).
  assert (Hocc : forall p, off <= p -> occurs pat T p -> p + zlen pat <= len /\ ends pat t (p - off + (zlen pat - 1))).
  { intros p Hp Hocc. pose proof (occurs_end pat T p ltac:(lia) Hocc). split; [lia|]. apply (ends_occurs pat Hm); [lia|].
    rewrite Ht. apply occurs_drop; [lia | lia |]. by replace (off + (p - off + (zlen pat - 1) - (zlen pat - 1))) with p by lia. }
  destruct (run_rule (fun st : Z * Z * ts_linear_state => st.2 = mk_linear len data /\
      (st.1 = (off, zlen pat) \/ st.1.1 = len /\ forall p, off + 1 <= p -> ~ occurs pat T p))
    (fun r => r.2 = mk_state off (mk_linear len data) /\
      (first_at pat T (off + 1) r.1 \/ r.1 = UINT_MAX /\ forall p, off + 1 <= p -> ~ occurs pat T p))
    (fun st => len - st.1.1) (block_step bm get_linear_data off) 33 (off, zlen pat, mk_linear len data)) as ([r st'] & Er & H).
  - intros [[cons s] c] [Hc Hst]; cbn [fst snd] in *. subst c. unfold block_step, get_linear_data. cbn [TextSearch.len TextSearch.data].
    destruct (Z.ltb_spec cons len) as [Hlt'|Hge].
    + destruct Hst as [[= -> ->]|[-> _]]; [|lia]. fold t. destruct (Z.eqb_spec (zlen t) 0) as [Hz|_]; [lia|].
      destruct (block_spec pat Hm bm Hbm t (zlen pat) Htu) as (r & Er & Hr); [lia..|]. rewrite Er, some_bind.
      eexists. split; [done|]. destruct r as [s|p].
      * cbn [fst snd]. rewrite u32_small by (unfold is_u32; lia). split; [|lia]. split; [done|]. right. split; [lia|].
        intros p Hp Ho. destruct (Hocc p) as [Hpl He]; [lia | done |]. revert He. apply Hr. lia.
      * destruct Hr as (Hrange & He & Hno). rewrite u32_small by (unfold is_u32; lia). split; [done|]. left. split; [cbn; lia|].
        split.
        { apply (ends_occurs pat Hm) in He; [|lia]. replace (p + (zlen pat - 1) - (zlen pat - 1)) with p in He by lia.
          rewrite Ht in He. apply occurs_drop in He; [done | lia | lia]. }
        cbn [fst]. intros p' Hp' Ho. destruct (Hocc p') as [Hpl He']; [lia | done |]. revert He'. apply Hno. lia.
    + eexists. split; [done|]. cbn [fst snd]. split; [done|]. right. split; [done|]. destruct Hst as [[= -> ->]|[_ Hno]]; [|done].
      intros p Hp Ho. destruct (Hocc p); [lia | done | lia].
  - cbn [fst snd]. split; [done | by left].
  - cbn [fst snd]. change (2 ^ Z.of_nat 33) with (8 * 2 ^ 30). lia.
  - exists r. split; [done|]. cbn [fst snd] in H. destruct H as [-> H]. split; [|done].
    unfold bm_find. cbn [offset cb]. rewrite (prepared_len _ _ Hbm), s32_small by lia. exact Er.
Qed.

Lemma bm_find_linear_witness : 0 < 3 < 2 ^ 30 /\ exists bm r,
  bm_init (fun _ => true) (text "aba"%string) 3 = Some (inr bm) /\
  bm_find bm get_linear_data (mk_state 0 (mk_linear 10 (text "abaxxxxaba"%string))) = Some (r, mk_state 0 (mk_linear 10 (text "abaxxxxaba"%string))) /\
  (first_at (text "aba"%string) (take 10 (text "abaxxxxaba"%string)) 1 r \/
     r = UINT_MAX /\ forall p, 1 <= p -> ~ occurs (text "aba"%string) (take 10 (text "abaxxxxaba"%string)) p).
Proof.
  split; [lia|]. destruct (bm_find_linear (fun _ => true) (text "aba"%string) (text "abaxxxxaba"%string) 10 0) as [H|H].
  - cbn; lia.
  - change (text "aba"%string) with [97; 98; 97]. repeat (constructor; [unfold is_u8; lia|]). constructor.
  - change (text "abaxxxxaba"%string) with [97; 98; 97; 120; 120; 120; 120; 97; 98; 97].
    repeat (constructor; [unfold is_u8; lia|]). constructor.
  - cbn; lia.
  - lia.
  - lia.
  - discriminate H.
  - exact H.
Defined.

(** The pattern at the start of the data is missed, which "kmp" finds; the search
    that continues gives the same answer again. *)
Example bm_misses_start : exists b k, let st := mk_state 0 (mk_linear 10 (text "abaxxxxaba"%string)) in
  bm_init (fun _ => true) (text "aba"%string) 3 = Some (inr b) /\ kmp_init (fun _ => true) (text "aba"%string) 3 = Some (inr k) /\
  kmp_find k get_linear_data st = Some (0, mk_state 3 (cb st)) /\
  bm_find b get_linear_data st = Some (7, st).
Proof. eexists _, _. split; [vm_compute; reflexivity|]. split; [vm_compute; reflexivity|]. split; vm_compute; reflexivity. Qed.
