(* ===== verification/TsFsm.v ===== *)
(** * lib/ts_fsm.c: a finite state machine as a text search

    A pattern is a chain of tokens: a class of bytes and how often it may occur.
    The machine reads the text once and never goes back over a byte.  What it
    reports is a match of the chain that ends with the text, or that ends with a
    token that repeats; where the tokens leave no choice, it misses none. *)

From Stdlib Require Import String.
From S2P Require Import Prelude Ctype TextSearch.

(** ** Data *)

Definition TS_FSM_SPECIFIC : Z := 0.
Definition TS_FSM_WILDCARD : Z := 1.
Definition TS_FSM_DIGIT : Z := 2.
Definition TS_FSM_XDIGIT : Z := 3.
Definition TS_FSM_PRINT : Z := 4.
Definition TS_FSM_ALPHA : Z := 5.
Definition TS_FSM_ALNUM : Z := 6.
Definition TS_FSM_ASCII : Z := 7.
Definition TS_FSM_CNTRL : Z := 8.
Definition TS_FSM_GRAPH : Z := 9.
Definition TS_FSM_LOWER : Z := 10.
Definition TS_FSM_UPPER : Z := 11.
Definition TS_FSM_PUNCT : Z := 12.
Definition TS_FSM_SPACE : Z := 13.
Definition TS_FSM_TYPE_MAX : Z := 13.

Definition TS_FSM_SINGLE : Z := 0.
Definition TS_FSM_PERHAPS : Z := 1.
Definition TS_FSM_ANY : Z := 2.
Definition TS_FSM_MULTI : Z := 3.
Definition TS_FSM_HEAD_IGNORE : Z := 4.
Definition TS_FSM_RECUR_MAX : Z := 4.

Record ts_fsm_token := mk_token { type : Z; recur : Z; value : Z }.
Record ts_fsm := mk_fsm { ntokens : Z; tokens : list ts_fsm_token }.

Definition _A : Z := 0x100.
Definition _W : Z := 0x200.

(** The map from TS_FSM_SPECIFIC to TS_FSM_SPACE, in the order of the enum. *)
Definition token_map : list Z := [
  0; _W; _D; Z.lor _D _X;
  Z.lor _P (Z.lor _U (Z.lor _L (Z.lor _D _SP)));
  Z.lor _U _L; Z.lor _U (Z.lor _L _D); _A; _C;
  Z.lor _P (Z.lor _U (Z.lor _L _D));
  _L; _U; _P; _S].

(** The flags are distinct bits: [+] is C's bitwise or of them. *)
Definition token_lookup_tbl : list Z := [
  _W+_A+_C; _W+_A+_C; _W+_A+_C; _W+_A+_C; _W+_A+_C; _W+_A+_C; _W+_A+_C; _W+_A+_C;
  _W+_A+_C; _W+_A+_C+_S; _W+_A+_C+_S; _W+_A+_C+_S; _W+_A+_C+_S; _W+_A+_C+_S; _W+_A+_C; _W+_A+_C;
  _W+_A+_C; _W+_A+_C; _W+_A+_C; _W+_A+_C; _W+_A+_C; _W+_A+_C; _W+_A+_C; _W+_A+_C;
  _W+_A+_C; _W+_A+_C; _W+_A+_C; _W+_A+_C; _W+_A+_C; _W+_A+_C; _W+_A+_C; _W+_A+_C;
  _W+_A+_S+_SP; _W+_A+_P; _W+_A+_P; _W+_A+_P; _W+_A+_P; _W+_A+_P; _W+_A+_P; _W+_A+_P;
  _W+_A+_P; _W+_A+_P; _W+_A+_P; _W+_A+_P; _W+_A+_P; _W+_A+_P; _W+_A+_P; _W+_A+_P;
  _W+_A+_D; _W+_A+_D; _W+_A+_D; _W+_A+_D; _W+_A+_D; _W+_A+_D; _W+_A+_D; _W+_A+_D;
  _W+_A+_D; _W+_A+_D; _W+_A+_P; _W+_A+_P; _W+_A+_P; _W+_A+_P; _W+_A+_P; _W+_A+_P;
  _W+_A+_P; _W+_A+_U+_X; _W+_A+_U+_X; _W+_A+_U+_X; _W+_A+_U+_X; _W+_A+_U+_X; _W+_A+_U+_X; _W+_A+_U;
  _W+_A+_U; _W+_A+_U; _W+_A+_U; _W+_A+_U; _W+_A+_U; _W+_A+_U; _W+_A+_U; _W+_A+_U;
  _W+_A+_U; _W+_A+_U; _W+_A+_U; _W+_A+_U; _W+_A+_U; _W+_A+_U; _W+_A+_U; _W+_A+_U;
  _W+_A+_U; _W+_A+_U; _W+_A+_U; _W+_A+_P; _W+_A+_P; _W+_A+_P; _W+_A+_P; _W+_A+_P;
  _W+_A+_P; _W+_A+_L+_X; _W+_A+_L+_X; _W+_A+_L+_X; _W+_A+_L+_X; _W+_A+_L+_X; _W+_A+_L+_X; _W+_A+_L;
  _W+_A+_L; _W+_A+_L; _W+_A+_L; _W+_A+_L; _W+_A+_L; _W+_A+_L; _W+_A+_L; _W+_A+_L;
  _W+_A+_L; _W+_A+_L; _W+_A+_L; _W+_A+_L; _W+_A+_L; _W+_A+_L; _W+_A+_L; _W+_A+_L;
  _W+_A+_L; _W+_A+_L; _W+_A+_L; _W+_A+_P; _W+_A+_P; _W+_A+_P; _W+_A+_P; _W+_A+_C;
  _W; _W; _W; _W; _W; _W; _W; _W;
  _W; _W; _W; _W; _W; _W; _W; _W;
  _W; _W; _W; _W; _W; _W; _W; _W;
  _W; _W; _W; _W; _W; _W; _W; _W;
  _W+_S+_SP; _W+_P; _W+_P; _W+_P; _W+_P; _W+_P; _W+_P; _W+_P;
  _W+_P; _W+_P; _W+_P; _W+_P; _W+_P; _W+_P; _W+_P; _W+_P;
  _W+_P; _W+_P; _W+_P; _W+_P; _W+_P; _W+_P; _W+_P; _W+_P;
  _W+_P; _W+_P; _W+_P; _W+_P; _W+_P; _W+_P; _W+_P; _W+_P;
  _W+_U; _W+_U; _W+_U; _W+_U; _W+_U; _W+_U; _W+_U; _W+_U;
  _W+_U; _W+_U; _W+_U; _W+_U; _W+_U; _W+_U; _W+_U; _W+_U;
  _W+_U; _W+_U; _W+_U; _W+_U; _W+_U; _W+_U; _W+_U; _W+_P;
  _W+_U; _W+_U; _W+_U; _W+_U; _W+_U; _W+_U; _W+_U; _W+_L;
  _W+_L; _W+_L; _W+_L; _W+_L; _W+_L; _W+_L; _W+_L; _W+_L;
  _W+_L; _W+_L; _W+_L; _W+_L; _W+_L; _W+_L; _W+_L; _W+_L;
  _W+_L; _W+_L; _W+_L; _W+_L; _W+_L; _W+_L; _W+_L; _W+_P;
  _W+_L; _W+_L; _W+_L; _W+_L; _W+_L; _W+_L; _W+_L; _W+_L
].

Definition match_token (t : ts_fsm_token) (d : Z) : option bool :=
  if negb (type t =? 0) then f ← rd token_lookup_tbl d; Some (negb (Z.land f (type t) =? 0))
  else Some (value t =? d).

(** ** The machine *)

(** The locals of fsm_find that read the text: [consumed], [block_idx], the block
    of [block_len] bytes at [data], and the callback's buffer. *)
Record reader (C : Type) := mk_reader { consumed : Z; block_idx : Z; block : list Z; ctl : C }.
Arguments mk_reader {C}.
Arguments consumed {C}.
Arguments block_idx {C}.
Arguments block {C}.
Arguments ctl {C}.

Definition get_next {C} (get_next_block : block_fn C) (s : reader C) : reader C :=
  let c := u32 (consumed s + block_idx s) in
  let '(blk, ctl) := get_next_block c (ctl s) in
  mk_reader c 0 blk ctl.
Definition end_of_data {C} (get_next_block : block_fn C) (s : reader C) : reader C * bool :=
  if block_idx s <? zlen (block s) then (s, false)
  else let s := get_next get_next_block s in (s, zlen (block s) =? 0).
Definition byte_here {C} (s : reader C) : option Z := rd (block s) (block_idx s).
Definition next_byte {C} (s : reader C) : reader C :=
  mk_reader (consumed s) (u32 (block_idx s + 1)) (block s) (ctl s).
Definition here {C} (s : reader C) : Z := u32 (consumed s + block_idx s).

(** The labels that fsm_find jumps to; a match carries its start. *)
Inductive jump (C : Type) :=
  | found_match (match_start : Z) (s : reader C)
  | no_match (s : reader C)
  | startover (s : reader C).
Arguments found_match {C}.
Arguments no_match {C}.
Arguments startover {C}.

Definition TOKEN_MISMATCH {C} (strict : bool) (s : reader C) : jump C :=
  if strict then no_match s else startover (next_byte s).

(** while (!match_token(next, data[block_idx])): how it is left. *)
Inductive span_exit := next_matches | cur_mismatch | data_ends.
Definition span_step {C} (get_next_block : block_fn C) (cur next : ts_fsm_token) (s : reader C) :
    option (reader C + reader C * span_exit) :=
  d ← byte_here s;
  n ← match_token next d;
  if (n : bool) then Some (inr (s, next_matches)) else
  c ← match_token cur d;
  if negb c then Some (inr (s, cur_mismatch)) else
  let '(s, e) := end_of_data get_next_block (next_byte s) in
  Some (if (e : bool) then inr (s, data_ends) else inl s).
Definition span {C} (get_next_block : block_fn C) (cur next : ts_fsm_token) (s : reader C) :
    option (reader C * span_exit) :=
  run 33 (span_step get_next_block cur next) s.

(** The loop over the tokens; [toks] are those from tok_idx on. *)
Section machine.
Context {C : Type} (get_next_block : block_fn C) (strict : bool).

(** case TS_FSM_ANY; [k] is the loop from the next token on. *)
Definition token_any (k : reader C -> option (jump C)) (cur : ts_fsm_token) (next : option ts_fsm_token)
    (match_start : Z) (s : reader C) : option (jump C) :=
  match next with
  | None => Some (found_match match_start s)
  | Some next =>
    let '(s, e) := end_of_data get_next_block s in
    if (e : bool) then k s else
    '(s, x) ← span get_next_block cur next s;
    match x with
    | next_matches => k s
    | cur_mismatch => Some (TOKEN_MISMATCH strict s)
    | data_ends => Some (no_match s)
    end
  end.

Fixpoint token_loop (toks : list ts_fsm_token) (match_start : Z) (s : reader C) : option (jump C) :=
  match toks with
  | [] =>
    let '(s, e) := end_of_data get_next_block s in
    Some (if (e : bool) then found_match match_start s else no_match s)
  | cur :: toks =>
    let next := head toks in
    if recur cur =? TS_FSM_SINGLE then
      let '(s, e) := end_of_data get_next_block s in
      if (e : bool) then Some (no_match s) else
      d ← byte_here s;
      m ← match_token cur d;
      if negb m then Some (TOKEN_MISMATCH strict s) else token_loop toks match_start (next_byte s)
    else if recur cur =? TS_FSM_PERHAPS then
      let '(s, e) := end_of_data get_next_block s in
      if (e : bool) then token_loop toks match_start s else
      d ← byte_here s;
      m ← match_token cur d;
      if negb m then token_loop toks match_start s else token_loop toks match_start (next_byte s)
    else if recur cur =? TS_FSM_MULTI then
      let '(s, e) := end_of_data get_next_block s in
      if (e : bool) then Some (no_match s) else
      d ← byte_here s;
      m ← match_token cur d;
      if negb m then Some (TOKEN_MISMATCH strict s) else
      token_any (token_loop toks match_start) cur next match_start (next_byte s)
    else if recur cur =? TS_FSM_ANY then token_any (token_loop toks match_start) cur next match_start s
    else if recur cur =? TS_FSM_HEAD_IGNORE then
      let '(s, e) := end_of_data get_next_block s in
      if (e : bool) then token_loop toks match_start s else
      next ← next;
      '(s, x) ← span get_next_block cur next s;
      match x with
      | next_matches => token_loop toks (here s) s
      | _ => Some (no_match s)
      end
    else token_loop toks match_start (next_byte s)
  end.

(** From the label startover on. *)
Definition startover_step (toks : list ts_fsm_token) (off : Z) (s : reader C) :
    option (reader C + Z * ts_state C) :=
  j ← token_loop toks (here s) s;
  Some (match j with
        | found_match m s => inr (m, mk_state (here s) (ctl s))
        | no_match s => inr (UINT_MAX, mk_state off (ctl s))
        | startover s => inl s
        end).
End machine.

Definition fsm_find {C} (fsm : ts_fsm) (get_next_block : block_fn C) (state : ts_state C) :
    option (Z * ts_state C) :=
  let '(s, e) := end_of_data get_next_block (mk_reader (offset state) 0 [] (cb state)) in
  if (e : bool) then Some (UINT_MAX, mk_state (offset state) (ctl s)) else
  t ← rd (tokens fsm) 0;
  let strict := negb (recur t =? TS_FSM_HEAD_IGNORE) in
  run 33 (startover_step get_next_block strict (take (Z.to_nat (ntokens fsm)) (tokens fsm)) (offset state)) s.

(** ** Preparing a pattern *)

Definition sizeof_token : Z := 4.

(** The tokens in the bytes at [pattern], little-endian, and back. *)
Fixpoint tokens_of (pat : list Z) : list ts_fsm_token :=
  match pat with
  | a :: b :: r :: v :: pat => mk_token (a + 2 ^ 8 * b) r v :: tokens_of pat
  | _ => []
  end.
Definition bytes_of (toks : list ts_fsm_token) : list Z :=
  toks ≫= fun t => [type t mod 2 ^ 8; type t / 2 ^ 8; recur t; value t].

(** One turn of the check of the tokens. *)
Definition token_ok (n i : Z) (t : ts_fsm_token) : bool :=
  negb ((TS_FSM_TYPE_MAX <? type t) || (TS_FSM_RECUR_MAX <? recur t)) &&
  negb ((recur t =? TS_FSM_HEAD_IGNORE) && (negb (i =? 0) || (i =? n - 1))).
Fixpoint tokens_ok (n i : Z) (toks : list ts_fsm_token) : bool :=
  match toks with
  | [] => true
  | t :: toks => token_ok n i t && tokens_ok n (i + 1) toks
  end.

Definition map_type (t : ts_fsm_token) : option ts_fsm_token :=
  ty ← rd token_map (type t);
  Some (mk_token ty (recur t) (value t)).

Definition fsm_init (kmalloc : Z -> bool) (pat : list Z) (len : Z) : option (Z + ts_fsm) :=
  let n := len / sizeof_token in
  let priv_size := u32 (4 + len) in
  if negb (len mod sizeof_token =? 0) || (n <? 1) then Some (inl (- EINVAL)) else
  if zlen pat <? len then None else
  let toks := tokens_of (take (Z.to_nat len) pat) in
  if negb (tokens_ok n 0 toks) then Some (inl (- EINVAL)) else
  if negb (alloc_ts_config kmalloc priv_size) then Some (inl (- ENOMEM)) else
  toks ← mapM map_type toks;
  Some (inr (mk_fsm n toks)).

Definition fsm_get_pattern (fsm : ts_fsm) : list Z := bytes_of (tokens fsm).
Definition fsm_get_pattern_len (fsm : ts_fsm) : Z := u32 (ntokens fsm * sizeof_token).
Definition fsm_ops (C : Type) (addr : Z) (mod_ : Z) : ts_ops C :=
  mk_ops C addr (Some (text "fsm"%string)) ts_fsm (Some fsm_init) (Some (@fsm_find C)) None
    (Some fsm_get_pattern) (Some fsm_get_pattern_len) mod_.

(** ** Specification: patterns as regular expressions *)

(** The bytes of a token, by the names of ctype.h. *)
Definition accepts (t : ts_fsm_token) (d : Z) : bool :=
  match type t with
  | 0 => value t =? d
  | 1 => true
  | 2 => isdigit d
  | 3 => isxdigit d
  | 4 => isprint d
  | 5 => isalpha d
  | 6 => isalnum d
  | 7 => isascii d
  | 8 => has_class d _C
  | 9 => isprint d && negb (d =? 32) && negb (d =? 160)
  | 10 => islower d
  | 11 => isupper d
  | 12 => has_class d _P
  | 13 => isspace d
  | _ => false
  end.

(** How many bytes a token takes. *)
Definition takes (r : Z) (n : nat) : Prop :=
  (r = TS_FSM_SINGLE /\ n = 1%nat) \/ (r = TS_FSM_PERHAPS /\ (n <= 1)%nat) \/
  r = TS_FSM_ANY \/ (r = TS_FSM_MULTI /\ (1 <= n)%nat).

Inductive matches : list ts_fsm_token -> list Z -> Prop :=
  | matches_nil : matches [] []
  | matches_cons t toks u v : Forall (fun d => accepts t d = true) u -> takes (recur t) (length u) ->
      matches toks v -> matches (t :: toks) (u ++ v).

(** The last token repeats. *)
Definition repeats (t : ts_fsm_token) : Prop := recur t = TS_FSM_ANY \/ recur t = TS_FSM_MULTI.
Definition open_end (toks : list ts_fsm_token) : Prop := exists t, last toks = Some t /\ repeats t.

(** A match at the front of [u], with [v] after it: [v] is empty unless the last
    token repeats. *)
Definition front (toks : list ts_fsm_token) (u v : list Z) : Prop :=
  exists w, u = w ++ v /\ matches toks w /\ (v = [] \/ open_end toks).

(** No choice for the machine: what follows a token that is not single must
    occur, and shares no byte with it. *)
Definition must (t : ts_fsm_token) : Prop := recur t = TS_FSM_SINGLE \/ recur t = TS_FSM_MULTI.
Fixpoint no_choice (toks : list ts_fsm_token) : Prop :=
  match toks with
  | [] => True
  | t :: toks => no_choice toks /\
    (recur t = TS_FSM_SINGLE \/
     match toks with
     | [] => True
     | n :: _ => must n /\ forall d, accepts t d = true -> accepts n d = false
     end)
  end.

(** [toks] for a pattern that may ignore the head of the text. *)
Definition ignores_head (toks : list ts_fsm_token) : bool :=
  match toks with t :: _ => recur t =? TS_FSM_HEAD_IGNORE | [] => false end.
Definition body (toks : list ts_fsm_token) : list ts_fsm_token := if ignores_head toks then tail toks else toks.

(** ** The token tables *)

Definition class_agrees (ty d : Z) : bool :=
  match rd token_map ty, rd token_lookup_tbl d with
  | Some m, Some f => Bool.eqb (negb (Z.land f m =? 0)) (accepts (mk_token ty 0 0) d) && negb (m =? 0)
  | _, _ => false
  end.

Lemma classes_agree ty d : 0 < ty <= TS_FSM_TYPE_MAX -> is_u8 d -> class_agrees ty d = true.
Proof.
  intros Ht Hd. unfold TS_FSM_TYPE_MAX, is_u8 in *.
  assert (H : forallb (fun ty => forallb (class_agrees (ty + 1)) (seqZ 0 256)) (seqZ 0 13) = true) by (vm_compute; reflexivity).
  assert (H1 := forall_range 13 _ H (ty - 1) ltac:(lia)). cbn beta in H1.
  replace (ty - 1 + 1) with ty in H1 by lia. apply (forall_range 256 _ H1). lia.
Qed.

(** A token of the pattern and the one the configuration keeps. *)
Definition kept (t t' : ts_fsm_token) : Prop := map_type t = Some t' /\ 0 <= type t <= TS_FSM_TYPE_MAX.

Lemma match_token_accepts t t' d : kept t t' -> is_u8 d -> match_token t' d = Some (accepts t d).
Proof.
  unfold kept, map_type. intros [E Ht] Hd.
  destruct (rd token_map (type t)) as [m|] eqn:Em; [|done]. injection E as <-. unfold match_token. cbn [type value].
  destruct (Z.eqb_spec (type t) 0) as [H0|H0].
  - rewrite H0 in Em. injection Em as <-. unfold accepts. by rewrite H0.
  - pose proof (classes_agree (type t) d ltac:(lia) Hd) as H. unfold class_agrees in H. rewrite Em in H.
    destruct (rd token_lookup_tbl d) as [f|] eqn:Ef; [|done]. apply andb_true_iff in H as [H1 H2].
    rewrite H2. cbn [mbind option_bind]. apply Bool.eqb_prop in H1. rewrite H1. f_equal.
    unfold accepts. cbn [type]. destruct (type t); done.
Qed.

Lemma kept_recur t t' : kept t t' -> recur t' = recur t.
Proof. unfold kept, map_type. intros [E _]. destruct (rd _ _); [|done]. by injection E as <-. Qed.

(** ** Fronts *)

Definition accepted (toks : list ts_fsm_token) (u : list Z) : Prop := exists v, front toks u v.

(** A token as TS_FSM_ANY. *)
Definition as_any (t : ts_fsm_token) : ts_fsm_token := mk_token (type t) TS_FSM_ANY (value t).

Lemma front_nil : front [] [] [].
Proof. exists []. split; [done|]. split; [constructor | by left]. Qed.

Lemma open_end_cons t toks : open_end toks -> open_end (t :: toks).
Proof. intros (x & Hl & Hx). exists x. split; [|done]. destruct toks; [done|]. exact Hl. Qed.

Lemma front_cons t toks w u v : Forall (fun d => accepts t d = true) w -> takes (recur t) (length w) ->
  front toks u v -> front (t :: toks) (w ++ u) v.
Proof.
  intros Hw Ht (x & -> & Hm & Hv). exists (w ++ x). split; [apply app_assoc|]. split; [by constructor|].
  destruct Hv; [by left | right; by apply open_end_cons].
Qed.

Lemma front_last t w v : Forall (fun d => accepts t d = true) w -> takes (recur t) (length w) -> repeats t ->
  front [t] (w ++ v) v.
Proof.
  intros Hw Ht Hr. exists (w ++ []). split; [by rewrite app_nil_r|].
  split; [constructor; [done | done | constructor] | right; by exists t].
Qed.

Lemma accepted_cons t toks u : accepted (t :: toks) u -> exists w u', u = w ++ u' /\
  Forall (fun d => accepts t d = true) w /\ takes (recur t) (length w) /\
  (accepted toks u' \/ (toks = [] /\ repeats t)).
Proof.
  intros (v & x & -> & Hm & Hv). inversion Hm as [|? ? w y Hw Ht Hy]; subst.
  exists w, (y ++ v). split; [by rewrite app_assoc|]. split; [done|]. split; [done|].
  destruct toks as [|t' toks].
  - inversion Hy; subst. destruct Hv as [->|(x & [= <-] & Hx)]; [|by right].
    left. exists []. apply front_nil.
  - left. exists v, y. split; [done|]. split; [done|]. destruct Hv as [|(x & Hl & Hx)]; [by left | right; by exists x].
Qed.

Lemma accepted_nil u : accepted [] u -> u = [].
Proof.
  intros (v & w & -> & Hm & Hv). inversion Hm; subst. destruct Hv as [->|(t & Hl & _)]; done.
Qed.

(** A token that must occur takes the first byte. *)
Lemma must_first t toks u : must t -> accepted (t :: toks) u -> exists d u', u = d :: u' /\ accepts t d = true.
Proof.
  intros Hm (w & u' & -> & Hw & Ht & _)%accepted_cons. destruct w as [|d w].
  - exfalso. unfold takes, TS_FSM_SINGLE, TS_FSM_PERHAPS, TS_FSM_ANY, TS_FSM_MULTI in Ht.
    cbn in Ht. unfold must, TS_FSM_SINGLE, TS_FSM_MULTI in Hm. lia.
  - apply Forall_cons in Hw as [Hd _]. by exists d, (w ++ u').
Qed.

Lemma takes_single n : takes TS_FSM_SINGLE n <-> n = 1%nat.
Proof. unfold takes, TS_FSM_SINGLE, TS_FSM_PERHAPS, TS_FSM_ANY, TS_FSM_MULTI. lia. Qed.
Lemma takes_perhaps n : takes TS_FSM_PERHAPS n <-> (n <= 1)%nat.
Proof. unfold takes, TS_FSM_SINGLE, TS_FSM_PERHAPS, TS_FSM_ANY, TS_FSM_MULTI. lia. Qed.
Lemma takes_any n : takes TS_FSM_ANY n.
Proof. right. right. by left. Qed.
Lemma takes_multi n : takes TS_FSM_MULTI n <-> (1 <= n)%nat.
Proof. unfold takes, TS_FSM_SINGLE, TS_FSM_PERHAPS, TS_FSM_ANY, TS_FSM_MULTI. lia. Qed.

(** No choice after a token that repeats: it takes exactly the bytes before the
    first of the next token. *)
Lemma any_takes t n toks w v : must n -> (forall d, accepts t d = true -> accepts n d = false) ->
  Forall (fun d => accepts n d = false) w -> (forall d v', v = d :: v' -> accepts t d = false) ->
  accepted (as_any t :: n :: toks) (w ++ v) -> accepted (n :: toks) v.
Proof.
  intros Hmust Hdis Hw Hv (x & y & E & Hx & _ & [Hacc|[? _]])%accepted_cons; [|done].
  destruct (must_first n toks y Hmust Hacc) as (d & y' & -> & Hd).
  destruct (decide (x = w)) as [->|Hne]; [by apply app_inv_head in E as ->|]. exfalso.
  destruct (app_eq_inv _ _ _ _ E) as [(z & -> & Hz)|(z & -> & Hz)].
  - destruct z as [|e z]; [by rewrite app_nil_r in Hne|]. injection Hz as -> ->.
    apply Forall_app in Hw as [_ Hw]. apply Forall_cons in Hw as [Hw _]. congruence.
  - destruct z as [|e z]; [by rewrite app_nil_r in Hne|].
    apply Forall_app in Hx as [_ Hx]. apply Forall_cons in Hx as [Hx _].
    change (accepts (as_any t) e) with (accepts t e) in Hx. rewrite (Hv e (z ++ d :: y')) in Hx; [done|]. exact Hz.
Qed.

Lemma multi_as_any t toks d u v : recur t = TS_FSM_MULTI -> accepts t d = true ->
  front (as_any t :: toks) u v -> front (t :: toks) (d :: u) v.
Proof.
  intros Hr Hd (x & -> & Hm & Hv). inversion Hm as [|? ? w y Hw Ht Hy]; subst.
  exists ((d :: w) ++ y). split; [done|]. split.
  - constructor; [by constructor| |done]. rewrite Hr. apply takes_multi. cbn. lia.
  - destruct Hv as [|(x & Hl & Hx)]; [by left|]. right. destruct toks as [|t' toks].
    + exists t. split; [done|]. by right.
    + exists x. by split.
Qed.

Lemma as_any_multi t toks d u : recur t = TS_FSM_MULTI -> accepted (t :: toks) (d :: u) ->
  accepts t d = true /\ accepted (as_any t :: toks) u.
Proof.
  intros Hr (w & u' & E & Hw & Ht & Ha)%accepted_cons. rewrite Hr, takes_multi in Ht.
  destruct w as [|d' w]; [cbn in Ht; lia|]. injection E as -> ->. apply Forall_cons in Hw as [Hd Hw].
  split; [done|]. destruct Ha as [(v & Ha)|[-> _]].
  - exists v. apply front_cons; [done | apply takes_any | done].
  - exists u'. apply front_last; [done | apply takes_any | by left].
Qed.

(** ** The machine reads the text *)

Section reading.
Context {C : Type} (b : block_fn C) (T : list Z) (ok : C -> Prop) (Hb : Serves b T ok) (HT : Forall is_u8 T).

(** The bytes [u] of the text are still to be read. *)
Record at_ (s : reader C) (u : list Z) : Prop := mk_at {
  at_ok : ok (ctl s);
  at_idx : 0 <= consumed s /\ 0 <= block_idx s <= zlen (block s);
  at_block : block s `prefix_of` drop (Z.to_nat (consumed s)) T;
  at_rest : drop (Z.to_nat (block_idx s)) (drop (Z.to_nat (consumed s)) T) = u;
  at_in : consumed s + block_idx s <= zlen T }.

(** ... and the first of them is at hand. *)
Definition ready (s : reader C) (d : Z) (u : list Z) : Prop := at_ s (d :: u) /\ byte_here s = Some d /\ is_u8 d.

Lemma at_length s u : at_ s u -> consumed s + block_idx s = zlen T - zlen u.
Proof. intros [_ Hi _ Hr Hin]. apply (f_equal length) in Hr. rewrite !length_drop in Hr. lia. Qed.

Lemma at_here s u : at_ s u -> here s = zlen T - zlen u /\ 0 <= zlen T - zlen u.
Proof.
  intros H. pose proof (at_length s u H). destruct H as [_ Hi _ _ Hin]. pose proof (@serves_size _ b T ok Hb).
  unfold here. rewrite u32_small by (unfold is_u32; lia). lia.
Qed.

Lemma at_text s u : at_ s u -> u = drop (Z.to_nat (zlen T - zlen u)) T.
Proof.
  intros H. pose proof (at_length s u H) as Hl. destruct H as [_ Hi _ Hr _]. rewrite <- Hl, <- Hr, drop_drop. f_equal. lia.
Qed.

Lemma at_u8 s u : at_ s u -> Forall is_u8 u.
Proof. intros H. rewrite (at_text s u H). by apply Forall_drop. Qed.

Lemma end_of_data_spec s u : at_ s u -> exists s' e, end_of_data b s = (s', e) /\ at_ s' u /\
  match u with [] => e = true | d :: u => e = false /\ ready s' d u end.
Proof.
  intros H. pose proof (at_length s u H) as Hl. pose proof (at_u8 s u H) as Hu8. pose proof (@serves_size _ b T ok Hb).
  destruct H as [Hok Hi Hpre Hr Hin]. unfold end_of_data. destruct (Z.ltb_spec (block_idx s) (zlen (block s))) as [Hlt|Hge].
  - exists s, false. split; [done|]. split; [by split|].
    destruct (rd_is_Some (block s) (block_idx s) ltac:(lia)) as [d Hd].
    assert (Hhd : u !! 0%nat = Some d).
    { destruct Hpre as [z Hz]. rewrite <- Hr, lookup_drop, Nat.add_0_r, Hz, lookup_app_l by lia.
      unfold rd in Hd. by destruct (block_idx s <? 0). }
    destruct u as [|d' u]; [done|]. injection Hhd as ->. apply Forall_cons in Hu8 as [Hd8 _].
    split; [done|]. split; [by split | by split].
  - unfold get_next. rewrite u32_small by (unfold is_u32; lia). set (c := consumed s + block_idx s) in *.
    destruct (@serves_next _ b T ok Hb c (ctl s) Hok ltac:(lia)) as (Hok' & Hp & Hend).
    destruct (b c (ctl s)) as [blk k]; cbn [fst snd] in *.
    assert (Hat : at_ (mk_reader c 0 blk k) u).
    { split; cbn [ctl consumed block_idx block]; [done | lia | done | | lia].
      rewrite drop_0, <- Hr, drop_drop. f_equal. lia. }
    assert (Hc : drop (Z.to_nat c) T = u) by (rewrite <- Hr, drop_drop; f_equal; lia).
    exists (mk_reader c 0 blk k), (zlen blk =? 0). split; [done|]. split; [done|]. destruct u as [|d u].
    + rewrite Hc in Hp. apply prefix_nil_inv in Hp as ->. done.
    + apply Forall_cons in Hu8 as [Hd8 _]. destruct blk as [|d' blk].
      * specialize (Hend eq_refl). cbn in Hl. lia.
      * rewrite Hc in Hp. destruct Hp as [z [= <- _]]. split; [done|]. by split.
Qed.

Lemma next_byte_spec s d u : ready s d u -> at_ (next_byte s) u.
Proof.
  intros (H & Hd & _). pose proof (at_length s _ H) as Hl. pose proof (@serves_size _ b T ok Hb).
  destruct H as [Hok Hi Hpre Hr Hin]. apply rd_lt in Hd. cbn [length] in Hl.
  unfold next_byte. rewrite u32_small by (unfold is_u32; lia).
  split; cbn [ctl consumed block_idx block]; [done | lia | done | | lia].
  replace (Z.to_nat (block_idx s + 1)) with (Z.to_nat (block_idx s) + 1)%nat by lia.
  by rewrite <- drop_drop, Hr.
Qed.

(** How the loop of a token that repeats is left, before [v]. *)
Definition left_at (cur next : ts_fsm_token) (s : reader C) (v : list Z) (x : span_exit) : Prop :=
  at_ s v /\
  match x with
  | next_matches => exists d v', v = d :: v' /\ ready s d v' /\ accepts next d = true
  | cur_mismatch => exists d v', v = d :: v' /\ ready s d v' /\ accepts next d = false /\ accepts cur d = false
  | data_ends => v = []
  end.

Lemma span_spec cur cur' next next' s d u : kept cur cur' -> kept next next' -> ready s d u ->
  exists s' x w v, span b cur' next' s = Some (s', x) /\ d :: u = w ++ v /\
    Forall (fun d => accepts cur d = true) w /\ Forall (fun d => accepts next d = false) w /\
    left_at cur next s' v x.
Proof.
  intros Hc Hn Hs. unfold span. pose proof (@serves_size _ b T ok Hb).
  destruct (run_rule (fun s => exists w d' v, d :: u = w ++ d' :: v /\ ready s d' v /\
       Forall (fun d => accepts cur d = true) w /\ Forall (fun d => accepts next d = false) w)
     (fun r => exists w v, d :: u = w ++ v /\ Forall (fun d => accepts cur d = true) w /\
       Forall (fun d => accepts next d = false) w /\ left_at cur next r.1 v r.2)
     (fun s => zlen T - (consumed s + block_idx s)) (span_step b cur' next') 33 s) as ([s' x] & E & w & v & Hp).
  - intros s1 (w & d' & v & E & Hr & Hwc & Hwn). pose proof Hr as (Hat & Hd & Hd8). unfold span_step.
    rewrite Hd, some_bind, (match_token_accepts next next' d' Hn Hd8), some_bind.
    destruct (accepts next d') eqn:En; [|rewrite (match_token_accepts cur cur' d' Hc Hd8), some_bind; destruct (accepts cur d') eqn:Ec].
    + eexists. split; [done|]. exists w, (d' :: v). split; [done|]. split; [done|]. split; [done|]. split; [done|]. by exists d', v.
    + pose proof (next_byte_spec _ _ _ Hr) as Hat'. destruct (end_of_data_spec _ _ Hat') as (s2 & e & Ee & Hat2 & He).
      cbn [negb]. rewrite Ee. cbn iota beta. eexists. split; [done|].
      assert (Hw1 : d :: u = (w ++ [d']) ++ v) by by rewrite <- app_assoc.
      assert (Hw2 : Forall (fun d => accepts cur d = true) (w ++ [d'])) by (apply Forall_app; by repeat constructor).
      assert (Hw3 : Forall (fun d => accepts next d = false) (w ++ [d'])) by (apply Forall_app; by repeat constructor).
      destruct v as [|e' v]; [subst e | destruct He as [-> Hr2]].
      * exists (w ++ [d']), []. done.
      * rewrite (at_length _ _ Hat), (at_length _ _ Hat2). split; [by exists (w ++ [d']), e', v|]. cbn [length]. lia.
    + eexists. split; [done|]. exists w, (d' :: v). split; [done|]. split; [done|]. split; [done|]. split; [done|].
      by exists d', v.
  - by exists [], d, u.
  - destruct Hs as ([_ Hi _ _ _] & _). change (2 ^ Z.of_nat 33) with (2 * 2 ^ 32). lia.
  - exists s', x, w, v. by split.
Qed.

(** ** The loop over the tokens *)

Context (strict : bool).

(** What the tokens decide about the text [u] from the start on. *)
Definition settled (toks : list ts_fsm_token) (match_start : Z) (u : list Z) (j : jump C) : Prop :=
  match j with
  | found_match m s => m = match_start /\ exists v, front toks u v /\ at_ s v
  | no_match s => ok (ctl s) /\ (no_choice toks -> ~ accepted toks u)
  | startover s => strict = false /\ exists v, at_ s v /\ (length v < length u)%nat
  end.

Lemma settled_from toks toks' ms u u' j : settled toks ms u j -> (length u <= length u')%nat ->
  (forall v, front toks u v -> front toks' u' v) ->
  (no_choice toks' -> accepted toks' u' -> no_choice toks /\ accepted toks u) -> settled toks' ms u' j.
Proof.
  intros Hj Hl Hf Ha. destruct j as [m s|s|s]; cbn in *.
  - destruct Hj as (-> & v & Hv & Hs). split; [done|]. exists v. split; [by apply Hf | done].
  - destruct Hj as [Hk Hj]. split; [done|]. intros Hn Hacc. destruct (Ha Hn Hacc). by apply Hj.
  - destruct Hj as (-> & v & Hv & Hlv). split; [done|]. exists v. split; [done | lia].
Qed.

Lemma mismatch_settled toks ms u s d v : ready s d v -> (length v < length u)%nat ->
  (no_choice toks -> ~ accepted toks u) -> settled toks ms u (TOKEN_MISMATCH strict s).
Proof.
  intros Hr Hl Ha. unfold TOKEN_MISMATCH. pose proof (next_byte_spec _ _ _ Hr) as Hat. destruct Hr as [[Hok _ _ _ _] _].
  destruct strict eqn:Es; cbn; [by split|]. split; [done|]. by exists v.
Qed.

Lemma token_any_spec k cur cur' rest rest' ms s u : kept cur cur' -> Forall2 kept rest rest' ->
  (forall s u, at_ s u -> exists j, k s = Some j /\ settled rest ms u j) -> at_ s u ->
  exists j, token_any b strict k cur' (head rest') ms s = Some j /\ settled (as_any cur :: rest) ms u j.
Proof.
  intros Hc Hrest Hk Hs. unfold token_any. destruct Hrest as [|n n' rest rest' Hn Hrest]; cbn [head].
  - eexists. split; [done|]. cbn. split; [done|]. exists u. split; [|done].
    apply (front_last (as_any cur) [] u); [constructor | apply takes_any | by left].
  - destruct (end_of_data_spec s u Hs) as (s1 & e & -> & Hs1 & He). destruct u as [|d u].
    + subst e. destruct (Hk s1 [] Hs1) as (j & -> & Hj). exists j. split; [done|].
      apply (settled_from _ _ _ _ _ _ Hj); [done | |].
      * intros v. apply (front_cons (as_any cur) _ []); [constructor | apply takes_any].
      * intros [Hnc _] (w & u' & E & _ & _ & [Ha|[? _]])%accepted_cons; [|done].
        by destruct (app_eq_nil _ _ (eq_sym E)) as [-> ->].
    + destruct He as [-> Hr]. destruct (span_spec cur cur' n n' s1 d u Hc Hn Hr) as (s2 & x & w & v & -> & E & Hw & Hnw & Hs2 & Hx).
      rewrite some_bind, E. destruct x.
      * destruct (Hk s2 v Hs2) as (j & -> & Hj). exists j. split; [done|]. destruct Hx as (d' & v' & -> & _ & Hd').
        apply (settled_from _ _ _ _ _ _ Hj); [rewrite length_app; lia | |].
        -- intros z. apply front_cons; [done | apply takes_any].
        -- intros [Hnc [?|[Hm Hdis]]] Ha; [done|]. split; [done|].
           apply (any_takes cur n rest w); [done | done | done | | done].
           intros ? ? [= <- <-]. destruct (accepts cur d') eqn:Ec; [|done]. rewrite (Hdis _ Ec) in Hd'. done.
      * destruct Hx as (d' & v' & -> & Hr' & Hnd & Hcd). eexists. split; [done|].
        apply (mismatch_settled _ _ _ _ _ _ Hr'); [rewrite length_app; cbn; lia|].
        intros [Hnc [?|[Hm Hdis]]] Ha; [done|]. apply any_takes in Ha; [|done | done | done | by intros ? ? [= <- <-]].
        destruct (must_first n rest _ Hm Ha) as (? & ? & [= <- <-] & ?). congruence.
      * subst v. eexists. split; [done|]. cbn. split; [apply Hs2|].
        intros [Hnc [?|[Hm Hdis]]] Ha; [done|]. apply any_takes in Ha; [|done | done | done | done].
        by destruct (must_first n rest _ Hm Ha) as (? & ? & ? & ?).
Qed.

(** The four kinds of token after the head. *)
Definition counted (t : ts_fsm_token) : Prop :=
  recur t = TS_FSM_SINGLE \/ recur t = TS_FSM_PERHAPS \/ recur t = TS_FSM_ANY \/ recur t = TS_FSM_MULTI.

(** The loop with the first token taken off. *)
Section token.
Context (t t' : ts_fsm_token) (toks toks' : list ts_fsm_token) (Ht : kept t t') (Htoks : Forall2 kept toks toks') (ms : Z).
Context (IH : forall s u, at_ s u -> exists j, token_loop b strict toks' ms s = Some j /\ settled toks ms u j).

Lemma single_spec s u : recur t = TS_FSM_SINGLE -> at_ s u ->
  exists j, token_loop b strict (t' :: toks') ms s = Some j /\ settled (t :: toks) ms u j.
Proof.
  intros Hk Hs. cbn [token_loop]. rewrite (kept_recur t t' Ht), Hk.
  change (TS_FSM_SINGLE =? TS_FSM_SINGLE) with true. cbn iota.
  destruct (end_of_data_spec s u Hs) as (s1 & e & -> & Hs1 & He). destruct u as [|d u].
  - subst e. eexists. split; [done|]. split; [apply Hs1|]. intros _ Ha.
    by destruct (must_first t toks [] (or_introl Hk) Ha) as (? & ? & ? & ?).
  - destruct He as [-> Hr]. pose proof Hr as (_ & -> & Hd8). rewrite some_bind, (match_token_accepts t t' d Ht Hd8), some_bind.
    destruct (accepts t d) eqn:Ed; cbn [negb].
    + destruct (IH _ _ (next_byte_spec _ _ _ Hr)) as (j & -> & Hj). exists j. split; [done|].
      apply (settled_from _ _ _ _ _ _ Hj); [cbn; lia | |].
      * intros v. apply (front_cons t toks [d]); [by repeat constructor|]. rewrite Hk. by apply takes_single.
      * intros [Hnc _] (w & u' & E & _ & Hl & Ha)%accepted_cons. split; [done|]. rewrite Hk, takes_single in Hl.
        destruct w as [|? [|]]; try done. injection E as <- <-. destruct Ha as [|[_ [Hx|Hx]]]; [done | |]; by rewrite Hk in Hx.
    + eexists. split; [done|]. apply (mismatch_settled _ _ _ _ _ _ Hr); [cbn; lia|]. intros _ Ha.
      destruct (must_first t toks _ (or_introl Hk) Ha) as (? & ? & [= <- <-] & ?). congruence.
Qed.

Lemma perhaps_spec s u : recur t = TS_FSM_PERHAPS -> at_ s u ->
  exists j, token_loop b strict (t' :: toks') ms s = Some j /\ settled (t :: toks) ms u j.
Proof.
  intros Hk Hs. cbn [token_loop]. rewrite (kept_recur t t' Ht), Hk.
  change (TS_FSM_PERHAPS =? TS_FSM_SINGLE) with false. change (TS_FSM_PERHAPS =? TS_FSM_PERHAPS) with true. cbn iota.
  destruct (end_of_data_spec s u Hs) as (s1 & e & -> & Hs1 & He).
  assert (Hskip : exists j, token_loop b strict toks' ms s1 = Some j /\ settled toks ms u j) by by apply IH.
  assert (Hnone : forall v, front toks u v -> front (t :: toks) u v).
  { intros v. apply (front_cons t toks []); [constructor|]. rewrite Hk. apply takes_perhaps. cbn. lia. }
  assert (Hinv : accepted (t :: toks) u -> accepted toks u \/ exists d u', u = d :: u' /\ accepts t d = true /\ accepted toks u').
  { intros (w & u' & -> & Hw & Hl & [Ha|[_ [Hx|Hx]]])%accepted_cons; try (by rewrite Hk in Hx).
    rewrite Hk, takes_perhaps in Hl. destruct w as [|d [|]]; cbn in Hl; [by left | | lia].
    right. apply Forall_cons in Hw as [Hd _]. by exists d, u'. }
  destruct u as [|d u].
  - subst e. destruct Hskip as (j & -> & Hj). exists j. split; [done|].
    apply (settled_from _ _ _ _ _ _ Hj); [done | done|]. intros [Hnc _] [Ha|(? & ? & ? & _)]%Hinv; done.
  - destruct He as [-> Hr]. pose proof Hr as (_ & -> & Hd8). rewrite some_bind, (match_token_accepts t t' d Ht Hd8), some_bind.
    destruct (accepts t d) eqn:Ed; cbn [negb].
    + destruct (IH _ _ (next_byte_spec _ _ _ Hr)) as (j & -> & Hj). exists j. split; [done|].
      apply (settled_from _ _ _ _ _ _ Hj); [cbn; lia | |].
      * intros v. apply (front_cons t toks [d]); [by repeat constructor|]. rewrite Hk. apply takes_perhaps. cbn. lia.
      * intros [Hnc [Hx|Hdis]] Ha; [by rewrite Hk in Hx|].
        apply Hinv in Ha as [Ha|(? & ? & [= <- <-] & _ & Ha)]; [|done]. destruct toks as [|n toks0].
        -- by apply accepted_nil in Ha.
        -- destruct Hdis as [Hm Hdis]. destruct (must_first n toks0 _ Hm Ha) as (? & ? & [= <- <-] & Hx).
           rewrite (Hdis _ Ed) in Hx. done.
    + destruct Hskip as (j & -> & Hj). exists j. split; [done|].
      apply (settled_from _ _ _ _ _ _ Hj); [done | done|].
      intros [Hnc _] [Ha|(? & ? & [= <- <-] & ? & _)]%Hinv; [done | congruence].
Qed.

Lemma any_spec s u : recur t = TS_FSM_ANY -> at_ s u ->
  exists j, token_loop b strict (t' :: toks') ms s = Some j /\ settled (t :: toks) ms u j.
Proof.
  intros Hk Hs. cbn [token_loop]. rewrite (kept_recur t t' Ht), Hk.
  change (TS_FSM_ANY =? TS_FSM_SINGLE) with false. change (TS_FSM_ANY =? TS_FSM_PERHAPS) with false.
  change (TS_FSM_ANY =? TS_FSM_MULTI) with false. change (TS_FSM_ANY =? TS_FSM_ANY) with true. cbn iota.
  destruct (token_any_spec _ t t' toks toks' ms s u Ht Htoks IH Hs) as (j & Ej & Hj). exists j. split; [exact Ej|].
  destruct t as [ty r v]. cbn [recur] in Hk. by subst r.
Qed.

Lemma multi_spec s u : recur t = TS_FSM_MULTI -> at_ s u ->
  exists j, token_loop b strict (t' :: toks') ms s = Some j /\ settled (t :: toks) ms u j.
Proof.
  intros Hk Hs. cbn [token_loop]. rewrite (kept_recur t t' Ht), Hk.
  change (TS_FSM_MULTI =? TS_FSM_SINGLE) with false. change (TS_FSM_MULTI =? TS_FSM_PERHAPS) with false.
  change (TS_FSM_MULTI =? TS_FSM_MULTI) with true. cbn iota.
  destruct (end_of_data_spec s u Hs) as (s1 & e & -> & Hs1 & He). destruct u as [|d u].
  - subst e. eexists. split; [done|]. split; [apply Hs1|]. intros _ Ha.
    by destruct (must_first t toks [] (or_intror Hk) Ha) as (? & ? & ? & ?).
  - destruct He as [-> Hr]. pose proof Hr as (_ & -> & Hd8). rewrite some_bind, (match_token_accepts t t' d Ht Hd8), some_bind.
    destruct (accepts t d) eqn:Ed; cbn [negb].
    + destruct (token_any_spec _ t t' toks toks' ms _ u Ht Htoks IH (next_byte_spec _ _ _ Hr)) as (j & Ej & Hj).
      exists j. split; [exact Ej|]. apply (settled_from _ _ _ _ _ _ Hj); [cbn; lia | |].
      * intros v. by apply multi_as_any.
      * intros [Hnc Hd] Ha. split; [|by apply (as_any_multi _ _ d)]. split; [done|]. right.
        destruct Hd as [Hx|Hd]; [by rewrite Hk in Hx | done].
    + eexists. split; [done|]. apply (mismatch_settled _ _ _ _ _ _ Hr); [cbn; lia|]. intros _ Ha.
      destruct (must_first t toks _ (or_intror Hk) Ha) as (? & ? & [= <- <-] & ?). congruence.
Qed.
End token.

Lemma token_loop_spec toks toks' ms s u : Forall2 kept toks toks' -> Forall counted toks -> at_ s u ->
  exists j, token_loop b strict toks' ms s = Some j /\ settled toks ms u j.
Proof.
  intros Hk. revert s u. induction Hk as [|t t' toks toks' Ht Hk IH]; intros s u Hc Hs.
  - cbn [token_loop]. destruct (end_of_data_spec s u Hs) as (s1 & e & -> & Hs1 & He). eexists. split; [done|].
    destruct u as [|d u].
    + subst e. cbn. split; [done|]. exists []. split; [apply front_nil | done].
    + destruct He as [-> _]. cbn. split; [apply Hs1|]. intros _ Ha. by apply accepted_nil in Ha.
  - apply Forall_cons in Hc as [Ht' Hc]. specialize (fun s u Hs => IH s u Hc Hs).
    destruct Ht' as [Hr|[Hr|[Hr|Hr]]];
      [by apply single_spec | by apply perhaps_spec | by apply any_spec | by apply multi_spec].
Qed.
End reading.

(** ** A whole search *)

(** What fsm_init keeps of the tokens of a pattern. *)
Record prepared (toks : list ts_fsm_token) (fsm : ts_fsm) : Prop := mk_prepared {
  prepared_kept : Forall2 kept toks (tokens fsm);
  prepared_n : ntokens fsm = zlen toks;
  prepared_body : body toks <> [];
  prepared_counted : Forall counted (body toks) }.

(** A match found by a search from [o]: it starts at [r] and ends at [o']. *)
Definition found_at (toks : list ts_fsm_token) (T : list Z) (o r o' : Z) : Prop :=
  o <= r <= o' /\ o' <= zlen T /\ matches (body toks) (slice r (o' - r) T) /\
  (o' = zlen T \/ open_end (body toks)) /\ (ignores_head toks = false -> r = o).

Section find.
Context {C : Type} (b : block_fn C) (T : list Z) (ok : C -> Prop) (Hb : Serves b T ok) (HT : Forall is_u8 T).
Context (toks : list ts_fsm_token) (fsm : ts_fsm) (Hp : prepared toks fsm) (o : Z) (Ho : 0 <= o <= zlen T).
Abbreviation strict := (negb (ignores_head toks)).
Abbreviation at_ := (at_ T ok).

(** The tokens after the head, from some place [v] in the text [u] on. *)
Definition settled_in (u : list Z) (j : jump C) : Prop :=
  (exists v, v = drop (Z.to_nat (zlen T - zlen v)) T /\ (length v <= length u)%nat /\ (strict = true -> v = u) /\
     settled T ok strict (body toks) (zlen T - zlen v) v j) \/
  (strict = false /\ exists s, j = no_match s /\ ok (ctl s)).

Lemma loop_spec s u : at_ s u ->
  exists j, token_loop b strict (tokens fsm) (here s) s = Some j /\ settled_in u j.
Proof.
  intros Hs. destruct (at_here b T ok Hb s u Hs) as [-> _].
  destruct Hp as [Hkept _ Hne Hc]. unfold settled_in. revert Hne Hc. unfold body.
  destruct (ignores_head toks) eqn:Eh; cbn [negb]; intros Hne Hc.
  - destruct Hkept as [|t t' l l' Ht Hk]; [done|]. cbn in Eh. apply Z.eqb_eq in Eh. cbn [tail] in *. cbn [token_loop].
    rewrite (kept_recur t t' Ht), Eh. change (TS_FSM_HEAD_IGNORE =? TS_FSM_SINGLE) with false.
    change (TS_FSM_HEAD_IGNORE =? TS_FSM_PERHAPS) with false. change (TS_FSM_HEAD_IGNORE =? TS_FSM_MULTI) with false.
    change (TS_FSM_HEAD_IGNORE =? TS_FSM_ANY) with false. change (TS_FSM_HEAD_IGNORE =? TS_FSM_HEAD_IGNORE) with true. cbn iota.
    destruct (end_of_data_spec b T ok Hb HT s u Hs) as (s1 & e & -> & Hs1 & He). destruct u as [|d u].
    + subst e. destruct (token_loop_spec b T ok Hb HT false l l' (zlen T - zlen (@nil Z)) s1 [] Hk Hc Hs1) as (j & Ej & Hj).
      exists j. split; [exact Ej|]. left. exists []. split; [exact (at_text T ok s1 [] Hs1)|]. by split.
    + destruct He as [-> Hr]. destruct Hk as [|n n' l l' Hn Hk]; [done|]. cbn [head].
      destruct (span_spec b T ok Hb HT t t' n n' s1 d u Ht Hn Hr) as (s2 & x & w & v & E & Ew & _ & _ & Hs2 & _).
      rewrite some_bind, E, some_bind.
      destruct x; [|by eexists; split; [done|]; right; split; [done|]; exists s2; split; [done | apply Hs2] ..].
      destruct (at_here b T ok Hb s2 v Hs2) as [-> _].
      destruct (token_loop_spec b T ok Hb HT false (n :: l) (n' :: l') (zlen T - zlen v) s2 v ltac:(by constructor) Hc Hs2) as (j & Ej & Hj).
      exists j. split; [exact Ej|]. left. exists v. split; [exact (at_text T ok s2 v Hs2)|].
      split; [|done]. rewrite Ew, length_app. lia.
  - destruct (token_loop_spec b T ok Hb HT true toks (tokens fsm) (zlen T - zlen u) s u Hkept Hc Hs) as (j & Ej & Hj).
    exists j. split; [exact Ej|]. left. exists u. split; [exact (at_text T ok s u Hs)|]. done.
Qed.

(** What is so between two tries. *)
Definition trying (s : reader C) : Prop :=
  exists u, at_ s u /\ zlen u <= zlen T - o /\ (strict = true -> u = drop (Z.to_nat o) T).

Definition outcome (rs : Z * ts_state C) : Prop :=
  ok (cb rs.2) /\
  ((rs.1 = UINT_MAX /\ offset rs.2 = o /\
    (strict = true -> no_choice toks -> ~ accepted toks (drop (Z.to_nat o) T))) \/
   found_at toks T o rs.1 (offset rs.2)).

Lemma front_found u v : u = drop (Z.to_nat (zlen T - zlen u)) T -> zlen u <= zlen T - o ->
  (strict = true -> u = drop (Z.to_nat o) T) -> front (body toks) u v ->
  found_at toks T o (zlen T - zlen u) (zlen T - zlen v).
Proof.
  intros Hu Hl Hst (w & E & Hm & Hv). assert (Hw : zlen u = zlen w + zlen v) by (rewrite E, length_app; lia).
  split; [lia|]. split; [lia|]. split.
  - unfold slice. replace (zlen T - zlen v - (zlen T - zlen u)) with (zlen w) by lia.
    by rewrite <- Hu, E, Nat2Z.id, take_app_length.
  - split; [destruct Hv as [->|Hv]; [left; cbn; lia | by right]|].
    intros Hh. rewrite Hst by by rewrite Hh. rewrite length_drop. lia.
Qed.

Lemma try_spec s : trying s -> exists x, startover_step b strict (tokens fsm) o s = Some x /\
  match x with
  | inl s' => trying s' /\ 0 <= zlen T - (consumed s' + block_idx s') < zlen T - (consumed s + block_idx s)
  | inr rs => outcome rs
  end.
Proof.
  intros (u & Hs & Hu & Hst). unfold startover_step. destruct (loop_spec s u Hs) as (j & -> & Hj). rewrite some_bind.
  eexists. split; [done|].
  destruct Hj as [(v & Ev & Hl & Hsv & Hj)|(Hh & s1 & -> & Hok)].
  - destruct j as [m s1|s1|s1]; cbn in Hj.
    + destruct Hj as (-> & z & Hz & Hat). split; [apply Hat|]. right. cbn [fst snd offset].
      destruct (at_here b T ok Hb s1 z Hat) as [-> _]. apply (front_found v z); [done | lia | | done].
      intros Hh. rewrite (Hsv Hh). by apply Hst.
    + destruct Hj as [Hok Hj]. split; [done|]. left. split; [done|]. split; [done|]. intros Hh.
      unfold body in Hj. rewrite <- (Hst Hh), <- (Hsv Hh). by destruct (ignores_head toks).
    + destruct Hj as (Hh & z & Hat & Hlt). rewrite (at_length T ok _ _ Hat), (at_length T ok _ _ Hs). split; [|lia].
      exists z. split; [done|]. split; [lia|]. by rewrite Hh.
  - split; [done|]. left. split; [done|]. split; [done|]. by rewrite Hh.
Qed.

Lemma fsm_find_spec st : offset st = o -> ok (cb st) -> exists r st', fsm_find fsm b st = Some (r, st') /\
  ((o = zlen T /\ r = UINT_MAX /\ offset st' = o /\ ok (cb st')) \/ (o < zlen T /\ outcome (r, st'))).
Proof.
  intros Hst Hok. unfold fsm_find. rewrite Hst. pose proof (@serves_size _ b T ok Hb) as Hsz.
  assert (Hat : at_ (mk_reader o 0 [] (cb st)) (drop (Z.to_nat o) T)).
  { split; cbn [ctl consumed block_idx block]; [done | cbn; lia | apply prefix_nil | by rewrite drop_0 | lia]. }
  destruct (end_of_data_spec b T ok Hb HT _ _ Hat) as (s1 & e & -> & Hs1 & He).
  destruct (drop (Z.to_nat o) T) as [|d u] eqn:Ed.
  - subst e. eexists _, _. split; [done|]. left. apply (f_equal length) in Ed. rewrite length_drop in Ed. cbn in Ed.
    split; [lia|]. split; [done|]. split; [done | apply Hs1].
  - destruct He as [-> _]. apply (f_equal length) in Ed as El. rewrite length_drop in El. cbn [length] in El.
    assert (Hhd : exists t, rd (tokens fsm) 0 = Some t /\ recur t =? TS_FSM_HEAD_IGNORE = ignores_head toks).
    { destruct Hp as [Hk _ Hne _]. destruct Hk as [|t t' l l' Ht Hk]; [done|]. exists t'. split; [done|].
      by rewrite (kept_recur t t' Ht). }
    destruct Hhd as (t & -> & Hhd). rewrite some_bind, Hhd, (prepared_n _ _ Hp), Nat2Z.id.
    rewrite (Forall2_length _ _ _ (prepared_kept _ _ Hp)), firstn_all.
    destruct (run_rule trying outcome (fun s => zlen T - (consumed s + block_idx s)) (startover_step b strict (tokens fsm) o) 33 s1)
      as ([r st'] & E & Ho'); [intros s Hs; apply (try_spec s Hs) | | | ].
    + exists (d :: u). split; [done|]. split; [cbn [length]; lia | done].
    + pose proof (at_length T ok _ _ Hs1) as Hl1. destruct Hs1 as [_ ? _ _ _]. change (2 ^ Z.of_nat 33) with (2 * 2 ^ 32). lia.
    + exists r, st'. split; [exact E|]. right. split; [lia | done].
Qed.
End find.

(** ** Preparation *)

Lemma list_ind4 {A} (P : list A -> Prop) : (forall l, (length l < 4)%nat -> P l) ->
  (forall a b c d l, P l -> P (a :: b :: c :: d :: l)) -> forall l, P l.
Proof.
  intros Hs Hc. fix IH 1. intros [|a [|b [|c [|d l]]]]; [apply Hs; cbn; lia .. | apply Hc, IH].
Qed.

Definition token_range (t : ts_fsm_token) : Prop := 0 <= type t /\ 0 <= recur t.

Lemma tokens_of_spec pat : Forall is_u8 pat ->
  zlen (tokens_of pat) = zlen pat / 4 /\ Forall token_range (tokens_of pat).
Proof.
  induction pat as [l Hl|x y r v l IH] using list_ind4; intros H.
  - destruct l as [|a [|b [|c [|d l]]]]; try (by repeat constructor). cbn in Hl. lia.
  - cbn [tokens_of]. rewrite !Forall_cons in H. destruct H as (Hx & Hy & Hr & _ & H). destruct (IH H) as [E F]. split.
    + cbn [length]. rewrite Nat2Z.inj_succ, E, !Nat2Z.inj_succ.
      replace (Z.succ (Z.succ (Z.succ (Z.succ (zlen l))))) with (zlen l + 1 * 4) by lia. rewrite Z.div_add; lia.
    + constructor; [|done]. unfold is_u8 in *. split; cbn [type recur]; lia.
Qed.

Lemma token_ok_spec n i t : token_ok n i t = true -> token_range t ->
  0 <= type t <= TS_FSM_TYPE_MAX /\ (counted t \/ (recur t = TS_FSM_HEAD_IGNORE /\ i = 0 /\ n <> 1)).
Proof.
  unfold token_ok, token_range, counted, TS_FSM_RECUR_MAX, TS_FSM_HEAD_IGNORE, TS_FSM_SINGLE, TS_FSM_PERHAPS, TS_FSM_ANY, TS_FSM_MULTI.
  rewrite andb_true_iff, !negb_true_iff, orb_false_iff, !Z.ltb_ge, andb_false_iff, orb_false_iff, negb_false_iff, !Z.eqb_eq, !Z.eqb_neq.
  lia.
Qed.

Lemma tokens_ok_tail n i toks : 0 < i -> tokens_ok n i toks = true -> Forall token_range toks -> Forall counted toks.
Proof.
  revert i. induction toks as [|t toks IH]; intros i Hi; cbn; [done|].
  intros [Ht Hok]%andb_true_iff [Hr Hrs]%Forall_cons. destruct (token_ok_spec n i t Ht Hr) as [_ [Hc|Hc]]; [|lia].
  constructor; [done|]. apply (IH (i + 1)); [lia | done | done].
Qed.

Lemma tokens_ok_kept n i toks toks' : tokens_ok n i toks = true -> Forall token_range toks ->
  mapM map_type toks = Some toks' -> Forall2 kept toks toks'.
Proof.
  intros Hok Hr H%mapM_Some_1. revert i Hok. induction H as [|t t' toks toks' Ht H IH]; intros i; cbn; [done|].
  intros [Hok Hoks]%andb_true_iff. apply Forall_cons in Hr as [Hr Hrs]. constructor; [|by apply (IH Hrs (i + 1))].
  split; [done|]. by destruct (token_ok_spec n i t Hok Hr).
Qed.

Lemma fsm_init_spec kmalloc pat len fsm : Forall is_u8 pat -> 0 <= len ->
  fsm_init kmalloc pat len = Some (inr fsm) ->
  prepared (tokens_of (take (Z.to_nat len) pat)) fsm.
Proof.
  intros Hp Hlen. unfold fsm_init. change sizeof_token with 4.
  destruct (negb (len mod 4 =? 0) || (len / 4 <? 1)) eqn:E1; [done|].
  destruct (Z.ltb_spec (zlen pat) len) as [|Hle]; [done|]. apply orb_false_iff in E1 as [_ Hn]. apply Z.ltb_ge in Hn.
  destruct (tokens_of_spec (take (Z.to_nat len) pat) (Forall_take _ _ _ Hp)) as [El Hr].
  rewrite length_take in El. replace (Z.of_nat (Z.to_nat len `min` length pat)) with len in El by lia.
  set (toks := tokens_of (take (Z.to_nat len) pat)) in *.
  destruct (tokens_ok (len / 4) 0 toks) eqn:Eok; cbn [negb]; [|done].
  destruct (alloc_ts_config kmalloc _); cbn [negb]; [|done].
  destruct (mapM map_type toks) as [toks'|] eqn:Em; [|done]. intros [= <-].
  pose proof (tokens_ok_kept _ _ _ _ Eok Hr Em) as Hk.
  assert (Hb : body toks <> [] /\ Forall counted (body toks)).
  { destruct toks as [|t toks0]; [cbn in El; lia|]. cbn in Eok. apply andb_true_iff in Eok as [Ht Hts].
    apply Forall_cons in Hr as [Hr Hrs]. pose proof (tokens_ok_tail _ 1 _ ltac:(lia) Hts Hrs) as Hc.
    destruct (token_ok_spec _ _ _ Ht Hr) as [_ [Hct|(Hh & _ & H1)]]; unfold body; cbn [ignores_head].
    - replace (recur t =? TS_FSM_HEAD_IGNORE) with false; [split; [done | by constructor]|].
      symmetry. apply Z.eqb_neq. unfold counted, TS_FSM_HEAD_IGNORE, TS_FSM_SINGLE, TS_FSM_PERHAPS, TS_FSM_ANY, TS_FSM_MULTI in *. lia.
    - rewrite Hh. cbn. split; [|done]. intros ->. cbn in El. lia. }
  destruct Hb as [Hb1 Hb2]. split; [done | cbn; lia | done | done].
Qed.

(** fsm_init returns on every pattern that is in memory. *)
Lemma fsm_init_returns kmalloc pat len : Forall is_u8 pat -> 0 <= len <= zlen pat ->
  exists x, fsm_init kmalloc pat len = Some x.
Proof.
  intros Hp Hlen. unfold fsm_init. destruct (negb _ || _); [by eexists|].
  destruct (Z.ltb_spec (zlen pat) len) as [|_]; [lia|].
  destruct (tokens_of_spec (take (Z.to_nat len) pat) (Forall_take _ _ _ Hp)) as [_ Hr].
  destruct (tokens_ok _ 0 _) eqn:Eok; cbn [negb]; [|by eexists]. destruct (alloc_ts_config kmalloc _); cbn [negb]; [|by eexists].
  enough (is_Some (mapM map_type (tokens_of (take (Z.to_nat len) pat)))) as [toks' ->] by by eexists.
  apply mapM_is_Some. revert Eok Hr. generalize (tokens_of (take (Z.to_nat len) pat)) (len / sizeof_token) 0. clear.
  induction l as [|t l IH]; intros n i; cbn; [done|]. intros [Ht Hl]%andb_true_iff [Hr Hrs]%Forall_cons. constructor; [|by apply (IH n (i + 1))].
  destruct (token_ok_spec _ _ _ Ht Hr) as [Hty _]. change (is_Some (map_type t)). unfold map_type.
  unfold TS_FSM_TYPE_MAX in Hty.
  destruct (rd_is_Some token_map (type t)) as [m ->]; [cbn; lia | by eexists].
Qed.

(** ** Properties *)

(** The text that the witnesses search. *)
Definition demo_state (s : String.string) : ts_state ts_linear_state := mk_state 0 (mk_linear (zlen (text s)) (text s)).

(** C27. Every pattern in memory is prepared or refused, and a search with the
    automaton always returns, for any callback that serves the text in blocks.  It
    reports nothing and leaves the offset alone, or it reports a place from the
    offset on from which the text matches the tokens as a regular expression, up
    to the new offset; that match ends the text unless its last token repeats, and
    starts at the offset unless the head is ignored.  Where the tokens leave no
    choice, the head is not ignored and text is left, it reports nothing only when
    the text from the offset on does not match. *)
Theorem fsm_find_correct C (b : block_fn C) (T : list Z) (ok : C -> Prop) kmalloc pat len st
    (Hb : Serves b T ok) (HT : Forall is_u8 T) (Hpat : Forall is_u8 pat) (Hlen : 0 <= len <= zlen pat)
    (Hok : ok (cb st)) (Ho : 0 <= offset st <= zlen T) :
  let toks := tokens_of (take (Z.to_nat len) pat) in
  exists x, fsm_init kmalloc pat len = Some x /\ forall fsm, x = inr fsm ->
  exists r st', fsm_find fsm b st = Some (r, st') /\ ok (cb st') /\
    (found_at toks T (offset st) r (offset st') \/
     (r = UINT_MAX /\ offset st' = offset st /\
      (offset st < zlen T -> ignores_head toks = false -> no_choice toks ->
       ~ accepted toks (drop (Z.to_nat (offset st)) T)))).
Proof.
  destruct (fsm_init_returns kmalloc pat len Hpat Hlen) as [x Hx]. exists x. split; [done|]. intros fsm ->.
  pose proof (fsm_init_spec kmalloc pat len fsm Hpat (proj1 Hlen) Hx) as Hp.
  destruct (fsm_find_spec b T ok Hb HT _ fsm Hp (offset st) Ho st eq_refl Hok) as (r & st' & E & H).
  exists r, st'. split; [done|]. destruct H as [(Hend & -> & Ho' & Hk)|(_ & Hk & Hr)]; (split; [done|]).
  - right. split; [done|]. split; [done|]. lia.
  - destruct Hr as [(Hr & Ho' & Hn)|Hr]; [right | by left]. split; [done|]. split; [done|].
    intros _ Hh Hnc. apply Hn; [by rewrite Hh | done].
Qed.

Definition tok (ty r v : Z) : list Z := [ty; 0; r; v].
(** Letters, a space, one digit perhaps. *)
Definition word_number : list Z := tok 5 3 0 ++ tok 0 0 32 ++ tok 2 1 0.

Ltac bytes := repeat constructor; vm_compute; discriminate.

Lemma fsm_find_correct_witness :
  (exists fsm, fsm_init (fun _ => true) word_number 12 = Some (inr fsm) /\ no_choice (tokens_of word_number) /\
     option_map (fun x => (x.1, offset x.2)) (fsm_find fsm get_linear_data (demo_state "day 7"%string)) = Some (0, 5) /\
     option_map (fun x => (x.1, offset x.2)) (fsm_find fsm get_linear_data (demo_state "day x"%string)) = Some (UINT_MAX, 0)) /\
  exists x, fsm_init (fun _ => true) word_number 12 = Some x /\ forall fsm, x = inr fsm ->
  exists r st', fsm_find fsm get_linear_data (demo_state "day 7"%string) = Some (r, st') /\
    cb st' = mk_linear 5 (text "day 7"%string) /\
    (found_at (tokens_of word_number) (text "day 7"%string) 0 r (offset st') \/
     (r = UINT_MAX /\ offset st' = 0 /\
      (0 < 5 -> ignores_head (tokens_of word_number) = false -> no_choice (tokens_of word_number) ->
       ~ accepted (tokens_of word_number) (text "day 7"%string)))).
Proof.
  split.
  - eexists. split; [reflexivity|]. split; [|split; vm_compute; reflexivity].
    cbn. split; [split; [split; [done | by right]|by left]|]. right. split; [by left|].
    intros d Hd. change (isalpha d = true) in Hd. change ((32 =? d) = false).
    destruct (Z.eqb_spec 32 d) as [<-|]; [by vm_compute in Hd | done].
  - apply (fsm_find_correct _ get_linear_data (text "day 7"%string) (fun st => st = mk_linear 5 (text "day 7"%string))
      (fun _ => true) word_number 12 (demo_state "day 7"%string)
      (linear_serves (text "day 7"%string) 5 ltac:(cbn; lia) ltac:(lia))); [bytes | bytes | cbn; lia | reflexivity | cbn; lia].
Defined.

(** ** What the automaton misses *)

Definition fsm_run (pat : list Z) (s : String.string) : option (Z * Z) :=
  match fsm_init (fun _ => true) pat (zlen pat) with
  | Some (inr fsm) => option_map (fun x => (x.1, offset x.2)) (fsm_find fsm get_linear_data (demo_state s))
  | _ => None
  end.

(** A head is ignored up to the first byte of the next token. *)
Example fsm_ignores_head : fsm_run (tok 2 4 0 ++ tok 0 0 46 ++ tok 2 3 0) "31.45x"%string = Some (2, 4).
Proof. vm_compute. reflexivity. Qed.

(** A match before the end of the text is not reported, though the pattern occurs. *)
Example fsm_misses_inner : fsm_run (tok 0 0 97 ++ tok 0 0 98) "abc"%string = Some (UINT_MAX, 0).
Proof. vm_compute. reflexivity. Qed.

(** The byte that fails a try is never a start: a, a, b is missed in the text aaab,
    and a in aba, where the first try ends the search. *)
Example fsm_misses_overlap :
  fsm_run (tok 1 4 0 ++ tok 0 0 97 ++ tok 0 0 97 ++ tok 0 0 98) "aaab"%string = Some (UINT_MAX, 0) /\
  fsm_run (tok 1 4 0 ++ tok 0 0 97) "aba"%string = Some (UINT_MAX, 0).
Proof. vm_compute. done. Qed.

(** A token that repeats stops at the first byte of the next, whatever comes after:
    a*, a is missed in aa, and a*, b or nothing, c in aac. *)
Example fsm_misses_choices :
  fsm_run (tok 0 2 97 ++ tok 0 0 97) "aa"%string = Some (UINT_MAX, 0) /\
  fsm_run (tok 0 2 97 ++ tok 0 1 98 ++ tok 0 0 99) "aac"%string = Some (UINT_MAX, 0).
Proof. vm_compute. done. Qed.

(** fsm_get_pattern gives the flags of the classes for their numbers: it is not
    the pattern, and preparing it again fails. *)
Example fsm_pattern_changed :
  match fsm_init (fun _ => true) (tok 3 0 0) 4 with
  | Some (inr fsm) => fsm_get_pattern fsm = [68; 0; 0; 0] /\
      fsm_init (fun _ => true) (fsm_get_pattern fsm) (fsm_get_pattern_len fsm) = Some (inl (- EINVAL))
  | _ => False
  end.
Proof. vm_compute. done. Qed.
