(* ===== verification/Cmdline.v ===== *)
(** * lib/cmdline.c: options on the kernel command line

    Lists of integers and ranges, and sizes with a K, M or G suffix.  A pointer into
    the string is the list of the bytes from it on; integers are stored in an array
    whose bounds are checked, and a store outside of it gives [None]: get_range
    has no bound of its own ([get_options_overflows]). *)

From Stdlib Require Import Ascii String.
From S2P Require Import Prelude Ctype StringLib Strtol Vsprintf.

#[local] Open Scope char_scope.
#[local] Open Scope Z_scope.

(** ** Operations *)

(** for (x = *pint; x < upper_range; x++) *pint++ = x, [n] times *)
Fixpoint range_loop (n : nat) (ints : list Z) (i x : Z) : option (list Z) :=
  match n with
  | O => Some ints
  | S n => ints ← wr ints i x; range_loop n ints (i + 1) (x + 1)
  end.

(** [ints + i] is [pint]. *)
Definition get_range (str : list Z) (ints : list Z) (i : Z) : option (Z * list Z * list Z) :=
  let str := tail str in
  '(upper_range, _) ← simple_strtol str 0;
  x ← rd ints i;
  let inc_counter := s32 (upper_range - x) in
  ints ← range_loop (Z.to_nat (upper_range - x)) ints i x;
  Some (inc_counter, str, ints).

(** The result, *str and the array; [None] as [str] is NULL. *)
Definition get_option (str : option (list Z)) (ints : list Z) (i : Z) : option (Z * option (list Z) * list Z) :=
  match str with
  | None => Some (0, None, ints)
  | Some cur =>
    c ← deref cur;
    if c =? 0 then Some (0, str, ints) else
    '(v, e) ← simple_strtol cur 0;
    ints ← wr ints i v;
    if zlen cur =? zlen e then Some (0, Some e, ints) else
    c ← deref e;
    Some (if c =? ch "," then (2, Some (tail e), ints)
          else if c =? ch "-" then (3, Some e, ints) else (1, Some e, ints))
  end.

(** One round of the loop: [i], [str] and the array. *)
Definition options_step (nints : Z) (st : Z * option (list Z) * list Z) :
    option (Z * option (list Z) * list Z + Z * option (list Z) * list Z) :=
  let '(i, str, ints) := st in
  if negb (i <? nints) then Some (inr st) else
  '(res, str, ints) ← get_option str ints i;
  if res =? 0 then Some (inr (i, str, ints)) else
  '(stop, i, str, ints) ← (if res =? 3 then
      s ← str;
      '(range_nums, s, ints) ← get_range s ints i;
      Some (range_nums <? 0, if range_nums <? 0 then i else i + (range_nums - 1), Some s, ints)
    else Some (false, i, str, ints));
  if (stop : bool) then Some (inr (i, str, ints)) else
  let i := i + 1 in
  Some (if res =? 1 then inr (i, str, ints) else inl (i, str, ints)).
Definition get_options (str : option (list Z)) (nints : Z) (ints : list Z) : option (option (list Z) * list Z) :=
  '(i, str, ints) ← run 32 (options_step nints) (1, str, ints);
  ints ← wr ints 0 (i - 1);
  Some (str, ints).

(** The cases fall through. *)
Definition memparse (ptr : list Z) : option (Z * list Z) :=
  '(ret, e) ← simple_strtoull ptr 0;
  c ← deref e;
  let g := (c =? ch "G") || (c =? ch "g") in
  let m := g || (c =? ch "M") || (c =? ch "m") in
  let k := m || (c =? ch "K") || (c =? ch "k") in
  let ret := if g then u64 (Z.shiftl ret 10) else ret in
  let ret := if m then u64 (Z.shiftl ret 10) else ret in
  let ret := if k then u64 (Z.shiftl ret 10) else ret in
  Some (ret, if k then tail e else e).

(** ** Reference *)

(** A number as it is written, and what may follow it. *)
Definition decimal (n : Z) : list Z := map digit_char (rev (base_rev 10 25 n)).
Definition ends_number (rest : list Z) : Prop :=
  match rest with [] => False | c :: _ => isxdigit c = false /\ toupper c <> ch "X" end.

Inductive item := Num (n : Z) | Range (lo hi : Z).
Definition item_ok (a : item) : Prop :=
  match a with Num n => 0 <= n < 2 ^ 31 | Range lo hi => 0 <= lo /\ lo <= hi < 2 ^ 31 end.
Definition item_text (a : item) : list Z :=
  match a with Num n => decimal n | Range lo hi => decimal lo ++ ch "-" :: decimal hi end.
Definition item_values (a : item) : list Z :=
  match a with Num n => [n] | Range lo hi => seqZ lo (hi - lo + 1) end.
Fixpoint items_text (l : list item) : list Z :=
  match l with
  | [] => []
  | [a] => item_text a
  | a :: l => item_text a ++ ch "," :: items_text l
  end.
Definition items_values (l : list item) : list Z := concat (map item_values l).

(** The power of two of a suffix, and the number of its characters. *)
Definition suffix_shift (c : Z) : Z :=
  if (c =? ch "G") || (c =? ch "g") then 30
  else if (c =? ch "M") || (c =? ch "m") then 20
  else if (c =? ch "K") || (c =? ch "k") then 10 else 0.

(** ** Reading numbers *)

Lemma base_rev_top fuel n : 0 < n < 10 ^ Z.of_nat fuel -> exists d l, rev (base_rev 10 fuel n) = d :: l /\ 1 <= d <= 9.
Proof.
  revert n. induction fuel as [|fuel IH]; intros n Hn; [lia|]. cbn [base_rev].
  destruct (Z.ltb_spec n 10); [exists n, []; split; [done | lia]|].
  rewrite Nat2Z.inj_succ, Z.pow_succ_r in Hn by lia.
  destruct (IH (n / 10)) as (d & l & E & Hd).
  { split; [apply Z.div_str_pos; lia|]. apply Z.div_lt_upper_bound; lia. }
  exists d, (l ++ [n mod 10]). split; [|done]. cbn [rev]. by rewrite E.
Qed.

Lemma decimal_head n : 0 < n < 2 ^ 64 -> exists c t, decimal n = c :: t /\ ch "1" <= c <= ch "9".
Proof.
  intros Hn. destruct (base_rev_top 25 n) as (d & l & E & Hd).
  { change (10 ^ Z.of_nat 25) with 10000000000000000000000000. lia. }
  exists (digit_char d), (map digit_char l). unfold decimal. rewrite E. split; [done|].
  unfold digit_char. destruct (Z.ltb_spec d 10); [|lia]. unfold ch. cbn. lia.
Qed.

Lemma decimal_digits n : 0 <= n -> Forall (fun d => 0 <= d < 10) (rev (base_rev 10 25 n)).
Proof. intros Hn. apply Forall_rev. by apply base_rev_bound. Qed.

Lemma decimal_length n : (1 <= length (decimal n))%nat.
Proof. unfold decimal. rewrite length_map, length_rev. pose proof (base_rev_pos 10 24 n). lia. Qed.


Lemma strto_base_decimal n rest : 0 <= n < 2 ^ 64 -> ends_number rest ->
  strto_base (decimal n ++ rest) 0 = Some (if n =? 0 then (rest, 8) else (decimal n ++ rest, 10)).
Proof.
  intros Hn Hrest. destruct (Z.eqb_spec n 0) as [->|Hne].
  - destruct rest as [|c rest]; [done|]. destruct Hrest as [_ Hx]. change (decimal 0) with [ch "0"].
    unfold strto_base. cbn [app Z.eqb deref head tail]. cbn [mbind option_bind]. rewrite Z.eqb_refl.
    destruct (Z.eqb_spec (toupper c) (ch "X")); done.
  - destruct (decimal_head n) as (c & t & -> & Hc); [lia|]. unfold strto_base. cbn [app Z.eqb deref head].
    rewrite some_bind. destruct (Z.eqb_spec c (ch "0")) as [->|]; [|done]. unfold ch in Hc. cbn in Hc. lia.
Qed.

Lemma decimal_strto (wrap value : Z -> Z) M n rest cp base : (forall z, wrap z = z mod M) -> 16 <= M <= 2 ^ 64 ->
  (forall d, 0 <= d < 16 -> value (digit_char d) = d) -> 0 <= n < M -> ends_number rest ->
  strto_base (decimal n ++ rest) 0 = Some (cp, base) -> strto_digits wrap value cp base 0 = Some (n, rest).
Proof.
  intros Hw HM Hv Hn Hrest. rewrite strto_base_decimal by (lia || done).
  assert (Hstop : forall b, match rest with [] => False | c :: _ => isxdigit c = false \/ b <= wrap (value c) end).
  { destruct rest; [done|]. intros b. left. apply Hrest. }
  destruct (Z.eqb_spec n 0) as [->|Hne]; intros [= <- <-].
  - pose proof (strto_digits_spec wrap value M 8 [] rest 0 Hw) as H. cbn in H. rewrite H; [|lia|lia|done|constructor|apply Hstop|lia].
    by rewrite Z.mod_0_l by lia.
  - unfold decimal. rewrite (strto_digits_spec wrap value M); [|done|lia|lia|done|apply decimal_digits; lia|apply Hstop|lia].
    do 2 f_equal. change (foldl _ 0 ?l) with (digits_value 10 l). rewrite base_rev_value; [by apply Z.mod_small|lia| |lia].
    change (10 ^ Z.of_nat 25) with 10000000000000000000000000. lia.
Qed.

Lemma strtoull_decimal n rest : is_u64 n -> ends_number rest -> simple_strtoull (decimal n ++ rest) 0 = Some (n, rest).
Proof.
  intros Hn Hrest. unfold simple_strtoull, is_u64 in *. rewrite strto_base_decimal, some_bind by (lia || done).
  destruct (if n =? 0 then _ else _) as [cp base] eqn:E. apply (decimal_strto u64 digit_value_ll (2 ^ 64)); [done | lia | | done | done |].
  - intros d Hd. by apply digit_char_value.
  - rewrite strto_base_decimal by (lia || done). by rewrite E.
Qed.

Lemma strtoul_decimal n rest : is_u32 n -> ends_number rest -> simple_strtoul (decimal n ++ rest) 0 = Some (n, rest).
Proof.
  intros Hn Hrest. unfold simple_strtoul, is_u32 in *. rewrite strto_base_decimal, some_bind by (lia || done).
  destruct (if n =? 0 then _ else _) as [cp base] eqn:E. apply (decimal_strto u32 digit_value (2 ^ 32)); [done | lia | | done | done |].
  - intros d Hd. by apply digit_char_value.
  - rewrite strto_base_decimal by (lia || done). by rewrite E.
Qed.

Lemma decimal_first n rest : 0 <= n < 2 ^ 64 -> exists c, deref (decimal n ++ rest) = Some c /\ ch "0" <= c <= ch "9".
Proof.
  intros Hn. destruct (decide (n = 0)) as [->|Hne]; [by exists (ch "0")|].
  destruct (decimal_head n) as (c & t & -> & Hc); [lia|]. exists c. split; [done|]. unfold ch in *. cbn in *. lia.
Qed.

Lemma strtol_decimal n rest : 0 <= n < 2 ^ 31 -> ends_number rest -> simple_strtol (decimal n ++ rest) 0 = Some (n, rest).
Proof.
  intros Hn Hrest. unfold simple_strtol. destruct (decimal_first n rest) as (c & -> & Hc); [lia|]. rewrite some_bind.
  destruct (Z.eqb_spec c (ch "-")) as [->|_]; [unfold ch in Hc; cbn in Hc; lia|].
  rewrite strtoul_decimal, some_bind by (unfold is_u32; done || lia). by rewrite s32_small by lia.
Qed.

(** ** The array *)

Lemma wr_middle {A} (pre : list A) v w post i : i = zlen pre -> wr (pre ++ v :: post) i w = Some (pre ++ w :: post).
Proof.
  intros ->. rewrite wr_Some by (rewrite length_app; cbn [length]; lia). f_equal.
  rewrite Nat2Z.id, <-(Nat.add_0_r (length pre)), insert_app_r. done.
Qed.

Lemma rd_middle {A} (pre : list A) v post i : i = zlen pre -> rd (pre ++ v :: post) i = Some v.
Proof. intros ->. rewrite rd_nat, <-(Nat.add_0_r (length pre)), lookup_app_r by lia. by rewrite Nat.add_0_r, Nat.sub_diag. Qed.

Lemma range_loop_spec n : forall pre old post i x, length old = n -> i = zlen pre ->
  range_loop n (pre ++ old ++ post) i x = Some (pre ++ seqZ x (Z.of_nat n) ++ post).
Proof.
  induction n as [|n IH]; intros pre old post i x Hl ->; cbn [range_loop].
  - destruct old; [|done]. done.
  - destruct old as [|v old]; [done|]. injection Hl as Hl. cbn [app]. rewrite (wr_middle pre v x (old ++ post) _ eq_refl), some_bind.
    replace (pre ++ x :: old ++ post) with ((pre ++ [x]) ++ old ++ post) by (by rewrite <-app_assoc).
    rewrite (IH (pre ++ [x]) old post (zlen pre + 1) (x + 1) Hl) by (rewrite length_app; cbn [length]; lia).
    rewrite (seqZ_cons x (Z.of_nat (S n))) by lia. rewrite <-app_assoc. cbn [app].
    replace (Z.pred (Z.of_nat (S n))) with (Z.of_nat n) by lia. done.
Qed.

(** ** Lists of options *)

Section options.
Context (rest : list Z) (Hrest : ends_number rest) (Hend : forall c, deref rest = Some c -> c <> ch "," /\ c <> ch "-").

(** What follows an item. *)
Definition follow (l : list item) : list Z :=
  match l with [] => rest | _ => ch "," :: items_text l ++ rest end.

Lemma items_text_cons a l : items_text (a :: l) ++ rest = item_text a ++ follow l.
Proof. destruct l; [done|]. cbn [items_text follow]. by rewrite <-app_assoc. Qed.

Lemma follow_ends l : ends_number (follow l).
Proof. destruct l; [done|]. split; done. Qed.

Lemma get_option_number n l pre v post : 0 <= n < 2 ^ 31 ->
  get_option (Some (decimal n ++ follow l)) (pre ++ v :: post) (zlen pre) =
  Some (match l with [] => 1 | _ => 2 end, Some (match l with [] => rest | _ => items_text l ++ rest end), pre ++ n :: post).
Proof.
  intros Hn. unfold get_option. destruct (decimal_first n (follow l)) as (c & -> & Hc); [lia|]. rewrite some_bind.
  destruct (Z.eqb_spec c 0) as [->|_]; [unfold ch in Hc; cbn in Hc; lia|].
  rewrite (strtol_decimal n (follow l) Hn (follow_ends l)), some_bind, (wr_middle pre v n post _ eq_refl), some_bind.
  pose proof (decimal_length n). rewrite length_app. destruct (Z.eqb_spec (Z.of_nat (length (decimal n) + length (follow l))) (zlen (follow l))); [lia|].
  destruct l as [|a l]; [|done]. cbn [follow]. pose proof Hrest as Hr. destruct rest as [|c' r]; [done|].
  destruct (Hend c' eq_refl) as [H1 H2]. cbn [deref head]. rewrite some_bind.
  destruct (Z.eqb_spec c' (ch ",")), (Z.eqb_spec c' (ch "-")); done.
Qed.

Lemma get_option_range lo hi l pre v post : 0 <= lo < 2 ^ 31 ->
  get_option (Some (decimal lo ++ ch "-" :: decimal hi ++ follow l)) (pre ++ v :: post) (zlen pre) =
  Some (3, Some (ch "-" :: decimal hi ++ follow l), pre ++ lo :: post).
Proof.
  intros Hn. unfold get_option. set (e := ch "-" :: decimal hi ++ follow l). destruct (decimal_first lo e) as (c & -> & Hc); [lia|]. rewrite some_bind.
  destruct (Z.eqb_spec c 0) as [->|_]; [unfold ch in Hc; cbn in Hc; lia|].
  rewrite (strtol_decimal lo e Hn), some_bind, (wr_middle pre v lo post _ eq_refl), some_bind by (split; done).
  pose proof (decimal_length lo). rewrite length_app. destruct (Z.eqb_spec (Z.of_nat (length (decimal lo) + length e)) (zlen e)); [lia|]. done.
Qed.

Lemma get_range_spec lo hi l pre old post : 0 <= lo -> lo <= hi < 2 ^ 31 -> zlen old = hi - lo + 1 -> head old = Some lo ->
  exists v, get_range (ch "-" :: decimal hi ++ follow l) (pre ++ old ++ post) (zlen pre) =
    Some (hi - lo, decimal hi ++ follow l, pre ++ seqZ lo (hi - lo) ++ v :: post).
Proof.
  intros Hlo Hhi Hold Hhd. destruct old as [|v0 old]; [done|]. injection Hhd as ->.
  destruct (exists_last (l:=lo :: old)) as (old' & v & E); [done|]. exists v.
  assert (Hl' : length old' = Z.to_nat (hi - lo)). { rewrite E, length_app in Hold. cbn [length] in Hold. lia. }
  unfold get_range. cbn [tail]. rewrite (strtol_decimal hi (follow l) ltac:(lia) (follow_ends l)), some_bind.
  rewrite (rd_middle pre lo (old ++ post) _ eq_refl : rd (pre ++ (lo :: old) ++ post) (zlen pre) = Some lo), some_bind.
  rewrite E, <-app_assoc. cbn [app]. rewrite (range_loop_spec _ pre old' (v :: post) _ lo Hl' eq_refl), some_bind.
  rewrite s32_small by lia. rewrite Z2Nat.id by lia. done.
Qed.

Lemma options_loop nints l0 x old tl : l0 <> [] -> Forall item_ok l0 ->
  length old = length (items_values l0) -> 1 + zlen (items_values l0) <= nints -> zlen (items_text l0 ++ rest) < 2 ^ 32 ->
  run 32 (options_step nints) (1, Some (items_text l0 ++ rest), x :: old ++ tl) =
    Some (1 + zlen (items_values l0), Some rest, x :: items_values l0 ++ tl).
Proof.
  intros Hne Hok Hold Hn Hsz. set (all := items_values l0).
  destruct (run_rule (fun st : Z * option (list Z) * list Z => exists acc l old, l <> [] /\ Forall item_ok l /\
      st = (1 + zlen acc, Some (items_text l ++ rest), (x :: acc) ++ old ++ tl) /\
      acc ++ items_values l = all /\ length old = length (items_values l))
    (fun r => r = (1 + zlen all, Some rest, x :: all ++ tl))
    (fun st => match st.1.2 with Some s => zlen s | None => 0 end) (options_step nints) 32
    (1, Some (items_text l0 ++ rest), x :: old ++ tl)) as (r & E & Hr).
  - intros ? (acc & l & od & Hl & Hlok & -> & Hall & Hod). unfold options_step.
    assert (Hlen : zlen acc + zlen (items_values l) = zlen all) by (rewrite <-Hall, length_app; lia).
    destruct l as [|a l]; [done|]. rewrite items_text_cons. inversion_clear Hlok as [|? ? Ha Hlok'].
    unfold items_values in Hod, Hlen, Hall. cbn [map concat] in Hod, Hlen, Hall. fold (items_values l) in Hod, Hlen, Hall.
    rewrite length_app in Hod, Hlen.
    assert (Hpos : (1 <= length (item_values a))%nat).
    { destruct a as [n|lo hi]; cbn; [lia|]. destruct Ha. rewrite length_seqZ. lia. }
    destruct (Z.ltb_spec (1 + zlen acc) nints) as [_|]; [|subst all; lia]. cbn [negb].
    destruct od as [|v od]; [cbn in Hod; lia|]. replace (1 + zlen acc) with (zlen (x :: acc)) by (cbn [length]; lia).
    destruct a as [n|lo hi]; cbn [item_text item_values item_ok] in *.
    + cbn [app]. change (x :: acc ++ v :: od ++ tl) with ((x :: acc) ++ v :: od ++ tl).
      rewrite (get_option_number n l (x :: acc) v (od ++ tl) Ha), some_bind. cbn [length] in Hod.
      destruct l as [|b l]; cbn [Z.eqb Pos.eqb]; rewrite some_bind; cbn beta iota.
      * eexists. split; [done|]. cbn beta iota. destruct od; [|done]. rewrite <-Hall. cbn [items_values map concat].
        rewrite !length_app. cbn [length app]. rewrite <-app_assoc. cbn [app]. do 2 f_equal. lia.
      * eexists. split; [done|]. cbn beta iota. split.
        { exists (acc ++ [n]), (b :: l), od. split; [done|]. split; [done|]. split; [|split].
          - rewrite length_app. cbn [length app]. rewrite <-app_assoc. cbn [app]. do 2 f_equal. lia.
          - by rewrite <-app_assoc.
          - lia. }
        cbn [fst snd follow]. rewrite !length_app. cbn [length]. pose proof (decimal_length n). rewrite ?length_app. lia.
    + destruct Ha as [Hlo Hhi]. rewrite <-app_assoc. cbn [app]. change (x :: acc ++ v :: od ++ tl) with ((x :: acc) ++ v :: od ++ tl).
      rewrite (get_option_range lo hi l (x :: acc) v (od ++ tl)), some_bind by lia. cbn [Z.eqb Pos.eqb]. rewrite some_bind.
      rewrite length_seqZ in *.
      set (o1 := take (Z.to_nat (hi - lo + 1)) (lo :: od)). set (o2 := drop (Z.to_nat (hi - lo + 1)) (lo :: od)).
      assert (Ho : lo :: od ++ tl = o1 ++ o2 ++ tl) by (unfold o1, o2; rewrite app_assoc, take_drop; done). rewrite Ho.
      cbn [length] in Hod.
      destruct (get_range_spec lo hi l (x :: acc) o1 (o2 ++ tl) Hlo Hhi) as [w ->].
      { unfold o1. rewrite length_take. cbn [length]. lia. }
      { unfold o1. replace (Z.to_nat (hi - lo + 1)) with (S (Z.to_nat (hi - lo))) by lia. done. }
      rewrite some_bind. cbn beta iota. destruct (Z.ltb_spec (hi - lo) 0) as [|_]; [lia|]. rewrite some_bind. cbn beta iota.
      eexists. split; [done|]. cbn beta iota. split.
      * exists (acc ++ seqZ lo (hi - lo)), (Num hi :: l), (w :: o2). split; [done|]. split; [constructor; [cbn; lia | done]|]. split; [|split].
        { rewrite items_text_cons. cbn [item_text]. rewrite length_app, length_seqZ. cbn [length app]. rewrite <-!app_assoc. cbn [app].
          do 2 f_equal. lia. }
        { rewrite <-Hall, <-app_assoc. f_equal. cbn [items_values map concat item_values]. fold (items_values l).
          rewrite (seqZ_app lo (hi - lo) 1) by lia. rewrite <-app_assoc. do 3 f_equal. replace (lo + (hi - lo)) with hi by lia. done. }
        { cbn [items_values map concat item_values]. fold (items_values l). rewrite length_app. cbn [length].
          unfold o2. rewrite length_drop. cbn [length]. lia. }
      * cbn [fst snd]. rewrite !length_app. cbn [length]. rewrite !length_app. pose proof (decimal_length lo). lia.
  - exists [], l0, old. split; [done|]. split; [done|]. split; [done|]. split; done.
  - cbn [fst snd]. exact Hsz.
  - rewrite E. by subst r.
Qed.
End options.

(** ** The theorems *)

(** get_options reads back every list of numbers and ranges: the array holds the
    numbers, each range as all its numbers, after their count, the cells
    beyond are untouched and the returned pointer is at the character that ended the
    list, whenever the array has room for all of them. *)
Theorem get_options_reads_list l rest nints ints : l <> [] -> Forall item_ok l -> ends_number rest ->
  (forall c, deref rest = Some c -> c <> ch "," /\ c <> ch "-") ->
  1 + zlen (items_values l) <= nints <= zlen ints -> zlen (items_text l ++ rest) < 2 ^ 32 ->
  get_options (Some (items_text l ++ rest)) nints ints =
    Some (Some rest, zlen (items_values l) :: items_values l ++ drop (S (length (items_values l))) ints).
Proof.
  intros Hne Hok Hrest Hend Hn Hsz. destruct ints as [|x ints]; [cbn in Hn; lia|]. cbn [length] in Hn.
  set (k := length (items_values l)) in *. cbn [drop]. unfold get_options. rewrite <-(take_drop k ints) at 1.
  rewrite (options_loop rest Hrest Hend nints l x (take k ints) (drop k ints)); [|done|done| |unfold k in *; lia|done].
  - rewrite some_bind, wr_Some, some_bind by (cbn [length]; lia). fold k. cbn [Z.to_nat insert list_insert].
    by replace (1 + Z.of_nat k - 1) with (Z.of_nat k) by lia.
  - rewrite length_take. lia.
Qed.

Lemma get_options_reads_list_witness : get_options (Some (cstr "1,3-5,7"%string)) 8 (replicate 8 99) =
  Some (Some [0], [5; 1; 3; 4; 5; 7; 99; 99]).
Proof.
  pose proof (get_options_reads_list [Num 1; Range 3 5; Num 7] [0] 8 (replicate 8 99)) as H.
  change (cstr "1,3-5,7"%string) with (items_text [Num 1; Range 3 5; Num 7] ++ [0]).
  rewrite H; [reflexivity | discriminate | | done | | vm_compute; split; discriminate | vm_compute; reflexivity].
  - repeat (constructor; [cbn; lia|]). constructor.
  - intros c Hc. injection Hc as <-. done.
Defined.

(** A range is written out without regard to the room in the array. *)
Example get_options_overflows : get_options (Some (cstr "1-9"%string)) 4 [0; 0; 0; 0] = None /\
  get_options (Some (cstr "1,2,3,4,5,6,7,8,9"%string)) 4 [0; 0; 0; 0] = Some (Some (text "4,5,6,7,8,9"%string ++ [0]), [3; 1; 2; 3]).
Proof. split; vm_compute; reflexivity. Qed.

(** memparse reads a decimal number and a suffix: the value is the number times
    1024, 1024^2 or 1024^3 for K, M or G, in 64 bits, and the pointer is
    after the suffix; without a suffix it is after the number. *)
Theorem memparse_suffix n c r : is_u64 n -> isxdigit c = false -> toupper c <> ch "X" ->
  memparse (decimal n ++ c :: r) =
    Some (u64 (n * 2 ^ suffix_shift c), if suffix_shift c =? 0 then c :: r else r).
Proof.
  intros Hn Hx HX. unfold memparse. rewrite strtoull_decimal, some_bind by done. cbn [deref head]. rewrite some_bind.
  unfold suffix_shift. set (g := (c =? ch "G") || (c =? ch "g")). set (m := (c =? ch "M") || (c =? ch "m")).
  set (k := (c =? ch "K") || (c =? ch "k")).
  replace (g || (c =? ch "M") || (c =? ch "m")) with (g || m) by (unfold m; by rewrite orb_assoc).
  replace (g || m || (c =? ch "K") || (c =? ch "k")) with (g || m || k) by (unfold k; by rewrite orb_assoc).
  destruct g; [|destruct m; [|destruct k]]; cbn [orb Z.eqb tail];
    rewrite ?Z.shiftl_mul_pow2 by lia; do 2 f_equal; unfold u64;
    repeat (rewrite <-?Z.mul_assoc; rewrite ?Zmult_mod_idemp_l); try (f_equal; lia).
  rewrite Z.mul_1_r. symmetry. by apply u64_small.
Qed.

Lemma memparse_suffix_witness : is_u64 64 /\ memparse (text "64M@0x80000000"%string) = Some (67108864, text "@0x80000000"%string).
Proof.
  split; [unfold is_u64; lia|].
  exact (memparse_suffix 64 (ch "M") (text "@0x80000000"%string) ltac:(unfold is_u64; lia) eq_refl ltac:(discriminate)).
Defined.
