(* ===== verification/ArgvSplit.v ===== *)
(** * lib/argv_split.c: a string to its words

    The strings and the array of pointers are blocks of an allocator that may
    refuse; a block is the list of its cells, and freeing what is not allocated, or
    using a cell that is not there, gives [None]. *)

From Stdlib Require Import Ascii String.
From S2P Require Import Prelude Ctype StringLib.

(** ** Allocation

    The blocks in use by their addresses; [grants n] tells whether the [n]-th
    request is met. *)

Record heap := mk_heap { requests : Z; blocks : gmap Z (list Z); grants : Z -> bool }.

(** The address, or NULL; the address of the [n]-th request is [n]. *)
Definition kmalloc (h : heap) (cells : list Z) : heap * Z :=
  let n := requests h + 1 in
  if grants h n then (mk_heap n (<[n := cells]> (blocks h)) (grants h), n)
  else (mk_heap n (blocks h) (grants h), 0).
Definition kfree (h : heap) (p : Z) : option heap :=
  if p =? 0 then Some h else
  _ ← blocks h !! p;
  Some (mk_heap (requests h) (delete p (blocks h)) (grants h)).
Definition heap_load (h : heap) (p i : Z) : option Z := b ← blocks h !! p; rd b i.
Definition heap_store (h : heap) (p i v : Z) : option heap :=
  b ← blocks h !! p;
  b ← wr b i v;
  Some (mk_heap (requests h) (<[p := b]> (blocks h)) (grants h)).

(** kstrndup, of a string that is not NULL *)
Definition kstrndup (h : heap) (s : list Z) (max : Z) : option (heap * Z) :=
  len ← strnlen s max;
  Some (kmalloc h (take (Z.to_nat len) s ++ [0])).

(** ** Operations *)

Fixpoint skip_sep (cp : list Z) : option (list Z) :=
  match cp with
  | [] => None
  | c :: cp' => if negb (c =? 0) && isspace c then skip_sep cp' else Some cp
  end.
Fixpoint skip_arg (cp : list Z) : option (list Z) :=
  match cp with
  | [] => None
  | c :: cp' => if negb (c =? 0) && negb (isspace c) then skip_arg cp' else Some cp
  end.

Definition count_step (st : list Z * Z) : option (list Z * Z + Z) :=
  let '(str, count) := st in
  c ← deref str;
  if c =? 0 then Some (inr count) else
  str ← skip_sep str;
  c ← deref str;
  if c =? 0 then Some (inl (str, count)) else
  let count := s32 (count + 1) in
  str ← skip_arg str;
  Some (inl (str, count)).
Definition count_argc (str : list Z) : option Z := run 33 count_step (str, 0).

(** for (p = argv; *p; p++) kfree( *p) *)
Definition free_step (argv : Z) (st : heap * Z) : option (heap * Z + heap) :=
  let '(h, i) := st in
  p ← heap_load h argv i;
  if p =? 0 then Some (inr h) else
  h ← kfree h p;
  Some (inl (h, i + 1)).
Definition argv_free (h : heap) (argv : Z) : option heap :=
  h ← run 33 (free_step argv) (h, 0);
  kfree h argv.

(** One round of the loop: [str], [argvp] and the heap; [false] is [goto fail]. *)
Definition split_step (argv : Z) (st : list Z * Z * heap) : option (list Z * Z * heap + heap * Z * bool) :=
  let '(str, argvp, h) := st in
  c ← deref str;
  if c =? 0 then Some (inr (h, argvp, true)) else
  str ← skip_sep str;
  c ← deref str;
  if c =? 0 then Some (inl (str, argvp, h)) else
  let p := str in
  str ← skip_arg str;
  '(h, t) ← kstrndup h p (zlen p - zlen str);
  if t =? 0 then Some (inr (h, argvp, false)) else
  h ← heap_store h argv argvp t;
  Some (inl (str, argvp + 1, h)).

(** sizeof( *argv) *)
Definition sizeof_ptr : Z := 4.

(** The array and argc; *argcp is not set without an array.  The size of the
    array in bytes wraps around. *)
Definition argv_split (h : heap) (str : list Z) : option (heap * Z * option Z) :=
  argc ← count_argc str;
  let cells := u32 (sizeof_ptr * u32 (argc + 1)) / sizeof_ptr in
  let '(h, argv) := kmalloc h (replicate (Z.to_nat cells) 0) in
  if argv =? 0 then Some (h, 0, None) else
  '(h, argvp, done_) ← run 33 (split_step argv) (str, 0, h);
  if (done_ : bool) then
    h ← heap_store h argv argvp 0;
    Some (h, argv, Some argc)
  else
    h ← argv_free h argv;
    Some (h, 0, Some argc).

(** ** Reference *)

Definition blank (w : list Z) : Prop := Forall (fun c => isspace c = true) w.
Definition word (w : list Z) : Prop := w <> [] /\ Forall (fun c => isspace c = false) w.

(** [s] is made of the words [ws] with white space between, before and after. *)
Inductive splits : list Z -> list (list Z) -> Prop :=
  | splits_none sep : blank sep -> splits sep []
  | splits_last sep w : blank sep -> word w -> splits (sep ++ w) [w]
  | splits_word sep w c s ws : blank sep -> word w -> isspace c = true -> splits (c :: s) ws -> splits (sep ++ w ++ c :: s) (w :: ws).

(** The array at [a] points to the words, each in a block of its own. *)
Definition holds (h : heap) (a : Z) (ps : list Z) (ws : list (list Z)) : Prop :=
  blocks h !! a = Some (ps ++ [0]) /\ Forall2 (fun p w => p <> 0 /\ blocks h !! p = Some (w ++ [0])) ps ws.

(** ** Words *)

Lemma splits_exist s : exists ws, splits s ws.
Proof.
  induction s as [|c s [ws IH]]; [exists []; apply splits_none; constructor|].
  destruct (isspace c) eqn:Hc.
  - exists ws. inversion IH as [sep Hs|sep w Hs Hw|sep w d s' ws' Hs Hw Hd Hr]; subst.
    + apply splits_none. by constructor.
    + apply (splits_last (c :: sep)); [by constructor | done].
    + apply (splits_word (c :: sep)); [by constructor | done..].
  - assert (Hw1 : word [c]) by (split; [done | by repeat constructor]).
    assert (Hcons : forall w, word w -> word (c :: w)) by (intros w [_ Hw]; split; [done | by constructor]).
    assert (Hgap : forall d t, isspace d = true -> splits (d :: t) ws -> splits (c :: d :: t) ([c] :: ws)).
    { intros d t Hd Ht. by apply (splits_word [] [c]); [constructor|..]. }
    inversion IH as [sep Hs|sep w Hs Hw|sep w d s' ws' Hs Hw Hd Hr]; subst.
    + destruct s as [|d sep]; [exists [[c]]; by apply (splits_last [] [c]); [constructor|]|].
      exists [[c]]. apply Hgap; [by inversion Hs | by apply splits_none].
    + destruct sep as [|d sep]; [exists [c :: w]; by apply (splits_last [] (c :: w)); [constructor | apply Hcons]|].
      exists [[c]; w]. apply Hgap; [by inversion Hs | by apply (splits_last (d :: sep) w)].
    + destruct sep as [|e sep]; [exists ((c :: w) :: ws'); by apply (splits_word [] (c :: w)); [constructor | apply Hcons|..]|].
      exists ([c] :: w :: ws'). apply Hgap; [by inversion Hs | by apply (splits_word (e :: sep) w)].
Qed.

Lemma skip_sep_spec sep c t : chars sep -> blank sep -> isspace c = false -> skip_sep (sep ++ c :: t) = Some (c :: t).
Proof.
  intros Hch Hb Hc. induction Hb as [|d sep Hd _ IH]; cbn [app skip_sep].
  - rewrite Hc, andb_false_r. done.
  - apply chars_cons in Hch as [[_ Hd0] Hch]. destruct (Z.eqb_spec d 0); [done|]. rewrite Hd. by apply IH.
Qed.

Lemma skip_arg_spec w c t : chars w -> Forall (fun c => isspace c = false) w -> c = 0 \/ isspace c = true ->
  skip_arg (w ++ c :: t) = Some (c :: t).
Proof.
  intros Hch Hw Hc. induction Hw as [|d w Hd _ IH]; cbn [app skip_arg].
  - destruct Hc as [->| ->]; [done|]. by rewrite andb_false_r.
  - apply chars_cons in Hch as [[_ Hd0] Hch]. destruct (Z.eqb_spec d 0); [done|]. rewrite Hd. by apply IH.
Qed.

Lemma chars_app s t : chars (s ++ t) <-> chars s /\ chars t.
Proof. apply Forall_app. Qed.

(** What one round of the loops sees: the end, white space to the end, or a word. *)
Inductive round (r : list Z) : list Z -> list (list Z) -> Prop :=
  | round_end : round r [] []
  | round_blank c s : c <> 0 -> skip_sep (c :: s ++ 0 :: r) = Some (0 :: r) -> round r (c :: s) []
  | round_word c s w d s' ws : c <> 0 -> word w -> chars w -> chars s' -> splits s' ws -> (length s' < length (c :: s))%nat ->
      skip_sep (c :: s ++ 0 :: r) = Some (w ++ s' ++ 0 :: r) -> head (w ++ s' ++ 0 :: r) = Some d -> d <> 0 ->
      skip_arg (w ++ s' ++ 0 :: r) = Some (s' ++ 0 :: r) -> round r (c :: s) (w :: ws).

Lemma splits_nil ws : splits [] ws -> ws = [].
Proof.
  intros Hs. remember [] as s eqn:E in Hs. destruct Hs as [|sep w _ [Hw _]|sep w d s ws _ [Hw _]]; [done|..];
    apply app_eq_nil in E as [_ E]; [done|]. by apply app_eq_nil in E as [-> _].
Qed.

Lemma splits_round r s ws : chars s -> splits s ws -> round r s ws.
Proof.
  intros Hch Hs. destruct s as [|c s].
  { apply splits_nil in Hs as ->. constructor. }
  assert (Hc : c <> 0) by (apply chars_cons in Hch; tauto).
  remember (c :: s) as t eqn:E in Hs. destruct Hs as [sep Hb|sep w Hb Hw|sep w d s' ws' Hb Hw Hd Hr]; subst.
  - apply round_blank; [done|]. change (c :: s ++ 0 :: r) with ((c :: s) ++ 0 :: r). by apply skip_sep_spec.
  - rewrite <-E in Hch. apply chars_app in Hch as [Hsep Hcw]. pose proof Hw as [Hne Hns]. destruct w as [|d w]; [done|].
    apply (round_word r c s (d :: w) d [] []); try done.
    + constructor.
    + apply splits_none. constructor.
    + cbn; lia.
    + change (c :: s ++ 0 :: r) with ((c :: s) ++ 0 :: r). rewrite <-E, <-app_assoc. cbn [app].
      apply skip_sep_spec; [done | done | by inversion Hns].
    + apply chars_cons in Hcw. tauto.
    + apply skip_arg_spec; [done | done | by left].
  - rewrite <-E in Hch. apply chars_app in Hch as [Hsep Hch]. apply chars_app in Hch as [Hcw Hcs].
    pose proof Hw as [Hne Hns]. destruct w as [|d0 w]; [done|].
    apply (round_word r c s (d0 :: w) d0 (d :: s') ws'); try done.
    + rewrite <-E, !length_app. cbn [length]. lia.
    + change (c :: s ++ 0 :: r) with ((c :: s) ++ 0 :: r). rewrite <-E, <-!app_assoc. cbn [app].
      apply skip_sep_spec; [done | done | by inversion Hns].
    + apply chars_cons in Hcw. tauto.
    + apply skip_arg_spec; [done | done | by right].
Qed.

(** Words are at least a character long and white space apart. *)
Lemma splits_count_head s ws : splits s ws ->
  2 * zlen ws <= zlen s + (if head s is Some c then if isspace c then 0 else 1 else 0).
Proof.
  induction 1 as [|sep w Hb [Hw Hns]|sep w c s ws Hb [Hw Hns] Hc _ IH].
  { destruct sep as [|c sep]; cbn [head length]; [lia|]. destruct (isspace c); lia. }
  all: destruct w as [|d w]; [done|]; inversion Hns as [|? ? Hd _]; subst; cbn [head length] in *.
  all: destruct sep as [|e sep]; cbn [app head length] in *; [rewrite ?Hd|inversion Hb as [|? ? He _]; subst; rewrite He].
  all: rewrite ?length_app; cbn [length]; rewrite ?length_app; cbn [length]; try rewrite Hc in IH; lia.
Qed.

Lemma splits_count s ws : splits s ws -> 2 * zlen ws <= zlen s + 1.
Proof.
  intros Hs%splits_count_head. destruct (head s) as [c|]; [|lia]. destruct (isspace c); lia.
Qed.

(** So the array of a string that fits in memory is not too large to be asked for. *)
Lemma cells_count n : 0 <= n < 2 ^ 30 - 1 -> u32 (sizeof_ptr * u32 (n + 1)) / sizeof_ptr = n + 1.
Proof.
  intros Hn. unfold sizeof_ptr. rewrite (u32_small (n + 1)), u32_small by (unfold is_u32; lia).
  rewrite Z.mul_comm. apply Z.div_mul. lia.
Qed.

Lemma count_argc_spec s r ws : chars s -> splits s ws -> zlen s < 2 ^ 31 -> count_argc (s ++ 0 :: r) = Some (zlen ws).
Proof.
  intros Hch Hs Hlen. pose proof (splits_count s ws Hs) as Hws.
  destruct (run_rule (fun st : list Z * Z => exists s' ws', st.1 = s' ++ 0 :: r /\ chars s' /\ splits s' ws' /\
      0 <= st.2 /\ st.2 + zlen ws' = zlen ws) (fun n => n = zlen ws) (fun st => zlen st.1 - zlen r) count_step 33 (s ++ 0 :: r, 0))
    as (n & E & ->).
  - intros [? n] (s' & ws' & E & Hch' & Hs' & Hn & Hsum); cbn [fst snd] in *. subst. unfold count_step.
    destruct (splits_round r s' ws' Hch' Hs') as [|c t Hc Hk|c t w d s2 ws2 Hc Hw Hcw Hcs Hs2 Hlt Hk Hd Hd0 Hka].
    + eexists. split; [done|]. cbn. cbn in Hsum. lia.
    + cbn [app deref head]. rewrite some_bind. destruct (Z.eqb_spec c 0); [done|]. rewrite Hk, some_bind. cbn [deref head].
      rewrite some_bind. eexists. split; [done|]. cbn [fst snd Z.eqb]. split.
      * exists [], []. split; [done|]. split; [constructor|]. split; [apply splits_none; constructor|]. done.
      * cbn [length]. rewrite length_app. cbn [length]. lia.
    + cbn [app]. cbn [deref head]. rewrite some_bind. destruct (Z.eqb_spec c 0); [done|]. rewrite Hk, some_bind.
      unfold deref. rewrite Hd, some_bind. destruct (Z.eqb_spec d 0); [done|]. rewrite Hka, some_bind.
      eexists. split; [done|]. cbn [fst snd length] in *. rewrite s32_small by lia. split.
      * exists s2, ws2. split; [done|]. split; [done|]. split; [done|]. lia.
      * rewrite ?length_app. cbn [length]. rewrite ?length_app. cbn [length]. lia.
  - exists s, ws. cbn [fst snd]. split_and!; [done..|lia].
  - cbn [fst]. rewrite length_app. cbn [length]. change (2 ^ Z.of_nat 33) with (4 * 2 ^ 31). lia.
  - exact E.
Qed.

(** ** The heap *)

(** Addresses come from the requests made so far. *)
Definition heap_ok (h : heap) : Prop := 0 <= requests h /\ forall p, is_Some (blocks h !! p) -> 0 < p <= requests h.

(** [h'] is [h] but for the blocks [l]. *)
Definition elsewhere (h h' : heap) (l : list Z) : Prop := forall p, p ∉ l -> blocks h' !! p = blocks h !! p.

(** What kstrndup stores: the word, terminated. *)
Lemma kstrndup_word h w t : chars w -> kstrndup h (w ++ t) (zlen w) = Some (kmalloc h (w ++ [0])).
Proof.
  intros Hw. unfold kstrndup. assert (E : strnlen (w ++ t) (zlen w) = Some (zlen w)).
  { clear h. induction Hw as [|c w [_ Hc] _ IH]; [destruct t; done|]. cbn [app strnlen length].
    destruct (Z.leb_spec (Z.of_nat (S (length w))) 0) || destruct (Z.eqb_spec (Z.of_nat (S (length w))) 0); [lia|].
    destruct (Z.eqb_spec c 0); [done|]. replace (Z.of_nat (S (length w)) - 1) with (zlen w) by lia. rewrite IH, some_bind. f_equal. lia. }
  rewrite E, some_bind, Nat2Z.id, take_app_length. done.
Qed.

Lemma argv_free_spec h a ps t : blocks h !! a = Some (ps ++ 0 :: t) -> NoDup (a :: ps) -> a <> 0 -> zlen ps < 2 ^ 32 ->
  Forall (fun p => p <> 0 /\ is_Some (blocks h !! p)) ps ->
  exists h', argv_free h a = Some h' /\ forall p, blocks h' !! p = if decide (p ∈ a :: ps) then None else blocks h !! p.
Proof.
  intros Ha Hnd Ha0 Hlen Hps. pose proof (proj1 (NoDup_cons _ _) Hnd) as [Hnot Hnd'].
  destruct (run_rule (fun st : heap * Z => exists done_ todo, ps = done_ ++ todo /\ st.2 = zlen done_ /\
      forall p, blocks st.1 !! p = if decide (p ∈ done_) then None else blocks h !! p)
    (fun h' => forall p, blocks h' !! p = if decide (p ∈ ps) then None else blocks h !! p)
    (fun st => zlen ps - st.2) (free_step a) 33 (h, 0)) as (h' & E & Hh').
  - intros [h1 i] (dn & todo & Hd & Hi & Hb); cbn [fst snd] in *. subst i. unfold free_step, heap_load.
    assert (Ha1 : blocks h1 !! a = Some (ps ++ 0 :: t)).
    { rewrite Hb. destruct (decide (a ∈ dn)) as [Hin|]; [|done]. exfalso. apply Hnot. rewrite Hd. apply elem_of_app. by left. }
    rewrite Ha1, some_bind, rd_nat. destruct todo as [|p todo].
    + rewrite app_nil_r in Hd. subst dn. rewrite lookup_app_r, Nat.sub_diag by lia. cbn [lookup list_lookup]. rewrite some_bind.
      eexists. split; [done|]. exact Hb.
    + rewrite Hd, <-app_assoc, lookup_app_r, Nat.sub_diag by lia. cbn [app lookup list_lookup]. rewrite some_bind.
      rewrite Hd in Hps. apply Forall_app in Hps as [_ Hps]. apply Forall_cons in Hps as [[Hp0 [b Hp]] _].
      rewrite Hd in Hnd'. apply NoDup_app in Hnd' as (_ & Hdis & Hnt).
      assert (Hpd : p ∉ dn) by (intros Hin; apply (Hdis p Hin); left).
      destruct (Z.eqb_spec p 0); [done|]. unfold kfree. destruct (Z.eqb_spec p 0); [done|].
      rewrite Hb, decide_False, Hp, some_bind, some_bind by done. eexists. split; [done|]. cbn [fst snd].
      split; [|rewrite length_app; cbn [length]; lia].
      exists (dn ++ [p]), todo. split; [by rewrite <-app_assoc|]. split; [rewrite length_app; cbn [length]; lia|].
      intros q. cbn [blocks]. destruct (decide (q = p)) as [->|Hne].
      * rewrite lookup_delete_eq, decide_True; [done|]. apply elem_of_app. right. left.
      * rewrite lookup_delete_ne, Hb by done. destruct (decide (q ∈ dn)), (decide (q ∈ dn ++ [p])) as [Hin|Hin]; try done.
        -- exfalso. apply Hin, elem_of_app. by left.
        -- apply elem_of_app in Hin as [|Hin]; [done|]. by apply list_elem_of_singleton in Hin.
  - exists [], ps. split; [done|]. split; [done|]. intros p. cbn [fst]. rewrite decide_False; [done|]. apply not_elem_of_nil.
  - cbn [snd]. change (2 ^ Z.of_nat 33) with (2 * 2 ^ 32). lia.
  - assert (Ha' : blocks h' !! a = Some (ps ++ 0 :: t)) by (by rewrite Hh', decide_False).
    exists (mk_heap (requests h') (delete a (blocks h')) (grants h')). split.
    + unfold argv_free. rewrite E, some_bind. unfold kfree. destruct (Z.eqb_spec a 0); [done|]. by rewrite Ha'.
    + intros p. cbn [blocks]. destruct (decide (p = a)) as [->|Hne].
      * rewrite lookup_delete_eq, decide_True; [done | left].
      * rewrite lookup_delete_ne, Hh' by done. destruct (decide (p ∈ ps)), (decide (p ∈ a :: ps)) as [Hin|Hin]; try done.
        -- exfalso. apply Hin. by right.
        -- apply elem_of_cons in Hin as [|]; done.
Qed.

(** ** The loop *)

Section split.
Context (h0 : heap) (Hok : heap_ok h0) (s r : list Z) (ws : list (list Z)) (Hch : chars s) (Hs : splits s ws) (Hlen : zlen s < 2 ^ 31).
Context (a : Z) (Ha : requests h0 < a).

(** The words done are in blocks of their own, the rest of the array is clear. *)
Record owns (h : heap) (ps : list Z) (ds : list (list Z)) (n : nat) : Prop := mk_owns {
  owns_array : blocks h !! a = Some (ps ++ replicate n 0);
  owns_words : Forall2 (fun p w => blocks h !! p = Some (w ++ [0])) ps ds;
  owns_fresh : Forall (fun p => a < p <= requests h) ps;
  owns_nodup : NoDup ps;
  owns_else : elsewhere h0 h (a :: ps);
  owns_top : a <= requests h;
  owns_grants : grants h = grants h0 }.

Lemma owns_store h ps ds n w : owns h ps ds (S n) -> grants h (requests h + 1) = true ->
  let '(h1, p) := kmalloc h (w ++ [0]) in
  p <> 0 /\ exists h2, heap_store h1 a (zlen ps) p = Some h2 /\ owns h2 (ps ++ [p]) (ds ++ [w]) n.
Proof.
  intros [Harr Hw Hf Hnd Hel Htop Hg] Hgr. destruct Hok as [Hr _]. unfold kmalloc. rewrite Hgr. split; [lia|].
  set (p := requests h + 1). assert (Hpa : p <> a) by (unfold p; lia).
  assert (Hpn : p ∉ ps). { intros Hin. rewrite Forall_forall in Hf. apply Hf in Hin. unfold p in Hin. lia. }
  unfold heap_store. cbn [blocks]. rewrite lookup_insert_ne, Harr, some_bind by done. cbn [replicate].
  rewrite wr_Some by (rewrite length_app; cbn [length]; lia). rewrite some_bind. eexists. split; [done|].
  rewrite Nat2Z.id, <-(Nat.add_0_r (length ps)), insert_app_r. cbn [insert list_insert].
  split; cbn [blocks requests grants].
  - by rewrite lookup_insert_eq, <-app_assoc.
  - apply Forall2_app; [|constructor; [|constructor]].
    + rewrite Forall2_lookup in Hw |- *. intros i. specialize (Hw i). destruct (ps !! i) as [q|] eqn:Eq; inversion Hw as [x y Hxy E1 E2|]; subst; constructor. apply list_elem_of_lookup_2 in Eq.
      rewrite Forall_forall in Hf. pose proof (Hf q Eq). rewrite !lookup_insert_ne by (unfold p; lia). done.
    + by rewrite lookup_insert_ne, lookup_insert_eq by done.
  - apply Forall_app. split; [|repeat constructor; unfold p; lia]. eapply Forall_impl; [exact Hf|]. cbn. unfold p. lia.
  - apply NoDup_app. split; [done|]. split; [|apply NoDup_singleton]. intros x Hx Hx'. apply list_elem_of_singleton in Hx' as ->. done.
  - intros q Hq. rewrite not_elem_of_cons, not_elem_of_app, list_elem_of_singleton in Hq. destruct Hq as (? & ? & ?).
    cbn [blocks]. rewrite !lookup_insert_ne by done. apply Hel. rewrite not_elem_of_cons. done.
  - unfold p. lia.
  - done.
Qed.

Lemma split_loop h : owns h [] [] (S (length ws)) -> exists h' ps b,
  run 33 (split_step a) (s ++ 0 :: r, 0, h) = Some (h', zlen ps, b) /\
  if (b : bool) then owns h' ps ws 1 else exists ds n, owns h' ps ds (S n) /\ zlen ds <= zlen ws /\ exists k, requests h0 < k <= requests h' /\ grants h0 k = false.
Proof.
  intros Ho. pose proof (splits_count s ws Hs) as Hws.
  destruct (run_rule (fun st : list Z * Z * heap => exists s' ds ws' ps, st.1 = (s' ++ 0 :: r, zlen ps) /\ chars s' /\ splits s' ws' /\
      ds ++ ws' = ws /\ owns st.2 ps ds (S (length ws')))
    (fun res => exists ps, res.1.2 = zlen ps /\ if (res.2 : bool) then owns res.1.1 ps ws 1
       else exists ds n, owns res.1.1 ps ds (S n) /\ zlen ds <= zlen ws /\ exists k, requests h0 < k <= requests res.1.1 /\ grants h0 k = false)
    (fun st => zlen st.1.1 - zlen r) (split_step a) 33 (s ++ 0 :: r, 0, h)) as ([[h' i] b] & E & ps & Hi & Hpost).
  - intros [[? ?] h1] (s' & ds & ws' & ps & [= -> ->] & Hch' & Hs' & Hd & Ho'); cbn [fst snd] in *. unfold split_step.
    destruct (splits_round r s' ws' Hch' Hs') as [|c t Hc Hk|c t w d s2 ws2 Hc Hw Hcw Hcs Hs2 Hlt Hk Hdh Hd0 Hka].
    + eexists. split; [done|]. cbn. exists ps. split; [done|]. rewrite app_nil_r in Hd. by subst ds.
    + cbn [app deref head]. rewrite some_bind. destruct (Z.eqb_spec c 0); [done|]. rewrite Hk, some_bind. cbn [deref head].
      rewrite some_bind. eexists. split; [done|]. cbn [fst snd Z.eqb]. split.
      * exists [], ds, [], ps. split; [done|]. split; [constructor|]. split; [apply splits_none; constructor|]. done.
      * cbn [length]. rewrite length_app. cbn [length]. lia.
    + cbn [app]. cbn [deref head]. rewrite some_bind. destruct (Z.eqb_spec c 0); [done|]. rewrite Hk, some_bind.
      unfold deref. rewrite Hdh, some_bind. destruct (Z.eqb_spec d 0); [done|]. rewrite Hka, some_bind.
      replace (zlen (w ++ s2 ++ 0 :: r) - zlen (s2 ++ 0 :: r)) with (zlen w) by (rewrite length_app; lia).
      rewrite (kstrndup_word h1 w _ Hcw), some_bind. cbn [length] in Ho'.
      destruct (grants h1 (requests h1 + 1)) eqn:Eg.
      * pose proof (owns_store h1 ps ds (S (length ws2)) w Ho' Eg) as Hst. destruct (kmalloc h1 (w ++ [0])) as [h2 p].
        destruct Hst as (Hp & h3 & E3 & Ho3). destruct (Z.eqb_spec p 0); [done|]. rewrite E3, some_bind.
        eexists. split; [done|]. cbn [fst snd length] in *. split.
        -- exists s2, (ds ++ [w]), ws2, (ps ++ [p]). split; [rewrite length_app; cbn [length]; do 2 f_equal; lia|].
           split; [done|]. split; [done|]. split; [by rewrite <-app_assoc|]. done.
        -- rewrite ?length_app. cbn [length]. rewrite ?length_app. cbn [length]. lia.
      * unfold kmalloc. rewrite Eg. cbn [Z.eqb]. eexists. split; [done|]. cbn [fst snd]. exists ps. split; [done|].
        exists ds, (S (length ws2)). destruct Ho' as [Harr Hwd Hf Hnd Hel Htop Hg]. split.
        -- split; cbn [blocks requests grants]; try done; [|lia]. eapply Forall_impl; [exact Hf|]. cbn. lia.
        -- split; [rewrite <-Hd, length_app; lia|]. exists (requests h1 + 1). rewrite <-Hg. cbn [requests]. split; [lia | done].
  - exists s, [], ws, []. cbn [fst snd]. split; [done|]. split; [done|]. split; [done|]. done.
  - cbn [fst snd]. rewrite length_app. cbn [length]. change (2 ^ Z.of_nat 33) with (4 * 2 ^ 31). lia.
  - cbn [fst snd] in *. subst i. exists h', ps, b. split; [exact E | done].
Qed.
End split.

(** ** The theorem *)

(** After a failed or a freed split the blocks are the ones from before. *)
Lemma owns_free h0 a h ps ds n : heap_ok h0 -> requests h0 < a -> owns h0 a h ps ds (S n) -> zlen ds < 2 ^ 32 ->
  exists h', argv_free h a = Some h' /\ blocks h' = blocks h0.
Proof.
  intros [Hr Hok] Ha [Harr Hw Hf Hnd Hel Htop Hg] Hlen. pose proof (Forall2_length _ _ _ Hw) as Hl.
  destruct (argv_free_spec h a ps (replicate n 0)) as (h' & E & Hb).
  - exact Harr.
  - apply NoDup_cons. split; [|done]. intros Hin. rewrite Forall_forall in Hf. apply Hf in Hin. lia.
  - lia.
  - lia.
  - apply Forall_lookup_2. intros i p Hp. pose proof (Forall_lookup_1 _ _ _ _ Hf Hp) as Hpr; cbn beta in Hpr.
    destruct (Forall2_lookup_l _ _ _ _ _ Hw Hp) as (w & _ & Hbw). split; [lia | by eexists].
  - exists h'. split; [done|]. apply map_eq. intros p. rewrite Hb. destruct (decide (p ∈ a :: ps)) as [Hin|Hin]; [|by apply Hel].
    symmetry. apply eq_None_not_Some. intros Hp%Hok. apply elem_of_cons in Hin as [->|Hin]; [lia|].
    rewrite Forall_forall in Hf. apply Hf in Hin. lia.
Qed.

(** C32. argv_split makes an array of the words of the string (of fewer than 2^31 - 3
    characters, so that the size of the array does not wrap), each in a block of its
    own, ended by NULL, with their number in argc, and touches no other block;
    argv_free gives all of it back.  When an allocation is refused it returns NULL
    and everything it had allocated is free again. *)
Theorem argv_split_words h s r : heap_ok h -> chars s -> zlen s < 2 ^ 31 - 3 ->
  exists ws h' a argc, splits s ws /\ argv_split h (s ++ 0 :: r) = Some (h', a, argc) /\
  ((a = 0 /\ blocks h' = blocks h /\ exists k, requests h < k /\ grants h k = false) \/
   (a <> 0 /\ argc = Some (zlen ws) /\ (exists ps, holds h' a ps ws /\ NoDup (a :: ps) /\ elsewhere h h' (a :: ps)) /\
    exists h'', argv_free h' a = Some h'' /\ blocks h'' = blocks h)).
Proof.
  intros Hok Hch Hlen. destruct (splits_exist s) as [ws Hs]. pose proof (splits_count s ws Hs) as Hws. exists ws.
  unfold argv_split. rewrite (count_argc_spec s r ws Hch Hs ltac:(lia)), some_bind, cells_count by lia. unfold kmalloc.
  destruct (grants h (requests h + 1)) eqn:Eg.
  2: { eexists _, _, _. split; [done|]. split; [done|]. left. split; [done|]. split; [done|]. exists (requests h + 1). split; [lia | done]. }
  pose proof (proj1 Hok) as Hr. destruct (Z.eqb_spec (requests h + 1) 0) as [?|_]; [lia|].
  set (a := requests h + 1). set (h1 := mk_heap a _ _).
  assert (Ho : owns h a h1 [] [] (S (length ws))).
  { split; cbn [h1 blocks requests grants]; try constructor; try done.
    - rewrite lookup_insert_eq. cbn [app]. do 2 f_equal. lia.
    - intros p Hp. cbn [h1 blocks]. rewrite lookup_insert_ne; [done|]. intros ->. apply Hp. left. }
  destruct (split_loop h Hok s r ws Hch Hs ltac:(lia) a ltac:(lia) h1 Ho) as (h' & ps & b & E & Hpost). rewrite E, some_bind.
  destruct b.
  - assert (Hst : heap_store h' a (zlen ps) 0 = Some h').
    { unfold heap_store. rewrite (owns_array _ _ _ _ _ _ Hpost), some_bind. cbn [replicate].
      rewrite wr_Some, some_bind by (rewrite length_app; cbn [length]; lia).
      rewrite Nat2Z.id, <-(Nat.add_0_r (length ps)), insert_app_r. cbn [insert list_insert].
      rewrite insert_id by (exact (owns_array _ _ _ _ _ _ Hpost)). by destruct h'. }
    rewrite Hst, some_bind. eexists _, _, _. split; [done|]. split; [done|]. right. split; [lia|]. split; [done|]. split.
    + exists ps. pose proof Hpost as [Harr Hw Hf Hnd Hel Htop Hg]. split; [split; [done|]|split].
      * apply Forall2_same_length_lookup. split; [by eapply Forall2_length|]. intros i p w Hp Hwi.
        pose proof (Forall_lookup_1 _ _ _ _ Hf Hp) as Hpr; cbn beta in Hpr. destruct (Forall2_lookup_l _ _ _ _ _ Hw Hp) as (w' & Hw' & Hb).
        split; [lia|]. congruence.
      * apply NoDup_cons. split; [|done]. intros Hin. rewrite Forall_forall in Hf. apply Hf in Hin. lia.
      * done.
    + apply (owns_free h a h' ps ws 0); [done | lia | done | lia].
  - destruct Hpost as (ds & n & Ho' & Hds & k & Hk & Hgk).
    destruct (owns_free h a h' ps ds n) as (h2 & E2 & Hb2); [done | lia | done | lia |].
    rewrite E2, some_bind. eexists _, _, _. split; [done|]. split; [done|]. left. split; [done|]. split; [done|].
    exists k. split; [lia | done].
Qed.

Definition empty_heap (g : Z -> bool) : heap := mk_heap 0 ∅ g.

Lemma empty_heap_ok g : heap_ok (empty_heap g).
Proof. split; [done|]. intros p [b Hb]. discriminate Hb. Qed.

Lemma argv_split_words_witness : heap_ok (empty_heap (fun _ => true)) /\
  exists ws h' a argc, splits (text " rm  -f x"%string) ws /\ argv_split (empty_heap (fun _ => true)) (cstr " rm  -f x"%string) = Some (h', a, argc) /\
    argc = Some 3.
Proof.
  split; [apply empty_heap_ok|].
  assert (Hch : chars (text " rm  -f x"%string)) by (change (text " rm  -f x"%string) with [32; 114; 109; 32; 32; 45; 102; 32; 120]; repeat (constructor; [split; [unfold is_u8; lia | discriminate]|]); constructor).
  destruct (argv_split_words (empty_heap (fun _ => true)) (text " rm  -f x"%string) [] (empty_heap_ok _) Hch eq_refl)
    as (ws & h' & a & argc & Hs & E & _).
  exists ws, h', a, argc. split; [done|]. split; [exact E|]. vm_compute in E. injection E as _ _ <-. reflexivity.
Defined.

(** The third request is refused: the two blocks before are freed. *)
Example argv_split_fails : option_map (fun r => (blocks r.1.1, r.1.2)) (argv_split (empty_heap (fun n => n <? 3)) (cstr "a b c"%string)) = Some (∅, 0).
Proof. vm_compute. reflexivity. Qed.
