(* ===== verification/OptParser.v ===== *)
(** * lib/parser.c: option patterns

    A table of patterns with %s, %d, %u, %o and %x, tried in order.  A location in
    the string examined is its offset; the array of locations has MAX_OPT_ARGS
    cells, which the matcher writes. *)

From Stdlib Require Import Ascii String.
From S2P Require Import Prelude Ctype StringLib Strtol Vsprintf Cmdline.

#[local] Open Scope char_scope.
#[local] Open Scope Z_scope.

(** ** Operations *)

Definition MAX_OPT_ARGS : Z := 3.

(** substring_t: [from] and [to_]; struct match_token: [token] and [pattern]. *)
Record substring_t := mk_sub { from : Z; to_ : Z }.
Record match_token_t := mk_token { token : Z; pattern : option (list Z) }.

(** The conversions %d, %u, %o and %x: the end of the number. *)
Definition number_end (c : Z) (s : list Z) : option (option (list Z)) :=
  if c =? ch "d" then '(_, e) ← simple_strtol s 0; Some (Some e)
  else if c =? ch "u" then '(_, e) ← simple_strtoul s 0; Some (Some e)
  else if c =? ch "o" then '(_, e) ← simple_strtoul s 8; Some (Some e)
  else if c =? ch "x" then '(_, e) ← simple_strtoul s 16; Some (Some e)
  else Some None.

(** One conversion, [p] at its letter; [total] is the length of the whole string. *)
Definition convert (total : Z) (s p : list Z) (len argc : Z) (args : list substring_t) :
    option (list Z * list Z * Z * list substring_t + bool * list substring_t) :=
  if MAX_OPT_ARGS <=? argc then Some (inr (false, args)) else
  a ← rd args argc;
  let start := total - zlen s in
  args ← wr args argc (mk_sub start (to_ a));
  c ← deref p;
  let p := tail p in
  if c =? ch "s" then
    n ← strlen s;
    if n =? 0 then Some (inr (false, args)) else
    let len := if (len =? -1) || (n <? u32 len) then n else len in
    args ← wr args argc (mk_sub start (start + len));
    Some (inl (drop (Z.to_nat len) s, p, argc + 1, args))
  else
    o ← number_end c s;
    match o with
    | None => Some (inr (false, args))
    | Some e =>
      args ← wr args argc (mk_sub start (total - zlen e));
      if zlen e =? zlen s then Some (inr (false, args)) else Some (inl (e, p, argc + 1, args))
    end.

(** One round of the loop: [s], [p], [argc] and the locations. *)
Definition match_step (total : Z) (st : list Z * list Z * Z * list substring_t) :
    option (list Z * list Z * Z * list substring_t + bool * list substring_t) :=
  let '(s, p, argc, args) := st in
  meta ← strchr p (ch "%");
  match meta with
  | None => r ← strcmp p s; Some (inr (r =? 0, args))
  | Some off =>
    r ← strncmp p s off;
    if negb (r =? 0) then Some (inr (false, args)) else
    let s := drop (Z.to_nat off) s in
    let p := drop (Z.to_nat (off + 1)) p in
    c ← deref p;
    if isdigit c then '(len, p) ← simple_strtoul p 10; convert total s p (s32 len) argc args
    else if c =? ch "%" then
      d ← deref s;
      if negb (d =? ch "%") then Some (inr (false, args)) else Some (inl (tail s, tail p, argc, args))
    else convert total s p (-1) argc args
  end.
Definition match_one (s : list Z) (p : option (list Z)) (args : list substring_t) : option (bool * list substring_t) :=
  match p with
  | None => Some (true, args)
  | Some p => run 32 (match_step (zlen s)) (s, p, 0, args)
  end.

(** The table is read up to the pattern that matches. *)
Fixpoint match_token (s : list Z) (table : list match_token_t) (args : list substring_t) : option (Z * list substring_t) :=
  match table with
  | [] => None
  | p :: table =>
    '(b, args) ← match_one s (pattern p) args;
    if (b : bool) then Some (token p, args) else match_token s table args
  end.

(** The characters of a location. *)
Definition sub_text (str : list Z) (s : substring_t) : list Z := slice (from s) (to_ s - from s) str.

(** [granted] tells whether kmalloc has the buffer; the result and *result. *)
Definition match_number (granted : bool) (str : list Z) (s : substring_t) (base : Z) : option (Z * option Z) :=
  if negb granted then Some (- ENOMEM, None) else
  let buf := sub_text str s ++ [0] in
  '(v, endp) ← simple_strtol buf base;
  Some (if zlen endp =? zlen buf then - EINVAL else 0, Some v).
Definition match_int (granted : bool) (str : list Z) (s : substring_t) := match_number granted str s 0.
Definition match_octal (granted : bool) (str : list Z) (s : substring_t) := match_number granted str s 8.
Definition match_hex (granted : bool) (str : list Z) (s : substring_t) := match_number granted str s 16.

Definition match_strcpy (dest str : list Z) (s : substring_t) : option (list Z) :=
  dest ← memcpy dest 0 str (from s) (to_ s - from s);
  wr dest (to_ s - from s) 0.
(** The new string, of cells that were [fresh], or NULL. *)
Definition match_strdup (granted : bool) (fresh : Z -> list Z) (str : list Z) (s : substring_t) : option (option (list Z)) :=
  if negb granted then Some None else
  p ← match_strcpy (fresh (to_ s - from s + 1)) str s; Some (Some p).

(** ** Reference *)

(** The first [n] locations lie before [pos], one after the other. *)
Record located (n : Z) (args : list substring_t) (pos : Z) : Prop := mk_located {
  located_in i : 0 <= i < n -> exists a, rd args i = Some a /\ 0 <= from a <= to_ a /\ to_ a <= pos;
  located_order i j a b : 0 <= i < j -> j < n -> rd args i = Some a -> rd args j = Some b -> to_ a <= from b }.

(** ** Numbers end in the string *)

Lemma isxdigit_0 : isxdigit 0 = false.
Proof. done. Qed.

Lemma strto_digits_total wrap value base t r acc : chars t -> exists v k,
  strto_digits wrap value (t ++ 0 :: r) base acc = Some (v, drop k (t ++ 0 :: r)) /\ (k <= length t)%nat.
Proof.
  intros Ht. revert acc. induction Ht as [|c t _ _ IH]; intros acc; cbn [app strto_digits].
  - rewrite isxdigit_0. cbn [andb]. exists acc, 0%nat. done.
  - destruct (isxdigit c && _).
    + destruct (IH (wrap (wrap (acc * base) + wrap (value c)))) as (v & k & E & Hk). exists v, (S k). split; [done|]. cbn; lia.
    + exists acc, 0%nat. split; [done|]. lia.
Qed.

Lemma strto_base_total t r base : chars t -> exists k b, strto_base (t ++ 0 :: r) base = Some (drop k (t ++ 0 :: r), b) /\ (k <= length t)%nat.
Proof.
  intros Ht. unfold strto_base.
  assert (Hd : forall k, (k <= length t)%nat -> exists c, deref (drop k (t ++ 0 :: r)) = Some c /\ (c <> 0 -> (S k <= length t)%nat)).
  { intros k Hk. rewrite drop_app_le by done. destruct (drop k t) as [|c u] eqn:E.
    - exists 0. done.
    - exists c. split; [done|]. intros _. apply (f_equal length) in E. rewrite length_drop in E. cbn in E. lia. }
  assert (Htl : forall k, tail (drop k (t ++ 0 :: r)) = drop (S k) (t ++ 0 :: r)).
  { intros k. rewrite <-Nat.add_1_r, <-drop_drop. by destruct (drop k (t ++ 0 :: r)). }
  destruct (Hd 0%nat ltac:(lia)) as (c & Hc & Hc1). rewrite drop_0 in Hc. pose proof (Htl 0%nat) as H0. rewrite drop_0 in H0.
  assert (Hstay : forall b : Z, exists k (b' : Z), Some (t ++ 0 :: r, b) = Some (drop k (t ++ 0 :: r), b') /\ (k <= length t)%nat).
  { intros b. exists 0%nat, b. split; [done | lia]. }
  destruct (base =? 0).
  - rewrite Hc, some_bind. destruct (Z.eqb_spec c (ch "0")) as [->|]; [|apply Hstay].
    specialize (Hc1 ltac:(discriminate)). rewrite H0. destruct (Hd 1%nat Hc1) as (d & Hdd & Hd1). rewrite Hdd, some_bind.
    destruct (Z.eqb_spec (toupper d) (ch "X")) as [Hx|]; [|exists 1%nat, 8; done].
    assert (d <> 0) by (intros ->; discriminate Hx). specialize (Hd1 ltac:(done)). rewrite Htl.
    destruct (Hd 2%nat Hd1) as (e & -> & _). rewrite some_bind. destruct (isxdigit e); [exists 2%nat, 16 | exists 1%nat, 8]; done.
  - destruct (base =? 16); [|apply Hstay]. rewrite Hc, some_bind. destruct (Z.eqb_spec c (ch "0")) as [->|]; [|apply Hstay].
    specialize (Hc1 ltac:(discriminate)). rewrite H0. destruct (Hd 1%nat Hc1) as (d & Hdd & Hd1). rewrite Hdd, some_bind.
    destruct (Z.eqb_spec (toupper d) (ch "X")) as [Hx|]; [|apply Hstay].
    assert (d <> 0) by (intros ->; discriminate Hx). rewrite Htl. exists 2%nat, base. split; [done | by apply Hd1].
Qed.

Lemma strtoul_total base t r : chars t -> exists v k, simple_strtoul (t ++ 0 :: r) base = Some (v, drop k (t ++ 0 :: r)) /\ (k <= length t)%nat.
Proof.
  intros Ht. unfold simple_strtoul. destruct (strto_base_total t r base Ht) as (k & b & -> & Hk). rewrite some_bind. cbn beta iota.
  rewrite drop_app_le by done. destruct (strto_digits_total u32 digit_value b (drop k t) r 0 (chars_drop _ _ Ht)) as (v & k2 & -> & Hk2).
  exists v, (k + k2)%nat. rewrite length_drop in Hk2. rewrite <-drop_app_le, drop_drop by done. split; [done | lia].
Qed.

Lemma strtol_total base t r : chars t -> exists v k, simple_strtol (t ++ 0 :: r) base = Some (v, drop k (t ++ 0 :: r)) /\ (k <= length t)%nat.
Proof.
  intros Ht. unfold simple_strtol. destruct t as [|c t].
  - change ([] ++ 0 :: r) with (0 :: r). cbn [deref head]. rewrite some_bind. cbn [Z.eqb].
    destruct (strtoul_total base [] r ltac:(constructor)) as (v & k & E & Hk). cbn [app] in E. rewrite E, some_bind. by exists (s32 v), k.
  - cbn [app deref head tail]. rewrite some_bind. destruct (c =? ch "-").
    + apply chars_cons in Ht as [_ Ht]. destruct (strtoul_total base t r Ht) as (v & k & -> & Hk). rewrite some_bind.
      exists (s32 (- v)), (S k). split; [done|]. cbn; lia.
    + destruct (strtoul_total base (c :: t) r Ht) as (v & k & E & Hk). cbn [app] in E. rewrite E, some_bind. by exists (s32 v), k.
Qed.

Lemma number_end_total c t r : chars t -> number_end c (t ++ 0 :: r) = Some None \/
  exists k, number_end c (t ++ 0 :: r) = Some (Some (drop k (t ++ 0 :: r))) /\ (k <= length t)%nat.
Proof.
  intros Ht. unfold number_end.
  destruct (c =? ch "d"); [destruct (strtol_total 0 t r Ht) as (v & k & -> & Hk); right; by exists k|].
  destruct (c =? ch "u"); [destruct (strtoul_total 0 t r Ht) as (v & k & -> & Hk); right; by exists k|].
  destruct (c =? ch "o"); [destruct (strtoul_total 8 t r Ht) as (v & k & -> & Hk); right; by exists k|].
  destruct (c =? ch "x"); [destruct (strtoul_total 16 t r Ht) as (v & k & -> & Hk); right; by exists k | by left].
Qed.

(** ** Searching and comparing *)

Lemma strchr_percent q r : chars q -> (strchr (q ++ 0 :: r) (ch "%") = Some None /\ Forall (fun c => c <> ch "%") q) \/
  exists a b, q = a ++ ch "%" :: b /\ Forall (fun c => c <> ch "%") a /\ strchr (q ++ 0 :: r) (ch "%") = Some (Some (zlen a)).
Proof.
  intros Hq. unfold strchr. cut (forall off, (strchr_loop (q ++ 0 :: r) (ch "%") off = Some None /\ Forall (fun c => c <> ch "%") q) \/
    exists a b, q = a ++ ch "%" :: b /\ Forall (fun c => c <> ch "%") a /\ strchr_loop (q ++ 0 :: r) (ch "%") off = Some (Some (off + zlen a))).
  { intros H. apply (H 0). }
  induction Hq as [|c q [_ Hc] _ IH]; intros off; cbn [app strchr_loop]; change (u8 (ch "%")) with (ch "%").
  - left. done.
  - destruct (Z.eqb_spec c (ch "%")) as [->|Hne].
    + right. exists [], q. split; [done|]. split; [constructor|]. cbn. by rewrite Z.add_0_r.
    + destruct (Z.eqb_spec c 0); [done|]. destruct (IH (off + 1)) as [[-> Hf]|(a & b & -> & Ha & ->)].
      * left. split; [done|]. by constructor.
      * right. exists (c :: a), b. split; [done|]. split; [by constructor|]. do 2 f_equal. cbn [length]. lia.
Qed.

Lemma strncmp_spec a b t r : chars a -> chars t ->
  exists x, strncmp (a ++ b) (t ++ 0 :: r) (zlen a) = Some x /\ (x = 0 <-> exists u, t = a ++ u).
Proof.
  intros Ha Ht. unfold strncmp. cut (exists x, strncmp_loop (a ++ b) (t ++ 0 :: r) (zlen a) 0 = Some x /\ (x = 0 <-> exists u, t = a ++ u)); [done|].
  revert t Ht. induction Ha as [|c a [Hc Hc0] _ IH]; intros t Ht.
  - exists 0. split; [by destruct b|]. split; [intros _; by exists t | done].
  - cbn [app length strncmp_loop]. destruct (Z.eqb_spec (Z.of_nat (S (length a))) 0); [lia|].
    destruct t as [|d t]; cbn [app].
    + exists (s8 (c - 0)). assert (s8 (c - 0) <> 0) by (rewrite s8_diff; (done || unfold is_u8; lia)).
      destruct (Z.eqb_spec (s8 (c - 0)) 0); [done|]. split; [done|]. split; [done|]. intros [u Hu]. done.
    + apply chars_cons in Ht as [[Hd Hd0] Ht]. destruct (Z.eqb_spec (s8 (c - d)) 0) as [E|E]; cbn [negb orb].
      * apply s8_diff in E as ->; [|done..]. destruct (Z.eqb_spec d 0); [done|].
        replace (Z.of_nat (S (length a)) - 1) with (zlen a) by lia.
        destruct (IH t Ht) as (x & Ex & Hx). change (s8 (d - d)) with (s8 (d - d)). replace (s8 (d - d)) with 0 by (rewrite Z.sub_diag; done).
        exists x. split; [done|]. rewrite Hx. split; intros [u Hu]; exists u; [by rewrite Hu | congruence].
      * exists (s8 (c - d)). split; [done|]. rewrite s8_diff in E |- * by done. split; [done|]. intros [u Hu]. congruence.
Qed.

(** ** Locations *)

Lemma located_start args pos : located 0 args pos.
Proof. split; intros; lia. Qed.

(** A cell beyond the ones in use is written. *)
Lemma located_wr n args pos i v args' : located n args pos -> n <= i -> wr args i v = Some args' -> located n args' pos.
Proof.
  intros [Hin Hord] Hi Hw. split.
  - intros j Hj. rewrite (rd_wr_ne _ _ i j v) by (done || lia). by apply Hin.
  - intros j k a b Hjk Hk. rewrite !(rd_wr_ne args args' i _ v) by (done || lia). by apply Hord.
Qed.

Lemma located_add n args pos f e args' pos' : located n args pos -> 0 <= n -> wr args n (mk_sub f e) = Some args' ->
  0 <= pos <= f -> f <= e <= pos' -> located (n + 1) args' pos'.
Proof.
  intros [Hin Hord] Hn Hw Hp He. pose proof (rd_wr_eq _ _ _ _ Hw) as Hlast. split.
  - intros i Hi. destruct (decide (i = n)) as [->|Hne]; [exists (mk_sub f e); cbn; split; [done|]; lia|].
    rewrite (rd_wr_ne _ _ n i _) by (done || lia). destruct (Hin i) as (a & Ha & Hb & Hc); [lia|]. exists a. split; [done|]. lia.
  - intros i j a b Hij Hj Ha Hb. rewrite (rd_wr_ne _ _ n i _) in Ha by (done || lia).
    destruct (decide (j = n)) as [->|Hne].
    + rewrite Hlast in Hb. injection Hb as <-. cbn. destruct (Hin i) as (a' & Ha' & _ & Hc); [lia|]. rewrite Ha in Ha'. injection Ha' as <-. lia.
    + rewrite (rd_wr_ne _ _ n j _) in Hb by (done || lia). apply (Hord i j); done || lia.
Qed.

Section match_.
Context (t r : list Z) (Ht : chars t) (Hsize : zlen (t ++ 0 :: r) < 2 ^ 31).
Abbreviation total := (zlen (t ++ 0 :: r)).

(** The state after [k] characters of the string. *)
Definition at_char (k : nat) (argc : Z) (args : list substring_t) : Prop :=
  (k <= length t)%nat /\ 0 <= argc <= MAX_OPT_ARGS /\ zlen args = MAX_OPT_ARGS /\ located argc args (Z.of_nat k).

Lemma rest_length k : (k <= length t)%nat -> total - zlen (drop k (t ++ 0 :: r)) = Z.of_nat k.
Proof. intros Hk. rewrite length_drop, !length_app. cbn [length]. lia. Qed.

Lemma convert_spec k p len argc args : at_char k argc args -> p <> [] -> - 2 ^ 31 <= len < 2 ^ 31 ->
  exists res, convert total (drop k (t ++ 0 :: r)) p len argc args = Some res /\
    match res with
    | inl st => exists k' args', st = (drop k' (t ++ 0 :: r), tail p, argc + 1, args') /\ at_char k' (argc + 1) args' /\ head p <> Some 0
    | inr b => b.1 = false /\ zlen b.2 = MAX_OPT_ARGS
    end.
Proof.
  intros (Hk & Hc & Hl & Hloc) Hp Hlen. pose proof (drop_app_le t (0 :: r) k Hk) as Hd. unfold convert. destruct (Z.leb_spec MAX_OPT_ARGS argc); [eexists; split; [done | by split]|].
  destruct (rd_is_Some args argc) as [a Ha]; [lia|]. rewrite Ha, some_bind, rest_length by done.
  destruct (wr args argc (mk_sub (Z.of_nat k) (to_ a))) as [args1|] eqn:Hw1; [|rewrite wr_Some in Hw1 by lia; discriminate Hw1].
  rewrite some_bind. destruct p as [|c p]; [done|]. cbn [deref head tail]. rewrite some_bind.
  pose proof (wr_length _ _ _ _ Hw1) as Hl1. assert (Hchk : chars (drop k t)) by (by apply chars_drop).
  assert (Hadd : forall e, (k <= e <= length t)%nat -> exists args2, wr args1 argc (mk_sub (Z.of_nat k) (Z.of_nat e)) = Some args2 /\ at_char e (argc + 1) args2).
  { intros e He. destruct (wr args1 argc (mk_sub (Z.of_nat k) (Z.of_nat e))) as [args2|] eqn:Hw2; [|rewrite wr_Some in Hw2 by lia; discriminate Hw2].
    exists args2. split; [done|]. split; [lia|]. split; [lia|]. split; [by rewrite (wr_length _ _ _ _ Hw2), Hl1|].
    apply (located_add _ args1 (Z.of_nat k) (Z.of_nat k) (Z.of_nat e)); [by eapply located_wr | lia | done | lia | lia]. }
  destruct (Z.eqb_spec c (ch "s")) as [->|Hs].
  - rewrite length_app in Hsize. cbn [length] in Hsize.
    replace (strlen (drop k (t ++ 0 :: r))) with (Some (Z.of_nat (length t - k))) by (by rewrite Hd, strlen_chars, length_drop).
    rewrite some_bind. destruct (Z.eqb_spec (Z.of_nat (length t - k)) 0); [eexists; split; [done|]; cbn; split; [done | lia]|].
    set (size := if (len =? -1) || _ then _ else len).
    assert (Hn : exists m, size = Z.of_nat m /\ (m <= length t - k)%nat).
    { unfold size. destruct (Z.eqb_spec len (-1)); cbn [orb]; [by exists (length t - k)%nat|].
      destruct (Z.ltb_spec (Z.of_nat (length t - k)) (u32 len)) as [|Hle]; [by exists (length t - k)%nat|].
      assert (0 <= len) by (clear -Hle Hsize Hlen; word_lia). rewrite u32_small in Hle by (unfold is_u32; lia).
      exists (Z.to_nat len). lia. }
    destruct Hn as (m & -> & Hm). rewrite Nat2Z.id, drop_drop, <-Nat2Z.inj_add.
    destruct (Hadd (k + m)%nat ltac:(lia)) as (args2 & E2 & Hat). rewrite E2, some_bind. eexists. split; [done|]. cbn beta iota.
    exists (k + m)%nat, args2. split; [done|]. done.
  - destruct (number_end_total c (drop k t) r Hchk) as [E|(j & E & Hj)]; rewrite <-Hd in E; rewrite E, some_bind.
    { eexists. split; [done|]. cbn. split; [done | lia]. }
    rewrite length_drop in Hj. rewrite drop_drop, rest_length by lia.
    destruct (Hadd (k + j)%nat ltac:(lia)) as (args2 & E2 & Hat). rewrite E2, some_bind.
    destruct (_ =? _); [eexists; split; [done|]; cbn; split; [done | apply Hat]|].
    eexists. split; [done|]. cbn beta iota. exists (k + j)%nat, args2. split; [done|]. split; [done|].
    cbn [head]. intros [= ->]. discriminate E.
Qed.

Lemma match_step_spec k q r' argc args : chars q -> at_char k argc args ->
  exists res, match_step total (drop k (t ++ 0 :: r), q ++ 0 :: r', argc, args) = Some res /\
    match res with
    | inl st => exists k' q' argc' args', st = (drop k' (t ++ 0 :: r), q' ++ 0 :: r', argc', args') /\ chars q' /\
        (length q' < length q)%nat /\ at_char k' argc' args'
    | inr b => zlen b.2 = MAX_OPT_ARGS /\ (b.1 = true -> exists n, 0 <= n <= MAX_OPT_ARGS /\ located n b.2 (zlen t))
    end.
Proof.
  intros Hq Hat. pose proof Hat as (Hk & Hc & Hl & Hloc). unfold match_step. pose proof (drop_app_le t (0 :: r) k Hk) as Hd.
  destruct (strchr_percent q r' Hq) as [[-> _]|(a & b & -> & Ha & ->)]; rewrite some_bind.
  { rewrite Hd. destruct (strcmp_spec q (drop k t) r' r Hq (chars_drop _ _ Ht)) as (x & -> & _). rewrite some_bind.
    eexists. split; [done|]. cbn [fst snd]. split; [done|]. intros _. exists argc. split; [done|].
    destruct Hloc as [Hin Hord]. split; [|done]. intros i Hi. destruct (Hin i Hi) as (x' & Hx & H1 & H2). exists x'. split; [done|]. lia. }
  apply Forall_app in Hq as [Hca Hcb]. apply chars_cons in Hcb as [_ Hcb].
  rewrite <-(app_assoc a), Hd. destruct (strncmp_spec a ((ch "%" :: b) ++ 0 :: r') (drop k t) r Hca (chars_drop _ _ Ht)) as (x & -> & Hx).
  rewrite some_bind, <-Hd. assert (Hfail : forall l, zlen l = MAX_OPT_ARGS -> zlen (false, l).2 = MAX_OPT_ARGS /\ ((false, l).1 = true -> exists n, 0 <= n <= MAX_OPT_ARGS /\ located n (false, l).2 (zlen t))) by done.
  destruct (Z.eqb_spec x 0) as [->|]; cbn [negb]; [|eexists; split; [done | by apply Hfail]].
  destruct (proj1 Hx eq_refl) as [u Hu]. rewrite Nat2Z.id, drop_drop. set (k1 := (k + length a)%nat).
  assert (Hk1 : (k1 <= length t)%nat). { apply (f_equal length) in Hu. rewrite length_drop, length_app in Hu. lia. }
  replace (Z.to_nat (zlen a + 1)) with (length a + 1)%nat by lia.
  replace (drop (length a + 1) (a ++ (ch "%" :: b) ++ 0 :: r')) with (b ++ 0 :: r') by (by rewrite <-drop_drop, drop_app_length).
  assert (Hat1 : at_char k1 argc args).
  { split; [done|]. split; [done|]. split; [done|]. destruct Hloc as [Hin Hord]. split; [|done]. intros i Hi.
    destruct (Hin i Hi) as (y & Hy & H1 & H2). exists y. split; [done|]. lia. }
  assert (Hconv : forall m len, (m <= length b)%nat -> - 2 ^ 31 <= len < 2 ^ 31 -> exists res,
    convert total (drop k1 (t ++ 0 :: r)) (drop m (b ++ 0 :: r')) len argc args = Some res /\
    match res with
    | inl st => exists k' q' argc' args', st = (drop k' (t ++ 0 :: r), q' ++ 0 :: r', argc', args') /\ chars q' /\
        (length q' < length (a ++ ch "%" :: b))%nat /\ at_char k' argc' args'
    | inr b => zlen b.2 = MAX_OPT_ARGS /\ (b.1 = true -> exists n, 0 <= n <= MAX_OPT_ARGS /\ located n b.2 (zlen t))
    end).
  { intros m len Hm Hlen. destruct (convert_spec k1 (drop m (b ++ 0 :: r')) len argc args Hat1) as (res & E & Hres); [|done|].
    { rewrite drop_app_le by done. intros E%app_eq_nil. naive_solver. }
    exists res. split; [done|]. destruct res as [st|[b' l]]; [|destruct Hres as [Hb Hl']; cbn in Hb |- *; by subst b'].
    destruct Hres as (k' & args' & -> & Hat' & Hh). rewrite (drop_app_le b (0 :: r') m Hm) in *.
    destruct (drop m b) as [|c b1] eqn:Eb; [done|]. exists k', b1, (argc + 1), args'. split; [done|].
    assert (Hcs : chars (c :: b1)) by (rewrite <-Eb; by apply chars_drop). apply chars_cons in Hcs as [_ Hcs]. split; [done|]. split; [|done].
    apply (f_equal length) in Eb. rewrite length_drop in Eb. rewrite length_app. cbn [length] in *. lia. }
  destruct b as [|c b]; cbn [app deref head]; rewrite some_bind.
  - change (isdigit 0) with false. cbn beta iota. change (0 =? ch "%") with false. cbn beta iota. apply (Hconv 0%nat (-1)); lia.
  - destruct (isdigit c).
    + destruct (strtoul_total 10 (c :: b) r' Hcb) as (v & m & Ev & Hm). cbn [app] in Ev. rewrite Ev, some_bind.
      apply (Hconv m (s32 v)); [done | apply s32_range].
    + destruct (Z.eqb_spec c (ch "%")) as [->|Hne]; [|apply (Hconv 0%nat (-1)); lia].
      rewrite (drop_app_le t (0 :: r) k1 Hk1). destruct (drop k1 t) as [|d u1] eqn:Eu; cbn [app deref head]; rewrite some_bind.
      { eexists. split; [done | by apply Hfail]. }
      destruct (Z.eqb_spec d (ch "%")) as [->|]; cbn [negb]; [|eexists; split; [done | by apply Hfail]].
      eexists. split; [done|]. cbn beta iota. exists (S k1), b, argc, args. cbn [tail].
      assert (Hk2 : (S k1 <= length t)%nat). { apply (f_equal length) in Eu. rewrite length_drop in Eu. cbn in Eu. lia. }
      split; [|split; [|split]].
      * repeat f_equal. rewrite (drop_app_le t (0 :: r) (S k1) Hk2). f_equal. replace (S k1) with (k1 + 1)%nat by lia. by rewrite <-drop_drop, Eu.
      * apply chars_cons in Hcb. tauto.
      * rewrite length_app. cbn [length]. lia.
      * destruct Hat1 as (_ & ? & ? & [Hin Hord]). split; [done|]. split; [done|]. split; [done|]. split; [|done]. intros i Hi.
        destruct (Hin i Hi) as (y & Hy & H1 & H2). exists y. split; [done|]. lia.
Qed.

Lemma match_one_spec p args : zlen args = MAX_OPT_ARGS -> (forall q, p = Some q -> exists q0 r', q = q0 ++ 0 :: r' /\ chars q0 /\ zlen q0 < 2 ^ 31) ->
  exists b args', match_one (t ++ 0 :: r) p args = Some (b, args') /\ zlen args' = MAX_OPT_ARGS /\
    (b = true -> exists n, 0 <= n <= MAX_OPT_ARGS /\ located n args' (zlen t)).
Proof.
  intros Hl Hp. destruct p as [p|]; [|exists true, args; split; [done|]; split; [done|]; intros _; exists 0; split; [done | apply located_start]].
  destruct (Hp p eq_refl) as (q & r' & -> & Hq & Hlen). unfold match_one.
  destruct (run_rule (fun st : list Z * list Z * Z * list substring_t => exists k q argc args, st = (drop k (t ++ 0 :: r), q ++ 0 :: r', argc, args) /\
      chars q /\ at_char k argc args)
    (fun b => zlen b.2 = MAX_OPT_ARGS /\ (b.1 = true -> exists n, 0 <= n <= MAX_OPT_ARGS /\ located n b.2 (zlen t)))
    (fun st => zlen st.1.1.2 - zlen r') (match_step total) 32 (t ++ 0 :: r, q ++ 0 :: r', 0, args)) as ([b args'] & E & Hb).
  - intros ? (k & q1 & argc & args1 & -> & Hq1 & Hat). destruct (match_step_spec k q1 r' argc args1 Hq1 Hat) as (res & E & Hres).
    exists res. split; [done|]. destruct res as [st|]; [|done]. destruct Hres as (k' & q' & argc' & args' & -> & Hq' & Hlt & Hat').
    split; [by exists k', q', argc', args'|]. cbn [fst snd]. rewrite !length_app. cbn [length]. lia.
  - exists 0%nat, q, 0, args. split; [done|]. split; [done|]. split; [lia|]. split; [done|]. split; [done|]. apply located_start.
  - cbn [fst snd]. rewrite length_app. cbn [length]. change (2 ^ Z.of_nat 32) with (2 * 2 ^ 31). lia.
  - exists b, args'. split; [exact E | done].
Qed.
End match_.

(** ** The theorems *)

(** A table of strings that ends with the NULL pattern. *)
Definition table_ok (table : list match_token_t) : Prop :=
  (exists l tk, table = l ++ [mk_token tk None]) /\
  Forall (fun m => forall q, pattern m = Some q -> exists q0 r', q = q0 ++ 0 :: r' /\ chars q0 /\ zlen q0 < 2 ^ 31) table.

(** For every string and every table that ends with the NULL pattern,
    match_token answers with the token of the first entry whose pattern matches,
    reads and writes nothing out of bounds, and leaves locations that lie in the
    string one after the other, at most MAX_OPT_ARGS of them. *)
Theorem match_token_safe t r table args : chars t -> zlen (t ++ 0 :: r) < 2 ^ 31 -> zlen args = MAX_OPT_ARGS -> table_ok table ->
  exists l1 m l2 args0 args' n, table = l1 ++ m :: l2 /\ match_token (t ++ 0 :: r) table args = Some (token m, args') /\
    Forall (fun m => exists a a', match_one (t ++ 0 :: r) (pattern m) a = Some (false, a')) l1 /\
    match_one (t ++ 0 :: r) (pattern m) args0 = Some (true, args') /\ 0 <= n <= MAX_OPT_ARGS /\ located n args' (zlen t).
Proof.
  intros Ht Hsz Hl [(l & tk & E) Hps]. revert args table E Hps Hl. induction l as [|m l IH]; intros args table -> Hps Hl.
  - exists [], (mk_token tk None), [], args, args, 0. split; [done|]. split; [done|]. split; [constructor|]. split; [done|]. split; [done|].
    apply located_start.
  - cbn [app match_token] in *. apply Forall_cons in Hps as [Hm Hps].
    destruct (match_one_spec t r Ht Hsz (pattern m) args Hl Hm) as (b & args1 & E1 & Hl1 & Hb). rewrite E1, some_bind. destruct b.
    + destruct (Hb eq_refl) as (n & Hn & Hloc). exists [], m, (l ++ [mk_token tk None]), args, args1, n.
      split; [done|]. split; [done|]. split; [constructor|]. done.
    + destruct (IH args1 _ eq_refl Hps Hl1) as (l1 & m' & l2 & a0 & args' & n & El & Em & Hf & H). rewrite Em, El.
      exists (m :: l1), m', l2, a0, args', n. split; [done|]. split; [done|]. split; [|done]. constructor; [by exists args, args1 | done].
Qed.

Definition sample_table : list match_token_t :=
  [mk_token 1 (Some (cstr "uid=%u"%string)); mk_token 2 (Some (cstr "codepage=%d:%3s"%string)); mk_token 3 (Some (cstr "quiet"%string)); mk_token 9 None].

Lemma match_token_safe_witness : exists args', match_token (cstr "codepage=437:latin"%string) sample_table (replicate 3 (mk_sub 0 0)) = Some (9, args') /\
  match_token (cstr "codepage=437:lat"%string) sample_table (replicate 3 (mk_sub 0 0)) = Some (2, [mk_sub 9 12; mk_sub 13 16; mk_sub 0 0]) /\
  exists n, 0 <= n <= MAX_OPT_ARGS /\ located n args' 18.
Proof.
  assert (Hcs : forall x, forallb (fun c => (0 <? c) && (c <? 256)) x = true -> chars x).
  { intros x Hx. rewrite List.forallb_forall in Hx. apply List.Forall_forall. intros c Hc%Hx. bool_to_prop. unfold is_u8. lia. }
  destruct (match_token_safe (text "codepage=437:latin"%string) [] sample_table (replicate 3 (mk_sub 0 0)))
    as (l1 & m & l2 & a0 & args' & n & _ & E & _ & _ & Hn & Hloc).
  - apply Hcs. reflexivity.
  - vm_compute. reflexivity.
  - reflexivity.
  - split; [by exists [mk_token 1 (Some (cstr "uid=%u"%string)); mk_token 2 (Some (cstr "codepage=%d:%3s"%string)); mk_token 3 (Some (cstr "quiet"%string))], 9|].
    repeat (constructor; [intros q Hq; try discriminate Hq; injection Hq as <-; eexists _, []; split; [reflexivity|]; split; [apply Hcs; reflexivity | vm_compute; reflexivity]|]).
    constructor; [intros q Hq; discriminate Hq | constructor].
  - exists args'. vm_compute in E. injection E as _ <-. split; [vm_compute; reflexivity|]. split; [vm_compute; reflexivity|]. by exists n.
Defined.

Lemma strchr_first lit x : chars lit -> Forall (fun c => c <> ch "%") lit -> strchr (lit ++ ch "%" :: x) (ch "%") = Some (Some (zlen lit)).
Proof.
  intros Hc Hn. destruct (strchr_percent lit [] Hc) as [_|(a & b & -> & _ & _)].
  - unfold strchr. cut (forall off, strchr_loop (lit ++ ch "%" :: x) (ch "%") off = Some (Some (off + zlen lit))); [intros H; apply H|].
    induction Hn as [|c lit Hne _ IH]; intros off; cbn [app strchr_loop]; change (u8 (ch "%")) with (ch "%").
    + rewrite Z.eqb_refl. cbn. by rewrite Z.add_0_r.
    + apply chars_cons in Hc as [[_ H0] Hc]. destruct (Z.eqb_spec c (ch "%")); [done|]. destruct (Z.eqb_spec c 0); [done|].
      rewrite IH by done. do 2 f_equal. cbn [length]. lia.
  - exfalso. apply Forall_app in Hn as [_ Hn]. apply Forall_cons in Hn as [Hn _]. done.
Qed.

(** One literal and one conversion at the end of the pattern. *)
Lemma match_literal_conversion lit v r c e args a : chars lit -> Forall (fun c => c <> ch "%") lit -> chars v -> v <> [] ->
  zlen (lit ++ v ++ 0 :: r) < 2 ^ 31 -> args = a :: e ->
  c = ch "s" \/ (c = ch "d" \/ c = ch "u") /\ (exists n, 0 <= n < 2 ^ 31 /\ v = decimal n) ->
  match_one (lit ++ v ++ 0 :: r) (Some (lit ++ [ch "%"; c; 0])) args = Some (true, mk_sub (zlen lit) (zlen lit + zlen v) :: e).
Proof.
  intros Hlit Hnp Hv Hne Hsz -> Hc. unfold match_one. set (T := lit ++ v ++ 0 :: r) in *.
  set (args' := mk_sub (zlen lit) (zlen lit + zlen v) :: e).
  assert (HvT : (length v <> 0)%nat) by (by destruct v).
  assert (Hstart : zlen T - zlen (v ++ 0 :: r) = zlen lit) by (unfold T; rewrite length_app; lia).
  assert (Hend : zlen T - zlen (0 :: r) = zlen lit + zlen v) by (unfold T; rewrite !length_app; lia).
  assert (Hstep : match_step (zlen T) (T, lit ++ [ch "%"; c; 0], 0, a :: e) = Some (inl (0 :: r, [0], 1, args'))).
  { unfold match_step. rewrite strchr_first, some_bind by done.
    assert (E : strncmp (lit ++ [ch "%"; c; 0]) T (zlen lit) = Some 0).
    { unfold T. rewrite app_assoc. destruct (strncmp_spec lit [ch "%"; c; 0] (lit ++ v) r Hlit) as (x & -> & Hx); [by apply Forall_app|].
      f_equal. apply Hx. by exists v. }
    assert (HdT : drop (length lit) T = v ++ 0 :: r) by (unfold T; apply drop_app_length).
    rewrite E, some_bind. cbn [Z.eqb negb]. rewrite Nat2Z.id, HdT.
    replace (Z.to_nat (zlen lit + 1)) with (length lit + 1)%nat by lia. rewrite <-drop_drop, drop_app_length. cbn [drop deref head].
    rewrite some_bind. assert (Hcc : isdigit c = false /\ c <> ch "%") by (destruct Hc as [->|[[->| ->] _]]; done).
    destruct Hcc as [-> Hcp]. destruct (Z.eqb_spec c (ch "%")) as [|_]; [done|]. unfold convert. rewrite Hstart.
    cbn [Z.leb Z.compare MAX_OPT_ARGS]. change (rd (a :: e) 0) with (Some a). rewrite some_bind.
    change (wr (a :: e) 0 ?x) with (Some (x :: e)). rewrite some_bind. cbn [deref head tail]. rewrite some_bind.
    destruct Hc as [->|[Hc (n & Hn & ->)]].
    - cbn [Z.eqb]. rewrite Z.eqb_refl, strlen_chars, some_bind by done. destruct (Z.eqb_spec (zlen v) 0); [lia|]. cbn [Z.eqb Pos.eqb orb].
      change (wr (?y :: e) 0 ?x) with (Some (x :: e)). rewrite some_bind, Nat2Z.id, drop_app_length. done.
    - assert (Hends : ends_number (0 :: r)) by (split; done).
      assert (En : number_end c (decimal n ++ 0 :: r) = Some (Some (0 :: r))).
      { unfold number_end. destruct Hc as [->| ->]; cbn [Z.eqb]; rewrite ?Z.eqb_refl.
        - by rewrite strtol_decimal, some_bind.
        - change (ch "u" =? ch "d") with false. cbn beta iota. by rewrite strtoul_decimal, some_bind by (unfold is_u32; done || lia). }
      destruct (Z.eqb_spec c (ch "s")) as [->|]; [destruct Hc as [Hc|Hc]; discriminate Hc|]. rewrite En, some_bind.
      change (wr (?y :: e) 0 ?x) with (Some (x :: e)). rewrite some_bind, Hend.
      destruct (Z.eqb_spec (zlen (0 :: r)) (zlen (decimal n ++ 0 :: r))) as [Hq|]; [rewrite length_app in Hq; lia|]. done. }
  destruct (run_rule (fun st => st = (T, lit ++ [ch "%"; c; 0], 0, a :: e) \/ st = (0 :: r, [0], 1, args'))
    (fun b => b = (true, args')) (fun st => zlen st.1.1.2) (match_step (zlen T)) 32 (T, lit ++ [ch "%"; c; 0], 0, a :: e)) as (b & E & Hb).
  - intros st [->| ->].
    + rewrite Hstep. eexists. split; [done|]. split; [by right|]. cbn [fst snd]. rewrite length_app. cbn [length]. lia.
    + eexists. split; [reflexivity|]. reflexivity.
  - by left.
  - cbn [fst snd]. unfold T in Hsz. rewrite !length_app in Hsz |- *. cbn [length] in *. change (2 ^ Z.of_nat 32) with (2 * 2 ^ 31). lia.
  - rewrite E. by subst b.
Qed.

(** A mount option is read back: for a pattern that is a literal and %d or %u the
    string of the literal and a decimal number gives the pattern's token, and
    match_int of the location gives the number; for %s match_strdup gives the
    characters after the literal. *)
Theorem match_option_roundtrip lit tk table args r : chars lit -> Forall (fun c => c <> ch "%") lit -> zlen args = MAX_OPT_ARGS ->
  (forall n c, 0 <= n < 2 ^ 31 -> c = ch "d" \/ c = ch "u" -> zlen (lit ++ decimal n ++ 0 :: r) < 2 ^ 31 -> exists args' a,
    match_token (lit ++ decimal n ++ 0 :: r) (mk_token tk (Some (lit ++ [ch "%"; c; 0])) :: table) args = Some (tk, args') /\
    rd args' 0 = Some a /\ match_int true (lit ++ decimal n ++ 0 :: r) a = Some (0, Some n)) /\
  (forall v fresh, chars v -> v <> [] -> zlen (lit ++ v ++ 0 :: r) < 2 ^ 31 -> (forall n, 0 <= n -> zlen (fresh n) = n) -> exists args' a,
    match_token (lit ++ v ++ 0 :: r) (mk_token tk (Some (lit ++ [ch "%"; ch "s"; 0])) :: table) args = Some (tk, args') /\
    rd args' 0 = Some a /\ match_strdup true fresh (lit ++ v ++ 0 :: r) a = Some (Some (v ++ [0]))).
Proof.
  intros Hlit Hnp Hl. destruct args as [|a0 e]; [done|].
  assert (Hsub : forall v, sub_text (lit ++ v ++ 0 :: r) (mk_sub (zlen lit) (zlen lit + zlen v)) = v).
  { intros v. unfold sub_text, slice. cbn [from to_]. rewrite Nat2Z.id, drop_app_length.
    replace (Z.to_nat (zlen lit + zlen v - zlen lit)) with (length v) by lia. apply take_app_length. }
  split.
  - intros n c Hn Hc Hsz. eexists _, (mk_sub (zlen lit) (zlen lit + zlen (decimal n))). split; [|split].
    + cbn [match_token pattern token]. rewrite (match_literal_conversion lit (decimal n) r c e (a0 :: e) a0); [done|done|done| | |done|done|].
      * apply Forall_map, Forall_rev. pose proof (base_rev_bound 10 25 n ltac:(lia) ltac:(lia)) as Hb. eapply Forall_impl; [exact Hb|].
        intros d Hd. cbn beta in *. destruct (digit_char_value d) as (Hx & _ & _ & _ & Hu); [lia|]. split; [done|]. intros H0. by rewrite H0 in Hx.
      * pose proof (decimal_length n). intros H0. rewrite H0 in H. cbn in H. lia.
      * right. split; [done|]. by exists n.
    + done.
    + unfold match_int, match_number. cbn [negb]. rewrite Hsub, strtol_decimal, some_bind by (done || split; done).
      pose proof (decimal_length n). destruct (Z.eqb_spec (zlen [0]) (zlen (decimal n ++ [0]))) as [Hq|]; [rewrite length_app in Hq; cbn [length] in Hq; lia | done].
  - intros v fresh Hv Hne Hsz Hf. eexists _, (mk_sub (zlen lit) (zlen lit + zlen v)). split; [|split].
    + cbn [match_token pattern token]. rewrite (match_literal_conversion lit v r (ch "s") e (a0 :: e) a0); [done|done|done|done|done|done|done|by left].
    + done.
    + unfold match_strdup, match_strcpy. cbn [negb from to_]. replace (zlen lit + zlen v - zlen lit) with (zlen v) by lia.
      pose proof (Hf (zlen v + 1) ltac:(lia)) as Hfl.
      rewrite memcpy_blit, some_bind by (rewrite ?length_app; cbn [length]; lia).
      assert (E : blit (fresh (zlen v + 1)) 0 (lit ++ v ++ 0 :: r) (zlen lit) (zlen v) = v ++ drop (length v) (fresh (zlen v + 1))).
      { unfold blit, slice. cbn [Z.to_nat take app]. rewrite !Nat2Z.id, drop_app_length, take_app_length.
        by replace (Z.to_nat (0 + zlen v)) with (length v) by lia. }
      rewrite E. destruct (drop (length v) (fresh (zlen v + 1))) as [|x [|y z]] eqn:Ed;
        apply (f_equal length) in Ed; rewrite length_drop in Ed; cbn [length] in Ed; try lia.
      by rewrite (wr_middle v x 0 [] _ eq_refl), some_bind.
Qed.

Lemma match_option_roundtrip_witness : exists args' a,
  match_token (cstr "uid=1000"%string) sample_table (replicate 3 (mk_sub 0 0)) = Some (1, args') /\ rd args' 0 = Some a /\
  match_int true (cstr "uid=1000"%string) a = Some (0, Some 1000).
Proof.
  destruct (match_option_roundtrip (text "uid="%string) 1 (tail sample_table) (replicate 3 (mk_sub 0 0)) []) as [H _].
  - change (text "uid="%string) with [117; 105; 100; 61]. repeat (constructor; [split; [unfold is_u8; lia | discriminate]|]). constructor.
  - change (text "uid="%string) with [117; 105; 100; 61]. repeat (constructor; [discriminate|]). constructor.
  - reflexivity.
  - exact (H 1000 (ch "u") ltac:(lia) (or_intror eq_refl) ltac:(vm_compute; reflexivity)).
Defined.

(** A sign alone passes as a number, of value 0. *)
Example match_sign_alone : match_token (cstr "x=-"%string) [mk_token 5 (Some (cstr "x=%d"%string)); mk_token 9 None] (replicate 3 (mk_sub 0 0)) =
    Some (5, [mk_sub 2 3; mk_sub 0 0; mk_sub 0 0]) /\ match_int true (cstr "x=-"%string) (mk_sub 2 3) = Some (0, Some 0).
Proof. split; vm_compute; reflexivity. Qed.
