(* ===== verification/ListHead.v ===== *)
(** * include/linux/list.h: circular doubly linked lists

    A list_head is a cell with two pointers; the memory has both for every cell, and
    a cell that is not there gives [None].  The abstract value is a set of rings: a
    head and the sequence of its entries. *)

From S2P Require Import Prelude.

(** ** Operations *)

Record mem := mk_mem { next : gmap Z Z; prev : gmap Z Z }.
Definition set_next (m : mem) (a v : Z) : option mem := _ ← next m !! a; Some (mk_mem (<[a := v]> (next m)) (prev m)).
Definition set_prev (m : mem) (a v : Z) : option mem := _ ← prev m !! a; Some (mk_mem (next m) (<[a := v]> (prev m))).

Definition LIST_POISON1 : Z := 0x00100100.
Definition LIST_POISON2 : Z := 0x00200200.

Definition INIT_LIST_HEAD (m : mem) (list : Z) : option mem :=
  m ← set_next m list list;
  set_prev m list list.

Definition __list_add (m : mem) (new prev_ next_ : Z) : option mem :=
  m ← set_prev m next_ new;
  m ← set_next m new next_;
  m ← set_prev m new prev_;
  set_next m prev_ new.
Definition list_add (m : mem) (new head : Z) : option mem :=
  n ← next m !! head; __list_add m new head n.
Definition list_add_tail (m : mem) (new head : Z) : option mem :=
  p ← prev m !! head; __list_add m new p head.

Definition __list_del (m : mem) (prev_ next_ : Z) : option mem :=
  m ← set_prev m next_ prev_;
  set_next m prev_ next_.
(** __list_del(entry->prev, entry->next) *)
Definition unlink (m : mem) (entry : Z) : option mem :=
  p ← prev m !! entry; n ← next m !! entry; __list_del m p n.
Definition list_del (m : mem) (entry : Z) : option mem :=
  m ← unlink m entry;
  m ← set_next m entry LIST_POISON1;
  set_prev m entry LIST_POISON2.
Definition list_del_init (m : mem) (entry : Z) : option mem :=
  m ← unlink m entry;
  INIT_LIST_HEAD m entry.

Definition list_replace (m : mem) (old new : Z) : option mem :=
  n ← next m !! old;
  m ← set_next m new n;
  n ← next m !! new;
  m ← set_prev m n new;
  p ← prev m !! old;
  m ← set_prev m new p;
  p ← prev m !! new;
  set_next m p new.
Definition list_replace_init (m : mem) (old new : Z) : option mem :=
  m ← list_replace m old new;
  INIT_LIST_HEAD m old.

Definition list_move (m : mem) (list head : Z) : option mem :=
  m ← unlink m list;
  list_add m list head.
Definition list_move_tail (m : mem) (list head : Z) : option mem :=
  m ← unlink m list;
  list_add_tail m list head.

Definition list_is_last (m : mem) (list head : Z) : option bool := n ← next m !! list; Some (n =? head).
Definition list_empty (m : mem) (head : Z) : option bool := n ← next m !! head; Some (n =? head).
Definition list_empty_careful (m : mem) (head : Z) : option bool :=
  n ← next m !! head;
  p ← prev m !! head;
  Some ((n =? head) && (n =? p)).

Definition __list_splice (m : mem) (list head : Z) : option mem :=
  first ← next m !! list;
  last ← prev m !! list;
  at_ ← next m !! head;
  m ← set_prev m first head;
  m ← set_next m head first;
  m ← set_next m last at_;
  set_prev m at_ last.
Definition list_splice (m : mem) (list head : Z) : option mem :=
  e ← list_empty m list;
  if (e : bool) then Some m else __list_splice m list head.
Definition list_splice_init (m : mem) (list head : Z) : option mem :=
  e ← list_empty m list;
  if (e : bool) then Some m else
  m ← __list_splice m list head;
  INIT_LIST_HEAD m list.

(** The test is of [head]; [sync] waits for the readers. *)
Definition list_splice_init_rcu (m : mem) (list head : Z) : option mem :=
  first ← next m !! list;
  last ← prev m !! list;
  at_ ← next m !! head;
  e ← list_empty m head;
  if (e : bool) then Some m else
  m ← INIT_LIST_HEAD m list;
  m ← set_next m last at_;
  m ← set_next m head first;
  m ← set_prev m first head;
  set_prev m at_ last.

(** list_for_each: the cells from [head] on, at most [fuel] of them. *)
Fixpoint list_walk (fuel : nat) (m : mem) (pos head : Z) : option (list Z) :=
  match fuel with
  | O => None
  | S fuel => if pos =? head then Some [] else n ← next m !! pos; l ← list_walk fuel m n head; Some (pos :: l)
  end.
Definition list_for_each (fuel : nat) (m : mem) (head : Z) : option (list Z) :=
  n ← next m !! head; list_walk fuel m n head.

(** ** Rings *)

(** From [a] through [l] to [b], in both directions. *)
Fixpoint chain (m : mem) (a : Z) (l : list Z) (b : Z) : Prop :=
  match l with
  | [] => next m !! a = Some b /\ prev m !! b = Some a
  | x :: l => next m !! a = Some x /\ prev m !! x = Some a /\ chain m x l b
  end.
Record ring (m : mem) (h : Z) (l : list Z) : Prop := mk_ring {
  ring_nodup : NoDup (h :: l);
  ring_chain : chain m h l h }.

(** [m'] is [m] on the cells outside of [l]. *)
Record apart (m m' : mem) (l : list Z) : Prop := mk_apart {
  apart_next a : a ∉ l -> next m' !! a = next m !! a;
  apart_prev a : a ∉ l -> prev m' !! a = prev m !! a }.
Definition cell (m : mem) (a : Z) : Prop := is_Some (next m !! a) /\ is_Some (prev m !! a).

(** ** Chains *)

Lemma chain_app m a l1 x l2 b : chain m a (l1 ++ x :: l2) b <-> chain m a l1 x /\ chain m x l2 b.
Proof.
  revert a. induction l1 as [|y l1 IH]; intros a; cbn [app chain]; [tauto|]. rewrite IH. tauto.
Qed.

Lemma chain_frame m m' a l b : chain m a l b -> (forall x, x ∈ a :: l -> next m' !! x = next m !! x) ->
  (forall x, x ∈ l ++ [b] -> prev m' !! x = prev m !! x) -> chain m' a l b.
Proof.
  revert a. induction l as [|y l IH]; intros a; cbn [chain app].
  - intros [H1 H2] Hn Hp. rewrite Hn, Hp by left. done.
  - intros (H1 & H2 & H) Hn Hp. split; [rewrite Hn by left; done|]. split; [rewrite Hp by left; done|].
    apply IH; [done|..]; intros x Hx; [apply Hn | apply Hp]; by right.
Qed.

Lemma chain_cell m a l b x : chain m a l b -> x ∈ l -> cell m x.
Proof.
  revert a. induction l as [|y l IH]; intros a; cbn [chain]; [intros _ Hx; by apply elem_of_nil in Hx|].
  intros (_ & H2 & H) [->|Hx]%elem_of_cons; [|by eapply IH]. split; [|by eexists]. destruct l; cbn [chain] in H; eexists; apply H.
Qed.

Lemma chain_ends m a l b : chain m a l b -> is_Some (next m !! a) /\ is_Some (prev m !! b).
Proof.
  revert a. induction l as [|y l IH]; intros a; cbn [chain]; [intros [-> ->]; by split; eexists|].
  intros (-> & _ & H). split; [by eexists|]. by apply (IH y).
Qed.

Lemma ring_cell m h l x : ring m h l -> x ∈ h :: l -> cell m x.
Proof. intros [_ Hc] [->|Hx]%elem_of_cons; [by apply (chain_ends m h l) | by eapply chain_cell]. Qed.

Lemma ring_apart m m' h l c : ring m h l -> apart m m' c -> (forall x, x ∈ h :: l -> x ∉ c) -> ring m' h l.
Proof.
  intros [Hnd Hc] [Hn Hp] Hd. split; [done|]. eapply chain_frame; [exact Hc|..]; intros x Hx; [apply Hn | apply Hp]; apply Hd; [done|].
  apply elem_of_app in Hx as [Hx|Hx]; [by right|]. apply list_elem_of_singleton in Hx as ->. left.
Qed.

Lemma apart_weaken m m' l l' : apart m m' l -> (forall x, x ∈ l -> x ∈ l') -> apart m m' l'.
Proof. intros [Hn Hp] Hl. split; intros a Ha; [apply Hn | apply Hp]; intros Hx; by apply Ha, Hl. Qed.

Lemma apart_trans m1 m2 m3 l : apart m1 m2 l -> apart m2 m3 l -> apart m1 m3 l.
Proof. intros [Hn Hp] [Hn' Hp']. split; intros a Ha; [rewrite Hn', Hn | rewrite Hp', Hp]; done. Qed.

Lemma apart_cell m m' l x : apart m m' l -> x ∉ l -> cell m x -> cell m' x.
Proof. intros [Hn Hp] Hx [H1 H2]. split; [rewrite Hn | rewrite Hp]; done. Qed.

(** A ring can be seen from any of its cells. *)
Lemma ring_rotate m h l1 x l2 : ring m h (l1 ++ x :: l2) -> ring m x (l2 ++ h :: l1).
Proof.
  intros [Hnd Hc]. apply chain_app in Hc as [H1 H2]. split.
  - by rewrite (Permutation_app_comm (x :: l2) (h :: l1) : x :: l2 ++ h :: l1 ≡ₚ h :: l1 ++ x :: l2).
  - apply chain_app. by split.
Qed.

(** The next cell of one in a chain, and the previous one. *)
Lemma chain_first m a l b : chain m a l b -> next m !! a = Some (default b (head l)).
Proof. destruct l; cbn; tauto. Qed.

Lemma chain_last m a l b : chain m a l b -> prev m !! b = Some (default a (last l)).
Proof.
  revert a. induction l as [|y l IH]; intros a; [cbn; tauto|]. cbn [chain]. intros (_ & _ & H). rewrite (IH y H).
  rewrite last_cons. by destruct (last l).
Qed.

(** ** Storing *)

Lemma set_next_Some m a v : cell m a -> set_next m a v = Some (mk_mem (<[a := v]> (next m)) (prev m)).
Proof. intros [[x Hx] _]. unfold set_next. by rewrite Hx. Qed.

Lemma set_prev_Some m a v : cell m a -> set_prev m a v = Some (mk_mem (next m) (<[a := v]> (prev m))).
Proof. intros [_ [x Hx]]. unfold set_prev. by rewrite Hx. Qed.

(** A cell stays one when others, or it, are stored to. *)
Ltac cell_solve :=
  repeat match goal with H : cell _ _ |- _ => destruct H end;
  split; cbn [next prev]; rewrite ?lookup_insert_is_Some'; tauto.
#[export] Hint Extern 2 (cell _ _) => cell_solve : kernel.
#[export] Hint Rewrite set_next_Some set_prev_Some using eauto with kernel : kernel.

(** ** The primitives *)

Lemma list_add_between m n p x : cell m n -> cell m p -> cell m x -> n <> p -> n <> x ->
  exists m', __list_add m n p x = Some m' /\ next m' = <[p := n]> (<[n := x]> (next m)) /\ prev m' = <[n := p]> (<[x := n]> (prev m)).
Proof.
  intros Hn Hp Hx _ _. unfold __list_add. do 4 (autorewrite with kernel; cbn [next prev]). eexists. split; [done|]. done.
Qed.

(** Lookups in a memory that has been stored to. *)
Ltac mem_lookup :=
  repeat first [rewrite lookup_insert_eq | rewrite lookup_insert_ne by (done || congruence)]; try done.

Lemma ring_add_tail m n h l : ring m h l -> cell m n -> n ∉ h :: l ->
  exists m', list_add_tail m n h = Some m' /\ ring m' h (l ++ [n]) /\ apart m m' (n :: h :: l).
Proof.
  intros Hr Hn Hni. pose proof Hr as [Hnd Hc]. unfold list_add_tail. rewrite (chain_last _ _ _ _ Hc), some_bind.
  assert (Hnh : n <> h) by (intros ->; apply Hni; left).
  assert (Hnl : n ∉ l) by (intros H; apply Hni; by right).
  pose proof (ring_cell _ _ _ h Hr ltac:(left)) as Hh.
  assert (Hnd' : NoDup (h :: l ++ [n])).
  { rewrite app_comm_cons. apply NoDup_app. split; [done|]. split; [|apply NoDup_singleton]. intros y Hy Hy'.
    apply list_elem_of_singleton in Hy' as ->. done. }
  destruct l as [|p l _] using rev_ind.
  - destruct (list_add_between m n h h) as (m' & E & En & Ep); [done..|]. exists m'. split; [done|]. split.
    + split; [done|]. cbn. rewrite En, Ep. split_and!; mem_lookup.
    + split; intros a Ha; rewrite ?En, ?Ep; rewrite !not_elem_of_cons in Ha; destruct Ha as (? & ? & _); mem_lookup.
  - rewrite last_snoc. cbn [default]. assert (Hp : cell m p) by (apply (ring_cell _ _ _ _ Hr); set_solver).
    apply NoDup_cons in Hnd as [Hhn Hndl]. apply NoDup_app in Hndl as (Hndl & Hpl & _).
    assert (Hph : p <> h) by set_solver. assert (Hpn : p <> n) by set_solver. assert (Hpl' : p ∉ l) by set_solver.
    destruct (list_add_between m n p h) as (m' & E & En & Ep); [done..|]. exists m'. split; [done|]. split.
    + split; [done|]. apply chain_app in Hc as [Hc1 Hc2]. rewrite <-app_assoc. cbn [app]. apply chain_app. split.
      * eapply chain_frame; [exact Hc1|..]; intros x Hx; rewrite ?En, ?Ep;
          assert (x <> n /\ (x ∈ h :: l -> x <> p) /\ (x ∈ l ++ [p] -> x <> h)) as (? & H1 & H2) by set_solver;
          [specialize (H1 Hx) | specialize (H2 Hx)]; mem_lookup.
      * cbn. rewrite En, Ep. split_and!; mem_lookup.
    + split; intros a Ha; rewrite ?En, ?Ep; assert (a <> n /\ a <> h /\ a <> p) as (? & ? & ?) by set_solver; mem_lookup.
Qed.

Lemma ring_add m n h l : ring m h l -> cell m n -> n ∉ h :: l ->
  exists m', list_add m n h = Some m' /\ ring m' h (n :: l) /\ apart m m' (n :: h :: l).
Proof.
  intros Hr Hn Hni. assert (E : list_add m n h = list_add_tail m n (default h (head l))).
  { pose proof Hr as [Hnd Hc]. unfold list_add, list_add_tail. rewrite (chain_first _ _ _ _ Hc), some_bind.
    destruct l as [|x l]; [change (default h (head [])) with h; by rewrite (chain_last _ _ _ _ Hc)|].
    change (default h (head (x :: l))) with x. destruct Hc as (_ & -> & _). done. }
  rewrite E. destruct l as [|x l]; [change (default h (head [])) with h|change (default h (head (x :: l))) with x].
  - by apply (ring_add_tail m n h []).
  - destruct (ring_add_tail m n x (l ++ [h])) as (m' & E' & Hr' & Ha').
    + by apply (ring_rotate m h [] x l).
    + done.
    + set_solver.
    + exists m'. split; [done|]. split.
      * rewrite <-app_assoc in Hr'. cbn [app] in Hr'. by apply (ring_rotate m' x l h [n]).
      * eapply apart_weaken; [exact Ha'|]. set_solver.
Qed.

(** An entry taken out; its own pointers stay. *)
Lemma ring_unlink m h l1 e l2 : ring m h (l1 ++ e :: l2) -> exists m', unlink m e = Some m' /\ ring m' h (l1 ++ l2) /\
  cell m' e /\ apart m m' (h :: l1 ++ l2).
Proof.
  intros Hr. pose proof (ring_cell _ _ _ e Hr ltac:(set_solver)) as He.
  pose proof Hr as [Hnd Hc]. apply chain_app in Hc as [H1 H2]. unfold unlink.
  rewrite (chain_last _ _ _ _ H1), (chain_first _ _ _ _ H2), !some_bind. unfold __list_del.
  set (p := default h (last l1)). set (x := default h (head l2)).
  assert (Hp : p = h \/ p ∈ l1). { unfold p. destruct (last l1) eqn:E; [right; by eapply last_Some_elem_of | by left]. }
  assert (Hx : x = h \/ x ∈ l2). { unfold x. destruct l2; [by left | right; left]. }
  assert (Hcp : cell m p) by (apply (ring_cell _ _ _ _ Hr); set_solver).
  assert (Hcx : cell m x) by (apply (ring_cell _ _ _ _ Hr); set_solver).
  autorewrite with kernel. cbn [next prev]. eexists. split; [done|].
  assert (Hnd' : NoDup (h :: l1 ++ l2)).
  { eapply sublist_NoDup; [exact Hnd|]. apply sublist_skip, sublist_app; [done|]. by apply sublist_cons. }
  assert (Hap : apart m (mk_mem (<[p:=x]> (next m)) (<[x:=p]> (prev m))) (h :: l1 ++ l2)).
  { split; intros a Ha; cbn; assert (a <> p /\ a <> x) as [? ?] by set_solver; mem_lookup. }
  assert (Heh : e ∉ h :: l1 ++ l2).
  { apply NoDup_cons in Hnd as [Hh Hnd]. apply NoDup_app in Hnd as (_ & Hd & Hnd). apply NoDup_cons in Hnd as [Hn2 _]. set_solver. }
  split; [|split; [by eapply apart_cell | done]].
  split; [done|]. apply NoDup_cons in Hnd' as [Hh12 Hnd12]. apply NoDup_app in Hnd12 as (Hnd1 & Hd12 & Hnd2).
  destruct l1 as [|p' l1 _] using rev_ind; destruct l2 as [|x' l2]; unfold p, x in *; clear p x; rewrite ?last_snoc in *;
    cbn [last head default app from_option id chain next prev] in *.
  - split; mem_lookup.
  - destruct H2 as (_ & _ & H2). apply NoDup_cons in Hnd2 as [Hx' _]. split_and!; [by mem_lookup | by mem_lookup |].
    eapply chain_frame; [exact H2|..]; intros y Hy; cbn; rewrite lookup_insert_ne; set_solver.
  - rewrite app_nil_r. apply chain_app in H1 as [H1 _]. apply NoDup_app in Hnd1 as (_ & Hd1 & _). apply chain_app. split.
    + eapply chain_frame; [exact H1|..]; intros y Hy; cbn; rewrite lookup_insert_ne; set_solver.
    + cbn [chain next prev]. split; mem_lookup.
  - apply chain_app in H1 as [H1 _]. destruct H2 as (_ & _ & H2). apply NoDup_app in Hnd1 as (_ & Hd1 & _).
    apply NoDup_cons in Hnd2 as [Hx' _]. rewrite <-app_assoc. cbn [app]. apply chain_app. split.
    + eapply chain_frame; [exact H1|..]; intros y Hy; cbn; rewrite lookup_insert_ne; set_solver.
    + cbn. split_and!; [by mem_lookup | by mem_lookup |].
      eapply chain_frame; [exact H2|..]; intros y Hy; cbn; rewrite lookup_insert_ne; set_solver.
Qed.

Lemma ring_init m a : cell m a -> exists m', INIT_LIST_HEAD m a = Some m' /\ ring m' a [] /\ apart m m' [a].
Proof.
  intros Ha. unfold INIT_LIST_HEAD. autorewrite with kernel. eexists. split; [done|]. split.
  - split; [apply NoDup_singleton|]. cbn. split; mem_lookup.
  - split; intros x Hx; cbn; assert (x <> a) by set_solver; mem_lookup.
Qed.

Lemma ring_del m h l1 e l2 : ring m h (l1 ++ e :: l2) ->
  exists m', list_del m e = Some m' /\ ring m' h (l1 ++ l2) /\ apart m m' (h :: l1 ++ e :: l2).
Proof.
  intros Hr. pose proof (ring_nodup _ _ _ Hr) as Hnd. destruct (ring_unlink m h l1 e l2 Hr) as (m1 & E1 & Hr1 & He & Ha1).
  unfold list_del. rewrite E1, some_bind. autorewrite with kernel. cbn [next prev]. eexists. split; [done|].
  assert (Heh : forall x, x ∈ h :: l1 ++ l2 -> x <> e).
  { apply NoDup_cons in Hnd as [Hh Hnd]. apply NoDup_app in Hnd as (_ & Hd & Hnd). apply NoDup_cons in Hnd as [Hn2 _]. set_solver. }
  set (m2 := mk_mem _ _). assert (Ha2 : apart m1 m2 [e]) by (split; intros x Hx; cbn; assert (x <> e) by set_solver; mem_lookup).
  split.
  - eapply ring_apart; [exact Hr1 | exact Ha2 |]. set_solver.
  - apply (apart_trans m m1 m2); eapply apart_weaken; [exact Ha1 | | exact Ha2 |]; set_solver.
Qed.

(** An entry alone is taken out of nothing. *)
Lemma ring_unlink_alone m e : ring m e [] -> unlink m e = Some m.
Proof.
  intros Hr. pose proof (ring_cell _ _ _ e Hr ltac:(left)) as He. destruct Hr as [_ [H1 H2]].
  unfold unlink. rewrite H2, H1, !some_bind. unfold __list_del. autorewrite with kernel. cbn [next prev].
  rewrite !insert_id by done. by destruct m.
Qed.

(** ** Several rings

    The abstract state: for each head the entries of its ring; entries that are in no
    list are rings of their own, as INIT_LIST_HEAD leaves them. *)

Abbreviation lists := (gmap Z (list Z)).
Definition used (σ : lists) (x : Z) : Prop := exists h l, σ !! h = Some l /\ x ∈ h :: l.
Record rep (m : mem) (σ : lists) : Prop := mk_rep {
  rep_ring h l : σ !! h = Some l -> ring m h l;
  rep_disjoint h l h' l' x : σ !! h = Some l -> σ !! h' = Some l' -> h <> h' -> x ∈ h :: l -> x ∉ h' :: l' }.

Lemma used_insert σ h l x : used (<[h := l]> (delete h σ)) x <-> x ∈ h :: l \/ used (delete h σ) x.
Proof.
  split.
  - intros (k & l' & Hk & Hx). destruct (decide (k = h)) as [->|Hne].
    + rewrite lookup_insert_eq in Hk. injection Hk as <-. by left.
    + right. exists k, l'. by rewrite lookup_insert_ne in Hk.
  - intros [Hx|(k & l' & Hk & Hx)]; [exists h, l; by rewrite lookup_insert_eq|].
    exists k, l'. rewrite lookup_insert_ne; [done|]. intros ->. by rewrite lookup_delete_eq in Hk.
Qed.

Lemma used_delete σ h x : used (delete h σ) x -> used σ x.
Proof. intros (k & l & Hk & Hx). apply lookup_delete_Some in Hk as [_ Hk]. by exists k, l. Qed.

(** One ring and the others. *)
Lemma rep_insert m σ h l : rep m (<[h := l]> (delete h σ)) <->
  ring m h l /\ rep m (delete h σ) /\ forall x, x ∈ h :: l -> ~ used (delete h σ) x.
Proof.
  split.
  - intros [Hr Hd]. split; [apply Hr, lookup_insert_eq|]. split; [split|].
    + intros k l' Hk. apply Hr. rewrite lookup_insert_ne; [done|]. intros ->. by rewrite lookup_delete_eq in Hk.
    + intros k l1 k' l2 x Hk Hk' Hne. apply (Hd k l1 k' l2); [| |done]; (rewrite lookup_insert_ne; [done|]; intros ->; by rewrite lookup_delete_eq in *).
    + intros x Hx (k & l' & Hk & Hx'). assert (Hne : h <> k) by (intros ->; by rewrite lookup_delete_eq in Hk).
      apply (Hd h l k l' x); [apply lookup_insert_eq | by rewrite lookup_insert_ne | done..].
  - intros (Hr & [Hr0 Hd0] & Hd). split.
    + intros k l' Hk. destruct (decide (k = h)) as [->|Hne]; [rewrite lookup_insert_eq in Hk; by injection Hk as <-|].
      rewrite lookup_insert_ne in Hk by done. by apply Hr0.
    + intros k l1 k' l2 x Hk Hk' Hne Hx Hx'. destruct (decide (k = h)) as [->|H1]; [|destruct (decide (k' = h)) as [->|H2]].
      * rewrite lookup_insert_eq in Hk. injection Hk as <-. rewrite lookup_insert_ne in Hk' by done. apply (Hd x Hx). by exists k', l2.
      * rewrite lookup_insert_eq in Hk'. injection Hk' as <-. rewrite lookup_insert_ne in Hk by done. apply (Hd x Hx'). by exists k, l1.
      * rewrite lookup_insert_ne in Hk, Hk' by done. by apply (Hd0 k l1 k' l2 x).
Qed.

Lemma rep_split m σ h l : σ !! h = Some l ->
  rep m σ <-> ring m h l /\ rep m (delete h σ) /\ forall x, x ∈ h :: l -> ~ used (delete h σ) x.
Proof. intros Hl. rewrite <-rep_insert, insert_delete_eq, insert_id by done. done. Qed.

Lemma rep_apart m m' σ c : rep m σ -> apart m m' c -> (forall x, x ∈ c -> ~ used σ x) -> rep m' σ.
Proof.
  intros [Hr Hd] Ha Hc. split; [|done]. intros h l Hl. eapply ring_apart; [by apply Hr | exact Ha |].
  intros x Hx Hxc. apply (Hc x Hxc). by exists h, l.
Qed.

Lemma delete_sub m σ h : rep m σ -> rep m (delete h σ).
Proof.
  intros [Hr Hd]. split.
  - intros k l Hk. apply lookup_delete_Some in Hk as [_ Hk]. by apply Hr.
  - intros k l k' l' x Hk Hk'. apply lookup_delete_Some in Hk as [_ Hk], Hk' as [_ Hk']. by apply (Hd k l k' l').
Qed.

(** Two rings and the others: what an operation on both has to show. *)
Lemma rep_two m σ h l k l' : σ !! h = Some l -> σ !! k = Some l' -> h <> k -> rep m σ ->
  ring m h l /\ ring m k l' /\ rep m (delete k (delete h σ)) /\ (forall x, x ∈ h :: l -> x ∉ k :: l') /\
  (forall x, x ∈ h :: l \/ x ∈ k :: l' -> ~ used (delete k (delete h σ)) x).
Proof.
  intros Hh Hk Hne Hr. pose proof (rep_disjoint _ _ Hr h l k l') as Hd.
  apply (rep_split m σ h l Hh) in Hr as (Hrh & Hr & Hdh).
  assert (Hk' : delete h σ !! k = Some l') by (by rewrite lookup_delete_ne).
  apply (rep_split m _ k l' Hk') in Hr as (Hrk & Hr & Hdk).
  split; [done|]. split; [done|]. split; [done|]. split; [intros x; by apply Hd|].
  intros x [Hx|Hx]; [|by apply Hdk]. intros Hu. apply (Hdh x Hx). by apply used_delete in Hu.
Qed.

Lemma rep_rotate m σ h l1 x l2 : rep m σ -> σ !! h = Some (l1 ++ x :: l2) -> rep m (<[x := l2 ++ h :: l1]> (delete h σ)).
Proof.
  intros Hr Hh. assert (Hx : delete h σ !! x = None).
  { apply eq_None_not_Some. intros [l' Hl']. apply lookup_delete_Some in Hl' as [Hne Hl'].
    apply (rep_disjoint _ _ Hr h _ x l' x Hh Hl' Hne); [set_solver | left]. }
  apply (rep_split m σ h _ Hh) in Hr as (Hrh & Hr & Hd). rewrite <-(delete_id (delete h σ) x) by done.
  apply rep_insert. rewrite (delete_id _ _ Hx). split; [by apply ring_rotate|]. split; [done|].
  intros y Hy. apply Hd. set_solver.
Qed.

(** ** The operations on several rings *)

(** A cell in no ring goes to a ring. *)
Lemma rep_add_cell (f : mem -> Z -> Z -> option mem) (ins : Z -> list Z -> list Z) m σ n h l :
  (forall m n h l, ring m h l -> cell m n -> n ∉ h :: l -> exists m', f m n h = Some m' /\ ring m' h (ins n l) /\ apart m m' (n :: h :: l)) ->
  (forall x n l, x ∈ ins n l <-> x = n \/ x ∈ l) ->
  rep m σ -> σ !! h = Some l -> cell m n -> ~ used σ n ->
  exists m', f m n h = Some m' /\ rep m' (<[h := ins n l]> σ).
Proof.
  intros Hf Hins Hr Hh Hn Hnu. apply (rep_split m σ h l Hh) in Hr as (Hrh & Hr0 & Hd).
  assert (Hni : n ∉ h :: l) by (intros Hx; apply Hnu; by exists h, l).
  destruct (Hf m n h l Hrh Hn Hni) as (m' & E & Hr' & Ha). exists m'. split; [done|].
  assert (Hnu' : ~ used (delete h σ) n) by (by intros Hu%used_delete).
  rewrite <-insert_delete_eq. apply rep_insert. split; [done|]. split.
  - eapply rep_apart; [exact Hr0 | exact Ha |]. intros x Hx. apply elem_of_cons in Hx as [->|Hx]; [done | by apply Hd].
  - intros x Hx. apply elem_of_cons in Hx as [->|Hx]; [apply Hd; left|]. apply Hins in Hx as [->|Hx]; [done|]. apply Hd. by right.
Qed.

(** An entry alone is in no ring but its own. *)
Lemma rep_alone m σ n : rep m σ -> σ !! n = Some [] -> cell m n /\ rep m (delete n σ) /\ ~ used (delete n σ) n.
Proof.
  intros Hr Hn. apply (rep_split m σ n [] Hn) in Hr as (Hrn & Hr & Hd).
  split; [apply (ring_cell _ _ _ n Hrn); left|]. split; [done|]. apply Hd. left.
Qed.

Lemma rep_add m σ n h l : rep m σ -> σ !! h = Some l -> σ !! n = Some [] -> n <> h ->
  exists m', list_add m n h = Some m' /\ rep m' (<[h := n :: l]> (delete n σ)).
Proof.
  intros Hr Hh Hn Hne. destruct (rep_alone m σ n Hr Hn) as (Hc & Hr' & Hu).
  apply (rep_add_cell list_add cons); [apply ring_add | set_solver | done | by rewrite lookup_delete_ne | done | done].
Qed.

Lemma rep_add_tail m σ n h l : rep m σ -> σ !! h = Some l -> σ !! n = Some [] -> n <> h ->
  exists m', list_add_tail m n h = Some m' /\ rep m' (<[h := l ++ [n]]> (delete n σ)).
Proof.
  intros Hr Hh Hn Hne. destruct (rep_alone m σ n Hr Hn) as (Hc & Hr' & Hu).
  apply (rep_add_cell list_add_tail (fun n l => l ++ [n])); [apply ring_add_tail | set_solver | done | by rewrite lookup_delete_ne | done | done].
Qed.

Lemma in_ring_unused m σ h l1 e l2 : rep m σ -> σ !! h = Some (l1 ++ e :: l2) -> e <> h /\ σ !! e = None.
Proof.
  intros Hr Hh. pose proof (ring_nodup _ _ _ (rep_ring _ _ Hr _ _ Hh)) as Hnd. apply NoDup_cons in Hnd as [Hni _].
  assert (Hne : e <> h) by set_solver. split; [done|]. apply eq_None_not_Some. intros [l Hl].
  apply (rep_disjoint _ _ Hr h _ e l e Hh Hl); [done | set_solver | left].
Qed.

(** An entry is taken out of its ring; what is left does not use it. *)
Lemma rep_taken m m' σ h l1 e l2 : rep m σ -> σ !! h = Some (l1 ++ e :: l2) -> ring m' h (l1 ++ l2) ->
  apart m m' (h :: l1 ++ e :: l2) -> rep m' (<[h := l1 ++ l2]> σ) /\ ~ used (<[h := l1 ++ l2]> σ) e.
Proof.
  intros Hr Hh Hr1 Ha. pose proof (proj1 (rep_split m σ h _ Hh) Hr) as (Hrh & Hr0 & Hd). split.
  - rewrite <-insert_delete_eq. apply rep_insert. split; [done|]. split; [by eapply rep_apart|]. intros x Hx. apply Hd. set_solver.
  - rewrite <-insert_delete_eq. intros [Hu|Hu]%used_insert.
    + pose proof (ring_nodup _ _ _ Hrh) as Hnd. apply NoDup_cons in Hnd as [Hhn Hnd]. apply NoDup_app in Hnd as (_ & Hd1 & Hnd).
      apply NoDup_cons in Hnd as [Hn2 _]. set_solver.
    + apply (Hd e); [set_solver | done].
Qed.

Lemma rep_new_ring m m' σ a : rep m σ -> ~ used σ a -> ring m' a [] -> apart m m' [a] -> rep m' (<[a := []]> σ).
Proof.
  intros Hr Hu Hra Ha. assert (Hn : σ !! a = None) by (apply eq_None_not_Some; intros [l Hl]; apply Hu; exists a, l; split; [done | left]).
  rewrite <-(delete_id _ _ Hn). apply rep_insert. rewrite (delete_id _ _ Hn). split; [done|].
  split; [eapply rep_apart; [exact Hr | exact Ha |]|]; intros x Hx; apply list_elem_of_singleton in Hx as ->; done.
Qed.

Lemma rep_del_init m σ h l1 e l2 : rep m σ -> σ !! h = Some (l1 ++ e :: l2) ->
  exists m', list_del_init m e = Some m' /\ rep m' (<[e := []]> (<[h := l1 ++ l2]> σ)).
Proof.
  intros Hr Hh. destruct (ring_unlink m h l1 e l2 (rep_ring _ _ Hr _ _ Hh)) as (m1 & E1 & Hr1 & He & Ha1).
  destruct (rep_taken m m1 σ h l1 e l2 Hr Hh Hr1) as [Hrep Hu]; [eapply apart_weaken; [exact Ha1 | set_solver]|].
  destruct (ring_init m1 e He) as (m2 & E2 & Hr2 & Ha2). exists m2. unfold list_del_init. rewrite E1, some_bind. split; [done|].
  by apply (rep_new_ring m1).
Qed.

Lemma rep_del m σ h l1 e l2 : rep m σ -> σ !! h = Some (l1 ++ e :: l2) ->
  exists m', list_del m e = Some m' /\ rep m' (<[h := l1 ++ l2]> σ).
Proof.
  intros Hr Hh. destruct (ring_del m h l1 e l2 (rep_ring _ _ Hr _ _ Hh)) as (m1 & E1 & Hr1 & Ha1).
  exists m1. split; [done|]. by apply (rep_taken m m1 σ h l1 e l2).
Qed.

(** Moving: out of one ring, into a ring. *)
Lemma rep_move_with (f : mem -> Z -> Z -> option mem) (ins : Z -> list Z -> list Z) m σ k l1 e l2 h l :
  (forall m n h l, ring m h l -> cell m n -> n ∉ h :: l -> exists m', f m n h = Some m' /\ ring m' h (ins n l) /\ apart m m' (n :: h :: l)) ->
  (forall x n l, x ∈ ins n l <-> x = n \/ x ∈ l) ->
  rep m σ -> σ !! k = Some (l1 ++ e :: l2) -> <[k := l1 ++ l2]> σ !! h = Some l ->
  exists m', (m ← unlink m e; f m e h) = Some m' /\ rep m' (<[h := ins e l]> (<[k := l1 ++ l2]> σ)).
Proof.
  intros Hf Hins Hr Hk Hh. destruct (ring_unlink m k l1 e l2 (rep_ring _ _ Hr _ _ Hk)) as (m1 & E1 & Hr1 & He & Ha1).
  destruct (rep_taken m m1 σ k l1 e l2 Hr Hk Hr1) as [Hrep Hu]; [eapply apart_weaken; [exact Ha1 | set_solver]|].
  rewrite E1, some_bind. by apply (rep_add_cell f ins).
Qed.

Lemma rep_move m σ k l1 e l2 h l : rep m σ -> σ !! k = Some (l1 ++ e :: l2) -> <[k := l1 ++ l2]> σ !! h = Some l ->
  exists m', list_move m e h = Some m' /\ rep m' (<[h := e :: l]> (<[k := l1 ++ l2]> σ)).
Proof. apply (rep_move_with list_add cons); [apply ring_add | set_solver]. Qed.

Lemma rep_move_tail m σ k l1 e l2 h l : rep m σ -> σ !! k = Some (l1 ++ e :: l2) -> <[k := l1 ++ l2]> σ !! h = Some l ->
  exists m', list_move_tail m e h = Some m' /\ rep m' (<[h := l ++ [e]]> (<[k := l1 ++ l2]> σ)).
Proof. apply (rep_move_with list_add_tail (fun n l => l ++ [n])); [apply ring_add_tail | set_solver]. Qed.

(** Moving an entry that is alone is adding it. *)
Lemma rep_move_alone m σ e h l : rep m σ -> σ !! h = Some l -> σ !! e = Some [] -> e <> h ->
  (exists m', list_move m e h = Some m' /\ rep m' (<[h := e :: l]> (delete e σ))) /\
  exists m', list_move_tail m e h = Some m' /\ rep m' (<[h := l ++ [e]]> (delete e σ)).
Proof.
  intros Hr Hh He Hne. unfold list_move, list_move_tail. rewrite (ring_unlink_alone m e (rep_ring _ _ Hr _ _ He)), some_bind.
  split; [by apply rep_add | by apply rep_add_tail].
Qed.

(** ** Splicing and replacing *)

Lemma ring_splice m k xs h ys : ring m k xs -> ring m h ys -> (forall x, x ∈ k :: xs -> x ∉ h :: ys) -> xs <> [] ->
  exists m', __list_splice m k h = Some m' /\ ring m' h (xs ++ ys) /\ cell m' k /\ apart m m' (xs ++ h :: ys).
Proof.
  intros Hk Hh Hd Hne. pose proof Hk as [Hndk Hck]. pose proof Hh as [Hndh Hch]. unfold __list_splice.
  rewrite (chain_first _ _ _ _ Hck), (chain_last _ _ _ _ Hck), (chain_first _ _ _ _ Hch), !some_bind.
  remember (default k (head xs)) as f eqn:Ef. remember (default k (last xs)) as t eqn:Et. remember (default h (head ys)) as y eqn:Ey.
  assert (Hf : f ∈ xs). { rewrite Ef. destruct xs; [done | left]. }
  assert (Ht : t ∈ xs). { rewrite Et. destruct (last xs) eqn:E; [by eapply last_Some_elem_of | by apply last_None in E]. }
  assert (Hy : y ∈ h :: ys). { rewrite Ey. destruct ys; [left | right; left]. }
  assert (Hcf : cell m f) by (apply (ring_cell _ _ _ _ Hk); by right).
  assert (Hct : cell m t) by (apply (ring_cell _ _ _ _ Hk); by right).
  assert (Hcy : cell m y) by (by apply (ring_cell _ _ _ _ Hh)).
  assert (Hchh : cell m h) by (apply (ring_cell _ _ _ _ Hh); left).
  pose proof (ring_cell _ _ _ k Hk ltac:(left)) as Hckk. apply NoDup_cons in Hndk as [Hkn Hndx].
  assert (Hth : t <> h) by set_solver. assert (Hfy : f <> y) by (intros E; apply (Hd f); [by right | by rewrite E]).
  do 4 (autorewrite with kernel; cbn [next prev]). eexists. split; [done|].
  set (m' := mk_mem _ _).
  assert (Hap : apart m m' (xs ++ h :: ys)) by (split; intros a Ha; cbn; assert (a <> f /\ a <> t /\ a <> y /\ a <> h) as (? & ? & ? & ?) by (clear -Hf Ht Hy Ha; set_solver); mem_lookup).
  split; [|split; [|done]].
  2: { eapply apart_cell; [exact Hap | clear -Hkn Hd; set_solver | done]. }
  split.
  { apply NoDup_cons in Hndh as [Hhn Hndy]. apply NoDup_cons. split; [clear -Hd Hhn; set_solver|]. apply NoDup_app. split; [done|]. split; [clear -Hd; set_solver | done]. }
  (* the second part *)
  assert (Hys : next m' !! t = Some y /\ prev m' !! y = Some t /\ match ys with [] => True | y0 :: ys' => chain m' y0 ys' h end).
  { split; [cbn; mem_lookup|]. split; [cbn; mem_lookup|]. destruct ys as [|y0 ys]; [done|]. destruct Hch as (_ & _ & Hch).
    apply NoDup_cons in Hndh as [Hhn Hndy]. apply NoDup_cons in Hndy as [Hyn _]. cbn in Ey. subst y0.
    eapply chain_frame; [exact Hch|..]; intros a Ha; cbn; [assert (a <> t /\ a <> h) as [? ?] by (clear -Hhn Ht Hd Ha; set_solver) | assert (a <> y /\ a <> f) as [? ?] by (clear -Hhn Hyn Hf Hd Ha; set_solver)]; mem_lookup. }
  assert (Hglue : forall a l, chain m' a l t -> chain m' a (l ++ t :: ys) h).
  { intros a l Hc. apply chain_app. split; [done|]. destruct Hys as (H1 & H2 & H3). rewrite Ey in H1, H2. destruct ys as [|y0 ys]; done. }
  destruct xs as [|x xs]; [done|]. cbn in Ef. subst f.
  destruct xs as [|t0 xs _] using rev_ind.
  - cbn in Et. subst t. apply (Hglue h []). cbn. split; mem_lookup.
  - rewrite app_comm_cons, last_snoc in Et. cbn in Et. subst t.
    apply NoDup_cons in Hndx as [Hxn Hndx]. apply NoDup_app in Hndx as (_ & Hdx & _). destruct Hck as (_ & _ & Hck).
    apply chain_app in Hck as [Hck _]. replace ((x :: xs ++ [t0]) ++ ys) with ((x :: xs) ++ t0 :: ys) by (cbn [app]; by rewrite <-app_assoc).
    apply Hglue. split; [cbn; mem_lookup|]. split; [cbn; mem_lookup|].
    eapply chain_frame; [exact Hck|..]; intros a Ha; cbn;
      assert (Hah : a ∉ h :: ys) by (apply Hd; clear -Ha; set_solver);
      [assert (a <> t0 /\ a <> h) as [? ?] by (clear -Hxn Hdx Hah Ha; set_solver) | assert (a <> x /\ a <> y) as [? ?] by (clear -Hxn Hy Hah Ha; set_solver)]; mem_lookup.
Qed.

Lemma ring_replace m o l n : ring m o l -> cell m n -> n ∉ o :: l ->
  exists m', list_replace m o n = Some m' /\ ring m' n l /\ cell m' o /\ apart m m' (n :: o :: l).
Proof.
  intros Hr Hn Hni. pose proof Hr as [Hnd Hc]. unfold list_replace. rewrite (chain_first _ _ _ _ Hc), some_bind.
  remember (default o (head l)) as f eqn:Ef. remember (default o (last l)) as t eqn:Et.
  assert (Hf : f ∈ o :: l). { rewrite Ef. destruct l; [left | right; left]. }
  assert (Ht : t ∈ o :: l). { rewrite Et. destruct (last l) eqn:E; [right; by eapply last_Some_elem_of | left]. }
  assert (Hcf : cell m f) by (by apply (ring_cell _ _ _ _ Hr)). assert (Hct : cell m t) by (by apply (ring_cell _ _ _ _ Hr)).
  pose proof (ring_cell _ _ _ o Hr ltac:(left)) as Hco. assert (Hno : n <> o) by set_solver.
  assert (Hnf : n <> f) by (intros E; apply Hni; by rewrite E). assert (Hnt : n <> t) by (intros E; apply Hni; by rewrite E).
  autorewrite with kernel; cbn [next prev]. rewrite lookup_insert_eq, some_bind. autorewrite with kernel; cbn [next prev].
  apply NoDup_cons in Hnd as [Hon Hnd].
  destruct l as [|x l].
  - cbn in Ef, Et. subst f t. rewrite lookup_insert_eq, some_bind. autorewrite with kernel; cbn [next prev].
    rewrite lookup_insert_eq, some_bind. autorewrite with kernel; cbn [next prev]. eexists. split; [done|]. split; [|split].
    + split; [apply NoDup_singleton|]. cbn. split; mem_lookup.
    + cell_solve.
    + split; intros a Ha; cbn; assert (a <> n /\ a <> o) as [? ?] by set_solver; mem_lookup.
  - cbn in Ef. subst f.
    assert (Hxo : x <> o) by set_solver. rewrite lookup_insert_ne by done. rewrite (chain_last _ _ _ _ Hc), some_bind, <-Et.
    autorewrite with kernel; cbn [next prev]. rewrite lookup_insert_eq, some_bind. autorewrite with kernel; cbn [next prev].
    eexists. split; [done|]. set (m' := mk_mem _ _).
    assert (Hto : t <> o). { rewrite Et, last_cons. destruct (last l) eqn:E; [apply last_Some_elem_of in E; set_solver | done]. }
    split; [|split].
    + split; [apply NoDup_cons; split; [set_solver | done]|]. destruct Hc as (_ & _ & Hc). split; [cbn; mem_lookup|]. split; [cbn; mem_lookup|].
      destruct l as [|t0 l _] using rev_ind.
      * cbn in Et. subst t. cbn. split; mem_lookup.
      * rewrite app_comm_cons, last_snoc in Et. cbn in Et. subst t. apply chain_app in Hc as [Hc _].
        apply NoDup_cons in Hnd as [Hxn Hnd]. apply NoDup_app in Hnd as (_ & Hdx & _). apply chain_app. split.
        -- eapply chain_frame; [exact Hc|..]; intros a Ha; cbn; [assert (a <> t0 /\ a <> n) as [? ?] by (clear -Hxn Hdx Hni Ha; set_solver) | assert (a <> x /\ a <> n) as [? ?] by (clear -Hxn Hni Ha; set_solver)]; mem_lookup.
        -- cbn. split; mem_lookup.
    + unfold m'. cell_solve.
    + split; intros a Ha; cbn; assert (a <> n /\ a <> x /\ a <> t) as (? & ? & ?) by (clear -Ha Ht; set_solver); mem_lookup.
Qed.

(** The cells of a ring that is gone are no ring's. *)
Lemma rep_gone m σ h l x : rep m σ -> σ !! h = Some l -> x ∈ h :: l -> ~ used (delete h σ) x.
Proof. intros Hr Hh Hx. apply (rep_split m σ h l Hh) in Hr as (_ & _ & Hd). by apply Hd. Qed.

Lemma rep_splice m σ k xs h ys : rep m σ -> σ !! k = Some xs -> σ !! h = Some ys -> k <> h -> xs <> [] ->
  exists m', __list_splice m k h = Some m' /\ cell m' k /\ rep m' (<[h := xs ++ ys]> (delete k σ)) /\
    ~ used (<[h := xs ++ ys]> (delete k σ)) k.
Proof.
  intros Hr Hk Hh Hne Hxs. destruct (rep_two m σ k xs h ys Hk Hh Hne Hr) as (Hrk & Hrh & Hr0 & Hd & Hu).
  destruct (ring_splice m k xs h ys Hrk Hrh Hd Hxs) as (m' & E & Hr' & Hck & Ha). exists m'. split; [done|]. split; [done|].
  rewrite <-insert_delete_eq. split.
  - apply rep_insert. split; [done|]. split.
    + eapply rep_apart; [exact Hr0 | exact Ha |]. intros x Hx. apply Hu. clear -Hx. set_solver.
    + intros x Hx. apply Hu. clear -Hx. set_solver.
  - intros [Hx|Hx]%used_insert; [|revert Hx; apply Hu; left; left].
    apply elem_of_cons in Hx as [->|Hx]; [done|]. apply elem_of_app in Hx as [Hx|Hx]; [|apply (Hd k); [left | by right]].
    pose proof (ring_nodup _ _ _ Hrk) as Hnd. by apply NoDup_cons in Hnd as [Hn _].
Qed.

Lemma rep_list_splice m σ k xs h ys : rep m σ -> σ !! k = Some xs -> σ !! h = Some ys -> k <> h ->
  (exists m', list_splice m k h = Some m' /\ rep m' (if bool_decide (xs = []) then σ else <[h := xs ++ ys]> (delete k σ))) /\
  exists m', list_splice_init m k h = Some m' /\ rep m' (<[k := []]> (<[h := xs ++ ys]> σ)).
Proof.
  intros Hr Hk Hh Hne. unfold list_splice, list_splice_init, list_empty.
  pose proof (rep_ring _ _ Hr _ _ Hk) as Hrk. rewrite (chain_first _ _ _ _ (ring_chain _ _ _ Hrk)), !some_bind.
  destruct xs as [|x xs].
  - cbn [head default from_option id]. rewrite Z.eqb_refl. split; (exists m; split; [done|]).
    + done.
    + cbn [app]. rewrite (insert_id σ h ys Hh), (insert_id σ k [] Hk). done.
  - assert (Hxk : x <> k) by (pose proof (ring_nodup _ _ _ Hrk) as Hnd; apply NoDup_cons in Hnd as [Hn _]; intros ->; apply Hn; left).
    change (default k (head (x :: xs))) with x. destruct (Z.eqb_spec x k); [done|].
    destruct (rep_splice m σ k (x :: xs) h ys Hr Hk Hh Hne) as (m1 & E & Hc & Hr1 & Hu); [done|]. rewrite E. split.
    + exists m1. split; [done|]. by rewrite bool_decide_false.
    + rewrite some_bind. destruct (ring_init m1 k Hc) as (m2 & E2 & Hr2 & Ha2). exists m2. split; [done|].
      pose proof (rep_new_ring m1 m2 _ k Hr1 Hu Hr2 Ha2) as H. rewrite insert_insert_ne in H |- * by done. by rewrite insert_delete_eq in H.
Qed.

(** Replacing a head, or an entry, by one that is alone. *)
Lemma rep_replace_head m σ o l n : rep m σ -> σ !! o = Some l -> σ !! n = Some [] -> n <> o ->
  exists m', list_replace m o n = Some m' /\ cell m' o /\ rep m' (<[n := l]> (delete o σ)) /\ ~ used (<[n := l]> (delete o σ)) o.
Proof.
  intros Hr Ho Hn Hne. destruct (rep_two m σ o l n [] Ho Hn (not_eq_sym Hne) Hr) as (Hro & Hrn & Hr0 & Hd & Hu).
  destruct (ring_replace m o l n Hro) as (m' & E & Hr' & Hco & Ha).
  { apply (ring_cell _ _ _ n Hrn). left. } { intros Hx. apply (Hd n Hx). left. }
  exists m'. split; [done|]. split; [done|]. rewrite <-insert_delete_eq. split.
  - apply rep_insert. split; [done|]. split.
    + eapply rep_apart; [exact Hr0 | exact Ha |]. intros x Hx. apply Hu. clear -Hx. set_solver.
    + intros x Hx. apply Hu. clear -Hx. set_solver.
  - intros [Hx|Hx]%used_insert; [|revert Hx; apply Hu; left; left].
    apply elem_of_cons in Hx as [->|Hx]; [done|]. pose proof (ring_nodup _ _ _ Hro) as Hnd. by apply NoDup_cons in Hnd as [Hnn _].
Qed.

Lemma rep_replace m σ h l1 o l2 n : rep m σ -> σ !! h = Some (l1 ++ o :: l2) -> σ !! n = Some [] -> n <> h ->
  exists m', list_replace m o n = Some m' /\ cell m' o /\ rep m' (<[h := l1 ++ n :: l2]> (delete n σ)) /\
    ~ used (<[h := l1 ++ n :: l2]> (delete n σ)) o.
Proof.
  intros Hr Hh Hn Hne. destruct (in_ring_unused m σ h l1 o l2 Hr Hh) as [Hoh Hou].
  pose proof (rep_rotate m σ h l1 o l2 Hr Hh) as Hr1. assert (Hon : o <> n) by (intros ->; congruence).
  destruct (rep_replace_head m _ o (l2 ++ h :: l1) n Hr1) as (m' & E & Hc & Hr2 & Hu2).
  { apply lookup_insert_eq. } { by rewrite lookup_insert_ne, lookup_delete_ne. } { done. }
  exists m'. split; [done|]. split; [done|].
  assert (Hou' : delete h σ !! o = None) by (by rewrite lookup_delete_ne). rewrite delete_insert_id in Hr2, Hu2 by done.
  pose proof (rep_rotate m' _ n l2 h l1 Hr2 ltac:(apply lookup_insert_eq)) as Hr3.
  assert (Em : <[h := l1 ++ n :: l2]> (delete n σ) = <[h := l1 ++ n :: l2]> (delete h (delete n (delete h σ)))).
  { by rewrite (delete_delete _ n h), delete_delete_eq, insert_delete_eq. }
  rewrite delete_insert_eq, <-insert_delete_eq, <-Em in Hr3. split; [done|].
  rewrite Em. intros [Hx|Hx]%used_insert; apply Hu2; rewrite <-insert_delete_eq; apply used_insert.
  - left. clear -Hx. set_solver.
  - right. by apply used_delete in Hx.
Qed.

(** ** What the tests and the walk see *)

Lemma list_empty_spec m h l : ring m h l -> list_empty m h = Some (bool_decide (l = [])) /\
  list_empty_careful m h = Some (bool_decide (l = [])).
Proof.
  intros [Hnd Hc]. unfold list_empty, list_empty_careful. rewrite (chain_first _ _ _ _ Hc), (chain_last _ _ _ _ Hc), !some_bind.
  destruct l as [|x l]; [cbn; by rewrite Z.eqb_refl|]. change (default h (head (x :: l))) with x.
  apply NoDup_cons in Hnd as [Hn _]. destruct (Z.eqb_spec x h) as [->|]; [|done]. exfalso. apply Hn. left.
Qed.

Lemma list_is_last_spec m h l1 e l2 : ring m h (l1 ++ e :: l2) -> list_is_last m e h = Some (bool_decide (l2 = [])).
Proof.
  intros [Hnd Hc]. apply chain_app in Hc as [_ Hc]. unfold list_is_last. rewrite (chain_first _ _ _ _ Hc), some_bind.
  apply NoDup_cons in Hnd as [Hn _]. destruct l2 as [|x l2]; [cbn; by rewrite Z.eqb_refl|]. change (default h (head (x :: l2))) with x.
  destruct (Z.eqb_spec x h) as [->|]; [|done]. exfalso. apply Hn. clear. set_solver.
Qed.

Lemma list_walk_spec m h l : forall a fuel, (length l < fuel)%nat -> h ∉ l -> chain m a l h ->
  list_walk fuel m (default h (head l)) h = Some l.
Proof.
  induction l as [|x l IH]; intros a [|fuel] Hf Hn Hc; try (cbn in Hf; lia); cbn [head default from_option id list_walk].
  - by rewrite Z.eqb_refl.
  - apply not_elem_of_cons in Hn as [Hx Hn]. destruct (Z.eqb_spec x h); [congruence|]. destruct Hc as (_ & _ & Hc).
    rewrite (chain_first _ _ _ _ Hc), some_bind, (IH x) by (done || cbn in Hf; lia). done.
Qed.

Lemma list_for_each_spec m h l fuel : ring m h l -> (length l < fuel)%nat -> list_for_each fuel m h = Some l.
Proof.
  intros [Hnd Hc] Hf. unfold list_for_each. rewrite (chain_first _ _ _ _ Hc), some_bind. apply (list_walk_spec m h l h); [done | | done].
  by apply NoDup_cons in Hnd as [Hn _].
Qed.

(** ** The operations, and what they do to the lists *)

Inductive op := Add (n h : Z) | AddTail (n h : Z) | Del (e : Z) | DelInit (e : Z) | Replace (o n : Z) | ReplaceInit (o n : Z) |
  Move (e h : Z) | MoveTail (e h : Z) | Splice (k h : Z) | SpliceInit (k h : Z).

Definition run_op (m : mem) (o : op) : option mem :=
  match o with
  | Add n h => list_add m n h
  | AddTail n h => list_add_tail m n h
  | Del e => list_del m e
  | DelInit e => list_del_init m e
  | Replace o n => list_replace m o n
  | ReplaceInit o n => list_replace_init m o n
  | Move e h => list_move m e h
  | MoveTail e h => list_move_tail m e h
  | Splice k h => list_splice m k h
  | SpliceInit k h => list_splice_init m k h
  end.

(** The caller's side: an entry to add is alone, one to take out is in a list. *)
Inductive effect (σ : lists) : op -> lists -> Prop :=
  | do_add n h l : σ !! h = Some l -> σ !! n = Some [] -> n <> h -> effect σ (Add n h) (<[h := n :: l]> (delete n σ))
  | do_add_tail n h l : σ !! h = Some l -> σ !! n = Some [] -> n <> h -> effect σ (AddTail n h) (<[h := l ++ [n]]> (delete n σ))
  | do_del h l1 e l2 : σ !! h = Some (l1 ++ e :: l2) -> effect σ (Del e) (<[h := l1 ++ l2]> σ)
  | do_del_init h l1 e l2 : σ !! h = Some (l1 ++ e :: l2) -> effect σ (DelInit e) (<[e := []]> (<[h := l1 ++ l2]> σ))
  | do_replace h l1 o l2 n : σ !! h = Some (l1 ++ o :: l2) -> σ !! n = Some [] -> n <> h ->
      effect σ (Replace o n) (<[h := l1 ++ n :: l2]> (delete n σ))
  | do_replace_head o l n : σ !! o = Some l -> σ !! n = Some [] -> n <> o -> effect σ (Replace o n) (<[n := l]> (delete o σ))
  | do_replace_init h l1 o l2 n : σ !! h = Some (l1 ++ o :: l2) -> σ !! n = Some [] -> n <> h ->
      effect σ (ReplaceInit o n) (<[o := []]> (<[h := l1 ++ n :: l2]> (delete n σ)))
  | do_move k l1 e l2 h l : σ !! k = Some (l1 ++ e :: l2) -> <[k := l1 ++ l2]> σ !! h = Some l ->
      effect σ (Move e h) (<[h := e :: l]> (<[k := l1 ++ l2]> σ))
  | do_move_tail k l1 e l2 h l : σ !! k = Some (l1 ++ e :: l2) -> <[k := l1 ++ l2]> σ !! h = Some l ->
      effect σ (MoveTail e h) (<[h := l ++ [e]]> (<[k := l1 ++ l2]> σ))
  | do_splice k xs h ys : σ !! k = Some xs -> σ !! h = Some ys -> k <> h ->
      effect σ (Splice k h) (if bool_decide (xs = []) then σ else <[h := xs ++ ys]> (delete k σ))
  | do_splice_init k xs h ys : σ !! k = Some xs -> σ !! h = Some ys -> k <> h ->
      effect σ (SpliceInit k h) (<[k := []]> (<[h := xs ++ ys]> σ)).

(** ** The theorem *)

(** C16. The operations of list.h on any number of circular lists in one memory
    implement the operations on sequences: from a memory that holds disjoint lists,
    in both directions, each operation ends without touching a cell that is not
    there, and leaves a memory that holds the sequences it is meant to make; the
    tests and the walk then see these sequences. *)
Theorem list_ops_refine m σ o σ' : rep m σ -> effect σ o σ' -> exists m', run_op m o = Some m' /\ rep m' σ' /\
  forall h l, σ' !! h = Some l -> list_empty m' h = Some (bool_decide (l = [])) /\
    list_for_each (S (length l)) m' h = Some l.
Proof.
  intros Hr He. cut (exists m', run_op m o = Some m' /\ rep m' σ').
  { intros (m' & E & Hr'). exists m'. split; [done|]. split; [done|]. intros h l Hl. pose proof (rep_ring _ _ Hr' _ _ Hl) as Hrl.
    split; [by apply list_empty_spec | apply list_for_each_spec; [done | lia]]. }
  destruct He as [n h l Hh Hn Hne|n h l Hh Hn Hne|h l1 e l2 Hh|h l1 e l2 Hh|h l1 o l2 n Hh Hn Hne|o l n Ho Hn Hne|h l1 o l2 n Hh Hn Hne|
    k l1 e l2 h l Hk Hh|k l1 e l2 h l Hk Hh|k xs h ys Hk Hh Hne|k xs h ys Hk Hh Hne]; cbn [run_op].
  - by apply rep_add.
  - by apply rep_add_tail.
  - by apply rep_del.
  - by apply rep_del_init.
  - destruct (rep_replace m σ h l1 o l2 n Hr Hh Hn Hne) as (m' & E & _ & Hr' & _). by exists m'.
  - destruct (rep_replace_head m σ o l n Hr Ho Hn Hne) as (m' & E & _ & Hr' & _). by exists m'.
  - destruct (rep_replace m σ h l1 o l2 n Hr Hh Hn Hne) as (m' & E & Hc & Hr' & Hu). unfold list_replace_init. rewrite E, some_bind.
    destruct (ring_init m' o Hc) as (m2 & E2 & Hr2 & Ha2). exists m2. split; [done|]. by apply (rep_new_ring m').
  - by apply rep_move.
  - by apply rep_move_tail.
  - by apply rep_list_splice.
  - by apply rep_list_splice.
Qed.

(** A list 1 of 10 and 11, an empty list 2 and an entry 5. *)
Definition sample_mem : mem := mk_mem (list_to_map [(1, 10); (10, 11); (11, 1); (2, 2); (5, 5)]) (list_to_map [(1, 11); (10, 1); (11, 10); (2, 2); (5, 5)]).
Definition sample_lists : lists := list_to_map [(1, [10; 11]); (2, []); (5, [])].

Lemma sample_rep : rep sample_mem sample_lists.
Proof.
  assert (Hcase : forall h l, sample_lists !! h = Some l -> (h = 1 /\ l = [10; 11]) \/ (h = 2 /\ l = []) \/ (h = 5 /\ l = [])).
  { intros h l Hl. unfold sample_lists in Hl. apply elem_of_list_to_map in Hl; [set_solver|]. vm_compute. repeat constructor; set_solver. }
  split.
  - intros h l [[-> ->]|[[-> ->]|[-> ->]]]%Hcase; (split; [|cbn; done]); repeat constructor; set_solver.
  - intros h l h' l' x [[-> ->]|[[-> ->]|[-> ->]]]%Hcase [[-> ->]|[[-> ->]|[-> ->]]]%Hcase; set_solver.
Qed.

Lemma list_ops_refine_witness : exists m', list_splice_init sample_mem 1 2 = Some m' /\ list_for_each 3 m' 2 = Some [10; 11] /\
  list_empty m' 1 = Some true.
Proof.
  destruct (list_ops_refine sample_mem sample_lists (SpliceInit 1 2) (<[1 := []]> (<[2 := [10; 11] ++ []]> sample_lists)) sample_rep)
    as (m' & E & _ & H); [by apply do_splice_init|].
  exists m'. split; [exact E|]. split; [apply (H 2 [10; 11]); reflexivity | apply (H 1 []); reflexivity].
Defined.

(** list_splice_init_rcu tests the wrong list: nothing goes to an empty list, and
    an empty list spliced into another becomes an entry of it. *)
Example splice_init_rcu_wrong : list_splice_init_rcu sample_mem 1 2 = Some sample_mem /\
  option_map (fun m => list_for_each 5 m 1) (list_splice_init_rcu sample_mem 2 1) = Some (Some [2; 10; 11]).
Proof. split; vm_compute; reflexivity. Qed.
