(* ===== verification/Plist.v ===== *)
(** * lib/plist.c: lists ordered by priority

    A node is on two circular lists of its head: node_list has all nodes in order,
    prio_list the first node of each priority.  Addresses are those of the
    structures: a node [n] has its priority at [n], its prio_list at [n + 4] and its
    node_list at [n + 12]; a head [h] has them at [h] and [h + 8], so that the head
    taken for a node, [h - 4], has its lists where a node would have them. *)

From Stdlib Require Import Sorting.Sorted.
From S2P Require Import Prelude ListHead.

(** ** Operations *)

Record plists := mk_plists { cells : mem; prio : gmap Z Z }.

Definition node_prio_list (node : Z) : Z := node + 4.
Definition node_node_list (node : Z) : Z := node + 12.
Definition head_prio_list (head : Z) : Z := head.
Definition head_node_list (head : Z) : Z := head + 8.
(** list_entry for the two members *)
Definition prio_entry (c : Z) : Z := c - 4.
Definition node_entry (c : Z) : Z := c - 12.

Definition on_cells (s : plists) (f : mem -> option mem) : option plists := m ← f (cells s); Some (mk_plists m (prio s)).

Definition plist_head_init (s : plists) (head : Z) : option plists :=
  s ← on_cells s (fun m => INIT_LIST_HEAD m (head_prio_list head));
  on_cells s (fun m => INIT_LIST_HEAD m (head_node_list head)).
(** The head of a node is at [node + 4]. *)
Definition plist_node_init (s : plists) (node p : Z) : option plists :=
  _ ← prio s !! node;
  plist_head_init (mk_plists (cells s) (<[node := p]> (prio s))) (node_prio_list node).

Definition plist_head_empty (s : plists) (head : Z) : option bool := list_empty (cells s) (head_node_list head).
Definition plist_node_empty (s : plists) (node : Z) : option bool := plist_head_empty s (node_prio_list node).
Definition plist_first (s : plists) (head : Z) : option Z :=
  c ← next (cells s) !! head_node_list head;
  Some (node_entry c).

(** The loop over prio_list, at the cell [c] of [iter]: the cell of [iter] at
    lt_prio ([true]) or eq_prio. *)
Definition add_step (s : plists) (node head : Z) (c : Z) : option (Z + bool * Z) :=
  if c =? head_prio_list head then Some (inr (true, c)) else
  a ← prio s !! node;
  b ← prio s !! prio_entry c;
  n ← next (cells s) !! c;
  Some (if a <? b then inr (true, c) else if a =? b then inr (false, n) else inl n).
Definition plist_add (s : plists) (node head : Z) : option plists :=
  c ← next (cells s) !! head_prio_list head;
  '(lt, c) ← run 32 (add_step s node head) c;
  let iter := prio_entry c in
  s ← (if (lt : bool) then on_cells s (fun m => list_add_tail m (node_prio_list node) (node_prio_list iter)) else Some s);
  on_cells s (fun m => list_add_tail m (node_node_list node) (node_node_list iter)).

Definition plist_del (s : plists) (node : Z) : option plists :=
  e ← list_empty (cells s) (node_prio_list node);
  s ← (if (e : bool) then Some s else
       next_ ← plist_first s (node_prio_list node);
       s ← on_cells s (fun m => list_move_tail m (node_prio_list next_) (node_prio_list node));
       on_cells s (fun m => list_del_init m (node_prio_list node)));
  on_cells s (fun m => list_del_init m (node_node_list node)).

(** ** What a priority list holds *)

(** The first node of each priority, after one of priority [p]. *)
Fixpoint firsts (pr : Z -> Z) (p : option Z) (l : list Z) : list Z :=
  match l with
  | [] => []
  | n :: l => if bool_decide (p = Some (pr n)) then firsts pr p l else n :: firsts pr (Some (pr n)) l
  end.

(** The structures do not overlap: a node has 20 bytes, a head 16. *)
Definition node_apart (h : Z) (l : list Z) (n : Z) : Prop :=
  (n + 20 <= h \/ h + 16 <= n) /\ forall a, a ∈ l -> a <> n -> a + 20 <= n \/ n + 20 <= a.

Record plist_ok (s : plists) (σ : lists) (pr : Z -> Z) (h : Z) (l : list Z) : Prop := mk_plist_ok {
  pl_rep : rep (cells s) σ;
  pl_prio n : n ∈ l -> prio s !! n = Some (pr n);
  pl_apart n : n ∈ l -> node_apart h l n;
  pl_sorted : StronglySorted (fun a b => pr a <= pr b) l;
  pl_nodes : σ !! head_node_list h = Some (map node_node_list l);
  pl_prios : σ !! head_prio_list h = Some (map node_prio_list (firsts pr None l));
  pl_rest n : n ∈ l -> n ∉ firsts pr None l -> σ !! node_prio_list n = Some [] }.

(** A node that plist_node_init made, in no list. *)
Definition node_free (s : plists) (σ : lists) (pr : Z -> Z) (n : Z) : Prop :=
  prio s !! n = Some (pr n) /\ σ !! node_prio_list n = Some [] /\ σ !! node_node_list n = Some [].

(** The other lists of the memory. *)
Definition others (σ σ' : lists) (l : list Z) : Prop := forall k, k ∉ l -> σ' !! k = σ !! k.
Definition lists_of (n : Z) : list Z := [node_prio_list n; node_node_list n].
Definition lists_of_plist (h : Z) (l : list Z) : list Z := head_prio_list h :: head_node_list h :: flat_map lists_of l.

(** ** The queue a priority list is *)

Inductive plist_op := Enqueue (n : Z) | Dequeue (n : Z).

Fixpoint plist_run (s : plists) (h : Z) (ops : list plist_op) : option plists :=
  match ops with
  | [] => Some s
  | Enqueue n :: ops => s ← plist_add s n h; plist_run s h ops
  | Dequeue n :: ops => s ← plist_del s n; plist_run s h ops
  end.

(** Behind the nodes of the same priority. *)
Fixpoint enqueue (pr : Z -> Z) (n : Z) (l : list Z) : list Z :=
  match l with
  | [] => [n]
  | x :: l' => if pr n <? pr x then n :: l else x :: enqueue pr n l'
  end.
Definition dequeue (n : Z) (l : list Z) : list Z := filter (fun x => x <> n) l.

(** The nodes are among [u]; one that is queued is not queued again, and one that
    is taken out is there. *)
Fixpoint queue_run (pr : Z -> Z) (u l : list Z) (ops : list plist_op) : option (list Z) :=
  match ops with
  | [] => Some l
  | Enqueue n :: ops => if bool_decide (n ∈ u /\ n ∉ l) then queue_run pr u (enqueue pr n l) ops else None
  | Dequeue n :: ops => if bool_decide (n ∈ l) then queue_run pr u (dequeue n l) ops else None
  end.

(** The nodes [u] of one owner: those of [l] are queued, the others free. *)
Record session (s : plists) (σ : lists) (pr : Z -> Z) (h : Z) (u l : list Z) : Prop := mk_session {
  se_ok : plist_ok s σ pr h l;
  se_sub n : n ∈ l -> n ∈ u;
  se_apart n : n ∈ u -> node_apart h u n;
  se_free n : n ∈ u -> n ∉ l -> node_free s σ pr n;
  se_size : zlen u < 2 ^ 31 }.

(** ** List operations in the terms of lookups *)

Lemma rep_tail m σ n h l : rep m σ -> σ !! h = Some l -> σ !! n = Some [] -> n <> h ->
  exists m' σ', list_add_tail m n h = Some m' /\ rep m' σ' /\ σ' !! h = Some (l ++ [n]) /\ others σ σ' [h; n].
Proof.
  intros Hr Hh Hn Hne. destruct (rep_add_tail m σ n h l Hr Hh Hn Hne) as (m' & E & Hr'). exists m', (<[h := l ++ [n]]> (delete n σ)).
  split; [done|]. split; [done|]. split; [by rewrite lookup_insert_eq|]. intros k Hk.
  rewrite !not_elem_of_cons in Hk. destruct Hk as (? & ? & _). by rewrite lookup_insert_ne, lookup_delete_ne.
Qed.

Lemma rep_before m σ n h l1 x l2 : rep m σ -> σ !! h = Some (l1 ++ x :: l2) -> σ !! n = Some [] -> n <> h ->
  exists m' σ', list_add_tail m n x = Some m' /\ rep m' σ' /\ σ' !! h = Some (l1 ++ n :: x :: l2) /\ others σ σ' [h; n].
Proof.
  intros Hr Hh Hn Hne. destruct (in_ring_unused m σ h l1 x l2 Hr Hh) as [Hxh Hxu].
  assert (Hnx : n <> x) by (intros ->; congruence).
  pose proof (rep_rotate m σ h l1 x l2 Hr Hh) as Hr1.
  destruct (rep_tail m _ n x (l2 ++ h :: l1) Hr1) as (m' & σ1 & E & Hr2 & Hx & Ho).
  { apply lookup_insert_eq. } { by rewrite lookup_insert_ne, lookup_delete_ne. } { done. }
  rewrite <-app_assoc in Hx. cbn [app] in Hx. pose proof (rep_rotate m' σ1 x l2 h (l1 ++ [n]) Hr2 Hx) as Hr3.
  exists m', (<[h := (l1 ++ [n]) ++ x :: l2]> (delete x σ1)). split; [done|]. split; [done|].
  split; [by rewrite lookup_insert_eq, <-app_assoc|]. intros k Hk. rewrite !not_elem_of_cons in Hk. destruct Hk as (? & ? & _).
  rewrite lookup_insert_ne by done. destruct (decide (k = x)) as [->|]; [by rewrite lookup_delete_eq, Hxu|].
  rewrite lookup_delete_ne by done. rewrite Ho by set_solver. by rewrite lookup_insert_ne, lookup_delete_ne.
Qed.

Lemma rep_out m σ h l1 e l2 : rep m σ -> σ !! h = Some (l1 ++ e :: l2) ->
  exists m' σ', list_del_init m e = Some m' /\ rep m' σ' /\ σ' !! h = Some (l1 ++ l2) /\ σ' !! e = Some [] /\ others σ σ' [h; e].
Proof.
  intros Hr Hh. destruct (in_ring_unused m σ h l1 e l2 Hr Hh) as [Hne Hun].
  destruct (rep_del_init m σ h l1 e l2 Hr Hh) as (m' & E & Hr'). eexists m', _. split; [done|]. split; [exact Hr'|].
  split; [by rewrite lookup_insert_ne, lookup_insert_eq|]. split; [by rewrite lookup_insert_eq|]. intros k Hk.
  rewrite !not_elem_of_cons in Hk. destruct Hk as (? & ? & _). by rewrite !lookup_insert_ne.
Qed.

(** An entry goes before the one it follows. *)
Lemma rep_swap m σ h l1 n x l2 : rep m σ -> σ !! h = Some (l1 ++ n :: x :: l2) ->
  exists m' σ', list_move_tail m x n = Some m' /\ rep m' σ' /\ σ' !! h = Some (l1 ++ x :: n :: l2) /\ others σ σ' [h].
Proof.
  intros Hr Hh. destruct (in_ring_unused m σ h l1 n (x :: l2) Hr Hh) as [Hnh Hnu].
  pose proof (rep_rotate m σ h l1 n (x :: l2) Hr Hh) as Hr1.
  destruct (rep_move_tail m _ n [] x (l2 ++ h :: l1) n (l2 ++ h :: l1) Hr1) as (m' & E & Hr2); [apply lookup_insert_eq..|].
  rewrite !insert_insert_eq in Hr2. set (σ1 := <[n := _]> _) in Hr2.
  assert (Hx : σ1 !! n = Some (l2 ++ h :: l1 ++ [x])) by (unfold σ1; rewrite lookup_insert_eq, <-app_assoc; done).
  pose proof (rep_rotate m' σ1 n l2 h (l1 ++ [x]) Hr2 Hx) as Hr3.
  exists m', (<[h := (l1 ++ [x]) ++ n :: l2]> (delete n σ1)). split; [done|]. split; [done|].
  split; [by rewrite lookup_insert_eq, <-app_assoc|]. intros k Hk. rewrite not_elem_of_cons in Hk. destruct Hk as [? _].
  rewrite lookup_insert_ne by done. destruct (decide (k = n)) as [->|]; [by rewrite lookup_delete_eq, Hnu|].
  rewrite lookup_delete_ne by done. unfold σ1. by rewrite lookup_insert_ne, lookup_delete_ne.
Qed.

(** The head goes before the last entry, and the entry goes: the rest stays. *)
Lemma rep_out_last m σ h l n : rep m σ -> σ !! h = Some (l ++ [n]) ->
  exists m' σ', (m ← list_move_tail m h n; list_del_init m n) = Some m' /\ rep m' σ' /\ σ' !! h = Some l /\ σ' !! n = Some [] /\
    others σ σ' [h; n].
Proof.
  intros Hr Hh. destruct (in_ring_unused m σ h l n [] Hr Hh) as [Hnh Hnu].
  pose proof (rep_rotate m σ h l n [] Hr Hh) as Hr1. cbn [app] in Hr1.
  destruct (rep_move_tail m _ n [] h l n l Hr1) as (m1 & E1 & Hr2); [apply lookup_insert_eq..|].
  rewrite !insert_insert_eq in Hr2. set (σ1 := <[n := _]> _) in Hr2.
  pose proof (rep_rotate m1 σ1 n l h [] Hr2 ltac:(apply lookup_insert_eq)) as Hr3. cbn [app] in Hr3.
  destruct (rep_out m1 _ h [] n l Hr3) as (m2 & σ2 & E2 & Hr4 & Hh4 & Hn4 & Ho); [apply lookup_insert_eq|].
  exists m2, σ2. rewrite E1, some_bind. split; [done|]. split; [done|]. split; [done|]. split; [done|]. intros k Hk.
  rewrite (Ho k Hk). rewrite !not_elem_of_cons in Hk. destruct Hk as (? & ? & _).
  rewrite lookup_insert_ne, lookup_delete_ne by done. unfold σ1. by rewrite lookup_insert_ne, lookup_delete_ne.
Qed.

(** ** The first nodes of the priorities *)

Section firsts.
Context (pr : Z -> Z).

(** The priority of the last node. *)
Definition last_prio (p : option Z) (l : list Z) : option Z := match last l with Some n => Some (pr n) | None => p end.

Lemma firsts_app p l1 l2 : firsts pr p (l1 ++ l2) = firsts pr p l1 ++ firsts pr (last_prio p l1) l2.
Proof.
  revert p. induction l1 as [|n l1 IH]; intros p; [done|]. cbn [app firsts].
  assert (El : forall q, last_prio (Some (pr n)) l1 = last_prio q (n :: l1)) by (intros q; unfold last_prio; rewrite last_cons; by destruct (last l1)).
  case_bool_decide as Hp; rewrite IH; [subst p; by rewrite (El (Some (pr n)))|]. cbn [app]. by rewrite (El p).
Qed.

Lemma firsts_in p l n : n ∈ firsts pr p l -> n ∈ l.
Proof.
  revert p. induction l as [|x l IH]; intros p; [done|]. cbn [firsts]. case_bool_decide; [right; by eapply IH|].
  intros [->|Hn]%elem_of_cons; [left | right; by eapply IH].
Qed.

(** Where the first nodes split, the list does. *)
Lemma firsts_split p l f1 i f2 : firsts pr p l = f1 ++ i :: f2 -> exists l1 l2, l = l1 ++ i :: l2 /\ firsts pr p l1 = f1 /\
  firsts pr (Some (pr i)) l2 = f2 /\ last_prio p l1 <> Some (pr i).
Proof.
  revert p f1. induction l as [|x l IH]; intros p f1; cbn [firsts]; [by destruct f1|]. case_bool_decide as Hp.
  - intros H. destruct (IH p f1 H) as (l1 & l2 & -> & E1 & E2 & Hl). exists (x :: l1), l2. split; [done|].
    split; [cbn [firsts]; by rewrite bool_decide_true|]. split; [done|]. unfold last_prio in *. rewrite last_cons. destruct (last l1); congruence.
  - destruct f1 as [|y f1]; cbn [app]; intros [= -> H].
    + exists [], l. done.
    + destruct (IH _ f1 H) as (l1 & l2 & -> & E1 & E2 & Hl). exists (y :: l1), l2. split; [done|].
      split; [cbn [firsts]; rewrite bool_decide_false by done; by rewrite E1|]. split; [done|].
      unfold last_prio in *. rewrite last_cons. destruct (last l1); done.
Qed.

(** Every priority in a list, other than the one before it, has its first node. *)
Lemma firsts_prio p l n : n ∈ l -> Some (pr n) = p \/ exists i, i ∈ firsts pr p l /\ pr i = pr n.
Proof.
  revert p. induction l as [|x l IH]; intros p; [by intros ?%elem_of_nil|]. cbn [firsts]. intros [->|Hn]%elem_of_cons.
  - case_bool_decide as Hp; [by left | right; exists x; split; [left | done]].
  - case_bool_decide as Hp; [by apply IH|]. right. destruct (IH (Some (pr x)) Hn) as [[= H]|(i & Hi & Hp')].
    + exists x. split; [left | done].
    + exists i. split; [by right | done].
Qed.

Abbreviation sorted := (StronglySorted (fun a b => pr a <= pr b)).

Lemma prio_sorted_app l1 l2 : sorted (l1 ++ l2) <-> sorted l1 /\ sorted l2 /\ forall a b, a ∈ l1 -> b ∈ l2 -> pr a <= pr b.
Proof.
  induction l1 as [|x l1 IH]; cbn [app].
  - split; [intros H; split; [constructor|]; split; [done | by intros a b ?%elem_of_nil] | tauto].
  - split.
    + intros H. inversion_clear H as [|? ? Hs Hf]. apply IH in Hs as (H1 & H2 & H3). rewrite Forall_app, !Forall_forall in Hf. destruct Hf as [Hf1 Hf2].
      split; [constructor; [done | by apply Forall_forall]|]. split; [done|]. intros a b [->|Ha]%elem_of_cons Hb; [by apply Hf2 | by apply H3].
    + intros (H & H2 & H3). inversion_clear H as [|? ? Hs Hf]. constructor.
      * apply IH. split; [done|]. split; [done|]. intros a b Ha. apply H3. by right.
      * apply Forall_app. split; [done|]. apply Forall_forall. intros b Hb. apply H3; [left | done].
Qed.

(** The place of a new node of priority [k]: before the first one with a larger
    priority, when no node has [k] yet, or after the nodes that have it. *)
Lemma place_lt k l f1 f2 : sorted l -> firsts pr None l = f1 ++ f2 -> (forall i, i ∈ f1 -> pr i < k) ->
  (forall i, head f2 = Some i -> k < pr i) -> exists l1 l2, l = l1 ++ l2 /\ firsts pr None l1 = f1 /\ firsts pr (Some k) l2 = f2 /\
    head l2 = head f2 /\ (forall a, a ∈ l1 -> pr a < k) /\ forall b, b ∈ l2 -> k < pr b.
Proof.
  intros Hs Hf H1 H2. assert (Hlow : forall l1, firsts pr None l1 = f1 -> forall a, a ∈ l1 -> pr a < k).
  { intros l1 E a Ha. destruct (firsts_prio None l1 a Ha) as [|(i & Hi & Hp)]; [done|]. rewrite E in Hi. rewrite <-Hp. by apply H1. }
  destruct f2 as [|i f2].
  - rewrite app_nil_r in Hf. exists l, []. rewrite app_nil_r. split; [done|]. split; [done|]. split; [done|]. split; [done|].
    split; [by apply Hlow | by intros b ?%elem_of_nil].
  - destruct (firsts_split None l f1 i f2 Hf) as (l1 & l2 & -> & E1 & E2 & _). pose proof (H2 i eq_refl) as Hi.
    apply prio_sorted_app in Hs as (_ & Hs & _). inversion_clear Hs as [|? ? _ Hle]. rewrite Forall_forall in Hle.
    exists l1, (i :: l2). split; [done|]. split; [done|]. split.
    { cbn [firsts]. rewrite bool_decide_false by (intros [= ?]; lia). by rewrite E2. }
    split; [done|]. split; [by apply Hlow|]. intros b [->|Hb]%elem_of_cons; [done|]. specialize (Hle b Hb). cbn in Hle. lia.
Qed.

Lemma place_eq k l f1 e f2 : sorted l -> firsts pr None l = f1 ++ e :: f2 -> pr e = k -> exists l1 l2, l = l1 ++ l2 /\
    last_prio None l1 = Some k /\ head l2 = head f2 /\ (forall a, a ∈ l1 -> pr a <= k) /\ forall b, b ∈ l2 -> k < pr b.
Proof.
  intros Hs Hf He. destruct (firsts_split None l f1 e f2 Hf) as (la & lb & -> & E1 & E2 & _).
  apply prio_sorted_app in Hs as (Hsa & Hs & Hab). inversion_clear Hs as [|? ? Hsb Hle]. rewrite Forall_forall in Hle.
  assert (Hla : forall a, a ∈ la -> pr a <= k) by (intros a Ha; rewrite <-He; apply Hab; [done | left]).
  assert (Hsame : forall l1, firsts pr (Some (pr e)) l1 = [] -> forall a, a ∈ l1 -> pr a = k).
  { intros l1 E a Ha. destruct (firsts_prio (Some (pr e)) l1 a Ha) as [[= ->]|(i & Hi & _)]; [done|]. rewrite E in Hi. by apply elem_of_nil in Hi. }
  assert (Hlast : forall l1, (forall a, a ∈ l1 -> pr a = k) -> last_prio None (la ++ e :: l1) = Some k).
  { intros l1 H. unfold last_prio. rewrite last_app_cons, last_cons. destruct (last l1) eqn:E; [|congruence].
    apply last_Some_elem_of in E. by rewrite (H _ E). }
  destruct f2 as [|i f2].
  - exists (la ++ e :: lb), []. rewrite app_nil_r. split; [done|]. split; [apply Hlast, (Hsame lb E2)|]. split; [done|].
    split; [|by intros b ?%elem_of_nil]. intros a Ha. apply elem_of_app in Ha as [Ha|Ha]; [by apply Hla|].
    apply elem_of_cons in Ha as [->|Ha]; [lia|]. pose proof (Hsame lb E2 a Ha). lia.
  - destruct (firsts_split (Some (pr e)) lb [] i f2 E2) as (lb1 & lb2 & -> & E3 & E4 & Hl). pose proof (Hsame lb1 E3) as Hs1.
    assert (Hi : k < pr i).
    { assert (pr i <> pr e).
      { intros Hie. apply Hl. unfold last_prio. rewrite Hie. destruct (last lb1) eqn:E; [|done]. apply last_Some_elem_of in E.
        rewrite (Hs1 _ E). congruence. }
      specialize (Hle i ltac:(set_solver)). cbn in Hle. lia. }
    apply prio_sorted_app in Hsb as (_ & Hsb & _). inversion_clear Hsb as [|? ? _ Hle2]. rewrite Forall_forall in Hle2.
    exists (la ++ e :: lb1), (i :: lb2). split; [by rewrite <-app_assoc|]. split; [by apply Hlast|]. split; [done|]. split.
    + intros a Ha. apply elem_of_app in Ha as [Ha|Ha]; [by apply Hla|]. apply elem_of_cons in Ha as [->|Ha]; [lia|].
      pose proof (Hs1 a Ha). lia.
    + intros b [->|Hb]%elem_of_cons; [done|]. specialize (Hle2 b Hb). cbn in Hle2. lia.
Qed.

Lemma sorted_insert k n l1 l2 : pr n = k -> sorted (l1 ++ l2) -> (forall a, a ∈ l1 -> pr a <= k) -> (forall b, b ∈ l2 -> k < pr b) ->
  sorted (l1 ++ n :: l2).
Proof.
  intros Hn Hs H1 H2. apply prio_sorted_app in Hs as (Hs1 & Hs2 & H12). apply prio_sorted_app. split; [done|]. split.
  - constructor; [done|]. apply Forall_forall. intros b Hb. specialize (H2 b Hb). lia.
  - intros a b Ha [->|Hb]%elem_of_cons; [rewrite Hn; by apply H1 | by apply H12].
Qed.
End firsts.

(** ** Adding *)

Lemma ring_next m h l1 x l2 : ring m h (l1 ++ x :: l2) -> next m !! x = Some (default h (head l2)).
Proof. intros [_ Hc]. apply chain_app in Hc as [_ Hc]. by apply chain_first in Hc. Qed.

Lemma rep_at m σ n h l1 l2 : rep m σ -> σ !! h = Some (l1 ++ l2) -> σ !! n = Some [] -> n <> h ->
  exists m' σ', list_add_tail m n (default h (head l2)) = Some m' /\ rep m' σ' /\ σ' !! h = Some (l1 ++ n :: l2) /\ others σ σ' [h; n].
Proof.
  intros Hr Hh Hn Hne. destruct l2 as [|x l2]; [rewrite app_nil_r in Hh; by apply rep_tail|]. by apply rep_before.
Qed.

Section add.
Context (s : plists) (σ : lists) (pr : Z -> Z) (h : Z) (l : list Z) (Hok : plist_ok s σ pr h l).
Context (n : Z) (Hfree : node_free s σ pr n) (Hsize : zlen l < 2 ^ 31).

(** The cell of the first of [f2], or of the head. *)
Definition first_cell (f2 : list Z) : Z := default h (head (map node_prio_list f2)).

Lemma firsts_length : forall p l, (length (firsts pr p l) <= length l)%nat.
Proof. intros p l0. revert p. induction l0 as [|x l0 IH]; intros p; [done|]. cbn [firsts length]. case_bool_decide; cbn [length]; [specialize (IH p)|specialize (IH (Some (pr x)))]; lia. Qed.

(** How many cells are left from [c] on. *)
Fixpoint left_from (c : Z) (l : list Z) : nat :=
  match l with [] => O | x :: l => if x =? c then S (length l) else left_from c l end.

Lemma left_from_app c l1 l2 : c ∉ l1 -> left_from c (l1 ++ c :: l2) = S (length l2).
Proof.
  induction l1 as [|x l1 IH]; cbn; [by rewrite Z.eqb_refl|]. intros [Hx Hc]%not_elem_of_cons.
  destruct (Z.eqb_spec x c); [congruence|]. by apply IH.
Qed.

Lemma left_from_none c l1 : c ∉ l1 -> left_from c l1 = O.
Proof.
  induction l1 as [|x l1 IH]; [done|]. cbn. intros [Hx Hc]%not_elem_of_cons. destruct (Z.eqb_spec x c); [congruence|]. by apply IH.
Qed.

Lemma left_from_le c l1 : (left_from c l1 <= length l1)%nat.
Proof. induction l1 as [|x l1 IH]; cbn; [lia|]. destruct (x =? c); lia. Qed.

Lemma add_loop : exists lt c f1 f2, run 32 (add_step s n h) (first_cell (firsts pr None l)) = Some (lt, c) /\ c = first_cell f2 /\
  if (lt : bool) then firsts pr None l = f1 ++ f2 /\ (forall i, i ∈ f1 -> pr i < pr n) /\ (forall i, head f2 = Some i -> pr n < pr i)
  else exists e, firsts pr None l = f1 ++ e :: f2 /\ pr e = pr n.
Proof.
  destruct Hfree as (Hpn & _ & _). pose proof (rep_ring _ _ (pl_rep _ _ _ _ _ Hok) _ _ (pl_prios _ _ _ _ _ Hok)) as Hring.
  pose proof (ring_nodup _ _ _ Hring) as Hnd. set (fs := firsts pr None l) in *.
  destruct (run_rule (fun c => exists f1 f2, fs = f1 ++ f2 /\ (forall i, i ∈ f1 -> pr i < pr n) /\ c = first_cell f2)
    (fun r => exists f1 f2, r.2 = first_cell f2 /\ if (r.1 : bool) then fs = f1 ++ f2 /\ (forall i, i ∈ f1 -> pr i < pr n) /\ (forall i, head f2 = Some i -> pr n < pr i)
       else exists e, fs = f1 ++ e :: f2 /\ pr e = pr n)
    (fun c => Z.of_nat (left_from c (map node_prio_list fs)))
    (add_step s n h) 32 (first_cell fs)) as ([lt c] & E & f1 & f2 & Hc & H).
  - intros c (f1 & f2 & Hfs & Hlow & ->). unfold add_step, head_prio_list. destruct f2 as [|i f2].
    + rewrite Z.eqb_refl. eexists. split; [done|]. cbn. exists f1, []. done.
    + apply NoDup_cons in Hnd as [Hhn Hnd]. rewrite Hfs, map_app in Hhn, Hnd. cbn [map] in Hhn, Hnd. apply NoDup_app in Hnd as (_ & Hd & Hnd).
      apply NoDup_cons in Hnd as [Hin _]. change (first_cell (i :: f2)) with (node_prio_list i).
      assert (Hil : i ∈ l). { apply (firsts_in pr None). fold fs. rewrite Hfs. set_solver. }
      destruct (Z.eqb_spec (node_prio_list i) h) as [Eh|_]; [exfalso; apply Hhn; rewrite <-Eh; set_solver|].
      rewrite Hpn, some_bind. replace (prio_entry (node_prio_list i)) with i by (unfold prio_entry, node_prio_list; lia).
      rewrite (pl_prio _ _ _ _ _ Hok i Hil), some_bind. unfold fs in Hring. fold fs in Hring. rewrite Hfs, map_app in Hring. cbn [map] in Hring.
      rewrite (ring_next _ _ _ _ _ Hring), some_bind. fold (first_cell f2). eexists. split; [done|].
      destruct (Z.ltb_spec (pr n) (pr i)); [|destruct (Z.eqb_spec (pr n) (pr i))].
      * exists f1, (i :: f2). split; [done|]. split; [done|]. split; [done|]. intros j [= <-]. done.
      * exists f1, f2. split; [done|]. by exists i.
      * assert (Hnx : node_prio_list i ∉ map node_prio_list f1) by (intros Hx; apply (Hd _ Hx); left).
        split; [exists (f1 ++ [i]), f2; split; [by rewrite <-app_assoc|]; split; [|done]; intros j [Hj|Hj%list_elem_of_singleton]%elem_of_app; [by apply Hlow | subst j; lia]|].
        rewrite Hfs, map_app. cbn [map]. rewrite (left_from_app _ _ _ Hnx). destruct f2 as [|j f2].
        -- change (first_cell []) with h. rewrite left_from_none; [lia|]. done.
        -- change (first_cell (j :: f2)) with (node_prio_list j). cbn [map].
           change (node_prio_list i :: ?r) with ([node_prio_list i] ++ r). rewrite app_assoc.
           rewrite left_from_app; [cbn [length]; lia|].
           intros [Hx|Hx]%elem_of_app; [apply (Hd _ Hx); right; left|]. apply list_elem_of_singleton in Hx. apply Hin. rewrite <-Hx. left.
  - exists [], fs. split; [done|]. split; [by intros i ?%elem_of_nil | done].
  - pose proof (firsts_length None l). fold fs in H. pose proof (left_from_le (first_cell fs) (map node_prio_list fs)) as Hl.
    rewrite length_map in Hl. change (2 ^ Z.of_nat 32) with (2 * 2 ^ 31). lia.
  - exists lt, c, f1, f2. done.
Qed.
End add.

(** The cells of a node of the list, and of one that is apart from it. *)
Lemma apart_cells h l n : node_apart h l n -> node_prio_list n <> head_prio_list h /\ node_prio_list n <> head_node_list h /\
  node_node_list n <> head_prio_list h /\ node_node_list n <> head_node_list h.
Proof. intros [Hh _]. unfold node_prio_list, node_node_list, head_prio_list, head_node_list. lia. Qed.

Lemma apart_nodes h l n a : node_apart h l n -> a ∈ l -> a <> n -> node_prio_list a <> node_prio_list n /\
  node_prio_list a <> node_node_list n /\ node_node_list a <> node_prio_list n /\ node_node_list a <> node_node_list n.
Proof. intros [_ Hl] Ha Hne. specialize (Hl a Ha Hne). unfold node_prio_list, node_node_list. lia. Qed.

Lemma on_cells_Some s f m : f (cells s) = Some m -> on_cells s f = Some (mk_plists m (prio s)).
Proof. unfold on_cells. by intros ->. Qed.

Lemma prio_node n : node_prio_list n <> node_node_list n.
Proof. unfold node_prio_list, node_node_list. lia. Qed.

Lemma node_inj n n' : node_node_list n = node_node_list n' -> n = n'.
Proof. unfold node_node_list. lia. Qed.

Lemma prio_inj n n' : node_prio_list n = node_prio_list n' -> n = n'.
Proof. unfold node_prio_list. lia. Qed.

Lemma head_cells h : head_prio_list h <> head_node_list h.
Proof. unfold head_prio_list, head_node_list. lia. Qed.

Lemma free_not_in s σ pr h l n : plist_ok s σ pr h l -> node_free s σ pr n -> n ∉ l.
Proof.
  intros Hok (_ & _ & Hn) Hin. apply list_elem_of_In, (in_map node_node_list), list_elem_of_In, list_elem_of_split in Hin as (l1 & l2 & E).
  pose proof (pl_nodes _ _ _ _ _ Hok) as Hh. rewrite E in Hh.
  destruct (in_ring_unused _ _ _ _ _ _ (pl_rep _ _ _ _ _ Hok) Hh) as [_ Hu]. congruence.
Qed.

Lemma apart_insert h l1 l2 n : node_apart h (l1 ++ l2) n -> (forall a, a ∈ l1 ++ l2 -> node_apart h (l1 ++ l2) a) ->
  forall a, a ∈ l1 ++ n :: l2 -> node_apart h (l1 ++ n :: l2) a.
Proof.
  intros Hn Hl a Ha. destruct (decide (a = n)) as [->|Hne].
  - destruct Hn as [H1 H2]. split; [done|]. intros b Hb Hbn. apply H2; [clear -Hb Hbn; set_solver | done].
  - assert (Ha' : a ∈ l1 ++ l2) by (clear -Ha Hne; set_solver).
    destruct (Hl a Ha') as [H1 H2]. split; [done|]. intros b Hb Hba. destruct (decide (b = n)) as [->|Hbn].
    + destruct Hn as [_ Hn]. specialize (Hn a Ha' (not_eq_sym Hba)). lia.
    + apply H2; [clear -Hb Hbn; set_solver | done].
Qed.

Section add_result.
Context (s : plists) (σ : lists) (pr : Z -> Z) (h : Z) (l : list Z) (Hok : plist_ok s σ pr h l).
Context (n : Z) (Hfree : node_free s σ pr n) (Hap : node_apart h l n) (Hsize : zlen l < 2 ^ 31).

(** After the change of prio_list. *)
Definition prio_stage (s1 : plists) (σ1 : lists) (l1 l2 : list Z) : Prop :=
  rep (cells s1) σ1 /\ prio s1 = prio s /\ σ1 !! head_prio_list h = Some (map node_prio_list (firsts pr None (l1 ++ n :: l2))) /\
  (n ∉ firsts pr None (l1 ++ n :: l2) -> σ1 !! node_prio_list n = Some []) /\
  others σ σ1 [head_prio_list h; node_prio_list n].

Lemma node_stage s1 σ1 l1 l2 c : l = l1 ++ l2 -> prio_stage s1 σ1 l1 l2 ->
  (forall a, a ∈ firsts pr None (l1 ++ l2) -> a ∈ firsts pr None (l1 ++ n :: l2)) ->
  (forall a, a ∈ l1 -> pr a <= pr n) -> (forall b, b ∈ l2 -> pr n < pr b) -> c = first_cell h l2 ->
  exists s' σ', on_cells s1 (fun m => list_add_tail m (node_node_list n) (node_node_list (prio_entry c))) = Some s' /\
    plist_ok s' σ' pr h (l1 ++ n :: l2) /\ others σ σ' (lists_of_plist h (n :: l)).
Proof.
  intros El (Hr1 & Hp1 & Hh1 & Hn1 & Ho1) Hfs Hl1 Hl2 Hc. pose proof (apart_cells _ _ _ Hap) as (A1 & A2 & A3 & A4). pose proof (prio_node n) as A5.
  pose proof (head_cells h) as A6. destruct Hfree as (Hpn & Hf1 & Hf2).
  destruct (rep_at (cells s1) σ1 (node_node_list n) (head_node_list h) (map node_node_list l1) (map node_node_list l2)) as (m' & σ' & E & Hr' & Hh' & Ho').
  { done. } { rewrite Ho1 by set_solver. rewrite (pl_nodes _ _ _ _ _ Hok), El. by rewrite map_app. }
  { rewrite Ho1 by set_solver. done. } { done. }
  assert (Ec : default (head_node_list h) (head (map node_node_list l2)) = node_node_list (prio_entry c)).
  { rewrite Hc. unfold first_cell, node_node_list, prio_entry, head_node_list. destruct l2; cbn; unfold node_prio_list; lia. }
  rewrite Ec in E. rewrite (on_cells_Some s1 _ m' E). exists (mk_plists m' (prio s1)), σ'. split; [done|].
  assert (Hal : forall a, a ∈ l1 ++ n :: l2 -> a <> n -> a ∈ l) by (intros a Ha Hne; rewrite El; clear -Ha Hne; set_solver).
  split; [split|].
  - done.
  - intros a Ha. cbn. rewrite Hp1. destruct (decide (a = n)) as [->|Hne]; [done|]. by apply (pl_prio _ _ _ _ _ Hok), Hal.
  - pose proof (pl_apart _ _ _ _ _ Hok) as Hapl. rewrite El in Hapl, Hap. by apply apart_insert.
  - pose proof (pl_sorted _ _ _ _ _ Hok) as Hs. rewrite El in Hs. by apply (sorted_insert pr (pr n)).
  - rewrite Hh', map_app. done.
  - rewrite Ho' by set_solver. done.
  - intros a Ha Hna. destruct (decide (a = n)) as [->|Hne].
    { rewrite Ho' by set_solver. by apply Hn1. }
    specialize (Hal a Ha Hne). pose proof (apart_nodes _ _ _ _ Hap Hal Hne) as (B1 & B2 & _ & _).
    pose proof (apart_cells _ _ _ (pl_apart _ _ _ _ _ Hok a Hal)) as (B3 & B4 & _ & _).
    rewrite Ho' by set_solver. rewrite Ho1 by set_solver. apply (pl_rest _ _ _ _ _ Hok); [done|]. rewrite El. intros Hx. by apply Hna, Hfs.
  - intros k Hk. unfold lists_of_plist in Hk. cbn [flat_map] in Hk. unfold lists_of at 1 in Hk. rewrite Ho', Ho1; [done|..]; clear -Hk; set_solver.
Qed.

(** Between the nodes of a smaller or of the same priority and those of a larger one. *)
Lemma add_result : exists s' σ' l1 l2, plist_add s n h = Some s' /\ l = l1 ++ l2 /\ (forall a, a ∈ l1 -> pr a <= pr n) /\
  (forall b, b ∈ l2 -> pr n < pr b) /\ plist_ok s' σ' pr h (l1 ++ n :: l2) /\ others σ σ' (lists_of_plist h (n :: l)).
Proof.
  destruct (add_loop s σ pr h l Hok n Hfree Hsize) as (lt & c & f1 & f2 & E & Hc & H). unfold plist_add.
  pose proof (rep_ring _ _ (pl_rep _ _ _ _ _ Hok) _ _ (pl_prios _ _ _ _ _ Hok)) as Hring.
  rewrite (chain_first _ _ _ _ (ring_chain _ _ _ Hring)), some_bind. unfold first_cell, head_prio_list in *. rewrite E, some_bind. cbn zeta.
  pose proof (apart_cells _ _ _ Hap) as (A1 & A2 & A3 & A4). unfold head_prio_list in *.
  destruct lt.
  - destruct H as (Hfs & H1 & H2). destruct (place_lt pr (pr n) l f1 f2 (pl_sorted _ _ _ _ _ Hok) Hfs H1 H2) as (l1 & l2 & El & E1 & E2 & Eh & Hl1 & Hl2).
    destruct (rep_at (cells s) σ (node_prio_list n) h (map node_prio_list f1) (map node_prio_list f2)) as (m1 & σ1 & Em & Hr1 & Hh1 & Ho1).
    { apply (pl_rep _ _ _ _ _ Hok). } { rewrite <-map_app, <-Hfs. apply (pl_prios _ _ _ _ _ Hok). } { apply Hfree. } { done. }
    assert (Ef : firsts pr None (l1 ++ n :: l2) = f1 ++ n :: f2).
    { rewrite firsts_app, E1. cbn [firsts]. rewrite bool_decide_false; [by rewrite E2|]. unfold last_prio. destruct (last l1) eqn:El1; [|done].
      intros [= Heq]. apply last_Some_elem_of in El1. specialize (Hl1 _ El1). lia. }
    assert (Ec : node_prio_list (prio_entry c) = c) by (unfold node_prio_list, prio_entry; lia).
    rewrite <-Hc in Em. rewrite Ec, (on_cells_Some s _ m1 Em), some_bind.
    destruct (node_stage (mk_plists m1 (prio s)) σ1 l1 l2 c) as (s' & σ' & E' & Hok' & Ho').
    { done. }
    { split; [done|]. split; [done|]. unfold head_prio_list. split; [by rewrite Ef, map_app|]. split; [|done]. rewrite Ef. intros Hx. exfalso. apply Hx. set_solver. }
    { rewrite Ef, <-El, Hfs. intros a Ha. clear -Ha. set_solver. }
    { intros a Ha. specialize (Hl1 a Ha). lia. } { done. }
    { rewrite Hc. unfold first_cell. by destruct f2, l2; inversion Eh. }
    exists s', σ', l1, l2. rewrite E'. split; [done|]. split; [done|]. split; [intros a Ha; specialize (Hl1 a Ha); lia|]. split; [done|]. split; done.
  - destruct H as (e & Hfs & He). destruct (place_eq pr (pr n) l f1 e f2 (pl_sorted _ _ _ _ _ Hok) Hfs He) as (l1 & l2 & El & Ep & Eh & Hl1 & Hl2).
    assert (Ef : firsts pr None (l1 ++ n :: l2) = firsts pr None l).
    { rewrite El, !firsts_app, Ep. cbn [firsts]. by rewrite bool_decide_true. }
    rewrite some_bind.
    destruct (node_stage s σ l1 l2 c) as (s' & σ' & E' & Hok' & Ho').
    { done. }
    { split; [apply (pl_rep _ _ _ _ _ Hok)|]. split; [done|]. rewrite Ef. split; [apply (pl_prios _ _ _ _ _ Hok)|]. split; [intros _; apply Hfree | done]. }
    { rewrite Ef, <-El. done. } { done. } { done. }
    { rewrite Hc. unfold first_cell. by destruct f2, l2; inversion Eh. }
    exists s', σ', l1, l2. rewrite E'. split; [done|]. split; [done|]. split; [done|]. split; [done|]. split; done.
Qed.
End add_result.

(** ** Deleting *)

Lemma rep_before_alone m σ h l1 n l2 x : rep m σ -> σ !! h = Some (l1 ++ n :: l2) -> σ !! x = Some [] -> x <> h ->
  exists m' σ', list_move_tail m x n = Some m' /\ rep m' σ' /\ σ' !! h = Some (l1 ++ x :: n :: l2) /\ others σ σ' [h; x].
Proof.
  intros Hr Hh Hx Hne. destruct (rep_before m σ x h l1 n l2 Hr Hh Hx Hne) as (m' & σ' & E & H). exists m', σ'. split; [|done].
  unfold list_move_tail. by rewrite (ring_unlink_alone m x (rep_ring _ _ Hr _ _ Hx)), some_bind.
Qed.

Section del_result.
Context (s : plists) (σ : lists) (pr : Z -> Z) (h : Z) (l1 : list Z) (n : Z) (l2 : list Z) (Hok : plist_ok s σ pr h (l1 ++ n :: l2)).

Lemma del_facts : n ∉ l1 /\ n ∉ l2 /\ NoDup (l1 ++ n :: l2) /\
  (forall a, a ∈ l1 ++ l2 -> a ∈ l1 ++ n :: l2 /\ a <> n).
Proof.
  pose proof (ring_nodup _ _ _ (rep_ring _ _ (pl_rep _ _ _ _ _ Hok) _ _ (pl_nodes _ _ _ _ _ Hok))) as Hnd.
  apply NoDup_cons in Hnd as [_ Hnd]. rewrite NoDup_ListNoDup in Hnd. apply NoDup_map_inv in Hnd. rewrite <-NoDup_ListNoDup in Hnd.
  pose proof Hnd as Hnd'. apply NoDup_app in Hnd' as (_ & Hd & Hnd2). apply NoDup_cons in Hnd2 as [Hn2 _].
  assert (Hn1 : n ∉ l1) by (intros Hx; apply (Hd n Hx); left). split; [done|]. split; [done|]. split; [done|].
  intros a Ha. split; [clear -Ha; set_solver|]. intros ->. clear -Ha Hn1 Hn2. set_solver.
Qed.

(** The first nodes with [n], and without it. *)
Lemma firsts_skip : last_prio pr None l1 = Some (pr n) ->
  firsts pr None (l1 ++ n :: l2) = firsts pr None (l1 ++ l2) /\ n ∉ firsts pr None (l1 ++ n :: l2).
Proof.
  intros Hl. destruct del_facts as (Hn1 & Hn2 & _). rewrite !firsts_app. cbn [firsts]. rewrite Hl, bool_decide_true by done. split; [done|].
  intros [Hx|Hx]%elem_of_app; by apply firsts_in in Hx.
Qed.

Lemma firsts_next : last_prio pr None l1 <> Some (pr n) ->
  firsts pr None (l1 ++ n :: l2) = firsts pr None l1 ++ n :: firsts pr (Some (pr n)) l2 /\
  match l2 with
  | [] => firsts pr None (l1 ++ l2) = firsts pr None l1
  | x :: l => firsts pr None (l1 ++ l2) = firsts pr None l1 ++ x :: firsts pr (Some (pr x)) l
  end.
Proof.
  intros Hl. rewrite !firsts_app. cbn [firsts]. rewrite bool_decide_false by done. split; [done|].
  destruct l2 as [|x l] eqn:El; [apply app_nil_r|]. cbn [firsts]. rewrite bool_decide_false; [done|]. intros Hx. apply Hl. rewrite Hx. f_equal.
  destruct (last l1) as [y|] eqn:Ey; unfold last_prio in Hx; rewrite Ey in Hx; [injection Hx as Hx | done].
  pose proof (pl_sorted _ _ _ _ _ Hok) as Hs. apply prio_sorted_app in Hs as (_ & Hs & H12). inversion_clear Hs as [|? ? _ Hf].
  apply last_Some_elem_of in Ey. rewrite Forall_forall in Hf. specialize (H12 y n Ey ltac:(left)). specialize (Hf x ltac:(left)). cbn in Hf. lia.
Qed.

Lemma firsts_without a : a ∈ firsts pr None (l1 ++ n :: l2) -> a = n \/ a ∈ firsts pr None (l1 ++ l2).
Proof.
  destruct (decide (last_prio pr None l1 = Some (pr n))) as [Hl|Hl]; [destruct (firsts_skip Hl) as [-> _]; tauto|].
  destruct (firsts_next Hl) as [-> E]. destruct l2 as [|x l]; rewrite E; [clear; set_solver|]. cbn [firsts].
  case_bool_decide as Hx; [injection Hx as Hx; rewrite Hx|]; clear; set_solver.
Qed.

(** What is done to prio_list. *)
Definition del_stage (s1 : plists) (σ1 : lists) : Prop :=
  rep (cells s1) σ1 /\ prio s1 = prio s /\ σ1 !! head_prio_list h = Some (map node_prio_list (firsts pr None (l1 ++ l2))) /\
  σ1 !! node_prio_list n = Some [] /\
  forall k, k ∉ head_prio_list h :: node_prio_list n :: map node_prio_list (firsts pr None (l1 ++ l2)) -> σ1 !! k = σ !! k.

(** The next node, or the head, goes before [n], and [n] goes. *)
Lemma del_two : last_prio pr None l1 <> Some (pr n) -> exists m' σ',
  (m ← list_move_tail (cells s) (node_prio_list (node_entry (default (head_node_list h) (head (map node_node_list l2))))) (node_prio_list n);
   list_del_init m (node_prio_list n)) = Some m' /\ del_stage (mk_plists m' (prio s)) σ'.
Proof.
  intros Hl. pose proof (pl_rep _ _ _ _ _ Hok) as Hr. pose proof (pl_prios _ _ _ _ _ Hok) as Hp. destruct del_facts as (Hn1 & Hn2 & Hnd & Hsub).
  destruct (firsts_next Hl) as [Ef Ef2]. rewrite Ef, map_app in Hp. cbn [map] in Hp. unfold del_stage. destruct l2 as [|x l].
  - cbn [map head default from_option id]. replace (node_prio_list (node_entry (head_node_list h))) with (head_prio_list h)
      by (unfold node_prio_list, node_entry, head_node_list, head_prio_list; lia).
    destruct (rep_out_last (cells s) σ (head_prio_list h) (map node_prio_list (firsts pr None l1)) (node_prio_list n) Hr Hp)
      as (m' & σ' & E & Hr' & Hh' & Hn' & Ho'). rewrite Ef2.
    exists m', σ'. split; [done|]. split; [done|]. split; [done|]. split; [done|]. split; [done|]. intros k Hk. apply Ho'. clear -Hk. set_solver.
  - change (default (head_node_list h) (head (map node_node_list (x :: l)))) with (node_node_list x).
    replace (node_entry (node_node_list x)) with x by (unfold node_entry, node_node_list; lia).
    assert (Hx : x ∈ l1 ++ n :: x :: l) by (clear; set_solver). destruct (apart_cells _ _ _ (pl_apart _ _ _ _ _ Hok x Hx)) as (B1 & _).
    assert (exists m1 σ1, list_move_tail (cells s) (node_prio_list x) (node_prio_list n) = Some m1 /\ rep m1 σ1 /\
      σ1 !! head_prio_list h = Some (map node_prio_list (firsts pr None l1 ++ [x]) ++ node_prio_list n :: map node_prio_list (firsts pr (Some (pr x)) l)) /\
      others σ σ1 [head_prio_list h; node_prio_list x]) as (m1 & σ1 & E1 & Hr1 & Hh1 & Ho1).
    { rewrite map_app, <-app_assoc. cbn [map app]. destruct (decide (pr x = pr n)) as [Hxn|Hxn].
      - assert (Hx0 : σ !! node_prio_list x = Some []).
        { apply (pl_rest _ _ _ _ _ Hok); [done|]. rewrite Ef. cbn [firsts]. rewrite bool_decide_true by congruence.
          apply NoDup_app in Hnd as (_ & Hd & Hnd). apply NoDup_cons in Hnd as [Hnx Hnd]. apply NoDup_cons in Hnd as [Hxl _].
          intros [Hi|Hi]%elem_of_app; [apply firsts_in in Hi; apply (Hd x Hi); clear; set_solver|].
          apply elem_of_cons in Hi as [->|Hi]; [apply Hnx; left | apply firsts_in in Hi; done]. }
        cbn [firsts] in Hp. rewrite bool_decide_true in Hp by congruence. rewrite Hxn. by apply rep_before_alone.
      - cbn [firsts] in Hp. rewrite bool_decide_false in Hp by congruence. cbn [map] in Hp.
        destruct (rep_swap (cells s) σ (head_prio_list h) _ _ _ _ Hr Hp) as (m1 & σ1 & E1 & Hr1 & Hh1 & Ho1). exists m1, σ1. split; [done|].
        split; [done|]. split; [done|]. intros k Hk. apply Ho1. clear -Hk. set_solver. }
    destruct (rep_out m1 σ1 (head_prio_list h) _ _ _ Hr1 Hh1) as (m2 & σ2 & E2 & Hr2 & Hh2 & Hn2' & Ho2). exists m2, σ2.
    rewrite E1, some_bind. split; [done|]. split; [done|]. split; [done|]. rewrite Ef2. split; [rewrite Hh2, <-map_app, <-app_assoc; done|].
    split; [done|]. intros k Hk. rewrite map_app in Hk. cbn [map] in Hk. rewrite Ho2, Ho1; [done|..]; clear -Hk; set_solver.
Qed.

Lemma on_cells_bind f g m' : (m ← f (cells s); g m) = Some m' -> (s1 ← on_cells s f; on_cells s1 g) = Some (mk_plists m' (prio s)).
Proof. unfold on_cells. destruct (f (cells s)) as [m1|]; [|done]. cbn. by intros ->. Qed.

Lemma del_prio : exists s1 σ1,
  (e ← list_empty (cells s) (node_prio_list n);
   if (e : bool) then Some s else
       next_ ← plist_first s (node_prio_list n);
       s ← on_cells s (fun m => list_move_tail m (node_prio_list next_) (node_prio_list n));
       on_cells s (fun m => list_del_init m (node_prio_list n))) = Some s1 /\ del_stage s1 σ1.
Proof.
  pose proof (pl_rep _ _ _ _ _ Hok) as Hr. pose proof (pl_prios _ _ _ _ _ Hok) as Hp. pose proof (head_cells h) as A6.
  destruct del_facts as (Hn1 & Hn2 & Hnd & Hsub). destruct (decide (last_prio pr None l1 = Some (pr n))) as [Hl|Hl].
  - destruct (firsts_skip Hl) as [Ef Hnf]. pose proof (pl_rest _ _ _ _ _ Hok n ltac:(set_solver) Hnf) as Hn.
    destruct (list_empty_spec _ _ _ (rep_ring _ _ Hr _ _ Hn)) as [Ee _]. rewrite Ee, some_bind. exists s, σ. split; [done|].
    split; [done|]. split; [done|]. by rewrite <-Ef.
  - destruct (firsts_next Hl) as [Ef Ef2]. rewrite Ef, map_app in Hp. cbn [map] in Hp.
    pose proof (rep_ring _ _ Hr _ _ Hp) as Hring. unfold list_empty. rewrite (ring_next _ _ _ _ _ Hring), !some_bind.
    assert (Hne : (default (head_prio_list h) (head (map node_prio_list (firsts pr (Some (pr n)) l2))) =? node_prio_list n) = false).
    { apply Z.eqb_neq. destruct (apart_cells _ _ _ (pl_apart _ _ _ _ _ Hok n ltac:(set_solver))) as (B1 & _).
      destruct (firsts pr (Some (pr n)) l2) as [|i f] eqn:Ei; [cbn; congruence|]. cbn. intros Hi%prio_inj. subst i. apply Hn2, (firsts_in pr (Some (pr n))). rewrite Ei. left. }
    rewrite Hne. unfold plist_first. change (head_node_list (node_prio_list n)) with (node_prio_list n + 8).
    assert (En : node_prio_list n + 8 = node_node_list n) by (unfold node_prio_list, node_node_list; lia). rewrite En.
    pose proof (pl_nodes _ _ _ _ _ Hok) as Hnodes. rewrite map_app in Hnodes. cbn [map] in Hnodes.
    rewrite (ring_next _ _ _ _ _ (rep_ring _ _ Hr _ _ Hnodes)), !some_bind.
    destruct (del_two Hl) as (m' & σ' & E & Hd). exists (mk_plists m' (prio s)), σ'. split; [|exact Hd]. by apply on_cells_bind.
Qed.

Lemma del_result : exists s' σ', plist_del s n = Some s' /\ plist_ok s' σ' pr h (l1 ++ l2) /\ node_free s' σ' pr n /\
  others σ σ' (lists_of_plist h (l1 ++ n :: l2)).
Proof.
  destruct del_prio as (s1 & σ1 & E1 & Hr1 & Hp1 & Hh1 & Hn1 & Ho1). destruct del_facts as (_ & _ & Hnd & Hsub). pose proof (head_cells h) as A6.
  assert (Hin : n ∈ l1 ++ n :: l2) by (clear; set_solver). pose proof (pl_apart _ _ _ _ _ Hok n Hin) as Hap. pose proof (prio_node n) as A5.
  destruct (apart_cells _ _ _ Hap) as (A1 & A2 & A3 & A4).
  assert (Hfi : forall a, a ∈ firsts pr None (l1 ++ l2) -> a ∈ l1 ++ n :: l2 /\ a <> n) by (intros a Ha; apply Hsub; by eapply firsts_in).
  assert (Hout : forall k, (forall a, a ∈ l1 ++ n :: l2 -> k <> node_prio_list a) -> k <> head_prio_list h -> σ1 !! k = σ !! k).
  { intros k Hk Hkh. apply Ho1. rewrite !not_elem_of_cons. split; [done|]. split; [by apply Hk|]. intros Hx.
    apply list_elem_of_In, in_map_iff in Hx as (a & <- & Ha%list_elem_of_In). by apply (Hk a); [apply Hfi|]. }
  assert (Hnodes : σ1 !! head_node_list h = Some (map node_node_list l1 ++ node_node_list n :: map node_node_list l2)).
  { rewrite Hout; [rewrite (pl_nodes _ _ _ _ _ Hok); by rewrite map_app | | done].
    intros a Ha E. destruct (apart_cells _ _ _ (pl_apart _ _ _ _ _ Hok a Ha)) as (_ & B & _). congruence. }
  destruct (rep_out _ _ _ _ _ _ Hr1 Hnodes) as (m' & σ' & E' & Hr' & Hh' & Hn' & Ho').
  exists (mk_plists m' (prio s1)), σ'. split; [unfold plist_del|split; [split|split]].
  - destruct (list_empty (cells s) (node_prio_list n)) as [e|]; [|done]. rewrite some_bind in E1 |- *. rewrite E1, some_bind.
    by apply on_cells_Some.
  - done.
  - intros a Ha. cbn. rewrite Hp1. apply (pl_prio _ _ _ _ _ Hok). by apply Hsub.
  - intros a Ha. destruct (Hsub a Ha) as [Ha' _]. destruct (pl_apart _ _ _ _ _ Hok a Ha') as [H1 H2]. split; [done|].
    intros b Hb. apply H2. by apply Hsub.
  - pose proof (pl_sorted _ _ _ _ _ Hok) as Hs. apply prio_sorted_app in Hs as (Hs1 & Hs2 & H12). inversion_clear Hs2. apply prio_sorted_app.
    split; [done|]. split; [done|]. intros a b Ha Hb. apply H12; [done | by right].
  - by rewrite Hh', map_app.
  - rewrite Ho' by set_solver. done.
  - intros a Ha Hna. destruct (Hsub a Ha) as [Ha' Han]. pose proof (apart_nodes _ _ _ _ Hap Ha' Han) as (B1 & B2 & _ & _).
    pose proof (apart_cells _ _ _ (pl_apart _ _ _ _ _ Hok a Ha')) as (B3 & B4 & _ & _).
    rewrite Ho' by set_solver. rewrite Ho1.
    + apply (pl_rest _ _ _ _ _ Hok); [done|]. intros Hx. by destruct (firsts_without a Hx).
    + rewrite !not_elem_of_cons. split; [done|]. split; [done|]. intros Hx. apply list_elem_of_In, in_map_iff in Hx as (b & Eb%prio_inj & Hb%list_elem_of_In). by subst b.
  - split; [cbn; rewrite Hp1; by apply (pl_prio _ _ _ _ _ Hok)|]. split; [by rewrite Ho' by set_solver | done].
  - intros k Hk. unfold lists_of_plist in Hk. rewrite !not_elem_of_cons in Hk. destruct Hk as (H1 & H2 & Hk).
    assert (Hkl : forall a, a ∈ l1 ++ n :: l2 -> k <> node_prio_list a /\ k <> node_node_list a).
    { intros a Ha. split; intros E; apply Hk, list_elem_of_In, in_flat_map; exists a; (split; [by apply list_elem_of_In|]); subst k; cbn; tauto. }
    destruct (Hkl n Hin) as [_ Hkn]. rewrite Ho', Hout; [done | | done |].
    + intros a Ha. by apply Hkl.
    + rewrite !not_elem_of_cons. by split; [|split; [|apply not_elem_of_nil]].
Qed.
End del_result.

(** ** Sequences of operations *)

Lemma enqueue_at pr n l1 l2 : (forall a, a ∈ l1 -> pr a <= pr n) -> (forall b, b ∈ l2 -> pr n < pr b) -> enqueue pr n (l1 ++ l2) = l1 ++ n :: l2.
Proof.
  intros H1 H2. induction l1 as [|x l1 IH]; cbn [app enqueue].
  - destruct l2 as [|x l2]; [done|]. cbn [enqueue]. destruct (Z.ltb_spec (pr n) (pr x)); [done|]. specialize (H2 x ltac:(left)). lia.
  - destruct (Z.ltb_spec (pr n) (pr x)); [specialize (H1 x ltac:(left)); lia|]. f_equal. apply IH. intros a Ha. apply H1. by right.
Qed.

Lemma dequeue_at n l1 l2 : n ∉ l1 -> n ∉ l2 -> dequeue n (l1 ++ n :: l2) = l1 ++ l2.
Proof.
  intros H1 H2. assert (Hid : forall l, n ∉ l -> dequeue n l = l).
  { intros l Hl. unfold dequeue. induction l as [|x l IH]; [done|]. apply not_elem_of_cons in Hl as [Hx Hl].
    rewrite filter_cons_True by done. by rewrite IH. }
  unfold dequeue in *. rewrite filter_app, filter_cons_False by (intros H; by apply H). by rewrite !Hid.
Qed.

Lemma plist_first_ok s σ pr h l : plist_ok s σ pr h l -> plist_head_empty s h = Some (bool_decide (l = [])) /\
  forall x, head l = Some x -> plist_first s h = Some x.
Proof.
  intros Hok. pose proof (rep_ring _ _ (pl_rep _ _ _ _ _ Hok) _ _ (pl_nodes _ _ _ _ _ Hok)) as Hring.
  unfold plist_head_empty, plist_first. destruct (list_empty_spec _ _ _ Hring) as [-> _].
  rewrite (chain_first _ _ _ _ (ring_chain _ _ _ Hring)), some_bind. split; [by destruct l|].
  destruct l as [|y l]; [done|]. cbn. intros x [= ->]. f_equal. unfold node_entry, node_node_list. lia.
Qed.

Lemma session_size s σ pr h u l : session s σ pr h u l -> zlen l < 2 ^ 31.
Proof.
  intros Hs. pose proof (se_size _ _ _ _ _ _ Hs) as Hu.
  assert (length l <= length u)%nat; [|lia]. apply submseteq_length, NoDup_submseteq; [|apply (se_sub _ _ _ _ _ _ Hs)].
  pose proof (ring_nodup _ _ _ (rep_ring _ _ (pl_rep _ _ _ _ _ (se_ok _ _ _ _ _ _ Hs)) _ _ (pl_nodes _ _ _ _ _ (se_ok _ _ _ _ _ _ Hs)))) as Hnd.
  apply NoDup_cons in Hnd as [_ Hnd]. rewrite NoDup_ListNoDup in Hnd. apply NoDup_map_inv in Hnd. by rewrite <-NoDup_ListNoDup in Hnd.
Qed.

(** A node of the owner that is not touched stays free. *)
Lemma free_frame s σ s' σ' pr h u l n : (forall a, a ∈ u -> node_apart h u a) -> (forall a, a ∈ l -> a ∈ u) -> n ∈ u -> n ∉ l ->
  node_free s σ pr n -> prio s' = prio s -> others σ σ' (lists_of_plist h l) -> node_free s' σ' pr n.
Proof.
  intros Hap Hlu Hn Hnl (H1 & H2 & H3) Hp Ho. pose proof (apart_cells _ _ _ (Hap n Hn)) as (A1 & A2 & A3 & A4).
  assert (Hk : forall k, k ∈ lists_of n -> k ∉ flat_map lists_of l).
  { intros k Hk Hx. apply list_elem_of_In, in_flat_map in Hx as (a & Ha & Hka). apply list_elem_of_In in Ha, Hka.
    assert (Han : a <> n) by (intros ->; done). pose proof (apart_nodes _ _ _ _ (Hap n Hn) (Hlu a Ha) Han) as (B1 & B2 & B3 & B4).
    unfold lists_of in *. set_solver. }
  unfold lists_of_plist in Ho. split; [by rewrite Hp|]. split; rewrite Ho; try done; rewrite !not_elem_of_cons;
    (split; [done|]; split; [done|]; apply Hk; unfold lists_of; set_solver).
Qed.

Lemma run_prio s n h s' : plist_add s n h = Some s' \/ plist_del s n = Some s' -> prio s' = prio s.
Proof.
  assert (Hon : forall s f s', on_cells s f = Some s' -> prio s' = prio s).
  { unfold on_cells. intros s0 f s1 H. apply bind_Some in H as (m & _ & [= <-]). done. }
  intros [H|H]; [unfold plist_add in H | unfold plist_del in H].
  - apply bind_Some in H as (c & _ & H). apply bind_Some in H as ([lt c'] & _ & H). cbn zeta in H. apply bind_Some in H as (s1 & H1 & H2).
    rewrite (Hon _ _ _ H2). destruct lt; [by eapply Hon | by injection H1 as <-].
  - apply bind_Some in H as (e & _ & H). apply bind_Some in H as (s1 & H1 & H2). rewrite (Hon _ _ _ H2).
    destruct e; [by injection H1 as <-|]. apply bind_Some in H1 as (x & _ & H1). apply bind_Some in H1 as (s2 & H1 & H3).
    by rewrite (Hon _ _ _ H3), (Hon _ _ _ H1).
Qed.

Lemma session_add s σ pr h u l n : session s σ pr h u l -> n ∈ u -> n ∉ l ->
  exists s' σ', plist_add s n h = Some s' /\ session s' σ' pr h u (enqueue pr n l).
Proof.
  intros Hs Hn Hnl. pose proof (se_ok _ _ _ _ _ _ Hs) as Hok.
  assert (Hap : node_apart h l n).
  { destruct (se_apart _ _ _ _ _ _ Hs n Hn) as [H1 H2]. split; [done|]. intros a Ha. apply H2. by apply (se_sub _ _ _ _ _ _ Hs). }
  destruct (add_result s σ pr h l Hok n (se_free _ _ _ _ _ _ Hs n Hn Hnl) Hap (session_size _ _ _ _ _ _ Hs))
    as (s' & σ' & l1 & l2 & E & El & H1 & H2 & Hok' & Ho). exists s', σ'. split; [done|].
  rewrite El, enqueue_at by done. assert (Hsub : forall a, a ∈ l1 ++ n :: l2 <-> a ∈ n :: l) by (rewrite El; clear; set_solver).
  assert (Hu : forall a, a ∈ n :: l -> a ∈ u).
  { intros a [->|Ha]%elem_of_cons; [done | by apply (se_sub _ _ _ _ _ _ Hs)]. }
  split; [done | | apply (se_apart _ _ _ _ _ _ Hs) | | apply (se_size _ _ _ _ _ _ Hs)].
  - intros a Ha%Hsub. by apply Hu.
  - intros a Ha Hna. assert (Hna' : a ∉ n :: l) by (by rewrite <-Hsub).
    eapply (free_frame s σ s' σ' pr h u (n :: l)); [apply (se_apart _ _ _ _ _ _ Hs) | done | done | done | | | done].
    + apply (se_free _ _ _ _ _ _ Hs); [done|]. by apply not_elem_of_cons in Hna' as [_ ?].
    + eapply (run_prio s n h). by left.
Qed.

Lemma session_del s σ pr h u l n : session s σ pr h u l -> n ∈ l ->
  exists s' σ', plist_del s n = Some s' /\ session s' σ' pr h u (dequeue n l).
Proof.
  intros Hs Hn. pose proof (se_ok _ _ _ _ _ _ Hs) as Hok. pose proof Hn as Hin. apply list_elem_of_split in Hin as (l1 & l2 & ->).
  destruct (del_facts s σ pr h l1 n l2 Hok) as (Hn1 & Hn2 & _ & Hsub).
  destruct (del_result s σ pr h l1 n l2 Hok) as (s' & σ' & E & Hok' & Hfree & Ho). exists s', σ'. split; [done|].
  rewrite dequeue_at by done. split; [done | | apply (se_apart _ _ _ _ _ _ Hs) | | apply (se_size _ _ _ _ _ _ Hs)].
  - intros a Ha. apply (se_sub _ _ _ _ _ _ Hs). by apply Hsub.
  - intros a Ha Hna. destruct (decide (a = n)) as [->|Hne]; [done|].
    assert (Hna' : a ∉ l1 ++ n :: l2) by (clear -Hna Hne; set_solver).
    eapply (free_frame s σ s' σ' pr h u (l1 ++ n :: l2)); [apply (se_apart _ _ _ _ _ _ Hs) | apply (se_sub _ _ _ _ _ _ Hs) | done | done | | | done].
    + by apply (se_free _ _ _ _ _ _ Hs).
    + eapply (run_prio s n h). by right.
Qed.

(** C17. A priority list is a queue: any sequence of plist_add and plist_del on the
    nodes of an owner, from any state of the queue, in a memory that holds any other
    lists, ends without touching a cell that is not there; the list then holds the
    nodes in the order of a queue in which each node goes behind those of the same
    priority, with prio_list the first nodes of the priorities, the nodes taken out
    are ready to be added again, and plist_first is the node that has waited longest
    among those of the smallest priority. *)
Theorem plist_is_queue s σ pr h u l ops l' : session s σ pr h u l -> queue_run pr u l ops = Some l' ->
  exists s' σ', plist_run s h ops = Some s' /\ session s' σ' pr h u l' /\ plist_head_empty s' h = Some (bool_decide (l' = [])) /\
    forall x, head l' = Some x -> plist_first s' h = Some x /\ forall y, y ∈ l' -> pr x <= pr y.
Proof.
  intros Hs. assert (Hend : forall s σ l, session s σ pr h u l -> plist_head_empty s h = Some (bool_decide (l = [])) /\
    forall x, head l = Some x -> plist_first s h = Some x /\ forall y, y ∈ l -> pr x <= pr y).
  { intros s0 σ0 l0 Hs0. pose proof (se_ok _ _ _ _ _ _ Hs0) as Hok. destruct (plist_first_ok _ _ _ _ _ Hok) as [H1 H2]. split; [done|].
    intros x Hx. split; [by apply H2|]. pose proof (pl_sorted _ _ _ _ _ Hok) as Hst. destruct l0 as [|z l0]; [done|]. injection Hx as ->.
    inversion_clear Hst as [|? ? _ Hf]. rewrite Forall_forall in Hf. intros y [->|Hy]%elem_of_cons; [lia | by apply Hf]. }
  revert s σ l Hs. induction ops as [|[n|n] ops IH]; intros s σ l Hs; cbn [queue_run plist_run].
  - intros [= <-]. exists s, σ. split; [done|]. split; [done|]. by eapply Hend.
  - intros H. case_bool_decide as Hn; [|discriminate H]. destruct Hn as [Hn Hnl]. destruct (session_add s σ pr h u l n Hs Hn Hnl) as (s1 & σ1 & E & Hs1).
    rewrite E, some_bind. exact (IH s1 σ1 _ Hs1 H).
  - intros H. case_bool_decide as Hn; [|discriminate H]. destruct (session_del s σ pr h u l n Hs Hn) as (s1 & σ1 & E & Hs1).
    rewrite E, some_bind. exact (IH s1 σ1 _ Hs1 H).
Qed.

(** An empty head at 0 and three nodes that plist_node_init made. *)
Definition sample_cells : list Z := [0; 8; 104; 112; 204; 212; 304; 312].
Definition sample_plist : plists :=
  mk_plists (mk_mem (list_to_map (map (fun a => (a, a)) sample_cells)) (list_to_map (map (fun a => (a, a)) sample_cells)))
    (list_to_map [(100, 5); (200, 5); (300, 3)]).
Definition sample_prio (n : Z) : Z := if n =? 300 then 3 else 5.
Definition empty_lists : lists := list_to_map (map (fun a => (a, [])) sample_cells).

Lemma sample_session : session sample_plist empty_lists sample_prio 0 [100; 200; 300] [].
Proof.
  assert (Hcase : forall h l, empty_lists !! h = Some l -> h ∈ sample_cells /\ l = []).
  { intros h l Hl. apply elem_of_list_to_map_2 in Hl. apply list_elem_of_In, in_map_iff in Hl as (a & [= -> ->] & Ha). by apply list_elem_of_In in Ha. }
  assert (Hself : forall h, h ∈ sample_cells -> next (cells sample_plist) !! h = Some h /\ prev (cells sample_plist) !! h = Some h).
  { apply Forall_forall. unfold sample_cells. repeat constructor. }
  split; [split; [split | | | | | |] | | | |]; try done.
  - intros h l Hl. destruct (Hcase h l Hl) as [Hh ->]. destruct (Hself h Hh). split; [apply NoDup_singleton | by cbn].
  - intros h l h' l' x Hl Hl' Hne. destruct (Hcase h l Hl) as [_ ->], (Hcase h' l' Hl') as [_ ->]. set_solver.
  - intros n Hn. by apply elem_of_nil in Hn.
  - intros n Hn. by apply elem_of_nil in Hn.
  - constructor.
  - intros n Hn. by apply elem_of_nil in Hn.
  - intros n Hn. assert (n = 100 \/ n = 200 \/ n = 300) as Hc by (clear -Hn; set_solver). split; [lia|]. intros a Ha Hne.
    assert (a = 100 \/ a = 200 \/ a = 300) as Ha' by (clear -Ha; set_solver). lia.
  - intros n Hn _. assert (n = 100 \/ n = 200 \/ n = 300) as [->|[->| ->]] by (clear -Hn; set_solver); done.
Qed.

Lemma plist_is_queue_witness : exists s', plist_run sample_plist 0 [Enqueue 100; Enqueue 200; Enqueue 300; Dequeue 100] = Some s' /\
  plist_first s' 0 = Some 300.
Proof.
  destruct (plist_is_queue sample_plist empty_lists sample_prio 0 [100; 200; 300] []
    [Enqueue 100; Enqueue 200; Enqueue 300; Dequeue 100] [300; 200] sample_session) as (s' & σ' & E & _ & _ & H); [reflexivity|].
  exists s'. split; [exact E|]. apply (H 300 eq_refl).
Defined.
