(* ===== verification/Mutex.v ===== *)
(** * Sleeping mutexes (kernel/mutex.c, include/linux/mutex.h, include/asm-arm/mutex.h)

    The processor is an ARMv6: the fast paths read the counter with ldrex and store
    it with strex, which may fail, and which does when another store came between.
    Any number of tasks call the mutex; their steps interleave at every atomic
    access of the counter and at every statement under wait_lock, so that the fast
    paths of some run between the statements of the slow paths of others.

    A task is a program counter with its scheduler state; [exec] is one step of it,
    [None] when it has to wait.  The checks of CONFIG_DEBUG_MUTEXES and the lock
    validator are not configured. *)

From stdpp Require Import relations.
From S2P Require Import Prelude.

#[local] Open Scope Z_scope.

(** ** The mutex *)

Definition EINTR : Z := 4.
Definition TASK_RUNNING : Z := 0.
Definition TASK_INTERRUPTIBLE : Z := 1.
Definition TASK_UNINTERRUPTIBLE : Z := 2.

(** struct mutex: wait_lock has the task that holds it, wait_list the tasks of the
    waiters. *)
Record mutex := mk_mutex { count : Z; wait_lock : option nat; wait_list : list nat }.
Definition __mutex_init : mutex := mk_mutex 1 None [].
Definition mutex_is_locked (l : mutex) : bool := negb (count l =? 1).

Definition set_count (l : mutex) (v : Z) : mutex := mk_mutex v (wait_lock l) (wait_list l).
Definition set_lock (l : mutex) (o : option nat) : mutex := mk_mutex (count l) o (wait_list l).
Definition set_list (l : mutex) (w : list nat) : mutex := mk_mutex (count l) (wait_lock l) w.

(** The counter after the instructions, and the value that is zero on success;
    [strex_ok]: the store was done. *)
Definition ex_flag (strex_ok : bool) : Z := if strex_ok then 0 else 1.
Definition __mutex_fastpath_lock (strex_ok : bool) (count : Z) : Z * Z :=
  let res := s32 (count - 1) in
  (if strex_ok then res else count, Z.lor res (ex_flag strex_ok)).
Definition __mutex_fastpath_unlock (strex_ok : bool) (count : Z) : Z * Z :=
  let res := s32 (count + 1) in
  (if strex_ok then res else count, Z.lor count (ex_flag strex_ok)).
(** One turn of the loop; [None]: bgt is taken. *)
Definition __mutex_fastpath_trylock (strex_ok : bool) (count : Z) : Z * option Z :=
  if count <? 1 then (count, Some 0)
  else if count =? 1 then if strex_ok then (0, Some 1) else (count, None)
  else (count, None).

(** ** The tasks *)

Inductive call := Lock | LockInterruptible | TryLock | Release.

(** Where a task is; under wait_lock from [L_add] to the unlocks. *)
Inductive pc :=
  | Idle | Owns                           (* outside, without or with the mutex *)
  | L_fast | L_slow                       (* the fast path; spin_lock *)
  | L_add | L_xchg                        (* list_add_tail; the first xchg *)
  | L_loop | L_signal | L_unlock          (* the xchg of the loop; signal_pending; spin_unlock *)
  | L_schedule | L_relock                 (* schedule; spin_lock *)
  | L_done | L_zero | L_out               (* mutex_remove_waiter; atomic_set; spin_unlock *)
  | L_intr | L_intr_out                   (* mutex_remove_waiter; spin_unlock *)
  | U_fast | U_slow | U_set | U_wake | U_out  (* the fast path; spin_lock; atomic_set; wake up; spin_unlock *)
  | T_fast.                               (* the fast path of trylock *)

#[global] Instance pc_eq_dec : EqDecision pc.
Proof. solve_decision. Defined.

(** The last call of the task and its result; its state, and a pending signal. *)
Record thread := mk_thread { at_ : pc; op : call; ret : Z; state : Z; pending : bool }.
Definition idle_thread : thread := mk_thread Idle Release 0 TASK_RUNNING false.
Definition goto (x : thread) (p : pc) : thread := mk_thread p (op x) (ret x) (state x) (pending x).
Definition return_ (x : thread) (p : pc) (r : Z) : thread := mk_thread p (op x) r (state x) (pending x).
Definition set_state (x : thread) (s : Z) : thread := mk_thread (at_ x) (op x) (ret x) s (pending x).

Definition sleep_state (x : thread) : Z := match op x with LockInterruptible => TASK_INTERRUPTIBLE | _ => TASK_UNINTERRUPTIBLE end.

Definition mutex_remove_waiter (l : mutex) (t : nat) : mutex := set_list l (filter (fun w => w <> t) (wait_list l)).
Definition spin_lock (l : mutex) (t : nat) : option mutex := match wait_lock l with None => Some (set_lock l (Some t)) | Some _ => None end.
Definition spin_unlock (l : mutex) : mutex := set_lock l None.

(** mutex_lock and mutex_lock_interruptible with __mutex_lock_common: one step of
    task [t]. *)
Definition lock_step (strex_ok : bool) (t : nat) (l : mutex) (x : thread) : option (mutex * thread) :=
  match at_ x with
  | L_fast =>
    let '(v, res) := __mutex_fastpath_lock strex_ok (count l) in
    Some (set_count l v, if res =? 0 then return_ x Owns 0 else goto x L_slow)
  | L_slow => l ← spin_lock l t; Some (l, goto x L_add)
  | L_add => Some (set_list l (wait_list l ++ [t]), goto x L_xchg)
  | L_xchg => Some (set_count l (-1), goto x (if count l =? 1 then L_done else L_loop))
  | L_loop => Some (set_count l (-1), goto x (if count l =? 1 then L_done else L_signal))
  | L_signal =>
    if (sleep_state x =? TASK_INTERRUPTIBLE) && pending x then Some (l, goto x L_intr)
    else Some (l, set_state (goto x L_unlock) (sleep_state x))
  | L_unlock => Some (spin_unlock l, goto x L_schedule)
  | L_schedule => if state x =? TASK_RUNNING then Some (l, goto x L_relock) else None
  | L_relock => l ← spin_lock l t; Some (l, goto x L_loop)
  | L_done => Some (mutex_remove_waiter l t, goto x L_zero)
  | L_zero => Some (if bool_decide (wait_list l = []) then set_count l 0 else l, goto x L_out)
  | L_out => Some (spin_unlock l, return_ x Owns 0)
  | L_intr => Some (mutex_remove_waiter l t, goto x L_intr_out)
  | L_intr_out => Some (spin_unlock l, return_ x Idle (- EINTR))
  | _ => None
  end.

(** mutex_unlock with __mutex_unlock_common_slowpath; the waking, which is a step on
    another task, is in [exec]. *)
Definition unlock_step (strex_ok : bool) (t : nat) (l : mutex) (x : thread) : option (mutex * thread) :=
  match at_ x with
  | U_fast =>
    let '(v, orig) := __mutex_fastpath_unlock strex_ok (count l) in
    Some (set_count l v, goto x (if orig =? 0 then Idle else U_slow))
  | U_slow => l ← spin_lock l t; Some (l, goto x U_set)
  | U_set => Some (set_count l 1, goto x U_wake)
  | U_out => Some (spin_unlock l, goto x Idle)
  | _ => None
  end.

(** mutex_trylock *)
Definition trylock_step (strex_ok : bool) (l : mutex) (x : thread) : option (mutex * thread) :=
  let '(v, r) := __mutex_fastpath_trylock strex_ok (count l) in
  Some (set_count l v, match r with None => x | Some r => return_ x (if r =? 0 then Idle else Owns) r end).

Definition task_step (strex_ok : bool) (t : nat) (l : mutex) (x : thread) : option (mutex * thread) :=
  match at_ x with
  | Idle | Owns => None
  | U_fast | U_slow | U_set | U_wake | U_out => unlock_step strex_ok t l x
  | T_fast => trylock_step strex_ok l x
  | _ => lock_step strex_ok t l x
  end.

Record conf := mk_conf { lk : mutex; threads : list thread }.
Definition init (n : nat) : conf := mk_conf __mutex_init (replicate n idle_thread).

(** wake_up_process *)
Definition wake_up_process (l : list thread) (w : nat) : list thread := alter (fun x => set_state x TASK_RUNNING) w l.

(** The first waiter, if there is one. *)
Definition wake_first (l : mutex) (ts : list thread) : list thread :=
  match wait_list l with [] => ts | w :: _ => wake_up_process ts w end.

(** A task calls, releases, takes a step, gets a signal, or handles it. *)
Inductive act := Call (o : call) | Unlock | Run (strex_ok : bool) | Signal | Handle.

Definition exec (t : nat) (a : act) (c : conf) : option conf :=
  x ← threads c !! t;
  let put l x := Some (mk_conf l (<[t := x]> (threads c))) in
  match a, at_ x with
  | Call TryLock, Idle => put (lk c) (mk_thread T_fast TryLock (ret x) (state x) (pending x))
  | Call Release, _ => None
  | Call o, Idle => put (lk c) (mk_thread L_fast o (ret x) (state x) (pending x))
  | Unlock, Owns => put (lk c) (mk_thread U_fast Release (ret x) (state x) (pending x))
  | Run _, U_wake => Some (mk_conf (lk c) (<[t := goto x U_out]> (wake_first (lk c) (threads c))))
  | Run ok, _ => '(l, x) ← task_step ok t (lk c) x; put l x
  | Signal, _ =>
    put (lk c) (mk_thread (at_ x) (op x) (ret x) (if state x =? TASK_INTERRUPTIBLE then TASK_RUNNING else state x) true)
  | Handle, Idle => put (lk c) (mk_thread Idle (op x) (ret x) (state x) false)
  | _, _ => None
  end.

Inductive reachable (n : nat) : conf -> Prop :=
  | reach_init : reachable n (init n)
  | reach_step c t a c' : reachable n c -> exec t a c = Some c' -> reachable n c'.

(** Only the ends of the calls and the releases. *)
Definition finishing (c c' : conf) : Prop := exists t a, (a = Run true \/ a = Unlock) /\ exec t a c = Some c'.

(** ** What the theorems speak of *)

(** The tasks that have the mutex, in the critical section or in the code. *)
Definition owner (x : thread) : bool :=
  match at_ x with Owns | L_done | L_zero | L_out | U_fast | U_slow | U_set => true | _ => false end.
(** The tasks that hold wait_lock. *)
Definition locked (x : thread) : bool :=
  match at_ x with
  | L_add | L_xchg | L_loop | L_signal | L_unlock | L_done | L_zero | L_out | L_intr | L_intr_out | U_set | U_wake | U_out => true
  | _ => false
  end.
(** The tasks in wait_list. *)
Definition waiting (x : thread) : bool :=
  match at_ x with L_xchg | L_loop | L_signal | L_unlock | L_schedule | L_relock | L_done | L_intr => true | _ => false end.
(** The waiters that will look at the counter again. *)
Definition awake (x : thread) : bool :=
  match at_ x with L_xchg | L_loop | L_relock => true | L_schedule => state x =? TASK_RUNNING | _ => false end.
(** The tasks that will wake a waiter. *)
Definition unlocking (x : thread) : bool := match at_ x with U_slow | U_set | U_wake => true | _ => false end.
(** The tasks whose decrement the counter may still show. *)
Definition counted (x : thread) : bool := match at_ x with L_slow | L_add | L_xchg => true | _ => false end.
(** The result of a call that is over tells whether the mutex is taken. *)
Definition returned (x : thread) : Prop :=
  match at_ x with
  | Idle => op x = Release \/ (op x = TryLock /\ ret x = 0) \/ (op x = LockInterruptible /\ ret x = - EINTR)
  | Owns => (op x = TryLock /\ ret x = 1) \/ ((op x = Lock \/ op x = LockInterruptible) /\ ret x = 0)
  | U_fast | U_slow | U_set | U_wake | U_out => op x = Release
  | T_fast => op x = TryLock
  | L_intr | L_intr_out => op x = LockInterruptible
  | _ => op x = Lock \/ op x = LockInterruptible
  end.

(** How many steps a task may still need, the waking of another included. *)
Definition weight (x : thread) : Z :=
  match at_ x with
  | Idle => 0
  | U_out => 1
  | U_wake => 8
  | U_set => 9
  | U_slow => 10
  | U_fast => 11
  | Owns => 12
  | L_out | T_fast => 13
  | L_zero => 14
  | L_done => 15
  | L_intr_out => 1
  | L_intr => 2
  | L_schedule => if state x =? TASK_RUNNING then 21 else 16
  | L_unlock => if state x =? TASK_RUNNING then 22 else 17
  | L_signal => 18
  | L_loop => 19
  | L_relock => 20
  | L_xchg => 20
  | L_add => 21
  | L_slow => 22
  | L_fast => 23
  end.

(** ** Sums over the tasks *)

Fixpoint total (f : thread -> Z) (l : list thread) : Z := match l with [] => 0 | x :: l => f x + total f l end.
Definition tally (p : thread -> bool) (l : list thread) : Z := total (fun x => Z.b2z (p x)) l.

Lemma total_insert f l t x y : l !! t = Some x -> total f (<[t := y]> l) = total f l - f x + f y.
Proof.
  revert t. induction l as [|z l IH]; intros [|t] H; try discriminate H.
  - injection H as ->. cbn. lia.
  - change (<[S t := y]> (z :: l)) with (z :: <[t := y]> l). cbn [total]. rewrite (IH t H). lia.
Qed.

Lemma total_nonneg f l : (forall x, 0 <= f x) -> 0 <= total f l.
Proof. intros Hf. induction l as [|x l IH]; cbn; [lia|]. specialize (Hf x). lia. Qed.

Lemma total_in f l t x : (forall y, 0 <= f y) -> l !! t = Some x -> f x <= total f l.
Proof.
  intros Hf. revert t. induction l as [|z l IH]; intros [|t] H; cbn in *; try discriminate.
  - injection H as ->. pose proof (total_nonneg f l Hf). lia.
  - specialize (IH t H). specialize (Hf z). lia.
Qed.

Lemma total_le f k l : (forall x, f x <= k) -> total f l <= k * zlen l.
Proof. intros Hf. induction l as [|x l IH]; [cbn; lia|]. specialize (Hf x). rewrite length_cons, Nat2Z.inj_succ. cbn [total]. lia. Qed.

Lemma b2z_nonneg b : 0 <= Z.b2z b.
Proof. by destruct b. Qed.

Lemma tally_insert p l t x y : l !! t = Some x -> tally p (<[t := y]> l) = tally p l - Z.b2z (p x) + Z.b2z (p y).
Proof. apply (total_insert (fun x => Z.b2z (p x))). Qed.

Lemma tally_bounds p l : 0 <= tally p l <= zlen l.
Proof.
  split; [apply total_nonneg; intros x; apply b2z_nonneg|].
  pose proof (total_le (fun x => Z.b2z (p x)) 1 l) as H. unfold tally. rewrite Z.mul_1_l in H. apply H. intros x. destruct (p x); cbn; lia.
Qed.

Lemma tally_none p l : tally p l = 0 -> forall t x, l !! t = Some x -> p x = false.
Proof.
  intros H t x Hx. pose proof (total_in (fun x => Z.b2z (p x)) l t x (fun y => b2z_nonneg (p y)) Hx) as Hle.
  unfold tally in H. rewrite H in Hle. destruct (p x); cbn in Hle; [lia | done].
Qed.

Lemma tally_some p l : tally p l <> 0 -> exists t x, l !! t = Some x /\ p x = true.
Proof.
  induction l as [|x l IH]; [done|]. intros H. destruct (p x) eqn:E; [by exists O, x|].
  destruct IH as (t & y & Hy & Hp); [|by exists (S t), y]. unfold tally in *. cbn in H. rewrite E in H. exact H.
Qed.

Lemma tally_two p l t1 t2 x1 x2 : p idle_thread = false -> l !! t1 = Some x1 -> l !! t2 = Some x2 -> p x1 = true -> p x2 = true ->
  t1 <> t2 -> 2 <= tally p l.
Proof.
  intros Hi H1 H2 P1 P2 Hne. assert (H2' : <[t1 := idle_thread]> l !! t2 = Some x2) by (by rewrite list_lookup_insert_ne).
  pose proof (tally_insert p l t1 x1 idle_thread H1) as E. pose proof (tally_insert p _ t2 x2 idle_thread H2') as E2.
  pose proof (tally_bounds p (<[t2 := idle_thread]> (<[t1 := idle_thread]> l))). rewrite Hi, P1 in E. rewrite Hi, P2 in E2. cbn in E, E2. lia.
Qed.

Lemma wake_lookup l w t : wake_up_process l w !! t = if decide (t = w) then (fun x => set_state x TASK_RUNNING) <$> (l !! t) else l !! t.
Proof.
  unfold wake_up_process. destruct (decide (t = w)) as [->|]; [apply list_lookup_alter_eq | by apply list_lookup_alter_ne].
Qed.

(** ** The invariant *)

Record inv (c : conf) : Prop := mk_inv {
  inv_owner : tally owner (threads c) = if count (lk c) =? 1 then 0 else 1;
  inv_count : - 1 - tally counted (threads c) <= count (lk c) <= 1;
  inv_lock t : wait_lock (lk c) = Some t <-> exists x, threads c !! t = Some x /\ locked x = true;
  inv_nodup : NoDup (wait_list (lk c));
  inv_list t : t ∈ wait_list (lk c) <-> exists x, threads c !! t = Some x /\ waiting x = true;
  inv_wakeup : wait_list (lk c) = [] \/ count (lk c) < 0 \/ (exists t x, threads c !! t = Some x /\ awake x = true) \/
    exists t x, threads c !! t = Some x /\ unlocking x = true;
  inv_running t x : threads c !! t = Some x -> at_ x = L_unlock \/ at_ x = L_schedule \/ state x = TASK_RUNNING;
  inv_returned t x : threads c !! t = Some x -> returned x }.

Lemma inv_set c t x l' x' : inv c -> threads c !! t = Some x ->
  (if count l' =? 1 then 0 else 1) = (if count (lk c) =? 1 then 0 else 1) - Z.b2z (owner x) + Z.b2z (owner x') ->
  - 1 - (tally counted (threads c) - Z.b2z (counted x) + Z.b2z (counted x')) <= count l' <= 1 ->
  wait_lock l' = (if locked x' then Some t else if locked x then None else wait_lock (lk c)) ->
  (locked x' = true -> locked x = true \/ wait_lock (lk c) = None) ->
  wait_list l' = (if waiting x' then if waiting x then wait_list (lk c) else wait_list (lk c) ++ [t]
                  else if waiting x then filter (fun w => w <> t) (wait_list (lk c)) else wait_list (lk c)) ->
  wait_list l' = [] \/ count l' < 0 \/ awake x' = true \/ unlocking x' = true \/
    (awake x = false /\ unlocking x = false /\ wait_list (lk c) <> [] /\ (count (lk c) < 0 -> count l' < 0)) \/
    (exists w xw, w <> t /\ threads c !! w = Some xw /\ awake xw = true) ->
  at_ x' = L_unlock \/ at_ x' = L_schedule \/ state x' = TASK_RUNNING -> returned x' ->
  inv (mk_conf l' (<[t := x']> (threads c))).
Proof.
  intros [Ho Hc Hl Hnd Hw Hj Hs Hr] Hx Ho' Hc' Hl' Hl2 Hw' Hj' Hs' Hr'.
  assert (Hlt : (t < length (threads c))%nat) by (by eapply lookup_lt_Some).
  assert (Hsame : forall (p : thread -> bool) t', t' <> t -> (exists y, <[t := x']> (threads c) !! t' = Some y /\ p y = true) <->
      exists y, threads c !! t' = Some y /\ p y = true) by (intros p t' Hne; by rewrite list_lookup_insert_ne).
  assert (Hself : forall p : thread -> bool, (exists y, <[t := x']> (threads c) !! t = Some y /\ p y = true) <-> p x' = true).
  { intros p. rewrite list_lookup_insert_eq by done. split; [intros (y & [= <-] & H); done | by exists x']. }
  assert (Hold : forall p : thread -> bool, (exists y, threads c !! t = Some y /\ p y = true) <-> p x = true).
  { intros p. rewrite Hx. split; [intros (y & [= <-] & H); done | by exists x]. }
  split; cbn [lk threads].
  - rewrite (tally_insert _ _ _ _ _ Hx), Ho. lia.
  - rewrite (tally_insert _ _ _ _ _ Hx). lia.
  - intros t'. destruct (decide (t' = t)) as [->|Hne].
    + rewrite Hself, Hl'. destruct (locked x'); [done|]. destruct (locked x) eqn:E; [done|]. split; [|done].
      intros H%Hl%Hold. congruence.
    + rewrite (Hsame _ _ Hne), <-Hl, Hl'. destruct (locked x') eqn:E'; [|destruct (locked x) eqn:E].
      * split; [congruence|]. intros H. destruct (Hl2 eq_refl) as [E|E]; [|congruence]. apply Hold, Hl in E. congruence.
      * split; [done|]. intros H. apply Hold, Hl in E. congruence.
      * done.
  - rewrite Hw'. destruct (waiting x'), (waiting x) eqn:E; try done; [|by apply NoDup_filter].
    apply NoDup_app. split; [done|]. split; [|apply NoDup_singleton]. intros y Hy Hy'%list_elem_of_singleton. subst y.
    apply Hw, Hold in Hy. congruence.
  - intros t'. rewrite Hw'. destruct (decide (t' = t)) as [->|Hne].
    + rewrite Hself. destruct (waiting x') eqn:E', (waiting x) eqn:E.
      * rewrite Hw, Hold, E. done.
      * split; [done|]. intros _. apply elem_of_app. right. left.
      * rewrite list_elem_of_filter. split; [intros [? _]; done | done].
      * rewrite Hw, Hold, E. done.
    + rewrite (Hsame _ _ Hne), <-Hw. destruct (waiting x'), (waiting x); try done.
      * rewrite elem_of_app, list_elem_of_singleton. tauto.
      * rewrite list_elem_of_filter. tauto.
  - destruct Hj' as [H|[H|[H|[H|[(Ha & Hu & Hn & Hcc)|(w & xw & Hne & Hwx & Haw)]]]]]; [by left | right; by left | | | |].
    + right; right; left. exists t. by apply Hself.
    + right; right; right. exists t. by apply Hself.
    + assert (Hkeep : forall p : thread -> bool, p x = false -> (exists t0 y, threads c !! t0 = Some y /\ p y = true) ->
        exists t0 y, <[t := x']> (threads c) !! t0 = Some y /\ p y = true).
      { intros p Hp (t0 & y & Hy & Hpy). exists t0, y. split; [|done]. rewrite list_lookup_insert_ne; [done|]. intros ->. congruence. }
      destruct Hj as [H|[H|[H|H]]]; [done | right; left; by apply Hcc | right; right; left; by apply Hkeep | right; right; right; by apply Hkeep].
    + right; right; left. exists w, xw. by rewrite list_lookup_insert_ne.
  - intros t' y. destruct (decide (t' = t)) as [->|Hne]; [rewrite list_lookup_insert_eq by done; by intros [= <-] |].
    rewrite list_lookup_insert_ne by done. apply Hs.
  - intros t' y. destruct (decide (t' = t)) as [->|Hne]; [rewrite list_lookup_insert_eq by done; by intros [= <-] |].
    rewrite list_lookup_insert_ne by done. apply Hr.
Qed.

Lemma inv_init n : inv (init n).
Proof.
  assert (Hno : forall (p : thread -> bool), p idle_thread = false -> forall t x, threads (init n) !! t = Some x -> p x = true -> False).
  { intros p Hp t x Hx. apply lookup_replicate in Hx as [-> _]. congruence. }
  assert (Hz : forall p, p idle_thread = false -> tally p (threads (init n)) = 0).
  { intros p Hp. unfold init. cbn [threads]. clear -Hp. induction n as [|n IH]; [done|]. unfold tally in *. cbn [replicate total]. by rewrite IH, Hp. }
  split; cbn [lk init __mutex_init count wait_lock wait_list].
  - by rewrite Hz.
  - rewrite Hz by done. lia.
  - intros t. split; [done|]. intros (x & Hx & Hl). by destruct (Hno locked eq_refl t x Hx Hl).
  - constructor.
  - intros t. split; [by intros ?%elem_of_nil|]. intros (x & Hx & Hl). by destruct (Hno waiting eq_refl t x Hx Hl).
  - by left.
  - intros t x [-> _]%lookup_replicate. tauto.
  - intros t x [-> _]%lookup_replicate. left. done.
Qed.

(** Waking a task, or a signal that does, changes no count, and more tasks are awake. *)
Lemma inv_wake c w : inv c -> inv (mk_conf (lk c) (wake_up_process (threads c) w)).
Proof.
  intros Hi. destruct (threads c !! w) as [x|] eqn:Hx.
  - assert (E : wake_up_process (threads c) w = <[w := set_state x TASK_RUNNING]> (threads c)).
    { apply list_eq. intros i. rewrite wake_lookup. assert (Hlt : (w < length (threads c))%nat) by (by eapply lookup_lt_Some).
      destruct (decide (i = w)) as [->|]; [by rewrite Hx, list_lookup_insert_eq | by rewrite list_lookup_insert_ne]. }
    rewrite E. apply (inv_set c w x); try done.
    + change (owner (set_state x TASK_RUNNING)) with (owner x). lia.
    + change (counted (set_state x TASK_RUNNING)) with (counted x). pose proof (inv_count c Hi). lia.
    + change (locked (set_state x TASK_RUNNING)) with (locked x). destruct (locked x) eqn:El; [|done]. apply (inv_lock c Hi). by exists x.
    + change (locked (set_state x TASK_RUNNING)) with (locked x). by left.
    + change (waiting (set_state x TASK_RUNNING)) with (waiting x). by destruct (waiting x).
    + change (unlocking (set_state x TASK_RUNNING)) with (unlocking x).
      destruct (decide (wait_list (lk c) = [])); [by left|]. destruct (awake x) eqn:Ea.
      * right; right; left. unfold awake in *. cbn. by destruct (at_ x).
      * destruct (unlocking x) eqn:Eu; [do 3 right; by left|]. do 4 right. left. done.
    + cbn. tauto.
    + exact (inv_returned c Hi w x Hx).
  - assert (E : wake_up_process (threads c) w = threads c).
    { apply list_eq. intros i. rewrite wake_lookup. destruct (decide (i = w)) as [->|]; [by rewrite Hx | done]. }
    rewrite E. by destruct c.
Qed.

Lemma inv_owned c t x : inv c -> threads c !! t = Some x -> owner x = true -> count (lk c) <= 0.
Proof.
  intros Hi Hx Ho. pose proof (total_in (fun x => Z.b2z (owner x)) _ t x (fun y => b2z_nonneg (owner y)) Hx) as Hle. cbv beta in Hle.
  fold (tally owner (threads c)) in Hle. rewrite Ho, (inv_owner c Hi) in Hle. pose proof (inv_count c Hi).
  destruct (Z.eqb_spec (count (lk c)) 1); cbn in Hle; lia.
Qed.

(** Every step keeps the number of tasks. *)
Lemma exec_length t a c c' : exec t a c = Some c' -> length (threads c') = length (threads c).
Proof.
  unfold exec. intros H. apply bind_Some in H as (x & Hx & H). cbv zeta in H.
  assert (Hwake : forall l w, length (wake_up_process l w) = length l) by (intros l w; apply length_alter).
  destruct a as [[]| |ok| |]; destruct (at_ x); try discriminate H;
    first [ injection H as <-; cbn; rewrite length_insert; try done; unfold wake_first; by destruct (wait_list (lk c))
          | apply bind_Some in H as ([l y] & _ & [= <-]); cbn; by rewrite length_insert ].
Qed.

(** The shared part of the steps: the facts about the task that moves, and the
    conditions of [inv_set]. *)
Ltac by_cases :=
  repeat match goal with
  | |- context [?a =? ?b] => destruct (Z.eqb_spec a b)
  | |- context [?a <? ?b] => destruct (Z.ltb_spec a b)
  | |- context [bool_decide ?P] => destruct (bool_decide_reflect P)
  end.
Ltac wakeup :=
  first [ by left | right; left; cbn; lia | right; right; left; done | do 3 right; left; done
        | match goal with c : conf |- _ => destruct (decide (wait_list (lk c) = [])) as [->|]; [by left|] end;
          do 4 right; left; split_and!; [done | done | done | cbn; lia] ].
Ltac settle :=
  match goal with
  | Hi : inv ?c, Hx : threads ?c !! ?t = Some ?x |- inv (mk_conf _ _) =>
    apply (inv_set c t x); [exact Hi | exact Hx | ..]; cbn;
    [ by_cases; lia | lia | auto | try done; auto | done | wakeup | intuition congruence | intuition congruence ]
  end.

Lemma run_inv ok c t x l' x' : inv c -> zlen (threads c) < 2 ^ 31 - 1 -> threads c !! t = Some x -> task_step ok t (lk c) x = Some (l', x') ->
  inv (mk_conf l' (<[t := x']> (threads c))).
Proof.
  intros Hi Hlen Hx H. pose proof (inv_count c Hi) as Hc. pose proof (tally_bounds counted (threads c)) as Hnc.
  pose proof (inv_owned c t x Hi Hx) as Ho. pose proof (inv_returned c Hi t x Hx) as Hr. pose proof (inv_running c Hi t x Hx) as Hs.
  assert (Hk : counted x = true -> 1 <= tally counted (threads c)).
  { intros E. pose proof (total_in (fun x => Z.b2z (counted x)) _ t x (fun y => b2z_nonneg (counted y)) Hx) as Hle. cbv beta in Hle. by rewrite E in Hle. }
  assert (Hlk : locked x = true -> wait_lock (lk c) = Some t) by (intros E; apply (inv_lock c Hi); by exists x).
  destruct x as [p o r s pd]. unfold task_step, lock_step, unlock_step, trylock_step in H. destruct p; cbn in H, Ho, Hr, Hs, Hk, Hlk; try discriminate H.
  - unfold __mutex_fastpath_lock in H. rewrite s32_small in H by lia.
    assert (Hres : Z.lor (count (lk c) - 1) (ex_flag ok) = 0 <-> count (lk c) = 1 /\ ok = true).
    { rewrite Z.lor_eq_0_iff. destruct ok; cbn; split; intros [? ?]; split; try done; lia. }
    destruct (Z.eqb_spec (Z.lor (count (lk c) - 1) (ex_flag ok)) 0) as [E|E]; rewrite Hres in E; injection H as <- <-.
    + destruct E as [E ->]. settle.
    + destruct ok; settle.
  - unfold spin_lock in H. destruct (wait_lock (lk c)) eqn:El; [discriminate H|]. cbn in H. injection H as <- <-. settle.
  - injection H as <- <-. settle.
  - injection H as <- <-. specialize (Hk eq_refl). destruct (Z.eqb_spec (count (lk c)) 1); settle.
  - injection H as <- <-. destruct (Z.eqb_spec (count (lk c)) 1); settle.
  - destruct ((_ =? _) && pd) eqn:E; injection H as <- <-; [|settle].
    unfold sleep_state in E. destruct Hr as [-> | ->]; [discriminate E | settle].
  - injection H as <- <-. settle.
  - destruct (Z.eqb_spec s TASK_RUNNING) as [->|]; [|discriminate H]. injection H as <- <-. settle.
  - unfold spin_lock in H. destruct (wait_lock (lk c)) eqn:El; [discriminate H|]. cbn in H. injection H as <- <-. settle.
  - injection H as <- <-. settle.
  - specialize (Ho eq_refl). case_bool_decide; injection H as <- <-; settle.
  - injection H as <- <-. settle.
  - injection H as <- <-. settle.
  - injection H as <- <-. settle.
  - specialize (Ho eq_refl). unfold __mutex_fastpath_unlock in H. rewrite s32_small in H by lia.
    assert (Hres : Z.lor (count (lk c)) (ex_flag ok) = 0 <-> count (lk c) = 0 /\ ok = true).
    { rewrite Z.lor_eq_0_iff. destruct ok; cbn; split; intros [? ?]; split; try done; lia. }
    destruct (Z.eqb_spec (Z.lor (count (lk c)) (ex_flag ok)) 0) as [E|E]; rewrite Hres in E; injection H as <- <-.
    + destruct E as [E ->]. settle.
    + destruct ok; settle.
  - unfold spin_lock in H. destruct (wait_lock (lk c)) eqn:El; [discriminate H|]. cbn in H. injection H as <- <-. settle.
  - injection H as <- <-. specialize (Ho eq_refl). settle.
  - injection H as <- <-. settle.
  - unfold __mutex_fastpath_trylock in H. destruct (Z.ltb_spec (count (lk c)) 1); [|destruct (Z.eqb_spec (count (lk c)) 1); [destruct ok|]];
      injection H as <- <-; settle.
Qed.

(** The first waiter of an unlocker sleeps, or is about to: it is awake then. *)
Lemma first_awake c t x w rest : inv c -> threads c !! t = Some x -> at_ x = U_wake -> wait_list (lk c) = w :: rest ->
  exists xw, w <> t /\ threads c !! w = Some xw /\ awake (set_state xw TASK_RUNNING) = true.
Proof.
  intros Hi Hx Ep Hl. assert (Hlt : wait_lock (lk c) = Some t) by (apply (inv_lock c Hi); exists x; unfold locked; by rewrite Ep).
  assert (Hw : w ∈ wait_list (lk c)) by (rewrite Hl; left). apply (inv_list c Hi) in Hw as (xw & Hxw & Hwt).
  assert (Hne : w <> t) by (intros ->; rewrite Hx in Hxw; injection Hxw as <-; unfold waiting in Hwt; by rewrite Ep in Hwt).
  exists xw. split; [done|]. split; [done|]. destruct (locked xw) eqn:El.
  - assert (wait_lock (lk c) = Some w) by (apply (inv_lock c Hi); by exists xw). congruence.
  - destruct xw as [p o r s pd]. unfold waiting, locked, awake in *. cbn in *. by destruct p.
Qed.

Lemma wake_inv c t x : inv c -> threads c !! t = Some x -> at_ x = U_wake ->
  inv (mk_conf (lk c) (<[t := goto x U_out]> (wake_first (lk c) (threads c)))).
Proof.
  intros Hi Hx Ep. pose proof (inv_running c Hi t x Hx) as Hs. pose proof (inv_returned c Hi t x Hx) as Hr.
  assert (Hlt : wait_lock (lk c) = Some t) by (apply (inv_lock c Hi); exists x; unfold locked; by rewrite Ep).
  pose proof (inv_count c Hi) as Hc. unfold wake_first. destruct (wait_list (lk c)) as [|w rest] eqn:Hl.
  - destruct x as [p o r s pd]. cbn in Ep, Hs, Hr. subst p. cbn in Hs, Hr. settle.
  - destruct (first_awake c t x w rest Hi Hx Ep Hl) as (xw & Hne & Hxw & Ha).
    pose proof (inv_wake c w Hi) as Hi1. set (c1 := mk_conf (lk c) (wake_up_process (threads c) w)) in *.
    assert (Hx1 : threads c1 !! t = Some x) by (cbn; rewrite wake_lookup; by rewrite decide_False by done).
    assert (Hw1 : threads c1 !! w = Some (set_state xw TASK_RUNNING)) by (cbn; rewrite wake_lookup, decide_True by done; by rewrite Hxw).
    pose proof (inv_count c1 Hi1) as Hc1. change (mk_conf (lk c) (<[t := goto x U_out]> (wake_up_process (threads c) w)))
      with (mk_conf (lk c1) (<[t := goto x U_out]> (threads c1))). destruct x as [p o r s pd]. cbn in Ep. subst p. cbn in Hs, Hr.
    apply (inv_set c1 t _ _ _ Hi1 Hx1); cbn; try done; try lia; [cbn in Hc1; unfold tally in Hc1; lia | | intuition congruence].
    do 5 right. by exists w, (set_state xw TASK_RUNNING).
Qed.

Lemma exec_inv t a c c' : inv c -> zlen (threads c) < 2 ^ 31 - 1 -> exec t a c = Some c' -> inv c'.
Proof.
  intros Hi Hlen H. unfold exec in H. apply bind_Some in H as (x & Hx & H). cbv zeta in H.
  pose proof (inv_count c Hi) as Hc. pose proof (inv_running c Hi t x Hx) as Hs. pose proof (inv_returned c Hi t x Hx) as Hr.
  assert (Hlk : locked x = true -> wait_lock (lk c) = Some t) by (intros E; apply (inv_lock c Hi); by exists x).
  destruct a as [o'| |ok| |].
  - destruct x as [p o r s pd]. destruct o', p; try discriminate H; injection H as <-; cbn in *; settle.
  - destruct x as [p o r s pd]. destruct p; try discriminate H. injection H as <-. cbn in *. settle.
  - assert (at_ x = U_wake \/ exists l y, task_step ok t (lk c) x = Some (l, y) /\ c' = mk_conf l (<[t := y]> (threads c))) as [Ep|(l & y & E & ->)].
    { destruct (at_ x) eqn:Ep; try (by left); right; apply bind_Some in H as ([l y] & E & [= <-]); exists l, y; done. }
    + rewrite Ep in H. injection H as <-. by apply wake_inv.
    + by eapply run_inv.
  - destruct x as [p o r s pd]. cbn [at_ op ret state pending] in H. injection H as <-.
    set (s' := if s =? TASK_INTERRUPTIBLE then TASK_RUNNING else s).
    assert (Hss : s = s' \/ s' = TASK_RUNNING) by (unfold s'; destruct (s =? TASK_INTERRUPTIBLE); tauto).
    assert (Hs' : p = L_unlock \/ p = L_schedule \/ s' = TASK_RUNNING) by (destruct Hss as [<-|]; [exact Hs | tauto]).
    apply (inv_set c t _ _ _ Hi Hx); try done.
    + change (owner (mk_thread p o r s' true)) with (owner (mk_thread p o r s pd)). lia.
    + change (counted (mk_thread p o r s' true)) with (counted (mk_thread p o r s pd)). lia.
    + change (locked (mk_thread p o r s' true)) with (locked (mk_thread p o r s pd)). destruct (locked _) eqn:El; [by apply Hlk | done].
    + intros E. by left.
    + change (waiting (mk_thread p o r s' true)) with (waiting (mk_thread p o r s pd)). by destruct (waiting _).
    + destruct (decide (wait_list (lk c) = [])); [by left|]. destruct (awake (mk_thread p o r s pd)) eqn:Ea.
      * right; right; left. unfold awake in *. cbn in *. destruct p; try done. destruct Hss as [<-| ->]; done.
      * destruct (unlocking (mk_thread p o r s pd)) eqn:Eu; [do 3 right; by left|]. do 4 right. left. done.
  - destruct x as [p o r s pd]. destruct p; try discriminate H. injection H as <-. cbn in *. settle.
Qed.

Lemma reachable_inv n c : Z.of_nat n < 2 ^ 31 - 1 -> reachable n c -> inv c /\ length (threads c) = n.
Proof.
  intros Hn. induction 1 as [|c t a c' _ [IH Hl] H].
  - split; [apply inv_init|]. apply length_replicate.
  - split; [eapply exec_inv; [exact IH | by rewrite Hl | exact H] | by rewrite (exec_length _ _ _ _ H)].
Qed.

(** ** Progress *)

Lemma can_step c t x : inv c -> threads c !! t = Some x -> wait_lock (lk c) = None \/ locked x = true -> at_ x <> Idle ->
  (at_ x = L_schedule -> state x = TASK_RUNNING) -> exists c', finishing c c'.
Proof.
  intros Hi Hx Hl Hp Hs. unfold finishing. destruct (decide (at_ x = Owns)) as [Ho|Ho].
  - eexists _, t, Unlock. split; [by right|]. unfold exec. rewrite Hx. cbn. rewrite Ho. done.
  - assert (exists c', exec t (Run true) c = Some c') as [c' E]; [|exists c', t, (Run true); split; [by left | done]].
    unfold exec. rewrite Hx, some_bind. cbv zeta. unfold task_step, lock_step, unlock_step, trylock_step, spin_lock. destruct x as [p o r s pd]. cbn in *.
    destruct p; try done; try (eexists; reflexivity);
      try (destruct Hl as [->|]; [cbn; eexists; reflexivity | done]).
    + destruct ((_ =? _) && pd); eexists; reflexivity.
    + rewrite (Hs eq_refl). eexists. reflexivity.
    + unfold __mutex_fastpath_trylock. destruct (count (lk c) <? 1); [|destruct (count (lk c) =? 1)]; eexists; reflexivity.
Qed.

(** Unless all are idle, some task can go on: a sleeper never waits for a mutex
    that nobody will hand over. *)
Lemma progress c t x : inv c -> threads c !! t = Some x -> at_ x <> Idle -> exists c', finishing c c'.
Proof.
  intros Hi Hx Hp. destruct (wait_lock (lk c)) as [h|] eqn:Hl.
  - pose proof (proj1 (inv_lock c Hi h) Hl) as (y & Hy & Hly). apply (can_step c h y Hi Hy); [by right | |];
      unfold locked in Hly; by destruct (at_ y).
  - destruct (decide (at_ x = L_schedule /\ state x <> TASK_RUNNING)) as [[Hsch Hst]|Hn].
    + assert (Hw : t ∈ wait_list (lk c)) by (apply (inv_list c Hi); exists x; unfold waiting; by rewrite Hsch).
      assert (exists y t', threads c !! t' = Some y /\ (owner y = true \/ awake y = true \/ unlocking y = true)) as (y & t' & Hy & Hcase).
      { destruct (inv_wakeup c Hi) as [H|[H|[(t' & y & Hy & H)|(t' & y & Hy & H)]]].
        - rewrite H in Hw. by apply elem_of_nil in Hw.
        - pose proof (inv_owner c Hi) as Ho. destruct (Z.eqb_spec (count (lk c)) 1); [lia|].
          destruct (tally_some owner (threads c)) as (t' & y & Hy & H'); [lia|]. exists y, t'. tauto.
        - exists y, t'. tauto.
        - exists y, t'. tauto. }
      apply (can_step c t' y Hi Hy); [by left | |]; destruct y as [p o r s pd]; unfold owner, awake, unlocking in Hcase; cbn in *.
      * intros ->. destruct Hcase as [|[|]]; done.
      * intros ->. destruct Hcase as [|[H|]]; try done. by apply Z.eqb_eq in H.
    + apply (can_step c t x Hi Hx); [by left | done |]. intros Hs. destruct (decide (state x = TASK_RUNNING)); [done|]. tauto.
Qed.

(** Every finishing step uses up weight. *)
Lemma weight_nonneg x : 0 <= weight x <= 23.
Proof. unfold weight. destruct (at_ x); try lia; destruct (state x =? TASK_RUNNING); lia. Qed.

Lemma weight_wake l w : total weight (wake_up_process l w) <= total weight l + 5.
Proof.
  unfold wake_up_process. revert w. induction l as [|x l IH]; intros [|w]; [cbn; lia | cbn; lia | |].
  - change (alter ?f 0%nat (x :: l)) with (f x :: l). cbn [total].
    assert (weight (set_state x TASK_RUNNING) <= weight x + 5); [|lia].
    destruct x as [p o r s pd]. unfold weight. cbn. destruct p; try lia; destruct (s =? TASK_RUNNING); lia.
  - change (alter ?f (S w) (x :: l)) with (x :: alter f w l). cbn [total]. specialize (IH w). lia.
Qed.

Lemma step_weight c t x l' x' : inv c -> zlen (threads c) < 2 ^ 31 - 1 -> threads c !! t = Some x ->
  task_step true t (lk c) x = Some (l', x') -> weight x' < weight x.
Proof.
  intros Hi Hlen Hx H. pose proof (inv_count c Hi) as Hc. pose proof (tally_bounds counted (threads c)) as Hnc.
  pose proof (inv_returned c Hi t x Hx) as Hr. destruct x as [p o r s pd]. unfold task_step, lock_step, unlock_step, trylock_step, spin_lock in H. destruct p; cbn in H, Hr; try discriminate H.
  - destruct (_ =? 0); injection H as <- <-; cbn; lia.
  - destruct (wait_lock (lk c)); [discriminate H|]. cbn in H. injection H as <- <-. cbn. lia.
  - injection H as <- <-. cbn. lia.
  - injection H as <- <-. destruct (_ =? 1); cbn; lia.
  - injection H as <- <-. destruct (_ =? 1); cbn; lia.
  - destruct ((_ =? _) && pd); injection H as <- <-; cbn; [lia|]. unfold sleep_state. cbn. destruct Hr as [-> | ->]; cbn; lia.
  - injection H as <- <-. cbn. destruct (s =? TASK_RUNNING); lia.
  - destruct (s =? TASK_RUNNING) eqn:E; [|discriminate H]. injection H as <- <-. unfold weight. cbn. rewrite E. lia.
  - destruct (wait_lock (lk c)); [discriminate H|]. cbn in H. injection H as <- <-. cbn. lia.
  - injection H as <- <-. cbn. lia.
  - injection H as <- <-. cbn. lia.
  - injection H as <- <-. cbn. lia.
  - injection H as <- <-. cbn. lia.
  - injection H as <- <-. cbn. lia.
  - destruct (_ =? 0); injection H as <- <-; cbn; lia.
  - destruct (wait_lock (lk c)); [discriminate H|]. cbn in H. injection H as <- <-. cbn. lia.
  - injection H as <- <-. cbn. lia.
  - injection H as <- <-. cbn. lia.
  - unfold __mutex_fastpath_trylock in H. destruct (Z.ltb_spec (count (lk c)) 1); [|destruct (Z.eqb_spec (count (lk c)) 1); [|lia]];
      injection H as <- <-; cbn; lia.
Qed.

Lemma finishing_weight c c' : inv c -> zlen (threads c) < 2 ^ 31 - 1 -> finishing c c' -> total weight (threads c') < total weight (threads c).
Proof.
  intros Hi Hlen (t & a & [-> | ->] & H); unfold exec in H; apply bind_Some in H as (x & Hx & H); cbv zeta in H.
  - assert (at_ x = U_wake \/ exists l y, task_step true t (lk c) x = Some (l, y) /\ c' = mk_conf l (<[t := y]> (threads c))) as [Ep|(l & y & E & ->)].
    { destruct (at_ x) eqn:Ep; try (by left); right; apply bind_Some in H as ([l y] & E & [= <-]); exists l, y; done. }
    + rewrite Ep in H. injection H as <-. cbn [threads].
      assert (Hw : weight (goto x U_out) = 1 /\ weight x = 8) by (unfold weight; cbn; by rewrite Ep).
      assert (Hkeep : forall l, l !! t = Some x \/ (exists y, l !! t = Some y /\ at_ y = U_wake) -> total weight (<[t := goto x U_out]> l) = total weight l - 7).
      { intros l Hl. assert (exists y, l !! t = Some y /\ weight y = 8) as (y & Hy & Hwy).
        { destruct Hl as [Hl|(y & Hy & Hpy)]; [exists x; tauto | exists y; split; [done | unfold weight; by rewrite Hpy]]. }
        rewrite (total_insert weight l t y _ Hy). lia. }
      unfold wake_first. destruct (wait_list (lk c)) as [|w rest]; [rewrite Hkeep by (by left); lia|]. rewrite Hkeep; [pose proof (weight_wake (threads c) w); lia|].
      right. rewrite wake_lookup, Hx. destruct (decide (t = w)); [exists (set_state x TASK_RUNNING); done | exists x; done].
    + cbn [threads]. rewrite (total_insert weight _ _ _ _ Hx). pose proof (step_weight c t x l y Hi Hlen Hx E). lia.
  - destruct (at_ x) eqn:Ep; try discriminate H. injection H as <-. cbn [threads]. rewrite (total_insert weight _ _ _ _ Hx).
    unfold weight at 2 3. cbn. rewrite Ep. lia.
Qed.

(** ** The theorems *)

(** C8. Whatever calls any number of tasks make, with signals at any time and with
    failing conditional stores, however their steps interleave: at most one task
    has the mutex, the counter is 1 exactly when none has, it stays within bounds
    that exclude a wrap, a task outside the code has the mutex exactly when its
    last call said so, and wait_list has each waiter once. *)
Theorem mutex_excludes n c : Z.of_nat n < 2 ^ 31 - 1 -> reachable n c ->
  (forall t1 t2 x1 x2, threads c !! t1 = Some x1 -> threads c !! t2 = Some x2 -> owner x1 = true -> owner x2 = true -> t1 = t2) /\
  (mutex_is_locked (lk c) = true <-> exists t x, threads c !! t = Some x /\ owner x = true) /\
  - 1 - Z.of_nat n <= count (lk c) <= 1 /\ (forall t x, threads c !! t = Some x -> returned x) /\ NoDup (wait_list (lk c)).
Proof.
  intros Hn Hr. destruct (reachable_inv n c Hn Hr) as [Hi Hlen]. split_and!.
  - intros t1 t2 x1 x2 H1 H2 O1 O2. destruct (decide (t1 = t2)) as [|Hne]; [done|].
    pose proof (tally_two owner _ _ _ _ _ eq_refl H1 H2 O1 O2 Hne) as H. rewrite (inv_owner c Hi) in H. destruct (_ =? 1); lia.
  - unfold mutex_is_locked. pose proof (inv_owner c Hi) as Ho. destruct (Z.eqb_spec (count (lk c)) 1) as [E|E]; cbn.
    + split; [done|]. intros (t & x & Hx & Hox). pose proof (tally_none owner _ Ho t x Hx). congruence.
    + split; [|done]. intros _. apply tally_some. lia.
  - pose proof (inv_count c Hi). pose proof (tally_bounds counted (threads c)). lia.
  - apply (inv_count c Hi).
  - apply (inv_returned c Hi).
  - apply (inv_nodup c Hi).
Qed.

(** C9. No wakeup is lost: from every state the tasks can reach, when they only end
    their calls, with conditional stores that succeed, and release what they have,
    every run is finite, and it cannot stop
    before every task is outside and without the mutex; so no task sleeps for ever
    on a mutex that will not be handed to it. *)
Theorem mutex_drains n c : Z.of_nat n < 2 ^ 31 - 1 -> reachable n c ->
  (forall k c', nsteps finishing k c c' -> Z.of_nat k <= 23 * Z.of_nat n) /\
  ((~ exists c', finishing c c') -> count (lk c) = 1 /\ wait_list (lk c) = [] /\ forall t x, threads c !! t = Some x -> at_ x = Idle).
Proof.
  intros Hn Hr. split.
  - intros k c' Hk. assert (Z.of_nat k <= total weight (threads c)).
    { revert Hr. induction Hk as [c|k c c1 c' H1 Hk IH]; intros Hr; [apply total_nonneg; intros x; apply weight_nonneg|].
      destruct (reachable_inv n c Hn Hr) as [Hi Hlen]. pose proof (finishing_weight c c1 Hi ltac:(lia) H1).
      destruct H1 as (t & a & _ & H1). specialize (IH ltac:(by eapply reach_step)). lia. }
    destruct (reachable_inv n c Hn Hr) as [_ Hlen]. pose proof (total_le weight 23 (threads c) (fun x => proj2 (weight_nonneg x))). lia.
  - intros Hstop. destruct (reachable_inv n c Hn Hr) as [Hi _].
    assert (Hidle : forall t x, threads c !! t = Some x -> at_ x = Idle).
    { intros t x Hx. destruct (decide (at_ x = Idle)); [done|]. exfalso. by eapply Hstop, progress. }
    assert (Hno : forall p : thread -> bool, (forall x, at_ x = Idle -> p x = false) -> ~ exists t x, threads c !! t = Some x /\ p x = true).
    { intros p Hp (t & x & Hx & Hpx). rewrite Hp in Hpx; [done | by eapply Hidle]. }
    split; [|split; [|done]].
    + pose proof (inv_owner c Hi) as Ho. destruct (Z.eqb_spec (count (lk c)) 1); [done|]. exfalso.
      apply (Hno owner); [intros x Hx; unfold owner; by rewrite Hx | apply tally_some; lia].
    + destruct (wait_list (lk c)) as [|w l] eqn:El; [done|]. exfalso.
      apply (Hno waiting); [intros x Hx; unfold waiting; by rewrite Hx | exists w; apply (inv_list c Hi); rewrite El; left].
Qed.

(** Task 0 has the mutex; task 1 has called mutex_lock_interruptible and sleeps. *)
Fixpoint exec_all (l : list (nat * act)) (c : conf) : option conf :=
  match l with [] => Some c | (t, a) :: l => c ← exec t a c; exec_all l c end.

Lemma exec_all_reachable n l c c' : reachable n c -> exec_all l c = Some c' -> reachable n c'.
Proof.
  revert c. induction l as [|[t a] l IH]; intros c Hr; cbn [exec_all]; [by intros [= <-]|].
  intros H. apply bind_Some in H as (c1 & H1 & H). eapply IH; [by eapply reach_step | done].
Qed.

Definition contended : conf :=
  mk_conf (mk_mutex (-1) None [1%nat])
    [mk_thread Owns Lock 0 TASK_RUNNING false; mk_thread L_schedule LockInterruptible 0 TASK_INTERRUPTIBLE false].

Lemma contended_reachable : reachable 2 contended.
Proof.
  apply (exec_all_reachable 2 ([(0%nat, Call Lock); (0%nat, Run true); (1%nat, Call LockInterruptible)] ++ replicate 7 (1%nat, Run true)) (init 2));
    [apply reach_init | reflexivity].
Qed.

(** A signal, or the release, wakes the sleeper. *)
Example signal_interrupts : option_map threads (exec_all ([(1%nat, Signal)] ++ replicate 6 (1%nat, Run true)) contended) =
  Some [mk_thread Owns Lock 0 TASK_RUNNING false; mk_thread Idle LockInterruptible (-4) TASK_RUNNING true].
Proof. vm_compute. reflexivity. Qed.
Example release_hands_over :
  option_map threads (exec_all ([(0%nat, Unlock)] ++ replicate 5 (0%nat, Run true) ++ replicate 6 (1%nat, Run true)) contended) =
  Some [mk_thread Idle Release 0 TASK_RUNNING false; mk_thread Owns LockInterruptible 0 TASK_RUNNING false].
Proof. vm_compute. reflexivity. Qed.

Lemma mutex_excludes_witness : mutex_is_locked (lk contended) = true /\
  (mutex_is_locked (lk contended) = true <-> exists t x, threads contended !! t = Some x /\ owner x = true).
Proof. split; [reflexivity | apply (mutex_excludes 2 contended); [lia | exact contended_reachable]]. Defined.

Lemma mutex_drains_witness : reachable 2 contended /\ forall k c', nsteps finishing k contended c' -> Z.of_nat k <= 46.
Proof. split; [exact contended_reachable | apply (mutex_drains 2 contended); [lia | exact contended_reachable]]. Defined.
