(* ===== verification/Params.v ===== *)
(** * Module and command line parameters (kernel/params.c)

    The arguments are one buffer of characters that the parser cuts up in place; a
    pointer into it is an offset.  The variables that the parameters set are cells
    of a memory, one per variable, array element or character, addressed by
    kp->arg; a store to an address that is not there gives [None].  Messages are
    not modelled, and the handlers are functions on the buffer and the memory. *)

From Stdlib Require Import Ascii String.
From S2P Require Import Prelude Ctype StringLib Strtol Vsprintf TextSearch Cmdline.

#[local] Open Scope char_scope.
#[local] Open Scope Z_scope.

Definition ENOSPC : Z := 28.

(** ** Setting variables *)

Abbreviation vars := (gmap Z Z).
Definition store (m : vars) (a v : Z) : option vars := _ ← m !! a; Some (<[a := v]> m).

(** A set function, given val (NULL is [None]): the result, the buffer and the
    memory after it.  A get function: what it leaves in its buffer, of address
    [addr], and the length. *)
Abbreviation setter := (list Z -> option Z -> vars -> option (Z * list Z * vars)).
Abbreviation getter := (Z -> list Z -> vars -> option (list Z * Z)).

(** STANDARD_PARAM_DEF *)
Definition param_set_std (type_cast : Z -> Z) (strtolfn : list Z -> Z -> option (Z * list Z)) (arg : Z) : setter := fun b val m =>
  match val with
  | None => Some (- EINVAL, b, m)
  | Some p =>
    let val := drop (Z.to_nat p) b in
    '(l, endp) ← strtolfn val 0;
    if (zlen endp =? zlen val) || negb (type_cast l =? l) then Some (- EINVAL, b, m) else
    m ← store m arg (type_cast l);
    Some (0, b, m)
  end.
Definition param_get_std (format : String.string) (arg : Z) : getter := fun addr buffer m =>
  v ← m !! arg;
  '(buffer, n, _) ← sprintf addr buffer (cstr format) [VWord v];
  Some (buffer, n).

Definition param_set_byte := param_set_std u8 simple_strtoul.
Definition param_set_short := param_set_std s16 simple_strtol.
Definition param_set_ushort := param_set_std u16 simple_strtoul.
Definition param_set_int := param_set_std s32 simple_strtol.
Definition param_set_uint := param_set_std u32 simple_strtoul.
Definition param_set_long := param_set_std s32 simple_strtol.
Definition param_set_ulong := param_set_std u32 simple_strtoul.
Definition param_get_byte := param_get_std "%c".
Definition param_get_short := param_get_std "%hi".
Definition param_get_ushort := param_get_std "%hu".
Definition param_get_int := param_get_std "%i".
Definition param_get_uint := param_get_std "%u".
Definition param_get_long := param_get_std "%li".
Definition param_get_ulong := param_get_std "%lu".

(** The pointer is stored. *)
Definition param_set_charp (arg : Z) : setter := fun b val m =>
  match val with
  | None => Some (- EINVAL, b, m)
  | Some p =>
    n ← strlen (drop (Z.to_nat p) b);
    if 1024 <? n then Some (- ENOSPC, b, m) else
    m ← store m arg p;
    Some (0, b, m)
  end.
(** The string is in the buffer [b]. *)
Definition param_get_charp (b : list Z) (arg : Z) : getter := fun addr buffer m =>
  p ← m !! arg;
  '(buffer, n, _) ← sprintf addr buffer (cstr "%s") [VStr (Some (drop (Z.to_nat p) b))];
  Some (buffer, n).

Definition param_set_bool (arg : Z) : setter := fun b val m =>
  c ← match val with None => Some (ch "1") | Some p => rd b p end;
  if existsb (Z.eqb c) [ch "y"; ch "Y"; ch "1"] then m ← store m arg 1; Some (0, b, m)
  else if existsb (Z.eqb c) [ch "n"; ch "N"; ch "0"] then m ← store m arg 0; Some (0, b, m)
  else Some (- EINVAL, b, m).
Definition param_get_bool (arg : Z) : getter := fun addr buffer m =>
  v ← m !! arg;
  '(buffer, n, _) ← sprintf addr buffer (cstr "%c") [VWord (if negb (v =? 0) then ch "Y" else ch "N")];
  Some (buffer, n).
(** The local [boolval] is the one cell of [dummy]. *)
Definition param_set_invbool (arg : Z) : setter := fun b val m =>
  '(ret, b, dummy) ← param_set_bool 0 b val {[ 0 := 0 ]};
  if negb (ret =? 0) then Some (ret, b, m) else
  boolval ← dummy !! 0;
  m ← store m arg (if boolval =? 0 then 1 else 0);
  Some (ret, b, m).
Definition param_get_invbool (arg : Z) : getter := fun addr buffer m =>
  v ← m !! arg;
  '(buffer, n, _) ← sprintf addr buffer (cstr "%c") [VWord (if negb (v =? 0) then ch "N" else ch "Y")];
  Some (buffer, n).

(** ** Arrays and strings *)

(** struct kparam_array: [num] is NULL or the address of the count. *)
Record kparam_array := mk_array { max : Z; num : option Z; set : Z -> setter; get : Z -> getter; elemsize : Z; elem : Z }.

(** One round: the buffer, val, kp.arg, *num and the memory. *)
Definition array_step (arr : kparam_array) (st : list Z * Z * Z * Z * vars) :
    option (list Z * Z * Z * Z * vars + Z * list Z * Z * vars) :=
  let '(b, val, arg, n, m) := st in
  if n =? max arr then Some (inr (- EINVAL, b, n, m)) else
  len ← strcspn (drop (Z.to_nat val) b) (cstr ",");
  save ← rd b (val + len);
  b ← wr b (val + len) 0;
  '(ret, b, m) ← set arr arg b (Some val) m;
  if negb (ret =? 0) then Some (inr (ret, b, n, m)) else
  m ← match num arr with None => Some m | Some a => store m a (n + 1) end;
  let st := (b, val + (len + 1), arg + elemsize arr, n + 1, m) in
  Some (if save =? ch "," then inl st else inr (0, b, n + 1, m)).
Definition param_array (min : Z) (arr : kparam_array) : setter := fun b val m =>
  match val with
  | None => Some (- EINVAL, b, m)
  | Some val =>
    m ← match num arr with None => Some m | Some a => store m a 0 end;
    '(ret, b, n, m) ← run 32 (array_step arr) (b, val, elem arr, 0, m);
    Some (if (ret =? 0) && (n <? min) then - EINVAL else ret, b, m)
  end.
Definition param_array_set (arr : kparam_array) : setter := param_array 1 arr.

(** The loop, at element [i]; [buffer] is what is left of the page. *)
Fixpoint array_get_loop (k : nat) (arr : kparam_array) (i addr : Z) (buffer : list Z) (m : vars) (off : Z) : option (list Z * Z) :=
  match k with
  | O => b ← wr buffer off 0; Some (b, off)
  | S k =>
    '(buffer, off) ← (if i =? 0 then Some (buffer, off) else b ← wr buffer off (ch ","); Some (b, off + 1));
    '(rest, ret) ← get arr (elem arr + elemsize arr * i) (addr + off) (drop (Z.to_nat off) buffer) m;
    let buffer := take (Z.to_nat off) buffer ++ rest in
    if ret <? 0 then Some (buffer, ret) else array_get_loop k arr (i + 1) addr buffer m (off + ret)
  end.
Definition param_array_get (arr : kparam_array) : getter := fun addr buffer m =>
  n ← match num arr with None => Some (max arr) | Some a => m !! a end;
  array_get_loop (Z.to_nat n) arr 0 addr buffer m 0.

(** struct kparam_string: [str] is the address of the first character. *)
Record kparam_string := mk_string { maxlen : Z; str : Z }.
Fixpoint store_string (m : vars) (a : Z) (s : list Z) : option vars :=
  match s with [] => Some m | c :: s => m ← store m a c; store_string m (a + 1) s end.
Fixpoint load_string (fuel : nat) (m : vars) (a : Z) : option (list Z) :=
  match fuel with
  | O => None
  | S fuel => c ← m !! a; if c =? 0 then Some [0] else s ← load_string fuel m (a + 1); Some (c :: s)
  end.
Definition param_set_copystring (kps : kparam_string) : setter := fun b val m =>
  match val with
  | None => Some (- EINVAL, b, m)
  | Some p =>
    n ← strlen (drop (Z.to_nat p) b);
    if maxlen kps <? n + 1 then Some (- ENOSPC, b, m) else
    m ← store_string m (str kps) (slice p n b ++ [0]);
    Some (0, b, m)
  end.
Definition param_get_string (kps : kparam_string) : getter := fun addr buffer m =>
  s ← load_string (S (size m)) m (str kps);
  strlcpy buffer s (maxlen kps).

(** ** Parsing *)

Record kernel_param := mk_param { name : list Z; kp_set : setter }.

Definition dash2underscore (c : Z) : Z := if c =? ch "-" then ch "_" else c.
Fixpoint parameq (input paramname : list Z) : option bool :=
  c ← deref input;
  d ← deref paramname;
  if dash2underscore c =? d then
    if c =? 0 then Some true else
    match input with [] => None | _ :: input => parameq input (tail paramname) end
  else Some false.

(** [handle_unknown] gets param and val. *)
Fixpoint parse_one (b : list Z) (param : Z) (val : option Z) (params : list kernel_param)
    (handle_unknown : option (Z -> setter)) (m : vars) : option (Z * list Z * vars) :=
  match params with
  | [] => match handle_unknown with Some f => f param b val m | None => Some (- ENOENT, b, m) end
  | kp :: params =>
    e ← parameq (drop (Z.to_nat param) b) (name kp);
    if (e : bool) then kp_set kp b val m else parse_one b param val params handle_unknown m
  end.

(** The characters of one argument: where it ends, and its first equals sign. *)
Fixpoint arg_end (s : list Z) (i equals : Z) (in_quote : bool) : option (Z * Z) :=
  match s with
  | [] => None
  | c :: s =>
    if (c =? 0) || ((c =? ch " ") && negb in_quote) then Some (i, equals) else
    arg_end s (i + 1) (if equals =? 0 then if c =? ch "=" then i else 0 else equals)
      (if c =? 34 then negb in_quote else in_quote)
  end.
Fixpoint skip_spaces (s : list Z) (next : Z) : option Z :=
  match s with [] => None | c :: s => if c =? ch " " then skip_spaces s (next + 1) else Some next end.

(** A closing quote before [e] becomes the end of the string. *)
Definition drop_quote (b : list Z) (e : Z) : option (list Z) := c ← rd b (e - 1); if c =? 34 then wr b (e - 1) 0 else Some b.
Definition arg_value (b : list Z) (args equals i : Z) (quoted : bool) : option (list Z * option Z) :=
  if equals =? 0 then Some (b, None) else
  b ← wr b (args + equals) 0;
  let val := args + equals + 1 in
  c ← rd b val;
  '(b, val) ← (if c =? 34 then b ← drop_quote b (args + i); Some (b, val + 1) else Some (b, val));
  b ← (if (quoted : bool) then drop_quote b (args + i) else Some b);
  Some (b, Some val).
(** The buffer, param, val and the start of the next argument. *)
Definition next_arg (b : list Z) (args : Z) : option (list Z * Z * option Z * Z) :=
  c ← rd b args;
  let quoted := c =? 34 in
  let args := if quoted then args + 1 else args in
  '(i, equals) ← arg_end (drop (Z.to_nat args) b) 0 0 quoted;
  '(b, val) ← arg_value b args equals i quoted;
  c ← rd b (args + i);
  '(b, next) ← (if negb (c =? 0) then b ← wr b (args + i) 0; Some (b, args + i + 1) else Some (b, args + i));
  next ← skip_spaces (drop (Z.to_nat next) b) next;
  Some (b, args, val, next).

Definition args_step (params : list kernel_param) (unknown : option (Z -> setter)) (st : list Z * Z * vars) :
    option (list Z * Z * vars + Z * list Z * vars) :=
  let '(b, args, m) := st in
  c ← rd b args;
  if c =? 0 then Some (inr (0, b, m)) else
  '(b, param, val, args) ← next_arg b args;
  '(ret, b, m) ← parse_one b param val params unknown m;
  Some (if ret =? 0 then inl (b, args, m) else inr (ret, b, m)).
Definition parse_args (b : list Z) (args : Z) (params : list kernel_param) (unknown : option (Z -> setter)) (m : vars) :
    option (Z * list Z * vars) :=
  args ← skip_spaces (drop (Z.to_nat args) b) args;
  run 32 (args_step params unknown) (b, args, m).

(** ** What the text of the arguments means *)

(** name, name=value, name="value" and "name=value" *)
Inductive style := Bare | QuotedValue | Quoted.
Record arg := mk_arg { a_name : list Z; a_value : option (list Z); a_style : style }.

Definition quote : Z := 34.
Definition plain (s : list Z) : Prop := Forall (fun c => is_u8 c /\ c <> 0 /\ c <> quote) s.
Definition arg_ok (a : arg) : Prop :=
  a_name a <> [] /\ plain (a_name a) /\ ch " " ∉ a_name a /\ ch "=" ∉ a_name a /\
  match a_value a with
  | None => a_style a = Bare
  | Some v => plain v /\ (a_style a = Bare -> ch " " ∉ v)
  end.
(** The text, and the text once it is cut up; the terminator after it is not part. *)
Definition arg_text (a : arg) : list Z :=
  match a_value a, a_style a with
  | None, _ => a_name a
  | Some v, Bare => a_name a ++ [ch "="] ++ v
  | Some v, QuotedValue => a_name a ++ [ch "="; quote] ++ v ++ [quote]
  | Some v, Quoted => [quote] ++ a_name a ++ [ch "="] ++ v ++ [quote]
  end.
Definition arg_cut (a : arg) : list Z :=
  match a_value a, a_style a with
  | None, _ => a_name a
  | Some v, Bare => a_name a ++ [0] ++ v
  | Some v, QuotedValue => a_name a ++ [0; quote] ++ v ++ [0]
  | Some v, Quoted => [quote] ++ a_name a ++ [0] ++ v ++ [0]
  end.
(** Where the name and the value start. *)
Definition name_at (a : arg) (pos : Z) : Z := match a_style a with Quoted => pos + 1 | _ => pos end.
Definition value_at (a : arg) (pos : Z) : option (Z * list Z) :=
  match a_value a with
  | None => None
  | Some v =>
    Some (pos + zlen (a_name a) + match a_style a with Bare => 1 | QuotedValue => 2 | Quoted => if bool_decide (v = []) then 3 else 2 end, v)
  end.
(** Arguments with the numbers of spaces after them, at least one between two. *)
Fixpoint args_text (l : list (arg * nat)) : list Z :=
  match l with
  | [] => []
  | (a, k) :: l => arg_text a ++ replicate (match l with [] => k | _ => S k end) (ch " ") ++ args_text l
  end.

(** The string a setter is given, and what a setter makes of it: the buffer is kept
    outside of the string. *)
Definition reads (b : list Z) (val : option Z) (v : option (Z * list Z)) : Prop :=
  match val, v with
  | None, None => True
  | Some p, Some (q, s) => q = p /\ 0 <= p /\ chars s /\ exists r, drop (Z.to_nat p) b = s ++ 0 :: r
  | _, _ => False
  end.
Definition kept (b b' : list Z) (v : option (Z * list Z)) : Prop :=
  match v with
  | None => b' = b
  | Some (p, s) => length b' = length b /\ take (Z.to_nat p) b' = take (Z.to_nat p) b /\
      drop (Z.to_nat (p + zlen s)) b' = drop (Z.to_nat (p + zlen s)) b
  end.
Abbreviation meaning := (option (Z * list Z) -> vars -> option (Z * vars)).
Class Sets (f : setter) (sem : meaning) := sets : forall b val v m r m', reads b val v -> sem v m = Some (r, m') ->
  exists b', f b val m = Some (r, b', m') /\ kept b b' v.

Record spec_param := mk_spec { sp_name : list Z; sp_set : setter; sp_sem : meaning; sp_chars : chars sp_name; sp_sets : Sets sp_set sp_sem }.
Definition to_param (p : spec_param) : kernel_param := mk_param (sp_name p ++ [0]) (sp_set p).

(** One argument, and all of them, up to the first error. *)
Fixpoint arg_sem (params : list spec_param) (unknown : list Z -> meaning) (n : list Z) : meaning := fun v m =>
  match params with
  | [] => unknown n v m
  | p :: params => if bool_decide (map dash2underscore n = sp_name p) then sp_sem p v m else arg_sem params unknown n v m
  end.
Fixpoint args_sem (params : list spec_param) (unknown : list Z -> meaning) (pos : Z) (l : list (arg * nat)) (m : vars) : option (Z * vars) :=
  match l with
  | [] => Some (0, m)
  | (a, k) :: l =>
    '(r, m) ← arg_sem params unknown (a_name a) (value_at a pos) m;
    if r =? 0 then args_sem params unknown (pos + zlen (arg_text a) + Z.of_nat (match l with [] => k | _ => S k end)) l m else Some (r, m)
  end.
(** The handler of unknown parameters. *)
Definition handles (unknown : option (Z -> setter)) (sem : list Z -> meaning) : Prop :=
  match unknown with
  | None => forall n v m, sem n v m = Some (- ENOENT, m)
  | Some f => forall b param n rest val v m r m', 0 <= param -> drop (Z.to_nat param) b = n ++ 0 :: rest -> chars n -> reads b val v ->
      sem n v m = Some (r, m') -> exists b', f param b val m = Some (r, b', m') /\ kept b b' v
  end.

(** ** One argument *)

Lemma plain_chars s : plain s -> chars s.
Proof. intros H. eapply Forall_impl; [exact H|]. cbn. tauto. Qed.

Lemma drop_pre {A} (pre t : list A) p : p = zlen pre -> drop (Z.to_nat p) (pre ++ t) = t.
Proof. intros ->. rewrite Nat2Z.id. apply drop_app_length. Qed.

Lemma arg_end_name w t i : plain w -> ch "=" ∉ w -> forall q, (q = true \/ ch " " ∉ w) -> arg_end (w ++ t) i 0 q = arg_end t (i + zlen w) 0 q.
Proof.
  intros Hw He q Hq. revert i. induction Hw as [|c w (_ & Hc0 & Hcq) _ IH]; intros i; [f_equal; cbn; lia|]. cbn [app arg_end].
  rewrite !not_elem_of_cons in He, Hq. destruct He as [He1 He].
  destruct (Z.eqb_spec c 0); [done|]. destruct (Z.eqb_spec c (ch "=")); [congruence|]. unfold quote in Hcq.
  destruct (Z.eqb_spec c 34); [done|]. destruct (Z.eqb_spec c (ch " ")) as [->|]; [destruct Hq as [->|[Hq _]]; [|done]|]; cbn [negb orb andb];
    (rewrite IH; [f_equal; rewrite zlen_cons; lia | done | tauto]).
Qed.

Lemma arg_end_value w t i e : plain w -> e <> 0 -> forall q, (q = true \/ ch " " ∉ w) -> arg_end (w ++ t) i e q = arg_end t (i + zlen w) e q.
Proof.
  intros Hw He q Hq. revert i. induction Hw as [|c w (_ & Hc0 & Hcq) _ IH]; intros i; [f_equal; cbn; lia|]. cbn [app arg_end].
  rewrite !not_elem_of_cons in Hq. destruct (Z.eqb_spec c 0); [done|]. destruct (Z.eqb_spec e 0); [done|]. unfold quote in Hcq.
  destruct (Z.eqb_spec c 34); [done|]. destruct (Z.eqb_spec c (ch " ")) as [->|]; [destruct Hq as [->|[Hq _]]; [|done]|]; cbn [negb orb andb];
    (rewrite IH; [f_equal; rewrite zlen_cons; lia | tauto]).
Qed.

Lemma arg_end_stop c t i e q : c = 0 \/ (c = ch " " /\ q = false) -> arg_end (c :: t) i e q = Some (i, e).
Proof. cbn [arg_end]. intros [->|[-> ->]]; done. Qed.

Lemma arg_end_equals t i q : arg_end (ch "=" :: t) i 0 q = arg_end t (i + 1) i q.
Proof. reflexivity. Qed.

Lemma arg_end_quote t i e q : arg_end (quote :: t) i e q = arg_end t (i + 1) e (negb q).
Proof. cbn [arg_end]. destruct (Z.eqb_spec e 0) as [->|]; [reflexivity|]. reflexivity. Qed.

(** The first character after an argument, and the rest. *)
Definition ends (t : list Z) : Prop := exists c t', t = c :: t' /\ (c = 0 \/ c = ch " ").

Lemma arg_end_text a t : arg_ok a -> ends t ->
  arg_end (drop (Z.to_nat (name_at a 0)) (arg_text a ++ t)) 0 0 (match a_style a with Quoted => true | _ => false end) =
  Some (zlen (arg_text a) - name_at a 0, match a_value a with None => 0 | Some _ => zlen (a_name a) end).
Proof.
  destruct a as [n [v|] st]; intros (Hne & Hn & Hns & Hne' & Hv) (c & t' & -> & Hc); cbn [a_name a_value a_style] in *; unfold arg_text, name_at;
    cbn [a_name a_value a_style]; assert (Hnz : zlen n <> 0) by (destruct n; [done | cbn; lia]).
  - destruct Hv as [Hv Hvs]. destruct st; rewrite <-?app_assoc; cbn [app]; rewrite <-?app_assoc; cbn [app].
    + change (drop (Z.to_nat 0) ?l) with l. rewrite arg_end_name, arg_end_equals, arg_end_value, arg_end_stop by (try done; try lia; tauto).
      rewrite length_app. cbn [length]. f_equal; f_equal; lia.
    + change (drop (Z.to_nat 0) ?l) with l. rewrite arg_end_name, arg_end_equals, arg_end_quote by tauto.
      rewrite arg_end_value, arg_end_quote, arg_end_stop by (try done; try lia; tauto).
      rewrite !length_app. cbn [length]. rewrite length_app. cbn [length]. f_equal; f_equal; lia.
    + change (drop (Z.to_nat (0 + 1)) (quote :: ?l)) with l.
      rewrite arg_end_name, arg_end_equals, arg_end_value, arg_end_quote, arg_end_stop by (try done; try lia; tauto).
      cbn [length]. rewrite !length_app. cbn [length]. rewrite !length_app. cbn [length]. f_equal; f_equal; lia.
  - subst st. change (drop (Z.to_nat 0) ?l) with l. rewrite arg_end_name, arg_end_stop by (try done; tauto). f_equal; f_equal; lia.
Qed.

Lemma rd_at {A} (pre t : list A) i : i = zlen pre -> rd (pre ++ t) i = head t.
Proof. intros ->. rewrite rd_nat, lookup_app_r, Nat.sub_diag by lia. by destruct t. Qed.

Lemma arg_cut_length a : zlen (arg_cut a) = zlen (arg_text a).
Proof. unfold arg_cut, arg_text. destruct (a_value a), (a_style a); rewrite ?length_app; cbn [length]; rewrite ?length_app; cbn [length]; lia. Qed.

Lemma drop_quote_at pre t e : e = zlen pre + 1 -> drop_quote (pre ++ quote :: t) e = Some (pre ++ 0 :: t).
Proof. intros ->. unfold drop_quote. rewrite Z.add_simpl_r, rd_at by done. cbn [head]. rewrite some_bind. by apply wr_middle. Qed.

Lemma drop_quote_not pre c t e : e = zlen pre + 1 -> c <> quote -> drop_quote (pre ++ c :: t) e = Some (pre ++ c :: t).
Proof.
  intros -> Hc. unfold drop_quote. rewrite Z.add_simpl_r, rd_at by done. cbn [head]. rewrite some_bind. unfold quote in Hc.
  destruct (Z.eqb_spec c 34); [done | done].
Qed.

Lemma arg_value_spec pre a t : arg_ok a -> ends t ->
  arg_value (pre ++ arg_text a ++ t) (name_at a (zlen pre)) (match a_value a with None => 0 | Some _ => zlen (a_name a) end)
    (zlen (arg_text a) - name_at a 0) (match a_style a with Quoted => true | _ => false end) =
  Some (pre ++ arg_cut a ++ t, option_map fst (value_at a (zlen pre))).
Proof.
  destruct a as [n [v|] st]; intros (Hne & Hn & Hns & Hne' & Hv) (c & t' & -> & Hc); cbn [a_name a_value a_style] in *;
    unfold arg_text, arg_cut, name_at, value_at, arg_value; cbn [a_name a_value a_style]; [|subst st; by destruct n].
  assert (Hnz : zlen n <> 0) by (destruct n; [done | cbn; lia]). destruct (Z.eqb_spec (zlen n) 0); [done|]. destruct Hv as [Hv Hvs].
  assert (Hcq : c <> quote) by (destruct Hc as [->| ->]; done).
  assert (Hvq : forall d t0, c <> quote -> head (v ++ c :: t0) = Some d -> d <> quote).
  { intros d t0 _. destruct Hv as [|x v (_ & _ & Hx) _]; cbn; intros [= <-]; done. }
  destruct st; rewrite <-?app_assoc; cbn [app]; rewrite <-?app_assoc; cbn [app]; cbn [option_map fst].
  - rewrite (app_assoc pre n), wr_middle, some_bind by (rewrite length_app; lia).
    change ((pre ++ n) ++ 0 :: v ++ c :: t') with ((pre ++ n) ++ [0] ++ v ++ c :: t'). rewrite app_assoc.
    rewrite rd_at by (rewrite !length_app; cbn [length]; lia). destruct (head (v ++ c :: t')) as [d|] eqn:Ed; [|by destruct v].
    rewrite some_bind. specialize (Hvq d t' Hcq Ed). unfold quote in Hvq. destruct (Z.eqb_spec d 34); [done|]. rewrite !some_bind.
    rewrite <-!app_assoc. cbn [app]. done.
  - rewrite (app_assoc pre n), wr_middle, some_bind by (rewrite length_app; lia).
    change ((pre ++ n) ++ 0 :: quote :: v ++ quote :: c :: t') with ((pre ++ n) ++ [0] ++ quote :: v ++ quote :: c :: t'). rewrite app_assoc.
    rewrite rd_at by (rewrite !length_app; cbn [length]; lia). cbn [head]. rewrite some_bind. change (quote =? 34) with true. cbv iota.
    change (((pre ++ n) ++ [0]) ++ quote :: v ++ quote :: c :: t') with (((pre ++ n) ++ [0]) ++ [quote] ++ v ++ quote :: c :: t').
    rewrite 2app_assoc, drop_quote_at by (repeat (rewrite ?length_app; cbn [length]); lia). rewrite !some_bind.
    rewrite <-!app_assoc. cbn [app]. do 3 f_equal; lia.
  - change (pre ++ quote :: n ++ ch "=" :: v ++ quote :: c :: t') with (pre ++ [quote] ++ n ++ ch "=" :: v ++ quote :: c :: t').
    rewrite 2app_assoc, wr_middle, some_bind by (rewrite !length_app; cbn [length]; lia).
    change (((pre ++ [quote]) ++ n) ++ 0 :: v ++ quote :: c :: t') with (((pre ++ [quote]) ++ n) ++ [0] ++ v ++ quote :: c :: t'). rewrite app_assoc.
    rewrite rd_at by (rewrite !length_app; cbn [length]; lia).
    destruct v as [|d v].
    + cbn [app head]. rewrite some_bind. change (quote =? 34) with true. cbv iota.
      rewrite drop_quote_at by (repeat (rewrite ?length_app; cbn [length]); lia). rewrite !some_bind.
      rewrite drop_quote_not by (try done; repeat (rewrite ?length_app; cbn [length]); lia). rewrite some_bind.
      rewrite <-!app_assoc. cbn [app]. rewrite bool_decide_true by done. do 3 f_equal; lia.
    + cbn [app head]. rewrite some_bind. apply Forall_cons in Hv as [(_ & _ & Hd) _]. unfold quote in Hd at 1. destruct (Z.eqb_spec d 34); [done|]. rewrite some_bind.
      change ((((pre ++ [quote]) ++ n) ++ [0]) ++ d :: v ++ quote :: c :: t') with ((((pre ++ [quote]) ++ n) ++ [0]) ++ (d :: v) ++ quote :: c :: t').
      rewrite app_assoc, drop_quote_at by (repeat (rewrite ?length_app; cbn [length]); lia). rewrite some_bind.
      rewrite <-!app_assoc. cbn [app]. rewrite bool_decide_false by done. do 3 f_equal; lia.
Qed.

Lemma skip_spaces_spec k c r i : c <> ch " " -> skip_spaces (replicate k (ch " ") ++ c :: r) i = Some (i + Z.of_nat k).
Proof.
  intros Hc. revert i. induction k as [|k IH]; intros i.
  - cbn [replicate app skip_spaces]. destruct (Z.eqb_spec c (ch " ")); [done|]. f_equal. lia.
  - cbn [replicate app skip_spaces]. rewrite Z.eqb_refl, IH. f_equal. lia.
Qed.

(** The buffer after the argument: its end, and the next one. *)
Definition closed (k : nat) (rest : list Z) : list Z := match k with O => rest | S k => 0 :: replicate k (ch " ") ++ rest end.

Lemma next_arg_spec pre a k c r : arg_ok a -> c <> ch " " -> (k = O -> c = 0) ->
  next_arg (pre ++ arg_text a ++ replicate k (ch " ") ++ c :: r) (zlen pre) =
  Some (pre ++ arg_cut a ++ closed k (c :: r), name_at a (zlen pre), option_map fst (value_at a (zlen pre)),
        zlen pre + zlen (arg_text a) + Z.of_nat k).
Proof.
  intros Ha Hc Hk. set (t := replicate k (ch " ") ++ c :: r).
  assert (Ht : ends t). { unfold t. destruct k; cbn; [exists c, r; rewrite Hk by done; tauto | eexists _, _; split; [done | tauto]]. }
  unfold next_arg. rewrite rd_at by done.
  assert (exists d, head (arg_text a ++ t) = Some d /\ (d =? 34) = match a_style a with Quoted => true | _ => false end) as (d & -> & Hd).
  { destruct Ha as (Hne & Hn & _ & _ & Hv). destruct a as [n v st]; cbn in *. destruct n as [|d n]; [done|]. apply Forall_cons in Hn as [(_ & _ & Hd) _].
    assert (Hd' : (d =? 34) = false) by (by apply Z.eqb_neq).
    destruct v as [v|]; [|exists d; subst st; done]. destruct st; [exists d; done | exists d; done | exists quote; done]. }
  rewrite some_bind, Hd.
  assert (Hna : (if match a_style a with Quoted => true | _ => false end then zlen pre + 1 else zlen pre) = name_at a (zlen pre)) by (unfold name_at; by destruct (a_style a)).
  rewrite Hna. cbv zeta.
  assert (Hdrop : drop (Z.to_nat (name_at a (zlen pre))) (pre ++ arg_text a ++ t) = drop (Z.to_nat (name_at a 0)) (arg_text a ++ t)).
  { replace (Z.to_nat (name_at a (zlen pre))) with (length pre + Z.to_nat (name_at a 0))%nat by (unfold name_at; destruct (a_style a); lia).
    rewrite <-drop_drop, drop_app_length. done. }
  rewrite Hdrop, arg_end_text, some_bind, arg_value_spec, some_bind by done.
  assert (Hpos : name_at a (zlen pre) + (zlen (arg_text a) - name_at a 0) = zlen (pre ++ arg_cut a)).
  { rewrite length_app, Nat2Z.inj_add, arg_cut_length. unfold name_at. destruct (a_style a); lia. }
  rewrite Hpos, (app_assoc pre (arg_cut a) t), rd_at by done.
  assert (Hlen : zlen (pre ++ arg_cut a) = zlen pre + zlen (arg_text a)) by (rewrite length_app, Nat2Z.inj_add, arg_cut_length; lia).
  unfold t. destruct k as [|k].
  - cbn [replicate app head]. rewrite some_bind, (Hk eq_refl). cbn [Z.eqb negb]. rewrite some_bind, drop_pre by done.
    cbn [skip_spaces]. change (0 =? ch " ") with false. cbv iota. rewrite some_bind. unfold closed. rewrite <-app_assoc. do 2 f_equal; cbn; lia.
  - cbn [replicate app head]. rewrite some_bind. change (negb (ch " " =? 0)) with true. cbv iota. rewrite wr_middle, !some_bind by done.
    change ((pre ++ arg_cut a) ++ 0 :: replicate k (ch " ") ++ c :: r) with ((pre ++ arg_cut a) ++ [0] ++ replicate k (ch " ") ++ c :: r).
    rewrite app_assoc, drop_pre by (rewrite !length_app; cbn [length]; lia). rewrite skip_spaces_spec, some_bind by done.
    unfold closed. rewrite <-!app_assoc. cbn [app]. do 2 f_equal; lia.
Qed.

(** ** All arguments *)

Lemma dash_nonzero c : c <> 0 -> dash2underscore c <> 0.
Proof. unfold dash2underscore. intros H. destruct (Z.eqb_spec c (ch "-")); [done | done]. Qed.

Lemma parameq_spec n r pn : chars n -> chars pn -> parameq (n ++ 0 :: r) (pn ++ [0]) = Some (bool_decide (map dash2underscore n = pn)).
Proof.
  intros Hn. revert pn. induction Hn as [|c n [_ Hc] _ IH]; intros pn Hpn.
  - destruct Hpn as [|d pn [_ Hd] _]; [done|]. cbn. destruct d; try done.
  - destruct Hpn as [|d pn [_ Hd] Hpn]; cbn [app parameq deref head tail map].
    + rewrite !some_bind. pose proof (dash_nonzero c Hc). destruct (Z.eqb_spec (dash2underscore c) 0); [done|]. done.
    + rewrite !some_bind. destruct (Z.eqb_spec (dash2underscore c) d) as [E|E].
      * destruct (Z.eqb_spec c 0); [done|]. rewrite (IH pn Hpn). f_equal. apply bool_decide_ext. rewrite E. split; congruence.
      * rewrite bool_decide_false; [done|]. congruence.
Qed.

Lemma parse_one_spec b param val params unknown usem n rest v m r m' : 0 <= param -> drop (Z.to_nat param) b = n ++ 0 :: rest -> chars n ->
  reads b val v -> handles unknown usem -> arg_sem params usem n v m = Some (r, m') ->
  exists b', parse_one b param val (map to_param params) unknown m = Some (r, b', m') /\ kept b b' v.
Proof.
  intros Hp0 Hp Hn Hv Hu. induction params as [|p params IH]; cbn [arg_sem parse_one map].
  - destruct unknown as [f|]; cbn [handles] in Hu.
    + intros H. by eapply Hu.
    + rewrite Hu. intros [= <- <-]. exists b. split; [done|]. destruct v as [[q s]|]; done.
  - cbn [name kp_set to_param]. rewrite Hp, (parameq_spec n rest (sp_name p) Hn (sp_chars p)), some_bind.
    case_bool_decide; [|done]. apply (sp_sets p). done.
Qed.

Lemma closed_ends k c r : (k = O -> c = 0) -> exists t, closed k (c :: r) = 0 :: t.
Proof. destruct k as [|k]; cbn; intros H; [exists r; by rewrite H | by eexists]. Qed.

(** Where the name and the value are found. *)
Lemma cut_reads pre a k c r : arg_ok a -> (k = O -> c = 0) ->
  let b := pre ++ arg_cut a ++ closed k (c :: r) in
  (exists t, drop (Z.to_nat (name_at a (zlen pre))) b = a_name a ++ 0 :: t) /\
  reads b (option_map fst (value_at a (zlen pre))) (value_at a (zlen pre)).
Proof.
  intros (Hne & Hn & _ & _ & Hv) Hk b. destruct (closed_ends k c r Hk) as [t Ht]. unfold b. rewrite Ht. clear b Ht.
  destruct a as [n [v|] st]; cbn [a_name a_value a_style] in *; unfold arg_cut, name_at, value_at; cbn [a_name a_value a_style].
  - destruct Hv as [Hv _]. apply plain_chars in Hv. split.
    + destruct st; [rewrite drop_pre by done; rewrite <-app_assoc; by eexists | rewrite drop_pre by done; rewrite <-app_assoc; by eexists |].
      change ([quote] ++ n ++ [0] ++ v ++ [0]) with ([quote] ++ (n ++ [0] ++ v ++ [0])). rewrite <-app_assoc, app_assoc, drop_pre by (rewrite length_app; cbn; lia).
      rewrite <-app_assoc. by eexists.
    + cbn [option_map fst reads]. split; [done|]. split; [destruct st; [|  | case_bool_decide]; lia|]. split; [done|]. destruct st.
      * exists t. replace (pre ++ (n ++ [0] ++ v) ++ 0 :: t) with ((pre ++ n ++ [0]) ++ v ++ 0 :: t) by (by rewrite <-!app_assoc).
        apply drop_pre. rewrite !length_app. cbn [length]. lia.
      * exists (0 :: t). replace (pre ++ (n ++ [0; quote] ++ v ++ [0]) ++ 0 :: t) with ((pre ++ n ++ [0; quote]) ++ v ++ 0 :: 0 :: t) by (by rewrite <-!app_assoc).
        apply drop_pre. rewrite !length_app. cbn [length]. lia.
      * case_bool_decide as Ev.
        -- subst v. exists t. replace (pre ++ ([quote] ++ n ++ [0] ++ [] ++ [0]) ++ 0 :: t) with ((pre ++ [quote] ++ n ++ [0; 0]) ++ 0 :: t)
             by (rewrite <-!app_assoc; cbn [app]; rewrite <-?app_assoc; done).
           apply drop_pre. rewrite !length_app. cbn [length]. rewrite ?length_app. cbn [length]. lia.
        -- exists (0 :: t). replace (pre ++ ([quote] ++ n ++ [0] ++ v ++ [0]) ++ 0 :: t) with ((pre ++ [quote] ++ n ++ [0]) ++ v ++ 0 :: 0 :: t)
             by (rewrite <-!app_assoc; cbn [app]; rewrite <-?app_assoc; cbn [app]; rewrite <-?app_assoc; done).
           apply drop_pre. rewrite !length_app. cbn [length]. rewrite ?length_app. cbn [length]. lia.
  - subst st. split; [|done]. rewrite drop_pre by done. by eexists.
Qed.

Lemma kept_drop b b' v q : kept b b' v -> (match v with Some (p, s) => p + zlen s <= q /\ 0 <= p | None => True end) -> drop (Z.to_nat q) b' = drop (Z.to_nat q) b.
Proof.
  destruct v as [[p s]|]; cbn; [|by intros ->]. intros (_ & _ & H) [Hq Hp].
  replace (Z.to_nat q) with (Z.to_nat (p + zlen s) + Z.to_nat (q - (p + zlen s)))%nat by lia. by rewrite <-!drop_drop, H.
Qed.

Lemma value_before a pos k : 0 <= pos -> 0 <= k ->
  match value_at a pos with Some (p, s) => p + zlen s <= pos + zlen (arg_text a) + k /\ 0 <= p | None => True end.
Proof.
  intros Hpos Hk. unfold value_at, arg_text. destruct (a_value a) as [v|]; [|done].
  destruct (a_style a); [| |case_bool_decide as E; [subst v|]]; repeat (rewrite ?length_app; cbn [length]); lia.
Qed.

Lemma first_char a t : arg_ok a -> exists c t', arg_text a ++ t = c :: t' /\ c <> 0 /\ c <> ch " ".
Proof.
  intros (Hne & Hn & Hs & _ & _). destruct a as [n v st]; cbn in *. destruct n as [|d n]; [done|]. apply Forall_cons in Hn as [(_ & Hd & _) _].
  apply not_elem_of_cons in Hs as [Hs _]. unfold arg_text. cbn. destruct v as [v|]; [destruct st|]; eexists _, _; (split; [reflexivity|]); done.
Qed.

Lemma args_text_cons a k l t : args_text ((a, k) :: l) ++ t =
  arg_text a ++ replicate (match l with [] => k | _ => S k end) (ch " ") ++ args_text l ++ t.
Proof. cbn [args_text]. by rewrite <-!app_assoc. Qed.

Section args.
Context (params : list spec_param) (unknown : option (Z -> setter)) (usem : list Z -> meaning) (Hu : handles unknown usem).

Lemma args_rest l r0 : Forall (fun x => arg_ok x.1) l -> exists c r, args_text l ++ 0 :: r0 = c :: r /\ c <> ch " " /\ (l = [] -> c = 0).
Proof.
  destruct l as [|[a k] l]; intros Hl; [by exists 0, r0|]. apply Forall_cons in Hl as [Ha _]. rewrite args_text_cons.
  destruct (first_char a (replicate (match l with [] => k | _ => S k end) (ch " ") ++ args_text l ++ 0 :: r0) Ha) as (c & t' & E & _ & Hc).
  exists c, t'. done.
Qed.

(** One round of parse_args. *)
Lemma args_round b pos a k l r0 m r1 m1 : 0 <= pos -> drop (Z.to_nat pos) b = args_text ((a, k) :: l) ++ 0 :: r0 ->
  Forall (fun x => arg_ok x.1) ((a, k) :: l) -> arg_sem params usem (a_name a) (value_at a pos) m = Some (r1, m1) ->
  let pos' := pos + zlen (arg_text a) + Z.of_nat (match l with [] => k | _ => S k end) in
  exists b', args_step (map to_param params) unknown (b, pos, m) = Some (if r1 =? 0 then inl (b', pos', m1) else inr (r1, b', m1)) /\
    drop (Z.to_nat pos') b' = args_text l ++ 0 :: r0 /\ length b' = length b /\ pos < pos'.
Proof.
  intros Hpos Hb Hl Hsem pos'. apply Forall_cons in Hl as [Ha Hl]. cbn [fst] in Ha. rewrite args_text_cons in Hb.
  destruct (args_rest l r0 Hl) as (c & r & Er & Hc & Hcl). rewrite Er in Hb |- *. set (K := match l with [] => k | _ => S k end) in *.
  assert (HK : K = O -> c = 0) by (destruct l; [intros _; by apply Hcl | done]).
  destruct (first_char a (replicate K (ch " ") ++ c :: r) Ha) as (d & t' & Ed & Hd & _).
  set (pre := take (Z.to_nat pos) b). assert (Hbe : b = pre ++ arg_text a ++ replicate K (ch " ") ++ c :: r) by (unfold pre; by rewrite <-Hb, take_drop).
  assert (Hpre : zlen pre = pos).
  { unfold pre. rewrite length_take. assert (length (drop (Z.to_nat pos) b) <> 0)%nat by (rewrite Hb, Ed; done). rewrite length_drop in *. lia. }
  assert (Hat : arg_text a <> []) by (intros E; destruct Ha as (Hne & _); unfold arg_text in E; destruct a as [[|] [|] []]; done).
  assert (Hlt : 0 < zlen (arg_text a)) by (destruct (arg_text a); [done | cbn; lia]).
  destruct (cut_reads pre a K c r Ha HK) as [[t Hname] Hreads]. rewrite Hpre in Hname, Hreads.
  destruct (parse_one_spec (pre ++ arg_cut a ++ closed K (c :: r)) (name_at a pos) (option_map fst (value_at a pos)) params unknown usem (a_name a) t
    (value_at a pos) m r1 m1) as (b' & E & Hk); try done.
  { unfold name_at. destruct (a_style a); lia. } { apply plain_chars, Ha. }
  exists b'. split; [|split; [|split; [|unfold pos'; lia]]].
  - unfold args_step. rewrite Hbe at 1. rewrite rd_at, Ed by done. cbn [head]. rewrite some_bind. destruct (Z.eqb_spec d 0); [done|].
    rewrite Hbe at 1. rewrite <-Hpre at 1. rewrite (next_arg_spec pre a K c r Ha Hc HK), some_bind, Hpre, E, some_bind. done.
  - rewrite (kept_drop _ _ _ pos' Hk) by (unfold pos'; apply value_before; lia). unfold pos'.
    rewrite app_assoc. replace (Z.to_nat (pos + zlen (arg_text a) + Z.of_nat K)) with (length (pre ++ arg_cut a) + K)%nat
      by (rewrite length_app; pose proof (arg_cut_length a); lia).
    rewrite <-drop_drop, drop_app_length. destruct K as [|K]; [done|]. cbn [closed drop]. rewrite <-(length_replicate K (ch " ")) at 1. apply drop_app_length.
  - assert (Hlb : length (pre ++ arg_cut a ++ closed K (c :: r)) = length b).
    { rewrite Hbe, !length_app. pose proof (arg_cut_length a). destruct K; cbn [closed]; cbn; rewrite ?length_app, ?length_replicate; cbn; lia. }
    rewrite <-Hlb. destruct (value_at a pos) as [[p s]|]; cbn in Hk; [apply Hk | by rewrite Hk].
Qed.

Lemma args_loop b pos l r0 m r m' : 0 <= pos -> drop (Z.to_nat pos) b = args_text l ++ 0 :: r0 -> Forall (fun x => arg_ok x.1) l -> zlen b < 2 ^ 32 ->
  args_sem params usem pos l m = Some (r, m') -> exists b', run 32 (args_step (map to_param params) unknown) (b, pos, m) = Some (r, b', m').
Proof.
  intros Hpos Hb Hl Hlen Hsem.
  destruct (run_rule (fun st => let '(b, pos, m) := st in exists l, 0 <= pos /\ drop (Z.to_nat pos) b = args_text l ++ 0 :: r0 /\
      Forall (fun x => arg_ok x.1) l /\ args_sem params usem pos l m = Some (r, m'))
    (fun o => exists b', o = (r, b', m'))
    (fun st => let '(b, pos, m) := st in zlen b - pos) (args_step (map to_param params) unknown) 32 (b, pos, m)) as (o & E & b' & ->).
  - clear b pos l m Hpos Hb Hl Hlen Hsem. intros [[b pos] m] (l & Hpos & Hb & Hl & Hsem). destruct l as [|[a k] l].
    + cbn in Hsem, Hb. injection Hsem as <- <-. exists (inr (0, b, m)). split; [|by exists b].
      unfold args_step. rewrite <-(take_drop (Z.to_nat pos) b) at 1. rewrite rd_at, Hb; [done|].
      assert (length (drop (Z.to_nat pos) b) <> 0)%nat by (by rewrite Hb). rewrite length_drop in *. rewrite length_take. lia.
    + cbn [args_sem] in Hsem. apply bind_Some in Hsem as ([r1 m1] & H1 & H2).
      destruct (args_round b pos a k l r0 m r1 m1 Hpos Hb Hl H1) as (b' & E & Hb' & Hlb & Hlt). eexists. split; [exact E|].
      destruct (Z.eqb_spec r1 0) as [->|].
      * split; [exists l; split; [lia|]; split; [done|]; split; [by apply Forall_cons in Hl as [_ Hl] | done]|]. rewrite Hlb.
        assert (length (drop (Z.to_nat (pos + zlen (arg_text a) + Z.of_nat (match l with [] => k | _ => S k end))) b') <> 0)%nat
          by (rewrite Hb'; rewrite length_app; cbn; lia). rewrite length_drop in *. lia.
      * injection H2 as <- <-. by exists b'.
  - by exists l.
  - change (2 ^ Z.of_nat 32) with (2 ^ 32). lia.
  - by exists b'.
Qed.
End args.

(** ** The setters, on strings *)

Lemma kept_refl b v : kept b b v.
Proof. by destruct v as [[p s]|]. Qed.

(** Reading a number stops at the terminator. *)
Class Stops (f : list Z -> Z -> option (Z * list Z)) :=
  stops_at : forall s l e r, f (s ++ [0]) 0 = Some (l, e) -> f (s ++ 0 :: r) 0 = Some (l, e ++ r).

Lemma strto_digits_stop w v base s : forall res l e r, strto_digits w v (s ++ [0]) base res = Some (l, e) ->
  strto_digits w v (s ++ 0 :: r) base res = Some (l, e ++ r).
Proof.
  induction s as [|c s IH]; intros res l e r; cbn [app strto_digits].
  - change (isxdigit 0) with false. cbn [andb]. by intros [= <- <-].
  - destruct (isxdigit c && (w (v c) <? base)); [apply IH|]. intros [= <- <-]. cbn [app]. by rewrite <-app_assoc.
Qed.

Lemma strto_base_stop s cp base r : strto_base (s ++ [0]) 0 = Some (cp, base) -> exists s', cp = s' ++ [0] /\ strto_base (s ++ 0 :: r) 0 = Some (s' ++ 0 :: r, base).
Proof.
  unfold strto_base. cbn [Z.eqb]. destruct s as [|c [|d s]]; cbn [app deref head tail]; rewrite ?some_bind.
  - change (0 =? ch "0") with false. intros [= <- <-]. by exists [].
  - destruct (c =? ch "0"); [|intros [= <- <-]; by exists [c]]. cbn [app deref head tail]; rewrite ?some_bind. change (toupper 0 =? ch "X") with false.
    intros [= <- <-]. by exists [].
  - destruct (c =? ch "0"); [|intros [= <- <-]; by exists (c :: d :: s)]. cbn [app deref head tail]; rewrite ?some_bind. destruct (toupper d =? ch "X"); [|intros [= <- <-]; by exists (d :: s)].
    destruct s as [|x s]; cbn [app deref head]; rewrite ?some_bind.
    + destruct (isxdigit 0); intros [= <- <-]; [by exists [] | by exists [d]].
    + destruct (isxdigit x); intros [= <- <-]; [by exists (x :: s) | by exists (d :: x :: s)].
Qed.

#[global] Instance strtoul_stops : Stops simple_strtoul.
Proof.
  intros s l e r H. unfold simple_strtoul in *. apply bind_Some in H as ([cp base] & H1 & H2). apply (strto_base_stop s cp base r) in H1 as (s' & -> & ->).
  rewrite some_bind. by apply strto_digits_stop.
Qed.

#[global] Instance strtol_stops : Stops simple_strtol.
Proof.
  intros s l e r H. unfold simple_strtol in *. destruct s as [|c s]; cbn [app deref head tail] in *; rewrite some_bind in H |- *.
  - change (0 =? ch "-") with false in *. cbv iota in *. apply bind_Some in H as ([v x] & H1 & [= <- <-]).
    rewrite (strtoul_stops [] v x r H1 : simple_strtoul (0 :: r) 0 = _). done.
  - destruct (c =? ch "-"); apply bind_Some in H as ([v x] & H1 & [= <- <-]).
    + by rewrite (strtoul_stops s v x r H1).
    + by rewrite (strtoul_stops (c :: s) v x r H1 : simple_strtoul (c :: s ++ 0 :: r) 0 = _).
Qed.

Definition std_sem (type_cast : Z -> Z) (strtolfn : list Z -> Z -> option (Z * list Z)) (arg : Z) : meaning := fun v m =>
  match v with
  | None => Some (- EINVAL, m)
  | Some (_, s) =>
    '(l, e) ← strtolfn (s ++ [0]) 0;
    if (zlen e =? zlen s + 1) || negb (type_cast l =? l) then Some (- EINVAL, m) else m ← store m arg (type_cast l); Some (0, m)
  end.
#[global] Instance std_sets cast f arg : Stops f -> Sets (param_set_std cast f arg) (std_sem cast f arg).
Proof.
  intros Hf b [p|] [[q s]|] m r m' Hv H; try done; unfold param_set_std; cbn in Hv, H.
  - destruct Hv as (-> & Hp & Hs & rest & Hb). exists b. split; [|apply kept_refl]. rewrite Hb.
    apply bind_Some in H as ([l e] & H1 & H). rewrite (stops_at s l e rest H1), some_bind.
    assert (E : (zlen (e ++ rest) =? zlen (s ++ 0 :: rest)) = (zlen e =? zlen s + 1)).
    { rewrite !length_app. cbn [length]. destruct (Z.eqb_spec (zlen e) (zlen s + 1)); [apply Z.eqb_eq | apply Z.eqb_neq]; lia. }
    rewrite E. destruct (_ || _); [by injection H as <- <-|]. apply bind_Some in H as (m1 & -> & [= <- <-]). done.
  - injection H as <- <-. by exists b.
Qed.

Definition charp_sem (arg : Z) : meaning := fun v m =>
  match v with
  | None => Some (- EINVAL, m)
  | Some (p, s) => if 1024 <? zlen s then Some (- ENOSPC, m) else m ← store m arg p; Some (0, m)
  end.
#[global] Instance charp_sets arg : Sets (param_set_charp arg) (charp_sem arg).
Proof.
  intros b [p|] [[q s]|] m r m' Hv H; try done; unfold param_set_charp; cbn in Hv, H.
  - destruct Hv as (-> & Hp & Hs & rest & Hb). exists b. split; [|apply kept_refl]. rewrite Hb, strlen_chars, some_bind by done.
    destruct (1024 <? zlen s); [by injection H as <- <-|]. apply bind_Some in H as (m1 & -> & [= <- <-]). done.
  - injection H as <- <-. by exists b.
Qed.

Definition bool_sem (arg : Z) : meaning := fun v m =>
  c ← match v with None => Some (ch "1") | Some (_, s) => head (s ++ [0]) end;
  if existsb (Z.eqb c) [ch "y"; ch "Y"; ch "1"] then m ← store m arg 1; Some (0, m)
  else if existsb (Z.eqb c) [ch "n"; ch "N"; ch "0"] then m ← store m arg 0; Some (0, m)
  else Some (- EINVAL, m).
Lemma drop_rd {A} (b t : list A) p : 0 <= p -> drop (Z.to_nat p) b = t -> t <> [] -> rd b p = head t.
Proof.
  intros Hp <- Ht. rewrite <-(take_drop (Z.to_nat p) b) at 1. apply rd_at. assert (length (drop (Z.to_nat p) b) <> 0)%nat by (by destruct (drop _ b)).
  rewrite length_drop in *. rewrite length_take. lia.
Qed.
#[global] Instance bool_sets arg : Sets (param_set_bool arg) (bool_sem arg).
Proof.
  intros b val v m r m' Hv H. exists b. split; [|apply kept_refl]. unfold param_set_bool, bool_sem in *.
  assert (E : match val with None => Some (ch "1") | Some p => rd b p end = match v with None => Some (ch "1") | Some (_, s) => head (s ++ [0]) end).
  { destruct val as [p|], v as [[q s]|]; try done. destruct Hv as (-> & Hp & _ & rest & Hb). rewrite (drop_rd b _ p Hp Hb) by (by destruct s). by destruct s. }
  rewrite E. apply bind_Some in H as (c & -> & H). rewrite some_bind.
  destruct (existsb _ _); [|destruct (existsb _ _)]; try (apply bind_Some in H as (m1 & -> & [= <- <-]); done). by injection H as <- <-.
Qed.

Definition copystring_sem (kps : kparam_string) : meaning := fun v m =>
  match v with
  | None => Some (- EINVAL, m)
  | Some (_, s) => if maxlen kps <? zlen s + 1 then Some (- ENOSPC, m) else m ← store_string m (str kps) (s ++ [0]); Some (0, m)
  end.
#[global] Instance copystring_sets kps : Sets (param_set_copystring kps) (copystring_sem kps).
Proof.
  intros b [p|] [[q s]|] m r m' Hv H; try done; unfold param_set_copystring; cbn in Hv, H.
  - destruct Hv as (-> & Hp & Hs & rest & Hb). exists b. split; [|apply kept_refl]. unfold slice. rewrite Hb, strlen_chars, some_bind by done.
    rewrite Nat2Z.id, take_app_length. destruct (maxlen kps <? zlen s + 1); [by injection H as <- <-|].
    apply bind_Some in H as (m1 & -> & [= <- <-]). done.
  - injection H as <- <-. by exists b.
Qed.

(** ** Arrays *)

Definition comma : Z := ch ",".
Fixpoint join (l : list (list Z)) : list Z := match l with [] => [] | [s] => s | s :: l => s ++ comma :: join l end.
Fixpoint split (s : list Z) : list (list Z) :=
  match s with
  | [] => [[]]
  | c :: s => if c =? comma then [] :: split s else match split s with [] => [[c]] | x :: l => (c :: x) :: l end
  end.

Lemma split_join s : split s <> [] /\ join (split s) = s /\ Forall (fun x => comma ∉ x) (split s).
Proof.
  induction s as [|c s (H1 & H2 & H3)]; cbn [split].
  - split; [done|]. split; [done|]. constructor; [apply not_elem_of_nil | constructor].
  - destruct (Z.eqb_spec c comma) as [->|Hc].
    + split; [done|]. split; [|constructor; [apply not_elem_of_nil | done]]. cbn [join]. destruct (split s); [done|]. by rewrite H2.
    + destruct (split s) as [|x l]; [done|]. split; [done|]. apply Forall_cons in H3 as [Hx Hl]. split; [|constructor; [by apply not_elem_of_cons | done]].
      cbn [join] in H2 |- *. destruct l; cbn [app]; by rewrite <-H2.
Qed.

Section array.
Context (arr : kparam_array) (esem : Z -> meaning) (Hset : forall arg, Sets (set arr arg) (esem arg)).

Definition store_num (m : vars) (n : Z) : option vars := match num arr with None => Some m | Some a => store m a n end.
Fixpoint array_sem (parts : list (list Z)) (p arg n : Z) (m : vars) : option (Z * Z * vars) :=
  match parts with
  | [] => None
  | s :: parts =>
    if n =? max arr then Some (- EINVAL, n, m) else
    '(ret, m) ← esem arg (Some (p, s)) m;
    if negb (ret =? 0) then Some (ret, n, m) else
    m ← store_num m (n + 1);
    match parts with [] => Some (0, n + 1, m) | _ => array_sem parts (p + zlen s + 1) (arg + elemsize arr) (n + 1) m end
  end.
Definition param_array_sem (min : Z) : meaning := fun v m =>
  match v with
  | None => Some (- EINVAL, m)
  | Some (p, s) =>
    m ← store_num m 0;
    '(ret, n, m) ← array_sem (split s) p (elem arr) 0 m;
    Some (if (ret =? 0) && (n <? min) then - EINVAL else ret, m)
  end.

Lemma strcspn_part s c r : chars s -> comma ∉ s -> c = 0 \/ c = comma -> strcspn (s ++ c :: r) (cstr ",") = Some (zlen s).
Proof.
  intros Hs Hn Hc. induction Hs as [|d s [_ Hd] _ IH]; cbn [app strcspn].
  - destruct Hc as [->| ->]; done.
  - apply not_elem_of_cons in Hn as [Hdc Hn]. destruct (Z.eqb_spec d 0); [done|]. unfold cstr.
    assert (Hcs : chars (text ",")) by (repeat constructor; unfold is_u8, ch; cbn; lia).
    rewrite (in_set_spec (text ",") [] d) by done. rewrite some_bind, bool_decide_false.
    + fold (cstr ","). rewrite IH, some_bind by done. f_equal. rewrite zlen_cons. lia.
    + change (text ",") with [comma]. intros H. apply list_elem_of_singleton in H. congruence.
Qed.

(** One round: an element ends at a comma, which becomes the end of its string, or at
    the end of the text. *)
Lemma array_round b val arg n m s c r r1 m1 : 0 <= val -> drop (Z.to_nat val) b = s ++ c :: r -> chars s -> comma ∉ s -> c = 0 \/ c = comma ->
  n <> max arr -> esem arg (Some (val, s)) m = Some (r1, m1) ->
  exists b', length b' = length b /\ take (Z.to_nat val) b' = take (Z.to_nat val) b /\ drop (Z.to_nat (val + zlen s)) b' = 0 :: r /\
    array_step arr (b, val, arg, n, m) =
      (if negb (r1 =? 0) then Some (inr (r1, b', n, m1)) else
       m ← store_num m1 (n + 1);
       let st := (b', val + (zlen s + 1), arg + elemsize arr, n + 1, m) in
       Some (if c =? comma then inl st else inr (0, b', n + 1, m))).
Proof.
  intros Hval Hb Hs Hn Hc Hmax Hsem. set (pre := take (Z.to_nat val) b).
  assert (Hpre : zlen pre = val).
  { unfold pre. assert (length (drop (Z.to_nat val) b) <> 0)%nat by (rewrite Hb; by destruct s). rewrite length_drop in *. rewrite length_take. lia. }
  assert (Hbe : b = pre ++ s ++ c :: r) by (unfold pre; by rewrite <-Hb, take_drop).
  assert (Hw : wr b (val + zlen s) 0 = Some (pre ++ s ++ 0 :: r)).
  { rewrite Hbe, app_assoc, wr_middle; [by rewrite <-app_assoc|]. rewrite length_app. lia. }
  destruct (Hset arg (pre ++ s ++ 0 :: r) (Some val) (Some (val, s)) m r1 m1) as (b' & E & Hl & Ht & Hd).
  { split; [done|]. split; [done|]. split; [done|]. exists r. by apply drop_pre. } { exact Hsem. }
  exists b'. split; [rewrite Hl, Hbe, !length_app; done|]. split; [|split].
  - rewrite Ht. rewrite <-Hpre at 1. rewrite Nat2Z.id. apply take_app_length.
  - rewrite Hd, app_assoc, drop_pre; [done|]. rewrite length_app. lia.
  - unfold array_step. destruct (Z.eqb_spec n (max arr)); [done|]. rewrite Hb, strcspn_part, some_bind by done.
    rewrite Hbe at 1. rewrite app_assoc, rd_middle, some_bind by (rewrite length_app; lia). rewrite Hw, some_bind, E, some_bind.
    destruct (negb (r1 =? 0)); [done|]. unfold store_num. done.
Qed.

Lemma array_run b0 p0 s0 r0 res : 0 <= p0 -> drop (Z.to_nat p0) b0 = s0 ++ 0 :: r0 -> chars s0 -> 0 <= max arr < 2 ^ 32 ->
  forall m, array_sem (split s0) p0 (elem arr) 0 m = Some res ->
  exists b', run 32 (array_step arr) (b0, p0, elem arr, 0, m) = Some (res.1.1, b', res.1.2, res.2) /\ kept b0 b' (Some (p0, s0)).
Proof.
  intros Hp0 Hb0 Hs0 Hlen m Hsem.
  set (Kept := fun b => length b = length b0 /\ take (Z.to_nat p0) b = take (Z.to_nat p0) b0 /\ drop (Z.to_nat (p0 + zlen s0)) b = 0 :: r0).
  assert (Hend : drop (Z.to_nat (p0 + zlen s0)) b0 = 0 :: r0).
  { replace (Z.to_nat (p0 + zlen s0)) with (Z.to_nat p0 + length s0)%nat by lia. rewrite <-drop_drop, Hb0. apply drop_app_length. }
  destruct (run_rule (fun st => let '(b, val, arg, n, m) := st in exists parts, parts <> [] /\ Forall (fun x => comma ∉ x) parts /\ chars (join parts) /\
      p0 <= val /\ val + zlen (join parts) = p0 + zlen s0 /\ drop (Z.to_nat val) b = join parts ++ 0 :: r0 /\ Kept b /\ 0 <= n <= max arr /\
      array_sem parts val arg n m = Some res)
    (fun o => exists b', o = (res.1.1, b', res.1.2, res.2) /\ Kept b')
    (fun st => let '(b, val, arg, n, m) := st in max arr - n) (array_step arr) 32 (b0, p0, elem arr, 0, m)) as (o & E & b' & -> & Hk).
  - clear m Hsem. intros [[[[b val] arg] n] m] ([|s parts] & Hne & Hc & Hch & Hval & Hpos & Hb & (Hk1 & Hk2 & Hk3) & Hnm & Hsem); [done|].
    cbn [array_sem] in Hsem. destruct (Z.eqb_spec n (max arr)) as [En|En].
    { injection Hsem as <-. exists (inr (- EINVAL, b, n, m)). split; [|exists b; done]. unfold array_step. by rewrite En, Z.eqb_refl. }
    apply bind_Some in Hsem as ([r1 m1] & H1 & Hsem). apply Forall_cons in Hc as [Hcs Hc].
    assert (exists c r, join (s :: parts) ++ 0 :: r0 = s ++ c :: r /\ (c = 0 /\ parts = [] /\ r = r0 \/ c = comma /\ parts <> [] /\ r = join parts ++ 0 :: r0) /\ chars s /\
      (parts <> [] -> chars (join parts) /\ zlen (join (s :: parts)) = zlen s + 1 + zlen (join parts))) as (c & r & Ej & Hcr & Hsc & Hcp).
    { cbn [join] in *. destruct parts as [|s2 parts]; [exists 0, r0; split; [done|]; split; [tauto|]; split; [done | done]|].
      exists comma, (join (s2 :: parts) ++ 0 :: r0). rewrite <-app_assoc. split; [done|]. split; [right; done|].
      apply Forall_app in Hch as [Hch1 Hch2]. apply Forall_cons in Hch2 as [_ Hch2]. split; [done|]. intros _. split; [done|]. rewrite length_app. cbn [length]. lia. }
    rewrite Ej in Hb. destruct (array_round b val arg n m s c r r1 m1) as (b' & Hl' & Ht' & Hd' & E); try done; [lia | tauto|].
    assert (Hkept : Kept b').
    { split; [congruence|]. split.
      - assert (Hmin : forall x : list Z, take (Z.to_nat p0) x = take (Z.to_nat p0) (take (Z.to_nat val) x)) by (intros x; rewrite take_take; f_equal; lia).
        rewrite Hmin, Ht', <-Hmin. done.
      - destruct Hcr as [(-> & -> & ->)|(-> & Hpn & ->)]; [cbn [join] in Hpos; by rewrite <-Hpos|]. destruct (Hcp Hpn) as [_ Hz].
        replace (Z.to_nat (p0 + zlen s0)) with (Z.to_nat (val + zlen s) + S (length (join parts)))%nat by lia. rewrite <-drop_drop, Hd'. cbn [drop]. apply drop_app_length. }
    rewrite E. destruct (negb (r1 =? 0)); [injection Hsem as <-; eexists; split; [done|]; by exists b'|].
    apply bind_Some in Hsem as (m2 & Hm2 & Hsem). rewrite Hm2, some_bind. cbv zeta. eexists. split; [done|].
    destruct Hcr as [(-> & -> & ->)|(-> & Hpn & ->)].
    + change (0 =? comma) with false. injection Hsem as <-. by exists b'.
    + rewrite Z.eqb_refl. destruct (Hcp Hpn) as [Hchj Hz].
      split; [|lia]. exists parts. split; [done|]. split; [done|]. split; [done|]. split; [lia|]. split; [lia|]. split; [|split; [done|]; split; [lia|]].
      * replace (Z.to_nat (val + (zlen s + 1))) with (Z.to_nat (val + zlen s) + 1)%nat by lia. by rewrite <-drop_drop, Hd'.
      * rewrite Z.add_assoc. by destruct parts.
  - destruct (split_join s0) as (H1 & H2 & H3). exists (split s0). rewrite H2. repeat (split; [done || lia|]). done.
  - change (2 ^ Z.of_nat 32) with (2 ^ 32). lia.
  - exists b'. split; [done|]. destruct Hk as (H1 & H2 & H3). split; [done|]. split; [done|]. by rewrite H3, Hend.
Qed.

Lemma array_sets min : 0 <= max arr < 2 ^ 32 -> Sets (param_array min arr) (param_array_sem min).
Proof.
  intros Hmax b [p|] [[q s]|] m r m' Hv H; try done; unfold param_array; cbn in Hv, H.
  - destruct Hv as (-> & Hp & Hs & rest & Hb). apply bind_Some in H as (m1 & H1 & H). apply bind_Some in H as ([[ret n] m2] & H2 & [= <- <-]).
    destruct (array_run b p s rest (ret, n, m2) Hp Hb Hs Hmax m1 H2) as (b' & E & Hk). exists b'. split; [|exact Hk].
    unfold store_num in H1. rewrite H1, some_bind, E, some_bind. done.
  - injection H as <- <-. by exists b.
Qed.
End array.

(** ** The theorems *)

(** C31. Arguments written as name, name=value, name="value" or "name=value", any
    number of spaces between them, are taken apart again: parse_args ends, within
    the buffer, and has called for each argument in order, with dashes of the name
    read as underscores, the setter of the first parameter of that name, or the
    handler of unknown ones, with the value without its quotes, up to the first
    error, which it returns. *)
Theorem parse_args_reads params unknown usem lead l rest m r m' : handles unknown usem -> Forall (fun x => arg_ok x.1) l ->
  Z.of_nat lead + zlen (args_text l ++ 0 :: rest) < 2 ^ 32 -> args_sem params usem (Z.of_nat lead) l m = Some (r, m') ->
  exists b', parse_args (replicate lead (ch " ") ++ args_text l ++ 0 :: rest) 0 (map to_param params) unknown m = Some (r, b', m').
Proof.
  intros Hu Hl Hlen Hsem. unfold parse_args. change (drop (Z.to_nat 0) ?b) with b. destruct (args_rest l rest Hl) as (c & t & E & Hc & _).
  rewrite E, skip_spaces_spec, some_bind, Z.add_0_l by done. apply (args_loop params unknown usem Hu _ _ l rest); [lia | | done | | done].
  - rewrite drop_pre by (by rewrite length_replicate). by rewrite E.
  - rewrite length_app, length_replicate, <-E. lia.
Qed.

(** A list of values separated by commas sets the elements of an array: the
    string is split at the commas, the setter of the elements gets each piece and
    the address of its element, the count is kept in memory, and the first error,
    more than [max] values, fewer than one or no value at all give their code; the
    buffer is changed within the value only. *)
Theorem param_array_set_splits arr esem b p s rest m r m' : (forall arg, Sets (set arr arg) (esem arg)) -> 0 <= max arr < 2 ^ 32 ->
  0 <= p -> drop (Z.to_nat p) b = s ++ 0 :: rest -> chars s -> param_array_sem arr esem 1 (Some (p, s)) m = Some (r, m') ->
  exists b', param_array_set arr b (Some p) m = Some (r, b', m') /\ kept b b' (Some (p, s)).
Proof.
  intros Hset Hmax Hp Hb Hs Hsem. apply (array_sets arr esem Hset 1 Hmax b (Some p) (Some (p, s))); [|done].
  split; [done|]. split; [done|]. split; [done|]. by exists rest.
Qed.

(** An integer, an array of four and a flag. *)
Definition sample_array : kparam_array := mk_array 4 (Some 3000) param_set_int param_get_int 4 2000.
#[local] Instance sample_array_sets : Sets (param_array_set sample_array) (param_array_sem sample_array (std_sem s32 simple_strtol) 1).
Proof. apply array_sets; [intros arg; apply std_sets, _ | cbn; lia]. Qed.

Lemma text_chars s : forallb (fun c => (0 <? c) && (c <? 256)) (text s) = true -> chars (text s).
Proof. intros H. apply Forall_forall. intros c Hc. rewrite forallb_forall in H. apply list_elem_of_In, H in Hc. unfold is_u8. lia. Qed.

Definition sample_params : list spec_param :=
  [ mk_spec (text "debug_level") (param_set_int 1000) (std_sem s32 simple_strtol 1000) (text_chars "debug_level" eq_refl) _;
    mk_spec (text "ports") (param_array_set sample_array) _ (text_chars "ports" eq_refl) _;
    mk_spec (text "quiet") (param_set_bool 1004) (bool_sem 1004) (text_chars "quiet" eq_refl) _ ].
Definition sample_args : list (arg * nat) :=
  [ (mk_arg (text "debug-level") (Some (text "0x10")) Bare, 1%nat); (mk_arg (text "ports") (Some (text "7,-8,9")) QuotedValue, 0%nat);
    (mk_arg (text "quiet") None Bare, 2%nat) ].
Definition sample_vars : vars := list_to_map [(1000, 0); (1004, 0); (2000, 0); (2004, 0); (2008, 0); (2012, 0); (3000, 0)].
Definition sample_set : vars := list_to_map [(1000, 16); (1004, 1); (2000, 7); (2004, -8); (2008, 9); (2012, 0); (3000, 3)].

Example sample_args_text : replicate 1 (ch " ") ++ args_text sample_args =
  text " debug-level=0x10  ports=" ++ [quote] ++ text "7,-8,9" ++ [quote] ++ text " quiet  ".
Proof. reflexivity. Qed.

Lemma sample_args_ok : Forall (fun x => arg_ok x.1) sample_args.
Proof.
  assert (Hp : forall s, forallb (fun c => (0 <? c) && (c <? 256) && negb (c =? quote)) (text s) = true -> plain (text s)).
  { intros s H. apply Forall_forall. intros c Hc. rewrite forallb_forall in H. apply list_elem_of_In, H in Hc. unfold is_u8. lia. }
  assert (Hn : forall c s, forallb (fun x => negb (x =? c)) (text s) = true -> c ∉ text s).
  { intros c s H Hc. rewrite forallb_forall in H. apply list_elem_of_In, H in Hc. lia. }
  repeat constructor; cbn [fst a_name a_value a_style]; try (by apply Hp); try (by apply Hn); try done.
  intros _. by apply Hn.
Qed.

Lemma parse_args_reads_witness : args_sem sample_params (fun _ _ m => Some (- ENOENT, m)) 1 sample_args sample_vars = Some (0, sample_set) /\
  exists b', parse_args (replicate 1 (ch " ") ++ args_text sample_args ++ [0]) 0 (map to_param sample_params) None sample_vars = Some (0, b', sample_set).
Proof.
  assert (E : args_sem sample_params (fun _ _ m => Some (- ENOENT, m)) 1 sample_args sample_vars = Some (0, sample_set)) by (vm_compute; reflexivity).
  split; [exact E|]. apply (parse_args_reads sample_params None (fun _ _ m => Some (- ENOENT, m)) 1 sample_args []); [done | apply sample_args_ok | cbn; lia | exact E].
Defined.

Lemma param_array_set_splits_witness : exists b', param_array_set sample_array (text "1,2,3,4,5" ++ [0]) (Some 0) sample_vars =
  Some (- EINVAL, b', list_to_map [(1000, 0); (1004, 0); (2000, 1); (2004, 2); (2008, 3); (2012, 4); (3000, 4)]).
Proof.
  destruct (param_array_set_splits sample_array (std_sem s32 simple_strtol) (text "1,2,3,4,5" ++ [0]) 0 (text "1,2,3,4,5") [] sample_vars (- EINVAL)
    (list_to_map [(1000, 0); (1004, 0); (2000, 1); (2004, 2); (2008, 3); (2012, 4); (3000, 4)])) as (b' & E & _);
    [intros arg; apply std_sets, _ | cbn; lia | lia | reflexivity | by apply text_chars | vm_compute; reflexivity |].
  exists b'. exact E.
Defined.

(** ** What the code does beside *)

(** A byte is shown as the character of that code, which is not how it is set. *)
Example byte_get_set : let m := list_to_map [(1000, 7)] : vars in
  param_get_byte 1000 4096 (replicate 4 99) m = Some ([7; 0; 99; 99], 1) /\ option_map (fun r => r.1.1) (param_set_byte 1000 [7; 0] (Some 0) m) = Some (- EINVAL).
Proof. split; vm_compute; reflexivity. Qed.

(** A number of 33 bits is taken modulo [2 ^ 32] without an error. *)
Example int_set_wraps : option_map (fun r => (r.1.1, r.2 !! 1000)) (param_set_int 1000 (cstr "4294967298") (Some 0) (list_to_map [(1000, 7)])) = Some (0, Some 2).
Proof. vm_compute. reflexivity. Qed.

(** A quoted argument without a value keeps its closing quote. *)
Example quoted_name : option_map (fun r => (r.1.1.1, r.1.1.2)) (next_arg (quote :: text "quiet" ++ [quote; 0]) 0) = Some (quote :: text "quiet" ++ [quote; 0], 1).
Proof. vm_compute. reflexivity. Qed.

Example array_get_lists : option_map (fun r => (take 8 r.1, r.2)) (param_array_get sample_array 4096 (replicate 30 99) sample_set) = Some (text "7,-8,9" ++ [0; 99], 6).
Proof. vm_compute. reflexivity. Qed.
