(* ===== verification/Chain.v ===== *)
(** * Singly linked chains

    Lists through a [next] field, walked with a pointer to the pointer that is
    looked at ([struct node **nl]), as kernel/notifier.c and fs/nls/nls_base.c do. *)

From S2P Require Import Prelude.

(** A node type with its [next] field. *)
Class Linked (A : Type) := {
  next : A -> Z;
  set_next : A -> Z -> A;
  next_set a v : next (set_next a v) = v }.

(** [*nl] is the head pointer or the field of a node. *)
Inductive link := Head | Next (a : Z).

Section chain.
  Context {A : Type} {HA : Linked A}.

Record chain := Chain { first : Z; cells : gmap Z A }.

Definition load (st : chain) (nl : link) : option Z :=
  match nl with Head => Some (first st) | Next a => c ← cells st !! a; Some (next c) end.
Definition assign (st : chain) (nl : link) (v : Z) : option chain :=
  match nl with
  | Head => Some (Chain v (cells st))
  | Next a => c ← cells st !! a; Some (Chain (first st) (<[a := set_next c v]> (cells st)))
  end.

(** while ( *nl != NULL) { if (stop) break; nl = &( *nl)->next; } *)
Fixpoint seek (fuel : nat) (st : chain) (nl : link) (stop : Z -> A -> bool) : option link :=
  match fuel with
  | O => None
  | S fuel =>
    p ← load st nl;
    if p =? 0 then Some nl else
    c ← cells st !! p;
    if stop p c then Some nl else seek fuel st (Next p) stop
  end.

(** From [p] on the nodes are [l], and then comes NULL. *)
Fixpoint is_chain (m : gmap Z A) (p : Z) (l : list Z) : Prop :=
  match l with
  | [] => p = 0
  | a :: l => p = a /\ a <> 0 /\ exists c, m !! a = Some c /\ is_chain m (next c) l
  end.
Definition link_after (nl : link) (l : list Z) : link :=
  match last l with Some a => Next a | None => nl end.

Lemma link_after_cons nl a l : link_after nl (a :: l) = link_after (Next a) l.
Proof. unfold link_after. rewrite last_cons. by destruct (last l). Qed.

Lemma is_chain_frame m m' p l : (forall a, a ∈ l -> m' !! a = m !! a) -> is_chain m p l -> is_chain m' p l.
Proof.
  revert p. induction l as [|a l IH]; intros p Hm; [done|]. cbn [is_chain]. intros (->&Ha&c&Hc&Hl).
  split; [done|]. split; [done|]. exists c. rewrite Hm by left. split; [done|]. apply IH; [|done]. intros b Hb. apply Hm. by right.
Qed.
Lemma is_chain_insert m p l a c : a ∉ l -> is_chain m p l -> is_chain (<[a := c]> m) p l.
Proof. intros Ha. apply is_chain_frame. intros b Hb. rewrite lookup_insert_ne; [done|]. by intros ->. Qed.
Lemma is_chain_at m p l1 l2 : is_chain m p (l1 ++ l2) -> exists q, is_chain m q l2 /\
  match last l1 with None => q = p | Some a => exists c, m !! a = Some c /\ next c = q end.
Proof.
  revert p. induction l1 as [|a l1 IH]; intros p; [intros H; by exists p|]. cbn [app is_chain]. intros (->&_&c&Hc&Hl).
  destruct (IH _ Hl) as (q&Hq&Hlast). exists q. split; [done|]. rewrite last_cons. destruct (last l1); [done|]. subst q. by exists c.
Qed.
Lemma is_chain_cells m p l a : is_chain m p l -> a ∈ l -> a <> 0 /\ is_Some (m !! a).
Proof.
  revert p. induction l as [|b l IH]; intros p; [intros _ []%elem_of_nil|]. cbn [is_chain]. intros (->&Hb&c&Hc&Hl) [->|Ha]%elem_of_cons.
  - split; [done|]. by exists c.
  - by eapply IH.
Qed.
Lemma is_chain_fun m p l l' : is_chain m p l -> is_chain m p l' -> l = l'.
Proof.
  revert p l'. induction l as [|a l IH]; intros p [|b l']; cbn [is_chain]; try done.
  - by intros -> (<-&?&_).
  - by intros (->&?&_) ->.
  - intros (->&Ha&c&Hc&Hl) (<-&_&c'&Hc'&Hl'). rewrite Hc in Hc'. simplify_eq. f_equal. by eapply IH.
Qed.

Lemma is_chain_NoDup m p l : is_chain m p l -> NoDup l.
Proof.
  revert p. induction l as [|a l IH]; intros p; [constructor|]. intros H. assert (H' := H). cbn [is_chain] in H. destruct H as (->&_&c&Hc&Hl).
  constructor; [|by eapply IH]. intros Ha. apply list_elem_of_split in Ha as (l1&l2&->).
  assert (Hshort : is_chain m a (a :: l2)).
  { destruct (is_chain_at _ _ _ _ Hl) as (q&Hq&_). assert (q = a) as -> by by destruct Hq. done. }
  pose proof (is_chain_fun _ _ _ _ H' Hshort) as He. apply (f_equal length) in He. simpl in He. rewrite length_app in He. simpl in He. lia.
Qed.
Lemma is_chain_length m p l : is_chain m p l -> (length l <= size m)%nat.
Proof.
  intros H. rewrite <- size_dom, <- (size_list_to_set (C := gset Z) l) by by eapply is_chain_NoDup.
  apply subseteq_size. intros a Ha. apply elem_of_list_to_set in Ha. apply elem_of_dom. by eapply is_chain_cells.
Qed.

(** The walk stops behind the nodes that do not satisfy the condition. *)
Lemma seek_ok fuel : forall st nl l p stop, load st nl = Some p -> is_chain (cells st) p l -> (length l < fuel)%nat ->
  exists l1 l2, l = l1 ++ l2 /\ seek fuel st nl stop = Some (link_after nl l1) /\
    (forall a c, a ∈ l1 -> cells st !! a = Some c -> stop a c = false) /\
    match l2 with [] => True | a :: _ => exists c, cells st !! a = Some c /\ stop a c = true end.
Proof.
  induction fuel as [|fuel IH]; intros st nl l p stop Hp Hl Hf; [lia|]. cbn [seek]. rewrite Hp, some_bind.
  destruct l as [|a l]; cbn [is_chain] in Hl.
  { subst p. exists [], []. split; [done|]. split; [done|]. split; [|done]. intros a c []%elem_of_nil. }
  destruct Hl as (->&Ha&c&Hc&Hl). destruct (Z.eqb_spec a 0); [done|]. rewrite Hc, some_bind.
  destruct (stop a c) eqn:Hs.
  { exists [], (a :: l). split; [done|]. split; [done|]. split; [intros b d []%elem_of_nil|]. by exists c. }
  destruct (IH st (Next a) l (next c) stop) as (l1&l2&->&Hseek&Hno&Hstop); [by cbn [load]; rewrite Hc|done|simpl in Hf; lia|].
  exists (a :: l1), l2. split; [done|]. split; [by rewrite link_after_cons|]. split; [|done].
  intros b d [->|Hb]%elem_of_cons Hd; [by rewrite Hc in Hd; simplify_eq|by eapply Hno].
Qed.

(** Everything of a node but its [next] field. *)
Definition same_but_next (m m' : gmap Z A) : Prop :=
  forall a c, m !! a = Some c -> exists c', m' !! a = Some c' /\ (c' = c \/ exists v, c' = set_next c v).

Lemma load_after st l1 l2 : is_chain (cells st) (first st) (l1 ++ l2) -> exists q,
  load st (link_after Head l1) = Some q /\ is_chain (cells st) q l2.
Proof.
  intros H. destruct (is_chain_at _ _ _ _ H) as (q&Hq&Hlast). exists q. split; [|done]. unfold link_after.
  destruct (last l1) as [a|]; cbn [load]; [|by rewrite Hlast]. destruct Hlast as (c&->&<-). done.
Qed.

Lemma is_chain_app_intro m p l1 l2 q : is_chain m q l2 -> NoDup l1 ->
  forall l, is_chain m p (l1 ++ l) -> forall a c, last l1 = Some a -> m !! a = Some c ->
  (forall b, b ∈ l2 -> b <> a) -> is_chain (<[a := set_next c q]> m) p (l1 ++ l2).
Proof.
  intros Hq. revert p. induction l1 as [|b l1 IH]; intros p Hnd l Hl a c Hlast Hc Hne; [done|].
  cbn [app is_chain] in *. destruct Hl as (->&Hb&d&Hd&Hl). split; [done|]. split; [done|]. apply NoDup_cons in Hnd as [Hb1 Hnd].
  rewrite last_cons in Hlast. destruct (last l1) as [a'|] eqn:Hl1.
  - simplify_eq. assert (Hba : a <> b) by (intros ->; apply Hb1; by eapply last_Some_elem_of).
    exists d. rewrite lookup_insert_ne by done. split; [done|]. by eapply IH.
  - simplify_eq. rewrite lookup_insert_eq. eexists. split; [done|]. rewrite next_set.
    apply last_None in Hl1. subst l1. simpl. apply is_chain_insert; [|done]. intros Ha. by apply (Hne a).
Qed.

(** A list that is cut behind [l1] and goes on with [l3]. *)
Lemma is_chain_relink m m' p l1 l2 l3 x : is_chain m p (l1 ++ l2) -> NoDup l1 -> last l1 = Some x ->
  (forall a, a ∈ l1 -> a <> x -> m' !! a = m !! a) -> (exists c, m' !! x = Some c /\ is_chain m' (next c) l3) ->
  is_chain m' p (l1 ++ l3).
Proof.
  revert p. induction l1 as [|a l1 IH]; intros p Hl Hnd Hlast Hm Hx; [done|].
  cbn [app is_chain] in *. destruct Hl as (->&Ha&c&Hc&Hl). split; [done|]. split; [done|]. apply NoDup_cons in Hnd as [Ha1 Hnd].
  rewrite last_cons in Hlast. destruct (last l1) as [y|] eqn:Hl1.
  - simplify_eq. exists c. rewrite Hm; [|left|intros ->; apply Ha1; by eapply last_Some_elem_of]. split; [done|].
    eapply IH; try done. intros b Hb. apply Hm. by right.
  - simplify_eq. apply last_None in Hl1. subst l1. exact Hx.
Qed.

(** Writing through the link makes the rest [l3]; only that field changes. *)
Lemma assign_ok st l1 l2 l3 v : is_chain (cells st) (first st) (l1 ++ l2) -> NoDup l1 -> is_chain (cells st) v l3 ->
  (forall b, b ∈ l3 -> b ∉ l1) -> exists st', assign st (link_after Head l1) v = Some st' /\
    is_chain (cells st') (first st') (l1 ++ l3) /\
    (forall a, last l1 <> Some a -> cells st' !! a = cells st !! a) /\
    (forall a c, last l1 = Some a -> cells st !! a = Some c -> cells st' !! a = Some (set_next c v)) /\
    (last l1 <> None -> first st' = first st).
Proof.
  intros Hl Hnd Hv Hdis. unfold link_after. destruct (last l1) as [a|] eqn:Hlast; cbn [assign].
  - assert (Ha : a ∈ l1) by by eapply last_Some_elem_of.
    destruct (is_chain_cells _ _ _ a Hl) as [_ [c Hc]]; [set_solver|]. rewrite Hc, some_bind. eexists. split; [done|].
    cbn [cells first]. split; [eapply is_chain_app_intro; try done; intros b Hb ->; by eapply Hdis|]. split; [|split; [|done]].
    + intros b Hb. rewrite lookup_insert_ne; [done|]. by intros ->.
    + intros b d [= <-] Hd. rewrite Hc in Hd. simplify_eq. by rewrite lookup_insert_eq.
  - apply last_None in Hlast. subst l1. eexists. split; [done|]. cbn [cells first app]. split_and!; done.
Qed.
End chain.
Arguments chain : clear implicits.
