(* ===== verification/Notifier.v ===== *)
(** * kernel/notifier.c: notifier chains

    Blocks with a function, kept in descending order of priority.  A chain and the
    memory of its blocks are a [chain notifier_block] (Chain.v).  The locks of the four kinds of heads
    make registering and unregistering atomic; calling the chain of an atomic or
    SRCU head runs beside them. *)

From stdpp Require Import sorting.
From S2P Require Import Prelude Chain.

Record notifier_block := Block { notifier_call : Z; nb_next : Z; priority : Z }.
#[export] Instance notifier_linked : Linked notifier_block := {|
  next := nb_next;
  set_next b v := Block (notifier_call b) v (priority b);
  next_set _ _ := eq_refl |}.

Definition NOTIFY_DONE : Z := 0.
Definition NOTIFY_OK : Z := 1.
Definition NOTIFY_STOP_MASK : Z := 32768.
Definition NOTIFY_BAD : Z := Z.lor NOTIFY_STOP_MASK 2.
Definition NOTIFY_STOP : Z := Z.lor NOTIFY_OK NOTIFY_STOP_MASK.
Definition ENOENT : Z := 2.

(** Enough turns for a chain of the blocks in memory. *)
Definition turns (st : chain notifier_block) : nat := S (size (cells st)).
Definition set_cell (st : chain notifier_block) (n : Z) (b : notifier_block) : chain notifier_block :=
  Chain (first st) (<[n := b]> (cells st)).

Definition notifier_chain_register (st : chain notifier_block) (n : Z) : option (chain notifier_block * Z) :=
  b ← cells st !! n;
  nl ← seek (turns st) st Head (fun _ c => priority c <? priority b);
  v ← load st nl;
  st ← assign (set_cell st n (set_next b v)) nl n;
  Some (st, 0).

Definition notifier_chain_unregister (st : chain notifier_block) (n : Z) : option (chain notifier_block * Z) :=
  nl ← seek (turns st) st Head (fun p _ => p =? n);
  p ← load st nl;
  if p =? 0 then Some (st, - ENOENT) else
  c ← cells st !! n;
  st ← assign st nl (next c);
  Some (st, 0).

(** The functions are a parameter, with the state they work on: function, block,
    value and pointer to the result. *)
Section calls.
  Context {W : Type} (invoke : Z -> Z -> Z -> Z -> W -> Z * W).

(** The locals of notifier_call_chain, with *nr_calls unless it is NULL. *)
Record walk := Walk { w_nb : Z; w_to_call : Z; w_calls : option Z; w_ret : Z; w_world : W }.

(** One turn of the loop, which goes on or ends with the result, *nr_calls and the state. *)
Definition call_turn (st : chain notifier_block) (val v : Z) (s : walk) : option (walk + Z * option Z * W) :=
  let '(Walk nb nr_to_call nr_calls ret w) := s in
  if (nb =? 0) || (nr_to_call =? 0) then Some (inr (ret, nr_calls, w)) else
  c ← cells st !! nb;
  let next_nb := next c in
  let '(ret, w) := invoke (notifier_call c) nb val v w in
  let nr_calls := Z.add 1 <$> nr_calls in
  Some (if Z.land ret NOTIFY_STOP_MASK =? NOTIFY_STOP_MASK then inr (ret, nr_calls, w)
        else inl (Walk next_nb (nr_to_call - 1) nr_calls ret w)).
Fixpoint call_loop (fuel : nat) (st : chain notifier_block) (val v : Z) (s : walk) : option (Z * option Z * W) :=
  match fuel with
  | O => None
  | S fuel =>
    o ← call_turn st val v s;
    match o with inl s => call_loop fuel st val v s | inr r => Some r end
  end.
Definition call_start (st : chain notifier_block) (nr_to_call : Z) (nr_calls : option Z) (w : W) : walk :=
  Walk (first st) nr_to_call nr_calls NOTIFY_DONE w.
Definition notifier_call_chain (st : chain notifier_block) (val v nr_to_call : Z) (nr_calls : option Z) (w : W)
    : option (Z * option Z * W) :=
  call_loop (turns st) st val v (call_start st nr_to_call nr_calls w).

(** The heads; the locks around the calls are not seen in one operation. *)
Definition __atomic_notifier_call_chain st val v nr_to_call nr_calls w :=
  notifier_call_chain st val v nr_to_call nr_calls w.
Definition atomic_notifier_call_chain st val v w :=
  r ← __atomic_notifier_call_chain st val v (-1) None w; Some (r.1.1, r.2).
Definition __blocking_notifier_call_chain st val v nr_to_call nr_calls w :=
  if negb (first st =? 0) then notifier_call_chain st val v nr_to_call nr_calls w
  else Some (NOTIFY_DONE, nr_calls, w).
Definition blocking_notifier_call_chain st val v w :=
  r ← __blocking_notifier_call_chain st val v (-1) None w; Some (r.1.1, r.2).
Definition __raw_notifier_call_chain st val v nr_to_call nr_calls w :=
  notifier_call_chain st val v nr_to_call nr_calls w.
Definition raw_notifier_call_chain st val v w :=
  r ← __raw_notifier_call_chain st val v (-1) None w; Some (r.1.1, r.2).
Definition __srcu_notifier_call_chain st val v nr_to_call nr_calls w :=
  notifier_call_chain st val v nr_to_call nr_calls w.
Definition srcu_notifier_call_chain st val v w :=
  r ← __srcu_notifier_call_chain st val v (-1) None w; Some (r.1.1, r.2).
End calls.
Arguments Walk {W}.
Arguments w_nb {W}.
Arguments w_to_call {W}.
Arguments w_calls {W}.
Arguments w_ret {W}.
Arguments w_world {W}.
Arguments call_start {W}.

Definition atomic_notifier_chain_register := notifier_chain_register.
Definition atomic_notifier_chain_unregister := notifier_chain_unregister.
Definition blocking_notifier_chain_register := notifier_chain_register.
Definition blocking_notifier_chain_unregister := notifier_chain_unregister.
Definition raw_notifier_chain_register := notifier_chain_register.
Definition raw_notifier_chain_unregister := notifier_chain_unregister.
Definition srcu_notifier_chain_register := notifier_chain_register.
Definition srcu_notifier_chain_unregister := notifier_chain_unregister.
Definition register_reboot_notifier := blocking_notifier_chain_register.
Definition unregister_reboot_notifier := blocking_notifier_chain_unregister.
Definition register_die_notifier := atomic_notifier_chain_register.
Definition unregister_die_notifier := atomic_notifier_chain_unregister.

(** ** What the operations do to the list of blocks *)

(** The order: no block before one of higher priority. *)
Definition by_priority (prio : Z -> Z) (l : list Z) : Prop := StronglySorted (fun a b => prio b <= prio a) l.
(** Blocks have the priorities [prio], and the chain is [l]. *)
Definition holds_chain (prio : Z -> Z) (st : chain notifier_block) (l : list Z) : Prop :=
  is_chain (cells st) (first st) l /\ by_priority prio l /\ (forall a c, cells st !! a = Some c -> priority c = prio a).

Fixpoint insert_block (prio : Z -> Z) (n : Z) (l : list Z) : list Z :=
  match l with
  | [] => [n]
  | a :: l => if prio a <? prio n then n :: a :: l else a :: insert_block prio n l
  end.
Fixpoint remove_block (n : Z) (l : list Z) : list Z :=
  match l with [] => [] | a :: l => if a =? n then l else a :: remove_block n l end.

Section lists.
  Context (prio : Z -> Z).

Lemma insert_split n l1 l2 : (forall a, a ∈ l1 -> prio n <= prio a) -> match l2 with [] => True | a :: _ => prio a < prio n end ->
  insert_block prio n (l1 ++ l2) = l1 ++ n :: l2.
Proof.
  intros H1 H2. induction l1 as [|a l1 IH]; cbn [app insert_block].
  - destruct l2 as [|a l2]; [done|]. cbn [insert_block]. by destruct (Z.ltb_spec (prio a) (prio n)); [|lia].
  - destruct (Z.ltb_spec (prio a) (prio n)) as [Hlt|]; [specialize (H1 a ltac:(left)); lia|]. rewrite IH; [done|]. intros b Hb. apply H1. by right.
Qed.
Lemma remove_split n l1 l2 : n ∉ l1 -> remove_block n (l1 ++ n :: l2) = l1 ++ l2.
Proof.
  intros H. induction l1 as [|a l1 IH]; cbn [app remove_block]; [by rewrite Z.eqb_refl|].
  destruct (Z.eqb_spec a n); [subst; exfalso; apply H; left|]. rewrite IH; [done|]. intros Hn. apply H. by right.
Qed.
Lemma remove_absent n l : n ∉ l -> remove_block n l = l.
Proof.
  intros H. induction l as [|a l IH]; [done|]. cbn [remove_block]. destruct (Z.eqb_spec a n); [subst; exfalso; apply H; left|].
  rewrite IH; [done|]. intros Hn. apply H. by right.
Qed.

Lemma by_priority_insert n l1 l2 : by_priority prio (l1 ++ l2) -> (forall a, a ∈ l1 -> prio n <= prio a) ->
  match l2 with [] => True | a :: _ => prio a < prio n end -> by_priority prio (l1 ++ n :: l2).
Proof.
  unfold by_priority. rewrite !StronglySorted_app, StronglySorted_cons. intros (H12&H1&H2) Hn Hhd. split; [|split; [done|split; [|done]]].
  - intros a b Ha [->|Hb]%elem_of_cons; auto.
  - apply Forall_forall. intros b Hb. destruct l2 as [|a l2]; [by apply elem_of_nil in Hb|].
    apply StronglySorted_cons in H2 as [H2 _]. rewrite Forall_forall in H2. apply elem_of_cons in Hb as [->|Hb]; [lia|]. specialize (H2 b Hb). lia.
Qed.
Lemma by_priority_pair l1 l2 a b : by_priority prio (l1 ++ l2) -> a ∈ l1 -> b ∈ l2 -> prio b <= prio a.
Proof. unfold by_priority. rewrite StronglySorted_app. intros (H&_). apply H. Qed.
Lemma by_priority_remove n l1 l2 : by_priority prio (l1 ++ n :: l2) -> by_priority prio (l1 ++ l2).
Proof.
  unfold by_priority. rewrite !StronglySorted_app, StronglySorted_cons. intros (H12&H1&_&H2). split; [|done].
  intros a b Ha Hb. apply H12; [done|by right].
Qed.

(** Where registering links the block, and what it leaves alone. *)
Lemma register_ok st l n : holds_chain prio st l -> n ∉ l -> n <> 0 -> is_Some (cells st !! n) ->
  exists l1 l2 st', l = l1 ++ l2 /\ notifier_chain_register st n = Some (st', 0) /\ holds_chain prio st' (l1 ++ n :: l2) /\
    insert_block prio n l = l1 ++ n :: l2 /\
    (forall a, a ∈ l1 -> prio n <= prio a) /\ match l2 with [] => True | a :: _ => prio a < prio n end /\
    (forall a, a <> n -> last l1 <> Some a -> cells st' !! a = cells st !! a) /\ same_but_next (cells st) (cells st').
Proof.
  intros (Hl&Hs&Hp) Hn H0 [b Hb]. unfold notifier_chain_register. rewrite Hb, some_bind.
  destruct (seek_ok (turns st) st Head l (first st) (fun _ c => priority c <? priority b)) as (l1&l2&->&->&Hno&Hyes); try done.
  { unfold turns. pose proof (is_chain_length _ _ _ Hl). lia. }
  rewrite some_bind. destruct (load_after st l1 l2 Hl) as (v&->&Hv). rewrite some_bind.
  assert (Hn1 : n ∉ l1 /\ n ∉ l2) by set_solver. destruct Hn1 as [Hn1 Hn2].
  assert (Hnd : NoDup (l1 ++ l2)) by by eapply is_chain_NoDup. apply NoDup_app in Hnd as (Hnd1&Hdis&Hnd2).
  set (st0 := set_cell st n (set_next b v)).
  destruct (assign_ok st0 l1 l2 (n :: l2) n) as (st'&->&Hl'&Hsame&Hlast&_).
  { subst st0. unfold set_cell. cbn [cells first]. by apply is_chain_insert. } { done. }
  { subst st0. unfold set_cell. cbn [cells is_chain]. split; [done|]. split; [done|]. eexists. rewrite lookup_insert_eq. split; [done|].
    change (next (set_next b v)) with v. by apply is_chain_insert. }
  { intros a [->|Ha]%elem_of_cons; [done|]. intros Ha1. by apply (Hdis a). }
  rewrite some_bind. exists l1, l2, st'.
  assert (Hle : forall a, a ∈ l1 -> prio n <= prio a).
  { intros a Ha. destruct (is_chain_cells _ _ _ a Hl) as [_ [c Hc]]; [set_solver|]. specialize (Hno a c Ha Hc).
    apply Z.ltb_ge in Hno. by rewrite (Hp n b Hb), (Hp a c Hc) in Hno. }
  assert (Hhd : match l2 with [] => True | a :: _ => prio a < prio n end).
  { destruct l2 as [|a l2]; [done|]. destruct Hyes as (c&Hc&Hlt). apply Z.ltb_lt in Hlt. by rewrite (Hp n b Hb), (Hp a c Hc) in Hlt. }
  assert (Hsbn : same_but_next (cells st) (cells st')).
  { intros a c Hc. destruct (decide (last l1 = Some a)) as [Ha|Ha].
    - assert (a <> n) by (intros ->; apply Hn1; by eapply last_Some_elem_of).
      exists (set_next c n). rewrite (Hlast a c) by (try done; subst st0; unfold set_cell; cbn [cells]; by rewrite lookup_insert_ne).
      split; [done|]. right. by eexists.
    - rewrite Hsame by done. subst st0. unfold set_cell. cbn [cells]. rewrite lookup_insert. case_decide as E; [subst a; simplify_eq; eexists; split; [done|]; right; by eexists|].
      exists c. split; [done|by left]. }
  split; [done|]. split; [done|]. split; [|split; [by apply insert_split|split; [done|split; [done|split; [|done]]]]].
  - split; [done|]. split; [by apply by_priority_insert|]. intros a c Hc.
    destruct (cells st !! a) as [d|] eqn:Hd.
    + destruct (Hsbn a d Hd) as (d'&Hd'&Hcase). rewrite Hc in Hd'. simplify_eq. rewrite <- (Hp a d Hd). by destruct Hcase as [->|[? ->]].
    + exfalso. assert (Hla : last l1 <> Some a).
      { intros Ha. destruct (is_chain_cells _ _ _ a Hl) as [_ [? ?]]; [|congruence]. apply elem_of_app. left. by eapply last_Some_elem_of. }
      rewrite Hsame in Hc by done. subst st0. unfold set_cell in Hc. cbn [cells] in Hc. rewrite lookup_insert in Hc. case_decide; [subst a|]; congruence.
  - intros a Han Ha. rewrite Hsame by done. subst st0. unfold set_cell. cbn [cells]. by rewrite lookup_insert_ne.
Qed.

Lemma unregister_ok st l n : holds_chain prio st l ->
  (n ∉ l /\ notifier_chain_unregister st n = Some (st, - ENOENT)) \/
  exists l1 l2 st', l = l1 ++ n :: l2 /\ notifier_chain_unregister st n = Some (st', 0) /\ holds_chain prio st' (l1 ++ l2) /\
    (forall a, last l1 <> Some a -> cells st' !! a = cells st !! a) /\ same_but_next (cells st) (cells st').
Proof.
  intros (Hl&Hs&Hp). unfold notifier_chain_unregister.
  destruct (seek_ok (turns st) st Head l (first st) (fun p _ => p =? n)) as (l1&l2&->&->&Hno&Hyes); try done.
  { unfold turns. pose proof (is_chain_length _ _ _ Hl). lia. }
  rewrite some_bind. destruct (load_after st l1 l2 Hl) as (v&->&Hv). rewrite some_bind. destruct l2 as [|a l2].
  { cbn [is_chain] in Hv. subst v. left. split; [|done]. rewrite app_nil_r. intros Hn. rewrite app_nil_r in Hl.
    destruct (is_chain_cells _ _ _ n Hl Hn) as [_ [c Hc]]. specialize (Hno n c Hn Hc). by rewrite Z.eqb_refl in Hno. }
  right. cbn [is_chain] in Hv. destruct Hv as (->&Ha0&c&Hc&Hl2). destruct Hyes as (c'&Hc'&Han). rewrite Hc in Hc'. simplify_eq.
  apply Z.eqb_eq in Han. subst a. destruct (Z.eqb_spec n 0); [done|]. rewrite Hc, some_bind.
  assert (Hnd : NoDup (l1 ++ n :: l2)) by by eapply is_chain_NoDup. apply NoDup_app in Hnd as (Hnd1&Hdis&Hnd2).
  destruct (assign_ok st l1 (n :: l2) l2 (next c')) as (st'&->&Hl'&Hsame&Hlast&_); try done.
  { intros b Hb Hb1. apply (Hdis b Hb1). by right. }
  rewrite some_bind.
  assert (Hsbn : same_but_next (cells st) (cells st')).
  { intros b d Hd. destruct (decide (last l1 = Some b)) as [Hb|Hb].
    - exists (set_next d (next c')). split; [by apply Hlast|]. right. by eexists.
    - exists d. rewrite Hsame by done. split; [done|by left]. }
  exists l1, l2, st'. split; [done|]. split; [done|]. split; [|done]. split; [done|]. split; [by eapply by_priority_remove|].
  intros b d Hd. destruct (cells st !! b) as [e|] eqn:He.
  - destruct (Hsbn b e He) as (e'&He'&Hcase). rewrite Hd in He'. simplify_eq. rewrite <- (Hp b e He). by destruct Hcase as [->|[? ->]].
  - destruct (decide (last l1 = Some b)) as [Hb|Hb]; [|rewrite Hsame in Hd by done; congruence].
    destruct (is_chain_cells _ _ _ b Hl) as [_ [? ?]]; [apply elem_of_app; left; by eapply last_Some_elem_of|congruence].
Qed.
End lists.

(** ** Calling the chain *)

Section deliver.
  Context {W : Type} (invoke : Z -> Z -> Z -> Z -> W -> Z * W).

(** The blocks of the list one after the other, until one stops or [nr] were called. *)
Fixpoint deliver (func : Z -> Z) (l : list Z) (val v nr : Z) (calls : option Z) (ret : Z) (w : W) : Z * option Z * W :=
  match l with
  | [] => (ret, calls, w)
  | n :: l =>
    if nr =? 0 then (ret, calls, w) else
    let '(ret, w) := invoke (func n) n val v w in
    if Z.land ret NOTIFY_STOP_MASK =? NOTIFY_STOP_MASK then (ret, Z.add 1 <$> calls, w)
    else deliver func l val v (nr - 1) (Z.add 1 <$> calls) ret w
  end.
Definition func_of (st : chain notifier_block) (n : Z) : Z :=
  match cells st !! n with Some c => notifier_call c | None => 0 end.

Lemma call_loop_ok st val v l : forall fuel nb nr calls ret w, is_chain (cells st) nb l -> (length l < fuel)%nat ->
  call_loop invoke fuel st val v (Walk nb nr calls ret w) = Some (deliver (func_of st) l val v nr calls ret w).
Proof.
  induction l as [|a l IH]; intros [|fuel] nb nr calls ret w Hl Hf; try (simpl in Hf; lia); cbn [call_loop call_turn deliver is_chain] in *.
  - by subst nb.
  - destruct Hl as (->&Ha&c&Hc&Hl). destruct (Z.eqb_spec a 0); [done|]. cbn [orb]. destruct (nr =? 0); [done|].
    rewrite Hc, some_bind. unfold func_of at 1. rewrite Hc. destruct (invoke _ _ _ _ _) as [r w'].
    destruct (_ =? _); [done|]. rewrite some_bind. apply IH; [done|]. simpl in Hf. lia.
Qed.

Lemma deliver_ext f g l val v nr calls ret w : (forall a, a ∈ l -> f a = g a) ->
  deliver f l val v nr calls ret w = deliver g l val v nr calls ret w.
Proof.
  revert nr calls ret w. induction l as [|a l IH]; intros nr calls ret w H; [done|]. cbn [deliver]. rewrite (H a) by left.
  destruct (nr =? 0); [done|]. destruct (invoke _ _ _ _ _) as [r w']. destruct (_ =? _); [done|]. apply IH. intros b Hb. apply H. by right.
Qed.

(** C36. A notifier chain is a list in descending order of priority: registering a
    block puts it behind those of its priority or higher, unregistering takes it out
    or reports -ENOENT, and calling the chain calls the blocks in the order of the
    list, as many as asked for, up to the first that stops it, and gives the last
    answer and the number of calls. *)
Theorem notifier_chain_refines prio st l val v nr calls w : holds_chain prio st l ->
  (forall n, n <> 0 -> n ∉ l -> is_Some (cells st !! n) -> exists st',
     notifier_chain_register st n = Some (st', 0) /\ holds_chain prio st' (insert_block prio n l)) /\
  (forall n, exists st', notifier_chain_unregister st n = Some (st', if decide (n ∈ l) then 0 else - ENOENT) /\
     holds_chain prio st' (remove_block n l)) /\
  notifier_call_chain invoke st val v nr calls w = Some (deliver (func_of st) l val v nr calls NOTIFY_DONE w).
Proof.
  intros H. split; [|split].
  - intros n H0 Hn Hc. destruct (register_ok prio st l n H Hn H0 Hc) as (l1&l2&st'&_&->&Hst&->&_). by exists st'.
  - intros n. destruct (unregister_ok prio st l n H) as [[Hn ->]|(l1&l2&st'&->&->&Hst&_)].
    + exists st. rewrite decide_False, remove_absent by done. done.
    + exists st'. rewrite decide_True by set_solver. split; [done|]. rewrite remove_split; [done|].
      destruct H as (Hl&_). apply is_chain_NoDup, NoDup_app in Hl as (_&Hdis&_). intros Hn. apply (Hdis n Hn). left.
  - destruct H as (Hl&_). apply call_loop_ok; [done|]. unfold turns. pose proof (is_chain_length _ _ _ Hl). lia.
Qed.
End deliver.

(** ** Calling while others register

    The chain of an atomic or SRCU head is read without the lock.  The reader runs
    the turns of notifier_call_chain; between two of them, and while a function runs,
    which is after the link to the next block was read, others may register new blocks
    and unregister old ones, whose memory is kept until the reader is done, since
    synchronize_rcu waits for it. *)

Section reader.
  Context {W : Type} (invoke : Z -> Z -> Z -> Z -> W -> Z * W) (prio : Z -> Z) (val v : Z).

(** The chain, the call of notifier_call_chain, running or with its results, and the
    blocks it has called. *)
Record reader := Reader { r_chain : chain notifier_block; r_walk : walk (W:=W) + Z * option Z * W; r_called : list Z }.
Inductive event := Call | Register (n f : Z) | Unregister (n : Z).

(** The block a turn calls. *)
Definition calls_now (k : walk (W:=W)) : list Z := if (w_nb k =? 0) || (w_to_call k =? 0) then [] else [w_nb k].

(** One turn of the loop of notifier_call_chain, and the other tasks' calls; a block
    that is registered is new. *)
Definition react (s : reader) (e : event) : option reader :=
  match e with
  | Call =>
    match r_walk s with
    | inl k => o ← call_turn invoke (r_chain s) val v k; Some (Reader (r_chain s) o (r_called s ++ calls_now k))
    | inr _ => Some s
    end
  | Register n f =>
    if (n =? 0) || bool_decide (is_Some (cells (r_chain s) !! n)) then Some s else
    r ← notifier_chain_register (set_cell (r_chain s) n (Block f 0 (prio n))) n;
    Some (Reader r.1 (r_walk s) (r_called s))
  | Unregister n =>
    r ← notifier_chain_unregister (r_chain s) n;
    Some (Reader r.1 (r_walk s) (r_called s))
  end.
Fixpoint react_all (s : reader) (l : list event) : option reader :=
  match l with [] => Some s | e :: l => s ← react s e; react_all s l end.

Definition registered (l : list event) : list Z := flat_map (fun e => match e with Register n _ => [n] | _ => [] end) l.
Definition unregistered (l : list event) : list Z := flat_map (fun e => match e with Unregister n => [n] | _ => [] end) l.

(** The chain in [c] is [P ++ S]; the reader at [p] has [D ++ S] before it, where [D]
    are blocks that are not in the chain any more, and [called] behind it.  [start]
    is the chain when it started. *)
Definition reading (start : list Z) (past : list event) (c : chain notifier_block) (called : list Z) (p : Z) (P D S : list Z) : Prop :=
  holds_chain prio c (P ++ S) /\
  is_chain (cells c) p (D ++ S) /\
  (forall a, a ∈ D -> a ∉ P ++ S) /\
  NoDup (called ++ D ++ S) /\ by_priority prio (called ++ D ++ S) /\
  (forall a, a ∈ called ++ P ++ D ++ S -> is_Some (cells c !! a) /\ (a ∈ start \/ a ∈ registered past)) /\
  (forall a, a ∈ start -> a ∉ unregistered past -> a ∈ called \/ a ∈ S).

Lemma cells_kept (st st' : chain notifier_block) : same_but_next (cells st) (cells st') -> forall a, is_Some (cells st !! a) -> is_Some (cells st' !! a).
Proof. intros H a [c Hc]. destruct (H a c Hc) as (c'&Hc'&_). by exists c'. Qed.

Lemma reading_start st l : holds_chain prio st l -> reading l [] st [] (first st) [] [] l.
Proof.
  intros H. assert (Hc := H). destruct Hc as (Hl&Hs&_). split; [done|]. split; [done|]. split; [intros a []%elem_of_nil|].
  split; [by eapply is_chain_NoDup|]. split; [done|]. split; [|intros a Ha _; by right].
  intros a Ha. split; [by eapply is_chain_cells|by left].
Qed.

(** More events behind, and nothing changed. *)
Lemma reading_past start past c called p P D S e : reading start past c called p P D S -> reading start (past ++ [e]) c called p P D S.
Proof.
  intros (Hh&Ht&HD&Hnd&Hso&Hin&Hk). unfold reading, registered, unregistered in *. rewrite !flat_map_app. split_and!; try done.
  - intros a Ha. destruct (Hin a Ha) as [? Hs]. split; [done|]. rewrite elem_of_app. naive_solver.
  - intros a Ha. rewrite elem_of_app. naive_solver.
Qed.

(** The block at [p] is called. *)
Lemma reading_call start past c called p P D S : reading start past c called p P D S -> p <> 0 -> exists b P' D' S',
  cells c !! p = Some b /\ reading start past c (called ++ [p]) (next b) P' D' S'.
Proof.
  intros (Hh&Ht&HD&Hnd&Hso&Hin&Hk) H0.
  assert (Hcell : forall b rest, D ++ S = b :: rest -> p = b /\ exists d, cells c !! b = Some d /\ is_chain (cells c) (next d) rest).
  { intros b rest He. rewrite He in Ht. cbn [is_chain] in Ht. tauto. }
  destruct D as [|d D].
  - destruct S as [|b S]; [by cbn [app is_chain] in Ht|]. destruct (Hcell b S eq_refl) as (->&d&Hc&Hn).
    exists d, (P ++ [b]), [], S. split; [done|]. unfold reading. rewrite <- !app_assoc. cbn [app] in *. split_and!; try done.
    + intros a Ha. apply Hin. set_solver.
    + intros a Ha Hu. destruct (Hk a Ha Hu) as [|[->|]%elem_of_cons]; set_solver.
  - destruct (Hcell d (D ++ S) eq_refl) as (->&e&Hc&Hn).
    exists e, P, D, S. split; [done|]. unfold reading. rewrite <- !app_assoc. cbn [app] in *. split_and!; try done.
    + intros a Ha. apply HD. by right.
    + intros a Ha. apply Hin. set_solver.
    + intros a Ha Hu. destruct (Hk a Ha Hu); set_solver.
Qed.

(** Where a cut of [P ++ S] falls. *)
Lemma cut_cases (P S l1 l2 : list Z) : P ++ S = l1 ++ l2 ->
  (exists k, P = l1 ++ k /\ l2 = k ++ S) \/ (exists k x, last k = Some x /\ l1 = P ++ k /\ S = k ++ l2).
Proof.
  intros H. apply app_eq_inv in H as [(k&->&->)|(k&->&->)].
  - left. by exists k.
  - destruct (last k) as [x|] eqn:Hk; [right|left].
    + by exists k, x.
    + apply last_None in Hk. subst k. exists []. split; [by rewrite !app_nil_r|done].
Qed.

(** The reader's way when the link behind [l1] was written, outside of it or in it. *)
Lemma way_outside (m m' : gmap Z notifier_block) p D S l1 n : is_chain m p (D ++ S) -> n ∉ D ++ S ->
  (forall a, a ∈ l1 -> a ∉ D ++ S) -> (forall a, a <> n -> last l1 <> Some a -> m' !! a = m !! a) -> is_chain m' p (D ++ S).
Proof.
  intros Ht Hn Hl1 Hm. eapply is_chain_frame; [|exact Ht]. intros a Ha. apply Hm; [by intros ->|].
  intros Hla. apply (Hl1 a); [by eapply last_Some_elem_of|done].
Qed.
Lemma way_inside (m m' : gmap Z notifier_block) p q D k l2 l3 P n x : is_chain m p (D ++ k ++ l2) -> NoDup (D ++ k ++ l2) -> last k = Some x ->
  n ∉ D ++ k -> (forall a, a <> n -> last (P ++ k) <> Some a -> m' !! a = m !! a) ->
  is_chain m' q ((P ++ k) ++ l3) -> is_chain m' p (D ++ k ++ l3).
Proof.
  intros Ht Hnd Hk Hn Hm Hq. rewrite app_assoc in Ht, Hnd |- *.
  assert (Hl : forall l, last (l ++ k) = Some x) by (intros l; rewrite last_app; by rewrite Hk).
  eapply (is_chain_relink m m' p (D ++ k) l2 l3 x); [done|by apply NoDup_app in Hnd as [? _]|apply Hl| |].
  - intros a Ha Hax. apply Hm; [by intros ->|]. rewrite Hl. congruence.
  - destruct (is_chain_at _ _ _ _ Hq) as (r&Hr&Hlast). rewrite Hl in Hlast. destruct Hlast as (c&Hc&<-). by exists c.
Qed.

Lemma register_step start past ch called p P D S n f : reading start past ch called p P D S -> n <> 0 -> cells ch !! n = None -> exists c' P' D' S',
  notifier_chain_register (set_cell ch n (Block f 0 (prio n))) n = Some (c', 0) /\ reading start (past ++ [Register n f]) c' called p P' D' S' /\
  (forall a, a ∈ called -> func_of c' a = func_of ch a).
Proof.
  assert (Hreg : forall a, a ∈ registered (past ++ [Register n f]) <-> a ∈ registered past \/ a = n).
  { intros a. unfold registered. rewrite flat_map_app, elem_of_app. simpl. by rewrite list_elem_of_singleton. }
  assert (Hun : unregistered (past ++ [Register n f]) = unregistered past) by (unfold unregistered; rewrite flat_map_app; simpl; by rewrite app_nil_r).
  intros (Hh&Ht&HD&Hnd&Hso&Hin&Hk) H0 Hold. assert (Hfresh : n ∉ called ++ P ++ D ++ S) by (intros Hn; destruct (Hin n Hn) as [[? ?] _]; congruence).
  set (st0 := set_cell ch n (Block f 0 (prio n))).
  assert (Hh0 : holds_chain prio st0 (P ++ S)).
  { destruct Hh as (Hl&Hs&Hp). split; [apply is_chain_insert; [set_solver|done]|]. split; [done|]. intros a c. cbn [st0 set_cell cells].
    rewrite lookup_insert. case_decide; [intros [= <-]; by subst|apply Hp]. }
  assert (Hc0 : cells st0 !! n = Some (Block f 0 (prio n))) by apply lookup_insert_eq.
  assert (Ht0 : is_chain (cells st0) p (D ++ S)) by (apply is_chain_insert; [set_solver|done]).
  destruct (register_ok prio st0 (P ++ S) n Hh0) as (l1&l2&st'&Hsplit&->&Hh'&_&Hle&Hhd&Hsame&Hsbn); [set_solver|done|by eexists|].
  assert (Hfun : forall a, a ∈ called -> func_of st' a = func_of ch a).
  { intros a Ha. destruct (Hin a) as [[d Hd] _]; [set_solver|]. assert (a <> n) by (intros ->; congruence).
    destruct (Hsbn a d) as (d'&Hd'&Hcase); [cbn [st0 set_cell cells]; by rewrite lookup_insert_ne|].
    unfold func_of. rewrite Hd, Hd'. by destruct Hcase as [->|[? ->]]. }
  assert (Hcells : forall a, a ∈ called ++ P ++ D ++ S \/ a = n -> is_Some (cells st' !! a) /\ (a ∈ start \/ a ∈ registered (past ++ [Register n f]))).
  { intros a Ha. rewrite Hreg. split; [|destruct Ha as [Ha| ->]; [destruct (Hin a Ha); tauto|tauto]]. apply (cells_kept st0); [done|].
    cbn [st0 set_cell cells]. rewrite lookup_insert. case_decide; [by eexists|]. destruct Ha as [Ha|]; [by apply Hin|done]. }
  assert (HndPS : NoDup (P ++ S)) by (destruct Hh as (Hl&_); by eapply is_chain_NoDup).
  destruct (cut_cases P S l1 l2 Hsplit) as [(k&->&->)|(k&x&Hkx&->&->)].
  - eexists _, (l1 ++ n :: k), D, S. split; [done|]. split; [|done]. unfold reading. rewrite Hun. split_and!; try done.
    + by rewrite <- app_assoc.
    + eapply (way_outside (cells st0) _ _ D S l1 n); [done|set_solver| |done]. intros a Ha [Had|Has]%elem_of_app.
      * apply (HD a Had). set_solver.
      * apply NoDup_app in HndPS as (_&Hdis&_). apply (Hdis a); set_solver.
    + intros a Ha Hx. apply (HD a Ha). assert (a <> n) by (intros ->; set_solver). set_solver.
    + intros a Ha. apply Hcells. set_solver.
  - eexists _, P, D, (k ++ n :: l2). split; [done|]. split; [|done]. unfold reading. rewrite Hun. split_and!; try done.
    + by rewrite app_assoc.
    + eapply (way_inside (cells st0) (cells st') p (first st') D k l2 (n :: l2) P n x); try done; [|set_solver|].
      * by apply NoDup_app in Hnd as (_&_&?).
      * by destruct Hh' as (?&_).
    + intros a Ha Hx. apply (HD a Ha). assert (a <> n) by (intros ->; set_solver). set_solver.
    + rewrite !app_assoc, <- Permutation_middle, <- !app_assoc. constructor; [set_solver|done].
    + replace (called ++ D ++ k ++ n :: l2) with ((called ++ D ++ k) ++ n :: l2) by by rewrite <- !app_assoc.
      assert (Hso' : by_priority prio ((called ++ D ++ k) ++ l2)) by by rewrite <- !app_assoc.
      apply by_priority_insert; [done| |done]. intros a Ha.
      assert (Hx : x ∈ k) by by eapply last_Some_elem_of. assert (Hnx : prio n <= prio x) by (apply Hle; set_solver).
      destruct (decide (a ∈ k)); [apply Hle; set_solver|]. etrans; [exact Hnx|].
      apply (by_priority_pair prio (called ++ D) (k ++ l2)); [by rewrite <- app_assoc|set_solver|set_solver].
    + intros a Ha. apply Hcells. set_solver.
    + intros a Ha Hu. destruct (Hk a Ha Hu); set_solver.
Qed.

Lemma unregister_step start past ch called p P D S n : reading start past ch called p P D S -> exists c' e P' D' S',
  notifier_chain_unregister ch n = Some (c', e) /\ reading start (past ++ [Unregister n]) c' called p P' D' S' /\
  (forall a, a ∈ called -> func_of c' a = func_of ch a).
Proof.
  assert (Hun : forall a, a ∈ unregistered (past ++ [Unregister n]) <-> a ∈ unregistered past \/ a = n).
  { intros a. unfold unregistered. rewrite flat_map_app, elem_of_app. simpl. by rewrite list_elem_of_singleton. }
  assert (Hreg : registered (past ++ [Unregister n]) = registered past) by (unfold registered; rewrite flat_map_app; simpl; by rewrite app_nil_r).
  intros (Hh&Ht&HD&Hnd&Hso&Hin&Hk).
  destruct (unregister_ok prio ch (P ++ S) n Hh) as [[Hn ->]|(l1&l2&st'&Hsplit&->&Hh'&Hsame&Hsbn)].
  { exists ch, (- ENOENT), P, D, S. split; [done|]. split; [|done]. unfold reading. rewrite Hreg. split_and!; try done.
    intros a Ha Hu. apply Hk; [done|]. rewrite Hun in Hu. tauto. }
  assert (Hfun : forall a, a ∈ called -> func_of st' a = func_of ch a).
  { intros a Ha. destruct (Hin a) as [[d Hd] _]; [set_solver|]. destruct (Hsbn a d Hd) as (d'&Hd'&Hcase).
    unfold func_of. rewrite Hd, Hd'. by destruct Hcase as [->|[? ->]]. }
  assert (Hcells : forall a, a ∈ called ++ P ++ D ++ S -> is_Some (cells st' !! a) /\ (a ∈ start \/ a ∈ registered past)).
  { intros a Ha. destruct (Hin a Ha) as [H1 H2]. split; [|done]. by apply (cells_kept ch). }
  assert (HndPS : NoDup (P ++ S)) by (destruct Hh as (Hl&_); by eapply is_chain_NoDup).
  assert (Hsame' : forall a, a <> 0 -> last l1 <> Some a -> cells st' !! a = cells ch !! a) by auto.
  assert (H0 : 0 ∉ D ++ S) by (intros Hx; by destruct (is_chain_cells _ _ _ _ Ht Hx)).
  destruct (cut_cases P S l1 (n :: l2) Hsplit) as [(k&->&Hk')|(k&x&Hkx&->&->)].
  - assert (Hway : is_chain (cells st') p (D ++ S)).
    { eapply (way_outside (cells ch) _ _ D S l1 0); [done|done| |done]. intros a Ha [Had|Has]%elem_of_app.
      - apply (HD a Had). set_solver.
      - apply NoDup_app in HndPS as (_&Hdis&_). apply (Hdis a); set_solver. }
    destruct k as [|y k]; simpl in Hk'; [subst S|injection Hk' as <- ->].
    + rewrite app_nil_r in *. eexists _, 0, l1, (D ++ [n]), l2. split; [done|]. split; [|done]. unfold reading.
      rewrite Hreg, <- !app_assoc. cbn [app]. split_and!; try done.
      * intros a [Ha|Ha%list_elem_of_singleton]%elem_of_app; [specialize (HD a Ha); set_solver|]. subst a.
        apply NoDup_app in HndPS as (_&Hdis&Hnd2). apply NoDup_cons in Hnd2 as [Hn2 _]. intros [Hx|Hx]%elem_of_app; [|done]. apply (Hdis n Hx). left.
      * intros a Ha Hu. rewrite Hun in Hu. destruct (Hk a Ha) as [|[->|]%elem_of_cons]; tauto.
    + eexists _, 0, (l1 ++ k), D, S. split; [done|]. split; [|done]. unfold reading. rewrite Hreg. split_and!; try done.
      * by rewrite <- app_assoc.
      * intros a Ha. specialize (HD a Ha). set_solver.
      * intros a Ha. apply Hcells. set_solver.
      * intros a Ha Hu. apply Hk; [done|]. rewrite Hun in Hu. tauto.
  - eexists _, 0, P, D, (k ++ l2). split; [done|]. split; [|done]. unfold reading. rewrite Hreg. split_and!; try done.
    + by rewrite app_assoc.
    + eapply (way_inside (cells ch) (cells st') p (first st') D k (n :: l2) l2 P 0 x); try done; [|set_solver|].
      * by apply NoDup_app in Hnd as (_&_&?).
      * by destruct Hh' as (?&_).
    + intros a Ha. specialize (HD a Ha). set_solver.
    + rewrite !app_assoc, <- Permutation_middle, <- !app_assoc in Hnd. by apply NoDup_cons in Hnd as [_ ?].
    + replace (called ++ D ++ k ++ l2) with ((called ++ D ++ k) ++ l2) by by rewrite <- !app_assoc.
      apply (by_priority_remove prio n). by rewrite <- !app_assoc.
    + intros a Ha. apply Hcells. set_solver.
    + intros a Ha Hu. rewrite Hun in Hu. destruct (Hk a Ha); [tauto|by left|]. right. set_solver.
Qed.

(** What is known of the call: what it did so far is what delivering to the called
    blocks does; [p] is the next block. *)
Definition walked (nr : Z) (calls : option Z) (w : W) (s : reader) (p : Z) : Prop :=
  forall g, (forall a, a ∈ r_called s -> g a = func_of (r_chain s) a) ->
  match r_walk s with
  | inl k => w_nb k = p /\ w_to_call k = nr - Z.of_nat (length (r_called s)) /\
      forall rest, deliver invoke g (r_called s ++ rest) val v nr calls NOTIFY_DONE w =
        deliver invoke g rest val v (w_to_call k) (w_calls k) (w_ret k) (w_world k)
  | inr res => deliver invoke g (r_called s) val v nr calls NOTIFY_DONE w = res /\
      (Z.land res.1.1 NOTIFY_STOP_MASK = NOTIFY_STOP_MASK \/ Z.of_nat (length (r_called s)) = nr \/ p = 0)
  end.
Definition working (start : list Z) (past : list event) (nr : Z) (calls : option Z) (w : W) (s : reader) : Prop :=
  exists p P D S, reading start past (r_chain s) (r_called s) p P D S /\ walked nr calls w s p.

Lemma walked_funcs nr calls w c c' x called p : walked nr calls w (Reader c x called) p ->
  (forall a, a ∈ called -> func_of c' a = func_of c a) -> walked nr calls w (Reader c' x called) p.
Proof. intros H Hf g Hg. apply (H g). intros a Ha. rewrite (Hg a Ha). by apply Hf. Qed.

Lemma call_step start past nr calls w s : working start past nr calls w s ->
  exists s', react s Call = Some s' /\ working start (past ++ [Call]) nr calls w s'.
Proof.
  intros (p&P&D&S&Hr&Hw). destruct s as [c x called]. cbn [r_chain r_called r_walk react] in *. destruct x as [[nb tc k r w1]|res].
  2:{ eexists. split; [done|]. exists p, P, D, S. split; [by apply reading_past|done]. }
  destruct (Hw (func_of c) ltac:(done)) as (Hnb&Htc&_). cbn [r_walk w_nb w_to_call] in Hnb, Htc. subst nb.
  assert (Hd : forall g, (forall a, a ∈ called -> g a = func_of c a) -> forall rest,
    deliver invoke g (called ++ rest) val v nr calls NOTIFY_DONE w = deliver invoke g rest val v tc k r w1)
    by (intros g Hg; apply (Hw g Hg)).
  unfold calls_now. cbn [call_turn w_nb w_to_call]. destruct ((p =? 0) || (tc =? 0)) eqn:Hend; rewrite ?some_bind.
  - eexists. split; [done|]. rewrite app_nil_r. exists p, P, D, S. split; [by apply reading_past|].
    intros g Hg. cbn [r_walk r_called] in *. split; [by rewrite <- (app_nil_r called), Hd|]. right.
    apply orb_true_iff in Hend as [?%Z.eqb_eq|?%Z.eqb_eq]; [by right|left; lia].
  - apply orb_false_iff in Hend as [H0%Z.eqb_neq Htc0].
    destruct (reading_call _ _ _ _ _ _ _ _ Hr H0) as (b&P'&D'&S'&Hb&Hr'). rewrite Hb, some_bind.
    destruct (invoke (notifier_call b) p val v w1) as [r' w'] eqn:Hi. rewrite some_bind. eexists. split; [done|].
    exists (next b), P', D', S'. split; [by apply reading_past|]. intros g Hg. cbn [r_walk r_called r_chain] in *.
    assert (Hgp : g p = notifier_call b) by (rewrite Hg by set_solver; unfold func_of; by rewrite Hb).
    assert (Hgc : forall a, a ∈ called -> g a = func_of c a) by (intros a Ha; apply Hg; set_solver).
    destruct (Z.eqb_spec (Z.land r' NOTIFY_STOP_MASK) NOTIFY_STOP_MASK) as [Hs|Hs].
    + rewrite Hd by done. cbn [deliver]. rewrite Htc0, Hgp, Hi, Hs, Z.eqb_refl. split; [done|by left].
    + cbn [w_nb w_to_call w_calls w_ret w_world]. split; [done|]. split; [rewrite length_app; simpl; lia|]. intros rest.
      rewrite <- app_assoc, Hd by done. cbn [app deliver]. rewrite Htc0, Hgp, Hi. by apply Z.eqb_neq in Hs as ->.
Qed.

Lemma react_step start past nr calls w s e : working start past nr calls w s ->
  exists s', react s e = Some s' /\ working start (past ++ [e]) nr calls w s'.
Proof.
  destruct e as [|n f|n]; [apply call_step| |]; intros (p&P&D&S&Hr&Hw); destruct s as [c x called]; cbn [react r_chain r_walk r_called] in *.
  - destruct (Z.eqb_spec n 0) as [|H0]; cbn [orb]; [eexists; split; [done|]; exists p, P, D, S; by split; [apply reading_past|]|].
    destruct (bool_decide (is_Some (cells c !! n))) eqn:Hold; [eexists; split; [done|]; exists p, P, D, S; by split; [apply reading_past|]|].
    apply bool_decide_eq_false, eq_None_not_Some in Hold.
    destruct (register_step _ _ _ _ _ _ _ _ n f Hr H0 Hold) as (c'&P'&D'&S'&->&Hr'&Hf). rewrite some_bind. eexists. split; [done|].
    exists p, P', D', S'. split; [done|]. by eapply walked_funcs.
  - destruct (unregister_step _ _ _ _ _ _ _ _ n Hr) as (c'&e&P'&D'&S'&->&Hr'&Hf). rewrite some_bind. eexists. split; [done|].
    exists p, P', D', S'. split; [done|]. by eapply walked_funcs.
Qed.

Lemma react_all_ok start evs nr calls w : forall past s, working start past nr calls w s ->
  exists s', react_all s evs = Some s' /\ working start (past ++ evs) nr calls w s'.
Proof.
  induction evs as [|e evs IH]; intros past s Hs; cbn [react_all].
  { rewrite app_nil_r. by exists s. }
  destruct (react_step _ _ _ _ _ _ e Hs) as (s1&->&H1). rewrite some_bind.
  destruct (IH _ _ H1) as (s2&?&H2). rewrite <- app_assoc in H2. by exists s2.
Qed.

#[export] Instance event_eq_dec : EqDecision event.
Proof. solve_decision. Defined.

(** Until the call is over, every turn calls a block. *)
Definition turns_in (l : list event) : nat := length (filter (fun e => e = Call) l).
Lemma turns_called evs : forall s s' k', react_all s evs = Some s' -> r_walk s' = inl k' ->
  (exists k, r_walk s = inl k) /\ length (r_called s') = (length (r_called s) + length (filter (fun e => e = Call) evs))%nat.
Proof.
  induction evs as [|e evs IH]; intros s s' k' H Hk; cbn [react_all] in H; [simplify_eq; split; [by eexists|simpl; lia]|].
  destruct (react s e) as [s1|] eqn:He; [|done]. rewrite some_bind in H. destruct (IH s1 s' k' H Hk) as [[k1 H1] ->].
  destruct e as [|n f|n]; rewrite filter_cons; [rewrite decide_True by done|rewrite decide_False by done..]; cbn [react] in He.
  - destruct (r_walk s) as [k|] eqn:Hs; [|simplify_eq; congruence]. split; [by eexists|]. destruct k as [nb tc c r w1]. cbn [call_turn] in He.
    destruct ((nb =? 0) || (tc =? 0)) eqn:Hend; [rewrite some_bind in He; simplify_eq|].
    destruct (cells (r_chain s) !! nb) as [b|]; [|done]. rewrite some_bind in He. destruct (invoke _ _ _ _ _) as [r' w'].
    rewrite some_bind in He. simplify_eq. cbn [r_called calls_now w_nb w_to_call]. unfold calls_now. cbn [w_nb w_to_call]. rewrite Hend, length_app. simpl. lia.
  - destruct (_ || _); [simplify_eq; by split; [eexists|]|].
    destruct (notifier_chain_register _ n) as [r|]; [|done]. rewrite some_bind in He. simplify_eq. cbn [r_walk r_called] in *. by split; [eexists|].
  - destruct (notifier_chain_unregister _ n) as [r|]; [|done]. rewrite some_bind in He. simplify_eq. cbn [r_walk r_called] in *. by split; [eexists|].
Qed.

(** C1. notifier_call_chain while others register and unregister, in any
    interleaving of its turns with their calls: nothing that is gone is read; no
    block is called twice; every called block was in the chain at the start or was
    registered meanwhile; they are called in descending order of priority.  The
    call is over after at most one turn more than there were blocks and
    registrations; its answer, its count and the state are those of the called
    functions one after the other, and then it stopped because the last function
    asked for it, or nr_to_call functions were called, or every block that was in the
    chain all the time was called. *)
Theorem concurrent_call_sees_stayers st l evs nr calls w : holds_chain prio st l -> exists s',
  react_all (Reader st (inl (call_start st nr calls w)) []) evs = Some s' /\
  NoDup (r_called s') /\ by_priority prio (r_called s') /\
  (forall a, a ∈ r_called s' -> a ∈ l \/ a ∈ registered evs) /\
  (forall res, r_walk s' = inr res ->
     res = deliver invoke (func_of (r_chain s')) (r_called s') val v nr calls NOTIFY_DONE w /\
     (Z.land res.1.1 NOTIFY_STOP_MASK = NOTIFY_STOP_MASK \/ Z.of_nat (length (r_called s')) = nr \/
      forall a, a ∈ l -> a ∉ unregistered evs -> a ∈ r_called s')) /\
  ((length l + length (registered evs) < turns_in evs)%nat -> exists res, r_walk s' = inr res) /\
  exists l', holds_chain prio (r_chain s') l'.
Proof.
  intros H. destruct (react_all_ok l evs nr calls w [] (Reader st (inl (call_start st nr calls w)) [])) as (s'&Hr&p&P&D&S&(Hh&Ht&HD&Hnd&Hso&Hin&Hk)&Hw).
  { exists (first st), [], [], l. split; [by apply reading_start|]. intros g Hg. cbn. split; [done|]. split; [lia|done]. }
  cbn [app] in *. exists s'. split; [done|]. apply NoDup_app in Hnd as (Hnd&_). unfold by_priority in Hso.
  apply StronglySorted_app in Hso as (_&Hso&_).
  assert (Hfrom : forall a, a ∈ r_called s' -> a ∈ l \/ a ∈ registered evs) by (intros a Ha; apply Hin; set_solver).
  split; [done|]. split; [done|]. split; [done|]. split; [|split; [|by eexists]].
  - intros res Hres. specialize (Hw (func_of (r_chain s')) ltac:(done)). rewrite Hres in Hw. destruct Hw as [Hd Hover].
    split; [done|]. destruct Hover as [|[|Hp]]; [by left|by right; left|right; right]. intros a Ha Hu.
    destruct (Hk a Ha Hu) as [|HS]; [done|]. rewrite Hp in Ht. exfalso.
    assert (HaDS : a ∈ D ++ S) by set_solver. destruct (D ++ S) as [|b rest]; [by apply elem_of_nil in HaDS|]. cbn [is_chain] in Ht.
    by destruct Ht as (<-&?&_).
  - intros Hlen. destruct (r_walk s') as [k'|res] eqn:Hk'; [exfalso|by exists res].
    destruct (turns_called evs _ s' k' Hr Hk') as [_ Hcount]. cbn [r_called length] in Hcount. unfold turns_in in Hlen.
    assert (Hsub : (length (r_called s') <= length (l ++ registered evs))%nat).
    { apply submseteq_length, NoDup_submseteq; [done|]. intros a Ha. apply elem_of_app. by apply Hfrom. }
    rewrite length_app in Hsub. lia.
Qed.
End reader.
Arguments Reader {W}.
Arguments r_chain {W}.
Arguments r_walk {W}.
Arguments r_called {W}.

(** ** A sample chain *)

Definition sample_prio (n : Z) : Z := if n =? 3 then 5 else if n =? 4 then 7 else 0.
Definition sample_chain : chain notifier_block := Chain 3 {[1 := Block 100 2 0; 2 := Block 200 0 0; 3 := Block 300 1 5]}.
Lemma sample_chain_ok : holds_chain sample_prio sample_chain [3; 1; 2].
Proof.
  split; [|split].
  - cbn. repeat (split; [done|]; split; [done|]; eexists; split; [reflexivity|]; cbn). done.
  - repeat constructor; done.
  - intros a c. unfold sample_chain. cbn [cells]. rewrite !lookup_insert_Some, lookup_singleton_Some.
    intros [(<-&<-)|(?&[(<-&<-)|(?&(<-&<-))])]; done.
Qed.
(** Functions answer their own number, 200 stops the chain. *)
Definition sample_invoke (f n val v : Z) (w : list Z) : Z * list Z := (if f =? 200 then NOTIFY_STOP else NOTIFY_OK, w ++ [n]).

Lemma notifier_chain_refines_witness :
  (forall n, n <> 0 -> n ∉ [3; 1; 2] -> is_Some (cells sample_chain !! n) -> exists st',
     notifier_chain_register sample_chain n = Some (st', 0) /\ holds_chain sample_prio st' (insert_block sample_prio n [3; 1; 2])) /\
  (forall n, exists st', notifier_chain_unregister sample_chain n = Some (st', if decide (n ∈ [3; 1; 2]) then 0 else - ENOENT) /\
     holds_chain sample_prio st' (remove_block n [3; 1; 2])) /\
  notifier_call_chain sample_invoke sample_chain 9 0 (-1) (Some 0) [] =
    Some (deliver sample_invoke (func_of sample_chain) [3; 1; 2] 9 0 (-1) (Some 0) NOTIFY_DONE []).
Proof. apply (notifier_chain_refines sample_invoke sample_prio sample_chain [3; 1; 2] 9 0 (-1) (Some 0) []). apply sample_chain_ok. Defined.
Example sample_call : notifier_call_chain sample_invoke sample_chain 9 0 (-1) (Some 0) [] = Some (NOTIFY_STOP, Some 3, [3; 1; 2]).
Proof. vm_compute. reflexivity. Qed.

(** Block 1 is taken out and 4 registered while the call is at work; the answers are
    all NOTIFY_OK here. *)
Definition sample_events : list event := [Call; Unregister 1; Register 4 400; Call; Call; Call; Unregister 2; Call; Call].
Definition sample_ok (f n val v : Z) (w : list Z) : Z * list Z := (NOTIFY_OK, w ++ [n]).
Lemma concurrent_call_sees_stayers_witness : exists s',
  react_all sample_ok sample_prio 9 0 (Reader sample_chain (inl (call_start sample_chain (-1) (Some 0) [])) []) sample_events = Some s' /\
  NoDup (r_called s') /\ by_priority sample_prio (r_called s') /\
  (forall a, a ∈ r_called s' -> a ∈ [3; 1; 2] \/ a ∈ registered sample_events) /\
  (forall res, r_walk s' = inr res ->
     res = deliver sample_ok (func_of (r_chain s')) (r_called s') 9 0 (-1) (Some 0) NOTIFY_DONE [] /\
     (Z.land res.1.1 NOTIFY_STOP_MASK = NOTIFY_STOP_MASK \/ Z.of_nat (length (r_called s')) = -1 \/
      forall a, a ∈ [3; 1; 2] -> a ∉ unregistered sample_events -> a ∈ r_called s')) /\
  ((length [3; 1; 2] + length (registered sample_events) < turns_in sample_events)%nat -> exists res, r_walk s' = inr res) /\
  exists l', holds_chain sample_prio (r_chain s') l'.
Proof. apply (concurrent_call_sees_stayers sample_ok sample_prio 9 0 sample_chain [3; 1; 2] sample_events (-1) (Some 0) []). apply sample_chain_ok. Defined.
(** The removed block 1 is called: the call was already on its way to it. *)
Example sample_reading :
  (s ← react_all sample_ok sample_prio 9 0 (Reader sample_chain (inl (call_start sample_chain (-1) (Some 0) [])) []) sample_events;
   Some (r_called s, r_walk s)) = Some ([3; 1; 2], inr (NOTIFY_OK, Some 3, [3; 1; 2])).
Proof. vm_compute. reflexivity. Qed.
(** A function that stops the chain ends a call, and a count does. *)
Example sample_stopped :
  (s ← react_all sample_invoke sample_prio 9 0 (Reader sample_chain (inl (call_start sample_chain (-1) (Some 0) [])) []) [Call; Unregister 1; Register 4 200; Call; Call];
   Some (r_called s, r_walk s)) = Some ([3; 1; 2], inr (NOTIFY_STOP, Some 3, [3; 1; 2])) /\
  (s ← react_all sample_invoke sample_prio 9 0 (Reader sample_chain (inl (call_start sample_chain 1 (Some 0) [])) []) [Call; Call];
   Some (r_called s, r_walk s)) = Some ([3], inr (NOTIFY_OK, Some 1, [3])).
Proof. vm_compute. done. Qed.
