(* ===== verification/Nls.v ===== *)
(** * fs/nls/nls_base.c: UTF-8 and the tables of character sets

    Bytes and 16-bit characters are cells of objects; the registered tables are a
    chain (Chain.v). *)

From Stdlib Require Import String.
From S2P Require Import Prelude StringLib Chain.

(** ** UTF-8 *)

Record utf8_row := Row { cmask : Z; cval : Z; shift : Z; lmask : Z; lval : Z }.
(** Without the row of zeros that ends it. *)
Definition utf8_table : list utf8_row :=
  [Row 0x80 0x00 (0 * 6) 0x7F 0; Row 0xE0 0xC0 (1 * 6) 0x7FF 0x80; Row 0xF0 0xE0 (2 * 6) 0xFFFF 0x800;
   Row 0xF8 0xF0 (3 * 6) 0x1FFFFF 0x10000; Row 0xFC 0xF8 (4 * 6) 0x3FFFFFF 0x200000;
   Row 0xFE 0xFC (5 * 6) 0x7FFFFFFF 0x4000000].

(** The character stored, if any, and the result. *)
Fixpoint mbtowc_loop (t : list utf8_row) (s : list Z) (i n c0 l nc : Z) : option (option Z * Z) :=
  match t with
  | [] => Some (None, -1)
  | r :: t =>
    let nc := nc + 1 in
    if Z.land c0 (cmask r) =? cval r then
      let l := Z.land l (lmask r) in
      if l <? lval r then Some (None, -1) else Some (Some (u16 l), nc)
    else if n <=? nc then Some (None, -1)
    else
      let i := i + 1 in
      b ← rd s i;
      let c := Z.land (Z.lxor b 0x80) 0xFF in
      if negb (Z.land c 0xC0 =? 0) then Some (None, -1)
      else mbtowc_loop t s i n c0 (s32 (Z.lor (Z.shiftl l 6) c)) nc
  end.
Definition utf8_mbtowc (s : list Z) (i n : Z) : option (option Z * Z) :=
  c0 ← rd s i;
  mbtowc_loop utf8_table s i n c0 c0 0.

(** From offset [ip] of [s] to offset [op] of [pwcs]. *)
Fixpoint mbstowcs_loop (fuel : nat) (pwcs s : list Z) (op ip n : Z) : option (list Z * Z) :=
  match fuel with
  | O => None
  | S fuel =>
    b ← rd s ip;
    if negb (b =? 0) && (0 <? n) then
      if negb (Z.land b 0x80 =? 0) then
        r ← utf8_mbtowc s ip n;
        let '(p, size) := (r : option Z * Z) in
        pwcs ← (match p with Some v => wr pwcs op v | None => Some pwcs end);
        if size =? -1 then mbstowcs_loop fuel pwcs s op (ip + 1) (n - 1)
        else mbstowcs_loop fuel pwcs s (op + 1) (ip + size) (n - size)
      else
        pwcs ← wr pwcs op b;
        mbstowcs_loop fuel pwcs s (op + 1) (ip + 1) (n - 1)
    else Some (pwcs, op)
  end.
Definition utf8_mbstowcs (pwcs s : list Z) (n : Z) : option (list Z * Z) :=
  mbstowcs_loop (S (Z.to_nat n)) pwcs s 0 0 n.

(** while (c > 0), after the first byte. *)
Fixpoint tail_loop (fuel : nat) (mem : list Z) (s l c : Z) : option (list Z) :=
  match fuel with
  | O => None
  | S fuel =>
    if 0 <? c then
      let c := c - 6 in
      mem ← wr mem (s + 1) (u8 (Z.lor 0x80 (Z.land (Z.shiftr l c) 0x3F)));
      tail_loop fuel mem (s + 1) l c
    else Some mem
  end.
Fixpoint wctomb_loop (t : list utf8_row) (mem : list Z) (s l maxlen nc : Z) : option (list Z * Z) :=
  match t with
  | [] => Some (mem, -1)
  | r :: t =>
    if maxlen =? 0 then Some (mem, -1) else
    let nc := nc + 1 in
    if l <=? lmask r then
      let c := shift r in
      mem ← wr mem s (u8 (Z.lor (cval r) (Z.shiftr l c)));
      mem ← tail_loop 7 mem s l c;
      Some (mem, nc)
    else wctomb_loop t mem s l (maxlen - 1) nc
  end.
(** [s] is NULL or an offset of [mem]. *)
Definition utf8_wctomb (mem : list Z) (s : option Z) (wc maxlen : Z) : option (list Z * Z) :=
  match s with None => Some (mem, 0) | Some s => wctomb_loop utf8_table mem s wc maxlen 0 end.

Fixpoint wcstombs_loop (fuel : nat) (s pwcs : list Z) (op ip maxlen : Z) : option (list Z * Z) :=
  match fuel with
  | O => None
  | S fuel =>
    w ← rd pwcs ip;
    if negb (w =? 0) && (0 <? maxlen) then
      if 0x7f <? w then
        r ← utf8_wctomb s (Some op) w maxlen;
        let '(s, size) := (r : list Z * Z) in
        if size =? -1 then wcstombs_loop fuel s pwcs op (ip + 1) (maxlen - 1)
        else wcstombs_loop fuel s pwcs (op + size) (ip + 1) (maxlen - size)
      else
        s ← wr s op (u8 w);
        wcstombs_loop fuel s pwcs (op + 1) (ip + 1) maxlen
    else Some (s, op)
  end.
Definition utf8_wcstombs (s pwcs : list Z) (maxlen : Z) : option (list Z * Z) :=
  wcstombs_loop (S (length pwcs)) s pwcs 0 0 maxlen.

(** ** Character sets *)

(** [charset] and [alias] are strings, with their terminators; no alias is NULL.
    The two translations are functions named by numbers. *)
Record nls_table := Table {
  charset : list Z; alias : option (list Z); uni2char_fn : Z; char2uni_fn : Z;
  charset2lower : list Z; charset2upper : list Z; owner : Z; t_next : Z }.
#[export] Instance nls_linked : Linked nls_table := {|
  next := t_next;
  set_next t v := Table (charset t) (alias t) (uni2char_fn t) (char2uni_fn t) (charset2lower t) (charset2upper t) (owner t) v;
  next_set _ _ := eq_refl |}.

Definition table_turns (st : chain nls_table) : nat := S (size (cells st)).

Definition register_nls (st : chain nls_table) (nls : Z) : option (chain nls_table * Z) :=
  t ← cells st !! nls;
  if negb (t_next t =? 0) then Some (st, - EBUSY) else
  tmp ← seek (table_turns st) st Head (fun p _ => p =? nls);
  p ← load st tmp;
  if negb (p =? 0) then Some (st, - EBUSY) else
  Some (Chain nls (<[nls := set_next t (first st)]> (cells st)), 0).

Definition unregister_nls (st : chain nls_table) (nls : Z) : option (chain nls_table * Z) :=
  tmp ← seek (table_turns st) st Head (fun p _ => p =? nls);
  p ← load st tmp;
  if p =? 0 then Some (st, - EINVAL) else
  t ← cells st !! nls;
  st ← assign st tmp (next t);
  Some (st, 0).

(** strcmp() == 0, on strings with their terminators. *)
Definition streq (a b : list Z) : bool := bool_decide (strcmp a b = Some 0).
Definition answers (name : list Z) (t : nls_table) : bool :=
  streq (charset t) name || match alias t with Some a => streq a name | None => false end.

(** try_module_get is a parameter: the owner can still be used. *)
Definition find_nls (try_module_get : Z -> bool) (st : chain nls_table) (name : list Z) : option Z :=
  tmp ← seek (table_turns st) st Head (fun _ t => answers name t);
  nls ← load st tmp;
  if nls =? 0 then Some 0 else
  t ← cells st !! nls;
  Some (if try_module_get (owner t) then nls else 0).
(** request_module loads a module, which may register a table, or fails. *)
Definition load_nls (try_module_get : Z -> bool) (request_module : chain nls_table -> list Z -> chain nls_table * Z)
    (st : chain nls_table) (name : list Z) : option (chain nls_table * Z) :=
  nls ← find_nls try_module_get st name;
  if negb (nls =? 0) then Some (st, nls) else
  let '(st, ret) := request_module st (text "nls_"%string ++ name) in
  if negb (ret =? 0) then Some (st, 0) else
  nls ← find_nls try_module_get st name;
  Some (st, nls).
(** The address of default_table, and CONFIG_NLS_DEFAULT. *)
Definition load_nls_default (try_module_get : Z -> bool) (request_module : chain nls_table -> list Z -> chain nls_table * Z)
    (st : chain nls_table) (default_table : Z) (nls_default : list Z) : option (chain nls_table * Z) :=
  r ← load_nls try_module_get request_module st nls_default;
  Some (r.1, if negb (r.2 =? 0) then r.2 else default_table).

Definition nls_tolower (t : nls_table) (c : Z) : option Z := nc ← rd (charset2lower t) c; Some (if negb (nc =? 0) then nc else c).
Definition nls_toupper (t : nls_table) (c : Z) : option Z := nc ← rd (charset2upper t) c; Some (if negb (nc =? 0) then nc else c).
(** while (len--) on the rests of the two strings. *)
Fixpoint nls_strnicmp (t : nls_table) (s1 s2 : list Z) (len : nat) : option Z :=
  match len with
  | O => Some 0
  | S len =>
    a ← deref s1; b ← deref s2;
    x ← nls_tolower t a; y ← nls_tolower t b;
    if negb (x =? y) then Some 1 else nls_strnicmp t (tail s1) (tail s2) len
  end.

(** ** One character *)

Definition utf8_bytes (c : Z) : list Z :=
  if c <? 0x80 then [c] else
  if c <? 0x800 then [u8 (Z.lor 0xC0 (Z.shiftr c 6)); u8 (Z.lor 0x80 (Z.land c 0x3F))]
  else [u8 (Z.lor 0xE0 (Z.shiftr c 12)); u8 (Z.lor 0x80 (Z.land (Z.shiftr c 6) 0x3F)); u8 (Z.lor 0x80 (Z.land c 0x3F))].

Definition is_wide (c : Z) : Prop := 0 < c < 2 ^ 16.

Lemma wr_app {A} (a b : list A) x v i : i = zlen a -> wr (a ++ x :: b) i v = Some (a ++ v :: b).
Proof.
  intros ->. unfold wr. rewrite length_app. simpl. zcases; try lia. simpl. rewrite Nat2Z.id. f_equal. by rewrite insert_app_r_alt, Nat.sub_diag by lia.
Qed.
Lemma rd_app {A} (a b : list A) x i : i = zlen a -> rd (a ++ x :: b) i = Some x.
Proof. intros ->. rewrite rd_nat. by apply list_lookup_middle. Qed.

Lemma wctomb_ok a x b c maxlen s : 0 <= c < 2 ^ 16 -> length x = length (utf8_bytes c) -> zlen x <= maxlen -> s = zlen a ->
  utf8_wctomb (a ++ x ++ b) (Some s) c maxlen = Some (a ++ utf8_bytes c ++ b, zlen x).
Proof.
  intros Hc. unfold utf8_wctomb, utf8_table, utf8_bytes.
  destruct (Z.ltb_spec c 0x80); [|destruct (Z.ltb_spec c 0x800)]; intros Hx Hm Hs.
  - destruct x as [|x0 [|? ?]]; try done. simpl in Hm. cbn [wctomb_loop cmask cval shift lmask lval].
    destruct (Z.eqb_spec maxlen 0); [lia|]. destruct (Z.leb_spec c 0x7F); [|lia].
    cbn [app]. rewrite (wr_app a b x0 _ s Hs), some_bind. simpl. do 4 f_equal. change (0 * 6) with 0. rewrite Z.shiftr_0_r, Z.lor_0_l. apply Z.mod_small. lia.
  - destruct x as [|x0 [|x1 [|? ?]]]; try done. simpl in Hm. cbn [wctomb_loop cmask cval shift lmask lval].
    destruct (Z.eqb_spec maxlen 0); [lia|]. destruct (Z.leb_spec c 0x7F); [lia|].
    destruct (Z.eqb_spec (maxlen - 1) 0); [lia|]. destruct (Z.leb_spec c 0x7FF); [|lia].
    cbn [app]. rewrite (wr_app a _ x0 _ s Hs), some_bind. change (1 * 6) with 6. cbn [tail_loop]. change (0 <? 6) with true. cbv iota zeta.
    rewrite (cons_middle _ a), app_assoc, (wr_app (a ++ [_]) b x1) by (rewrite length_app; simpl; lia). rewrite some_bind.
    change (6 - 6) with 0. change (0 <? 0) with false. cbv iota. by rewrite some_bind, <- app_assoc.
  - destruct x as [|x0 [|x1 [|x2 [|? ?]]]]; try done. simpl in Hm. cbn [wctomb_loop cmask cval shift lmask lval].
    destruct (Z.eqb_spec maxlen 0); [lia|]. destruct (Z.leb_spec c 0x7F); [lia|].
    destruct (Z.eqb_spec (maxlen - 1) 0); [lia|]. destruct (Z.leb_spec c 0x7FF); [lia|].
    destruct (Z.eqb_spec (maxlen - 1 - 1) 0); [lia|]. destruct (Z.leb_spec c 0xFFFF); [|lia].
    cbn [app]. rewrite (wr_app a _ x0 _ s Hs), some_bind. change (2 * 6) with 12. cbn [tail_loop]. change (0 <? 12) with true. cbv iota zeta.
    rewrite (cons_middle _ a), app_assoc, (wr_app (a ++ [_]) _ x1) by (rewrite length_app; simpl; lia). rewrite some_bind.
    change (12 - 6) with 6. change (0 <? 6) with true. cbv iota zeta.
    rewrite (cons_middle _ (a ++ _)), app_assoc, (wr_app ((a ++ [_]) ++ [_]) b x2) by (rewrite !length_app; simpl; lia). rewrite some_bind.
    change (6 - 6) with 0. change (0 <? 0) with false. cbv iota. by rewrite some_bind, <- !app_assoc.
Qed.

(** A decoded character is also decoded inside a longer text. *)
Lemma mbtowc_loop_shift t : forall a x b i n n' c0 l nc v k, mbtowc_loop t x i n c0 l nc = Some (Some v, k) ->
  0 <= i -> n <= n' -> mbtowc_loop t (a ++ x ++ b) (zlen a + i) n' c0 l nc = Some (Some v, k).
Proof.
  induction t as [|r t IH]; intros a x b i n n' c0 l nc v k; [done|]. cbn [mbtowc_loop]. intros H Hi Hn.
  destruct (_ =? cval r); [done|]. destruct (Z.leb_spec n (nc + 1)); [done|]. destruct (Z.leb_spec n' (nc + 1)); [lia|].
  destruct (rd x (i + 1)) as [y|] eqn:Hy; [|done]. rewrite some_bind in H.
  assert (Hy' : rd (a ++ x ++ b) (zlen a + i + 1) = Some y).
  { pose proof (rd_lt _ _ _ Hy). apply rd_Some in Hy as [_ Hy]. apply rd_Some. split; [lia|].
    rewrite lookup_app_r by lia. replace (Z.to_nat (zlen a + i + 1) - length a)%nat with (Z.to_nat (i + 1)) by lia.
    rewrite lookup_app_l; [done|]. lia. }
  rewrite Hy', some_bind. destruct (negb _); [done|]. rewrite <- Z.add_assoc. apply (IH a x b (i + 1) n n'); [done|lia|done].
Qed.

(** All 65536 characters. *)
Definition decodes (c : Z) : bool :=
  let x := utf8_bytes c in
  match utf8_mbtowc x 0 (zlen x) with Some (Some v, k) => (v =? c) && (k =? zlen x) | _ => false end &&
  match x with b :: _ => (0 <=? b) && (Bool.eqb (Z.land b 0x80 =? 0) (c <? 0x80)) && ((b =? 0) || (0 <? c)) && (implb (0 <? c) (0 <? b)) | [] => false end.
Lemma all_decode c : 0 <= c < 2 ^ 16 -> decodes c = true.
Proof.
  intros Hc. pose proof (Z.div_mod c 256 ltac:(lia)) as He. pose proof (Z.mod_pos_bound c 256 ltac:(lia)) as Hm.
  assert (H : forallb (fun lo => decodes (256 * (c / 256) + lo)) (seqZ 0 256) = true).
  { apply (forall_range 256 (fun hi => forallb (fun lo => decodes (256 * hi + lo)) (seqZ 0 256))); [vm_compute; reflexivity|].
    Z.to_euclidean_division_equations; lia. }
  rewrite He. by apply (forall_range 256 (fun lo => decodes (256 * (c / 256) + lo))).
Qed.

Lemma bytes_first c : is_wide c -> exists b rest, utf8_bytes c = b :: rest /\ b <> 0 /\ (Z.land b 0x80 =? 0) = (c <? 0x80).
Proof.
  intros Hc. pose proof (all_decode c ltac:(unfold is_wide in Hc; lia)) as H. unfold decodes in H. apply andb_true_iff in H as [_ H].
  destruct (utf8_bytes c) as [|b rest]; [done|]. exists b, rest. split; [done|].
  apply andb_true_iff in H as [H H0]. apply andb_true_iff in H as [H _]. apply andb_true_iff in H as [_ H].
  split; [|by apply eqb_prop in H]. unfold is_wide in Hc. destruct (Z.ltb_spec 0 c); [|lia]. simpl in H0. apply Z.ltb_lt in H0. lia.
Qed.
Lemma mbtowc_ok a c b n i : 0 <= c < 2 ^ 16 -> zlen (utf8_bytes c) <= n -> i = zlen a ->
  utf8_mbtowc (a ++ utf8_bytes c ++ b) i n = Some (Some c, zlen (utf8_bytes c)).
Proof.
  intros Hc Hn ->. pose proof (all_decode c Hc) as H. unfold decodes in H. apply andb_true_iff in H as [H Hb].
  assert (Hd : utf8_mbtowc (utf8_bytes c) 0 (zlen (utf8_bytes c)) = Some (Some c, zlen (utf8_bytes c))).
  { destruct (utf8_mbtowc _ _ _) as [[[v|] k]|]; try done. apply andb_true_iff in H as [->%Z.eqb_eq ->%Z.eqb_eq]. done. }
  clear H. rename Hd into H.
  unfold utf8_mbtowc in *. destruct (utf8_bytes c) as [|b0 rest] eqn:Hx; [done|]. rewrite <- Hx in *.
  assert (Hr : rd (a ++ utf8_bytes c ++ b) (zlen a) = Some b0) by (rewrite Hx; by apply rd_app).
  assert (H0 : rd (utf8_bytes c) 0 = Some b0) by by rewrite Hx.
  rewrite Hr, some_bind. rewrite H0, some_bind in H. rewrite <- (Z.add_0_r (zlen a)) at 1. by eapply mbtowc_loop_shift.
Qed.
Lemma bytes_length c : 1 <= zlen (utf8_bytes c) <= 3.
Proof. unfold utf8_bytes. repeat case_match; simpl; lia. Qed.

(** ** Strings *)

Definition utf8_text (ws : list Z) : list Z := concat (map utf8_bytes ws).

Lemma utf8_text_cons c ws : utf8_text (c :: ws) = utf8_bytes c ++ utf8_text ws.
Proof. done. Qed.
Lemma utf8_text_length ws : zlen ws <= zlen (utf8_text ws).
Proof.
  induction ws as [|c ws IH]; [done|]. rewrite utf8_text_cons, length_app. pose proof (bytes_length c). simpl (length (c :: ws)). lia.
Qed.

Lemma wcstombs_text ws : forall fuel out room rest pre post op ip maxlen, Forall is_wide ws -> (length ws < fuel)%nat ->
  length room = length (utf8_text ws) -> zlen room <= maxlen -> op = zlen out -> ip = zlen pre ->
  wcstombs_loop fuel (out ++ room ++ rest) (pre ++ ws ++ 0 :: post) op ip maxlen =
    Some (out ++ utf8_text ws ++ rest, op + zlen (utf8_text ws)).
Proof.
  induction ws as [|c ws IH]; intros [|fuel] out room rest pre post op ip maxlen Hws Hf Hroom Hm Hop Hip; try (simpl in Hf; lia); cbn [wcstombs_loop].
  - cbn [app]. rewrite (rd_app pre post 0 ip Hip), some_bind. destruct room; [|done]. cbn [negb Z.eqb andb]. do 2 f_equal. change (utf8_text []) with (@nil Z). simpl. lia.
  - apply Forall_cons in Hws as [Hc Hws]. rewrite utf8_text_cons in *. rewrite length_app in Hroom.
    cbn [app]. rewrite (rd_app pre _ c ip Hip), some_bind. unfold is_wide in Hc. destruct (Z.eqb_spec c 0); [lia|]. cbn [negb].
    pose proof (bytes_length c) as Hbl. destruct (Z.ltb_spec 0 maxlen); [|lia]. cbn [andb].
    set (x := take (length (utf8_bytes c)) room). set (room' := drop (length (utf8_bytes c)) room).
    assert (Hx : length x = length (utf8_bytes c)) by (unfold x; rewrite length_take; lia).
    assert (Hr' : length room' = length (utf8_text ws)) by (unfold room'; rewrite length_drop; lia).
    assert (Hroom' : room = x ++ room') by (symmetry; apply take_drop). rewrite Hroom'. rewrite <- app_assoc.
    assert (Hnext : forall m', zlen (utf8_text ws) <= m' -> wcstombs_loop fuel (out ++ utf8_bytes c ++ room' ++ rest) (pre ++ c :: ws ++ 0 :: post) (op + zlen x) (ip + 1) m' =
      Some (out ++ (utf8_bytes c ++ utf8_text ws) ++ rest, op + zlen (utf8_bytes c ++ utf8_text ws))).
    { intros m' Hm'. rewrite (app_assoc out), (cons_middle c pre), (app_assoc pre).
      rewrite (IH fuel (out ++ utf8_bytes c) room' rest (pre ++ [c]) post); try done; try lia.
      - do 2 f_equal; [by rewrite <- !app_assoc|]. rewrite Hx, length_app. lia.
      - simpl in Hf. lia.
      - rewrite length_app. lia.
      - rewrite length_app. simpl. lia. }
    rewrite Hroom', length_app in Hm.
    destruct (Z.ltb_spec 0x7f c).
    + rewrite (wctomb_ok out x (room' ++ rest) c maxlen op) by lia. rewrite some_bind.
      destruct (Z.eqb_spec (zlen x) (-1)); [lia|]. apply Hnext. lia.
    + assert (Hb : utf8_bytes c = [c]) by (unfold utf8_bytes; destruct (Z.ltb_spec c 0x80); [done|lia]).
      rewrite Hb in *. destruct x as [|x0 [|? ?]]; try done. cbn [app] in *. rewrite (wr_app out _ x0 _ op Hop), some_bind.
      replace (u8 c) with c by (symmetry; apply Z.mod_small; lia). apply Hnext. lia.
Qed.

Lemma mbstowcs_text ws : forall fuel out room rest pre post op ip n, Forall is_wide ws -> (Z.to_nat n < fuel)%nat ->
  length room = length ws -> zlen (utf8_text ws) <= n -> op = zlen out -> ip = zlen pre ->
  mbstowcs_loop fuel (out ++ room ++ rest) (pre ++ utf8_text ws ++ 0 :: post) op ip n =
    Some (out ++ ws ++ rest, op + zlen ws).
Proof.
  induction ws as [|c ws IH]; intros [|fuel] out room rest pre post op ip n Hws Hf Hroom Hn Hop Hip; try lia; cbn [mbstowcs_loop].
  - change (utf8_text []) with (@nil Z). cbn [app]. rewrite (rd_app pre post 0 ip Hip), some_bind. destruct room; [|done]. cbn [negb Z.eqb andb app]. do 2 f_equal. simpl. lia.
  - apply Forall_cons in Hws as [Hc Hws]. rewrite utf8_text_cons in *. rewrite length_app in Hn.
    pose proof (bytes_length c) as Hbl. destruct (bytes_first c Hc) as (b0&brest&Hbytes&Hb0&Hhigh). unfold is_wide in Hc.
    assert (Hr : rd (pre ++ (utf8_bytes c ++ utf8_text ws) ++ 0 :: post) ip = Some b0) by (rewrite Hbytes; by apply rd_app).
    rewrite Hr, some_bind. destruct (Z.eqb_spec b0 0); [done|]. cbn [negb]. destruct (Z.ltb_spec 0 n); [|lia]. cbn [andb]. rewrite Hhigh.
    destruct room as [|x room]; [done|]. cbn [app] in *. injection Hroom as Hroom.
    assert (Hnext : forall k, k = zlen (utf8_bytes c) -> mbstowcs_loop fuel (out ++ c :: room ++ rest) (pre ++ (utf8_bytes c ++ utf8_text ws) ++ 0 :: post) (op + 1) (ip + k) (n - k) =
      Some (out ++ c :: ws ++ rest, op + zlen (c :: ws))).
    { intros k ->. rewrite (cons_middle c out), (app_assoc out), <- (app_assoc (utf8_bytes c)), (app_assoc pre).
      rewrite (IH fuel (out ++ [c]) room rest (pre ++ utf8_bytes c) post); try done; try lia.
      - do 2 f_equal; [by rewrite <- app_assoc|]. simpl. lia.
      - rewrite length_app. simpl. lia.
      - rewrite length_app. lia. }
    destruct (Z.ltb_spec c 0x80); cbn [negb].
    + assert (Hb : utf8_bytes c = [c]) by (unfold utf8_bytes; destruct (Z.ltb_spec c 0x80); [done|lia]).
      rewrite Hb in Hbytes. injection Hbytes as <- _. rewrite (wr_app out _ x c op Hop), some_bind. apply (Hnext 1). by rewrite Hb.
    + rewrite <- app_assoc in Hnext |- *. rewrite (mbtowc_ok pre c _ n ip) by (done || lia). rewrite some_bind. cbv iota.
      rewrite (wr_app out _ x c op Hop), some_bind. destruct (Z.eqb_spec (zlen (utf8_bytes c)) (-1)); [lia|]. by apply Hnext.
Qed.

(** C34. Text of 16-bit characters goes to UTF-8 and back: with as much room as the
    UTF-8 text needs, utf8_wcstombs writes it (one to three bytes for a character)
    and nothing behind it, and utf8_mbstowcs reads the same characters back from it;
    both return the number of cells written. *)
Theorem utf8_roundtrip ws dst post maxlen out post' n : Forall is_wide ws ->
  zlen (utf8_text ws) <= maxlen -> zlen (utf8_text ws) <= zlen dst -> zlen (utf8_text ws) <= n -> zlen ws <= zlen out ->
  utf8_wcstombs dst (ws ++ 0 :: post) maxlen = Some (utf8_text ws ++ drop (length (utf8_text ws)) dst, zlen (utf8_text ws)) /\
  utf8_mbstowcs out (utf8_text ws ++ 0 :: post') n = Some (ws ++ drop (length ws) out, zlen ws).
Proof.
  intros Hws Hm Hd Hn Ho. split.
  - unfold utf8_wcstombs. rewrite <- (take_drop (length (utf8_text ws)) dst) at 1.
    apply (wcstombs_text ws _ [] _ _ []); try done; rewrite ?length_app, ?length_take; simpl; lia.
  - unfold utf8_mbstowcs. rewrite <- (take_drop (length ws) out) at 1.
    apply (mbstowcs_text ws _ [] _ _ []); try done; rewrite ?length_take; lia.
Qed.

Lemma utf8_roundtrip_witness :
  utf8_wcstombs (replicate 8 7) ([0x41; 0xE9; 0x20AC] ++ 0 :: []) 6 = Some (utf8_text [0x41; 0xE9; 0x20AC] ++ drop 6 (replicate 8 7), 6) /\
  utf8_mbstowcs (replicate 4 9) (utf8_text [0x41; 0xE9; 0x20AC] ++ 0 :: []) 6 = Some ([0x41; 0xE9; 0x20AC] ++ drop 3 (replicate 4 9), 3).
Proof.
  apply (utf8_roundtrip [0x41; 0xE9; 0x20AC] (replicate 8 7) [] 6 (replicate 4 9) [] 6).
  - repeat constructor.
  - vm_compute. discriminate.
  - vm_compute. discriminate.
  - vm_compute. discriminate.
  - vm_compute. discriminate.
Defined.

(** ** Any bytes *)

Lemma mbtowc_loop_range s n : forall t i c0 l nc, 0 <= i -> i + n - nc <= zlen s -> nc < n -> 0 <= nc ->
  exists o k, mbtowc_loop t s i n c0 l nc = Some (o, k) /\
    (o = None /\ k = -1 \/ exists v, o = Some v /\ 0 <= v < 2 ^ 16 /\ 1 <= k <= n).
Proof.
  induction t as [|r t IH]; intros i c0 l nc Hi Hs Hn H0; cbn [mbtowc_loop]; [eexists _, _; split; [done|by left]|].
  destruct (_ =? cval r).
  { destruct (_ <? lval r); eexists _, _; (split; [done|]); [by left|]. right. eexists. split; [done|].
    split; [apply Z.mod_pos_bound; lia|lia]. }
  destruct (Z.leb_spec n (nc + 1)); [eexists _, _; split; [done|by left]|].
  destruct (rd_is_Some s (i + 1)) as [b ->]; [lia|]. rewrite some_bind.
  destruct (negb _); [eexists _, _; split; [done|by left]|]. apply IH; lia.
Qed.

(** What a loop leaves that writes the cells from [op] on, and how far it came. *)
Definition written (pwcs pwcs' : list Z) (op r n : Z) : Prop :=
  op <= r <= op + n /\ length pwcs' = length pwcs /\
  (forall j, 0 <= j < op \/ r <= j -> rd pwcs' j = rd pwcs j) /\ (forall j v, op <= j < r -> rd pwcs' j = Some v -> 0 <= v < 2 ^ 16).

Lemma written_step pwcs pwcs1 pwcs' op r n k v : wr pwcs op v = Some pwcs1 -> 0 <= v < 2 ^ 16 -> 1 <= k ->
  written pwcs1 pwcs' (op + 1) r (n - k) -> written pwcs pwcs' op r n.
Proof.
  intros Hw Hv Hk (Hr&Hlen&Hout&Hin). pose proof (wr_length _ _ _ _ Hw). destruct (wr_inv _ _ _ _ Hw) as [Hop _].
  split; [lia|]. split; [congruence|]. split.
  - intros j Hj. rewrite Hout by lia. apply (rd_wr_ne pwcs pwcs1 op j v); [lia|done].
  - intros j x Hj Hx. destruct (Z.eq_dec j op) as [->|]; [|apply (Hin j); [lia|done]].
    rewrite Hout in Hx by lia. rewrite (rd_wr_eq pwcs pwcs1 op v Hw) in Hx. by simplify_eq.
Qed.

Lemma mbstowcs_safe fuel : forall pwcs s op ip n, Forall (fun b => 0 <= b < 256) s -> (Z.to_nat n < fuel)%nat ->
  0 <= op -> 0 <= ip -> 0 <= n -> op + n <= zlen pwcs -> ip + n < zlen s ->
  exists pwcs' r, mbstowcs_loop fuel pwcs s op ip n = Some (pwcs', r) /\ written pwcs pwcs' op r n.
Proof.
  induction fuel as [|fuel IH]; intros pwcs s op ip n Hb Hf Hop Hip Hn Hlen Hs; [lia|]. cbn [mbstowcs_loop].
  destruct (rd_is_Some s ip) as [b Hrd]; [lia|]. rewrite Hrd, some_bind.
  assert (Hrange : 0 <= b < 256). { apply rd_Some in Hrd as [_ Hrd]. by eapply (Forall_lookup_1 _ _ _ _ Hb). }
  assert (Hstop : written pwcs pwcs op op n) by (split; [lia|split; [done|split; [done|intros; lia]]]).
  destruct (negb (b =? 0)); [|by eexists _, _]. destruct (Z.ltb_spec 0 n); [|by eexists _, _]. cbn [andb].
  assert (Hput : forall v k, 0 <= v < 2 ^ 16 -> 1 <= k <= n -> exists pwcs1, wr pwcs op v = Some pwcs1 /\
    exists pwcs' r, mbstowcs_loop fuel pwcs1 s (op + 1) (ip + k) (n - k) = Some (pwcs', r) /\ written pwcs pwcs' op r n).
  { intros v k Hv Hk. eexists. rewrite (wr_Some pwcs op v) by lia. split; [done|].
    destruct (IH (<[Z.to_nat op := v]> pwcs) s (op + 1) (ip + k) (n - k)) as (pwcs'&r&->&Hw); try done; try lia; [rewrite length_insert; lia|].
    eexists _, _. split; [done|]. eapply written_step; [by apply wr_Some; lia|done|apply Hk|done]. }
  destruct (negb (Z.land b 0x80 =? 0)).
  - unfold utf8_mbtowc. rewrite Hrd, some_bind.
    destruct (mbtowc_loop_range s n utf8_table ip b b 0) as (o&k&->&[[-> ->]|(v&->&Hv&Hk)]); try lia; rewrite some_bind; cbn [fst snd].
    + simpl. destruct (IH pwcs s op (ip + 1) (n - 1)) as (pwcs'&r&->&Hw); try done; try lia. eexists _, _. split; [done|].
      destruct Hw as (?&?&?&?). split; [lia|done].
    + destruct (Hput v k Hv Hk) as (pwcs1&->&Hrest). rewrite some_bind. destruct (Z.eqb_spec k (-1)); [lia|]. exact Hrest.
  - destruct (Hput b 1) as (pwcs1&->&Hrest); [lia|lia|]. rewrite some_bind. exact Hrest.
Qed.

(** C35. Any bytes can be read: utf8_mbstowcs ends on every string of [n] bytes that
    has one more byte behind it, with or without a terminator and however malformed,
    writes at most [n] characters, each of 16 bits, and nothing behind those it
    counts. *)
Theorem utf8_mbstowcs_safe pwcs s n : Forall (fun b => 0 <= b < 256) s -> 0 <= n < zlen s -> n <= zlen pwcs ->
  exists pwcs' r, utf8_mbstowcs pwcs s n = Some (pwcs', r) /\ 0 <= r <= n /\ length pwcs' = length pwcs /\
    (forall j, r <= j -> rd pwcs' j = rd pwcs j) /\ (forall j v, 0 <= j < r -> rd pwcs' j = Some v -> 0 <= v < 2 ^ 16).
Proof.
  intros Hb Hn Hlen. destruct (mbstowcs_safe (S (Z.to_nat n)) pwcs s 0 0 n Hb) as (pwcs'&r&Heq&Hw&?&Hout&?); try lia.
  exists pwcs', r. split; [done|]. split; [lia|]. split; [done|]. split; [|done]. intros j Hj. apply Hout. by right.
Qed.
Lemma utf8_mbstowcs_safe_witness : exists pwcs' r,
  utf8_mbstowcs [1; 2; 3] [0xC3; 0x41; 0xE2; 0x82] 3 = Some (pwcs', r) /\ 0 <= r <= 3 /\ length pwcs' = length [1; 2; 3] /\
    (forall j, r <= j -> rd pwcs' j = rd [1; 2; 3] j) /\ (forall j v, 0 <= j < r -> rd pwcs' j = Some v -> 0 <= v < 2 ^ 16).
Proof. apply (utf8_mbstowcs_safe [1; 2; 3] [0xC3; 0x41; 0xE2; 0x82] 3); [repeat constructor; done|done|done]. Defined.

(** *** Deviations *)

(** ASCII characters do not count: the room given is one byte, three are written, and
    where there is only one the object is left. *)
Example wcstombs_beyond_maxlen :
  utf8_wcstombs [0; 0; 0; 0] [0x41; 0x42; 0x43; 0] 1 = Some ([0x41; 0x42; 0x43; 0], 3) /\
  utf8_wcstombs [0] [0x41; 0x42; 0x43; 0] 1 = None.
Proof. done. Qed.
(** The byte behind the string is read before the length is looked at. *)
Example mbstowcs_reads_behind : utf8_mbstowcs [0] [0x41] 1 = None.
Proof. done. Qed.
(** A character beyond 16 bits is cut, U+1002F to a slash. *)
Example mbtowc_cuts : utf8_mbtowc [0xF0; 0x90; 0x80; 0xAF] 0 4 = Some (Some 0x2F, 4).
Proof. done. Qed.
(** Longer forms of a character are refused. *)
Example mbtowc_shortest : utf8_mbtowc [0xC0; 0xAF] 0 2 = Some (None, -1) /\ utf8_mbtowc [0xE0; 0x80; 0xAF] 0 3 = Some (None, -1).
Proof. done. Qed.

(** ** The registered tables *)

(** The first table of the list that answers to the name. *)
Definition first_table (st : chain nls_table) (name : list Z) (l : list Z) : option Z :=
  List.find (fun a => match cells st !! a with Some t => answers name t | None => false end) l.

Lemma seek_find (st : chain nls_table) nl l p stop fuel : load st nl = Some p -> is_chain (cells st) p l -> (length l < fuel)%nat ->
  exists l1 l2 nl', l = l1 ++ l2 /\ seek fuel st nl stop = Some nl' /\ nl' = link_after nl l1 /\
    List.find (fun a => match cells st !! a with Some t => stop a t | None => false end) l = head l2 /\
    match l2 with [] => True | a :: _ => exists c, cells st !! a = Some c /\ stop a c = true end.
Proof.
  intros Hp Hl Hf. destruct (seek_ok fuel st nl l p stop Hp Hl Hf) as (l1&l2&->&Hs&Hno&Hyes).
  exists l1, l2, (link_after nl l1). split; [done|]. split; [done|]. split; [done|]. split; [|done].
  assert (Hc : forall a, a ∈ l1 -> is_Some (cells st !! a)) by (intros a Ha; eapply is_chain_cells; [exact Hl|set_solver]).
  clear Hs Hl Hf Hp. induction l1 as [|a l1 IH]; cbn [app List.find].
  - destruct l2 as [|a l2]; [done|]. destruct Hyes as (c&Hca&Hst). cbn [List.find]. by rewrite Hca, Hst.
  - destruct (Hc a ltac:(left)) as [c Hca]. rewrite Hca, (Hno a c ltac:(left) Hca). apply IH; intros; [eapply Hno|apply Hc]; try done; by right.
Qed.

(** Registering and unregistering change the list of tables as asked, or say why not;
    a search gives the first table with the name, or none. *)
Lemma tables_refine st l nls name : is_chain (cells st) (first st) l -> NoDup l ->
  (forall t, cells st !! nls = Some t -> exists st' e, register_nls st nls = Some (st', e) /\
     (e = 0 /\ t_next t = 0 /\ nls ∉ l /\ (nls <> 0 -> is_chain (cells st') (first st') (nls :: l)) \/ e = - EBUSY /\ st' = st /\ (t_next t <> 0 \/ nls ∈ l))) /\
  (exists st' e, unregister_nls st nls = Some (st', e) /\
     (e = 0 /\ (exists l1 l2, l = l1 ++ nls :: l2 /\ is_chain (cells st') (first st') (l1 ++ l2)) \/ e = - EINVAL /\ st' = st /\ nls ∉ l)) /\
  (forall get, find_nls get st name = Some (match first_table st name l with
     | Some a => if get (match cells st !! a with Some t => owner t | None => 0 end) then a else 0 | None => 0 end)).
Proof.
  intros Hl Hnd. assert (Hfuel : (length l < table_turns st)%nat) by (unfold table_turns; pose proof (is_chain_length _ _ _ Hl); lia).
  destruct (seek_ok (table_turns st) st Head l (first st) (fun p _ => p =? nls) eq_refl Hl Hfuel) as (l1&l2&Hsplit&Hseek&Hno&Hyes).
  assert (Hload : exists p, load st (link_after Head l1) = Some p /\ is_chain (cells st) p l2) by (apply load_after; by rewrite <- Hsplit).
  destruct Hload as (p&Hload&Hp).
  assert (Habsent : l2 = [] -> nls ∉ l).
  { intros -> Hn. rewrite app_nil_r in Hsplit. subst l1. destruct (is_chain_cells _ _ _ nls Hl Hn) as [_ [c Hc]].
    specialize (Hno nls c Hn Hc). by rewrite Z.eqb_refl in Hno. }
  split; [|split].
  - intros t Ht. unfold register_nls. rewrite Ht, some_bind. destruct (Z.eqb_spec (t_next t) 0) as [H0|H0]; cbn [negb].
    2:{ eexists _, _. split; [done|]. right. split; [done|]. split; [done|by left]. }
    rewrite Hseek, some_bind, Hload, some_bind. destruct l2 as [|a l2]; cbn [is_chain] in Hp.
    + subst p. simpl. eexists _, _. split; [done|]. left. split; [done|]. split; [done|]. split; [by apply Habsent|].
      intros Hn0. cbn [is_chain cells first]. split; [done|]. split; [done|]. eexists. rewrite lookup_insert_eq. split; [done|].
      apply is_chain_insert; [by apply Habsent|done].
    + destruct Hp as (->&Ha&_). destruct Hyes as (c&_&Hst). apply Z.eqb_eq in Hst. subst a.
      destruct (Z.eqb_spec nls 0); [done|]. cbn [negb]. eexists _, _. split; [done|]. right. split; [done|]. split; [done|]. right. set_solver.
  - unfold unregister_nls. rewrite Hseek, some_bind, Hload, some_bind. destruct l2 as [|a l2]; cbn [is_chain] in Hp.
    + subst p. simpl. eexists _, _. split; [done|]. right. split; [done|]. split; [done|]. by apply Habsent.
    + destruct Hp as (->&Ha&c&Hc&Hl2). destruct Hyes as (c'&Hc'&Hst). apply Z.eqb_eq in Hst. subst a.
      destruct (Z.eqb_spec nls 0); [done|]. rewrite Hc, some_bind. rewrite Hsplit in Hl, Hnd. apply NoDup_app in Hnd as (Hnd1&Hdis&Hnd2).
      destruct (assign_ok st l1 (nls :: l2) l2 (next c)) as (st'&->&Hl'&_); try done.
      { intros b Hb Hb1. apply (Hdis b Hb1). by right. }
      rewrite some_bind. eexists _, _. split; [done|]. left. split; [done|]. by exists l1, l2.
  - intros get. unfold find_nls. clear l1 l2 Hsplit Hseek Hno Hyes Hload Hp Habsent p.
    destruct (seek_find st Head l (first st) (fun _ t => answers name t) (table_turns st) eq_refl Hl Hfuel) as (l1&l2&nl'&Hsplit&->&->&Hfind&Hyes).
    rewrite some_bind. unfold first_table. rewrite Hfind.
    destruct (load_after st l1 l2) as (p&->&Hp); [by rewrite <- Hsplit|]. rewrite some_bind.
    destruct l2 as [|a l2]; cbn [is_chain head] in *; [by subst p|]. destruct Hp as (->&Ha&_). destruct Hyes as (c&Hc&_).
    destruct (Z.eqb_spec a 0); [done|]. rewrite Hc, some_bind. done.
Qed.
