(* ===== verification/GenAlloc.v ===== *)
(** * lib/genalloc.c: pools of special memory

    A pool has chunks of addresses, each with a bitmap of its granules of
    2^min_alloc_order bytes. *)

From S2P Require Import Prelude Bits FindBit.

(** The words of [bits] are those that the bytes asked for lie in; the object of
    kmalloc has the rest of the last one. *)
Record gen_pool_chunk := Chunk { start_addr : Z; end_addr : Z; bits : list Z }.
(** list_add puts a new chunk in front. *)
Record gen_pool := Pool { chunks : list gen_pool_chunk; min_alloc_order : Z }.

Definition BITS_PER_BYTE : Z := 8.

(** [ok]: kmalloc has memory. *)
Definition gen_pool_create (min_alloc_order : Z) (ok : bool) : option gen_pool :=
  if ok then Some (Pool [] min_alloc_order) else None.

Definition gen_pool_add (pool : gen_pool) (addr size : Z) (ok : bool) : gen_pool * Z :=
  let nbits := s32 (Z.shiftr size (min_alloc_order pool)) in
  let nbytes := (nbits + BITS_PER_BYTE - 1) / BITS_PER_BYTE in
  if negb ok then (pool, -1) else
  (Pool (Chunk addr (u32 (addr + size)) (replicate (Z.to_nat ((nbytes + 3) / 4)) 0) :: chunks pool) (min_alloc_order pool), 0).

(** The chunks freed; [None] is BUG. *)
Fixpoint destroy_loop (order : Z) (l : list gen_pool_chunk) : option unit :=
  match l with
  | [] => Some tt
  | chunk :: l =>
    let end_bit := s32 (Z.shiftr (u32 (end_addr chunk - start_addr chunk)) order) in
    bit ← find_next_bit (bits chunk) end_bit 0;
    if bit <? end_bit then None else destroy_loop order l
  end.
Definition gen_pool_destroy (pool : gen_pool) : option unit := destroy_loop (min_alloc_order pool) (chunks pool).

Definition nbits_of (order size : Z) : Z := s32 (Z.shiftr (u32 (size + Z.shiftl 1 order - 1)) order).

(** while (nbits--) *)
Fixpoint set_bits (nbits : nat) (start_bit : Z) (bits : list Z) : option (list Z) :=
  match nbits with O => Some bits | S n => bits ← set_bit start_bit bits; set_bits n (start_bit + 1) bits end.
Fixpoint clear_bits (nbits : nat) (bit : Z) (bits : list Z) : option (list Z) :=
  match nbits with O => Some bits | S n => bits ← clear_bit bit bits; clear_bits n (bit + 1) bits end.

(** while (bit + 1 < end_bit), in one chunk: the first granule, or none. *)
Fixpoint chunk_loop (fuel : nat) (bits : list Z) (nbits bit end_bit : Z) : option (option Z) :=
  match fuel with
  | O => None
  | S fuel =>
    if bit + 1 <? end_bit then
      bit ← find_next_zero_bit bits end_bit (bit + 1);
      if end_bit <=? bit then Some None else
      let start_bit := bit in
      if 1 <? nbits then
        bit ← find_next_bit bits (bit + nbits) (bit + 1);
        if bit - start_bit <? nbits then chunk_loop fuel bits nbits bit end_bit else Some (Some start_bit)
      else Some (Some start_bit)
    else Some None
  end.
(** The chunks and the address, 0 if there is none. *)
Fixpoint alloc_loop (order nbits : Z) (l : list gen_pool_chunk) : option (list gen_pool_chunk * Z) :=
  match l with
  | [] => Some ([], 0)
  | chunk :: l =>
    let end_bit := s32 (Z.shiftr (u32 (end_addr chunk - start_addr chunk)) order) - (nbits + 1) in
    r ← chunk_loop (S (Z.to_nat end_bit)) (bits chunk) nbits (-1) end_bit;
    match r with
    | Some start_bit =>
      if nbits <? 0 then None else
      b ← set_bits (Z.to_nat nbits) start_bit (bits chunk);
      Some (Chunk (start_addr chunk) (end_addr chunk) b :: l, u32 (start_addr chunk + Z.shiftl start_bit order))
    | None => r ← alloc_loop order nbits l; Some (chunk :: r.1, r.2)
    end
  end.
Definition gen_pool_alloc (pool : gen_pool) (size : Z) : option (gen_pool * Z) :=
  if size =? 0 then Some (pool, 0) else
  r ← alloc_loop (min_alloc_order pool) (nbits_of (min_alloc_order pool) size) (chunks pool);
  Some (Pool r.1 (min_alloc_order pool), r.2).

(** [None] is BUG: a range that ends behind its chunk, or is in none. *)
Fixpoint free_loop (order addr size nbits : Z) (l : list gen_pool_chunk) : option (list gen_pool_chunk) :=
  match l with
  | [] => if 0 <? nbits then None else Some []
  | chunk :: l =>
    if (start_addr chunk <=? addr) && (addr <? end_addr chunk) then
      if end_addr chunk <? u32 (addr + size) then None else
      if nbits <? 0 then None else
      b ← clear_bits (Z.to_nat nbits) (Z.shiftr (addr - start_addr chunk) order) (bits chunk);
      Some (Chunk (start_addr chunk) (end_addr chunk) b :: l)
    else l ← free_loop order addr size nbits l; Some (chunk :: l)
  end.
Definition gen_pool_free (pool : gen_pool) (addr size : Z) : option gen_pool :=
  l ← free_loop (min_alloc_order pool) addr size (nbits_of (min_alloc_order pool) size) (chunks pool);
  Some (Pool l (min_alloc_order pool)).

(** ** Runs of bits *)

Definition free_run (b : list Z) (p n : Z) : Prop := forall i, p <= i < p + n -> bit b i = false.

Lemma set_bits_ok n : forall start b, words b -> 0 <= start -> start + Z.of_nat n <= 32 * zlen b ->
  exists b', set_bits n start b = Some b' /\ words b' /\ length b' = length b /\
    forall i, 0 <= i -> bit b' i = (start <=? i) && (i <? start + Z.of_nat n) || bit b i.
Proof.
  induction n as [|n IH]; intros start b Hw Hs Hl; cbn [set_bits].
  { exists b. split_and!; try done. intros i Hi. zcases; simpl; (done || lia). }
  destruct (set_bit_spec start b) as (b1&->&Hw1&Hl1&Hb1); [done|lia|]. rewrite some_bind.
  destruct (IH (start + 1) b1) as (b2&->&Hw2&Hl2&Hb2); [done|lia|rewrite Hl1; lia|].
  exists b2. split; [done|]. split; [done|]. split; [congruence|]. intros i Hi. rewrite Hb2, Hb1 by done. zcases; simpl; (done || lia).
Qed.
Lemma clear_bits_ok n : forall start b, words b -> 0 <= start -> start + Z.of_nat n <= 32 * zlen b ->
  exists b', clear_bits n start b = Some b' /\ words b' /\ length b' = length b /\
    forall i, 0 <= i -> bit b' i = negb ((start <=? i) && (i <? start + Z.of_nat n)) && bit b i.
Proof.
  induction n as [|n IH]; intros start b Hw Hs Hl; cbn [clear_bits].
  { exists b. split_and!; try done. intros i Hi. zcases; simpl; (done || lia). }
  destruct (clear_bit_spec start b) as (b1&->&Hw1&Hl1&Hb1); [done|lia|]. rewrite some_bind.
  destruct (IH (start + 1) b1) as (b2&->&Hw2&Hl2&Hb2); [done|lia|rewrite Hl1; lia|].
  exists b2. split; [done|]. split; [done|]. split; [congruence|]. intros i Hi. rewrite Hb2, Hb1 by done.
  zcases; simpl; (done || lia || by destruct (bit b i)).
Qed.

Lemma next_zero_ok b size offset : words b -> 0 <= offset <= size -> size <= 32 * zlen b -> size < 2 ^ 32 ->
  exists z, find_next_zero_bit b size offset = Some z /\ first_from (fun i => negb (bit b i)) offset size z.
Proof.
  intros Hw Ho Hl H32. destruct (find_next_bit_spec (map not32 b) size offset) as (z&Hz&_&Hg);
    [by apply words_not|lia|lia|rewrite length_map; lia|].
  exists z. rewrite find_next_zero_bit_not by (unfold is_u32; (done || lia)). split; [done|].
  destruct (Hg ltac:(lia)) as (H1&H2&H3). split; [done|]. split.
  - intros i Hi. rewrite <- bit_not by lia. by apply H2.
  - intros Hlt. rewrite <- bit_not by lia. by apply H3.
Qed.

(** The search gives the first run that starts before [end_bit]. *)
Lemma chunk_loop_ok fuel : forall b nbits bit0 end_bit, words b -> 1 <= nbits -> end_bit + nbits <= 32 * zlen b ->
  end_bit + nbits < 2 ^ 32 -> -1 <= bit0 -> end_bit - bit0 <= Z.of_nat fuel ->
  (0 < fuel)%nat -> exists o, chunk_loop fuel b nbits bit0 end_bit = Some o /\
    match o with
    | Some p => bit0 < p < end_bit /\ free_run b p nbits /\ forall q, bit0 < q < p -> ~ free_run b q nbits
    | None => forall q, bit0 < q < end_bit -> ~ free_run b q nbits
    end.
Proof.
  induction fuel as [|fuel IH]; intros b nbits bit0 end_bit Hw Hn Hl H32 Hb0 Hf H0; [lia|]. cbn [chunk_loop].
  destruct (Z.ltb_spec (bit0 + 1) end_bit); [|exists None; split; [done|]; intros q Hq; lia].
  destruct (next_zero_ok b end_bit (bit0 + 1)) as (z&->&Hz1&Hz2&Hz3); [done|lia..|]. rewrite some_bind.
  assert (Hbefore : forall q, bit0 < q < z -> ~ free_run b q nbits).
  { intros q Hq Hfree. specialize (Hz2 q ltac:(lia)). rewrite Hfree in Hz2 by lia. done. }
  destruct (Z.leb_spec end_bit z).
  { exists None. split; [done|]. intros q Hq. apply Hbefore. lia. }
  assert (Hzf : bit b z = false) by (specialize (Hz3 ltac:(lia)); by destruct (bit b z)).
  destruct (Z.ltb_spec 1 nbits).
  - destruct (find_next_bit_spec b (z + nbits) (z + 1)) as (r&->&_&Hr); [done|lia|lia|lia|]. rewrite some_bind.
    destruct (Hr ltac:(lia)) as (Hr1&Hr2&Hr3). destruct (Z.ltb_spec (r - z) nbits).
    + assert (Hset : bit b r = true) by (apply Hr3; lia).
      destruct (IH b nbits r end_bit) as (o&->&Ho); try done; try lia.
      assert (Hmid : forall q, bit0 < q <= r -> ~ free_run b q nbits).
      { intros q Hq Hfree. destruct (Z.lt_ge_cases q z); [by apply (Hbefore q); [lia|]|]. rewrite Hfree in Hset by lia. done. }
      exists o. split; [done|]. destruct o as [p|].
      * destruct Ho as (Hp&Hrun&Hq). split; [lia|]. split; [done|]. intros q Hq'. destruct (Z.le_gt_cases q r); [apply Hmid; lia|apply Hq; lia].
      * intros q Hq. destruct (Z.le_gt_cases q r); [apply Hmid; lia|apply Ho; lia].
    + exists (Some z). split; [done|]. split; [lia|]. split; [|done]. intros i Hi.
      destruct (Z.eq_dec i z) as [->|]; [done|]. apply Hr2. lia.
  - exists (Some z). split; [done|]. split; [lia|]. split; [|done]. intros i Hi. by replace i with z by lia.
Qed.

(** ** Chunks and addresses *)

Section pool.
  Context (order : Z).
  Hypothesis Horder : 0 <= order < 32.

Definition granules (c : gen_pool_chunk) : Z := (end_addr c - start_addr c) / 2 ^ order.
Definition chunk_ok (c : gen_pool_chunk) : Prop :=
  words (bits c) /\ 0 < start_addr c <= end_addr c /\ end_addr c < 2 ^ 32 /\ granules c <= 32 * zlen (bits c) /\ granules c < 2 ^ 31.
Definition range (c : gen_pool_chunk) : Z * Z := (start_addr c, end_addr c).
Definition inside (r : Z * Z) (x : Z) : Prop := fst r <= x < snd r.
(** No address is in two chunks. *)
Definition apart (rs : list (Z * Z)) : Prop := forall l1 r l2, rs = l1 ++ r :: l2 -> forall r0, r0 ∈ l1 ++ l2 -> forall x, inside r x -> ~ inside r0 x.

(** The addresses whose granule is marked. *)
Definition taken (c : gen_pool_chunk) (x : Z) : Prop := inside (range c) x /\ bit (bits c) ((x - start_addr c) / 2 ^ order) = true.
Definition all_taken (l : list gen_pool_chunk) (x : Z) : Prop := exists c, c ∈ l /\ taken c x.
(** The addresses of an allocation, whole granules. *)
Definition region (a nbits x : Z) : Prop := a <= x < a + nbits * 2 ^ order.

Lemma pow_pos : 0 < 2 ^ order.
Proof. apply Z.pow_pos_nonneg; lia. Qed.

Lemma granules_s32 c : chunk_ok c -> s32 (Z.shiftr (u32 (end_addr c - start_addr c)) order) = granules c.
Proof.
  intros (_&Hs&He&_&Hg). rewrite u32_small by (unfold is_u32; lia). rewrite Z.shiftr_div_pow2 by lia. fold (granules c).
  apply s32_small. pose proof pow_pos. assert (0 <= granules c) by (apply Z.div_pos; lia). lia.
Qed.
Lemma granules_end c : chunk_ok c -> start_addr c + granules c * 2 ^ order <= end_addr c.
Proof. intros (_&Hs&He&_&Hg). pose proof pow_pos. unfold granules. pose proof (Z.mul_div_le (end_addr c - start_addr c) (2 ^ order)). lia. Qed.

Lemma granule_index s x p n : 0 <= p -> s <= x -> (p <= (x - s) / 2 ^ order < p + n <-> region (s + p * 2 ^ order) n x).
Proof.
  intros Hp Hx. pose proof pow_pos as H0. unfold region.
  pose proof (Z.mul_div_le (x - s) (2 ^ order) H0). pose proof (Z.mod_pos_bound (x - s) (2 ^ order) H0).
  pose proof (Z.div_mod (x - s) (2 ^ order) ltac:(lia)). set (q := (x - s) / 2 ^ order) in *. split; intros [? ?]; nia.
Qed.

(** A chunk with other bits in the granules [p] to [p + n]. *)
Lemma taken_update c b' p n (f : bool -> bool -> bool) : chunk_ok c -> 0 <= p -> 0 <= n -> p + n <= granules c ->
  (forall i, 0 <= i -> bit b' i = f ((p <=? i) && (i <? p + n)) (bit (bits c) i)) ->
  forall x, taken (Chunk (start_addr c) (end_addr c) b') x <->
    inside (range c) x /\ f (bool_decide (region (start_addr c + p * 2 ^ order) n x)) (bit (bits c) ((x - start_addr c) / 2 ^ order)) = true.
Proof.
  intros Hc Hp Hn Hg Hf x. unfold taken. cbn [bits start_addr]. change (range (Chunk _ _ b')) with (range c).
  assert (He : inside (range c) x -> bit b' ((x - start_addr c) / 2 ^ order) =
    f (bool_decide (region (start_addr c + p * 2 ^ order) n x)) (bit (bits c) ((x - start_addr c) / 2 ^ order))).
  { intros [Hx _]. simpl in Hx. pose proof (pow_pos). rewrite Hf by (apply Z.div_pos; lia). f_equal.
    apply eq_true_iff_eq. rewrite bool_decide_eq_true, <- (granule_index (start_addr c) x p n Hp Hx), andb_true_iff, Z.leb_le, Z.ltb_lt. done. }
  split; intros [Hx H]; (split; [done|]); [by rewrite <- He|by rewrite He].
Qed.
End pool.

(** ** Allocating and freeing *)

Section operations.
  Context (order : Z).
  Hypothesis Horder : 0 <= order < 32.

(** No chunk has a run that the search looks at: it starts [nbits + 1] granules
    before the end of its chunk at the latest. *)
Definition fits (c : gen_pool_chunk) (nbits p : Z) : Prop :=
  0 <= p < granules order c - (nbits + 1) /\ free_run (bits c) p nbits.

Lemma alloc_loop_ok nbits l : 1 <= nbits < 2 ^ 31 -> Forall (chunk_ok order) l -> exists l' a, alloc_loop order nbits l = Some (l', a) /\
  (a = 0 /\ l' = l /\ (forall c p, c ∈ l -> ~ fits c nbits p) \/
   exists l1 c l2 p b', l = l1 ++ c :: l2 /\ l' = l1 ++ Chunk (start_addr c) (end_addr c) b' :: l2 /\
     a = start_addr c + p * 2 ^ order /\ fits c nbits p /\ (forall q, q < p -> ~ fits c nbits q) /\
     (forall c0 q, c0 ∈ l1 -> ~ fits c0 nbits q) /\ words b' /\ length b' = length (bits c) /\
     forall i, 0 <= i -> bit b' i = (p <=? i) && (i <? p + nbits) || bit (bits c) i).
Proof.
  intros Hn Hl. induction Hl as [|c l Hc Hl IH]; cbn [alloc_loop].
  { exists [], 0. split; [done|]. left. split; [done|]. split; [done|]. intros c p []%elem_of_nil. }
  rewrite granules_s32 by done. assert (Hcc := Hc). destruct Hcc as (Hw&Hs&He&Hg&Hg31).
  set (end_bit := granules order c - (nbits + 1)).
  destruct (chunk_loop_ok (S (Z.to_nat end_bit)) (bits c) nbits (-1) end_bit) as (o&->&Ho); try done; try lia.
  rewrite some_bind. destruct o as [p|].
  - destruct Ho as (Hp&Hrun&Hfirst). destruct (Z.ltb_spec nbits 0); [lia|].
    destruct (set_bits_ok (Z.to_nat nbits) p (bits c)) as (b'&->&Hw'&Hl'&Hb'); [done|lia|lia|]. rewrite some_bind.
    eexists _, _. split; [done|]. right. exists [], c, l, p, b'. split; [done|]. split; [done|]. split.
    { rewrite Z.shiftl_mul_pow2 by lia. apply u32_small. pose proof (granules_end order Horder c Hc). pose proof (pow_pos order Horder).
      unfold is_u32. nia. }
    split; [split; [lia|done]|]. split; [intros q Hq [Hq1 Hq2]; apply (Hfirst q); [lia|done]|].
    split; [intros c0 q []%elem_of_nil|]. split; [done|]. split; [done|].
    intros i Hi. rewrite Hb' by done. by rewrite Z2Nat.id by lia.
  - assert (Hno : forall p, ~ fits c nbits p) by (intros p [Hp Hrun]; apply (Ho p); [lia|done]).
    destruct IH as (l'&a&->&Hcase). rewrite some_bind. cbn [fst snd]. eexists _, _. split; [done|].
    destruct Hcase as [(->&->&Hall)|(l1&c1&l2&p&b'&->&->&Ha&Hf&Hq&Hl1&Hrest)]; [left|right].
    + split; [done|]. split; [done|]. intros c0 p [->|Hin]%elem_of_cons; [apply Hno|by apply Hall].
    + exists (c :: l1), c1, l2, p, b'. split_and!; try done; try apply Hrest.
      intros c0 q [->|Hin]%elem_of_cons; [apply Hno|by apply Hl1].
Qed.

Lemma free_loop_ok addr size nbits l1 c l2 p : chunk_ok order c -> inside (range c) addr -> (forall c0, c0 ∈ l1 -> ~ inside (range c0) addr) ->
  addr = start_addr c + p * 2 ^ order -> 0 <= nbits -> p + nbits <= granules order c -> addr + size <= end_addr c -> 0 <= size ->
  exists b', free_loop order addr size nbits (l1 ++ c :: l2) = Some (l1 ++ Chunk (start_addr c) (end_addr c) b' :: l2) /\
    words b' /\ length b' = length (bits c) /\
    forall i, 0 <= i -> bit b' i = negb ((p <=? i) && (i <? p + nbits)) && bit (bits c) i.
Proof.
  intros Hc Hin Hout Ha Hn Hp Hsz Hs0. assert (Hcc := Hc). destruct Hcc as (Hw&Hs&He&Hg&Hg31). pose proof (pow_pos order Horder) as H2.
  assert (Hp0 : 0 <= p) by (unfold inside in Hin; simpl in Hin; nia).
  destruct (clear_bits_ok (Z.to_nat nbits) p (bits c)) as (b'&Hclear&Hw'&Hl'&Hb'); [done|lia|lia|].
  exists b'. split; [|split; [done|split; [done|]]].
  2:{ intros i Hi. rewrite Hb' by done. by rewrite Z2Nat.id by lia. }
  induction l1 as [|c0 l1 IH]; cbn [app free_loop].
  - unfold inside in Hin. simpl in Hin. destruct (Z.leb_spec (start_addr c) addr); [|lia]. destruct (Z.ltb_spec addr (end_addr c)); [|lia].
    cbn [andb]. rewrite u32_small by (unfold is_u32; lia). destruct (Z.ltb_spec (end_addr c) (addr + size)); [lia|].
    destruct (Z.ltb_spec nbits 0); [lia|]. replace (Z.shiftr (addr - start_addr c) order) with p.
    { by rewrite Hclear, some_bind. }
    rewrite Z.shiftr_div_pow2 by lia. subst addr. replace (start_addr c + p * 2 ^ order - start_addr c) with (p * 2 ^ order) by lia. by rewrite Z.div_mul by lia.
  - assert (Hn0 : (start_addr c0 <=? addr) && (addr <? end_addr c0) = false).
    { specialize (Hout c0 ltac:(left)). unfold inside in Hout. simpl in Hout. destruct (Z.leb_spec (start_addr c0) addr), (Z.ltb_spec addr (end_addr c0)); simpl; try done. lia. }
    rewrite Hn0, IH, some_bind; [done|]. intros c1 Hc1. apply Hout. by right.
Qed.

(** What replacing one chunk by one of the same range does to the marked addresses. *)
Lemma chunk_ok_bits c b' : chunk_ok order c -> words b' -> length b' = length (bits c) -> chunk_ok order (Chunk (start_addr c) (end_addr c) b').
Proof. intros (_&?&?&?&?) Hw Hl. unfold chunk_ok, granules in *. cbn [bits start_addr end_addr]. rewrite Hl. done. Qed.
Lemma all_taken_split l1 c l2 x : all_taken order (l1 ++ c :: l2) x <-> taken order c x \/ all_taken order (l1 ++ l2) x.
Proof.
  unfold all_taken. split.
  - intros (c0&Hc0&Hx). assert (c0 = c \/ c0 ∈ l1 ++ l2) as [->|] by set_solver; [by left|right; by exists c0].
  - intros [Hx|(c0&Hc0&Hx)]; [exists c|exists c0]; (split; [set_solver|done]).
Qed.

Definition pool_ok (l : list gen_pool_chunk) : Prop := Forall (chunk_ok order) l /\ apart (map range l).

Lemma pool_ok_replace l1 c b' l2 : pool_ok (l1 ++ c :: l2) -> words b' -> length b' = length (bits c) ->
  pool_ok (l1 ++ Chunk (start_addr c) (end_addr c) b' :: l2).
Proof.
  intros [Hf Ha] Hw Hl. split.
  - apply Forall_app in Hf as [H1 H2]. apply Forall_cons in H2 as [Hc H2]. apply Forall_app. split; [done|]. constructor; [by apply chunk_ok_bits|done].
  - by rewrite map_app in *.
Qed.
End operations.

(** ** Histories *)

Section history.
  Context (order : Z).
  Hypothesis Horder : 0 <= order < 32.

(** Sizes for which the sum with 2^order - 1 does not wrap and the number of granules
    is an int. *)
Definition sane (size : Z) : Prop := 0 < size /\ size + 2 ^ order - 1 < 2 ^ 32 /\ (size + 2 ^ order - 1) / 2 ^ order < 2 ^ 31 - 1.
Definition count (size : Z) : Z := (size + 2 ^ order - 1) / 2 ^ order.

Lemma nbits_ok size : sane size -> nbits_of order size = count size /\ 1 <= count size < 2 ^ 31 - 1 /\ size <= count size * 2 ^ order.
Proof.
  intros (H0&H32&H31). pose proof (pow_pos order Horder) as H2. fold (count size) in H31.
  assert (Hc : 1 <= count size /\ size <= count size * 2 ^ order).
  { unfold count. pose proof (Z.mul_div_le (size + 2 ^ order - 1) (2 ^ order) H2).
    pose proof (Z.mod_pos_bound (size + 2 ^ order - 1) (2 ^ order) H2). pose proof (Z.div_mod (size + 2 ^ order - 1) (2 ^ order) ltac:(lia)). nia. }
  split; [|lia]. unfold nbits_of. rewrite Z.shiftl_1_l, u32_small by (unfold is_u32; lia). rewrite Z.shiftr_div_pow2 by lia. fold (count size).
  apply s32_small. lia.
Qed.

(** An allocation is an address and the size asked for; it is granules of one chunk. *)
Definition placed (l : list gen_pool_chunk) (r : Z * Z) : Prop :=
  sane r.2 /\ exists c p, c ∈ map range l /\ r.1 = c.1 + p * 2 ^ order /\ 0 <= p /\ p + count r.2 <= (c.2 - c.1) / 2 ^ order.
Definition area (r : Z * Z) (x : Z) : Prop := region order r.1 (count r.2) x.
Definition separate (live : list (Z * Z)) : Prop :=
  forall l1 r l2, live = l1 ++ r :: l2 -> forall r0, r0 ∈ l1 ++ l2 -> forall x, area r x -> ~ area r0 x.
(** The marked addresses are those of the live allocations, which do not overlap. *)
Definition account (l : list gen_pool_chunk) (live : list (Z * Z)) : Prop :=
  pool_ok order l /\ (forall x, all_taken order l x <-> exists r, r ∈ live /\ area r x) /\ Forall (placed l) live /\ separate live.

Lemma separate_cons r live : separate live -> (forall r0 x, r0 ∈ live -> area r x -> ~ area r0 x) -> separate (r :: live).
Proof.
  intros Hs Hr [|r1 l1] r2 l2 He; simpl in He; simplify_eq.
  - intros r0 Hr0 x. by apply Hr.
  - intros r0 [->|Hr0]%elem_of_cons x Hx Hx0; [by eapply Hr; [|exact Hx0|exact Hx]; set_solver|]. by eapply Hs.
Qed.
Lemma separate_remove l1 r l2 : separate (l1 ++ r :: l2) -> separate (l1 ++ l2).
Proof.
  intros Hs k1 r1 k2 He r0 Hr0 x Hx Hx0.
  assert (Hperm : exists m1 m2, l1 ++ r :: l2 = m1 ++ r1 :: m2 /\ r0 ∈ m1 ++ m2).
  { apply app_eq_inv in He as [(k&->&He)|(k&->&He)].
    - destruct k as [|a k]; simpl in He; simplify_eq.
      + exists (k1 ++ [r]), k2. split; [by rewrite <- !app_assoc|set_solver].
      + exists k1, (k ++ r :: l2). split; [by rewrite <- !app_assoc|set_solver].
    - exists (l1 ++ r :: k), k2. split; [by rewrite <- app_assoc, He|set_solver]. }
  destruct Hperm as (m1&m2&Hm&Hin). by eapply Hs.
Qed.

Lemma placed_inside l1 c l2 (a s p : Z) x : Forall (chunk_ok order) (l1 ++ c :: l2) -> a = start_addr c + p * 2 ^ order -> 0 <= p ->
  p + count s <= granules order c -> region order a (count s) x -> inside (range c) x.
Proof.
  intros Hf -> Hp Hg [Hx1 Hx2]. apply Forall_app in Hf as [_ Hf]. apply Forall_cons in Hf as [Hc _].
  pose proof (granules_end order Horder c Hc). pose proof (pow_pos order Horder). unfold inside. simpl. nia.
Qed.

Lemma alloc_ok pool live size : min_alloc_order pool = order -> account (chunks pool) live -> sane size ->
  exists pool' a, gen_pool_alloc pool size = Some (pool', a) /\ min_alloc_order pool' = order /\
    (a = 0 /\ pool' = pool /\ (forall c p, c ∈ chunks pool -> ~ fits order c (count size) p) \/
     a <> 0 /\ account (chunks pool') ((a, size) :: live)).
Proof.
  intros Ho (Hpool&Htaken&Hplaced&Hsep) Hs. destruct (nbits_ok size Hs) as (Hnb&Hc&_). unfold gen_pool_alloc. rewrite Ho, Hnb.
  destruct (Z.eqb_spec size 0); [destruct Hs; lia|].
  destruct (alloc_loop_ok order Horder (count size) (chunks pool)) as (l'&a&->&Hcase); [lia|apply Hpool|]. rewrite some_bind. cbn [fst snd].
  eexists _, _. split; [done|]. split; [done|]. destruct Hcase as [(->&->&Hno)|(l1&c&l2&p&b'&Hl&->&->&[Hp Hfree]&_&_&Hw&Hlen&Hbits)].
  { left. split; [done|]. split; [|done]. destruct pool; simpl in *. congruence. }
  right. rewrite Hl in *. assert (Hf : Forall (chunk_ok order) (l1 ++ c :: l2)) by apply Hpool.
  assert (Hcok : chunk_ok order c) by (apply Forall_app in Hf as [_ Hf]; by apply Forall_cons in Hf as [? _]).
  pose proof (pow_pos order Horder) as H2. split.
  { destruct Hcok as (_&?&_). nia. }
  cbn [chunks]. set (a := start_addr c + p * 2 ^ order).
  assert (Hupd : forall x, taken order (Chunk (start_addr c) (end_addr c) b') x <-> region order a (count size) x \/ taken order c x).
  { intros x. rewrite (taken_update order Horder c b' p (count size) orb Hcok) by (lia || done).
    assert (Hin : region order a (count size) x -> inside (range c) x) by (eapply (placed_inside l1 c l2 a size p); [done|done|lia|lia]).
    unfold taken. rewrite orb_true_iff, bool_decide_eq_true. tauto. }
  assert (Hmr : map range (l1 ++ Chunk (start_addr c) (end_addr c) b' :: l2) = map range (l1 ++ c :: l2)) by by rewrite !map_app.
  split; [by apply pool_ok_replace|]. split; [|split].
  - intros x. rewrite (all_taken_split order Horder), Hupd. specialize (Htaken x). rewrite (all_taken_split order Horder) in Htaken.
    split.
    + intros [[Hx|Hx]|Hx]; [exists (a, size); split; [left|done]| |]; (destruct Htaken as [Ht _]; destruct Ht as (r&Hr&Hrx); [tauto|exists r; split; [by right|done]]).
    + intros (r&[->|Hr]%elem_of_cons&Hrx); [left; by left|]. assert (Ht : taken order c x \/ all_taken order (l1 ++ l2) x) by (apply Htaken; by exists r). tauto.
  - constructor.
    + split; [done|]. exists (range c), p. split; [rewrite map_app; set_solver|]. split; [done|]. unfold granules in Hp. simpl. lia.
    + eapply Forall_impl; [exact Hplaced|]. intros r [Hr1 (c0&q&Hc0&Hr2)]. split; [done|]. exists c0, q. by rewrite Hmr.
  - apply separate_cons; [done|]. intros r0 x Hr0 Hx Hx0.
    assert (Hin : inside (range c) x) by (eapply (placed_inside l1 c l2 a size p); [done|done|lia|lia|done]).
    assert (Ht : all_taken order (l1 ++ c :: l2) x) by (apply Htaken; by exists r0).
    apply (all_taken_split order Horder) in Ht as [[_ Ht]|(c0&Hc0&Ht&_)].
    + assert (Hb : bit (bits c) ((x - start_addr c) / 2 ^ order) = false); [|congruence].
      apply Hfree. apply (granule_index order Horder (start_addr c) x p (count size)); [lia| |done]. destruct Hin. done.
    + destruct Hpool as [_ Hapart]. rewrite map_app in Hapart. eapply (Hapart (map range l1) (range c) (map range l2) eq_refl (range c0)); [|exact Hin|exact Ht].
      rewrite <- map_app. apply list_elem_of_fmap. by exists c0.
Qed.

Lemma free_ok pool L1 r L2 : min_alloc_order pool = order -> account (chunks pool) (L1 ++ r :: L2) ->
  exists pool', gen_pool_free pool r.1 r.2 = Some pool' /\ min_alloc_order pool' = order /\ account (chunks pool') (L1 ++ L2).
Proof.
  intros Ho (Hpool&Htaken&Hplaced&Hsep). assert (Hr : placed (chunks pool) r) by (apply Forall_app in Hplaced as [_ H]; by apply Forall_cons in H as [? _]).
  destruct Hr as [Hs (rg&p&Hrg&Ha&Hp&Hg)]. destruct (nbits_ok _ Hs) as (Hnb&Hc&Hsz). apply list_elem_of_fmap in Hrg as (c&->&Hcin).
  apply list_elem_of_split in Hcin as (l1&l2&Hl). rewrite Hl in *. unfold gen_pool_free. rewrite Ho, Hnb, Hl.
  assert (Hf : Forall (chunk_ok order) (l1 ++ c :: l2)) by apply Hpool.
  assert (Hcok : chunk_ok order c) by (apply Forall_app in Hf as [_ Hf]; by apply Forall_cons in Hf as [? _]).
  pose proof (pow_pos order Horder) as H2. change ((range c).2 - (range c).1) with (end_addr c - start_addr c) in Hg. fold (granules order c) in Hg.
  change (range c).1 with (start_addr c) in Ha. pose proof (granules_end order Horder c Hcok) as Hge.
  assert (Hreg : forall x, area r x -> inside (range c) x) by (intros x; by eapply (placed_inside l1 c l2 r.1 r.2 p)).
  assert (Hain : inside (range c) r.1) by (apply Hreg; unfold area, region; nia).
  assert (Hother : forall c0 x, c0 ∈ l1 ++ l2 -> inside (range c) x -> ~ inside (range c0) x).
  { intros c0 x Hc0 Hx. destruct Hpool as [_ Hapart]. rewrite map_app in Hapart. eapply (Hapart (map range l1) (range c) (map range l2) eq_refl); [|done].
    rewrite <- map_app. apply list_elem_of_fmap. by exists c0. }
  destruct (free_loop_ok order Horder r.1 r.2 (count r.2) l1 c l2 p) as (b'&->&Hw&Hlen&Hbits); try done; try lia.
  { intros c0 Hc0. apply Hother; [set_solver|done]. } { nia. } { destruct Hs. lia. }
  rewrite some_bind. eexists. split; [done|]. split; [done|]. cbn [chunks].
  assert (Hupd : forall x, taken order (Chunk (start_addr c) (end_addr c) b') x <-> ~ area r x /\ taken order c x).
  { intros x. rewrite (taken_update order Horder c b' p (count r.2) (fun m o => negb m && o) Hcok) by (lia || done).
    rewrite <- Ha. fold (area r x). unfold taken. rewrite andb_true_iff, negb_true_iff, bool_decide_eq_false. tauto. }
  assert (Hmr : map range (l1 ++ Chunk (start_addr c) (end_addr c) b' :: l2) = map range (l1 ++ c :: l2)) by by rewrite !map_app.
  split; [by apply pool_ok_replace|]. split; [|split].
  - intros x. rewrite (all_taken_split order Horder), Hupd. specialize (Htaken x). rewrite (all_taken_split order Horder) in Htaken. split.
    + intros Hx. assert (Hnr : ~ area r x).
      { destruct Hx as [[? _]|(c0&Hc0&Hx0&_)]; [done|]. intros Hax. by apply (Hother c0 x Hc0 (Hreg x Hax)). }
      destruct Htaken as [Ht _]. destruct Ht as (r0&Hr0&Hx0); [tauto|]. exists r0. split; [|done].
      assert (r0 <> r) by (intros ->; done). set_solver.
    + intros (r0&Hr0&Hx0). assert (Ht : taken order c x \/ all_taken order (l1 ++ l2) x) by (apply Htaken; exists r0; split; [set_solver|done]).
      destruct Ht as [Ht|]; [left|by right]. split; [|done]. intros Hax. by apply (Hsep L1 r L2 eq_refl r0 Hr0 x).
  - apply Forall_app in Hplaced as [Hp1 Hp2]. apply Forall_cons in Hp2 as [_ Hp2].
    eapply (Forall_impl (placed (l1 ++ c :: l2))); [by apply Forall_app|]. intros r0 [Hr1 (c0&q&Hc0&Hr2)]. split; [done|]. exists c0, q. by rewrite Hmr.
  - by eapply separate_remove.
Qed.
End history.

(** Calls on a pool: allocating, and freeing a live allocation with the address and
    the size of its allocation. *)
Inductive pool_op := Alloc (size : Z) | Free (k : nat).
Definition pool_step (s : gen_pool * list (Z * Z)) (o : pool_op) : option (gen_pool * list (Z * Z)) :=
  let '(pool, live) := s in
  match o with
  | Alloc size =>
    r ← gen_pool_alloc pool size;
    Some (r.1, if r.2 =? 0 then live else (r.2, size) :: live)
  | Free k =>
    match live !! k with
    | None => Some s
    | Some (addr, size) => pool ← gen_pool_free pool addr size; Some (pool, delete k live)
    end
  end.
Fixpoint pool_run (s : gen_pool * list (Z * Z)) (l : list pool_op) : option (gen_pool * list (Z * Z)) :=
  match l with [] => Some s | o :: l => s ← pool_step s o; pool_run s l end.

Section pools.
  Context (order : Z).
  Hypothesis Horder : 0 <= order < 32.

Lemma pool_step_ok pool live o : min_alloc_order pool = order -> account order (chunks pool) live ->
  match o with Alloc size => sane order size | Free _ => True end ->
  exists pool' live', pool_step (pool, live) o = Some (pool', live') /\ min_alloc_order pool' = order /\ account order (chunks pool') live'.
Proof.
  intros Ho Ha Hok. destruct o as [size|k]; cbn [pool_step].
  - destruct (alloc_ok order Horder pool live size Ho Ha Hok) as (pool'&a&->&Ho'&[(->&->&_)|[Hne Ha']]); rewrite some_bind; cbn [fst snd].
    + by exists pool, live.
    + destruct (Z.eqb_spec a 0); [done|]. by exists pool', ((a, size) :: live).
  - destruct (live !! k) as [[addr size]|] eqn:Hk; [|by exists pool, live].
    pose proof (take_drop_middle live k (addr, size) Hk) as Hsplit. rewrite <- Hsplit in Ha.
    destruct (free_ok order Horder pool _ _ _ Ho Ha) as (pool'&Hfree&Ho'&Ha'). cbn [fst snd] in Hfree. rewrite Hfree, some_bind.
    eexists _, _. split; [done|]. split; [done|]. by rewrite delete_take_drop.
Qed.

Lemma nothing_taken l : Forall (chunk_ok order) l -> (forall x, ~ all_taken order l x) -> destroy_loop order l = Some tt.
Proof.
  intros Hl. induction Hl as [|c l Hc Hl IH]; intros Hno; cbn [destroy_loop]; [done|].
  rewrite granules_s32 by done. assert (Hcc := Hc). destruct Hcc as (Hw&Hs&He&Hg&Hg31). pose proof (pow_pos order Horder) as H2.
  assert (H0 : 0 <= granules order c) by (apply Z.div_pos; lia).
  destruct (find_next_bit_spec (bits c) (granules order c) 0) as (r&->&_&Hr); [done|lia..|]. rewrite some_bind.
  destruct (Hr H0) as (Hr1&_&Hr3). destruct (Z.ltb_spec r (granules order c)).
  - exfalso. apply (Hno (start_addr c + r * 2 ^ order)). exists c. split; [left|]. pose proof (granules_end order Horder c Hc). split.
    + unfold inside. simpl. nia.
    + replace (start_addr c + r * 2 ^ order - start_addr c) with (r * 2 ^ order) by lia. rewrite Z.div_mul by lia. by apply Hr3.
  - apply IH. intros x (c0&Hc0&Hx). apply (Hno x). exists c0. split; [by right|done].
Qed.

(** C33. Any sequence of frees of what was allocated and of allocations, of sizes that
    are not 0, do not wrap when they are rounded up to granules and are an [int] number
    of granules ([sane]), on a pool in order, never hits a BUG: the live allocations
    are whole granules inside chunks, at least as long as asked for, and never
    overlap, and the marked addresses are theirs and no others; and when none is left
    the pool can be destroyed. *)
Theorem pool_histories pool live ops : min_alloc_order pool = order -> account order (chunks pool) live ->
  Forall (fun o => match o with Alloc size => sane order size | Free _ => True end) ops ->
  exists pool' live', pool_run (pool, live) ops = Some (pool', live') /\ account order (chunks pool') live' /\
    (live' = [] -> gen_pool_destroy pool' = Some tt).
Proof.
  intros Ho Ha Hops. cut (exists pool' live', pool_run (pool, live) ops = Some (pool', live') /\ min_alloc_order pool' = order /\ account order (chunks pool') live').
  { intros (pool'&live'&Hr&Ho'&Ha'). exists pool', live'. split; [done|]. split; [done|]. intros ->. unfold gen_pool_destroy. rewrite Ho'.
    destruct Ha' as ([Hf _]&Ht&_). apply nothing_taken; [done|]. intros x Hx. apply Ht in Hx as (r&[]%elem_of_nil&_). }
  revert pool live Ho Ha. induction Hops as [|o ops Hok Hops IH]; intros pool live Ho Ha; cbn [pool_run]; [by exists pool, live|].
  destruct (pool_step_ok pool live o Ho Ha Hok) as (pool1&live1&->&Ho1&Ha1). rewrite some_bind. by apply IH.
Qed.

(** *** A new chunk *)

Lemma bit_zeros n i : bit (replicate n 0) i = false.
Proof. unfold bit. destruct (rd _ _) as [w|] eqn:E; [|done]. apply rd_Some in E as [_ E]. apply lookup_replicate in E as [-> _]. apply Z.bits_0. Qed.

(** gen_pool_add keeps the account when the new range is in no other chunk. *)
Lemma add_ok pool live addr size : min_alloc_order pool = order -> account order (chunks pool) live ->
  0 < addr -> 0 <= size -> addr + size < 2 ^ 32 -> size / 2 ^ order < 2 ^ 31 - 8 ->
  (forall c x, c ∈ chunks pool -> inside (addr, addr + size) x -> ~ inside (range c) x) ->
  (gen_pool_add pool addr size true).2 = 0 /\ account order (chunks (gen_pool_add pool addr size true).1) live.
Proof.
  intros Ho ((Hf&Hap)&Ht&Hp&Hs) Ha Hsz H32 H31 Hdis. unfold gen_pool_add. cbn [negb fst snd chunks]. split; [done|].
  pose proof (pow_pos order Horder) as H2. assert (Hn0 : 0 <= size / 2 ^ order) by (apply Z.div_pos; lia).
  rewrite Ho, Z.shiftr_div_pow2 by lia. rewrite s32_small by lia. rewrite u32_small by (unfold is_u32; lia).
  set (b := replicate _ 0). set (c := Chunk addr (addr + size) b).
  assert (Hc : chunk_ok order c).
  { unfold chunk_ok, granules. subst c. cbn [bits start_addr end_addr]. replace (addr + size - addr) with size by lia. split_and!; try lia.
    - apply Forall_replicate. unfold is_u32. lia.
    - subst b. rewrite length_replicate. unfold BITS_PER_BYTE. Z.to_euclidean_division_equations. lia. }
  assert (Hnt : forall x, ~ taken order c x) by (intros x [_ Hx]; cbn [c bits] in Hx; subst b; by rewrite bit_zeros in Hx).
  assert (Hcr : forall c0 x, c0 ∈ chunks pool -> inside (range c) x -> ~ inside (range c0) x) by exact Hdis.
  split; [split|split; [|split]].
  - by constructor.
  - intros [|r1 l1] r l2 He; cbn [map app] in He; simplify_eq.
    + intros r0 Hr0 x Hx Hx0. apply list_elem_of_fmap in Hr0 as (c0&->&Hc0). by apply (Hcr c0 x).
    + intros r0 [->|Hr0]%elem_of_cons x Hx Hx0; [|by eapply Hap].
      assert (Hr : r ∈ map range (chunks pool)) by (rewrite H0; set_solver). apply list_elem_of_fmap in Hr as (c0&->&Hc0). by apply (Hcr c0 x).
  - intros x. rewrite <- Ht. split; [intros (c0&[->|Hc0]%elem_of_cons&Hx); [by destruct (Hnt x)|by exists c0]|intros (c0&Hc0&Hx); exists c0; split; [by right|done]].
  - eapply Forall_impl; [exact Hp|]. intros r [Hr1 (c0&q&Hc0&Hr2)]. split; [done|]. exists c0, q. split; [cbn [map]; by right|done].
  - done.
Qed.
End pools.

(** ** A sample pool *)

(** Two chunks of 8 and 16 granules of 32 bytes. *)
Definition sample_pool : gen_pool := (gen_pool_add (gen_pool_add (Pool [] 5) 4096 256 true).1 8192 512 true).1.
Lemma sample_pool_ok : account 5 (chunks sample_pool) [].
Proof.
  apply (add_ok 5 ltac:(lia)); try done.
  - apply (add_ok 5 ltac:(lia)); try done; try by (intros c x []%elem_of_nil).
    split; [split; [constructor|intros [|? ?] r l2 He; done]|]. split; [|split; [constructor|intros [|? ?] r l2 He; done]].
    intros x. split; [intros (c&[]%elem_of_nil&_)|intros (r&[]%elem_of_nil&_)].
  - intros c x Hc. vm_compute in Hc. apply list_elem_of_singleton in Hc as ->. unfold inside. simpl. lia.
Qed.
Definition sample_ops : list pool_op := [Alloc 33; Alloc 100; Alloc 32; Free 1; Alloc 128; Free 0; Free 0; Free 0].
Lemma pool_histories_witness : exists pool' live', pool_run (sample_pool, []) sample_ops = Some (pool', live') /\
  account 5 (chunks pool') live' /\ (live' = [] -> gen_pool_destroy pool' = Some tt).
Proof.
  apply (pool_histories 5 ltac:(lia)).
  - reflexivity.
  - exact sample_pool_ok.
  - repeat (constructor; [first [exact I | unfold sane; vm_compute; repeat split; (discriminate || reflexivity)]|]). constructor.
Defined.
Example sample_pool_run : (r ← pool_run (sample_pool, []) (take 5 sample_ops); Some r.2) = Some [(8256, 128); (8384, 32); (8192, 33)].
Proof. vm_compute. reflexivity. Qed.

(** *** Deviations *)

(** The search stops [nbits + 1] granules before the end: of an empty chunk of two
    granules not one can be had. *)
Example end_of_chunk_unused :
  (r ← gen_pool_alloc (gen_pool_add (Pool [] 5) 4096 64 true).1 32; Some r.2) = Some 0.
Proof. vm_compute. reflexivity. Qed.
(** A size that wraps when it is rounded up is granted, with no granule marked. *)
Example huge_size_granted :
  gen_pool_alloc sample_pool 4294967295 = Some (sample_pool, 8192) /\ nbits_of 5 4294967295 = 0.
Proof. vm_compute. done. Qed.
