(* ===== verification/Groups.v ===== *)
(** * kernel/sys.c: the supplementary groups of a task

    The set of a task's groups is an object with a count of its users; up to 32
    identifiers are kept in the object, more of them in pages.  It is sorted by
    Shell's method when a task takes it, and searched by bisection. *)

From Stdlib Require Import Sorting.Sorted.
From S2P Require Import Prelude.

(** ** Data *)

Definition NGROUPS_SMALL : Z := 32.
Definition NGROUPS_PER_BLOCK : Z := 1024.
Definition NGROUPS_MAX : Z := 65536.
Definition EPERM : Z := 1.
Definition EFAULT : Z := 14.

(** A cell that was never written is [None]. *)
Abbreviation cells := (list (option Z)).
(** [blocks[i]]: the block inside the object, or a page of its own. *)
Inductive block := Small | Page (c : cells).

Record group_info := mk_info {
  ngroups : Z; usage : Z; small_block : cells; nblocks : Z; blocks : list block }.

(** The objects by address, the number of pages in use, and an allocator that may
    refuse: [grants n] tells whether it meets the [n]-th request. *)
Record system := mk_system {
  requests : Z; grants : Z -> bool; pages : Z; infos : gmap Z group_info }.

Record task := mk_task { fsgid : Z; egid : Z; groups : Z (** group_info *) }.

Definition set_infos (m : gmap Z group_info) (s : system) : system :=
  mk_system (requests s) (grants s) (pages s) m.
Definition add_pages (n : Z) (s : system) : system :=
  mk_system (requests s) (grants s) (pages s + n) (infos s).
(** One request to the allocator. *)
Definition request (s : system) : system * bool :=
  let n := requests s + 1 in (mk_system n (grants s) (pages s) (infos s), grants s n).

(** ** Cells of the groups *)

Definition block_cells (gi : group_info) (b : block) : cells :=
  match b with Small => small_block gi | Page c => c end.
Definition set_block (gi : group_info) (i : Z) (c : cells) : option group_info :=
  b ← rd (blocks gi) i;
  match b with
  | Small => Some (mk_info (ngroups gi) (usage gi) c (nblocks gi) (blocks gi))
  | Page _ => bs ← wr (blocks gi) i (Page c);
              Some (mk_info (ngroups gi) (usage gi) (small_block gi) (nblocks gi) bs)
  end.

Definition GROUP_AT (gi : group_info) (i : Z) : option Z :=
  b ← rd (blocks gi) (i / NGROUPS_PER_BLOCK);
  c ← rd (block_cells gi b) (i mod NGROUPS_PER_BLOCK);
  c.
(** GROUP_AT(gi, i) = v *)
Definition GROUP_SET (gi : group_info) (i v : Z) : option group_info :=
  b ← rd (blocks gi) (i / NGROUPS_PER_BLOCK);
  c ← wr (block_cells gi b) (i mod NGROUPS_PER_BLOCK) (Some v);
  set_block gi (i / NGROUPS_PER_BLOCK) c.

(** ** Allocation *)

(** The loop over [i] of groups_alloc; [false] is [goto out_undo_partial_alloc]. *)
Fixpoint alloc_blocks (n : nat) (s : system) (bs : list block) : system * list block * bool :=
  match n with
  | O => (s, bs, true)
  | S n =>
    let '(s, ok) := request s in
    if ok then alloc_blocks n (add_pages 1 s) (bs ++ [Page (replicate 1024 None)])
    else (s, bs, false)
  end.

(** The address of the object, or NULL. *)
Definition groups_alloc (s : system) (gidsetsize : Z) : system * Z :=
  let nblocks := (gidsetsize + NGROUPS_PER_BLOCK - 1) / NGROUPS_PER_BLOCK in
  let nblocks := if nblocks =? 0 then 1 else nblocks in
  let '(s, ok) := request s in
  if negb ok then (s, 0) else
  let p := requests s in
  let small := replicate 32 None in
  if gidsetsize <=? NGROUPS_SMALL then
    (set_infos (<[p := mk_info gidsetsize 1 small nblocks [Small]]> (infos s)) s, p)
  else
  let '(s, bs, ok) := alloc_blocks (Z.to_nat nblocks) s [] in
  if ok then (set_infos (<[p := mk_info gidsetsize 1 small nblocks bs]> (infos s)) s, p)
  else (add_pages (- zlen bs) s, 0).

Definition groups_free (s : system) (p : Z) : option system :=
  gi ← infos s !! p;
  b ← rd (blocks gi) 0;
  Some (set_infos (delete p (infos s))
    (match b with Small => s | Page _ => add_pages (- nblocks gi) s end)).

Definition set_usage (gi : group_info) (n : Z) : group_info :=
  mk_info (ngroups gi) n (small_block gi) (nblocks gi) (blocks gi).
Definition get_group_info (s : system) (p : Z) : option system :=
  gi ← infos s !! p;
  Some (set_infos (<[p := set_usage gi (usage gi + 1)]> (infos s)) s).
Definition put_group_info (s : system) (p : Z) : option system :=
  gi ← infos s !! p;
  let s := set_infos (<[p := set_usage gi (usage gi - 1)]> (infos s)) s in
  if usage gi - 1 =? 0 then groups_free s p else Some s.

(** ** Copying between the kernel and the memory of the process

    [user] holds the cells the process can access from [grouplist] on; a copy
    that would leave them is cut off, and says so. *)

Fixpoint from_user_loop (n : nat) (gi : group_info) (user : list Z) (i count : Z) : option (group_info * bool) :=
  match n with
  | O => Some (gi, true)
  | S n =>
    let cp_count := Z.min NGROUPS_PER_BLOCK count in
    let off := i * NGROUPS_PER_BLOCK in
    if zlen user <? off + cp_count then Some (gi, false) else
    b ← rd (blocks gi) i;
    let old := block_cells gi b in
    if zlen old <? cp_count then None else
    gi ← set_block gi i (blit old 0 (map Some user) off cp_count);
    from_user_loop n gi user (i + 1) (count - cp_count)
  end.
(** The object after it, and the result. *)
Definition groups_from_user (gi : group_info) (grouplist : list Z) : option (group_info * Z) :=
  r ← from_user_loop (Z.to_nat (nblocks gi)) gi grouplist 0 (ngroups gi);
  let '(gi, ok) := (r : group_info * bool) in Some (gi, if ok then 0 else - EFAULT).

Fixpoint to_user_loop (n : nat) (user : list Z) (gi : group_info) (i count : Z) : option (list Z * bool) :=
  match n with
  | O => Some (user, true)
  | S n =>
    let cp_count := Z.min NGROUPS_PER_BLOCK count in
    let off := i * NGROUPS_PER_BLOCK in
    b ← rd (blocks gi) i;
    let src := take (Z.to_nat cp_count) (block_cells gi b) in
    if zlen src <? cp_count then None else
    vs ← mapM (fun c : option Z => c) src;
    if zlen user <? off + cp_count then
      Some (take (length user) (take (Z.to_nat off) user ++ vs), false)
    else to_user_loop n (blit user off vs 0 cp_count) gi (i + 1) (count - cp_count)
  end.
Definition groups_to_user (grouplist : list Z) (gi : group_info) : option (list Z * Z) :=
  r ← to_user_loop (Z.to_nat (nblocks gi)) grouplist gi 0 (ngroups gi);
  let '(user, ok) := (r : list Z * bool) in Some (user, if ok then 0 else - EFAULT).

(** ** Sorting and searching *)

(** The inner loop of groups_sort, and the store after it. *)
Fixpoint sift (fuel : nat) (gi : group_info) (stride tmp left right : Z) : option group_info :=
  match fuel with
  | O => None
  | S fuel =>
    if left <? 0 then GROUP_SET gi right tmp else
    v ← GROUP_AT gi left;
    if tmp <? v then
      gi ← GROUP_SET gi right v;
      sift fuel gi stride tmp (left - stride) left
    else GROUP_SET gi right tmp
  end.

(** for (base = 0; base < max; base++), from [base] for [n] rounds *)
Fixpoint shell_pass (n : nat) (gi : group_info) (stride base : Z) : option group_info :=
  match n with
  | O => Some gi
  | S n =>
    tmp ← GROUP_AT gi (base + stride);
    gi ← sift (S (Z.to_nat base + 1)) gi stride tmp base (base + stride);
    shell_pass n gi stride (base + 1)
  end.

Fixpoint first_stride (fuel : nat) (gidsetsize stride : Z) : option Z :=
  match fuel with
  | O => None
  | S fuel => if stride <? gidsetsize then first_stride fuel gidsetsize (3 * stride + 1) else Some (stride / 3)
  end.
Fixpoint shell (fuel : nat) (gi : group_info) (stride : Z) : option group_info :=
  if stride =? 0 then Some gi else
  match fuel with
  | O => None
  | S fuel =>
    gi ← shell_pass (Z.to_nat (ngroups gi - stride)) gi stride 0;
    shell fuel gi (stride / 3)
  end.
Definition groups_sort (gi : group_info) : option group_info :=
  stride ← first_stride 20 (ngroups gi) 1;
  shell 20 gi stride.

Fixpoint search_loop (fuel : nat) (gi : group_info) (grp left right : Z) : option bool :=
  if negb (left <? right) then Some false else
  match fuel with
  | O => None
  | S fuel =>
    let mid := u32 (left + right) / 2 in
    v ← GROUP_AT gi mid;
    let cmp := s32 (grp - v) in
    if 0 <? cmp then search_loop fuel gi grp (mid + 1) right
    else if cmp <? 0 then search_loop fuel gi grp left mid
    else Some true
  end.
(** [p] may be NULL. *)
Definition groups_search (s : system) (p grp : Z) : option bool :=
  if p =? 0 then Some false else
  gi ← infos s !! p;
  search_loop 32 gi grp 0 (ngroups gi).

(** ** Operations of a task *)

(** Without CONFIG_SECURITY, security_task_setgroups allows everything. *)
Definition set_current_groups (s : system) (current : task) (p : Z) : option (system * task * Z) :=
  gi ← infos s !! p;
  gi ← groups_sort gi;
  s ← get_group_info (set_infos (<[p := gi]> (infos s)) s) p;
  let old_info := groups current in
  s ← put_group_info s old_info;
  Some (s, mk_task (fsgid current) (egid current) p, 0).

(** [capable]: whether the task has CAP_SETGID. *)
Definition sys_setgroups (capable : bool) (s : system) (current : task) (gidsetsize : Z)
    (grouplist : list Z) : option (system * task * Z) :=
  if negb capable then Some (s, current, - EPERM) else
  if NGROUPS_MAX <? u32 gidsetsize then Some (s, current, - EINVAL) else
  let '(s, p) := groups_alloc s gidsetsize in
  if p =? 0 then Some (s, current, - ENOMEM) else
  gi ← infos s !! p;
  r ← groups_from_user gi grouplist;
  let '(gi, retval) := r in
  let s := set_infos (<[p := gi]> (infos s)) s in
  if negb (retval =? 0) then s ← put_group_info s p; Some (s, current, retval) else
  r ← set_current_groups s current p;
  let '(s, current, retval) := r in
  s ← put_group_info s p;
  Some (s, current, retval).

(** The memory of the process after it, and the result. *)
Definition sys_getgroups (s : system) (current : task) (gidsetsize : Z) (grouplist : list Z) : option (list Z * Z) :=
  if gidsetsize <? 0 then Some (grouplist, - EINVAL) else
  gi ← infos s !! groups current;
  let i := ngroups gi in
  if gidsetsize =? 0 then Some (grouplist, i) else
  if gidsetsize <? i then Some (grouplist, - EINVAL) else
  r ← groups_to_user grouplist gi;
  let '(grouplist, e) := r in
  Some (grouplist, if negb (e =? 0) then - EFAULT else i).

Definition in_group_p (s : system) (current : task) (grp : Z) : option bool :=
  if negb (grp =? fsgid current) then groups_search s (groups current) grp else Some true.
Definition in_egroup_p (s : system) (current : task) (grp : Z) : option bool :=
  if negb (grp =? egid current) then groups_search s (groups current) grp else Some true.

(** ** The groups as a list

    Where an operation reaches a cell, and what it leaves. *)

Definition flat (gi : group_info) : cells := mjoin (block_cells gi <$> blocks gi).

Definition wf (gi : group_info) : Prop :=
  length (small_block gi) = 32%nat /\ 0 <= ngroups gi <= NGROUPS_MAX /\ nblocks gi = zlen (blocks gi) /\
  ((blocks gi = [Small] /\ ngroups gi <= NGROUPS_SMALL) \/
   ((NGROUPS_SMALL < ngroups gi /\ ngroups gi <= 1024 * nblocks gi < ngroups gi + 1024) /\
    Forall (fun b => exists c, b = Page c /\ length c = 1024%nat) (blocks gi))).

(** The object holds the identifiers [l]. *)
Definition holds (gi : group_info) (l : list Z) : Prop :=
  wf gi /\ ngroups gi = zlen l /\ take (length l) (flat gi) = map Some l.

(** What a store into a cell keeps. *)
Definition same_shape (gi gi' : group_info) : Prop :=
  ngroups gi' = ngroups gi /\ usage gi' = usage gi /\ nblocks gi' = nblocks gi /\
  length (blocks gi') = length (blocks gi) /\
  (forall i, blocks gi !! i = Some Small <-> blocks gi' !! i = Some Small).

Lemma flat_small gi : blocks gi = [Small] -> flat gi = small_block gi.
Proof. intros H. unfold flat. rewrite H. simpl. apply app_nil_r. Qed.

Lemma join_lookup {A} (ls : list (list A)) (n : nat) i j : Forall (fun l => length l = n) ls -> (j < n)%nat ->
  mjoin ls !! (i * n + j)%nat = l ← ls !! i; l !! j.
Proof.
  revert i. induction ls as [|l ls IH]; intros i Hall Hj; [by destruct i|].
  inversion Hall as [|? ? Hl Hls]; subst. destruct i as [|i]; simpl.
  - by rewrite lookup_app_l.
  - rewrite lookup_app_r by lia. rewrite <- (IH i Hls Hj). f_equal. lia.
Qed.

Lemma join_insert {A} (ls : list (list A)) (n : nat) i j l v : Forall (fun l => length l = n) ls -> (j < n)%nat ->
  ls !! i = Some l -> mjoin (<[i := <[j := v]> l]> ls) = <[(i * n + j)%nat := v]> (mjoin ls).
Proof.
  revert i. induction ls as [|l0 ls IH]; intros i Hall Hj Hi; [by destruct i|].
  inversion Hall as [|? ? Hl Hls]; subst. destruct i as [|i]; simpl in *.
  - simplify_eq. by rewrite insert_app_l.
  - rewrite IH by done. rewrite (insert_app_r_alt l0) by lia. do 2 f_equal. lia.
Qed.

Lemma join_length {A} (ls : list (list A)) (n : nat) : Forall (fun l => length l = n) ls ->
  length (mjoin ls) = (length ls * n)%nat.
Proof. induction 1; simpl; [done|]. rewrite length_app. lia. Qed.

Lemma pages_cells gi : Forall (fun b => exists c, b = Page c /\ length c = 1024%nat) (blocks gi) ->
  Forall (fun l => length l = 1024%nat) (block_cells gi <$> blocks gi).
Proof. intros H. apply Forall_fmap. eapply Forall_impl; [exact H|]. by intros b (c&->&Hc). Qed.

Lemma flat_length gi : wf gi -> ngroups gi <= zlen (flat gi).
Proof.
  intros (Hs&Hn&Hb&[[H1 H2]|[H1 H2]]).
  - rewrite flat_small by done. rewrite Hs. exact H2.
  - unfold flat. rewrite (join_length _ 1024) by by apply pages_cells. rewrite length_fmap. lia.
Qed.

(** A cell of the list and where it is. *)
Lemma cell_at gi i : wf gi -> 0 <= i < ngroups gi ->
  exists b, rd (blocks gi) (i / 1024) = Some b /\ rd (block_cells gi b) (i mod 1024) = flat gi !! Z.to_nat i /\
    (Z.to_nat (i mod 1024) < length (block_cells gi b))%nat.
Proof.
  intros (Hs&Hn&Hb&[[H1 H2]|[H1 H2]]) Hi.
  - exists Small. unfold NGROUPS_SMALL in H2.
    rewrite (Z.div_small i 1024), (Z.mod_small i 1024), flat_small, H1 by (done || lia).
    simpl. split_and!; [done| |lia]. unfold rd. zcases; [lia|done].
  - assert (Hq : 0 <= i / 1024 < zlen (blocks gi)) by (Z.to_euclidean_division_equations; lia).
    destruct (rd_is_Some _ _ Hq) as [b Hr]. exists b. split; [done|].
    pose proof (Z.mod_pos_bound i 1024 ltac:(lia)) as Hm.
    apply rd_Some in Hr as [_ Hr]. pose proof (pages_cells gi H2) as Hp.
    assert (Hl : length (block_cells gi b) = 1024%nat).
    { rewrite Forall_lookup in Hp. apply (Hp (Z.to_nat (i / 1024))). by rewrite list_lookup_fmap, Hr. }
    split; [|lia]. unfold flat.
    replace (Z.to_nat i) with (Z.to_nat (i / 1024) * 1024 + Z.to_nat (i mod 1024))%nat
      by (Z.to_euclidean_division_equations; lia).
    rewrite join_lookup by (done || lia). rewrite list_lookup_fmap, Hr. simpl. unfold rd. zcases; [lia|done].
Qed.

Lemma group_at_flat gi i : wf gi -> 0 <= i < ngroups gi -> GROUP_AT gi i = c ← flat gi !! Z.to_nat i; c.
Proof.
  intros Hw Hi. destruct (cell_at gi i Hw Hi) as (b&Hr&Hc&_).
  unfold GROUP_AT, NGROUPS_PER_BLOCK. by rewrite Hr, some_bind, Hc.
Qed.

Lemma group_set_flat gi i v : wf gi -> 0 <= i < ngroups gi -> exists gi',
  GROUP_SET gi i v = Some gi' /\ wf gi' /\ same_shape gi gi' /\ flat gi' = <[Z.to_nat i := Some v]> (flat gi).
Proof.
  intros Hw Hi. destruct (cell_at gi i Hw Hi) as (b&Hr&_&Hl).
  pose proof (Z.mod_pos_bound i 1024 ltac:(lia)) as Hm.
  unfold GROUP_SET, NGROUPS_PER_BLOCK, set_block. rewrite Hr, some_bind.
  rewrite wr_Some, some_bind, some_bind by lia.
  destruct Hw as (Hs&Hn&Hb&[[H1 H2]|[H1 H2]]).
  - assert (i < 1024) by (unfold NGROUPS_SMALL in H2; lia).
    rewrite (Z.div_small i 1024), H1 in Hr by lia. change (Some Small = Some b) in Hr. simplify_eq. simpl.
    eexists. split; [done|]. rewrite (Z.mod_small i 1024) by lia. split_and!.
    + unfold wf. split_and!; cbn [small_block ngroups nblocks blocks]; [by rewrite length_insert|lia..|by left].
    + split_and!; done.
    + by rewrite !flat_small.
  - apply rd_Some in Hr as [Hq Hr]. assert (Hx := H2). rewrite Forall_lookup in Hx.
    destruct (Hx _ _ Hr) as (c&->&Hc). cbn [block_cells]. pose proof (lookup_lt_Some _ _ _ Hr) as Hlt.
    rewrite wr_Some, some_bind by lia. eexists. split; [done|]. split_and!.
    + unfold wf. split_and!; cbn [small_block ngroups nblocks blocks]; [done|lia|lia|by rewrite length_insert|].
      right. split; [exact H1|]. apply Forall_insert; [done|]. eexists. split; [done|]. by rewrite length_insert.
    + split_and!; cbn [ngroups usage nblocks blocks]; [done|done|done|by rewrite length_insert|].
      intros j. destruct (decide (j = Z.to_nat (i / 1024))) as [->|Hj].
      * rewrite Hr, list_lookup_insert_eq by lia. by split.
      * by rewrite list_lookup_insert_ne.
    + unfold flat. cbn [blocks]. rewrite list_fmap_insert. cbn [block_cells].
      rewrite (list_fmap_ext _ (block_cells gi)) by by intros ? [].
      rewrite (join_insert _ 1024); [f_equal; Z.to_euclidean_division_equations; lia|by apply pages_cells|lia|].
      by rewrite list_lookup_fmap, Hr.
Qed.

Lemma holds_at gi l i : holds gi l -> 0 <= i < zlen l -> GROUP_AT gi i = Some (l !!! Z.to_nat i).
Proof.
  intros (Hw&Hn&Ht) Hi. rewrite group_at_flat by (done || lia).
  rewrite <- (lookup_take_lt _ (length l)) by lia. rewrite Ht, list_lookup_fmap.
  rewrite (list_lookup_lookup_total_lt l) by lia. done.
Qed.

Lemma same_shape_trans g1 g2 g3 : same_shape g1 g2 -> same_shape g2 g3 -> same_shape g1 g3.
Proof. intros (?&?&?&?&Hb1) (?&?&?&?&Hb2). split_and!; try congruence. intros i. by rewrite Hb1, Hb2. Qed.
Lemma same_shape_refl g : same_shape g g.
Proof. by split_and!. Qed.

(** The object after some stores holds [l]. *)
Definition becomes (gi : group_info) (l : list Z) (o : option group_info) : Prop :=
  exists gi', o = Some gi' /\ holds gi' l /\ same_shape gi gi'.

Lemma holds_set gi l i v : holds gi l -> 0 <= i < zlen l -> becomes gi (<[Z.to_nat i := v]> l) (GROUP_SET gi i v).
Proof.
  intros (Hw&Hn&Ht) Hi. destruct (group_set_flat gi i v Hw ltac:(lia)) as (gi'&He&Hw'&Hs&Hf).
  exists gi'. split; [done|]. split; [|done]. split; [done|]. rewrite length_insert. split.
  - destruct Hs as (->&_). done.
  - rewrite Hf, list_fmap_insert. rewrite take_insert_lt by lia. by rewrite Ht.
Qed.

(** ** Sorting *)

(** The first [m + 1] cells in order, leaving out cell [r], which is to take [tmp]. *)
Definition order_but (r m : nat) (tmp : Z) (l : list Z) : Prop :=
  (forall i j, (i < j <= m)%nat -> i <> r -> j <> r -> l !!! i <= l !!! j) /\
  (forall j, (r < j <= m)%nat -> tmp <= l !!! j).
Definition order_to (m : nat) (l : list Z) : Prop :=
  forall i j, (i < j <= m)%nat -> l !!! i <= l !!! j.

Lemma insert_total (l : list Z) i j v : (i < length l)%nat ->
  <[i := v]> l !!! j = if decide (i = j) then v else l !!! j.
Proof.
  intros Hi. case_decide; subst; [by apply list_lookup_total_insert_eq|by apply list_lookup_total_insert_ne].
Qed.

Lemma order_fill r m tmp l : (r < length l)%nat -> (r <= m)%nat -> order_but r m tmp l ->
  (forall i, (i < r)%nat -> l !!! i <= tmp) -> order_to m (<[r := tmp]> l).
Proof.
  intros Hr Hm [H1 H2] Hlow i j Hij. rewrite !insert_total by done.
  repeat case_decide; subst; try lia; auto with lia.
Qed.

Lemma order_step r m tmp l : (S r < length l)%nat -> (S r <= m)%nat -> order_but (S r) m tmp l ->
  tmp < l !!! r -> order_but r m tmp (<[S r := l !!! r]> l).
Proof.
  intros Hr Hm [H1 H2] Hv. split.
  - intros i j Hij Hi Hj. rewrite !insert_total by done. repeat case_decide; subst; try lia; apply H1; lia.
  - intros j Hj. rewrite insert_total by done. case_decide; [lia|]. apply H2. lia.
Qed.

Lemma becomes_trans gi gi' l' o : same_shape gi gi' -> becomes gi' l' o -> becomes gi l' o.
Proof. intros Hs (g&He&Hh&Hs'). exists g. split_and!; [done..|]. by eapply same_shape_trans. Qed.

Lemma insert_swap_perm (l : list Z) (i j : nat) v : (i < length l)%nat -> (j < length l)%nat -> i <> j ->
  <[i := v]> (<[j := l !!! i]> l) ≡ₚ <[j := v]> l.
Proof.
  intros Hi Hj Hne. rewrite <- (list_insert_insert_eq l j (l !!! i) v). apply Permutation_insert_swap.
  - by apply list_lookup_insert_eq.
  - rewrite list_lookup_insert_ne by done. by apply list_lookup_lookup_total_lt.
Qed.

Lemma sift_correct fuel : forall gi l stride tmp left, holds gi l -> 0 < stride -> Z.max 0 (left + 1) < Z.of_nat fuel ->
  0 <= left + stride < zlen l -> exists l', becomes gi l' (sift fuel gi stride tmp left (left + stride)) /\
    l' ≡ₚ <[Z.to_nat (left + stride) := tmp]> l /\
    forall m, stride = 1 -> (Z.to_nat (left + 1) <= m)%nat -> order_but (Z.to_nat (left + 1)) m tmp l -> order_to m l'.
Proof.
  induction fuel as [|fuel IH]; intros gi l stride tmp left Hh Hst Hf Hr; [lia|]. cbn [sift].
  assert (Hend : (left < 0 \/ l !!! Z.to_nat left <= tmp) -> exists l',
    becomes gi l' (GROUP_SET gi (left + stride) tmp) /\ l' ≡ₚ <[Z.to_nat (left + stride) := tmp]> l /\
    forall m, stride = 1 -> (Z.to_nat (left + 1) <= m)%nat -> order_but (Z.to_nat (left + 1)) m tmp l -> order_to m l').
  { intros Hlow. eexists. split; [by apply holds_set|]. split; [done|]. intros m -> Hm Ho.
    apply order_fill; [lia|done..|]. intros i Hi. destruct Hlow as [|Hlow]; [lia|].
    destruct (decide (i = Z.to_nat left)) as [->|]; [done|]. etrans; [|exact Hlow]. apply (proj1 Ho); lia. }
  destruct (Z.ltb_spec left 0); [apply Hend; lia|].
  rewrite (holds_at gi l) by (done || lia). rewrite some_bind.
  destruct (Z.ltb_spec tmp (l !!! Z.to_nat left)); [|apply Hend; lia]. clear Hend.
  destruct (holds_set gi l (left + stride) (l !!! Z.to_nat left) Hh Hr) as (gi1&->&Hh1&Hs1). rewrite some_bind.
  destruct (IH gi1 _ stride tmp (left - stride) Hh1) as (l'&Hb&Hp&Ho); [done|lia|rewrite length_insert; lia|].
  replace (left - stride + stride) with left in * by lia.
  exists l'. split; [by eapply becomes_trans|]. split.
  - etrans; [exact Hp|]. apply insert_swap_perm; lia.
  - intros m -> Hm Hbut. apply Ho; [done|lia|]. replace (left - 1 + 1) with left by lia.
    replace (Z.to_nat (left + 1)) with (S (Z.to_nat left)) in * by lia. apply order_step; (done || lia).
Qed.

Lemma shell_pass_correct n : forall gi l stride base, holds gi l -> 0 < stride -> 0 <= base ->
  base + Z.of_nat n + stride <= zlen l -> exists l', becomes gi l' (shell_pass n gi stride base) /\ l' ≡ₚ l /\
    (stride = 1 -> order_to (Z.to_nat base) l -> order_to (Z.to_nat base + n) l').
Proof.
  induction n as [|n IH]; intros gi l stride base Hh Hst Hb Hn; cbn [shell_pass].
  { exists l. split; [exists gi; by auto using same_shape_refl|]. split; [done|]. by rewrite Nat.add_0_r. }
  rewrite (holds_at gi l) by (done || lia). rewrite some_bind.
  edestruct (sift_correct (S (Z.to_nat base + 1)) gi l stride (l !!! Z.to_nat (base + stride)) base) as (l1&(gi1&->&Hh1&Hs1)&Hp1&Ho1); [done|done|lia|lia|].
  rewrite some_bind. rewrite list_insert_id in Hp1 by (apply list_lookup_lookup_total_lt; lia).
  pose proof (Permutation_length Hp1).
  destruct (IH gi1 l1 stride (base + 1)) as (l'&Hbec&Hp&Ho); [done|done|lia|lia|].
  exists l'. split; [by eapply becomes_trans|]. split; [by etrans|]. intros -> Hord.
  replace (Z.to_nat base + S n)%nat with (Z.to_nat (base + 1) + n)%nat by lia. apply Ho; [done|].
  apply Ho1; [done|lia|]. split.
  - intros i j Hij Hi Hj. apply Hord. lia.
  - lia.
Qed.

(** The strides: 0, 1, 4, 13, ... *)
Fixpoint tri (k : nat) : Z := match k with O => 0 | S k => 3 * tri k + 1 end.

Lemma tri_nonneg k : 0 <= tri k.
Proof. induction k; simpl; lia. Qed.
Lemma tri_third k : tri (S k) / 3 = tri k.
Proof. simpl. Z.to_euclidean_division_equations; lia. Qed.

Lemma tri_mono j k : (j <= k)%nat -> tri j <= tri k.
Proof. induction 1 as [|k]; [done|]. pose proof (tri_nonneg k). simpl. lia. Qed.

Lemma first_stride_correct fuel : forall n j, n <= tri (j + fuel) -> (0 < fuel)%nat -> (j = 0%nat \/ tri j < n) ->
  exists k, first_stride fuel n (tri (S j)) = Some (tri k) /\ (k = 0%nat \/ tri k < n) /\ (k = 0%nat -> n <= 1).
Proof.
  induction fuel as [|fuel IH]; intros n j Hn Hf Hj; [lia|]. cbn [first_stride].
  destruct (Z.ltb_spec (tri (S j)) n).
  - apply (IH n (S j)); [by rewrite <- Nat.add_succ_comm in Hn| |by right].
    destruct fuel; [|lia]. rewrite Nat.add_1_r in Hn. lia.
  - rewrite tri_third. exists j. split_and!; [done|done|]. intros ->. simpl in *. lia.
Qed.

Lemma shell_correct k : forall fuel gi l, holds gi l -> (k <= fuel)%nat -> (k = 0%nat \/ tri k < zlen l) ->
  exists l', becomes gi l' (shell fuel gi (tri k)) /\ l' ≡ₚ l /\ (k <> 0%nat -> order_to (length l' - 1) l').
Proof.
  induction k as [|k IH]; intros fuel gi l Hh Hf Hk.
  { exists l. destruct fuel; (split; [exists gi; by auto using same_shape_refl|done]). }
  destruct fuel as [|fuel]; [lia|]. destruct Hk as [|Hk]; [done|]. pose proof (tri_nonneg k) as Hpos.
  cbn [shell]. rewrite tri_third. destruct (Z.eqb_spec (tri (S k)) 0); [simpl in *; lia|].
  assert (Hng : ngroups gi = zlen l) by apply Hh.
  destruct (shell_pass_correct (Z.to_nat (ngroups gi - tri (S k))) gi l (tri (S k)) 0)
    as (l1&(gi1&->&Hh1&Hs1)&Hp1&Ho1); [done|simpl; lia|lia|simpl in *; lia|].
  rewrite some_bind. pose proof (Permutation_length Hp1) as Hlen.
  destruct (IH fuel gi1 l1) as (l'&Hb&Hp&Ho); [done|lia| |].
  { rewrite Hlen. simpl in *. destruct k; [by left|right; lia]. }
  exists l'. split; [by eapply becomes_trans|]. split; [by etrans|]. intros _.
  destruct k as [|k]; [|by apply Ho]. clear Ho. simpl in Hb.
  assert (l' = l1) as ->.
  { destruct Hb as (g&He&(_&Hn'&Ht')&_). destruct fuel; simpl in He; simplify_eq;
      destruct Hh1 as (_&_&Ht); pose proof (Permutation_length Hp) as Hl'; rewrite Hl', Ht in Ht';
      by apply (inj (map Some)) in Ht'. }
  rewrite Hlen. replace (length l - 1)%nat with (Z.to_nat 0 + Z.to_nat (ngroups gi - tri 1))%nat
    by (rewrite Hng; simpl in *; lia).
  apply Ho1; [done|]. intros i j. lia.
Qed.

(** groups_sort leaves the identifiers in order. *)
Lemma groups_sort_correct gi l : holds gi l -> exists l',
  becomes gi l' (groups_sort gi) /\ l' ≡ₚ l /\ order_to (length l' - 1) l'.
Proof.
  intros Hh. assert (Hn : ngroups gi = zlen l) by apply Hh. assert (Hmax : 0 <= ngroups gi <= NGROUPS_MAX) by apply Hh.
  unfold groups_sort, NGROUPS_MAX in *.
  destruct (first_stride_correct 20 (ngroups gi) 0) as (k&He&Hk&Hk0); [cbn; lia|lia|by left|].
  change (tri 1) with 1 in He. rewrite He, some_bind.
  destruct (shell_correct k 20 gi l Hh) as (l'&Hb&Hp&Ho).
  - destruct (decide (k <= 20)%nat); [done|]. destruct Hk as [->|Hk]; [lia|].
    pose proof (tri_mono 20 k ltac:(lia)) as Ht. change (tri 20) with 1743392200 in Ht. lia.
  - by rewrite <- Hn.
  - exists l'. split; [done|]. split; [done|]. destruct k as [|k]; [|by apply Ho].
    pose proof (Permutation_length Hp). intros i j. lia.
Qed.

(** ** Searching *)

(** Identifiers whose difference fits in an int. *)
Definition near (grp v : Z) : Prop := - 2 ^ 31 <= grp - v < 2 ^ 31.

Lemma search_correct fuel : forall gi l grp left right, holds gi l -> order_to (length l - 1) l ->
  Forall (near grp) l -> 0 <= left <= right -> right <= zlen l -> right - left < 2 ^ Z.of_nat fuel ->
  (forall i, Z.of_nat i < left -> (i < length l)%nat -> l !!! i <> grp) ->
  (forall i, right <= Z.of_nat i -> (i < length l)%nat -> l !!! i <> grp) ->
  search_loop fuel gi grp left right = Some (bool_decide (grp ∈ l)).
Proof.
  induction fuel as [|fuel IH]; intros gi l grp left right Hh Ho Hnear Hlr Hr Hf Hlow Hhigh; cbn [search_loop];
    (destruct (Z.ltb_spec left right); cbn [negb]; [|f_equal; symmetry; apply bool_decide_eq_false;
      intros [i Hi]%list_elem_of_lookup; pose proof (lookup_lt_Some _ _ _ Hi);
      apply list_lookup_total_correct in Hi; destruct (Z.ltb_spec (Z.of_nat i) left);
      [by apply (Hlow i)|apply (Hhigh i); (done || lia)]]).
  { simpl in Hf. lia. }
  assert (Hmax : 0 <= zlen l <= NGROUPS_MAX). { destruct Hh as ((?&?&_)&?&_). lia. } unfold NGROUPS_MAX in Hmax.
  rewrite u32_small by (unfold is_u32; lia). pose proof (Z.pow_succ_r 2 (Z.of_nat fuel) ltac:(lia)) as Hp.
  rewrite <- Nat2Z.inj_succ in Hp. set (mid := (left + right) / 2).
  assert (Hmid : left <= mid < right /\ 2 * (right - mid) <= right - left + 1 /\ 2 * (mid - left) <= right - left)
    by (subst mid; Z.to_euclidean_division_equations; lia).
  rewrite (holds_at gi l) by (done || lia). rewrite some_bind.
  assert (Hin : (l !!! Z.to_nat mid) ∈ l) by (apply list_elem_of_lookup_total_2; lia).
  rewrite Forall_forall in Hnear. pose proof (Hnear _ Hin) as Hn. unfold near in Hn.
  rewrite s32_small by lia. rewrite <- Forall_forall in Hnear.
  destruct (Z.ltb_spec 0 (grp - l !!! Z.to_nat mid)).
  - apply IH; try (done || lia). intros i Hi Hil.
    destruct (decide (i = Z.to_nat mid)) as [->|]; [lia|].
    specialize (Ho i (Z.to_nat mid) ltac:(lia)). lia.
  - destruct (Z.ltb_spec (grp - l !!! Z.to_nat mid) 0).
    + apply IH; try (done || lia). intros i Hi Hil.
      destruct (decide (i = Z.to_nat mid)) as [->|]; [lia|].
      specialize (Ho (Z.to_nat mid) i ltac:(lia)). lia.
    + f_equal. symmetry. apply bool_decide_eq_true. by replace grp with (l !!! Z.to_nat mid) by lia.
Qed.

(** ** Allocation *)

(** The pages an object keeps. *)
Definition own_pages (gi : group_info) : Z :=
  match blocks gi with Page _ :: _ => nblocks gi | _ => 0 end.

Lemma alloc_blocks_correct n : forall s bs s' bs' ok, alloc_blocks n s bs = (s', bs', ok) ->
  infos s' = infos s /\ grants s' = grants s /\ requests s <= requests s' /\
  pages s' = pages s + (zlen bs' - zlen bs) /\
  (ok = true -> bs' = bs ++ replicate n (Page (replicate 1024 None))) /\
  (ok = false -> exists k, grants s k = false).
Proof.
  induction n as [|n IH]; intros s bs s' bs' ok He; cbn [alloc_blocks] in He.
  { simplify_eq. split_and!; [done..|lia|lia| |done]. by rewrite app_nil_r. }
  unfold request in He. destruct (grants s (requests s + 1)) eqn:Hgr in He.
  - apply IH in He as (Hi&Hg&Hr&Hp&Hok&Hno). cbn in *. rewrite length_app in Hp. simpl in Hp.
    split_and!; [done|done|lia|lia| |done]. intros H. rewrite Hok by done. by rewrite <- app_assoc.
  - simplify_eq. simpl. split_and!; try (done || lia). intros _. by exists (requests s + 1).
Qed.

Lemma groups_alloc_correct s n s' p : 0 <= n <= NGROUPS_MAX -> 0 <= requests s -> groups_alloc s n = (s', p) ->
  grants s' = grants s /\ requests s <= requests s' /\
  (p = 0 /\ infos s' = infos s /\ pages s' = pages s /\ (exists k, grants s k = false) \/
   requests s < p <= requests s' /\ exists gi, infos s' = <[p := gi]> (infos s) /\ wf gi /\ ngroups gi = n /\
     usage gi = 1 /\ pages s' = pages s + own_pages gi).
Proof.
  intros Hn Hreq. unfold groups_alloc, request, NGROUPS_SMALL. cbn [requests infos pages grants].
  set (nb := (n + NGROUPS_PER_BLOCK - 1) / NGROUPS_PER_BLOCK).
  assert (Hnb : n <= 1024 * nb < n + 1024)
    by (unfold nb, NGROUPS_PER_BLOCK; Z.to_euclidean_division_equations; lia).
  destruct (grants s (requests s + 1)) eqn:Hgr; cbn [negb];
    [|intros; simplify_eq; simpl; split_and!; [done|lia|left; split_and!; by eauto]].
  destruct (Z.leb_spec n 32).
  { intros. simplify_eq. simpl. split; [done|]. split; [lia|]. right. split; [lia|]. eexists. split; [done|].
    unfold own_pages, wf, NGROUPS_SMALL. simpl. split_and!; try (done || lia).
    - destruct (Z.eqb_spec nb 0); lia.
    - left. split; [done|lia]. }
  destruct (Z.eqb_spec nb 0); [lia|].
  destruct (alloc_blocks _ _ _) as [[s1 bs] ok] eqn:He. apply alloc_blocks_correct in He as (Hi&Hg&Hr&Hp&Hok&Hno).
  simpl in *. destruct ok; intros; simplify_eq; simpl.
  - split; [done|]. split; [lia|]. right. split; [lia|]. rewrite Hok in * by done. rewrite Hi.
    eexists. split; [done|]. unfold own_pages, wf, NGROUPS_SMALL.
    cbn [small_block ngroups nblocks blocks usage]. simpl app. rewrite length_replicate in *.
    split_and!; try (done || lia).
    + right. split; [lia|]. apply Forall_replicate. by exists (replicate 1024 None).
    + destruct (Z.to_nat nb) eqn:?; [lia|]. simpl in *. lia.
  - split; [done|]. split; [lia|]. left. split_and!; [done|done|lia|by apply Hno].
Qed.

(** ** Copying *)

(** Cell [r] of block [q]. *)
Definition bcell (gi : group_info) (q r : nat) : option (option Z) :=
  b ← blocks gi !! q; block_cells gi b !! r.

Lemma flat_bcell gi j : wf gi -> 0 <= j < ngroups gi ->
  flat gi !! Z.to_nat j = bcell gi (Z.to_nat (j / 1024)) (Z.to_nat (j mod 1024)).
Proof.
  intros Hw Hj. destruct (cell_at gi j Hw Hj) as (b&Hr&Hc&_). apply rd_Some in Hr as [_ Hr].
  rewrite <- Hc. unfold bcell. rewrite Hr, some_bind. unfold rd.
  pose proof (Z.mod_pos_bound j 1024 ltac:(lia)). zcases; [lia|done].
Qed.

Lemma set_block_correct gi i b c : wf gi -> rd (blocks gi) i = Some b -> length c = length (block_cells gi b) ->
  exists gi', set_block gi i c = Some gi' /\ wf gi' /\ same_shape gi gi' /\
    forall q r, bcell gi' q r = if decide (q = Z.to_nat i) then c !! r else bcell gi q r.
Proof.
  intros (Hs&Hn&Hb&Hcase) Hr Hc. unfold set_block. rewrite Hr, some_bind.
  pose proof (rd_lt _ _ _ Hr) as Hlt. apply rd_Some in Hr as [H0 Hr].
  destruct Hcase as [[H1 H2]|[H1 H2]].
  - assert (b = Small /\ i = 0) as [-> ->].
    { rewrite H1 in Hlt, Hr. simpl in Hlt. assert (i = 0) as -> by lia. simpl in Hr. by simplify_eq. }
    eexists. split; [done|]. unfold wf. simpl in *. split_and!; try done; [congruence|lia|lia|by left|].
    intros q r. unfold bcell. simpl. rewrite H1. destruct q; simpl; done.
  - assert (Hx := H2). rewrite Forall_lookup in Hx. destruct (Hx _ _ Hr) as (c0&->&Hc0). simpl in Hc.
    rewrite wr_Some, some_bind by lia. eexists. split; [done|]. unfold wf, same_shape.
    cbn [small_block ngroups nblocks blocks usage]. split_and!; try done; try lia; try by rewrite length_insert.
    + right. split; [exact H1|]. apply Forall_insert; [done|]. exists c. split; [done|]. by rewrite Hc.
    + intros j. destruct (decide (j = Z.to_nat i)) as [->|].
      * rewrite Hr, list_lookup_insert_eq by lia. by split.
      * by rewrite list_lookup_insert_ne.
    + intros q r. unfold bcell. cbn [blocks]. case_decide as Hq.
      * subst. rewrite list_lookup_insert_eq by lia. done.
      * rewrite list_lookup_insert_ne by done. f_equal.
Qed.

Lemma block_length gi i b : wf gi -> rd (blocks gi) i = Some b -> Z.min 1024 (ngroups gi - 1024 * i) <= zlen (block_cells gi b).
Proof.
  intros (Hs&Hn&Hb&Hcase) Hr. pose proof (rd_lt _ _ _ Hr) as Hlt. apply rd_Some in Hr as [H0 Hr].
  unfold NGROUPS_SMALL in *. destruct Hcase as [[H1 H2]|[H1 H2]].
  - rewrite H1 in Hlt, Hr. simpl in Hlt. assert (i = 0) as -> by lia. simpl in Hr. simplify_eq. simpl. lia.
  - rewrite Forall_lookup in H2. destruct (H2 _ _ Hr) as (c0&->&Hc0). simpl. lia.
Qed.

(** The first [k] cells are those of [user]. *)
Definition copied (gi : group_info) (user : list Z) (k : Z) : Prop :=
  k <= zlen user /\ forall j, 0 <= j < k -> flat gi !! Z.to_nat j = Some (Some (user !!! Z.to_nat j)).

(** The blocks reach every group. *)
Lemma blocks_cover gi : wf gi -> ngroups gi <= 1024 * nblocks gi.
Proof.
  intros (_&H0&Hb&[[H1 H2]|[H1 H2]]); [|lia]. rewrite H1 in Hb. unfold NGROUPS_SMALL in H2. simpl in Hb. lia.
Qed.

Lemma block_start gi i : wf gi -> i < nblocks gi -> 1024 * i <= ngroups gi.
Proof.
  intros (_&H0&Hb&[[H1 H2]|[H1 H2]]); [|lia]. rewrite H1 in Hb. simpl in Hb. lia.
Qed.

Lemma same_shape_wf_ngroups gi gi' : same_shape gi gi' -> ngroups gi' = ngroups gi /\ nblocks gi' = nblocks gi.
Proof. by intros (?&?&?&?). Qed.

Lemma from_user_loop_correct n : forall gi user i, wf gi -> 0 <= i -> i + Z.of_nat n = nblocks gi ->
  copied gi user (Z.min (1024 * i) (ngroups gi)) ->
  exists gi', from_user_loop n gi user i (Z.max 0 (ngroups gi - 1024 * i)) = Some (gi', ngroups gi <=? zlen user) /\
    wf gi' /\ same_shape gi gi' /\ (ngroups gi <= zlen user -> copied gi' user (ngroups gi)).
Proof.
  induction n as [|n IH]; intros gi user i Hw Hi Hn Hc; cbn [from_user_loop].
  { pose proof (blocks_cover gi Hw). rewrite Z.min_r in Hc by lia. exists gi. destruct Hc as [Hl Hc].
    destruct (Z.leb_spec (ngroups gi) (zlen user)); [|lia].
    split; [done|]. split; [done|]. by auto using same_shape_refl. }
  pose proof (block_start gi i Hw ltac:(lia)) as Hst.
  unfold NGROUPS_PER_BLOCK. set (cp := Z.min 1024 (Z.max 0 (ngroups gi - 1024 * i))).
  destruct (Z.ltb_spec (zlen user) (i * 1024 + cp)) as [Hu|Hu].
  { exists gi. destruct Hc as [Hl _]. destruct (Z.leb_spec (ngroups gi) (zlen user)); [subst cp; lia|].
    split; [done|]. split; [done|]. split; [apply same_shape_refl|lia]. }
  destruct (rd_is_Some (blocks gi) i) as [b Hb]; [destruct Hw as (_&_&Hb&_); lia|].
  rewrite Hb, some_bind. pose proof (block_length gi i b Hw Hb) as Hlen.
  destruct (Z.ltb_spec (zlen (block_cells gi b)) cp); [subst cp; lia|].
  destruct (set_block_correct gi i b (blit (block_cells gi b) 0 (map Some user) (i * 1024) cp))
    as (gi1&->&Hw1&Hs1&Hcell); [done|done|apply length_blit; rewrite ?length_map; subst cp; lia|].
  rewrite some_bind. destruct (same_shape_wf_ngroups _ _ Hs1) as [Hng Hnb].
  destruct (IH gi1 user (i + 1) Hw1) as (gi'&He&Hw'&Hs'&Hc'); [lia|lia| |].
  - rewrite Hng. split; [subst cp; lia|]. intros j Hj. rewrite flat_bcell by (done || lia). rewrite Hcell.
    case_decide as Hq.
    + assert (Hqi : j / 1024 = i) by (Z.to_euclidean_division_equations; lia).
      replace (Z.to_nat (j mod 1024)) with (Z.to_nat (0 + j mod 1024)) by done.
      rewrite lookup_blit_in by (rewrite ?length_map; subst cp; Z.to_euclidean_division_equations; lia).
      rewrite list_lookup_fmap. replace (i * 1024 + j mod 1024) with j by (Z.to_euclidean_division_equations; lia).
      rewrite (list_lookup_lookup_total_lt user) by lia. done.
    + rewrite <- flat_bcell by (done || lia). apply Hc.
      assert (j / 1024 <> i) by (intros Heq; apply Hq; by rewrite Heq).
      Z.to_euclidean_division_equations; lia.
  - rewrite Hng in *. exists gi'. split; [|split; [done|split; [by eapply same_shape_trans|done]]].
    rewrite <- He. f_equal. subst cp. lia.
Qed.

Lemma from_user_correct gi user : wf gi -> exists gi' e, groups_from_user gi user = Some (gi', e) /\
  e = (if ngroups gi <=? zlen user then 0 else - EFAULT) /\ wf gi' /\ same_shape gi gi' /\
  (ngroups gi <= zlen user -> holds gi' (take (Z.to_nat (ngroups gi)) user)).
Proof.
  intros Hw. assert (Hn : 0 <= ngroups gi) by apply Hw.
  assert (Hb : 0 <= nblocks gi) by (destruct Hw as (_&_&->&_); lia).
  destruct (from_user_loop_correct (Z.to_nat (nblocks gi)) gi user 0) as (gi'&He&Hw'&Hs&Hc); [done|lia|lia|split; lia|].
  replace (Z.max 0 (ngroups gi - 1024 * 0)) with (ngroups gi) in He by lia.
  unfold groups_from_user. rewrite He, some_bind. eexists gi', _. split; [done|]. split; [done|].
  split; [done|]. split; [done|]. intros Hu. destruct (Hc Hu) as [_ Hcell].
  destruct (same_shape_wf_ngroups _ _ Hs) as [Hng _]. pose proof (flat_length gi' Hw') as Hfl.
  split; [done|]. rewrite length_take, Nat.min_l by lia. split; [rewrite Hng; lia|].
  apply list_eq. intros j. destruct (decide (j < Z.to_nat (ngroups gi))%nat) as [Hj|Hj].
  - rewrite lookup_take_lt, list_lookup_fmap, lookup_take_lt by done.
    specialize (Hcell (Z.of_nat j)). rewrite Nat2Z.id in Hcell. rewrite Hcell by lia.
    rewrite (list_lookup_lookup_total_lt user) by lia. done.
  - rewrite !lookup_ge_None_2; rewrite ?length_map, ?length_take; (done || lia).
Qed.

Lemma mapM_all_some (l : list Z) : mapM (fun c : option Z => c) (map Some l) = Some l.
Proof. apply mapM_Some, Forall2_fmap_l. induction l; by constructor. Qed.

(** The cells of a block, when the object holds [l]. *)
Lemma holds_block gi l i b cp : holds gi l -> rd (blocks gi) i = Some b -> 0 <= cp <= 1024 -> i * 1024 + cp <= zlen l ->
  take (Z.to_nat cp) (block_cells gi b) = map Some (slice (i * 1024) cp l).
Proof.
  intros (Hw&Hn&Ht) Hb Hcp Hl. pose proof (block_length gi i b Hw Hb) as Hlen.
  apply rd_Some in Hb as [H0 Hb]. apply list_eq. intros r.
  destruct (decide (r < Z.to_nat cp)%nat) as [Hr|Hr].
  - rewrite lookup_take_lt, list_lookup_fmap, lookup_slice by lia.
    pose proof (flat_bcell gi (i * 1024 + Z.of_nat r) Hw ltac:(lia)) as Hf.
    replace ((i * 1024 + Z.of_nat r) / 1024) with i in Hf by (Z.to_euclidean_division_equations; lia).
    replace ((i * 1024 + Z.of_nat r) mod 1024) with (Z.of_nat r) in Hf by (Z.to_euclidean_division_equations; lia).
    unfold bcell in Hf. rewrite Hb, some_bind, Nat2Z.id in Hf. rewrite <- Hf.
    rewrite <- (lookup_take_lt _ (length l)), Ht, list_lookup_fmap by lia. f_equal. f_equal. lia.
  - pose proof (length_slice (i * 1024) cp l). rewrite !lookup_ge_None_2; rewrite ?length_map, ?length_take; (done || lia).
Qed.

Lemma to_user_loop_correct n : forall gi l user i, holds gi l -> 0 <= i -> i + Z.of_nat n = nblocks gi ->
  zlen l <= zlen user ->
  to_user_loop n (take (Z.to_nat (1024 * i)) l ++ drop (Z.to_nat (Z.min (1024 * i) (zlen l))) user) gi i (Z.max 0 (zlen l - 1024 * i))
    = Some (l ++ drop (length l) user, true).
Proof.
  induction n as [|n IH]; intros gi l user i Hh Hi Hn Hu; assert (Hw : wf gi) by apply Hh;
    assert (Hng : ngroups gi = zlen l) by apply Hh; cbn [to_user_loop].
  { pose proof (blocks_cover gi Hw). rewrite take_ge by lia. do 3 f_equal. f_equal. lia. }
  unfold NGROUPS_PER_BLOCK. set (cp := Z.min 1024 (Z.max 0 (zlen l - 1024 * i))).
  destruct (rd_is_Some (blocks gi) i) as [b Hb]; [destruct Hw as (_&_&Hb&_); lia|]. rewrite Hb, some_bind.
  pose proof (block_start gi i Hw ltac:(lia)) as Hst.
  assert (Hcp : 0 <= cp <= 1024 /\ i * 1024 + cp <= zlen l /\ cp = Z.min 1024 (zlen l - 1024 * i)) by (subst cp; lia).
  rewrite (holds_block gi l i b cp) by (done || lia).
  pose proof (length_slice (i * 1024) cp l ltac:(lia) ltac:(lia) ltac:(lia)) as Hsz.
  rewrite length_map, Hsz, Z.ltb_irrefl, mapM_all_some, some_bind.
  set (u := take _ l ++ _). assert (Hul : zlen u = zlen user).
  { subst u. rewrite length_app, length_take, length_drop. lia. }
  rewrite Hul. destruct (Z.ltb_spec (zlen user) (i * 1024 + cp)) as [Hx|Hx]; [lia|].
  rewrite <- (IH gi l user (i + 1)) by (done || lia). f_equal; [|lia].
  subst u. unfold blit, slice. rewrite drop_0, take_take, Nat.min_id.
  rewrite take_app_le by (rewrite length_take; lia). rewrite take_take, app_assoc. f_equal.
  - replace (Z.to_nat (i * 1024) `min` Z.to_nat (1024 * i))%nat with (Z.to_nat (i * 1024)) by lia.
    rewrite take_take_drop. destruct (Z.leb_spec 1024 (zlen l - 1024 * i)).
    + f_equal. lia.
    + rewrite !take_ge; (done || lia).
  - rewrite drop_app_ge by (rewrite length_take; lia). rewrite length_take, drop_drop. f_equal. lia.
Qed.

Lemma to_user_correct gi l user : holds gi l -> zlen l <= zlen user ->
  groups_to_user user gi = Some (l ++ drop (length l) user, 0).
Proof.
  intros Hh Hu. unfold groups_to_user. assert (Hng : ngroups gi = zlen l) by apply Hh.
  assert (Hb : nblocks gi = zlen (blocks gi)) by apply Hh.
  pose proof (to_user_loop_correct (Z.to_nat (nblocks gi)) gi l user 0 Hh ltac:(lia) ltac:(lia) Hu) as He.
  rewrite Z.min_l, !drop_0, take_0 in He by lia. simpl app in He. rewrite Hng.
  replace (Z.max 0 (zlen l - 1024 * 0)) with (zlen l) in He by lia. by rewrite He.
Qed.

(** ** Operations of a task *)

(** The objects that tasks use. *)
Definition system_ok (s : system) : Prop :=
  0 <= requests s /\
  forall p gi, infos s !! p = Some gi -> 0 < p <= requests s /\ wf gi /\ 1 <= usage gi.

(** What is left when one user of [p] goes. *)
Definition dropped (m : gmap Z group_info) (p : Z) (gi : group_info) : gmap Z group_info :=
  if usage gi =? 1 then delete p m else <[p := set_usage gi (usage gi - 1)]> m.
Definition freed_pages (gi : group_info) : Z := if usage gi =? 1 then own_pages gi else 0.

Lemma first_block gi : wf gi -> exists b bs, blocks gi = b :: bs.
Proof.
  intros (_&_&Hb&[[H1 H2]|[H1 H2]]); [by exists Small, []|].
  destruct (blocks gi) as [|b bs] eqn:E; [|by eexists _, _]. unfold NGROUPS_SMALL in H1. simpl in Hb. lia.
Qed.

Lemma put_correct s p gi : infos s !! p = Some gi -> wf gi -> exists s', put_group_info s p = Some s' /\
  infos s' = dropped (infos s) p gi /\ pages s' = pages s - freed_pages gi /\ requests s' = requests s /\ grants s' = grants s.
Proof.
  intros Hp Hw. unfold put_group_info, dropped, freed_pages, own_pages. rewrite Hp, some_bind.
  replace (usage gi - 1 =? 0) with (usage gi =? 1) by (zcases; (done || lia)).
  destruct (usage gi =? 1); [|eexists; split; [done|]; simpl; split_and!; (done || lia)].
  unfold groups_free. cbn [infos set_infos]. rewrite lookup_insert_eq, some_bind. cbn [blocks set_usage].
  destruct (first_block gi Hw) as (b&bs&->).
  change (rd (b :: bs) 0) with (Some b). rewrite some_bind. eexists. split; [done|].
  destruct b; simpl; rewrite delete_insert_eq; split_and!; (done || lia).
Qed.

Lemma wf_shape gi gi' : same_shape gi gi' -> wf gi' -> wf gi -> own_pages gi' = own_pages gi.
Proof.
  intros (_&_&Hn&_&Hs) Hw Hw'. unfold own_pages.
  destruct (first_block gi Hw') as (b&bs&Hb), (first_block gi' Hw) as (b'&bs'&Hb').
  specialize (Hs 0%nat). rewrite Hb, Hb' in *. simpl in Hs. destruct b, b'; simpl in *; naive_solver.
Qed.

Lemma usage_shape gi gi' : same_shape gi gi' -> usage gi' = usage gi.
Proof. by intros (?&?&?). Qed.

Lemma set_usage_holds gi l n : holds gi l -> holds (set_usage gi n) l.
Proof. done. Qed.
Lemma set_usage_id gi : set_usage gi (usage gi) = gi.
Proof. by destruct gi. Qed.

Lemma set_current_groups_correct s current p gi l gi0 : infos s !! p = Some gi -> holds gi l -> usage gi = 1 ->
  infos s !! groups current = Some gi0 -> groups current <> p -> wf gi0 ->
  exists s' gi' l', set_current_groups s current p = Some (s', mk_task (fsgid current) (egid current) p, 0) /\
    holds gi' l' /\ l' ≡ₚ l /\ order_to (length l' - 1) l' /\ usage gi' = 2 /\ own_pages gi' = own_pages gi /\
    infos s' = dropped (<[p := gi']> (infos s)) (groups current) gi0 /\
    pages s' = pages s - freed_pages gi0 /\ requests s' = requests s.
Proof.
  intros Hp Hh Hu H0 Hne Hw0. unfold set_current_groups. rewrite Hp, some_bind.
  destruct (groups_sort_correct gi l Hh) as (l'&(gi1&->&Hh1&Hs1)&Hperm&Ho). rewrite some_bind.
  unfold get_group_info. cbn [infos set_infos]. rewrite lookup_insert_eq, some_bind.
  cbv zeta. rewrite some_bind. set (s1 := set_infos _ (set_infos _ s)).
  destruct (put_correct s1 (groups current) gi0) as (s'&->&Hi&Hpg&Hr&_).
  { subst s1. cbn [infos set_infos]. by rewrite !lookup_insert_ne. }
  { done. }
  rewrite some_bind. eexists s', (set_usage gi1 2), l'. split; [done|]. split; [by apply set_usage_holds|].
  pose proof (usage_shape _ _ Hs1) as Hu1.
  split; [done|]. split; [done|]. split; [done|]. split; [exact (wf_shape gi gi1 Hs1 (proj1 Hh1) (proj1 Hh))|].
  rewrite Hi, Hpg, Hr. subst s1. cbn [infos set_infos pages requests]. rewrite insert_insert_eq, Hu1, Hu. done.
Qed.

(** The outcome of sys_setgroups with the capability: the groups are [user]'s first
    [n], in order, in an object of their own, or nothing changed. *)
Definition set_outcome (s : system) (current : task) (gi0 : group_info) (n : Z) (user : list Z)
    (s' : system) (current' : task) (r : Z) : Prop :=
  (r = 0 /\ 0 <= n <= NGROUPS_MAX /\ n <= zlen user /\ exists p gi l,
     current' = mk_task (fsgid current) (egid current) p /\ requests s < p /\
     holds gi l /\ l ≡ₚ take (Z.to_nat n) user /\ order_to (length l - 1) l /\ usage gi = 1 /\
     infos s' = <[p := gi]> (dropped (infos s) (groups current) gi0) /\
     pages s' = pages s + own_pages gi - freed_pages gi0) \/
  ((r = - EINVAL /\ ~ 0 <= n <= NGROUPS_MAX \/ (r = - ENOMEM /\ exists k, grants s k = false) \/ r = - EFAULT /\ zlen user < n) /\
   current' = current /\ infos s' = infos s /\ pages s' = pages s).

Lemma sys_setgroups_correct s current gi0 n user : system_ok s -> infos s !! groups current = Some gi0 ->
  - 2 ^ 31 <= n < 2 ^ 31 ->
  exists s' current' r, sys_setgroups true s current n user = Some (s', current', r) /\
    system_ok s' /\ set_outcome s current gi0 n user s' current' r.
Proof.
  intros [Hreq Hok] H0 Hn. destruct (Hok _ _ H0) as (Hp0&Hw0&Hu0). unfold sys_setgroups. cbn [negb].
  destruct (Z.ltb_spec NGROUPS_MAX (u32 n)) as [Hbig|Hbig].
  { eexists s, current, _. split; [done|]. split; [done|]. right. split; [|done]. left. split; [done|].
    unfold NGROUPS_MAX in *. intros H. rewrite u32_small in Hbig by (unfold is_u32; lia). lia. }
  assert (Hn' : 0 <= n <= NGROUPS_MAX) by (unfold NGROUPS_MAX in *; word_lia).
  destruct (groups_alloc s n) as [s1 p] eqn:He. apply groups_alloc_correct in He as (Hg&Hr&Hcase); [|done..].
  destruct Hcase as [(->&Hi&Hpg&Hno)|(Hp&gi&Hi&Hw&Hng&Hu&Hpg)].
  { eexists s1, current, _. split; [done|]. split; [|right; split; [right; left; by split|done]].
    split; [lia|]. rewrite Hi. intros q gi Hq. destruct (Hok q gi Hq). split; [lia|done]. }
  destruct (Z.eqb_spec p 0); [lia|]. assert (Hl1 : infos s1 !! p = Some gi) by (rewrite Hi; apply lookup_insert_eq).
  cbv zeta. rewrite Hl1, some_bind.
  destruct (from_user_correct gi user Hw) as (gi1&e&->&Hee&Hw1&Hs1&Hh1). rewrite some_bind.
  rewrite Hng in *. pose proof (usage_shape _ _ Hs1) as Hu1. pose proof (wf_shape _ _ Hs1 Hw1 Hw) as Ho1.
  assert (Hfresh : infos s !! p = None) by (destruct (infos s !! p) eqn:E; [apply Hok in E; lia|done]).
  assert (Hne : groups current <> p) by (intros Heq; congruence).
  destruct (Z.leb_spec n (zlen user)) as [Hlen|Hlen]; subst e; cbn [negb Z.eqb].
  2:{ destruct (put_correct (set_infos (<[p := gi1]> (infos s1)) s1) p gi1) as (s2&->&Hi2&Hp2&Hr2&_);
        [by cbn; rewrite lookup_insert_eq|done|].
    change (negb (- EFAULT =? 0)) with true. cbn [infos set_infos pages requests] in *. cbv iota. rewrite some_bind.
    unfold dropped, freed_pages in *. rewrite Hu1, Hu in *. change (1 =? 1) with true in *. cbv iota in *.
    rewrite Hi, insert_insert_eq, delete_insert_id in Hi2 by done.
    eexists s2, current, _. split; [done|]. split; [|right; split; [by right; right|]; split_and!; [done|done|lia]].
    split; [lia|]. rewrite Hi2. intros q g Hq. destruct (Hok q g Hq). split; [lia|done]. }
  set (s2 := set_infos _ s1).
  destruct (set_current_groups_correct s2 current p gi1 (take (Z.to_nat n) user) gi0)
    as (s3&gi3&l3&->&Hh3&Hp3&Ho3&Hu3&Hop3&Hi3&Hpg3&Hr3);
    [by cbn; rewrite lookup_insert_eq|by apply Hh1|congruence|cbn; rewrite lookup_insert_ne, Hi, lookup_insert_ne; done|done|done|].
  rewrite some_bind. cbn [infos set_infos pages requests s2] in *. rewrite insert_insert_eq, Hi, insert_insert_eq in Hi3.
  assert (Hsw : dropped (<[p := gi3]> (infos s)) (groups current) gi0 = <[p := gi3]> (dropped (infos s) (groups current) gi0)).
  { unfold dropped. destruct (_ =? _); [by apply delete_insert_ne|by apply insert_insert_ne]. }
  rewrite Hsw in Hi3.
  destruct (put_correct s3 p gi3) as (s4&->&Hi4&Hpg4&Hr4&_); [by rewrite Hi3, lookup_insert_eq|apply Hh3|].
  rewrite some_bind. rewrite Hi3 in Hi4. unfold dropped at 1 in Hi4. unfold freed_pages in Hpg4. rewrite Hu3 in *.
  simpl in Hi4, Hpg4. rewrite insert_insert_eq in Hi4.
  eexists s4, _, _. split; [done|]. split.
  - split; [lia|]. rewrite Hi4. intros q g. rewrite lookup_insert. case_decide as Hq.
    + intros ?. simplify_eq. split; [lia|]. split; [apply Hh3|simpl; lia].
    + unfold dropped. destruct (Z.eqb_spec (usage gi0) 1).
      * rewrite lookup_delete_Some. intros [_ Hx]. destruct (Hok _ _ Hx). split; [lia|done].
      * rewrite lookup_insert. case_decide; intros Hx; simplify_eq; [split; [lia|split; [done|simpl; lia]]|].
        destruct (Hok _ _ Hx). split; [lia|done].
  - left. split; [done|]. split; [done|]. split; [done|].
    exists p, (set_usage gi3 1), l3. split; [done|]. split; [lia|]. split; [by apply set_usage_holds|].
    split; [done|]. split; [done|]. split; [done|]. split; [done|].
    change (own_pages (set_usage gi3 1)) with (own_pages gi3). lia.
Qed.

(** The groups of a task are those it was given, as far as differences of
    identifiers fit in an int; a call that fails changes nothing. *)

Lemma order_sorted (l : list Z) : order_to (length l - 1) l -> StronglySorted Z.le l.
Proof.
  induction l as [|x l IH]; intros Ho; [constructor|]. constructor.
  - apply IH. intros i j Hij. destruct l as [|y l]; [simpl in Hij; lia|].
    apply (Ho (S i) (S j)). simpl in *. lia.
  - apply Forall_lookup. intros i y Hi. pose proof (lookup_lt_Some _ _ _ Hi).
    specialize (Ho 0%nat (S i) ltac:(simpl; lia)). simpl in Ho. by apply list_lookup_total_correct in Hi as <-.
Qed.

Lemma search_held s p gi l grp : infos s !! p = Some gi -> p <> 0 -> holds gi l -> order_to (length l - 1) l ->
  Forall (near grp) l -> groups_search s p grp = Some (bool_decide (grp ∈ l)).
Proof.
  intros Hp H0 Hh Ho Hn. unfold groups_search. destruct (Z.eqb_spec p 0); [done|]. rewrite Hp, some_bind.
  assert (Hng : ngroups gi = zlen l /\ ngroups gi <= NGROUPS_MAX) by (destruct Hh as ((_&?&_)&?&_); lia).
  unfold NGROUPS_MAX in Hng. apply search_correct; try done; try lia.
Qed.

(** C37. The system call setgroups of a privileged task never fails in memory: either
    it answers 0, and then getgroups of a buffer that has room returns exactly the
    given identifiers in ascending order and in_group_p and in_egroup_p answer by
    membership (for identifiers whose differences fit in an int), or it answers
    -EINVAL, -ENOMEM or -EFAULT for the reason it names and every group set, the
    task and the number of pages in use are as before. *)
Theorem setgroups_membership s current gi0 n user : system_ok s -> infos s !! groups current = Some gi0 ->
  - 2 ^ 31 <= n < 2 ^ 31 ->
  exists s' current' r, sys_setgroups true s current n user = Some (s', current', r) /\ system_ok s' /\
    ((r = 0 /\ n <= zlen user /\ fsgid current' = fsgid current /\ egid current' = egid current /\
      exists l, l ≡ₚ take (Z.to_nat n) user /\ StronglySorted Z.le l /\
        (forall m mem, n <= m -> n <= zlen mem ->
           sys_getgroups s' current' m mem = Some (l ++ drop (Z.to_nat n) mem, n)) /\
        (forall grp, Forall (near grp) user ->
           in_group_p s' current' grp = Some (bool_decide (grp = fsgid current \/ grp ∈ l)) /\
           in_egroup_p s' current' grp = Some (bool_decide (grp = egid current \/ grp ∈ l)))) \/
     ((r = - EINVAL /\ ~ 0 <= n <= NGROUPS_MAX \/ (r = - ENOMEM /\ exists k, grants s k = false) \/
       r = - EFAULT /\ zlen user < n) /\
      current' = current /\ infos s' = infos s /\ pages s' = pages s)).
Proof.
  intros Hok H0 Hn. destruct (sys_setgroups_correct s current gi0 n user Hok H0 Hn) as (s'&current'&r&He&Hok'&Hout).
  exists s', current', r. split; [done|]. split; [done|].
  destruct Hout as [(->&Hr&Hu&p&gi&l&->&Hp&Hh&Hperm&Ho&_&Hi&_)|Hout]; [left|by right].
  assert (Hgi : infos s' !! p = Some gi) by (rewrite Hi; apply lookup_insert_eq).
  assert (Hp0 : p <> 0) by (destruct Hok; lia).
  assert (Hlen : zlen l = n) by (rewrite (Permutation_length Hperm), length_take; lia).
  do 4 (split; [done|]). exists l. split; [done|]. split; [by apply order_sorted|]. split.
  - intros m mem Hm Hmem. unfold sys_getgroups. cbn [groups]. rewrite Hgi, some_bind.
    assert (Hng : ngroups gi = n) by (rewrite <- Hlen; apply Hh). rewrite Hng.
    destruct (Z.ltb_spec m 0); [lia|]. destruct (Z.eqb_spec m 0) as [->|].
    + assert (n = 0) as -> by lia. by destruct l.
    + destruct (Z.ltb_spec m n); [lia|]. rewrite (to_user_correct gi l mem Hh) by lia. rewrite some_bind.
      do 3 f_equal. f_equal. lia.
  - intros grp Hnear. assert (Hn' : Forall (near grp) l).
    { rewrite Hperm. by apply Forall_take. }
    unfold in_group_p, in_egroup_p. cbn [fsgid egid groups]. rewrite (search_held s' p gi l grp) by done.
    split; [destruct (Z.eqb_spec grp (fsgid current))|destruct (Z.eqb_spec grp (egid current))]; simpl; f_equal;
      symmetry; (apply bool_decide_eq_true; by left) || (apply bool_decide_ext; naive_solver).
Qed.

(** A task whose set of groups is empty, with one user. *)
Definition sample_system : system :=
  mk_system 1 (fun _ => true) 0 {[ 1 := mk_info 0 1 (replicate 32 None) 1 [Small] ]}.

Lemma setgroups_membership_witness : exists s' current' r,
  sys_setgroups true sample_system (mk_task 100 100 1) 3 [27; 5; 4] = Some (s', current', r) /\ system_ok s' /\
    ((r = 0 /\ 3 <= zlen [27; 5; 4] /\ fsgid current' = 100 /\ egid current' = 100 /\
      exists l, l ≡ₚ take (Z.to_nat 3) [27; 5; 4] /\ StronglySorted Z.le l /\
        (forall m mem, 3 <= m -> 3 <= zlen mem ->
           sys_getgroups s' current' m mem = Some (l ++ drop (Z.to_nat 3) mem, 3)) /\
        (forall grp, Forall (near grp) [27; 5; 4] ->
           in_group_p s' current' grp = Some (bool_decide (grp = 100 \/ grp ∈ l)) /\
           in_egroup_p s' current' grp = Some (bool_decide (grp = 100 \/ grp ∈ l)))) \/
     ((r = - EINVAL /\ ~ 0 <= 3 <= NGROUPS_MAX \/ (r = - ENOMEM /\ exists k, grants sample_system k = false) \/
       r = - EFAULT /\ zlen [27; 5; 4] < 3) /\
      current' = mk_task 100 100 1 /\ infos s' = infos sample_system /\ pages s' = pages sample_system)).
Proof.
  apply (setgroups_membership sample_system (mk_task 100 100 1) (mk_info 0 1 (replicate 32 None) 1 [Small])).
  - split; [simpl; lia|]. intros p gi. unfold sample_system. cbn [infos].
    intros [<- <-]%lookup_singleton_Some. split; [simpl; lia|]. split; [|simpl; lia].
    split_and!; simpl; try lia; [unfold NGROUPS_MAX; lia|]. left. split; [done|unfold NGROUPS_SMALL; lia].
  - reflexivity.
  - lia.
Defined.

(** Identifiers that are further apart: sys_setgroups sorts them as unsigned
    numbers, the search subtracts them, and a group of the task is not found. *)
Example group_search_misses :
  (r ← sys_setgroups true sample_system (mk_task 100 100 1) 2 [1; 2147483650];
   in_group_p r.1.1 r.1.2 1) = Some false /\
  (r ← sys_setgroups true sample_system (mk_task 100 100 1) 2 [1; 2147483650];
   sys_getgroups r.1.1 r.1.2 2 [0; 0]) = Some ([1; 2147483650], 2).
Proof. split; vm_compute; reflexivity. Qed.

(** Forty groups take a page; a task without the capability is refused. *)
Example setgroups_in_a_page :
  (r ← sys_setgroups true sample_system (mk_task 100 100 1) 40 (rev (seqZ 0 40));
   a ← in_group_p r.1.1 r.1.2 39;
   Some (a, r.2, pages r.1.1)) = Some (true, 0, 1) /\
  sys_setgroups false sample_system (mk_task 100 100 1) 2 [1; 2] = Some (sample_system, mk_task 100 100 1, - EPERM).
Proof. split; vm_compute; reflexivity. Qed.
