(* ===== verification/PosixAcl.v ===== *)
(** * fs/posix_acl.c, fs/xattr_acl.c: access control lists

    A list has an entry for the owner, for named users, for the owning group, for
    named groups, a mask for all of these but the owner, and one for the others.
    Lists are shared objects with a count of their users.  The file validates them,
    decides an access, converts them to and from permission bits and extended
    attributes, and narrows them when a file is created or its mode changed. *)

From Stdlib Require Import Sorting.Sorted.
From S2P Require Import Prelude.

(** ** Data *)

Definition ACL_UNDEFINED_ID : Z := 4294967295. (** -1 in an unsigned int *)
Definition ACL_USER_OBJ : Z := 1.
Definition ACL_USER : Z := 2.
Definition ACL_GROUP_OBJ : Z := 4.
Definition ACL_GROUP : Z := 8.
Definition ACL_MASK : Z := 16.
Definition ACL_OTHER : Z := 32.
Definition ACL_READ : Z := 4.
Definition ACL_WRITE : Z := 2.
Definition ACL_EXECUTE : Z := 1.

Definition S_IRWXU : Z := 448.
Definition S_IRWXG : Z := 56.
Definition S_IRWXO : Z := 7.
Definition S_IRWXUGO : Z := 511.

Definition EIO : Z := 5.
Definition EACCES : Z := 13.
Definition EOPNOTSUPP : Z := 95.

Record posix_acl_entry := Entry { e_tag : Z; e_perm : Z; e_id : Z }.
(** [a_count] is the length of the entries. *)
Record posix_acl := Acl { a_refcount : Z; a_entries : list posix_acl_entry }.

(** The lists in use by address; [grants n] tells whether the [n]-th request is met. *)
Record store := Store { requests : Z; grants : Z -> bool; acls : gmap Z posix_acl }.

(** Pointers: NULL, and the errors ERR_PTR(-e). *)
Definition IS_ERR (p : Z) : bool := (- 4095 <=? p) && (p <? 0).

Definition set_acls (st : store) (m : gmap Z posix_acl) : store := Store (requests st) (grants st) m.

(** ** Shared objects *)

(** kmalloc of an object. *)
Definition kmalloc (st : store) (a : posix_acl) : store * Z :=
  let n := requests st + 1 in
  if grants st n then (Store n (grants st) (<[n := a]> (acls st)), n)
  else (Store n (grants st) (acls st), 0).
(** The entries are unspecified until they are written. *)
Definition blank : posix_acl_entry := Entry 0 0 0.
Definition posix_acl_alloc (st : store) (count : Z) : store * Z :=
  kmalloc st (Acl 1 (replicate (Z.to_nat count) blank)).
(** Writing all entries of an object. *)
Definition set_entries (st : store) (p : Z) (l : list posix_acl_entry) : option store :=
  a ← acls st !! p;
  if (length l =? length (a_entries a))%nat then Some (set_acls st (<[p := Acl (a_refcount a) l]> (acls st)))
  else None.

Definition posix_acl_dup (st : store) (p : Z) : option (store * Z) :=
  if p =? 0 then Some (st, p) else
  a ← acls st !! p;
  Some (set_acls st (<[p := Acl (a_refcount a + 1) (a_entries a)]> (acls st)), p).

Definition posix_acl_release (st : store) (p : Z) : option store :=
  if p =? 0 then Some st else
  a ← acls st !! p;
  let n := a_refcount a - 1 in
  if n =? 0 then Some (set_acls st (delete p (acls st)))
  else Some (set_acls st (<[p := Acl n (a_entries a)]> (acls st))).

Definition posix_acl_clone (st : store) (p : Z) : option (store * Z) :=
  if p =? 0 then Some (st, 0) else
  a ← acls st !! p;
  Some (kmalloc st (Acl 1 (a_entries a))).

(** ** Validity *)

Fixpoint valid_loop (l : list posix_acl_entry) (state id : Z) (needs_mask : bool) : Z :=
  match l with
  | [] => if state =? 0 then 0 else - EINVAL
  | pa :: l =>
    if negb (Z.land (e_perm pa) (Z.lnot (Z.lor (Z.lor ACL_READ ACL_WRITE) ACL_EXECUTE)) =? 0) then - EINVAL else
    if e_tag pa =? ACL_USER_OBJ then
      if state =? ACL_USER_OBJ then valid_loop l ACL_USER 0 needs_mask else - EINVAL
    else if e_tag pa =? ACL_USER then
      if negb (state =? ACL_USER) then - EINVAL else
      if (e_id pa =? ACL_UNDEFINED_ID) || (e_id pa <? id) then - EINVAL else
      valid_loop l state (e_id pa + 1) true
    else if e_tag pa =? ACL_GROUP_OBJ then
      if state =? ACL_USER then valid_loop l ACL_GROUP 0 needs_mask else - EINVAL
    else if e_tag pa =? ACL_GROUP then
      if negb (state =? ACL_GROUP) then - EINVAL else
      if (e_id pa =? ACL_UNDEFINED_ID) || (e_id pa <? id) then - EINVAL else
      valid_loop l state (e_id pa + 1) true
    else if e_tag pa =? ACL_MASK then
      if negb (state =? ACL_GROUP) then - EINVAL else valid_loop l ACL_OTHER id needs_mask
    else if e_tag pa =? ACL_OTHER then
      if (state =? ACL_OTHER) || ((state =? ACL_GROUP) && negb needs_mask)
      then valid_loop l 0 id needs_mask else - EINVAL
    else - EINVAL
  end.
Definition posix_acl_valid (l : list posix_acl_entry) : Z := valid_loop l ACL_USER_OBJ 0 false.

(** ** Permission bits *)

(** The loop of posix_acl_equiv_mode: [None] is the error. *)
Fixpoint equiv_loop (l : list posix_acl_entry) (mode : Z) (not_equiv : bool) : option (Z * bool) :=
  match l with
  | [] => Some (mode, not_equiv)
  | pa :: l =>
    let perm := Z.land (e_perm pa) S_IRWXO in
    if e_tag pa =? ACL_USER_OBJ then equiv_loop l (Z.lor mode (Z.shiftl perm 6)) not_equiv
    else if e_tag pa =? ACL_GROUP_OBJ then equiv_loop l (Z.lor mode (Z.shiftl perm 3)) not_equiv
    else if e_tag pa =? ACL_OTHER then equiv_loop l (Z.lor mode perm) not_equiv
    else if e_tag pa =? ACL_MASK then
      equiv_loop l (Z.lor (Z.land mode (Z.lnot S_IRWXG)) (Z.shiftl perm 3)) true
    else if (e_tag pa =? ACL_USER) || (e_tag pa =? ACL_GROUP) then equiv_loop l mode true
    else None
  end.
(** The mode after it, and the result. *)
Definition posix_acl_equiv_mode (l : list posix_acl_entry) (mode_p : Z) : Z * Z :=
  match equiv_loop l 0 false with
  | Some (mode, not_equiv) =>
    (Z.lor (Z.land mode_p (Z.lnot S_IRWXUGO)) mode, if not_equiv then 1 else 0)
  | None => (mode_p, - EINVAL)
  end.

Definition posix_acl_from_mode (st : store) (mode : Z) : option (store * Z) :=
  let '(st, acl) := posix_acl_alloc st 3 in
  if acl =? 0 then Some (st, - ENOMEM) else
  st ← set_entries st acl
    [Entry ACL_USER_OBJ (Z.shiftr (Z.land mode S_IRWXU) 6) ACL_UNDEFINED_ID;
     Entry ACL_GROUP_OBJ (Z.shiftr (Z.land mode S_IRWXG) 3) ACL_UNDEFINED_ID;
     Entry ACL_OTHER (Z.land mode S_IRWXO) ACL_UNDEFINED_ID];
  Some (st, acl).

(** ** Access *)

(** Of an inode and of the task what the decision uses; [in_group_p] may fault. *)
Record subject := Subject { i_uid : Z; i_gid : Z; fsuid : Z; in_group_p : Z -> option bool }.

Definition check_perm (pa : posix_acl_entry) (want : Z) : Z :=
  if Z.land (e_perm pa) want =? want then 0 else - EACCES.
(** From the label [mask] on: [l] are the entries behind [pa]. *)
Fixpoint mask_loop (pa : posix_acl_entry) (l : list posix_acl_entry) (want : Z) : Z :=
  match l with
  | [] => check_perm pa want
  | mask_obj :: l =>
    if e_tag mask_obj =? ACL_MASK then
      if Z.land (Z.land (e_perm pa) (e_perm mask_obj)) want =? want then 0 else - EACCES
    else mask_loop pa l want
  end.

Fixpoint permission_loop (u : subject) (l : list posix_acl_entry) (want : Z) (found : bool) : option Z :=
  match l with
  | [] => Some (- EIO)
  | pa :: l =>
    if e_tag pa =? ACL_USER_OBJ then
      if i_uid u =? fsuid u then Some (check_perm pa want) else permission_loop u l want found
    else if e_tag pa =? ACL_USER then
      if e_id pa =? fsuid u then Some (mask_loop pa l want) else permission_loop u l want found
    else if e_tag pa =? ACL_GROUP_OBJ then
      b ← in_group_p u (i_gid u);
      if (b : bool) then
        if Z.land (e_perm pa) want =? want then Some (mask_loop pa l want) else permission_loop u l want true
      else permission_loop u l want found
    else if e_tag pa =? ACL_GROUP then
      b ← in_group_p u (e_id pa);
      if (b : bool) then
        if Z.land (e_perm pa) want =? want then Some (mask_loop pa l want) else permission_loop u l want true
      else permission_loop u l want found
    else if e_tag pa =? ACL_MASK then permission_loop u l want found
    else if e_tag pa =? ACL_OTHER then
      Some (if found then - EACCES else check_perm pa want)
    else Some (- EIO)
  end.
Definition posix_acl_permission (u : subject) (l : list posix_acl_entry) (want : Z) : option Z :=
  permission_loop u l want false.

(** ** Creation and chmod

    The loops find the places of the entries of the owning group and of the mask. *)

Definition set_perm (pa : posix_acl_entry) (perm : Z) : posix_acl_entry := Entry (e_tag pa) perm (e_id pa).
(** (entry at [i])->e_perm = f(e_perm) *)
Definition update_perm (l : list posix_acl_entry) (i : nat) (f : Z -> Z) : list posix_acl_entry :=
  alter (fun pa => set_perm pa (f (e_perm pa))) i l.

Record masq := Masq { m_mode : Z; m_not_equiv : bool; group_obj : option nat; mask_obj : option nat }.

(** The entries after the loop from entry [i] on, and its variables, or the error. *)
Fixpoint create_loop (i : nat) (l : list posix_acl_entry) (v : masq) : list posix_acl_entry * option masq :=
  match l with
  | [] => ([], Some v)
  | pa :: l =>
    if e_tag pa =? ACL_USER_OBJ then
      let perm := Z.land (e_perm pa) (Z.lor (Z.shiftr (m_mode v) 6) (Z.lnot S_IRWXO)) in
      let mode := Z.land (m_mode v) (Z.lor (Z.shiftl perm 6) (Z.lnot S_IRWXU)) in
      let '(l, r) := create_loop (S i) l (Masq mode (m_not_equiv v) (group_obj v) (mask_obj v)) in
      (set_perm pa perm :: l, r)
    else if (e_tag pa =? ACL_USER) || (e_tag pa =? ACL_GROUP) then
      let '(l, r) := create_loop (S i) l (Masq (m_mode v) true (group_obj v) (mask_obj v)) in (pa :: l, r)
    else if e_tag pa =? ACL_GROUP_OBJ then
      let '(l, r) := create_loop (S i) l (Masq (m_mode v) (m_not_equiv v) (Some i) (mask_obj v)) in (pa :: l, r)
    else if e_tag pa =? ACL_OTHER then
      let perm := Z.land (e_perm pa) (Z.lor (m_mode v) (Z.lnot S_IRWXO)) in
      let mode := Z.land (m_mode v) (Z.lor perm (Z.lnot S_IRWXO)) in
      let '(l, r) := create_loop (S i) l (Masq mode (m_not_equiv v) (group_obj v) (mask_obj v)) in
      (set_perm pa perm :: l, r)
    else if e_tag pa =? ACL_MASK then
      let '(l, r) := create_loop (S i) l (Masq (m_mode v) true (group_obj v) (Some i)) in (pa :: l, r)
    else (pa :: l, None)
  end.
(** mask_obj or group_obj: &= (mode >> 3) | ~S_IRWXO, and the group bits of the mode. *)
Definition mask_group (l : list posix_acl_entry) (i : nat) (mode : Z) : option (list posix_acl_entry * Z) :=
  let l := update_perm l i (fun p => Z.land p (Z.lor (Z.shiftr mode 3) (Z.lnot S_IRWXO))) in
  pa ← l !! i;
  Some (l, Z.land mode (Z.lor (Z.shiftl (e_perm pa) 3) (Z.lnot S_IRWXG))).
(** The entries, the mode and the result. *)
Definition posix_acl_create_masq (l : list posix_acl_entry) (mode_p : Z) : option (list posix_acl_entry * Z * Z) :=
  let '(l, r) := create_loop 0 l (Masq mode_p false None None) in
  match r with
  | None => Some (l, mode_p, - EIO)
  | Some v =>
    match (match mask_obj v with Some i => Some i | None => group_obj v end) with
    | None => Some (l, mode_p, - EIO)
    | Some i =>
      r ← mask_group l i (m_mode v);
      Some (r.1, Z.lor (Z.land mode_p (Z.lnot S_IRWXUGO)) r.2, if m_not_equiv v then 1 else 0)
    end
  end.

Fixpoint chmod_loop (i : nat) (l : list posix_acl_entry) (mode : Z) (group_obj mask_obj : option nat)
    : list posix_acl_entry * option (option nat * option nat) :=
  match l with
  | [] => ([], Some (group_obj, mask_obj))
  | pa :: l =>
    if e_tag pa =? ACL_USER_OBJ then
      let '(l, r) := chmod_loop (S i) l mode group_obj mask_obj in
      (set_perm pa (Z.shiftr (Z.land mode S_IRWXU) 6) :: l, r)
    else if (e_tag pa =? ACL_USER) || (e_tag pa =? ACL_GROUP) then
      let '(l, r) := chmod_loop (S i) l mode group_obj mask_obj in (pa :: l, r)
    else if e_tag pa =? ACL_GROUP_OBJ then
      let '(l, r) := chmod_loop (S i) l mode (Some i) mask_obj in (pa :: l, r)
    else if e_tag pa =? ACL_MASK then
      let '(l, r) := chmod_loop (S i) l mode group_obj (Some i) in (pa :: l, r)
    else if e_tag pa =? ACL_OTHER then
      let '(l, r) := chmod_loop (S i) l mode group_obj mask_obj in
      (set_perm pa (Z.land mode S_IRWXO) :: l, r)
    else (pa :: l, None)
  end.
Definition posix_acl_chmod_masq (l : list posix_acl_entry) (mode : Z) : list posix_acl_entry * Z :=
  let '(l, r) := chmod_loop 0 l mode None None in
  match r with
  | None => (l, - EIO)
  | Some (group_obj, mask_obj) =>
    match (match mask_obj with Some i => Some i | None => group_obj end) with
    | None => (l, - EIO)
    | Some i => (update_perm l i (fun _ => Z.shiftr (Z.land mode S_IRWXG) 3), 0)
    end
  end.

(** ** Extended attributes

    Little-endian: a version in four bytes, and eight bytes per entry. *)

Definition POSIX_ACL_XATTR_VERSION : Z := 2.

Fixpoint le_bytes (n : nat) (v : Z) : list Z :=
  match n with O => [] | S n => v mod 256 :: le_bytes n (v / 256) end.
Fixpoint of_le (l : list Z) : Z := match l with [] => 0 | b :: l => b + 256 * of_le l end.
(** The number in the [n] bytes from offset [i]. *)
Definition get_le (n i : Z) (b : list Z) : option Z :=
  if (0 <=? i) && (i + n <=? zlen b) then Some (of_le (slice i n b)) else None.

Definition posix_acl_xattr_size (count : Z) : Z := 4 + count * 8.
Definition posix_acl_xattr_count (size : Z) : Z :=
  if size <? 4 then -1 else
  let size := size - 4 in
  if negb (size mod 8 =? 0) then -1 else size / 8.

(** The loop over the entries, [false] is [goto fail]. *)
Fixpoint from_xattr_loop (n : nat) (value : list Z) (i : Z) : option (list posix_acl_entry * bool) :=
  match n with
  | O => Some ([], true)
  | S n =>
    tag ← get_le 2 i value;
    perm ← get_le 2 (i + 2) value;
    let tag := s16 tag in
    if (tag =? ACL_USER_OBJ) || (tag =? ACL_GROUP_OBJ) || (tag =? ACL_MASK) || (tag =? ACL_OTHER) then
      r ← from_xattr_loop n value (i + 8);
      Some (Entry tag perm ACL_UNDEFINED_ID :: r.1, r.2)
    else if (tag =? ACL_USER) || (tag =? ACL_GROUP) then
      id ← get_le 4 (i + 4) value;
      r ← from_xattr_loop n value (i + 8);
      Some (Entry tag perm id :: r.1, r.2)
    else Some ([], false)
  end.
(** [value] holds the [size] bytes, or is NULL. *)
Definition posix_acl_from_xattr (st : store) (value : option (list Z)) (size : Z) : option (store * Z) :=
  match value with
  | None => Some (st, 0)
  | Some value =>
    if size <? 4 then Some (st, - EINVAL) else
    version ← get_le 4 0 value;
    if negb (version =? POSIX_ACL_XATTR_VERSION) then Some (st, - EOPNOTSUPP) else
    let count := posix_acl_xattr_count size in
    if count <? 0 then Some (st, - EINVAL) else
    if count =? 0 then Some (st, 0) else
    let '(st, acl) := posix_acl_alloc st count in
    if acl =? 0 then Some (st, - ENOMEM) else
    r ← from_xattr_loop (Z.to_nat count) value 4;
    if (r.2 : bool) then st ← set_entries st acl r.1; Some (st, acl) else
    st ← posix_acl_release st acl;
    Some (st, - EINVAL)
  end.

Definition xattr_entry (e : posix_acl_entry) : list Z :=
  le_bytes 2 (u16 (e_tag e)) ++ le_bytes 2 (e_perm e) ++ le_bytes 4 (e_id e).
Fixpoint to_xattr_loop (buffer : list Z) (i : Z) (l : list posix_acl_entry) : list Z :=
  match l with
  | [] => buffer
  | e :: l => to_xattr_loop (blit buffer i (xattr_entry e) 0 8) (i + 8) l
  end.
(** The buffer after it, and the result. *)
Definition posix_acl_to_xattr (l : list posix_acl_entry) (buffer : option (list Z)) (size : Z) : option (list Z * Z) :=
  let real_size := posix_acl_xattr_size (zlen l) in
  match buffer with
  | None => Some ([], real_size)
  | Some buffer =>
    if size <? real_size then Some (buffer, - ERANGE) else
    if zlen buffer <? real_size then None else
    Some (to_xattr_loop (blit buffer 0 (le_bytes 4 POSIX_ACL_XATTR_VERSION) 0 4) 4 l, real_size)
  end.

(** ** What a list says

    The entries of a valid list, apart. *)

Record shape := Shape {
  sh_owner : Z; sh_users : list (Z * Z); sh_group : Z; sh_groups : list (Z * Z);
  sh_mask : option Z; sh_other : Z }.

Definition obj (tag perm : Z) : posix_acl_entry := Entry tag perm ACL_UNDEFINED_ID.
Definition named (tag : Z) (x : Z * Z) : posix_acl_entry := Entry tag (snd x) (fst x).
Definition mask_entries (m : option Z) : list posix_acl_entry :=
  match m with Some p => [obj ACL_MASK p] | None => [] end.
Definition tail_entries (gs : list (Z * Z)) (m : option Z) (o : Z) : list posix_acl_entry :=
  map (named ACL_GROUP) gs ++ mask_entries m ++ [obj ACL_OTHER o].
Definition to_entries (s : shape) : list posix_acl_entry :=
  obj ACL_USER_OBJ (sh_owner s) :: map (named ACL_USER) (sh_users s) ++
  obj ACL_GROUP_OBJ (sh_group s) :: tail_entries (sh_groups s) (sh_mask s) (sh_other s).

Definition is_perm (p : Z) : Prop := 0 <= p <= 7.
Definition id_below (a b : Z * Z) : Prop := fst a < fst b.
Definition named_ok (x : Z * Z) : Prop := 0 <= fst x < ACL_UNDEFINED_ID /\ is_perm (snd x).
Definition list_ok (l : list (Z * Z)) : Prop := StronglySorted id_below l /\ Forall named_ok l.
Definition shape_ok (s : shape) : Prop :=
  is_perm (sh_owner s) /\ list_ok (sh_users s) /\ is_perm (sh_group s) /\ list_ok (sh_groups s) /\
  match sh_mask s with Some p => is_perm p | None => sh_users s = [] /\ sh_groups s = [] end /\
  is_perm (sh_other s).

(** Entries as the file makes them: within their fields, and no identifier but of
    a named user or group. *)
Definition normal (e : posix_acl_entry) : Prop :=
  is_u16 (e_perm e) /\ is_u32 (e_id e) /\
  (e_tag e <> ACL_USER -> e_tag e <> ACL_GROUP -> e_id e = ACL_UNDEFINED_ID).

(** ** Validity: lemmas *)

Lemma perm_test p : 0 <= p -> Z.land p (Z.lnot (Z.lor (Z.lor ACL_READ ACL_WRITE) ACL_EXECUTE)) = 0 <-> is_perm p.
Proof.
  intros Hp. change (Z.lor (Z.lor ACL_READ ACL_WRITE) ACL_EXECUTE) with (Z.ones 3).
  rewrite <- Z.ldiff_land, Z.ldiff_ones_r, Z.shiftl_mul_pow2, Z.shiftr_div_pow2 by lia.
  unfold is_perm. Z.to_euclidean_division_equations; lia.
Qed.

(** The constants, for case analysis on tags. *)
Ltac tags := unfold ACL_USER_OBJ, ACL_USER, ACL_GROUP_OBJ, ACL_GROUP, ACL_MASK, ACL_OTHER in *.

Lemma list_ok_cons x l : list_ok (x :: l) <-> named_ok x /\ list_ok l /\ Forall (id_below x) l.
Proof.
  unfold list_ok. rewrite Forall_cons. split.
  - intros [H [? ?]]. inversion H; subst. done.
  - intros (?&[? ?]&?). split; [by constructor|done].
Qed.

Lemma list_ok_nil : list_ok [].
Proof. split; constructor. Qed.
#[export] Hint Resolve list_ok_nil : kernel.

Lemma perm_testb p : 0 <= p -> (Z.land p (Z.lnot (Z.lor (Z.lor ACL_READ ACL_WRITE) ACL_EXECUTE)) =? 0) = (p <=? 7).
Proof.
  intros Hp. pose proof (perm_test p Hp) as Ht. unfold is_perm in Ht. apply eq_true_iff_eq.
  rewrite Z.eqb_eq, Z.leb_le. lia.
Qed.

(** The cases of the loop in the order of the code. *)
Ltac head_cases :=
  simpl;
  repeat match goal with
  | |- (if ?b then _ else _) = 0 -> _ => let E := fresh "E" in destruct b eqn:E; try done
  end; bool_to_prop; subst.

(** The first entry of the loop, by its tag. *)
Ltac first_entry :=
  match goal with He : normal ?e |- context [valid_loop (?e :: _)] =>
    cbn [valid_loop]; rewrite perm_testb by apply He; destruct (Z.leb_spec (e_perm e) 7); simpl negb; cbv iota; [|done];
    let tag := fresh "tag" in let p := fresh "p" in let i := fresh "i" in
    let Hp := fresh "Hp" in let Hi := fresh "Hi" in let Hu := fresh "Hu" in
    destruct e as [tag p i], He as (Hp&Hi&Hu); unfold is_u16, is_u32, ACL_UNDEFINED_ID in Hp, Hi, Hu;
    cbn [e_tag e_perm e_id] in *; tags
  end.

(** The accepting steps. *)
Ltac accept := intros [? Hp%Z.leb_le]; cbn [valid_loop obj named e_perm e_tag fst snd];
  rewrite perm_testb, Hp by done; simpl.
Lemma step_owner p l id nm : is_perm p ->
  valid_loop (obj ACL_USER_OBJ p :: l) ACL_USER_OBJ id nm = valid_loop l ACL_USER 0 nm.
Proof. by accept. Qed.
Lemma step_user x l id nm : is_perm (snd x) -> id <= fst x < ACL_UNDEFINED_ID ->
  valid_loop (named ACL_USER x :: l) ACL_USER id nm = valid_loop l ACL_USER (fst x + 1) true.
Proof.
  accept. intros Hx. destruct (Z.eqb_spec (fst x) ACL_UNDEFINED_ID); [lia|].
  by destruct (Z.ltb_spec (fst x) id); [lia|].
Qed.
Lemma step_gobj p l id nm : is_perm p ->
  valid_loop (obj ACL_GROUP_OBJ p :: l) ACL_USER id nm = valid_loop l ACL_GROUP 0 nm.
Proof. by accept. Qed.
Lemma step_group x l id nm : is_perm (snd x) -> id <= fst x < ACL_UNDEFINED_ID ->
  valid_loop (named ACL_GROUP x :: l) ACL_GROUP id nm = valid_loop l ACL_GROUP (fst x + 1) true.
Proof.
  accept. intros Hx. destruct (Z.eqb_spec (fst x) ACL_UNDEFINED_ID); [lia|].
  by destruct (Z.ltb_spec (fst x) id); [lia|].
Qed.
Lemma step_mask p l id nm : is_perm p ->
  valid_loop (obj ACL_MASK p :: l) ACL_GROUP id nm = valid_loop l ACL_OTHER id nm.
Proof. by accept. Qed.
Lemma step_other p state l id nm : is_perm p -> (state =? ACL_OTHER) || ((state =? ACL_GROUP) && negb nm) = true ->
  valid_loop (obj ACL_OTHER p :: l) state id nm = valid_loop l 0 id nm.
Proof. accept. intros Hst. tags. by rewrite Hst. Qed.

Lemma valid_end l id nm : Forall normal l -> valid_loop l 0 id nm = 0 <-> l = [].
Proof.
  intros Hn. split; [|by intros ->]. destruct Hn as [|e l He Hn]; [done|]. first_entry. by head_cases.
Qed.

Lemma valid_other l id nm : Forall normal l ->
  valid_loop l ACL_OTHER id nm = 0 <-> exists o, l = [obj ACL_OTHER o] /\ is_perm o.
Proof.
  intros Hn. split.
  - destruct Hn as [|e l He Hn]; [done|]. first_entry. head_cases. intros ->%valid_end; [|done]. exists p.
    unfold obj, ACL_UNDEFINED_ID, is_perm. rewrite Hu by done. split; [done|lia].
  - intros (o&->&Ho). by rewrite step_other.
Qed.

(** The mask may be missing when no entry is named. *)
Definition mask_ok (m : option Z) (needs_mask : bool) : Prop :=
  match m with Some p => is_perm p | None => needs_mask = false end.

Lemma valid_group l : forall id nm, Forall normal l -> 0 <= id ->
  valid_loop l ACL_GROUP id nm = 0 <-> exists gs m o, l = tail_entries gs m o /\ list_ok gs /\
    Forall (fun x => id <= fst x) gs /\ mask_ok m (nm || negb (bool_decide (gs = []))) /\ is_perm o.
Proof.
  induction l as [|e l IH]; intros id nm Hn Hid.
  { split; [done|]. intros (gs&m&o&He&_). unfold tail_entries in He. destruct gs, m; discriminate. }
  inversion Hn as [|? ? He Hl]; subst. split.
  - first_entry. head_cases.
    + intros (gs&m&o&->&Hgs&Hid'&Hm&Ho)%IH; [|done|lia]. exists ((i, p) :: gs), m, o.
      split; [done|]. rewrite list_ok_cons, Forall_cons. cbn [fst]. unfold named_ok, is_perm. cbn [fst snd].
      split_and!; try done; try lia; try apply Hg; try apply Ho.
      * unfold ACL_UNDEFINED_ID in *. lia.
      * eapply Forall_impl; [exact Hid'|]. intros x Hx. unfold id_below. simpl in *. lia.
      * eapply Forall_impl; [exact Hid'|]. simpl. lia.
      * rewrite orb_true_r. done.
    + intros (o&->&Ho)%valid_other; [|done]. exists [], (Some p), o. unfold tail_entries, mask_entries, obj, ACL_UNDEFINED_ID.
      rewrite Hu by done. split; [done|]. split_and!; auto with kernel; unfold mask_ok, is_perm; lia.
    + intros ->%valid_end; [|done]. exists [], None, p.
      unfold tail_entries, obj, ACL_UNDEFINED_ID. rewrite Hu by done. unfold is_perm.
      split_and!; auto with kernel; try lia; done.
  - intros (gs&m&o&Heq&Hgs&Hid'&Hm&Ho). unfold tail_entries in Heq. destruct gs as [|x gs]; [destruct m as [p|]|].
    + injection Heq as -> ->. rewrite step_mask by done. apply valid_other; [by inversion Hn|]. by exists o.
    + injection Heq as -> ->. simpl in Hm. rewrite orb_false_r in Hm. subst. by rewrite step_other.
    + injection Heq as -> ->. apply list_ok_cons in Hgs as ([Hi Hp]&Hgs&Hlt).
      apply Forall_cons in Hid' as [Hii Hid']. rewrite step_group by (done || lia).
      apply IH; [done|lia|]. exists gs, m, o. split; [done|]. split; [done|]. split; [|split; [|done]].
      * eapply Forall_impl; [exact Hlt|]. intros y Hy. unfold id_below in Hy. lia.
      * simpl in Hm. rewrite orb_true_r in Hm. done.
Qed.

Lemma valid_user l : forall id nm, Forall normal l -> 0 <= id ->
  valid_loop l ACL_USER id nm = 0 <-> exists us g gs m o,
    l = map (named ACL_USER) us ++ obj ACL_GROUP_OBJ g :: tail_entries gs m o /\ list_ok us /\
    Forall (fun x => id <= fst x) us /\ is_perm g /\ list_ok gs /\
    mask_ok m (nm || negb (bool_decide (us = [])) || negb (bool_decide (gs = []))) /\ is_perm o.
Proof.
  induction l as [|e l IH]; intros id nm Hn Hid.
  { split; [done|]. intros ([|u us]&g&gs&m&o&He&_); discriminate. }
  inversion Hn as [|? ? He Hl]; subst. split.
  - first_entry. head_cases.
    + intros (us&g&gs&m&o&->&Hus&Hid'&Hg&Hgs&Hm&Ho)%IH; [|done|lia]. exists ((i, p) :: us), g, gs, m, o.
      split; [done|]. rewrite list_ok_cons, Forall_cons. cbn [fst]. unfold named_ok, is_perm. cbn [fst snd].
      split_and!; try done; try lia; try apply Hg; try apply Ho.
      * unfold ACL_UNDEFINED_ID in *. lia.
      * eapply Forall_impl; [exact Hid'|]. intros x Hx. unfold id_below. simpl in *. lia.
      * eapply Forall_impl; [exact Hid'|]. simpl. lia.
      * rewrite orb_true_r. done.
    + intros (gs&m&o&->&Hgs&_&Hm&Ho)%valid_group; [|done|lia]. exists [], p, gs, m, o.
      unfold obj, ACL_UNDEFINED_ID. rewrite Hu by done. split; [done|]. unfold is_perm.
      change (negb (bool_decide (@nil (Z * Z) = []))) with false. rewrite orb_false_r.
      unfold is_perm in *. split_and!; auto with kernel; lia.
  - intros (us&g&gs&m&o&Heq&Hus&Hid'&Hg&Hgs&Hm&Ho). destruct us as [|x us].
    + injection Heq as -> ->. rewrite step_gobj by done. simpl in Hm. rewrite orb_false_r in Hm.
      apply valid_group; [by inversion Hn|lia|]. exists gs, m, o. split_and!; try done.
      eapply Forall_impl; [exact (proj2 Hgs)|]. intros x [? _]. lia.
    + injection Heq as -> ->. apply list_ok_cons in Hus as ([Hi Hp]&Hus&Hlt).
      apply Forall_cons in Hid' as [Hii Hid']. rewrite step_user by (done || lia).
      apply IH; [done|lia|]. exists us, g, gs, m, o. split; [done|]. split; [done|]. split; [|split_and!; try done].
      * eapply Forall_impl; [exact Hlt|]. intros y Hy. unfold id_below in Hy. lia.
      * simpl in Hm. rewrite orb_true_r in Hm. done.
Qed.

(** Exactly the lists with a shape are valid. *)
Lemma valid_shape l : Forall normal l -> posix_acl_valid l = 0 <-> exists s, shape_ok s /\ l = to_entries s.
Proof.
  intros Hn. unfold posix_acl_valid. split.
  - destruct Hn as [|e l He Hn]; [done|]. first_entry. head_cases.
    intros (us&g&gs&m&o&->&Hus&_&Hg&Hgs&Hm&Ho)%valid_user; [|done|lia].
    exists (Shape p us g gs m o). unfold shape_ok, to_entries, obj, ACL_UNDEFINED_ID, is_perm. cbn.
    rewrite Hu by done. split; [|done]. split_and!; try done; try lia; try apply Hg; try apply Ho.
    destruct m as [m|]; [exact Hm|]. simpl in Hm. apply orb_false_iff in Hm as [H1 H2].
    by apply negb_false_iff, bool_decide_eq_true in H1, H2.
  - intros (s&(Ho&Hus&Hg&Hgs&Hm&Hot)&->). inversion Hn as [|? ? He Hl]; subst.
    unfold to_entries. rewrite step_owner by done. apply valid_user; [done|lia|]. eexists _, _, _, _, _. split; [done|]. split; [done|].
    split; [eapply Forall_impl; [exact (proj2 Hus)|]; intros x [? _]; lia|].
    split_and!; try done. destruct (sh_mask s); [exact Hm|]. destruct Hm as [-> ->]. done.
Qed.

Lemma valid_results l : forall state id nm, valid_loop l state id nm = 0 \/ valid_loop l state id nm = - EINVAL.
Proof.
  induction l as [|e l IH]; intros state id nm; cbn [valid_loop];
    repeat match goal with |- context [if ?b then _ else _] => destruct b end; auto.
Qed.

(** ** Permission bits: lemmas *)

(** The three bits of a class, at 6 for the owner, 3 for the group and 0 for the others. *)
Definition cls (k mode : Z) : Z := Z.land (Z.shiftr mode k) 7.
(** A mode from its other bits and the three classes. *)
Definition mode_of (rest o g t : Z) : Z :=
  Z.lor (Z.land rest (Z.lnot S_IRWXUGO)) (Z.lor (Z.lor (Z.shiftl o 6) (Z.shiftl g 3)) t).

Lemma testbit_7 i : Z.testbit 7 i = (0 <=? i) && (i <? 3).
Proof. by apply (ones_testbit 3). Qed.
Lemma testbit_56 i : Z.testbit 56 i = (0 <=? i) && (3 <=? i) && (i <? 6).
Proof.
  change 56 with (Z.shiftl (Z.ones 3) 3). rewrite shiftl_testbit, ones_testbit by lia. zcases; simpl; (done || lia).
Qed.
Lemma testbit_448 i : Z.testbit 448 i = (0 <=? i) && (6 <=? i) && (i <? 9).
Proof.
  change 448 with (Z.shiftl (Z.ones 3) 6). rewrite shiftl_testbit, ones_testbit by lia. zcases; simpl; (done || lia).
Qed.
Lemma testbit_511 i : Z.testbit 511 i = (0 <=? i) && (i <? 9).
Proof. by apply (ones_testbit 9). Qed.

Lemma perm_bit p i : is_perm p -> Z.testbit p i = true -> 0 <= i < 3.
Proof.
  intros Hp H. destruct (Z.ltb_spec i 0); [by rewrite Z.testbit_neg_r in H|].
  destruct (Z.ltb_spec i 3); [lia|]. unfold is_perm in Hp. rewrite (testbit_high p 3) in H; [done| |lia]. lia.
Qed.

(** Equality of modes, bit by bit; the permissions are the [is_perm] of the context. *)
Ltac mode_bits :=
  unfold mode_of, cls, S_IRWXU, S_IRWXG, S_IRWXO, S_IRWXUGO;
  apply Z.bits_inj'; let i := fresh "i" in let Hi := fresh "Hi" in intros i Hi;
  repeat (rewrite ?testbit_7, ?testbit_56, ?testbit_448, ?testbit_511; autorewrite with kbits);
  replace (i - 6 + 6) with i by lia; replace (i - 3 + 3) with i by lia;
  replace (i + 6 - 6) with i by lia; replace (i + 3 - 3) with i by lia; rewrite ?Z.add_0_r;
  zcases; try lia; simpl;
  repeat match goal with |- context [Z.testbit ?x ?j] => destruct (Z.testbit x j) eqn:? end; simpl; try done;
  exfalso; repeat match goal with Hp : is_perm ?p, E : Z.testbit ?p ?j = true |- _ => apply (perm_bit p j Hp) in E end; lia.

Lemma cls_perm k mode : is_perm (cls k mode).
Proof.
  unfold cls, is_perm. change 7 with (Z.ones 3) at 1 2. rewrite Z.land_ones by lia.
  pose proof (Z.mod_pos_bound (Z.shiftr mode k) (2 ^ 3) ltac:(lia)). lia.
Qed.
Lemma land_perm p q : is_perm p -> 0 <= q -> is_perm (Z.land p q).
Proof.
  intros Hp Hq. split; [apply Z.land_nonneg; left; apply Hp|].
  assert (Z.land p q < 2 ^ 3); [|lia]. apply bounded_of_bits; [lia|apply Z.land_nonneg; by left; apply Hp|].
  intros i Hi. rewrite Z.land_spec, (testbit_high p 3); [done| |done]. unfold is_perm in Hp. lia.
Qed.
#[export] Hint Resolve cls_perm land_perm : kernel.

Lemma cls_mode_6 r o g t : is_perm o -> is_perm g -> is_perm t -> cls 6 (mode_of r o g t) = o.
Proof. intros. mode_bits. Qed.
Lemma cls_mode_3 r o g t : is_perm o -> is_perm g -> is_perm t -> cls 3 (mode_of r o g t) = g.
Proof. intros. mode_bits. Qed.
Lemma cls_mode_0 r o g t : is_perm o -> is_perm g -> is_perm t -> cls 0 (mode_of r o g t) = t.
Proof. intros. mode_bits. Qed.
Lemma mode_cls m : mode_of m (cls 6 m) (cls 3 m) (cls 0 m) = m.
Proof. mode_bits. Qed.
Lemma mode_of_rest r o g t o' g' t' : is_perm o' -> is_perm g' -> is_perm t' ->
  mode_of (mode_of r o' g' t') o g t = mode_of r o g t.
Proof. intros. mode_bits. Qed.

(** ** Permission bits of a list *)

Definition group_class (s : shape) : Z := default (sh_group s) (sh_mask s).
Definition extended (s : shape) : bool :=
  negb (bool_decide (sh_users s = [])) || negb (bool_decide (sh_groups s = [])) || bool_decide (is_Some (sh_mask s)).
Definition shape_mode (rest : Z) (s : shape) : Z := mode_of rest (sh_owner s) (group_class s) (sh_other s).
(** The list with other bits for owner, group class and others. *)
Definition with_classes (s : shape) (o g t : Z) : shape :=
  Shape o (sh_users s) (match sh_mask s with Some _ => sh_group s | None => g end) (sh_groups s)
    ((fun _ => g) <$> sh_mask s) t.
Definition chmod_shape (s : shape) (m : Z) : shape := with_classes s (cls 6 m) (cls 3 m) (cls 0 m).
Definition create_shape (s : shape) (m : Z) : shape :=
  with_classes s (Z.land (sh_owner s) (cls 6 m)) (Z.land (group_class s) (cls 3 m)) (Z.land (sh_other s) (cls 0 m)).

Lemma group_class_perm s : shape_ok s -> is_perm (group_class s).
Proof. intros (_&_&Hg&_&Hm&_). unfold group_class. by destruct (sh_mask s). Qed.

Lemma with_classes_ok s o g t : shape_ok s -> is_perm o -> is_perm g -> is_perm t -> shape_ok (with_classes s o g t).
Proof. intros (?&?&?&?&Hm&?) ???. unfold shape_ok. simpl. destruct (sh_mask s); by split_and!. Qed.

Lemma with_classes_mode s r o g t : shape_mode r (with_classes s o g t) = mode_of r o g t.
Proof. unfold shape_mode, group_class. simpl. by destruct (sh_mask s). Qed.
Lemma with_classes_extended s o g t : extended (with_classes s o g t) = extended s.
Proof. unfold extended. simpl. by destruct (sh_mask s). Qed.

Lemma normal_entries s : shape_ok s -> Forall normal (to_entries s).
Proof.
  intros (Ho&[_ Hus]&Hg&[_ Hgs]&Hm&Hot).
  assert (Hobj : forall tag p, is_perm p -> normal (obj tag p)).
  { intros tag p Hp. unfold normal, obj, is_u16, is_u32, ACL_UNDEFINED_ID, is_perm in *. simpl. split_and!; (done || lia). }
  assert (Hnamed : forall tag l, tag = ACL_USER \/ tag = ACL_GROUP -> Forall named_ok l -> Forall normal (map (named tag) l)).
  { intros tag l Ht Hl. apply Forall_fmap. eapply Forall_impl; [exact Hl|]. intros [i p] [Hi Hp].
    unfold normal, is_u16, is_u32, ACL_UNDEFINED_ID, is_perm in *. simpl in *. split_and!; by (lia || naive_solver). }
  unfold to_entries, tail_entries. constructor; [auto|]. apply Forall_app; split; [auto|]. constructor; [auto|].
  apply Forall_app; split; [auto|]. apply Forall_app; split; [|by constructor; auto].
  destruct (sh_mask s); simpl; auto.
Qed.

(** *** posix_acl_equiv_mode *)

Lemma land_7 p : is_perm p -> Z.land p 7 = p.
Proof. intros Hp. change 7 with (Z.ones 3). rewrite Z.land_ones by lia. unfold is_perm in Hp. rewrite Z.mod_small; lia. Qed.

Lemma equiv_named tag us l mode ne : tag = ACL_USER \/ tag = ACL_GROUP ->
  equiv_loop (map (named tag) us ++ l) mode ne = equiv_loop l mode (ne || negb (bool_decide (us = []))).
Proof.
  intros Ht. revert ne. induction us as [|u us IH]; intros ne; [simpl; by rewrite orb_false_r|]. cbn [map app].
  assert (Hs : forall r, equiv_loop (named tag u :: r) mode ne = equiv_loop r mode true) by by destruct Ht as [-> | ->].
  rewrite Hs, IH. change (negb (bool_decide (u :: us = []))) with true. by rewrite orb_true_r.
Qed.

Lemma equiv_mode_shape s m : shape_ok s ->
  posix_acl_equiv_mode (to_entries s) m = (shape_mode m s, if extended s then 1 else 0).
Proof.
  intros Hs. destruct Hs as (Ho&_&Hg&_&Hm&Hot). unfold posix_acl_equiv_mode, to_entries, tail_entries.
  cbn [equiv_loop obj e_tag e_perm]. change (ACL_USER_OBJ =? ACL_USER_OBJ) with true. cbv iota.
  rewrite equiv_named by by left.
  cbn [equiv_loop obj e_tag e_perm]. change (ACL_GROUP_OBJ =? ACL_USER_OBJ) with false.
  change (ACL_GROUP_OBJ =? ACL_GROUP_OBJ) with true. cbv iota.
  rewrite equiv_named by by right. unfold shape_mode, group_class, extended.
  destruct (sh_mask s) as [p|]; simpl; f_equal; try by rewrite ?orb_false_r, ?orb_true_r.
  - unfold S_IRWXO. rewrite !land_7 by done. mode_bits.
  - unfold S_IRWXO. rewrite !land_7 by done. mode_bits.
Qed.

(** *** posix_acl_chmod_masq *)

Lemma chmod_named tag us l mode i g m : tag = ACL_USER \/ tag = ACL_GROUP ->
  chmod_loop i (map (named tag) us ++ l) mode g m =
  let '(l, r) := chmod_loop (length us + i) l mode g m in (map (named tag) us ++ l, r).
Proof.
  intros Ht. revert i. induction us as [|u us IH]; intros i; [simpl; by destruct chmod_loop|]. cbn [map app length].
  assert (Hs : forall r, chmod_loop i (named tag u :: r) mode g m =
    let '(l, x) := chmod_loop (S i) r mode g m in (named tag u :: l, x)) by by destruct Ht as [-> | ->].
  rewrite Hs, IH, Nat.add_succ_r, Nat.add_succ_l. by destruct chmod_loop.
Qed.

Lemma update_at l1 e l2 n f : n = length l1 -> update_perm (l1 ++ e :: l2) n f = l1 ++ set_perm e (f (e_perm e)) :: l2.
Proof.
  intros ->. unfold update_perm. induction l1 as [|x l1 IH]; simpl; [done|]. by f_equal.
Qed.

(** The entries with the places of the owning group and of the mask. *)
Lemma entries_group s : to_entries s =
  (obj ACL_USER_OBJ (sh_owner s) :: map (named ACL_USER) (sh_users s)) ++
  obj ACL_GROUP_OBJ (sh_group s) :: tail_entries (sh_groups s) (sh_mask s) (sh_other s).
Proof. done. Qed.
Lemma entries_mask s p : sh_mask s = Some p -> to_entries s =
  (obj ACL_USER_OBJ (sh_owner s) :: map (named ACL_USER) (sh_users s) ++
   obj ACL_GROUP_OBJ (sh_group s) :: map (named ACL_GROUP) (sh_groups s)) ++
  obj ACL_MASK p :: [obj ACL_OTHER (sh_other s)].
Proof. intros H. unfold to_entries, tail_entries. rewrite H. simpl. by rewrite <- app_assoc. Qed.

Lemma chmod_loop_shape s m : exists k, k = S (length (sh_users s)) /\
  chmod_loop 0 (to_entries s) m None None =
    (to_entries (Shape (Z.shiftr (Z.land m S_IRWXU) 6) (sh_users s) (sh_group s) (sh_groups s) (sh_mask s) (Z.land m S_IRWXO)),
     Some (Some k, (fun _ => (length (sh_groups s) + S k)%nat) <$> sh_mask s)).
Proof.
  eexists. split; [done|]. unfold to_entries, tail_entries. cbn [chmod_loop obj e_tag].
  change (ACL_USER_OBJ =? ACL_USER_OBJ) with true. cbv iota. rewrite chmod_named by by left.
  cbn [chmod_loop obj e_tag]. change (ACL_GROUP_OBJ =? ACL_USER_OBJ) with false.
  change ((ACL_GROUP_OBJ =? ACL_USER) || (ACL_GROUP_OBJ =? ACL_GROUP)) with false.
  change (ACL_GROUP_OBJ =? ACL_GROUP_OBJ) with true. cbv iota. rewrite chmod_named by by right.
  rewrite Nat.add_1_r. by destruct (sh_mask s).
Qed.

Lemma shift_class_6 m : Z.shiftr (Z.land m S_IRWXU) 6 = cls 6 m.
Proof. mode_bits. Qed.
Lemma shift_class_3 m : Z.shiftr (Z.land m S_IRWXG) 3 = cls 3 m.
Proof. mode_bits. Qed.
Lemma shift_class_0 m : Z.land m S_IRWXO = cls 0 m.
Proof. mode_bits. Qed.

(** The place of the mask, or without one of the owning group, and changing it. *)
Definition class_index (s : shape) : nat :=
  match sh_mask s with
  | Some _ => (length (sh_groups s) + S (S (length (sh_users s))))%nat
  | None => S (length (sh_users s))
  end.

Lemma update_group s f o t :
  let l := update_perm (to_entries (Shape o (sh_users s) (sh_group s) (sh_groups s) (sh_mask s) t)) (class_index s) f in
  l = to_entries (with_classes s o (f (group_class s)) t) /\ e_perm <$> l !! class_index s = Some (f (group_class s)).
Proof.
  intros l. assert (Hat : forall l1 e l2, to_entries (Shape o (sh_users s) (sh_group s) (sh_groups s) (sh_mask s) t) = l1 ++ e :: l2 ->
    class_index s = length l1 -> e_perm e = group_class s ->
    to_entries (with_classes s o (f (group_class s)) t) = l1 ++ set_perm e (f (e_perm e)) :: l2 ->
    l = to_entries (with_classes s o (f (group_class s)) t) /\ e_perm <$> l !! class_index s = Some (f (group_class s))).
  { intros l1 e l2 He Hi Hp Hw. assert (Hl : l = l1 ++ set_perm e (f (e_perm e)) :: l2)
      by (subst l; rewrite He; by apply update_at).
    split; [by rewrite Hl|]. rewrite Hl, list_lookup_middle by done. simpl. by rewrite Hp. }
  unfold group_class, with_classes, class_index in *. destruct (sh_mask s) as [p|] eqn:Hm.
  - eapply Hat; [by apply (entries_mask _ p)|..].
    + simpl. rewrite length_app. simpl. rewrite !length_map. lia.
    + done.
    + by rewrite (entries_mask _ (f p)).
  - eapply Hat; [apply entries_group|simpl; by rewrite length_map|done|done].
Qed.

Lemma chmod_masq_shape s m : posix_acl_chmod_masq (to_entries s) m = (to_entries (chmod_shape s m), 0).
Proof.
  unfold posix_acl_chmod_masq. destruct (chmod_loop_shape s m) as (k&Hk&->).
  rewrite shift_class_6, shift_class_0, shift_class_3 in *.
  destruct (update_group s (fun _ => cls 3 m) (cls 6 m) (cls 0 m)) as [He _].
  unfold chmod_shape. rewrite <- He. unfold class_index. subst k. by destruct (sh_mask s).
Qed.

(** *** posix_acl_create_masq *)

Lemma create_named tag us l i v : tag = ACL_USER \/ tag = ACL_GROUP ->
  create_loop i (map (named tag) us ++ l) v =
  let '(l, r) := create_loop (length us + i) l
    (Masq (m_mode v) (m_not_equiv v || negb (bool_decide (us = []))) (group_obj v) (mask_obj v)) in
  (map (named tag) us ++ l, r).
Proof.
  intros Ht. revert i v. induction us as [|u us IH]; intros i v.
  { simpl. rewrite orb_false_r. destruct v; simpl. by destruct create_loop. }
  cbn [map app length].
  assert (Hs : forall r, create_loop i (named tag u :: r) v =
    let '(l, x) := create_loop (S i) r (Masq (m_mode v) true (group_obj v) (mask_obj v)) in (named tag u :: l, x))
    by by destruct Ht as [-> | ->].
  rewrite Hs, IH, Nat.add_succ_r, Nat.add_succ_l. cbn [m_mode m_not_equiv group_obj mask_obj].
  change (negb (bool_decide (u :: us = []))) with true. rewrite orb_true_r. simpl orb. by destruct create_loop.
Qed.

Lemma narrow_owner o m : is_perm o -> Z.land o (Z.lor (Z.shiftr m 6) (Z.lnot S_IRWXO)) = Z.land o (cls 6 m).
Proof. intros. mode_bits. Qed.
Lemma narrow_owner_mode o m : is_perm o ->
  Z.land m (Z.lor (Z.shiftl (Z.land o (cls 6 m)) 6) (Z.lnot S_IRWXU)) = mode_of m (Z.land o (cls 6 m)) (cls 3 m) (cls 0 m).
Proof. intros. mode_bits. Qed.
Lemma narrow_other t m o : is_perm t -> is_perm o ->
  Z.land t (Z.lor (mode_of m o (cls 3 m) (cls 0 m)) (Z.lnot S_IRWXO)) = Z.land t (cls 0 m).
Proof. intros. mode_bits. Qed.
Lemma narrow_other_mode t m o : is_perm t -> is_perm o ->
  Z.land (mode_of m o (cls 3 m) (cls 0 m)) (Z.lor (Z.land t (cls 0 m)) (Z.lnot S_IRWXO)) =
  mode_of m o (cls 3 m) (Z.land t (cls 0 m)).
Proof. intros. mode_bits. Qed.
Lemma narrow_group g m o t : is_perm g -> is_perm o -> is_perm t ->
  Z.land g (Z.lor (Z.shiftr (mode_of m o (cls 3 m) t) 3) (Z.lnot S_IRWXO)) = Z.land g (cls 3 m).
Proof. intros. mode_bits. Qed.
Lemma narrow_group_mode g m o t : is_perm g -> is_perm o -> is_perm t ->
  Z.lor (Z.land m (Z.lnot S_IRWXUGO))
    (Z.land (mode_of m o (cls 3 m) t) (Z.lor (Z.shiftl (Z.land g (cls 3 m)) 3) (Z.lnot S_IRWXG))) =
  mode_of m o (Z.land g (cls 3 m)) t.
Proof. intros. mode_bits. Qed.

Lemma create_loop_shape s m : shape_ok s -> exists k, k = S (length (sh_users s)) /\
  create_loop 0 (to_entries s) (Masq m false None None) =
    (to_entries (Shape (Z.land (sh_owner s) (cls 6 m)) (sh_users s) (sh_group s) (sh_groups s) (sh_mask s)
       (Z.land (sh_other s) (cls 0 m))),
     Some (Masq (mode_of m (Z.land (sh_owner s) (cls 6 m)) (cls 3 m) (Z.land (sh_other s) (cls 0 m))) (extended s)
       (Some k) ((fun _ => (length (sh_groups s) + S k)%nat) <$> sh_mask s))).
Proof.
  intros (Ho&_&Hg&_&_&Hot). assert (is_perm (Z.land (sh_owner s) (cls 6 m))).
  { apply land_perm; [done|]. apply (cls_perm 6 m). }
  eexists. split; [done|]. unfold to_entries, tail_entries. cbn [create_loop obj e_tag e_perm m_mode set_perm].
  change (ACL_USER_OBJ =? ACL_USER_OBJ) with true. cbv iota. rewrite narrow_owner, narrow_owner_mode by done.
  rewrite create_named by by left.
  cbn [create_loop obj e_tag]. change (ACL_GROUP_OBJ =? ACL_USER_OBJ) with false.
  change ((ACL_GROUP_OBJ =? ACL_USER) || (ACL_GROUP_OBJ =? ACL_GROUP)) with false.
  change (ACL_GROUP_OBJ =? ACL_GROUP_OBJ) with true. cbv iota. rewrite create_named by by right.
  rewrite Nat.add_1_r. unfold extended. destruct (sh_mask s); simpl; unfold set_perm; simpl;
    rewrite narrow_other, narrow_other_mode by done; rewrite ?orb_true_r, ?orb_false_r; done.
Qed.

Lemma create_masq_shape s m : shape_ok s -> posix_acl_create_masq (to_entries s) m =
  Some (to_entries (create_shape s m), shape_mode m (create_shape s m), if extended s then 1 else 0).
Proof.
  intros Hs. pose proof Hs as (Ho&_&Hg&_&_&Hot). pose proof (group_class_perm s Hs) as Hgc.
  assert (Ho' : is_perm (Z.land (sh_owner s) (cls 6 m))) by (apply land_perm; [done|apply (cls_perm 6 m)]).
  assert (Ht' : is_perm (Z.land (sh_other s) (cls 0 m))) by (apply land_perm; [done|apply (cls_perm 0 m)]).
  unfold posix_acl_create_masq. destruct (create_loop_shape s m Hs) as (k&Hk&->).
  cbn [mask_obj group_obj m_mode m_not_equiv].
  set (i := match (fun _ => _) <$> sh_mask s with Some i => Some i | None => Some k end).
  assert (Hi : i = Some (class_index s)) by (subst i k; unfold class_index; by destruct (sh_mask s)).
  rewrite Hi. unfold mask_group. clear Hi i.
  destruct (update_group s (fun p => Z.land p (Z.lor (Z.shiftr (mode_of m (Z.land (sh_owner s) (cls 6 m)) (cls 3 m)
      (Z.land (sh_other s) (cls 0 m))) 3) (Z.lnot S_IRWXO)))
    (Z.land (sh_owner s) (cls 6 m)) (Z.land (sh_other s) (cls 0 m))) as [He Hp].
  cbv zeta in *. rewrite narrow_group in He, Hp by done. rewrite He in *.
  destruct (to_entries _ !! _) as [e|] eqn:El in Hp |- *; [|done]. simpl in Hp. injection Hp as Hp. rewrite some_bind, Hp, some_bind.
  cbn [fst snd]. rewrite narrow_group_mode by done. unfold create_shape. by rewrite with_classes_mode.
Qed.

(** ** The decision

    What POSIX 1003.1e asks for: the owner entry for the owner, the entry of a named
    user within the mask for that user, one of the entries of the groups of the task
    within the mask if there are any, and the entry of the others for the rest. *)

Definition fits (perm want : Z) : bool := Z.land perm want =? want.
Definition masked (s : shape) (p : Z) : Z := match sh_mask s with Some m => Z.land p m | None => p end.
Definition user_entry (s : shape) (uid : Z) : option (Z * Z) := List.find (fun x => fst x =? uid) (sh_users s).
(** The permissions of the matching group entries. *)
Definition group_perms (s : shape) (gid : Z) (member : Z -> bool) : list Z :=
  (if member gid then [sh_group s] else []) ++ map snd (List.filter (fun x => member (fst x)) (sh_groups s)).

Definition acl_allows (s : shape) (uid gid who : Z) (member : Z -> bool) (want : Z) : bool :=
  if uid =? who then fits (sh_owner s) want else
  match user_entry s who with
  | Some x => fits (masked s (snd x)) want
  | None =>
    match group_perms s gid member with
    | [] => fits (sh_other s) want
    | ps => existsb (fun p => fits (masked s p) want) ps
    end
  end.
(** The class of a task: the place of its bits in the mode. *)
Definition class_of (s : shape) (uid gid who : Z) (member : Z -> bool) : Z :=
  if uid =? who then 6 else
  match user_entry s who, group_perms s gid member with
  | None, [] => 0
  | _, _ => 3
  end.

Lemma fits_land p q w : fits (Z.land p q) w = fits p w && fits q w.
Proof.
  unfold fits. apply eq_true_iff_eq. rewrite andb_true_iff, !Z.eqb_eq. split.
  - intros H. split; apply Z.bits_inj'; intros i Hi; apply (f_equal (fun z => Z.testbit z i)) in H;
      rewrite !Z.land_spec in *; by destruct (Z.testbit p i), (Z.testbit q i), (Z.testbit w i).
  - intros [H1 H2]. by rewrite <- Z.land_assoc, H2, H1.
Qed.

Lemma fits_masked s p w : fits (masked s p) w = fits p w && match sh_mask s with Some m => fits m w | None => true end.
Proof. unfold masked. destruct (sh_mask s); [apply fits_land|by rewrite andb_true_r]. Qed.

Lemma mask_loop_named pa tag xs l want : tag = ACL_USER \/ tag = ACL_GROUP ->
  mask_loop pa (map (named tag) xs ++ l) want = mask_loop pa l want.
Proof. intros Ht. induction xs as [|x xs IH]; [done|]. cbn [map app]. by destruct Ht as [-> | ->]. Qed.

Lemma mask_loop_tail pa s want :
  mask_loop pa (mask_entries (sh_mask s) ++ [obj ACL_OTHER (sh_other s)]) want =
  if fits (masked s (e_perm pa)) want then 0 else - EACCES.
Proof. unfold masked, fits. by destruct (sh_mask s). Qed.

Section decide.
  Context (u : subject) (member : Z -> bool) (want : Z).
  Hypothesis Hgroups : forall g, in_group_p u g = Some (member g).

Lemma loop_users us l found :
  permission_loop u (map (named ACL_USER) us ++ l) want found =
  match List.find (fun x => fst x =? fsuid u) us with
  | Some x => Some (mask_loop (named ACL_USER x) l want)
  | None => permission_loop u l want found
  end.
Proof.
  induction us as [|x us IH]; [done|]. cbn [map app List.find].
  cbn [permission_loop named e_tag e_id]. change (ACL_USER =? ACL_USER_OBJ) with false.
  change (ACL_USER =? ACL_USER) with true. cbv iota. destruct (fst x =? fsuid u); [|exact IH].
  f_equal. apply mask_loop_named. by left.
Qed.

Lemma loop_groups gs s found :
  permission_loop u (map (named ACL_GROUP) gs ++ mask_entries (sh_mask s) ++ [obj ACL_OTHER (sh_other s)]) want found =
  let ps := map snd (List.filter (fun x => member (fst x)) gs) in
  Some (if existsb (fun p => fits p want) ps
        then if match sh_mask s with Some m => fits m want | None => true end then 0 else - EACCES
        else if found || negb (bool_decide (ps = [])) then - EACCES
        else if fits (sh_other s) want then 0 else - EACCES).
Proof.
  revert found. induction gs as [|x gs IH]; intros found; cbv zeta.
  { cbn [map app List.filter existsb]. rewrite orb_false_r. by destruct (sh_mask s). }
  cbn [map app List.filter]. cbn [permission_loop named e_tag e_id].
  change (ACL_GROUP =? ACL_USER_OBJ) with false. change (ACL_GROUP =? ACL_USER) with false.
  change (ACL_GROUP =? ACL_GROUP_OBJ) with false. change (ACL_GROUP =? ACL_GROUP) with true. cbv iota.
  rewrite Hgroups, some_bind. destruct (member (fst x)); [|apply IH]. cbn [map existsb].
  change (negb (bool_decide (snd x :: map snd (List.filter (fun x => member (fst x)) gs) = []))) with true.
  rewrite orb_true_r. change (Z.land (e_perm _) want =? want) with (fits (snd x) want).
  destruct (fits (snd x) want) eqn:Hf; simpl orb; cbv iota.
  - f_equal. rewrite mask_loop_named, mask_loop_tail by by right. cbn [e_perm].
    change (e_perm (named ACL_GROUP x)) with (snd x). by rewrite fits_masked, Hf.
  - rewrite IH. cbv zeta. by rewrite orb_true_l.
Qed.

Lemma existsb_masked s ps : existsb (fun p => fits (masked s p) want) ps =
  existsb (fun p => fits p want) ps && match sh_mask s with Some m => fits m want | None => true end.
Proof.
  induction ps as [|p ps IH]; [done|]. cbn [existsb]. rewrite IH, fits_masked.
  destruct (match sh_mask s with Some m => fits m want | None => true end);
    by destruct (fits p want), (existsb (fun p => fits p want) ps).
Qed.

Lemma permission_shape s :
  posix_acl_permission u (to_entries s) want =
  Some (if acl_allows s (i_uid u) (i_gid u) (fsuid u) member want then 0 else - EACCES).
Proof.
  unfold posix_acl_permission, acl_allows, to_entries, tail_entries, user_entry, group_perms.
  cbn [permission_loop obj e_tag]. change (ACL_USER_OBJ =? ACL_USER_OBJ) with true. cbv iota.
  destruct (i_uid u =? fsuid u); [done|]. rewrite loop_users.
  destruct (List.find _ (sh_users s)) as [x|] eqn:Hfind.
  { f_equal. cbn [mask_loop obj e_tag]. change (ACL_GROUP_OBJ =? ACL_MASK) with false. cbv iota.
    rewrite mask_loop_named, mask_loop_tail by by right. done. }
  cbn [permission_loop obj e_tag]. change (ACL_GROUP_OBJ =? ACL_USER_OBJ) with false.
  change (ACL_GROUP_OBJ =? ACL_USER) with false. change (ACL_GROUP_OBJ =? ACL_GROUP_OBJ) with true. cbv iota.
  rewrite Hgroups, some_bind. set (ps := map snd _).
  destruct (member (i_gid u)).
  - change (Z.land (e_perm _) want =? want) with (fits (sh_group s) want). cbn [app].
    rewrite (existsb_masked s (sh_group s :: ps)). cbn [existsb]. destruct (fits (sh_group s) want) eqn:Hf; simpl orb.
    + f_equal. rewrite mask_loop_named, mask_loop_tail by by right. change (e_perm _) with (sh_group s).
      by rewrite fits_masked, Hf.
    + rewrite loop_groups. cbv zeta. fold ps. rewrite orb_true_l. by destruct (existsb _ ps).
  - cbn [app]. rewrite loop_groups. cbv zeta. fold ps. simpl orb. destruct ps as [|p ps'] eqn:Hps; [done|].
    rewrite existsb_masked. change (negb (bool_decide (p :: ps' = []))) with true. cbv iota.
    by destruct (existsb _ (p :: ps')).
Qed.
End decide.

(** C14. For every list that posix_acl_valid accepts, posix_acl_permission answers,
    whatever the file's owner and group and the task's user and groups, exactly the
    POSIX 1003.1e check: 0 when the entry of the task's class grants all that is
    wanted, within the mask for named users and groups, and -EACCES otherwise; it
    never answers -EIO. *)
Theorem permission_decides l u member want : Forall normal l -> posix_acl_valid l = 0 ->
  (forall g, in_group_p u g = Some (member g)) ->
  exists s, shape_ok s /\ l = to_entries s /\
    posix_acl_permission u l want =
      Some (if acl_allows s (i_uid u) (i_gid u) (fsuid u) member want then 0 else - EACCES).
Proof.
  intros Hn Hv Hg. apply valid_shape in Hv as (s&Hs&->); [|done].
  exists s. split; [done|]. split; [done|]. by apply permission_shape.
Qed.

(** Owner rwx, user 7 rw-, group r--, group 20 -w-, mask r--, others none. *)
Definition sample_shape : shape := Shape 7 [(7, 6)] 4 [(20, 2)] (Some 4) 0.
Definition sample_subject (who : Z) : subject := Subject 0 0 who (fun g => Some (g =? 20)).

Lemma sample_shape_ok : shape_ok sample_shape.
Proof.
  unfold shape_ok, is_perm. simpl.
  assert (Hl : forall i p, 0 <= i < ACL_UNDEFINED_ID -> is_perm p -> list_ok [(i, p)]).
  { intros i p Hi Hp. split; repeat constructor; unfold is_perm in *; simpl; lia. }
  split_and!; try lia; apply Hl; unfold is_perm, ACL_UNDEFINED_ID; lia.
Qed.

Lemma permission_decides_witness : exists s, shape_ok s /\ to_entries sample_shape = to_entries s /\
  posix_acl_permission (sample_subject 7) (to_entries sample_shape) 4 =
    Some (if acl_allows s 0 0 7 (fun g => g =? 20) 4 then 0 else - EACCES).
Proof.
  apply (permission_decides (to_entries sample_shape) (sample_subject 7) (fun g => g =? 20) 4).
  - apply normal_entries, sample_shape_ok.
  - vm_compute. reflexivity.
  - reflexivity.
Defined.

(** User 7 may read and, for the mask, not write; user 8 is in a group that may
    only write, and the mask forbids that. *)
Example permission_sample :
  posix_acl_permission (sample_subject 7) (to_entries sample_shape) 4 = Some 0 /\
  posix_acl_permission (sample_subject 7) (to_entries sample_shape) 2 = Some (- EACCES) /\
  posix_acl_permission (sample_subject 8) (to_entries sample_shape) 2 = Some (- EACCES) /\
  posix_acl_permission (sample_subject 8) (to_entries sample_shape) 4 = Some (- EACCES).
Proof. repeat split. Qed.

(** ** Creation and chmod keep the type *)

Lemma create_shape_ok s m : shape_ok s -> shape_ok (create_shape s m).
Proof.
  intros Hs. pose proof (group_class_perm s Hs). pose proof Hs as (?&?&?&?&?&?).
  apply with_classes_ok; [done|apply land_perm; [done|apply (cls_perm 6)]
    |apply land_perm; [done|apply (cls_perm 3)]|apply land_perm; [done|apply (cls_perm 0)]].
Qed.
Lemma chmod_shape_ok s m : shape_ok s -> shape_ok (chmod_shape s m).
Proof. intros Hs. apply with_classes_ok; auto with kernel. Qed.

Lemma valid_of_shape s : shape_ok s -> posix_acl_valid (to_entries s) = 0.
Proof. intros Hs. apply valid_shape; [by apply normal_entries|]. by exists s. Qed.

Lemma shape_mode_twice r s s' : shape_ok s' -> shape_mode (shape_mode r s') s = shape_mode r s.
Proof. intros Hs. pose proof (group_class_perm s' Hs). destruct Hs as (?&?&?&?&?&?). by apply mode_of_rest. Qed.

(** The list of a mode. *)
Definition mode_shape (m : Z) : shape := Shape (cls 6 m) [] (cls 3 m) [] None (cls 0 m).

Lemma mode_shape_ok m : shape_ok (mode_shape m).
Proof. unfold shape_ok. simpl. split_and!; auto with kernel; try apply (cls_perm 6); try apply (cls_perm 3); apply (cls_perm 0). Qed.

Lemma from_mode_shape st m : 0 <= requests st -> exists st' p, posix_acl_from_mode st m = Some (st', p) /\
  (p = - ENOMEM /\ acls st' = acls st \/
   requests st < p /\ acls st' = <[p := Acl 1 (to_entries (mode_shape m))]> (acls st)).
Proof.
  intros Hr. unfold posix_acl_from_mode, posix_acl_alloc, kmalloc. destruct (grants st (requests st + 1)).
  - destruct (Z.eqb_spec (requests st + 1) 0); [lia|]. unfold set_entries. cbn [acls].
    rewrite lookup_insert_eq, some_bind. rewrite shift_class_6, shift_class_3, shift_class_0.
    eexists _, _. split; [done|]. right. split; [lia|]. simpl. by rewrite insert_insert_eq.
  - eexists _, _. split; [done|]. by left.
Qed.

(** C38. The operations on permission bits keep lists well formed and in step with
    the mode.  For a valid list: posix_acl_create_masq and posix_acl_chmod_masq
    succeed with valid lists; the mode that creation stores is the one whose bits
    the new list has (posix_acl_equiv_mode leaves it as it is), and the list after
    chmod has the bits of the new mode; the results of create and equiv_mode tell
    whether the list says more than the mode.  The list made from a mode by
    posix_acl_from_mode is valid and says no more than that mode. *)
Theorem acl_mode_agreement l m : Forall normal l -> posix_acl_valid l = 0 ->
  (exists l' m' ext, posix_acl_create_masq l m = Some (l', m', ext) /\ Forall normal l' /\ posix_acl_valid l' = 0 /\
     posix_acl_equiv_mode l' m' = (m', ext)) /\
  (exists l' ext, posix_acl_chmod_masq l m = (l', 0) /\ Forall normal l' /\ posix_acl_valid l' = 0 /\
     posix_acl_equiv_mode l' m = (m, ext)) /\
  (forall st, 0 <= requests st -> exists st' p, posix_acl_from_mode st m = Some (st', p) /\
     (p = - ENOMEM /\ acls st' = acls st \/
      exists l', acls st' = <[p := Acl 1 l']> (acls st) /\ Forall normal l' /\ posix_acl_valid l' = 0 /\
        posix_acl_equiv_mode l' m = (m, 0))).
Proof.
  intros Hn Hv. apply valid_shape in Hv as (s&Hs&->); [|done].
  pose proof (create_shape_ok s m Hs) as Hc. pose proof (chmod_shape_ok s m Hs) as Hch. split; [|split].
  - rewrite create_masq_shape by done. eexists _, _, _. split; [done|]. split; [by apply normal_entries|].
    split; [by apply valid_of_shape|]. rewrite equiv_mode_shape, shape_mode_twice by done.
    unfold create_shape. by rewrite with_classes_extended.
  - rewrite chmod_masq_shape. eexists _, _. split; [done|]. split; [by apply normal_entries|].
    split; [by apply valid_of_shape|]. rewrite equiv_mode_shape by done. unfold chmod_shape.
    by rewrite with_classes_mode, mode_cls.
  - intros st Hr. destruct (from_mode_shape st m Hr) as (st'&p&->&Hcase). eexists _, _. split; [done|].
    destruct Hcase as [Hf|[_ Ha]]; [by left|right]. eexists. split; [exact Ha|]. pose proof (mode_shape_ok m) as Hm.
    split; [by apply normal_entries|]. split; [by apply valid_of_shape|].
    rewrite equiv_mode_shape by done. f_equal. apply mode_cls.
Qed.

Lemma acl_mode_agreement_witness :
  (exists l' m' ext, posix_acl_create_masq (to_entries sample_shape) 416 = Some (l', m', ext) /\
     Forall normal l' /\ posix_acl_valid l' = 0 /\ posix_acl_equiv_mode l' m' = (m', ext)) /\
  (exists l' ext, posix_acl_chmod_masq (to_entries sample_shape) 416 = (l', 0) /\
     Forall normal l' /\ posix_acl_valid l' = 0 /\ posix_acl_equiv_mode l' 416 = (416, ext)) /\
  (forall st, 0 <= requests st -> exists st' p, posix_acl_from_mode st 416 = Some (st', p) /\
     (p = - ENOMEM /\ acls st' = acls st \/
      exists l', acls st' = <[p := Acl 1 l']> (acls st) /\ Forall normal l' /\ posix_acl_valid l' = 0 /\
        posix_acl_equiv_mode l' 416 = (416, 0))).
Proof.
  apply (acl_mode_agreement (to_entries sample_shape) 416).
  - apply normal_entries, sample_shape_ok.
  - vm_compute. reflexivity.
Defined.

(** *** Creation only takes rights away *)

Lemma group_perms_with s o g t gid member : sh_mask s <> None ->
  group_perms (with_classes s o g t) gid member = group_perms s gid member.
Proof. intros Hm. unfold group_perms. simpl. by destruct (sh_mask s). Qed.

Lemma existsb_impl {A} (f g : A -> bool) l : (forall x, f x = true -> g x = true) -> existsb f l = true -> existsb g l = true.
Proof. intros H. rewrite !existsb_exists. intros (x&Hx&Hf). exists x. auto. Qed.

Lemma group_bound s m p w : sh_mask s <> None ->
  fits (masked (create_shape s m) p) w = true -> fits (masked s p) w = true /\ fits (cls 3 m) w = true.
Proof.
  intros Hm. rewrite !fits_masked. unfold create_shape, group_class. simpl.
  destruct (sh_mask s) as [q|]; [|done]. simpl. rewrite fits_land, !andb_true_iff. tauto.
Qed.

(** What a file gets from the default list of its directory: if the list that
    posix_acl_create_masq leaves lets a task do something, then the list it was
    made from lets the task do it, and so do the permission bits that the system
    call asked for, in the class of the task. *)
Theorem create_masq_restricts s m uid gid who member want : shape_ok s ->
  exists s', posix_acl_create_masq (to_entries s) m = Some (to_entries s', shape_mode m s', if extended s then 1 else 0) /\
    (acl_allows s' uid gid who member want = true ->
     acl_allows s uid gid who member want = true /\ fits (cls (class_of s uid gid who member) m) want = true).
Proof.
  intros Hs. exists (create_shape s m). split; [by apply create_masq_shape|].
  unfold acl_allows, class_of. destruct (uid =? who).
  { unfold create_shape. simpl. by rewrite fits_land, andb_true_iff. }
  change (user_entry (create_shape s m) who) with (user_entry s who).
  destruct (sh_mask s) as [q|] eqn:Hm.
  - assert (Hb : forall p, fits (masked (create_shape s m) p) want = true ->
      fits (masked s p) want = true /\ fits (cls 3 m) want = true) by (intros p; apply group_bound; by rewrite Hm).
    destruct (user_entry s who) as [x|]; [apply Hb|].
    unfold create_shape. rewrite group_perms_with by by rewrite Hm. fold (create_shape s m).
    destruct (group_perms s gid member) as [|p ps].
    { simpl. by rewrite fits_land, andb_true_iff. }
    intros Hex. split; [exact (existsb_impl _ _ _ (fun y Hy => proj1 (Hb y Hy)) Hex)|].
    apply existsb_exists in Hex as (y&_&Hy). exact (proj2 (Hb y Hy)).
  - destruct Hs as (_&_&_&_&Hnone&_). rewrite Hm in Hnone. destruct Hnone as [Hu Hg].
    unfold user_entry, group_perms, create_shape, masked, group_class. simpl. rewrite Hu, Hg, Hm. simpl.
    destruct (member gid); simpl; rewrite ?orb_false_r, fits_land, andb_true_iff; done.
Qed.

Lemma create_masq_restricts_witness : exists s',
  posix_acl_create_masq (to_entries sample_shape) 416 = Some (to_entries s', shape_mode 416 s', if extended sample_shape then 1 else 0) /\
  (acl_allows s' 0 0 7 (fun g => g =? 20) 4 = true ->
   acl_allows sample_shape 0 0 7 (fun g => g =? 20) 4 = true /\
   fits (cls (class_of sample_shape 0 0 7 (fun g => g =? 20)) 416) 4 = true).
Proof. apply (create_masq_restricts sample_shape 416 0 0 7 (fun g => g =? 20) 4). exact sample_shape_ok. Defined.

(** ** Extended attributes *)

Lemma le_bytes_length n : forall v, length (le_bytes n v) = n.
Proof. induction n; intros v; simpl; auto. Qed.

Lemma of_le_bytes n : forall v, 0 <= v < 256 ^ Z.of_nat n -> of_le (le_bytes n v) = v.
Proof.
  induction n as [|n IH]; intros v Hv; [simpl in *; lia|]. cbn [le_bytes of_le].
  rewrite Nat2Z.inj_succ, Z.pow_succ_r in Hv by lia.
  rewrite IH by (Z.to_euclidean_division_equations; nia). Z.to_euclidean_division_equations; lia.
Qed.

(** Reading what lies between two parts of a buffer. *)
Lemma slice_mid {A} (a x b : list A) i n : i = zlen a -> n = zlen x -> slice i n (a ++ x ++ b) = x.
Proof. intros -> ->. unfold slice. by rewrite !Nat2Z.id, drop_app_length, take_app_length. Qed.

Lemma get_le_mid a n v b i k : i = zlen a -> k = Z.of_nat n -> 0 <= v < 256 ^ k ->
  get_le k i (a ++ le_bytes n v ++ b) = Some v.
Proof.
  intros Hi Hk Hv. unfold get_le. rewrite !length_app, le_bytes_length.
  destruct (Z.leb_spec 0 i); [|lia]. destruct (Z.leb_spec (i + k) (Z.of_nat (length a + (n + length b)))); [|lia]. simpl.
  rewrite slice_mid by (rewrite ?le_bytes_length; done). rewrite of_le_bytes by by rewrite <- Hk. done.
Qed.

(** Entries with one of the six tags. *)
Definition tagged (e : posix_acl_entry) : Prop :=
  e_tag e ∈ [ACL_USER_OBJ; ACL_USER; ACL_GROUP_OBJ; ACL_GROUP; ACL_MASK; ACL_OTHER].

Lemma tagged_entries s : Forall tagged (to_entries s).
Proof.
  assert (Hobj : forall tag p, tag ∈ [ACL_USER_OBJ; ACL_USER; ACL_GROUP_OBJ; ACL_GROUP; ACL_MASK; ACL_OTHER] ->
    tagged (obj tag p)) by done.
  assert (Hnamed : forall tag l, tag = ACL_USER \/ tag = ACL_GROUP -> Forall tagged (map (named tag) l)).
  { intros tag l Ht. apply Forall_fmap, Forall_true. intros x. unfold tagged. simpl. set_solver. }
  unfold to_entries, tail_entries. constructor; [apply Hobj; set_solver|].
  apply Forall_app; split; [auto|]. constructor; [apply Hobj; set_solver|].
  apply Forall_app; split; [auto|]. apply Forall_app; split; [|constructor; [apply Hobj; set_solver|constructor]].
  destruct (sh_mask s); simpl; constructor; auto. apply Hobj. set_solver.
Qed.

Definition is_object (e : posix_acl_entry) : bool :=
  (e_tag e =? ACL_USER_OBJ) || (e_tag e =? ACL_GROUP_OBJ) || (e_tag e =? ACL_MASK) || (e_tag e =? ACL_OTHER).
Definition is_named (e : posix_acl_entry) : bool := (e_tag e =? ACL_USER) || (e_tag e =? ACL_GROUP).

Lemma tagged_cases e : tagged e -> normal e ->
  s16 (u16 (e_tag e)) = e_tag e /\
  (is_object e = true /\ is_named e = false /\ e_id e = ACL_UNDEFINED_ID \/ is_object e = false /\ is_named e = true).
Proof.
  unfold tagged, is_object, is_named. intros Ht (_&_&Hid). tags.
  repeat (apply elem_of_cons in Ht as [Ht|Ht]); [..|by apply elem_of_nil in Ht]; rewrite Ht in *; simpl;
    (split; [done|]); ((left; split; [done|]; split; [done|]; by apply Hid) || by right).
Qed.

Lemma xattr_entry_length e : length (xattr_entry e) = 8%nat.
Proof. unfold xattr_entry. by rewrite !length_app, !le_bytes_length. Qed.

Lemma entry_fields a e rest : normal e ->
  get_le 2 (zlen a) (a ++ xattr_entry e ++ rest) = Some (u16 (e_tag e)) /\
  get_le 2 (zlen a + 2) (a ++ xattr_entry e ++ rest) = Some (e_perm e) /\
  get_le 4 (zlen a + 4) (a ++ xattr_entry e ++ rest) = Some (e_id e).
Proof.
  intros (Hp&Hi&_). pose proof (Z.mod_pos_bound (e_tag e) (2 ^ 16) ltac:(lia)) as Ht.
  unfold xattr_entry. rewrite <- !app_assoc. unfold is_u16, is_u32 in *. split; [|split].
  - apply get_le_mid; done.
  - rewrite (app_assoc a). apply get_le_mid; [rewrite length_app, le_bytes_length; lia|done|simpl; lia].
  - rewrite (app_assoc a), (app_assoc (a ++ _)).
    apply get_le_mid; [rewrite !length_app, !le_bytes_length; lia|done|simpl; lia].
Qed.

Lemma from_xattr_entries l : forall a b, Forall normal l -> Forall tagged l ->
  from_xattr_loop (length l) (a ++ concat (map xattr_entry l) ++ b) (zlen a) = Some (l, true).
Proof.
  induction l as [|e l IH]; intros a b Hn Ht; [done|].
  apply Forall_cons in Hn as [He Hn]. apply Forall_cons in Ht as [Hte Ht].
  destruct (tagged_cases e Hte He) as [Htag Hcase].
  specialize (IH (a ++ xattr_entry e) b Hn Ht).
  rewrite <- app_assoc, length_app, xattr_entry_length, Nat2Z.inj_add in IH. change (Z.of_nat 8) with 8 in IH.
  cbn [length from_xattr_loop map concat]. rewrite <- app_assoc.
  set (rest := concat (map xattr_entry l) ++ b) in *. destruct (entry_fields a e rest He) as (->&->&->).
  rewrite !some_bind, Htag. fold (is_object e). fold (is_named e).
  destruct Hcase as [(Ho&Hna&Hid)|(Ho&Hna)]; rewrite Ho, ?Hna, ?some_bind, IH; simpl;
    [rewrite <- Hid|]; by destruct e.
Qed.

Lemma blit_all {A} (dst x : list A) i : 0 <= i -> i + zlen x <= zlen dst ->
  blit dst i x 0 (zlen x) = take (Z.to_nat i) dst ++ x ++ drop (Z.to_nat (i + zlen x)) dst.
Proof. intros. unfold blit, slice. rewrite Nat2Z.id, drop_0. by rewrite (take_ge x). Qed.

Lemma to_xattr_entries l : forall a old b, zlen old = 8 * zlen l ->
  to_xattr_loop (a ++ old ++ b) (zlen a) l = a ++ concat (map xattr_entry l) ++ b.
Proof.
  induction l as [|e l IH]; intros a old b Hl.
  { destruct old; [done|simpl in Hl; lia]. }
  cbn [length] in Hl. cbn [to_xattr_loop map concat].
  assert (Hb : blit (a ++ old ++ b) (zlen a) (xattr_entry e) 0 8 = (a ++ xattr_entry e) ++ drop 8 old ++ b).
  { change 8 with (Z.of_nat 8). rewrite <- (xattr_entry_length e). rewrite blit_all by (rewrite ?length_app, ?xattr_entry_length; lia).
    rewrite Nat2Z.id, take_app_length, <- app_assoc. do 2 f_equal.
    rewrite xattr_entry_length, drop_app_ge by lia. rewrite drop_app_le by lia. do 2 f_equal. lia. }
  rewrite Hb. replace (zlen a + 8) with (zlen (a ++ xattr_entry e)) by (rewrite length_app, xattr_entry_length; lia).
  rewrite IH by (rewrite length_drop; lia). by rewrite <- !app_assoc.
Qed.

Lemma entries_nonempty s : 3 <= zlen (to_entries s).
Proof. unfold to_entries, tail_entries. repeat (rewrite ?length_app; cbn [length]). lia. Qed.

(** A valid list written as an extended attribute reads back as the same list:
    posix_acl_to_xattr asks for 4 + 8 n bytes, refuses a smaller buffer with
    -ERANGE, fills a large enough one without touching what follows, and
    posix_acl_from_xattr of the bytes makes a fresh object with the same entries
    (or answers -ENOMEM and keeps nothing). *)
Theorem xattr_roundtrip l st buffer size : Forall normal l -> posix_acl_valid l = 0 -> 0 <= requests st ->
  zlen buffer = size ->
  posix_acl_to_xattr l None size = Some ([], 4 + 8 * zlen l) /\
  (size < 4 + 8 * zlen l -> posix_acl_to_xattr l (Some buffer) size = Some (buffer, - ERANGE)) /\
  (4 + 8 * zlen l <= size -> exists text st' p,
     posix_acl_to_xattr l (Some buffer) size = Some (text ++ drop (length text) buffer, 4 + 8 * zlen l) /\
     zlen text = 4 + 8 * zlen l /\
     posix_acl_from_xattr st (Some text) (4 + 8 * zlen l) = Some (st', p) /\
     (p = - ENOMEM /\ acls st' = acls st \/ requests st < p /\ acls st' = <[p := Acl 1 l]> (acls st))).
Proof.
  intros Hn Hv Hr Hb. apply valid_shape in Hv as (s&Hs&->); [|done]. pose proof (tagged_entries s) as Ht.
  pose proof (entries_nonempty s) as H3. set (l := to_entries s) in *.
  unfold posix_acl_to_xattr, posix_acl_xattr_size. replace (4 + zlen l * 8) with (4 + 8 * zlen l) by lia.
  split; [done|]. split.
  { intros Hlt. destruct (Z.ltb_spec size (4 + 8 * zlen l)); [done|lia]. }
  intros Hle. destruct (Z.ltb_spec size (4 + 8 * zlen l)); [lia|]. destruct (Z.ltb_spec (zlen buffer) (4 + 8 * zlen l)); [lia|].
  set (text := le_bytes 4 POSIX_ACL_XATTR_VERSION ++ concat (map xattr_entry l)).
  assert (Hcl : zlen (concat (map xattr_entry l)) = 8 * zlen l).
  { clear. induction l as [|e l IH]; [done|]. cbn [map concat length]. rewrite length_app, xattr_entry_length. lia. }
  assert (Htl : zlen text = 4 + 8 * zlen l) by (subst text; rewrite length_app, le_bytes_length; lia).
  assert (Hw : to_xattr_loop (blit buffer 0 (le_bytes 4 POSIX_ACL_XATTR_VERSION) 0 4) 4 l = text ++ drop (length text) buffer).
  { set (ver := le_bytes 4 POSIX_ACL_XATTR_VERSION) in *.
    assert (Hb4 : blit buffer 0 ver 0 4 = ver ++ take (length l * 8) (drop 4 buffer) ++ drop (length l * 8) (drop 4 buffer)).
    { rewrite take_drop. pose proof (blit_all buffer ver 0 ltac:(lia)) as Hba. change (zlen ver) with 4 in Hba.
      rewrite Hba by lia. done. }
    rewrite Hb4. pose proof (to_xattr_entries l ver (take (length l * 8) (drop 4 buffer)) (drop (length l * 8) (drop 4 buffer)))
      as Hte. change (zlen ver) with 4 in Hte. rewrite Hte by (rewrite length_take, length_drop; lia).
    subst text. rewrite <- app_assoc, drop_drop. do 3 f_equal. rewrite length_app. change (length ver) with 4%nat. lia. }
  rewrite Hw. exists text. cut (exists st' p, posix_acl_from_xattr st (Some text) (4 + 8 * zlen l) = Some (st', p) /\
    (p = - ENOMEM /\ acls st' = acls st \/ requests st < p /\ acls st' = <[p := Acl 1 l]> (acls st))).
  { intros (st'&p&?&?). by exists st', p. }
  unfold posix_acl_from_xattr.
  destruct (Z.ltb_spec (4 + 8 * zlen l) 4); [lia|]. clear Hw. subst text.
  pose proof (get_le_mid [] 4 POSIX_ACL_XATTR_VERSION (concat (map xattr_entry l)) 0 4 eq_refl eq_refl ltac:(done)) as Hver.
  rewrite app_nil_l in Hver. rewrite Hver, some_bind. simpl negb. cbv iota.
  unfold posix_acl_xattr_count. destruct (Z.ltb_spec (4 + 8 * zlen l) 4); [lia|].
  replace (4 + 8 * zlen l - 4) with (zlen l * 8) by lia. rewrite Z.mod_mul, Z.div_mul by lia. simpl negb. cbv iota.
  destruct (Z.ltb_spec (zlen l) 0); [lia|]. destruct (Z.eqb_spec (zlen l) 0); [lia|].
  unfold posix_acl_alloc, kmalloc. destruct (grants st (requests st + 1)).
  - destruct (Z.eqb_spec (requests st + 1) 0); [lia|]. rewrite Nat2Z.id.
    pose proof (from_xattr_entries l (le_bytes 4 POSIX_ACL_XATTR_VERSION) [] Hn Ht) as Hf. rewrite app_nil_r in Hf.
    change (zlen (le_bytes 4 POSIX_ACL_XATTR_VERSION)) with 4 in Hf. rewrite Hf, some_bind.
    unfold set_entries. cbn [acls fst snd]. rewrite lookup_insert_eq, some_bind. cbn [a_entries].
    rewrite length_replicate, Nat.eqb_refl, some_bind. eexists _, _. split; [done|].
    right. split; [simpl; lia|]. simpl. by rewrite insert_insert_eq.
  - eexists _, _. split; [done|]. by left.
Qed.

Lemma xattr_roundtrip_witness :
  let l := to_entries sample_shape in let st := Store 0 (fun _ => true) ∅ in let buffer := replicate 60 0 in
  posix_acl_to_xattr l None 60 = Some ([], 4 + 8 * zlen l) /\
  (60 < 4 + 8 * zlen l -> posix_acl_to_xattr l (Some buffer) 60 = Some (buffer, - ERANGE)) /\
  (4 + 8 * zlen l <= 60 -> exists text st' p,
     posix_acl_to_xattr l (Some buffer) 60 = Some (text ++ drop (length text) buffer, 4 + 8 * zlen l) /\
     zlen text = 4 + 8 * zlen l /\
     posix_acl_from_xattr st (Some text) (4 + 8 * zlen l) = Some (st', p) /\
     (p = - ENOMEM /\ acls st' = acls st \/ requests st < p /\ acls st' = <[p := Acl 1 l]> (acls st))).
Proof.
  cbv zeta. apply (xattr_roundtrip (to_entries sample_shape) (Store 0 (fun _ => true) ∅) (replicate 60 0) 60).
  - apply normal_entries, sample_shape_ok.
  - vm_compute. reflexivity.
  - simpl. lia.
  - reflexivity.
Defined.
