(* ===== verification/Ext2Acl.v ===== *)
(** * fs/ext2/acl.c, generic_permission of fs/namei.c: access control of files

    An inode may have an access list and, if it is a directory, a default list for
    the files made in it.  They are extended attributes on the disk and are cached
    as shared objects (PosixAcl.v) in the inode.  Inodes are records that the
    operations take and return; the objects are in one store. *)

From S2P Require Import Prelude Groups PosixAcl.

(** ** Data *)

Definition ENODATA : Z := 61.
Definition ENOSYS : Z := 38.
Definition EAGAIN : Z := 11.
Definition ACL_TYPE_ACCESS : Z := 32768.
Definition ACL_TYPE_DEFAULT : Z := 16384.
Definition EXT2_XATTR_INDEX_POSIX_ACL_ACCESS : Z := 2.
Definition EXT2_XATTR_INDEX_POSIX_ACL_DEFAULT : Z := 3.
Definition EXT2_ACL_VERSION : Z := 1.
Definition EXT2_ACL_NOT_CACHED : Z := -1.
Definition S_IFMT : Z := 61440.
Definition S_IFLNK : Z := 40960.
Definition S_IFDIR : Z := 16384.
Definition S_IXUGO : Z := 73.
Definition S_ISLNK (m : Z) : bool := Z.land m S_IFMT =? S_IFLNK.
Definition S_ISDIR (m : Z) : bool := Z.land m S_IFMT =? S_IFDIR.
Definition MAY_EXEC : Z := 1.
Definition MAY_WRITE : Z := 2.
Definition MAY_READ : Z := 4.
Definition CAP_DAC_OVERRIDE : Z := 1.
Definition CAP_DAC_READ_SEARCH : Z := 2.
Definition CAP_FOWNER : Z := 3.

(** [i_acl] and [i_default_acl] are EXT2_ACL_NOT_CACHED, NULL or an object. *)
Record inode := Inode {
  i_ino : Z; i_mode : Z; i_uid : Z; i_gid : Z; i_acl : Z; i_default_acl : Z }.

(** The task, and the mount option POSIX_ACL (IS_POSIXACL). *)
Record context := Context_ {
  c_fsuid : Z; c_in_group_p : Z -> option bool; capable : Z -> bool; c_umask : Z; posixacl : bool }.

(** What fs/ext2/xattr.c offers, by inode number and index (the name is empty):
    ext2_xattr_get with no buffer or one of some size, which answers a length or an
    error, and what it has written to the buffer; and ext2_xattr_set, which stores a
    value or, with [None], removes the attribute. *)
Class Xattrs (D : Type) := {
  ext2_xattr_get : D -> Z -> Z -> option Z -> Z * list Z;
  ext2_xattr_set : D -> Z -> Z -> option (list Z) -> Z * D }.

Definition set_mode (i : inode) (m : Z) : inode :=
  Inode (i_ino i) m (i_uid i) (i_gid i) (i_acl i) (i_default_acl i).

(** ** The format on the disk

    As the extended attribute, with four bytes for an entry without an identifier. *)

Definition ext2_acl_size (count : Z) : Z :=
  if count <=? 4 then 4 + count * 4 else 4 + 4 * 4 + (count - 4) * 8.
Definition ext2_acl_count (size : Z) : Z :=
  let size := size - 4 in
  let s := size - 4 * 4 in
  if s <? 0 then if negb (size mod 4 =? 0) then -1 else size / 4
  else if negb (s mod 8 =? 0) then -1 else s / 8 + 4.

(** The loop over the entries from offset [i] on, [false] is [goto fail]. *)
Fixpoint from_disk_loop (n : nat) (value : list Z) (i size : Z) : option (list posix_acl_entry * Z * bool) :=
  match n with
  | O => Some ([], i, true)
  | S n =>
    if size <? i + 4 then Some ([], i, false) else
    tag ← get_le 2 i value;
    perm ← get_le 2 (i + 2) value;
    let tag := s16 tag in
    if (tag =? ACL_USER_OBJ) || (tag =? ACL_GROUP_OBJ) || (tag =? ACL_MASK) || (tag =? ACL_OTHER) then
      r ← from_disk_loop n value (i + 4) size;
      Some (Entry tag perm ACL_UNDEFINED_ID :: r.1.1, r.1.2, r.2)
    else if (tag =? ACL_USER) || (tag =? ACL_GROUP) then
      if size <? i + 8 then Some ([], i, false) else
      id ← get_le 4 (i + 4) value;
      r ← from_disk_loop n value (i + 8) size;
      Some (Entry tag perm id :: r.1.1, r.1.2, r.2)
    else Some ([], i, false)
  end.
Definition ext2_acl_from_disk (st : store) (value : list Z) (size : Z) : option (store * Z) :=
  if size <? 4 then Some (st, - EINVAL) else
  version ← get_le 4 0 value;
  if negb (version =? EXT2_ACL_VERSION) then Some (st, - EINVAL) else
  let count := ext2_acl_count size in
  if count <? 0 then Some (st, - EINVAL) else
  if count =? 0 then Some (st, 0) else
  let '(st, acl) := posix_acl_alloc st count in
  if acl =? 0 then Some (st, - ENOMEM) else
  r ← from_disk_loop (Z.to_nat count) value 4 size;
  if r.2 && (r.1.2 =? size) then st ← set_entries st acl r.1.1; Some (st, acl) else
  st ← posix_acl_release st acl;
  Some (st, - EINVAL).

(** A request for a buffer that the same function frees. *)
Definition request (st : store) : store * bool :=
  let n := requests st + 1 in (Store n (grants st) (acls st), grants st n).

Definition disk_entry (e : posix_acl_entry) : list Z :=
  le_bytes 2 (u16 (e_tag e)) ++ le_bytes 2 (e_perm e) ++
  (if (e_tag e =? ACL_USER) || (e_tag e =? ACL_GROUP) then le_bytes 4 (e_id e) else []).
Fixpoint to_disk_loop (l : list posix_acl_entry) : option (list Z) :=
  match l with
  | [] => Some []
  | e :: l =>
    if (e_tag e =? ACL_USER) || (e_tag e =? ACL_GROUP) || (e_tag e =? ACL_USER_OBJ) || (e_tag e =? ACL_GROUP_OBJ) ||
       (e_tag e =? ACL_MASK) || (e_tag e =? ACL_OTHER)
    then r ← to_disk_loop l; Some (disk_entry e ++ r)
    else None
  end.
(** The first [size] bytes of the buffer, which must have been written, or the error. *)
Definition ext2_acl_to_disk (st : store) (l : list posix_acl_entry) : option (store * (Z + list Z)) :=
  let size := ext2_acl_size (zlen l) in
  let '(st, ok) := request st in
  if negb ok then Some (st, inl (- ENOMEM)) else
  match to_disk_loop l with
  | None => Some (st, inl (- EINVAL))
  | Some b =>
    let b := le_bytes 4 EXT2_ACL_VERSION ++ b in
    if zlen b <? size then None else Some (st, inr (take (Z.to_nat size) b))
  end.

(** ** The cache *)

Definition i_field (i : inode) (type : Z) : Z :=
  if type =? ACL_TYPE_ACCESS then i_acl i else i_default_acl i.
Definition set_field (i : inode) (type p : Z) : inode :=
  if type =? ACL_TYPE_ACCESS then Inode (i_ino i) (i_mode i) (i_uid i) (i_gid i) p (i_default_acl i)
  else Inode (i_ino i) (i_mode i) (i_uid i) (i_gid i) (i_acl i) p.

Definition ext2_iget_acl (st : store) (i : inode) (type : Z) : option (store * Z) :=
  if negb (i_field i type =? EXT2_ACL_NOT_CACHED) then posix_acl_dup st (i_field i type)
  else Some (st, EXT2_ACL_NOT_CACHED).
Definition ext2_iset_acl (st : store) (i : inode) (type acl : Z) : option (store * inode) :=
  st ← (if negb (i_field i type =? EXT2_ACL_NOT_CACHED) then posix_acl_release st (i_field i type) else Some st);
  r ← posix_acl_dup st acl;
  Some (r.1, set_field i type r.2).

(** Of ext2_clear_inode (fs/ext2/super.c): giving up the cached lists. *)
Definition drop_field (st : store) (i : inode) (type : Z) : option (store * inode) :=
  if negb (i_field i type =? 0) && negb (i_field i type =? EXT2_ACL_NOT_CACHED) then
    st ← posix_acl_release st (i_field i type);
    Some (st, set_field i type EXT2_ACL_NOT_CACHED)
  else Some (st, i).
Definition ext2_clear_inode (st : store) (i : inode) : option (store * inode) :=
  r ← drop_field st i ACL_TYPE_ACCESS;
  drop_field r.1 r.2 ACL_TYPE_DEFAULT.

Section ops.
  Context `{Xattrs D} (c : context).

(** ** Getting and setting *)

Definition ext2_get_acl (st : store) (d : D) (i : inode) (type : Z) : option (store * inode * Z) :=
  if negb (posixacl c) then Some (st, i, 0) else
  if negb ((type =? ACL_TYPE_ACCESS) || (type =? ACL_TYPE_DEFAULT)) then Some (st, i, - EINVAL) else
  r ← ext2_iget_acl st i type;
  let '(st, acl) := (r : store * Z) in
  if negb (acl =? EXT2_ACL_NOT_CACHED) then Some (st, i, acl) else
  let name_index := if type =? ACL_TYPE_ACCESS then EXT2_XATTR_INDEX_POSIX_ACL_ACCESS
                    else EXT2_XATTR_INDEX_POSIX_ACL_DEFAULT in
  let retval := (ext2_xattr_get d (i_ino i) name_index None).1 in
  let '(st, ok) := if 0 <? retval then request st else (st, true) in
  if negb ok then Some (st, i, - ENOMEM) else
  let '(retval, value) :=
    if 0 <? retval then ext2_xattr_get d (i_ino i) name_index (Some retval) else (retval, []) in
  r ← (if 0 <? retval then ext2_acl_from_disk st value retval
       else if (retval =? - ENODATA) || (retval =? - ENOSYS) then Some (st, 0)
       else Some (st, retval));
  let '(st, acl) := (r : store * Z) in
  if negb (IS_ERR acl) then
    r ← ext2_iset_acl st i type acl;
    Some (r.1, r.2, acl)
  else Some (st, i, acl).

(** ext2_set_acl from [if (acl)] on: the value, the attribute and the cache. *)
Definition store_acl (st : store) (d : D) (i : inode) (type acl name_index : Z) : option (store * D * inode * Z) :=
  r ← (if negb (acl =? 0) then a ← acls st !! acl; ext2_acl_to_disk st (a_entries a)
       else Some (st, inr []));
  let '(st, value) := (r : store * (Z + list Z)) in
  match value with
  | inl e => Some (st, d, i, e)
  | inr b =>
    let '(error, d) := ext2_xattr_set d (i_ino i) name_index (if negb (acl =? 0) then Some b else None) in
    if error =? 0 then
      r ← ext2_iset_acl st i type acl;
      Some (r.1, d, r.2, error)
    else Some (st, d, i, error)
  end.
Definition ext2_set_acl (st : store) (d : D) (i : inode) (type acl : Z) : option (store * D * inode * Z) :=
  if S_ISLNK (i_mode i) then Some (st, d, i, - EOPNOTSUPP) else
  if negb (posixacl c) then Some (st, d, i, 0) else
  if type =? ACL_TYPE_ACCESS then
    if negb (acl =? 0) then
      a ← acls st !! acl;
      let '(mode, error) := posix_acl_equiv_mode (a_entries a) (i_mode i) in
      if error <? 0 then Some (st, d, i, error) else
      store_acl st d (set_mode i mode) type (if error =? 0 then 0 else acl) EXT2_XATTR_INDEX_POSIX_ACL_ACCESS
    else store_acl st d i type acl EXT2_XATTR_INDEX_POSIX_ACL_ACCESS
  else if type =? ACL_TYPE_DEFAULT then
    if negb (S_ISDIR (i_mode i)) then Some (st, d, i, if negb (acl =? 0) then - EACCES else 0) else
    store_acl st d i type acl EXT2_XATTR_INDEX_POSIX_ACL_DEFAULT
  else Some (st, d, i, - EINVAL).

(** ** Permission *)

Definition subject_of (i : inode) : subject := Subject (i_uid i) (i_gid i) (c_fsuid c) (c_in_group_p c).

Definition ext2_check_acl (st : store) (d : D) (i : inode) (mask : Z) : option (store * inode * Z) :=
  r ← ext2_get_acl st d i ACL_TYPE_ACCESS;
  let '(st, i, acl) := (r : store * inode * Z) in
  if IS_ERR acl then Some (st, i, acl) else
  if negb (acl =? 0) then
    a ← acls st !! acl;
    error ← posix_acl_permission (subject_of i) (a_entries a) mask;
    st ← posix_acl_release st acl;
    Some (st, i, error)
  else Some (st, i, - EAGAIN).

(** The label check_capabilities. *)
Definition check_capabilities (i : inode) (mask : Z) : Z :=
  if ((Z.land mask MAY_EXEC =? 0) || negb (Z.land (i_mode i) S_IXUGO =? 0) || S_ISDIR (i_mode i)) && capable c CAP_DAC_OVERRIDE
  then 0 else
  if ((mask =? MAY_READ) || (S_ISDIR (i_mode i) && (Z.land mask MAY_WRITE =? 0))) && capable c CAP_DAC_READ_SEARCH
  then 0 else - EACCES.
Definition check_mode (i : inode) (mode mask : Z) : Z :=
  if Z.land (Z.land mode mask) (Z.lor (Z.lor MAY_READ MAY_WRITE) MAY_EXEC) =? mask then 0 else check_capabilities i mask.

Definition generic_permission (st : store) (d : D) (i : inode) (mask : Z)
    (check_acl : store -> D -> inode -> Z -> option (store * inode * Z)) : option (store * inode * Z) :=
  let mode := i_mode i in
  if c_fsuid c =? i_uid i then Some (st, i, check_mode i (Z.shiftr mode 6) mask) else
  let by_group (st : store) (i : inode) :=
    b ← c_in_group_p c (i_gid i);
    Some (st, i, check_mode i (if (b : bool) then Z.shiftr mode 3 else mode) mask) in
  if posixacl c && negb (Z.land mode S_IRWXG =? 0) then
    r ← check_acl st d i mask;
    let '(st, i, error) := (r : store * inode * Z) in
    if error =? - EACCES then Some (st, i, check_capabilities i mask)
    else if negb (error =? - EAGAIN) then Some (st, i, error)
    else by_group st i
  else by_group st i.
Definition ext2_permission (st : store) (d : D) (i : inode) (mask : Z) : option (store * inode * Z) :=
  generic_permission st d i mask ext2_check_acl.

(** ** Creation and chmod *)

(** ext2_init_acl from posix_acl_clone to the release of the clone: the access list
    of the new inode from the default list [acl] of the directory. *)
Definition init_access (st : store) (d : D) (i : inode) (acl : Z) : option (store * D * inode * Z) :=
  r ← posix_acl_clone st acl;
  let '(st, clone) := (r : store * Z) in
  if clone =? 0 then Some (st, d, i, - ENOMEM) else
  a ← acls st !! clone;
  r ← posix_acl_create_masq (a_entries a) (i_mode i);
  let '(l, mode, error) := (r : list posix_acl_entry * Z * Z) in
  st ← set_entries st clone l;
  r ← (if 0 <=? error then
         let i := set_mode i mode in
         if 0 <? error then ext2_set_acl st d i ACL_TYPE_ACCESS clone else Some (st, d, i, error)
       else Some (st, d, i, error));
  let '(st, d, i, error) := (r : store * D * inode * Z) in
  st ← posix_acl_release st clone;
  Some (st, d, i, error).
(** The store, the disk, the new inode, the directory, and the result. *)
Definition ext2_init_acl (st : store) (d : D) (i dir : inode) : option (store * D * inode * inode * Z) :=
  r ← (if negb (S_ISLNK (i_mode i)) && posixacl c then ext2_get_acl st d dir ACL_TYPE_DEFAULT
       else Some (st, dir, 0));
  let '(st, dir, acl) := (r : store * inode * Z) in
  if IS_ERR acl then Some (st, d, i, dir, acl) else
  let i := if negb (S_ISLNK (i_mode i)) && (acl =? 0) then set_mode i (Z.land (i_mode i) (Z.lnot (c_umask c))) else i in
  r ← (if posixacl c && negb (acl =? 0) then
         r ← (if S_ISDIR (i_mode i) then ext2_set_acl st d i ACL_TYPE_DEFAULT acl else Some (st, d, i, 0));
         let '(st, d, i, error) := (r : store * D * inode * Z) in
         if negb (error =? 0) then Some (st, d, i, error) else init_access st d i acl
       else Some (st, d, i, 0));
  let '(st, d, i, error) := (r : store * D * inode * Z) in
  st ← posix_acl_release st acl;
  Some (st, d, i, dir, error).

(** After the caller has changed i_mode. *)
Definition ext2_acl_chmod (st : store) (d : D) (i : inode) : option (store * D * inode * Z) :=
  if negb (posixacl c) then Some (st, d, i, 0) else
  if S_ISLNK (i_mode i) then Some (st, d, i, - EOPNOTSUPP) else
  r ← ext2_get_acl st d i ACL_TYPE_ACCESS;
  let '(st, i, acl) := (r : store * inode * Z) in
  if IS_ERR acl || (acl =? 0) then Some (st, d, i, acl) else
  r ← posix_acl_clone st acl;
  let '(st, clone) := (r : store * Z) in
  st ← posix_acl_release st acl;
  if clone =? 0 then Some (st, d, i, - ENOMEM) else
  a ← acls st !! clone;
  let '(l, error) := posix_acl_chmod_masq (a_entries a) (i_mode i) in
  st ← set_entries st clone l;
  r ← (if error =? 0 then ext2_set_acl st d i ACL_TYPE_ACCESS clone else Some (st, d, i, error));
  let '(st, d, i, error) := (r : store * D * inode * Z) in
  st ← posix_acl_release st clone;
  Some (st, d, i, error).

(** ** Extended attribute handlers *)

Definition ext2_xattr_get_acl (st : store) (d : D) (i : inode) (type : Z) (buffer : option (list Z)) (size : Z)
    : option (store * inode * (list Z * Z)) :=
  if negb (posixacl c) then Some (st, i, (default [] buffer, - EOPNOTSUPP)) else
  r ← ext2_get_acl st d i type;
  let '(st, i, acl) := (r : store * inode * Z) in
  if IS_ERR acl then Some (st, i, (default [] buffer, acl)) else
  if acl =? 0 then Some (st, i, (default [] buffer, - ENODATA)) else
  a ← acls st !! acl;
  r ← posix_acl_to_xattr (a_entries a) buffer size;
  st ← posix_acl_release st acl;
  Some (st, i, r).

Definition is_owner_or_cap (i : inode) : bool := (c_fsuid c =? i_uid i) || capable c CAP_FOWNER.

Definition ext2_xattr_set_acl (st : store) (d : D) (i : inode) (type : Z) (value : option (list Z)) (size : Z)
    : option (store * D * inode * Z) :=
  if negb (posixacl c) then Some (st, d, i, - EOPNOTSUPP) else
  if negb (is_owner_or_cap i) then Some (st, d, i, - EPERM) else
  r ← posix_acl_from_xattr st value size;
  let '(st, acl) := (r : store * Z) in
  if IS_ERR acl then Some (st, d, i, acl) else
  error ← (if negb (acl =? 0) then a ← acls st !! acl; Some (posix_acl_valid (a_entries a)) else Some 0);
  if negb (error =? 0) then st ← posix_acl_release st acl; Some (st, d, i, error) else
  r ← ext2_set_acl st d i type acl;
  let '(st, d, i, error) := (r : store * D * inode * Z) in
  st ← posix_acl_release st acl;
  Some (st, d, i, error).

(** The four handlers; the name is what follows the prefix. *)
Definition ext2_xattr_get_acl_access st d i (name : list Z) buffer size : option (store * inode * (list Z * Z)) :=
  match name with [] => ext2_xattr_get_acl st d i ACL_TYPE_ACCESS buffer size
  | _ => Some (st, i, (default [] buffer, - EINVAL)) end.
Definition ext2_xattr_get_acl_default st d i (name : list Z) buffer size : option (store * inode * (list Z * Z)) :=
  match name with [] => ext2_xattr_get_acl st d i ACL_TYPE_DEFAULT buffer size
  | _ => Some (st, i, (default [] buffer, - EINVAL)) end.
Definition ext2_xattr_set_acl_access st d i (name : list Z) value size : option (store * D * inode * Z) :=
  match name with [] => ext2_xattr_set_acl st d i ACL_TYPE_ACCESS value size
  | _ => Some (st, d, i, - EINVAL) end.
Definition ext2_xattr_set_acl_default st d i (name : list Z) value size : option (store * D * inode * Z) :=
  match name with [] => ext2_xattr_set_acl st d i ACL_TYPE_DEFAULT value size
  | _ => Some (st, d, i, - EINVAL) end.
End ops.

(** ** Counting references

    [L] lists every use of an object: by the caches of the inodes and by the running
    operations.  Numbers that are not addresses may be in it. *)

Definition cnt (p : Z) (L : list Z) : Z := Z.of_nat (count_occ Z.eq_dec L p).
Definition balanced (st : store) (L : list Z) : Prop :=
  0 <= requests st /\
  forall p, match acls st !! p with
  | Some a => 0 < p <= requests st /\ a_refcount a = cnt p L /\ 0 < cnt p L
  | None => 0 < p -> cnt p L = 0
  end.
Definition entries (st : store) (p : Z) : option (list posix_acl_entry) := a_entries <$> acls st !! p.
(** The objects of [L] still say the same. *)
Definition keeps (L : list Z) (st st' : store) : Prop :=
  forall p, 0 < p -> p ∈ L -> entries st' p = entries st p.

Lemma cnt_cons p q L : cnt p (q :: L) = cnt p L + (if q =? p then 1 else 0).
Proof. unfold cnt. simpl. destruct (Z.eq_dec q p) as [->|]; [rewrite Z.eqb_refl|destruct (Z.eqb_spec q p); [done|]]; lia. Qed.
Lemma cnt_nonneg p L : 0 <= cnt p L.
Proof. unfold cnt. lia. Qed.
Lemma cnt_in p L : 0 < cnt p L <-> p ∈ L.
Proof. unfold cnt. rewrite list_elem_of_In, (count_occ_In Z.eq_dec). lia. Qed.
Lemma cnt_perm p L L' : L ≡ₚ L' -> cnt p L = cnt p L'.
Proof. intros H. unfold cnt. f_equal. apply Permutation_count_occ. by rewrite H. Qed.

Lemma balanced_perm st L L' : L ≡ₚ L' -> balanced st L -> balanced st L'.
Proof.
  intros Hp [Hr Hb]. split; [done|]. intros p. specialize (Hb p). rewrite (cnt_perm p L L') in Hb by done. done.
Qed.
#[export] Instance balanced_proper st : Proper (Permutation ==> iff) (balanced st).
Proof. intros L L' Hp. split; apply balanced_perm; by rewrite Hp. Qed.
(** Numbers that are no addresses do not count. *)
Lemma balanced_zero st p L : p <= 0 -> balanced st (p :: L) <-> balanced st L.
Proof.
  intros Hp. assert (H : forall q, 0 < q -> cnt q (p :: L) = cnt q L).
  { intros q Hq. rewrite cnt_cons. destruct (Z.eqb_spec p q); lia. }
  split; intros [Hr Hb]; (split; [done|]); intros q; specialize (Hb q); destruct (acls st !! q) as [a|];
    (intros Hq; rewrite H in * by done; auto) || (destruct Hb as (Hq&Hb); rewrite H in * by lia; auto).
Qed.

Lemma keeps_refl L st : keeps L st st.
Proof. done. Qed.
Lemma keeps_trans L st1 st2 st3 : keeps L st1 st2 -> keeps L st2 st3 -> keeps L st1 st3.
Proof. intros H1 H2 p Hp Hin. rewrite H2, H1; done. Qed.
Lemma keeps_sub L L' st st' : L ⊆ L' -> keeps L' st st' -> keeps L st st'.
Proof. intros Hs H p Hp Hin. apply H; auto. Qed.

Lemma balanced_present st L p : balanced st L -> 0 < p -> p ∈ L -> exists a, acls st !! p = Some a /\ a_refcount a = cnt p L.
Proof.
  intros [_ Hb] Hp Hin. specialize (Hb p). apply cnt_in in Hin. destruct (acls st !! p) as [a|]; [|lia].
  exists a. tauto.
Qed.

(** One change of an object. *)
Lemma balanced_insert st L L' p a : balanced st L -> 0 < p <= requests st -> a_refcount a = cnt p L' -> 0 < cnt p L' ->
  (forall q, 0 < q -> q <> p -> cnt q L' = cnt q L) -> balanced (set_acls st (<[p := a]> (acls st))) L'.
Proof.
  intros [Hr Hb] Hp Ha Hc Hq. split; [done|]. intros q. cbn [acls set_acls requests]. rewrite lookup_insert.
  case_decide as E; [by subst|]. specialize (Hb q). destruct (acls st !! q) as [b|].
  - destruct Hb as (?&?&?). rewrite Hq by (done || lia). done.
  - intros H. rewrite Hq; auto.
Qed.

Lemma dup_ok st L p : balanced st L -> p = 0 \/ 0 < p /\ p ∈ L -> exists st', posix_acl_dup st p = Some (st', p) /\
  balanced st' (p :: L) /\ (forall q, entries st' q = entries st q) /\ requests st <= requests st'.
Proof.
  intros Hb Hp. unfold posix_acl_dup. destruct (Z.eqb_spec p 0) as [->|].
  { exists st. split; [done|]. split; [by apply balanced_zero|]. done. }
  destruct Hp as [|[Hp Hin]]; [done|]. destruct (balanced_present st L p Hb Hp Hin) as (a&Ha&Hc).
  rewrite Ha, some_bind. eexists. split; [done|]. split; [|split; [|done]].
  - assert (Hpr : 0 < p <= requests st) by (destruct Hb as [_ Hb]; specialize (Hb p); rewrite Ha in Hb; tauto).
    eapply balanced_insert; [done|done|..].
    + cbn [a_refcount]. rewrite cnt_cons, Z.eqb_refl. lia.
    + rewrite cnt_cons, Z.eqb_refl. pose proof (cnt_nonneg p L). lia.
    + intros q _ Hq. rewrite cnt_cons. destruct (Z.eqb_spec p q); lia.
  - intros q. unfold entries. cbn [acls set_acls]. rewrite lookup_insert. case_decide; subst; [by rewrite Ha|done].
Qed.

Lemma release_ok st L p : balanced st (p :: L) -> 0 <= p -> exists st', posix_acl_release st p = Some st' /\
  balanced st' L /\ keeps L st st' /\ requests st <= requests st'.
Proof.
  intros Hb Hp. unfold posix_acl_release. destruct (Z.eqb_spec p 0) as [->|].
  { exists st. split; [done|]. split; [by apply balanced_zero in Hb|]. done. }
  destruct (balanced_present st (p :: L) p Hb) as (a&Ha&Hc); [lia|left|]. rewrite Ha, some_bind.
  rewrite cnt_cons, Z.eqb_refl in Hc. pose proof (cnt_nonneg p L) as Hn.
  assert (Hq : forall q, q <> p -> cnt q (p :: L) = cnt q L).
  { intros q Hq. rewrite cnt_cons. destruct (Z.eqb_spec p q); lia. }
  destruct (Z.eqb_spec (a_refcount a - 1) 0) as [Hz|Hz]; eexists; (split; [done|]); split.
  - destruct Hb as [Hr Hb]. split; [done|]. intros q. cbn [acls set_acls requests]. rewrite lookup_delete.
    case_decide as E; [subst; lia|]. specialize (Hb q). rewrite Hq in Hb by done. done.
  - split; [|done]. intros q Hq0 Hin. unfold entries. cbn [acls set_acls]. rewrite lookup_delete_ne; [done|].
    intros <-. apply cnt_in in Hin. lia.
  - assert (Hpr : 0 < p <= requests st) by (destruct Hb as [_ Hb]; specialize (Hb p); rewrite Ha in Hb; tauto).
    eapply balanced_insert; [done|done|..].
    + cbn [a_refcount]. lia.
    + lia.
    + intros q _ Hne. by rewrite Hq.
  - split; [|done]. intros q Hq0 Hin. unfold entries. cbn [acls set_acls]. rewrite lookup_insert. case_decide; subst; [by rewrite Ha|done].
Qed.

Lemma balanced_fresh st L p : balanced st L -> requests st < p -> acls st !! p = None /\ cnt p L = 0.
Proof. intros [Hr Hb] Hp. specialize (Hb p). destruct (acls st !! p); [lia|]. split; [done|apply Hb; lia]. Qed.

Lemma kmalloc_ok st L l st' p : balanced st L -> kmalloc st (Acl 1 l) = (st', p) ->
  requests st <= requests st' /\
  (p = 0 /\ balanced st' L /\ (forall q, entries st' q = entries st q) \/
   requests st < p /\ balanced st' (p :: L) /\ entries st' p = Some l /\ (forall q, q <> p -> entries st' q = entries st q)).
Proof.
  intros Hb. unfold kmalloc. assert (Hr : 0 <= requests st) by apply Hb.
  destruct (grants st (requests st + 1)); intros; simplify_eq; cbn [requests]; (split; [lia|]); [right|left].
  - split; [lia|]. destruct (balanced_fresh st L (requests st + 1) Hb ltac:(lia)) as [Hnone Hz]. split; [|split].
    + split; [simpl; lia|]. intros q. cbn [acls requests]. rewrite lookup_insert. case_decide as E.
      * subst q. cbn [a_refcount]. rewrite cnt_cons, Z.eqb_refl. lia.
      * destruct Hb as [_ Hb]. specialize (Hb q). rewrite cnt_cons.
        destruct (Z.eqb_spec (requests st + 1) q); [done|]. rewrite Z.add_0_r.
        destruct (acls st !! q); [|done]. split; [lia|tauto].
    + unfold entries. cbn [acls]. by rewrite lookup_insert_eq.
    + intros q Hq. unfold entries. cbn [acls]. by rewrite lookup_insert_ne.
  - split; [done|]. split; [|done]. destruct Hb as [_ Hb]. split; [simpl; lia|]. intros q. specialize (Hb q). simpl.
    destruct (acls st !! q); [|done]. split; [lia|tauto].
Qed.

Lemma set_entries_ok st L p l l' : balanced st L -> entries st p = Some l -> length l' = length l ->
  exists st', set_entries st p l' = Some st' /\ balanced st' L /\ entries st' p = Some l' /\
    (forall q, q <> p -> entries st' q = entries st q) /\ requests st <= requests st'.
Proof.
  intros Hb He Hl. unfold entries in He. destruct (acls st !! p) as [a|] eqn:Ha; [|done]. simpl in He. simplify_eq.
  unfold set_entries. rewrite Ha, some_bind, Hl, Nat.eqb_refl. eexists. split; [done|]. split; [|split; [|split; [|done]]].
  - assert (Hx := Hb). destruct Hx as [_ Hx]. specialize (Hx p). rewrite Ha in Hx. destruct Hx as (?&?&?).
    by eapply balanced_insert.
  - unfold entries. cbn [acls set_acls]. by rewrite lookup_insert_eq.
  - intros q Hq. unfold entries. cbn [acls set_acls]. by rewrite lookup_insert_ne.
Qed.

Lemma request_ok st L st' ok : balanced st L -> request st = (st', ok) ->
  balanced st' L /\ (forall q, entries st' q = entries st q) /\ requests st <= requests st'.
Proof.
  intros [Hr Hb] He. unfold request in He. simplify_eq. split; [|split; [done|simpl; lia]]. split; [simpl; lia|].
  intros q. specialize (Hb q). simpl. destruct (acls st !! q); [|done]. split; [lia|tauto].
Qed.

(** A request in between was refused. *)
Definition refused (st st' : store) : Prop := exists n, requests st < n <= requests st' /\ grants st n = false.
Lemma refused_later st st1 st2 : refused st st1 -> requests st1 <= requests st2 -> refused st st2.
Proof. intros (n&Hn&Hg) Hr. exists n. split; [lia|done]. Qed.
Lemma refused_after st st1 st2 : refused st1 st2 -> requests st <= requests st1 -> grants st1 = grants st -> refused st st2.
Proof. intros (n&Hn&Hg) Hr He. exists n. rewrite <- He. split; [lia|done]. Qed.
Lemma request_refused st st' : request st = (st', false) -> refused st st'.
Proof. unfold request. intros [= <- Hg]. exists (requests st + 1). simpl. split; [lia|done]. Qed.
Lemma kmalloc_refused st a st' : 0 <= requests st -> kmalloc st a = (st', 0) -> refused st st'.
Proof.
  unfold kmalloc. intros Hr. destruct (grants st (requests st + 1)) eqn:Hg; intros; simplify_eq; [lia|].
  exists (requests st + 1). simpl. split; [lia|done].
Qed.

(** ** The format on the disk: lemmas *)

Definition encode (s : shape) : list Z := le_bytes 4 EXT2_ACL_VERSION ++ concat (map disk_entry (to_entries s)).

Lemma disk_entry_length e : tagged e -> normal e -> zlen (disk_entry e) = if is_named e then 8 else 4.
Proof.
  intros Ht Hn. unfold disk_entry. fold (is_named e). rewrite !length_app, !le_bytes_length.
  destruct (is_named e); [rewrite le_bytes_length|]; done.
Qed.

Lemma disk_fields a e rest : normal e ->
  get_le 2 (zlen a) (a ++ disk_entry e ++ rest) = Some (u16 (e_tag e)) /\
  get_le 2 (zlen a + 2) (a ++ disk_entry e ++ rest) = Some (e_perm e) /\
  (is_named e = true -> get_le 4 (zlen a + 4) (a ++ disk_entry e ++ rest) = Some (e_id e)).
Proof.
  intros (Hp&Hi&_). pose proof (Z.mod_pos_bound (e_tag e) (2 ^ 16) ltac:(lia)) as Ht.
  unfold disk_entry. fold (is_named e). rewrite <- !app_assoc. unfold is_u16, is_u32 in *. split; [|split].
  - apply get_le_mid; done.
  - rewrite (app_assoc a). apply get_le_mid; [rewrite length_app, le_bytes_length; lia|done|simpl; lia].
  - intros ->. rewrite (app_assoc a), (app_assoc (a ++ _)).
    apply get_le_mid; [rewrite !length_app, !le_bytes_length; lia|done|simpl; lia].
Qed.

Lemma from_disk_entries l : forall a, Forall normal l -> Forall tagged l ->
  let value := a ++ concat (map disk_entry l) in
  from_disk_loop (length l) value (zlen a) (zlen value) = Some (l, zlen value, true).
Proof.
  induction l as [|e l IH]; intros a Hn Ht; cbv zeta.
  { cbn [length from_disk_loop map concat]. by rewrite app_nil_r. }
  apply Forall_cons in Hn as [He Hn]. apply Forall_cons in Ht as [Hte Ht].
  destruct (tagged_cases e Hte He) as [Htag Hcase]. pose proof (disk_entry_length e Hte He) as Hlen.
  specialize (IH (a ++ disk_entry e) Hn Ht). cbv zeta in IH. rewrite <- app_assoc in IH.
  rewrite (length_app a (disk_entry e)), Nat2Z.inj_add, Hlen in IH.
  cbn [length from_disk_loop map concat]. set (rest := concat (map disk_entry l)) in *.
  assert (Hsz : zlen (a ++ disk_entry e ++ rest) = zlen a + (if is_named e then 8 else 4) + zlen rest)
    by (rewrite !length_app; lia).
  set (size := zlen (a ++ disk_entry e ++ rest)) in *.
  destruct (disk_fields a e rest He) as (Hf1&Hf2&Hf3). rewrite Hf1, Hf2, !some_bind, Htag.
  fold (is_object e). fold (is_named e).
  destruct Hcase as [(Ho&Hna&Hid)|(Ho&Hna)]; rewrite Hna in *; rewrite Ho; destruct (Z.ltb_spec size (zlen a + 4)); try lia.
  - rewrite IH. simpl. rewrite <- Hid. by destruct e.
  - destruct (Z.ltb_spec size (zlen a + 8)); [lia|]. rewrite Hf3, some_bind, IH by done. simpl. by destruct e.
Qed.

Lemma to_disk_entries l : Forall tagged l -> to_disk_loop l = Some (concat (map disk_entry l)).
Proof.
  induction 1 as [|e l He Hl IH]; [done|]. cbn [to_disk_loop map concat].
  assert (Hc : (e_tag e =? ACL_USER) || (e_tag e =? ACL_GROUP) || (e_tag e =? ACL_USER_OBJ) ||
    (e_tag e =? ACL_GROUP_OBJ) || (e_tag e =? ACL_MASK) || (e_tag e =? ACL_OTHER) = true).
  { unfold tagged in He. tags. repeat (apply elem_of_cons in He as [He|He]); [..|by apply elem_of_nil in He]; by rewrite He. }
  by rewrite Hc, IH.
Qed.

Lemma concat_named_length tag l : tag = ACL_USER \/ tag = ACL_GROUP ->
  zlen (concat (map disk_entry (map (named tag) l))) = 8 * zlen l.
Proof.
  intros Ht. induction l as [|x l IH]; [done|]. cbn [map concat length]. rewrite length_app.
  assert (Hx : length (disk_entry (named tag x)) = 8%nat) by by destruct Ht as [-> | ->]. lia.
Qed.

(** A list with a mask has four entries without identifier, one without has three
    and no others: this is what the size on the disk counts on. *)
Lemma encode_size s : shape_ok s -> zlen (encode s) = ext2_acl_size (zlen (to_entries s)) /\
  ext2_acl_count (zlen (encode s)) = zlen (to_entries s).
Proof.
  intros (_&_&_&_&Hm&_).
  set (k := zlen (sh_users s) + zlen (sh_groups s)).
  assert (He : zlen (to_entries s) = k + (if sh_mask s then 4 else 3)).
  { unfold to_entries, tail_entries, k. repeat (rewrite ?length_app, ?length_map; cbn [length]).
    destruct (sh_mask s); simpl; lia. }
  assert (Hz : zlen (encode s) = 4 + 8 * k + (if sh_mask s then 16 else 12)).
  { unfold encode, to_entries, tail_entries, k. cbn [map concat].
    repeat (rewrite ?map_app, ?concat_app, ?length_app; cbn [map concat]).
    pose proof (concat_named_length ACL_USER (sh_users s) (or_introl eq_refl)).
    pose proof (concat_named_length ACL_GROUP (sh_groups s) (or_intror eq_refl)).
    rewrite !Nat2Z.inj_add. change (length (le_bytes 4 EXT2_ACL_VERSION)) with 4%nat.
    change (length (disk_entry (obj ACL_USER_OBJ (sh_owner s)))) with 4%nat.
    change (length (disk_entry (obj ACL_GROUP_OBJ (sh_group s)))) with 4%nat.
    change (length (disk_entry (obj ACL_OTHER (sh_other s)))) with 4%nat. simpl (length []).
    destruct (sh_mask s); simpl mask_entries; cbn [map concat]; rewrite ?length_app; simpl; lia. }
  assert (Hk : 0 <= k /\ (sh_mask s = None -> k = 0)).
  { subst k. destruct (sh_mask s); [split; [lia|done]|]. destruct Hm as [-> ->]. done. }
  rewrite Hz, He. unfold ext2_acl_size, ext2_acl_count. destruct (sh_mask s) as [p|].
  - split; [destruct (Z.leb_spec (k + 4) 4); lia|]. destruct (Z.ltb_spec (4 + 8 * k + 16 - 4 - 4 * 4) 0); [lia|].
    replace (4 + 8 * k + 16 - 4 - 4 * 4) with (k * 8) by lia. rewrite Z.mod_mul, Z.div_mul by lia. simpl. lia.
  - destruct Hk as [_ Hk]. rewrite Hk by done. done.
Qed.

Lemma to_disk_ok st s L : shape_ok s -> balanced st L -> exists st' r, ext2_acl_to_disk st (to_entries s) = Some (st', r) /\
  (r = inl (- ENOMEM) \/ r = inr (encode s)) /\ balanced st' L /\ (forall q, entries st' q = entries st q) /\ requests st <= requests st'.
Proof.
  intros Hs Hb. unfold ext2_acl_to_disk. destruct (request st) as [st1 ok] eqn:Hreq.
  destruct (request_ok st L st1 ok Hb Hreq) as (Hb1&He&Hr). destruct ok; cbn [negb].
  - rewrite to_disk_entries by apply tagged_entries. fold (encode s). destruct (encode_size s Hs) as [Hz _].
    rewrite <- Hz, Z.ltb_irrefl. rewrite Nat2Z.id, take_ge by done. eexists _, _. split; [done|]. split; [by right|]. done.
  - eexists _, _. split; [done|]. split; [by left|]. done.
Qed.

Lemma from_disk_ok st s L : shape_ok s -> balanced st L -> exists st' p,
  ext2_acl_from_disk st (encode s) (zlen (encode s)) = Some (st', p) /\ requests st <= requests st' /\
  (p = - ENOMEM /\ refused st st' /\ balanced st' L /\ (forall q, entries st' q = entries st q) \/
   requests st < p /\ balanced st' (p :: L) /\ entries st' p = Some (to_entries s) /\ (forall q, q <> p -> entries st' q = entries st q)).
Proof.
  intros Hs Hb. destruct (encode_size s Hs) as [Hz Hc]. pose proof (entries_nonempty s) as H3.
  unfold ext2_acl_from_disk. rewrite Hc.
  assert (H4 : 4 <= zlen (encode s)) by (unfold encode; rewrite length_app, le_bytes_length; lia).
  destruct (Z.ltb_spec (zlen (encode s)) 4); [lia|].
  pose proof (get_le_mid [] 4 EXT2_ACL_VERSION (concat (map disk_entry (to_entries s))) 0 4 eq_refl eq_refl ltac:(done)) as Hver.
  rewrite app_nil_l in Hver. fold (encode s) in Hver. rewrite Hver, some_bind. simpl negb. cbv iota.
  destruct (Z.ltb_spec (zlen (to_entries s)) 0); [lia|]. destruct (Z.eqb_spec (zlen (to_entries s)) 0); [lia|].
  destruct (posix_acl_alloc st _) as [st1 p] eqn:Ha. unfold posix_acl_alloc in Ha. rewrite Nat2Z.id in Ha.
  destruct (kmalloc_ok st L _ st1 p Hb Ha) as (Hr&[(->&Hb1&He1)|(Hp&Hb1&He1&Hsame)]).
  { eexists _, _. split; [done|]. split; [done|]. left. split; [done|]. split; [|done]. eapply kmalloc_refused; [apply Hb|done]. }
  assert (Hr0 : 0 <= requests st) by apply Hb. destruct (Z.eqb_spec p 0); [lia|]. rewrite Nat2Z.id.
  pose proof (from_disk_entries (to_entries s) (le_bytes 4 EXT2_ACL_VERSION) (normal_entries s Hs) (tagged_entries s)) as Hf.
  cbv zeta in Hf. fold (encode s) in Hf. change (zlen (le_bytes 4 EXT2_ACL_VERSION)) with 4 in Hf.
  rewrite Hf, some_bind. cbn [fst snd]. rewrite Z.eqb_refl. cbn [andb].
  destruct (set_entries_ok st1 (p :: L) p _ (to_entries s) Hb1 He1) as (st2&->&Hb2&He2&Hs2&Hr2); [by rewrite length_replicate|].
  rewrite some_bind. eexists _, _. split; [done|]. split; [lia|]. right. split; [done|]. split; [done|]. split; [done|].
  intros q Hq. rewrite Hs2 by done. by apply Hsame.
Qed.

(** ** What the attributes promise

    [content] is the value an attribute has in the blocks of its inode.  Reading
    answers its length and, if the buffer has room, gives it, or it fails: -ENODATA
    without a value, -ERANGE for a small buffer, -EIO when the block cannot be read
    or is bad.  Storing answers 0 with the value in its place; or it fails, and then
    the old value or the new one is there: ext2_xattr_set changes a block of its own
    in place, and ext2_xattr_set2 sets i_file_acl, before the last error they may
    return.  No other attribute changes. *)
Definition ERANGE : Z := 34.
Class XattrLaws (D : Type) `{Xattrs D} := {
  content : D -> Z -> Z -> option (list Z);
  get_result d ino idx buf : let '(r, b) := ext2_xattr_get d ino idx buf in
    r = - EIO \/
    match content d ino idx, buf with
    | None, _ => r = - ENODATA
    | Some v, None => r = zlen v
    | Some v, Some n => if n <? zlen v then r = - ERANGE else r = zlen v /\ b = v
    end;
  set_result d ino idx v : let '(e, d') := ext2_xattr_set d ino idx v in
    - 4095 <= e <= 0 /\
    ((forall ino' idx', content d' ino' idx' = if decide (ino' = ino /\ idx' = idx) then v else content d ino' idx') \/
     e < 0 /\ forall ino' idx', content d' ino' idx' = content d ino' idx') }.

(** The index of an attribute, and what it says. *)
Definition attr_index (type : Z) : Z :=
  if type =? ACL_TYPE_ACCESS then EXT2_XATTR_INDEX_POSIX_ACL_ACCESS else EXT2_XATTR_INDEX_POSIX_ACL_DEFAULT.
Definition other_type (type : Z) : Z := if type =? ACL_TYPE_ACCESS then ACL_TYPE_DEFAULT else ACL_TYPE_ACCESS.
Definition is_type (type : Z) : Prop := type = ACL_TYPE_ACCESS \/ type = ACL_TYPE_DEFAULT.

(** An attribute that a read of it cannot get at. *)
Definition unreadable `{Xattrs D} (d : D) (ino idx : Z) : Prop := exists buf, (ext2_xattr_get d ino idx buf).1 = - EIO.

Section laws.
  Context {D : Type} {HX : Xattrs D} {HL : XattrLaws D}.

Definition attr_is (d : D) (ino type : Z) (o : option shape) : Prop :=
  content d ino (attr_index type) = encode <$> o /\ forall s, o = Some s -> shape_ok s.
(** Only valid lists are on the disk. *)
Definition disk_ok (d : D) : Prop := forall ino type b, is_type type ->
  content d ino (attr_index type) = Some b -> exists s, shape_ok s /\ b = encode s.

(** After a store of an inode failed its cache may have another list than the disk:
    [B] has the inodes for which that may be so. *)
Definition says (B : Z -> Prop) (d : D) (ino type : Z) (o : option shape) : Prop :=
  attr_is d ino type o \/ B ino /\ forall s, o = Some s -> shape_ok s.
Definition none : Z -> Prop := fun _ => False.
(** The inode of a store that answered [e] is one of them. *)
Definition mark (e ino : Z) (B : Z -> Prop) : Z -> Prop := fun x => B x \/ e < 0 /\ x = ino.

(** The object [p] is the list [o]. *)
Definition acl_is (st : store) (p : Z) (o : option shape) : Prop :=
  match o with Some s => 0 < p /\ entries st p = Some (to_entries s) | None => p = 0 end.
Definition cache_ok (B : Z -> Prop) (st : store) (d : D) (i : inode) (type : Z) : Prop :=
  i_field i type = EXT2_ACL_NOT_CACHED \/ exists o, says B d (i_ino i) type o /\ acl_is st (i_field i type) o.
Definition inode_ok (B : Z -> Prop) (st : store) (d : D) (i : inode) : Prop :=
  cache_ok B st d i ACL_TYPE_ACCESS /\ cache_ok B st d i ACL_TYPE_DEFAULT.
(** The references of an inode. *)
Definition ptrs (i : inode) : list Z := [i_acl i; i_default_acl i].

(** The entries tell the shape. *)
Lemma named_split tag l l' e e' r r' : map (named tag) l ++ e :: r = map (named tag) l' ++ e' :: r' ->
  e_tag e <> tag -> e_tag e' <> tag -> l = l' /\ e = e' /\ r = r'.
Proof.
  revert l'. induction l as [|[a b] l IH]; intros [|[a' b'] l'] H He He'; simpl in H; injection H; intros; subst; try done.
  destruct (IH l') as (->&->&->); done.
Qed.
Lemma to_entries_inj s s' : to_entries s = to_entries s' -> s = s'.
Proof.
  destruct s as [o us g gs m t], s' as [o' us' g' gs' m' t']. unfold to_entries, tail_entries. simpl.
  intros [= -> H]. apply named_split in H as (->&[= ->]&H); [|done|done].
  destruct m as [x|], m' as [x'|]; simpl in H; apply named_split in H as (->&He&H); try done; simplify_eq/=; done.
Qed.

(** The disk tells which list it has. *)
Lemma encode_inj s s' : shape_ok s -> shape_ok s' -> encode s = encode s' -> s = s'.
Proof.
  intros Hs Hs' He. apply to_entries_inj. destruct (encode_size s Hs) as [_ Hc], (encode_size s' Hs') as [_ Hc'].
  pose proof (from_disk_entries (to_entries s) (le_bytes 4 EXT2_ACL_VERSION) (normal_entries s Hs) (tagged_entries s)) as Hf.
  pose proof (from_disk_entries (to_entries s') (le_bytes 4 EXT2_ACL_VERSION) (normal_entries s' Hs') (tagged_entries s')) as Hf'.
  cbv zeta in *. fold (encode s) in Hf. fold (encode s') in Hf'. rewrite He in Hf, Hc. rewrite Hc in Hc'.
  apply Nat2Z.inj in Hc'. rewrite <- Hc' in Hf'. congruence.
Qed.
Lemma attr_unique d ino type o o' : attr_is d ino type o -> attr_is d ino type o' -> o = o'.
Proof.
  intros [Ha Hs] [Ha' Hs']. rewrite Ha in Ha'. destruct o as [s|], o' as [s'|]; simpl in Ha'; try done.
  assert (He : encode s = encode s') by congruence. f_equal. by apply encode_inj; [apply Hs|apply Hs'|].
Qed.
Lemma says_none d ino type o o' : attr_is d ino type o -> says none d ino type o' -> o' = o.
Proof. intros Ha [Ha'|[[] _]]. by eapply attr_unique. Qed.
Lemma says_shape B d ino type s : says B d ino type (Some s) -> shape_ok s.
Proof. intros [[_ H]|[_ H]]; by apply H. Qed.
Lemma says_weaken (B B' : Z -> Prop) d ino type o : (forall x, B x -> B' x) -> says B d ino type o -> says B' d ino type o.
Proof. intros HB [H|[H ?]]; [by left|right]. split; [by apply HB|done]. Qed.
Lemma inode_weaken (B B' : Z -> Prop) st d i : (forall x, B x -> B' x) -> inode_ok B st d i -> inode_ok B' st d i.
Proof.
  intros HB [H1 H2]. split; [destruct H1 as [|(o&?&?)]|destruct H2 as [|(o&?&?)]]; try (by left); right; exists o; by split; [eapply says_weaken|].
Qed.
Lemma mark_here e ino B : e < 0 -> mark e ino B ino.
Proof. by right. Qed.
Lemma mark_keeps e ino B x : B x -> mark e ino B x.
Proof. by left. Qed.
Lemma inode_mark e ino (B : Z -> Prop) st d i : inode_ok B st d i -> inode_ok (mark e ino B) st d i.
Proof. apply inode_weaken. intros x. apply mark_keeps. Qed.
Lemma inode_unmark e ino (B : Z -> Prop) st d i : 0 <= e -> inode_ok (mark e ino B) st d i -> inode_ok B st d i.
Proof. intros He. apply inode_weaken. intros x [|[? _]]; [done|lia]. Qed.

Lemma cache_mono B st st' d i type L : keeps L st st' -> i_field i type ∈ L -> cache_ok B st d i type -> cache_ok B st' d i type.
Proof.
  intros Hk Hin [H|(o&Ha&Ho)]; [by left|right]. exists o. split; [done|]. destruct o as [s|]; [|done].
  destruct Ho as [Hp He]. split; [done|]. by rewrite Hk.
Qed.

Lemma field_ptrs i type : i_field i type ∈ ptrs i.
Proof. unfold i_field, ptrs. destruct (_ =? _); set_solver. Qed.
Lemma ptrs_split i type : is_type type -> exists q, ptrs i ≡ₚ [i_field i type; q] /\
  (forall p, ptrs (set_field i type p) ≡ₚ [p; q]) /\ q = i_field i (other_type type).
Proof.
  intros [-> | ->]; simpl; unfold ptrs, i_field, set_field; simpl.
  - exists (i_default_acl i). done.
  - exists (i_acl i). split; [apply perm_swap|]. split; [intros; apply perm_swap|done].
Qed.

Lemma inode_mono B st st' d i L : keeps L st st' -> ptrs i ⊆ L -> inode_ok B st d i -> inode_ok B st' d i.
Proof. intros Hk Hs [? ?]. split; (eapply cache_mono; [done| |done]); apply Hs, field_ptrs. Qed.

Lemma IS_ERR_neg p : - 4095 <= p < 0 -> IS_ERR p = true.
Proof. intros. unfold IS_ERR. zcases; simpl; (done || lia). Qed.
Lemma IS_ERR_pos p : 0 <= p -> IS_ERR p = false.
Proof. intros. unfold IS_ERR. destruct (Z.ltb_spec p 0); [lia|]. apply andb_false_r. Qed.

(** Storing a pointer in the cache. *)
Lemma iset_ok B st d i type p o L : is_type type -> balanced st (ptrs i ++ L) -> cache_ok B st d i (other_type type) ->
  says B d (i_ino i) type o -> acl_is st p o -> p = 0 \/ 0 < p /\ p ∈ L ->
  i_field i type = EXT2_ACL_NOT_CACHED \/ 0 <= i_field i type ->
  exists st', ext2_iset_acl st i type p = Some (st', set_field i type p) /\
    balanced st' (ptrs (set_field i type p) ++ L) /\ inode_ok B st' d (set_field i type p) /\ keeps L st st' /\
    requests st <= requests st'.
Proof.
  intros Ht Hb Hoc Ha Hp HpL Hf. destruct (ptrs_split i type Ht) as (q&Hq&Hset&Hqf).
  assert (Hb1 : balanced st (i_field i type :: q :: L)).
  { eapply balanced_perm; [|exact Hb]. by rewrite Hq. }
  assert (Hrel : exists st1, (if negb (i_field i type =? EXT2_ACL_NOT_CACHED) then posix_acl_release st (i_field i type) else Some st) = Some st1 /\
    balanced st1 (q :: L) /\ keeps (q :: L) st st1 /\ requests st <= requests st1).
  { destruct (Z.eqb_spec (i_field i type) EXT2_ACL_NOT_CACHED) as [He|He]; simpl negb; cbv iota.
    - exists st. split; [done|]. split; [|done]. rewrite He in Hb1. by apply balanced_zero in Hb1.
    - destruct Hf as [|Hf]; [done|]. by apply release_ok. }
  destruct Hrel as (st1&Hrel&Hb2&Hk1&Hr1). unfold ext2_iset_acl. rewrite Hrel, some_bind.
  destruct (dup_ok st1 (q :: L) p Hb2) as (st2&->&Hb3&He2&Hr2); [destruct HpL as [|[? ?]]; [by left|right; split; [done|by right]]|].
  rewrite some_bind. exists st2. split; [done|].
  assert (Hk2 : keeps (q :: L) st st2) by (intros x Hx Hin; rewrite He2; by apply Hk1).
  split; [|split; [|split; [|lia]]].
  - eapply balanced_perm; [|exact Hb3]. by rewrite Hset.
  - assert (Hnew : cache_ok B st2 d (set_field i type p) type).
    { right. exists o. split; [by destruct Ht as [-> | ->]|].
      assert (Hfs : i_field (set_field i type p) type = p) by by destruct Ht as [-> | ->]. rewrite Hfs.
      destruct o as [s|]; [|done]. destruct Hp as [Hp0 Hp]. split; [done|]. rewrite Hk2; [done|done|].
      destruct HpL as [|[_ ?]]; [lia|by right]. }
    assert (Ho : cache_ok B st2 d i (other_type type)) by (eapply cache_mono; [exact Hk2|rewrite <- Hqf; left|done]).
    destruct Ht as [-> | ->]; by split.
  - eapply keeps_sub; [|exact Hk2]. set_solver.
Qed.

Lemma cache_range B st d i type : cache_ok B st d i type -> i_field i type = EXT2_ACL_NOT_CACHED \/ 0 <= i_field i type.
Proof. intros [H|([s|]&_&Ho)]; [by left|right; destruct Ho; lia|right; simpl in Ho; lia]. Qed.
Lemma inode_other B st d i type : inode_ok B st d i -> cache_ok B st d i (other_type type).
Proof. intros [? ?]. unfold other_type. by destruct (_ =? _). Qed.
Lemma inode_cache B st d i type : is_type type -> inode_ok B st d i -> cache_ok B st d i type.
Proof. by intros [-> | ->] [? ?]. Qed.

(** The same file. *)
Definition same_file (i i' : inode) : Prop :=
  i_ino i' = i_ino i /\ i_mode i' = i_mode i /\ i_uid i' = i_uid i /\ i_gid i' = i_gid i.
Lemma same_field i type p : same_file i (set_field i type p).
Proof. unfold set_field. by destruct (_ =? _). Qed.
End laws.

(** ** Getting a list *)

Section get.
  Context {D : Type} {HX : Xattrs D} {HL : XattrLaws D} (c : context).
  Hypothesis Hopt : posixacl c = true.

Lemma same_file_refl i : same_file i i.
Proof. done. Qed.

(** The outcome of ext2_get_acl: an error for its cause, or the list, held. *)
Definition get_outcome (B : Z -> Prop) (st st' : store) (d : D) (i i' : inode) (type r : Z) (L : list Z) : Prop :=
  ((r = - ENOMEM /\ refused st st' \/ r = - EIO /\ unreadable d (i_ino i) (attr_index type)) /\ balanced st' (ptrs i' ++ L)) \/
  exists o, says B d (i_ino i) type o /\ acl_is st' r o /\ balanced st' (ptrs i' ++ r :: L).

Lemma get_outcome_err B st st' d i i' type r L : get_outcome B st st' d i i' type r L ->
  - 4095 <= r < 0 /\ (r = - ENOMEM /\ refused st st' \/ r = - EIO /\ unreadable d (i_ino i) (attr_index type)) /\ balanced st' (ptrs i' ++ L) \/
  exists o, says B d (i_ino i) type o /\ acl_is st' r o /\ balanced st' (ptrs i' ++ r :: L).
Proof. intros [[Hr Hb]|H]; [left|by right]. split; [|done]. unfold ENOMEM, EIO in Hr. lia. Qed.

Lemma fetch_ok B st0 st d i type p o L : is_type type -> balanced st (ptrs i ++ p :: L) -> inode_ok B st d i ->
  attr_is d (i_ino i) type o -> acl_is st p o -> i_field i type = EXT2_ACL_NOT_CACHED ->
  exists st', ext2_iset_acl st i type p = Some (st', set_field i type p) /\
    inode_ok B st' d (set_field i type p) /\ keeps (p :: L) st st' /\ requests st <= requests st' /\
    get_outcome B st0 st' d i (set_field i type p) type p L.
Proof.
  intros Ht Hb Hi Ha Hp Hf.
  assert (Hp0 : p = 0 \/ 0 < p /\ p ∈ p :: L) by (destruct o; [right; split; [apply Hp|left]|by left]).
  destruct (iset_ok B st d i type p o (p :: L)) as (st'&He&Hb'&Hi'&Hk&Hr); try done; [by apply inode_other|by left|by left|].
  exists st'. split; [done|]. split; [done|]. split; [done|]. split; [done|]. right. exists o. split; [by left|]. split; [|done].
  destruct o as [s|]; [|done]. destruct Hp as [H0 Hp]. split; [done|]. rewrite Hk; [done|done|left].
Qed.

(** An error that leaves the references alone. *)
Lemma get_failed B st st1 d i type r L : balanced st1 (ptrs i ++ L) -> inode_ok B st d i -> (forall q, entries st1 q = entries st q) ->
  requests st <= requests st1 -> (r = - ENOMEM /\ refused st st1 \/ r = - EIO /\ unreadable d (i_ino i) (attr_index type)) ->
  exists st' i' r', Some (st1, i, r) = Some (st', i', r') /\ same_file i i' /\ inode_ok B st' d i' /\
    keeps L st st' /\ requests st <= requests st' /\ get_outcome B st st' d i i' type r' L.
Proof.
  intros Hb1 Hi He Hr Hc. eexists _, _, _. split; [done|]. split; [done|].
  split; [by eapply (inode_mono B st st1 d i (ptrs i)); [intros x _ _; apply He| |]|].
  split; [intros x _ _; apply He|]. split; [done|]. by left.
Qed.

Lemma encode_long s : 4 <= zlen (encode s).
Proof. unfold encode. rewrite length_app, le_bytes_length. lia. Qed.

(** Reading the attribute, with no list in the cache. *)
Lemma fetch_acl_ok B st d i type L : is_type type -> balanced st (ptrs i ++ L) -> inode_ok B st d i -> disk_ok d ->
  i_field i type = EXT2_ACL_NOT_CACHED -> exists st' i' r,
  (let retval := (ext2_xattr_get d (i_ino i) (attr_index type) None).1 in
   let '(st, ok) := if 0 <? retval then request st else (st, true) in
   if negb ok then Some (st, i, - ENOMEM) else
   let '(retval, value) :=
     if 0 <? retval then ext2_xattr_get d (i_ino i) (attr_index type) (Some retval) else (retval, []) in
   r ← (if 0 <? retval then ext2_acl_from_disk st value retval
        else if (retval =? - ENODATA) || (retval =? - ENOSYS) then Some (st, 0)
        else Some (st, retval));
   let '(st, acl) := (r : store * Z) in
   if negb (IS_ERR acl) then r ← ext2_iset_acl st i type acl; Some (r.1, r.2, acl) else Some (st, i, acl)) = Some (st', i', r) /\
  same_file i i' /\ inode_ok B st' d i' /\ keeps L st st' /\ requests st <= requests st' /\ get_outcome B st st' d i i' type r L.
Proof.
  intros Ht Hb Hi Hd Hf. pose proof (get_result d (i_ino i) (attr_index type) None) as H1. cbv zeta.
  destruct (ext2_xattr_get d (i_ino i) (attr_index type) None) as [r1 b1] eqn:Hg1. cbn [fst].
  destruct H1 as [->|H1].
  { simpl. apply get_failed; try done. right. split; [done|]. exists None. by rewrite Hg1. }
  destruct (content d (i_ino i) (attr_index type)) as [v|] eqn:Hc; subst r1.
  2:{ simpl. destruct (fetch_ok B st st d i type 0 None L) as (st'&->&Hi'&Hk&Hr&Ho); try done.
      { rewrite <- (Permutation_middle (ptrs i)). by apply balanced_zero. }
      rewrite some_bind. eexists _, _, _. split; [done|]. split; [apply same_field|]. split; [done|].
      split; [eapply keeps_sub; [|exact Hk]; set_solver|]. done. }
  destruct (Hd _ _ _ Ht Hc) as (s&Hs&->). pose proof (encode_long s) as H4.
  destruct (Z.ltb_spec 0 (zlen (encode s))); [|lia]. destruct (request st) as [st1 ok] eqn:Hreq.
  destruct (request_ok st _ st1 ok Hb Hreq) as (Hb1&He1&Hr1).
  assert (Hg : grants st1 = grants st) by (unfold request in Hreq; by simplify_eq).
  destruct ok; cbn [negb]; [|apply get_failed; try done; left; split; [done|by apply request_refused]].
  pose proof (get_result d (i_ino i) (attr_index type) (Some (zlen (encode s)))) as H2.
  destruct (ext2_xattr_get d (i_ino i) (attr_index type) (Some (zlen (encode s)))) as [r2 b2] eqn:Hg2.
  destruct H2 as [->|H2].
  { simpl. apply get_failed; try done. right. split; [done|]. eexists. by rewrite Hg2. }
  rewrite Hc, Z.ltb_irrefl in H2. destruct H2 as [-> ->]. destruct (Z.ltb_spec 0 (zlen (encode s))); [|lia].
  destruct (from_disk_ok st1 s _ Hs Hb1) as (st2&p&->&Hr2&[(->&Hno&Hb2&He2)|(Hp&Hb2&Hp2&He2)]); rewrite some_bind.
  - change (negb (IS_ERR (- ENOMEM))) with false. cbv iota.
    apply get_failed; try done; [intros q; by rewrite He2, He1|lia|]. left. split; [done|]. by eapply refused_after.
  - assert (Hr0 : 0 <= requests st) by apply Hb. rewrite IS_ERR_pos by lia. cbn [negb].
    assert (Hsame : keeps (ptrs i ++ L) st st2).
    { intros x Hx Hin. rewrite He2, He1; [done|]. intros ->. apply cnt_in in Hin.
      destruct (balanced_fresh st _ p Hb ltac:(lia)) as [_ Hz]. lia. }
    destruct (fetch_ok B st st2 d i type p (Some s) L) as (st'&->&Hi'&Hk&Hr&Ho); try done.
    { eapply balanced_perm; [|exact Hb2]. apply Permutation_middle. }
    { eapply inode_mono; [exact Hsame|set_solver|done]. }
    { split; [by rewrite Hc|]. by intros ? [= <-]. }
    { split; [lia|done]. }
    rewrite some_bind. cbn [fst snd]. eexists _, _, _. split; [done|]. split; [apply same_field|]. split; [done|].
    split; [|split; [lia|done]]. eapply keeps_trans; [eapply keeps_sub; [|exact Hsame]; set_solver|].
    eapply keeps_sub; [|exact Hk]. set_solver.
Qed.

Lemma get_acl_ok B st d i type L : is_type type -> balanced st (ptrs i ++ L) -> inode_ok B st d i -> disk_ok d ->
  exists st' i' r, ext2_get_acl c st d i type = Some (st', i', r) /\ same_file i i' /\ inode_ok B st' d i' /\
    keeps L st st' /\ requests st <= requests st' /\ get_outcome B st st' d i i' type r L.
Proof.
  intros Ht Hb Hi Hd. unfold ext2_get_acl. rewrite Hopt. cbn [negb].
  assert (Htb : (type =? ACL_TYPE_ACCESS) || (type =? ACL_TYPE_DEFAULT) = true) by by destruct Ht as [-> | ->].
  rewrite Htb. cbn [negb]. unfold ext2_iget_acl. pose proof (inode_cache B st d i type Ht Hi) as Hc.
  destruct (Z.eqb_spec (i_field i type) EXT2_ACL_NOT_CACHED) as [Hf|Hf]; cbn [negb].
  - rewrite some_bind. change (negb (EXT2_ACL_NOT_CACHED =? EXT2_ACL_NOT_CACHED)) with false. cbv iota.
    fold (attr_index type). by apply fetch_acl_ok.
  - destruct Hc as [|(o&Ha&Ho)]; [done|].
    destruct (dup_ok st (ptrs i ++ L) (i_field i type) Hb) as (st'&->&Hb'&He&Hr).
    { destruct o; [right|left; exact Ho]. destruct Ho. split; [done|]. apply elem_of_app. left. apply field_ptrs. }
    rewrite some_bind. destruct (Z.eqb_spec (i_field i type) EXT2_ACL_NOT_CACHED); [done|]. cbn [negb].
    eexists _, _, _. split; [done|]. split; [done|].
    split; [by eapply (inode_mono B st st' d i (ptrs i)); [intros x _ _; apply He| |]|].
    split; [intros x _ _; apply He|]. split; [done|]. right. exists o. split; [done|].
    split; [destruct o; [by split; [|rewrite He]; apply Ho|done]|].
    eapply balanced_perm; [|exact Hb']. apply Permutation_middle.
Qed.
End get.

(** ** Setting a list *)

Section set.
  Context {D : Type} {HX : Xattrs D} {HL : XattrLaws D} (c : context).
  Hypothesis Hopt : posixacl c = true.

(** Everything on the disk but the attribute of one inode is as before. *)
Definition disk_same (d d' : D) (ino idx : Z) : Prop :=
  forall ino' idx', ~ (ino' = ino /\ idx' = idx) -> content d' ino' idx' = content d ino' idx'.
Definition disk_equal (d d' : D) : Prop := forall ino idx, content d' ino idx = content d ino idx.

Lemma attr_transfer d d' ino type o : content d' ino (attr_index type) = content d ino (attr_index type) ->
  attr_is d ino type o -> attr_is d' ino type o.
Proof. unfold attr_is. intros ->. done. Qed.
Lemma cache_transfer B st d d' i type : content d' (i_ino i) (attr_index type) = content d (i_ino i) (attr_index type) ->
  cache_ok B st d i type -> cache_ok B st d' i type.
Proof.
  intros He [H|(o&Ha&Ho)]; [by left|right]. exists o. split; [|done]. destruct Ha as [Ha|Ha]; [left; by eapply attr_transfer|by right].
Qed.
(** A cache that the disk may have left behind. *)
Lemma cache_behind B B' st d d' i type : (forall x, B x -> B' x) -> B' (i_ino i) -> cache_ok B st d i type -> cache_ok B' st d' i type.
Proof.
  intros HB Hi [H|(o&Ha&Ho)]; [by left|right]. exists o. split; [right|done]. split; [done|]. intros s ->. by eapply says_shape.
Qed.

Lemma attr_index_other type : is_type type -> attr_index (other_type type) <> attr_index type.
Proof. by intros [-> | ->]. Qed.

(** What a call that may store does. *)
Definition set_outcome (B : Z -> Prop) (st st' : store) (d d' : D) (i i' : inode) (type e : Z) (o : option shape) (L : list Z) : Prop :=
  keeps L st st' /\ requests st <= requests st' /\ balanced st' (ptrs i' ++ L) /\ inode_ok (mark e (i_ino i) B) st' d' i' /\ disk_ok d' /\
  disk_same d d' (i_ino i) (attr_index type) /\ - 4095 <= e <= 0 /\
  (e = 0 -> attr_is d' (i_ino i) type o) /\ (e < 0 -> disk_equal d d' \/ attr_is d' (i_ino i) type o).

Lemma set_disk_ok d d' ino type o : disk_ok d -> (forall s, o = Some s -> shape_ok s) ->
  (forall ino' idx', content d' ino' idx' = if decide (ino' = ino /\ idx' = attr_index type)
     then encode <$> o else content d ino' idx') -> disk_ok d'.
Proof.
  intros Hd Ho Hg ino' type' b Ht' Hb. rewrite Hg in Hb. case_decide; [|by eapply Hd].
  destruct o as [s|]; [|done]. injection Hb as <-. exists s. auto.
Qed.

Lemma store_acl_ok B st d i type p o L : is_type type -> balanced st (ptrs i ++ L) -> inode_ok B st d i -> disk_ok d ->
  acl_is st p o -> (forall s, o = Some s -> shape_ok s /\ p ∈ L) ->
  exists st' d' i' e, store_acl st d i type p (attr_index type) = Some (st', d', i', e) /\ same_file i i' /\
    set_outcome B st st' d d' i i' type e o L.
Proof.
  intros Ht Hb Hi Hd Hp Ho. unfold store_acl.
  assert (Hval : exists st1 v, (if negb (p =? 0) then a ← acls st !! p; ext2_acl_to_disk st (a_entries a)
      else Some (st, inr [])) = Some (st1, v) /\ balanced st1 (ptrs i ++ L) /\ (forall q, entries st1 q = entries st q) /\
      requests st <= requests st1 /\
      (v = inl (- ENOMEM) \/ exists b, v = inr b /\ forall s, o = Some s -> b = encode s)).
  { destruct o as [s|].
    - destruct Hp as [Hp He]. destruct (Z.eqb_spec p 0); [lia|]. cbn [negb]. unfold entries in He.
      destruct (acls st !! p) as [a|]; [|done]. simpl in He. simplify_eq. rewrite some_bind, He.
      destruct (to_disk_ok st s _ (proj1 (Ho s eq_refl)) Hb) as (st1&r&->&Hr&Hb1&He1&Hr1).
      eexists _, _. split; [done|]. split; [done|]. split; [done|]. split; [done|].
      destruct Hr as [->| ->]; [by left|right]. eexists. split; [done|]. by intros ? [= ->].
    - simpl in Hp. subst p. eexists _, _. split; [done|]. split; [done|]. split; [done|]. split; [done|].
      right. by eexists. }
  destruct Hval as (st1&v&->&Hb1&He1&Hr1&Hv). rewrite some_bind.
  assert (Hk1 : forall L', keeps L' st st1) by (intros L' x _ _; apply He1).
  assert (Hi1 : inode_ok B st1 d i) by by eapply (inode_mono B st st1 d i (ptrs i)).
  destruct Hv as [->|(b&->&Hbs)].
  { eexists _, _, _, _. split; [done|]. split; [done|]. split_and!; try done; [by apply inode_mark|by left]. }
  assert (Hval : (if negb (p =? 0) then Some b else None) = encode <$> o).
  { destruct o as [s|]; [|simpl in Hp; by subst p]. destruct Hp as [Hp _]. destruct (Z.eqb_spec p 0); [lia|].
    simpl. by rewrite (Hbs s). }
  rewrite Hval. pose proof (set_result d (i_ino i) (attr_index type) (encode <$> o)) as Hset.
  destruct (ext2_xattr_set d (i_ino i) (attr_index type) (encode <$> o)) as [e d'].
  destruct Hset as [He Hg]. assert (Hos : forall s, o = Some s -> shape_ok s) by (intros s Hs; apply (Ho s Hs)).
  assert (Hsame : disk_same d d' (i_ino i) (attr_index type)).
  { intros ino' idx' Hne. destruct Hg as [Hg|[_ Hg]]; rewrite Hg; [by rewrite decide_False|done]. }
  assert (Hd' : disk_ok d').
  { destruct Hg as [Hg|[_ Hg]]; [by eapply set_disk_ok|]. intros ino' type' b' Ht' Hb'. rewrite Hg in Hb'. by eapply Hd. }
  assert (Hnew : (forall ino' idx', content d' ino' idx' = if decide (ino' = i_ino i /\ idx' = attr_index type) then encode <$> o else content d ino' idx') ->
    attr_is d' (i_ino i) type o) by (intros Hg'; split; [by rewrite Hg', decide_True|done]).
  assert (Hoth : forall B', (forall x, B x -> B' x) -> cache_ok B' st1 d' i (other_type type)).
  { intros B' HB. eapply cache_transfer; [apply Hsame; intros [_ Hx]; by apply (attr_index_other type)|].
    apply (inode_other B' st1 d i type). by eapply inode_weaken. }
  destruct (Z.eqb_spec e 0) as [->|Hne].
  - destruct Hg as [Hg|[? _]]; [|lia].
    destruct (iset_ok B st1 d' i type p o L) as (st2&->&Hb2&Hi2&Hk2&Hr2); try done.
    + by apply Hoth.
    + left. by apply Hnew.
    + destruct o as [s|]; [|done]. destruct Hp as [H0 Hp]. split; [done|]. by rewrite He1.
    + destruct o as [s|]; [right; split; [apply Hp|apply (Ho s eq_refl)]|by left].
    + by eapply cache_range, inode_cache.
    + rewrite some_bind. cbn [fst snd]. eexists _, _, _, _. split; [done|]. split; [apply same_field|].
      split_and!; try done; [by eapply keeps_trans|lia|by apply inode_mark|by intros _; apply Hnew].
  - eexists _, _, _, _. split; [done|]. split; [done|].
    assert (Hlt : e < 0) by lia. split_and!; try done; try lia.
    + assert (H1 : cache_ok (mark e (i_ino i) B) st1 d' i type).
      { eapply cache_behind; [apply mark_keeps|by apply mark_here|by eapply inode_cache]. }
      pose proof (Hoth (mark e (i_ino i) B) (mark_keeps e (i_ino i) B)) as H2. destruct Ht as [-> | ->]; by split.
    + intros _. destruct Hg as [Hg|[_ Hg]]; [right; by apply Hnew|by left].
Qed.

Lemma inode_ok_mode B st d i m : inode_ok B st d (set_mode i m) <-> inode_ok B st d i.
Proof. done. Qed.

(** ext2_set_acl: the attribute becomes the list, or for an access list that says no
    more than the mode none; the mode gets the bits of an access list. *)
Definition kept_list (type : Z) (o : option shape) : option shape :=
  match o with
  | Some s => if (type =? ACL_TYPE_ACCESS) && negb (extended s) then None else Some s
  | None => None
  end.
Definition new_mode (type m : Z) (o : option shape) : Z :=
  match o with Some s => if type =? ACL_TYPE_ACCESS then shape_mode m s else m | None => m end.

Lemma set_acl_ok B st d i type p o L : is_type type -> balanced st (ptrs i ++ L) -> inode_ok B st d i -> disk_ok d ->
  acl_is st p o -> (forall s, o = Some s -> shape_ok s /\ p ∈ L) -> S_ISLNK (i_mode i) = false ->
  (type = ACL_TYPE_DEFAULT -> S_ISDIR (i_mode i) = true) ->
  exists st' d' i' e, ext2_set_acl c st d i type p = Some (st', d', i', e) /\
    same_file (set_mode i (new_mode type (i_mode i) o)) i' /\ set_outcome B st st' d d' i i' type e (kept_list type o) L.
Proof.
  intros Ht Hb Hi Hd Hp Ho Hlnk Hdir. unfold ext2_set_acl. rewrite Hlnk, Hopt. cbn [negb].
  destruct Ht as [-> | ->].
  - change (ACL_TYPE_ACCESS =? ACL_TYPE_ACCESS) with true. cbv iota. destruct o as [s|].
    + destruct Hp as [Hp0 He]. destruct (Z.eqb_spec p 0); [lia|]. cbn [negb].
      destruct (Ho s eq_refl) as [Hs HpL]. unfold entries in He. destruct (acls st !! p) as [a|] eqn:Ha; [|done].
      simpl in He. simplify_eq. rewrite some_bind, He, equiv_mode_shape by done.
      change (new_mode ACL_TYPE_ACCESS (i_mode i) (Some s)) with (shape_mode (i_mode i) s).
      change (kept_list ACL_TYPE_ACCESS (Some s)) with (if negb (extended s) then None else Some s).
      destruct (extended s); cbn [negb Z.ltb Z.eqb].
      * destruct (store_acl_ok B st d (set_mode i (shape_mode (i_mode i) s)) ACL_TYPE_ACCESS p (Some s) L)
          as (st'&d'&i'&e&Hse&Hsf&Hout); try done; [by left|split; [done|]; unfold entries; by rewrite Ha, <- He|].
        eexists _, _, _, _. split; [exact Hse|]. by split.
      * destruct (store_acl_ok B st d (set_mode i (shape_mode (i_mode i) s)) ACL_TYPE_ACCESS 0 None L)
          as (st'&d'&i'&e&Hse&Hsf&Hout); try done; [by left|].
        eexists _, _, _, _. split; [exact Hse|]. by split.
    + simpl in Hp. subst p. cbn [negb Z.eqb].
      destruct (store_acl_ok B st d i ACL_TYPE_ACCESS 0 None L) as (st'&d'&i'&e&Hse&Hsf&Hout); try done; [by left|].
      eexists _, _, _, _. split; [exact Hse|]. by split.
  - change (ACL_TYPE_DEFAULT =? ACL_TYPE_ACCESS) with false. change (ACL_TYPE_DEFAULT =? ACL_TYPE_DEFAULT) with true. cbv iota.
    rewrite (Hdir eq_refl). cbn [negb].
    destruct (store_acl_ok B st d i ACL_TYPE_DEFAULT p o L) as (st'&d'&i'&e&Hse&Hsf&Hout); try done; [by right|].
    eexists _, _, _, _. split; [exact Hse|]. split; [by destruct o|]. by destruct o.
Qed.
End set.

(** ** The decision on a file *)

Section permission.
  Context {D : Type} {HX : Xattrs D} {HL : XattrLaws D} (c : context) (member : Z -> bool).
  Hypothesis Hopt : posixacl c = true.
  Hypothesis Hgroups : forall g, c_in_group_p c g = Some (member g).

(** What the permission bits alone say. *)
Definition mode_allows (i : inode) (mask : Z) : bool :=
  fits (cls (if i_uid i =? c_fsuid c then 6 else if member (i_gid i) then 3 else 0) (i_mode i)) mask.
Definition file_allows (i : inode) (o : option shape) (mask : Z) : bool :=
  match o with
  | Some s => acl_allows s (i_uid i) (i_gid i) (c_fsuid c) member mask
  | None => mode_allows i mask
  end.

Lemma check_mode_fits i k mask : check_mode c i (Z.shiftr (i_mode i) k) mask =
  if fits (cls k (i_mode i)) mask then 0 else check_capabilities c i mask.
Proof.
  unfold check_mode, fits, cls. change (Z.lor (Z.lor MAY_READ MAY_WRITE) MAY_EXEC) with 7.
  rewrite <- !Z.land_assoc, (Z.land_comm mask). done.
Qed.

(** A failed call: an allocation was refused, or the attribute cannot be read. *)
Definition failed_for (st st' : store) (d : D) (i : inode) (type r : Z) : Prop :=
  r = - ENOMEM /\ refused st st' \/ r = - EIO /\ unreadable d (i_ino i) (attr_index type).

Lemma check_acl_ok B st d i mask L : balanced st (ptrs i ++ L) -> inode_ok B st d i -> disk_ok d ->
  exists st' i' r, ext2_check_acl c st d i mask = Some (st', i', r) /\ same_file i i' /\ inode_ok B st' d i' /\
    keeps L st st' /\ requests st <= requests st' /\ balanced st' (ptrs i' ++ L) /\
    (failed_for st st' d i ACL_TYPE_ACCESS r \/ exists o, says B d (i_ino i) ACL_TYPE_ACCESS o /\ r = match o with
       | Some s => if acl_allows s (i_uid i) (i_gid i) (c_fsuid c) member mask then 0 else - EACCES
       | None => - EAGAIN end).
Proof.
  intros Hb Hi Hd. unfold ext2_check_acl.
  destruct (get_acl_ok c Hopt B st d i ACL_TYPE_ACCESS L (or_introl eq_refl) Hb Hi Hd)
    as (st1&i1&r&->&Hsf&Hi1&Hk1&Hr1&Hout). rewrite some_bind.
  apply get_outcome_err in Hout as [(Hneg&Hr&Hb1)|(o&Ha&Hp&Hb1)].
  - rewrite IS_ERR_neg by done. eexists _, _, _. split; [done|]. split_and!; try done. by left.
  - destruct Hsf as (Hino&Hmode&Huid&Hgid). destruct o as [s|].
    + destruct Hp as [Hr0 He]. rewrite IS_ERR_pos by lia. destruct (Z.eqb_spec r 0); [lia|]. cbn [negb].
      unfold entries in He. destruct (acls st1 !! r) as [a|]; [|done]. simpl in He. simplify_eq.
      rewrite some_bind, He, (permission_shape (subject_of c i1) member mask Hgroups s), some_bind.
      rewrite <- (Permutation_middle (ptrs i1)) in Hb1. destruct (release_ok st1 _ r Hb1) as (st2&->&Hb2&Hk2&Hr2); [lia|].
      rewrite some_bind. eexists _, _, _. split; [done|]. split; [done|].
      split; [eapply inode_mono; [exact Hk2|set_solver|done]|].
      split; [eapply keeps_trans; [exact Hk1|]; eapply keeps_sub; [|exact Hk2]; set_solver|].
      split; [lia|]. split; [done|]. right. exists (Some s). split; [done|].
      cbn [subject_of fsuid PosixAcl.i_uid PosixAcl.i_gid]. by rewrite Huid, Hgid.
    + simpl in Hp. subst r. simpl. eexists _, _, _. split; [done|]. split; [done|]. split; [done|]. split; [done|].
      split; [done|]. split; [|right; by exists None]. rewrite <- (Permutation_middle (ptrs i1)) in Hb1. by apply balanced_zero in Hb1.
Qed.

(** C3. The decision of ext2_permission on a file whose mode agrees with its access
    list and has group bits (or that has no list), with references counted, caches in
    step with the disk and valid lists there: an access is granted exactly when the
    access list on the disk grants it by the POSIX check, or the permission bits do
    for a file without a list, or else a capability overrides the refusal.  The only
    other answers are -ENOMEM, when an allocation was refused in this call, and -EIO,
    when the attribute cannot be read. *)
Theorem ext2_permission_decides st d i mask L o : balanced st (ptrs i ++ L) -> inode_ok none st d i -> disk_ok d ->
  attr_is d (i_ino i) ACL_TYPE_ACCESS o ->
  (forall s, o = Some s -> shape_mode (i_mode i) s = i_mode i /\ Z.land (i_mode i) S_IRWXG <> 0) ->
  exists st' i' r, ext2_permission c st d i mask = Some (st', i', r) /\
    same_file i i' /\ inode_ok none st' d i' /\ keeps L st st' /\ balanced st' (ptrs i' ++ L) /\
    (r = (if file_allows i o mask then 0 else check_capabilities c i mask) \/
     r = - ENOMEM /\ refused st st' \/ r = - EIO /\ unreadable d (i_ino i) (attr_index ACL_TYPE_ACCESS)).
Proof.
  intros Hb Hi Hd Ha Hs. unfold ext2_permission, generic_permission. rewrite Z.eqb_sym.
  assert (Hown : forall s, o = Some s -> (i_uid i =? c_fsuid c) = true ->
    acl_allows s (i_uid i) (i_gid i) (c_fsuid c) member mask = fits (cls 6 (i_mode i)) mask).
  { intros s -> Hu. unfold acl_allows. rewrite Hu. destruct (Hs s eq_refl) as [Hmode _]. pose proof (proj2 Ha s eq_refl) as Hok.
    pose proof (group_class_perm s Hok). destruct Hok as (?&?&?&?&?&?). rewrite <- Hmode. unfold shape_mode. by rewrite cls_mode_6. }
  destruct (i_uid i =? c_fsuid c) eqn:Hu.
  { eexists _, _, _. split; [done|]. split; [done|]. split; [done|]. split; [done|]. split; [done|]. left.
    rewrite check_mode_fits. unfold file_allows, mode_allows. rewrite Hu. destruct o as [s|]; [|done]. by rewrite (Hown s). }
  clear Hown.
  assert (Hby : forall (st' : store) (i' : inode), same_file i i' -> o = None -> exists r : Z,
    (b ← c_in_group_p c (i_gid i'); Some ((st', i', check_mode c i' (if (b : bool) then Z.shiftr (i_mode i) 3 else i_mode i) mask) : store * inode * Z))
      = Some (st', i', r) /\ r = if file_allows i o mask then 0 else check_capabilities c i mask).
  { intros st' i' (_&Hmo&Huid&Hgid) ->. rewrite Hgroups, some_bind, Hgid. eexists. split; [done|].
    unfold file_allows, mode_allows. rewrite Hu, <- Hmo.
    assert (Hcap : check_capabilities c i' mask = check_capabilities c i mask) by (unfold check_capabilities; by rewrite Hmo).
    rewrite <- Hcap. destruct (member (i_gid i)); [apply check_mode_fits|]. rewrite <- check_mode_fits. by rewrite Z.shiftr_0_r. }
  rewrite Hopt. destruct (Z.eqb_spec (Z.land (i_mode i) S_IRWXG) 0) as [Hz|Hz]; cbn [andb negb].
  { destruct o as [s|]; [destruct (Hs s eq_refl); done|]. destruct (Hby st i (same_file_refl i) eq_refl) as (r&->&Hr).
    eexists _, _, _. split; [done|]. split_and!; try done. by left. }
  destruct (check_acl_ok none st d i mask L Hb Hi Hd) as (st'&i'&r&->&Hsf&Hi'&Hk&Hr&Hb'&Hres). rewrite some_bind.
  assert (Hcap : check_capabilities c i' mask = check_capabilities c i mask).
  { unfold check_capabilities. by destruct Hsf as (_&->&_). }
  destruct Hres as [Hres|(o'&Ho'&->)].
  { assert (r <> - EACCES /\ r <> - EAGAIN) as [H1%Z.eqb_neq H2%Z.eqb_neq] by (unfold failed_for, ENOMEM, EIO, EACCES, EAGAIN in *; lia).
    rewrite H1, H2. cbn [negb]. eexists _, _, _. split; [done|]. split_and!; try done. by right. }
  apply (says_none _ _ _ _ _ Ha) in Ho' as ->. destruct o as [s|].
  - unfold file_allows. destruct (acl_allows _ _ _ _ _ _).
    + change (0 =? - EACCES) with false. change (0 =? - EAGAIN) with false. cbn [negb].
      eexists _, _, _. split; [done|]. split_and!; try done. by left.
    + change (- EACCES =? - EACCES) with true. cbv iota.
      eexists _, _, _. split; [done|]. split_and!; try done. left. exact Hcap.
  - change (- EAGAIN =? - EACCES) with false. change (- EAGAIN =? - EAGAIN) with true. cbn [negb].
    destruct (Hby st' i' Hsf eq_refl) as (r&->&Hr'). eexists _, _, _. split; [done|]. split_and!; try done. by left.
Qed.
End permission.

(** ** An inode that was just read or made

    ext2_alloc_inode leaves both caches empty. *)
Definition fresh_inode (ino mode uid gid : Z) : inode := Inode ino mode uid gid EXT2_ACL_NOT_CACHED EXT2_ACL_NOT_CACHED.
Section fresh.
  Context {D : Type} {HX : Xattrs D} {HL : XattrLaws D}.

Lemma fresh_ok B st d ino m u g : inode_ok B st d (fresh_inode ino m u g).
Proof. split; by left. Qed.
Lemma fresh_balanced st ino m u g L : balanced st L <-> balanced st (ptrs (fresh_inode ino m u g) ++ L).
Proof. unfold ptrs. cbn [fresh_inode i_acl i_default_acl app]. rewrite !balanced_zero; done. Qed.
End fresh.

(** ** A concrete disk *)

(** The attributes in a map, and how stores end: well, for want of room, or with an
    error when the new value is there. *)
Inductive weather := fair | full | sync_fails.
#[export] Instance weather_eq_dec : EqDecision weather.
Proof. solve_decision. Defined.
Definition attrs : Type := weather * gmap (Z * Z) (list Z).
Definition no_room : Z := - 28. (** -ENOSPC *)
Definition put (m : gmap (Z * Z) (list Z)) (ino idx : Z) (v : option (list Z)) : gmap (Z * Z) (list Z) :=
  match v with Some b => <[(ino, idx) := b]> m | None => delete (ino, idx) m end.
#[export] Instance attrs_xattrs : Xattrs attrs := {|
  ext2_xattr_get (d : attrs) ino idx buf :=
    match d.2 !! (ino, idx), buf with
    | Some v, None => (zlen v, [])
    | Some v, Some n => if n <? zlen v then (- ERANGE, []) else (zlen v, v)
    | None, _ => (- ENODATA, [])
    end;
  ext2_xattr_set (d : attrs) ino idx v :=
    match d.1 with
    | fair => (0, (fair, put d.2 ino idx v))
    | full => (no_room, d)
    | sync_fails => (- EIO, (sync_fails, put d.2 ino idx v))
    end |}.
#[export] Program Instance attrs_laws : XattrLaws attrs := {| content d ino idx := d.2 !! (ino, idx) |}.
Next Obligation.
  intros [w m] ino idx buf. simpl. destruct (m !! (ino, idx)) as [v|]; [|by right]. destruct buf as [n|]; [|by right].
  by destruct (n <? zlen v) eqn:E; right; rewrite ?E.
Qed.
Next Obligation.
  intros [w m] ino idx v.
  assert (Hput : forall ino' idx', put m ino idx v !! (ino', idx') = if decide (ino' = ino /\ idx' = idx) then v else m !! (ino', idx')).
  { intros ino' idx'. unfold put. case_decide as E; [destruct E as [-> ->]; destruct v; [by rewrite lookup_insert_eq|by rewrite lookup_delete_eq]|].
    destruct v; [rewrite lookup_insert_ne|rewrite lookup_delete_ne]; try done; intros [= <- <-]; by apply E. }
  destruct w; simpl; (split; [unfold no_room, EIO; lia|]); [by left|right|by left]. split; [unfold no_room; lia|done].
Qed.

(** A file 10 with the sample list of PosixAcl.v, in a directory 2 with it as default. *)
Definition sample_mode : Z := shape_mode 32768 sample_shape.
Definition sample_disk (w : weather) : attrs :=
  (w, <[(10, 2) := encode sample_shape]> (<[(2, 3) := encode sample_shape]> ∅)).
Definition sample_store : store := Store 0 (fun _ => true) ∅.
Definition sample_file : inode := fresh_inode 10 sample_mode 0 0.
Definition sample_dir : inode := fresh_inode 2 16877 0 0.
Definition sample_task (who : Z) : context := Context_ who (fun g => Some (g =? 20)) (fun _ => false) 18 true.

Lemma sample_disk_ok w : disk_ok (sample_disk w).
Proof.
  intros ino type b _. simpl. destruct (decide ((ino, attr_index type) = (10, 2))) as [->|].
  { rewrite lookup_insert_eq. intros [= <-]. exists sample_shape. split; [apply sample_shape_ok|done]. }
  rewrite lookup_insert_ne by done. destruct (decide ((ino, attr_index type) = (2, 3))) as [->|].
  { rewrite lookup_insert_eq. intros [= <-]. exists sample_shape. split; [apply sample_shape_ok|done]. }
  rewrite lookup_insert_ne by done. by rewrite lookup_empty.
Qed.
Lemma sample_balanced : balanced sample_store [].
Proof. split; [done|]. intros p. simpl. by rewrite lookup_empty. Qed.

Lemma ext2_permission_decides_witness : exists st' i' r,
  ext2_permission (sample_task 7) sample_store (sample_disk fair) sample_file 4 = Some (st', i', r) /\
  same_file sample_file i' /\ inode_ok none st' (sample_disk fair) i' /\ keeps [] sample_store st' /\ balanced st' (ptrs i' ++ []) /\
  (r = (if file_allows (sample_task 7) (fun g => g =? 20) sample_file (Some sample_shape) 4 then 0
        else check_capabilities (sample_task 7) sample_file 4) \/
   r = - ENOMEM /\ refused sample_store st' \/ r = - EIO /\ unreadable (sample_disk fair) 10 (attr_index ACL_TYPE_ACCESS)).
Proof.
  apply (ext2_permission_decides (sample_task 7) (fun g => g =? 20) eq_refl (fun g => eq_refl)).
  - apply fresh_balanced, sample_balanced.
  - apply fresh_ok.
  - apply sample_disk_ok.
  - split; [reflexivity|intros s [= <-]; apply sample_shape_ok].
  - intros s [= <-]. split; [reflexivity|]. vm_compute. discriminate.
Defined.

(** *** Three surprises *)

(** With an empty mask the mode has no group bits, and generic_permission does not
    look at the list: the named user 7, whom the list gives nothing (its mask is
    empty), gets what the mode gives to others. *)
Definition masked_shape : shape := Shape 7 [(7, 6)] 4 [(20, 2)] (Some 0) 4.
Definition masked_disk : attrs := (fair, <[(10, 2) := encode masked_shape]> ∅).
Example empty_mask_ignores_list :
  let file := fresh_inode 10 (shape_mode 32768 masked_shape) 0 0 in
  file_allows (sample_task 7) (fun g => g =? 20) file (Some masked_shape) 4 = false /\
  posix_acl_permission (subject_of (sample_task 7) file) (to_entries masked_shape) 4 = Some (- EACCES) /\
  (r ← ext2_permission (sample_task 7) sample_store masked_disk file 4; Some r.2) = Some 0.
Proof. vm_compute. auto. Qed.

(** ext2_set_acl sets i_mode before it stores the attribute: when there is no room the
    call fails, the old list stays and the mode is that of the new one. *)
Example failed_set_changes_mode :
  let value := default [] ((fun r => r.1) <$> posix_acl_to_xattr (to_entries masked_shape) (Some (replicate 60 0)) 60) in
  (r ← ext2_xattr_set_acl_access (sample_task 0) sample_store (sample_disk full) sample_file [] (Some (take 52 value)) 52;
   let '(_, d, i, e) := (r : store * attrs * inode * Z) in
   Some (i_mode sample_file, i_mode i, e, bool_decide (d = sample_disk full))) =
  Some (33248, 33220, no_room, true).
Proof. vm_compute. reflexivity. Qed.

(** A store that fails after the attribute was changed leaves the old list in the
    cache: the call answers -EIO, the disk has the new list, and ext2_get_acl gives
    the old one. *)
Example failed_set_leaves_cache :
  let new := default [] ((fun r => r.1) <$> posix_acl_to_xattr (to_entries masked_shape) (Some (replicate 60 0)) 60) in
  (r ← ext2_get_acl (sample_task 0) sample_store (sample_disk sync_fails) sample_file ACL_TYPE_ACCESS;
   let '(st, i, _) := (r : store * inode * Z) in
   r ← ext2_xattr_set_acl_access (sample_task 0) st (sample_disk sync_fails) i [] (Some (take 52 new)) 52;
   let '(st, d, i, e) := (r : store * attrs * inode * Z) in
   r ← ext2_get_acl (sample_task 0) st d i ACL_TYPE_ACCESS;
   Some (e, bool_decide (content d 10 2 = Some (encode masked_shape)), entries r.1.1 r.2)) =
  Some (- EIO, true, Some (to_entries sample_shape)).
Proof. vm_compute. reflexivity. Qed.
