(* ===== verification/Ext2World.v ===== *)
(** * The ext2 access lists over time

    Ext2Acl.v has the operations; here are what each of them keeps, what making a file
    gives, and that any sequence of calls on any files keeps the whole in order. *)

From S2P Require Import Prelude Groups PosixAcl Ext2Acl.

(** ** The operations on one file *)

Section files.
  Context {D : Type} {HX : Xattrs D} {HL : XattrLaws D}.

Lemma keeps_inode B st st' d i L : keeps (ptrs i ++ L) st st' -> inode_ok B st d i -> inode_ok B st' d i.
Proof. intros Hk. eapply inode_mono; [exact Hk|set_solver]. Qed.

Definition disk_other (d d' : D) (ino : Z) : Prop :=
  forall ino' idx, ino' <> ino -> content d' ino' idx = content d ino' idx.

(** What every operation that answers [e] keeps: other references, the counts, the
    cache of the file, unless a store failed, and the rest of the disk. *)
Definition op_ok (B : Z -> Prop) (e : Z) (st st' : store) (d d' : D) (i i' : inode) (L : list Z) : Prop :=
  keeps L st st' /\ requests st <= requests st' /\ balanced st' (ptrs i' ++ L) /\ inode_ok (mark e (i_ino i) B) st' d' i' /\ disk_ok d' /\
  disk_other d d' (i_ino i) /\ i_ino i' = i_ino i /\ i_uid i' = i_uid i /\ i_gid i' = i_gid i.

Lemma op_of_set B st st' d d' i i' type e o L m : set_outcome B st st' d d' i i' type e o L -> same_file (set_mode i m) i' ->
  op_ok B e st st' d d' i i' L.
Proof.
  intros (Hk&Hr&Hb&Hi&Hd&Hs&_) (H1&_&H2&H3). split_and!; try done. intros ino' idx Hne. apply Hs. by intros [? _].
Qed.
Lemma op_refl B e st d i L : balanced st (ptrs i ++ L) -> inode_ok B st d i -> disk_ok d -> op_ok B e st st d d i i L.
Proof. intros. split_and!; try done. by apply inode_mark. Qed.
Lemma op_trans B e st1 st2 st3 d1 d2 d3 i1 i2 i3 L : op_ok B 0 st1 st2 d1 d2 i1 i2 L -> op_ok B e st2 st3 d2 d3 i2 i3 L ->
  op_ok B e st1 st3 d1 d3 i1 i3 L.
Proof.
  intros (K1&R1&B1&I1&D1&O1&N1&U1&G1) (K2&R2&B2&I2&D2&O2&N2&U2&G2). rewrite N1 in I2. split_and!; try done; try congruence; [|lia|].
  - by eapply keeps_trans.
  - intros ino' idx Hne. rewrite O2, O1; [done|done|congruence].
Qed.
(** Giving up a reference that is in the frame. *)
Lemma op_frame B e st st' d d' i i' p L : op_ok B e st st' d d' i i' (p :: L) -> 0 <= p -> exists st'',
  posix_acl_release st' p = Some st'' /\ op_ok B e st st'' d d' i i' L.
Proof.
  intros (K&R&Bl&I&Hd&O&N&U&G) Hp. rewrite <- (Permutation_middle (ptrs i')) in Bl.
  destruct (release_ok st' _ p Bl Hp) as (st''&Hrel&Hb''&Hk''&Hr''). exists st''. split; [done|].
  split_and!; try done; [|lia|].
  - eapply keeps_trans; [eapply keeps_sub; [|exact K]; set_solver|]. eapply keeps_sub; [|exact Hk'']. set_solver.
  - eapply inode_mono; [exact Hk''|set_solver|done].
Qed.
Lemma op_of_get B e st st' d i i' L : same_file i i' -> inode_ok B st' d i' -> keeps L st st' -> requests st <= requests st' ->
  balanced st' (ptrs i' ++ L) -> disk_ok d -> op_ok B e st st' d d i i' L.
Proof. intros (H1&_&H2&H3) ?????. split_and!; try done. by apply inode_mark. Qed.

End files.

(** *** Reading and writing the attribute *)

Section attributes.
  Context {D : Type} {HX : Xattrs D} {HL : XattrLaws D} (c : context) (B : Z -> Prop).
  Hypothesis Hopt : posixacl c = true.

Lemma xattr_get_ok st d i type buffer size L : is_type type -> balanced st (ptrs i ++ L) -> inode_ok B st d i -> disk_ok d ->
  zlen (default [] buffer) = size \/ buffer = None ->
  exists st' i' r, ext2_xattr_get_acl c st d i type buffer size = Some (st', i', r) /\ op_ok B 0 st st' d d i i' L /\ same_file i i'.
Proof.
  intros Ht Hb Hi Hd Hbuf. unfold ext2_xattr_get_acl. rewrite Hopt. cbn [negb].
  destruct (get_acl_ok c Hopt B st d i type L Ht Hb Hi Hd) as (st1&i1&r&->&Hsf&Hi1&Hk1&Hr1&Hout). rewrite some_bind.
  apply get_outcome_err in Hout as [(Hneg&_&Hb1)|(o&Ha&Hp&Hb1)].
  { rewrite IS_ERR_neg by done. eexists _, _, _. split; [done|]. split; [by apply op_of_get|done]. }
  destruct o as [s|].
  - destruct Hp as [Hr0 He]. apply says_shape in Ha as Hs. rewrite IS_ERR_pos by lia. destruct (Z.eqb_spec r 0); [lia|].
    unfold entries in He. destruct (acls st1 !! r) as [a|] eqn:Hacl; [|done]. simpl in He. injection He as He.
    rewrite some_bind, He.
    assert (Hx : exists x, posix_acl_to_xattr (to_entries s) buffer size = Some x).
    { unfold posix_acl_to_xattr. destruct buffer as [b|]; [|by eexists]. simpl in Hbuf. destruct Hbuf as [Hbuf|]; [|done].
      destruct (Z.ltb_spec size (posix_acl_xattr_size (zlen (to_entries s)))); [by eexists|].
      destruct (Z.ltb_spec (zlen b) (posix_acl_xattr_size (zlen (to_entries s)))); [lia|by eexists]. }
    destruct Hx as [x ->]. rewrite some_bind. rewrite <- (Permutation_middle (ptrs i1)) in Hb1.
    destruct (release_ok st1 _ r Hb1) as (st2&->&Hb2&Hk2&Hr2); [lia|]. rewrite some_bind.
    eexists _, _, _. split; [done|]. split; [|done]. apply op_of_get; try done; [| |lia].
    + eapply inode_mono; [exact Hk2|set_solver|done].
    + eapply keeps_trans; [exact Hk1|]. eapply keeps_sub; [|exact Hk2]. set_solver.
  - simpl in Hp. subst r. simpl. eexists _, _, _. split; [done|]. split; [|done].
    rewrite <- (Permutation_middle (ptrs i1)) in Hb1. apply balanced_zero in Hb1; [|done]. by apply op_of_get.
Qed.

(** What posix_acl_from_xattr makes of any bytes. *)
Lemma le_range l : Forall (fun b => 0 <= b < 256) l -> 0 <= of_le l < 256 ^ zlen l.
Proof.
  induction 1 as [|b l Hb Hl IH]; [done|]. cbn [of_le length]. rewrite Nat2Z.inj_succ, Z.pow_succ_r by lia. lia.
Qed.
Lemma get_le_some n i b : 0 <= i -> 0 <= n -> i + n <= zlen b -> Forall (fun x => 0 <= x < 256) b ->
  exists v, get_le n i b = Some v /\ 0 <= v < 256 ^ n.
Proof.
  intros Hi Hn Hl Hb. unfold get_le. destruct (Z.leb_spec 0 i); [|lia]. destruct (Z.leb_spec (i + n) (zlen b)); [|lia]. simpl.
  eexists. split; [done|]. rewrite <- (length_slice i n b) at 3 by lia. apply le_range.
  unfold slice. by apply Forall_take, Forall_drop.
Qed.

Lemma from_xattr_loop_ok n : forall value i, 0 <= i -> i + 8 * Z.of_nat n <= zlen value -> Forall (fun x => 0 <= x < 256) value ->
  exists l b, from_xattr_loop n value i = Some (l, b) /\ (b = true -> length l = n) /\ Forall normal l.
Proof.
  induction n as [|n IH]; intros value i Hi Hl Hv; [by eexists _, _|]. cbn [from_xattr_loop].
  destruct (get_le_some 2 i value) as (tag&->&Htag); try done; try lia. rewrite some_bind.
  destruct (get_le_some 2 (i + 2) value) as (perm&->&Hperm); try done; try lia. rewrite some_bind.
  destruct (IH value (i + 8)) as (l&b&Hloop&Hlen&Hn); [lia|lia|done|].
  match goal with |- context [if ?b then _ else _] => destruct b eqn:Ho end;
    [|match goal with |- context [if ?b then _ else _] => destruct b eqn:Hna end].
  - rewrite Hloop, some_bind. eexists _, _. split; [done|]. simpl. split; [intros Hb; by rewrite Hlen|].
    constructor; [|done]. unfold normal, is_u16, is_u32, ACL_UNDEFINED_ID. simpl. split_and!; try lia; done.
  - destruct (get_le_some 4 (i + 4) value) as (id&->&Hid); try done; try lia. rewrite some_bind, Hloop, some_bind.
    eexists _, _. split; [done|]. simpl. split; [intros Hb; by rewrite Hlen|].
    constructor; [|done]. unfold normal, is_u16, is_u32. simpl. split_and!; try lia.
  - by eexists _, _.
Qed.

Lemma from_xattr_ok st value L : balanced st L -> Forall (fun x => 0 <= x < 256) value ->
  exists st' p, posix_acl_from_xattr st (Some value) (zlen value) = Some (st', p) /\ requests st <= requests st' /\
  (p <= 0 /\ (p = 0 \/ - 4095 <= p < 0) /\ balanced st' L /\ keeps L st st' \/
   requests st < p /\ balanced st' (p :: L) /\ keeps L st st' /\ exists l, entries st' p = Some l /\ Forall normal l).
Proof.
  intros Hb Hv. unfold posix_acl_from_xattr.
  assert (Herr : forall e, - 4095 <= e < 0 -> exists st' p, Some (st, e) = Some (st', p) /\ requests st <= requests st' /\
    (p <= 0 /\ (p = 0 \/ - 4095 <= p < 0) /\ balanced st' L /\ keeps L st st' \/
     requests st < p /\ balanced st' (p :: L) /\ keeps L st st' /\ exists l, entries st' p = Some l /\ Forall normal l)).
  { intros e He. eexists _, _. split; [done|]. split; [done|]. left. split; [lia|]. split; [by right|done]. }
  destruct (Z.ltb_spec (zlen value) 4); [apply Herr; unfold EINVAL; lia|].
  destruct (get_le_some 4 0 value) as (v&->&_); try done; try lia. rewrite some_bind.
  destruct (negb (v =? POSIX_ACL_XATTR_VERSION)); [apply Herr; unfold EOPNOTSUPP; lia|].
  unfold posix_acl_xattr_count. destruct (Z.ltb_spec (zlen value) 4); [lia|].
  destruct (Z.eqb_spec ((zlen value - 4) mod 8) 0) as [Hm|]; cbn [negb]; [|apply Herr; unfold EINVAL; lia].
  set (count := (zlen value - 4) / 8). assert (Hc : zlen value = 4 + 8 * count) by (subst count; Z.to_euclidean_division_equations; lia).
  destruct (Z.ltb_spec count 0); [lia|]. destruct (Z.eqb_spec count 0).
  { eexists _, _. split; [done|]. split; [done|]. left. split; [done|]. split; [by left|done]. }
  clear Herr. destruct (posix_acl_alloc st count) as [st1 p] eqn:Ha. unfold posix_acl_alloc in Ha.
  assert (Hr0 : 0 <= requests st) by apply Hb.
  destruct (kmalloc_ok st L _ st1 p Hb Ha) as (Hr&[(->&Hb1&He1)|(Hp&Hb1&He1&Hsame)]).
  { eexists _, _. split; [done|]. split; [done|]. left. split; [done|]. split; [right; unfold ENOMEM; lia|]. split; [done|]. intros x _ _. apply He1. }
  destruct (Z.eqb_spec p 0); [lia|].
  destruct (from_xattr_loop_ok (Z.to_nat count) value 4) as (l&b&->&Hlen&Hn); [lia|lia|done|]. rewrite some_bind. cbn [fst snd].
  assert (Hk1 : keeps L st st1).
  { intros x Hx Hin. apply Hsame. intros ->. apply cnt_in in Hin. destruct (balanced_fresh st L p Hb ltac:(lia)) as [_ Hz]. lia. }
  destruct b.
  - destruct (set_entries_ok st1 (p :: L) p _ l Hb1 He1) as (st2&->&Hb2&He2&Hs2&Hr2); [by rewrite length_replicate, Hlen|].
    rewrite some_bind. eexists _, _. split; [done|]. split; [lia|]. right. split; [done|]. split; [done|].
    split; [|by exists l]. intros x Hx Hin. rewrite Hs2; [by apply Hk1|]. intros ->. apply cnt_in in Hin.
    destruct (balanced_fresh st L p Hb ltac:(lia)) as [_ Hz]. lia.
  - destruct (release_ok st1 L p Hb1) as (st2&->&Hb2&Hk2&Hr2); [lia|]. rewrite some_bind.
    eexists _, _. split; [done|]. split; [lia|]. left. split; [unfold EINVAL; lia|]. split; [right; unfold EINVAL; lia|].
    split; [done|]. by eapply keeps_trans.
Qed.
End attributes.

(** ** Set, chmod, create, evict *)

Section changes.
  Context {D : Type} {HX : Xattrs D} {HL : XattrLaws D} (c : context) (B : Z -> Prop).
  Hypothesis Hopt : posixacl c = true.

Lemma set_acl_any st d i type p o L : is_type type -> balanced st (ptrs i ++ L) -> inode_ok B st d i -> disk_ok d ->
  acl_is st p o -> (forall s, o = Some s -> shape_ok s /\ p ∈ L) ->
  exists st' d' i' e, ext2_set_acl c st d i type p = Some (st', d', i', e) /\ op_ok B e st st' d d' i i' L /\ - 4095 <= e <= 0.
Proof.
  intros Ht Hb Hi Hd Hp Ho. destruct (S_ISLNK (i_mode i)) eqn:Hl.
  { unfold ext2_set_acl. rewrite Hl. eexists _, _, _, _. split; [done|]. split; [by apply op_refl|unfold EOPNOTSUPP; lia]. }
  destruct (decide (type = ACL_TYPE_DEFAULT /\ S_ISDIR (i_mode i) = false)) as [[-> Hdir]|Hdir].
  { unfold ext2_set_acl. rewrite Hl, Hopt, Hdir. simpl. eexists _, _, _, _. split; [done|]. split; [by apply op_refl|].
    destruct (negb _); unfold EACCES; lia. }
  destruct (set_acl_ok c Hopt B st d i type p o L) as (st'&d'&i'&e&He&Hsf&Hout); try done.
  { intros ->. destruct (S_ISDIR (i_mode i)) eqn:E; [done|]. exfalso. by apply Hdir. }
  eexists _, _, _, _. split; [done|]. split; [by eapply op_of_set|]. destruct Hout as (_&_&_&_&_&_&He'&_). lia.
Qed.

Lemma xattr_set_ok st d i type value L : is_type type -> balanced st (ptrs i ++ L) -> inode_ok B st d i -> disk_ok d ->
  (forall b, value = Some b -> Forall (fun x => 0 <= x < 256) b) ->
  exists st' d' i' e, ext2_xattr_set_acl c st d i type value (zlen (default [] value)) = Some (st', d', i', e) /\
    op_ok B e st st' d d' i i' L.
Proof.
  intros Ht Hb Hi Hd Hv. unfold ext2_xattr_set_acl. rewrite Hopt. cbn [negb].
  destruct (negb (is_owner_or_cap c i)); [eexists _, _, _, _; split; [done|by apply op_refl]|].
  assert (Hfrom : exists st1 p, posix_acl_from_xattr st value (zlen (default [] value)) = Some (st1, p) /\ requests st <= requests st1 /\
    (p <= 0 /\ (p = 0 \/ - 4095 <= p < 0) /\ balanced st1 (ptrs i ++ L) /\ keeps (ptrs i ++ L) st st1 \/
     requests st < p /\ balanced st1 (p :: ptrs i ++ L) /\ keeps (ptrs i ++ L) st st1 /\ exists l, entries st1 p = Some l /\ Forall normal l)).
  { destruct value as [b|]; [apply from_xattr_ok; auto|]. eexists _, _. split; [done|]. split; [done|]. left. split_and!; try done. by left. }
  destruct Hfrom as (st1&p&->&Hr1&Hcase). rewrite some_bind.
  assert (Hk1 : keeps (ptrs i ++ L) st st1) by (destruct Hcase as [(_&_&_&H)|(_&_&H&_)]; exact H).
  assert (Hi1 : inode_ok B st1 d i) by (eapply inode_mono; [exact Hk1|set_solver|done]).
  assert (HkL : keeps L st st1) by (eapply keeps_sub; [|exact Hk1]; set_solver).
  assert (Hop : forall e st2 d2 i2, op_ok B e st1 st2 d d2 i i2 L -> op_ok B e st st2 d d2 i i2 L).
  { intros e st2 d2 i2 (K&R&Bl&I&Dk&O&N&U&G). split_and!; try done; [by eapply keeps_trans|lia]. }
  destruct Hcase as [(Hp0&Hpe&Hb1&_)|(Hp&Hb1&_&l&Hl&Hn)].
  - destruct Hpe as [->|Hpe].
    + change (IS_ERR 0) with false. change (negb (0 =? 0)) with false. cbv iota. rewrite some_bind.
      change (negb (0 =? 0)) with false. cbv iota.
      destruct (set_acl_any st1 d i type 0 None L) as (st2&d2&i2&e&->&Hop2&_); try done. rewrite some_bind. simpl.
      eexists _, _, _, _. split; [done|]. by apply Hop.
    + rewrite IS_ERR_neg by done. eexists _, _, _, _. split; [done|]. apply Hop. by apply op_refl.
  - assert (Hr0 : 0 <= requests st) by apply Hb. rewrite IS_ERR_pos by lia. destruct (Z.eqb_spec p 0); [lia|]. cbn [negb].
    assert (Hx := Hl). unfold entries in Hx. destruct (acls st1 !! p) as [a|] eqn:Ha; [|done]. simpl in Hx. simplify_eq.
    rewrite !some_bind. rewrite (Permutation_middle (ptrs i)) in Hb1.
    destruct (valid_results (a_entries a) ACL_USER_OBJ 0 false) as [Hv0|Hv0]; fold (posix_acl_valid (a_entries a)) in Hv0; rewrite Hv0.
    + change (negb (0 =? 0)) with false. cbv iota. apply valid_shape in Hv0 as (s&Hs&Hes); [|done].
      destruct (set_acl_any st1 d i type p (Some s) (p :: L)) as (st2&d2&i2&e&->&Hop2&_); try done.
      { split; [lia|]. by rewrite Hl, Hes. }
      { intros s' [= <-]. split; [done|left]. }
      rewrite some_bind. destruct (op_frame B e st1 st2 d d2 i i2 p L Hop2) as (st3&->&Hop3); [lia|]. rewrite some_bind.
      eexists _, _, _, _. split; [done|]. by apply Hop.
    + change (negb (- EINVAL =? 0)) with true. cbv iota.
      destruct (op_frame B (- EINVAL) st1 st1 d d i i p L) as (st3&->&Hop3); [by apply op_refl|lia|]. rewrite some_bind.
      eexists _, _, _, _. split; [done|]. by apply Hop.
Qed.

(** *** chmod *)

(** A private copy of a held list, and what is written into it. *)
Lemma clone_ok st p s L : balanced st L -> 0 < p -> entries st p = Some (to_entries s) -> p ∈ L ->
  exists st' q, posix_acl_clone st p = Some (st', q) /\ requests st <= requests st' /\
    (q = 0 /\ balanced st' L /\ (forall x, entries st' x = entries st x) \/
     requests st < q /\ balanced st' (q :: L) /\ keeps L st st' /\ exists a, acls st' !! q = Some a /\ a_entries a = to_entries s /\
       (forall l, length l = length (to_entries s) -> exists st'', set_entries st' q l = Some st'' /\
          balanced st'' (q :: L) /\ keeps L st st'' /\ entries st'' q = Some l /\ requests st <= requests st'')).
Proof.
  intros Hb Hp He Hin. unfold posix_acl_clone. destruct (Z.eqb_spec p 0); [lia|].
  unfold entries in He. destruct (acls st !! p) as [a|] eqn:Ha; [|done]. simpl in He. simplify_eq. rewrite some_bind, He.
  destruct (kmalloc st (Acl 1 (to_entries s))) as [st1 q] eqn:Hk.
  destruct (kmalloc_ok st L _ st1 q Hb Hk) as (Hr&[(->&Hb1&He1)|(Hq&Hb1&He1&Hsame)]); eexists _, _; (split; [done|]); (split; [done|]).
  { left. by split. }
  right. split; [done|]. split; [done|].
  assert (Hne : forall x, x ∈ L -> x <> q).
  { intros x Hx ->. apply cnt_in in Hx. destruct (balanced_fresh st L q Hb ltac:(lia)) as [_ Hz]. lia. }
  split; [intros x Hx Hxi; by apply Hsame, Hne|].
  assert (Hx := He1). unfold entries in Hx. destruct (acls st1 !! q) as [b|] eqn:Hbq; [|done]. simpl in Hx.
  exists b. split; [done|]. split; [by injection Hx|]. intros l Hl.
  destruct (set_entries_ok st1 (q :: L) q _ l Hb1 He1 Hl) as (st2&Hset&Hb2&He2&Hs2&Hr2).
  exists st2. split; [done|]. split; [done|]. split; [|split; [done|lia]].
  intros x Hx0 Hxi. rewrite Hs2 by by apply Hne. by apply Hsame, Hne.
Qed.

Lemma with_classes_length s o g t : length (to_entries (with_classes s o g t)) = length (to_entries s).
Proof.
  unfold to_entries, tail_entries, with_classes. cbn [sh_owner sh_users sh_group sh_groups sh_mask sh_other].
  repeat (rewrite ?length_app, ?length_map; cbn [length]). by destruct (sh_mask s).
Qed.

(** ext2_acl_chmod: afterwards the list says what the mode says for the three
    classes, or something failed. *)
Lemma chmod_ok st d i L : balanced st (ptrs i ++ L) -> inode_ok B st d i -> disk_ok d -> S_ISLNK (i_mode i) = false ->
  exists st' d' i' e, ext2_acl_chmod c st d i = Some (st', d', i', e) /\ op_ok B e st st' d d' i i' L /\ i_mode i' = i_mode i /\
    - 4095 <= e <= 0 /\
    (e = 0 -> exists o, says B d (i_ino i) ACL_TYPE_ACCESS o /\ match o with
       | Some s => attr_is d' (i_ino i) ACL_TYPE_ACCESS (kept_list ACL_TYPE_ACCESS (Some (chmod_shape s (i_mode i))))
       | None => disk_equal d d' end).
Proof.
  intros Hb Hi Hd Hl. unfold ext2_acl_chmod. rewrite Hopt, Hl. cbn [negb].
  destruct (get_acl_ok c Hopt B st d i ACL_TYPE_ACCESS L (or_introl eq_refl) Hb Hi Hd)
    as (st1&i1&r&->&Hsf&Hi1&Hk1&Hr1&Hout). rewrite some_bind. assert (Hmode : i_mode i1 = i_mode i) by apply Hsf.
  apply get_outcome_err in Hout as [(Hneg&_&Hb1)|(o&Ha&Hp&Hb1)].
  { rewrite IS_ERR_neg by done. eexists _, _, _, _. split; [done|]. split; [by apply op_of_get|]. split; [done|]. split; [lia|lia]. }
  destruct o as [s|].
  2:{ simpl in Hp. subst r. simpl. rewrite <- (Permutation_middle (ptrs i1)) in Hb1. apply balanced_zero in Hb1; [|done].
      eexists _, _, _, _. split; [done|]. split; [by apply op_of_get|]. split; [done|]. split; [done|]. intros _. by exists None. }
  destruct Hp as [Hr0 He]. apply says_shape in Ha as Hs. rewrite IS_ERR_pos by lia. destruct (Z.eqb_spec r 0); [lia|]. cbn [orb].
  destruct (clone_ok st1 r s (ptrs i1 ++ r :: L) Hb1 Hr0 He) as (st2&q&->&Hr2&Hcl); [set_solver|]. rewrite some_bind.
  destruct Hcl as [(->&Hb2&He2)|(Hq&Hb2&Hk2&a&Haq&Hae&Hwrite)].
  - rewrite <- (Permutation_middle (ptrs i1)) in Hb2. destruct (release_ok st2 _ r Hb2) as (st3&->&Hb3&Hk3&Hr3); [lia|].
    rewrite some_bind. simpl. eexists _, _, _, _. split; [done|]. split.
    + apply op_of_get; try done; [| |lia].
      * eapply keeps_inode; [exact Hk3|]. apply (keeps_inode B st1 st2 d i1 L); [intros x _ _; apply He2|done].
      * eapply keeps_trans; [exact Hk1|]. eapply (keeps_trans _ _ st2); [intros x _ _; apply He2|].
        eapply keeps_sub; [|exact Hk3]. set_solver.
    + split; [done|]. split; [unfold ENOMEM; lia|unfold ENOMEM; lia].
  - assert (Hrq : 0 <= requests st1) by apply Hb1.
    assert (Hb2' : balanced st2 (r :: ptrs i1 ++ q :: L)).
    { eapply balanced_perm; [|exact Hb2]. rewrite <- !Permutation_middle. apply perm_swap. }
    destruct (release_ok st2 _ r Hb2') as (st3&->&Hb3&Hk3&Hr3); [lia|]. rewrite some_bind.
    destruct (Z.eqb_spec q 0); [lia|].
    assert (Heq : entries st3 q = Some (to_entries s)).
    { rewrite Hk3; [|lia|set_solver]. unfold entries. by rewrite Haq, <- Hae. }
    assert (Hx := Heq). unfold entries in Hx. destruct (acls st3 !! q) as [b|] eqn:Hbq; [|done]. simpl in Hx. injection Hx as Hx.
    rewrite some_bind, Hx, chmod_masq_shape. cbv zeta. set (s' := chmod_shape s (i_mode i1)).
    destruct (set_entries_ok st3 _ q _ (to_entries s') Hb3 Heq) as (st4&->&Hb4&He4&Hs4&Hr4);
      [unfold s', chmod_shape; apply with_classes_length|]. rewrite some_bind. cbn [Z.eqb].
    assert (Hnq : forall x, x ∈ ptrs i1 ++ r :: L -> x <> q).
    { intros x Hxi ->. apply cnt_in in Hxi. destruct (balanced_fresh st1 _ q Hb1 ltac:(lia)) as [_ Hz]. lia. }
    assert (Hk14 : keeps (ptrs i1 ++ L) st1 st4).
    { intros x Hx0 Hxi. rewrite Hs4 by (apply Hnq; set_solver). rewrite Hk3 by (done || set_solver). apply Hk2; [done|set_solver]. }
    destruct (set_acl_ok c Hopt B st4 d i1 ACL_TYPE_ACCESS q (Some s') (q :: L)) as (st5&d5&i5&e&->&Hsf5&Hout5).
    { by left. } { exact Hb4. } { by eapply keeps_inode. } { done. } { split; [lia|done]. }
    { intros ? [= <-]. split; [by apply chmod_shape_ok|left]. } { by rewrite Hmode. } { done. }
    rewrite some_bind.
    assert (Hnm : new_mode ACL_TYPE_ACCESS (i_mode i1) (Some s') = i_mode i1).
    { unfold new_mode. simpl. unfold s', chmod_shape. by rewrite with_classes_mode, mode_cls. }
    rewrite Hnm in Hsf5. pose proof (op_of_set _ _ _ _ _ _ _ _ _ _ _ _ Hout5 Hsf5) as Hop5.
    destruct (op_frame B e st4 st5 d d5 i1 i5 q L Hop5) as (st6&->&Hop6); [lia|]. rewrite some_bind.
    eexists _, _, _, _. split; [done|]. split; [|split].
    + destruct Hop6 as (K&R&Bl&I&Dk&O&N&U&G). destruct Hsf as (Hino&_&Huid&Hgid). rewrite Hino in O, I.
      split_and!; try done; try congruence; [|lia].
      eapply keeps_trans; [exact Hk1|]. eapply keeps_trans; [eapply keeps_sub; [|exact Hk14]; set_solver|done].
    + destruct Hsf5 as (_&Hm5&_). simpl in Hm5. congruence.
    + destruct Hout5 as (_&_&_&_&_&_&Hrange&Hat&_). split; [done|]. intros He0. specialize (Hat He0). exists (Some s). split; [done|].
      destruct Hsf as (Hino&_). rewrite Hino in Hat. unfold s' in Hat. rewrite Hmode in Hat. exact Hat.
Qed.
End changes.

(** *** Creation *)

Lemma testbit_61440 i : Z.testbit 61440 i = (0 <=? i) && (12 <=? i) && (i <? 16).
Proof.
  change 61440 with (Z.shiftl (Z.ones 4) 12). rewrite shiftl_testbit, ones_testbit by lia. zcases; simpl; (done || lia).
Qed.
Section create.
  Context {D : Type} {HX : Xattrs D} {HL : XattrLaws D} (c : context) (B : Z -> Prop).
  Hypothesis Hopt : posixacl c = true.

(** The permission bits are not the type of the file. *)
Lemma shape_mode_type m s : shape_ok s -> S_ISLNK (shape_mode m s) = S_ISLNK m /\ S_ISDIR (shape_mode m s) = S_ISDIR m.
Proof.
  intros Hs. pose proof (group_class_perm s Hs) as Hg. destruct Hs as (Ho&_&_&_&_&Ht).
  unfold S_ISLNK, S_ISDIR. enough (He : Z.land (shape_mode m s) S_IFMT = Z.land m S_IFMT) by by rewrite He.
  unfold shape_mode, mode_of, S_IRWXUGO, S_IFMT. apply Z.bits_inj'. intros i Hi.
  repeat (rewrite ?testbit_511, ?testbit_61440; autorewrite with kbits).
  destruct (Z.leb_spec 12 i); [|by rewrite !andb_false_r].
  assert (Hhi : forall p k, is_perm p -> k <= 6 -> Z.testbit p (i - k) = false).
  { intros p k Hp Hk. apply (testbit_high p 3); [unfold is_perm in Hp; lia|lia]. }
  rewrite (Hhi (sh_owner s) 6), (Hhi (group_class s) 3) by (done || lia).
  pose proof (Hhi (sh_other s) 0 Ht ltac:(lia)) as H0. rewrite Z.sub_0_r in H0. rewrite H0.
  zcases; try lia; simpl; rewrite ?andb_true_r, ?orb_false_r; done.
Qed.

Lemma init_access_ok st d i p s L : balanced st (ptrs i ++ L) -> inode_ok B st d i -> disk_ok d ->
  0 < p -> p ∈ L -> entries st p = Some (to_entries s) -> shape_ok s -> S_ISLNK (i_mode i) = false ->
  exists st' d' i' e, init_access c st d i p = Some (st', d', i', e) /\ op_ok B e st st' d d' i i' L /\
    (e = 0 /\ i_mode i' = shape_mode (i_mode i) (create_shape s (i_mode i)) /\
     disk_same d d' (i_ino i) (attr_index ACL_TYPE_ACCESS) /\
     (if extended s then attr_is d' (i_ino i) ACL_TYPE_ACCESS (Some (create_shape s (i_mode i))) else disk_equal d d') \/
     - 4095 <= e < 0).
Proof.
  intros Hb Hi Hd Hp Hin He Hs Hl. unfold init_access. set (s' := create_shape s (i_mode i)).
  assert (Hs' : shape_ok s') by by apply create_shape_ok.
  destruct (clone_ok st p s (ptrs i ++ L) Hb Hp He) as (st1&q&->&Hr1&Hcl); [set_solver|]. rewrite some_bind.
  destruct Hcl as [(->&Hb1&He1)|(Hq&Hb1&Hk1&a&Haq&Hae&Hwrite)].
  { simpl. eexists _, _, _, _. split; [done|]. split; [|right; unfold ENOMEM; lia]. apply op_of_get; try done.
    - eapply (inode_mono B st st1 d i (ptrs i)); [intros x _ _; apply He1|done|done].
    - intros x _ _. apply He1. }
  assert (Hr0 : 0 <= requests st) by apply Hb. destruct (Z.eqb_spec q 0); [lia|].
  rewrite Haq, some_bind, Hae, create_masq_shape, some_bind by done. fold s'.
  destruct (Hwrite (to_entries s')) as (st2&->&Hb2&Hk2&He2&Hr2); [apply with_classes_length|]. rewrite some_bind.
  rewrite (Permutation_middle (ptrs i)) in Hb2.
  assert (Hi2 : inode_ok B st2 d i) by by eapply keeps_inode.
  assert (HkL : keeps L st st2) by (eapply keeps_sub; [|exact Hk2]; set_solver).
  destruct (shape_mode_type (i_mode i) s' Hs') as [Hlnk _].
  assert (Hop : forall e st3 d3 i3, op_ok B e st2 st3 d d3 (set_mode i (shape_mode (i_mode i) s')) i3 (q :: L) -> exists st4,
    posix_acl_release st3 q = Some st4 /\ op_ok B e st st4 d d3 i i3 L).
  { intros e st3 d3 i3 H3. destruct (op_frame B e st2 st3 d d3 _ i3 q L H3) as (st4&Hrel&K&R&Bl&I&Dk&O&N&U&G); [lia|].
    exists st4. split; [done|]. split_and!; try done; [by eapply keeps_trans|lia]. }
  destruct (extended s) eqn:Hext; simpl.
  - destruct (set_acl_ok c Hopt B st2 d (set_mode i (shape_mode (i_mode i) s')) ACL_TYPE_ACCESS q (Some s') (q :: L))
      as (st3&d3&i3&e&->&Hsf3&Hout3); try done.
    { by left. } { split; [lia|done]. } { intros ? [= <-]. split; [done|left]. } { simpl. by rewrite Hlnk. }
    rewrite some_bind. pose proof (op_of_set _ _ _ _ _ _ _ _ _ _ _ _ Hout3 Hsf3) as Hop3.
    destruct (Hop e st3 d3 i3 Hop3) as (st4&->&Hop4). rewrite some_bind.
    eexists _, _, _, _. split; [done|]. split; [done|].
    destruct Hout3 as (_&_&_&_&_&Hds&Hrange&Hat&_). destruct (Z.eq_dec e 0) as [He0|]; [left|right; lia]. specialize (Hat He0). split; [done|]. split.
    + destruct Hsf3 as (_&->&_). simpl. by apply shape_mode_twice.
    + split; [exact Hds|]. unfold kept_list in Hat. unfold s', create_shape in Hat. rewrite with_classes_extended, Hext in Hat. exact Hat.
  - destruct (Hop 0 st2 d (set_mode i (shape_mode (i_mode i) s'))) as (st4&->&Hop4); [by apply op_refl|].
    rewrite some_bind. eexists _, _, _, _. split; [done|]. split; [done|]. left. done.
Qed.

(** What a new file gets: the mode and the lists. *)
Definition created (d d' : D) (i i' : inode) (o : option shape) : Prop :=
  match o with
  | None => i_mode i' = Z.land (i_mode i) (Z.lnot (c_umask c)) /\ disk_equal d d'
  | Some s =>
    i_mode i' = shape_mode (i_mode i) (create_shape s (i_mode i)) /\
    (extended s = true -> attr_is d' (i_ino i) ACL_TYPE_ACCESS (Some (create_shape s (i_mode i)))) /\
    (extended s = false -> content d' (i_ino i) (attr_index ACL_TYPE_ACCESS) = content d (i_ino i) (attr_index ACL_TYPE_ACCESS)) /\
    (S_ISDIR (i_mode i) = true -> attr_is d' (i_ino i) ACL_TYPE_DEFAULT (Some s))
  end.

Lemma inode_elsewhere st st' d d' i ino L : keeps (ptrs i ++ L) st st' -> disk_other d d' ino -> i_ino i <> ino ->
  inode_ok B st d i -> inode_ok B st' d' i.
Proof.
  intros Hk Ho Hne Hi. destruct (keeps_inode B st st' d i L Hk Hi) as [H1 H2].
  split; (eapply cache_transfer; [by apply Ho|done]).
Qed.

(** What creation that answers [e] keeps; the directory is not stored to. *)
Definition created_ok (e : Z) (st st' : store) (d d' : D) (i i' dir dir' : inode) (L : list Z) : Prop :=
  keeps L st st' /\ requests st <= requests st' /\ balanced st' (ptrs i' ++ ptrs dir' ++ L) /\
  inode_ok (mark e (i_ino i) B) st' d' i' /\ inode_ok B st' d' dir' /\ disk_ok d' /\ disk_other d d' (i_ino i) /\
  i_ino i' = i_ino i /\ i_uid i' = i_uid i /\ i_gid i' = i_gid i /\ same_file dir dir'.

(** The steps after the directory's list is at hand. *)
Lemma created_step e st0 st st' d d' i i' dir dir' p L : keeps (ptrs i ++ L) st0 st -> requests st0 <= requests st ->
  same_file dir dir' -> i_ino i <> i_ino dir -> inode_ok B st d dir' -> 0 <= p ->
  op_ok B e st st' d d' i i' (ptrs dir' ++ p :: L) -> exists st'', posix_acl_release st' p = Some st'' /\
  created_ok e st0 st'' d d' i i' dir dir' L.
Proof.
  intros Hk0 Hr0 Hsf Hne Hdir Hp (K&R&Bl&I&Dk&O&N&U&G). assert (Hino : i_ino dir' = i_ino dir) by apply Hsf.
  rewrite app_assoc, <- (Permutation_middle (ptrs i' ++ ptrs dir')), <- app_assoc in Bl.
  destruct (release_ok st' _ p Bl Hp) as (st''&Hrel&Hb''&Hk''&Hr''). exists st''. split; [done|]. split_and!; try done.
  - eapply keeps_trans; [eapply keeps_sub; [|exact Hk0]; set_solver|].
    eapply keeps_trans; [eapply keeps_sub; [|exact K]; set_solver|]. eapply keeps_sub; [|exact Hk'']. set_solver.
  - lia.
  - eapply inode_mono; [exact Hk''|set_solver|done].
  - eapply (inode_mono B st'); [exact Hk''|set_solver|].
    eapply (inode_elsewhere st st' d d' dir' (i_ino i) (p :: L)); [done|done|congruence|done].
Qed.

Lemma init_acl_ok st d i dir L : balanced st (ptrs i ++ ptrs dir ++ L) -> inode_ok B st d i -> inode_ok B st d dir ->
  disk_ok d -> i_ino i <> i_ino dir ->
  exists st' d' i' dir' e, ext2_init_acl c st d i dir = Some (st', d', i', dir', e) /\
    created_ok e st st' d d' i i' dir dir' L /\
    (e = 0 /\ (S_ISLNK (i_mode i) = false -> exists o, says B d (i_ino dir) ACL_TYPE_DEFAULT o /\ created d d' i i' o) \/
     - 4095 <= e < 0).
Proof.
  intros Hb Hi Hdir Hd Hne. unfold ext2_init_acl. rewrite Hopt, andb_true_r.
  destruct (S_ISLNK (i_mode i)) eqn:Hl.
  { simpl negb. cbv iota. rewrite some_bind. change (IS_ERR 0) with false. cbn [andb negb Z.eqb]. rewrite some_bind. simpl.
    eexists _, _, _, _, _. split; [done|]. split; [|left; by split]. split_and!; try done. by apply inode_mark. }
  simpl negb. cbv iota.
  assert (Hb' : balanced st (ptrs dir ++ ptrs i ++ L)) by by rewrite (app_assoc (ptrs dir)), (Permutation_app_comm (ptrs dir)), <- app_assoc.
  destruct (get_acl_ok c Hopt B st d dir ACL_TYPE_DEFAULT (ptrs i ++ L) (or_intror eq_refl) Hb' Hdir Hd)
    as (st1&dir1&r&->&Hsf&Hdir1&Hk1&Hr1&Hout). rewrite some_bind.
  assert (Hi1 : inode_ok B st1 d i) by by eapply keeps_inode.
  apply get_outcome_err in Hout as [(Hneg&_&Hb1)|(o&Ha&Hp&Hb1)].
  { rewrite IS_ERR_neg by done. eexists _, _, _, _, _. split; [done|]. split; [|by right]. split_and!; try done.
    - eapply keeps_sub; [|exact Hk1]. set_solver.
    - by rewrite (app_assoc (ptrs i)), (Permutation_app_comm (ptrs i)), <- app_assoc.
    - by apply inode_mark. }
  assert (Hb2 : balanced st1 (ptrs i ++ ptrs dir1 ++ r :: L)).
  { eapply balanced_perm; [|exact Hb1]. rewrite (Permutation_middle (ptrs i)).
    by rewrite (app_assoc (ptrs dir1)), (Permutation_app_comm (ptrs dir1)), <- app_assoc. }
  destruct o as [s|]; simpl in Hp.
  - destruct Hp as [Hr0 He]. apply says_shape in Ha as Hs. rewrite IS_ERR_pos by lia. destruct (Z.eqb_spec r 0); [lia|]. cbn [andb negb].
    assert (Hfin : forall st2 d2 i2 e2, op_ok B e2 st1 st2 d d2 i i2 (ptrs dir1 ++ r :: L) -> exists st3,
      posix_acl_release st2 r = Some st3 /\ created_ok e2 st st3 d d2 i i2 dir dir1 L).
    { intros st2 d2 i2 e2 H2. apply (created_step e2 st st1 st2 d d2 i i2 dir dir1 r L); try done. lia. }
    assert (Hsetd : exists st2 d2 i2 e, (if S_ISDIR (i_mode i) then ext2_set_acl c st1 d i ACL_TYPE_DEFAULT r else Some (st1, d, i, 0)) = Some (st2, d2, i2, e) /\
      op_ok B e st1 st2 d d2 i i2 (ptrs dir1 ++ r :: L) /\ - 4095 <= e <= 0 /\
      (e = 0 -> i_mode i2 = i_mode i /\ (S_ISDIR (i_mode i) = true -> attr_is d2 (i_ino i) ACL_TYPE_DEFAULT (Some s)) /\
       content d2 (i_ino i) (attr_index ACL_TYPE_ACCESS) = content d (i_ino i) (attr_index ACL_TYPE_ACCESS))).
    { destruct (S_ISDIR (i_mode i)) eqn:Hdi; [|eexists _, _, _, _; split; [done|]; split; [by apply op_refl|done]].
      destruct (set_acl_ok c Hopt B st1 d i ACL_TYPE_DEFAULT r (Some s) (ptrs dir1 ++ r :: L))
        as (st2&d2&i2&e&->&Hsf2&Hout2); try done.
      { by right. } { intros ? [= <-]. split; [done|set_solver]. }
      eexists _, _, _, _. split; [done|]. split; [by eapply op_of_set|].
      destruct Hout2 as (_&_&_&_&_&Hds&Hrange&Hat&_). split; [done|]. intros He0. split; [apply Hsf2|]. split; [by intros _; apply Hat|].
      apply Hds. intros [_ ?]. done. }
    destruct Hsetd as (st2&d2&i2&e2&->&Hop2&Hrange2&Hres2). rewrite some_bind.
    destruct (Z.eqb_spec e2 0) as [->|Hne2]; cbn [negb].
    2:{ rewrite some_bind. destruct (Hfin st2 d2 i2 e2 Hop2) as (st3&->&Hc). rewrite some_bind.
        eexists _, _, _, _, _. split; [done|]. split; [done|]. right. lia. }
    destruct (Hres2 eq_refl) as (Hm2&Hda&Hacc).
    assert (Hop2' := Hop2). destruct Hop2' as (K2&R2&B2&I2&D2&O2&N2&U2&G2).
    destruct (init_access_ok st2 d2 i2 r s (ptrs dir1 ++ r :: L)) as (st3&d3&i3&e3&->&Hop3&Hres3); try done.
    { by eapply inode_unmark. } { set_solver. } { rewrite K2; [done|done|set_solver]. } { by rewrite Hm2. }
    rewrite some_bind. assert (Hop13 : op_ok B e3 st1 st3 d d3 i i3 (ptrs dir1 ++ r :: L)) by by eapply op_trans.
    destruct (Hfin st3 d3 i3 e3 Hop13) as (st4&->&Hc). rewrite some_bind. eexists _, _, _, _, _. split; [done|]. split; [done|].
    destruct Hres3 as [(->&Hm3&Hds3&Hat3)|]; [left|by right]. split; [done|]. intros _. exists (Some s). split; [done|].
    rewrite Hm2, N2 in *. split; [done|].
    split; [|split].
    + intros Hext. by rewrite Hext in Hat3.
    + intros Hext. rewrite Hext in Hat3. by rewrite (Hat3 (i_ino i)).
    + intros Hdi. eapply attr_transfer; [|by apply Hda]. apply Hds3. by intros [_ ?].
  - subst r. simpl negb. cbn [andb]. change (IS_ERR 0) with false. cbn [Z.eqb]. rewrite some_bind.
    destruct (created_step 0 st st1 st1 d d i (set_mode i (Z.land (i_mode i) (Z.lnot (c_umask c)))) dir dir1 0 L)
      as (st'&Hrel&Hc); try done.
    { split_and!; try done. by apply inode_mark. }
    rewrite Hrel, some_bind.
    eexists _, _, _, _, _. split; [done|]. split; [done|]. left. split; [done|]. intros _. by exists None.
Qed.
End create.

(** ** The file system as a whole

    The inodes in memory, and the calls that tasks make on them, in any order. *)

Section world.
  Context {D : Type} {HX : Xattrs D} {HL : XattrLaws D}.

Record world := World { w_st : store; w_disk : D; w_inodes : list inode }.

(** A call on the inode at position [n]: reading and writing an attribute (the access
    list or the default list), a permission check, chmod (i_mode is set, then
    ext2_acl_chmod runs), making a file in the directory, reading an inode into
    memory, dropping one from memory. *)
Inductive call :=
| Getxattr (n : nat) (access : bool) (name : list Z) (buffer : option (list Z)) (size : Z)
| Setxattr (n : nat) (access : bool) (name : list Z) (value : option (list Z))
| Permission (n : nat) (mask : Z)
| Chmod (n : nat) (mode : Z)
| Create (n : nat) (ino mode uid gid : Z)
| Iget (ino mode uid gid : Z)
| Evict (n : nat).

Definition in_memory (w : world) (ino : Z) : bool := existsb (fun i => i_ino i =? ino) (w_inodes w).

(** What the calls that store answered, with the number of their inode. *)
Definition answer_list : Type := list (Z * Z).

(** [None]: an object that is gone was used.  [f] gives the answer if it stores. *)
Definition on_file (w : world) (n : nat) (f : store -> D -> inode -> option (store * D * inode * option Z)) : option (world * answer_list) :=
  match w_inodes w !! n with
  | None => Some (w, [])
  | Some i =>
    r ← f (w_st w) (w_disk w) i;
    let '(st, d, i', e) := (r : store * D * inode * option Z) in
    Some (World st d (i' :: delete n (w_inodes w)), match e with Some e => [(i_ino i, e)] | None => [] end)
  end.
Definition step (c : context) (w : world) (x : call) : option (world * answer_list) :=
  match x with
  | Getxattr n access name buffer size => on_file w n (fun st d i =>
      r ← (if access then ext2_xattr_get_acl_access c st d i name buffer size
           else ext2_xattr_get_acl_default c st d i name buffer size);
      Some (r.1.1, d, r.1.2, None))
  | Setxattr n access name value => on_file w n (fun st d i =>
      r ← (if access then ext2_xattr_set_acl_access c st d i name value (zlen (default [] value))
           else ext2_xattr_set_acl_default c st d i name value (zlen (default [] value)));
      Some (r.1, Some r.2))
  | Permission n mask => on_file w n (fun st d i => r ← ext2_permission c st d i mask; Some (r.1.1, d, r.1.2, None))
  | Chmod n mode => on_file w n (fun st d i => r ← ext2_acl_chmod c st d (set_mode i mode); Some (r.1, Some r.2))
  | Create n ino mode uid gid =>
    if in_memory w ino then Some (w, []) else
    match w_inodes w !! n with
    | None => Some (w, [])
    | Some dir =>
      r ← ext2_init_acl c (w_st w) (w_disk w) (fresh_inode ino mode uid gid) dir;
      let '(st, d, i, dir, e) := (r : store * D * inode * inode * Z) in
      Some (World st d (i :: dir :: delete n (w_inodes w)), [(ino, e)])
    end
  | Iget ino mode uid gid =>
    Some (if in_memory w ino then w else World (w_st w) (w_disk w) (fresh_inode ino mode uid gid :: w_inodes w), [])
  | Evict n =>
    match w_inodes w !! n with
    | None => Some (w, [])
    | Some i => r ← ext2_clear_inode (w_st w) i; Some (World r.1 (w_disk w) (delete n (w_inodes w)), [])
    end
  end.
Fixpoint run (w : world) (l : list (context * call)) : option (world * answer_list) :=
  match l with
  | [] => Some (w, [])
  | (c, x) :: l =>
    r ← step c w x;
    let '(w, ans) := (r : world * answer_list) in
    r ← run w l;
    Some (r.1, ans ++ r.2)
  end.

Definition uses (l : list inode) : list Z := concat (map ptrs l).
(** References are counted, cached lists are valid and, but for the inodes of [B],
    those of the disk, only valid lists are on the disk, and no inode is in memory
    twice. *)
Definition world_ok (B : Z -> Prop) (w : world) : Prop :=
  balanced (w_st w) (uses (w_inodes w)) /\ Forall (inode_ok B (w_st w) (w_disk w)) (w_inodes w) /\
  disk_ok (w_disk w) /\ NoDup (map i_ino (w_inodes w)).
(** The inodes for which a store failed. *)
Definition failed (ans : answer_list) : Z -> Prop := fun ino => exists e, (ino, e) ∈ ans /\ e < 0.
Definition after (B : Z -> Prop) (ans : answer_list) : Z -> Prop := fun ino => B ino \/ failed ans ino.

(** The mount has the option, and a task's groups are at hand; a buffer is as long as
    it is said to be, and its elements are bytes. *)
Definition call_ok (x : context * call) : Prop :=
  posixacl x.1 = true /\ (forall g, is_Some (c_in_group_p x.1 g)) /\
  match x.2 with
  | Getxattr _ _ _ buffer size => zlen (default [] buffer) = size \/ buffer = None
  | Setxattr _ _ _ value => forall b, value = Some b -> Forall (fun x => 0 <= x < 256) b
  | _ => True
  end.

#[export] Instance uses_proper : Proper (Permutation ==> Permutation) uses.
Proof.
  intros l l' H. unfold uses. induction H as [|x l l' _ IH|x y l|l1 l2 l3 _ IH1 _ IH2]; cbn [map concat]; [done| | |by rewrite IH1].
  - by rewrite IH.
  - by rewrite !app_assoc, (Permutation_app_comm (ptrs y)).
Qed.

(** One inode and the rest. *)
Lemma world_weaken (B B' : Z -> Prop) w : (forall x, B x -> B' x) -> world_ok B w -> world_ok B' w.
Proof. intros HB (Hb&Hi&Hd&Hn). split_and!; try done. eapply Forall_impl; [exact Hi|]. intros i. by apply inode_weaken. Qed.
Lemma after_nil B x : after B [] x -> B x.
Proof. intros [|(e&He&_)]; [done|by apply elem_of_nil in He]. Qed.
Lemma after_runs B a a' x : after (after B a) a' x -> after B (a ++ a') x.
Proof.
  intros [[|(e&He&Hn)]|(e&He&Hn)]; [by left|right|right]; exists e; (split; [apply elem_of_app|done]); [by left|by right].
Qed.
Lemma after_one B ino e x : mark e ino B x -> after B [(ino, e)] x.
Proof. intros [|[He ->]]; [by left|right]. exists e. split; [by left|done]. Qed.

Lemma world_focus B w n i : world_ok B w -> w_inodes w !! n = Some i -> exists r, r = delete n (w_inodes w) /\
  balanced (w_st w) (ptrs i ++ uses r) /\ inode_ok B (w_st w) (w_disk w) i /\ Forall (inode_ok B (w_st w) (w_disk w)) r /\
  disk_ok (w_disk w) /\ i_ino i ∉ map i_ino r /\ NoDup (map i_ino r) /\ (forall j, j ∈ r -> j ∈ w_inodes w).
Proof.
  intros (Hb&Hi&Hd&Hn) Hl. pose proof (delete_Permutation _ _ _ Hl) as Hp. eexists. split; [done|].
  rewrite Hp in Hb. rewrite Hp in Hi. rewrite (Permutation_map i_ino Hp) in Hn. apply Forall_cons in Hi as [Hi Hr].
  apply NoDup_cons in Hn as [Hn1 Hn2]. split_and!; try done. intros j Hj. rewrite Hp. by right.
Qed.

Lemma uses_in j (r : list inode) : j ∈ r -> ptrs j ⊆ uses r.
Proof.
  intros Hj x Hx. unfold uses. apply list_elem_of_In, in_concat. exists (ptrs j). split; [|by apply list_elem_of_In].
  apply in_map. by apply list_elem_of_In.
Qed.

(** The other inodes do not notice what happens to one. *)
Lemma rest_ok B st st' d d' r ino L : Forall (inode_ok B st d) r -> keeps L st st' -> uses r ⊆ L -> disk_other d d' ino ->
  ino ∉ map i_ino r -> Forall (inode_ok B st' d') r.
Proof.
  intros Hr Hk Hs Ho Hn. rewrite Forall_forall in *. intros j Hj.
  eapply (inode_elsewhere B st st' d d' j ino []); [|done| |by apply Hr].
  - rewrite app_nil_r. eapply keeps_sub; [|exact Hk]. etrans; [by apply uses_in|done].
  - intros <-. apply Hn. apply list_elem_of_In, in_map. by apply list_elem_of_In.
Qed.

Lemma rest_weaken (B B' : Z -> Prop) st d r : (forall x, B x -> B' x) -> Forall (inode_ok B st d) r -> Forall (inode_ok B' st d) r.
Proof. intros HB Hr. eapply Forall_impl; [exact Hr|]. intros j. by apply inode_weaken. Qed.

Lemma world_of_op B e st st' d d' i i' r : op_ok B e st st' d d' i i' (uses r) -> Forall (inode_ok B st d) r ->
  i_ino i ∉ map i_ino r -> NoDup (map i_ino r) -> world_ok (mark e (i_ino i) B) (World st' d' (i' :: r)).
Proof.
  intros (K&R&Bl&I&Dk&O&N&U&G) Hr Hn1 Hn2. split_and!; try done.
  - constructor; [done|]. eapply rest_weaken; [apply mark_keeps|]. by eapply rest_ok.
  - cbn [w_inodes map]. rewrite N. by constructor.
Qed.

Lemma on_file_ok B w n f : world_ok B w ->
  (forall i L, balanced (w_st w) (ptrs i ++ L) -> inode_ok B (w_st w) (w_disk w) i -> disk_ok (w_disk w) ->
     exists st' d' i' o, f (w_st w) (w_disk w) i = Some (st', d', i', o) /\ op_ok B (default 0 o) (w_st w) st' (w_disk w) d' i i' L) ->
  exists w' ans, on_file w n f = Some (w', ans) /\ world_ok (after B ans) w'.
Proof.
  intros Hw Hf. unfold on_file. destruct (w_inodes w !! n) as [i|] eqn:Hl.
  2:{ exists w, []. split; [done|]. eapply world_weaken; [|exact Hw]. by left. }
  destruct (world_focus B w n i Hw Hl) as (r&Hr&Hb&Hi&Hri&Hd&Hn1&Hn2&_). rewrite <- Hr.
  destruct (Hf i (uses r) Hb Hi Hd) as (st'&d'&i'&o&->&Hop). rewrite some_bind. eexists _, _. split; [done|].
  eapply world_weaken; [|by eapply world_of_op]. destruct o as [e|]; [intros x; apply after_one|]. intros x [|[? _]]; [by left|done].
Qed.

Lemma in_memory_false w ino : in_memory w ino = false -> ino ∉ map i_ino (w_inodes w).
Proof.
  intros H Hin. apply list_elem_of_In, in_map_iff in Hin as (i&Hi&Hin).
  assert (Ht : in_memory w ino = true) by (apply existsb_exists; exists i; by rewrite Hi, Z.eqb_refl). congruence.
Qed.

(** *** Eviction *)

Lemma drop_ok B st d i type L : is_type type -> balanced st (ptrs i ++ L) -> inode_ok B st d i -> exists st' i',
  drop_field st i type = Some (st', i') /\ balanced st' (ptrs i' ++ L) /\ inode_ok B st' d i' /\ keeps L st st' /\
  requests st <= requests st' /\ i_field i' type <= 0 /\ i_field i' (other_type type) = i_field i (other_type type).
Proof.
  intros Ht Hb Hi. unfold drop_field. pose proof (cache_range B st d i type (inode_cache B st d i type Ht Hi)) as Hrange.
  destruct (negb (i_field i type =? 0) && negb (i_field i type =? EXT2_ACL_NOT_CACHED)) eqn:Hc.
  - apply andb_true_iff in Hc as [H0%negb_true_iff%Z.eqb_neq H1%negb_true_iff%Z.eqb_neq].
    destruct Hrange as [|Hp]; [done|]. destruct (ptrs_split i type Ht) as (q&Hq&Hset&Hqf).
    assert (Hb1 : balanced st (i_field i type :: q :: L)) by (eapply balanced_perm; [|exact Hb]; by rewrite Hq).
    destruct (release_ok st _ _ Hb1 Hp) as (st'&->&Hb'&Hk&Hr). rewrite some_bind. eexists _, _. split; [done|].
    assert (Ho : cache_ok B st' d i (other_type type)) by (eapply cache_mono; [exact Hk|rewrite <- Hqf; left|by apply inode_other]).
    split; [|split; [|split; [eapply keeps_sub; [|exact Hk]; set_solver|split; [done|]]]].
    + rewrite Hset. simpl. by apply balanced_zero.
    + destruct Ht as [-> | ->]; split; (exact Ho || by left).
    + by destruct Ht as [-> | ->].
  - eexists _, _. split; [done|]. split_and!; try done.
    apply andb_false_iff in Hc as [H%negb_false_iff%Z.eqb_eq|H%negb_false_iff%Z.eqb_eq]; rewrite H; done.
Qed.

Lemma clear_ok B st d i L : balanced st (ptrs i ++ L) -> inode_ok B st d i -> exists st' i',
  ext2_clear_inode st i = Some (st', i') /\ balanced st' L /\ keeps L st st'.
Proof.
  intros Hb Hi. unfold ext2_clear_inode.
  destruct (drop_ok B st d i ACL_TYPE_ACCESS L (or_introl eq_refl) Hb Hi) as (st1&i1&->&Hb1&Hi1&Hk1&_&Ha1&_). rewrite some_bind.
  destruct (drop_ok B st1 d i1 ACL_TYPE_DEFAULT L (or_intror eq_refl) Hb1 Hi1) as (st2&i2&Hd2&Hb2&_&Hk2&_&Ha2&Hx).
  cbn [fst snd]. rewrite Hd2. eexists _, _. split; [done|]. split; [|by eapply keeps_trans].
  change (other_type ACL_TYPE_DEFAULT) with ACL_TYPE_ACCESS in Hx. rewrite <- Hx in Ha1.
  unfold ptrs in Hb2. simpl in Hb2. apply balanced_zero in Hb2; [|exact Ha1]. apply balanced_zero in Hb2; [done|exact Ha2].
Qed.
End world.

(** ** Every sequence of calls *)

Section history.
  Context {D : Type} {HX : Xattrs D} {HL : XattrLaws D}.

Section one.
  Context (c : context) (B : Z -> Prop).
  Hypothesis Hopt : posixacl c = true.

Lemma permission_ok st d i mask L : (forall g, is_Some (c_in_group_p c g)) -> balanced st (ptrs i ++ L) -> inode_ok B st d i ->
  disk_ok d -> exists st' i' r, ext2_permission c st d i mask = Some (st', i', r) /\ op_ok B 0 st st' d d i i' L.
Proof.
  intros Hg Hb Hi Hd. unfold ext2_permission, generic_permission.
  destruct (c_fsuid c =? i_uid i); [eexists _, _, _; split; [done|by apply op_refl]|].
  assert (Hch : exists st' i' r, ext2_check_acl c st d i mask = Some (st', i', r) /\ op_ok B 0 st st' d d i i' L).
  { destruct (check_acl_ok c (fun g => default false (c_in_group_p c g)) Hopt) with (B := B) (st := st) (d := d) (i := i) (mask := mask) (L := L)
      as (st'&i'&r&->&Hsf&Hi'&Hk&Hr&Hb'&_); try done.
    { intros g. by destruct (Hg g) as [b ->]. }
    eexists _, _, _. split; [done|]. by apply op_of_get. }
  destruct (Hg (i_gid i)) as [b Hgb].
  destruct (posixacl c && negb (Z.land (i_mode i) S_IRWXG =? 0)).
  - destruct Hch as (st'&i'&r&->&Hop). rewrite some_bind.
    destruct (r =? - EACCES); [eexists _, _, _; split; [done|exact Hop]|].
    destruct (negb (r =? - EAGAIN)); [eexists _, _, _; split; [done|exact Hop]|].
    destruct Hop as (K&R&Bl&I&Dk&O&N&U&G). rewrite G, Hgb, some_bind. eexists _, _, _. split; [done|]. by split_and!.
  - rewrite Hgb, some_bind. eexists _, _, _. split; [done|]. by apply op_refl.
Qed.

Lemma chmod_any st d i L : balanced st (ptrs i ++ L) -> inode_ok B st d i -> disk_ok d ->
  exists st' d' i' e, ext2_acl_chmod c st d i = Some (st', d', i', e) /\ op_ok B e st st' d d' i i' L.
Proof.
  intros Hb Hi Hd. destruct (S_ISLNK (i_mode i)) eqn:Hl.
  { unfold ext2_acl_chmod. rewrite Hopt, Hl. eexists _, _, _, _. split; [done|]. by apply op_refl. }
  destruct (chmod_ok c B Hopt st d i L) as (st'&d'&i'&e&->&Hop&_); try done. by eexists _, _, _, _.
Qed.
End one.

Lemma create_step_ok B c w n ino m u g : posixacl c = true -> world_ok B w ->
  exists w' ans, step c w (Create n ino m u g) = Some (w', ans) /\ world_ok (after B ans) w'.
Proof.
  intros Hopt Hw. assert (Hsame : world_ok (after B []) w) by (eapply world_weaken; [|exact Hw]; by left).
  cbn [step]. destruct (in_memory w ino) eqn:Hm; [by exists w, []|].
  destruct (w_inodes w !! n) as [dir|] eqn:Hl; [|by exists w, []]. clear Hsame.
  apply in_memory_false in Hm. destruct (world_focus B w n dir Hw Hl) as (r&Hr&Hb&Hi&Hri&Hd&Hn1&Hn2&Hsub). rewrite <- Hr.
  assert (Hfresh : ino ∉ map i_ino r).
  { intros Hin. apply Hm. apply list_elem_of_In, in_map_iff in Hin as (j&<-&Hj). apply list_elem_of_In, in_map, list_elem_of_In, Hsub.
    by apply list_elem_of_In. }
  assert (Hdir : ino <> i_ino dir).
  { intros ->. apply Hm. apply list_elem_of_In, in_map, list_elem_of_In. by eapply list_elem_of_lookup_2. }
  destruct (init_acl_ok c B Hopt (w_st w) (w_disk w) (fresh_inode ino m u g) dir (uses r)) as (st'&d'&i'&dir'&e&->&Hc&_); try done.
  { by apply fresh_balanced. } { apply fresh_ok. }
  rewrite some_bind. eexists _, _. split; [done|]. destruct Hc as (K&R&Bl&I&Id&Dk&O&N&U&G&Hsf). cbn [fresh_inode i_ino] in *.
  assert (Hino : i_ino dir' = i_ino dir) by apply Hsf. eapply world_weaken; [intros x; apply after_one|]. split_and!; try done.
  - constructor; [done|]. eapply rest_weaken; [apply mark_keeps|]. constructor; [done|]. by eapply rest_ok.
  - cbn [w_inodes map]. rewrite N, Hino. constructor; [|by constructor]. apply not_elem_of_cons. by split.
Qed.

Lemma call_step_ok B c w x : world_ok B w -> call_ok (c, x) -> exists w' ans, step c w x = Some (w', ans) /\ world_ok (after B ans) w'.
Proof.
  intros Hw (Hopt&Hg&Hx). simpl in Hopt, Hg, Hx.
  destruct x as [n a name buf size|n a name v|n mask|n m|n ino m u g|ino m u g|n]; cbn [step].
  - apply on_file_ok; [done|]. intros i L Hb Hi Hd. destruct name as [|ch name].
    2:{ destruct a; simpl; eexists _, _, _, _; (split; [done|by apply op_refl]). }
    assert (H : forall type, is_type type -> exists st' d' i' o, (r ← ext2_xattr_get_acl c (w_st w) (w_disk w) i type buf size;
      Some (r.1.1, w_disk w, r.1.2, None)) = Some (st', d', i', o) /\ op_ok B (default 0 o) (w_st w) st' (w_disk w) d' i i' L).
    { intros type Ht. destruct (xattr_get_ok c B Hopt (w_st w) (w_disk w) i type buf size L Ht Hb Hi Hd Hx) as (st'&i'&r&->&Hop&_).
      rewrite some_bind. by eexists _, _, _, _. }
    destruct a; apply H; [by left|by right].
  - apply on_file_ok; [done|]. intros i L Hb Hi Hd. destruct name as [|ch name].
    2:{ destruct a; simpl; eexists _, _, _, _; (split; [done|by apply op_refl]). }
    assert (H : forall type, is_type type -> exists st' d' i' o, (r ← ext2_xattr_set_acl c (w_st w) (w_disk w) i type v (zlen (default [] v));
      Some (r.1, Some r.2)) = Some (st', d', i', o) /\ op_ok B (default 0 o) (w_st w) st' (w_disk w) d' i i' L).
    { intros type Ht. destruct (xattr_set_ok c B Hopt (w_st w) (w_disk w) i type v L Ht Hb Hi Hd Hx) as (st'&d'&i'&e&->&Hop).
      rewrite some_bind. by eexists _, _, _, _. }
    destruct a; apply H; [by left|by right].
  - apply on_file_ok; [done|]. intros i L Hb Hi Hd.
    destruct (permission_ok c B Hopt (w_st w) (w_disk w) i mask L Hg Hb Hi Hd) as (st'&i'&r&->&Hop). rewrite some_bind. by eexists _, _, _, _.
  - apply on_file_ok; [done|]. intros i L Hb Hi Hd.
    destruct (chmod_any c B Hopt (w_st w) (w_disk w) (set_mode i m) L) as (st'&d'&i'&e&->&Hop); try done. rewrite some_bind. by eexists _, _, _, _.
  - by apply create_step_ok.
  - eexists _, _. split; [done|]. eapply (world_weaken B); [by left|].
    destruct (in_memory w ino) eqn:Hm; [done|]. apply in_memory_false in Hm.
    destruct Hw as (Hb&Hi&Hd&Hn). split_and!; try done.
    + cbn [w_st w_inodes]. unfold uses. cbn [map concat]. by apply fresh_balanced.
    + constructor; [apply fresh_ok|done].
    + cbn [w_inodes map]. by constructor.
  - destruct (w_inodes w !! n) as [i|] eqn:Hl; [|exists w, []; split; [done|]; eapply world_weaken; [|exact Hw]; by left].
    destruct (world_focus B w n i Hw Hl) as (r&Hr&Hb&Hi&Hri&Hd&Hn1&Hn2&_). rewrite <- Hr.
    destruct (clear_ok B (w_st w) (w_disk w) i (uses r) Hb Hi) as (st'&i'&->&Hb'&Hk). rewrite some_bind. eexists _, _. split; [done|].
    eapply (world_weaken B); [by left|].
    split_and!; try done. eapply (rest_ok B (w_st w) st' (w_disk w) (w_disk w) r (i_ino i) (uses r)); done.
Qed.

Lemma run_ok l : Forall call_ok l -> forall B w, world_ok B w -> exists w' ans, run w l = Some (w', ans) /\ world_ok (after B ans) w'.
Proof.
  induction 1 as [|[c x] l Hx Hl IH]; intros B w Hw; cbn [run].
  { exists w, []. split; [done|]. eapply world_weaken; [|exact Hw]. by left. }
  destruct (call_step_ok B c w x Hw Hx) as (w1&a1&->&Hw1). rewrite some_bind.
  destruct (IH _ w1 Hw1) as (w2&a2&->&Hw2). rewrite some_bind. eexists _, _. split; [done|].
  eapply world_weaken; [|exact Hw2]. intros y. apply after_runs.
Qed.

(** C2. Any sequence of calls by any tasks on a file system in a good state, with
    allocations, reads and stores failing at will, a failed store having taken effect
    or not, never uses an object that is gone: every list has exactly the references
    the inodes in memory hold to it, every cached list is valid, the disk holds only
    valid lists, and the cached list is the one on the disk for every file but those
    for which a call that stores has answered an error.  When no inode is left in
    memory, no list is. *)
Theorem histories_are_safe w l : world_ok none w -> Forall call_ok l ->
  exists w' ans, run w l = Some (w', ans) /\ world_ok (failed ans) w' /\ (w_inodes w' = [] -> acls (w_st w') = ∅).
Proof.
  intros Hw Hl. destruct (run_ok l Hl none w Hw) as (w'&ans&Hr&Hw'). exists w', ans. split; [done|]. split.
  - eapply world_weaken; [|exact Hw']. by intros x [[]|].
  - intros He. destruct Hw' as ([_ Hb]&_). rewrite He in Hb.
    apply map_empty. intros p. specialize (Hb p). destruct (acls (w_st w') !! p); [|done].
    destruct Hb as (_&_&Hb). unfold cnt, uses in Hb. simpl in Hb. lia.
Qed.
End history.

(** ** Making a file *)

Section inherit.
  Context {D : Type} {HX : Xattrs D} {HL : XattrLaws D} (c : context).
  Hypothesis Hopt : posixacl c = true.

(** C15. A file that is made in a directory: with a default list in the directory the
    file gets a copy of it with the classes cut to the requested mode (as its list
    if it says more than a mode, else as its mode alone), its mode gets the bits of
    that list, and a directory gets the default list too; without one the umask is
    taken off the mode.  Either way mode and list of the new file agree, and the
    references and caches of both inodes are in order; or an error is returned, with
    the references in order and the directory's cache too. *)
Theorem create_inherits st d i dir L o : balanced st (ptrs i ++ ptrs dir ++ L) -> inode_ok none st d i -> inode_ok none st d dir ->
  disk_ok d -> i_ino i <> i_ino dir -> attr_is d (i_ino dir) ACL_TYPE_DEFAULT o -> attr_is d (i_ino i) ACL_TYPE_ACCESS None ->
  S_ISLNK (i_mode i) = false ->
  exists st' d' i' dir' e, ext2_init_acl c st d i dir = Some (st', d', i', dir', e) /\
    created_ok none e st st' d d' i i' dir dir' L /\
    (e = 0 /\ inode_ok none st' d' i' /\ created c d d' i i' o /\ (exists o', attr_is d' (i_ino i) ACL_TYPE_ACCESS o' /\
       forall s, o' = Some s -> shape_mode (i_mode i') s = i_mode i') \/
     - 4095 <= e < 0).
Proof.
  intros Hb Hi Hdir Hd Hne Ho Hnone Hl.
  destruct (init_acl_ok c none Hopt st d i dir L Hb Hi Hdir Hd Hne) as (st'&d'&i'&dir'&e&->&Hc&Hres).
  eexists _, _, _, _, _. split; [done|]. split; [done|]. destruct Hres as [[-> Hcr]|]; [left|by right].
  destruct (Hcr Hl) as (o'&Ho'&Hcr'). apply (says_none _ _ _ _ _ Ho) in Ho' as ->. clear Hcr. rename Hcr' into Hcr.
  split; [done|]. split; [eapply inode_unmark; [done|apply Hc]|]. split; [done|]. destruct o as [s|]; simpl in Hcr.
  - destruct Hcr as (Hm&Hext&Hno&_). pose proof (proj2 Ho s eq_refl) as Hs. destruct (extended s) eqn:E.
    + exists (Some (create_shape s (i_mode i))). split; [by apply Hext|]. intros ? [= <-]. rewrite Hm. apply shape_mode_twice. by apply create_shape_ok.
    + exists None. split; [|done]. eapply attr_transfer; [by apply Hno|exact Hnone].
  - exists None. split; [|done]. eapply attr_transfer; [apply Hcr|exact Hnone].
Qed.
End inherit.

Lemma create_inherits_witness : exists st' d' i' dir' e,
  ext2_init_acl (sample_task 7) sample_store (sample_disk fair) (fresh_inode 11 33206 7 0) sample_dir = Some (st', d', i', dir', e) /\
  created_ok none e sample_store st' (sample_disk fair) d' (fresh_inode 11 33206 7 0) i' sample_dir dir' [] /\
  (e = 0 /\ inode_ok none st' d' i' /\ created (sample_task 7) (sample_disk fair) d' (fresh_inode 11 33206 7 0) i' (Some sample_shape) /\
   (exists o', attr_is d' 11 ACL_TYPE_ACCESS o' /\ forall s, o' = Some s -> shape_mode (i_mode i') s = i_mode i') \/
   - 4095 <= e < 0).
Proof.
  apply (create_inherits (sample_task 7) eq_refl).
  - apply fresh_balanced, fresh_balanced, sample_balanced.
  - apply fresh_ok.
  - apply fresh_ok.
  - apply sample_disk_ok.
  - discriminate.
  - split; [reflexivity|intros s [= <-]; apply sample_shape_ok].
  - split; [reflexivity|discriminate].
  - reflexivity.
Defined.

(** ** A sample history *)

Definition sample_world : world (D := attrs) := World sample_store (sample_disk fair) [sample_file; sample_dir].
(** Read the list, change it, make a file, check, drop everything. *)
Definition sample_calls : list (context * call) :=
  [(sample_task 7, Getxattr 0 true [] None 0);
   (sample_task 7, Permission 0 4);
   (sample_task 0, Chmod 0 33184);
   (sample_task 7, Create 1 11 33206 7 0);
   (sample_task 0, Setxattr 2 true [] None);
   (sample_task 0, Evict 0); (sample_task 0, Evict 0); (sample_task 0, Evict 0)].
Lemma histories_are_safe_witness : exists w' ans, run sample_world sample_calls = Some (w', ans) /\ world_ok (failed ans) w' /\
  (w_inodes w' = [] -> acls (w_st w') = ∅).
Proof.
  apply histories_are_safe.
  - split_and!.
    + apply fresh_balanced, fresh_balanced, sample_balanced.
    + repeat constructor; by left.
    + apply sample_disk_ok.
    + repeat constructor; set_solver.
  - repeat constructor; by eexists || by right || done.
Defined.
Example sample_run : (r ← run sample_world sample_calls; Some (map i_ino (w_inodes r.1), map_to_list (acls (w_st r.1)), r.2)) =
  Some ([], [], [(10, 0); (11, 0); (10, 0)]).
Proof. vm_compute. reflexivity. Qed.
